(* ===== verification/_CoqProject ===== *)
-Q . S2P
Prelude.v
StdMap.v
OutputSet.v
Flit.v
VCBuffer.v
BufferState.v
BufferStateInv.v
Credits.v
Link.v
Channel.v
Arbiter.v
ArbiterProofs.v
Arbitration.v
Allocator.v
AllocLaws.v
AllocStore.v
Separable.v
Wavefront.v
Lonely.v
Rng.v
Rounds.v
Islip.v
MaxSize.v
Select.v
KNCube.v
Route.v
Mesh.v
MeshRouting.v
TwoPhase.v
AdaptiveMesh.v
MeshTheorems.v
TorusRoute.v
Torus.v
TorusTheorems.v
Dijkstra.v
AnyNet.v
AnyNetWiring.v
AnyNetRouting.v
AnyNetFile.v
AnyNetTheorems.v
DGX.v
DGXRouting.v
DGXTheorems.v
Fly.v
SwitchAlloc.v
IQRouter.v
IQSwitch.v
Wormhole.v
RouterInv.v
RouterQueues.v
RouterStages.v
RouterRoute.v
RouterVCAlloc.v
RouterSwitchAlloc.v
RouterSend.v
RouterSwitch.v
RouterStep.v
RouterRun.v
RouterSpec.v
RouterFlow.v
Network.v
TrafficManager.v
NetChannels.v
NetworkInv.v
NetworkRun.v
NetworkSpec.v
Packets.v
Terminal.v
SimInv.v
SimNodes.v
Retire.v
SimStep.v
SimInterface.v
SimSpec.v
Steered.v
Simulators.v
GemBuffer.v
GemNetwork.v
GemInv.v
GemSpec.v
