(* ===== verification/Prelude.v ===== *)
(** * Verification of the LSAIN simulator's network simulator

    The repository's simulator of AI interconnects runs its networks on a fork of
    BookSim 2, a cycle-accurate simulator of interconnection networks; its sources
    are under src/booksim2/src.  This library is a model of the parts of that
    simulator that move packets, translated function by function, with theorems
    that say what each part promises and that the parts work together, and of the
    code that makes it the network of gem5's memory system, under
    src/gem5/src/mem/ruby.  File names below without a directory are those of
    src/booksim2/src (C++) and of this directory (Rocq).

    ** The program

    A network is a set of routers connected by channels.  A topology (networks/)
    numbers the routers, channels and terminal nodes and wires them; a routing
    function (routefunc.cpp, or a member of the topology) says, at a router, which
    output ports and virtual channels (VCs) a packet may take.  Every cycle each
    router (routers/) reads its input channels, advances its pipeline and writes
    its output channels.  An input-queued router buffers flits in the VCs of its
    inputs (vc.cpp, buffer.cpp), gives packets an output VC (an allocator,
    allocators/, built from arbiters, arbiters/), matches inputs to outputs of the
    switch (another allocator), and keeps for each output the state of the buffer
    at the other end (buffer_state.cpp): flits are sent only while it has room, and
    the other end returns a credit for each flit that has left it.

    A [Network] steps its channels and routers.  The traffic manager
    (trafficmanager.cpp) is the nodes: it queues the flits of packets, sends them
    into the network, takes arriving flits from it and puts packets together again.
    A program that embeds the simulator calls [BooksimWrapper] (booksim_wrapper.cpp):
    it generates packets, runs cycles, collects the packets that have arrived and
    asks whether any are in flight.

    gem5 is such a program.  Its controllers exchange messages through message
    buffers (network/MessageBuffer.cc of src/gem5/src/mem/ruby).  [BooksimNetwork]
    (network/booksim/) reads the buffers of the senders, makes a packet of each message
    for each of its destinations, runs the simulator, and puts the messages of the
    packets that have arrived into the buffers of the receivers.

    ** How the code is modelled

    Machine integers are [Z]; where the code narrows to [int] ([to_int]) or divides
    ([`quot`], [`rem`]) the model does so; sizes that overflow an [int] ([powi]) are not
    covered; and the generator of random numbers works
    on its 30-bit words.  A computation that can fail has type [res]: [Fail] is an
    [assert] that aborts, [Module::Error] or [exit(-1)], an access outside a vector,
    or a read of an undefined value; [Ok] carries the new state.  [returns m Q] says
    that [m] ends without a failure in a state with [Q], so a theorem of this form
    excludes every such failure.  Objects are records, passed and returned by the
    operations that change them; a [std::vector] is a list read with [vget] and
    written with [vset], which fail out of range; a [std::map] or [std::set] is the
    list of its entries in order ([StdMap.v]).  [for] loops are [zfor] and [zforb]
    (with [break]).  Random numbers are drawn from an explicit state ([Rng.v]).
    Virtual methods are type classes or records of operations ([Arbiter],
    [AllocatorI], [RouterAllocator]) with their laws ([ArbiterLaws],
    [AllocatorLaws], [RouterAllocLaws]), and the clients are verified against the
    laws.

    ** Files

    - Prelude.v: [res], vectors, loops, sums, the shared lemmas and tactics.
      StdMap.v: maps and sets.

    - OutputSet.v (outputset.cpp), Flit.v (flit.cpp, credit.cpp): the results of
      routing functions and what travels.

    - VCBuffer.v (vc.cpp, buffer.cpp), BufferState.v (buffer_state.cpp with its seven
      buffer policies): the two ends of a link.  BufferStateInv.v and Credits.v
      verify the second; Link.v composes both ends with two channels into a step
      relation and shows that credit flow control loses nothing.

    - Channel.v (channel.hpp, flitchannel.cpp, pipefifo.hpp): delay lines.

    - Arbiter.v, ArbiterProofs.v, Arbitration.v (arbiters/): round robin, matrix,
      tree and priority arbiters; the laws of a cycle, and fairness.

    - Allocator.v, AllocLaws.v, AllocStore.v (allocators/allocator.cpp)
      and Separable.v, Wavefront.v, Lonely.v, Rounds.v (PIM), Islip.v, MaxSize.v,
      Select.v: every allocator, with the quality of the matching it grants.
      SwitchAlloc.v adds what a router reads back from an allocator.

    - Rng.v (rng.hpp, random_utils.hpp): Knuth's lagged Fibonacci generator.

    - KNCube.v (networks/kncube.cpp), Route.v and TorusRoute.v (routefunc.cpp):
      meshes and tori and their routing functions.  Mesh.v defines the hops of
      packets and derives delivery and deadlock freedom from [RoutingLaws]; with it,
      MeshRouting.v, TwoPhase.v, AdaptiveMesh.v and Torus.v
      discharge them; MeshTheorems.v and TorusTheorems.v state the results.

    - Dijkstra.v: the search for routes that AnyNet and the
      DGX-1 share, and why it finds shortest paths.  AnyNet.v to AnyNetTheorems.v (networks/anynet.cpp): networks read
      from a file, from its text to the delivery of packets.  DGX.v, DGXRouting.v,
      DGXTheorems.v (networks/nvidia_dgx_1.cpp).  Fly.v (networks/fly.cpp).

    - IQRouter.v and IQSwitch.v (routers/iq_router.cpp, routers/router.cpp): the
      input-queued router, one definition per stage of its pipeline.  Wormhole.v is
      its specification: sequences of moves of flits.  RouterInv.v states the
      invariant; RouterQueues.v, RouterStages.v (input queuing), RouterRoute.v,
      RouterVCAlloc.v, RouterSwitchAlloc.v, RouterSend.v, RouterSwitch.v and
      RouterStep.v show stage by stage that it is kept and that nothing fails;
      RouterRun.v and RouterSpec.v lift this to runs; [Limits] of RouterSpec.v has runs of
      configurations that do not work.  RouterFlow.v has what the networks need of a
      router's runs.

    - Network.v (networks/network.cpp): channels and routers, and the three phases of
      a cycle.  NetChannels.v has the channels between phases; NetworkInv.v the
      invariant of a network, with the history of what its nodes sent and received
      ([NetHist]); NetworkRun.v shows that the phases keep it, each router being in
      the environment its theorems ask for; NetworkSpec.v that packets arrive whole,
      at their destinations, and that no flit is lost or doubled.

    - TrafficManager.v (trafficmanager.cpp, trafficmanager_wrapper.cpp,
      booksim_wrapper.cpp): the nodes and the interface.  Packets.v numbers packets
      and flits; Terminal.v has the credits and the open packet of a node; SimInv.v,
      SimNodes.v (reading and injecting), Retire.v (retiring), SimStep.v (a cycle) and
      SimInterface.v (the calls) keep the invariant [sim_ok]; SimSpec.v states the
      abstract service and the refinement.

    - Steered.v constructs the state; networks whose routing function gives every packet one output
      ([Steered]) make a simulator ([simulate]).  Simulators.v: meshes and AnyNet are
      such networks; the theorems about whole simulators.

    - GemBuffer.v (MessageBuffer.cc, NetDest.cc, Consumer.cc, Message.hh of gem5):
      messages, sets of destinations, buffers and wakeups.  GemNetwork.v
      (BooksimNetwork.cc, NetworkSwitch.cc, NetworkInterface.cc): the network of gem5,
      over the simulator's interface ([BooksimWrapper]).  GemInv.v: what it relies on
      from a simulator ([WrapperLaws]) and its invariant.  GemSpec.v: the simulator
      has these laws, the construction, the events of a gem5 system as a step relation
      ([reach]), and what follows.

    ** What the theorems show

    - Simulators.  The simulator of a mesh under dimension-order routing
      ([mesh_simulator]), and that of a network read by AnyNet ([anynet_simulator]),
      return from every call of every sequence of calls ([Call]), from their
      construction on, and refine a packet service ([serves]): a packet is accepted and numbered, or
      refused because enough flits of its node and class are under way
      ([packet_refused]); it is handed out at most once, as it was ordered; nothing
      is in flight exactly when everything accepted has been handed out, and then no
      flit is left anywhere ([simulator_drained]).  Changing the time of a simulator
      with nothing in flight is not safe ([update_sim_time_fails]).  The theorems hold
      for any allocators with [RouterAllocLaws], every buffer policy, any numbers of
      classes, VCs and subnetworks, for the router options of [supported] and the
      node options of [tm_options].

    - gem5.  In every sequence of events of a gem5 system whose controllers send
      messages with one destination no operation fails, no message is lost, doubled or
      delivered elsewhere, and an interface will run the network as long as a message
      is in a packet ([gem5_delivers]).  The buffers from the network are unbounded
      there; copies of a message with several destinations have one each
      ([personal_copy]), but some are lost ([multicast_lost]).

    - Routers.  In every run of an input-queued router no assertion is violated and
      no error is reported ([router_never_fails]); the run refines a wormhole switch
      ([router_wormhole]), sends whole packets on its output VCs
      ([router_output_packets]), never overruns the next buffer nor returns a credit
      twice ([router_flow_control]), and is not put to sleep with work left
      ([router_stays_active]).  These hold for any allocators with
      [RouterAllocLaws], any routing function that offers existing outputs and VCs,
      every buffer policy and priority scheme, with or without held connections and
      lookahead routing; [supported] lists the options: one cycle for each
      allocation, no speculation, no output speedup, unbounded output queues.

    - Links: [link_no_overflow], [link_credits_conserved], [IsFullFor_AvailableFor],
      [VC_fifo_packets]; channels deliver after their delay ([channel_delay],
      [flit_channel_cycles]).

    - Arbiters and allocators: cycles never fail, winners are requesters of the
      highest priority, waiting is bounded ([arbiter_cycles], [arbiter_fair]); grants are
      matchings, maximal or maximum according to the allocator ([separable_cycles],
      [wavefront_cycles], [loa_cycles], [pim_cycles], [islip_cycles],
      [maxsize_cycles], [select_cycles]).

    - Networks: the wiring is that of the topology ([kncube_wiring],
      [anynet_file_roundtrip]); under every routing function a packet reaches its
      destination and no other, after a known number of hops, and channels do not
      wait for each other in cycles, where this is so ([dim_order_delivers],
      [torus_delivers], [romm_delivers], [xy_yx_delivers], [valiant_delivers],
      [ni_separates_destinations], [adaptive_mesh_is_dimension_order],
      [anynet_delivers], [anynet_terminates], [dgx_delivers], [dgx_deadlock],
      [fly_delivers]).

    - Data: [AddRange_spec].

    Where the code does not do what it means to, a theorem or example shows the case:
    [select_two_rounds], [maxsize_more_outputs], [odd_vcs_deadlock],
    [channel_time_wraps], [TakeBuffer_wraps], [dgx_one_lane], [dgx_virtual_nodes],
    [dgx_two_boxes], [multicast_lost], [message_left_behind], [bounded_queue_fails],
    and those of [Limits] in RouterSpec.v.

    ** Bounds and fuel

    Loops of the code that are bounded by a counter are structural.  The search of
    Dijkstra.v takes fuel; [anynet_terminates] shows that as many steps as there are
    routers are enough when all are reachable and that none are when one is not.
    The breadth-first search of MaxSize.v and the hops of packets are bounded by
    measures that the proofs provide.  [drain] of IQRouter.v, which empties the front
    of a queue while items are done, takes the length of the queue: items that the
    body adds are not done yet, so that many are enough ([returns_drain]).
    [RetirePackets] takes as many rounds as there are packets in the ejection queues
    and one more, and so does [retire_all] of GemNetwork.v, whose caller passes that
    number ([wl_retire]).  Simulation time is bounded by [int_max] where the code stores it in
    an [int], and so are the numbers of packets, which [TakeBuffer] stores in an [int].

    ** Not modelled

    - Statistics, tracing, power estimates, printing and the messages for watched
      flits: floating point and output.
    - The parser of configuration files and the factories that dispatch on its
      strings: options are fields of records.
    - The free lists of flits and credits: memory management.
    - Traffic patterns, injection processes and the run loop that uses them: their
      rates are floating point; the interface takes packets from outside.  What a
      router or link alone relies on from a sender is a hypothesis ([env],
      [enabled]), which the theorems on simulators discharge.
    - That packets arrive in bounded time in a whole simulator: the theorems on
      routing bound the hops and exclude cyclic waiting, those on arbiters bound the
      waiting at one; they are not composed.  The torus, the butterfly and the DGX-1
      are not composed with the traffic manager either.
    - Of gem5: the protocols, which decide what is sent (the contents of messages are
      a type parameter); the computation of routes in Topology.cc (the links it makes
      are a parameter); stalled and deferred messages, random delays and the replay of
      cache traces in MessageBuffer.cc; functionalRead and functionalWrite, which have
      no body.  Messages with several destinations are modelled, and outside
      [gem5_delivers].
    - The event-driven and chaos routers, and the concentrated mesh, dragonfly,
      flattened butterfly, fat tree and tree topologies, with their routing
      functions. *)

From stdpp Require Export prelude list numbers sorting strings.
From Stdlib Require Export ZArith Lia.

#[export] Set Default Goal Selector "!".
Open Scope Z_scope.

(** ** Failing computations

    [assert] aborts the simulator, [Module::Error] (and the [exit(-1)] calls
    of the factories) terminates it, and an index outside a [vector] or a
    dereferenced null or end iterator is undefined behaviour.  All three are
    values of [failure]; a computation that can meet one has type [res]. *)

Inductive failure : Set :=
  | AssertFailed
  | ErrorExit
  | OutOfRange
  | BadIterator
  | OutOfFuel.

Inductive res (A : Type) : Type :=
  | Ok (a : A)
  | Fail (e : failure).
Arguments Ok {A} _.
Arguments Fail {A} _.

#[export] Instance res_ret : MRet res := @Ok.
#[export] Instance res_bind : MBind res := λ A B f m,
  match m with Ok a => f a | Fail e => Fail e end.

Definition cassert (b : bool) : res unit := if b then Ok tt else Fail AssertFailed.

Declare Scope booksim_scope.
Delimit Scope booksim_scope with bks.
Open Scope booksim_scope.

Notation "'assert!' b ; k" := (cassert b ≫= λ _, k)
  (at level 100, b at level 99, k at level 200, right associativity,
   format "'assert!'  b ; '//' k") : booksim_scope.

(** [returns m Q]: [m] runs to completion (no assertion failure, no [Error],
    no access out of range) and its result satisfies [Q]. *)
Definition returns {A} (m : res A) (Q : A → Prop) : Prop := ∃ a, m = Ok a ∧ Q a.

Section returns.
Context {A B : Type}.
Implicit Types (m : res A) (f : A → res B).

Lemma returns_ok (a : A) (Q : A → Prop) : Q a → returns (Ok a) Q.
Proof. by exists a. Qed.

Lemma returns_bind m f (P : A → Prop) (Q : B → Prop) :
  returns m P → (∀ a, P a → returns (f a) Q) → returns (m ≫= f) Q.
Proof. intros (a & -> & Ha) Hf. exact (Hf a Ha). Qed.

Lemma returns_mono m (P Q : A → Prop) :
  returns m P → (∀ a, P a → Q a) → returns m Q.
Proof. intros (a & -> & Ha) HPQ. exists a. auto. Qed.

Lemma returns_and m (P Q : A → Prop) :
  returns m P → returns m Q → returns m (λ a, P a ∧ Q a).
Proof. intros (a & -> & Ha) (a' & [= <-] & Ha'). by exists a. Qed.

Lemma returns_inv m (P : A → Prop) (a : A) : returns m P → m = Ok a → P a.
Proof. intros (a' & -> & Ha) [= <-]. done. Qed.

Lemma returns_eq (m : res A) (a : A) : m = Ok a → returns m (λ a', a' = a).
Proof. intros ->. by exists a. Qed.

Lemma bind_ok_inv (m : res A) f (b : B) :
  (m ≫= f) = Ok b → ∃ a, m = Ok a ∧ f a = Ok b.
Proof. destruct m as [a|e]; [|done]. intros H. by exists a. Qed.

Lemma assert_ok_inv (b : bool) (m : res A) (a : A) :
  (assert! b; m) = Ok a → b = true ∧ m = Ok a.
Proof. by destruct b. Qed.

Lemma returns_assert (b : bool) (m : res A) (Q : A → Prop) :
  b = true → returns m Q → returns (assert! b; m) Q.
Proof. intros ->. done. Qed.
End returns.

(** ** C++ integers

    [int] values are integers of [Z]; [/] and [%] truncate towards zero, as
    [Z.quot] and [Z.rem] do. *)

Definition int_max : Z := 2147483647.
Definition int_min : Z := -2147483648.

(** The conversion of a [long] to [int] (two's complement). *)
Definition to_int (x : Z) : Z := (x - int_min) mod 4294967296 + int_min.

Lemma to_int_id x : int_min ≤ x ≤ int_max → to_int x = x.
Proof. unfold to_int, int_min, int_max. intros. rewrite Z.mod_small by lia. lia. Qed.

Lemma quot_div a b : 0 ≤ a → 0 < b → a `quot` b = a / b.
Proof. intros. by apply Z.quot_div_nonneg. Qed.

Lemma rem_mod a b : 0 ≤ a → 0 < b → a `rem` b = a `mod` b.
Proof. intros. by apply Z.rem_mod_nonneg. Qed.

(** A scan that starts at [off] and wraps around visits every index. *)
Lemma rotation_onto n off x : 0 ≤ off → 0 ≤ x < n → ∃ k, 0 ≤ k < n ∧ (k + off) `rem` n = x.
Proof.
  intros Hoff Hx. exists ((x - off) mod n). pose proof (Z.mod_pos_bound (x - off) n ltac:(lia)).
  split; [done|]. rewrite rem_mod by lia. pose proof (Z.div_mod (x - off) n ltac:(lia)) as E.
  set (q := (x - off) / n) in *. replace ((x - off) mod n + off) with (x + (- q) * n) by lia.
  rewrite Z.mod_add by lia. by apply Z.mod_small.
Qed.

Lemma rotation_range n off k : 0 ≤ off → 0 ≤ k < n → 0 ≤ (k + off) `rem` n < n.
Proof. intros. apply Z.rem_bound_pos; lia. Qed.

(** ** [vector] access

    [vget] and [vset] are [v[i]] as an r-value and as an assignment.
    [v⟦i⟧] and [v⟦i := x⟧] are their total counterparts for specifications. *)

Definition zlen {A} (v : list A) : Z := Z.of_nat (length v).

Definition vget {A} (v : list A) (i : Z) : res A :=
  if 0 <=? i then
    match v !! Z.to_nat i with Some x => Ok x | None => Fail OutOfRange end
  else Fail OutOfRange.

Definition vset {A} (v : list A) (i : Z) (x : A) : res (list A) :=
  if (0 <=? i) && (i <? zlen v) then Ok (<[Z.to_nat i := x]> v)
  else Fail OutOfRange.

Definition znth {A} `{Inhabited A} (v : list A) (i : Z) : A := v !!! Z.to_nat i.
Definition zupd {A} (v : list A) (i : Z) (x : A) : list A := <[Z.to_nat i := x]> v.

Notation "v ⟦ i ⟧" := (znth v i) (at level 1, left associativity, format "v ⟦ i ⟧") : booksim_scope.
Notation "v ⟦ i := x ⟧" := (zupd v i x)
  (at level 1, left associativity, format "v ⟦ i  :=  x ⟧") : booksim_scope.

Section vectors.
Context {A : Type} `{Inhabited A}.
Implicit Types (v : list A) (i j : Z) (x : A).

Lemma zlen_nonneg v : 0 ≤ zlen v.
Proof. unfold zlen. lia. Qed.

Lemma vget_ok v i : 0 ≤ i < zlen v → vget v i = Ok (v⟦i⟧).
Proof.
  unfold vget, znth, zlen. intros Hi.
  destruct (Z.leb_spec 0 i); [|lia].
  destruct (lookup_lt_is_Some_2 v (Z.to_nat i)) as [x Hx]; [lia|].
  by rewrite Hx, (list_lookup_total_correct _ _ _ Hx).
Qed.

Lemma vset_ok v i x : 0 ≤ i < zlen v → vset v i x = Ok (v⟦i := x⟧).
Proof.
  unfold vset, zupd. intros Hi.
  destruct (Z.leb_spec 0 i), (Z.ltb_spec i (zlen v)); done || lia.
Qed.

Lemma vget_inv v i x : vget v i = Ok x → 0 ≤ i < zlen v ∧ v⟦i⟧ = x.
Proof.
  unfold vget, zlen, znth.
  destruct (Z.leb_spec 0 i); [|done]. destruct (v !! Z.to_nat i) as [y|] eqn:E; [|done].
  intros [= <-]. pose proof (lookup_lt_Some _ _ _ E).
  rewrite (list_lookup_total_correct _ _ _ E). split; [lia|done].
Qed.

Lemma vset_inv v i x v' : vset v i x = Ok v' → 0 ≤ i < zlen v ∧ v' = v⟦i := x⟧.
Proof.
  unfold vset, zupd.
  destruct (Z.leb_spec 0 i), (Z.ltb_spec i (zlen v)); simpl; try done.
  intros [= <-]. done.
Qed.

Lemma zlen_zupd v i x : zlen (v⟦i := x⟧) = zlen v.
Proof. unfold zlen, zupd. by rewrite length_insert. Qed.

Lemma znth_zupd v i j x :
  0 ≤ i < zlen v → 0 ≤ j → v⟦i := x⟧⟦j⟧ = if decide (i = j) then x else v⟦j⟧.
Proof.
  unfold znth, zupd, zlen. intros Hi Hj. case_decide as Hij.
  - subst j. apply list_lookup_total_insert_eq. lia.
  - apply list_lookup_total_insert_ne. lia.
Qed.

Lemma znth_zupd_eq v i x : 0 ≤ i < zlen v → v⟦i := x⟧⟦i⟧ = x.
Proof. intros Hi. rewrite znth_zupd by lia. by case_decide. Qed.

Lemma znth_zupd_ne v i j x : 0 ≤ i → 0 ≤ j → i ≠ j → v⟦i := x⟧⟦j⟧ = v⟦j⟧.
Proof. unfold znth, zupd. intros. apply list_lookup_total_insert_ne. lia. Qed.

Lemma znth_lookup v i : 0 ≤ i < zlen v → v !! Z.to_nat i = Some (v⟦i⟧).
Proof. unfold zlen, znth. intros. apply list_lookup_lookup_total_lt. lia. Qed.

Lemma zlen_replicate n x : 0 ≤ n → zlen (replicate (Z.to_nat n) x) = n.
Proof. intros. unfold zlen. rewrite length_replicate. lia. Qed.

Lemma znth_replicate n x i : 0 ≤ i < n → (replicate (Z.to_nat n) x)⟦i⟧ = x.
Proof.
  intros. unfold znth. apply lookup_total_replicate_2. lia.
Qed.

Lemma znth_fmap {B} `{Inhabited B} (f : A → B) v i : 0 ≤ i < zlen v → (f <$> v)⟦i⟧ = f (v⟦i⟧).
Proof.
  intros Hi. apply list_lookup_total_correct. rewrite list_lookup_fmap, znth_lookup by done. done.
Qed.

Lemma zlen_fmap {B} (f : A → B) v : zlen (f <$> v) = zlen v.
Proof. unfold zlen. by rewrite length_fmap. Qed.

Lemma zlist_eq v v' :
  zlen v = zlen v' → (∀ i, 0 ≤ i < zlen v → v⟦i⟧ = v'⟦i⟧) → v = v'.
Proof.
  unfold zlen. intros Hl Hi. apply list_eq. intros k.
  destruct (decide (k < length v)%nat) as [Hk|Hk].
  - specialize (Hi (Z.of_nat k)). unfold znth in Hi. rewrite Nat2Z.id in Hi.
    rewrite !list_lookup_lookup_total_lt by lia. rewrite Hi by lia. done.
  - rewrite !lookup_ge_None_2 by lia. done.
Qed.

Lemma returns_vget {B} v i (k : A → res B) (Q : B → Prop) :
  0 ≤ i < zlen v → returns (k (v⟦i⟧)) Q → returns (vget v i ≫= k) Q.
Proof. intros Hi Hk. by rewrite vget_ok. Qed.

Lemma returns_vset {B} v i x (k : list A → res B) (Q : B → Prop) :
  0 ≤ i < zlen v → returns (k (v⟦i := x⟧)) Q → returns (vset v i x ≫= k) Q.
Proof. intros Hi Hk. by rewrite vset_ok. Qed.
End vectors.

(** ** Loops

    [zfor lo hi body s] is [for(int i = lo; i < hi; ++i)] over the state [s];
    [zforb] is the same loop with a body that may [break]. *)

Inductive ctl (S : Type) : Type :=
  | Next (s : S)
  | Break (s : S).
Arguments Next {S} _.
Arguments Break {S} _.

Definition ctl_val {S} (c : ctl S) : S := match c with Next s | Break s => s end.

Fixpoint for_loop {S} (n : nat) (i : Z) (body : Z → S → res S) (s : S) : res S :=
  match n with
  | O => Ok s
  | Datatypes.S n' => s' ← body i s; for_loop n' (i + 1) body s'
  end.

Fixpoint forb_loop {S} (n : nat) (i : Z) (body : Z → S → res (ctl S)) (s : S) : res (ctl S) :=
  match n with
  | O => Ok (Next s)
  | Datatypes.S n' =>
      c ← body i s;
      match c with
      | Break s' => Ok (Break s')
      | Next s' => forb_loop n' (i + 1) body s'
      end
  end.

Definition zfor {S} (lo hi : Z) (body : Z → S → res S) (s : S) : res S :=
  for_loop (Z.to_nat (hi - lo)) lo body s.
Definition zforb {S} (lo hi : Z) (body : Z → S → res (ctl S)) (s : S) : res (ctl S) :=
  forb_loop (Z.to_nat (hi - lo)) lo body s.

Section loops.
Context {S : Type}.

Lemma returns_for (I : Z → S → Prop) lo hi (body : Z → S → res S) s :
  lo ≤ hi →
  I lo s →
  (∀ i s, lo ≤ i < hi → I i s → returns (body i s) (I (i + 1))) →
  returns (zfor lo hi body s) (I hi).
Proof.
  intros Hle Hs Hbody. unfold zfor.
  remember (Z.to_nat (hi - lo)) as n eqn:Hn.
  assert (Hb : ∀ i s, lo ≤ i < hi → I i s → returns (body i s) (I (i + 1))) by done.
  clear Hbody. revert lo s Hle Hs Hn Hb.
  induction n as [|n IH]; intros lo s Hle Hs Hn Hb; simpl.
  - apply returns_ok. by replace hi with lo by lia.
  - eapply returns_bind; [apply Hb; [lia|done]|].
    intros s' Hs'. apply IH; [lia|done|lia|]. intros i s'' Hi. apply Hb. lia.
Qed.

Lemma returns_forb (I : Z → S → Prop) (B : S → Prop) lo hi (body : Z → S → res (ctl S)) s :
  lo ≤ hi →
  I lo s →
  (∀ i s, lo ≤ i < hi → I i s →
     returns (body i s) (λ c, match c with Next s' => I (i + 1) s' | Break s' => B s' end)) →
  returns (zforb lo hi body s) (λ c, match c with Next s' => I hi s' | Break s' => B s' end).
Proof.
  intros Hle Hs Hb. unfold zforb.
  remember (Z.to_nat (hi - lo)) as n eqn:Hn. revert lo s Hle Hs Hn Hb.
  induction n as [|n IH]; intros lo s Hle Hs Hn Hb; simpl.
  - apply returns_ok. by replace hi with lo by lia.
  - eapply returns_bind; [apply Hb; [lia|done]|].
    intros [s'|s'] Hs'; [|by apply returns_ok].
    apply IH; [lia|done|lia|]. intros i s'' Hi. apply Hb. lia.
Qed.

(** A loop whose body computes [g i] without failing is a left fold. *)
Lemma zfor_snoc lo hi (body : Z → S → res S) s :
  lo ≤ hi → zfor lo (hi + 1) body s = (zfor lo hi body s ≫= body hi).
Proof.
  unfold zfor. intros Hle. replace (Z.to_nat (hi + 1 - lo)) with (Datatypes.S (Z.to_nat (hi - lo))) by lia.
  remember (Z.to_nat (hi - lo)) as n eqn:Hn.
  revert lo s Hle Hn. induction n as [|n IH]; intros lo s Hle Hn; simpl.
  - replace hi with lo by lia. destruct (body lo s); done.
  - destruct (body lo s) as [s'|e]; [|done]. simpl.
    specialize (IH (lo + 1) s'). simpl in IH. rewrite IH by lia. done.
Qed.

Lemma zfor_empty lo hi (body : Z → S → res S) s : hi ≤ lo → zfor lo hi body s = Ok s.
Proof. intros. unfold zfor. by replace (Z.to_nat (hi - lo)) with O by lia. Qed.
End loops.

(** A fold of fallible operations that keeps an invariant over the list. *)
Lemma returns_foldl {S X} (I : list X → S → Prop) (body : S → X → res S) l : ∀ s,
  I l s → (∀ x l s, I (x :: l) s → returns (body s x) (I l)) →
  returns (foldl (λ m x, s ← m; body s x) (Ok s) l) (I []).
Proof.
  induction l as [|x l IH]; intros s Hs Hbody; simpl; [by apply returns_ok|].
  destruct (Hbody x l s Hs) as (s' & -> & Hs'). by apply IH.
Qed.

Lemma returns_foldl_at {S X} (I : nat → S → Prop) (body : S → X → res S) l s :
  I O s → (∀ k x s, l !! k = Some x → I k s → returns (body s x) (I (Datatypes.S k))) →
  returns (foldl (λ m x, s ← m; body s x) (Ok s) l) (I (length l)).
Proof.
  intros Hs Hbody. eapply returns_mono.
  - apply (returns_foldl (λ r s, ∃ k, l = take k l ++ r ∧ (k ≤ length l)%nat ∧ I k s)).
    { exists O. split_and!; [done|lia|done]. }
    intros x r s' (k & E & Hk & Hi). assert (length (take k l) = k) as Hl by (rewrite length_take; lia).
    assert (l !! k = Some x) as Hx.
    { rewrite E, lookup_app_r, Hl, Nat.sub_diag by lia. done. }
    eapply returns_mono; [by apply (Hbody k)|]. intros s'' Hi'. exists (Datatypes.S k). split_and!; [|apply lookup_lt_Some in Hx; lia|done].
    rewrite (take_S_r l k x Hx), <- app_assoc. done.
  - intros s' (k & E & Hk & Hi). rewrite app_nil_r in E. replace (length l) with k; [done|].
    apply (f_equal length) in E. rewrite length_take in E. lia.
Qed.

(** ** Filters *)

Lemma filter_all {A} (P : A → Prop) `{∀ x, Decision (P x)} l : Forall P l → filter P l = l.
Proof. induction 1 as [|x l Hx _ IH]; [done|]. rewrite filter_cons_True by done. by rewrite IH. Qed.

Lemma filter_none {A} (P : A → Prop) `{∀ x, Decision (P x)} l :
  Forall (λ x, ¬ P x) l → filter P l = [].
Proof. induction 1 as [|x l Hx _ IH]; [done|]. by rewrite filter_cons_False. Qed.

(** ** Sums over integer vectors *)

Fixpoint zsum (l : list Z) : Z := match l with [] => 0 | x :: l => x + zsum l end.

Lemma zsum_app l1 l2 : zsum (l1 ++ l2) = zsum l1 + zsum l2.
Proof. induction l1 as [|x l1 IH]; simpl; lia. Qed.

Lemma zsum_insert (l : list Z) (i : nat) x y :
  l !! i = Some y → zsum (<[i := x]> l) = zsum l - y + x.
Proof.
  revert i. induction l as [|z l IH]; intros [|i] Hi; simplify_eq/=; [lia|].
  rewrite (IH i) by done. lia.
Qed.

Lemma zsum_zupd (l : list Z) i x :
  0 ≤ i < zlen l → zsum (l⟦i := x⟧) = zsum l - l⟦i⟧ + x.
Proof. intros Hi. apply zsum_insert. by apply znth_lookup. Qed.

Lemma zsum_nonneg l : Forall (λ x, 0 ≤ x) l → 0 ≤ zsum l.
Proof. induction 1; simpl; lia. Qed.

Lemma zsum_replicate_0 n : zsum (replicate n 0) = 0.
Proof. induction n; simpl; lia. Qed.

Lemma zsum_le_pointwise l1 l2 : Forall2 (λ x y, x ≤ y) l1 l2 → zsum l1 ≤ zsum l2.
Proof. induction 1; simpl; lia. Qed.

(** [zsumf f n] is the sum of [f 0 .. f (n-1)]. *)
Definition zsumf (f : Z → Z) (n : Z) : Z := zsum (f <$> seqZ 0 n).

Lemma zsum_fmap_ext {A} (f g : A → Z) l :
  (∀ x, x ∈ l → f x = g x) → zsum (f <$> l) = zsum (g <$> l).
Proof.
  induction l as [|x l IH]; intros Hfg; simpl; [done|].
  f_equal; [apply Hfg; by left|]. apply IH. intros y Hy. apply Hfg. by right.
Qed.

Lemma zsumf_ext f g n : (∀ v, 0 ≤ v < n → f v = g v) → zsumf f n = zsumf g n.
Proof. intros H. apply zsum_fmap_ext. intros v Hv%elem_of_seqZ. apply H. lia. Qed.

Lemma zsumf_0 f : zsumf f 0 = 0.
Proof. done. Qed.

Lemma zsumf_snoc f n : 0 ≤ n → zsumf f (n + 1) = zsumf f n + f n.
Proof.
  intros Hn. unfold zsumf. rewrite seqZ_app by lia.
  rewrite fmap_app, zsum_app, Z.add_0_l, (seqZ_cons n 1) by lia. simpl. lia.
Qed.

Lemma zsumf_ind (P : Z → Prop) :
  P 0 → (∀ n, 0 ≤ n → P n → P (n + 1)) → ∀ n, 0 ≤ n → P n.
Proof. intros H0 HS n Hn. apply natlike_ind; [done| |done]. intros x Hx Px. by apply HS. Qed.

Lemma zsumf_le f g n : 0 ≤ n → (∀ v, 0 ≤ v < n → f v ≤ g v) → zsumf f n ≤ zsumf g n.
Proof.
  intros Hn. pattern n. apply zsumf_ind; [done| |done]. clear n Hn.
  intros n Hn IH H. rewrite !zsumf_snoc by done.
  specialize (H n) as Hlast. enough (zsumf f n ≤ zsumf g n) by lia.
  apply IH. intros v Hv. apply H. lia.
Qed.

Lemma zsumf_lt f g n v :
  (∀ v, 0 ≤ v < n → f v ≤ g v) → 0 ≤ v < n → f v < g v → zsumf f n < zsumf g n.
Proof.
  intros Hle Hv Hlt. assert (0 ≤ n) as Hn by lia. revert Hle Hv. pattern n. apply zsumf_ind; [lia| |done].
  clear n Hn. intros n Hn IH Hle Hv. rewrite !zsumf_snoc by done. pose proof (Hle n ltac:(lia)).
  destruct (decide (v = n)) as [->|].
  - pose proof (zsumf_le f g n Hn ltac:(intros; apply Hle; lia)). lia.
  - enough (zsumf f n < zsumf g n) by lia. apply IH; [intros; apply Hle; lia|lia].
Qed.

Lemma zsumf_const_0 n : zsumf (λ _, 0) n = 0.
Proof.
  unfold zsumf. generalize (seqZ 0 n). intros l.
  induction l as [|x l IH]; [done|]. rewrite !fmap_cons. cbn [zsum]. lia.
Qed.

Lemma zsumf_const k n : 0 ≤ n → zsumf (λ _, k) n = n * k.
Proof.
  intros Hn. pattern n. apply zsumf_ind; [done| |done]. clear n Hn.
  intros n Hn IH. rewrite zsumf_snoc by done. lia.
Qed.

Lemma zsumf_nonneg f n : 0 ≤ n → (∀ v, 0 ≤ v < n → 0 ≤ f v) → 0 ≤ zsumf f n.
Proof. intros. rewrite <- (zsumf_const_0 n). by apply zsumf_le. Qed.

Lemma zsumf_plus f g n : zsumf (λ v, f v + g v) n = zsumf f n + zsumf g n.
Proof.
  unfold zsumf. generalize (seqZ 0 n). intros l.
  induction l as [|x l IH]; [done|]. rewrite !fmap_cons. cbn [zsum]. lia.
Qed.

(** Changing one summand changes the sum by the same amount. *)
Lemma zsumf_change f g n v :
  0 ≤ v < n → (∀ w, 0 ≤ w < n → w ≠ v → g w = f w) →
  zsumf g n = zsumf f n + (g v - f v).
Proof.
  intros Hv. assert (0 ≤ n) as Hn by lia. revert Hv. pattern n. apply zsumf_ind; [lia| |done].
  clear n Hn. intros n Hn IH Hv Hgf. rewrite !zsumf_snoc by done.
  destruct (decide (v = n)) as [->|Hne].
  - rewrite (zsumf_ext g f); [lia|]. intros w Hw. apply Hgf; lia.
  - rewrite IH; [|lia|]; [|intros w Hw ?; apply Hgf; lia]. rewrite (Hgf n) by lia. lia.
Qed.

(** A summand is at most the sum of non-negative terms. *)
Lemma zsumf_ge f n v : 0 ≤ v < n → (∀ w, 0 ≤ w < n → 0 ≤ f w) → f v ≤ zsumf f n.
Proof.
  intros Hv Hf. set (g := λ w, if decide (w = v) then 0 else f w).
  rewrite (zsumf_change g f n v) by (try done; intros w ??; subst g; simpl; by rewrite decide_False).
  assert (0 ≤ zsumf g n) by (apply zsumf_nonneg; [lia|]; intros w Hw; subst g; simpl;
    case_decide; [lia|auto]).
  assert (g v = 0) by (subst g; simpl; by rewrite decide_True). lia.
Qed.

Lemma zsumf_ge2 f n v w :
  0 ≤ v < n → 0 ≤ w < n → v ≠ w → (∀ u, 0 ≤ u < n → 0 ≤ f u) → f v + f w ≤ zsumf f n.
Proof.
  intros Hv Hw Hne Hf. set (g := λ u, if decide (u = v) then 0 else f u).
  rewrite (zsumf_change g f n v) by (try done; intros u ??; subst g; simpl; by rewrite decide_False).
  pose proof (zsumf_ge g n w Hw) as Hge. subst g. simpl in *.
  rewrite decide_False in Hge by done. rewrite decide_True by done.
  assert (∀ u, 0 ≤ u < n → 0 ≤ (if decide (u = v) then 0 else f u)) as Hnn
    by (intros u Hu; case_decide; [done|auto]).
  specialize (Hge Hnn). lia.
Qed.

(** Grouping a sum by the values [m v] of its indices. *)
Lemma zsumf_group (m h : Z → Z) (n p : Z) :
  0 ≤ n → 0 ≤ p → (∀ v, 0 ≤ v < n → 0 ≤ m v < p) →
  zsumf (λ i, zsumf (λ v, if m v =? i then h v else 0) n) p = zsumf h n.
Proof.
  intros Hn Hp. pattern n. apply zsumf_ind; [|clear n Hn|done].
  { intros _. apply zsumf_const_0. }
  intros n Hn IH Hm. rewrite zsumf_snoc by done.
  rewrite (zsumf_ext _ (λ i, zsumf (λ v, if m v =? i then h v else 0) n
                             + if m n =? i then h n else 0)).
  2: { intros i Hi. by rewrite zsumf_snoc. }
  rewrite zsumf_plus, IH by (intros v Hv; apply Hm; lia). f_equal.
  rewrite (zsumf_change (λ _, 0) _ p (m n)).
  - rewrite zsumf_const_0, Z.eqb_refl. lia.
  - apply Hm. lia.
  - intros w Hw Hne. destruct (Z.eqb_spec (m n) w); [by subst|done].
Qed.

Lemma zsum_zsumf (l : list Z) : zsum l = zsumf (λ i, l⟦i⟧) (zlen l).
Proof.
  unfold zsumf, zlen. f_equal. apply list_eq. intros k. rewrite list_lookup_fmap.
  destruct (decide (k < length l)%nat) as [Hk|Hk].
  - rewrite lookup_seqZ_lt by lia. simpl. unfold znth. rewrite Z.add_0_l, Nat2Z.id.
    by apply list_lookup_lookup_total_lt.
  - rewrite lookup_seqZ_ge by lia. apply lookup_ge_None_2. lia.
Qed.

(** ** Automation *)

Create HintDb booksim.
Create Rewrite HintDb booksim.
#[export] Hint Resolve returns_ok zlen_nonneg : booksim.
#[export] Hint Rewrite @zlen_zupd : booksim.
#[export] Hint Rewrite @zlen_replicate using lia : booksim.

(** [lens] normalises vector lengths and closes the bound that is left. *)
Ltac lens := autorewrite with booksim in *; lia.

(** [rsteps] runs the reads, writes and assertions at the head of a [returns]
    goal whose side conditions are arithmetic. *)
Ltac rstep :=
  match goal with
  | |- returns (vget _ _ ≫= _) _ => apply returns_vget; [lens|]
  | |- returns (vset _ _ _ ≫= _) _ => apply returns_vset; [lens|]
  | |- returns (cassert _ ≫= _) _ => apply returns_assert; [lens|]
  | |- returns (mret _) _ => apply returns_ok
  | |- returns (Ok _ ≫= _) _ => cbn [mbind res_bind]
  | |- returns (mret _ ≫= _) _ => cbn [mbind res_bind mret res_ret]
  | |- returns (Ok _) _ => apply returns_ok
  end.
Ltac rsteps := repeat rstep.

(** [vgets] evaluates the leading in-range reads of an equation. *)
Ltac vgets := repeat (rewrite vget_ok by lens; cbn [mbind res_bind]).

Ltac bool_to_prop :=
  repeat match goal with
  | H : _ && _ = true |- _ => apply andb_prop in H as [? ?]
  | H : _ || _ = false |- _ => apply orb_false_elim in H as [? ?]
  | H : negb _ = true |- _ => apply negb_true_iff in H
  | H : negb _ = false |- _ => apply negb_false_iff in H
  | H : (_ =? _) = true |- _ => apply Z.eqb_eq in H
  | H : (_ =? _) = false |- _ => apply Z.eqb_neq in H
  | H : (_ <? _) = true |- _ => apply Z.ltb_lt in H
  | H : (_ <? _) = false |- _ => apply Z.ltb_ge in H
  | H : (_ <=? _) = true |- _ => apply Z.leb_le in H
  | H : (_ <=? _) = false |- _ => apply Z.leb_gt in H
  end.
