(* ===== verification/StdMap.v ===== *)
(** * [std::map<int, T>] and [std::set<int>]

    A map is its list of entries in increasing key order, which is the order an
    iterator visits them; a set is a map without values. *)

From S2P Require Import Prelude.

Abbreviation imap A := (list (Z * A)).
Abbreviation iset := (list (Z * unit)).

Section imap.
Context {A : Type}.
Implicit Types m : imap A.

Fixpoint mfind (k : Z) m : option A :=
  match m with [] => None | (k', x) :: m => if k' =? k then Some x else mfind k m end.

(** [m[k] = x]. *)
Fixpoint mset (k : Z) (x : A) m : imap A :=
  match m with
  | [] => [(k, x)]
  | (k', y) :: m' =>
      if k <? k' then (k, x) :: m
      else if k =? k' then (k, x) :: m' else (k', y) :: mset k x m'
  end.

Fixpoint merase (k : Z) m : imap A :=
  match m with [] => [] | (k', y) :: m' => if k' =? k then m' else (k', y) :: merase k m' end.

Definition mcount (k : Z) m : Z := match mfind k m with Some _ => 1 | None => 0 end.

Definition msorted m : Prop := StronglySorted (λ p q : Z * A, p.1 < q.1) m.

Lemma mfind_below k m : Forall (λ q : Z * A, k < q.1) m → mfind k m = None.
Proof.
  induction 1 as [|[k' y] m Hk _ IH]; simpl; [done|]. simpl in Hk.
  destruct (Z.eqb_spec k' k); [lia|done].
Qed.

Lemma elem_mfind k x m : msorted m → ((k, x) ∈ m ↔ mfind k m = Some x).
Proof.
  induction 1 as [|[k' y] m Hs IH Hm]; simpl; [split; [by intros ?%elem_of_nil|done]|].
  rewrite elem_of_cons, IH. destruct (Z.eqb_spec k' k) as [->|Hne].
  - rewrite (mfind_below k m Hm). split; [by intros [[= ->]|]|]. intros [= ->]. by left.
  - split; [by intros [[= ? ?]|?]|by right].
Qed.

Lemma mset_keys k x m (P : Z → Prop) :
  P k → Forall (λ q : Z * A, P q.1) m → Forall (λ q : Z * A, P q.1) (mset k x m).
Proof.
  intros Hk. induction 1 as [|[k' y] m Hk' Hm IH]; simpl; [by repeat constructor|].
  destruct (k <? k'), (k =? k'); by repeat constructor.
Qed.

Lemma msorted_mset k x m : msorted m → msorted (mset k x m).
Proof.
  unfold msorted. induction 1 as [|[k' y] m Hs IH Hm]; simpl; [by repeat constructor|]. simpl in Hm.
  destruct (Z.ltb_spec k k'); [|destruct (Z.eqb_spec k k') as [->|]].
  - constructor; [by constructor|]. constructor; [done|]. eapply Forall_impl; [exact Hm|]. simpl. lia.
  - by constructor.
  - constructor; [done|]. by apply (mset_keys k x m (λ z, k' < z)); [lia|].
Qed.

Lemma mfind_mset k x m k' :
  msorted m → mfind k' (mset k x m) = if decide (k' = k) then Some x else mfind k' m.
Proof.
  induction 1 as [|[j y] m Hs IH Hm]; simpl.
  - destruct (Z.eqb_spec k k'); case_decide; congruence.
  - destruct (Z.ltb_spec k j); [|destruct (Z.eqb_spec k j) as [->|]]; simpl.
    + destruct (Z.eqb_spec k k'); case_decide; congruence.
    + destruct (Z.eqb_spec j k'); case_decide; congruence.
    + rewrite IH. destruct (Z.eqb_spec j k') as [->|]; [|done]. rewrite decide_False by congruence. done.
Qed.

Lemma merase_keys k m (P : Z → Prop) :
  Forall (λ q : Z * A, P q.1) m → Forall (λ q : Z * A, P q.1) (merase k m).
Proof.
  induction 1 as [|[k' y] m Hk' Hm IH]; simpl; [done|]. destruct (k' =? k); [done|by constructor].
Qed.

Lemma msorted_merase k m : msorted m → msorted (merase k m).
Proof.
  unfold msorted. induction 1 as [|[k' y] m Hs IH Hm]; simpl; [constructor|]. simpl in Hm.
  destruct (k' =? k); [done|]. constructor; [done|]. by apply (merase_keys k m (λ z, k' < z)).
Qed.

Lemma mfind_merase k m k' :
  msorted m → mfind k' (merase k m) = if decide (k' = k) then None else mfind k' m.
Proof.
  induction 1 as [|[j y] m Hs IH Hm]; simpl; [by case_decide|].
  destruct (Z.eqb_spec j k) as [->|]; simpl.
  - case_decide as E; [subst k'; by apply mfind_below|]. destruct (Z.eqb_spec k k'); congruence.
  - rewrite IH. destruct (Z.eqb_spec j k') as [->|]; [|done]. by rewrite decide_False.
Qed.

Lemma mset_nonempty k x m : mset k x m ≠ [].
Proof. destruct m as [|[k' y] m]; simpl; [done|]. by destruct (k <? k'), (k =? k'). Qed.

(** Positions in a map. *)
Lemma mfind_at m j k x : msorted m → m !! j = Some (k, x) → mfind k m = Some x.
Proof. intros Hs Hj. apply elem_mfind; [done|]. by apply list_elem_of_lookup_2 with j. Qed.

Lemma msorted_at m i j k x y : msorted m → m !! i = Some (k, x) → m !! j = Some (k, y) → i = j.
Proof.
  intros Hs Hi Hj. destruct (decide (i = j)) as [|Hne]; [done|].
  assert (∀ a b ka kb xa xb, (a < b)%nat → m !! a = Some (ka, xa) → m !! b = Some (kb, xb) → ka < kb) as Hlt.
  { clear -Hs. induction Hs as [|[k' y] m Hs IH Hm]; intros [|a] [|b] ka kb xa xb Hab Ha Hb; simplify_eq/=; try lia.
    - rewrite Forall_forall in Hm. apply (Hm (kb, xb)). by apply list_elem_of_lookup_2 with b.
    - apply (IH a b ka kb xa xb); [lia|done..]. }
  destruct (decide (i < j)%nat) as [H|H].
  - specialize (Hlt i j k k x y H Hi Hj). lia.
  - specialize (Hlt j i k k y x ltac:(lia) Hj Hi). lia.
Qed.

Lemma mset_same_keys k x y m : mfind k m = Some y → msorted m → (mset k x m).*1 = m.*1.
Proof.
  intros Hf Hs. revert Hf. induction Hs as [|[k' z] m Hs IH Hm]; simpl; [done|].
  destruct (Z.eqb_spec k' k) as [->|Hne].
  - intros _. by rewrite Z.ltb_irrefl, Z.eqb_refl.
  - intros Hf. destruct (Z.ltb_spec k k').
    + apply elem_mfind in Hf; [|done]. rewrite Forall_forall in Hm. specialize (Hm _ Hf). simpl in Hm. lia.
    + destruct (Z.eqb_spec k k'); [lia|]. rewrite !fmap_cons. by rewrite IH.
Qed.

Lemma keys_sorted m : ∀ n lo, m.*1 = seqZ lo n → msorted m.
Proof.
  induction m as [|[k x] m IH]; intros n lo E; [constructor|].
  destruct (decide (0 < n)) as [Hn|]; [|by rewrite seqZ_nil in E by lia].
  rewrite seqZ_cons in E by done. simplify_eq/=. constructor; [by eapply IH|].
  apply Forall_forall. intros [k x'] Hk. simpl. assert (k ∈ seqZ (Z.succ lo) (Z.pred n)) as Hin.
  { match goal with E : m.*1 = _ |- _ => rewrite <- E end. apply list_elem_of_fmap. by exists (k, x'). }
  apply elem_of_seqZ in Hin. lia.
Qed.

Lemma keys_find m n lo k : m.*1 = seqZ lo n → lo ≤ k < lo + n → ∃ x, mfind k m = Some x.
Proof.
  intros E Hk. assert (k ∈ m.*1) as Hin by (rewrite E; by apply elem_of_seqZ).
  apply list_elem_of_fmap in Hin as ([k' x] & -> & Hx). exists x. apply elem_mfind; [by eapply keys_sorted|done].
Qed.

Lemma keys_range m n lo k x : m.*1 = seqZ lo n → mfind k m = Some x → lo ≤ k < lo + n.
Proof.
  intros E Hf. apply elem_of_seqZ. rewrite <- E. apply list_elem_of_fmap. exists (k, x). split; [done|].
  apply elem_mfind; [by eapply keys_sorted|done].
Qed.

Lemma keys_at m n lo j k x : m.*1 = seqZ lo n → m !! j = Some (k, x) → k = lo + Z.of_nat j.
Proof.
  intros E Hj. assert (m.*1 !! j = Some k) as Hk by (rewrite list_lookup_fmap, Hj; done).
  rewrite E, lookup_seqZ in Hk. by destruct Hk as [-> _].
Qed.

Lemma msorted_empty_iff m : msorted m → (m = [] ↔ ∀ k, mfind k m = None).
Proof.
  intros Hs. split; [by intros ->|]. intros Hn. destruct m as [|[k x] m]; [done|].
  specialize (Hn k). simpl in Hn. by rewrite Z.eqb_refl in Hn.
Qed.
End imap.

(** A loop over a set, with an invariant on the members already visited. *)
Lemma returns_iset {S} (I : (Z → Prop) → S → Prop) (body : S → Z → res S) (occ : iset) s :
  msorted occ →
  (∀ d d' s, (∀ k, d k ↔ d' k) → I d s → I d' s) →
  I (λ _, False) s →
  (∀ d k s, mfind k occ = Some tt → ¬ d k → I d s → returns (body s k) (I (λ k', k' = k ∨ d k'))) →
  returns (foldl (λ m x, s ← m; body s x.1) (Ok s) occ) (I (λ k, mfind k occ = Some tt)).
Proof.
  intros Hs Hext H0 Hbody. eapply returns_mono.
  - apply (returns_foldl (λ l s, msorted l ∧ (∀ x, x ∈ l → x ∈ occ) ∧ I (λ k, (k, tt) ∈ occ ∧ ¬ (k, tt) ∈ l) s)
      (λ s x, body s x.1)).
    { split_and!; try done. revert H0. apply Hext. intros k. tauto. }
    intros [k []] l s' (Hsl & Hsub & Hi). apply StronglySorted_inv in Hsl as [Hsl Hlt]. simpl.
    assert ((k, tt) ∈ occ) as Hin by (apply Hsub; by left).
    assert (¬ (k, tt) ∈ l) as Hnl.
    { intros Hx. rewrite Forall_forall in Hlt. specialize (Hlt _ Hx). simpl in Hlt. lia. }
    eapply returns_mono; [apply (Hbody (λ k', (k', tt) ∈ occ ∧ ¬ (k', tt) ∈ (k, tt) :: l) k s'); [by apply elem_mfind| |exact Hi]|].
    { intros [_ Hn]. apply Hn. by left. }
    intros s'' Hi'. split_and!; [done|intros x Hx; apply Hsub; by right|]. revert Hi'. apply Hext.
    intros k'. rewrite elem_of_cons. destruct (decide (k' = k)) as [->|]; intuition congruence.
  - intros s' (_ & _ & Hi). revert Hi. apply Hext. intros k. rewrite <- elem_mfind by done.
    split; [by intros [? _]|]. intros ?. split; [done|by intros ?%elem_of_nil].
Qed.

(** A loop over a set is the loop over all indices if the others change nothing. *)
Lemma iset_zfor {S} (body : Z → S → res S) (n : nat) : ∀ lo (occ : iset) s,
  msorted occ → (∀ x, x ∈ occ → lo ≤ x.1 < lo + Z.of_nat n) →
  (∀ k s, lo ≤ k < lo + Z.of_nat n → mfind k occ = None → body k s = Ok s) →
  foldl (λ m x, s ← m; body x.1 s) (Ok s) occ = zfor lo (lo + Z.of_nat n) body s.
Proof.
  unfold zfor. induction n as [|n IH]; intros lo occ s Hs Hr Hb.
  { replace (Z.to_nat _) with O by lia. destruct occ as [|x occ]; [done|]. specialize (Hr x ltac:(by left)). lia. }
  replace (Z.to_nat _) with (Datatypes.S (Z.to_nat (lo + 1 + Z.of_nat n - (lo + 1)))) by lia. simpl.
  destruct occ as [|[k []] occ].
  { rewrite Hb by (done || lia). cbn [mbind res_bind]. rewrite <- (IH (lo + 1) [] s); try done.
    - by intros x ?%elem_of_nil.
    - intros k s' Hk Hf. apply Hb; [lia|done]. }
  pose proof Hs as [Hs' Hlt]%StronglySorted_inv. rewrite Forall_forall in Hlt. simpl in Hlt.
  pose proof (Hr (k, tt) ltac:(by left)) as Hk. simpl in Hk. destruct (decide (k = lo)) as [->|Hne].
  - simpl. destruct (body lo s) as [s'|e]; [|simpl; clear; induction occ as [|x l IHl]; [done|exact IHl]].
    cbn [mbind res_bind]. apply IH; [done| |].
    + intros x Hx. specialize (Hlt x Hx). specialize (Hr x ltac:(by right)). lia.
    + intros k s2 Hk2 Hf. apply Hb; [lia|]. simpl. destruct (Z.eqb_spec lo k); [lia|done].
  - rewrite Hb; [|lia|].
    + cbn [mbind res_bind]. rewrite <- (IH (lo + 1) ((k, tt) :: occ) s); [done|done| |].
      * intros x Hx. specialize (Hr x Hx). apply elem_of_cons in Hx as [->|Hx]; [simpl in *; lia|].
        specialize (Hlt x Hx). lia.
      * intros k' s2 Hk2 Hf. apply Hb; [lia|done].
    + apply mfind_below. apply Forall_forall. intros x [->|Hx]%elem_of_cons; [simpl; lia|].
      specialize (Hlt x Hx). lia.
Qed.
