(* ===== verification/OutputSet.v ===== *)
(** * Output sets

    [OutputSet] (outputset.hpp, outputset.cpp) is the set of (port, VC range,
    priority) choices a routing function returns.  The C++ class stores it in a
    [std::set] whose comparator looks at the priority only; the model keeps the
    elements in iteration order and inserts exactly as that comparator makes
    [std::set::insert] behave. *)

From S2P Require Import Prelude.

Record sSetElement : Set := SetElement {
  vc_start : Z;
  vc_end : Z;
  se_pri : Z;
  output_port : Z
}.

#[export] Instance sSetElement_eq_dec : EqDecision sSetElement.
Proof. solve_decision. Defined.

Abbreviation OutputSet := (list sSetElement).

(** [operator<]: higher priorities first. *)
Definition se_lt (se1 se2 : sSetElement) : bool := se_pri se2 <? se_pri se1.

(** [std::set::insert] with that comparator: an element equivalent to [s]
    (neither smaller than the other) makes the insertion a no-op. *)
Fixpoint set_insert (s : sSetElement) (l : OutputSet) : OutputSet :=
  match l with
  | [] => [s]
  | e :: l' =>
      if se_lt s e then s :: l
      else if se_lt e s then e :: set_insert s l'
      else l
  end.

Module OutputSetOps.

Definition Clear (outputs : OutputSet) : OutputSet := [].

Definition AddRange (outputs : OutputSet) (output_port vc_start vc_end pri : Z) : OutputSet :=
  set_insert (SetElement vc_start vc_end pri output_port) outputs.

Definition Add (outputs : OutputSet) (output_port vc pri : Z) : OutputSet :=
  AddRange outputs output_port vc vc pri.

Fixpoint NumVCs_loop (l : OutputSet) (port total : Z) : Z :=
  match l with
  | [] => total
  | i :: l' =>
      NumVCs_loop l' port
        (if output_port i =? port then total + (vc_end i - vc_start i + 1) else total)
  end.

Definition NumVCs (outputs : OutputSet) (port : Z) : Z := NumVCs_loop outputs port 0.

Fixpoint OutputEmpty (outputs : OutputSet) (port : Z) : bool :=
  match outputs with
  | [] => true
  | i :: l' => if output_port i =? port then false else OutputEmpty l' port
  end.

(** The result is the returned VC and the value written through [pri]. *)
Fixpoint GetVC (outputs : OutputSet) (port remaining : Z) : Z * Z :=
  match outputs with
  | [] => (-1, -1)
  | i :: l' =>
      if output_port i =? port then
        let range := vc_end i - vc_start i + 1 in
        if range <=? remaining then GetVC l' port (remaining - range)
        else (vc_start i + remaining, se_pri i)
      else GetVC l' port remaining
  end.

(** The result is the returned flag with the last values written through
    [out_port] and [out_vc], if any. *)
Fixpoint GetPortVC_loop (l : OutputSet) (used_outputs : Z) (single_output : bool)
    (out : option (Z * Z)) : bool * option (Z * Z) :=
  match l with
  | [] => (single_output, out)
  | i :: l' =>
      if vc_start i =? vc_end i then
        let out := Some (output_port i, vc_start i) in
        if negb (used_outputs =? output_port i) then (false, out)
        else GetPortVC_loop l' used_outputs true out
      else (single_output, out)
  end.

Definition GetPortVC (outputs : OutputSet) : bool * option (Z * Z) :=
  GetPortVC_loop outputs
    (match outputs with [] => 0 | i :: _ => output_port i end) false None.

(** ** The set invariant: strictly decreasing priorities *)

Definition higher (a b : sSetElement) : Prop := se_pri b < se_pri a.
Definition wf (outputs : OutputSet) : Prop := StronglySorted higher outputs.

(** The VCs the set offers at [port], best priority first. *)
Definition element_vcs (e : sSetElement) : list (Z * Z) :=
  (λ v, (v, se_pri e)) <$> seqZ (vc_start e) (vc_end e - vc_start e + 1).
Definition vcs_at (outputs : OutputSet) (port : Z) : list (Z * Z) :=
  flat_map element_vcs (filter (λ e, output_port e = port) outputs).

Lemma elem_of_set_insert s l e : e ∈ set_insert s l → e = s ∨ e ∈ l.
Proof.
  induction l as [|x l IH]; simpl; [rewrite list_elem_of_singleton; auto|].
  destruct (se_lt s x); [|destruct (se_lt x s)]; rewrite ?elem_of_cons; naive_solver.
Qed.

Lemma set_insert_wf s l : wf l → wf (set_insert s l).
Proof.
  unfold wf, higher. induction 1 as [|x l Hl IH Hx]; simpl.
  { repeat constructor. }
  destruct (se_lt s x) eqn:E1; [|destruct (se_lt x s) eqn:E2];
    unfold se_lt in *; bool_to_prop.
  - constructor; [by constructor|]. constructor; [done|].
    eapply Forall_impl; [exact Hx|]. simpl. lia.
  - constructor; [done|]. apply Forall_forall. intros e [->|He]%elem_of_set_insert; [lia|].
    rewrite Forall_forall in Hx. by apply Hx.
  - by constructor.
Qed.

Lemma set_insert_fresh s l :
  Forall (λ e, se_pri e ≠ se_pri s) l → set_insert s l ≡ₚ s :: l.
Proof.
  induction 1 as [|x l Hx Hl IH]; simpl; [done|].
  unfold se_lt. destruct (Z.ltb_spec (se_pri x) (se_pri s)); [done|].
  destruct (Z.ltb_spec (se_pri s) (se_pri x)); [|lia].
  rewrite IH. apply Permutation_swap.
Qed.

Lemma set_insert_dup s l :
  wf l → Exists (λ e, se_pri e = se_pri s) l → set_insert s l = l.
Proof.
  unfold wf, higher, se_lt. intros Hw. induction Hw as [|x l Hl IH Hx]; simpl; intros He.
  { by apply Exists_nil in He. }
  unfold se_lt. apply Exists_cons in He as [He|He].
  - rewrite He, !Z.ltb_irrefl. done.
  - assert (se_pri s < se_pri x) as Hlt.
    { apply Exists_exists in He as (e & He & <-). rewrite Forall_forall in Hx. by apply Hx. }
    destruct (Z.ltb_spec (se_pri x) (se_pri s)); [lia|].
    destruct (Z.ltb_spec (se_pri s) (se_pri x)); [|lia]. by rewrite IH.
Qed.

Lemma NumVCs_loop_add l port t : NumVCs_loop l port t = t + NumVCs_loop l port 0.
Proof.
  revert t. induction l as [|i l IH]; intros t; simpl; [lia|].
  destruct (_ =? _); [|apply IH]. rewrite IH, (IH (0 + _)). lia.
Qed.

Lemma vcs_at_cons i l port :
  vcs_at (i :: l) port = (if output_port i =? port then element_vcs i else []) ++ vcs_at l port.
Proof.
  unfold vcs_at. destruct (Z.eqb_spec (output_port i) port).
  - by rewrite filter_cons_True.
  - by rewrite filter_cons_False.
Qed.

Definition ranges_ok (outputs : OutputSet) : Prop :=
  Forall (λ e, vc_start e ≤ vc_end e + 1) outputs.

Lemma NumVCs_length outputs port :
  ranges_ok outputs → NumVCs outputs port = zlen (vcs_at outputs port).
Proof.
  unfold NumVCs, zlen. induction 1 as [|i l Hi Hl IH]; simpl; [done|].
  rewrite vcs_at_cons, NumVCs_loop_add, IH, length_app.
  destruct (_ =? _); simpl; [|lia]. unfold element_vcs. rewrite length_fmap, length_seqZ. lia.
Qed.

Lemma GetVC_lookup outputs port idx :
  ranges_ok outputs → 0 ≤ idx →
  GetVC outputs port idx = default (-1, -1) (vcs_at outputs port !! Z.to_nat idx).
Proof.
  intros Hr. revert idx. induction Hr as [|i l Hi Hl IH]; intros idx Hidx; simpl; [done|].
  rewrite vcs_at_cons. destruct (_ =? _); simpl; [|by apply IH].
  assert (length (element_vcs i) = Z.to_nat (vc_end i - vc_start i + 1)) as Hlen.
  { unfold element_vcs. by rewrite length_fmap, length_seqZ. }
  destruct (Z.leb_spec (vc_end i - vc_start i + 1) idx).
  - rewrite IH by lia. rewrite lookup_app_r by lia. do 2 f_equal. lia.
  - rewrite lookup_app_l by lia. unfold element_vcs. rewrite list_lookup_fmap.
    rewrite lookup_seqZ_lt by lia. simpl. do 2 f_equal. lia.
Qed.

(** C38. [OutputSet::AddRange] keeps the set ordered by strictly decreasing
    priority, adds the new range when its priority is new, and drops it when
    an element of the same priority is already there, whatever its port: the
    comparator of the underlying [std::set] compares priorities only. *)
Theorem AddRange_spec (outputs : OutputSet) (port vs ve pri : Z) :
  wf outputs →
  wf (AddRange outputs port vs ve pri) ∧
  AddRange outputs port vs ve pri ≡ₚ
    if decide (Exists (λ e, se_pri e = pri) outputs) then outputs
    else SetElement vs ve pri port :: outputs.
Proof.
  intros Hwf. split; [by apply set_insert_wf|]. unfold AddRange.
  case_decide as He; [by rewrite set_insert_dup|].
  apply set_insert_fresh. by apply not_Exists_Forall in He; [|intros ?; apply _].
Qed.

(** [NumVCs] counts, and [GetVC] enumerates from index 0, exactly the VCs
    the set offers at a port, in decreasing order of priority; an index past
    the last of them gives VC [-1] with priority [-1]. *)
Theorem GetVC_enumerates (outputs : OutputSet) (port : Z) :
  ranges_ok outputs →
  NumVCs outputs port = zlen (vcs_at outputs port) ∧
  ∀ idx, 0 ≤ idx →
    GetVC outputs port idx = default (-1, -1) (vcs_at outputs port !! Z.to_nat idx).
Proof. intros Hr. split; [by apply NumVCs_length|]. intros. by apply GetVC_lookup. Qed.

Lemma AddRange_spec_witness :
  wf (AddRange [SetElement 0 1 1 4] 2 0 3 0) ∧
  AddRange [SetElement 0 1 1 4] 2 0 3 0 ≡ₚ [SetElement 0 3 0 2; SetElement 0 1 1 4].
Proof.
  pose proof (AddRange_spec [SetElement 0 1 1 4] 2 0 3 0) as H.
  vm_compute decide in H. apply H. repeat constructor.
Defined.

Lemma GetVC_enumerates_witness :
  NumVCs [SetElement 2 3 1 4; SetElement 0 0 0 4] 4 = 3 ∧
  GetVC [SetElement 2 3 1 4; SetElement 0 0 0 4] 4 2 = (0, 0).
Proof.
  destruct (GetVC_enumerates [SetElement 2 3 1 4; SetElement 0 0 0 4] 4) as [H1 H2].
  { repeat constructor; simpl; lia. }
  split; [rewrite H1; reflexivity|]. rewrite H2 by lia. reflexivity.
Defined.

End OutputSetOps.
