(* ===== verification/Flit.v ===== *)
(** * Flits and credits

    The payload types of the channels: [Flit] (flit.hpp, flit.cpp) and
    [Credit] (credit.hpp, credit.cpp).  [data], the opaque user pointer, is
    not interpreted by the network and is left out. *)

From S2P Require Import Prelude OutputSet.

Inductive FlitType : Set :=
  | READ_REQUEST
  | READ_REPLY
  | WRITE_REQUEST
  | WRITE_REPLY
  | ANY_TYPE.

#[export] Instance FlitType_eq_dec : EqDecision FlitType.
Proof. solve_decision. Defined.

Record Flit : Set := mkFlit {
  f_type : FlitType;
  f_vc : Z;
  f_cl : Z;
  f_head : bool;
  f_tail : bool;
  f_ctime : Z;
  f_itime : Z;
  f_atime : Z;
  f_id : Z;
  f_pid : Z;
  f_record : bool;
  f_src : Z;
  f_dest : Z;
  f_pri : Z;
  f_hops : Z;
  f_watch : bool;
  f_subnetwork : Z;
  f_packet_size : Z;
  f_intm : Z;
  f_ph : Z;
  f_la_route_set : OutputSet
}.

#[export] Instance Flit_eq_dec : EqDecision Flit.
Proof. solve_decision. Defined.

Module FlitOps.

Definition set_vc (x : Z) (f : Flit) : Flit :=
  mkFlit (f_type f) x (f_cl f) (f_head f) (f_tail f) (f_ctime f) (f_itime f) (f_atime f)
    (f_id f) (f_pid f) (f_record f) (f_src f) (f_dest f) (f_pri f) (f_hops f) (f_watch
    f) (f_subnetwork f) (f_packet_size f) (f_intm f) (f_ph f) (f_la_route_set f).

Definition set_pri (x : Z) (f : Flit) : Flit :=
  mkFlit (f_type f) (f_vc f) (f_cl f) (f_head f) (f_tail f) (f_ctime f) (f_itime f)
    (f_atime f) (f_id f) (f_pid f) (f_record f) (f_src f) (f_dest f) x (f_hops f)
    (f_watch f) (f_subnetwork f) (f_packet_size f) (f_intm f) (f_ph f) (f_la_route_set
    f).

Definition set_hops (x : Z) (f : Flit) : Flit :=
  mkFlit (f_type f) (f_vc f) (f_cl f) (f_head f) (f_tail f) (f_ctime f) (f_itime f)
    (f_atime f) (f_id f) (f_pid f) (f_record f) (f_src f) (f_dest f) (f_pri f) x
    (f_watch f) (f_subnetwork f) (f_packet_size f) (f_intm f) (f_ph f) (f_la_route_set
    f).

Definition set_intm (x : Z) (f : Flit) : Flit :=
  mkFlit (f_type f) (f_vc f) (f_cl f) (f_head f) (f_tail f) (f_ctime f) (f_itime f)
    (f_atime f) (f_id f) (f_pid f) (f_record f) (f_src f) (f_dest f) (f_pri f) (f_hops
    f) (f_watch f) (f_subnetwork f) (f_packet_size f) x (f_ph f) (f_la_route_set f).

Definition set_ph (x : Z) (f : Flit) : Flit :=
  mkFlit (f_type f) (f_vc f) (f_cl f) (f_head f) (f_tail f) (f_ctime f) (f_itime f)
    (f_atime f) (f_id f) (f_pid f) (f_record f) (f_src f) (f_dest f) (f_pri f) (f_hops
    f) (f_watch f) (f_subnetwork f) (f_packet_size f) (f_intm f) x (f_la_route_set f).

Definition set_la_route_set (x : OutputSet) (f : Flit) : Flit :=
  mkFlit (f_type f) (f_vc f) (f_cl f) (f_head f) (f_tail f) (f_ctime f) (f_itime f)
    (f_atime f) (f_id f) (f_pid f) (f_record f) (f_src f) (f_dest f) (f_pri f) (f_hops
    f) (f_watch f) (f_subnetwork f) (f_packet_size f) (f_intm f) (f_ph f) x.

(** [Flit::Reset]; it leaves [subnetwork] and [la_route_set] as they are. *)
Definition Reset (f : Flit) : Flit := {|
  f_type := ANY_TYPE; f_vc := -1; f_cl := -1; f_head := false; f_tail := false;
  f_ctime := -1; f_itime := -1; f_atime := -1; f_id := -1; f_pid := -1;
  f_hops := 0; f_watch := false; f_record := false; f_src := -1; f_dest := -1;
  f_pri := 0; f_intm := -1; f_ph := -1; f_packet_size := 0;
  f_subnetwork := f_subnetwork f; f_la_route_set := f_la_route_set f |}.

(** A flit of packet [pid]; the other fields are those of a reset flit. *)
Definition sample (id pid vc : Z) (head tail : bool) : Flit := {|
  f_type := ANY_TYPE; f_vc := vc; f_cl := 0; f_head := head; f_tail := tail;
  f_ctime := 0; f_itime := 0; f_atime := 0; f_id := id; f_pid := pid;
  f_hops := 0; f_watch := false; f_record := false; f_src := 0; f_dest := 0;
  f_pri := 0; f_intm := -1; f_ph := -1; f_packet_size := 1;
  f_subnetwork := 0; f_la_route_set := [] |}.

End FlitOps.

#[export] Instance Flit_inhabited : Inhabited Flit := populate (FlitOps.sample 0 0 0 true true).

(** [Credit::vc] is a [set<int>]; the list is its iteration order. *)
Record Credit : Set := mkCredit { c_vc : list Z }.

Definition credit_wf (c : Credit) : Prop := StronglySorted Z.lt (c_vc c).
