(* ===== verification/VCBuffer.v ===== *)
(** * Virtual channels and input buffers

    [VC] (vc.hpp, vc.cpp) is one virtual channel of a router input: a FIFO of
    flits with the state of the packet at its head.  [Buffer] (buffer.hpp,
    buffer.cpp) is the vector of VCs of an input port with a shared occupancy
    count.  A VC owns the flits it holds, so the priority it stamps on a flit
    is an update of the flit in its queue. *)

From S2P Require Import Prelude OutputSet Flit.

Inductive eVCState : Set := idle | routing | vc_alloc | active.

Inductive ePrioType : Set :=
  | local_age_based | queue_length_based | hop_count_based | none | other.

#[export] Instance ePrioType_eq_dec : EqDecision ePrioType.
Proof. solve_decision. Defined.

Record VC : Set := mkVC {
  v_buffer : list Flit;
  v_state : eVCState;
  v_route_set : option OutputSet;
  v_out_port : Z;
  v_out_vc : Z;
  v_pri_type : ePrioType;
  v_pri : Z;
  v_priority_donation : bool;
  v_watched : bool;
  v_expected_pid : Z;
  v_last_id : Z;
  v_last_pid : Z;
  v_lookahead_routing : bool
}.

Module VCOps.

(** The constructor; [pri_type] is the parsed ["priority"] option. *)
Definition New (routing_delay : Z) (pri_type : ePrioType) (donation : bool) : VC :=
  let lookahead := routing_delay =? 0 in {|
  v_buffer := []; v_state := idle;
  v_route_set := if lookahead then None else Some [];
  v_out_port := -1; v_out_vc := -1; v_pri_type := pri_type; v_pri := 0;
  v_priority_donation := donation; v_watched := false;
  v_expected_pid := -1; v_last_id := -1; v_last_pid := -1;
  v_lookahead_routing := lookahead |}.

Definition with_buffer (b : list Flit) (v : VC) : VC :=
  mkVC b (v_state v) (v_route_set v) (v_out_port v) (v_out_vc v) (v_pri_type v) (v_pri v)
    (v_priority_donation v) (v_watched v) (v_expected_pid v) (v_last_id v) (v_last_pid v)
    (v_lookahead_routing v).
Definition with_pri (p : Z) (v : VC) : VC :=
  mkVC (v_buffer v) (v_state v) (v_route_set v) (v_out_port v) (v_out_vc v) (v_pri_type v) p
    (v_priority_donation v) (v_watched v) (v_expected_pid v) (v_last_id v) (v_last_pid v)
    (v_lookahead_routing v).
Definition with_expected (e : Z) (v : VC) : VC :=
  mkVC (v_buffer v) (v_state v) (v_route_set v) (v_out_port v) (v_out_vc v) (v_pri_type v)
    (v_pri v) (v_priority_donation v) (v_watched v) e (v_last_id v) (v_last_pid v)
    (v_lookahead_routing v).
Definition with_last (i p : Z) (v : VC) : VC :=
  mkVC (v_buffer v) (v_state v) (v_route_set v) (v_out_port v) (v_out_vc v) (v_pri_type v)
    (v_pri v) (v_priority_donation v) (v_watched v) (v_expected_pid v) i p
    (v_lookahead_routing v).

Definition SetState (s : eVCState) (v : VC) : VC :=
  mkVC (v_buffer v) s (v_route_set v) (v_out_port v) (v_out_vc v) (v_pri_type v) (v_pri v)
    (v_priority_donation v) (v_watched v) (v_expected_pid v) (v_last_id v) (v_last_pid v)
    (v_lookahead_routing v).
Definition SetRouteSet (rs : option OutputSet) (v : VC) : VC :=
  mkVC (v_buffer v) (v_state v) rs (-1) (-1) (v_pri_type v) (v_pri v)
    (v_priority_donation v) (v_watched v) (v_expected_pid v) (v_last_id v) (v_last_pid v)
    (v_lookahead_routing v).
Definition SetOutput (port vc : Z) (v : VC) : VC :=
  mkVC (v_buffer v) (v_state v) (v_route_set v) port vc (v_pri_type v) (v_pri v)
    (v_priority_donation v) (v_watched v) (v_expected_pid v) (v_last_id v) (v_last_pid v)
    (v_lookahead_routing v).

Definition FrontFlit (v : VC) : option Flit := head (v_buffer v).
Definition Empty (v : VC) : bool := match v_buffer v with [] => true | _ => false end.
Definition GetOccupancy (v : VC) : Z := zlen (v_buffer v).

(** The donor search of [UpdatePriority]: the first flit of highest priority. *)
Fixpoint donor (df : Flit) (l : list Flit) : Flit :=
  match l with
  | [] => df
  | bf :: l' => donor (if f_pri df <? f_pri bf then bf else df) l'
  end.

Definition UpdatePriority (v : VC) : VC :=
  match v_buffer v with
  | [] => v
  | f :: rest =>
      match v_pri_type v with
      | queue_length_based => with_pri (zlen (v_buffer v)) v
      | none => v
      | t =>
          let f := if negb (bool_decide (t = local_age_based)) && v_priority_donation v
                   then donor f rest else f in
          with_pri (f_pri f) v
      end
  end.

(** The packet check at the top of [AddFlit]. *)
Definition check_pid (v : VC) (f : Flit) : res VC :=
  if 0 <=? v_expected_pid v then
    if negb (f_pid f =? v_expected_pid v) then Fail ErrorExit
    else if f_tail f then Ok (with_expected (-1) v)
    else Ok v
  else if negb (f_tail f) then Ok (with_expected (to_int (f_pid f)) v)
  else Ok v.

(** The priority a VC stamps on a flit that enters it at cycle [now]. *)
Definition stamp (now : Z) (t : ePrioType) (f : Flit) : Flit :=
  match t with
  | local_age_based => FlitOps.set_pri (to_int (int_max - now)) f
  | hop_count_based => FlitOps.set_pri (f_hops f) f
  | _ => f
  end.

Definition AddFlit (now : Z) (v : VC) (f : Flit) : res VC :=
  v ← check_pid v f;
  let f := stamp now (v_pri_type v) f in
  assert! (match v_pri_type v with
           | local_age_based | hop_count_based => 0 <=? f_pri f
           | _ => true
           end);
  Ok (UpdatePriority (with_buffer (v_buffer v ++ [f]) v)).

Definition RemoveFlit (v : VC) : res (Flit * VC) :=
  match v_buffer v with
  | [] => Fail ErrorExit
  | f :: rest =>
      Ok (f, UpdatePriority (with_last (to_int (f_id f)) (to_int (f_pid f)) (with_buffer rest v)))
  end.

(** ** Packet structure of a flit sequence *)

(** A complete packet: one packet id, a tail at the end and nowhere else. *)
Definition packet (l : list Flit) : Prop :=
  ∃ body t, l = body ++ [t] ∧ f_tail t = true ∧
    Forall (λ f, f_tail f = false ∧ f_pid f = f_pid t) body.

(** What [_expected_pid = e] says of the flits received so far: complete
    packets, then the flits of the open packet [e], if any. *)
Definition received (e : Z) (l : list Flit) : Prop :=
  ∃ ps cur, l = concat ps ++ cur ∧ Forall packet ps ∧
    Forall (λ f, f_tail f = false ∧ f_pid f = e) cur ∧
    (cur = [] → e = -1) ∧ (cur ≠ [] → 0 ≤ e).

Lemma received_nil : received (-1) [].
Proof. exists [], []. by split_and!. Qed.

Lemma received_start e l f :
  received e l → e < 0 → 0 ≤ f_pid f →
  received (if f_tail f then -1 else f_pid f) (l ++ [f]).
Proof.
  intros (ps & cur & -> & Hps & Hcur & He & He') Hneg Hpid.
  destruct cur as [|c cur]; [|specialize (He' ltac:(done)); lia].
  rewrite app_nil_r. destruct (f_tail f) eqn:Ht.
  - exists (ps ++ [[f]]), []. rewrite concat_app, app_nil_r. simpl. split_and!; try done.
    apply Forall_app_2; [done|]. constructor; [|done]. by exists [], f.
  - exists ps, [f]. split_and!; try done. by repeat constructor.
Qed.

Lemma received_continue e l f :
  received e l → 0 ≤ e → f_pid f = e →
  received (if f_tail f then -1 else e) (l ++ [f]).
Proof.
  intros (ps & cur & -> & Hps & Hcur & He & He') Hpos Hpid.
  destruct (f_tail f) eqn:Ht.
  - exists (ps ++ [cur ++ [f]]), []. rewrite concat_app, app_nil_r. simpl. rewrite app_nil_r.
    rewrite app_assoc. split_and!; try done.
    apply Forall_app_2; [done|]. constructor; [|done].
    exists cur, f. split_and!; [done..|].
    eapply Forall_impl; [exact Hcur|]. simpl. intros g [? ?]. split; [done|congruence].
  - exists ps, (cur ++ [f]). rewrite app_assoc. split_and!; try done.
    + apply Forall_app_2; [done|]. by constructor.
    + intros E. by apply app_eq_nil in E as [_ [=]].
Qed.

Lemma stamp_pid now t f : f_pid (stamp now t f) = f_pid f.
Proof. by destruct t. Qed.
Lemma stamp_tail now t f : f_tail (stamp now t f) = f_tail f.
Proof. by destruct t. Qed.

(** ** The priority a VC requests with *)

Definition max_pri (l : list Flit) : Z := foldr (λ f m, Z.max (f_pri f) m) int_min l.

Definition spec_pri (t : ePrioType) (donation : bool) (l : list Flit) (old : Z) : Z :=
  match l with
  | [] => old
  | f :: _ =>
      match t with
      | queue_length_based => zlen l
      | none => old
      | local_age_based => f_pri f
      | hop_count_based | other => if donation then max_pri l else f_pri f
      end
  end.

Lemma donor_max df l : int_min ≤ f_pri df → f_pri (donor df l) = max_pri (df :: l).
Proof.
  unfold max_pri. revert df. induction l as [|bf l IH]; intros df Hd; cbn [donor foldr]; [lia|].
  destruct (Z.ltb_spec (f_pri df) (f_pri bf)); rewrite IH by lia; cbn [foldr]; lia.
Qed.

Definition pris_ok (l : list Flit) : Prop := Forall (λ f, int_min ≤ f_pri f) l.

Lemma UpdatePriority_pri v :
  pris_ok (v_buffer v) →
  UpdatePriority v =
    with_pri (spec_pri (v_pri_type v) (v_priority_donation v) (v_buffer v) (v_pri v)) v.
Proof.
  destruct v as [b st rs op ov t p don w e li lp la]. unfold UpdatePriority, with_pri, spec_pri. simpl.
  intros Hok. destruct b as [|f b]; [done|].
  apply Forall_cons in Hok as [Hf Hb].
  destruct t; simpl; try done; destruct don; simpl; try done; by rewrite donor_max.
Qed.

(** ** Runs of a VC *)

Inductive op : Set := OpAdd (now : Z) (f : Flit) | OpRemove.

Definition run1 (o : op) (v : VC) : res (VC * list Flit) :=
  match o with
  | OpAdd now f => v' ← AddFlit now v f; Ok (v', [])
  | OpRemove => '(f, v') ← RemoveFlit v; Ok (v', [f])
  end.

Fixpoint run (ops : list op) (v : VC) : res (VC * list Flit) :=
  match ops with
  | [] => Ok (v, [])
  | o :: ops => '(v', out1) ← run1 o v; '(v'', out2) ← run ops v'; Ok (v'', out1 ++ out2)
  end.

Definition added (t : ePrioType) (ops : list op) : list Flit :=
  omap (λ o, match o with OpAdd now f => Some (stamp now t f) | OpRemove => None end) ops.

Definition op_ok (o : op) : Prop :=
  match o with OpAdd _ f => 0 ≤ f_pid f ≤ int_max ∧ int_min ≤ f_pri f | OpRemove => True end.

(** The invariant: the flits that left plus those buffered are the flits
    received, in order, as packets; [_pri] is the specified priority. *)
Record inv (left : list Flit) (v : VC) : Prop := {
  inv_received : received (v_expected_pid v) (left ++ v_buffer v);
  inv_pris : pris_ok (v_buffer v);
  inv_pri : v_pri v = spec_pri (v_pri_type v) (v_priority_donation v) (v_buffer v) (v_pri v)
}.

Lemma stamp_pri_ok now t f :
  int_min ≤ f_pri f →
  (match t with local_age_based | hop_count_based => 0 <=? f_pri (stamp now t f) | _ => true end) = true →
  int_min ≤ f_pri (stamp now t f).
Proof. unfold int_min. destruct t; simpl; intros; bool_to_prop; lia. Qed.

Lemma spec_pri_idem t d l p : spec_pri t d l (spec_pri t d l p) = spec_pri t d l p.
Proof. by destruct l, t. Qed.

Lemma inv_update left v :
  received (v_expected_pid v) (left ++ v_buffer v) → pris_ok (v_buffer v) →
  inv left (UpdatePriority v).
Proof.
  intros Hr Hp. rewrite UpdatePriority_pri by done. split; simpl; [done|done|].
  by rewrite spec_pri_idem.
Qed.

Lemma check_pid_spec v f left l v' :
  received (v_expected_pid v) (left ++ l) → 0 ≤ f_pid f ≤ int_max →
  check_pid v f = Ok v' →
  v' = with_expected (v_expected_pid v') v ∧
  received (v_expected_pid v') ((left ++ l) ++ [f]).
Proof.
  unfold check_pid. intros Hr [Hpid Hmax]. rewrite to_int_id by (unfold int_min; lia).
  destruct (Z.leb_spec 0 (v_expected_pid v)) as [He|He].
  - destruct (Z.eqb_spec (f_pid f) (v_expected_pid v)) as [Hp|]; [|done]. simpl.
    pose proof (received_continue _ _ f Hr He Hp) as Hc.
    destruct (f_tail f); intros [= <-]; (split; [by destruct v|done]).
  - pose proof (received_start _ _ f Hr He Hpid) as Hc.
    destruct (f_tail f); simpl; intros [= <-]; (split; [by destruct v|]); [|done].
    destruct Hr as (ps & cur & E & ? & ? & H1 & H2).
    destruct (decide (cur = [])) as [Hn|Hn]; [by rewrite H1|].
    specialize (H2 Hn). lia.
Qed.

Lemma received_stamp e l f now t :
  received e (l ++ [f]) → received e (l ++ [stamp now t f]).
Proof.
  intros (ps & cur & E & Hps & Hcur & He & He').
  destruct cur as [|c cur] using rev_ind.
  - rewrite app_nil_r in E. destruct ps as [|p ps _] using rev_ind.
    { by apply app_eq_nil in E as [_ [=]]. }
    apply Forall_app in Hps as [Hps Hp]. apply Forall_singleton in Hp as (body & tl & -> & Ht & Hb).
    rewrite concat_app in E. simpl in E. rewrite app_nil_r, app_assoc in E.
    apply app_inj_tail in E as [E ->].
    exists (ps ++ [body ++ [stamp now t tl]]), []. rewrite concat_app. simpl.
    rewrite !app_nil_r, app_assoc, E. split_and!; try done.
    apply Forall_app_2; [done|]. apply Forall_singleton.
    exists body, (stamp now t tl). rewrite stamp_tail, stamp_pid. done.
  - rewrite app_assoc in E. apply app_inj_tail in E as [E ->].
    apply Forall_app in Hcur as [Hcur Hc]. apply Forall_singleton in Hc as [Hc1 Hc2].
    exists ps, (cur ++ [stamp now t c]). rewrite app_assoc, E. split_and!; try done.
    + apply Forall_app_2; [done|]. apply Forall_singleton. by rewrite stamp_tail, stamp_pid.
    + intros E'. by apply app_eq_nil in E' as [_ [=]].
    + intros _. apply He'. intros E'. by apply app_eq_nil in E' as [_ [=]].
Qed.

Lemma AddFlit_inv left now v f v' :
  inv left v → 0 ≤ f_pid f ≤ int_max → int_min ≤ f_pri f →
  AddFlit now v f = Ok v' →
  inv left v' ∧ v_buffer v' = v_buffer v ++ [stamp now (v_pri_type v) f] ∧
  v_pri_type v' = v_pri_type v.
Proof.
  intros [Hr Hp Hpri] Hpid Hfp. unfold AddFlit. intros H.
  apply bind_ok_inv in H as (v1 & Hc & H).
  destruct (check_pid_spec _ _ _ _ _ Hr Hpid Hc) as [Hv1 Hr1].
  apply assert_ok_inv in H as [Ha [= <-]]. rewrite Hv1 in *. simpl in *.
  set (v2 := with_buffer _ _).
  assert (pris_ok (v_buffer v2)) as Hp2.
  { subst v2. simpl. apply Forall_app_2; [done|]. apply Forall_singleton.
    by apply stamp_pri_ok. }
  split; [|by rewrite UpdatePriority_pri].
  apply inv_update; [|done]. subst v2. simpl. rewrite app_assoc. by apply received_stamp.
Qed.

Lemma RemoveFlit_inv left v f v' :
  inv left v → RemoveFlit v = Ok (f, v') →
  inv (left ++ [f]) v' ∧ v_buffer v = f :: v_buffer v' ∧ v_pri_type v' = v_pri_type v.
Proof.
  intros [Hr Hp Hpri]. unfold RemoveFlit. destruct (v_buffer v) as [|g rest] eqn:E; [done|].
  intros [= <- <-]. apply Forall_cons in Hp as [Hg Hrest].
  split; [|by rewrite UpdatePriority_pri].
  apply inv_update; simpl; [|done]. by rewrite <- app_assoc.
Qed.

Lemma run_inv ops : ∀ left v v' out,
  inv left v → Forall op_ok ops → run ops v = Ok (v', out) →
  inv (left ++ out) v' ∧ out ++ v_buffer v' = v_buffer v ++ added (v_pri_type v) ops.
Proof.
  induction ops as [|o ops IH]; intros left v v' out Hi Hops Hrun.
  { injection Hrun as <- <-. simpl. by rewrite !app_nil_r. }
  apply Forall_cons in Hops as [Ho Hops]. simpl in Hrun.
  apply bind_ok_inv in Hrun as ([v1 out1] & H1 & Hrun).
  apply bind_ok_inv in Hrun as ([v2 out2] & H2 & [= <- <-]).
  destruct o as [now f|]; simpl in H1.
  - apply bind_ok_inv in H1 as (v1' & H1 & [= <- <-]). destruct Ho as [Hf1 Hf2].
    destruct (AddFlit_inv _ _ _ _ _ Hi Hf1 Hf2 H1) as (Hi1 & Hb & Ht).
    destruct (IH _ _ _ _ Hi1 Hops H2) as [Hi2 Hb2].
    simpl. split; [done|]. rewrite Hb2, Hb, Ht, <- app_assoc. done.
  - apply bind_ok_inv in H1 as ([f v1'] & H1 & [= <- <-]).
    destruct (RemoveFlit_inv _ _ _ _ Hi H1) as (Hi1 & Hb & Ht).
    destruct (IH _ _ _ _ Hi1 Hops H2) as [Hi2 Hb2].
    rewrite app_assoc. split; [done|]. rewrite Hb. simpl. by rewrite Hb2, Ht.
Qed.

Lemma New_inv rd t d : inv [] (New rd t d).
Proof. split; simpl; [apply received_nil|constructor|done]. Qed.

(** C36. A virtual channel is a FIFO that never interleaves packets.  In every
    run of [AddFlit] and [RemoveFlit] from a new VC that reports no error, the
    flits that came out followed by those still buffered are the flits that
    went in, in order (with the priority stamped at entry); they form complete
    packets followed by at most one open packet, whose id is [_expected_pid];
    and [_pri] is the priority the configured scheme assigns to the buffer
    (its length, its front flit, or with donation its best flit). *)
Theorem VC_fifo_packets rd t d (ops : list op) v out :
  Forall op_ok ops → run ops (New rd t d) = Ok (v, out) →
  out ++ v_buffer v = added t ops ∧
  received (v_expected_pid v) (added t ops) ∧
  v_pri v = spec_pri (v_pri_type v) (v_priority_donation v) (v_buffer v) (v_pri v).
Proof.
  intros Hops Hrun. destruct (run_inv _ _ _ _ _ (New_inv rd t d) Hops Hrun) as [Hi Hb].
  simpl in *. split; [done|]. rewrite <- Hb. split; apply Hi.
Qed.

Lemma VC_fifo_packets_witness :
  ∃ v, run [OpAdd 0 (FlitOps.sample 1 7 0 true false); OpAdd 1 (FlitOps.sample 2 7 0 false true);
            OpRemove] (New 1 queue_length_based false) = Ok (v, [FlitOps.sample 1 7 0 true false]) ∧
    received (v_expected_pid v)
      [FlitOps.sample 1 7 0 true false; FlitOps.sample 2 7 0 false true].
Proof.
  eexists. split; [reflexivity|].
  eapply (VC_fifo_packets 1 queue_length_based false
    [OpAdd 0 (FlitOps.sample 1 7 0 true false); OpAdd 1 (FlitOps.sample 2 7 0 false true); OpRemove]);
    [|reflexivity].
  repeat constructor; vm_compute; discriminate.
Defined.

(** [VC::AddFlit] rejects a flit exactly when a packet is open and the
    flit belongs to another packet; otherwise (for priorities that fit an
    [int]) it is accepted and the queue grows by that flit. *)
Theorem AddFlit_accepts (now : Z) (v : VC) (f : Flit) :
  0 ≤ now ≤ int_max → 0 ≤ f_hops f →
  AddFlit now v f =
    if bool_decide (0 ≤ v_expected_pid v ∧ f_pid f ≠ v_expected_pid v) then Fail ErrorExit
    else Ok (UpdatePriority
               (with_expected (if f_tail f then if 0 <=? v_expected_pid v then -1 else v_expected_pid v
                               else if 0 <=? v_expected_pid v then f_pid f else to_int (f_pid f))
                  (with_buffer (v_buffer v ++ [stamp now (v_pri_type v) f]) v))).
Proof.
  intros Hnow Hhops. unfold AddFlit, check_pid.
  assert (∀ t, match t with local_age_based | hop_count_based => 0 <=? f_pri (stamp now t f)
               | _ => true end = true) as Ha
    by (intros []; simpl; rewrite ?to_int_id by (unfold int_min; lia); lia).
  destruct (Z.leb_spec 0 (v_expected_pid v)) as [He|He].
  - destruct (Z.eqb_spec (f_pid f) (v_expected_pid v)) as [Hp|Hp]; simpl.
    + rewrite bool_decide_eq_false_2 by tauto.
      destruct (f_tail f); simpl; rewrite Ha; simpl; [done|].
      rewrite Hp. by destruct v.
    + by rewrite bool_decide_eq_true_2.
  - rewrite bool_decide_eq_false_2 by lia.
    destruct (f_tail f); simpl; rewrite Ha; simpl; [|done]. by destruct v.
Qed.

Lemma AddFlit_accepts_witness :
  AddFlit 5 (with_expected 3 (New 1 local_age_based false)) (FlitOps.sample 1 4 0 true true)
  = Fail ErrorExit.
Proof. rewrite AddFlit_accepts; [reflexivity|split|]; vm_compute; discriminate. Defined.

End VCOps.

Record Buffer : Set := mkBuffer {
  b_occupancy : Z;
  b_size : Z;
  b_vc : list VC
}.

#[export] Instance VC_inhabited : Inhabited VC := populate (VCOps.New 1 none false).

Module BufferOps.

(** The constructor: [buf_size], or one [vc_buf_size] per VC when it is
    negative. *)
Definition New (num_vcs buf_size vc_buf_size routing_delay : Z)
    (pri_type : ePrioType) (donation : bool) : Buffer := {|
  b_occupancy := 0;
  b_size := if buf_size <? 0 then num_vcs * vc_buf_size else buf_size;
  b_vc := replicate (Z.to_nat num_vcs) (VCOps.New routing_delay pri_type donation) |}.

Definition AddFlit (now : Z) (b : Buffer) (vc : Z) (f : Flit) : res Buffer :=
  if b_size b <=? b_occupancy b then Fail ErrorExit
  else
    v ← vget (b_vc b) vc;
    v' ← VCOps.AddFlit now v f;
    vcs ← vset (b_vc b) vc v';
    Ok (mkBuffer (b_occupancy b + 1) (b_size b) vcs).

Definition RemoveFlit (b : Buffer) (vc : Z) : res (Flit * Buffer) :=
  v ← vget (b_vc b) vc;
  '(f, v') ← VCOps.RemoveFlit v;
  vcs ← vset (b_vc b) vc v';
  Ok (f, mkBuffer (b_occupancy b - 1) (b_size b) vcs).

Definition FrontFlit (b : Buffer) (vc : Z) : res (option Flit) :=
  v ← vget (b_vc b) vc; Ok (VCOps.FrontFlit v).
Definition Empty (b : Buffer) (vc : Z) : res bool :=
  v ← vget (b_vc b) vc; Ok (VCOps.Empty v).
Definition Full (b : Buffer) : bool := b_size b <=? b_occupancy b.
Definition GetState (b : Buffer) (vc : Z) : res eVCState :=
  v ← vget (b_vc b) vc; Ok (v_state v).
Definition update_vc (g : VC → VC) (b : Buffer) (vc : Z) : res Buffer :=
  v ← vget (b_vc b) vc;
  vcs ← vset (b_vc b) vc (g v);
  Ok (mkBuffer (b_occupancy b) (b_size b) vcs).
Definition SetState (b : Buffer) (vc : Z) (s : eVCState) : res Buffer :=
  update_vc (VCOps.SetState s) b vc.
Definition SetRouteSet (b : Buffer) (vc : Z) (rs : option OutputSet) : res Buffer :=
  update_vc (VCOps.SetRouteSet rs) b vc.
Definition SetOutput (b : Buffer) (vc out_port out_vc : Z) : res Buffer :=
  update_vc (VCOps.SetOutput out_port out_vc) b vc.
Definition GetOccupancy (b : Buffer) : Z := b_occupancy b.
Definition GetOccupancyFor (b : Buffer) (vc : Z) : res Z :=
  v ← vget (b_vc b) vc; Ok (VCOps.GetOccupancy v).

(** ** The occupancy invariant *)

Definition fill (vcs : list VC) : list Z := VCOps.GetOccupancy <$> vcs.

Record inv (b : Buffer) : Prop := {
  inv_occupancy : b_occupancy b = zsum (fill (b_vc b));
  inv_size : b_occupancy b ≤ b_size b
}.

Lemma fill_zupd (vcs : list VC) vc v :
  fill (vcs⟦vc := v⟧) = (fill vcs)⟦vc := VCOps.GetOccupancy v⟧.
Proof. apply list_fmap_insert. Qed.

Lemma zlen_fill (vcs : list VC) : zlen (fill vcs) = zlen vcs.
Proof. unfold zlen, fill. by rewrite length_fmap. Qed.

Lemma fill_nth (vcs : list VC) vc :
  0 ≤ vc < zlen vcs → (fill vcs)⟦vc⟧ = VCOps.GetOccupancy (vcs⟦vc⟧).
Proof.
  intros Hvc. unfold znth, fill. apply list_lookup_total_correct.
  rewrite list_lookup_fmap. by rewrite znth_lookup.
Qed.

Lemma zsum_fill_zupd (vcs : list VC) vc v :
  0 ≤ vc < zlen vcs →
  zsum (fill (vcs⟦vc := v⟧)) =
    zsum (fill vcs) - VCOps.GetOccupancy (vcs⟦vc⟧) + VCOps.GetOccupancy v.
Proof.
  intros Hvc. rewrite fill_zupd, zsum_zupd by (rewrite zlen_fill; lia).
  by rewrite fill_nth.
Qed.

Lemma AddFlit_ok now b vc f b' :
  AddFlit now b vc f = Ok b' →
  ∃ v', 0 ≤ vc < zlen (b_vc b) ∧ b_occupancy b < b_size b ∧
    VCOps.AddFlit now ((b_vc b)⟦vc⟧) f = Ok v' ∧
    b' = mkBuffer (b_occupancy b + 1) (b_size b) ((b_vc b)⟦vc := v'⟧).
Proof.
  unfold AddFlit. destruct (Z.leb_spec (b_size b) (b_occupancy b)); [done|]. intros H0.
  apply bind_ok_inv in H0 as (v & [Hvc <-]%vget_inv & H0).
  apply bind_ok_inv in H0 as (v' & Hv & H0).
  apply bind_ok_inv in H0 as (vcs & [_ ->]%vset_inv & [= <-]). eauto 10.
Qed.

Lemma VC_AddFlit_length now v f v' :
  VCOps.AddFlit now v f = Ok v' → VCOps.GetOccupancy v' = VCOps.GetOccupancy v + 1.
Proof.
  unfold VCOps.AddFlit. intros H. apply bind_ok_inv in H as (v1 & Hc & H).
  apply assert_ok_inv in H as [_ [= <-]].
  assert (v_buffer v1 = v_buffer v) as E.
  { unfold VCOps.check_pid in Hc.
    repeat (case_match; try done); by injection Hc as <-. }
  unfold VCOps.GetOccupancy, VCOps.UpdatePriority, zlen. rewrite E.
  repeat case_match; simpl; rewrite ?E, ?length_app; simpl; lia.
Qed.

(** The packet id a VC expects after [f], when it accepts [f]. *)
Definition next_pid (e : Z) (f : Flit) : option Z :=
  if (0 <=? e) && negb (f_pid f =? e) then None
  else Some (if f_tail f then (if 0 <=? e then -1 else e) else if 0 <=? e then e else to_int (f_pid f)).

Lemma VC_AddFlit_returns now v f e :
  0 ≤ now ≤ int_max → 0 ≤ f_hops f → next_pid (v_expected_pid v) f = Some e →
  returns (VCOps.AddFlit now v f) (λ v', v_expected_pid v' = e).
Proof.
  intros Hnow Hh He. unfold VCOps.AddFlit.
  assert (returns (VCOps.check_pid v f) (λ v1, v_expected_pid v1 = e)) as Hc.
  { revert He. unfold next_pid, VCOps.check_pid.
    destruct (Z.leb_spec 0 (v_expected_pid v)), (Z.eqb_spec (f_pid f) (v_expected_pid v));
      destruct (f_tail f); simpl; intros [= <-]; apply returns_ok; simpl; congruence. }
  eapply returns_bind; [exact Hc|]. intros v1 He1.
  apply returns_assert; [destruct (v_pri_type v1); simpl; rewrite ?to_int_id by (unfold int_min; lia); lia|]. apply returns_ok.
  unfold VCOps.UpdatePriority. repeat case_match; done.
Qed.

Lemma AddFlit_returns now b vc f e :
  0 ≤ vc < zlen (b_vc b) → b_occupancy b < b_size b →
  0 ≤ now ≤ int_max → 0 ≤ f_hops f → next_pid (v_expected_pid ((b_vc b)⟦vc⟧)) f = Some e →
  returns (AddFlit now b vc f) (λ b', ∃ v',
    b' = mkBuffer (b_occupancy b + 1) (b_size b) ((b_vc b)⟦vc := v'⟧) ∧
    v_expected_pid v' = e ∧ VCOps.GetOccupancy v' = VCOps.GetOccupancy ((b_vc b)⟦vc⟧) + 1).
Proof.
  intros Hvc Hroom Hnow Hh He. unfold AddFlit. destruct (Z.leb_spec (b_size b) (b_occupancy b)); [lia|].
  apply returns_vget; [done|].
  destruct (VC_AddFlit_returns now _ f e Hnow Hh He) as (v' & Hv & He'). rewrite Hv. simpl.
  apply returns_vset; [done|]. apply returns_ok. exists v'.
  by rewrite (VC_AddFlit_length _ _ _ _ Hv).
Qed.

Lemma VC_RemoveFlit_length v f v' :
  VCOps.RemoveFlit v = Ok (f, v') → VCOps.GetOccupancy v' = VCOps.GetOccupancy v - 1.
Proof.
  unfold VCOps.RemoveFlit, VCOps.GetOccupancy, zlen.
  destruct (v_buffer v) as [|g rest]; [done|]. intros [= <- <-].
  unfold VCOps.UpdatePriority. repeat case_match; simplify_eq/=; lia.
Qed.

Lemma inv_New num_vcs buf_size vc_buf_size rd t d :
  0 ≤ (if buf_size <? 0 then num_vcs * vc_buf_size else buf_size) →
  inv (New num_vcs buf_size vc_buf_size rd t d).
Proof.
  intros. split; simpl; [|done]. unfold fill. rewrite fmap_replicate. unfold VCOps.GetOccupancy.
  simpl. by rewrite zsum_replicate_0.
Qed.

Lemma inv_AddFlit now b vc f b' : inv b → AddFlit now b vc f = Ok b' → inv b'.
Proof.
  intros [Ho Hs] (v' & Hvc & Hlt & Hv & ->)%AddFlit_ok. split; simpl; [|lia].
  rewrite zsum_fill_zupd by done. rewrite (VC_AddFlit_length _ _ _ _ Hv). lia.
Qed.

Lemma inv_RemoveFlit b vc f b' : inv b → RemoveFlit b vc = Ok (f, b') → inv b'.
Proof.
  intros [Ho Hs]. unfold RemoveFlit. intros H.
  apply bind_ok_inv in H as (v & [Hvc <-]%vget_inv & H).
  apply bind_ok_inv in H as ([g v'] & Hv & H).
  apply bind_ok_inv in H as (vcs & [_ ->]%vset_inv & [= <- <-]).
  split; simpl; [|lia]. rewrite zsum_fill_zupd by done.
  rewrite (VC_RemoveFlit_length _ _ _ Hv). lia.
Qed.

Lemma RemoveFlit_returns b vc :
  0 ≤ vc < zlen (b_vc b) → 0 < VCOps.GetOccupancy ((b_vc b)⟦vc⟧) →
  returns (RemoveFlit b vc) (λ r, ∃ v',
    r.2 = mkBuffer (b_occupancy b - 1) (b_size b) ((b_vc b)⟦vc := v'⟧) ∧
    v_expected_pid v' = v_expected_pid ((b_vc b)⟦vc⟧) ∧
    VCOps.GetOccupancy v' = VCOps.GetOccupancy ((b_vc b)⟦vc⟧) - 1).
Proof.
  intros Hvc Hpos. unfold RemoveFlit. apply returns_vget; [done|].
  unfold VCOps.GetOccupancy, VCOps.RemoveFlit, zlen in *.
  destruct (v_buffer ((b_vc b)⟦vc⟧)) as [|g rest] eqn:E; [simpl in Hpos; lia|].
  simpl. rewrite vset_ok by done. apply returns_ok. eexists. split; [done|].
  unfold VCOps.UpdatePriority. repeat case_match; simplify_eq/=; (split; [done|lia]).
Qed.

Lemma fill_nonneg vcs : Forall (λ x, 0 ≤ x) (fill vcs).
Proof. apply Forall_fmap, Forall_true. intros v. apply zlen_nonneg. Qed.

End BufferOps.
