(* ===== verification/BufferState.v ===== *)
(** * Downstream buffer state: credits and buffer policies

    [BufferState] (buffer_state.hpp, buffer_state.cpp) is a router's view of
    the input buffer at the other end of one of its output channels.  It counts
    the flits sent and the credits received per VC, records which packet owns
    each VC, and delegates the question whether a VC may receive another flit
    to one of seven buffer policies.

    [Core] holds the members of [BufferState] other than the policy: the part a
    policy reads through its [_buffer_state] pointer.  The policies are a C++
    class hierarchy; each subclass is a constructor of [BufferPolicy] that
    carries the members it inherits, and a method that calls its base class
    calls the base definition here. *)

From S2P Require Import Prelude OutputSet Flit.

Record Core : Set := mkCore {
  wait_for_tail_credit : bool;
  size : Z;
  occupancy : Z;
  vc_occupancy : list Z;
  vcs : Z;
  in_use_by : list Z;
  tail_sent : list bool;
  last_id : list Z;
  last_pid : list Z
}.

(** Members of [SharedBufferPolicy]. *)
Record Shared : Set := mkShared {
  buf_size : Z;
  private_buf_vc_map : list Z;
  private_buf_size : list Z;
  private_buf_occupancy : list Z;
  shared_buf_size : Z;
  shared_buf_occupancy : Z;
  reserved_slots : list Z
}.

(** Members [LimitedSharedBufferPolicy] adds. *)
Record Limited : Set := mkLimited {
  lim_vcs : Z;
  active_vcs : Z;
  max_held_slots : Z
}.

(** Members [FeedbackSharedBufferPolicy] adds. *)
Record Feedback : Set := mkFeedback {
  fb_vcs : Z;
  occupancy_limit : list Z;
  round_trip_time : list Z;
  flit_sent_time : list (list Z);
  min_latency : Z;
  total_mapped_size : Z;
  aging_scale : Z;
  offset : Z
}.

Inductive BufferPolicy : Set :=
  | PrivateBufferPolicy (vc_buf_size : Z)
  | SharedBufferPolicy (sh : Shared)
  | LimitedSharedBufferPolicy (sh : Shared) (l : Limited)
  | DynamicLimitedSharedBufferPolicy (sh : Shared) (l : Limited)
  | ShiftingDynamicLimitedSharedBufferPolicy (sh : Shared) (l : Limited)
  | FeedbackSharedBufferPolicy (sh : Shared) (fb : Feedback)
  | SimpleFeedbackSharedBufferPolicy (sh : Shared) (fb : Feedback) (pending_credits : list Z).

Record BufferState : Set := mkBufferState {
  core : Core;
  buffer_policy : BufferPolicy
}.

(** The options the constructors read; an option of array type is the pair of
    its [GetIntArray] and [GetInt] values. *)
Record Config : Set := mkConfig {
  cfg_num_vcs : Z;
  cfg_buf_size : Z;
  cfg_vc_buf_size : Z;
  cfg_buffer_policy : string;
  cfg_private_bufs : Z;
  cfg_private_buf_size : list Z * Z;
  cfg_private_buf_start_vc : list Z * Z;
  cfg_private_buf_end_vc : list Z * Z;
  cfg_max_held_slots : Z;
  cfg_feedback_aging_scale : Z;
  cfg_feedback_offset : Z;
  cfg_wait_for_tail_credit : Z
}.

(** ** The inline accessors of [BufferState] *)

Module CoreOps.

Definition valid_vc (c : Core) (vc : Z) : bool := (0 <=? vc) && (vc <? vcs c).

Definition IsEmptyFor (c : Core) (vc : Z) : res bool :=
  assert! valid_vc c vc; o ← vget (vc_occupancy c) vc; Ok (o =? 0).
Definition IsAvailableFor (c : Core) (vc : Z) : res bool :=
  assert! valid_vc c vc; u ← vget (in_use_by c) vc; Ok (u <? 0).
Definition UsedBy (c : Core) (vc : Z) : res Z :=
  assert! valid_vc c vc; vget (in_use_by c) vc.
Definition OccupancyFor (c : Core) (vc : Z) : res Z :=
  assert! valid_vc c vc; vget (vc_occupancy c) vc.
Definition IsFull (c : Core) : res bool :=
  assert! (occupancy c <=? size c); Ok (occupancy c =? size c).

Definition set_occupancy (o : Z) (vo : list Z) (c : Core) : Core :=
  mkCore (wait_for_tail_credit c) (size c) o vo (vcs c) (in_use_by c) (tail_sent c)
    (last_id c) (last_pid c).
Definition set_in_use_by (u : list Z) (c : Core) : Core :=
  mkCore (wait_for_tail_credit c) (size c) (occupancy c) (vc_occupancy c) (vcs c) u
    (tail_sent c) (last_id c) (last_pid c).
Definition set_tail_sent (t : list bool) (c : Core) : Core :=
  mkCore (wait_for_tail_credit c) (size c) (occupancy c) (vc_occupancy c) (vcs c)
    (in_use_by c) t (last_id c) (last_pid c).
Definition set_last (i p : list Z) (c : Core) : Core :=
  mkCore (wait_for_tail_credit c) (size c) (occupancy c) (vc_occupancy c) (vcs c)
    (in_use_by c) (tail_sent c) i p.

End CoreOps.

(** ** [PrivateBufferPolicy] *)

Module PrivatePolicy.
Import CoreOps.

Definition New (cfg : Config) : res Z :=
  let vc_buf_size :=
    if cfg_buf_size cfg <=? 0 then cfg_vc_buf_size cfg
    else cfg_buf_size cfg `quot` cfg_num_vcs cfg in
  assert! (0 <? vc_buf_size); Ok vc_buf_size.

Definition SendingFlit (vc_buf_size : Z) (c : Core) (f : Flit) : res unit :=
  o ← OccupancyFor c (f_vc f);
  if vc_buf_size <? o then Fail ErrorExit else Ok tt.
Definition IsFullFor (vc_buf_size : Z) (c : Core) (vc : Z) : res bool :=
  o ← OccupancyFor c vc; Ok (vc_buf_size <=? o).
Definition AvailableFor (vc_buf_size : Z) (c : Core) (vc : Z) : res Z :=
  o ← OccupancyFor c vc; Ok (vc_buf_size - o).
Definition LimitFor (vc_buf_size : Z) (vc : Z) : res Z := Ok vc_buf_size.

End PrivatePolicy.

(** ** [SharedBufferPolicy] *)

Module SharedPolicy.
Import CoreOps.

(** [vector::resize(n, x)]. *)
Definition vresize {A} (v : list A) (n : Z) (x : A) : list A :=
  take (Z.to_nat n) v ++ replicate (Z.to_nat n - length v) x.

(** [private_buf_start_vc] and [private_buf_end_vc], when not given, split the
    VCs evenly between the private buffers. *)
Definition start_vcs (cfg : Config) (num_private_bufs : Z) : list Z :=
  match cfg_private_buf_start_vc cfg with
  | ([], sv) =>
      if sv <? 0 then
        (λ i, (i * cfg_num_vcs cfg) `quot` num_private_bufs) <$> seqZ 0 num_private_bufs
      else [sv]
  | (l, _) => l
  end.
Definition end_vcs (cfg : Config) (num_private_bufs : Z) : list Z :=
  match cfg_private_buf_end_vc cfg with
  | ([], ev) =>
      if ev <? 0 then
        (λ i, ((i + 1) * cfg_num_vcs cfg) `quot` num_private_bufs - 1) <$> seqZ 0 num_private_bufs
      else [ev]
  | (l, _) => l
  end.

(** The loop that maps the VCs [start_vc[i] .. end_vc[i]] to buffer [i]. *)
Definition map_vcs (i sv ev : Z) (vc_map : list Z) : res (list Z) :=
  zfor sv (ev + 1) (λ v m,
    x ← vget m v;
    assert! (x <? 0);
    vset m v i) vc_map.

Definition New (cfg : Config) : res Shared :=
  let vcs := cfg_num_vcs cfg in
  let num_private_bufs :=
    if cfg_private_bufs cfg <? 0 then vcs
    else if cfg_private_bufs cfg =? 0 then 1 else cfg_private_bufs cfg in
  let buf_size :=
    if cfg_buf_size cfg <? 0 then vcs * cfg_vc_buf_size cfg else cfg_buf_size cfg in
  let sizes :=
    match cfg_private_buf_size cfg with
    | ([], bs) => [if bs <? 0 then buf_size `quot` num_private_bufs else bs]
    | (l, _) => l
    end in
  let sizes := vresize sizes num_private_bufs (default 0 (last sizes)) in
  let start_vc := start_vcs cfg num_private_bufs in
  let end_vc := end_vcs cfg num_private_bufs in
  '(shared_size, vc_map) ←
    zfor 0 num_private_bufs (λ i '(shared_size, vc_map),
      sz ← vget sizes i;
      sv ← vget start_vc i;
      ev ← vget end_vc i;
      assert! (sv <=? ev);
      vc_map ← map_vcs i sv ev vc_map;
      Ok (shared_size - sz, vc_map))
      (buf_size, replicate (Z.to_nat vcs) (-1));
  assert! (0 <=? shared_size);
  Ok (mkShared buf_size vc_map sizes (replicate (Z.to_nat num_private_bufs) 0)
        shared_size 0 (replicate (Z.to_nat vcs) 0)).

Definition set_occ (po : list Z) (so : Z) (sh : Shared) : Shared :=
  mkShared (buf_size sh) (private_buf_vc_map sh) (private_buf_size sh) po
    (shared_buf_size sh) so (reserved_slots sh).
Definition set_reserved (r : list Z) (sh : Shared) : Shared :=
  mkShared (buf_size sh) (private_buf_vc_map sh) (private_buf_size sh)
    (private_buf_occupancy sh) (shared_buf_size sh) (shared_buf_occupancy sh) r.

Definition ProcessFreeSlot (sh : Shared) (vc : Z) : res Shared :=
  i ← vget (private_buf_vc_map sh) vc;
  o ← vget (private_buf_occupancy sh) i;
  po ← vset (private_buf_occupancy sh) i (o - 1);
  if o - 1 <? 0 then Fail ErrorExit
  else
    sz ← vget (private_buf_size sh) i;
    if sz <=? o - 1 then
      if shared_buf_occupancy sh - 1 <? 0 then Fail ErrorExit
      else Ok (set_occ po (shared_buf_occupancy sh - 1) sh)
    else Ok (set_occ po (shared_buf_occupancy sh) sh).

(** [while(_reserved_slots[vc])] in [SendingFlit]; the slots to release bound
    the number of rounds. *)
Fixpoint release (fuel : nat) (sh : Shared) (vc : Z) : res Shared :=
  r ← vget (reserved_slots sh) vc;
  if r =? 0 then Ok sh
  else match fuel with
  | O => Fail OutOfFuel
  | S fuel =>
      rs ← vset (reserved_slots sh) vc (r - 1);
      sh ← ProcessFreeSlot (set_reserved rs sh) vc;
      release fuel sh vc
  end.

Definition SendingFlit (sh : Shared) (f : Flit) : res Shared :=
  let vc := f_vc f in
  r ← vget (reserved_slots sh) vc;
  sh ← (if 0 <? r then
          rs ← vset (reserved_slots sh) vc (r - 1);
          Ok (set_reserved rs sh)
        else
          i ← vget (private_buf_vc_map sh) vc;
          o ← vget (private_buf_occupancy sh) i;
          po ← vset (private_buf_occupancy sh) i (o + 1);
          sz ← vget (private_buf_size sh) i;
          if sz <? o + 1 then
            if shared_buf_size sh <? shared_buf_occupancy sh + 1 then Fail ErrorExit
            else Ok (set_occ po (shared_buf_occupancy sh + 1) sh)
          else Ok (set_occ po (shared_buf_occupancy sh) sh));
  if f_tail f then
    r ← vget (reserved_slots sh) vc;
    release (Z.to_nat r) sh vc
  else Ok sh.

Definition FreeSlotFor (sh : Shared) (c : Core) (vc : Z) : res Shared :=
  avail ← IsAvailableFor c vc;
  reserve ← (if negb avail then IsEmptyFor c vc else Ok false);
  if (reserve : bool) then
    r ← vget (reserved_slots sh) vc;
    rs ← vset (reserved_slots sh) vc (r + 1);
    Ok (set_reserved rs sh)
  else ProcessFreeSlot sh vc.

Definition IsFullFor (sh : Shared) (vc : Z) : res bool :=
  i ← vget (private_buf_vc_map sh) vc;
  r ← vget (reserved_slots sh) vc;
  o ← vget (private_buf_occupancy sh) i;
  sz ← vget (private_buf_size sh) i;
  Ok ((r =? 0) && (sz <=? o) && (shared_buf_size sh <=? shared_buf_occupancy sh)).

Definition AvailableFor (sh : Shared) (vc : Z) : res Z :=
  i ← vget (private_buf_vc_map sh) vc;
  r ← vget (reserved_slots sh) vc;
  o ← vget (private_buf_occupancy sh) i;
  sz ← vget (private_buf_size sh) i;
  Ok (r + Z.max (sz - o) 0 + (shared_buf_size sh - shared_buf_occupancy sh)).

Definition LimitFor (sh : Shared) (vc : Z) : res Z :=
  i ← vget (private_buf_vc_map sh) vc;
  sz ← vget (private_buf_size sh) i;
  Ok (sz + shared_buf_size sh).

End SharedPolicy.

(** ** [LimitedSharedBufferPolicy] and its two dynamic variants *)

Module LimitedPolicy.
Import CoreOps.

Definition New (cfg : Config) : res (Shared * Limited) :=
  sh ← SharedPolicy.New cfg;
  Ok (sh, mkLimited (cfg_num_vcs cfg) 0
            (if cfg_max_held_slots cfg <? 0 then buf_size sh else cfg_max_held_slots cfg)).

Definition set_active (a : Z) (l : Limited) : Limited :=
  mkLimited (lim_vcs l) a (max_held_slots l).
Definition set_max_held (m : Z) (l : Limited) : Limited :=
  mkLimited (lim_vcs l) (active_vcs l) m.

Definition TakeBuffer (l : Limited) : res Limited :=
  if lim_vcs l <? active_vcs l + 1 then Fail ErrorExit
  else Ok (set_active (active_vcs l + 1) l).

Definition SendingFlit (sh : Shared) (l : Limited) (f : Flit) : res (Shared * Limited) :=
  sh ← SharedPolicy.SendingFlit sh f;
  if f_tail f then
    if active_vcs l - 1 <? 0 then Fail ErrorExit
    else Ok (sh, set_active (active_vcs l - 1) l)
  else Ok (sh, l).

Definition IsFullFor (sh : Shared) (l : Limited) (c : Core) (vc : Z) : res bool :=
  full ← SharedPolicy.IsFullFor sh vc;
  if (full : bool) then Ok true
  else o ← OccupancyFor c vc; Ok (max_held_slots l <=? o).

Definition AvailableFor (sh : Shared) (l : Limited) (c : Core) (vc : Z) : res Z :=
  a ← SharedPolicy.AvailableFor sh vc;
  o ← OccupancyFor c vc;
  Ok (Z.min a (max_held_slots l - o)).

Definition LimitFor (sh : Shared) (l : Limited) (vc : Z) : res Z :=
  m ← SharedPolicy.LimitFor sh vc; Ok (Z.min m (max_held_slots l)).

End LimitedPolicy.

Module DynamicPolicy.

Definition New (cfg : Config) : res (Shared * Limited) :=
  '(sh, l) ← LimitedPolicy.New cfg;
  Ok (sh, LimitedPolicy.set_max_held (buf_size sh) l).

Definition TakeBuffer (sh : Shared) (l : Limited) : res Limited :=
  l ← LimitedPolicy.TakeBuffer l;
  assert! (0 <? active_vcs l);
  let m := buf_size sh `quot` active_vcs l in
  assert! (0 <? m);
  Ok (LimitedPolicy.set_max_held m l).

Definition SendingFlit (sh : Shared) (l : Limited) (f : Flit) : res (Shared * Limited) :=
  '(sh, l) ← LimitedPolicy.SendingFlit sh l f;
  let l := if f_tail f && negb (active_vcs l =? 0)
           then LimitedPolicy.set_max_held (buf_size sh `quot` active_vcs l) l else l in
  assert! (0 <? max_held_slots l);
  Ok (sh, l).

End DynamicPolicy.

Module ShiftingPolicy.

(** [while(i) { _max_held_slots >>= 1; i >>= 1; }]; [i] bounds the rounds. *)
Fixpoint shift_loop (fuel : nat) (i m : Z) : res Z :=
  if i =? 0 then Ok m
  else match fuel with
  | O => Fail OutOfFuel
  | S fuel => shift_loop fuel (Z.shiftr i 1) (Z.shiftr m 1)
  end.

Definition held_slots (buf_size active_vcs : Z) : res Z :=
  shift_loop (Z.to_nat (active_vcs - 1)) (active_vcs - 1) buf_size.

Definition TakeBuffer (sh : Shared) (l : Limited) : res Limited :=
  l ← LimitedPolicy.TakeBuffer l;
  assert! (negb (active_vcs l =? 0));
  m ← held_slots (buf_size sh) (active_vcs l);
  assert! (0 <? m);
  Ok (LimitedPolicy.set_max_held m l).

Definition SendingFlit (sh : Shared) (l : Limited) (f : Flit) : res (Shared * Limited) :=
  '(sh, l) ← LimitedPolicy.SendingFlit sh l f;
  l ← (if f_tail f && negb (active_vcs l =? 0)
       then m ← held_slots (buf_size sh) (active_vcs l); Ok (LimitedPolicy.set_max_held m l)
       else Ok l);
  assert! (0 <? max_held_slots l);
  Ok (sh, l).

End ShiftingPolicy.

(** ** [FeedbackSharedBufferPolicy] and [SimpleFeedbackSharedBufferPolicy] *)

Module FeedbackPolicy.
Import CoreOps.

Definition New (cfg : Config) : res (Shared * Feedback) :=
  sh ← SharedPolicy.New cfg;
  let vcs := cfg_num_vcs cfg in
  let per_vc {A} (x : A) := replicate (Z.to_nat vcs) x in
  Ok (sh, mkFeedback vcs (per_vc (buf_size sh)) (per_vc (-1)) (per_vc [])
            (-1) (buf_size sh * vcs) (cfg_feedback_aging_scale cfg) (cfg_feedback_offset cfg)).

Definition set_sent (q : list (list Z)) (fb : Feedback) : Feedback :=
  mkFeedback (fb_vcs fb) (occupancy_limit fb) (round_trip_time fb) q (min_latency fb)
    (total_mapped_size fb) (aging_scale fb) (offset fb).

Definition SetMinLatency (fb : Feedback) (m : Z) : Feedback :=
  mkFeedback (fb_vcs fb) (occupancy_limit fb) (round_trip_time fb) (flit_sent_time fb) m
    (total_mapped_size fb) (aging_scale fb) (offset fb).

Definition push_time (now : Z) (fb : Feedback) (vc : Z) : res Feedback :=
  q ← vget (flit_sent_time fb) vc;
  qs ← vset (flit_sent_time fb) vc (q ++ [to_int now]);
  Ok (set_sent qs fb).

Definition SendingFlit (now : Z) (sh : Shared) (fb : Feedback) (f : Flit) : res (Shared * Feedback) :=
  sh ← SharedPolicy.SendingFlit sh f;
  fb ← push_time now fb (f_vc f);
  Ok (sh, fb).

(** Moving average of the round-trip time. *)
Definition _ComputeRTT (fb : Feedback) (vc last_rtt : Z) : res Z :=
  rtt ← vget (round_trip_time fb) vc;
  if rtt <? 0 then Ok last_rtt
  else Ok (Z.shiftr (Z.shiftl rtt (aging_scale fb) + last_rtt - rtt) (aging_scale fb)).

Definition _ComputeLimit (fb : Feedback) (rtt : Z) : res Z :=
  assert! (0 <=? min_latency fb);
  Ok (Z.max (Z.shiftl (min_latency fb) 1 - rtt + offset fb) 1).

Definition _ComputeMaxSlots (now : Z) (fb : Feedback) (vc : Z) : res Z :=
  max_slots ← vget (occupancy_limit fb) vc;
  q ← vget (flit_sent_time fb) vc;
  match q with
  | [] => Ok max_slots
  | t :: _ =>
      rtt ← _ComputeRTT fb vc (to_int (now - t));
      limit ← _ComputeLimit fb rtt;
      Ok (Z.min max_slots limit)
  end.

Definition FreeSlotFor (now : Z) (sh : Shared) (fb : Feedback) (c : Core) (vc : Z)
    : res (Shared * Feedback) :=
  sh ← SharedPolicy.FreeSlotFor sh c vc;
  q ← vget (flit_sent_time fb) vc;
  match q with
  | [] => Fail AssertFailed
  | t :: q' =>
      qs ← vset (flit_sent_time fb) vc q';
      let fb := set_sent qs fb in
      rtt ← _ComputeRTT fb vc (to_int (now - t));
      rtts ← vset (round_trip_time fb) vc rtt;
      limit ← _ComputeLimit fb rtt;
      old ← vget (occupancy_limit fb) vc;
      limits ← vset (occupancy_limit fb) vc limit;
      Ok (sh, mkFeedback (fb_vcs fb) limits rtts qs (min_latency fb)
                (total_mapped_size fb + (limit - old)) (aging_scale fb) (offset fb))
  end.

Definition IsFullFor (now : Z) (sh : Shared) (fb : Feedback) (c : Core) (vc : Z) : res bool :=
  full ← SharedPolicy.IsFullFor sh vc;
  if (full : bool) then Ok true
  else
    o ← OccupancyFor c vc;
    m ← _ComputeMaxSlots now fb vc;
    Ok (m <=? o).

Definition AvailableFor (now : Z) (sh : Shared) (fb : Feedback) (c : Core) (vc : Z) : res Z :=
  a ← SharedPolicy.AvailableFor sh vc;
  m ← _ComputeMaxSlots now fb vc;
  o ← OccupancyFor c vc;
  Ok (Z.min a (m - o)).

Definition LimitFor (now : Z) (sh : Shared) (fb : Feedback) (vc : Z) : res Z :=
  l ← SharedPolicy.LimitFor sh vc;
  m ← _ComputeMaxSlots now fb vc;
  Ok (Z.min l m).

End FeedbackPolicy.

Module SimpleFeedbackPolicy.
Import CoreOps.

Definition New (cfg : Config) : res (Shared * Feedback * list Z) :=
  '(sh, fb) ← FeedbackPolicy.New cfg;
  Ok (sh, fb, replicate (Z.to_nat (fb_vcs fb)) 0).

Definition SendingFlit (now : Z) (sh : Shared) (fb : Feedback) (pending : list Z) (c : Core) (f : Flit)
    : res (Shared * Feedback * list Z) :=
  let vc := f_vc f in
  q ← vget (flit_sent_time fb) vc;
  match q with
  | [] =>
      o ← OccupancyFor c vc;
      assert! (0 <? o);
      pending ← vset pending vc (o - 1);
      '(sh, fb) ← FeedbackPolicy.SendingFlit now sh fb f;
      Ok (sh, fb, pending)
  | _ =>
      sh ← SharedPolicy.SendingFlit sh f;
      Ok (sh, fb, pending)
  end.

Definition FreeSlotFor (now : Z) (sh : Shared) (fb : Feedback) (pending : list Z) (c : Core) (vc : Z)
    : res (Shared * Feedback * list Z) :=
  q ← vget (flit_sent_time fb) vc;
  p ← vget pending vc;
  match q with
  | _ :: _ =>
      if p =? 0 then
        '(sh, fb) ← FeedbackPolicy.FreeSlotFor now sh fb c vc;
        Ok (sh, fb, pending)
      else
        pending ← (if 0 <? p then vset pending vc (p - 1) else Ok pending);
        sh ← SharedPolicy.FreeSlotFor sh c vc;
        Ok (sh, fb, pending)
  | [] =>
      assert! (negb (0 <? p));
      sh ← SharedPolicy.FreeSlotFor sh c vc;
      Ok (sh, fb, pending)
  end.

End SimpleFeedbackPolicy.

(** ** The virtual methods *)

Module PolicyOps.

Definition New (cfg : Config) : res BufferPolicy :=
  let name := cfg_buffer_policy cfg in
  if String.eqb name "private" then
    n ← PrivatePolicy.New cfg; Ok (PrivateBufferPolicy n)
  else if String.eqb name "shared" then
    sh ← SharedPolicy.New cfg; Ok (SharedBufferPolicy sh)
  else if String.eqb name "limited" then
    '(sh, l) ← LimitedPolicy.New cfg; Ok (LimitedSharedBufferPolicy sh l)
  else if String.eqb name "dynamic" then
    '(sh, l) ← DynamicPolicy.New cfg; Ok (DynamicLimitedSharedBufferPolicy sh l)
  else if String.eqb name "shifting" then
    '(sh, l) ← DynamicPolicy.New cfg; Ok (ShiftingDynamicLimitedSharedBufferPolicy sh l)
  else if String.eqb name "feedback" then
    '(sh, fb) ← FeedbackPolicy.New cfg; Ok (FeedbackSharedBufferPolicy sh fb)
  else if String.eqb name "simplefeedback" then
    '(sh, fb, p) ← SimpleFeedbackPolicy.New cfg; Ok (SimpleFeedbackSharedBufferPolicy sh fb p)
  else (* a null policy, dereferenced by the first call *) Fail BadIterator.

Definition SetMinLatency (p : BufferPolicy) (m : Z) : BufferPolicy :=
  match p with
  | FeedbackSharedBufferPolicy sh fb =>
      FeedbackSharedBufferPolicy sh (FeedbackPolicy.SetMinLatency fb m)
  | SimpleFeedbackSharedBufferPolicy sh fb pc =>
      SimpleFeedbackSharedBufferPolicy sh (FeedbackPolicy.SetMinLatency fb m) pc
  | p => p
  end.

Definition TakeBuffer (p : BufferPolicy) (vc : Z) : res BufferPolicy :=
  match p with
  | LimitedSharedBufferPolicy sh l =>
      l ← LimitedPolicy.TakeBuffer l; Ok (LimitedSharedBufferPolicy sh l)
  | DynamicLimitedSharedBufferPolicy sh l =>
      l ← DynamicPolicy.TakeBuffer sh l; Ok (DynamicLimitedSharedBufferPolicy sh l)
  | ShiftingDynamicLimitedSharedBufferPolicy sh l =>
      l ← ShiftingPolicy.TakeBuffer sh l; Ok (ShiftingDynamicLimitedSharedBufferPolicy sh l)
  | p => Ok p
  end.

Definition SendingFlit (now : Z) (p : BufferPolicy) (c : Core) (f : Flit) : res BufferPolicy :=
  match p with
  | PrivateBufferPolicy n =>
      _ ← PrivatePolicy.SendingFlit n c f; Ok p
  | SharedBufferPolicy sh =>
      sh ← SharedPolicy.SendingFlit sh f; Ok (SharedBufferPolicy sh)
  | LimitedSharedBufferPolicy sh l =>
      '(sh, l) ← LimitedPolicy.SendingFlit sh l f; Ok (LimitedSharedBufferPolicy sh l)
  | DynamicLimitedSharedBufferPolicy sh l =>
      '(sh, l) ← DynamicPolicy.SendingFlit sh l f; Ok (DynamicLimitedSharedBufferPolicy sh l)
  | ShiftingDynamicLimitedSharedBufferPolicy sh l =>
      '(sh, l) ← ShiftingPolicy.SendingFlit sh l f;
      Ok (ShiftingDynamicLimitedSharedBufferPolicy sh l)
  | FeedbackSharedBufferPolicy sh fb =>
      '(sh, fb) ← FeedbackPolicy.SendingFlit now sh fb f; Ok (FeedbackSharedBufferPolicy sh fb)
  | SimpleFeedbackSharedBufferPolicy sh fb pc =>
      '(sh, fb, pc) ← SimpleFeedbackPolicy.SendingFlit now sh fb pc c f;
      Ok (SimpleFeedbackSharedBufferPolicy sh fb pc)
  end.

Definition FreeSlotFor (now : Z) (p : BufferPolicy) (c : Core) (vc : Z) : res BufferPolicy :=
  match p with
  | PrivateBufferPolicy _ => Ok p
  | SharedBufferPolicy sh =>
      sh ← SharedPolicy.FreeSlotFor sh c vc; Ok (SharedBufferPolicy sh)
  | LimitedSharedBufferPolicy sh l =>
      sh ← SharedPolicy.FreeSlotFor sh c vc; Ok (LimitedSharedBufferPolicy sh l)
  | DynamicLimitedSharedBufferPolicy sh l =>
      sh ← SharedPolicy.FreeSlotFor sh c vc; Ok (DynamicLimitedSharedBufferPolicy sh l)
  | ShiftingDynamicLimitedSharedBufferPolicy sh l =>
      sh ← SharedPolicy.FreeSlotFor sh c vc; Ok (ShiftingDynamicLimitedSharedBufferPolicy sh l)
  | FeedbackSharedBufferPolicy sh fb =>
      '(sh, fb) ← FeedbackPolicy.FreeSlotFor now sh fb c vc; Ok (FeedbackSharedBufferPolicy sh fb)
  | SimpleFeedbackSharedBufferPolicy sh fb pc =>
      '(sh, fb, pc) ← SimpleFeedbackPolicy.FreeSlotFor now sh fb pc c vc;
      Ok (SimpleFeedbackSharedBufferPolicy sh fb pc)
  end.

Definition IsFullFor (now : Z) (p : BufferPolicy) (c : Core) (vc : Z) : res bool :=
  match p with
  | PrivateBufferPolicy n => PrivatePolicy.IsFullFor n c vc
  | SharedBufferPolicy sh => SharedPolicy.IsFullFor sh vc
  | LimitedSharedBufferPolicy sh l | DynamicLimitedSharedBufferPolicy sh l
  | ShiftingDynamicLimitedSharedBufferPolicy sh l => LimitedPolicy.IsFullFor sh l c vc
  | FeedbackSharedBufferPolicy sh fb | SimpleFeedbackSharedBufferPolicy sh fb _ =>
      FeedbackPolicy.IsFullFor now sh fb c vc
  end.

Definition AvailableFor (now : Z) (p : BufferPolicy) (c : Core) (vc : Z) : res Z :=
  match p with
  | PrivateBufferPolicy n => PrivatePolicy.AvailableFor n c vc
  | SharedBufferPolicy sh => SharedPolicy.AvailableFor sh vc
  | LimitedSharedBufferPolicy sh l | DynamicLimitedSharedBufferPolicy sh l
  | ShiftingDynamicLimitedSharedBufferPolicy sh l => LimitedPolicy.AvailableFor sh l c vc
  | FeedbackSharedBufferPolicy sh fb | SimpleFeedbackSharedBufferPolicy sh fb _ =>
      FeedbackPolicy.AvailableFor now sh fb c vc
  end.

Definition LimitFor (now : Z) (p : BufferPolicy) (vc : Z) : res Z :=
  match p with
  | PrivateBufferPolicy n => PrivatePolicy.LimitFor n vc
  | SharedBufferPolicy sh => SharedPolicy.LimitFor sh vc
  | LimitedSharedBufferPolicy sh l | DynamicLimitedSharedBufferPolicy sh l
  | ShiftingDynamicLimitedSharedBufferPolicy sh l => LimitedPolicy.LimitFor sh l vc
  | FeedbackSharedBufferPolicy sh fb | SimpleFeedbackSharedBufferPolicy sh fb _ =>
      FeedbackPolicy.LimitFor now sh fb vc
  end.

End PolicyOps.

(** ** [BufferState] *)

Module BufferStateOps.
Import CoreOps.

Definition New (cfg : Config) : res BufferState :=
  let n := cfg_num_vcs cfg in
  let size := if cfg_buf_size cfg <? 0 then n * cfg_vc_buf_size cfg else cfg_buf_size cfg in
  p ← PolicyOps.New cfg;
  let per_vc {A} (x : A) := replicate (Z.to_nat n) x in
  Ok (mkBufferState
        (mkCore (negb (cfg_wait_for_tail_credit cfg =? 0)) size 0 (per_vc 0) n
           (per_vc (-1)) (per_vc false) (per_vc (-1)) (per_vc (-1))) p).

(** One iteration of the loop of [ProcessCredit]. *)
Definition ProcessCreditFor (now : Z) (bs : BufferState) (vc : Z) : res BufferState :=
  let c := core bs in
  assert! valid_vc c vc;
  u ← vget (in_use_by c) vc;
  if wait_for_tail_credit c && (u <? 0) then Fail ErrorExit
  else if occupancy c - 1 <? 0 then Fail ErrorExit
  else
    o ← vget (vc_occupancy c) vc;
    vo ← vset (vc_occupancy c) vc (o - 1);
    if o - 1 <? 0 then Fail ErrorExit
    else
      let c := set_occupancy (occupancy c - 1) vo c in
      ts ← vget (tail_sent c) vc;
      c ← (if wait_for_tail_credit c && (o - 1 =? 0) && ts then
             assert! (0 <=? u);
             us ← vset (in_use_by c) vc (-1);
             Ok (set_in_use_by us c)
           else Ok c);
      p ← PolicyOps.FreeSlotFor now (buffer_policy bs) c vc;
      Ok (mkBufferState c p).

Definition ProcessCredit (now : Z) (bs : BufferState) (cr : Credit) : res BufferState :=
  foldl (λ m vc, bs ← m; ProcessCreditFor now bs vc) (Ok bs) (c_vc cr).

Definition SendingFlit (now : Z) (bs : BufferState) (f : Flit) : res BufferState :=
  let c := core bs in
  let vc := f_vc f in
  assert! valid_vc c vc;
  if size c <? occupancy c + 1 then Fail ErrorExit
  else
    o ← vget (vc_occupancy c) vc;
    vo ← vset (vc_occupancy c) vc (o + 1);
    let c := set_occupancy (occupancy c + 1) vo c in
    p ← PolicyOps.SendingFlit now (buffer_policy bs) c f;
    c ← (if f_tail f then
           ts ← vset (tail_sent c) vc true;
           let c := set_tail_sent ts c in
           if negb (wait_for_tail_credit c) then
             us ← vset (in_use_by c) vc (-1); Ok (set_in_use_by us c)
           else Ok c
         else Ok c);
    li ← vset (last_id c) vc (to_int (f_id f));
    lp ← vset (last_pid c) vc (to_int (f_pid f));
    Ok (mkBufferState (set_last li lp c) p).

Definition TakeBuffer (bs : BufferState) (vc tag : Z) : res BufferState :=
  let c := core bs in
  assert! valid_vc c vc;
  u ← vget (in_use_by c) vc;
  if 0 <=? u then Fail ErrorExit
  else
    us ← vset (in_use_by c) vc (to_int tag);
    ts ← vset (tail_sent c) vc false;
    p ← PolicyOps.TakeBuffer (buffer_policy bs) vc;
    Ok (mkBufferState (set_tail_sent ts (set_in_use_by us c)) p).

Definition SetMinLatency (bs : BufferState) (m : Z) : BufferState :=
  mkBufferState (core bs) (PolicyOps.SetMinLatency (buffer_policy bs) m).
Definition IsFullFor (now : Z) (bs : BufferState) (vc : Z) : res bool :=
  PolicyOps.IsFullFor now (buffer_policy bs) (core bs) vc.
Definition AvailableFor (now : Z) (bs : BufferState) (vc : Z) : res Z :=
  PolicyOps.AvailableFor now (buffer_policy bs) (core bs) vc.
Definition LimitFor (now : Z) (bs : BufferState) (vc : Z) : res Z :=
  PolicyOps.LimitFor now (buffer_policy bs) vc.

End BufferStateOps.
