(* ===== verification/BufferStateInv.v ===== *)
(** * The credit accounting invariant of [BufferState]

    [SharedInv] states and proves the accounting of the shared buffer policy,
    which the limited, dynamic, shifting and feedback policies inherit;
    [PolicyInv] states the invariant of each of the seven policies and proves
    that their methods preserve it. *)

From S2P Require Import Prelude OutputSet Flit BufferState.

Module SharedInv.
Import SharedPolicy.

(** The slots of private buffer [i] held by the VCs mapped to it. *)
Definition load (n : Z) (m : list Z) (h : Z → Z) (i : Z) : Z :=
  zsumf (λ v, if m⟦v⟧ =? i then h v else 0) n.

(** The slots held beyond the private sizes. *)
Definition excess (po sz : list Z) : Z :=
  zsumf (λ i, Z.max (po⟦i⟧ - sz⟦i⟧) 0) (zlen po).

(** [acct n h sh]: VC [v] of [n] holds [h v] slots, and the occupancy counts of
    [sh] agree: each private buffer counts the slots of its VCs, and the shared
    buffer counts what exceeds the private sizes and is within its own size. *)
Record acct (n : Z) (h : Z → Z) (sh : Shared) : Prop := {
  acct_map_len : zlen (private_buf_vc_map sh) = n;
  acct_res_len : zlen (reserved_slots sh) = n;
  acct_size_len : zlen (private_buf_size sh) = zlen (private_buf_occupancy sh);
  acct_map : ∀ v, 0 ≤ v < n → 0 ≤ (private_buf_vc_map sh)⟦v⟧ < zlen (private_buf_occupancy sh);
  acct_held : ∀ v, 0 ≤ v < n → 0 ≤ h v;
  acct_occ : ∀ i, 0 ≤ i < zlen (private_buf_occupancy sh) →
    (private_buf_occupancy sh)⟦i⟧ = load n (private_buf_vc_map sh) h i;
  acct_shared : shared_buf_occupancy sh = excess (private_buf_occupancy sh) (private_buf_size sh);
  acct_cap : shared_buf_occupancy sh ≤ shared_buf_size sh;
  acct_total : buf_size sh =
    shared_buf_size sh + zsumf (λ i, (private_buf_size sh)⟦i⟧) (zlen (private_buf_occupancy sh))
}.

(** [sh'] differs from [sh] in its counters only. *)
Definition same_sizes (sh sh' : Shared) : Prop :=
  buf_size sh' = buf_size sh ∧ private_buf_vc_map sh' = private_buf_vc_map sh ∧
  private_buf_size sh' = private_buf_size sh ∧ shared_buf_size sh' = shared_buf_size sh.

#[export] Instance same_sizes_preorder : PreOrder same_sizes.
Proof. split; unfold same_sizes; [done|intros ???; intuition congruence]. Qed.

Lemma load_change n m h h' v i :
  0 ≤ v < n → (∀ w, 0 ≤ w < n → w ≠ v → h' w = h w) →
  load n m h' i = load n m h i + (if m⟦v⟧ =? i then h' v - h v else 0).
Proof.
  intros Hv Hw. unfold load.
  rewrite (zsumf_change (λ v, if m⟦v⟧ =? i then h v else 0) _ n v); [|done|].
  - destruct (_ =? _); lia.
  - intros w Hwn Hne. by rewrite Hw.
Qed.

Lemma load_ge n m h v :
  0 ≤ v < n → (∀ w, 0 ≤ w < n → 0 ≤ h w) → h v ≤ load n m h (m⟦v⟧).
Proof.
  intros Hv Hh. unfold load.
  pose proof (zsumf_ge (λ w, if m⟦w⟧ =? m⟦v⟧ then h w else 0) n v Hv) as Hge.
  simpl in Hge. rewrite Z.eqb_refl in Hge. apply Hge.
  intros w Hw. destruct (_ =? _); [by apply Hh|done].
Qed.

Lemma excess_ge po sz i : 0 ≤ i < zlen po → Z.max (po⟦i⟧ - sz⟦i⟧) 0 ≤ excess po sz.
Proof. intros Hi. apply (zsumf_ge (λ i, Z.max (po⟦i⟧ - sz⟦i⟧) 0)); [done|lia]. Qed.

Lemma excess_zupd po sz i x :
  0 ≤ i < zlen po →
  excess (po⟦i := x⟧) sz = excess po sz + (Z.max (x - sz⟦i⟧) 0 - Z.max (po⟦i⟧ - sz⟦i⟧) 0).
Proof.
  intros Hi. unfold excess. rewrite zlen_zupd.
  rewrite (zsumf_change (λ i, Z.max (po⟦i⟧ - sz⟦i⟧) 0) _ (zlen po) i); [|done|].
  - by rewrite znth_zupd_eq.
  - intros w Hw Hne. by rewrite znth_zupd_ne by lia.
Qed.

Lemma acct_ext n h h' sh : (∀ v, 0 ≤ v < n → h' v = h v) → acct n h sh → acct n h' sh.
Proof.
  intros E [H1 H2 H3 H4 H5 H6 H7 H8 H9]. split; try done.
  - intros v Hv. rewrite E by done. auto.
  - intros i Hi. rewrite H6 by done. apply zsumf_ext. intros v Hv. by rewrite E.
Qed.

Lemma acct_reserved n h sh rs : zlen rs = n → acct n h sh → acct n h (set_reserved rs sh).
Proof. intros Hrs []. by split. Qed.

(** One VC gains or loses slots: its private buffer follows, and the shared
    buffer by the change of the excess. *)
Lemma acct_step n h h' sh v i o o' so :
  i = (private_buf_vc_map sh)⟦v⟧ → o = (private_buf_occupancy sh)⟦i⟧ → o' = o + (h' v - h v) →
  acct n h sh → 0 ≤ v < n → (∀ w, 0 ≤ w < n → w ≠ v → h' w = h w) → 0 ≤ h' v →
  so = shared_buf_occupancy sh +
         (Z.max (o' - (private_buf_size sh)⟦i⟧) 0 - Z.max (o - (private_buf_size sh)⟦i⟧) 0) →
  so ≤ shared_buf_size sh →
  acct n h' (set_occ ((private_buf_occupancy sh)⟦i := o'⟧) so sh).
Proof.
  intros Ei Eo Eo' [H1 H2 H3 H4 H5 H6 H7 H8 H9] Hv Hw Hpos Hso Hle.
  pose proof (H4 v Hv) as Hi. rewrite <- Ei in Hi. split; simpl; rewrite ?zlen_zupd; try done.
  - intros w Hwn. destruct (decide (w = v)) as [->|Hne]; [done|]. rewrite Hw by done. auto.
  - intros j Hj. rewrite (load_change _ _ h h' v) by done. rewrite znth_zupd by lia.
    rewrite <- Ei. case_decide as Hij.
    + subst j. rewrite Z.eqb_refl, Eo', Eo. by rewrite H6.
    + apply Z.eqb_neq in Hij as ->. rewrite H6 by done. lia.
  - rewrite excess_zupd by done. rewrite <- H7. lia.
Qed.

Lemma acct_total_held n h sh :
  0 ≤ n → acct n h sh →
  zsumf h n = zsumf (λ i, (private_buf_occupancy sh)⟦i⟧) (zlen (private_buf_occupancy sh)).
Proof.
  intros Hn Ha. rewrite <- (zsumf_group (λ v, (private_buf_vc_map sh)⟦v⟧) h n
    (zlen (private_buf_occupancy sh))); [|done|apply zlen_nonneg|apply Ha].
  apply zsumf_ext. intros i Hi. by rewrite (acct_occ _ _ _ Ha).
Qed.

(** The slots held fit the buffer, with room to spare when a private buffer
    has room. *)
Lemma acct_fits n h sh i :
  0 ≤ n → acct n h sh → 0 ≤ i < zlen (private_buf_occupancy sh) →
  zsumf h n + Z.max ((private_buf_size sh)⟦i⟧ - (private_buf_occupancy sh)⟦i⟧) 0
    + (shared_buf_size sh - shared_buf_occupancy sh) ≤ buf_size sh.
Proof.
  intros Hn Ha Hi. rewrite (acct_total_held _ _ _ Hn Ha), (acct_total _ _ _ Ha), (acct_shared _ _ _ Ha).
  unfold excess. set (po := private_buf_occupancy sh) in *. set (sz := private_buf_size sh).
  pose (slack := λ j, if decide (j = i) then Z.max (sz⟦i⟧ - po⟦i⟧) 0 else 0).
  assert (zsumf slack (zlen po) = Z.max (sz⟦i⟧ - po⟦i⟧) 0) as Hslack.
  { rewrite (zsumf_change (λ _, 0) slack _ i Hi).
    - rewrite zsumf_const_0. subst slack. simpl. rewrite decide_True by done. lia.
    - intros w _ Hw. subst slack. simpl. by rewrite decide_False. }
  assert (zsumf (λ j, po⟦j⟧ + slack j) (zlen po)
          ≤ zsumf (λ j, sz⟦j⟧ + Z.max (po⟦j⟧ - sz⟦j⟧) 0) (zlen po)) as Hle.
  { apply zsumf_le; [apply zlen_nonneg|]. intros j Hj. subst slack. simpl. case_decide; subst; lia. }
  rewrite (zsumf_plus (λ j, po⟦j⟧) slack), (zsumf_plus (λ j, sz⟦j⟧)), Hslack in Hle. lia.
Qed.

(** ** The operations *)

Section ops.
Context (n : Z).
Implicit Types (sh : Shared) (vo : Z → Z) (vc : Z).

Definition held vo sh (v : Z) : Z := vo v + (reserved_slots sh)⟦v⟧.

Record shared_ok vo sh : Prop := {
  ok_acct : acct n (held vo sh) sh;
  ok_reserved : ∀ v, 0 ≤ v < n → 0 ≤ (reserved_slots sh)⟦v⟧;
  ok_occ : ∀ v, 0 ≤ v < n → 0 ≤ vo v
}.

Lemma ProcessFreeSlot_ok h h' sh vc :
  acct n h sh → 0 ≤ vc < n → 1 ≤ h vc → h' vc = h vc - 1 → (∀ w, 0 ≤ w < n → w ≠ vc → h' w = h w) →
  returns (ProcessFreeSlot sh vc) (λ sh',
    acct n h' sh' ∧ same_sizes sh sh' ∧ reserved_slots sh' = reserved_slots sh).
Proof.
  intros Ha Hvc Hpos Hh' Hw. pose proof Ha as [H1 H2 H3 H4 H5 H6 H7 H8 H9].
  pose proof (H4 vc Hvc) as Hi. unfold ProcessFreeSlot. rsteps.
  set (i := (private_buf_vc_map sh)⟦vc⟧) in *. set (o := (private_buf_occupancy sh)⟦i⟧).
  assert (1 ≤ o) as Ho.
  { subst o. rewrite H6 by done. pose proof (load_ge n (private_buf_vc_map sh) h vc Hvc H5).
    fold i in H. lia. }
  pose proof (excess_ge (private_buf_occupancy sh) (private_buf_size sh) i Hi) as Hex.
  fold o in Hex. destruct (Z.ltb_spec (o - 1) 0); [lia|]. rsteps.
  destruct (Z.leb_spec ((private_buf_size sh)⟦i⟧) (o - 1)).
  - destruct (Z.ltb_spec (shared_buf_occupancy sh - 1) 0); [lia|]. apply returns_ok.
    split; [|done]. by eapply (acct_step n h h' sh vc i o); eauto; lia.
  - apply returns_ok. split; [|done]. by eapply (acct_step n h h' sh vc i o); eauto; lia.
Qed.

Lemma release_ok fuel : ∀ vo sh vc,
  shared_ok vo sh → 0 ≤ vc < n → Z.to_nat ((reserved_slots sh)⟦vc⟧) = fuel →
  returns (release fuel sh vc) (λ sh', shared_ok vo sh' ∧ same_sizes sh sh').
Proof.
  induction fuel as [|fuel IH]; intros vo sh vc [Ha Hr Ho] Hvc Hfuel; simpl;
    pose proof (acct_res_len _ _ _ Ha); pose proof (Hr vc Hvc); rsteps.
  { rewrite (proj2 (Z.eqb_eq _ _)) by lia. by apply returns_ok. }
  destruct (Z.eqb_spec ((reserved_slots sh)⟦vc⟧) 0) as [|Hne]; [lia|]. rsteps.
  set (r := (reserved_slots sh)⟦vc⟧) in *.
  set (sh1 := set_reserved ((reserved_slots sh)⟦vc := r - 1⟧) sh).
  eapply returns_bind.
  { apply (ProcessFreeSlot_ok (held vo sh) (held vo sh1)).
    - apply acct_reserved; [lens|done].
    - done.
    - unfold held. fold r. specialize (Ho vc Hvc). lia.
    - unfold held, sh1. simpl. rewrite znth_zupd_eq by lia. fold r. lia.
    - intros w Hwn Hw. unfold held, sh1. simpl. by rewrite znth_zupd_ne by lia. }
  intros sh2 (Ha2 & Hs2 & Hr2).
  assert (shared_ok vo sh2) as Hok2.
  { assert (∀ v, 0 ≤ v < n → 0 ≤ (reserved_slots sh2)⟦v⟧) as Hpos.
    { intros v Hv. rewrite Hr2. simpl. rewrite znth_zupd by lia. case_decide; [lia|auto]. }
    split; [|done|done]. eapply acct_ext; [|exact Ha2]. intros v Hv. unfold held. by rewrite Hr2. }
  eapply returns_mono; [apply (IH vo sh2 vc Hok2 Hvc)|].
  - rewrite Hr2. simpl. rewrite znth_zupd_eq by lia. lia.
  - intros sh3 [? ?]. split; [done|]. by transitivity sh2.
Qed.

Lemma IsFullFor_eq vo sh vc :
  shared_ok vo sh → 0 ≤ vc < n →
  IsFullFor sh vc = Ok (((reserved_slots sh)⟦vc⟧ =? 0)
    && ((private_buf_size sh)⟦(private_buf_vc_map sh)⟦vc⟧⟧
          <=? (private_buf_occupancy sh)⟦(private_buf_vc_map sh)⟦vc⟧⟧)
    && (shared_buf_size sh <=? shared_buf_occupancy sh)).
Proof.
  intros [[H1 H2 H3 H4 H5 H6 H7 H8 H9] Hr Ho] Hvc. pose proof (H4 vc Hvc).
  unfold IsFullFor. by vgets.
Qed.

Lemma SendingFlit_ok vo vo' sh f :
  let vc := f_vc f in
  shared_ok vo sh → 0 ≤ vc < n → IsFullFor sh vc = Ok false →
  vo' vc = vo vc + 1 → (∀ w, 0 ≤ w < n → w ≠ vc → vo' w = vo w) →
  returns (SendingFlit sh f) (λ sh', shared_ok vo' sh' ∧ same_sizes sh sh').
Proof.
  intros vc Hok Hvc Hfull Hvo Hw. pose proof Hok as [Ha Hr Ho].
  rewrite (IsFullFor_eq vo) in Hfull by done. injection Hfull as Hfull.
  pose proof Ha as [H1 H2 H3 H4 H5 H6 H7 H8 H9]. pose proof (H4 vc Hvc) as Hi.
  assert (∀ v, 0 ≤ v < n → 0 ≤ vo' v) as Ho'.
  { intros v Hv. destruct (decide (v = vc)) as [->|Hne]; [specialize (Ho vc Hvc); lia|].
    rewrite Hw by done. auto. }
  unfold SendingFlit. fold vc. rsteps. eapply (returns_bind _ _ (λ sh', shared_ok vo' sh' ∧ same_sizes sh sh')).
  - destruct (Z.ltb_spec 0 ((reserved_slots sh)⟦vc⟧)) as [Hpos|Hz].
    + (* a reserved slot is used *)
      rsteps. split; [|done]. split; simpl; [|intros v Hv; rewrite znth_zupd by lia; case_decide; [lia|auto]|done].
      apply acct_reserved; [lens|]. eapply acct_ext; [|exact Ha]. intros v Hv.
      unfold held. simpl. rewrite znth_zupd by lia. case_decide as Hd; [subst v; lia|].
      by rewrite Hw.
    + assert ((reserved_slots sh)⟦vc⟧ = 0) as Hr0 by (specialize (Hr vc Hvc); lia).
      rewrite Hr0, Z.eqb_refl in Hfull. simpl in Hfull.
      rsteps. set (i := (private_buf_vc_map sh)⟦vc⟧) in *. set (o := (private_buf_occupancy sh)⟦i⟧) in *.
      assert (∀ so, so = shared_buf_occupancy sh + (Z.max (o + 1 - (private_buf_size sh)⟦i⟧) 0
                - Z.max (o - (private_buf_size sh)⟦i⟧) 0) → so ≤ shared_buf_size sh →
              shared_ok vo' (set_occ ((private_buf_occupancy sh)⟦i := o + 1⟧) so sh)) as Hgo.
      { intros so Hso Hle. split; [|done|done].
        eapply (acct_step n (held vo sh) (held vo' sh) sh vc i o); try done.
        - unfold held. lia.
        - intros w Hwn Hne. unfold held. by rewrite Hw.
        - unfold held. specialize (Hr vc Hvc). specialize (Ho' vc Hvc). lia. }
      destruct (Z.ltb_spec ((private_buf_size sh)⟦i⟧) (o + 1)).
      * destruct (Z.leb_spec ((private_buf_size sh)⟦i⟧) o); [|lia]. simpl in Hfull.
        destruct (Z.leb_spec (shared_buf_size sh) (shared_buf_occupancy sh)); [done|].
        destruct (Z.ltb_spec (shared_buf_size sh) (shared_buf_occupancy sh + 1)); [lia|].
        rsteps. split; [apply Hgo; lia|done].
      * rsteps. split; [apply Hgo; lia|done].
  - intros sh1 [Hok1 Hs1]. destruct (f_tail f); [|by rsteps].
    pose proof (acct_res_len _ _ _ (ok_acct _ _ Hok1)). rsteps.
    eapply returns_mono; [by eapply release_ok|].
    intros sh2 [? ?]. split; [done|]. by transitivity sh1.
Qed.

Lemma FreeSlotFor_ok vo vo' sh c vc :
  shared_ok vo sh → vcs c = n → zlen (in_use_by c) = n → zlen (vc_occupancy c) = n →
  0 ≤ vc < n → 1 ≤ vo vc →
  vo' vc = vo vc - 1 → (∀ w, 0 ≤ w < n → w ≠ vc → vo' w = vo w) →
  returns (FreeSlotFor sh c vc) (λ sh', shared_ok vo' sh' ∧ same_sizes sh sh').
Proof.
  intros [Ha Hr Ho] Hn Hu Hc Hvc Hpos Hvo Hw. pose proof (acct_res_len _ _ _ Ha).
  assert (∀ v, 0 ≤ v < n → 0 ≤ vo' v) as Ho'.
  { intros v Hv. destruct (decide (v = vc)) as [->|Hne]; [lia|]. rewrite Hw by done. auto. }
  unfold FreeSlotFor, CoreOps.IsAvailableFor, CoreOps.IsEmptyFor, CoreOps.valid_vc.
  rewrite Hn, (proj2 (Z.leb_le 0 vc)), (proj2 (Z.ltb_lt vc n)) by lia. simpl.
  rewrite !vget_ok by lia. simpl.
  assert (returns (ProcessFreeSlot sh vc) (λ sh', shared_ok vo' sh' ∧ same_sizes sh sh')) as Hfree.
  { eapply returns_mono; [apply (ProcessFreeSlot_ok (held vo sh) (held vo' sh)); try done|].
    - unfold held. specialize (Hr vc Hvc). lia.
    - unfold held. lia.
    - intros w Hwn Hne. unfold held. by rewrite Hw.
    - simpl. intros sh' (Ha' & Hs & Hrs). split; [|done]. split; [|by rewrite Hrs|done].
      eapply acct_ext; [|exact Ha']. intros v Hv. unfold held. by rewrite Hrs. }
  destruct (_ <? 0); simpl; [done|]. destruct (_ =? 0); simpl; [|done].
  rsteps. split; [|done]. split; simpl; [|intros v Hv; rewrite znth_zupd by lia; case_decide; [|auto]|done].
  - apply acct_reserved; [lens|]. eapply acct_ext; [|exact Ha]. intros v Hv.
    unfold held. simpl. rewrite znth_zupd by lia. case_decide as Hd; [subst v; lia|]. by rewrite Hw.
  - specialize (Hr vc Hvc). lia.
Qed.

Lemma AvailableFor_eq vo sh vc :
  shared_ok vo sh → 0 ≤ vc < n →
  ∃ a, AvailableFor sh vc = Ok a ∧ 0 ≤ a ∧ IsFullFor sh vc = Ok (a <=? 0) ∧
    zsumf vo n + a ≤ buf_size sh.
Proof.
  intros Hok Hvc. pose proof Hok as [Ha Hr Ho]. pose proof Ha as [H1 H2 H3 H4 H5 H6 H7 H8 H9].
  pose proof (H4 vc Hvc) as Hi.
  rewrite (IsFullFor_eq vo) by done.
  eexists. split; [|split; [|split]].
  - unfold AvailableFor. by vgets.
  - specialize (Hr vc Hvc). lia.
  - f_equal. specialize (Hr vc Hvc).
    set (r := (reserved_slots sh)⟦vc⟧) in *. set (i := (private_buf_vc_map sh)⟦vc⟧) in *. lia.
  - pose proof (acct_fits n _ sh _ ltac:(lia) Ha Hi) as Hfits.
    pose proof (zsumf_ge (λ v, (reserved_slots sh)⟦v⟧) n vc Hvc Hr) as Hge.
    unfold held in Hfits. rewrite (zsumf_plus vo (λ v, (reserved_slots sh)⟦v⟧)) in Hfits. simpl in *. lia.
Qed.
End ops.
End SharedInv.

(** ** The policies *)

Module PolicyInv.
Import SharedInv.

(** [view n vo c]: the part of [c] a policy reads, as per-VC occupancies. *)
Record view (n : Z) (vo : Z → Z) (c : Core) : Prop := {
  view_vcs : vcs c = n;
  view_len : zlen (vc_occupancy c) = n;
  view_use : zlen (in_use_by c) = n;
  view_occ : ∀ v, 0 ≤ v < n → (vc_occupancy c)⟦v⟧ = vo v
}.

Definition limited_ok (n act : Z) (l : Limited) : Prop :=
  lim_vcs l = n ∧ active_vcs l = act ∧ act ≤ n.

Record feedback_lens (n : Z) (fb : Feedback) : Prop := {
  fl_limit : zlen (occupancy_limit fb) = n;
  fl_rtt : zlen (round_trip_time fb) = n;
  fl_sent : zlen (flit_sent_time fb) = n;
  fl_latency : 0 ≤ min_latency fb
}.

(** Every outstanding flit has its departure time queued. *)
Definition feedback_ok (n : Z) (vo : Z → Z) (fb : Feedback) : Prop :=
  feedback_lens n fb ∧ ∀ v, 0 ≤ v < n → zlen ((flit_sent_time fb)⟦v⟧) = vo v.

(** At most one probe per VC; [pending] credits arrive before its own. *)
Definition simple_ok (n : Z) (vo : Z → Z) (fb : Feedback) (pending : list Z) : Prop :=
  feedback_lens n fb ∧ zlen pending = n ∧
  ∀ v, 0 ≤ v < n →
    match (flit_sent_time fb)⟦v⟧ with
    | [] => pending⟦v⟧ = 0
    | [_] => 0 ≤ pending⟦v⟧ < vo v
    | _ => False
    end.

(** The invariant of a policy for [n] VCs holding [vo v] flits each, in a buffer
    of [sz] slots, [act] of the VCs being owned by an unfinished packet. *)
Definition policy_ok (n sz : Z) (vo : Z → Z) (act : Z) (p : BufferPolicy) : Prop :=
  match p with
  | PrivateBufferPolicy k => n * k ≤ sz ∧ ∀ v, 0 ≤ v < n → 0 ≤ vo v ≤ k
  | SharedBufferPolicy sh => shared_ok n vo sh ∧ buf_size sh = sz
  | LimitedSharedBufferPolicy sh l =>
      shared_ok n vo sh ∧ buf_size sh = sz ∧ limited_ok n act l
  | DynamicLimitedSharedBufferPolicy sh l =>
      shared_ok n vo sh ∧ buf_size sh = sz ∧ limited_ok n act l ∧ n ≤ sz ∧ 0 < max_held_slots l
  | ShiftingDynamicLimitedSharedBufferPolicy sh l =>
      shared_ok n vo sh ∧ buf_size sh = sz ∧ limited_ok n act l ∧
      2 ^ Z.log2_up n ≤ sz ∧ 0 < max_held_slots l
  | FeedbackSharedBufferPolicy sh fb =>
      shared_ok n vo sh ∧ buf_size sh = sz ∧ feedback_ok n vo fb
  | SimpleFeedbackSharedBufferPolicy sh fb pending =>
      shared_ok n vo sh ∧ buf_size sh = sz ∧ simple_ok n vo fb pending
  end.

Lemma OccupancyFor_eq n vo c vc :
  view n vo c → 0 ≤ vc < n → CoreOps.OccupancyFor c vc = Ok (vo vc).
Proof.
  intros [H1 H2 H3 H4] Hvc. unfold CoreOps.OccupancyFor, CoreOps.valid_vc.
  rewrite H1, (proj2 (Z.leb_le 0 vc)), (proj2 (Z.ltb_lt vc n)) by lia. simpl.
  rewrite vget_ok by lia. by rewrite H4.
Qed.

(** *** Halving the limit once per bit of the number of active VCs *)

Lemma shift_loop_eq fuel : ∀ i m,
  0 ≤ i → (Z.to_nat i ≤ fuel)%nat →
  ShiftingPolicy.shift_loop fuel i m = Ok (Z.shiftr m (if i =? 0 then 0 else Z.log2 i + 1)).
Proof.
  induction fuel as [|fuel IH]; intros i m Hi Hf; simpl;
    destruct (Z.eqb_spec i 0) as [->|Hne]; try (by rewrite Z.shiftr_0_r); [lia|].
  assert (Z.shiftr i 1 = i / 2) as Hs by (rewrite Z.shiftr_div_pow2 by lia; done).
  rewrite IH, Z.shiftr_shiftr.
  - do 2 f_equal. destruct (Z.eqb_spec (Z.shiftr i 1) 0) as [E|E].
    + rewrite Hs in E. assert (i = 1) as -> by (apply Z.div_small_iff in E; lia). done.
    + assert (2 ≤ i).
      { destruct (decide (i = 1)) as [->|]; [done|lia]. }
      pose proof (Z.log2_le_mono 2 i ltac:(lia)) as Hl. change (Z.log2 2) with 1 in Hl.
      rewrite Z.log2_shiftr, Z.max_r by lia. lia.
  - destruct (_ =? _); [lia|]. pose proof (Z.log2_nonneg (Z.shiftr i 1)). lia.
  - rewrite Hs. apply Z.div_pos; lia.
  - rewrite Hs. pose proof (Z.div_lt i 2). lia.
Qed.

Lemma held_slots_eq b a :
  1 ≤ a → ShiftingPolicy.held_slots b a = Ok (b / 2 ^ Z.log2_up a).
Proof.
  intros Ha. unfold ShiftingPolicy.held_slots. rewrite shift_loop_eq by lia. f_equal.
  destruct (Z.eqb_spec (a - 1) 0) as [E|E].
  - replace a with 1 by lia. change (Z.log2_up 1) with 0. by rewrite Z.shiftr_0_r, Z.div_1_r.
  - rewrite (Z.log2_up_eqn a) by lia. rewrite <- Z.sub_1_r, Z.shiftr_div_pow2; [done|].
    pose proof (Z.log2_nonneg (a - 1)). lia.
Qed.

Lemma held_slots_pos b a n : 1 ≤ a ≤ n → 2 ^ Z.log2_up n ≤ b → 0 < b / 2 ^ Z.log2_up a.
Proof.
  intros Ha Hb. apply Z.div_str_pos. split; [apply Z.pow_pos_nonneg; [lia|apply Z.log2_up_nonneg]|].
  etrans; [|exact Hb]. apply Z.pow_le_mono_r; [lia|]. apply Z.log2_up_le_mono. lia.
Qed.

(** *** [TakeBuffer] *)

Lemma LimitedTake_ok n act l :
  limited_ok n act l → act < n →
  returns (LimitedPolicy.TakeBuffer l) (λ l', limited_ok n (act + 1) l' ∧ max_held_slots l' = max_held_slots l).
Proof.
  intros (H1 & H2 & H3) Hlt. unfold LimitedPolicy.TakeBuffer.
  destruct (Z.ltb_spec (lim_vcs l) (active_vcs l + 1)); [lia|].
  apply returns_ok. unfold limited_ok. simpl. lia.
Qed.

Lemma TakeBuffer_ok n sz vo act p vc :
  0 ≤ act < n → policy_ok n sz vo act p →
  returns (PolicyOps.TakeBuffer p vc) (policy_ok n sz vo (act + 1)).
Proof.
  intros Hact. destruct p as [k|sh|sh l|sh l|sh l|sh fb|sh fb pc]; simpl; intros Hp;
    try (by apply returns_ok).
  - destruct Hp as (? & ? & Hl). eapply returns_bind; [by apply (LimitedTake_ok n act); [|lia]|].
    intros l' [? ?]. by apply returns_ok.
  - destruct Hp as (? & Hsz & Hl & Hn & Hm). unfold DynamicPolicy.TakeBuffer.
    eapply returns_bind; [|intros l' Hl'; apply returns_ok; exact Hl'].
    eapply returns_bind; [by apply (LimitedTake_ok n act); [|lia]|]. intros l' [(E1 & E2 & E3) _].
    assert (0 < buf_size sh `quot` active_vcs l').
    { rewrite quot_div by lia. apply Z.div_str_pos. lia. }
    rsteps. split_and!; done || lia.
  - destruct Hp as (? & Hsz & Hl & Hn & Hm). unfold ShiftingPolicy.TakeBuffer.
    eapply returns_bind; [|intros l' Hl'; apply returns_ok; exact Hl'].
    eapply returns_bind; [by apply (LimitedTake_ok n act); [|lia]|]. intros l' [(E1 & E2 & E3) _].
    rsteps. rewrite held_slots_eq by lia. simpl.
    pose proof (held_slots_pos (buf_size sh) (active_vcs l') n ltac:(lia) ltac:(lia)).
    rsteps. split_and!; done || lia.
Qed.

(** *** [SendingFlit] *)

(** There is a slot for a flit of [vc]: what [IsFullFor] checks, but for the caps
    that change with the number of active VCs and with time. *)
Definition room (vo : Z → Z) (p : BufferPolicy) (vc : Z) : Prop :=
  match p with
  | PrivateBufferPolicy k => vo vc < k
  | SharedBufferPolicy sh | LimitedSharedBufferPolicy sh _ | DynamicLimitedSharedBufferPolicy sh _
  | ShiftingDynamicLimitedSharedBufferPolicy sh _ | FeedbackSharedBufferPolicy sh _
  | SimpleFeedbackSharedBufferPolicy sh _ _ => SharedPolicy.IsFullFor sh vc = Ok false
  end.

Lemma room_full n sz vo act p c now vc :
  policy_ok n sz vo act p → view n vo c → 0 ≤ vc < n → PolicyOps.IsFullFor now p c vc = Ok false → room vo p vc.
Proof.
  intros Hp Hv Hvc. destruct p as [k|sh|sh l|sh l|sh l|sh fb|sh fb pc]; simpl; intros H; try done.
  { unfold PrivatePolicy.IsFullFor in H. rewrite (OccupancyFor_eq n vo) in H by done.
    simpl in H. injection H as H. lia. }
  all: apply bind_ok_inv in H as ([] & Hf & H); [done|exact Hf].
Qed.

Lemma room_fits n sz vo act p vc : policy_ok n sz vo act p → 0 ≤ vc < n → room vo p vc → zsumf vo n + 1 ≤ sz.
Proof.
  intros Hp Hvc.
  assert (∀ sh, shared_ok n vo sh → buf_size sh = sz → SharedPolicy.IsFullFor sh vc = Ok false → zsumf vo n + 1 ≤ sz) as Hsh.
  { intros sh Hs <- Hf. destruct (AvailableFor_eq n vo sh vc Hs Hvc) as (a & Ha & Ha0 & Hf' & Hsum).
    rewrite Hf in Hf'. injection Hf' as Hf'. lia. }
  destruct p as [k|sh|sh l|sh l|sh l|sh fb|sh fb pc]; simpl in *; try (apply Hsh; tauto).
  destruct Hp as [Hk Hv]. intros Hlt.
  pose proof (zsumf_ge (λ v, k - vo v) n vc Hvc ltac:(intros w Hw; specialize (Hv w Hw); lia)) as Hge.
  pose proof (zsumf_plus (λ v, k - vo v) vo n) as Hplus.
  rewrite (zsumf_ext _ (λ _, k)), zsumf_const in Hplus by lia. simpl in *. lia.
Qed.

Lemma room_TakeBuffer vo p vc p' v : PolicyOps.TakeBuffer p vc = Ok p' → room vo p v → room vo p' v.
Proof.
  destruct p as [k|sh|sh l|sh l|sh l|sh fb|sh fb pc]; simpl; intros H; try (by injection H as <-).
  all: apply bind_ok_inv in H as (l' & _ & [= <-]); done.
Qed.

Lemma LimitedSend_ok n act vo vo' sh l f :
  shared_ok n vo sh → limited_ok n act l → (f_tail f = true → 1 ≤ act) →
  0 ≤ f_vc f < n → SharedPolicy.IsFullFor sh (f_vc f) = Ok false →
  vo' (f_vc f) = vo (f_vc f) + 1 → (∀ w, 0 ≤ w < n → w ≠ f_vc f → vo' w = vo w) →
  returns (LimitedPolicy.SendingFlit sh l f) (λ r,
    shared_ok n vo' r.1 ∧ same_sizes sh r.1 ∧ max_held_slots r.2 = max_held_slots l ∧
    limited_ok n (if f_tail f then act - 1 else act) r.2).
Proof.
  intros Hs (H1 & H2 & H3) Hact Hvc Hfull Hvo Hw. unfold LimitedPolicy.SendingFlit.
  eapply returns_bind; [by apply (SendingFlit_ok n vo vo')|]. intros sh' [? ?].
  destruct (f_tail f) eqn:Ht; [|by apply returns_ok].
  specialize (Hact eq_refl). destruct (Z.ltb_spec (active_vcs l - 1) 0); [lia|].
  apply returns_ok. unfold limited_ok. simpl. split_and!; try done; lia.
Qed.

Lemma push_time_ok n now vc fb :
  0 ≤ vc < n → feedback_lens n fb →
  returns (FeedbackPolicy.push_time now fb vc) (λ fb',
    feedback_lens n fb' ∧
    ∀ v, 0 ≤ v < n → (flit_sent_time fb')⟦v⟧ =
      if decide (v = vc) then (flit_sent_time fb)⟦v⟧ ++ [to_int now] else (flit_sent_time fb)⟦v⟧).
Proof.
  intros Hvc [H1 H2 H3 H4]. unfold FeedbackPolicy.push_time. rsteps. split.
  - split; simpl; try done. lens.
  - intros v Hv. simpl. rewrite znth_zupd by lia. by repeat case_decide; subst.
Qed.

Section send.
Context (n sz : Z) (vo vo' : Z → Z) (act : Z) (now : Z) (f : Flit) (c : Core).
Context (Hvc : 0 ≤ f_vc f < n) (Hc : view n vo' c).
Context (Hvo : vo' (f_vc f) = vo (f_vc f) + 1).
Context (Hw : ∀ w, 0 ≤ w < n → w ≠ f_vc f → vo' w = vo w).
Context (Hact : f_tail f = true → 1 ≤ act).

Local Abbreviation act' := (if f_tail f then act - 1 else act).

Lemma DynamicSend_ok sh l :
  shared_ok n vo sh → limited_ok n act l → SharedPolicy.IsFullFor sh (f_vc f) = Ok false →
  n ≤ buf_size sh → 0 < max_held_slots l →
  returns (DynamicPolicy.SendingFlit sh l f) (λ r,
    shared_ok n vo' r.1 ∧ same_sizes sh r.1 ∧ 0 < max_held_slots r.2 ∧ limited_ok n act' r.2).
Proof.
  intros Hs Hl Hfull Hn Hm. unfold DynamicPolicy.SendingFlit.
  eapply returns_bind; [by apply (LimitedSend_ok n act vo vo')|].
  intros [sh' l'] (Hs' & Hsame & Hmax & Hl'). simpl in *. pose proof Hl' as (E1 & E2 & E3).
  assert (buf_size sh' = buf_size sh) as Hb by apply Hsame.
  destruct (f_tail f) eqn:Ht; simpl; [|rsteps; simpl; split_and!; done || lia].
  specialize (Hact eq_refl). destruct (Z.eqb_spec (active_vcs l') 0); simpl.
  - rsteps. simpl. split_and!; done || lia.
  - assert (0 < buf_size sh' `quot` active_vcs l').
    { rewrite quot_div by lia. apply Z.div_str_pos. lia. }
    rsteps. split_and!; done.
Qed.

Lemma ShiftingSend_ok sh l :
  shared_ok n vo sh → limited_ok n act l → SharedPolicy.IsFullFor sh (f_vc f) = Ok false →
  2 ^ Z.log2_up n ≤ buf_size sh → 0 < max_held_slots l →
  returns (ShiftingPolicy.SendingFlit sh l f) (λ r,
    shared_ok n vo' r.1 ∧ same_sizes sh r.1 ∧ 0 < max_held_slots r.2 ∧ limited_ok n act' r.2).
Proof.
  intros Hs Hl Hfull Hn Hm. unfold ShiftingPolicy.SendingFlit.
  eapply returns_bind; [by apply (LimitedSend_ok n act vo vo')|].
  intros [sh' l'] (Hs' & Hsame & Hmax & Hl'). simpl in *. pose proof Hl' as (E1 & E2 & E3).
  assert (buf_size sh' = buf_size sh) as Hb by apply Hsame.
  destruct (f_tail f) eqn:Ht; simpl; [|rsteps; simpl; split_and!; done || lia].
  specialize (Hact eq_refl). destruct (Z.eqb_spec (active_vcs l') 0); simpl.
  - rsteps. simpl. split_and!; done || lia.
  - rewrite held_slots_eq by lia. simpl.
    pose proof (held_slots_pos (buf_size sh') (active_vcs l') n ltac:(lia) ltac:(lia)).
    rsteps. split_and!; done.
Qed.

Lemma FeedbackSend_queues sh fb :
  shared_ok n vo sh → feedback_lens n fb → SharedPolicy.IsFullFor sh (f_vc f) = Ok false →
  returns (FeedbackPolicy.SendingFlit now sh fb f) (λ r,
    shared_ok n vo' r.1 ∧ same_sizes sh r.1 ∧ feedback_lens n r.2 ∧
    ∀ v, 0 ≤ v < n → (flit_sent_time r.2)⟦v⟧ =
      if decide (v = f_vc f) then (flit_sent_time fb)⟦v⟧ ++ [to_int now] else (flit_sent_time fb)⟦v⟧).
Proof.
  intros Hs Hl Hfull. unfold FeedbackPolicy.SendingFlit.
  eapply returns_bind; [by apply (SendingFlit_ok n vo vo')|]. intros sh' [Hs' Hsame].
  eapply returns_bind; [by apply (push_time_ok n)|]. intros fb' [Hl' Hq'].
  by apply returns_ok.
Qed.

Lemma FeedbackSend_ok sh fb :
  shared_ok n vo sh → feedback_ok n vo fb → SharedPolicy.IsFullFor sh (f_vc f) = Ok false →
  returns (FeedbackPolicy.SendingFlit now sh fb f) (λ r,
    shared_ok n vo' r.1 ∧ same_sizes sh r.1 ∧ feedback_ok n vo' r.2).
Proof.
  intros Hs [Hl Hq] Hfull. eapply returns_mono; [by apply FeedbackSend_queues|].
  intros [sh' fb'] (Hs' & Hsame & Hl' & Hq'). simpl in *.
  split_and!; try done. split; [done|]. intros v Hv.
  rewrite Hq' by done. case_decide as Hd; [subst v|by rewrite Hw, Hq].
  specialize (Hq _ Hvc). unfold zlen in *. rewrite length_app. simpl. lia.
Qed.

Lemma SimpleSend_ok sh fb pc :
  shared_ok n vo sh → simple_ok n vo fb pc → SharedPolicy.IsFullFor sh (f_vc f) = Ok false →
  returns (SimpleFeedbackPolicy.SendingFlit now sh fb pc c f) (λ r,
    shared_ok n vo' r.1.1 ∧ same_sizes sh r.1.1 ∧ simple_ok n vo' r.1.2 r.2).
Proof.
  intros Hs (Hl & Hpl & Hp) Hfull. unfold SimpleFeedbackPolicy.SendingFlit.
  pose proof (fl_sent _ _ Hl). pose proof (ok_occ _ _ _ Hs _ Hvc) as Hnn. rsteps.
  pose proof (Hp _ Hvc) as Hpv.
  destruct ((flit_sent_time fb)⟦f_vc f⟧) as [|t q] eqn:Hq.
  - rewrite (OccupancyFor_eq n vo') by done. simpl. rsteps.
    eapply returns_bind; [by apply FeedbackSend_queues|].
    intros [sh' fb'] (Hs' & Hsame & Hl' & Hq'). apply returns_ok. simpl in *.
    do 3 (split; [done|]). split; [lens|]. intros v Hv. rewrite Hq', znth_zupd by lia.
    case_decide as Hd; [subst v; rewrite Hq; simpl; case_decide; [lia|done]|].
    rewrite decide_False by done. rewrite Hw by done. by apply Hp.
  - eapply returns_bind; [by apply (SendingFlit_ok n vo vo')|]. intros sh' [Hs' Hsame].
    apply returns_ok. do 4 (split; [done|]). intros v Hv. specialize (Hp v Hv). simpl.
    destruct (decide (v = f_vc f)) as [->|Hne]; [|by rewrite Hw].
    rewrite Hq in *. destruct q; [lia|done].
Qed.

Lemma PolicySend_ok p :
  policy_ok n sz vo act p → room vo p (f_vc f) → returns (PolicyOps.SendingFlit now p c f) (policy_ok n sz vo' act').
Proof.
  intros Hp Hfull.
  destruct p as [k|sh|sh l|sh l|sh l|sh fb|sh fb pc]; simpl in *.
  - destruct Hp as [Hk Hv]. unfold PrivatePolicy.SendingFlit.
    rewrite (OccupancyFor_eq n vo') by done. simpl.
    destruct (Z.ltb_spec k (vo' (f_vc f))); [lia|]. apply returns_ok. split; [done|].
    intros v Hr. destruct (decide (v = f_vc f)) as [->|Hne]; [|rewrite Hw by done; auto].
    specialize (Hv _ Hvc). lia.
  - destruct Hp as [Hs Hsz]. eapply returns_bind; [by apply (SendingFlit_ok n vo vo')|].
    intros sh' [? [Hb _]]. apply returns_ok. split; [done|congruence].
  - destruct Hp as (Hs & Hsz & Hl). eapply returns_bind; [by apply (LimitedSend_ok n act vo vo')|].
    intros [sh' l'] (? & [Hb _] & ? & ?). apply returns_ok. simpl in *. split_and!; done || congruence.
  - destruct Hp as (Hs & Hsz & Hl & Hn & Hm). eapply returns_bind; [by apply DynamicSend_ok; try lia|].
    intros [sh' l'] (? & [Hb _] & ? & ?). apply returns_ok. simpl in *. split_and!; done || congruence.
  - destruct Hp as (Hs & Hsz & Hl & Hn & Hm). eapply returns_bind; [by apply ShiftingSend_ok; try lia|].
    intros [sh' l'] (? & [Hb _] & ? & ?). apply returns_ok. simpl in *. split_and!; done || congruence.
  - destruct Hp as (Hs & Hsz & Hl). eapply returns_bind; [by apply FeedbackSend_ok|].
    intros [sh' l'] (? & [Hb _] & ?). apply returns_ok. split; [done|]. split; [simpl in *; congruence|done].
  - destruct Hp as (Hs & Hsz & Hl). eapply returns_bind; [by apply SimpleSend_ok|].
    intros [[sh' l'] pc'] (? & [Hb _] & ?). apply returns_ok.
    split; [done|]. split; [simpl in *; congruence|done].
Qed.
End send.

(** *** [FreeSlotFor] *)

Section free.
Context (n sz : Z) (vo vo' : Z → Z) (act : Z) (now vc : Z) (c : Core).
Context (Hvc : 0 ≤ vc < n) (Hc : view n vo' c).
Context (Hvo : vo' vc = vo vc - 1) (Hpos : 1 ≤ vo vc).
Context (Hw : ∀ w, 0 ≤ w < n → w ≠ vc → vo' w = vo w).

Lemma SharedFree_ok sh :
  shared_ok n vo sh →
  returns (SharedPolicy.FreeSlotFor sh c vc) (λ sh', shared_ok n vo' sh' ∧ buf_size sh' = buf_size sh).
Proof.
  intros Hs. pose proof Hc as [H1 H2 H3 H4].
  eapply returns_mono; [by apply (FreeSlotFor_ok n vo vo')|]. intros sh' [? [? _]]. done.
Qed.

Lemma FeedbackFree_queues sh fb t q :
  shared_ok n vo sh → feedback_lens n fb → (flit_sent_time fb)⟦vc⟧ = t :: q →
  returns (FeedbackPolicy.FreeSlotFor now sh fb c vc) (λ r,
    shared_ok n vo' r.1 ∧ buf_size r.1 = buf_size sh ∧ feedback_lens n r.2 ∧
    ∀ v, 0 ≤ v < n → (flit_sent_time r.2)⟦v⟧ = if decide (v = vc) then q else (flit_sent_time fb)⟦v⟧).
Proof.
  intros Hs Hl Hq. pose proof Hl as [H1 H2 H3 H4]. unfold FeedbackPolicy.FreeSlotFor.
  eapply returns_bind; [by apply SharedFree_ok|]. intros sh' [Hs' Hb].
  rsteps. rewrite Hq. rsteps. unfold FeedbackPolicy._ComputeRTT, FeedbackPolicy._ComputeLimit.
  simpl. rewrite (proj2 (Z.leb_le 0 (min_latency fb)) H4). vgets. destruct (_ <? 0); simpl; rsteps; simpl;
    (do 2 (split; [done|]); split; [split; simpl; lens|]);
    intros v Hv; rewrite znth_zupd by lia; repeat case_decide; congruence.
Qed.

Lemma SimpleFree_ok sh fb pc :
  shared_ok n vo sh → simple_ok n vo fb pc →
  returns (SimpleFeedbackPolicy.FreeSlotFor now sh fb pc c vc) (λ r,
    shared_ok n vo' r.1.1 ∧ buf_size r.1.1 = buf_size sh ∧ simple_ok n vo' r.1.2 r.2).
Proof.
  intros Hs (Hl & Hpl & Hp). unfold SimpleFeedbackPolicy.FreeSlotFor.
  pose proof (fl_sent _ _ Hl). rsteps. pose proof (Hp _ Hvc) as Hpv.
  destruct ((flit_sent_time fb)⟦vc⟧) as [|t [|? ?]] eqn:Hq; [| |done].
  - rsteps. eapply returns_bind; [by apply SharedFree_ok|]. intros sh' [Hs' Hb].
    apply returns_ok. do 4 (split; [done|]). intros v Hv. simpl.
    destruct (decide (v = vc)) as [->|Hne]; [by rewrite Hq|]. rewrite Hw by done. by apply Hp.
  - destruct (Z.eqb_spec (pc⟦vc⟧) 0) as [E|E].
    + eapply returns_bind; [by eapply FeedbackFree_queues|].
      intros [sh' fb'] (Hs' & Hb & Hl' & Hq'). apply returns_ok. do 4 (split; [done|]).
      intros v Hv. simpl in *. rewrite Hq' by done. case_decide as Hd; [by subst v|].
      rewrite Hw by done. by apply Hp.
    + destruct (Z.ltb_spec 0 (pc⟦vc⟧)); [|lia]. rsteps.
      eapply returns_bind; [by apply SharedFree_ok|]. intros sh' [Hs' Hb].
      apply returns_ok. do 3 (split; [done|]). split; [simpl; lens|]. intros v Hv. simpl.
      rewrite znth_zupd by lia. case_decide as Hd; [subst v; rewrite Hq; lia|].
      rewrite Hw by done. by apply Hp.
Qed.

Lemma PolicyFree_ok p :
  policy_ok n sz vo act p →
  returns (PolicyOps.FreeSlotFor now p c vc) (policy_ok n sz vo' act).
Proof.
  intros Hp. destruct p as [k|sh|sh l|sh l|sh l|sh fb|sh fb pc]; simpl in *.
  - destruct Hp as [Hk Hv]. apply returns_ok. split; [done|]. intros v Hr.
    specialize (Hv v Hr). destruct (decide (v = vc)) as [->|Hne]; [lia|]. by rewrite Hw.
  - destruct Hp as [Hs Hsz]. eapply returns_bind; [by apply SharedFree_ok|].
    intros sh' [? ?]. apply returns_ok. split; [done|congruence].
  - destruct Hp as (Hs & Hsz & Hl). eapply returns_bind; [by apply SharedFree_ok|].
    intros sh' [? ?]. apply returns_ok. split_and!; done || congruence.
  - destruct Hp as (Hs & Hsz & Hl). eapply returns_bind; [by apply SharedFree_ok|].
    intros sh' [? ?]. apply returns_ok. split; [done|]. split; [congruence|done].
  - destruct Hp as (Hs & Hsz & Hl). eapply returns_bind; [by apply SharedFree_ok|].
    intros sh' [? ?]. apply returns_ok. split; [done|]. split; [congruence|done].
  - destruct Hp as (Hs & Hsz & Hl & Hq). pose proof (Hq _ Hvc) as Hlen.
    destruct ((flit_sent_time fb)⟦vc⟧) as [|t q] eqn:E; [unfold zlen in Hlen; simpl in Hlen; lia|].
    eapply returns_bind; [by eapply FeedbackFree_queues|].
    intros [sh' fb'] (? & ? & ? & Hq'). apply returns_ok. simpl in *.
    split; [done|]. split; [congruence|]. split; [done|]. intros v Hv. rewrite Hq' by done.
    case_decide as Hd; [subst v|by rewrite Hw, Hq].
    unfold zlen in *. simpl in Hlen. lia.
  - destruct Hp as (Hs & Hsz & Hl). eapply returns_bind; [by apply SimpleFree_ok|].
    intros [[sh' fb'] pc'] (? & ? & ?). apply returns_ok. split; [done|].
    split; [simpl in *; congruence|done].
Qed.
End free.

(** *** [IsFullFor] and [AvailableFor] *)

(** [full_spec full avail used sz]: both queries return, they agree, and what is
    advertised fits in the buffer. *)
Definition full_spec (full : res bool) (avail : res Z) (used sz : Z) : Prop :=
  ∃ a, avail = Ok a ∧ full = Ok (a <=? 0) ∧ used + Z.max a 0 ≤ sz.

Lemma ComputeMaxSlots_returns now n fb vc :
  feedback_lens n fb → 0 ≤ vc < n → ∃ m, FeedbackPolicy._ComputeMaxSlots now fb vc = Ok m.
Proof.
  intros [H1 H2 H3 H4] Hvc. unfold FeedbackPolicy._ComputeMaxSlots. vgets.
  destruct ((flit_sent_time fb)⟦vc⟧) as [|t q]; [by eexists|].
  unfold FeedbackPolicy._ComputeRTT, FeedbackPolicy._ComputeLimit. simpl.
  rewrite (proj2 (Z.leb_le 0 (min_latency fb)) H4). vgets.
  destruct (_ <? 0); by eexists.
Qed.

Lemma capped_full_spec n vo sh c vc m :
  shared_ok n vo sh → view n vo c → 0 ≤ vc < n →
  full_spec (full ← SharedPolicy.IsFullFor sh vc;
             if (full : bool) then Ok true else o ← CoreOps.OccupancyFor c vc; Ok (m <=? o))
    (a ← SharedPolicy.AvailableFor sh vc; o ← CoreOps.OccupancyFor c vc; Ok (Z.min a (m - o)))
    (zsumf vo n) (buf_size sh).
Proof.
  intros Hs Hc Hvc. destruct (AvailableFor_eq n vo sh vc Hs Hvc) as (a & Ha & Ha0 & Hf & Hsum).
  rewrite Ha, Hf, (OccupancyFor_eq n vo) by done. simpl.
  eexists. split; [done|]. split; [|lia].
  destruct (Z.leb_spec a 0); f_equal; lia.
Qed.

Lemma PolicyFull_ok n sz vo act now p c vc :
  policy_ok n sz vo act p → view n vo c → 0 ≤ vc < n →
  full_spec (PolicyOps.IsFullFor now p c vc) (PolicyOps.AvailableFor now p c vc) (zsumf vo n) sz.
Proof.
  intros Hp Hc Hvc. destruct p as [k|sh|sh l|sh l|sh l|sh fb|sh fb pc]; simpl in *.
  - destruct Hp as [Hk Hv]. unfold PrivatePolicy.IsFullFor, PrivatePolicy.AvailableFor.
    rewrite (OccupancyFor_eq n vo) by done. simpl. eexists. split; [done|].
    split; [f_equal; lia|].
    pose proof (zsumf_ge (λ v, k - vo v) n vc Hvc ltac:(intros w Hw; specialize (Hv w Hw); lia)) as Hge.
    pose proof (zsumf_plus (λ v, k - vo v) vo n) as Hplus.
    rewrite (zsumf_ext _ (λ _, k)), zsumf_const in Hplus by lia.
    specialize (Hv vc Hvc). simpl in *. lia.
  - destruct Hp as [Hs <-]. destruct (AvailableFor_eq n vo sh vc Hs Hvc) as (a & Ha & Ha0 & Hf & Hsum).
    exists a. split_and!; try done. lia.
  - destruct Hp as (Hs & <- & _). by apply capped_full_spec.
  - destruct Hp as (Hs & <- & _). by apply capped_full_spec.
  - destruct Hp as (Hs & <- & _). by apply capped_full_spec.
  - destruct Hp as (Hs & <- & Hl & _).
    destruct (ComputeMaxSlots_returns now n fb vc Hl Hvc) as [m Hm].
    pose proof (capped_full_spec n vo sh c vc m Hs Hc Hvc) as Hspec.
    unfold FeedbackPolicy.IsFullFor, FeedbackPolicy.AvailableFor. by rewrite Hm.
  - destruct Hp as (Hs & <- & Hl & _).
    destruct (ComputeMaxSlots_returns now n fb vc Hl Hvc) as [m Hm].
    pose proof (capped_full_spec n vo sh c vc m Hs Hc Hvc) as Hspec.
    unfold FeedbackPolicy.IsFullFor, FeedbackPolicy.AvailableFor. by rewrite Hm.
Qed.

End PolicyInv.
