(* ===== verification/Credits.v ===== *)
(** * Credit accounting of [BufferState]

    Lifts the invariants of the buffer policies to [BufferState]
    (buffer_state.cpp): the invariant [inv], that every operation called within
    its contract returns and preserves it, that a constructor with an even split
    of the VCs establishes it, and that the queries a router asks before sending
    ([IsFullFor], [AvailableFor]) agree with each other. *)

From S2P Require Import Prelude OutputSet Flit VCBuffer BufferState BufferStateInv.

Module Credits.
Import SharedInv PolicyInv CoreOps.

(** A VC is open while its packet's tail has not been sent. *)
Definition is_open (c : Core) (v : Z) : bool := (0 <=? (in_use_by c)⟦v⟧) && negb ((tail_sent c)⟦v⟧).
Definition n_open (c : Core) : Z := zsumf (λ v, if is_open c v then 1 else 0) (vcs c).
Definition occ (c : Core) (v : Z) : Z := (vc_occupancy c)⟦v⟧.

Record core_ok (c : Core) : Prop := {
  co_vcs : 0 < vcs c;
  co_occ_len : zlen (vc_occupancy c) = vcs c;
  co_use_len : zlen (in_use_by c) = vcs c;
  co_tail_len : zlen (tail_sent c) = vcs c;
  co_id_len : zlen (last_id c) = vcs c;
  co_pid_len : zlen (last_pid c) = vcs c;
  co_occupancy : occupancy c = zsumf (occ c) (vcs c);
  co_nonneg : ∀ v, 0 ≤ v < vcs c → 0 ≤ occ c v;
  (** A VC waiting for its tail credit stays allocated until it drains ... *)
  co_held : ∀ v, 0 ≤ v < vcs c → wait_for_tail_credit c = true → 0 < occ c v → 0 ≤ (in_use_by c)⟦v⟧;
  (** ... and no longer. *)
  co_freed : ∀ v, 0 ≤ v < vcs c → 0 ≤ (in_use_by c)⟦v⟧ → (tail_sent c)⟦v⟧ = true →
               wait_for_tail_credit c = true ∧ 0 < occ c v
}.

Definition inv (bs : BufferState) : Prop :=
  core_ok (core bs) ∧
  policy_ok (vcs (core bs)) (size (core bs)) (occ (core bs)) (n_open (core bs)) (buffer_policy bs).

(** The occupancies with [d] added at [vc]. *)
Definition bump (c : Core) (vc d v : Z) : Z := if decide (v = vc) then occ c v + d else occ c v.

(** [moved bs bs' vc d]: [bs'] differs by [d] flits in [vc]. *)
Record moved (c c' : Core) (vc d : Z) : Prop := {
  mv_vcs : vcs c' = vcs c;
  mv_size : size c' = size c;
  mv_wait : wait_for_tail_credit c' = wait_for_tail_credit c;
  mv_occ : ∀ v, 0 ≤ v < vcs c → occ c' v = bump c vc d v
}.

Lemma core_view c : core_ok c → view (vcs c) (occ c) c.
Proof. intros []. by split. Qed.

Lemma n_open_bounds c : 0 < vcs c → 0 ≤ n_open c ≤ vcs c.
Proof.
  intros Hn. unfold n_open. split.
  - apply zsumf_nonneg; [lia|]. intros v _. by destruct (is_open c v).
  - etrans; [apply (zsumf_le _ (λ _, 1)); [lia|]|rewrite zsumf_const; lia].
    intros v _. by destruct (is_open c v).
Qed.

(** Opening or closing one VC. *)
Lemma n_open_change c c' vc :
  vcs c' = vcs c → 0 ≤ vc < vcs c → (∀ v, 0 ≤ v < vcs c → v ≠ vc → is_open c' v = is_open c v) →
  n_open c' = n_open c + ((if is_open c' vc then 1 else 0) - (if is_open c vc then 1 else 0)).
Proof.
  intros Hn Hvc Hw. unfold n_open. rewrite Hn.
  apply (zsumf_change (λ v, if is_open c v then 1 else 0) (λ v, if is_open c' v then 1 else 0) _ vc Hvc).
  intros w Hr Hne. by rewrite Hw.
Qed.

Lemma is_open_spec c v : is_open c v = true ↔ 0 ≤ (in_use_by c)⟦v⟧ ∧ (tail_sent c)⟦v⟧ = false.
Proof. unfold is_open. rewrite andb_true_iff, negb_true_iff, Z.leb_le. done. Qed.

Lemma valid_vc_true c vc : 0 ≤ vc < vcs c → valid_vc c vc = true.
Proof. intros. unfold valid_vc. lia. Qed.

Lemma occ_set c o vo v : occ (set_occupancy o vo c) v = vo⟦v⟧.
Proof. done. Qed.

(** The sum of occupancies after adding [d] to one VC. *)
Lemma occupancy_step c vc d :
  core_ok c → 0 ≤ vc < vcs c →
  zsumf (λ v, (vc_occupancy c)⟦vc := occ c vc + d⟧⟦v⟧) (vcs c) = occupancy c + d.
Proof.
  intros Hc Hvc. pose proof (co_occ_len _ Hc).
  rewrite (zsumf_change (occ c) _ (vcs c) vc Hvc).
  - rewrite znth_zupd_eq by lia. rewrite (co_occupancy _ Hc). lia.
  - intros w Hw Hne. rewrite znth_zupd_ne by lia. done.
Qed.

(** [touched c c' vc d]: only [vc] changes, its occupancy by [d]. *)
Record touched (c c' : Core) (vc d : Z) : Prop := {
  to_vcs : vcs c' = vcs c;
  to_size : size c' = size c;
  to_wait : wait_for_tail_credit c' = wait_for_tail_credit c;
  to_occ : occupancy c' = occupancy c + d;
  to_vc_occ : vc_occupancy c' = (vc_occupancy c)⟦vc := occ c vc + d⟧;
  to_use_len : zlen (in_use_by c') = vcs c;
  to_tail_len : zlen (tail_sent c') = vcs c;
  to_id_len : zlen (last_id c') = vcs c;
  to_pid_len : zlen (last_pid c') = vcs c;
  to_other : ∀ v, 0 ≤ v < vcs c → v ≠ vc →
     (in_use_by c')⟦v⟧ = (in_use_by c)⟦v⟧ ∧ (tail_sent c')⟦v⟧ = (tail_sent c)⟦v⟧
}.

Lemma touched_moved c c' vc d :
  core_ok c → 0 ≤ vc < vcs c → touched c c' vc d → moved c c' vc d.
Proof.
  intros Hc Hvc [Hn Hs Hwt Ho Hvo Hu Ht Hi Hp Hsame]. pose proof (co_occ_len _ Hc). split; try done.
  intros v Hv. unfold occ at 1. rewrite Hvo, znth_zupd by lia. unfold bump. by repeat case_decide; subst.
Qed.

Lemma core_ok_touched c c' vc d :
  core_ok c → 0 ≤ vc < vcs c → touched c c' vc d → 0 ≤ occ c vc + d →
  (wait_for_tail_credit c = true → 0 < occ c vc + d → 0 ≤ (in_use_by c')⟦vc⟧) →
  (0 ≤ (in_use_by c')⟦vc⟧ → (tail_sent c')⟦vc⟧ = true →
     wait_for_tail_credit c = true ∧ 0 < occ c vc + d) →
  core_ok c'.
Proof.
  intros Hc Hvc Hto Hd Hheld Hfreed. pose proof (touched_moved _ _ _ _ Hc Hvc Hto) as [_ _ _ Hocc].
  destruct Hto as [Hn Hs Hwt Ho Hvo Hu Ht Hi Hp Hsame]. pose proof (co_occ_len _ Hc).
  split; rewrite ?Hn; try done.
  - apply Hc.
  - rewrite Hvo. lens.
  - rewrite Ho, <- (occupancy_step c vc d) by done. apply zsumf_ext. intros v Hv. unfold occ. by rewrite Hvo.
  - intros v Hv. rewrite Hocc by done. unfold bump. case_decide; [by subst|]. by apply (co_nonneg _ Hc).
  - intros v Hv. rewrite Hwt, Hocc by done. unfold bump. case_decide as E; [by subst|].
    destruct (Hsame v Hv E) as [-> _]. by apply (co_held _ Hc).
  - intros v Hv. rewrite Hwt, Hocc by done. unfold bump. case_decide as E; [by subst|].
    destruct (Hsame v Hv E) as [-> ->]. by apply (co_freed _ Hc).
Qed.

Lemma policy_ok_ext n sz vo vo' act p :
  (∀ v, 0 ≤ v < n → vo v = vo' v) → policy_ok n sz vo act p → policy_ok n sz vo' act p.
Proof.
  intros Hext.
  assert (∀ sh, shared_ok n vo sh → shared_ok n vo' sh) as Hsh.
  { intros sh [H1 H2 H3]. split; [|done|intros v Hv; rewrite <- Hext by done; auto].
    eapply acct_ext; [|exact H1]. intros v Hv. unfold held. by rewrite Hext. }
  destruct p as [k|sh|sh l|sh l|sh l|sh fb|sh fb pc]; simpl.
  - intros [? Hv]. split; [done|]. intros v Hr. rewrite <- Hext by done. auto.
  - intros [? ?]. auto.
  - intros (? & ?). auto.
  - intros (? & ?). auto.
  - intros (? & ?). auto.
  - intros (? & ? & ? & Hq). do 2 (split; [auto|]). split; [done|].
    intros v Hv. rewrite <- Hext by done. auto.
  - intros (? & ? & ? & ? & Hq). do 2 (split; [auto|]). do 2 (split; [done|]).
    intros v Hv. rewrite <- Hext by done. by apply Hq.
Qed.

Lemma policy_ok_act n sz vo act act' p : act = act' → policy_ok n sz vo act' p → policy_ok n sz vo act p.
Proof. by intros ->. Qed.

Lemma view_bump c vc d o :
  core_ok c → 0 ≤ vc < vcs c →
  view (vcs c) (bump c vc d) (set_occupancy o ((vc_occupancy c)⟦vc := occ c vc + d⟧) c).
Proof.
  intros Hc Hvc. pose proof (co_occ_len _ Hc). split; simpl; [done|lens|apply Hc|].
  intros v Hv. rewrite znth_zupd by lia. unfold bump. by repeat case_decide; subst.
Qed.

Lemma n_open_pos c vc : 0 ≤ vc < vcs c → is_open c vc = true → 1 ≤ n_open c.
Proof.
  intros Hvc Ho. pose proof (zsumf_ge (λ v, if is_open c v then 1 else 0) (vcs c) vc Hvc) as Hge.
  simpl in Hge. rewrite Ho in Hge. apply Hge. intros w _. by destruct (is_open c w).
Qed.

(** What every operation on [vc] has to establish. *)
Lemma inv_touched c c' vc d p' :
  core_ok c → 0 ≤ vc < vcs c → touched c c' vc d → 0 ≤ occ c vc + d →
  (wait_for_tail_credit c = true → 0 < occ c vc + d → 0 ≤ (in_use_by c')⟦vc⟧) →
  (0 ≤ (in_use_by c')⟦vc⟧ → (tail_sent c')⟦vc⟧ = true →
     wait_for_tail_credit c = true ∧ 0 < occ c vc + d) →
  policy_ok (vcs c) (size c) (bump c vc d)
    (n_open c + ((if is_open c' vc then 1 else 0) - (if is_open c vc then 1 else 0))) p' →
  inv (mkBufferState c' p') ∧ moved c c' vc d ∧
  (∀ v, 0 ≤ v < vcs c → v ≠ vc → is_open c' v = is_open c v).
Proof.
  intros Hc Hvc Hto Hd Hheld Hfreed Hp'.
  pose proof (touched_moved _ _ _ _ Hc Hvc Hto) as Hmv.
  assert (∀ v, 0 ≤ v < vcs c → v ≠ vc → is_open c' v = is_open c v) as Hother.
  { intros v Hv Hne. unfold is_open. by destruct (to_other _ _ _ _ Hto v Hv Hne) as [-> ->]. }
  split; [|done]. split; simpl; [by eapply core_ok_touched|].
  rewrite (to_size _ _ _ _ Hto), (n_open_change c c' vc) by (done || apply Hto).
  rewrite (to_vcs _ _ _ _ Hto). eapply policy_ok_ext; [|exact Hp'].
  intros v Hv. symmetry. by apply (mv_occ _ _ _ _ Hmv).
Qed.

(** *** [SendingFlit] *)

(** The core [SendingFlit] leaves. *)
Definition sent (c : Core) (f : Flit) : Core :=
  let vc := f_vc f in
  mkCore (wait_for_tail_credit c) (size c) (occupancy c + 1)
    ((vc_occupancy c)⟦vc := occ c vc + 1⟧) (vcs c)
    (if f_tail f && negb (wait_for_tail_credit c) then (in_use_by c)⟦vc := -1⟧ else in_use_by c)
    (if f_tail f then (tail_sent c)⟦vc := true⟧ else tail_sent c)
    ((last_id c)⟦vc := to_int (f_id f)⟧) ((last_pid c)⟦vc := to_int (f_pid f)⟧).

Lemma sent_touched c f :
  core_ok c → 0 ≤ f_vc f < vcs c → touched c (sent c f) (f_vc f) 1.
Proof.
  intros [Hn0 Hl1 Hl2 Hl3 Hl4 Hl5 _ _ _ _] Hvc. split; simpl; try done; try lens.
  - destruct (_ && _); lens.
  - destruct (f_tail f); lens.
  - intros v Hv Hne. destruct (f_tail f), (wait_for_tail_credit c); simpl;
      rewrite ?znth_zupd_ne by lia; done.
Qed.

Lemma sent_open c f :
  core_ok c → 0 ≤ f_vc f < vcs c → is_open c (f_vc f) = true →
  is_open (sent c f) (f_vc f) = negb (f_tail f).
Proof.
  intros Hc Hvc [Hu Ht]%is_open_spec. pose proof (co_tail_len _ Hc). unfold is_open. simpl.
  destruct (f_tail f); simpl; [by rewrite znth_zupd_eq, andb_false_r by lia|].
  by rewrite Ht, (proj2 (Z.leb_le _ _) Hu).
Qed.

Lemma SendingFlit_eq now bs f p' :
  let c := core bs in
  core_ok c → 0 ≤ f_vc f < vcs c → occupancy c + 1 ≤ size c →
  PolicyOps.SendingFlit now (buffer_policy bs)
    (set_occupancy (occupancy c + 1) ((vc_occupancy c)⟦f_vc f := occ c (f_vc f) + 1⟧) c) f = Ok p' →
  BufferStateOps.SendingFlit now bs f = Ok (mkBufferState (sent c f) p').
Proof.
  intros c [Hn0 Hl1 Hl2 Hl3 Hl4 Hl5 _ _ _ _] Hvc Hroom Hp. unfold BufferStateOps.SendingFlit. fold c.
  rewrite valid_vc_true by done. cbn [cassert mbind res_bind].
  destruct (Z.ltb_spec (size c) (occupancy c + 1)); [lia|].
  rewrite vget_ok by lia. cbn [mbind res_bind]. rewrite vset_ok by lia. cbn [mbind res_bind].
  unfold occ in Hp. rewrite Hp. unfold sent. cbn [mbind res_bind].
  destruct (f_tail f), (wait_for_tail_credit c) eqn:Ew; simpl; rewrite ?Ew; simpl;
    repeat (rewrite vset_ok by (simpl; lia); simpl); unfold set_last; simpl; by rewrite ?Ew.
Qed.

Definition has_slot (bs : BufferState) (vc : Z) : Prop := room (occ (core bs)) (buffer_policy bs) vc.

(** The contract of [SendingFlit]: the VC is open and has a free slot. *)
Lemma SendingFlit_slot now bs f :
  inv bs → 0 ≤ f_vc f < vcs (core bs) → is_open (core bs) (f_vc f) = true → has_slot bs (f_vc f) →
  returns (BufferStateOps.SendingFlit now bs f) (λ bs', inv bs' ∧ core bs' = sent (core bs) f).
Proof.
  intros [Hc Hp] Hvc Hopen Hslot. unfold has_slot in Hslot.
  set (c := core bs) in *. set (vc := f_vc f) in *.
  pose proof (room_fits _ _ _ _ _ vc Hp Hvc Hslot) as Hroom.
  pose proof (co_nonneg _ Hc vc Hvc) as Hnn. pose proof (co_occupancy _ Hc) as Hoc.
  pose proof (n_open_pos c vc Hvc Hopen). pose proof Hopen as [Hu Ht]%is_open_spec.
  destruct (PolicySend_ok (vcs c) (size c) (occ c) (bump c vc 1) (n_open c) now f
    (set_occupancy (occupancy c + 1) ((vc_occupancy c)⟦vc := occ c vc + 1⟧) c) Hvc
    ltac:(by apply view_bump) ltac:(unfold bump; by rewrite decide_True)
    ltac:(intros w Hw Hne; unfold bump; by rewrite decide_False) ltac:(done)
    (buffer_policy bs) Hp Hslot) as (p' & Hsend & Hp').
  assert (occupancy c + 1 ≤ size c) as Hroom1 by lia.
  eexists. split; [exact (SendingFlit_eq now bs f p' Hc Hvc Hroom1 Hsend)|]. split; [|done].
  apply (inv_touched c (sent c f) vc 1 p'); try done.
  - by apply sent_touched.
  - lia.
  - intros Hwt _. simpl. rewrite Hwt, andb_false_r. done.
  - pose proof (co_use_len _ Hc). simpl. intros Hu' Ht'. split; [|lia].
    destruct (wait_for_tail_credit c) eqn:Ew; [done|]. fold vc in Hu', Ht'.
    destruct (f_tail f) eqn:Ef; simpl in *; [|congruence]. rewrite znth_zupd_eq in Hu' by lia. lia.
  - rewrite sent_open, Hopen by done. eapply policy_ok_act; [|exact Hp'].
    destruct (f_tail f); simpl; lia.
Qed.

(** [IsFullFor] finds a free slot. *)
Lemma IsFullFor_slot now bs vc :
  inv bs → 0 ≤ vc < vcs (core bs) → returns (BufferStateOps.IsFullFor now bs vc) (λ full, full = false → has_slot bs vc).
Proof.
  intros [Hc Hp] Hvc. unfold BufferStateOps.IsFullFor.
  destruct (PolicyFull_ok _ _ _ _ now _ (core bs) vc Hp (core_view _ Hc) Hvc) as (a & _ & Ha & _).
  eexists. split; [exact Ha|]. intros E. rewrite E in Ha. by eapply room_full; [exact Hp|by apply core_view|..].
Qed.

Lemma SendingFlit_safe now now0 bs f :
  inv bs → 0 ≤ f_vc f < vcs (core bs) → is_open (core bs) (f_vc f) = true →
  BufferStateOps.IsFullFor now0 bs (f_vc f) = Ok false →
  returns (BufferStateOps.SendingFlit now bs f) (λ bs',
    inv bs' ∧ core bs' = sent (core bs) f).
Proof.
  intros Hinv Hvc Hopen Hfull. apply SendingFlit_slot; try done.
  destruct (IsFullFor_slot now0 bs (f_vc f) Hinv Hvc) as (b & Hb & Hs). apply Hs. congruence.
Qed.

(** *** [TakeBuffer] *)

Definition taken (c : Core) (vc tag : Z) : Core :=
  set_tail_sent ((tail_sent c)⟦vc := false⟧) (set_in_use_by ((in_use_by c)⟦vc := to_int tag⟧) c).

Lemma taken_touched c vc tag : core_ok c → 0 ≤ vc < vcs c → touched c (taken c vc tag) vc 0.
Proof.
  intros [Hn0 Hl1 Hl2 Hl3 Hl4 Hl5 _ _ _ _] Hvc. split; simpl; try done; try lens.
  - apply zlist_eq; [lens|]. intros i Hi. rewrite znth_zupd by lia. unfold occ.
    case_decide; [subst; lia|done].
  - intros v Hv Hne. by rewrite !znth_zupd_ne by lia.
Qed.

(** The contract of [TakeBuffer]: the VC is free. *)
Lemma TakeBuffer_safe bs vc tag :
  inv bs → 0 ≤ vc < vcs (core bs) → (in_use_by (core bs))⟦vc⟧ < 0 → 0 ≤ tag ≤ int_max →
  returns (BufferStateOps.TakeBuffer bs vc tag) (λ bs', inv bs' ∧ core bs' = taken (core bs) vc tag).
Proof.
  intros [Hc Hp] Hvc Hfree Htag. set (c := core bs) in *.
  assert (0 ≤ to_int tag) as Htag0 by (rewrite to_int_id by (unfold int_min; lia); lia).
  pose proof Hc as [Hn0 Hl1 Hl2 Hl3 Hl4 Hl5 Hoc Hnn Hheld Hfreed].
  assert (is_open c vc = false) as Hclosed by (unfold is_open; destruct (Z.leb_spec 0 ((in_use_by c)⟦vc⟧)); [lia|done]).
  assert (is_open (taken c vc tag) vc = true) as Hopen.
  { apply is_open_spec. simpl. rewrite !znth_zupd_eq by lia. done. }
  pose proof (n_open_change c (taken c vc tag) vc eq_refl Hvc) as Hcnt.
  rewrite Hclosed, Hopen in Hcnt. specialize (Hcnt ltac:(intros v Hv Hne; unfold is_open; simpl; by rewrite !znth_zupd_ne by lia)).
  pose proof (n_open_bounds c Hn0). pose proof (n_open_bounds (taken c vc tag) Hn0) as Hb. simpl in Hb.
  unfold BufferStateOps.TakeBuffer. fold c. rewrite valid_vc_true by done. cbn [cassert mbind res_bind].
  apply returns_vget; [lia|]. destruct (Z.leb_spec 0 ((in_use_by c)⟦vc⟧)); [lia|]. rsteps.
  eapply returns_bind; [apply (TakeBuffer_ok (vcs c) (size c) (occ c) (n_open c)); [lia|done]|].
  intros p' Hp'. apply returns_ok. split; [|done].
  apply (inv_touched c (taken c vc tag) vc 0 p'); try done.
  - by apply taken_touched.
  - specialize (Hnn vc Hvc). lia.
  - intros _ _. simpl. by rewrite znth_zupd_eq by lia.
  - simpl. rewrite (znth_zupd_eq (tail_sent c)) by lia. done.
  - rewrite Hclosed, Hopen. eapply policy_ok_act; [|eapply policy_ok_ext; [|exact Hp']]; [lia|].
    intros v Hv. unfold bump. case_decide; lia.
Qed.

(** Taking a VC leaves the free slots of the others. *)
Lemma TakeBuffer_slot bs vc tag bs' v :
  BufferStateOps.TakeBuffer bs vc tag = Ok bs' → has_slot bs v → has_slot bs' v.
Proof.
  unfold BufferStateOps.TakeBuffer. intros H.
  apply assert_ok_inv in H as [_ H]. apply bind_ok_inv in H as (u & _ & H).
  destruct (_ <=? _); [done|].
  repeat (apply bind_ok_inv in H as (? & ? & H)). injection H as <-. unfold has_slot. simpl. by apply room_TakeBuffer with vc.
Qed.

(** *** [ProcessCredit] *)

(** The core one iteration of [ProcessCredit] leaves. *)
Definition freed (c : Core) (vc : Z) : Core :=
  let o := occ c vc - 1 in
  mkCore (wait_for_tail_credit c) (size c) (occupancy c - 1) ((vc_occupancy c)⟦vc := o⟧) (vcs c)
    (if wait_for_tail_credit c && (o =? 0) && (tail_sent c)⟦vc⟧
     then (in_use_by c)⟦vc := -1⟧ else in_use_by c)
    (tail_sent c) (last_id c) (last_pid c).

Lemma freed_touched c vc : core_ok c → 0 ≤ vc < vcs c → touched c (freed c vc) vc (-1).
Proof.
  intros [Hn0 Hl1 Hl2 Hl3 Hl4 Hl5 _ _ _ _] Hvc. split; simpl; try done; try lens.
  - destruct (_ && _); lens.
  - intros v Hv Hne. destruct (_ && _); simpl; by rewrite ?znth_zupd_ne by lia.
Qed.

Lemma freed_open c vc : core_ok c → 0 ≤ vc < vcs c → is_open (freed c vc) vc = is_open c vc.
Proof.
  intros Hc Hvc. pose proof (co_use_len _ Hc). unfold is_open. simpl.
  destruct ((tail_sent c)⟦vc⟧); [by rewrite !andb_false_r|]. by rewrite andb_false_r.
Qed.

Lemma freed_view c vc :
  core_ok c → 0 ≤ vc < vcs c → view (vcs c) (bump c vc (-1)) (freed c vc).
Proof.
  intros Hc Hvc. pose proof (freed_touched c vc Hc Hvc) as Hto.
  split; [done|simpl; pose proof (co_occ_len _ Hc); lens|apply Hto|].
  apply (touched_moved _ _ _ _ Hc Hvc Hto).
Qed.

Lemma ProcessCreditFor_eq now bs vc p' :
  let c := core bs in
  core_ok c → 0 ≤ vc < vcs c → 0 < occ c vc →
  PolicyOps.FreeSlotFor now (buffer_policy bs) (freed c vc) vc = Ok p' →
  BufferStateOps.ProcessCreditFor now bs vc = Ok (mkBufferState (freed c vc) p').
Proof.
  intros c [Hn0 Hl1 Hl2 Hl3 Hl4 Hl5 Hoc Hnn Hheld Hfreed] Hvc Hpos Hp.
  pose proof (zsumf_ge (occ c) (vcs c) vc Hvc Hnn) as Hge. specialize (Hheld vc Hvc).
  unfold BufferStateOps.ProcessCreditFor. fold c. rewrite valid_vc_true by done. cbn [cassert mbind res_bind].
  rewrite (vget_ok (in_use_by c)) by lia. cbn [mbind res_bind].
  assert (wait_for_tail_credit c && ((in_use_by c)⟦vc⟧ <? 0) = false) as ->.
  { destruct (wait_for_tail_credit c); [|done]. specialize (Hheld eq_refl Hpos). simpl. lia. }
  destruct (Z.ltb_spec (occupancy c - 1) 0); [lia|].
  rewrite (vget_ok (vc_occupancy c)) by lia. cbn [mbind res_bind]. rewrite vset_ok by lia. cbn [mbind res_bind].
  change ((vc_occupancy c)⟦vc⟧) with (occ c vc).
  destruct (Z.ltb_spec (occ c vc - 1) 0); [lia|]. simpl. rewrite vget_ok by lia. cbn [mbind res_bind].
  revert Hp. unfold freed. destruct (_ && _ && _) eqn:E; intros Hp; simpl.
  - apply andb_prop in E as [[Ew _]%andb_prop _]. specialize (Hheld Ew Hpos).
    rewrite (proj2 (Z.leb_le _ _) Hheld). simpl. rewrite vset_ok by lia. unfold set_in_use_by, set_occupancy. simpl. by rewrite Hp.
  - unfold set_occupancy. simpl. by rewrite Hp.
Qed.

(** The contract of [ProcessCredit]: a flit of the VC is outstanding. *)
Lemma ProcessCreditFor_safe now bs vc :
  inv bs → 0 ≤ vc < vcs (core bs) → 0 < occ (core bs) vc →
  returns (BufferStateOps.ProcessCreditFor now bs vc) (λ bs', inv bs' ∧ core bs' = freed (core bs) vc).
Proof.
  intros [Hc Hp] Hvc Hpos. set (c := core bs) in *.
  destruct (PolicyFree_ok (vcs c) (size c) (occ c) (bump c vc (-1)) (n_open c) now vc (freed c vc) Hvc)
    with (p := buffer_policy bs) as (p' & Hfree & Hp'); [..|done|].
  { by apply freed_view. }
  { unfold bump. rewrite decide_True by done. lia. }
  { lia. }
  { intros w Hw Hne. unfold bump. by rewrite decide_False. }
  eexists. split; [exact (ProcessCreditFor_eq now bs vc p' Hc Hvc Hpos Hfree)|]. split; [|done].
  pose proof (co_use_len _ Hc) as Hul.
  apply (inv_touched c (freed c vc) vc (-1) p'); try done; [by apply freed_touched|lia| | |].
  - intros Hw Hlt. simpl. destruct (Z.eqb_spec (occ c vc - 1) 0); [lia|].
    rewrite andb_false_r. apply (co_held _ Hc); done || lia.
  - simpl. intros Hu Ht. rewrite Ht, andb_true_r in Hu.
    destruct (wait_for_tail_credit c) eqn:Ew; simpl in Hu.
    + destruct (Z.eqb_spec (occ c vc - 1) 0); [rewrite znth_zupd_eq in Hu by lia; lia|]. split; [done|lia].
    + pose proof (co_freed _ Hc vc Hvc Hu Ht) as [? _]. congruence.
  - rewrite freed_open by done. eapply policy_ok_act; [|exact Hp']. lia.
Qed.

(** *** Construction *)

Definition cfg_size (cfg : Config) : Z :=
  if cfg_buf_size cfg <? 0 then cfg_num_vcs cfg * cfg_vc_buf_size cfg else cfg_buf_size cfg.
Definition cfg_bufs (cfg : Config) : Z :=
  if cfg_private_bufs cfg <? 0 then cfg_num_vcs cfg
  else if cfg_private_bufs cfg =? 0 then 1 else cfg_private_bufs cfg.
Definition cfg_priv_size (cfg : Config) : Z :=
  if (cfg_private_buf_size cfg).2 <? 0 then cfg_size cfg `quot` cfg_bufs cfg
  else (cfg_private_buf_size cfg).2.

(** Options for which the VCs are split evenly between equally large private
    buffers (the defaults), with room for these. *)
Record even_split (cfg : Config) : Prop := {
  es_vcs : 0 < cfg_num_vcs cfg;
  es_size : 0 < cfg_size cfg;
  es_bufs : cfg_bufs cfg ≤ cfg_num_vcs cfg;
  es_priv : (cfg_private_buf_size cfg).1 = [];
  es_fits : cfg_bufs cfg * cfg_priv_size cfg ≤ cfg_size cfg;
  es_start : (cfg_private_buf_start_vc cfg).1 = [] ∧ (cfg_private_buf_start_vc cfg).2 < 0;
  es_end : (cfg_private_buf_end_vc cfg).1 = [] ∧ (cfg_private_buf_end_vc cfg).2 < 0
}.

Lemma znth_fmap_seqZ (g : Z → Z) n i : 0 ≤ i < n → (g <$> seqZ 0 n)⟦i⟧ = g i.
Proof.
  intros Hi. apply list_lookup_total_correct. rewrite list_lookup_fmap, lookup_seqZ_lt by lia.
  simpl. do 2 f_equal. lia.
Qed.

Lemma zlen_fmap_seqZ (g : Z → Z) n : 0 ≤ n → zlen (g <$> seqZ 0 n) = n.
Proof. intros. unfold zlen. rewrite length_fmap, length_seqZ. lia. Qed.

(** Mapping [lo .. hi - 1] to buffer [i] of [P]. *)
Lemma map_vcs_ok i lo hi m n P :
  zlen m = n → 0 ≤ lo ≤ hi → hi ≤ n → 0 ≤ i < P →
  (∀ v, 0 ≤ v < lo → 0 ≤ m⟦v⟧ < P) → (∀ v, lo ≤ v < n → m⟦v⟧ = -1) →
  returns (SharedPolicy.map_vcs i lo (hi - 1) m) (λ m',
    zlen m' = n ∧ (∀ v, 0 ≤ v < hi → 0 ≤ m'⟦v⟧ < P) ∧ (∀ v, hi ≤ v < n → m'⟦v⟧ = -1)).
Proof.
  intros Hl Hlo Hhi Hi Hm1 Hm2. unfold SharedPolicy.map_vcs. replace (hi - 1 + 1) with hi by lia.
  apply (returns_for (λ k m', zlen m' = n ∧ (∀ v, 0 ≤ v < k → 0 ≤ m'⟦v⟧ < P) ∧
                              (∀ v, k ≤ v < n → m'⟦v⟧ = -1))); [lia|done|].
  intros k m' Hk (H1 & H2 & H3). specialize (H3 k) as Hkk.
  apply returns_vget; [lia|]. rewrite Hkk by lia. simpl.
  rewrite vset_ok by lia. apply returns_ok. split; [lens|].
  split; intros v Hv; rewrite znth_zupd by lia; case_decide; try lia; [apply H2|apply H3]; lia.
Qed.

(** The loop over the private buffers of the constructor. *)
Lemma split_loop_ok n P s bsize sizes start_vc end_vc :
  0 < P ≤ n → zlen sizes = P → zlen start_vc = P → zlen end_vc = P →
  (∀ i, 0 ≤ i < P → sizes⟦i⟧ = s ∧ start_vc⟦i⟧ = i * n / P ∧ end_vc⟦i⟧ = (i + 1) * n / P - 1) →
  returns (zfor 0 P (λ i '(shared_size, vc_map),
      sz ← vget sizes i;
      sv ← vget start_vc i;
      ev ← vget end_vc i;
      assert! (sv <=? ev);
      vc_map ← SharedPolicy.map_vcs i sv ev vc_map;
      Ok (shared_size - sz, vc_map)) (bsize, replicate (Z.to_nat n) (-1)))
    (λ r, r.1 = bsize - P * s ∧ zlen r.2 = n ∧ ∀ v, 0 ≤ v < n → 0 ≤ r.2⟦v⟧ < P).
Proof.
  intros HP Hl1 Hl2 Hl3 Hv. eapply returns_mono.
  - apply (returns_for (λ i r, r.1 = bsize - i * s ∧ zlen r.2 = n ∧
      (∀ v, 0 ≤ v < i * n / P → 0 ≤ r.2⟦v⟧ < P) ∧ (∀ v, i * n / P ≤ v < n → r.2⟦v⟧ = -1)));
      [lia| |].
    + split; [simpl; lia|]. simpl. rewrite zlen_replicate, Z.div_0_l by lia. split; [done|].
      split; [lia|]. intros v Hr. apply znth_replicate. lia.
    + intros i [ss m] Hi (H1 & H2 & H3 & H4). simpl in *. specialize (Hv i Hi) as (E1 & E2 & E3).
      rsteps. rewrite E1, E2, E3.
      assert (i * n / P + 1 ≤ (i + 1) * n / P).
      { rewrite <- Z.div_add by lia. apply Z.div_le_mono; lia. }
      assert ((i + 1) * n / P ≤ n) by (apply Z.div_le_upper_bound; nia).
      assert (0 ≤ i * n / P) by (apply Z.div_pos; nia).
      rsteps. eapply returns_bind; [by apply (map_vcs_ok _ _ _ _ n P); try lia|].
      intros m' (? & ? & ?). apply returns_ok. simpl. split_and!; try done. lia.
  - intros [ss m] (H1 & H2 & H3 & _). split; [done|]. split; [done|].
    intros v Hr. apply H3. rewrite Z.mul_comm, Z.div_mul by lia. done.
Qed.

Lemma split_vcs cfg :
  even_split cfg → 0 < cfg_bufs cfg ∧ 0 ≤ cfg_priv_size cfg ∧
  SharedPolicy.start_vcs cfg (cfg_bufs cfg) =
    (λ i, (i * cfg_num_vcs cfg) `quot` cfg_bufs cfg) <$> seqZ 0 (cfg_bufs cfg) ∧
  SharedPolicy.end_vcs cfg (cfg_bufs cfg) =
    (λ i, ((i + 1) * cfg_num_vcs cfg) `quot` cfg_bufs cfg - 1) <$> seqZ 0 (cfg_bufs cfg).
Proof.
  intros [Hn Hsz HP Hps Hfit [Hs1 Hs2] [He1 He2]].
  unfold SharedPolicy.start_vcs, SharedPolicy.end_vcs.
  destruct (cfg_private_buf_start_vc cfg) as [l1 sv], (cfg_private_buf_end_vc cfg) as [l2 ev].
  simpl in *. subst. rewrite (proj2 (Z.ltb_lt _ _) Hs2), (proj2 (Z.ltb_lt _ _) He2).
  assert (0 < cfg_bufs cfg).
  { unfold cfg_bufs. destruct (Z.ltb_spec (cfg_private_bufs cfg) 0); [done|].
    destruct (Z.eqb_spec (cfg_private_bufs cfg) 0); lia. }
  split; [done|]. split; [|done]. unfold cfg_priv_size.
  destruct (Z.ltb_spec (cfg_private_buf_size cfg).2 0); [|done]. apply Z.quot_pos; lia.
Qed.

Lemma load_0 n m i : load n m (λ _, 0) i = 0.
Proof. unfold load. erewrite zsumf_ext; [apply zsumf_const_0|]. intros v _. by destruct (_ =? _). Qed.

Lemma vresize_single (x : Z) P :
  0 < P → SharedPolicy.vresize [x] P (default 0 (last [x])) = replicate (Z.to_nat P) x.
Proof.
  intros HP. unfold SharedPolicy.vresize. destruct (Z.to_nat P) as [|k] eqn:E; [lia|]. simpl.
  by rewrite firstn_nil, Nat.sub_0_r.
Qed.

Lemma SharedNew_ok cfg :
  even_split cfg →
  returns (SharedPolicy.New cfg) (λ sh,
    shared_ok (cfg_num_vcs cfg) (λ _, 0) sh ∧ buf_size sh = cfg_size cfg).
Proof.
  intros Hes. pose proof (split_vcs cfg Hes) as (HP0 & Hs0 & Hsv & Hev).
  destruct Hes as [Hn Hsz HP Hps Hfit _ _].
  unfold SharedPolicy.New. fold (cfg_bufs cfg) (cfg_size cfg). rewrite Hsv, Hev.
  assert (∃ bs, cfg_private_buf_size cfg = ([], bs) ∧
     (if bs <? 0 then cfg_size cfg `quot` cfg_bufs cfg else bs) = cfg_priv_size cfg) as (bs & -> & ->).
  { unfold cfg_priv_size. destruct (cfg_private_buf_size cfg) as [l bs]. simpl in *. subst. by exists bs. }
  cbv zeta. rewrite vresize_single by done.
  set (n := cfg_num_vcs cfg) in *. set (P := cfg_bufs cfg) in *. set (s := cfg_priv_size cfg) in *.
  eapply returns_bind.
  { apply (split_loop_ok n P s); [lia|by apply zlen_replicate; lia|by apply zlen_fmap_seqZ; lia..|].
    intros i Hi. rewrite znth_replicate, !znth_fmap_seqZ by done. split; [done|].
    rewrite !quot_div by nia. done. }
  intros [ss m] (H1 & H2 & H3). simpl in *. rsteps. split; [|done].
  assert (zlen (replicate (Z.to_nat P) 0) = P) as HlP by (apply zlen_replicate; lia).
  split; simpl; [|intros v Hv; by rewrite znth_replicate|done].
  split; simpl; rewrite ?zlen_replicate; try done; try lia.
  - intros v Hv. unfold held. simpl. by rewrite znth_replicate.
  - intros i Hi. rewrite znth_replicate by done. etrans; [symmetry; exact (load_0 n m i)|]. unfold load.
    apply zsumf_ext. intros v Hv. unfold held. simpl. by rewrite znth_replicate.
  - unfold excess. rewrite HlP. erewrite zsumf_ext; [by rewrite zsumf_const_0|].
    intros i Hi. simpl. rewrite !znth_replicate by done. lia.
  - subst ss. rewrite zsumf_ext with (g := λ _, s) by (intros i Hi; by apply znth_replicate).
    rewrite zsumf_const; lia.
Qed.
(** What each policy needs of the size. *)
Definition policy_fits (cfg : Config) : Prop :=
  let name := cfg_buffer_policy cfg in
  (name = "private" ∧ (cfg_buf_size cfg < 0 ∨ cfg_num_vcs cfg ≤ cfg_buf_size cfg)) ∨
  name = "shared" ∨ name = "limited" ∨
  (name = "dynamic" ∧ cfg_num_vcs cfg ≤ cfg_size cfg) ∨
  (name = "shifting" ∧ 2 ^ Z.log2_up (cfg_num_vcs cfg) ≤ cfg_size cfg) ∨
  name = "feedback" ∨ name = "simplefeedback".

Lemma feedback_lens_New cfg sh m :
  0 < cfg_num_vcs cfg → 0 ≤ m → SharedPolicy.New cfg = Ok sh →
  returns (FeedbackPolicy.New cfg) (λ r, r.1 = sh ∧ fb_vcs r.2 = cfg_num_vcs cfg ∧
    feedback_lens (cfg_num_vcs cfg) (FeedbackPolicy.SetMinLatency r.2 m) ∧
    ∀ v, 0 ≤ v < cfg_num_vcs cfg → (flit_sent_time r.2)⟦v⟧ = []).
Proof.
  intros Hn Hm Hsh. unfold FeedbackPolicy.New. rewrite Hsh. apply returns_ok. simpl.
  do 2 (split; [done|]). split; [split; simpl; rewrite ?zlen_replicate; lia|].
  intros v Hv. by apply znth_replicate.
Qed.

Lemma PolicyNew_ok cfg m :
  even_split cfg → policy_fits cfg → 0 ≤ m →
  returns (PolicyOps.New cfg) (λ p,
    policy_ok (cfg_num_vcs cfg) (cfg_size cfg) (λ _, 0) 0 (PolicyOps.SetMinLatency p m)).
Proof.
  intros Hes Hfits Hm. destruct (SharedNew_ok cfg Hes) as (sh & Hsh & Hok & Hb).
  pose proof (es_vcs _ Hes) as Hn. pose proof (es_size _ Hes) as Hsz.
  unfold PolicyOps.New.
  destruct Hfits as [ [-> Hp] | [ -> | [ -> | [ [-> Hp] | [ [-> Hp] | [ -> | -> ] ] ] ] ] ]; cbn [String.eqb Ascii.eqb Bool.eqb].
  - unfold PrivatePolicy.New. unfold cfg_size in *.
    destruct (Z.ltb_spec (cfg_buf_size cfg) 0), (Z.leb_spec (cfg_buf_size cfg) 0); try lia; simpl.
    + assert (0 < cfg_vc_buf_size cfg) by nia. rewrite (proj2 (Z.ltb_lt _ _) H1). simpl.
      apply returns_ok. split; [lia|]. intros; lia.
    + rewrite quot_div by lia. pose proof (Z.div_str_pos (cfg_buf_size cfg) (cfg_num_vcs cfg) ltac:(lia)).
      rewrite (proj2 (Z.ltb_lt _ _) H1). apply returns_ok. split; [|intros; lia].
      apply Z.mul_div_le. lia.
  - rewrite Hsh. by apply returns_ok.
  - unfold LimitedPolicy.New. rewrite Hsh. apply returns_ok. do 2 (split; [done|]).
    unfold limited_ok. simpl. lia.
  - unfold DynamicPolicy.New, LimitedPolicy.New. rewrite Hsh. apply returns_ok. do 2 (split; [done|]).
    unfold limited_ok. simpl. lia.
  - unfold DynamicPolicy.New, LimitedPolicy.New. rewrite Hsh. apply returns_ok. do 2 (split; [done|]).
    unfold limited_ok. simpl. lia.
  - eapply returns_bind; [by apply (feedback_lens_New cfg sh m)|]. intros [sh' fb] (E & _ & Hl & Hq).
    simpl in *. subst sh'.
    apply returns_ok. do 2 (split; [done|]). split; [done|]. intros v Hv. simpl. by rewrite Hq.
  - unfold SimpleFeedbackPolicy.New.
    destruct (feedback_lens_New cfg sh m Hn Hm Hsh) as ([sh' fb] & -> & E & Hvcs & Hl & Hq).
    simpl in *. subst sh'.
    apply returns_ok. do 2 (split; [done|]). split; [done|]. rewrite Hvcs.
    split; [apply zlen_replicate; lia|]. intros v Hv. simpl. rewrite Hq by done. by apply znth_replicate.
Qed.

Lemma New_safe cfg m :
  even_split cfg → policy_fits cfg → 0 ≤ m →
  returns (BufferStateOps.New cfg) (λ bs,
    let c := core (BufferStateOps.SetMinLatency bs m) in
    inv (BufferStateOps.SetMinLatency bs m) ∧ vcs c = cfg_num_vcs cfg ∧ size c = cfg_size cfg ∧
    ∀ v, 0 ≤ v < vcs c → occ c v = 0 ∧ (in_use_by c)⟦v⟧ = -1).
Proof.
  intros Hes Hfits Hm. pose proof (es_vcs _ Hes) as Hn. unfold BufferStateOps.New.
  fold (cfg_size cfg). eapply returns_bind; [by apply (PolicyNew_ok cfg m)|]. intros p Hp.
  apply returns_ok. simpl. split; [|split_and!; [done|done|]].
  2: { intros v Hv. unfold occ. simpl. by rewrite !znth_replicate. }
  split; simpl.
  - split; simpl; rewrite ?zlen_replicate; try lia.
    + rewrite zsumf_ext with (g := λ _, 0); [by rewrite zsumf_const_0|].
      intros v Hv. by apply znth_replicate.
    + intros v Hv. unfold occ. simpl. by rewrite znth_replicate.
    + intros v Hv. unfold occ. simpl. rewrite !znth_replicate by done. lia.
    + intros v Hv. rewrite !znth_replicate by done. lia.
  - eapply policy_ok_act; [|eapply policy_ok_ext; [|exact Hp]].
    + unfold n_open. rewrite zsumf_ext with (g := λ _, 0); [by rewrite zsumf_const_0|].
      intros v Hv. unfold is_open. simpl. by rewrite !znth_replicate.
    + intros v Hv. unfold occ. simpl. by rewrite znth_replicate.
Qed.

(** *** A whole credit *)

Fixpoint cnt (v : Z) (l : list Z) : Z :=
  match l with [] => 0 | x :: l => (if decide (x = v) then 1 else 0) + cnt v l end.

Lemma cnt_nonneg v l : 0 ≤ cnt v l.
Proof. induction l as [|x l IH]; simpl; [done|]. case_decide; lia. Qed.

Lemma cnt_app v l1 l2 : cnt v (l1 ++ l2) = cnt v l1 + cnt v l2.
Proof. induction l1 as [|x l1 IH]; simpl; [done|]. lia. Qed.

Lemma cnt_NoDup v l : NoDup l → v ∈ l → cnt v l = 1.
Proof.
  assert (∀ l, v ∉ l → cnt v l = 0) as Hz.
  { clear l. induction l as [|x l IH]; simpl; [done|]. rewrite not_elem_of_cons.
    intros [Hne Hin]. rewrite decide_False by done. by rewrite IH. }
  induction 1 as [|x l Hx Hnd IH]; simpl; [by intros ?%elem_of_nil|].
  intros [->|Hin]%elem_of_cons; [rewrite decide_True, Hz by done; done|].
  rewrite decide_False, IH by (done || intros ->; done). done.
Qed.

Lemma ProcessCredit_safe now bs cr :
  inv bs → Forall (λ v, 0 ≤ v < vcs (core bs)) (c_vc cr) →
  (∀ v, 0 ≤ v < vcs (core bs) → cnt v (c_vc cr) ≤ occ (core bs) v) →
  returns (BufferStateOps.ProcessCredit now bs cr) (λ bs',
    inv bs' ∧ vcs (core bs') = vcs (core bs) ∧ size (core bs') = size (core bs) ∧
    (∀ v, 0 ≤ v < vcs (core bs) → occ (core bs') v = occ (core bs) v - cnt v (c_vc cr)) ∧
    (∀ v, 0 ≤ v < vcs (core bs) → is_open (core bs') v = is_open (core bs) v ∧
       (is_open (core bs) v = true → (in_use_by (core bs'))⟦v⟧ = (in_use_by (core bs))⟦v⟧))).
Proof.
  intros Hinv Hv Hcnt. unfold BufferStateOps.ProcessCredit. eapply returns_mono.
  - apply (returns_foldl (λ l bs', inv bs' ∧ vcs (core bs') = vcs (core bs) ∧
      size (core bs') = size (core bs) ∧ Forall (λ v, 0 ≤ v < vcs (core bs)) l ∧
      (∀ v, 0 ≤ v < vcs (core bs) → cnt v l ≤ occ (core bs') v ∧
         occ (core bs') v = occ (core bs) v - (cnt v (c_vc cr) - cnt v l)) ∧
      (∀ v, 0 ≤ v < vcs (core bs) → is_open (core bs') v = is_open (core bs) v ∧
         (is_open (core bs) v = true → (in_use_by (core bs'))⟦v⟧ = (in_use_by (core bs))⟦v⟧)))).
    { split_and!; try done. intros v Hr. specialize (Hcnt v Hr). lia. }
    intros x l b (Hi & Hn & Hs & [Hx Hl]%Forall_cons & Hc & Ho).
    pose proof (Hc x Hx) as [Hcx _]. simpl in Hcx. rewrite decide_True in Hcx by done.
    pose proof (cnt_nonneg x l). rewrite <- Hn in Hx.
    eapply returns_mono; [by apply ProcessCreditFor_safe; [| |lia]|].
    intros b' [Hi' Hb']. pose proof (freed_touched (core b) x (proj1 Hi) Hx) as Hto.
    pose proof (touched_moved _ _ _ _ (proj1 Hi) Hx Hto) as Hmv.
    rewrite Hb'. split_and!; try done.
    + intros v Hr. specialize (Hc v Hr). rewrite <- Hn in Hr. rewrite (mv_occ _ _ _ _ Hmv v Hr).
      unfold bump. simpl in Hc. repeat case_decide; simplify_eq; lia.
    + intros v Hr. destruct (Ho v Hr) as [<- Hu]. rewrite <- Hn in Hr. destruct (decide (v = x)) as [->|Hne].
      * rewrite freed_open by (done || apply Hi). split; [done|]. intros Hop. rewrite <- Hu by done.
        apply is_open_spec in Hop as [_ Hts]. simpl. by rewrite Hts, andb_false_r.
      * unfold is_open in *. by destruct (to_other _ _ _ _ Hto v Hr Hne) as [-> ->].
  - intros bs' (? & ? & ? & _ & Hc & ?). split_and!; try done.
    intros v Hr. specialize (Hc v Hr). simpl in Hc. lia.
Qed.

(** The queries of a router return. *)
Lemma IsFull_ok bs : inv bs → returns (IsFull (core bs)) (λ _, True).
Proof.
  intros [Hc Hp]. pose proof (co_vcs _ Hc) as Hn. unfold IsFull.
  destruct (PolicyFull_ok _ _ _ _ 0 _ (core bs) 0 Hp (core_view _ Hc) ltac:(lia)) as (a & _ & _ & Ha).
  rewrite <- (co_occupancy _ Hc) in Ha. by rsteps.
Qed.

Lemma IsAvailableFor_ok bs vc : inv bs → 0 ≤ vc < vcs (core bs) → IsAvailableFor (core bs) vc = Ok ((in_use_by (core bs))⟦vc⟧ <? 0).
Proof.
  intros [Hc _] Hvc. unfold IsAvailableFor. rewrite valid_vc_true by done. simpl. rewrite vget_ok by (rewrite (co_use_len _ Hc); lia). done.
Qed.

Lemma IsEmptyFor_ok bs vc : inv bs → 0 ≤ vc < vcs (core bs) → IsEmptyFor (core bs) vc = Ok (occ (core bs) vc =? 0).
Proof.
  intros [Hc _] Hvc. unfold IsEmptyFor. rewrite valid_vc_true by done. simpl. rewrite vget_ok by (rewrite (co_occ_len _ Hc); lia). done.
Qed.

(** C37. The two admission queries agree under every policy.  In a state that
    satisfies the invariant both return, [IsFullFor] is true exactly when
    [AvailableFor] is not positive, and what [AvailableFor] advertises still
    fits in the buffer on top of what is outstanding. *)
Theorem IsFullFor_AvailableFor now bs vc :
  inv bs → 0 ≤ vc < vcs (core bs) →
  ∃ a, BufferStateOps.AvailableFor now bs vc = Ok a ∧
    BufferStateOps.IsFullFor now bs vc = Ok (a <=? 0) ∧
    occupancy (core bs) + Z.max a 0 ≤ size (core bs).
Proof.
  intros [Hc Hp] Hvc. rewrite (co_occupancy _ Hc).
  exact (PolicyFull_ok _ _ _ _ now _ _ vc Hp (core_view _ Hc) Hvc).
Qed.

Definition sample_cfg (policy : string) (buf_size : Z) : Config :=
  mkConfig 2 buf_size 2 policy (-1) ([], 1) ([], -1) ([], -1) (-1) 1 0 1.

Lemma sample_inv :
  returns (BufferStateOps.New (sample_cfg "dynamic" 4)) (λ bs, inv (BufferStateOps.SetMinLatency bs 3)).
Proof.
  eapply returns_mono; [apply (New_safe (sample_cfg "dynamic" 4) 3)|by intros bs []].
  - by split; vm_compute.
  - do 3 right. left. by vm_compute.
  - done.
Qed.

Lemma IsFullFor_AvailableFor_witness :
  ∃ bs, BufferStateOps.New (sample_cfg "dynamic" 4) = Ok bs ∧
    ∃ a, BufferStateOps.AvailableFor 0 (BufferStateOps.SetMinLatency bs 3) 1 = Ok a ∧
      BufferStateOps.IsFullFor 0 (BufferStateOps.SetMinLatency bs 3) 1 = Ok (a <=? 0).
Proof.
  eexists. split; [reflexivity|].
  destruct (IsFullFor_AvailableFor 0 (BufferStateOps.SetMinLatency _ 3) 1
    (returns_inv _ _ _ sample_inv eq_refl) ltac:(by vm_compute)) as (a & Ha & Hf & _).
  exists a. split; [exact Ha|exact Hf].
Defined.

(** The shifting policy's loop divides the buffer by the number of active
    VCs rounded up to a power of two, so its limit never exceeds the exact
    share the dynamic policy grants and is more than half of it. *)
Theorem shifting_limit b a :
  0 ≤ b → 1 ≤ a →
  ∃ m, ShiftingPolicy.held_slots b a = Ok m ∧ m = b / 2 ^ Z.log2_up a ∧
    m ≤ b `quot` a ∧ b `quot` (2 * a) ≤ m.
Proof.
  intros Hb Ha. eexists. split; [by apply held_slots_eq|]. split; [done|].
  rewrite !quot_div by lia. pose proof (Z.log2_up_nonneg a).
  assert (a ≤ 2 ^ Z.log2_up a ≤ 2 * a) as [Hlo Hhi].
  { destruct (decide (a = 1)) as [->|]; [done|].
    pose proof (Z.log2_up_spec a ltac:(lia)) as [H1 H2]. split; [done|].
    replace (Z.log2_up a) with (Z.succ (Z.pred (Z.log2_up a))) at 1 by lia.
    rewrite Z.pow_succ_r; [lia|].
    pose proof (Z.log2_up_pos a ltac:(lia)). lia. }
  split; apply Z.div_le_compat_l; lia.
Qed.

Lemma shifting_limit_witness : ∃ m, ShiftingPolicy.held_slots 16 3 = Ok m ∧ m = 4.
Proof.
  destruct (shifting_limit 16 3 ltac:(done) ltac:(done)) as (m & Hm & E & _).
  exists m. split; [exact Hm|rewrite E; reflexivity].
Defined.

(** A configured [buf_size] of 0 is read in two ways: the private policy
    falls back to [vc_buf_size] while [BufferState] keeps a total size of 0, so
    a VC that reports free slots makes the first [SendingFlit] exit with
    "Buffer overflow". *)
Theorem zero_buf_size_overflows :
  ∃ bs bs', BufferStateOps.New (sample_cfg "private" 0) = Ok bs ∧
    BufferStateOps.TakeBuffer bs 0 7 = Ok bs' ∧
    BufferStateOps.AvailableFor 0 bs' 0 = Ok 2 ∧
    BufferStateOps.IsFullFor 0 bs' 0 = Ok false ∧
    BufferStateOps.SendingFlit 0 bs' (FlitOps.sample 1 7 0 true false) = Fail ErrorExit.
Proof. do 2 eexists. split_and!; reflexivity. Qed.

(** [TakeBuffer] narrows the packet id to [int]: once the 64-bit packet
    counter passes 2^31 the VC it takes still looks free, so it can be given
    to a second packet. *)
Theorem TakeBuffer_wraps :
  ∃ bs bs', BufferStateOps.New (sample_cfg "private" 4) = Ok bs ∧
    BufferStateOps.TakeBuffer bs 0 2147483648 = Ok bs' ∧
    IsAvailableFor (core bs') 0 = Ok true ∧
    ∃ bs'', BufferStateOps.TakeBuffer bs' 0 2147483649 = Ok bs''.
Proof. do 2 eexists. split_and!; try reflexivity. eexists. reflexivity. Qed.
End Credits.
