(* ===== verification/Link.v ===== *)
(** * One link: credit flow control in closed loop

    A [BufferState] upstream, the flit channel, the input [Buffer] downstream
    and the credit channel, composed the way two routers compose them: the
    sender takes a free VC, sends flits of one packet at a time into it while
    it is not full, the receiver stores them, and removes one flit per VC it
    returns a credit for.  In every reachable state no component reports an
    over- or underflow, and no flit or credit is lost. *)

From S2P Require Import Prelude OutputSet Flit VCBuffer BufferState BufferStateInv Credits.

Module Link.
Import CoreOps Credits.

Record Link : Set := mkLink {
  up : BufferState;
  flits : list Flit;      (* in the flit channel, oldest first *)
  down : Buffer;
  credits : list Credit;  (* in the credit channel, oldest first *)
  sending : list Z        (* per VC, the packet the sender is in the middle of, or -1 *)
}.

Inductive event : Set :=
  | Take (vc tag : Z)
  | Send (now : Z) (f : Flit)
  | Arrive (now : Z)
  | Depart (cr : Credit)
  | Return (now : Z).

Definition remove_all (b : Buffer) (vcs : list Z) : res Buffer :=
  foldl (λ m vc, b ← m; '(_, b) ← BufferOps.RemoveFlit b vc; Ok b) (Ok b) vcs.

Definition step (l : Link) (e : event) : res Link :=
  match e with
  | Take vc tag =>
      bs ← BufferStateOps.TakeBuffer (up l) vc tag;
      Ok (mkLink bs (flits l) (down l) (credits l) (sending l))
  | Send now f =>
      bs ← BufferStateOps.SendingFlit now (up l) f;
      Ok (mkLink bs (flits l ++ [f]) (down l) (credits l)
            ((sending l)⟦f_vc f := if f_tail f then -1 else f_pid f⟧))
  | Arrive now =>
      match flits l with
      | [] => Ok l
      | f :: fs =>
          b ← BufferOps.AddFlit now (down l) (f_vc f) f;
          Ok (mkLink (up l) fs b (credits l) (sending l))
      end
  | Depart cr =>
      b ← remove_all (down l) (c_vc cr);
      Ok (mkLink (up l) (flits l) b (credits l ++ [cr]) (sending l))
  | Return now =>
      match credits l with
      | [] => Ok l
      | cr :: crs =>
          bs ← BufferStateOps.ProcessCredit now (up l) cr;
          Ok (mkLink bs (flits l) (down l) crs (sending l))
      end
  end.

Definition in_range (l : Link) (v : Z) : Prop := 0 ≤ v < vcs (core (up l)).

(** What the routers check before an event. *)
Definition enabled (l : Link) (e : event) : Prop :=
  match e with
  | Take vc tag =>
      in_range l vc ∧ 0 ≤ tag ≤ int_max ∧ IsAvailableFor (core (up l)) vc = Ok true
  | Send now f =>
      in_range l (f_vc f) ∧ 0 ≤ f_pid f ≤ int_max ∧ 0 ≤ f_hops f ∧
      is_open (core (up l)) (f_vc f) = true ∧
      ((sending l)⟦f_vc f⟧ = -1 ∨ (sending l)⟦f_vc f⟧ = f_pid f) ∧
      BufferStateOps.IsFullFor now (up l) (f_vc f) = Ok false
  | Arrive now => 0 ≤ now ≤ int_max
  | Depart cr =>
      credit_wf cr ∧
      Forall (λ v, in_range l v ∧ BufferOps.Empty (down l) v = Ok false) (c_vc cr)
  | Return _ => True
  end.

(** A new link: sender and receiver configured alike. *)
Definition init (cfg : Config) (latency rd : Z) (t : ePrioType) (d : bool) : res Link :=
  bs ← BufferStateOps.New cfg;
  Ok (mkLink (BufferStateOps.SetMinLatency bs latency) []
        (BufferOps.New (cfg_num_vcs cfg) (cfg_buf_size cfg) (cfg_vc_buf_size cfg) rd t d) []
        (replicate (Z.to_nat (cfg_num_vcs cfg)) (-1))).

Inductive reachable (l0 : Link) : Link → Prop :=
  | reach_init : reachable l0 l0
  | reach_step l e l' :
      reachable l0 l → enabled l e → step l e = Ok l' → reachable l0 l'.

(** ** The invariant *)

Definition nflits (v : Z) (fs : list Flit) : Z := cnt v (f_vc <$> fs).
Definition nbuf (v : Z) (b : Buffer) : Z := VCOps.GetOccupancy ((b_vc b)⟦v⟧).
Definition ncredits (v : Z) (cs : list Credit) : Z := zsum ((λ c, cnt v (c_vc c)) <$> cs).

(** The packet a VC is in after the flits in flight have arrived. *)
Fixpoint chain (v e : Z) (fs : list Flit) : option Z :=
  match fs with
  | [] => Some e
  | f :: fs =>
      if decide (f_vc f = v) then e' ← BufferOps.next_pid e f; chain v e' fs else chain v e fs
  end.

Record link_ok (l : Link) : Prop := {
  lk_up : inv (up l);
  lk_down : BufferOps.inv (down l);
  lk_size : b_size (down l) = size (core (up l));
  lk_vcs : zlen (b_vc (down l)) = vcs (core (up l));
  lk_sending : zlen (sending l) = vcs (core (up l));
  lk_flits : Forall (λ f, in_range l (f_vc f) ∧ 0 ≤ f_pid f ≤ int_max ∧ 0 ≤ f_hops f) (flits l);
  lk_credits : Forall (λ c, Forall (in_range l) (c_vc c)) (credits l);
  lk_count : ∀ v, in_range l v →
    occ (core (up l)) v = nflits v (flits l) + nbuf v (down l) + ncredits v (credits l);
  lk_chain : ∀ v, in_range l v →
    -1 ≤ v_expected_pid ((b_vc (down l))⟦v⟧) ∧
    chain v (v_expected_pid ((b_vc (down l))⟦v⟧)) (flits l) = Some ((sending l)⟦v⟧)
}.

Lemma nflits_snoc v fs f : nflits v (fs ++ [f]) = nflits v fs + (if decide (f_vc f = v) then 1 else 0).
Proof. unfold nflits. rewrite fmap_app, cnt_app. simpl. lia. Qed.

Lemma nflits_cons v fs f : nflits v (f :: fs) = (if decide (f_vc f = v) then 1 else 0) + nflits v fs.
Proof. done. Qed.

Lemma nflits_nonneg v fs : 0 ≤ nflits v fs.
Proof. apply cnt_nonneg. Qed.

Lemma ncredits_nonneg v cs : 0 ≤ ncredits v cs.
Proof. apply zsum_nonneg, Forall_fmap, Forall_true. intros c. apply cnt_nonneg. Qed.

Lemma nbuf_nonneg v b : 0 ≤ nbuf v b.
Proof. apply zlen_nonneg. Qed.

Lemma chain_snoc v e fs f :
  chain v e (fs ++ [f]) =
  (e' ← chain v e fs; if decide (f_vc f = v) then BufferOps.next_pid e' f else Some e').
Proof.
  revert e. induction fs as [|g fs IH]; intros e; simpl.
  - case_decide; [|done]. by destruct (BufferOps.next_pid e f).
  - destruct (decide (f_vc g = v)); [|by apply IH]. destruct (BufferOps.next_pid e g); simpl; [by apply IH|done].
Qed.

Lemma next_pid_range e f e' :
  -1 ≤ e → 0 ≤ f_pid f ≤ int_max → BufferOps.next_pid e f = Some e' → -1 ≤ e'.
Proof.
  unfold BufferOps.next_pid. intros He Hp. rewrite to_int_id by (unfold int_min; lia).
  destruct (_ && _); [done|]. destruct (f_tail f), (0 <=? e); intros [= <-]; lia.
Qed.

(** The buffer has room for a flit in flight: its slot is counted upstream. *)
Lemma room_for_arrival l f fs :
  link_ok l → flits l = f :: fs → b_occupancy (down l) < b_size (down l).
Proof.
  intros [[Hc Hp] [Hb _] Hs Hv Hsd Hf Hcr Hcnt Hch] Hfl. rewrite Hs, Hb.
  rewrite Hfl in Hf. apply Forall_cons in Hf as [(Hr & _) _].
  destruct (PolicyInv.PolicyFull_ok _ _ _ _ 0 _ _ (f_vc f) Hp (core_view _ Hc) Hr) as (a & _ & _ & Hroom).
  assert (zsum (BufferOps.fill (b_vc (down l))) = zsumf (λ v, nbuf v (down l)) (vcs (core (up l)))) as ->.
  { rewrite zsum_zsumf, BufferOps.zlen_fill, Hv. apply zsumf_ext. intros v Hr'.
    rewrite BufferOps.fill_nth by lia. done. }
  assert (zsumf (λ v, nbuf v (down l)) (vcs (core (up l))) +
          zsumf (λ v, occ (core (up l)) v - nbuf v (down l)) (vcs (core (up l))) =
          zsumf (occ (core (up l))) (vcs (core (up l)))) as Hsum.
  { rewrite <- zsumf_plus. apply zsumf_ext. intros; lia. }
  assert (1 ≤ zsumf (λ v, occ (core (up l)) v - nbuf v (down l)) (vcs (core (up l)))); [|lia].
  etrans; [|apply (zsumf_ge (λ v, occ (core (up l)) v - nbuf v (down l)) _ (f_vc f) Hr)]; cbv beta.
  - rewrite Hcnt, Hfl, nflits_cons, decide_True by done.
    pose proof (nflits_nonneg (f_vc f) fs). pose proof (ncredits_nonneg (f_vc f) (credits l)). lia.
  - intros w Hw. rewrite Hcnt by done. pose proof (nflits_nonneg w (flits l)). pose proof (ncredits_nonneg w (credits l)). lia.
Qed.

(** Events that change only the sender's side keep the rest. *)
Lemma in_range_eq l l' : vcs (core (up l')) = vcs (core (up l)) → ∀ v, in_range l' v ↔ in_range l v.
Proof. unfold in_range. intros ->. done. Qed.

Lemma step_Take l vc tag :
  link_ok l → enabled l (Take vc tag) → returns (step l (Take vc tag)) link_ok.
Proof.
  intros [Hu Hb Hs Hv Hsd Hf Hcr Hcnt Hch] (Hr & Ht & Ha). simpl.
  pose proof (co_use_len _ (proj1 Hu)) as Hul. unfold in_range in Hr.
  unfold IsAvailableFor in Ha. rewrite valid_vc_true, vget_ok in Ha by lia. injection Ha as Ha.
  destruct (TakeBuffer_safe (up l) vc tag Hu Hr ltac:(lia) Ht) as (bs & -> & Hi & Hc). simpl.
  apply returns_ok. split; simpl; unfold in_range; simpl; rewrite ?Hc; try done.
Qed.

Lemma step_Send l now f :
  link_ok l → enabled l (Send now f) → returns (step l (Send now f)) link_ok.
Proof.
  intros [Hu Hb Hs Hv Hsd Hf Hcr Hcnt Hch] (Hr & Hp & Hh & Ho & Hpid & Hfull). simpl.
  unfold in_range in Hr.
  destruct (SendingFlit_safe now now (up l) f Hu Hr Ho Hfull) as (bs & -> & Hi & Hc). simpl.
  pose proof (sent_touched (core (up l)) f (proj1 Hu) Hr) as Hto.
  pose proof (touched_moved _ _ _ _ (proj1 Hu) Hr Hto) as [_ _ _ Hocc].
  apply returns_ok. split; simpl; unfold in_range; simpl; rewrite ?Hc; simpl; try done; [lens| | |].
  - apply Forall_app_2; [done|]. by apply Forall_singleton.
  - intros v Hv'. rewrite Hocc, nflits_snoc by done. unfold bump. rewrite Hcnt by done.
    repeat case_decide; simplify_eq; lia.
  - intros v Hv'. destruct (Hch v Hv') as [He Hcv]. split; [done|].
    rewrite chain_snoc, Hcv, znth_zupd by (simpl in *; lia). simpl. case_decide as Hd; [|done].
    subst v. unfold BufferOps.next_pid. rewrite to_int_id by (unfold int_min; lia).
    destruct Hpid as [->|E]; [done|].
    rewrite E, Z.eqb_refl, andb_false_r, (proj2 (Z.leb_le _ _) (proj1 Hp)). done.
Qed.

Lemma step_Arrive l now :
  link_ok l → enabled l (Arrive now) → returns (step l (Arrive now)) link_ok.
Proof.
  intros Hl Hnow. pose proof Hl as [Hu Hb Hs Hv Hsd Hf Hcr Hcnt Hch]. simpl in *.
  destruct (flits l) as [|f fs] eqn:Hfl; [by apply returns_ok|].
  pose proof (room_for_arrival l f fs Hl Hfl) as Hroom.
  apply Forall_cons in Hf as [(Hr & Hp & Hh) Hfs]. destruct (Hch _ Hr) as [He Hc].
  simpl in Hc. rewrite decide_True in Hc by done.
  destruct (BufferOps.next_pid _ f) as [e'|] eqn:En; [|done]. simpl in Hc.
  destruct (BufferOps.AddFlit_returns now (down l) (f_vc f) f e') as (b & Hadd & v' & -> & Hv' & Ho);
    [unfold in_range in Hr; lia|done..|].
  pose proof (BufferOps.inv_AddFlit _ _ _ _ _ Hb Hadd) as Hb'. rewrite Hadd. apply returns_ok.
  unfold in_range in Hr.
  split; simpl; try done; [lens| |].
  - intros v Hv0. rewrite Hcnt, nflits_cons by done. unfold nbuf. simpl. unfold in_range in Hv0. simpl in Hv0.
    rewrite znth_zupd by lia. case_decide; [subst; lia|done].
  - intros v Hv0. destruct (Hch v Hv0) as [Hev Hcv]. unfold in_range in Hv0. simpl in Hv0.
    rewrite znth_zupd by lia. simpl in Hcv. destruct (decide (f_vc f = v)) as [<-|Hne]; [|done].
    rewrite Hv'. split; [by eapply next_pid_range|done].
Qed.

Lemma remove_all_ok b vs n :
  BufferOps.inv b → zlen (b_vc b) = n → Forall (λ v, 0 ≤ v < n) vs →
  (∀ v, 0 ≤ v < n → cnt v vs ≤ nbuf v b) →
  returns (remove_all b vs) (λ b', BufferOps.inv b' ∧ zlen (b_vc b') = n ∧ b_size b' = b_size b ∧
    ∀ v, 0 ≤ v < n → nbuf v b' = nbuf v b - cnt v vs ∧
      v_expected_pid ((b_vc b')⟦v⟧) = v_expected_pid ((b_vc b)⟦v⟧)).
Proof.
  intros Hb Hn Hvs Hcnt. unfold remove_all. eapply returns_mono.
  - apply (returns_foldl (λ l b', BufferOps.inv b' ∧ zlen (b_vc b') = n ∧ b_size b' = b_size b ∧
      Forall (λ v, 0 ≤ v < n) l ∧ ∀ v, 0 ≤ v < n → cnt v l ≤ nbuf v b' ∧
        nbuf v b' = nbuf v b - (cnt v vs - cnt v l) ∧
        v_expected_pid ((b_vc b')⟦v⟧) = v_expected_pid ((b_vc b)⟦v⟧))).
    { split_and!; try done. intros v Hv. specialize (Hcnt v Hv). lia. }
    intros x l s (H1 & H2 & H3 & [Hx Hl]%Forall_cons & H4).
    pose proof (H4 x Hx) as [H5 _]. simpl in H5. rewrite decide_True in H5 by done.
    pose proof (cnt_nonneg x l).
    destruct (BufferOps.RemoveFlit_returns s x) as ([g s'] & Hrm & v' & E & He & Ho);
      [lia|unfold nbuf in H5; lia|]. simpl in E. subst s'.
    pose proof (BufferOps.inv_RemoveFlit _ _ _ _ H1 Hrm) as Hb'. rewrite Hrm. apply returns_ok.
    split_and!; try done; [simpl; lens|].
    intros v Hv. specialize (H4 v Hv). simpl in H4. unfold nbuf in *. simpl.
    rewrite znth_zupd by lia. case_decide; [subst v|lia]. rewrite Ho, He. lia.
  - intros b' (? & ? & ? & _ & H4). split_and!; try done.
    intros v Hv. specialize (H4 v Hv). simpl in H4. split; [lia|apply H4].
Qed.

Lemma credit_wf_NoDup cr : credit_wf cr → NoDup (c_vc cr).
Proof.
  unfold credit_wf. induction 1 as [|x l Hs IH Hx]; constructor; [|done].
  intros Hin. rewrite Forall_forall in Hx. specialize (Hx x Hin). lia.
Qed.

Lemma cnt_le_1 v l k : NoDup l → 0 ≤ k → (v ∈ l → 1 ≤ k) → cnt v l ≤ k.
Proof.
  intros Hnd Hk Hin. destruct (decide (v ∈ l)) as [Hv|Hv]; [rewrite cnt_NoDup; auto|].
  clear Hnd Hin. induction l as [|x l IH]; simpl; [done|].
  apply not_elem_of_cons in Hv as [Hne Hv]. rewrite decide_False by done. by apply IH.
Qed.

Lemma step_Depart l cr :
  link_ok l → enabled l (Depart cr) → returns (step l (Depart cr)) link_ok.
Proof.
  intros [Hu Hb Hs Hv Hsd Hf Hcr Hcnt Hch] [Hwf Hne]. simpl.
  assert (Forall (in_range l) (c_vc cr)) as Hr by (eapply Forall_impl; [exact Hne|]; by intros ? []).
  destruct (remove_all_ok (down l) (c_vc cr) _ Hb Hv Hr) as (b & -> & Hb' & Hlen & Hsz & Hn).
  - intros v Hv0. apply cnt_le_1; [by apply credit_wf_NoDup|apply nbuf_nonneg|].
    intros Hin. rewrite Forall_forall in Hne. destruct (Hne v Hin) as [_ He].
    unfold BufferOps.Empty in He. rewrite vget_ok in He by lia. simpl in He.
    unfold VCOps.Empty, nbuf, VCOps.GetOccupancy, zlen in *.
    destruct (v_buffer _); [done|]. simpl. lia.
  - apply returns_ok. split; simpl; try done; [congruence|by apply Forall_app_2; [|apply Forall_singleton]| |].
    + intros v Hv0. destruct (Hn v Hv0) as [-> _]. rewrite Hcnt by done.
      unfold ncredits. rewrite fmap_app, zsum_app. simpl. lia.
    + intros v Hv0. destruct (Hn v Hv0) as [_ ->]. by apply Hch.
Qed.

Lemma step_Return l now : link_ok l → returns (step l (Return now)) link_ok.
Proof.
  intros Hl. pose proof Hl as [Hu Hb Hs Hv Hsd Hf Hcr Hcnt Hch]. simpl.
  destruct (credits l) as [|cr crs] eqn:Ecr; [by apply returns_ok|].
  apply Forall_cons in Hcr as [Hc Hcrs].
  destruct (ProcessCredit_safe now (up l) cr Hu Hc) as (bs & -> & Hi & Hn & Hsz & Ho & _).
  - intros v Hv0. rewrite Hcnt by done. unfold ncredits. rewrite fmap_cons. cbn [zsum].
    pose proof (nflits_nonneg v (flits l)). pose proof (nbuf_nonneg v (down l)).
    pose proof (ncredits_nonneg v crs). unfold ncredits in *. lia.
  - apply returns_ok. split; simpl; unfold in_range; simpl; rewrite ?Hn; try done; [congruence|].
    intros v Hv0. rewrite Ho, Hcnt by done. unfold ncredits. rewrite fmap_cons. cbn [zsum]. lia.
Qed.

Lemma step_ok l e : link_ok l → enabled l e → returns (step l e) link_ok.
Proof.
  destruct e; eauto using step_Take, step_Send, step_Arrive, step_Depart, step_Return.
Qed.

Lemma init_ok cfg latency rd t d :
  even_split cfg → policy_fits cfg → 0 ≤ latency → returns (init cfg latency rd t d) link_ok.
Proof.
  intros Hes Hfits Hlat. pose proof (es_vcs _ Hes) as Hn. pose proof (es_size _ Hes) as Hsz. unfold init.
  destruct (New_safe cfg latency Hes Hfits Hlat) as (bs & -> & Hi & Hv & Hs & Ho). apply returns_ok.
  split; simpl in *; try done.
  - apply BufferOps.inv_New. unfold cfg_size in Hsz. lia.
  - rewrite zlen_replicate; lia.
  - rewrite zlen_replicate; lia.
  - intros v Hr. unfold nbuf, nflits, ncredits, in_range in *. simpl in *. rewrite znth_replicate by lia.
    by destruct (Ho v Hr) as [-> _].
  - intros v Hr. unfold in_range in Hr. simpl in Hr. rewrite !znth_replicate by lia. done.
Qed.

Lemma reachable_ok l0 l : link_ok l0 → reachable l0 l → link_ok l.
Proof.
  intros H0. induction 1 as [|l e l' _ IH He Hs]; [done|]. by eapply returns_inv; [apply step_ok|].
Qed.

(** C7. Credit flow control is lossless.  Starting from a sender and a receiver
    built from the same configuration (any of the seven buffer policies, an even
    split of the VCs), whatever the routers do within their checks, in any order
    and with any delays: every event succeeds -- the sender never reports a
    buffer overflow or a negative occupancy, the receiver always has a free slot
    for an arriving flit and never sees packets mixed in a VC. *)
Theorem link_no_overflow cfg latency rd t d l0 l e :
  even_split cfg → policy_fits cfg → 0 ≤ latency →
  init cfg latency rd t d = Ok l0 → reachable l0 l → enabled l e →
  ∃ l', step l e = Ok l'.
Proof.
  intros Hes Hfits Hlat Hinit Hr He.
  pose proof (returns_inv _ _ _ (init_ok cfg latency rd t d Hes Hfits Hlat) Hinit) as H0.
  destruct (step_ok l e (reachable_ok _ _ H0 Hr) He) as (l' & -> & _). by exists l'.
Qed.

(** C19. No credit is lost or duplicated.  In every reachable state the sender's
    count for a VC is the number of its flits in the flit channel, in the
    receiver's buffer and in returning credits; so once these are empty the
    count is zero, and a VC whose packet has been sent completely is free. *)
Theorem link_credits_conserved cfg latency rd t d l0 l v :
  even_split cfg → policy_fits cfg → 0 ≤ latency →
  init cfg latency rd t d = Ok l0 → reachable l0 l → in_range l v →
  occ (core (up l)) v = nflits v (flits l) + nbuf v (down l) + ncredits v (credits l) ∧
  (occ (core (up l)) v = 0 → is_open (core (up l)) v = false →
   IsAvailableFor (core (up l)) v = Ok true).
Proof.
  intros Hes Hfits Hlat Hinit Hr Hv.
  pose proof (returns_inv _ _ _ (init_ok cfg latency rd t d Hes Hfits Hlat) Hinit) as H0.
  pose proof (reachable_ok _ _ H0 Hr) as [[Hc _] _ _ _ _ _ _ Hcnt _].
  split; [by apply Hcnt|]. intros Hz Ho. pose proof (co_use_len _ Hc). unfold in_range in Hv.
  unfold IsAvailableFor. rewrite valid_vc_true, vget_ok by lia. simpl. f_equal.
  destruct (Z.ltb_spec ((in_use_by (core (up l)))⟦v⟧) 0) as [|Hu]; [done|].
  unfold is_open in Ho. rewrite (proj2 (Z.leb_le _ _) Hu) in Ho. apply negb_false_iff in Ho.
  destruct (co_freed _ Hc v Hv Hu Ho) as [_ Hpos]. lia.
Qed.

(** ** Concrete runs *)

Definition sample_config (policy : string) : Config :=
  mkConfig 2 4 2 policy (-1) ([], 1) ([], -1) ([], -1) (-1) 1 0 1.

Definition sample_link (policy : string) : Link :=
  match init (sample_config policy) 2 1 none false with
  | Ok l => l
  | Fail _ => mkLink (mkBufferState (mkCore false 0 0 [] 0 [] [] [] []) (PrivateBufferPolicy 0)) []
                (mkBuffer 0 0 []) [] []
  end.

(** The state after a list of events, or the initial one. *)
Fixpoint run (l : Link) (es : list event) : Link :=
  match es with [] => l | e :: es => run (match step l e with Ok l' => l' | Fail _ => l end) es end.

Definition sample_events : list event :=
  [Take 0 7; Send 0 (FlitOps.sample 1 7 0 true false); Send 1 (FlitOps.sample 2 7 0 false true); Arrive 2;
   Depart (mkCredit [0])].

Fixpoint guarded (l : Link) (es : list event) : Prop :=
  match es with
  | [] => True
  | e :: es => enabled l e ∧ match step l e with Ok l' => guarded l' es | Fail _ => False end
  end.

Lemma run_reachable l0 l es : reachable l0 l → guarded l es → reachable l0 (run l es).
Proof.
  revert l. induction es as [|e es IH]; intros l Hr Hg; [done|]. simpl in *.
  destruct Hg as [He Hg]. destruct (step l e) as [l'|] eqn:Hs; [|done].
  apply IH; [by eapply reach_step|done].
Qed.

Lemma sample_reachable :
  reachable (sample_link "simplefeedback") (run (sample_link "simplefeedback") sample_events).
Proof.
  apply run_reachable; [constructor|]. vm_compute. split_and!; try done; try (by left); try (by right);
    by repeat constructor.
Qed.

Lemma sample_even p : even_split (sample_config p).
Proof. by split; vm_compute. Qed.

Lemma link_no_overflow_witness :
  ∃ l', step (run (sample_link "simplefeedback") sample_events) (Return 4) = Ok l'.
Proof.
  refine (link_no_overflow (sample_config "simplefeedback") 2 1 none false _ _ (Return 4)
    (sample_even _) _ _ eq_refl sample_reachable I); [|done].
  do 6 right. done.
Defined.

Lemma link_credits_conserved_witness :
  let l := run (sample_link "simplefeedback") sample_events in
  occ (core (up l)) 0 = 2 ∧
  occ (core (up l)) 0 = nflits 0 (flits l) + nbuf 0 (down l) + ncredits 0 (credits l).
Proof.
  split; [reflexivity|].
  refine (proj1 (link_credits_conserved (sample_config "simplefeedback") 2 1 none false _ _ 0
    (sample_even _) _ _ eq_refl sample_reachable _)); [do 6 right; done|done|by vm_compute].
Defined.

End Link.
