(* ===== verification/Channel.v ===== *)
(** * Channels and pipelines

    [Channel] (channel.hpp) and [FlitChannel] (flitchannel.cpp) are delay lines:
    what is sent in a cycle is received [delay] cycles later, in order, and no
    assertion fails as long as the simulation time fits an [int].
    [PipelineFIFO] (pipefifo.hpp) is a ring of [depth + 1] registers per lane. *)

From S2P Require Import Prelude Flit.

(** A null pointer is [None]. *)
Record Channel (T : Type) : Type := mkChannel {
  ch_delay : Z;
  ch_input : option T;
  ch_output : option T;
  ch_wait_queue : list (Z * T)
}.
Arguments mkChannel {T} _ _ _ _.
Arguments ch_delay {T} _.
Arguments ch_input {T} _.
Arguments ch_output {T} _.
Arguments ch_wait_queue {T} _.

Module ChannelOps.
Section ops.
Context {T : Type}.
Implicit Types c : Channel T.

Definition New : Channel T := mkChannel 1 None None [].

Definition SetLatency c (cycles : Z) : res (Channel T) :=
  if cycles <=? 0 then Fail ErrorExit
  else Ok (mkChannel cycles (ch_input c) (ch_output c) (ch_wait_queue c)).

Definition Send c (data : option T) : Channel T :=
  mkChannel (ch_delay c) data (ch_output c) (ch_wait_queue c).

Definition Receive c : option T := ch_output c.

(** The delivery time is stored in an [int]; [now] is [GetSimTime()], a
    [long long]. *)
Definition ReadInputs c (now : Z) : Channel T :=
  match ch_input c with
  | Some x => mkChannel (ch_delay c) None (ch_output c) (ch_wait_queue c ++ [(to_int (now + ch_delay c - 1), x)])
  | None => c
  end.

Definition WriteOutputs c (now : Z) : res (Channel T) :=
  match ch_wait_queue c with
  | [] => Ok (mkChannel (ch_delay c) (ch_input c) None [])
  | (time, x) :: q =>
      if now <? time then Ok (mkChannel (ch_delay c) (ch_input c) None (ch_wait_queue c))
      else assert! (now =? time); Ok (mkChannel (ch_delay c) (ch_input c) (Some x) q)
  end.

(** A cycle of the network as the channel sees it: [ReadInputs], [WriteOutputs],
    and the sender's [Send] in its own [WriteOutputs]; the result is what the
    receiver reads in the next cycle. *)
Definition cycle c (now : Z) (x : option T) : res (Channel T * option T) :=
  let c := ReadInputs c now in
  c ← WriteOutputs c now;
  Ok (Send c x, Receive c).

Fixpoint cycles c (now : Z) (xs : list (option T)) : res (list (option T)) :=
  match xs with
  | [] => Ok []
  | x :: xs => '(c, y) ← cycle c now x; ys ← cycles c (now + 1) xs; Ok (y :: ys)
  end.
End ops.
End ChannelOps.

Record FlitChannel : Type := mkFlitChannel {
  fc_channel : Channel Flit;
  fc_active : list Z;
  fc_idle : Z
}.

Module FlitChannelOps.

Definition New (classes : Z) : FlitChannel := mkFlitChannel ChannelOps.New (replicate (Z.to_nat classes) 0) 0.

Definition Send (c : FlitChannel) (f : option Flit) : res FlitChannel :=
  match f with
  | Some f' =>
      a ← vget (fc_active c) (f_cl f');
      active ← vset (fc_active c) (f_cl f') (a + 1);
      Ok (mkFlitChannel (ChannelOps.Send (fc_channel c) f) active (fc_idle c))
  | None => Ok (mkFlitChannel (ChannelOps.Send (fc_channel c) f) (fc_active c) (fc_idle c + 1))
  end.

Definition ReadInputs (c : FlitChannel) (now : Z) : FlitChannel :=
  mkFlitChannel (ChannelOps.ReadInputs (fc_channel c) now) (fc_active c) (fc_idle c).

Definition WriteOutputs (c : FlitChannel) (now : Z) : res FlitChannel :=
  ch ← ChannelOps.WriteOutputs (fc_channel c) now;
  Ok (mkFlitChannel ch (fc_active c) (fc_idle c)).

Definition cycle (c : FlitChannel) (now : Z) (x : option Flit) : res (FlitChannel * option Flit) :=
  let c := ReadInputs c now in
  c ← WriteOutputs c now;
  c' ← Send c x;
  Ok (c', ChannelOps.Receive (fc_channel c)).

Fixpoint cycles (c : FlitChannel) (now : Z) (xs : list (option Flit)) : res (FlitChannel * list (option Flit)) :=
  match xs with
  | [] => Ok (c, [])
  | x :: xs => '(c, y) ← cycle c now x; '(c, ys) ← cycles c (now + 1) xs; Ok (c, y :: ys)
  end.

End FlitChannelOps.

Record PipelineFIFO (T : Type) : Type := mkPipe {
  pf_lanes : Z;
  pf_pipe_len : Z;
  pf_pipe_ptr : Z;
  pf_data : list (list (option T))
}.
Arguments mkPipe {T} _ _ _ _.
Arguments pf_lanes {T} _.
Arguments pf_pipe_len {T} _.
Arguments pf_pipe_ptr {T} _.
Arguments pf_data {T} _.

Module PipeOps.
Section ops.
Context {T : Type}.
Implicit Types p : PipelineFIFO T.

Definition New (lanes depth : Z) : PipelineFIFO T :=
  mkPipe lanes (depth + 1) 0 (replicate (Z.to_nat lanes) (replicate (Z.to_nat (depth + 1)) None)).

Definition Write p (val : option T) (lane : Z) : res (PipelineFIFO T) :=
  row ← vget (pf_data p) lane;
  row ← vset row (pf_pipe_ptr p) val;
  data ← vset (pf_data p) lane row;
  Ok (mkPipe (pf_lanes p) (pf_pipe_len p) (pf_pipe_ptr p) data).

Definition WriteAll p (val : option T) : res (PipelineFIFO T) :=
  zfor 0 (pf_lanes p) (λ l p, Write p val l) p.

Definition Read p (lane : Z) : res (option T) :=
  row ← vget (pf_data p) lane; vget row (pf_pipe_ptr p).

Definition Advance p : PipelineFIFO T :=
  mkPipe (pf_lanes p) (pf_pipe_len p) ((pf_pipe_ptr p + 1) `rem` pf_pipe_len p) (pf_data p).
End ops.
End PipeOps.

(** ** The delay line *)

Module ChannelInv.
Import ChannelOps.

Section delay.
Context {T : Type}.
Implicit Types (c : Channel T) (line : list (option T)).

(** The queue entries of a list of sends, the first of which is due at [t]. *)
Fixpoint entries (t : Z) line : list (Z * T) :=
  match line with
  | [] => []
  | None :: line => entries (t + 1) line
  | Some x :: line => (t, x) :: entries (t + 1) line
  end.

Lemma entries_app t l1 l2 : entries t (l1 ++ l2) = entries t l1 ++ entries (t + zlen l1) l2.
Proof.
  revert t. induction l1 as [|[x|] l1 IH]; intros t; simpl; [f_equal; unfold zlen; simpl; lia| |].
  - f_equal. rewrite IH. f_equal. f_equal. unfold zlen. simpl. lia.
  - rewrite IH. do 2 f_equal. unfold zlen. simpl. lia.
Qed.

Lemma entries_later t line time x q : entries t line = (time, x) :: q → t ≤ time.
Proof.
  revert t. induction line as [|[y|] line IH]; intros t; simpl; [done| |].
  - intros [= -> _ _]. lia.
  - intros H. apply IH in H. lia.
Qed.

(** Before the cycle [now], [line] is what was sent in the last [delay] cycles. *)
Definition carries (now : Z) c line : Prop :=
  ∃ init, line = init ++ [ch_input c] ∧ ch_wait_queue c = entries now init ∧ zlen line = ch_delay c.

Lemma carries_cycle now c line x :
  carries now c line → 0 < ch_delay c → int_min ≤ now → now + ch_delay c ≤ int_max →
  ∃ c' y rest, cycle c now x = Ok (c', y) ∧ line = y :: rest ∧ carries (now + 1) c' (rest ++ [x]) ∧
    ch_delay c' = ch_delay c.
Proof.
  intros (init & -> & Hq & Hl) Hd Hmin Hmax. unfold cycle.
  assert (ch_wait_queue (ReadInputs c now) = entries now (init ++ [ch_input c]) ∧ ch_delay (ReadInputs c now) = ch_delay c)
    as [Hq' Hd'].
  { unfold ReadInputs. unfold zlen in Hl. rewrite length_app in Hl. simpl in Hl. rewrite entries_app.
    destruct (ch_input c) as [i|]; simpl; rewrite Hq; [|by rewrite app_nil_r]. rewrite to_int_id by lia.
    split; [|done]. repeat f_equal. unfold zlen. lia. }
  destruct (init ++ [ch_input c]) as [|y rest] eqn:Eline; [by apply app_nil in Eline as [_ ?]|].
  assert (zlen (rest ++ [x]) = ch_delay c) as Hl' by (rewrite <- Hl; unfold zlen; rewrite length_app; simpl; lia).
  set (c1 := ReadInputs c now) in *. unfold WriteOutputs. rewrite Hq'. destruct y as [y|]; simpl.
  - destruct (Z.ltb_spec now now); [lia|]. rewrite Z.eqb_refl. cbn [cassert mbind res_bind].
    eexists _, (Some y), rest. split; [done|]. split; [done|]. split; [|exact Hd']. exists rest. split_and!; try done. simpl. congruence.
  - destruct (entries (now + 1) rest) as [|[time z] q] eqn:Eq; cbn [mbind res_bind].
    + eexists _, None, rest. split; [done|]. split; [done|]. split; [|exact Hd']. exists rest. split_and!; try done. simpl. congruence.
    + pose proof (entries_later _ _ _ _ _ Eq). destruct (Z.ltb_spec now time); [|lia]. cbn [mbind res_bind].
      eexists _, None, rest. split; [done|]. split; [done|]. split; [|exact Hd']. exists rest. simpl. split_and!; try done; congruence.
Qed.

Lemma cycles_line xs : ∀ now c line,
  carries now c line → 0 < ch_delay c → int_min ≤ now → now + zlen xs + ch_delay c ≤ int_max →
  cycles c now xs = Ok (take (length xs) (line ++ xs)).
Proof.
  induction xs as [|x xs IH]; intros now c line Hc Hd Hmin Hmax; [done|]. simpl.
  unfold zlen in Hmax. simpl in Hmax.
  destruct (carries_cycle now c line x Hc Hd Hmin ltac:(lia)) as (c' & y & rest & -> & -> & Hc' & Hd').
  cbn [mbind res_bind]. rewrite (IH (now + 1) c' (rest ++ [x])) by (done || rewrite ?Hd'; unfold zlen; lia).
  cbn [mbind res_bind]. by rewrite <- app_assoc.
Qed.

Lemma entries_idle t n : entries t (replicate n None) = [].
Proof. revert t. induction n as [|n IH]; intros t; [done|]. simpl. apply IH. Qed.

Lemma carries_New now delay : 0 < delay →
  carries now (mkChannel delay None None []) (replicate (Z.to_nat delay) None).
Proof.
  intros Hd. exists (replicate (Z.to_nat (delay - 1)) None). simpl.
  split_and!; [|by rewrite entries_idle|by apply zlen_replicate; lia].
  replace (Z.to_nat delay) with (S (Z.to_nat (delay - 1))) by lia. by rewrite replicate_S_end.
Qed.

(** C39. A channel with latency [delay] delivers in every cycle what was sent
    [delay] cycles before, whatever is sent, and its assertions never fail while
    the times fit an [int]. *)
Theorem channel_delay delay now (xs : list (option T)) :
  0 < delay → int_min ≤ now → now + zlen xs + delay ≤ int_max →
  (c ← SetLatency New delay; cycles c now xs) =
  Ok (take (length xs) (replicate (Z.to_nat delay) None ++ xs)).
Proof.
  intros Hd Hmin Hmax. unfold SetLatency. destruct (Z.leb_spec delay 0); [lia|]. cbn [mbind res_bind].
  apply cycles_line; try done. by apply carries_New.
Qed.
End delay.

Lemma channel_delay_witness :
  (c ← SetLatency New 2; cycles c 7 [Some 1; None; Some 3; Some 4]) = Ok [None; None; Some 1; None].
Proof. apply (channel_delay 2 7 [Some 1; None; Some 3; Some 4]); unfold int_min, int_max, zlen; simpl; lia. Defined.

(** The delivery time is an [int]: at simulation time 2^31 the assertion fails. *)
Example channel_time_wraps : cycles New int_max [Some 1; None] = Fail AssertFailed.
Proof. reflexivity. Qed.
End ChannelInv.

Module FlitChannelInv.
Import FlitChannelOps.

(** The number of flits of class [cl] and of idle cycles in a list of sends. *)
Definition sent (cl : Z) (xs : list (option Flit)) : Z :=
  zsum ((λ x : option Flit, match x with Some f => if f_cl f =? cl then 1 else 0 | None => 0 end) <$> xs).
Definition idle (xs : list (option Flit)) : Z :=
  zsum ((λ x : option Flit, match x with Some _ => 0 | None => 1 end) <$> xs).

Definition in_class (classes : Z) (x : option Flit) : Prop :=
  match x with Some f => 0 ≤ f_cl f < classes | None => True end.

Lemma sent_cons cl x xs : sent cl (x :: xs) = sent cl [x] + sent cl xs.
Proof. unfold sent. rewrite !fmap_cons. cbn [zsum]. simpl. lia. Qed.

Lemma idle_cons x xs : idle (x :: xs) = idle [x] + idle xs.
Proof. unfold idle. rewrite !fmap_cons. cbn [zsum]. simpl. lia. Qed.

Lemma flit_cycles_ok classes xs : ∀ now c line,
  zlen (fc_active c) = classes → ChannelInv.carries now (fc_channel c) line → 0 < ch_delay (fc_channel c) →
  int_min ≤ now → now + zlen xs + ch_delay (fc_channel c) ≤ int_max → Forall (in_class classes) xs →
  returns (cycles c now xs) (λ r, r.2 = take (length xs) (line ++ xs) ∧
    (∀ cl, 0 ≤ cl < classes → (fc_active r.1)⟦cl⟧ = (fc_active c)⟦cl⟧ + sent cl xs) ∧
    fc_idle r.1 = fc_idle c + idle xs).
Proof.
  induction xs as [|x xs IH]; intros now c line Hl Hc Hd Hmin Hmax Hcl; simpl.
  { apply returns_ok. split_and!; [done|intros; simpl; unfold sent; simpl; lia|simpl; unfold idle; simpl; lia]. }
  unfold zlen in Hmax. simpl in Hmax. apply Forall_cons in Hcl as [Hx Hcl].
  destruct (ChannelInv.carries_cycle now (fc_channel c) line x Hc Hd Hmin ltac:(lia))
    as (ch & y & rest & Ecyc & -> & Hc' & Hd').
  unfold ChannelOps.cycle in Ecyc. unfold cycle, WriteOutputs. simpl.
  apply bind_ok_inv in Ecyc as (ch1 & -> & [= <- <-]). cbn [mbind res_bind].
  assert (∃ act id, Send (mkFlitChannel ch1 (fc_active c) (fc_idle c)) x =
      Ok (mkFlitChannel (ChannelOps.Send ch1 x) act id) ∧ zlen act = classes ∧
      (∀ cl, 0 ≤ cl < classes → act⟦cl⟧ = (fc_active c)⟦cl⟧ + sent cl [x]) ∧ id = fc_idle c + idle [x]) as Hsend.
  { unfold sent, idle. destruct x as [f|]; simpl in *.
    - rewrite vget_ok by lia. cbn [mbind res_bind]. rewrite vset_ok by lia. cbn [mbind res_bind]. eexists _, _. split; [done|].
      split_and!; [lens| |lia]. intros cl Hc1. rewrite znth_zupd by lia.
      destruct (Z.eqb_spec (f_cl f) cl); case_decide; subst; lia || done.
    - eexists _, _. split; [done|]. split_and!; [done|intros; lia|lia]. }
  destruct Hsend as (act & id & -> & Hla & Hact & Hid). cbn [mbind res_bind]. simpl.
  destruct (IH (now + 1) (mkFlitChannel (ChannelOps.Send ch1 x) act id) (rest ++ [x]) Hla Hc')
    as ([c2 ys] & -> & Hys & Hact2 & Hid2); try done; simpl in *; try (rewrite Hd'); unfold zlen; try lia.
  apply returns_ok. simpl in *. split_and!.
  - by rewrite Hys, <- app_assoc.
  - intros cl Hc1. rewrite Hact2, Hact, (sent_cons cl x xs) by done. lia.
  - rewrite Hid2, Hid, (idle_cons x xs). lia.
Qed.

(** C40. A flit channel is the delay line of its base class, and its activity
    counters count exactly the flits sent of each class and the idle cycles. *)
Theorem flit_channel_cycles classes delay now xs :
  0 ≤ classes → 0 < delay → int_min ≤ now → now + zlen xs + delay ≤ int_max → Forall (in_class classes) xs →
  returns (ch ← ChannelOps.SetLatency (fc_channel (New classes)) delay;
           cycles (mkFlitChannel ch (fc_active (New classes)) (fc_idle (New classes))) now xs) (λ r,
    r.2 = take (length xs) (replicate (Z.to_nat delay) None ++ xs) ∧
    (∀ cl, 0 ≤ cl < classes → (fc_active r.1)⟦cl⟧ = sent cl xs) ∧ fc_idle r.1 = idle xs).
Proof.
  intros Hcl Hd Hmin Hmax Hxs. unfold ChannelOps.SetLatency. destruct (Z.leb_spec delay 0); [lia|].
  cbn [mbind res_bind]. eapply returns_mono; [apply (flit_cycles_ok classes xs now _ (replicate (Z.to_nat delay) None)); try done|].
  - by apply zlen_replicate.
  - by apply ChannelInv.carries_New.
  - intros r (H1 & H2 & H3). simpl in *. split_and!; try done. intros cl Hc1. rewrite H2 by done.
    rewrite znth_replicate by done. lia.
Qed.

(** One flit in five cycles arrives after three. *)
Lemma flit_channel_cycles_witness :
  let xs := [Some (FlitOps.sample 0 0 0 true true); None; None; None; None] in
  returns (ch ← ChannelOps.SetLatency (fc_channel (New 1)) 3;
           cycles (mkFlitChannel ch (fc_active (New 1)) (fc_idle (New 1))) 0 xs) (λ r,
    r.2 = [None; None; None; Some (FlitOps.sample 0 0 0 true true); None] ∧ (∀ cl, 0 ≤ cl < 1 → (fc_active r.1)⟦cl⟧ = sent cl xs) ∧ fc_idle r.1 = 4).
Proof.
  intros xs. apply (flit_channel_cycles 1 3 0 xs); unfold int_min, int_max, zlen; simpl; try lia. by repeat constructor.
Defined.
End FlitChannelInv.

(** ** The register ring *)

Module PipeInv.
Import PipeOps.

Section ring.
Context {T : Type}.
Implicit Types p : PipelineFIFO T.

(** A lane used once a cycle: read, write, advance. *)
Definition lane_cycle p (lane : Z) (x : option T) : res (PipelineFIFO T * option T) :=
  y ← Read p lane; p ← Write p x lane; Ok (Advance p, y).

Fixpoint lane_cycles p (lane : Z) (xs : list (option T)) : res (PipelineFIFO T * list (option T)) :=
  match xs with
  | [] => Ok (p, [])
  | x :: xs => '(p, y) ← lane_cycle p lane x; '(p, ys) ← lane_cycles p lane xs; Ok (p, y :: ys)
  end.

(** The registers of a lane, from the pointer on. *)
Definition ring p (lane : Z) (line : list (option T)) : Prop :=
  zlen line = pf_pipe_len p ∧ zlen ((pf_data p)⟦lane⟧) = pf_pipe_len p ∧ 0 ≤ pf_pipe_ptr p < pf_pipe_len p ∧
  0 ≤ lane < zlen (pf_data p) ∧
  ∀ i, 0 ≤ i < pf_pipe_len p → line⟦i⟧ = (pf_data p)⟦lane⟧⟦(pf_pipe_ptr p + i) mod pf_pipe_len p⟧.

Lemma ring_cycle p lane y rest x :
  ring p lane (y :: rest) →
  ∃ p', lane_cycle p lane x = Ok (p', y) ∧ ring p' lane (rest ++ [x]) ∧
    (∀ l line, l ≠ lane → ring p l line → (pf_data p')⟦l⟧ = (pf_data p)⟦l⟧).
Proof.
  intros (H1 & H2 & H3 & H4 & H5). unfold lane_cycle, Read, Write. set (L := pf_pipe_len p) in *.
  rewrite vget_ok by done. cbn [mbind res_bind]. rewrite vget_ok by lia. cbn [mbind res_bind].
  rewrite vset_ok by lia. cbn [mbind res_bind]. rewrite vset_ok by done. cbn [mbind res_bind].
  eexists. split.
  { do 2 f_equal. specialize (H5 0 ltac:(lia)). rewrite Z.add_0_r, Z.mod_small in H5 by lia. by rewrite <- H5. }
  split.
  - unfold ring. simpl. fold L. split_and!.
    + unfold zlen in *. rewrite length_app. simpl in *. lia.
    + rewrite znth_zupd_eq by done. by rewrite zlen_zupd.
    + apply Z.rem_nonneg; lia.
    + apply Z.rem_bound_pos; lia.
    + lia.
    + rewrite zlen_zupd. lia.
    + intros i Hi. rewrite znth_zupd_eq by done. rewrite rem_mod, Z.add_mod_idemp_l by lia.
      rewrite znth_zupd by (try (apply Z.mod_pos_bound); lia). unfold zlen in H1. simpl in H1.
      destruct (decide (i = L - 1)) as [->|Hne].
      * replace (pf_pipe_ptr p + 1 + (L - 1)) with (pf_pipe_ptr p + 1 * L) by lia. rewrite Z.mod_add, Z.mod_small by lia.
        rewrite decide_True by done. unfold znth. rewrite lookup_total_app_r by lia.
        by replace (Z.to_nat (L - 1) - length rest)%nat with O by lia.
      * specialize (H5 (i + 1) ltac:(lia)). replace (pf_pipe_ptr p + (i + 1)) with (pf_pipe_ptr p + 1 + i) in H5 by lia.
        rewrite decide_False.
        -- rewrite <- H5. unfold znth. rewrite lookup_total_app_l by lia.
           by replace (Z.to_nat (i + 1)) with (S (Z.to_nat i)) by lia.
        -- intros E. pose proof (Z.div_mod (pf_pipe_ptr p + 1 + i) L ltac:(lia)) as Hdm. rewrite <- E in Hdm.
           set (q := (pf_pipe_ptr p + 1 + i) / L) in *. assert (L * q = 1 + i) as Hq by lia.
           assert (q < 1) by nia. assert (0 < q) by nia. lia.
  - intros l line Hl (_ & _ & _ & Hlr & _). simpl. rewrite znth_zupd_ne; [done|lia|lia|done].
Qed.

Lemma ring_cycles lane xs : ∀ p line, ring p lane line →
  returns (lane_cycles p lane xs) (λ r, r.2 = take (length xs) (line ++ xs)).
Proof.
  induction xs as [|x xs IH]; intros p line Hr; simpl; [by apply returns_ok|].
  destruct line as [|y rest]; [destruct Hr as (H1 & _ & H3 & _); unfold zlen in H1; simpl in H1; lia|].
  destruct (ring_cycle p lane y rest x Hr) as (p' & -> & Hr' & _). cbn [mbind res_bind].
  destruct (IH p' _ Hr') as ([p2 ys] & -> & Hys). apply returns_ok. simpl in *. by rewrite Hys, <- app_assoc.
Qed.

(** A pipeline lane that is read and then written once a cycle returns what
    was written [depth + 1] cycles before, and null before that. *)
Theorem pipeline_delay lanes depth lane (xs : list (option T)) :
  0 ≤ lane < lanes → 0 ≤ depth →
  returns (lane_cycles (New lanes depth) lane xs) (λ r,
    r.2 = take (length xs) (replicate (Z.to_nat (depth + 1)) None ++ xs)).
Proof.
  intros Hl Hd. apply ring_cycles. unfold ring, New. simpl.
  split_and!; rewrite ?znth_replicate, ?zlen_replicate by lia; try lia.
  intros i Hi. rewrite !znth_replicate; try done; try lia. apply Z.mod_pos_bound. lia.
Qed.
End ring.

Lemma pipeline_delay_witness :
  returns (lane_cycles (New 2 1) 1 [Some 1; Some 2; None; Some 4]) (λ r, r.2 = [None; None; Some 1; Some 2]).
Proof. apply (pipeline_delay 2 1 1 [Some 1; Some 2; None; Some 4]); lia. Defined.
End PipeInv.
