(* ===== verification/Arbiter.v ===== *)
(** * Arbiters

    Definitions of the arbiters of arbiters/: the base class (arbiter.cpp), the
    round-robin, matrix and tree arbiters, the factory, and the list-based
    [PriorityArbiter].

    The virtual methods are the class [Arbiter]; a tree arbiter is an instance
    for any instance its groups use, as [TreeArbiter] builds its groups with
    [NewArbiter].  What a client may rely on is the class [ArbiterLaws] of
    ArbiterProofs.v. *)

From S2P Require Import Prelude.

(** ** The base class *)

Record entry_t : Set := mkEntry { e_valid : bool; e_id : Z; e_pri : Z }.

#[export] Instance entry_inhabited : Inhabited entry_t := populate (mkEntry false 0 0).

Record Base : Set := mkBase {
  a_request : list entry_t;
  a_size : Z;
  a_selected : Z;
  a_highest_pri : Z;
  a_best_input : Z;
  a_num_reqs : Z
}.

(** What [Arbitrate] returns: the winner, and the [*id], [*pri] it stores. *)
Abbreviation grant := (Z * option (Z * Z))%type.

Module BaseOps.

Definition New (size : Z) : res Base :=
  if size <? 0 then Fail OutOfRange
  else Ok (mkBase (replicate (Z.to_nat size) (mkEntry false 0 0)) size (-1) int_min (-1) 0).

Definition set_request (r : list entry_t) (n : Z) (b : Base) : Base :=
  mkBase r (a_size b) (a_selected b) (a_highest_pri b) (a_best_input b) n.
Definition set_selected (s : Z) (b : Base) : Base :=
  mkBase (a_request b) (a_size b) s (a_highest_pri b) (a_best_input b) (a_num_reqs b).
Definition set_best (p i : Z) (b : Base) : Base :=
  mkBase (a_request b) (a_size b) (a_selected b) p i (a_num_reqs b).

Definition AddRequest (b : Base) (input id pri : Z) : res Base :=
  assert! ((0 <=? input) && (input <? a_size b));
  e ← vget (a_request b) input;
  assert! negb (e_valid e);
  r ← vset (a_request b) input (mkEntry true id pri);
  Ok (set_request r (a_num_reqs b + 1) b).

Definition Arbitrate (b : Base) : res grant :=
  out ← (if negb (a_selected b =? -1)
         then e ← vget (a_request b) (a_selected b); Ok (Some (e_id e, e_pri e))
         else Ok None);
  assert! ((0 <=? a_selected b) || (a_num_reqs b =? 0));
  Ok (a_selected b, out).

Definition invalidate (e : entry_t) : entry_t := mkEntry false (e_id e) (e_pri e).

Definition Clear (b : Base) : Base :=
  if 0 <? a_num_reqs b
  then set_selected (-1) (set_request (invalidate <$> a_request b) 0 b)
  else b.

End BaseOps.

(** ** The virtual methods *)

Class Arbiter (A : Set) := {
  AddRequest : A → Z → Z → Z → res A;
  Arbitrate : A → res (A * grant);
  UpdateState : A → res A;
  Clear : A → A;
  LastWinner : A → Z;
  NumReqs : A → Z
}.

(** ** Round robin *)

Record RoundRobin : Set := mkRR { rr_base : Base; rr_pointer : Z }.

Module RoundRobinOps.

Definition New (size : Z) : res RoundRobin := b ← BaseOps.New size; Ok (mkRR b 0).

(** Does a request at [input1] come before one at [input2]? *)
Definition Supersedes (input1 pri1 input2 pri2 offset size : Z) : bool :=
  (pri2 <? pri1) ||
  ((pri1 =? pri2) &&
   ((input1 - offset + size) `rem` size <? (input2 - offset + size) `rem` size)).

Definition AddRequest (a : RoundRobin) (input id pri : Z) : res RoundRobin :=
  let b := rr_base a in
  e ← vget (a_request b) input;
  let b1 :=
    if (negb (e_valid e) || (e_pri e <? pri)) &&
       ((a_num_reqs b =? 0) ||
        Supersedes input pri (a_best_input b) (a_highest_pri b) (rr_pointer a) (a_size b))
    then BaseOps.set_best pri input b else b in
  b2 ← BaseOps.AddRequest b1 input id pri;
  Ok (mkRR b2 (rr_pointer a)).

Definition Arbitrate (a : RoundRobin) : res (RoundRobin * grant) :=
  let b := BaseOps.set_selected (a_best_input (rr_base a)) (rr_base a) in
  g ← BaseOps.Arbitrate b;
  Ok (mkRR b (rr_pointer a), g).

Definition UpdateState (a : RoundRobin) : res RoundRobin :=
  let b := rr_base a in
  if -1 <? a_selected b
  then Ok (mkRR b ((a_selected b + 1) `rem` a_size b))
  else Ok a.

Definition Clear (a : RoundRobin) : RoundRobin :=
  mkRR (BaseOps.Clear (BaseOps.set_best int_min (-1) (rr_base a))) (rr_pointer a).

End RoundRobinOps.

#[export] Instance RoundRobin_Arbiter : Arbiter RoundRobin := {
  AddRequest := RoundRobinOps.AddRequest;
  Arbitrate := RoundRobinOps.Arbitrate;
  UpdateState := RoundRobinOps.UpdateState;
  Clear := RoundRobinOps.Clear;
  LastWinner a := a_selected (rr_base a);
  NumReqs a := a_num_reqs (rr_base a)
}.

(** ** Matrix *)

Record Matrix : Set := mkMatrix { m_base : Base; m_matrix : list (list Z); m_last_req : Z }.

Module MatrixOps.

Definition New (size : Z) : res Matrix :=
  b ← BaseOps.New size;
  Ok (mkMatrix b
        ((λ i, (λ j, if j <? i then 1 else 0) <$> seqZ 0 size) <$> seqZ 0 size) (-1)).

(** [_matrix[i][j] = x]. *)
Definition set2 (m : list (list Z)) (i j x : Z) : res (list (list Z)) :=
  row ← vget m i;
  row ← vset row j x;
  vset m i row.

Definition UpdateState (a : Matrix) : res Matrix :=
  let s := a_selected (m_base a) in
  if -1 <? s then
    m ← zfor 0 (a_size (m_base a)) (λ i m,
          if negb (s =? i) then
            m ← set2 m s i 0;
            set2 m i s 1
          else Ok m) (m_matrix a);
    Ok (mkMatrix (m_base a) m (m_last_req a))
  else Ok a.

Definition AddRequest (a : Matrix) (input id pri : Z) : res Matrix :=
  b ← BaseOps.AddRequest (m_base a) input id pri;
  Ok (mkMatrix b (m_matrix a) input).

(** Does the request at [i] block the one at [input]? *)
Definition blocks (a : Matrix) (input i : Z) : res bool :=
  ei ← vget (a_request (m_base a)) i;
  if e_valid ei then
    e ← vget (a_request (m_base a)) input;
    row ← vget (m_matrix a) i;
    x ← vget row input;
    Ok (((e_pri ei =? e_pri e) && negb (x =? 0)) || (e_pri e <? e_pri ei))
  else Ok false.

Definition granted (a : Matrix) (input : Z) : res bool :=
  c ← zforb 0 (a_size (m_base a)) (λ i g,
        b ← blocks a input i;
        Ok (if (b : bool) then Break false else Next g)) true;
  Ok (ctl_val c).

Definition select (a : Matrix) : res Z :=
  c ← zforb 0 (a_size (m_base a)) (λ input s,
        e ← vget (a_request (m_base a)) input;
        if e_valid e then
          g ← granted a input;
          Ok (if (g : bool) then Break input else Next s)
        else Ok (Next s)) (-1);
  Ok (ctl_val c).

Definition Arbitrate (a : Matrix) : res (Matrix * grant) :=
  s ← (if a_num_reqs (m_base a) <? 2 then Ok (m_last_req a) else select a);
  let b := BaseOps.set_selected s (m_base a) in
  g ← BaseOps.Arbitrate b;
  Ok (mkMatrix b (m_matrix a) (m_last_req a), g).

Definition Clear (a : Matrix) : Matrix :=
  mkMatrix (BaseOps.Clear (m_base a)) (m_matrix a) (-1).

End MatrixOps.

#[export] Instance Matrix_Arbiter : Arbiter Matrix := {
  AddRequest := MatrixOps.AddRequest;
  Arbitrate := MatrixOps.Arbitrate;
  UpdateState := MatrixOps.UpdateState;
  Clear := MatrixOps.Clear;
  LastWinner a := a_selected (m_base a);
  NumReqs a := a_num_reqs (m_base a)
}.

(** ** Tree *)

Record Tree (A : Set) : Set := mkTree {
  t_base : Base;
  t_group_size : Z;
  t_group_arbiters : list A;
  t_global_arbiter : A;
  t_group_reqs : list Z
}.
Arguments mkTree {A} _ _ _ _ _.
Arguments t_base {A} _.
Arguments t_group_size {A} _.
Arguments t_group_arbiters {A} _.
Arguments t_global_arbiter {A} _.
Arguments t_group_reqs {A} _.

Module TreeOps.
Section tree.
Context {A : Set} `{Inhabited A} `{Arbiter A}.

(** [new] builds an arbiter of the groups' type. *)
Definition New (new : Z → res A) (size groups : Z) : res (Tree A) :=
  b ← BaseOps.New size;
  if groups <=? 0 then Fail OutOfRange
  else
    assert! (size `rem` groups =? 0);
    let group_size := size `quot` groups in
    g ← new group_size;
    global ← new groups;
    Ok (mkTree b group_size (replicate (Z.to_nat groups) g) global
          (replicate (Z.to_nat groups) 0)).

Definition UpdateState (a : Tree A) : res (Tree A) :=
  if -1 <? a_selected (t_base a) then
    let last_winner := LastWinner (t_global_arbiter a) in
    assert! ((0 <=? last_winner) && (last_winner <? zlen (t_group_arbiters a)));
    g ← vget (t_group_arbiters a) last_winner;
    g ← Arbiter.UpdateState g;
    gs ← vset (t_group_arbiters a) last_winner g;
    global ← Arbiter.UpdateState (t_global_arbiter a);
    Ok (mkTree (t_base a) (t_group_size a) gs global (t_group_reqs a))
  else Ok a.

Definition AddRequest (a : Tree A) (input id pri : Z) : res (Tree A) :=
  b ← BaseOps.AddRequest (t_base a) input id pri;
  let group_index := input `quot` t_group_size a in
  g ← vget (t_group_arbiters a) group_index;
  g ← Arbiter.AddRequest g (input `rem` t_group_size a) id pri;
  gs ← vset (t_group_arbiters a) group_index g;
  n ← vget (t_group_reqs a) group_index;
  rs ← vset (t_group_reqs a) group_index (n + 1);
  Ok (mkTree b (t_group_size a) gs (t_global_arbiter a) rs).

(** One iteration of the loop of [Arbitrate]: a group with requests arbitrates
    and its winner competes globally. *)
Definition arbitrate_group (rs : list Z) (i : Z) (s : list A * A) : res (list A * A) :=
  let '(gs, global) := s in
  n ← vget rs i;
  if negb (n =? 0) then
    g ← vget gs i;
    '(g, (_, out)) ← Arbiter.Arbitrate g;
    gs ← vset gs i g;
    match out with
    | Some (group_id, group_pri) =>
        global ← Arbiter.AddRequest global i group_id group_pri;
        Ok (gs, global)
    | None => (* the uninitialised [group_id] and [group_pri] *) Fail BadIterator
    end
  else Ok (gs, global).

Definition Arbitrate (a : Tree A) : res (Tree A * grant) :=
  if a_num_reqs (t_base a) =? 0 then Ok (a, (-1, None))
  else
    '(gs, global) ← zfor 0 (zlen (t_group_arbiters a)) (arbitrate_group (t_group_reqs a))
                      (t_group_arbiters a, t_global_arbiter a);
    '(global, (group, _)) ← Arbiter.Arbitrate global;
    assert! ((0 <=? group) && (group <? zlen gs));
    g ← vget gs group;
    let group_sel := LastWinner g in
    assert! ((0 <=? group_sel) && (group_sel <? t_group_size a));
    let s := group * t_group_size a + group_sel in
    assert! ((0 <=? s) && (s <? a_size (t_base a)));
    let b := BaseOps.set_selected s (t_base a) in
    out ← BaseOps.Arbitrate b;
    Ok (mkTree b (t_group_size a) gs global (t_group_reqs a), out).

Definition Clear (a : Tree A) : Tree A :=
  if a_num_reqs (t_base a) =? 0 then a
  else
    mkTree (BaseOps.Clear (t_base a)) (t_group_size a)
      (Arbiter.Clear <$> t_group_arbiters a) (Arbiter.Clear (t_global_arbiter a))
      ((λ _, 0) <$> t_group_reqs a).

End tree.
End TreeOps.

#[export] Instance Tree_Arbiter (A : Set) `{Inhabited A} `{Arbiter A} : Arbiter (Tree A) := {
  AddRequest := TreeOps.AddRequest;
  Arbitrate := TreeOps.Arbitrate;
  UpdateState := TreeOps.UpdateState;
  Clear := TreeOps.Clear;
  LastWinner a := a_selected (t_base a);
  NumReqs a := a_num_reqs (t_base a)
}.

(** ** The factory *)

(** The arbiter descriptions [NewArbiter] accepts: [round_robin], [matrix] and
    [tree(groups,sub)]. *)
Inductive arb_type : Set :=
  | ArbRoundRobin
  | ArbMatrix
  | ArbTree (groups : Z) (sub : arb_type).

Definition base_empty : Base := mkBase [] 0 (-1) int_min (-1) 0.
#[export] Instance RoundRobin_inhabited : Inhabited RoundRobin := populate (mkRR base_empty 0).
#[export] Instance Matrix_inhabited : Inhabited Matrix := populate (mkMatrix base_empty [] (-1)).
#[export] Instance Tree_inhabited (A : Set) `{Inhabited A} : Inhabited (Tree A) :=
  populate (mkTree base_empty 0 [] inhabitant []).

Fixpoint carrier (t : arb_type) : Set :=
  match t with
  | ArbRoundRobin => RoundRobin
  | ArbMatrix => Matrix
  | ArbTree _ s => Tree (carrier s)
  end.

Fixpoint carrier_inhabited (t : arb_type) : Inhabited (carrier t) :=
  match t with
  | ArbRoundRobin => RoundRobin_inhabited
  | ArbMatrix => Matrix_inhabited
  | ArbTree _ s => @Tree_inhabited (carrier s) (carrier_inhabited s)
  end.
#[export] Existing Instance carrier_inhabited.

Fixpoint carrier_arbiter (t : arb_type) : Arbiter (carrier t) :=
  match t with
  | ArbRoundRobin => RoundRobin_Arbiter
  | ArbMatrix => Matrix_Arbiter
  | ArbTree _ s => @Tree_Arbiter (carrier s) (carrier_inhabited s) (carrier_arbiter s)
  end.
#[export] Existing Instance carrier_arbiter.

Fixpoint NewArbiter (t : arb_type) (size : Z) : res (carrier t) :=
  match t with
  | ArbRoundRobin => RoundRobinOps.New size
  | ArbMatrix => MatrixOps.New size
  | ArbTree groups s => TreeOps.New (NewArbiter s) size groups
  end.

(** ** [PriorityArbiter] *)

Record sRequest : Set := mkRequest { q_in : Z; q_label : Z; q_pri : Z }.

Record PriorityArbiter : Set := mkPriorityArbiter {
  p_rr_ptr : Z;
  p_inputs : Z;
  p_requests : list sRequest;
  p_match : Z
}.

Module PriorityOps.

Definition set_requests (l : list sRequest) (a : PriorityArbiter) : PriorityArbiter :=
  mkPriorityArbiter (p_rr_ptr a) (p_inputs a) l (p_match a).

Definition Clear (a : PriorityArbiter) : PriorityArbiter := set_requests [] a.

(** The walk to the insertion point, and what is done there. *)
Fixpoint insert_request (r : sRequest) (l : list sRequest) : list sRequest :=
  match l with
  | [] => [r]
  | x :: l' =>
      if q_in x <? q_in r then x :: insert_request r l'
      else if q_in x =? q_in r then if q_pri x <? q_pri r then r :: l' else x :: l'
      else r :: x :: l'
  end.

Definition AddRequest (a : PriorityArbiter) (in_ label pri : Z) : PriorityArbiter :=
  set_requests (insert_request (mkRequest in_ label pri) (p_requests a)) a.

Fixpoint erase_request (in_ : Z) (l : list sRequest) : res (list sRequest) :=
  match l with
  | [] => Fail AssertFailed
  | x :: l' =>
      if q_in x <? in_ then l'' ← erase_request in_ l'; Ok (x :: l'') else Ok l'
  end.

Definition RemoveRequest (a : PriorityArbiter) (in_ label : Z) : res PriorityArbiter :=
  l ← erase_request in_ (p_requests a); Ok (set_requests l a).

Definition Match (a : PriorityArbiter) : Z := p_match a.

(** The first request at or after the pointer, as the list from there on. *)
Fixpoint start_at (ptr : Z) (l : list sRequest) : list sRequest :=
  match l with
  | [] => []
  | x :: l' => if q_in x <? ptr then start_at ptr l' else l
  end.

(** The scan, at iterator [p] (the rest of the list).  Reading [p->in] at the
    end of the list is undefined behaviour. *)
Fixpoint scan (fuel : nat) (all p : list sRequest) (ptr : Z) (wrapped : bool)
    (max_index max_pri : Z) : res Z :=
  continue ← (if negb wrapped then Ok true
              else match p with [] => Fail BadIterator | x :: _ => Ok (q_in x <? ptr) end);
  if (continue : bool) then
    match fuel with
    | O => Fail OutOfFuel
    | S fuel =>
        let step p wrapped :=
          match p with
          | [] => Fail BadIterator
          | x :: p' =>
              if (max_pri <? q_pri x) || (max_index =? -1)
              then scan fuel all p' ptr wrapped (q_in x) (q_pri x)
              else scan fuel all p' ptr wrapped max_index max_pri
          end in
        match p with
        | [] => if wrapped then Ok max_index else step all true
        | _ => step p wrapped
        end
    end
  else Ok max_index.

Definition Arbitrate (a : PriorityArbiter) : res PriorityArbiter :=
  match p_requests a with
  | [] => Ok (mkPriorityArbiter (p_rr_ptr a) (p_inputs a) [] (-1))
  | l =>
      m ← scan (S (length l)) l (start_at (p_rr_ptr a) l) (p_rr_ptr a) false (-1) 0;
      let ptr := if negb (m =? -1) then (m + 1) `rem` p_inputs a else p_rr_ptr a in
      Ok (mkPriorityArbiter ptr (p_inputs a) l m)
  end.

Definition Update (a : PriorityArbiter) : PriorityArbiter :=
  mkPriorityArbiter ((p_rr_ptr a + 1) `rem` p_inputs a) (p_inputs a) (p_requests a) (p_match a).

End PriorityOps.
