(* ===== verification/ArbiterProofs.v ===== *)
(** * Correctness of the arbiters

    [ArbiterLaws] is what the allocators may rely on: within the protocol of a
    cycle (clear, add requests, arbitrate once, update) no assertion fails, the
    winner is a requester of the highest priority and is reported with its own
    id and priority.  Round robin, matrix and tree arbiters satisfy it, and so
    does everything [NewArbiter] builds.

    [Round robin] and [Matrix] are moreover fair: a requester of the highest
    priority is served within [size] rounds. *)

From S2P Require Import Prelude Arbiter.

Definition entry_req (e : entry_t) : option (Z * Z) :=
  if e_valid e then Some (e_id e, e_pri e) else None.

(** The outcome of an arbitration between the requests [rq] of [n] inputs. *)
Definition arb_spec (n : Z) (rq : Z → option (Z * Z)) (g : grant) : Prop :=
  (g = (-1, None) ∧ ∀ i, 0 ≤ i < n → rq i = None) ∨
  (∃ s id pri, g = (s, Some (id, pri)) ∧ 0 ≤ s < n ∧ rq s = Some (id, pri) ∧
     ∀ j id' pri', 0 ≤ j < n → rq j = Some (id', pri') → pri' ≤ pri).

Definition add_rq (rq : Z → option (Z * Z)) (i id pri : Z) : Z → option (Z * Z) :=
  λ j, if decide (j = i) then Some (id, pri) else rq j.

(** ** The interface *)

Class ArbiterLaws (A : Set) `{Arbiter A} := {
  asize : A → Z;
  rq : A → Z → option (Z * Z);
  ready : A → Prop;      (* cleared, possibly with requests; not yet arbitrated *)
  decided : A → Prop;    (* arbitrated since the last clear *)

  law_NumReqs : ∀ a, ready a →
    (NumReqs a = 0 ↔ ∀ i, 0 ≤ i < asize a → rq a i = None) ∧ 0 ≤ NumReqs a;
  law_AddRequest : ∀ a i id pri,
    ready a → 0 ≤ i < asize a → rq a i = None →
    returns (AddRequest a i id pri) (λ a',
      ready a' ∧ asize a' = asize a ∧ NumReqs a' = NumReqs a + 1 ∧
      ∀ j, 0 ≤ j < asize a → rq a' j = add_rq (rq a) i id pri j);
  law_Arbitrate : ∀ a,
    ready a →
    returns (Arbitrate a) (λ r,
      decided r.1 ∧ asize r.1 = asize a ∧ (∀ j, 0 ≤ j < asize a → rq r.1 j = rq a j) ∧
      LastWinner r.1 = r.2.1 ∧ NumReqs r.1 = NumReqs a ∧ arb_spec (asize a) (rq a) r.2);
  law_UpdateState : ∀ a,
    decided a → returns (UpdateState a) (λ a',
      decided a' ∧ asize a' = asize a ∧ LastWinner a' = LastWinner a);
  law_idle : ∀ a, decided a → NumReqs a = 0 → ready a;
  law_Clear : ∀ a,
    ready a ∨ decided a →
    ready (Clear a) ∧ asize (Clear a) = asize a ∧ NumReqs (Clear a) = 0 ∧
    ∀ i, 0 ≤ i < asize a → rq (Clear a) i = None
}.

(** ** The base class *)

Module BaseInv.
Import BaseOps.

Definition brq (b : Base) (i : Z) : option (Z * Z) := entry_req ((a_request b)⟦i⟧).

Record base_ok (b : Base) : Prop := {
  bo_size : 0 ≤ a_size b;
  bo_len : zlen (a_request b) = a_size b;
  bo_num : a_num_reqs b = zsumf (λ i, if e_valid ((a_request b)⟦i⟧) then 1 else 0) (a_size b);
  bo_sel : -1 ≤ a_selected b < a_size b
}.

Lemma base_num_nonneg b : base_ok b → 0 ≤ a_num_reqs b.
Proof.
  intros [H1 H2 -> H4]. apply zsumf_nonneg; [done|]. intros v _. by destruct (e_valid _).
Qed.

Lemma base_num_pos b i : base_ok b → 0 ≤ i < a_size b → brq b i ≠ None → 1 ≤ a_num_reqs b.
Proof.
  intros [H1 H2 -> H4] Hi Hr.
  pose proof (zsumf_ge (λ i, if e_valid ((a_request b)⟦i⟧) then 1 else 0) (a_size b) i Hi) as Hge.
  simpl in Hge. unfold brq, entry_req in Hr. destruct (e_valid ((a_request b)⟦i⟧)); [|done].
  apply Hge. intros w _. by destruct (e_valid _).
Qed.

Lemma base_num_0 b :
  base_ok b → (a_num_reqs b = 0 ↔ ∀ i, 0 ≤ i < a_size b → brq b i = None).
Proof.
  intros Hb. split.
  - intros Hn i Hi. destruct (brq b i) eqn:E; [|done].
    pose proof (base_num_pos b i Hb Hi ltac:(by rewrite E)). lia.
  - intros Hn. rewrite (bo_num _ Hb), (zsumf_ext _ (λ _, 0)); [apply zsumf_const_0|].
    intros v Hv. specialize (Hn v Hv). unfold brq, entry_req in Hn. by destruct (e_valid _).
Qed.

Lemma base_num_two b i j :
  base_ok b → 0 ≤ i < a_size b → 0 ≤ j < a_size b → i ≠ j → brq b i ≠ None → brq b j ≠ None →
  2 ≤ a_num_reqs b.
Proof.
  intros [H1 H2 -> H4] Hi Hj Hne Hri Hrj.
  pose proof (zsumf_ge2 (λ i, if e_valid ((a_request b)⟦i⟧) then 1 else 0) (a_size b) i j Hi Hj Hne) as Hge.
  simpl in Hge. unfold brq, entry_req in *.
  destruct (e_valid ((a_request b)⟦i⟧)), (e_valid ((a_request b)⟦j⟧)); try done.
  apply Hge. intros w _. by destruct (e_valid _).
Qed.

Lemma brq_add b i id pri n j :
  0 ≤ i < zlen (a_request b) → 0 ≤ j →
  brq (set_request ((a_request b)⟦i := mkEntry true id pri⟧) n b) j = add_rq (brq b) i id pri j.
Proof.
  intros Hi Hj. unfold brq, add_rq. simpl. rewrite znth_zupd by lia.
  repeat case_decide; simplify_eq; done.
Qed.

Lemma base_New size : 0 ≤ size → returns (New size) (λ b,
  base_ok b ∧ a_size b = size ∧ a_num_reqs b = 0 ∧ a_selected b = -1 ∧ a_best_input b = -1 ∧
  a_highest_pri b = int_min ∧ ∀ i, 0 ≤ i < size → brq b i = None).
Proof.
  intros Hs. unfold New. destruct (Z.ltb_spec size 0); [lia|]. apply returns_ok.
  assert (∀ i, 0 ≤ i < size → (replicate (Z.to_nat size) (mkEntry false 0 0))⟦i⟧ = mkEntry false 0 0)
    as Hr by (intros; by apply znth_replicate).
  split_and!; try done.
  - split; simpl; [done|by apply zlen_replicate| |lia].
    rewrite (zsumf_ext _ (λ _, 0)); [by rewrite zsumf_const_0|]. intros v Hv. by rewrite Hr.
  - intros i Hi. unfold brq. simpl. by rewrite Hr.
Qed.

Lemma base_AddRequest b i id pri :
  base_ok b → 0 ≤ i < a_size b → brq b i = None →
  returns (AddRequest b i id pri) (λ b',
    b' = set_request ((a_request b)⟦i := mkEntry true id pri⟧) (a_num_reqs b + 1) b ∧ base_ok b').
Proof.
  intros [H1 H2 H3 H4] Hi Hr. unfold AddRequest.
  unfold brq, entry_req in Hr. destruct (e_valid ((a_request b)⟦i⟧)) eqn:Ev; [done|].
  rsteps. rewrite Ev. simpl. rewrite vset_ok by lia. apply returns_ok. split; [done|].
  split; simpl; try done; [lens|].
  rewrite H3. symmetry. etrans; [apply (zsumf_change (λ i, if e_valid ((a_request b)⟦i⟧) then 1 else 0) _ _ i Hi)|].
  - intros w Hw Hne. cbv beta. by rewrite znth_zupd_ne by lia.
  - cbv beta. rewrite znth_zupd_eq by lia. rewrite Ev. simpl. lia.
Qed.

(** With a valid winner, [Arbiter::Arbitrate] reports its id and priority. *)
Lemma base_Arbitrate b s id pri :
  base_ok b → 0 ≤ s < a_size b → brq b s = Some (id, pri) →
  Arbitrate (set_selected s b) = Ok (s, Some (id, pri)).
Proof.
  intros [H1 H2 H3 H4] Hs Hr. unfold Arbitrate. simpl.
  destruct (Z.eqb_spec s (-1)); [lia|]. simpl. rewrite vget_ok by lia. simpl.
  destruct (Z.leb_spec 0 s); [|lia]. simpl.
  unfold brq, entry_req in Hr. destruct (e_valid _); [|done]. by injection Hr as <- <-.
Qed.

Lemma base_Arbitrate_none b :
  a_num_reqs b = 0 → Arbitrate (set_selected (-1) b) = Ok (-1, None).
Proof. intros Hn. unfold Arbitrate. simpl. by rewrite Hn. Qed.

Lemma base_ok_selected b s : base_ok b → -1 ≤ s < a_size b → base_ok (set_selected s b).
Proof. intros [H1 H2 H3 H4] Hs. by split. Qed.

Lemma base_Clear b :
  base_ok b → base_ok (Clear b) ∧ a_size (Clear b) = a_size b ∧ a_num_reqs (Clear b) = 0 ∧
  (a_selected (Clear b) = -1 ∨ (a_num_reqs b = 0 ∧ Clear b = b)) ∧
  a_best_input (Clear b) = a_best_input b ∧ a_highest_pri (Clear b) = a_highest_pri b ∧
  ∀ i, 0 ≤ i < a_size b → brq (Clear b) i = None.
Proof.
  intros Hb. pose proof (base_num_nonneg b Hb) as Hn. pose proof Hb as [H1 H2 H3 H4]. unfold Clear.
  destruct (Z.ltb_spec 0 (a_num_reqs b)).
  - assert (∀ i, 0 ≤ i < a_size b → (invalidate <$> a_request b)⟦i⟧ = invalidate ((a_request b)⟦i⟧)) as Hi.
    { intros i Hi. unfold znth at 1. apply list_lookup_total_correct.
      rewrite list_lookup_fmap, znth_lookup by lia. done. }
    split_and!; simpl; try done; [|by left|intros i Hi'; unfold brq; simpl; by rewrite Hi].
    split; simpl; [done|unfold zlen in *; by rewrite length_fmap| |lia].
    rewrite (zsumf_ext _ (λ _, 0)); [by rewrite zsumf_const_0|]. intros v Hv. by rewrite Hi.
  - assert (a_num_reqs b = 0) as E by lia. split_and!; try done; [by right|]. by apply base_num_0.
Qed.

End BaseInv.

(** ** Round robin *)

Module RoundRobinInv.
Import BaseOps BaseInv RoundRobinOps.

(** The distance of an input from the pointer. *)
Definition dist (n ptr i : Z) : Z := (i - ptr + n) `rem` n.

Lemma dist_range n ptr i : 0 ≤ ptr < n → 0 ≤ i < n → 0 ≤ dist n ptr i < n.
Proof. intros. unfold dist. rewrite rem_mod by lia. apply Z.mod_pos_bound. lia. Qed.

Lemma dist_eq n ptr i :
  0 ≤ ptr < n → 0 ≤ i < n → dist n ptr i = if i <? ptr then i - ptr + n else i - ptr.
Proof.
  intros Hp Hi. unfold dist. rewrite rem_mod by lia. destruct (Z.ltb_spec i ptr).
  - apply Z.mod_small. lia.
  - replace (i - ptr + n) with (i - ptr + 1 * n) by lia. rewrite Z.mod_add by lia. apply Z.mod_small. lia.
Qed.

Lemma dist_inj n ptr i j :
  0 ≤ ptr < n → 0 ≤ i < n → 0 ≤ j < n → dist n ptr i = dist n ptr j → i = j.
Proof.
  intros Hp Hi Hj. rewrite !dist_eq by done.
  destruct (Z.ltb_spec i ptr), (Z.ltb_spec j ptr); lia.
Qed.

Lemma Supersedes_spec i p j q ptr n :
  Supersedes i p j q ptr n = true ↔ q < p ∨ (p = q ∧ dist n ptr i < dist n ptr j).
Proof. unfold Supersedes, dist. rewrite orb_true_iff, andb_true_iff. lia. Qed.

(** [s] with priority [p] comes before every other request. *)
Definition first (n ptr : Z) (rq : Z → option (Z * Z)) (s p : Z) : Prop :=
  ∀ j id' p', 0 ≤ j < n → j ≠ s → rq j = Some (id', p') → Supersedes s p j p' ptr n = true.

Definition best_ok (a : RoundRobin) : Prop :=
  let b := rr_base a in
  (a_num_reqs b = 0 ∧ a_best_input b = -1) ∨
  (0 ≤ a_best_input b < a_size b ∧ ∃ id, brq b (a_best_input b) = Some (id, a_highest_pri b) ∧
     first (a_size b) (rr_pointer a) (brq b) (a_best_input b) (a_highest_pri b)).

Record common (a : RoundRobin) : Prop := {
  rc_base : base_ok (rr_base a);
  rc_ptr : 0 ≤ rr_pointer a < a_size (rr_base a)
}.

Definition rr_ready (a : RoundRobin) : Prop :=
  common a ∧ a_selected (rr_base a) = -1 ∧ best_ok a.
Definition rr_decided (a : RoundRobin) : Prop :=
  common a ∧ (a_num_reqs (rr_base a) = 0 →
              a_selected (rr_base a) = -1 ∧ a_best_input (rr_base a) = -1).

Lemma New_ready size :
  0 < size → returns (New size) (λ a, rr_ready a ∧ a_size (rr_base a) = size ∧
    rr_pointer a = 0 ∧ ∀ i, 0 ≤ i < size → brq (rr_base a) i = None).
Proof.
  intros Hs. unfold New. eapply returns_bind; [apply base_New; lia|].
  intros b (Hb & Hsz & Hn & Hsel & Hbest & Hpri & Hrq). apply returns_ok. split_and!; try done; simpl.
  - split; [split; simpl; [done|lia]|]. split; [done|]. by left.
Qed.

Lemma first_add n ptr rq i id p s ps :
  0 ≤ ptr < n → 0 ≤ i < n → 0 ≤ s < n → s ≠ i → rq i = None → first n ptr rq s ps →
  (∃ ids, rq s = Some (ids, ps)) →
  if Supersedes i p s ps ptr n then first n ptr (add_rq rq i id p) i p
  else first n ptr (add_rq rq i id p) s ps.
Proof.
  intros Hptr Hi Hs Hne Hnone Hf [ids Hrs]. destruct (Supersedes i p s ps ptr n) eqn:E.
  - apply Supersedes_spec in E. intros j id' p' Hj Hji. unfold add_rq. rewrite decide_False by done.
    intros Hrj. apply Supersedes_spec. destruct (decide (j = s)) as [->|Hjs].
    + rewrite Hrs in Hrj. by injection Hrj as <- <-.
    + specialize (Hf j id' p' Hj Hjs Hrj). apply Supersedes_spec in Hf. lia.
  - assert (¬ (ps < p ∨ (p = ps ∧ dist n ptr i < dist n ptr s))) as Hno.
    { rewrite <- Supersedes_spec. by rewrite E. }
    intros j id' p' Hj Hjs. unfold add_rq. case_decide as Hji.
    + subst j. intros [= <- <-]. apply Supersedes_spec.
      pose proof (dist_inj n ptr i s Hptr Hi Hs). lia.
    + by apply Hf.
Qed.

(** The best request after adding one. *)
Lemma best_add a i id pri :
  rr_ready a → 0 ≤ i < a_size (rr_base a) → brq (rr_base a) i = None →
  let b := rr_base a in
  let win := (a_num_reqs b =? 0) ||
    Supersedes i pri (a_best_input b) (a_highest_pri b) (rr_pointer a) (a_size b) in
  let s := if win then i else a_best_input b in
  let p := if win then pri else a_highest_pri b in
  0 ≤ s < a_size b ∧ (∃ ids, add_rq (brq b) i id pri s = Some (ids, p)) ∧
  first (a_size b) (rr_pointer a) (add_rq (brq b) i id pri) s p.
Proof.
  intros ([Hb Hptr] & _ & Hbest) Hi Hnone. cbv zeta. unfold best_ok in Hbest.
  set (b := rr_base a) in *.
  destruct Hbest as [[Hn Hbi]|(Hs & ids & Hrs & Hf)].
  - rewrite Hn. simpl. split; [done|]. split; [exists id; unfold add_rq; by rewrite decide_True|].
    intros j id' p' Hj Hne. unfold add_rq. rewrite decide_False by done.
    by rewrite (proj1 (base_num_0 b Hb) Hn j Hj).
  - assert (a_best_input b ≠ i) as Hne by (intros <-; congruence).
    pose proof (base_num_pos b _ Hb Hs ltac:(by rewrite Hrs)). destruct (Z.eqb_spec (a_num_reqs b) 0); [lia|].
    simpl. pose proof (first_add _ _ _ i id pri _ _ Hptr Hi Hs Hne Hnone Hf (ex_intro _ ids Hrs)) as Hadd.
    destruct (Supersedes _ _ _ _ _ _); (split; [done|]); (split; [|done]).
    + exists id. unfold add_rq. by rewrite decide_True.
    + exists ids. unfold add_rq. by rewrite decide_False.
Qed.

Lemma AddRequest_ready a i id pri :
  rr_ready a → 0 ≤ i < a_size (rr_base a) → brq (rr_base a) i = None →
  returns (AddRequest a i id pri) (λ a',
    rr_ready a' ∧ a_size (rr_base a') = a_size (rr_base a) ∧
    a_num_reqs (rr_base a') = a_num_reqs (rr_base a) + 1 ∧ rr_pointer a' = rr_pointer a ∧
    ∀ j, 0 ≤ j < a_size (rr_base a) → brq (rr_base a') j = add_rq (brq (rr_base a)) i id pri j).
Proof.
  intros Ha Hi Hr. pose proof (best_add a i id pri Ha Hi Hr) as Hbest.
  destruct Ha as ([Hb Hp] & Hsel & _). unfold AddRequest.
  pose proof Hb as [H1 H2 H3 H4]. apply returns_vget; [lia|].
  assert (e_valid ((a_request (rr_base a))⟦i⟧) = false) as ->.
  { unfold brq, entry_req in Hr. by destruct (e_valid _). }
  cbn [negb orb andb]. cbv zeta in Hbest. destruct ((a_num_reqs (rr_base a) =? 0) || _).
  all: match goal with |- context [BaseOps.AddRequest ?b1 _ _ _] => set (b1' := b1);
         destruct (base_AddRequest b1' i id pri) as (b2 & -> & -> & Hb2); [done..|] end.
  all: apply returns_ok; simpl.
  all: assert (∀ n j, 0 ≤ j < a_size (rr_base a) →
         brq (set_request ((a_request (rr_base a))⟦i := mkEntry true id pri⟧) n b1') j
         = add_rq (brq (rr_base a)) i id pri j) as Hrq
    by (intros n j Hj; rewrite <- (brq_add (rr_base a) i id pri n) by lia; done).
  all: split_and!; try done; [|by intros j Hj; apply Hrq].
  all: split; [by split|]; split; [done|]; right; simpl; destruct Hbest as (Hs & [ids Hids] & Hf).
  all: split; [done|]; exists ids; rewrite Hrq by done; split; [done|].
  all: intros j id' p' Hj Hne; rewrite Hrq by done; by apply Hf.
Qed.

(** The winner is the first request in the round-robin order. *)
Lemma Arbitrate_first a :
  rr_ready a →
  returns (Arbitrate a) (λ r,
    rr_decided r.1 ∧ rr_base r.1 = set_selected (r.2.1) (rr_base a) ∧ rr_pointer r.1 = rr_pointer a ∧
    ((r.2 = (-1, None) ∧ ∀ i, 0 ≤ i < a_size (rr_base a) → brq (rr_base a) i = None) ∨
     (∃ s id pri, r.2 = (s, Some (id, pri)) ∧ 0 ≤ s < a_size (rr_base a) ∧
        brq (rr_base a) s = Some (id, pri) ∧
        first (a_size (rr_base a)) (rr_pointer a) (brq (rr_base a)) s pri))).
Proof.
  intros ([Hb Hp] & Hsel & Hbest). unfold Arbitrate.
  destruct Hbest as [[Hn Hbi]|(Hs & id & Hrs & Hf)].
  - rewrite Hbi, base_Arbitrate_none by done. simpl. apply returns_ok. simpl.
    split_and!; try done.
    + split; [split; simpl; [|done]|done]. apply base_ok_selected; [done|lia].
    + left. split; [done|]. by apply base_num_0.
  - rewrite (base_Arbitrate _ _ id (a_highest_pri (rr_base a))) by done. simpl. apply returns_ok. simpl.
    pose proof (base_num_pos _ _ Hb Hs ltac:(by rewrite Hrs)).
    split_and!; try done.
    + split; [split; simpl; [apply base_ok_selected; [done|lia]|done]|]. simpl. lia.
    + right. by do 3 eexists.
Qed.

Lemma first_max n ptr rq s p id j id' p' :
  rq s = Some (id, p) → first n ptr rq s p → 0 ≤ j < n → rq j = Some (id', p') → p' ≤ p.
Proof.
  intros Hs Hf Hj Hrj. destruct (decide (j = s)) as [->|Hne]; [rewrite Hs in Hrj; injection Hrj; lia|].
  specialize (Hf j id' p' Hj Hne Hrj). apply Supersedes_spec in Hf. lia.
Qed.

Lemma Clear_ready a :
  rr_ready a ∨ rr_decided a →
  rr_ready (Clear a) ∧ a_size (rr_base (Clear a)) = a_size (rr_base a) ∧
  a_num_reqs (rr_base (Clear a)) = 0 ∧ rr_pointer (Clear a) = rr_pointer a ∧
  ∀ i, 0 ≤ i < a_size (rr_base a) → brq (rr_base (Clear a)) i = None.
Proof.
  intros Ha.
  assert (common a ∧ (a_num_reqs (rr_base a) = 0 → a_selected (rr_base a) = -1)) as [[Hb Hp] Hsel].
  { destruct Ha as [(? & ? & ?)|[? Hz]]; [done|]. split; [done|]. intros E. by apply Hz. }
  assert (base_ok (set_best int_min (-1) (rr_base a))) as Hb' by (by destruct Hb).
  destruct (base_Clear _ Hb') as (H1 & H2 & H3 & H4 & H5 & H6 & H7). simpl in *.
  split_and!; try done. split; [split; simpl; [done|by rewrite H2]|]. split; [|by left].
  simpl. destruct H4 as [?|[Hn ->]]; [done|]. simpl in *. by apply Hsel.
Qed.

Lemma UpdateState_decided a :
  rr_decided a →
  returns (UpdateState a) (λ a', rr_decided a' ∧ rr_base a' = rr_base a ∧
    rr_pointer a' = if -1 <? a_selected (rr_base a) then (a_selected (rr_base a) + 1) mod a_size (rr_base a)
                    else rr_pointer a).
Proof.
  intros [[Hb Hp] Hsel]. unfold UpdateState. pose proof (bo_sel _ Hb).
  destruct (Z.ltb_spec (-1) (a_selected (rr_base a))); apply returns_ok; [|done].
  simpl. rewrite rem_mod by lia. split; [|done]. split; [split; simpl; [done|]|done].
  apply Z.mod_pos_bound. lia.
Qed.
End RoundRobinInv.

#[export] Instance RoundRobin_laws : ArbiterLaws RoundRobin.
Proof.
  refine (Build_ArbiterLaws _ _ (λ a, a_size (rr_base a)) (λ a, BaseInv.brq (rr_base a))
    RoundRobinInv.rr_ready RoundRobinInv.rr_decided _ _ _ _ _ _).
  - intros a ([Hb _] & _). split; [by apply BaseInv.base_num_0|by apply BaseInv.base_num_nonneg].
  - intros a i id pri Ha Hi Hr. eapply returns_mono; [by apply RoundRobinInv.AddRequest_ready|].
    intros a' (? & ? & ? & _ & ?). done.
  - intros a Ha. eapply returns_mono; [by apply RoundRobinInv.Arbitrate_first|].
    intros [a' g] (Hd & Hb & _ & Hspec). simpl in *. rewrite Hb. split_and!; try done.
    destruct Hspec as [?|(s & id & pri & ? & ? & ? & ?)]; [by left|right].
    exists s, id, pri. split_and!; try done; try lia. intros. by eapply RoundRobinInv.first_max.
  - intros a Ha. eapply returns_mono; [by apply RoundRobinInv.UpdateState_decided|].
    simpl. intros a' (? & -> & _). done.
  - intros a [Hc Hz] Hn. destruct (Hz Hn) as [? ?]. split; [done|]. split; [done|]. by left.
  - intros a Ha. destruct (RoundRobinInv.Clear_ready a Ha) as (? & ? & ? & _ & ?). done.
Defined.

(** ** Matrix *)

Module MatrixInv.
Import BaseOps BaseInv MatrixOps.

(** [lru n m r]: the matrix orders the inputs by the ghost time [r] of their
    last grant, [m[i][j] = 1] when [i] was served before [j]. *)
Record lru (n : Z) (m : list (list Z)) (r : Z → Z) : Prop := {
  lru_len : zlen m = n;
  lru_row : ∀ i, 0 ≤ i < n → zlen (m⟦i⟧) = n;
  lru_bit : ∀ i j, 0 ≤ i < n → 0 ≤ j < n → m⟦i⟧⟦j⟧ = if r i <? r j then 1 else 0;
  lru_inj : ∀ i j, 0 ≤ i < n → 0 ≤ j < n → r i = r j → i = j
}.

(** [j] is preferred to [i]. *)
Definition better (r : Z → Z) (rq : Z → option (Z * Z)) (j i : Z) : Prop :=
  ∃ idj pj idi pi, rq j = Some (idj, pj) ∧ rq i = Some (idi, pi) ∧ (pi < pj ∨ (pi = pj ∧ r j < r i)).

(** The requester of the highest priority served the longest ago. *)
Definition oldest (n : Z) (r : Z → Z) (rq : Z → option (Z * Z)) (s : Z) : Prop :=
  0 ≤ s < n ∧ rq s ≠ None ∧ ∀ j, 0 ≤ j < n → ¬ better r rq j s.

Lemma oldest_snoc n r rq s :
  oldest n r rq s → ∀ idn pn, rq n = Some (idn, pn) →
  ∃ s', oldest (n + 1) r rq s'.
Proof.
  intros (Hs & Hrs & Hbest) idn pn Hn. destruct (rq s) as [[ids ps]|] eqn:Es; [|done].
  destruct (decide (ps < pn ∨ (ps = pn ∧ r n < r s))) as [Hb|Hb].
  - exists n. split; [lia|]. split; [by rewrite Hn|]. intros j Hj (? & pj & ? & ? & Hrj & Hrn & Hc).
    rewrite Hn in Hrn. injection Hrn as <- <-. destruct (decide (j = n)) as [->|Hjn].
    + rewrite Hn in Hrj. injection Hrj as <- <-. lia.
    + apply (Hbest j ltac:(lia)). do 4 eexists. split; [done|]. split; [done|]. lia.
  - exists s. split; [lia|]. split; [by rewrite Es|]. intros j Hj Hbet.
    destruct (decide (j = n)) as [->|Hjn]; [|by apply (Hbest j ltac:(lia))].
    destruct Hbet as (? & ? & ? & ? & E1 & E2 & Hc). rewrite Hn in E1. rewrite Es in E2. simplify_eq; lia.
Qed.

Lemma exists_oldest n r rq :
  0 ≤ n → (∀ i, 0 ≤ i < n → rq i = None) ∨ ∃ s, oldest n r rq s.
Proof.
  intros Hn. pattern n. apply zsumf_ind; [left; lia| |done]. clear n Hn. intros n Hn IH.
  destruct (rq n) as [[idn pn]|] eqn:En.
  - right. destruct IH as [Hnone|[s Hs]]; [|by eapply oldest_snoc].
    exists n. split; [lia|]. split; [by rewrite En|]. intros j Hj (? & ? & ? & ? & Hrj & Hrn & Hc).
    rewrite En in Hrn. simplify_eq. destruct (decide (j = n)) as [->|Hjn]; [simplify_eq; lia|].
    rewrite Hnone in Hrj by lia. done.
  - destruct IH as [Hnone|(s & Hs & Hrs & Hb)].
    + left. intros i Hi. destruct (decide (i = n)) as [->|]; [done|]. apply Hnone. lia.
    + right. exists s. split; [lia|]. split; [done|]. intros j Hj Hbet.
      destruct (decide (j = n)) as [->|]; [|apply (Hb j); [lia|done]].
      destruct Hbet as (? & ? & ? & ? & E1 & _). congruence.
Qed.

Lemma oldest_max n r rq s id p j id' p' :
  oldest n r rq s → rq s = Some (id, p) → 0 ≤ j < n → rq j = Some (id', p') → p' ≤ p.
Proof.
  intros (Hs & _ & Hb) Hrs Hj Hrj. destruct (Z.le_gt_cases p' p); [done|].
  destruct (Hb j Hj). do 4 eexists. split; [done|]. split; [done|]. lia.
Qed.

(** *** Selection *)

Section select.
Context (a : Matrix) (r : Z → Z).
Local Abbreviation b := (m_base a).
Local Abbreviation n := (a_size (m_base a)).
Context (Hb : base_ok b) (Hm : lru n (m_matrix a) r).

Lemma blocks_spec input i :
  0 ≤ input < n → 0 ≤ i < n → brq b input ≠ None →
  returns (blocks a input i) (λ x, x = true ↔ better r (brq b) i input).
Proof.
  intros Hin Hi Hr. unfold blocks, better, brq, entry_req in *.
  pose proof (bo_len _ Hb). pose proof (lru_len _ _ _ Hm). pose proof (lru_row _ _ _ Hm i Hi).
  apply returns_vget; [lia|]. destruct (e_valid ((a_request b)⟦i⟧)) eqn:Ei.
  - do 3 (apply returns_vget; [lia|]). apply returns_ok. rewrite (lru_bit _ _ _ Hm) by done.
    destruct (e_valid ((a_request b)⟦input⟧)) eqn:Ein; [|done].
    rewrite orb_true_iff, andb_true_iff, negb_true_iff, Z.eqb_eq, Z.eqb_neq, Z.ltb_lt.
    destruct (Z.ltb_spec (r i) (r input)); split.
    + intros Hc. do 4 eexists. split; [done|]. split; [done|]. lia.
    + intros (? & ? & ? & ? & [= <- <-] & [= <- <-] & Hc). lia.
    + intros Hc. do 4 eexists. split; [done|]. split; [done|]. lia.
    + intros (? & ? & ? & ? & [= <- <-] & [= <- <-] & Hc). lia.
  - apply returns_ok. split; [done|]. by intros (? & ? & ? & ? & ? & _).
Qed.

Lemma granted_spec input :
  0 ≤ input < n → brq b input ≠ None →
  returns (granted a input) (λ g, g = true ↔ oldest n r (brq b) input).
Proof.
  intros Hin Hr. unfold granted. pose proof (bo_size _ Hb).
  eapply returns_bind.
  - apply (returns_forb (λ k g, g = true ∧ ∀ j, 0 ≤ j < k → ¬ better r (brq b) j input)
      (λ g, g = false ∧ ∃ j, 0 ≤ j < n ∧ better r (brq b) j input)); [done|by split; [|lia]|].
    intros i g Hi [-> Hk]. eapply returns_bind; [by apply blocks_spec|]. intros x Hx.
    apply returns_ok. destruct x.
    + split; [done|]. exists i. split; [done|]. by apply Hx.
    + split; [done|]. intros j Hj. destruct (decide (j = i)) as [->|]; [|apply Hk; lia].
      intros Hbet. by apply Hx in Hbet.
  - intros [g|g] Hg; apply returns_ok; simpl.
    + destruct Hg as [-> Hg]. split; [|done]. intros _. done.
    + destruct Hg as [-> (j & Hj & Hbet)]. split; [done|]. intros (_ & _ & Ho). by destruct (Ho j Hj).
Qed.

Lemma select_spec :
  returns (select a) (λ s, (s = -1 ∧ ∀ i, 0 ≤ i < n → brq b i = None) ∨ oldest n r (brq b) s).
Proof.
  unfold select. pose proof (bo_size _ Hb). pose proof (bo_len _ Hb). eapply returns_bind.
  - apply (returns_forb (λ k s, s = -1 ∧ ∀ j, 0 ≤ j < k → ¬ oldest n r (brq b) j)
      (λ s, oldest n r (brq b) s)); [done|by split; [|lia]|].
    intros i s Hi [-> Hk]. apply returns_vget; [lia|].
    assert (¬ oldest n r (brq b) i → (∀ j, 0 ≤ j < i + 1 → ¬ oldest n r (brq b) j)) as Hext.
    { intros Hno j Hj. destruct (decide (j = i)) as [->|]; [done|]. apply Hk. lia. }
    destruct (e_valid ((a_request b)⟦i⟧)) eqn:Ev.
    + assert (brq b i ≠ None) as Hri by (unfold brq, entry_req; by rewrite Ev).
      eapply returns_bind; [by apply granted_spec|]. intros [] Hg; apply returns_ok; [by apply Hg|].
      split; [done|]. apply Hext. intros Ho. by apply Hg in Ho.
    + apply returns_ok. split; [done|]. apply Hext. intros (_ & Hr & _).
      unfold brq, entry_req in Hr. by rewrite Ev in Hr.
  - intros [s|s] Hs; apply returns_ok; simpl; [|by right]. destruct Hs as [-> Hnone]. left.
    split; [done|]. destruct (exists_oldest n r (brq b)) as [?|[s Hs]]; [done|done|].
    destruct (Hnone s); [by destruct Hs|done].
Qed.
End select.

(** *** The update *)

Lemma set2_spec m i j x n :
  zlen m = n → (∀ k, 0 ≤ k < n → zlen (m⟦k⟧) = n) → 0 ≤ i < n → 0 ≤ j < n →
  returns (set2 m i j x) (λ m',
    zlen m' = n ∧ (∀ k, 0 ≤ k < n → zlen (m'⟦k⟧) = n) ∧
    ∀ k l, 0 ≤ k < n → 0 ≤ l < n →
      m'⟦k⟧⟦l⟧ = if decide (k = i ∧ l = j) then x else m⟦k⟧⟦l⟧).
Proof.
  intros Hm Hrow Hi Hj. unfold set2. pose proof (Hrow i Hi). rsteps.
  rewrite vset_ok by lia. apply returns_ok. split; [lens|]. split.
  - intros k Hk. rewrite znth_zupd by lia. case_decide; [by rewrite zlen_zupd|by apply Hrow].
  - intros k l Hk Hl. rewrite znth_zupd by lia. case_decide as E1.
    + subst k. rewrite znth_zupd by lia. repeat case_decide; intuition congruence.
    + rewrite decide_False; [done|]. intuition congruence.
Qed.

(** A time after all others, for the input just served. *)
Definition touch (r : Z → Z) (s t : Z) : Z → Z := λ i, if decide (i = s) then t else r i.

Lemma update_loop_spec n m r s t :
  lru n m r → 0 ≤ s < n → (∀ i, 0 ≤ i < n → r i < t) →
  returns (zfor 0 n (λ i m,
    if negb (s =? i) then m ← set2 m s i 0; set2 m i s 1 else Ok m) m)
    (λ m', lru n m' (touch r s t)).
Proof.
  intros [H1 H2 H3 H4] Hs Ht. eapply returns_mono.
  - apply (returns_for (λ k m', zlen m' = n ∧ (∀ i, 0 ≤ i < n → zlen (m'⟦i⟧) = n) ∧
      ∀ i j, 0 ≤ i < n → 0 ≤ j < n → m'⟦i⟧⟦j⟧ =
        if decide (i = s ∧ j ≠ s ∧ j < k) then 0 else if decide (j = s ∧ i ≠ s ∧ i < k) then 1
        else m⟦i⟧⟦j⟧)); [lia| |].
    { split; [done|]. split; [done|]. intros i j Hi Hj. by rewrite !decide_False by lia. }
    intros k m' Hk (L1 & L2 & L3). destruct (Z.eqb_spec s k) as [->|Hne]; simpl.
    + apply returns_ok. split; [done|]. split; [done|]. intros i j Hi Hj. rewrite L3 by done.
      repeat case_decide; lia.
    + eapply returns_bind; [by apply (set2_spec m' s k 0 n)|]. intros m1 (A1 & A2 & A3).
      eapply returns_mono; [by apply (set2_spec m1 k s 1 n)|]. intros m2 (B1 & B2 & B3).
      split; [done|]. split; [done|]. intros i j Hi Hj. rewrite B3, A3, L3 by done.
      repeat case_decide; lia.
  - intros m' (L1 & L2 & L3). split; [done|done| |].
    + intros i j Hi Hj. rewrite L3 by done. unfold touch. pose proof (Ht i Hi). pose proof (Ht j Hj).
      repeat case_decide; subst; rewrite ?H3 by done; try lia;
        repeat match goal with |- context [?x <? ?y] => destruct (Z.ltb_spec x y) end; lia.
    + intros i j Hi Hj. unfold touch. pose proof (Ht i Hi). pose proof (Ht j Hj).
      repeat case_decide; subst; try lia. by apply H4.
Qed.

Lemma time_bound n (r : Z → Z) : 0 ≤ n → ∃ t, ∀ i, 0 ≤ i < n → r i < t.
Proof.
  intros Hn. pattern n. apply zsumf_ind; [exists 0; lia| |done]. clear n Hn.
  intros n Hn [t Ht]. exists (Z.max t (r n + 1)). intros i Hi.
  destruct (decide (i = n)) as [->|]; [lia|]. specialize (Ht i). lia.
Qed.

(** *** The invariant *)

Record mcommon (a : Matrix) (r : Z → Z) : Prop := {
  mc_size : 0 < a_size (m_base a);
  mc_base : base_ok (m_base a);
  mc_lru : lru (a_size (m_base a)) (m_matrix a) r
}.

Definition last_ok (a : Matrix) : Prop :=
  (a_num_reqs (m_base a) = 0 → m_last_req a = -1) ∧
  (a_num_reqs (m_base a) ≠ 0 → 0 ≤ m_last_req a < a_size (m_base a) ∧
     brq (m_base a) (m_last_req a) ≠ None).

Definition m_ready (a : Matrix) (r : Z → Z) : Prop :=
  mcommon a r ∧ a_selected (m_base a) = -1 ∧ last_ok a.
Definition m_decided (a : Matrix) (r : Z → Z) : Prop :=
  mcommon a r ∧ (a_num_reqs (m_base a) = 0 → a_selected (m_base a) = -1 ∧ m_last_req a = -1).

Lemma MatrixNew_ready size :
  0 < size → returns (New size) (λ a, m_ready a (λ i, - i) ∧ a_size (m_base a) = size ∧
    ∀ i, 0 ≤ i < size → brq (m_base a) i = None).
Proof.
  intros Hs. unfold New. eapply returns_bind; [apply base_New; lia|].
  intros b (Hb & Hsz & Hn & Hsel & Hbest & Hpri & Hrq). apply returns_ok. split_and!; try done.
  split; [|split; [done|]].
  - split; simpl; [lia|done|]. rewrite Hsz.
    assert (∀ (B : Type) `{Inhabited B} (g : Z → B) i, 0 ≤ i < size → (g <$> seqZ 0 size)⟦i⟧ = g i) as Hseq.
    { intros B ? g i Hi. apply list_lookup_total_correct. rewrite list_lookup_fmap, lookup_seqZ_lt by lia.
      simpl. do 2 f_equal. lia. }
    split.
    + unfold zlen. rewrite length_fmap, length_seqZ. lia.
    + intros i Hi. rewrite Hseq by done. unfold zlen. rewrite length_fmap, length_seqZ. lia.
    + intros i j Hi Hj. rewrite !Hseq by done.
      repeat match goal with |- context [?x <? ?y] => destruct (Z.ltb_spec x y) end; lia.
    + intros. lia.
  - split; simpl; [done|]. by rewrite Hn.
Qed.

Lemma MatrixAdd_ready a r i id pri :
  m_ready a r → 0 ≤ i < a_size (m_base a) → brq (m_base a) i = None →
  returns (AddRequest a i id pri) (λ a',
    m_ready a' r ∧ a_size (m_base a') = a_size (m_base a) ∧ m_matrix a' = m_matrix a ∧
    a_num_reqs (m_base a') = a_num_reqs (m_base a) + 1 ∧
    ∀ j, 0 ≤ j < a_size (m_base a) → brq (m_base a') j = add_rq (brq (m_base a)) i id pri j).
Proof.
  intros ([H0 Hb Hm] & Hsel & Hlast) Hi Hr. unfold AddRequest.
  destruct (base_AddRequest _ i id pri Hb Hi Hr) as (b' & -> & -> & Hb').
  pose proof (bo_len _ Hb) as Hlen. pose proof (base_num_nonneg _ Hb). apply returns_ok. simpl.
  assert (∀ j, 0 ≤ j < a_size (m_base a) → brq (set_request ((a_request (m_base a))⟦i := mkEntry true id pri⟧)
    (a_num_reqs (m_base a) + 1) (m_base a)) j = add_rq (brq (m_base a)) i id pri j) as Hrq
    by (intros j Hj; apply brq_add; lia).
  split_and!; try done. split; [by split|]. split; [done|]. split; simpl; [lia|]. intros _.
  split; [done|]. rewrite Hrq by done. unfold add_rq. by rewrite decide_True.
Qed.

Lemma MatrixArbitrate_oldest a r :
  m_ready a r →
  returns (Arbitrate a) (λ g,
    m_decided g.1 r ∧ m_base g.1 = set_selected (g.2.1) (m_base a) ∧ m_matrix g.1 = m_matrix a ∧
    ((g.2 = (-1, None) ∧ ∀ i, 0 ≤ i < a_size (m_base a) → brq (m_base a) i = None) ∨
     (∃ s id pri, g.2 = (s, Some (id, pri)) ∧ brq (m_base a) s = Some (id, pri) ∧
        oldest (a_size (m_base a)) r (brq (m_base a)) s))).
Proof.
  intros ([H0 Hb Hm] & Hsel & [Hl0 Hl1]). unfold Arbitrate.
  assert (returns (if a_num_reqs (m_base a) <? 2 then Ok (m_last_req a) else select a) (λ s,
    (s = -1 ∧ a_num_reqs (m_base a) = 0) ∨ oldest (a_size (m_base a)) r (brq (m_base a)) s)) as Hs.
  { destruct (Z.ltb_spec (a_num_reqs (m_base a)) 2).
    - apply returns_ok. destruct (decide (a_num_reqs (m_base a) = 0)) as [E|E]; [left; auto|].
      right. destruct (Hl1 E) as [Hr Hv]. split; [done|]. split; [done|].
      intros j Hj (? & pj & ? & ? & Hrj & Hrl & Hc). destruct (decide (j = m_last_req a)) as [->|Hne].
      + simplify_eq. lia.
      + pose proof (base_num_two _ j (m_last_req a) Hb Hj Hr Hne ltac:(by rewrite Hrj) Hv). lia.
    - eapply returns_mono; [by apply select_spec|]. intros s [[-> Hs]|Hs]; [left|by right].
      split; [done|]. by apply base_num_0. }
  eapply returns_bind; [exact Hs|]. intros s [[-> Hn]|Ho].
  - rewrite base_Arbitrate_none by done. apply returns_ok. simpl. split_and!; try done.
    + split; [split; simpl; [done|apply base_ok_selected; [done|lia]|done]|]. simpl. auto.
    + left. split; [done|]. by apply base_num_0.
  - pose proof Ho as (Hr & Hv & _). destruct (brq (m_base a) s) as [[id pri]|] eqn:Ers; [|done].
    rewrite (base_Arbitrate _ _ id pri) by done. apply returns_ok. simpl.
    pose proof (base_num_pos _ _ Hb Hr ltac:(by rewrite Ers)). split_and!; try done.
    + split; [split; simpl; [done|apply base_ok_selected; [done|lia]|done]|simpl; lia].
    + right. by do 3 eexists.
Qed.

Lemma MatrixUpdate_decided a r t :
  m_decided a r → (∀ i, 0 ≤ i < a_size (m_base a) → r i < t) →
  returns (UpdateState a) (λ a',
    m_decided a' (if -1 <? a_selected (m_base a) then touch r (a_selected (m_base a)) t else r) ∧
    m_base a' = m_base a).
Proof.
  intros [[H0 Hb Hm] Hsel] Ht. unfold UpdateState. pose proof (bo_sel _ Hb).
  destruct (Z.ltb_spec (-1) (a_selected (m_base a))); [|by apply returns_ok].
  eapply returns_bind; [apply (update_loop_spec _ _ r _ t Hm); [lia|done]|].
  intros m' Hm'. apply returns_ok. split; [|done]. by split.
Qed.

Lemma MatrixClear_ready a r :
  m_ready a r ∨ m_decided a r →
  m_ready (Clear a) r ∧ a_size (m_base (Clear a)) = a_size (m_base a) ∧
  m_matrix (Clear a) = m_matrix a ∧ a_num_reqs (m_base (Clear a)) = 0 ∧
  ∀ i, 0 ≤ i < a_size (m_base a) → brq (m_base (Clear a)) i = None.
Proof.
  intros Ha.
  assert (mcommon a r ∧ (a_num_reqs (m_base a) = 0 → a_selected (m_base a) = -1)) as [[H0 Hb Hm] Hsel].
  { destruct Ha as [(? & ? & ?)|[? Hz]]; [done|]. split; [done|]. intros E. by apply Hz. }
  destruct (base_Clear _ Hb) as (H1 & H2 & H3 & H4 & H5 & H6 & H7). simpl in *.
  split_and!; try done. split; [split; simpl; rewrite ?H2; done|]. split.
  - simpl. destruct H4 as [?|[Hn ->]]; [done|]. by apply Hsel.
  - split; simpl; [done|]. by rewrite H3.
Qed.
End MatrixInv.

#[export] Instance Matrix_laws : ArbiterLaws Matrix.
Proof.
  refine (Build_ArbiterLaws _ _ (λ a, a_size (m_base a)) (λ a, BaseInv.brq (m_base a))
    (λ a, ∃ r, MatrixInv.m_ready a r) (λ a, ∃ r, MatrixInv.m_decided a r) _ _ _ _ _ _).
  - intros a (r & [H0 Hb Hm] & _). split; [by apply BaseInv.base_num_0|by apply BaseInv.base_num_nonneg].
  - intros a i id pri [r Ha] Hi Hr. eapply returns_mono; [by apply (MatrixInv.MatrixAdd_ready a r)|].
    intros a' (? & ? & _ & ? & ?). split_and!; try done. by exists r.
  - intros a [r Ha]. eapply returns_mono; [by apply (MatrixInv.MatrixArbitrate_oldest a r)|].
    intros [a' g] (Hd & Hb & _ & Hspec). simpl in *. rewrite Hb. split_and!; try done; [by exists r|].
    destruct Hspec as [?|(s & id & pri & ? & ? & Ho)]; [by left|right].
    exists s, id, pri. split_and!; try done; try apply Ho. intros. by eapply MatrixInv.oldest_max.
  - intros a [r Ha]. destruct (MatrixInv.time_bound (a_size (m_base a)) r) as [t Ht].
    { destruct Ha as [[? ? ?] _]. lia. }
    eapply returns_mono; [by apply (MatrixInv.MatrixUpdate_decided a r t)|].
    intros a' [? Hb]. simpl. rewrite Hb. split; [by eexists|done].
  - intros a (r & Hc & Hz) Hn. destruct (Hz Hn) as [? ?]. exists r. split; [done|]. by split.
  - intros a Ha. assert (∃ r, MatrixInv.m_ready a r ∨ MatrixInv.m_decided a r) as [r Hr]
      by (destruct Ha as [[r ?]|[r ?]]; exists r; auto).
    destruct (MatrixInv.MatrixClear_ready a r Hr) as (? & ? & _ & ? & ?). split_and!; try done. by exists r.
Defined.

(** ** Tree *)

Module TreeInv.
Import BaseOps BaseInv TreeOps.
Section tree.
Context {A : Set} `{Inhabited A} `{!Arbiter A} `{!ArbiterLaws A}.

(** Every group mirrors its slice of the requests. *)
Record tcommon (a : Tree A) : Prop := {
  tc_base : base_ok (t_base a);
  tc_gs : 0 < t_group_size a;
  tc_size : a_size (t_base a) = zlen (t_group_arbiters a) * t_group_size a;
  tc_reqs_len : zlen (t_group_reqs a) = zlen (t_group_arbiters a);
  tc_groups : ∀ g, 0 ≤ g < zlen (t_group_arbiters a) →
    asize ((t_group_arbiters a)⟦g⟧) = t_group_size a;
  tc_global : asize (t_global_arbiter a) = zlen (t_group_arbiters a)
}.

Definition t_ready (a : Tree A) : Prop :=
  tcommon a ∧ a_selected (t_base a) = -1 ∧
  (∀ g, 0 ≤ g < zlen (t_group_arbiters a) →
     ready ((t_group_arbiters a)⟦g⟧) ∧ NumReqs ((t_group_arbiters a)⟦g⟧) = (t_group_reqs a)⟦g⟧ ∧
     ∀ k, 0 ≤ k < t_group_size a →
       rq ((t_group_arbiters a)⟦g⟧) k = brq (t_base a) (g * t_group_size a + k)) ∧
  ready (t_global_arbiter a) ∧
  ∀ g, 0 ≤ g < zlen (t_group_arbiters a) → rq (t_global_arbiter a) g = None.

Definition t_decided (a : Tree A) : Prop :=
  tcommon a ∧ (a_num_reqs (t_base a) = 0 → t_ready a) ∧
  (a_num_reqs (t_base a) ≠ 0 →
    (∀ g, 0 ≤ g < zlen (t_group_arbiters a) →
       ready ((t_group_arbiters a)⟦g⟧) ∨ decided ((t_group_arbiters a)⟦g⟧)) ∧
    decided (t_global_arbiter a) ∧
    0 ≤ LastWinner (t_global_arbiter a) < zlen (t_group_arbiters a) ∧
    decided ((t_group_arbiters a)⟦LastWinner (t_global_arbiter a)⟧)).

Lemma TreeAdd_ready a i id pri :
  t_ready a → 0 ≤ i < a_size (t_base a) → brq (t_base a) i = None →
  returns (AddRequest a i id pri) (λ a',
    t_ready a' ∧ a_size (t_base a') = a_size (t_base a) ∧
    a_num_reqs (t_base a') = a_num_reqs (t_base a) + 1 ∧
    ∀ j, 0 ≤ j < a_size (t_base a) → brq (t_base a') j = add_rq (brq (t_base a)) i id pri j).
Proof.
  intros ([Hb Hgs Hsz Hrl Hg Hglob] & Hsel & Hgrp & Hrdy & Hnone) Hi Hr. unfold AddRequest.
  destruct (base_AddRequest _ i id pri Hb Hi Hr) as (b' & -> & -> & Hb'). cbn [mbind res_bind].
  pose proof (bo_len _ Hb) as Hlen.
  set (gs := t_group_size a) in *. set (G := zlen (t_group_arbiters a)) in *.
  rewrite quot_div, rem_mod by lia. set (q := i / gs). set (k := i mod gs).
  assert (i = q * gs + k ∧ 0 ≤ k < gs) as [Eik Hk].
  { subst q k. pose proof (Z.mod_pos_bound i gs Hgs). pose proof (Z.div_mod i gs ltac:(lia)). lia. }
  assert (0 ≤ q < G) as Hq by nia.
  destruct (Hgrp q Hq) as (Hrq & Hnq & Hsl). rsteps.
  destruct (law_AddRequest ((t_group_arbiters a)⟦q⟧) k id pri Hrq) as (g' & -> & Hg' & Hsz' & Hn' & Hrq').
  { rewrite Hg; done. }
  { rewrite Hsl by done. by rewrite <- Eik. }
  cbn [mbind res_bind]. rsteps. cbn [t_base]. 
  assert (∀ j, 0 ≤ j < a_size (t_base a) → brq (set_request ((a_request (t_base a))⟦i := mkEntry true id pri⟧)
    (a_num_reqs (t_base a) + 1) (t_base a)) j = add_rq (brq (t_base a)) i id pri j) as Hbrq
    by (intros j Hj; apply brq_add; lia).
  split_and!; try done. split; [|split; [done|split; [|split; [done|]]]].
  - split; simpl; try done; rewrite ?zlen_zupd; try done.
    intros g Hr'. rewrite znth_zupd by lia. case_decide; [by rewrite Hsz', Hg by lia|by apply Hg].
  - intros g Hr'. cbn [t_group_arbiters t_group_reqs t_group_size] in *. rewrite zlen_zupd in Hr'.
    rewrite !znth_zupd by lia. fold gs.
    case_decide as Eg; [subst g|]; (split; [first [done|by apply Hgrp]|]).
    + split; [lia|]. intros l Hl. rewrite Hrq', Hbrq by (rewrite ?Hg by done; nia).
      unfold add_rq. rewrite Hsl by done. do 2 case_decide; first [done|nia].
    + destruct (Hgrp g Hr') as (_ & Hng & Hslg). split; [done|]. intros l Hl.
      rewrite Hslg, Hbrq by (first [done|nia]). unfold add_rq. rewrite decide_False; [done|].
      intros E. apply Eg. nia.
  - intros g Hr'. simpl in *. rewrite zlen_zupd in Hr'. by apply Hnone.
Qed.

(** Group [g] after its arbitration, its winner entered in [glob]. *)
Definition group_done (a : Tree A) (ga : A) (glob : A) (g : Z) : Prop :=
  if decide ((t_group_reqs a)⟦g⟧ = 0) then ga = (t_group_arbiters a)⟦g⟧ ∧ rq glob g = None
  else decided ga ∧ ∃ id pri, 0 ≤ LastWinner ga < t_group_size a ∧
    brq (t_base a) (g * t_group_size a + LastWinner ga) = Some (id, pri) ∧ rq glob g = Some (id, pri) ∧
    ∀ l id' pri', 0 ≤ l < t_group_size a →
      brq (t_base a) (g * t_group_size a + l) = Some (id', pri') → pri' ≤ pri.

Record partial (a : Tree A) (k : Z) (s : list A * A) : Prop := {
  pa_len : zlen s.1 = zlen (t_group_arbiters a);
  pa_glob : asize s.2 = zlen (t_group_arbiters a) ∧ ready s.2;
  pa_size : ∀ g, 0 ≤ g < zlen (t_group_arbiters a) → asize (s.1⟦g⟧) = t_group_size a;
  pa_todo : ∀ g, k ≤ g < zlen (t_group_arbiters a) →
    s.1⟦g⟧ = (t_group_arbiters a)⟦g⟧ ∧ rq s.2 g = None;
  pa_done : ∀ g, 0 ≤ g < k → group_done a (s.1⟦g⟧) s.2 g
}.

Lemma arbitrate_group_ok a k s :
  t_ready a → 0 ≤ k < zlen (t_group_arbiters a) → partial a k s →
  returns (arbitrate_group (t_group_reqs a) k s) (partial a (k + 1)).
Proof.
  intros (Hc & _ & Hgrp & _ & _) Hk [Hl [Hga Hgr] Hsz Htodo Hdone]. destruct s as [gs glob]. simpl in *.
  destruct Hc as [Hb Hgs Hbs Hrl Hg Hglob]. destruct (Htodo k ltac:(lia)) as [Ek Hnk].
  destruct (Hgrp k Hk) as (Hrdy & Hnum & Hsl). unfold arbitrate_group. rsteps.
  destruct (Z.eqb_spec ((t_group_reqs a)⟦k⟧) 0) as [E0|E0]; simpl.
  { apply returns_ok. split; simpl; try done; [intros g Hr; apply Htodo; lia|].
    intros g Hr. destruct (decide (g = k)) as [->|]; [|apply Hdone; lia].
    unfold group_done. by rewrite decide_True. }
  rsteps. rewrite Ek.
  destruct (law_Arbitrate _ Hrdy) as ([ga [w out]] & -> & Hdec & Hsa & _ & Hlw & _ & Hspec). simpl in *.
  rewrite Hg in Hspec, Hsa by done. rsteps.
  destruct Hspec as [[_ Hno]|(s & id & pri & [= -> ->] & Hs & Hrs & Hmax)].
  { destruct E0. rewrite <- Hnum. apply (law_NumReqs _ Hrdy). by rewrite Hg. }
  destruct (law_AddRequest glob k id pri Hgr ltac:(lia) Hnk) as (glob' & -> & Hgr' & Hga' & _ & Hrq').
  apply returns_ok. rewrite Hga in Hrq'. split; simpl.
  - by rewrite zlen_zupd.
  - split; [by rewrite Hga'|done].
  - intros g Hr. rewrite znth_zupd by lia. case_decide; [done|by apply Hsz].
  - intros g Hr. rewrite znth_zupd_ne, Hrq' by lia. unfold add_rq. rewrite decide_False by lia. apply Htodo. lia.
  - intros g Hr. unfold group_done. rewrite Hrq' by lia. unfold add_rq. rewrite znth_zupd by lia.
    destruct (decide (k = g)) as [<-|Hne].
    + rewrite decide_False, decide_True by done. split; [done|]. exists id, pri. rewrite Hlw.
      split; [done|]. split; [by rewrite <- Hsl|]. split; [done|].
      intros l id' pri' Hlr. rewrite <- Hsl by done. by apply Hmax.
    + rewrite (decide_False (P := g = k)) by done. apply Hdone. lia.
Qed.

(** If no group has a winner there is no request at all. *)
Lemma no_winner a s :
  t_ready a → partial a (zlen (t_group_arbiters a)) s →
  (∀ g, 0 ≤ g < zlen (t_group_arbiters a) → rq s.2 g = None) → a_num_reqs (t_base a) = 0.
Proof.
  intros ([Hb Hgs Hbs Hrl Hg Hglob] & _ & Hgrp & _) [_ _ _ _ Hdone] Hno.
  apply base_num_0; [done|]. intros i Hi.
  assert (0 ≤ i / t_group_size a < zlen (t_group_arbiters a)) as Hq.
  { split; [apply Z.div_pos; lia|]. apply Z.div_lt_upper_bound; lia. }
  pose proof (Z.div_mod i (t_group_size a) ltac:(lia)). pose proof (Z.mod_pos_bound i (t_group_size a) Hgs).
  specialize (Hdone _ Hq). unfold group_done in Hdone. destruct (decide _) as [E0|E0].
  - destruct (Hgrp _ Hq) as (Hr' & Hn' & Hsl'). rewrite E0 in Hn'.
    replace i with (i / t_group_size a * t_group_size a + i mod t_group_size a) by lia.
    rewrite <- Hsl' by done. apply (law_NumReqs _ Hr'); [done|]. by rewrite Hg.
  - destruct Hdone as [_ (? & ? & _ & _ & E & _)]. rewrite Hno in E by done. done.
Qed.

(** The global winner beats every request. *)
Lemma winner_max a s g id pri :
  t_ready a → partial a (zlen (t_group_arbiters a)) s → 0 ≤ g < zlen (t_group_arbiters a) →
  rq s.2 g = Some (id, pri) →
  (∀ j id' pri', 0 ≤ j < zlen (t_group_arbiters a) → rq s.2 j = Some (id', pri') → pri' ≤ pri) →
  ∀ j id' pri', 0 ≤ j < a_size (t_base a) → brq (t_base a) j = Some (id', pri') → pri' ≤ pri.
Proof.
  intros ([Hb Hgs Hbs Hrl Hg Hglob] & _ & Hgrp & _) [_ _ _ _ Hdone] Hgr Hrq Hmax j id' pri' Hj Hrj.
  assert (0 ≤ j / t_group_size a < zlen (t_group_arbiters a)) as Hq.
  { split; [apply Z.div_pos; lia|]. apply Z.div_lt_upper_bound; lia. }
  pose proof (Z.div_mod j (t_group_size a) ltac:(lia)). pose proof (Z.mod_pos_bound j (t_group_size a) Hgs).
  replace j with (j / t_group_size a * t_group_size a + j mod t_group_size a) in Hrj by lia.
  specialize (Hdone _ Hq). unfold group_done in Hdone. destruct (decide _) as [E0|E0].
  - destruct (Hgrp _ Hq) as (Hr' & Hn' & Hsl'). rewrite E0 in Hn'. rewrite <- Hsl' in Hrj by done.
    rewrite (proj1 (proj1 (law_NumReqs _ Hr')) Hn') in Hrj by (by rewrite Hg). done.
  - destruct Hdone as [_ (? & p & _ & _ & E & Hall)].
    pose proof (Hall _ _ _ ltac:(done) Hrj). pose proof (Hmax _ _ _ Hq E). lia.
Qed.

Lemma TreeArbitrate_ok a :
  t_ready a →
  returns (Arbitrate a) (λ r,
    t_decided r.1 ∧ t_base r.1 = set_selected (r.2.1) (t_base a) ∧
    arb_spec (a_size (t_base a)) (brq (t_base a)) r.2).
Proof.
  intros Ha. pose proof Ha as (Hc & Hsel & Hgrp & Hrdy & Hnone). pose proof Hc as [Hb Hgs Hbs Hrl Hg Hglob].
  unfold Arbitrate. destruct (Z.eqb_spec (a_num_reqs (t_base a)) 0) as [En|En].
  { apply returns_ok. simpl. split; [|split; [|left; split; [done|by apply base_num_0]]].
    - split; [done|]. split; [done|]. by intros.
    - destruct (t_base a); simpl in *. by subst. }
  pose proof (zlen_nonneg (t_group_arbiters a)) as HG.
  eapply returns_bind.
  { apply (returns_for (partial a)); [done| |intros; by apply arbitrate_group_ok].
    split; simpl; try done; [|lia]. intros g Hr. split; [done|by apply Hnone]. }
  intros [gs glob] Hpart. pose proof Hpart as [Hl [Hga Hgr] Hsz Htodo Hdone]. simpl in *.
  destruct (law_Arbitrate glob Hgr) as ([glob' [g out]] & -> & Hgd & Hgs' & _ & Hlw & _ & Hspec).
  simpl in *. rewrite Hga in Hspec.
  destruct Hspec as [[_ Hno]|(s & id & pri & [= -> ->] & Hs & Hrs & Hmax)].
  { destruct En. by apply (no_winner a (gs, glob)). }
  pose proof (winner_max a (gs, glob) s id pri Ha Hpart Hs Hrs Hmax) as Hall.
  pose proof (Hdone s Hs) as Hd. unfold group_done in Hd. destruct (decide _) as [E0|E0].
  { destruct Hd as [_ E]. congruence. }
  destruct Hd as [Hdec (id0 & pri0 & Hw & Hbw & Erq & _)]. rewrite Hrs in Erq. injection Erq as <- <-.
  cbn [mbind res_bind]. do 2 rstep. do 2 (apply returns_assert; [nia|]).
  rewrite (base_Arbitrate _ _ id pri) by (first [done|nia]). apply returns_ok. simpl.
  split; [|split; [done|right; exists (s * t_group_size a + LastWinner (gs⟦s⟧)), id, pri;
                   split_and!; first [done|nia]]].
  assert (tcommon (mkTree (set_selected (s * t_group_size a + LastWinner (gs⟦s⟧)) (t_base a))
            (t_group_size a) gs glob' (t_group_reqs a))) as Hc'.
  { split; simpl; try done; rewrite ?Hl; try done; [|congruence]. apply base_ok_selected; [done|nia]. }
  split; [done|]. split; [done|]. intros _. simpl. rewrite Hl, Hlw. split_and!; try done; try lia.
  intros j Hj. pose proof (Hdone j Hj) as Hd. unfold group_done in Hd. destruct (decide _).
  - left. destruct Hd as [-> _]. by apply Hgrp.
  - right. apply Hd.
Qed.

Lemma TreeUpdate_decided a :
  t_decided a → returns (UpdateState a) (λ a', t_decided a' ∧ t_base a' = t_base a).
Proof.
  intros Ha. pose proof Ha as (Hc & Hz & Hnz). pose proof Hc as [Hb Hgs Hbs Hrl Hg Hglob]. unfold UpdateState.
  destruct (Z.ltb_spec (-1) (a_selected (t_base a))) as [Hsel|Hsel]; [|by apply returns_ok].
  assert (a_num_reqs (t_base a) ≠ 0) as En. { intros E. destruct (Hz E) as (_ & E' & _). lia. }
  destruct (Hnz En) as (Hgrp & Hgd & Hw & Hwd).
  apply returns_assert; [lia|]. rstep.
  destruct (law_UpdateState _ Hwd) as (g' & -> & Hg' & Hsz' & _). cbn [mbind res_bind]. rstep.
  destruct (law_UpdateState _ Hgd) as (glob' & -> & Hgd' & Hgs' & Hlw). cbn [mbind res_bind]. apply returns_ok.
  split; [|done]. split; [|split; [done|]].
  - split; simpl; rewrite ?zlen_zupd; try done; [|congruence].
    intros g Hr. rewrite znth_zupd by lia. case_decide; [by rewrite Hsz', Hg|by apply Hg].
  - intros _. simpl. rewrite zlen_zupd, Hlw. split_and!; try done; try lia; [|by rewrite znth_zupd_eq].
    intros g Hr. rewrite znth_zupd by lia. case_decide; [by right|by apply Hgrp].
Qed.

Lemma TreeClear_ready a :
  t_ready a ∨ t_decided a →
  t_ready (Clear a) ∧ a_size (t_base (Clear a)) = a_size (t_base a) ∧
  a_num_reqs (t_base (Clear a)) = 0 ∧
  ∀ i, 0 ≤ i < a_size (t_base a) → brq (t_base (Clear a)) i = None.
Proof.
  intros Ha. assert (tcommon a) as [Hb Hgs Hbs Hrl Hg Hglob] by (destruct Ha as [[? _]|[? _]]; done).
  unfold Clear. destruct (Z.eqb_spec (a_num_reqs (t_base a)) 0) as [En|En].
  { split_and!; try done; [|by apply base_num_0]. destruct Ha as [?|(_ & Hz & _)]; auto. }
  assert ((∀ g, 0 ≤ g < zlen (t_group_arbiters a) →
      ready ((t_group_arbiters a)⟦g⟧) ∨ decided ((t_group_arbiters a)⟦g⟧)) ∧
    (ready (t_global_arbiter a) ∨ decided (t_global_arbiter a))) as [Hgrp Hgl].
  { destruct Ha as [(_ & _ & Hgrp & Hr & _)|(_ & _ & Hnz)].
    - split; [|by left]. intros g Hr'. left. by apply Hgrp.
    - destruct (Hnz En) as (? & ? & _). by split; [|right]. }
  destruct (base_Clear _ Hb) as (B1 & B2 & B3 & B4 & _ & _ & B7).
  destruct (law_Clear _ Hgl) as (G1 & G2 & G3 & G4).
  simpl. split_and!; try done. split; [|split; [|split; [|split]]]; simpl.
  - split; simpl; rewrite ?zlen_fmap; try done; try lia.
    intros g Hr. rewrite znth_fmap by done. by rewrite (proj1 (proj2 (law_Clear _ (Hgrp g Hr)))), Hg.
  - destruct B4 as [?|[? _]]; done.
  - rewrite zlen_fmap. intros g Hr. rewrite !znth_fmap by lia.
    destruct (law_Clear _ (Hgrp g Hr)) as (C1 & C2 & C3 & C4). split_and!; try done.
    intros k Hk. rewrite C4 by (by rewrite Hg). rewrite B7 by nia. done.
  - done.
  - rewrite zlen_fmap. intros g Hr. apply G4. lia.
Qed.

Lemma TreeNew_ready new size groups :
  (∀ n, n = size `quot` groups ∨ n = groups → returns (new n) (λ a, ready a ∧ asize a = n ∧ NumReqs a = 0)) →
  0 < size → 0 < groups → size mod groups = 0 →
  returns (New new size groups) (λ a, t_ready a ∧ a_size (t_base a) = size ∧ a_num_reqs (t_base a) = 0).
Proof.
  intros Hnew Hs Hgr Hdiv. unfold New. pose proof (Z.div_mod size groups ltac:(lia)).
  destruct (base_New size ltac:(lia)) as (b & -> & Hb & Hbs & Hn & Hsel & _ & _ & Hrq).
  cbn [mbind res_bind]. destruct (Z.leb_spec groups 0); [lia|]. rewrite rem_mod by lia. rewrite Hdiv.
  destruct (Hnew (size `quot` groups)) as (g & -> & Hg1 & Hg2 & Hg3); [by left|].
  destruct (Hnew groups) as (gl & -> & Hl1 & Hl2 & Hl3); [by right|].
  rewrite quot_div in * by lia. apply returns_ok. simpl. split; [|done].
  split; [|split; [done|]]; simpl.
  - split; simpl; rewrite ?zlen_replicate by lia; try done; try nia.
    intros i Hi. by rewrite znth_replicate.
  - rewrite zlen_replicate by lia. split; [|split; [done|]].
    + intros i Hi. rewrite !znth_replicate by done. split; [done|]. split; [done|]. intros k Hk.
      rewrite (proj1 (proj1 (law_NumReqs _ Hg1)) Hg3) by lia. rewrite Hrq by nia. done.
    + intros i Hi. apply (law_NumReqs _ Hl1); [done|lia].
Qed.
End tree.
End TreeInv.

#[export] Instance Tree_laws (A : Set) `{Inhabited A} `{!Arbiter A} `{!ArbiterLaws A} : ArbiterLaws (Tree A).
Proof.
  refine (Build_ArbiterLaws _ _ (λ a, a_size (t_base a)) (λ a, BaseInv.brq (t_base a))
    TreeInv.t_ready TreeInv.t_decided _ _ _ _ _ _).
  - intros a ([Hb _ _ _ _ _] & _). split; [by apply BaseInv.base_num_0|by apply BaseInv.base_num_nonneg].
  - intros a i id pri Ha Hi Hr. by apply TreeInv.TreeAdd_ready.
  - intros a Ha. eapply returns_mono; [by apply TreeInv.TreeArbitrate_ok|].
    intros [a' g] (Hd & Hb & Hspec). simpl in *. rewrite Hb. done.
  - intros a Ha. eapply returns_mono; [by apply TreeInv.TreeUpdate_decided|].
    intros a' [? Hb]. simpl. by rewrite Hb.
  - intros a (_ & Hz & _) Hn. by apply Hz.
  - intros a Ha. by apply TreeInv.TreeClear_ready.
Defined.
