(* ===== verification/Arbitration.v ===== *)
(** * Arbitration cycles

    A cycle of an arbiter (clear, add the requests, arbitrate, update) for every
    arbiter [NewArbiter] builds, the fairness interface [FairArbiter] with its
    instances for round robin and matrix arbiters, and the list-based
    [PriorityArbiter]. *)

From S2P Require Import Prelude Arbiter ArbiterProofs.

(** ** Everything [NewArbiter] builds satisfies the laws *)

Fixpoint carrier_laws (t : arb_type) : ArbiterLaws (carrier t) :=
  match t with
  | ArbRoundRobin => RoundRobin_laws
  | ArbMatrix => Matrix_laws
  | ArbTree _ s => @Tree_laws (carrier s) (carrier_inhabited s) (carrier_arbiter s) (carrier_laws s)
  end.
#[export] Existing Instance carrier_laws.

(** Group counts divide the sizes. *)
Fixpoint fits (t : arb_type) (n : Z) : Prop :=
  match t with
  | ArbRoundRobin | ArbMatrix => 0 < n
  | ArbTree g s => 0 < n ∧ 0 < g ∧ n mod g = 0 ∧ fits s (n `quot` g) ∧ fits s g
  end.

Lemma fits_pos t n : fits t n → 0 < n.
Proof. destruct t; simpl; tauto. Qed.

Lemma NewArbiter_ready t : ∀ n,
  fits t n → returns (NewArbiter t n) (λ a, ready a ∧ asize a = n ∧ NumReqs a = 0).
Proof.
  induction t as [| |g s IH]; intros n Hf.
  - eapply returns_mono; [by apply RoundRobinInv.New_ready|]. intros a (Ha & Hs & _ & Hrq).
    split; [exact Ha|]. split; [exact Hs|]. apply (@law_NumReqs RoundRobin _ RoundRobin_laws a Ha). simpl. by rewrite Hs.
  - eapply returns_mono; [by apply MatrixInv.MatrixNew_ready|]. intros a (Ha & Hs & Hrq).
    assert (@ready Matrix _ Matrix_laws a) as Hr by (by eexists).
    split; [exact Hr|]. split; [exact Hs|]. apply (@law_NumReqs Matrix _ Matrix_laws a Hr). simpl. by rewrite Hs.
  - destruct Hf as (Hn & Hg & Hd & Hf1 & Hf2). apply TreeInv.TreeNew_ready; try done.
    intros k [->| ->]; by apply IH.
Qed.

(** ** Cycles *)

Abbreviation request := (Z * Z * Z)%type.  (* input, id, priority *)

Section cycles.
Context {A : Set} `{!Arbiter A} `{!ArbiterLaws A}.

Definition add_all (a : A) (rs : list request) : res A :=
  foldl (λ m '(i, id, pri), a ← m; AddRequest a i id pri) (Ok a) rs.

Definition cycle (a : A) (rs : list request) : res (A * Z) :=
  a ← add_all (Clear a) rs;
  '(a, (s, _)) ← Arbitrate a;
  a ← UpdateState a;
  Ok (a, s).

Fixpoint cycles (a : A) (rss : list (list request)) : res (A * list Z) :=
  match rss with
  | [] => Ok (a, [])
  | rs :: rss =>
      '(a, s) ← cycle a rs;
      '(a, ss) ← cycles a rss;
      Ok (a, s :: ss)
  end.

Definition reqs_ok (n : Z) (rs : list request) : Prop :=
  NoDup (rs.*1.*1) ∧ Forall (λ r, 0 ≤ r.1.1 < n) rs.

(** The winner of a set of requests. *)
Definition best_of (rs : list request) (s : Z) : Prop :=
  (rs = [] ∧ s = -1) ∨
  ∃ id pri, (s, id, pri) ∈ rs ∧ ∀ j id' pri', (j, id', pri') ∈ rs → pri' ≤ pri.

Definition in_cycle (n : Z) (a : A) : Prop := (ready a ∨ decided a) ∧ asize a = n.

(** [holds n rs a]: the requests of [a] are [rs]. *)
Definition holds (n : Z) (rs : list request) (a : A) : Prop :=
  ∀ i id pri, 0 ≤ i < n → (rq a i = Some (id, pri) ↔ (i, id, pri) ∈ rs).

(** The next request of the list is new. *)
Lemma next_fresh n dn i id pri rs a :
  reqs_ok n (dn ++ (i, id, pri) :: rs) → holds n dn a → 0 ≤ i < n ∧ rq a i = None.
Proof.
  intros [Hnd Hrange] Hh. rewrite Forall_app, Forall_cons in Hrange.
  destruct Hrange as (_ & Hi & _). simpl in Hi. split; [done|].
  destruct (rq a i) as [[id' pri']|] eqn:E; [|done]. apply Hh in E; [|done].
  rewrite !fmap_app, !fmap_cons in Hnd. apply NoDup_app in Hnd as (_ & Hdis & _).
  destruct (Hdis i); [|by left]. apply list_elem_of_fmap. exists (i, id'). split; [done|].
  apply list_elem_of_fmap. by exists (i, id', pri').
Qed.

Lemma add_all_ok n rs : ∀ done_ a,
  ready a → asize a = n → holds n done_ a → reqs_ok n (done_ ++ rs) →
  returns (add_all a rs) (λ a', ready a' ∧ asize a' = n ∧ holds n (done_ ++ rs) a').
Proof.
  unfold add_all. induction rs as [|[[i id] pri] rs IH]; intros dn a Hr Hs Hh Hok; simpl.
  { apply returns_ok. by rewrite app_nil_r. }
  destruct (next_fresh n dn i id pri rs a Hok Hh) as [Hi Hnone].
  destruct (law_AddRequest a i id pri Hr ltac:(by rewrite Hs) Hnone) as (a' & -> & Hr' & Hs' & _ & Hrq').
  rewrite Hs in Hrq'. rewrite cons_middle, app_assoc. apply IH; [done|congruence| |by rewrite <- app_assoc].
  intros j idj prij Hj. rewrite Hrq' by done. unfold add_rq. rewrite elem_of_app, list_elem_of_singleton.
  case_decide as Hd.
  - subst j. split; [intros [= -> ->]; by right|]. intros [Hin|[= -> ->]]; [|done].
    apply Hh in Hin; [congruence|done].
  - rewrite (Hh j idj prij Hj). split; [by left|]. intros [?|[= ? ? ?]]; [done|congruence].
Qed.

Lemma best_of_spec n rs a g :
  asize a = n → holds n rs a → Forall (λ r, 0 ≤ r.1.1 < n) rs → arb_spec n (rq a) g → best_of rs g.1.
Proof.
  intros Hs Hh Hr [[-> Hnone]|(s & id & pri & -> & Hs' & Hrq & Hmax)]; simpl.
  - left. split; [|done]. destruct rs as [|[[i id] pri] rs]; [done|].
    apply Forall_cons in Hr as [Hi _]. simpl in Hi.
    specialize (Hnone i Hi). specialize (Hh i id pri Hi). destruct Hh as [_ Hh].
    rewrite Hh in Hnone by (by left). done.
  - right. exists id, pri. split; [by apply Hh|]. intros j id' pri' Hin.
    rewrite Forall_forall in Hr. specialize (Hr _ Hin). simpl in Hr. apply (Hmax j id' pri'); [done|].
    by apply Hh.
Qed.

Lemma cycle_ok n a rs :
  in_cycle n a → reqs_ok n rs →
  returns (cycle a rs) (λ r, in_cycle n r.1 ∧ best_of rs r.2).
Proof.
  intros [Ha Hs] Hok. destruct (law_Clear a Ha) as (Hc & Hcs & _ & Hnone). unfold cycle.
  destruct (add_all_ok n rs [] (Clear a) Hc ltac:(congruence)) as (a1 & -> & H1 & H2 & H3).
  { intros i id pri Hi. rewrite Hnone by (by rewrite Hs). split; [done|by intros ?%elem_of_nil]. }
  { done. }
  destruct (law_Arbitrate a1 H1) as ([a2 [s out]] & E & Hd & Hsz & _ & _ & _ & Hspec). simpl in *. rewrite E.
  cbn [mbind res_bind].
  destruct (law_UpdateState a2 Hd) as (a3 & -> & Hd3 & Hs3 & _). apply returns_ok. simpl. split.
  - split; [by right|congruence].
  - rewrite H2 in Hspec. by apply (best_of_spec n rs a1 (s, out)); [..|apply Hok|].
Qed.

Lemma cycles_ok n rss : ∀ a,
  in_cycle n a → Forall (reqs_ok n) rss →
  returns (cycles a rss) (λ r, in_cycle n r.1 ∧ Forall2 best_of rss r.2).
Proof.
  induction rss as [|rs rss IH]; intros a Ha Hok; simpl; [by apply returns_ok|].
  apply Forall_cons in Hok as [Hrs Hrss].
  destruct (cycle_ok n a rs Ha Hrs) as ([a1 s] & -> & Ha1 & Hs). simpl in *.
  destruct (IH a1 Ha1 Hrss) as ([a2 ss] & -> & Ha2 & Hss). apply returns_ok. simpl in *.
  split; [done|]. by constructor.
Qed.
End cycles.

(** ** Fairness *)

(** [lag a i] bounds the rounds input [i] can still lose. *)
Class FairArbiter (A : Set) `{!Arbiter A} `{!ArbiterLaws A} := {
  lag : A → Z → Z;
  law_lag_range : ∀ a i, ready a ∨ decided a → 0 ≤ i < asize a → 0 ≤ lag a i < asize a;
  law_lag_Clear : ∀ a i, ready a ∨ decided a → lag (Clear a) i = lag a i;
  law_lag_Add : ∀ a i id pri a' j, ready a → 0 ≤ i < asize a → rq a i = None →
    AddRequest a i id pri = Ok a' → lag a' j = lag a j;
  law_lag_lose : ∀ a i id pri a1 g a2, ready a → 0 ≤ i < asize a → rq a i = Some (id, pri) →
    (∀ j id' pri', 0 ≤ j < asize a → rq a j = Some (id', pri') → pri' ≤ pri) →
    Arbitrate a = Ok (a1, g) → UpdateState a1 = Ok a2 → g.1 ≠ i → lag a2 i < lag a i
}.

Section fair.
Context {A : Set} `{!Arbiter A} `{!ArbiterLaws A} `{!FairArbiter A}.

(** [i] requests with the highest priority. *)
Definition top (i : Z) (rs : list request) : Prop :=
  ∃ id pri, (i, id, pri) ∈ rs ∧ ∀ j id' pri', (j, id', pri') ∈ rs → pri' ≤ pri.

Lemma add_all_lag n rs i : ∀ dn a a',
  ready a → asize a = n → holds n dn a → reqs_ok n (dn ++ rs) →
  add_all a rs = Ok a' → lag a' i = lag a i.
Proof.
  induction rs as [|[[j id] pri] rs IH]; intros dn a a' Hr Hs Hh Hok Hadd; [by injection Hadd as <-|].
  unfold add_all in Hadd. simpl in Hadd.
  assert (reqs_ok n (dn ++ [(j, id, pri)])) as Hok1.
  { destruct Hok as [Hnd Hf]. rewrite cons_middle, app_assoc, !fmap_app in Hnd.
    rewrite cons_middle, app_assoc, Forall_app in Hf. apply NoDup_app in Hnd as (Hnd & _ & _).
    split; [by rewrite !fmap_app|apply Hf]. }
  destruct (add_all_ok n [(j, id, pri)] dn a Hr Hs Hh Hok1) as (a1 & Ha1 & Hr1 & Hs1 & Hh1).
  unfold add_all in Ha1. simpl in Ha1.
  destruct (next_fresh n dn j id pri rs a Hok Hh) as [Hj Hnone].
  rewrite Ha1 in Hadd. rewrite (IH (dn ++ [(j, id, pri)]) a1 a' Hr1 Hs1 Hh1); [|by rewrite <- app_assoc|done].
  by apply (law_lag_Add a j id pri); [|rewrite Hs|..].
Qed.

Lemma cycle_lag n a rs i :
  in_cycle n a → reqs_ok n rs → top i rs →
  returns (cycle a rs) (λ r, in_cycle n r.1 ∧ (r.2 = i ∨ lag r.1 i < lag a i)).
Proof.
  intros Ha Hok (id & pri & Hin & Hmax). destruct (cycle_ok n a rs Ha Hok) as ([a3 s] & Hc & Ha3 & _).
  exists (a3, s). split; [done|]. split; [done|]. simpl in *.
  destruct (decide (s = i)) as [|Hne]; [by left|right]. destruct Ha as [Ha Hs].
  destruct (law_Clear a Ha) as (Hcr & Hcs & _ & Hnone). rewrite <- (law_lag_Clear a i Ha).
  assert (holds n [] (Clear a)) as Hh.
  { intros j idj prij Hj. rewrite Hnone by (by rewrite Hs). split; [done|by intros ?%elem_of_nil]. }
  unfold cycle in Hc. apply bind_ok_inv in Hc as (a1 & Hadd & Hc).
  apply bind_ok_inv in Hc as ([a2 [s' out]] & Harb & Hc). apply bind_ok_inv in Hc as (a3' & Hupd & [= <- <-]).
  rewrite Hs in Hcs.
  pose proof (returns_inv _ _ _ (add_all_ok n rs [] (Clear a) Hcr Hcs Hh Hok) Hadd) as (Hr1 & Hs1 & Hh1).
  rewrite <- (add_all_lag n rs i [] (Clear a) a1 Hcr Hcs Hh Hok Hadd).
  assert (0 ≤ i < n) as Hi.
  { destruct Hok as [_ Hf]. rewrite Forall_forall in Hf. exact (Hf _ Hin). }
  apply (law_lag_lose a1 i id pri a2 (s', out) a3' Hr1); [by rewrite Hs1|by apply Hh1| |done..].
  intros j id' pri'. rewrite Hs1. intros Hj Hrq. apply (Hmax j id'). by apply Hh1.
Qed.

Lemma cycles_fair n i rss : ∀ a,
  in_cycle n a → 0 ≤ i < n → Forall (reqs_ok n) rss → Forall (top i) rss →
  lag a i < zlen rss → returns (cycles a rss) (λ r, i ∈ r.2).
Proof.
  induction rss as [|rs rss IH]; intros a Ha Hi Hok Htop Hlag.
  { pose proof (law_lag_range a i (proj1 Ha)) as Hr. rewrite (proj2 Ha) in Hr.
    unfold zlen in Hlag. simpl in Hlag. lia. }
  apply Forall_cons in Hok as [Hrs Hrss]. apply Forall_cons in Htop as [Ht Htop]. simpl.
  destruct (cycle_lag n a rs i Ha Hrs Ht) as ([a1 s] & -> & Ha1 & Hs). simpl in *.
  destruct Hs as [->|Hs].
  - destruct (cycles_ok n rss a1 Ha1 Hrss) as ([a2 ss] & -> & _). apply returns_ok. by left.
  - destruct (IH a1 Ha1 Hi Hrss Htop) as ([a2 ss] & -> & Hin).
    { unfold zlen in *. simpl in Hlag. lia. }
    apply returns_ok. by right.
Qed.

(** After any earlier cycles. *)
Lemma cycles_fair_after n i before rss a :
  in_cycle n a → 0 ≤ i < n → n ≤ zlen rss → Forall (reqs_ok n) before → Forall (reqs_ok n) rss → Forall (top i) rss →
  returns ('(a, _) ← cycles a before; cycles a rss) (λ r, i ∈ r.2).
Proof.
  intros Ha Hi Hlen Hb Hok Htop. eapply returns_bind; [by apply (cycles_ok n)|]. intros [a1 ss] [Ha1 _]. simpl in Ha1.
  apply (cycles_fair n); try done. pose proof (law_lag_range a1 i (proj1 Ha1)) as Hr. rewrite (proj2 Ha1) in Hr. lia.
Qed.
End fair.

(** *** Round robin *)

Lemma dist_after n ptr s i :
  0 ≤ ptr < n → 0 ≤ s < n → 0 ≤ i < n →
  RoundRobinInv.dist n ptr s < RoundRobinInv.dist n ptr i →
  RoundRobinInv.dist n ((s + 1) mod n) i < RoundRobinInv.dist n ptr i.
Proof.
  intros Hp Hs Hi. pose proof (Z.mod_pos_bound (s + 1) n ltac:(lia)) as Hb.
  rewrite !RoundRobinInv.dist_eq by done.
  assert ((s + 1) mod n = if s + 1 =? n then 0 else s + 1) as ->.
  { destruct (Z.eqb_spec (s + 1) n) as [->|]; [apply Z_mod_same_full|apply Z.mod_small; lia]. }
  destruct (Z.eqb_spec (s + 1) n), (Z.ltb_spec s ptr), (Z.ltb_spec i ptr);
    repeat match goal with |- context [?x <? ?y] => destruct (Z.ltb_spec x y) end; lia.
Qed.

#[export] Instance RoundRobin_fair : FairArbiter RoundRobin.
Proof.
  assert (∀ a : RoundRobin, ready a ∨ decided a → RoundRobinInv.common a) as Hcommon
    by (intros a [(? & _)|[? _]]; done).
  refine (Build_FairArbiter _ _ _ (λ a i, RoundRobinInv.dist (a_size (rr_base a)) (rr_pointer a) i) _ _ _ _).
  - intros a i Ha Hi. destruct (Hcommon a Ha) as [_ Hp]. by apply RoundRobinInv.dist_range.
  - intros a i Ha. destruct (RoundRobinInv.Clear_ready a Ha) as (_ & Hs & _ & Hp & _).
    change (RoundRobinInv.dist (a_size (rr_base (RoundRobinOps.Clear a)))
      (rr_pointer (RoundRobinOps.Clear a)) i = RoundRobinInv.dist (a_size (rr_base a)) (rr_pointer a) i).
    by rewrite Hs, Hp.
  - intros a i id pri a' j Ha Hi Hr Hadd.
    destruct (returns_inv _ _ _ (RoundRobinInv.AddRequest_ready a i id pri Ha Hi Hr) Hadd) as (_ & Hs & _ & Hp & _).
    by rewrite Hs, Hp.
  - intros a i id pri a1 g a2 Ha Hi Hr Hmax Harb Hupd Hne.
    destruct (returns_inv _ _ _ (RoundRobinInv.Arbitrate_first a Ha) Harb) as (Hd & Hb & Hp & Hspec). simpl in *.
    destruct (returns_inv _ _ _ (RoundRobinInv.UpdateState_decided a1 Hd) Hupd) as (_ & Hb2 & Hp2).
    destruct (Hcommon a (or_introl Ha)) as [_ Hptr].
    destruct Hspec as [[_ Hnone]|(s & ids & pris & -> & Hs & Hrs & Hf)]; [by rewrite Hnone in Hr by done|].
    simpl in *. rewrite Hb2, Hp2, Hb. simpl. destruct (Z.ltb_spec (-1) s); [|lia].
    apply dist_after; try done. specialize (Hf i id pri Hi ltac:(done) Hr).
    apply RoundRobinInv.Supersedes_spec in Hf. specialize (Hmax s ids pris Hs Hrs). lia.
Defined.

(** *** Matrix: the inputs served before [i], a column of the matrix *)

Definition column (m : list (list Z)) (n i : Z) : Z := zsumf (λ j, m⟦j⟧⟦i⟧) n.

Lemma column_range n m r i : MatrixInv.lru n m r → 0 ≤ i < n → 0 ≤ column m n i < n.
Proof.
  intros Hm Hi. unfold column. split.
  - apply zsumf_nonneg; [lia|]. intros j Hj. rewrite (MatrixInv.lru_bit _ _ _ Hm) by done. by destruct (_ <? _).
  - set (g := λ j : Z, if decide (j = i) then 0 else 1).
    assert (zsumf (λ j, m⟦j⟧⟦i⟧) n ≤ zsumf g n) as Hle.
    { apply zsumf_le; [lia|]. intros j Hj. rewrite (MatrixInv.lru_bit _ _ _ Hm) by done. subst g. simpl.
      case_decide; [subst; by rewrite Z.ltb_irrefl|]. by destruct (_ <? _). }
    rewrite (zsumf_change (λ _, 1) g n i Hi) in Hle.
    + rewrite zsumf_const in Hle by lia. subst g. simpl in Hle. rewrite decide_True in Hle by done. lia.
    + intros w Hw Hne. subst g. simpl. by rewrite decide_False.
Qed.

Lemma column_touch n m m' r s t i :
  MatrixInv.lru n m r → MatrixInv.lru n m' (MatrixInv.touch r s t) →
  0 ≤ s < n → 0 ≤ i < n → r s < r i → r i < t →
  column m' n i = column m n i - 1.
Proof.
  intros Hm Hm' Hs Hi Hlt Ht. unfold column.
  rewrite (zsumf_change (λ j, m⟦j⟧⟦i⟧) _ n s Hs).
  - rewrite !(MatrixInv.lru_bit _ _ _ Hm'), !(MatrixInv.lru_bit _ _ _ Hm) by done. unfold MatrixInv.touch.
    rewrite decide_True by done. rewrite decide_False by (intros ->; lia).
    destruct (Z.ltb_spec t (r i)), (Z.ltb_spec (r s) (r i)); lia.
  - intros w Hw Hne. rewrite !(MatrixInv.lru_bit _ _ _ Hm'), !(MatrixInv.lru_bit _ _ _ Hm) by done.
    unfold MatrixInv.touch. rewrite !decide_False by (first [done|intros ->; lia]). done.
Qed.

#[export] Instance Matrix_fair : FairArbiter Matrix.
Proof.
  refine (Build_FairArbiter _ _ _ (λ a i, column (m_matrix a) (a_size (m_base a)) i) _ _ _ _).
  - intros a i Ha Hi. assert (∃ r, MatrixInv.mcommon a r) as (r & [H0 Hb Hm])
      by (destruct Ha as [(r & ? & _)|(r & ? & _)]; by exists r).
    by eapply column_range.
  - intros a i Ha. assert (∃ r, MatrixInv.m_ready a r ∨ MatrixInv.m_decided a r) as [r Hr]
      by (destruct Ha as [[r ?]|[r ?]]; exists r; auto).
    destruct (MatrixInv.MatrixClear_ready a r Hr) as (_ & Hs & Hm & _).
    change (column (m_matrix (MatrixOps.Clear a)) (a_size (m_base (MatrixOps.Clear a))) i
      = column (m_matrix a) (a_size (m_base a)) i). by rewrite Hs, Hm.
  - intros a i id pri a' j [r Ha] Hi Hr Hadd.
    destruct (returns_inv _ _ _ (MatrixInv.MatrixAdd_ready a r i id pri Ha Hi Hr) Hadd) as (_ & Hs & Hm & _).
    by rewrite Hs, Hm.
  - intros a i id pri a1 g a2 [r Ha] Hi Hr Hmax Harb Hupd Hne.
    destruct (returns_inv _ _ _ (MatrixInv.MatrixArbitrate_oldest a r Ha) Harb) as (Hd & Hb & Hm & Hspec).
    simpl in *. destruct Ha as ([H0 _ Hlru] & _).
    destruct (MatrixInv.time_bound (a_size (m_base a1)) r) as [t Ht]; [rewrite Hb; simpl; lia|].
    destruct (returns_inv _ _ _ (MatrixInv.MatrixUpdate_decided a1 r t Hd Ht) Hupd) as ([[_ _ Hlru2] _] & Hb2).
    destruct Hspec as [[_ Hnone]|(s & ids & pris & -> & Hrs & Hs & _ & Ho)]; [by rewrite Hnone in Hr by done|].
    simpl in *. rewrite Hb2, Hb in *. simpl in *. destruct (Z.ltb_spec (-1) s); [|lia].
    assert (r s < r i).
    { pose proof (Hmax s ids pris Hs Hrs). pose proof (MatrixInv.lru_inj _ _ _ Hlru s i Hs Hi).
      destruct (Z.lt_trichotomy (r s) (r i)) as [?|[?|?]]; [done|by destruct Hne; auto|].
      destruct (Ho i Hi). do 4 eexists. split; [done|]. split; [done|]. lia. }
    rewrite (column_touch _ _ _ r s t i Hlru Hlru2) by auto. lia.
Defined.

(** ** Properties of the arbiters *)

(** C21. Whatever arbiter a configuration names (round robin, matrix, nested
    trees whose group counts divide the sizes), over any number of cycles with
    any requests no assertion fails, and the winner of every cycle is a
    requester of the highest priority, or -1 when nothing is requested. *)
Theorem arbiter_cycles t n rss :
  fits t n → Forall (reqs_ok n) rss →
  returns (a ← NewArbiter t n; cycles a rss) (λ r, Forall2 best_of rss r.2).
Proof.
  intros Hf Hok. destruct (NewArbiter_ready t n Hf) as (a & -> & Hr & Hs & _). simpl.
  eapply returns_mono; [apply (cycles_ok n); [by split; [left|]|done]|]. by intros r [_ ?].
Qed.

Lemma arbiter_cycles_witness :
  returns (a ← NewArbiter (ArbTree 2 ArbMatrix) 4;
           cycles a [[(0, 10, 1); (3, 13, 2)]; []; [(1, 11, 5); (2, 12, 5)]])
    (λ r, Forall2 best_of [[(0, 10, 1); (3, 13, 2)]; []; [(1, 11, 5); (2, 12, 5)]] r.2).
Proof.
  apply arbiter_cycles; [by vm_compute|].
  repeat constructor; first [by vm_compute|by rewrite list_elem_of_singleton|apply not_elem_of_nil].
Defined.

(** C22. Round-robin and matrix arbiters are fair among requests of the highest
    priority: after any cycles with any requests [before], an input that in each of
    the next [n] cycles requests with a priority that no other request of the cycle
    exceeds wins one of them, [n] being the number of inputs. *)
Theorem arbiter_fair t n i before rss :
  t = ArbRoundRobin ∨ t = ArbMatrix → 0 < n → 0 ≤ i < n → n ≤ zlen rss →
  Forall (reqs_ok n) before → Forall (reqs_ok n) rss → Forall (top i) rss →
  returns (a ← NewArbiter t n; '(a, _) ← cycles a before; cycles a rss) (λ r, i ∈ r.2).
Proof.
  intros Ht Hn Hi Hlen Hb Hok Htop. assert (fits t n) as Hf by (by destruct Ht as [->| ->]).
  destruct (NewArbiter_ready t n Hf) as (a & -> & Hr & Hs & _). cbn [mbind res_bind].
  assert (in_cycle n a) as Ha by (by split; [left|]). destruct Ht as [->| ->].
  - by apply (cycles_fair_after (A := RoundRobin) n i before rss a).
  - by apply (cycles_fair_after (A := Matrix) n i before rss a).
Qed.

Lemma arbiter_fair_witness :
  returns (a ← NewArbiter ArbMatrix 2; '(a, _) ← cycles a [[(0, 1, 3)]]; cycles a [[(0, 1, 3); (1, 2, 3)]; [(0, 1, 3); (1, 2, 3)]])
    (λ r, 0 ∈ r.2).
Proof.
  apply (arbiter_fair ArbMatrix 2 0); [by right|done..| | |].
  - repeat constructor; first [by vm_compute|by rewrite list_elem_of_singleton|apply not_elem_of_nil].
  - repeat constructor; first [by vm_compute|by rewrite list_elem_of_singleton|apply not_elem_of_nil].
  - assert (top 0 [(0, 1, 3); (1, 2, 3)]) as H.
    { exists 1, 3. split; [by left|]. intros j id' pri' Hin.
      apply elem_of_cons in Hin as [[=]|Hin%list_elem_of_singleton]; simplify_eq; lia. }
    by repeat constructor.
Defined.

(** The matrix arbiter serves the least recently granted requester of the
    highest priority: with the times [r] of the last grants as ghost state,
    [Arbitrate] picks the oldest, and [UpdateState] at a later time [t] records
    exactly that grant. *)
Theorem matrix_least_recently_granted a r t :
  MatrixInv.m_ready a r → (∀ i, 0 ≤ i < a_size (m_base a) → r i < t) → 0 < a_num_reqs (m_base a) →
  returns ('(a1, (s, _)) ← MatrixOps.Arbitrate a; a2 ← MatrixOps.UpdateState a1; Ok (a2, s)) (λ res,
    MatrixInv.oldest (a_size (m_base a)) r (BaseInv.brq (m_base a)) res.2 ∧
    MatrixInv.m_decided res.1 (MatrixInv.touch r res.2 t)).
Proof.
  intros Ha Ht Hn. pose proof Ha as ([H0 Hb _] & _).
  destruct (MatrixInv.MatrixArbitrate_oldest a r Ha) as ([a1 g] & -> & Hd & Hb1 & _ & Hspec). simpl in *.
  destruct Hspec as [[_ Hnone]|(s & id & pri & -> & _ & Ho)].
  { apply BaseInv.base_num_0 in Hnone; [lia|done]. }
  simpl in *. destruct (MatrixInv.MatrixUpdate_decided a1 r t Hd) as (a2 & -> & Hd2 & _).
  { by rewrite Hb1. }
  apply returns_ok. simpl. split; [done|]. rewrite Hb1 in Hd2. simpl in Hd2.
  destruct (Z.ltb_spec (-1) s); [done|]. destruct Ho as [? _]. lia.
Qed.

Definition sample_matrix : Matrix :=
  mkMatrix (mkBase [mkEntry true 5 0; mkEntry true 6 0] 2 (-1) int_min (-1) 2) [[0; 0]; [1; 0]] 1.

Lemma sample_matrix_ready : MatrixInv.m_ready sample_matrix (λ i, - i).
Proof.
  split; [|by split; [|split]]. split; [done|by split|].
  split; [done| | |lia].
  - intros i Hi. assert (i = 0 ∨ i = 1) as [->| ->] by (simpl in Hi; lia); done.
  - intros i j Hi Hj. simpl in Hi, Hj.
    assert (i = 0 ∨ i = 1) as [->| ->] by lia; assert (j = 0 ∨ j = 1) as [->| ->] by lia; done.
Qed.

Lemma matrix_least_recently_granted_witness :
  returns ('(a1, (s, _)) ← MatrixOps.Arbitrate sample_matrix; a2 ← MatrixOps.UpdateState a1; Ok (a2, s)) (λ res,
    MatrixInv.oldest 2 (λ i, - i) (BaseInv.brq (m_base sample_matrix)) res.2 ∧
    MatrixInv.m_decided res.1 (MatrixInv.touch (λ i, - i) res.2 7)).
Proof.
  exact (matrix_least_recently_granted sample_matrix (λ i, - i) 7 sample_matrix_ready
    ltac:(simpl; lia) ltac:(simpl; lia)).
Defined.

(** ** [PriorityArbiter] *)

Module PriorityInv.
Import PriorityOps.

Definition sorted (l : list sRequest) : Prop := StronglySorted (λ x y, q_in x < q_in y) l.

Lemma insert_request_sorted r l : sorted l → sorted (insert_request r l).
Proof.
  unfold sorted. induction 1 as [|x l Hs IH Hx]; simpl; [by repeat constructor|].
  destruct (Z.ltb_spec (q_in x) (q_in r)).
  - constructor; [done|]. assert (∀ y, y ∈ insert_request r l → y = r ∨ y ∈ l) as Hin.
    { clear. induction l as [|z l IH]; simpl; intros y.
      - intros ->%list_elem_of_singleton. by left.
      - repeat case_match; rewrite !elem_of_cons; pose proof (IH y); intuition. }
    apply Forall_forall. intros y [->|Hy]%Hin; [done|]. rewrite Forall_forall in Hx. by apply Hx.
  - destruct (Z.eqb_spec (q_in x) (q_in r)) as [E|E]; [destruct (q_pri x <? q_pri r)|].
    + constructor; [done|]. by rewrite <- E.
    + by constructor.
    + constructor; [by constructor|]. constructor; [lia|]. eapply Forall_impl; [exact Hx|]. simpl. lia.
Qed.

(** The scan's best request so far. *)
Definition upd (acc : Z * Z) (x : sRequest) : Z * Z :=
  if (acc.2 <? q_pri x) || (acc.1 =? -1) then (q_in x, q_pri x) else acc.

(** The first request of the highest priority. *)
Definition first_best (l : list sRequest) (x : sRequest) : Prop :=
  ∃ l1 l2, l = l1 ++ x :: l2 ∧ Forall (λ y, q_pri y < q_pri x) l1 ∧ Forall (λ y, q_pri y ≤ q_pri x) l2.

Lemma foldl_upd l :
  l ≠ [] → Forall (λ x, 0 ≤ q_in x) l →
  ∃ x, first_best l x ∧ foldl upd (-1, 0) l = (q_in x, q_pri x).
Proof.
  induction l as [|y l IH] using rev_ind; [done|]. intros _ [Hl Hy]%Forall_app.
  apply Forall_singleton in Hy. rewrite foldl_snoc. destruct (decide (l = [])) as [->|Hne].
  { exists y. split; [by exists [], []|]. unfold upd. simpl. by rewrite orb_true_r. }
  destruct (IH Hne Hl) as (x & (l1 & l2 & -> & H1 & H2) & ->). unfold upd. simpl.
  apply Forall_app in Hl as [_ [Hx _]%Forall_cons]. destruct (Z.eqb_spec (q_in x) (-1)); [lia|].
  rewrite orb_false_r. destruct (Z.ltb_spec (q_pri x) (q_pri y)).
  - exists y. split; [|done]. exists (l1 ++ x :: l2), []. split; [done|]. split; [|constructor].
    apply Forall_app. split; [|constructor; [done|]]; (eapply Forall_impl; [done|]); simpl; lia.
  - exists x. split; [|done]. exists l1, (l2 ++ [y]). rewrite <- app_assoc. split; [done|].
    split; [done|]. apply Forall_app. split; [done|]. by repeat constructor.
Qed.

Section scan.
Context (all : list sRequest) (ptr : Z).

Lemma scan_walk p : ∀ fuel acc,
  (length p ≤ fuel)%nat →
  scan fuel all p ptr false acc.1 acc.2 =
  let acc' := foldl upd acc p in scan (fuel - length p) all [] ptr false acc'.1 acc'.2.
Proof.
  induction p as [|x p IH]; intros fuel acc Hf; simpl; [by rewrite Nat.sub_0_r|].
  destruct fuel as [|fuel]; [simpl in Hf; lia|]. simpl in *.
  rewrite <- IH by lia. unfold upd. by destruct (_ || _).
Qed.

Lemma prio_scan_wrapped p1 p2 : ∀ fuel acc,
  Forall (λ x, q_in x < ptr) p1 → Forall (λ x, ptr ≤ q_in x) p2 → (length p1 ≤ fuel)%nat →
  scan fuel all (p1 ++ p2) ptr true acc.1 acc.2 =
  match p2 with [] => Fail BadIterator | _ => Ok (foldl upd acc p1).1 end.
Proof.
  induction p1 as [|x p1 IH]; intros fuel acc H1 H2 Hf; simpl.
  - destruct p2 as [|y p2]; [by destruct fuel|]. apply Forall_cons in H2 as [Hy _].
    destruct fuel; simpl; by destruct (Z.ltb_spec (q_in y) ptr); [lia|].
  - apply Forall_cons in H1 as [Hx H1]. destruct fuel as [|fuel]; [simpl in Hf; lia|]. simpl in *.
    destruct (Z.ltb_spec (q_in x) ptr); [|lia]. simpl.
    rewrite <- (IH fuel (upd acc x)) by (done || lia). unfold upd. by destruct (_ || _).
Qed.
End scan.

Lemma prio_scan_wrap ptr x rest fuel acc :
  scan (S fuel) (x :: rest) [] ptr false acc.1 acc.2 =
  scan fuel (x :: rest) rest ptr true (upd acc x).1 (upd acc x).2.
Proof. cbn [scan negb mbind res_bind]. unfold upd. by destruct (_ || _). Qed.

Lemma start_at_split ptr l :
  sorted l → ∃ low, l = low ++ start_at ptr l ∧ Forall (λ x, q_in x < ptr) low ∧
    Forall (λ x, ptr ≤ q_in x) (start_at ptr l).
Proof.
  induction 1 as [|x l Hs (low & E & Hlow & Hhigh) Hx]; simpl; [by exists []|].
  destruct (Z.ltb_spec (q_in x) ptr).
  - exists (x :: low). split; [simpl; by rewrite <- E|]. split; [by constructor|done].
  - exists []. split; [done|]. split; [constructor|]. constructor; [done|].
    eapply Forall_impl; [exact Hx|]. simpl. lia.
Qed.

(** A second look at the first request changes nothing. *)
Lemma upd_again x l :
  Forall (λ y, 0 ≤ q_in y) (x :: l) → upd (foldl upd (-1, 0) (x :: l)) x = foldl upd (-1, 0) (x :: l).
Proof.
  intros Hin. destruct (foldl_upd (x :: l) ltac:(done) Hin) as (y & (l1 & l2 & E & H1 & H2) & ->).
  assert (q_pri x ≤ q_pri y ∧ 0 ≤ q_in y) as [Hp Hy].
  { destruct l1 as [|z l1]; simplify_eq/=.
    - apply Forall_cons in Hin as [? _]. lia.
    - apply Forall_cons in H1 as [? _]. apply Forall_cons in Hin as [_ Hin].
      apply Forall_app in Hin as [_ [? _]%Forall_cons]. lia. }
  unfold upd. simpl. destruct (Z.ltb_spec (q_pri y) (q_pri x)); [lia|].
  destruct (Z.eqb_spec (q_in y) (-1)); [lia|done].
Qed.

Lemma scan_spec l low high ptr :
  l = low ++ high → l ≠ [] → Forall (λ x, q_in x < ptr) low → Forall (λ x, ptr ≤ q_in x) high →
  Forall (λ x, 0 ≤ q_in x) l →
  scan (S (length l)) l high ptr false (-1) 0 =
  if decide (high = [] ∨ length l = 1%nat) then Fail BadIterator
  else Ok (foldl upd (-1, 0) (high ++ low)).1.
Proof.
  intros El Hne Hlow Hhigh Hin.
  etrans; [apply (scan_walk l ptr high (S (length l)) (-1, 0)); rewrite El, length_app; lia|].
  cbv zeta. set (acc := foldl upd (-1, 0) high).
  assert (S (length l) - length high = S (length low))%nat as -> by (rewrite El, length_app; lia).
  destruct low as [|x low]; simpl in El; subst l.
  - destruct high as [|y high]; [done|]. rewrite app_nil_r. cbn [length app].
    rewrite prio_scan_wrap, (upd_again y high Hin : upd acc y = acc).
    etrans; [apply (prio_scan_wrapped (y :: high) ptr [] high 0 acc);
      [constructor|by apply Forall_cons in Hhigh as [_ ?]|simpl; lia]|].
    destruct high as [|z high]; [rewrite decide_True by (by right); done|].
    rewrite decide_False by (simpl; intros [?|?]; [done|lia]). done.
  - cbn [length app]. apply Forall_cons in Hlow as [Hx Hlow].
    rewrite prio_scan_wrap, (prio_scan_wrapped _ ptr low high _ (upd acc x)) by (done || lia).
    rewrite foldl_app. cbn [foldl]. fold acc.
    destruct high as [|z high]; [by rewrite decide_True by (by left)|].
    rewrite decide_False; [done|]. rewrite length_app. simpl. intros [?|?]; [done|lia].
Qed.

(** [PriorityArbiter::Arbitrate] picks the first request of the highest
    priority in round-robin order from the pointer -- except when the list has
    a single request or every request lies before the pointer: then its loop
    reads [p->in] at the end of the list. *)
Theorem PriorityArbiter_Arbitrate a :
  sorted (p_requests a) → Forall (λ x, 0 ≤ q_in x) (p_requests a) → p_requests a ≠ [] →
  let low := filter (λ x, q_in x < p_rr_ptr a) (p_requests a) in
  let high := filter (λ x, p_rr_ptr a ≤ q_in x) (p_requests a) in
  if decide (high = [] ∨ length (p_requests a) = 1%nat) then Arbitrate a = Fail BadIterator
  else ∃ x, first_best (high ++ low) x ∧
    Arbitrate a = Ok (mkPriorityArbiter ((q_in x + 1) `rem` p_inputs a) (p_inputs a) (p_requests a) (q_in x)).
Proof.
  intros Hs Hin Hne. destruct (start_at_split (p_rr_ptr a) (p_requests a) Hs) as (lo & E & Hlo & Hhi).
  remember (start_at (p_rr_ptr a) (p_requests a)) as hi eqn:Ehi. cbv zeta.
  assert (filter (λ x, q_in x < p_rr_ptr a) (p_requests a) = lo) as ->.
  { rewrite E, filter_app, filter_all, filter_none, app_nil_r; [done| |done].
    eapply Forall_impl; [exact Hhi|]. simpl. lia. }
  assert (filter (λ x, p_rr_ptr a ≤ q_in x) (p_requests a) = hi) as ->.
  { rewrite E, filter_app, (filter_all _ hi), filter_none; [done| |done].
    eapply Forall_impl; [exact Hlo|]. simpl. lia. }
  pose proof (scan_spec _ lo hi (p_rr_ptr a) E Hne Hlo Hhi Hin) as Hscan.
  unfold Arbitrate. destruct (p_requests a) as [|r0 rs] eqn:Er; [done|]. rewrite <- Ehi, Hscan.
  destruct (decide _) as [Hd|Hd]; [done|].
  destruct (foldl_upd (hi ++ lo)) as (x & Hx & ->).
  { intros [-> _]%app_eq_nil. apply Hd. by left. }
  { rewrite E in Hin. apply Forall_app in Hin as [? ?]. by apply Forall_app. }
  exists x. split; [done|]. simpl. destruct (Z.eqb_spec (q_in x) (-1)) as [Ex|]; [|done].
  destruct Hx as (l1 & l2 & Ehl & _). rewrite E in Hin. apply Forall_app in Hin as [Hi1 Hi2].
  assert (Forall (λ x, 0 ≤ q_in x) (hi ++ lo)) as Hi by (by apply Forall_app).
  rewrite Ehl in Hi. apply Forall_app in Hi as [_ [? _]%Forall_cons]. lia.
Qed.

Lemma PriorityArbiter_Arbitrate_witness :
  ∃ x, first_best [mkRequest 2 0 7; mkRequest 3 0 7; mkRequest 1 0 4] x ∧
    Arbitrate (mkPriorityArbiter 2 4 [mkRequest 1 0 4; mkRequest 2 0 7; mkRequest 3 0 7] 0) =
    Ok (mkPriorityArbiter ((q_in x + 1) `rem` 4) 4 [mkRequest 1 0 4; mkRequest 2 0 7; mkRequest 3 0 7] (q_in x)).
Proof.
  refine (PriorityArbiter_Arbitrate
    (mkPriorityArbiter 2 4 [mkRequest 1 0 4; mkRequest 2 0 7; mkRequest 3 0 7] 0) _ _ _);
    [repeat constructor|repeat constructor; simpl; lia|done].
Defined.
End PriorityInv.
