(* ===== verification/Allocator.v ===== *)
(** * Allocators: the base classes

    [Allocator], [DenseAllocator] and [SparseAllocator] of allocators/allocator.cpp,
    the matching an allocator has to produce, and the invariant that ties the two
    views a sparse allocator keeps of its requests. *)

From S2P Require Import Prelude StdMap.

(** ** The base class *)

Record sRequest : Set := mkReq { r_port : Z; r_label : Z; r_in_pri : Z; r_out_pri : Z }.
#[export] Instance sRequest_inhabited : Inhabited sRequest := populate (mkReq 0 (-1) 0 0).

#[export] Instance sRequest_eq_dec : EqDecision sRequest.
Proof. solve_decision. Defined.

Record AllocBase : Set := mkAlloc {
  al_inputs : Z;
  al_outputs : Z;
  al_dirty : bool;
  al_inmatch : list Z;
  al_outmatch : list Z
}.

Module AllocOps.

Definition New (inputs outputs : Z) : AllocBase :=
  mkAlloc inputs outputs false (replicate (Z.to_nat inputs) (-1)) (replicate (Z.to_nat outputs) (-1)).

Definition set_match (im om : list Z) (b : AllocBase) : AllocBase :=
  mkAlloc (al_inputs b) (al_outputs b) (al_dirty b) im om.

Definition Clear (b : AllocBase) : AllocBase :=
  if al_dirty b then New (al_inputs b) (al_outputs b) else b.

Definition valid_in (b : AllocBase) (i : Z) : bool := (0 <=? i) && (i <? al_inputs b).
Definition valid_out (b : AllocBase) (o : Z) : bool := (0 <=? o) && (o <? al_outputs b).

Definition AddRequest (b : AllocBase) (in_ out label : Z) : res AllocBase :=
  assert! valid_in b in_;
  assert! valid_out b out;
  assert! (0 <=? label);
  Ok (mkAlloc (al_inputs b) (al_outputs b) true (al_inmatch b) (al_outmatch b)).

Definition OutputAssigned (b : AllocBase) (in_ : Z) : res Z :=
  assert! valid_in b in_; vget (al_inmatch b) in_.
Definition InputAssigned (b : AllocBase) (out : Z) : res Z :=
  assert! valid_out b out; vget (al_outmatch b) out.

(** [_inmatch[input] = output; _outmatch[output] = input]. *)
Definition grant (b : AllocBase) (input output : Z) : res AllocBase :=
  im ← vset (al_inmatch b) input output;
  om ← vset (al_outmatch b) output input;
  Ok (set_match im om b).

End AllocOps.

(** ** [DenseAllocator] *)

Record Dense : Set := mkDense { d_base : AllocBase; d_request : list (list sRequest) }.

Module DenseOps.
Import AllocOps.

Definition New (inputs outputs : Z) : Dense :=
  mkDense (AllocOps.New inputs outputs)
    (replicate (Z.to_nat inputs) (replicate (Z.to_nat outputs) (mkReq 0 (-1) 0 0))).

Definition unlabel (r : sRequest) : sRequest := mkReq (r_port r) (-1) (r_in_pri r) (r_out_pri r).

Definition Clear (d : Dense) : Dense :=
  mkDense (AllocOps.Clear (d_base d)) ((λ row : list sRequest, unlabel <$> row) <$> d_request d).

Definition at_ (d : Dense) (i o : Z) : res sRequest := row ← vget (d_request d) i; vget row o.
Definition put (d : Dense) (i o : Z) (r : sRequest) : res Dense :=
  row ← vget (d_request d) i;
  row ← vset row o r;
  rows ← vset (d_request d) i row;
  Ok (mkDense (d_base d) rows).

Definition ReadRequest (d : Dense) (in_ out : Z) : res (bool * sRequest) :=
  assert! valid_in (d_base d) in_;
  assert! valid_out (d_base d) out;
  r ← at_ d in_ out;
  Ok (0 <=? r_label r, r).

(** The overload that returns the label alone. *)
Definition ReadLabel (d : Dense) (in_ out : Z) : res Z := r ← ReadRequest d in_ out; Ok (r_label r.2).

Definition AddRequest (d : Dense) (in_ out label in_pri out_pri : Z) : res Dense :=
  b ← AllocOps.AddRequest (d_base d) in_ out label;
  let d := mkDense b (d_request d) in
  r ← at_ d in_ out;
  assert! (r_label r =? -1);
  put d in_ out (mkReq (r_port r) label in_pri out_pri).

Definition RemoveRequest (d : Dense) (in_ out label : Z) : res Dense :=
  assert! valid_in (d_base d) in_;
  assert! valid_out (d_base d) out;
  r ← at_ d in_ out;
  put d in_ out (unlabel r).

Definition count (lo hi : Z) (f : Z → res sRequest) : res Z :=
  zfor lo hi (λ k n, r ← f k; Ok (if 0 <=? r_label r then n + 1 else n)) 0.
Definition exists_req (lo hi : Z) (f : Z → res sRequest) : res bool :=
  c ← zforb lo hi (λ k b, r ← f k; Ok (if 0 <=? r_label r then Break true else Next b)) false;
  Ok (ctl_val c).

Definition InputHasRequests (d : Dense) (i : Z) : res bool :=
  exists_req 0 (al_outputs (d_base d)) (λ o, at_ d i o).
Definition OutputHasRequests (d : Dense) (o : Z) : res bool :=
  exists_req 0 (al_inputs (d_base d)) (λ i, at_ d i o).
Definition NumInputRequests (d : Dense) (i : Z) : res Z :=
  count 0 (al_outputs (d_base d)) (λ o, at_ d i o).
Definition NumOutputRequests (d : Dense) (o : Z) : res Z :=
  count 0 (al_inputs (d_base d)) (λ i, at_ d i o).

End DenseOps.

(** ** [SparseAllocator] *)

Record Sparse : Set := mkSparse {
  s_base : AllocBase;
  s_in_occ : iset;
  s_out_occ : iset;
  s_in_req : list (imap sRequest);
  s_out_req : list (imap sRequest)
}.

Module SparseOps.
Import AllocOps.

Definition New (inputs outputs : Z) : Sparse :=
  mkSparse (AllocOps.New inputs outputs) [] []
    (replicate (Z.to_nat inputs) []) (replicate (Z.to_nat outputs) []).

Definition Clear (s : Sparse) : Sparse :=
  mkSparse (AllocOps.Clear (s_base s)) [] []
    ((λ _, []) <$> s_in_req s) ((λ _, []) <$> s_out_req s).

Definition ReadRequest (s : Sparse) (in_ out : Z) : res (option sRequest) :=
  assert! valid_in (s_base s) in_;
  assert! valid_out (s_base s) out;
  m ← vget (s_in_req s) in_;
  Ok (mfind out m).

Definition ReadLabel (s : Sparse) (in_ out : Z) : res Z :=
  r ← ReadRequest s in_ out; Ok (default (-1) (r_label <$> r)).

Definition is_empty {A} (m : imap A) : bool := match m with [] => true | _ => false end.

Definition AddRequest (s : Sparse) (in_ out label in_pri out_pri : Z) : res Sparse :=
  b ← AllocOps.AddRequest (s_base s) in_ out label;
  mi ← vget (s_in_req s) in_;
  assert! (mcount out mi =? 0);
  mo ← vget (s_out_req s) out;
  assert! (mcount in_ mo =? 0);
  let in_occ := if is_empty mi then mset in_ tt (s_in_occ s) else s_in_occ s in
  let out_occ := if is_empty mo then mset out tt (s_out_occ s) else s_out_occ s in
  ir ← vset (s_in_req s) in_ (mset out (mkReq out label in_pri out_pri) mi);
  or_ ← vset (s_out_req s) out (mset in_ (mkReq in_ label in_pri out_pri) mo);
  Ok (mkSparse b in_occ out_occ ir or_).

Definition RemoveRequest (s : Sparse) (in_ out label : Z) : res Sparse :=
  assert! valid_in (s_base s) in_;
  assert! valid_out (s_base s) out;
  mi ← vget (s_in_req s) in_;
  assert! (0 <? mcount out mi);
  assert! (match mfind out mi with Some r => r_label r =? label | None => false end);
  let mi := merase out mi in
  ir ← vset (s_in_req s) in_ mi;
  let in_occ := if is_empty mi then merase in_ (s_in_occ s) else s_in_occ s in
  mo ← vget (s_out_req s) out;
  assert! (0 <? mcount in_ mo);
  assert! (match mfind in_ mo with Some r => r_label r =? label | None => false end);
  let mo := merase in_ mo in
  or_ ← vset (s_out_req s) out mo;
  let out_occ := if is_empty mo then merase out (s_out_occ s) else s_out_occ s in
  Ok (mkSparse (s_base s) in_occ out_occ ir or_).

Definition InputHasRequests (s : Sparse) (i : Z) : bool := 0 <? mcount i (s_in_occ s).
Definition OutputHasRequests (s : Sparse) (o : Z) : bool := 0 <? mcount o (s_out_occ s).
Definition NumInputRequests (s : Sparse) (i : Z) : Z := mcount i (s_in_occ s).
Definition NumOutputRequests (s : Sparse) (o : Z) : Z := mcount o (s_out_occ s).

End SparseOps.

(** ** Matchings *)

(** [matching n m req im om]: every grant is of a request, and the two vectors
    of grants are inverse to each other. *)
Record matching (n m : Z) (req : Z → Z → Prop) (im om : list Z) : Prop := {
  mt_in_len : zlen im = n;
  mt_out_len : zlen om = m;
  mt_in : ∀ i, 0 ≤ i < n → im⟦i⟧ = -1 ∨ (0 ≤ im⟦i⟧ < m ∧ req i (im⟦i⟧) ∧ om⟦im⟦i⟧⟧ = i);
  mt_out : ∀ o, 0 ≤ o < m → om⟦o⟧ = -1 ∨ (0 ≤ om⟦o⟧ < n ∧ im⟦om⟦o⟧⟧ = o)
}.

(** No request is left with both its ends free. *)
Definition maximal (n m : Z) (req : Z → Z → Prop) (im om : list Z) : Prop :=
  ∀ i o, 0 ≤ i < n → 0 ≤ o < m → req i o → im⟦i⟧ ≠ -1 ∨ om⟦o⟧ ≠ -1.

Definition base_matching (req : Z → Z → Prop) (b : AllocBase) : Prop :=
  matching (al_inputs b) (al_outputs b) req (al_inmatch b) (al_outmatch b).

(** Nothing granted yet. *)
Definition base_free (b : AllocBase) : Prop :=
  zlen (al_inmatch b) = al_inputs b ∧ zlen (al_outmatch b) = al_outputs b ∧
  (∀ i, 0 ≤ i < al_inputs b → (al_inmatch b)⟦i⟧ = -1) ∧
  (∀ o, 0 ≤ o < al_outputs b → (al_outmatch b)⟦o⟧ = -1).

Lemma base_free_New n m : 0 ≤ n → 0 ≤ m → base_free (AllocOps.New n m).
Proof.
  intros. split_and!; simpl; try (by apply zlen_replicate); intros; by apply znth_replicate.
Qed.

Lemma base_free_matching req b : base_free b → base_matching req b.
Proof. intros (H1 & H2 & H3 & H4). split; try done; intros; left; auto. Qed.

Lemma matching_grant n m req im om i o :
  matching n m req im om → 0 ≤ i < n → 0 ≤ o < m → req i o → im⟦i⟧ = -1 → om⟦o⟧ = -1 →
  matching n m req (im⟦i := o⟧) (om⟦o := i⟧).
Proof.
  intros [H1 H2 H3 H4] Hi Ho Hr Ei Eo. split; try lens.
  - intros k Hk. rewrite znth_zupd by lia. case_decide as Eik.
    + subst k. right. by rewrite znth_zupd_eq by lia.
    + destruct (H3 k Hk) as [?|(? & ? & E)]; [by left|right]. split; [done|]. split; [done|].
      rewrite znth_zupd by lia. case_decide; [|done]. subst o. lia.
  - intros k Hk. rewrite znth_zupd by lia. case_decide as Eok.
    + subst k. right. by rewrite znth_zupd_eq by lia.
    + destruct (H4 k Hk) as [?|(? & E)]; [by left|right]. split; [done|].
      rewrite znth_zupd by lia. case_decide; [|done]. subst i. lia.
Qed.

Lemma matching_sym n m (req : Z → Z → Prop) im om :
  matching n m req im om → matching m n (λ o i, req i o) om im.
Proof.
  intros [H1 H2 H3 H4]. split; try done.
  - intros o Ho. destruct (H4 o Ho) as [?|[Hi E]]; [by left|right]. split; [done|]. split; [|done].
    destruct (H3 _ Hi) as [?|(_ & Hr & _)]; [lia|]. by rewrite E in Hr.
  - intros i Hi. destruct (H3 i Hi) as [?|(? & _ & ?)]; [by left|by right].
Qed.

Lemma matching_ext n m (req req' : Z → Z → Prop) im om :
  (∀ i o, 0 ≤ i < n → 0 ≤ o < m → req i o → req' i o) →
  matching n m req im om → matching n m req' im om.
Proof.
  intros E [H1 H2 H3 H4]. split; try done. intros i Hi.
  destruct (H3 i Hi) as [?|(? & ? & ?)]; [by left|right]. auto.
Qed.

Lemma grant_ok req b i o :
  base_matching req b → 0 ≤ i < al_inputs b → 0 ≤ o < al_outputs b → req i o →
  (al_inmatch b)⟦i⟧ = -1 → (al_outmatch b)⟦o⟧ = -1 →
  returns (AllocOps.grant b i o) (λ b',
    b' = AllocOps.set_match ((al_inmatch b)⟦i := o⟧) ((al_outmatch b)⟦o := i⟧) b ∧ base_matching req b').
Proof.
  intros Hm Hi Ho Hr Ei Eo. unfold AllocOps.grant. pose proof Hm as [H1 H2 _ _].
  rsteps. split; [done|]. by apply matching_grant.
Qed.

(** ** The two views of a sparse allocator *)

Module SparseInv.
Import AllocOps SparseOps.

Definition with_port (p : Z) (r : sRequest) : sRequest := mkReq p (r_label r) (r_in_pri r) (r_out_pri r).

(** The request of input [i] for output [o]. *)
Definition sreq (s : Sparse) (i o : Z) : option sRequest := mfind o ((s_in_req s)⟦i⟧).

Record sparse_ok (s : Sparse) : Prop := {
  so_n : 0 ≤ al_inputs (s_base s);
  so_m : 0 ≤ al_outputs (s_base s);
  so_in_len : zlen (s_in_req s) = al_inputs (s_base s);
  so_out_len : zlen (s_out_req s) = al_outputs (s_base s);
  so_in_sorted : ∀ i, 0 ≤ i < al_inputs (s_base s) → msorted ((s_in_req s)⟦i⟧);
  so_out_sorted : ∀ o, 0 ≤ o < al_outputs (s_base s) → msorted ((s_out_req s)⟦o⟧);
  so_in : ∀ i o r, 0 ≤ i < al_inputs (s_base s) → sreq s i o = Some r →
    0 ≤ o < al_outputs (s_base s) ∧ r_port r = o ∧ 0 ≤ r_label r;
  so_out : ∀ i o r, 0 ≤ o < al_outputs (s_base s) → mfind i ((s_out_req s)⟦o⟧) = Some r →
    0 ≤ i < al_inputs (s_base s);
  so_mirror : ∀ i o, 0 ≤ i < al_inputs (s_base s) → 0 ≤ o < al_outputs (s_base s) →
    mfind i ((s_out_req s)⟦o⟧) = with_port i <$> sreq s i o;
  so_in_occ_sorted : msorted (s_in_occ s);
  so_out_occ_sorted : msorted (s_out_occ s);
  so_in_occ : ∀ i, mfind i (s_in_occ s) = Some tt ↔
    0 ≤ i < al_inputs (s_base s) ∧ (s_in_req s)⟦i⟧ ≠ [];
  so_out_occ : ∀ o, mfind o (s_out_occ s) = Some tt ↔
    0 ≤ o < al_outputs (s_base s) ∧ (s_out_req s)⟦o⟧ ≠ []
}.

Lemma sparse_New n m : 0 ≤ n → 0 ≤ m → sparse_ok (New n m).
Proof.
  intros Hn Hm.
  assert (∀ i k, 0 ≤ i < k → (replicate (Z.to_nat k) ([] : imap sRequest))⟦i⟧ = []) as Hr
    by (intros; by apply znth_replicate).
  split; simpl; try done; try (by apply zlen_replicate).
  - intros i Hi. rewrite Hr by done. constructor.
  - intros i Hi. rewrite Hr by done. constructor.
  - intros i o r Hi. unfold sreq. simpl. by rewrite Hr.
  - intros i o r Ho. by rewrite Hr.
  - intros i o Hi Ho. unfold sreq. simpl. by rewrite !Hr.
  - constructor.
  - constructor.
  - intros i. split; [done|]. intros [Hi Hne]. by rewrite Hr in Hne.
  - intros o. split; [done|]. intros [Ho Hne]. by rewrite Hr in Hne.
Qed.

Lemma Clear_base b : al_inputs (AllocOps.Clear b) = al_inputs b ∧ al_outputs (AllocOps.Clear b) = al_outputs b.
Proof. unfold AllocOps.Clear. by destruct (al_dirty b). Qed.

Lemma sparse_Clear s : sparse_ok s → sparse_ok (Clear s) ∧ ∀ i o, 0 ≤ i < al_inputs (s_base s) → sreq (Clear s) i o = None.
Proof.
  intros [Hn Hm H1 H2 _ _ _ _ _ _ _ _ _].
  destruct (Clear_base (s_base s)) as [E1 E2].
  assert (∀ i (l : list (imap sRequest)), 0 ≤ i < zlen l → ((λ _, [] : imap sRequest) <$> l)⟦i⟧ = []) as Hr
    by (intros; by rewrite znth_fmap).
  assert (∀ i o, 0 ≤ i < al_inputs (s_base s) → sreq (Clear s) i o = None) as Hs.
  { intros i o Hi. unfold sreq. simpl. by rewrite Hr by lia. }
  split; [|done]. split; simpl; rewrite ?E1, ?E2, ?zlen_fmap; try done.
  - intros i Hi. rewrite Hr by lia. constructor.
  - intros i Hi. rewrite Hr by lia. constructor.
  - intros i o r Hi. by rewrite Hs.
  - intros i o r Ho. by rewrite Hr by lia.
  - intros i o Hi Ho. rewrite Hs by done. by rewrite Hr by lia.
  - constructor.
  - constructor.
  - intros i. split; [done|]. intros [Hi Hne]. by rewrite Hr in Hne by lia.
  - intros o. split; [done|]. intros [Ho Hne]. by rewrite Hr in Hne by lia.
Qed.

(** One side of the table: a vector of maps and the set of non-empty ones. *)
Section side.
Context (n : Z) (l : list (imap sRequest)) (occ : iset).
Context (Hlen : zlen l = n) (Hsorted : ∀ k, 0 ≤ k < n → msorted (l⟦k⟧)).
Context (Hocc_sorted : msorted occ).
Context (Hocc : ∀ k, mfind k occ = Some tt ↔ 0 ≤ k < n ∧ l⟦k⟧ ≠ []).

Lemma side_set k x r :
  0 ≤ k < n →
  let l' := l⟦k := mset x r (l⟦k⟧)⟧ in
  let occ' := if is_empty (l⟦k⟧) then mset k tt occ else occ in
  (∀ k' x', 0 ≤ k' < n →
     mfind x' (l'⟦k'⟧) = if decide (k' = k ∧ x' = x) then Some r else mfind x' (l⟦k'⟧)) ∧
  (∀ k', 0 ≤ k' < n → msorted (l'⟦k'⟧)) ∧ msorted occ' ∧
  (∀ k', mfind k' occ' = Some tt ↔ 0 ≤ k' < n ∧ l'⟦k'⟧ ≠ []).
Proof.
  intros Hk l' occ'. subst l' occ'.
  assert (∀ k', 0 ≤ k' → l⟦k := mset x r (l⟦k⟧)⟧⟦k'⟧ = if decide (k = k') then mset x r (l⟦k⟧) else l⟦k'⟧) as E
    by (intros; apply znth_zupd; lia).
  split; [|split; [|split]].
  - intros k' x' Hk'. rewrite E by lia. case_decide as Ek.
    + subst k'. rewrite mfind_mset by auto. repeat case_decide; intuition congruence.
    + rewrite decide_False by intuition congruence. done.
  - intros k' Hk'. rewrite E by lia. case_decide; auto using msorted_mset.
  - destruct (is_empty (l⟦k⟧)); auto using msorted_mset.
  - intros k'. destruct (decide (0 ≤ k')) as [Hk'|Hk'].
    + rewrite E by done. destruct (l⟦k⟧) as [|p q] eqn:El; simpl.
      * rewrite mfind_mset by done. case_decide; case_decide; try congruence.
        -- split; [intros _; subst; by split|done].
        -- apply Hocc.
      * rewrite Hocc. case_decide as Ek; [|done]. subst k'. rewrite El.
        split; intros [? _]; (split; [done|]); [|done]. apply (mset_nonempty x r (p :: q)).
    + assert (mfind k' occ = None) as En.
      { destruct (mfind k' occ) as [[]|] eqn:Ef; [|done]. apply Hocc in Ef. lia. }
      split; [|lia]. destruct (is_empty _); [|by rewrite En].
      rewrite mfind_mset by done. rewrite decide_False by lia. by rewrite En.
Qed.

Lemma side_erase k x :
  0 ≤ k < n →
  let l' := l⟦k := merase x (l⟦k⟧)⟧ in
  let occ' := if is_empty (merase x (l⟦k⟧)) then merase k occ else occ in
  (∀ k' x', 0 ≤ k' < n →
     mfind x' (l'⟦k'⟧) = if decide (k' = k ∧ x' = x) then None else mfind x' (l⟦k'⟧)) ∧
  (∀ k', 0 ≤ k' < n → msorted (l'⟦k'⟧)) ∧ msorted occ' ∧
  (l⟦k⟧ ≠ [] → ∀ k', mfind k' occ' = Some tt ↔ 0 ≤ k' < n ∧ l'⟦k'⟧ ≠ []).
Proof.
  intros Hk l' occ'. subst l' occ'.
  assert (∀ k', 0 ≤ k' → l⟦k := merase x (l⟦k⟧)⟧⟦k'⟧ = if decide (k = k') then merase x (l⟦k⟧) else l⟦k'⟧) as E
    by (intros; apply znth_zupd; lia).
  split; [|split; [|split]].
  - intros k' x' Hk'. rewrite E by lia. case_decide as Ek.
    + subst k'. rewrite mfind_merase by auto. repeat case_decide; intuition congruence.
    + rewrite decide_False by intuition congruence. done.
  - intros k' Hk'. rewrite E by lia. case_decide; auto using msorted_merase.
  - destruct (is_empty _); auto using msorted_merase.
  - intros Hne k'. destruct (decide (0 ≤ k')) as [Hk'|Hk'].
    + rewrite E by done. destruct (merase x (l⟦k⟧)) as [|p q] eqn:El; simpl.
      * rewrite mfind_merase by done. case_decide; case_decide; try congruence.
        -- split; [done|]. by intros [_ ?].
        -- apply Hocc.
      * rewrite Hocc. case_decide as Ek; [|done]. subst k'. split; intros [? _]; done.
    + assert (mfind k' occ = None) as En.
      { destruct (mfind k' occ) as [[]|] eqn:Ef; [|done]. apply Hocc in Ef. lia. }
      split; [|lia]. destruct (is_empty _); [|by rewrite En].
      rewrite mfind_merase by done. case_decide; [done|]. by rewrite En.
Qed.
End side.

Lemma valid_in_true b i : 0 ≤ i < al_inputs b → valid_in b i = true.
Proof. unfold valid_in. lia. Qed.
Lemma valid_out_true b o : 0 ≤ o < al_outputs b → valid_out b o = true.
Proof. unfold valid_out. lia. Qed.

Lemma is_empty_spec {A} (m : imap A) : is_empty m = true ↔ m = [].
Proof. by destruct m. Qed.

Lemma sparse_AddRequest s i o label ip op :
  sparse_ok s → 0 ≤ i < al_inputs (s_base s) → 0 ≤ o < al_outputs (s_base s) → 0 ≤ label →
  sreq s i o = None →
  returns (AddRequest s i o label ip op) (λ s',
    sparse_ok s' ∧ al_inmatch (s_base s') = al_inmatch (s_base s) ∧
    al_outmatch (s_base s') = al_outmatch (s_base s) ∧
    al_inputs (s_base s') = al_inputs (s_base s) ∧ al_outputs (s_base s') = al_outputs (s_base s) ∧
    ∀ i' o', 0 ≤ i' < al_inputs (s_base s) → sreq s' i' o' =
      if decide (i' = i ∧ o' = o) then Some (mkReq o label ip op) else sreq s i' o').
Proof.
  intros [Hn Hm Hil Hol His Hos Hin Hout Hmir Hios Hoos Hio Hoo] Hi Ho Hlab Hnone.
  pose proof (Hmir i o Hi Ho) as Hmio. rewrite Hnone in Hmio. simpl in Hmio. unfold sreq in Hnone.
  unfold AddRequest, AllocOps.AddRequest. rewrite valid_in_true, valid_out_true by done. simpl.
  rewrite (proj2 (Z.leb_le 0 label) Hlab). simpl. rstep. unfold mcount. rewrite Hnone. simpl.
  rstep. rewrite Hmio. simpl. do 2 rstep. apply returns_ok.
  destruct (side_set _ _ _ Hil His Hios Hio i o (mkReq o label ip op) Hi) as (I1 & I2 & I3 & I4).
  destruct (side_set _ _ _ Hol Hos Hoos Hoo o i (mkReq i label ip op) Ho) as (O1 & O2 & O3 & O4).
  split_and!; try done. split; simpl; rewrite ?zlen_zupd; try done.
  - intros i' o' r Hi'. unfold sreq. simpl. rewrite I1 by done. case_decide as E; [|by apply Hin].
    intros [= <-]. destruct E as [-> ->]. done.
  - intros i' o' r Ho'. rewrite O1 by done. case_decide as E; [|by apply Hout]. by destruct E as [_ ->].
  - intros i' o' Hi' Ho'. unfold sreq. simpl. rewrite I1, O1 by done. fold (sreq s i' o').
    repeat case_decide; try tauto; [|by apply Hmir]. by destruct_and!; subst.
Qed.

Lemma sparse_RemoveRequest s i o r :
  sparse_ok s → 0 ≤ i < al_inputs (s_base s) → 0 ≤ o < al_outputs (s_base s) → sreq s i o = Some r →
  returns (RemoveRequest s i o (r_label r)) (λ s',
    sparse_ok s' ∧ s_base s' = s_base s ∧
    ∀ i' o', 0 ≤ i' < al_inputs (s_base s) → sreq s' i' o' =
      if decide (i' = i ∧ o' = o) then None else sreq s i' o').
Proof.
  intros [Hn Hm Hil Hol His Hos Hin Hout Hmir Hios Hoos Hio Hoo] Hi Ho Hr.
  pose proof (Hmir i o Hi Ho) as Hmio. rewrite Hr in Hmio. simpl in Hmio. unfold sreq in Hr.
  unfold RemoveRequest, mcount. rewrite valid_in_true, valid_out_true by done. simpl.
  rstep. rewrite Hr, Z.eqb_refl. simpl. do 2 rstep. rewrite Hmio. simpl. rewrite Z.eqb_refl. simpl.
  rstep. apply returns_ok.
  destruct (side_erase _ _ _ Hil His Hios Hio i o Hi) as (I1 & I2 & I3 & I4).
  destruct (side_erase _ _ _ Hol Hos Hoos Hoo o i Ho) as (O1 & O2 & O3 & O4).
  assert ((s_in_req s)⟦i⟧ ≠ []) as Ni by (intros E; by rewrite E in Hr).
  assert ((s_out_req s)⟦o⟧ ≠ []) as No by (intros E; by rewrite E in Hmio).
  split_and!; try done. split; simpl; rewrite ?zlen_zupd; try done; try (by apply I4); try (by apply O4).
  - intros i' o' r' Hi'. unfold sreq. simpl. rewrite I1 by done. case_decide; [done|by apply Hin].
  - intros i' o' r' Ho'. rewrite O1 by done. case_decide; [done|by apply Hout].
  - intros i' o' Hi' Ho'. unfold sreq. simpl. rewrite I1, O1 by done. fold (sreq s i' o').
    repeat case_decide; try tauto. by apply Hmir.
Qed.
End SparseInv.
