(* ===== verification/AllocLaws.v ===== *)
(** * The allocator interface

    What a router may rely on from an allocator: [AllocatorI] collects the
    virtual operations of [Allocator], [AllocatorLaws] states what they promise,
    and [alloc_cycles_ok] derives from the laws alone that any sequence of
    cycles (clear, add the requests, allocate) runs without a failure and
    grants a matching of the requests of each cycle. *)

From S2P Require Import Prelude StdMap Allocator.

Record AllocatorI (X : Type) : Type := mkAllocI {
  i_base : X → AllocBase;
  i_Clear : X → X;
  i_AddRequest : X → Z → Z → Z → Z → Z → res X;
  i_Allocate : X → res X
}.
Arguments mkAllocI {X} _ _ _ _.
Arguments i_base {X} _ _.
Arguments i_Clear {X} _ _.
Arguments i_AddRequest {X} _ _ _ _ _ _ _.
Arguments i_Allocate {X} _ _.

(** The requests of a cycle: label, input and output priority. *)
Abbreviation requests := (Z → Z → option (Z * Z * Z)).
Definition no_requests : requests := λ _ _, None.
Definition add_request (R : requests) (i o : Z) (x : Z * Z * Z) : requests :=
  λ i' o', if decide (i' = i ∧ o' = o) then Some x else R i' o'.
Definition wants (R : requests) (i o : Z) : Prop := R i o ≠ None.

(** What an allocator guarantees of its grants beyond being a matching. *)
Abbreviation grants_prop := (requests → list Z → list Z → Prop).

(** Some request is granted if there is one. *)
Definition progress (n m : Z) : grants_prop := λ R im om,
  (∃ i o, 0 ≤ i < n ∧ 0 ≤ o < m ∧ wants R i o) → ∃ i, 0 ≤ i < n ∧ im⟦i⟧ ≠ -1.

Record AllocatorLaws {X} (I : AllocatorI X) (n m : Z) (quality : grants_prop) : Type := {
  (** Cleared, holding exactly these requests. *)
  opened : X → requests → Prop;
  al_ext : ∀ x R R', (∀ i o, R i o = R' i o) → opened x R → opened x R';
  al_AddRequest : ∀ x R i o label ip op,
    opened x R → 0 ≤ i < n → 0 ≤ o < m → 0 ≤ label → R i o = None →
    returns (i_AddRequest I x i o label ip op) (λ x', opened x' (add_request R i o (label, ip, op)));
  al_Allocate : ∀ x R, opened x R →
    returns (i_Allocate I x) (λ x', opened (i_Clear I x') no_requests ∧
      matching n m (wants R) (al_inmatch (i_base I x')) (al_outmatch (i_base I x')) ∧
      quality R (al_inmatch (i_base I x')) (al_outmatch (i_base I x')))
}.
Arguments opened {X I n m quality} _ _ _.

(** ** Cycles *)

(** Input, output, label, input and output priority. *)
Abbreviation arequest := (Z * Z * Z * Z * Z)%type.

Section cycles.
Context {X : Type} (I : AllocatorI X).

Definition alloc_add (x : X) (rs : list arequest) : res X :=
  foldl (λ acc r, x ← acc; let '(i, o, label, ip, op) := r in i_AddRequest I x i o label ip op) (Ok x) rs.

Definition alloc_cycle (x : X) (rs : list arequest) : res X :=
  x ← alloc_add (i_Clear I x) rs; i_Allocate I x.

(** The grants of each cycle. *)
Fixpoint alloc_cycles (x : X) (rss : list (list arequest)) : res (X * list (list Z * list Z)) :=
  match rss with
  | [] => Ok (x, [])
  | rs :: rss =>
      x ← alloc_cycle x rs;
      let g := (al_inmatch (i_base I x), al_outmatch (i_base I x)) in
      '(x, gs) ← alloc_cycles x rss;
      Ok (x, g :: gs)
  end.
End cycles.

(** At most one request for each pair of ports, in range. *)
Definition areqs_ok (n m : Z) (rs : list arequest) : Prop :=
  NoDup (rs.*1.*1.*1) ∧
  Forall (λ r, 0 ≤ r.1.1.1.1 < n ∧ 0 ≤ r.1.1.1.2 < m ∧ 0 ≤ r.1.1.2) rs.

Definition areqs_okb (n m : Z) (rs : list arequest) : bool :=
  bool_decide (NoDup (rs.*1.*1.*1)) &&
  forallb (λ r, (0 <=? r.1.1.1.1) && (r.1.1.1.1 <? n) && (0 <=? r.1.1.1.2) && (r.1.1.1.2 <? m) && (0 <=? r.1.1.2)) rs.

Lemma areqs_okb_ok n m rss : forallb (areqs_okb n m) rss = true → Forall (areqs_ok n m) rss.
Proof.
  rewrite List.forallb_forall, Forall_forall. intros H rs Hrs. specialize (H rs (proj1 (list_elem_of_In _ _) Hrs)).
  apply andb_prop in H as [H1 H2]. split; [by apply bool_decide_eq_true in H1|].
  rewrite List.forallb_forall in H2. apply Forall_forall. intros r Hr.
  specialize (H2 r (proj1 (list_elem_of_In _ _) Hr)). lia.
Qed.

Fixpoint asked (rs : list arequest) : requests :=
  match rs with
  | [] => no_requests
  | (i, o, label, ip, op) :: rs => add_request (asked rs) i o (label, ip, op)
  end.

Lemma asked_snoc rs i o x p q i' o' :
  asked rs i o = None → asked (rs ++ [(i, o, x, p, q)]) i' o' = add_request (asked rs) i o (x, p, q) i' o'.
Proof.
  induction rs as [|[[[[j k] l] ip] op] rs IH]; [done|]. simpl. unfold add_request in *.
  intros Hn. destruct (decide (i = j ∧ o = k)); [done|]. destruct (decide (i' = j ∧ o' = k)) as [E|]; [|by apply IH].
  rewrite decide_False; [done|]. intros [-> ->]. tauto.
Qed.

Lemma asked_None rs i o : asked rs i o = None ↔ (i, o) ∉ rs.*1.*1.*1.
Proof.
  induction rs as [|[[[[j k] l] ip] op] rs IH]; simpl; [split; [intros _; apply not_elem_of_nil|done]|].
  rewrite not_elem_of_cons, <- IH. unfold add_request. case_decide as E; split; try done.
  - destruct E as [-> ->]. by intros [? _].
  - intros ?. split; [|done]. intros [= -> ->]. by destruct E.
  - by intros [_ ?].
Qed.

(** The grants [g] answer the requests [rs]. *)
Definition answers (n m : Z) (quality : grants_prop) (rs : list arequest) (g : list Z * list Z) : Prop :=
  matching n m (wants (asked rs)) g.1 g.2 ∧ quality (asked rs) g.1 g.2.

Section cycles_ok.
Context {X : Type} (I : AllocatorI X) (n m : Z) (quality : grants_prop) (L : AllocatorLaws I n m quality).

Lemma alloc_add_ok rs x :
  opened L x no_requests → areqs_ok n m rs → returns (alloc_add I x rs) (λ x', opened L x' (asked rs)).
Proof.
  intros Hx [Hnd Hr]. unfold alloc_add. eapply returns_mono.
  - apply (returns_foldl (λ l x', ∃ dn, rs = dn ++ l ∧ opened L x' (asked dn))
      (λ x r, let '(i, o, label, ip, op) := r in i_AddRequest I x i o label ip op)).
    { by exists []. }
    intros [[[[i o] label] ip] op] l x' (dn & -> & Hx').
    rewrite Forall_app, Forall_cons in Hr. destruct Hr as (_ & (Hi & Ho & Hl) & _). simpl in *.
    rewrite !fmap_app, !fmap_cons in Hnd. apply NoDup_app in Hnd as (_ & Hdis & _).
    assert (asked dn i o = None) as Hn by (apply asked_None; intros Ha; destruct (Hdis (i, o) Ha); by left).
    eapply returns_mono; [by apply (al_AddRequest _ _ _ _ L _ _ i o label ip op Hx')|].
    intros x'' Hx''. exists (dn ++ [(i, o, label, ip, op)]). split; [by rewrite <- app_assoc|].
    revert Hx''. apply al_ext. intros i' o'. by rewrite asked_snoc.
  - intros x' (dn & -> & Hx'). by rewrite app_nil_r.
Qed.

Lemma alloc_cycles_ok rss : ∀ x,
  opened L (i_Clear I x) no_requests → Forall (areqs_ok n m) rss →
  returns (alloc_cycles I x rss) (λ r, Forall2 (answers n m quality) rss r.2).
Proof.
  induction rss as [|rs rss IH]; intros x Hx Hok; simpl; [by apply returns_ok|].
  apply Forall_cons in Hok as [Hrs Hrss]. unfold alloc_cycle.
  destruct (alloc_add_ok rs _ Hx Hrs) as (x1 & -> & Hx1). cbn [mbind res_bind].
  destruct (al_Allocate _ _ _ _ L x1 _ Hx1) as (x2 & -> & Hx2 & Hmt & Hq). cbn [mbind res_bind].
  destruct (IH x2 Hx2 Hrss) as ([x3 gs] & -> & Hgs). apply returns_ok. by constructor.
Qed.
End cycles_ok.
