(* ===== verification/AllocStore.v ===== *)
(** * Allocators: the requests they store

    The invariants of [DenseAllocator] ([DenseInv]) and [SparseAllocator]
    ([SparseLaws]): the matrix, or the two tables, hold exactly the requests added
    since the last [Clear].  The allocators build their interface laws on them. *)

From S2P Require Import Prelude StdMap Allocator AllocLaws.
Module DenseInv.
Import DenseOps.

Definition cell (d : Dense) (i o : Z) : sRequest := (d_request d)⟦i⟧⟦o⟧.
Definition cell_req (r : sRequest) : option (Z * Z * Z) :=
  if r_label r =? -1 then None else Some (r_label r, r_in_pri r, r_out_pri r).

Record dense_shape (n m : Z) (d : Dense) : Prop := {
  ds_n : 0 ≤ n;
  ds_m : 0 ≤ m;
  ds_in : al_inputs (d_base d) = n;
  ds_out : al_outputs (d_base d) = m;
  ds_rows : zlen (d_request d) = n;
  ds_cols : ∀ i, 0 ≤ i < n → zlen ((d_request d)⟦i⟧) = m
}.

(** Cleared, holding the requests [R]. *)
Record dense_opened (n m : Z) (d : Dense) (R : requests) : Prop := {
  do_shape : dense_shape n m d;
  do_free : base_free (d_base d);
  do_req : ∀ i o, 0 ≤ i < n → 0 ≤ o < m → R i o = cell_req (cell d i o);
  do_label : ∀ i o, 0 ≤ i < n → 0 ≤ o < m → -1 ≤ r_label (cell d i o);
  do_dirty : ∀ i o, 0 ≤ i < n → 0 ≤ o < m → wants R i o → al_dirty (d_base d) = true
}.

Lemma at_ok n m d i o : dense_shape n m d → 0 ≤ i < n → 0 ≤ o < m → at_ d i o = Ok (cell d i o).
Proof.
  intros [H1 H2 H3 H4 H5 H6] Hi Ho. unfold at_. rewrite vget_ok by lia. cbn [mbind res_bind].
  by rewrite vget_ok by (rewrite H6 by done; lia).
Qed.

Lemma put_ok n m d i o r : dense_shape n m d → 0 ≤ i < n → 0 ≤ o < m →
  returns (put d i o r) (λ d', dense_shape n m d' ∧ d_base d' = d_base d ∧
    ∀ i' o', 0 ≤ i' → 0 ≤ o' → cell d' i' o' = if decide (i' = i ∧ o' = o) then r else cell d i' o').
Proof.
  intros [H1 H2 H3 H4 H5 H6] Hi Ho. unfold put. rstep. rewrite vset_ok by (rewrite H6 by done; lia).
  cbn [mbind res_bind]. rstep. apply returns_ok. split_and!; [split; simpl; try done; [lens|]|done|].
  - intros i' Hi'. rewrite znth_zupd by lia. case_decide; [subst; rewrite zlen_zupd|]; auto.
  - intros i' o' Hi' Ho'. unfold cell. simpl. rewrite znth_zupd by lia. case_decide as E; simpl.
    + subst i'. rewrite znth_zupd by (rewrite ?H6 by done; lia). repeat case_decide; intuition congruence.
    + rewrite decide_False by intuition congruence. done.
Qed.

Lemma dense_ext n m d R R' : (∀ i o, R i o = R' i o) → dense_opened n m d R → dense_opened n m d R'.
Proof.
  intros E [H1 H2 H3 H4 H5]. split; try done; intros i o Hi Ho; [rewrite <- E; auto|].
  unfold wants. rewrite <- E. by apply H5.
Qed.

Lemma dense_AddRequest n m d R i o label ip op :
  dense_opened n m d R → 0 ≤ i < n → 0 ≤ o < m → 0 ≤ label → R i o = None →
  returns (AddRequest d i o label ip op) (λ d', dense_opened n m d' (add_request R i o (label, ip, op))).
Proof.
  intros [Hs Hf Hr Hl Hd] Hi Ho Hlab Hn. pose proof Hs as [H1 H2 H3 H4 H5 H6].
  unfold AddRequest, AllocOps.AddRequest.
  rewrite SparseInv.valid_in_true, SparseInv.valid_out_true by (rewrite ?H3, ?H4; lia). simpl.
  rewrite (proj2 (Z.leb_le 0 label) Hlab). cbn [cassert mbind res_bind].
  set (d1 := mkDense _ (d_request d)). assert (dense_shape n m d1) as Hs1 by (by split).
  rewrite (at_ok n m) by done. cbn [mbind res_bind]. rewrite Hr in Hn by done. unfold cell_req in Hn.
  assert ((r_label (cell d i o) =? -1) = true) as E by (by destruct (r_label (cell d i o) =? -1)).
  apply returns_assert; [exact E|].
  eapply returns_mono; [by apply (put_ok n m)|]. intros d' (Hs' & Hb & Hc).
  split; try done; rewrite ?Hb; try done.
  - intros i' o' Hi' Ho'. unfold add_request. rewrite Hc by lia. case_decide; [|by apply Hr].
    unfold cell_req. simpl. destruct (Z.eqb_spec label (-1)); [lia|done].
  - intros i' o' Hi' Ho'. rewrite Hc by lia. case_decide; [simpl; lia|by apply Hl].
Qed.

Lemma dense_Clear_shape n m d : dense_shape n m d →
  dense_shape n m (Clear d) ∧ ∀ i o, 0 ≤ i < n → 0 ≤ o < m → r_label (cell (Clear d) i o) = -1.
Proof.
  intros [H1 H2 H3 H4 H5 H6]. destruct (SparseInv.Clear_base (d_base d)) as [E1 E2].
  split; [split; simpl; try congruence; [by rewrite zlen_fmap|]|].
  - intros i Hi. rewrite znth_fmap by lia. rewrite zlen_fmap. auto.
  - intros i o Hi Ho. unfold cell. simpl. rewrite znth_fmap by lia. by rewrite znth_fmap by (rewrite H6 by done; lia).
Qed.

(** After an allocation, [Clear] restores the initial condition. *)
Lemma dense_close n m d R im om :
  dense_opened n m d R → matching n m (wants R) im om →
  dense_opened n m (Clear (mkDense (AllocOps.set_match im om (d_base d)) (d_request d))) no_requests.
Proof.
  intros [Hs Hf Hr Hl Hd] Hmt. pose proof Hs as [H1 H2 H3 H4 H5 H6].
  destruct (dense_Clear_shape n m (mkDense (AllocOps.set_match im om (d_base d)) (d_request d))) as [Hs' Hlab].
  { by split. }
  split; [done| | | |by intros i o ? ? []].
  - simpl. unfold AllocOps.Clear. simpl. destruct (al_dirty (d_base d)) eqn:Ed.
    { rewrite H3, H4. by apply base_free_New. }
    destruct Hmt as [M1 M2 M3 M4].
    assert (∀ i, 0 ≤ i < n → im⟦i⟧ = -1) as Hi.
    { intros i Hi. destruct (M3 i Hi) as [?|(Ho & Hw & _)]; [done|]. pose proof (Hd i _ Hi Ho Hw). congruence. }
    split_and!; simpl; rewrite ?H3, ?H4; try done.
    intros o Ho. destruct (M4 o Ho) as [?|[Hi' E]]; [done|]. rewrite Hi in E by done. lia.
  - intros i o Hi Ho. unfold cell_req. by rewrite Hlab.
  - intros i o Hi Ho. rewrite Hlab by done. lia.
Qed.

(** The same when nothing was granted. *)
Lemma dense_close_idle n m d R :
  dense_opened n m d R → dense_opened n m (Clear d) no_requests.
Proof.
  intros H. pose proof H as [Hs Hf _ _ _].
  assert (d = mkDense (AllocOps.set_match (al_inmatch (d_base d)) (al_outmatch (d_base d)) (d_base d)) (d_request d))
    as -> by (by destruct d as [[] ?]).
  apply (dense_close n m d R); [done|]. rewrite <- (ds_in _ _ _ Hs), <- (ds_out _ _ _ Hs).
  by apply (base_free_matching _ (d_base d)).
Qed.

Lemma dense_free_matching n m d R R' :
  dense_opened n m d R → matching n m R' (al_inmatch (d_base d)) (al_outmatch (d_base d)).
Proof.
  intros [Hs Hf _ _ _]. rewrite <- (ds_in _ _ _ Hs), <- (ds_out _ _ _ Hs).
  by apply (base_free_matching _ (d_base d)).
Qed.

Lemma dense_free_in n m d R i : dense_opened n m d R → 0 ≤ i < n → (al_inmatch (d_base d))⟦i⟧ = -1.
Proof. intros [Hs (_ & _ & Hf & _) _ _ _] Hi. apply Hf. by rewrite (ds_in _ _ _ Hs). Qed.

Lemma dense_free_out n m d R o : dense_opened n m d R → 0 ≤ o < m → (al_outmatch (d_base d))⟦o⟧ = -1.
Proof. intros [Hs (_ & _ & _ & Hf) _ _ _] Ho. apply Hf. by rewrite (ds_out _ _ _ Hs). Qed.

Lemma dense_New n m : 0 ≤ n → 0 ≤ m → dense_opened n m (New n m) no_requests.
Proof.
  intros Hn Hm.
  assert (∀ i o, 0 ≤ i < n → 0 ≤ o < m → cell (New n m) i o = mkReq 0 (-1) 0 0) as Hc.
  { intros i o Hi Ho. unfold cell. simpl. rewrite znth_replicate by done. by apply znth_replicate. }
  split; try done.
  - split; simpl; try done; [by apply zlen_replicate|].
    intros i Hi. rewrite znth_replicate by done. by apply zlen_replicate.
  - by apply base_free_New.
  - intros i o Hi Ho. by rewrite Hc.
  - intros i o Hi Ho. rewrite Hc by done. simpl. lia.
Qed.

Lemma wants_cell n m d R i o : dense_opened n m d R → 0 ≤ i < n → 0 ≤ o < m →
  (r_label (cell d i o) =? -1) = false ↔ wants R i o.
Proof.
  intros H Hi Ho. unfold wants. rewrite (do_req _ _ _ _ H) by done. unfold cell_req.
  by destruct (r_label (cell d i o) =? -1).
Qed.
End DenseInv.


Module SparseLaws.
Import SparseOps SparseInv.

Definition req_data (r : sRequest) : Z * Z * Z := (r_label r, r_in_pri r, r_out_pri r).

(** Cleared, holding the requests [R]. *)
Record sparse_opened (n m : Z) (s : Sparse) (R : requests) : Prop := {
  sp_ok : sparse_ok s;
  sp_in : al_inputs (s_base s) = n;
  sp_out : al_outputs (s_base s) = m;
  sp_free : base_free (s_base s);
  sp_req : ∀ i o, 0 ≤ i < n → 0 ≤ o < m → R i o = req_data <$> sreq s i o;
  sp_dirty : ∀ i o, 0 ≤ i < n → 0 ≤ o < m → wants R i o → al_dirty (s_base s) = true
}.

Lemma sparse_ext n m s R R' : (∀ i o, R i o = R' i o) → sparse_opened n m s R → sparse_opened n m s R'.
Proof.
  intros E [H1 H2 H3 H4 H5 H6]. split; try done; intros i o Hi Ho; [rewrite <- E; auto|].
  unfold wants. rewrite <- E. by apply H6.
Qed.

Lemma wants_sreq n m s R i o : sparse_opened n m s R → 0 ≤ i < n → 0 ≤ o < m → wants R i o ↔ sreq s i o ≠ None.
Proof. intros H Hi Ho. unfold wants. rewrite (sp_req _ _ _ _ H) by done. by destruct (sreq s i o). Qed.

Lemma AddRequest_dirty s i o label ip op s' : AddRequest s i o label ip op = Ok s' → al_dirty (s_base s') = true.
Proof.
  intros E. unfold AddRequest in E. apply bind_ok_inv in E as (b & Eb & E).
  unfold AllocOps.AddRequest in Eb. do 3 apply assert_ok_inv in Eb as [_ Eb]. injection Eb as <-.
  do 2 (apply bind_ok_inv in E as (? & _ & E); apply assert_ok_inv in E as [_ E]).
  do 2 apply bind_ok_inv in E as (? & _ & E). by injection E as <-.
Qed.

Lemma opened_AddRequest n m s R i o label ip op :
  sparse_opened n m s R → 0 ≤ i < n → 0 ≤ o < m → 0 ≤ label → R i o = None →
  returns (AddRequest s i o label ip op) (λ s', sparse_opened n m s' (add_request R i o (label, ip, op))).
Proof.
  intros [Hsp En Em Hfree HR Hd] Hi Ho Hl Hn.
  assert (sreq s i o = None) as Hnone by (rewrite HR in Hn by done; by destruct (sreq s i o)).
  subst n m. destruct (sparse_AddRequest s i o label ip op Hsp Hi Ho Hl Hnone)
    as (s' & E & Hsp' & Ei & Eo & En & Em & Hreq).
  exists s'. split; [done|]. pose proof (AddRequest_dirty _ _ _ _ _ _ _ E).
  split; try done.
  - destruct Hfree as (? & ? & ? & ?). split_and!; rewrite ?Ei, ?Eo, ?En, ?Em; done.
  - intros i' o' Hi' Ho'. unfold add_request. rewrite Hreq, HR by done. by case_decide.
Qed.

(** The state after an allocation that grants [im] and [om]. *)
Definition with_match (im om : list Z) (s : Sparse) : Sparse :=
  mkSparse (AllocOps.set_match im om (s_base s)) (s_in_occ s) (s_out_occ s) (s_in_req s) (s_out_req s).

Lemma sparse_ok_with_match im om s : sparse_ok s → sparse_ok (with_match im om s).
Proof. intros []. by split. Qed.

Lemma sparse_close n m s R im om :
  sparse_opened n m s R → matching n m (wants R) im om →
  sparse_opened n m (Clear (with_match im om s)) no_requests.
Proof.
  intros [Hsp En Em Hfree HR Hd] Hmt. subst n m.
  destruct (sparse_Clear _ (sparse_ok_with_match im om s Hsp)) as [Hsp' Hnone].
  destruct (Clear_base (s_base (with_match im om s))) as [E1 E2]. simpl in E1, E2.
  split; try done.
  - simpl. unfold AllocOps.Clear. simpl. destruct (al_dirty (s_base s)) eqn:Ed.
    { apply base_free_New; by destruct Hsp. }
    destruct Hmt as [M1 M2 M3 M4].
    assert (∀ i, 0 ≤ i < al_inputs (s_base s) → im⟦i⟧ = -1) as Hi.
    { intros i Hi. destruct (M3 i Hi) as [?|(Ho & Hr & _)]; [done|]. pose proof (Hd i _ Hi Ho Hr). congruence. }
    split_and!; try done. simpl. intros o Ho. destruct (M4 o Ho) as [?|[Hr E]]; [done|]. rewrite Hi in E by done. lia.
  - intros i o Hi Ho. by rewrite Hnone.
Qed.

Lemma sparse_free_matching n m s R R' :
  sparse_opened n m s R → matching n m R' (al_inmatch (s_base s)) (al_outmatch (s_base s)).
Proof. intros [_ <- <- Hf _ _]. by apply base_free_matching. Qed.

Lemma sparse_New_opened n m : 0 ≤ n → 0 ≤ m → sparse_opened n m (New n m) no_requests.
Proof.
  intros Hn Hm. split; try done.
  - by apply sparse_New.
  - by apply base_free_New.
  - intros i o Hi Ho. unfold sreq. simpl. by rewrite znth_replicate.
Qed.

Lemma sparse_close_idle n m s R : sparse_opened n m s R → sparse_opened n m (Clear s) no_requests.
Proof.
  intros H. assert (s = with_match (al_inmatch (s_base s)) (al_outmatch (s_base s)) s) as ->
    by (by destruct s as [[] ? ? ? ?]).
  apply (sparse_close n m s R); [done|]. by apply (sparse_free_matching n m s R).
Qed.
End SparseLaws.
