(* ===== verification/Separable.v ===== *)
(** * Separable allocators

    [SeparableAllocator] with its input-first and output-first variants
    (allocators/separable*.cpp), for any arbiter that satisfies [ArbiterLaws]:
    no assertion fails, the grants are a matching of the requests, and every
    port that was proposed to grants one of its proposals. *)

From S2P Require Import Prelude StdMap Arbiter ArbiterProofs Arbitration Allocator AllocLaws AllocStore.

Record Separable (A : Set) : Set := mkSep {
  sep_sparse : Sparse;
  sep_input_arb : list A;
  sep_output_arb : list A
}.
Arguments mkSep {A} _ _ _.
Arguments sep_sparse {A} _.
Arguments sep_input_arb {A} _.
Arguments sep_output_arb {A} _.

Module SeparableOps.
Section ops.
Context {A : Set} `{!Arbiter A}.

(** [new] is [NewArbiter] for the configured arbiter type. *)
Definition new_arbs (new : Z → res A) (count size : Z) : res (list A) :=
  if count <=? 0 then Ok [] else a ← new size; Ok (replicate (Z.to_nat count) a).

Definition New (new : Z → res A) (inputs outputs : Z) : res (Separable A) :=
  ia ← new_arbs new inputs outputs;
  oa ← new_arbs new outputs inputs;
  Ok (mkSep (SparseOps.New inputs outputs) ia oa).

Definition clear_arb (a : A) : A := if NumReqs a =? 0 then a else Arbiter.Clear a.

Definition Clear (s : Separable A) : Separable A :=
  mkSep (SparseOps.Clear (sep_sparse s)) (clear_arb <$> sep_input_arb s) (clear_arb <$> sep_output_arb s).

Definition AddRequest (s : Separable A) (in_ out label in_pri out_pri : Z) : res (Separable A) :=
  sp ← SparseOps.AddRequest (sep_sparse s) in_ out label in_pri out_pri;
  Ok (mkSep sp (sep_input_arb s) (sep_output_arb s)).

(** The loop that hands the requests of one port to its arbiter. *)
Definition add_requests (pri : sRequest → Z) (a : A) (m : imap sRequest) : res A :=
  foldl (λ acc '(_, r), a ← acc; Arbiter.AddRequest a (r_port r) (r_label r) (pri r)) (Ok a) m.

(** [m[k]] of a [std::map]: a missing entry is value-initialised. *)
Definition index (m : imap sRequest) (k : Z) : sRequest * imap sRequest :=
  match mfind k m with
  | Some r => (r, m)
  | None => (mkReq 0 0 0 0, mset k (mkReq 0 0 0 0) m)
  end.

(** First phase for one port [p] of the first side: arbitrate between its
    requests and propose the winner to the other side. *)
Definition propose (p : Z) (pri1 pri2 : sRequest → Z)
    (st : list (imap sRequest) * list (imap sRequest) * list A * list A)
    : res (list (imap sRequest) * list (imap sRequest) * list A * list A) :=
  let '(req1, req2, arb1, arb2) := st in
  a ← vget arb1 p;
  m ← vget req1 p;
  a ← add_requests pri1 a m;
  '(a, (w, out)) ← Arbiter.Arbitrate a;
  arb1 ← vset arb1 p a;
  let label := match out with Some (id, _) => id | None => -1 end in
  assert! (-1 <? w);
  m2 ← vget req2 w;
  let '(r, m2) := index m2 p in
  req2 ← vset req2 w m2;
  assert! ((r_port r =? p) && (r_label r =? label));
  b ← vget arb2 w;
  b ← Arbiter.AddRequest b (r_port r) (r_label r) (pri2 r);
  arb2 ← vset arb2 w b;
  Ok (req1, req2, arb1, arb2).

(** Second phase for one port [q] of the second side: [im1] and [im2] are the
    match vectors of the two sides. *)
Definition accept (q : Z) (st : list Z * list Z * list A * list A)
    : res (list Z * list Z * list A * list A) :=
  let '(m1, m2, arb1, arb2) := st in
  b ← vget arb2 q;
  '(b, (p, _)) ← Arbiter.Arbitrate b;
  arb2 ← vset arb2 q b;
  if -1 <? p then
    x ← vget m1 p;
    y ← vget m2 q;
    assert! ((x =? -1) && (y =? -1));
    m1 ← vset m1 p q;
    m2 ← vset m2 q p;
    a ← vget arb1 p;
    a ← Arbiter.UpdateState a;
    arb1 ← vset arb1 p a;
    b ← Arbiter.UpdateState b;
    arb2 ← vset arb2 q b;
    Ok (m1, m2, arb1, arb2)
  else Ok (m1, m2, arb1, arb2).

Definition proposals (occ : iset) (pri1 pri2 : sRequest → Z) st :=
  foldl (λ acc x, st ← acc; propose x.1 pri1 pri2 st) (Ok st) occ.
Definition acceptances (occ : iset) st :=
  foldl (λ acc x, st ← acc; accept x.1 st) (Ok st) occ.

Definition AllocateInputFirst (s : Separable A) : res (Separable A) :=
  let sp := sep_sparse s in
  '(ir, or_, ia, oa) ← proposals (s_in_occ sp) r_in_pri r_out_pri
     (s_in_req sp, s_out_req sp, sep_input_arb s, sep_output_arb s);
  '(im, om, ia, oa) ← acceptances (s_out_occ sp)
     (al_inmatch (s_base sp), al_outmatch (s_base sp), ia, oa);
  Ok (mkSep (mkSparse (AllocOps.set_match im om (s_base sp)) (s_in_occ sp) (s_out_occ sp) ir or_) ia oa).

Definition AllocateOutputFirst (s : Separable A) : res (Separable A) :=
  let sp := sep_sparse s in
  '(or_, ir, oa, ia) ← proposals (s_out_occ sp) r_out_pri r_in_pri
     (s_out_req sp, s_in_req sp, sep_output_arb s, sep_input_arb s);
  '(om, im, oa, ia) ← acceptances (s_in_occ sp)
     (al_outmatch (s_base sp), al_inmatch (s_base sp), oa, ia);
  Ok (mkSep (mkSparse (AllocOps.set_match im om (s_base sp)) (s_in_occ sp) (s_out_occ sp) ir or_) ia oa).

End ops.
End SeparableOps.

(** ** Correctness of the two phases *)

Module SeparableInv.
Import SeparableOps.
Section state.
Context {A : Set} `{!Inhabited A} `{!Arbiter A} `{!ArbiterLaws A}.

(** No request yet. *)
Definition fresh (size : Z) (a : A) : Prop :=
  ready a ∧ asize a = size ∧ ∀ i, 0 ≤ i < size → rq a i = None.

(** [n] arbiters of [size] inputs, before and after an allocation. *)
Definition arbs_fresh (n size : Z) (arb : list A) : Prop :=
  zlen arb = n ∧ ∀ i, 0 ≤ i < n → fresh size (arb⟦i⟧).
Definition arbs_used (n size : Z) (arb : list A) : Prop :=
  zlen arb = n ∧ ∀ i, 0 ≤ i < n → asize (arb⟦i⟧) = size ∧ (ready (arb⟦i⟧) ∨ decided (arb⟦i⟧)).

Lemma clear_arb_fresh size a : asize a = size → ready a ∨ decided a → fresh size (clear_arb a).
Proof.
  intros Hs Hst. unfold clear_arb. destruct (Z.eqb_spec (NumReqs a) 0) as [E|E].
  - assert (ready a) as Hr by (destruct Hst; [done|by apply law_idle]).
    split_and!; try done. intros i Hi. destruct (law_NumReqs a Hr) as [H _]. apply H; [done|by rewrite Hs].
  - destruct (law_Clear a Hst) as (? & ? & _ & Hn). split_and!; try done; [congruence|]. by rewrite <- Hs.
Qed.

Lemma arbs_clear n size arb : arbs_used n size arb → arbs_fresh n size (clear_arb <$> arb).
Proof.
  intros [Hl Hu]. split; [by rewrite zlen_fmap|]. intros i Hi. rewrite znth_fmap by lia.
  destruct (Hu i Hi). by apply clear_arb_fresh.
Qed.
End state.

Section phases.
Context {A : Set} `{!Inhabited A} `{!Arbiter A} `{!ArbiterLaws A}.

(** The requests as the first side sees them: [req p q]. *)
Context (n m : Z) (req1 req2 : list (imap sRequest)) (pri1 pri2 : sRequest → Z).
Local Abbreviation req p q := (mfind q (req1⟦p⟧)).
Context (Hl1 : zlen req1 = n) (Hl2 : zlen req2 = m).
Context (Hsorted : ∀ p, 0 ≤ p < n → msorted (req1⟦p⟧)).
Context (Hreq : ∀ p q r, 0 ≤ p < n → req p q = Some r → 0 ≤ q < m ∧ r_port r = q).
Context (Hmirror : ∀ p q, 0 ≤ p < n → 0 ≤ q < m → mfind p (req2⟦q⟧) = SparseInv.with_port p <$> req p q).

Lemma add_list_ok (l : imap sRequest) : ∀ a,
  msorted l → (∀ q r, (q, r) ∈ l → 0 ≤ q < m ∧ r_port r = q ∧ rq a q = None) →
  ready a → asize a = m →
  returns (add_requests pri1 a l) (λ a', ready a' ∧ asize a' = m ∧
    ∀ q, 0 ≤ q < m → rq a' q = match mfind q l with Some r => Some (r_label r, pri1 r) | None => rq a q end).
Proof.
  unfold add_requests. induction l as [|[q r] l IH]; intros a Hs Hin Hr Hsz; simpl.
  { by apply returns_ok. }
  destruct (Hin q r) as (Hq & Hport & Hnone); [by left|]. rewrite Hport.
  apply StronglySorted_inv in Hs as [Hs Hlt]. simpl in Hlt.
  destruct (law_AddRequest a q (r_label r) (pri1 r) Hr ltac:(by rewrite Hsz) Hnone)
    as (a' & -> & Hr' & Hs' & _ & Hrq). rewrite Hsz in Hrq.
  eapply returns_mono; [apply (IH a'); [done| |done|congruence]|].
  - intros q' r' Hin'. destruct (Hin q' r') as (? & ? & ?); [by right|]. split_and!; try done; try lia.
    rewrite Hrq by done. unfold add_rq. rewrite decide_False; [done|].
    rewrite Forall_forall in Hlt. specialize (Hlt _ Hin'). simpl in Hlt. lia.
  - intros a'' (? & ? & Hrq'). split_and!; try done. intros q' Hq'. rewrite Hrq' by done.
    destruct (Z.eqb_spec q q') as [->|Hne].
    + rewrite mfind_below by done. rewrite Hrq by done. unfold add_rq. by rewrite decide_True.
    + destruct (mfind q' l); [done|]. rewrite Hrq by done. unfold add_rq. by rewrite decide_False.
Qed.

Lemma add_requests_ok a p :
  0 ≤ p < n → fresh m a →
  returns (add_requests pri1 a (req1⟦p⟧)) (λ a', ready a' ∧ asize a' = m ∧
    ∀ q, 0 ≤ q < m → rq a' q = (λ r, (r_label r, pri1 r)) <$> req p q).
Proof.
  intros Hp (Hr & Hs & Hn). eapply returns_mono.
  - apply add_list_ok; [by apply Hsorted| |done|done]. intros q r Hqr.
    apply elem_mfind in Hqr; [|by apply Hsorted]. destruct (Hreq p q r Hp Hqr). split_and!; try done; try lia.
    by apply Hn.
  - intros a' (? & ? & Hrq). split_and!; try done. intros q Hq. rewrite Hrq by done.
    destruct (mfind q (req1⟦p⟧)); [done|]. by apply Hn.
Qed.

(** *** The first phase *)

(** The state after the ports satisfying [dn] have proposed. *)
Record proposed (dn : Z → Prop) (arb1 arb2 : list A) : Prop := {
  pr_len1 : zlen arb1 = n;
  pr_len2 : zlen arb2 = m;
  pr_todo : ∀ p, 0 ≤ p < n → ¬ dn p → fresh m (arb1⟦p⟧);
  pr_done : ∀ p, 0 ≤ p < n → dn p →
    decided (arb1⟦p⟧) ∧ asize (arb1⟦p⟧) = m ∧ 0 ≤ LastWinner (arb1⟦p⟧) < m ∧
    req p (LastWinner (arb1⟦p⟧)) ≠ None;
  pr_arb2 : ∀ q, 0 ≤ q < m → ready (arb2⟦q⟧) ∧ asize (arb2⟦q⟧) = n;
  pr_rq : ∀ p q, 0 ≤ p < n → 0 ≤ q < m →
    (rq (arb2⟦q⟧) p ≠ None ↔ dn p ∧ LastWinner (arb1⟦p⟧) = q)
}.

Lemma proposed_ext (dn dn' : Z → Prop) arb1 arb2 :
  (∀ p, 0 ≤ p < n → (dn p ↔ dn' p)) → proposed dn arb1 arb2 → proposed dn' arb1 arb2.
Proof.
  intros E [P1 P2 Ptodo Pdone Parb2 Prq]. split; try done.
  - intros p Hp. rewrite <- E by done. auto.
  - intros p Hp. rewrite <- E by done. auto.
  - intros p q Hp Hq. rewrite <- E by done. auto.
Qed.

Lemma proposed_step (dn : Z → Prop) arb1 arb2 p w a b x :
  proposed dn arb1 arb2 → 0 ≤ p < n → ¬ dn p → 0 ≤ w < m → req p w ≠ None →
  decided a → asize a = m → LastWinner a = w →
  ready b → asize b = n → (∀ j, 0 ≤ j < n → rq b j = add_rq (rq (arb2⟦w⟧)) p x.1 x.2 j) →
  proposed (λ p', p' = p ∨ dn p') (arb1⟦p := a⟧) (arb2⟦w := b⟧).
Proof.
  intros [P1 P2 Ptodo Pdone Parb2 Prq] Hp Hndn Hw Hreqw Hda Hsa Hlw Hrb Hsb Hrq. split.
  - lens.
  - lens.
  - intros p' Hp' Hn'. rewrite znth_zupd_ne by (try lia; intros ->; apply Hn'; by left).
    apply Ptodo; [done|]. intros ?. apply Hn'. by right.
  - intros p' Hp' Hd'. rewrite znth_zupd by lia. case_decide as E; [subst p'; by rewrite Hlw|].
    apply Pdone; [done|]. by destruct Hd' as [->|?].
  - intros q Hq. rewrite znth_zupd by lia. case_decide; [done|by apply Parb2].
  - intros p' q Hp' Hq. rewrite !znth_zupd by lia. pose proof (Prq p' q Hp' Hq) as Hold.
    destruct (decide (w = q)) as [->|Hwq].
    + rewrite Hrq by done. unfold add_rq. destruct (decide (p' = p)) as [->|Hpp].
      * rewrite decide_True by done. rewrite Hlw. split; [|done]. intros _. split; [by left|done].
      * rewrite decide_False by congruence. rewrite Hold. intuition congruence.
    + rewrite Hold. destruct (decide (p = p')) as [<-|Hpp].
      * rewrite Hlw. intuition congruence.
      * intuition congruence.
Qed.

Lemma propose_ok (dn : Z → Prop) arb1 arb2 p :
  proposed dn arb1 arb2 → 0 ≤ p < n → ¬ dn p → req1⟦p⟧ ≠ [] →
  returns (propose p pri1 pri2 (req1, req2, arb1, arb2)) (λ st,
    ∃ arb1' arb2', st = (req1, req2, arb1', arb2') ∧ proposed (λ p', p' = p ∨ dn p') arb1' arb2').
Proof.
  intros [P1 P2 Ptodo Pdone Parb2 Prq] Hp Hndn Hne. unfold propose. do 2 rstep.
  destruct (add_requests_ok (arb1⟦p⟧) p Hp (Ptodo p Hp Hndn)) as (a1 & -> & Hr1 & Hs1 & Hrq1). cbn [mbind res_bind].
  destruct (law_Arbitrate a1 Hr1) as ([a2 [w out]] & -> & Hd2 & Hs2 & _ & Hlw & _ & Hspec). simpl in Hlw, Hspec.
  rewrite Hs1 in Hspec, Hs2. cbn [mbind res_bind]. rstep.
  destruct Hspec as [[_ Hnone]|(s & id & pr & [= -> ->] & Hw & Hrw & _)].
  { destruct Hne. apply (msorted_empty_iff _ (Hsorted p Hp)). intros q.
    destruct (req p q) as [r|] eqn:E; [|done]. destruct (Hreq p q r Hp E) as [Hq _].
    specialize (Hnone q Hq). rewrite Hrq1, E in Hnone by done. done. }
  simpl in Hlw. rewrite Hrq1 in Hrw by done. destruct (req p s) as [r|] eqn:Er; [|done]. injection Hrw as <- <-.
  apply returns_assert; [lia|]. rstep. unfold index. rewrite Hmirror, Er by done. simpl. rstep.
  rewrite !Z.eqb_refl. simpl. rstep. destruct (Parb2 s Hw) as [Hr2 Hsz2].
  assert (rq (arb2⟦s⟧) p = None) as Hn2.
  { destruct (rq (arb2⟦s⟧) p) eqn:E; [|done]. destruct Hndn. apply (Prq p s Hp Hw). by rewrite E. }
  destruct (law_AddRequest (arb2⟦s⟧) p (r_label r) (pri2 (SparseInv.with_port p r)) Hr2 ltac:(by rewrite Hsz2) Hn2)
    as (b & -> & Hrb & Hsb & _ & Hrqb). rewrite Hsz2 in Hrqb. cbn [mbind res_bind]. rstep. apply returns_ok.
  exists (arb1⟦p := a2⟧), (arb2⟦s := b⟧). split.
  { do 3 f_equal. apply zlist_eq; [by rewrite zlen_zupd|]. intros i Hi. rewrite zlen_zupd in Hi.
    rewrite znth_zupd by lia. case_decide as E; [by subst i|done]. }
  eapply (proposed_step dn arb1 arb2 p s a2 b (r_label r, _)); try done; try congruence.
Qed.

Lemma proposals_ok occ arb1 arb2 :
  (∀ p, 0 ≤ p < n → fresh m (arb1⟦p⟧)) → (∀ q, 0 ≤ q < m → fresh n (arb2⟦q⟧)) →
  zlen arb1 = n → zlen arb2 = m →
  msorted occ → (∀ p, mfind p occ = Some tt ↔ 0 ≤ p < n ∧ req1⟦p⟧ ≠ []) →
  returns (proposals occ pri1 pri2 (req1, req2, arb1, arb2)) (λ st,
    ∃ arb1' arb2', st = (req1, req2, arb1', arb2') ∧
      proposed (λ p, 0 ≤ p < n ∧ req1⟦p⟧ ≠ []) arb1' arb2').
Proof.
  intros Hf1 Hf2 Hlen1 Hlen2 Hs Hocc. unfold proposals. eapply returns_mono.
  - apply (returns_iset (λ dn st, ∃ arb1' arb2', st = (req1, req2, arb1', arb2') ∧ proposed dn arb1' arb2')
      (λ st p, propose p pri1 pri2 st)); [done| | |].
    + intros d d' st E (a1 & a2 & -> & Hpr). exists a1, a2. split; [done|]. revert Hpr. by apply proposed_ext.
    + exists arb1, arb2. split; [done|]. split; try done; [by auto| |].
      * intros q Hq. destruct (Hf2 q Hq) as (? & ? & _). done.
      * intros p q Hp Hq. destruct (Hf2 q Hq) as (_ & _ & Hn). rewrite Hn by done. tauto.
    + intros d p st [Hp Hne]%Hocc Hnd (a1 & a2 & -> & Hpr). by apply propose_ok.
  - intros st (a1 & a2 & -> & Hpr). exists a1, a2. split; [done|]. revert Hpr. by apply proposed_ext.
Qed.

(** *** The second phase *)

(** The state after the ports of the second side satisfying [dn] have accepted,
    [w p] being what port [p] had proposed. *)
Record accepted (who : Z → Prop) (w : Z → Z) (dn : Z → Prop) (m1 m2 : list Z) (arb1 arb2 : list A) : Prop := {
  ac_match : matching n m (λ p q, req p q ≠ None) m1 m2;
  ac_len1 : zlen arb1 = n;
  ac_len2 : zlen arb2 = m;
  ac_arb1 : ∀ p, 0 ≤ p < n → asize (arb1⟦p⟧) = m ∧ (ready (arb1⟦p⟧) ∨ decided (arb1⟦p⟧)) ∧
    (who p → decided (arb1⟦p⟧));
  ac_todo : ∀ q, 0 ≤ q < m → ¬ dn q → m2⟦q⟧ = -1 ∧ ready (arb2⟦q⟧) ∧
    ∀ p, 0 ≤ p < n → (rq (arb2⟦q⟧) p ≠ None ↔ who p ∧ w p = q);
  ac_done : ∀ q, 0 ≤ q < m → dn q → (∃ p, 0 ≤ p < n ∧ who p ∧ w p = q) → m2⟦q⟧ ≠ -1;
  ac_arb2 : ∀ q, 0 ≤ q < m → asize (arb2⟦q⟧) = n ∧ (ready (arb2⟦q⟧) ∨ decided (arb2⟦q⟧));
  ac_in : ∀ p, 0 ≤ p < n → m1⟦p⟧ ≠ -1 → dn (m1⟦p⟧) ∧ w p = m1⟦p⟧
}.

Lemma accepted_ext who w (dn dn' : Z → Prop) m1 m2 arb1 arb2 :
  (∀ q, dn q ↔ dn' q) → accepted who w dn m1 m2 arb1 arb2 → accepted who w dn' m1 m2 arb1 arb2.
Proof.
  intros E []. split; try done.
  - intros q Hq. rewrite <- E. auto.
  - intros q Hq. rewrite <- E. auto.
  - intros p Hp Hm. rewrite <- E. auto.
Qed.

Lemma accepted_arb who w (dn : Z → Prop) m1 m2 arb1 arb2 q b :
  accepted who w dn m1 m2 arb1 arb2 → 0 ≤ q < m → asize b = n → ready b ∨ decided b →
  ¬ (∃ p, 0 ≤ p < n ∧ who p ∧ w p = q) →
  accepted who w (λ q', q' = q ∨ dn q') m1 m2 arb1 (arb2⟦q := b⟧).
Proof.
  intros [Amt A1 A2 Aarb1 Atodo Adone Aarb2 Ain] Hq Hsz Hst Hno. split; try done; [lens| | | |].
  - intros q' Hq' Hn. rewrite znth_zupd_ne by (try lia; intros ->; apply Hn; by left). apply Atodo; tauto.
  - intros q' Hq' [->|Hd] Hex; [done|]. by apply Adone.
  - intros q' Hq'. rewrite znth_zupd by lia. case_decide; auto.
  - intros p Hp Hm. destruct (Ain p Hp Hm). tauto.
Qed.

Lemma accepted_grant who w (dn : Z → Prop) m1 m2 arb1 arb2 p a b :
  (∀ p, 0 ≤ p < n → who p → 0 ≤ w p < m ∧ req p (w p) ≠ None) →
  accepted who w dn m1 m2 arb1 arb2 → 0 ≤ p < n → who p → m1⟦p⟧ = -1 → m2⟦w p⟧ = -1 →
  decided a → asize a = m → decided b → asize b = n →
  accepted who w (λ q, q = w p ∨ dn q) (m1⟦p := w p⟧) (m2⟦w p := p⟧) (arb1⟦p := a⟧) (arb2⟦w p := b⟧).
Proof.
  intros Hw [Amt A1 A2 Aarb1 Atodo Adone Aarb2 Ain] Hp Hwho E1 E2 Hda Hsa Hdb Hsb.
  destruct (Hw p Hp Hwho) as [Hq Hr]. pose proof Amt as [Al1 Al2 _ _]. split; try lens.
  - by apply matching_grant.
  - intros p' Hp'. rewrite znth_zupd by lia. case_decide; auto.
  - intros q' Hq' Hn. rewrite !znth_zupd_ne by (try lia; intros ->; apply Hn; by left). apply Atodo; tauto.
  - intros q' Hq' Hd Hex. rewrite znth_zupd by lia. case_decide; [lia|]. apply Adone; try done.
    destruct Hd; congruence.
  - intros q' Hq'. rewrite znth_zupd by lia. case_decide; auto.
  - intros p' Hp'. rewrite znth_zupd by lia. case_decide as E; [subst p'; tauto|]. intros Hm.
    destruct (Ain p' Hp' Hm). tauto.
Qed.

Lemma accept_ok who w (dn : Z → Prop) m1 m2 arb1 arb2 q :
  (∀ p, 0 ≤ p < n → who p → 0 ≤ w p < m ∧ req p (w p) ≠ None) →
  accepted who w dn m1 m2 arb1 arb2 → 0 ≤ q < m → ¬ dn q →
  returns (accept q (m1, m2, arb1, arb2)) (λ st, ∃ m1' m2' arb1' arb2', st = (m1', m2', arb1', arb2') ∧
    accepted who w (λ q', q' = q ∨ dn q') m1' m2' arb1' arb2').
Proof.
  intros Hw Hacc Hq Hndn. pose proof Hacc as [Amt A1 A2 Aarb1 Atodo Adone Aarb2 Ain].
  destruct (Atodo q Hq Hndn) as (Eq & Hr & Hrq). destruct (Aarb2 q Hq) as [Hsz _].
  unfold accept. rstep.
  destruct (law_Arbitrate (arb2⟦q⟧) Hr) as ([b [p out]] & -> & Hdb & Hsb & _ & _ & _ & Hspec).
  simpl in Hdb, Hsb, Hspec. rewrite Hsz in Hsb, Hspec. cbn [mbind res_bind]. rstep.
  destruct Hspec as [[[= -> ->] Hnone]|(s & id & pr & [= -> ->] & Hs & Hrs & _)].
  - apply returns_ok. eexists _, _, _, _. split; [done|].
    apply accepted_arb; try done; [by right|]. intros (p & Hp & Hwho & E).
    apply (proj2 (Hrq p Hp)); [done|]. by apply Hnone.
  - destruct (proj1 (Hrq s Hs)) as [Hwho E]; [congruence|]. subst q.
    assert (m1⟦s⟧ = -1) as Es.
    { destruct (decide (m1⟦s⟧ = -1)) as [?|Hn]; [done|]. destruct (Ain s Hs Hn) as [? E2]. congruence. }
    destruct (Aarb1 s Hs) as (Hsz1 & _ & Hd). specialize (Hd Hwho). pose proof Amt as [Al1 Al2 _ _].
    destruct (Z.ltb_spec (-1) s); [|lia]. do 2 rstep. rewrite Es, Eq. simpl. do 3 rstep.
    destruct (law_UpdateState _ Hd) as (a' & -> & Hda' & Hsa' & _). cbn [mbind res_bind]. rstep.
    destruct (law_UpdateState b Hdb) as (b' & -> & Hdb' & Hsb' & _). cbn [mbind res_bind]. rstep. apply returns_ok.
    eexists _, _, _, _. split; [done|].
    assert ((arb2⟦w s := b⟧)⟦w s := b'⟧ = arb2⟦w s := b'⟧) as -> by apply list_insert_insert_eq.
    apply accepted_grant; try done; congruence || lia.
Qed.

Lemma acceptances_ok who w occ m1 m2 arb1 arb2 :
  (∀ p, 0 ≤ p < n → who p → 0 ≤ w p < m ∧ req p (w p) ≠ None) →
  accepted who w (λ _, False) m1 m2 arb1 arb2 → msorted occ →
  (∀ q, mfind q occ = Some tt → 0 ≤ q < m) →
  returns (acceptances occ (m1, m2, arb1, arb2)) (λ st, ∃ m1' m2' arb1' arb2', st = (m1', m2', arb1', arb2') ∧
    accepted who w (λ q, mfind q occ = Some tt) m1' m2' arb1' arb2').
Proof.
  intros Hw Hacc Hs Hocc. unfold acceptances.
  apply (returns_iset (λ dn st, ∃ m1' m2' arb1' arb2', st = (m1', m2', arb1', arb2') ∧
    accepted who w dn m1' m2' arb1' arb2') (λ st q, accept q st)); [done| | |].
  - intros d d' st E (? & ? & ? & ? & -> & H). eexists _, _, _, _. split; [done|]. revert H. by apply accepted_ext.
  - by eexists _, _, _, _.
  - intros d q st Hq%Hocc Hnd (? & ? & ? & ? & -> & H). by apply accept_ok.
Qed.

(** Both phases from a cleared state: the grants are a matching, and there is
    one as soon as there is a request. *)
Lemma two_phases occ1 occ2 m1 m2 arb1 arb2 :
  matching n m (λ p q, req p q ≠ None) m1 m2 → (∀ q, 0 ≤ q < m → m2⟦q⟧ = -1) → (∀ p, 0 ≤ p < n → m1⟦p⟧ = -1) →
  arbs_fresh n m arb1 → arbs_fresh m n arb2 →
  msorted occ1 → (∀ p, mfind p occ1 = Some tt ↔ 0 ≤ p < n ∧ req1⟦p⟧ ≠ []) →
  msorted occ2 → (∀ q, mfind q occ2 = Some tt ↔ 0 ≤ q < m ∧ req2⟦q⟧ ≠ []) →
  returns (proposals occ1 pri1 pri2 (req1, req2, arb1, arb2)) (λ st1, ∃ arb1' arb2',
    st1 = (req1, req2, arb1', arb2') ∧
    returns (acceptances occ2 (m1, m2, arb1', arb2')) (λ st2, ∃ m1' m2' arb1'' arb2'',
      st2 = (m1', m2', arb1'', arb2'') ∧ matching n m (λ p q, req p q ≠ None) m1' m2' ∧
      arbs_used n m arb1'' ∧ arbs_used m n arb2'' ∧
      ((∃ p q, 0 ≤ p < n ∧ req p q ≠ None) → ∃ q, 0 ≤ q < m ∧ m2'⟦q⟧ ≠ -1))).
Proof.
  intros Hmt Hf2 Hf1 [A1 Hfr1] [A2 Hfr2] Hs1 Ho1 Hs2 Ho2.
  eapply returns_mono; [by apply proposals_ok|]. intros st (a1 & a2 & -> & [P1 P2 Ptodo Pdone Parb2 Prq]).
  exists a1, a2. split; [done|]. set (who := λ p, 0 ≤ p < n ∧ req1⟦p⟧ ≠ []). set (w := λ p, LastWinner (a1⟦p⟧)).
  assert (∀ p, 0 ≤ p < n → who p → 0 ≤ w p < m ∧ req p (w p) ≠ None) as Hw.
  { intros p Hp Hwho. destruct (Pdone p Hp Hwho) as (_ & _ & ? & ?). done. }
  eapply returns_mono; [apply (acceptances_ok who w); [done| |done|intros q ?; by apply Ho2]|].
  - split; try done.
    + intros p Hp. destruct (decide (req1⟦p⟧ = [])) as [E|E].
      * destruct (Ptodo p Hp) as (? & ? & _); [by intros [_ ?]|]. split_and!; [done|by left|]. by intros [_ ?].
      * destruct (Pdone p Hp) as (? & ? & _); [done|]. split_and!; auto.
    + intros q Hq _. destruct (Parb2 q Hq). split_and!; auto.
    + intros q Hq. destruct (Parb2 q Hq). auto.
    + intros p Hp E. by rewrite Hf1 in E.
  - intros st (m1' & m2' & a1' & a2' & -> & [Q1 Q2 Q3 Q4 Q5 Q6 Q7 Q8]).
    eexists _, _, _, _. split_and!; try done.
    + split; [done|]. intros p Hp. destruct (Q4 p Hp) as (? & ? & _). done.
    + intros (p & q & Hp & Hr). assert (who p) as Hwho by (split; [done|]; by intros E; rewrite E in Hr).
      destruct (Hw p Hp Hwho) as [Hwp Hrw]. exists (w p). split; [done|]. apply Q6; [done| |by exists p].
      apply Ho2. split; [done|]. intros E. pose proof (Hmirror p (w p) Hp Hwp) as Hmi. rewrite E in Hmi.
      simpl in Hmi. by destruct (req p (w p)).
Qed.
End phases.

(** ** The allocator interface *)

Section allocators.
Context {A : Set} `{!Inhabited A} `{!Arbiter A} `{!ArbiterLaws A}.
Implicit Types s : Separable A.

Inductive sep_order : Set := InputFirst | OutputFirst.

Definition SeparableI (order : sep_order) : AllocatorI (Separable A) :=
  mkAllocI (λ s, s_base (sep_sparse s)) Clear AddRequest
    (match order with InputFirst => AllocateInputFirst | OutputFirst => AllocateOutputFirst end).

(** Cleared, possibly with requests added since. *)
Definition sep_opened (n m : Z) s (R : requests) : Prop :=
  SparseLaws.sparse_opened n m (sep_sparse s) R ∧
  arbs_fresh n m (sep_input_arb s) ∧ arbs_fresh m n (sep_output_arb s).

(** The outcome of an allocation. *)
Definition sep_granted (n m : Z) s (R : requests) s' : Prop := ∃ im om,
  sep_sparse s' = SparseLaws.with_match im om (sep_sparse s) ∧
  matching n m (wants R) im om ∧ progress n m R im om ∧
  arbs_used n m (sep_input_arb s') ∧ arbs_used m n (sep_output_arb s').

Lemma AllocateInputFirst_ok n m s R :
  sep_opened n m s R → returns (AllocateInputFirst s) (sep_granted n m s R).
Proof.
  intros (Hop & Hin & Hout). pose proof Hop as [Hsp En Em (F1 & F2 & F3 & F4) HR _]. rewrite En, Em in *.
  pose proof Hsp as [Hn Hm Hil Hol His Hos Hi Ho Hmir Hios Hoos Hio Hoo]. rewrite En, Em in *. unfold AllocateInputFirst.
  eapply returns_bind; [apply (two_phases n m _ _ r_in_pri r_out_pri
    Hil Hol His (λ p q r Hp Hr, let H := Hi p q r Hp Hr in conj (proj1 H) (proj1 (proj2 H))) Hmir
    _ (s_out_occ (sep_sparse s)) (al_inmatch (s_base (sep_sparse s))) (al_outmatch (s_base (sep_sparse s)))); try done|].
  { by apply (SparseLaws.sparse_free_matching n m _ R). }
  intros st (ia & oa & -> & Hacc). eapply returns_bind; [exact Hacc|].
  intros st (im & om & ia' & oa' & -> & Hmt & Hia & Hoa & Hprog). apply returns_ok.
  exists im, om. split_and!; try done.
  - revert Hmt. apply matching_ext. intros i o Hi' Ho'. by apply (SparseLaws.wants_sreq n m _ R).
  - intros (i & o & Hi' & Ho' & Hr). apply (SparseLaws.wants_sreq n m _ R _ _ Hop) in Hr; [|done|done].
    destruct Hprog as (o' & Ho'' & Hne); [by exists i, o|].
    destruct (mt_out _ _ _ _ _ Hmt o' Ho'') as [?|[? E]]; [lia|]. eexists _. split; [done|]. rewrite E. lia.
Qed.

Lemma AllocateOutputFirst_ok n m s R :
  sep_opened n m s R → returns (AllocateOutputFirst s) (sep_granted n m s R).
Proof.
  intros (Hop & Hin & Hout). pose proof Hop as [Hsp En Em (F1 & F2 & F3 & F4) HR _]. rewrite En, Em in *.
  pose proof Hsp as [Hn Hm Hil Hol His Hos Hi Ho Hmir Hios Hoos Hio Hoo]. rewrite En, Em in *. unfold AllocateOutputFirst.
  assert (∀ o i r, 0 ≤ o < m → mfind i ((s_out_req (sep_sparse s))⟦o⟧) = Some r → 0 ≤ i < n ∧ r_port r = i) as Hreq.
  { intros o i r Ho' Hr. pose proof (Ho i o r Ho' Hr) as Hi'. split; [done|]. rewrite Hmir in Hr by done.
    destruct (SparseInv.sreq _ i o); [|done]. by injection Hr as <-. }
  eapply returns_bind; [apply (two_phases m n _ _ r_out_pri r_in_pri Hol Hil Hos Hreq)
    with (occ2 := s_in_occ (sep_sparse s)) (m1 := al_outmatch (s_base (sep_sparse s)))
         (m2 := al_inmatch (s_base (sep_sparse s))); try done|].
  { intros o i Ho' Hi'. rewrite Hmir by done. fold (SparseInv.sreq (sep_sparse s) i o).
    destruct (SparseInv.sreq _ i o) as [r|] eqn:Er; [|done]. simpl. f_equal.
    destruct (Hi _ _ _ Hi' Er) as (_ & <- & _). by destruct r. }
  { apply matching_sym. split; try done; intros; left; auto. }
  intros st (oa & ia & -> & Hacc). eapply returns_bind; [exact Hacc|].
  intros st (om & im & oa' & ia' & -> & Hmt & Hoa & Hia & Hprog). apply returns_ok.
  exists im, om. split_and!; try done.
  - apply matching_sym in Hmt. revert Hmt. apply matching_ext. intros i o Hi' Ho'.
    rewrite (SparseLaws.wants_sreq n m _ R _ _ Hop), Hmir by done. by destruct (SparseInv.sreq _ i o).
  - intros (i & o & Hi' & Ho' & Hr). apply (SparseLaws.wants_sreq n m _ R _ _ Hop) in Hr; [|done|done].
    apply Hprog. exists o, i. split; [done|]. rewrite Hmir by done. by destruct (SparseInv.sreq _ i o).
Qed.

Definition SeparableLaws (order : sep_order) (n m : Z) : AllocatorLaws (SeparableI order) n m (progress n m).
Proof.
  refine {| opened := sep_opened n m |}.
  - intros s R R' E [Hop ?]. split; [|done]. by apply (SparseLaws.sparse_ext n m _ R).
  - intros s R i o label ip op (Hop & Hin & Hout) Hi Ho Hl Hn. simpl. unfold AddRequest.
    destruct (SparseLaws.opened_AddRequest n m _ R i o label ip op Hop Hi Ho Hl Hn) as (sp & -> & Hop').
    by apply returns_ok.
  - intros s R Hs. eapply returns_mono;
      [destruct order; [by apply (AllocateInputFirst_ok n m s R)|by apply (AllocateOutputFirst_ok n m s R)]|].
    intros s' (im & om & E & Hmt & Hpr & Hia & Hoa). simpl. rewrite E. split_and!; try done.
    split_and!; simpl; rewrite ?E; try (by apply arbs_clear). apply (SparseLaws.sparse_close n m _ R); [apply Hs|done].
Defined.

Lemma New_opened (new : Z → res A) n m :
  0 < n → 0 < m →
  (∀ k, k = n ∨ k = m → returns (new k) (λ a, ready a ∧ asize a = k ∧ NumReqs a = 0)) →
  returns (New new n m) (λ s, sep_opened n m (Clear s) no_requests).
Proof.
  intros Hn Hm Hnew.
  assert (∀ c k, 0 < c → k = n ∨ k = m → returns (new_arbs new c k) (arbs_used c k)) as Harbs.
  { intros c k Hc Hk. unfold new_arbs. destruct (Z.leb_spec c 0); [lia|].
    destruct (Hnew k Hk) as (a & -> & Hr & Hs & _). apply returns_ok. split; [apply zlen_replicate; lia|].
    intros i Hi. rewrite znth_replicate by done. auto. }
  unfold New. destruct (Harbs n m Hn ltac:(by right)) as (ia & -> & Hia).
  destruct (Harbs m n Hm ltac:(by left)) as (oa & -> & Hoa). apply returns_ok.
  split_and!; simpl; try (by apply arbs_clear).
  apply (SparseLaws.sparse_close_idle n m _ no_requests), SparseLaws.sparse_New_opened; lia.
Qed.
End allocators.

(** C18. Separable allocators, input first and output first, over every arbiter
    the configuration can name and of any size: from construction on, any
    sequence of cycles with legal requests runs to the end (no assertion of the
    allocator or of its arbiters fails), each cycle grants a matching of exactly
    its own requests, and at least one of them if there is any. *)
Theorem separable_cycles order t n m rss :
  fits t n → fits t m → Forall (areqs_ok n m) rss →
  returns (s ← New (NewArbiter t) n m; alloc_cycles (SeparableI order) s rss) (λ r,
    Forall2 (answers n m (progress n m)) rss r.2).
Proof.
  intros Hfn Hfm Hok. pose proof (fits_pos _ _ Hfn) as Hn. pose proof (fits_pos _ _ Hfm) as Hm. eapply returns_bind.
  - apply (New_opened (NewArbiter t) n m Hn Hm). intros k [->| ->]; by apply NewArbiter_ready.
  - intros s Hs. by apply (alloc_cycles_ok _ n m _ (SeparableLaws order n m)).
Qed.

Lemma separable_cycles_witness :
  returns (s ← New (NewArbiter (ArbTree 2 ArbMatrix)) 4 2;
           alloc_cycles (SeparableI InputFirst) s [[(0, 1, 0, 0, 0); (1, 1, 3, 2, 0)]; []; [(3, 0, 1, 0, 0)]])
    (λ r, Forall2 (answers 4 2 (progress 4 2))
            [[(0, 1, 0, 0, 0); (1, 1, 3, 2, 0)]; []; [(3, 0, 1, 0, 0)]] r.2).
Proof.
  apply (separable_cycles InputFirst (ArbTree 2 ArbMatrix) 4 2).
  - simpl. repeat split; lia.
  - simpl. repeat split; lia.
  - by apply areqs_okb_ok.
Defined.
End SeparableInv.
