(* ===== verification/Wavefront.v ===== *)
(** * The wavefront allocator

    [Wavefront] (allocators/wavefront.cpp): the diagonals of the request matrix
    are swept once for each priority, from the highest down.  Any sequence of
    cycles runs without a failure; a request that is not granted conflicts with
    a granted one of at least its priority, so the matching is maximal. *)

From S2P Require Import Prelude StdMap Allocator AllocLaws AllocStore.

Record Wavefront : Set := mkWf {
  w_dense : Dense;
  w_last_in : Z;
  w_last_out : Z;
  w_priorities : list (Z * Z);  (* set<pair<int, int> >, in increasing order *)
  w_skip_diags : bool;
  w_square : Z;
  w_pri : Z;
  w_num_requests : Z
}.

Module WavefrontOps.

(** [std::less<pair<int, int> >]. *)
Definition plt (x y : Z * Z) : bool := (x.1 <? y.1) || ((x.1 =? y.1) && (x.2 <? y.2)).

Fixpoint pinsert (x : Z * Z) (l : list (Z * Z)) : list (Z * Z) :=
  match l with
  | [] => [x]
  | y :: l' => if plt x y then x :: l else if plt y x then y :: pinsert x l' else l
  end.

Definition New (inputs outputs : Z) (skip_diags : bool) : Wavefront :=
  mkWf (DenseOps.New inputs outputs) (-1) (-1) [] skip_diags (Z.max inputs outputs) 0 0.

(** [DenseAllocator::Clear], which [Wavefront] inherits. *)
Definition Clear (w : Wavefront) : Wavefront :=
  mkWf (DenseOps.Clear (w_dense w)) (w_last_in w) (w_last_out w) (w_priorities w) (w_skip_diags w)
    (w_square w) (w_pri w) (w_num_requests w).

Definition AddRequest (w : Wavefront) (in_ out label in_pri out_pri : Z) : res Wavefront :=
  d ← DenseOps.AddRequest (w_dense w) in_ out label in_pri out_pri;
  Ok (mkWf d in_ out (pinsert (out_pri, in_pri) (w_priorities w)) (w_skip_diags w)
        (w_square w) (w_pri w) (w_num_requests w + 1)).

(** One cell of the sweep: [_inmatch], [_outmatch] and [first_diag]. *)
Definition visit (w : Wavefront) (lvl : Z * Z) (p output : Z) (st : list Z * list Z * Z)
    : res (list Z * list Z * Z) :=
  let '(im, om, first_diag) := st in
  let b := d_base (w_dense w) in
  let input := ((w_pri w + p) + (w_square w - output)) `rem` w_square w in
  if (input <? al_inputs b) && (output <? al_outputs b) then
    x ← vget im input;
    y ← vget om output;
    if (x =? -1) && (y =? -1) then
      r ← DenseOps.at_ (w_dense w) input output;
      if negb (r_label r =? -1) && (r_in_pri r =? lvl.2) && (r_out_pri r =? lvl.1) then
        im ← vset im input output;
        om ← vset om output input;
        Ok (im, om, if first_diag <? 0 then input + output else first_diag)
      else Ok st
    else Ok st
  else Ok st.

Definition sweep (w : Wavefront) (lvl : Z * Z) (st : list Z * list Z * Z) : res (list Z * list Z * Z) :=
  zfor 0 (w_square w) (λ p st, zfor 0 (w_square w) (λ output st, visit w lvl p output st) st) st.

Definition Allocate (w : Wavefront) : res Wavefront :=
  if w_num_requests w =? 0 then Ok w
  else
    let b := d_base (w_dense w) in
    '(im, om, first_diag) ←
      (if w_num_requests w =? 1 then
         im ← vset (al_inmatch b) (w_last_in w) (w_last_out w);
         om ← vset (al_outmatch b) (w_last_out w) (w_last_in w);
         Ok (im, om, w_last_in w + w_last_out w)
       else
         foldl (λ acc lvl, st ← acc; sweep w lvl st) (Ok (al_inmatch b, al_outmatch b, -1))
           (reverse (w_priorities w)));
    assert! (0 <=? first_diag);
    Ok (mkWf (mkDense (AllocOps.set_match im om b) (d_request (w_dense w))) (-1) (-1) [] (w_skip_diags w)
          (w_square w) (((if w_skip_diags w then first_diag else w_pri w) + 1) `rem` w_square w) 0).

End WavefrontOps.

Definition WavefrontI : AllocatorI Wavefront :=
  mkAllocI (λ w, d_base (w_dense w)) WavefrontOps.Clear WavefrontOps.AddRequest WavefrontOps.Allocate.

Module WavefrontInv.
Import WavefrontOps.

(** ** The set of priorities *)

Lemma plt_trans_false x y z : plt x y = false → plt y z = false → plt x z = false.
Proof. destruct x, y, z. unfold plt. simpl. lia. Qed.

Lemma plt_asym x y : plt x y = true → plt y x = false.
Proof. destruct x, y. unfold plt. simpl. lia. Qed.

Lemma plt_refl x : plt x x = false.
Proof. destruct x. unfold plt. simpl. lia. Qed.

Lemma plt_antisym x y : plt x y = false → plt y x = false → x = y.
Proof. destruct x, y. unfold plt. simpl. intros. f_equal; lia. Qed.

Lemma elem_pinsert x y l : y ∈ pinsert x l ↔ y = x ∨ y ∈ l.
Proof.
  induction l as [|z l IH]; simpl; [by rewrite list_elem_of_singleton, elem_of_nil; tauto|].
  destruct (plt x z) eqn:E1; [by rewrite !elem_of_cons|]. destruct (plt z x) eqn:E2.
  - rewrite !elem_of_cons, IH. tauto.
  - rewrite (plt_antisym x z) by done. rewrite elem_of_cons. tauto.
Qed.

Abbreviation ascending := (StronglySorted (λ x y, plt y x = false)).
Abbreviation descending := (StronglySorted (λ x y, plt x y = false)).

Lemma pinsert_ascending x l : ascending l → ascending (pinsert x l).
Proof.
  induction 1 as [|y l Hs IH Hl]; simpl; [by repeat constructor|].
  destruct (plt x y) eqn:E1; [|destruct (plt y x) eqn:E2; [|by constructor]].
  - constructor; [by constructor|]. constructor; [by apply plt_asym|].
    eapply Forall_impl; [exact Hl|]. simpl. intros z Hz.
    eapply plt_trans_false; [exact Hz|]. by apply plt_asym.
  - constructor; [done|]. apply Forall_forall. intros z [->|Hz]%elem_pinsert; [done|].
    rewrite Forall_forall in Hl. by apply Hl.
Qed.

Lemma reverse_descending l : ascending l → descending (reverse l).
Proof.
  induction 1 as [|y l Hs IH Hl]; [constructor|]. rewrite reverse_cons. apply StronglySorted_app_2; [|done|by repeat constructor].
  intros a b Ha ->%list_elem_of_singleton. rewrite elem_of_reverse in Ha. rewrite Forall_forall in Hl. by apply Hl.
Qed.

(** ** The sweep *)

(** The request of [i] for [o] has at least priority [lvl]. *)
Definition outranks (R : requests) (lvl : Z * Z) (i o : Z) : Prop :=
  ∃ label ip op, R i o = Some (label, ip, op) ∧ plt (op, ip) lvl = false.

(** A request of priority [lvl] from [i] to [o] meets a grant that outranks it. *)
Definition covered (R : requests) (im om : list Z) (i o : Z) (lvl : Z * Z) : Prop :=
  (im⟦i⟧ ≠ -1 ∧ outranks R lvl i (im⟦i⟧)) ∨ (om⟦o⟧ ≠ -1 ∧ outranks R lvl (om⟦o⟧) o).

(** Every request is granted or loses to a granted one of at least its priority. *)
Definition by_priority (n m : Z) : grants_prop := λ R im om,
  ∀ i o label ip op, 0 ≤ i < n → 0 ≤ o < m → R i o = Some (label, ip, op) → covered R im om i o (op, ip).

Section sweep.
Context (n m : Z) (w : Wavefront) (R : requests).
Context (Hd : DenseInv.dense_opened n m (w_dense w) R).
Context (Hsq : w_square w = Z.max n m) (Hn : 0 < n) (Hm : 0 < m) (Hpri : 0 ≤ w_pri w < w_square w).

(** The grants so far outrank the priorities [fl] still to come; the requests in
    [C] are covered. *)
Record swept (fl : list (Z * Z)) (C : Z → Z → Z * Z → Prop) (st : list Z * list Z * Z) : Prop := {
  sw_match : matching n m (wants R) st.1.1 st.1.2;
  sw_floor : ∀ i lvl, 0 ≤ i < n → st.1.1⟦i⟧ ≠ -1 → lvl ∈ fl → outranks R lvl i (st.1.1⟦i⟧);
  sw_cover : ∀ i o label ip op, 0 ≤ i < n → 0 ≤ o < m → R i o = Some (label, ip, op) → C i o (op, ip) →
    covered R st.1.1 st.1.2 i o (op, ip);
  sw_first : st.2 < 0 → ∀ i, 0 ≤ i < n → st.1.1⟦i⟧ = -1
}.

Lemma swept_mono fl fl' (C C' : Z → Z → Z * Z → Prop) st :
  (∀ x, x ∈ fl' → x ∈ fl) → (∀ i o lvl, 0 ≤ i < n → 0 ≤ o < m → C' i o lvl → C i o lvl) →
  swept fl C st → swept fl' C' st.
Proof.
  intros Hf HC [H1 H2 H3 H4]. split; try done; [by auto|]. intros i o label ip op Hi Ho HR Hc.
  eapply H3; eauto.
Qed.

(** The input that cell [(p, output)] of the sweep stands for. *)
Definition diag (p output : Z) : Z := ((w_pri w + p) + (w_square w - output)) `rem` w_square w.

Lemma diag_onto i o : 0 ≤ i < n → 0 ≤ o < m →
  0 ≤ (i + o - w_pri w) mod w_square w < w_square w ∧ diag ((i + o - w_pri w) mod w_square w) o = i.
Proof.
  intros Hi Ho. assert (0 < w_square w) as Hs by lia. split; [by apply Z.mod_pos_bound|]. unfold diag.
  pose proof (Z.mod_pos_bound (i + o - w_pri w) (w_square w) Hs).
  rewrite rem_mod by lia. pose proof (Z.div_mod (i + o - w_pri w) (w_square w)) as E.
  set (q := (i + o - w_pri w) / w_square w) in *. set (r := (i + o - w_pri w) mod w_square w) in *.
  replace (w_pri w + r + (w_square w - o)) with (i + (1 - q) * w_square w) by lia.
  rewrite Z.mod_add by lia. apply Z.mod_small. lia.
Qed.

Lemma swept_grant fl C im om fd i o label lvl :
  swept fl C (im, om, fd) → 0 ≤ i < n → 0 ≤ o < m → R i o = Some (label, lvl.2, lvl.1) →
  im⟦i⟧ = -1 → om⟦o⟧ = -1 → (∀ x, x ∈ fl → plt lvl x = false) →
  swept fl C (im⟦i := o⟧, om⟦o := i⟧, if fd <? 0 then i + o else fd).
Proof.
  intros [H1 H2 H3 H4] Hi Ho HR Ei Eo Hfl. simpl in *. pose proof H1 as [L1 L2 _ _]. destruct lvl as [op ip].
  split; simpl.
  - apply matching_grant; try done. unfold wants. by rewrite HR.
  - intros k lvl Hk. rewrite znth_zupd by lia. case_decide as E; [|by apply H2].
    intros _ Hl. subst k. exists label, ip, op. split; [done|]. by apply Hfl.
  - intros i' o' label' ip' op' Hi' Ho' HR' HC. destruct (H3 i' o' label' ip' op' Hi' Ho' HR' HC) as [[? ?]|[? ?]].
    + left. rewrite znth_zupd_ne by (try lia; intros ->; lia). done.
    + right. rewrite znth_zupd_ne by (try lia; intros ->; lia). done.
  - destruct (Z.ltb_spec fd 0); lia.
Qed.

Lemma visit_ok fl C lvl p o st :
  lvl ∈ fl → (∀ x, x ∈ fl → plt lvl x = false) → 0 ≤ p < w_square w → 0 ≤ o < w_square w → swept fl C st →
  returns (visit w lvl p o st)
    (swept fl (λ i' o' lvl', C i' o' lvl' ∨ (lvl' = lvl ∧ i' = diag p o ∧ o' = o))).
Proof.
  intros Hin Hfl Hp Ho Hst. destruct st as [[im om] fd]. pose proof Hst as [H1 H2 H3 H4]. simpl in *.
  pose proof H1 as [L1 L2 L3 L4]. pose proof (DenseInv.do_shape _ _ _ _ Hd) as Hshape.
  assert (∀ st', swept fl C st' →
    (∀ label, 0 ≤ diag p o < n → 0 ≤ o < m → R (diag p o) o = Some (label, lvl.2, lvl.1) →
       covered R st'.1.1 st'.1.2 (diag p o) o lvl) →
    swept fl (λ i' o' lvl', C i' o' lvl' ∨ (lvl' = lvl ∧ i' = diag p o ∧ o' = o)) st') as Hadd.
  { intros st' [K1 K2 K3 K4] Hc. split; try done.
    intros i' o' label ip op Hi' Ho' HR [HC|(E & -> & ->)]; [by eapply K3|].
    rewrite E. apply (Hc label); try done. by rewrite <- E. }
  unfold visit. fold (diag p o). rewrite (DenseInv.ds_in _ _ _ Hshape), (DenseInv.ds_out _ _ _ Hshape).
  assert (0 ≤ diag p o) by (unfold diag; apply Z.rem_nonneg; lia).
  destruct (Z.ltb_spec (diag p o) n) as [Hi|Hi]; simpl; [|apply returns_ok, Hadd; [done|lia]].
  destruct (Z.ltb_spec o m) as [Hom|Hom]; simpl; [|apply returns_ok, Hadd; [done|lia]].
  rstep. rstep. destruct (Z.eqb_spec (im⟦diag p o⟧) (-1)) as [Ei|Ei]; simpl.
  2: { apply returns_ok, Hadd; [done|]. intros. left. split; [done|]. by apply H2. }
  destruct (Z.eqb_spec (om⟦o⟧) (-1)) as [Eo|Eo]; simpl.
  2: { apply returns_ok, Hadd; [done|]. intros. right. split; [done|].
       destruct (L4 o ltac:(lia)) as [?|[? E]]; [done|]. simpl. rewrite <- E at 2. apply H2; try done. lia. }
  rewrite (DenseInv.at_ok n m) by (done || lia). cbn [mbind res_bind].
  pose proof (DenseInv.do_req _ _ _ _ Hd (diag p o) o ltac:(lia) ltac:(lia)) as HR. unfold DenseInv.cell_req in HR.
  destruct (Z.eqb_spec (r_label (DenseInv.cell (w_dense w) (diag p o) o)) (-1)) as [El|El]; simpl.
  { apply returns_ok, Hadd; [done|]. intros. congruence. }
  destruct (Z.eqb_spec (r_in_pri (DenseInv.cell (w_dense w) (diag p o) o)) lvl.2) as [E1|E1]; simpl.
  2: { apply returns_ok, Hadd; [done|]. intros. congruence. }
  destruct (Z.eqb_spec (r_out_pri (DenseInv.cell (w_dense w) (diag p o) o)) lvl.1) as [E2|E2]; simpl.
  2: { apply returns_ok, Hadd; [done|]. intros. congruence. }
  rewrite E1, E2 in HR. do 2 rstep. apply returns_ok, Hadd.
  - eapply swept_grant; try done; lia.
  - intros label _ _ HR'. left. simpl. rewrite znth_zupd_eq by lia. split; [lia|].
    exists label, lvl.2, lvl.1. split; [done|]. destruct lvl. apply plt_refl.
Qed.

Lemma sweep_ok fl C lvl st :
  lvl ∈ fl → (∀ x, x ∈ fl → plt lvl x = false) → swept fl C st →
  returns (sweep w lvl st) (swept fl (λ i o lvl', C i o lvl' ∨ lvl' = lvl)).
Proof.
  intros Hin Hfl Hst. unfold sweep. eapply returns_mono.
  - apply (returns_for (λ p, swept fl (λ i o lvl', C i o lvl' ∨
      (lvl' = lvl ∧ ∃ p', 0 ≤ p' < p ∧ i = diag p' o)))); [lia| |].
    { revert Hst. apply swept_mono; [done|]. intros i o lvl' Hi Ho [?|(_ & p' & ? & _)]; [done|lia]. }
    intros p st' Hp Hst'. eapply returns_mono.
    + apply (returns_for (λ o0, swept fl (λ i o lvl', (C i o lvl' ∨
        (lvl' = lvl ∧ ∃ p', 0 ≤ p' < p ∧ i = diag p' o)) ∨ (lvl' = lvl ∧ i = diag p o ∧ o < o0)))); [lia| |].
      { revert Hst'. apply swept_mono; [done|]. intros i o lvl' Hi Ho [?|(_ & _ & ?)]; [done|lia]. }
      intros o st'' Ho Hst''. eapply returns_mono; [by apply visit_ok|]. intros st3. apply swept_mono; [done|].
      intros i o' lvl' Hi Ho' [?|(-> & Ei & Hlt)]; [by left; left|].
      destruct (decide (o' = o)) as [->|]; [by right|]. left. right. split_and!; try done. lia.
    + intros st3. apply swept_mono; [done|]. intros i o lvl' Hi Ho [?|(-> & p' & Hp' & Ei)]; [by left; left|].
      destruct (decide (p' = p)) as [->|]; [right; split_and!; try done; lia|].
      left. right. split; [done|]. exists p'. split; [lia|done].
  - intros st'. apply swept_mono; [done|]. intros i o lvl' Hi Ho [?| ->]; [by left|]. right. split; [done|].
    destruct (diag_onto i o Hi Ho) as [Hr E]. eexists. split; [exact Hr|done].
Qed.

Lemma sweeps_ok levels im om :
  descending levels → (∀ i, 0 ≤ i < n → im⟦i⟧ = -1) → matching n m (wants R) im om →
  returns (foldl (λ acc lvl, st ← acc; sweep w lvl st) (Ok (im, om, -1)) levels)
    (swept [] (λ _ _ lvl, lvl ∈ levels)).
Proof.
  intros Hs Hf Hmt. eapply returns_mono.
  - apply (returns_foldl (λ l st, ∃ dn, levels = dn ++ l ∧ swept l (λ _ _ lvl, lvl ∈ dn) st)
      (λ st lvl, sweep w lvl st)).
    { exists []. split; [done|]. split; simpl; try done.
      - intros i lvl Hi Hne. by rewrite Hf in Hne.
      - intros i o label ip op _ _ _ Hnil. by apply elem_of_nil in Hnil. }
    intros lvl l st (dn & -> & Hst). apply StronglySorted_app_1_r in Hs.
    eapply returns_mono; [apply sweep_ok; [by left| |exact Hst]|].
    + intros x [->|Hx]%elem_of_cons; [apply plt_refl|]. apply StronglySorted_inv in Hs as [_ Hs].
      rewrite Forall_forall in Hs. by apply Hs.
    + intros st' Hst'. exists (dn ++ [lvl]). split; [by rewrite <- app_assoc|]. revert Hst'.
      apply swept_mono; [by right|]. intros i o lvl' _ _ [?|Hx]%elem_of_app; [by left|].
      right. by apply list_elem_of_singleton in Hx.
  - intros st (dn & -> & Hst). revert Hst. apply swept_mono; [done|]. intros i o lvl _ _. by rewrite app_nil_r.
Qed.
End sweep.

(** ** The interface laws *)

Record wf_opened (n m : Z) (w : Wavefront) (R : requests) : Prop := {
  wo_dense : DenseInv.dense_opened n m (w_dense w) R;
  wo_square : w_square w = Z.max n m;
  wo_pri : 0 ≤ w_pri w < w_square w;
  wo_num : 0 ≤ w_num_requests w;
  wo_none : w_num_requests w = 0 → ∀ i o, 0 ≤ i < n → 0 ≤ o < m → R i o = None;
  wo_last : 0 < w_num_requests w →
    0 ≤ w_last_in w < n ∧ 0 ≤ w_last_out w < m ∧ wants R (w_last_in w) (w_last_out w);
  wo_one : w_num_requests w = 1 → ∀ i o, 0 ≤ i < n → 0 ≤ o < m → wants R i o →
    i = w_last_in w ∧ o = w_last_out w;
  wo_sorted : ascending (w_priorities w);
  wo_levels : ∀ i o label ip op, 0 ≤ i < n → 0 ≤ o < m → R i o = Some (label, ip, op) →
    (op, ip) ∈ w_priorities w
}.

Lemma wf_ext n m w R R' : (∀ i o, R i o = R' i o) → wf_opened n m w R → wf_opened n m w R'.
Proof.
  intros E [H1 H2 H3 H4 H5 H6 H7 H8 H9]. split; try done; unfold wants in *.
  - by apply (DenseInv.dense_ext n m _ R).
  - intros. rewrite <- E. auto.
  - rewrite <- E. auto.
  - intros ? i o. rewrite <- E. auto.
  - intros i o label ip op. rewrite <- E. apply H9.
Qed.

Lemma wf_AddRequest n m w R i o label ip op :
  wf_opened n m w R → 0 ≤ i < n → 0 ≤ o < m → 0 ≤ label → R i o = None →
  returns (AddRequest w i o label ip op) (λ w', wf_opened n m w' (add_request R i o (label, ip, op))).
Proof.
  intros [H1 H2 H3 H4 H5 H6 H7 H8 H9] Hi Ho Hl Hn. unfold AddRequest.
  destruct (DenseInv.dense_AddRequest n m _ R i o label ip op H1 Hi Ho Hl Hn) as (d & -> & Hd).
  apply returns_ok. split; simpl; try done; try lia; unfold wants, add_request in *.
  - intros _. by rewrite decide_True.
  - intros Hone i' o' Hi' Ho'. case_decide; [done|]. rewrite H5 by (done || lia). done.
  - by apply pinsert_ascending.
  - intros i' o' label' ip' op' Hi' Ho'. rewrite elem_pinsert. case_decide; [intros [= <- <- <-]; by left|].
    intros HR. right. by apply (H9 i' o' label').
Qed.

(** The grants of one allocation, by the number of requests. *)
Lemma grants_ok n m w R :
  wf_opened n m w R → 0 < w_num_requests w → 0 < n → 0 < m →
  let b := d_base (w_dense w) in
  returns (if w_num_requests w =? 1 then
         im ← vset (al_inmatch b) (w_last_in w) (w_last_out w);
         om ← vset (al_outmatch b) (w_last_out w) (w_last_in w);
         Ok (im, om, w_last_in w + w_last_out w)
       else
         foldl (λ acc lvl, st ← acc; sweep w lvl st) (Ok (al_inmatch b, al_outmatch b, -1))
           (reverse (w_priorities w)))
    (λ st, matching n m (wants R) st.1.1 st.1.2 ∧ by_priority n m R st.1.1 st.1.2 ∧ 0 ≤ st.2).
Proof.
  intros Hw Hnum Hn Hm b. subst b. pose proof Hw as [H1 H2 H3 H4 H5 H6 H7 H8 H9].
  pose proof (DenseInv.dense_free_matching n m _ R (wants R) H1) as Hmt. pose proof Hmt as [L1 L2 _ _].
  destruct (H6 Hnum) as (Hli & Hlo & Hlw). destruct (Z.eqb_spec (w_num_requests w) 1) as [E|E].
  - rewrite !vset_ok by lia. cbn [mbind res_bind]. apply returns_ok. simpl. split_and!; [| |lia].
    + apply matching_grant; try done; [by apply (DenseInv.dense_free_in n m _ R)|by apply (DenseInv.dense_free_out n m _ R)].
    + intros i o label ip op Hi Ho HR. destruct (H7 E i o Hi Ho) as [-> ->]; [unfold wants; by rewrite HR|].
      left. rewrite znth_zupd_eq by lia. split; [lia|]. exists label, ip, op. split; [done|apply plt_refl].
  - eapply returns_mono; [apply (sweeps_ok n m w R); try done; [by apply reverse_descending|]|].
    { intros i. by apply (DenseInv.dense_free_in n m _ R). }
    intros [[im om] fd] [S1 S2 S3 S4]. simpl in *. assert (by_priority n m R im om) as Hbp.
    { intros i o label ip op Hi Ho HR. apply (S3 i o label); try done. rewrite elem_of_reverse.
      by apply (H9 i o label). }
    split_and!; try done. destruct (decide (0 ≤ fd)) as [?|Hlt]; [done|]. specialize (S4 ltac:(lia)).
    destruct (R (w_last_in w) (w_last_out w)) as [ [[label ip] op] | ] eqn:HR; [|done].
    destruct (Hbp _ _ _ _ _ Hli Hlo HR) as [[Hne _]|[Hne _]].
    + by rewrite S4 in Hne.
    + destruct (mt_out _ _ _ _ _ S1 _ Hlo) as [?|[Hr Eo]]; [done|]. rewrite S4 in Eo by done. lia.
Qed.

Lemma wf_Allocate n m w R :
  0 < n → 0 < m → wf_opened n m w R →
  returns (Allocate w) (λ w', wf_opened n m (Clear w') no_requests ∧
    matching n m (wants R) (al_inmatch (d_base (w_dense w'))) (al_outmatch (d_base (w_dense w'))) ∧
    by_priority n m R (al_inmatch (d_base (w_dense w'))) (al_outmatch (d_base (w_dense w')))).
Proof.
  intros Hn Hm Hw. pose proof Hw as [H1 H2 H3 H4 H5 H6 H7 H8 H9]. unfold Allocate.
  destruct (Z.eqb_spec (w_num_requests w) 0) as [E|E].
  - apply returns_ok. split_and!.
    + split; simpl; try done; try lia; [by apply (DenseInv.dense_close_idle n m _ R)].
    + by apply (DenseInv.dense_free_matching n m _ R).
    + intros i o label ip op Hi Ho. by rewrite H5.
  - eapply returns_bind; [apply (grants_ok n m w R); done || lia|].
    intros [[im om] fd] (Hmt & Hbp & Hfd). simpl in Hmt, Hbp, Hfd. rstep. apply returns_ok. simpl. split_and!; try done.
    assert (0 < w_square w) by lia. split; simpl; try done; try lia.
    + by apply (DenseInv.dense_close n m _ R).
    + destruct (w_skip_diags w); apply Z.rem_bound_pos; lia.
    + constructor.
Qed.

Definition WavefrontLaws (n m : Z) (Hn : 0 < n) (Hm : 0 < m) : AllocatorLaws WavefrontI n m (by_priority n m).
Proof.
  refine {| opened := wf_opened n m |}.
  - intros w R R'. apply wf_ext.
  - intros w R i o label ip op. apply wf_AddRequest.
  - intros w R. by apply wf_Allocate.
Defined.

Lemma by_priority_maximal n m R im om : by_priority n m R im om → maximal n m (wants R) im om.
Proof.
  intros H i o Hi Ho Hr. destruct (R i o) as [ [[label ip] op] | ] eqn:E; [|done].
  destruct (H i o label ip op Hi Ho E) as [[? _]|[? _]]; [by left|by right].
Qed.

(** C26. The wavefront allocator, with or without skipping of diagonals: any
    sequence of cycles with legal requests runs to the end, and each cycle grants
    a maximal matching of its requests in which every request that is not
    granted conflicts with a granted one of at least its (output, input)
    priority. *)
Theorem wavefront_cycles n m skip rss :
  0 < n → 0 < m → Forall (areqs_ok n m) rss →
  returns (alloc_cycles WavefrontI (New n m skip) rss) (λ r, Forall2 (λ rs g,
    matching n m (wants (asked rs)) g.1 g.2 ∧ maximal n m (wants (asked rs)) g.1 g.2 ∧
    by_priority n m (asked rs) g.1 g.2) rss r.2).
Proof.
  intros Hn Hm Hok. eapply returns_mono.
  - apply (alloc_cycles_ok _ n m _ (WavefrontLaws n m Hn Hm)); [|done].
    assert (DenseInv.dense_opened n m (DenseOps.New n m) no_requests) as Hd by (apply DenseInv.dense_New; lia).
    split; simpl; try done; try lia; [by apply (DenseInv.dense_close_idle n m _ no_requests)|constructor].
  - intros r H. eapply Forall2_impl; [exact H|]. intros rs g [? ?]. split_and!; try done.
    by apply by_priority_maximal.
Qed.

Lemma wavefront_cycles_witness :
  returns (alloc_cycles WavefrontI (New 3 2 true) [[(0, 1, 0, 0, 0); (1, 1, 3, 2, 0); (1, 0, 2, 2, 1)]; []; [(2, 0, 1, 0, 0)]])
    (λ r, Forall2 (λ rs g, matching 3 2 (wants (asked rs)) g.1 g.2 ∧ maximal 3 2 (wants (asked rs)) g.1 g.2 ∧
       by_priority 3 2 (asked rs) g.1 g.2)
      [[(0, 1, 0, 0, 0); (1, 1, 3, 2, 0); (1, 0, 2, 2, 1)]; []; [(2, 0, 1, 0, 0)]] r.2).
Proof. apply (wavefront_cycles 3 2 true); [lia|lia|]. by apply areqs_okb_ok. Defined.
End WavefrontInv.
