(* ===== verification/Lonely.v ===== *)
(** * The lonely output allocator

    [LOA] (allocators/loa.cpp): every input asks for the requested output with
    the fewest requests, and every output grants one of those that ask. *)

From S2P Require Import Prelude StdMap Allocator AllocLaws AllocStore.

Record LOA : Set := mkLOA {
  lo_dense : Dense;
  lo_counts : list Z;
  lo_req : list Z;
  lo_rptr : list Z;
  lo_gptr : list Z
}.

Module LOAOps.

Definition New (inputs outputs : Z) : LOA :=
  mkLOA (DenseOps.New inputs outputs) (replicate (Z.to_nat outputs) 0) (replicate (Z.to_nat inputs) 0)
    (replicate (Z.to_nat inputs) 0) (replicate (Z.to_nat outputs) 0).

Definition Clear (a : LOA) : LOA :=
  mkLOA (DenseOps.Clear (lo_dense a)) (lo_counts a) (lo_req a) (lo_rptr a) (lo_gptr a).

Definition AddRequest (a : LOA) (in_ out label in_pri out_pri : Z) : res LOA :=
  d ← DenseOps.AddRequest (lo_dense a) in_ out label in_pri out_pri;
  Ok (mkLOA d (lo_counts a) (lo_req a) (lo_rptr a) (lo_gptr a)).

Section phases.
Context (d : Dense).
Local Abbreviation inputs := (al_inputs (d_base d)).
Local Abbreviation outputs := (al_outputs (d_base d)).

(** Count phase. *)
Definition count_phase (counts : list Z) : res (list Z) :=
  zfor 0 outputs (λ j counts,
    counts ← vset counts j 0;
    zfor 0 inputs (λ i counts,
      r ← DenseOps.at_ d i j;
      c ← vget counts j;
      vset counts j (c + if r_label r =? -1 then 0 else 1)) counts) counts.

(** The lonely output of an input and its count, from [_rptr[input]] on. *)
Definition find_lonely (counts : list Z) (input output_offset : Z) : res (Z * Z) :=
  zfor 0 outputs (λ o acc,
    let '(lonely, lonely_cnt) := acc in
    let output := (o + output_offset) `rem` outputs in
    r ← DenseOps.at_ d input output;
    if negb (r_label r =? -1) then
      c ← vget counts output;
      Ok (if c <? lonely_cnt then (output, c) else (lonely, lonely_cnt))
    else Ok (lonely, lonely_cnt)) (-1, inputs + 1).

(** Request phase. *)
Definition request_phase (counts rptr : list Z) (req : list Z) : res (list Z) :=
  zfor 0 inputs (λ input req,
    output_offset ← vget rptr input;
    '(lonely, _) ← find_lonely counts input output_offset;
    vset req input lonely) req.

(** One output of the grant phase; the state is the two match vectors and the
    two vectors of pointers. *)
Definition grant_output (req : list Z) (output : Z) (st : list Z * list Z * list Z * list Z)
    : res (list Z * list Z * list Z * list Z) :=
  let '(im, om, rptr, gptr) := st in
  input_offset ← vget gptr output;
  c ← zforb 0 inputs (λ i st,
    let '(im, om, rptr, gptr) := st in
    let input := (i + input_offset) `rem` inputs in
    q ← vget req input;
    if q =? output then
      im ← vset im input output;
      om ← vset om output input;
      rp ← vget rptr input;
      rptr ← vset rptr input ((rp + 1) `rem` outputs);
      gp ← vget gptr output;
      gptr ← vset gptr output ((gp + 1) `rem` inputs);
      Ok (Break (im, om, rptr, gptr))
    else Ok (Next (im, om, rptr, gptr))) (im, om, rptr, gptr);
  Ok (ctl_val c).

Definition grant_phase (req : list Z) (st : list Z * list Z * list Z * list Z) :=
  zfor 0 outputs (λ output st, grant_output req output st) st.
End phases.

Definition Allocate (a : LOA) : res LOA :=
  let d := lo_dense a in
  counts ← count_phase d (lo_counts a);
  req ← request_phase d counts (lo_rptr a) (lo_req a);
  '(im, om, rptr, gptr) ← grant_phase d req (al_inmatch (d_base d), al_outmatch (d_base d), lo_rptr a, lo_gptr a);
  Ok (mkLOA (mkDense (AllocOps.set_match im om (d_base d)) (d_request d)) counts req rptr gptr).

End LOAOps.

Definition LOAI : AllocatorI LOA :=
  mkAllocI (λ a, d_base (lo_dense a)) LOAOps.Clear LOAOps.AddRequest LOAOps.Allocate.

Module LOAInv.
Import LOAOps.

(** The number of requests for an output. *)
Definition popularity (n : Z) (R : requests) (o : Z) : Z :=
  zsumf (λ i, match R i o with Some _ => 1 | None => 0 end) n.

(** [o] is a requested output of [i] that nobody asks for less. *)
Definition lonely_of (n m : Z) (R : requests) (i o : Z) : Prop :=
  0 ≤ o < m ∧ wants R i o ∧ ∀ o', 0 ≤ o' < m → wants R i o' → popularity n R o ≤ popularity n R o'.

(** Grants go to lonely outputs, and every input with requests has a lonely
    output that is granted, to it or to another input. *)
Definition lonely_served (n m : Z) : grants_prop := λ R im om,
  (∀ i, 0 ≤ i < n → im⟦i⟧ ≠ -1 → lonely_of n m R i (im⟦i⟧)) ∧
  (∀ i o, 0 ≤ i < n → 0 ≤ o < m → wants R i o → ∃ o', lonely_of n m R i o' ∧ om⟦o'⟧ ≠ -1).

Section phases.
Context (n m : Z) (d : Dense) (R : requests) (Hd : DenseInv.dense_opened n m d R).
Context (Hn : 0 < n) (Hm : 0 < m).

Lemma d_inputs : al_inputs (d_base d) = n.
Proof. apply Hd. Qed.
Lemma d_outputs : al_outputs (d_base d) = m.
Proof. apply Hd. Qed.

Lemma at_eq i o : 0 ≤ i < n → 0 ≤ o < m → DenseOps.at_ d i o = Ok (DenseInv.cell d i o).
Proof. intros. apply (DenseInv.at_ok n m); [apply Hd|done|done]. Qed.

Lemma popularity_bound o : 0 ≤ popularity n R o ≤ n.
Proof.
  unfold popularity. split.
  - apply zsumf_nonneg; [lia|]. intros i _. by destruct (R i o).
  - transitivity (zsumf (λ _, 1) n); [|rewrite zsumf_const; lia].
    apply zsumf_le; [lia|]. intros i _. by destruct (R i o).
Qed.

Lemma count_phase_ok counts : zlen counts = m →
  returns (count_phase d counts) (λ counts', zlen counts' = m ∧
    ∀ o, 0 ≤ o < m → counts'⟦o⟧ = popularity n R o).
Proof.
  intros Hl. unfold count_phase. rewrite d_inputs, d_outputs.
  apply (returns_for (λ j counts, zlen counts = m ∧ ∀ o, 0 ≤ o < j → counts⟦o⟧ = popularity n R o)); [lia|by split; [|lia]|].
  intros j c Hj [Hlc Hc]. rstep. eapply returns_mono.
  - apply (returns_for (λ i c, zlen c = m ∧ (∀ o, 0 ≤ o < j → c⟦o⟧ = popularity n R o) ∧ c⟦j⟧ = popularity i R j)); [lia| |].
    { split_and!; [lens| |by rewrite znth_zupd_eq by lia]. intros o Ho. rewrite znth_zupd_ne by lia. auto. }
    intros i c' Hi (Hlc' & Hc' & Hcj). rewrite at_eq by lia. cbn [mbind res_bind]. rstep. rewrite vset_ok by lia.
    apply returns_ok. split_and!; [lens| |].
    + intros o Ho. rewrite znth_zupd_ne by lia. auto.
    + rewrite znth_zupd_eq by lia. rewrite Hcj. unfold popularity. rewrite zsumf_snoc by lia. f_equal.
      rewrite (DenseInv.do_req _ _ _ _ Hd) by lia. unfold DenseInv.cell_req. by destruct (r_label _ =? -1).
  - intros c' (Hlc' & Hc' & Hcj). split; [done|]. intros o Ho. destruct (decide (o = j)) as [->|]; [done|].
    apply Hc'. lia.
Qed.

Lemma find_lonely_ok counts i off :
  zlen counts = m → (∀ o, 0 ≤ o < m → counts⟦o⟧ = popularity n R o) → 0 ≤ i < n → 0 ≤ off →
  returns (find_lonely d counts i off) (λ r,
    (r.1 = -1 ∧ ∀ o, 0 ≤ o < m → ¬ wants R i o) ∨ lonely_of n m R i r.1).
Proof.
  intros Hl Hc Hi Hoff. unfold find_lonely. rewrite d_inputs, d_outputs. eapply returns_mono.
  - apply (returns_for (λ k r,
      (r = (-1, n + 1) ∧ ∀ j, 0 ≤ j < k → ¬ wants R i ((j + off) `rem` m)) ∨
      (0 ≤ r.1 < m ∧ wants R i r.1 ∧ r.2 = popularity n R r.1 ∧
       ∀ j, 0 ≤ j < k → wants R i ((j + off) `rem` m) → r.2 ≤ popularity n R ((j + off) `rem` m)))); [lia| |].
    { left. split; [done|lia]. }
    intros k [l c] Hk HI. set (o := (k + off) `rem` m).
    assert (0 ≤ o < m) as Ho by (by apply rotation_range). rewrite at_eq by done. cbn [mbind res_bind].
    pose proof (DenseInv.wants_cell _ _ _ _ i o Hd Hi Ho) as Hw. pose proof (popularity_bound o) as Hb.
    assert (∀ j, 0 ≤ j < k + 1 → j = k ∨ 0 ≤ j < k) as Hcase by lia.
    destruct (r_label (DenseInv.cell d i o) =? -1) eqn:El; simpl.
    + apply returns_ok. assert (¬ wants R i o) as Hno by (intros ?; by apply Hw in H).
      destruct HI as [[-> Hnone]|(H1 & H2 & H3 & H4)]; [left|right].
      * split; [done|]. intros j [->|?]%Hcase; auto.
      * split_and!; try apply H1; try done. intros j [->|?]%Hcase Hj; [done|auto].
    + rstep. rewrite Hc by done. apply returns_ok. assert (wants R i o) as Hyes by (by apply Hw).
      right. destruct HI as [[[= -> ->] Hnone]|(H1 & H2 & H3 & H4)]; simpl in *.
      * destruct (Z.ltb_spec (popularity n R o) (n + 1)); [|lia]. split_and!; try apply Ho; try done.
        intros j [->|Hj]%Hcase Hwj; simpl; [done|]. by destruct (Hnone j Hj).
      * destruct (Z.ltb_spec (popularity n R o) c); simpl; (split_and!; try apply Ho; try apply H1; try done);
          intros j [->|Hj]%Hcase Hwj; fold o; try lia; pose proof (H4 j Hj Hwj); lia.
  - intros [l c] HI. destruct HI as [[[= -> ->] Hnone]|(H1 & H2 & H3 & H4)]; simpl in *; [left|right].
    + split; [done|]. intros o Ho. destruct (rotation_onto m off o Hoff Ho) as (k & Hk & <-). auto.
    + split; [done|]. split; [done|]. intros o Ho Hwo. rewrite <- H3.
      destruct (rotation_onto m off o Hoff Ho) as (k & Hk & <-). auto.
Qed.

(** What the inputs ask for. *)
Definition asks (req : list Z) : Prop := zlen req = n ∧ ∀ i, 0 ≤ i < n →
  (req⟦i⟧ = -1 ∧ ∀ o, 0 ≤ o < m → ¬ wants R i o) ∨ lonely_of n m R i (req⟦i⟧).

Definition pointers (k : Z) (ptr : list Z) : Prop := zlen ptr = k ∧ ∀ i, 0 ≤ i < k → 0 ≤ ptr⟦i⟧.

Lemma pointers_set k ptr i x : pointers k ptr → 0 ≤ i < k → 0 ≤ x → pointers k (ptr⟦i := x⟧).
Proof.
  intros [Hl Hp] Hi Hx. split; [lens|]. intros j Hj. rewrite znth_zupd by lia. case_decide; auto.
Qed.

Lemma request_phase_ok counts rptr req :
  zlen counts = m → (∀ o, 0 ≤ o < m → counts⟦o⟧ = popularity n R o) → pointers n rptr → zlen req = n →
  returns (request_phase d counts rptr req) asks.
Proof.
  intros Hl Hc [Hlr Hr] Hlq. unfold request_phase. rewrite d_inputs.
  apply (returns_for (λ k req, zlen req = n ∧ ∀ i, 0 ≤ i < k →
    (req⟦i⟧ = -1 ∧ ∀ o, 0 ≤ o < m → ¬ wants R i o) ∨ lonely_of n m R i (req⟦i⟧))); [lia|by split; [|lia]|].
  intros i q Hi [Hlq' Hq]. rstep.
  destruct (find_lonely_ok counts i (rptr⟦i⟧) Hl Hc Hi (Hr i Hi)) as ([l c] & -> & Hlon). cbn [mbind res_bind].
  rewrite vset_ok by lia. apply returns_ok. split; [lens|]. intros j Hj. rewrite znth_zupd by lia.
  case_decide; [by subst|]. apply Hq. lia.
Qed.

(** After the outputs below [k] have granted. *)
Record granted (req : list Z) (k : Z) (st : list Z * list Z * list Z * list Z) : Prop := {
  gr_match : matching n m (wants R) st.1.1.1 st.1.1.2;
  gr_rptr : pointers n st.1.2;
  gr_gptr : pointers m st.2;
  gr_todo : ∀ o, k ≤ o < m → st.1.1.2⟦o⟧ = -1;
  gr_in : ∀ i, 0 ≤ i < n → st.1.1.1⟦i⟧ ≠ -1 → st.1.1.1⟦i⟧ = req⟦i⟧ ∧ req⟦i⟧ < k;
  gr_done : ∀ i, 0 ≤ i < n → 0 ≤ req⟦i⟧ < k → st.1.1.2⟦req⟦i⟧⟧ ≠ -1
}.

Lemma granted_step req k i im om rptr gptr x y :
  asks req → granted req k (im, om, rptr, gptr) → 0 ≤ k < m → 0 ≤ i < n → req⟦i⟧ = k → 0 ≤ x → 0 ≤ y →
  granted req (k + 1) (im⟦i := k⟧, om⟦k := i⟧, rptr⟦i := x⟧, gptr⟦k := y⟧).
Proof.
  intros [Hlq Hq] [G1 G2 G3 G4 G5 G6] Hk Hi E Hx Hy. simpl in *. pose proof G1 as [L1 L2 _ _].
  assert (im⟦i⟧ = -1) as Ei.
  { destruct (decide (im⟦i⟧ = -1)) as [?|Hne]; [done|]. destruct (G5 i Hi Hne). lia. }
  split; simpl; try (by apply pointers_set).
  - apply matching_grant; try done; [|apply G4; lia]. destruct (Hq i Hi) as [[? _]|(_ & Hw & _)]; [lia|]. by rewrite <- E.
  - intros o Ho. rewrite znth_zupd_ne by lia. apply G4. lia.
  - intros j Hj. rewrite znth_zupd by lia. case_decide as Ej; [subst j; lia|]. intros Hne.
    destruct (G5 j Hj Hne). lia.
  - intros j Hj Hr. rewrite znth_zupd by lia. case_decide; [lia|]. apply G6; [done|lia].
Qed.

Lemma loa_grant_output_ok req k st :
  asks req → granted req k st → 0 ≤ k < m → returns (grant_output d req k st) (granted req (k + 1)).
Proof.
  intros Hq Hst Hk. destruct st as [[[im om] rptr] gptr]. pose proof Hst as [G1 [G2 G2'] [G3 G3'] G4 G5 G6]. simpl in *.
  pose proof G1 as [L1 L2 _ _]. destruct Hq as [Hlq Hq']. pose proof (conj Hlq Hq' : asks req) as Hq.
  unfold grant_output. rewrite d_inputs, d_outputs. rstep.
  set (off := gptr⟦k⟧). assert (0 ≤ off) as Hoff by (by apply G3').
  eapply returns_bind.
  - apply (returns_forb (λ j st, st = (im, om, rptr, gptr) ∧ ∀ j', 0 ≤ j' < j → req⟦(j' + off) `rem` n⟧ ≠ k)
      (granted req (k + 1))); [lia|by split; [|lia]|].
    intros j st Hj [-> Hno]. pose proof (rotation_range n off j Hoff Hj) as Hr. rstep.
    destruct (Z.eqb_spec (req⟦(j + off) `rem` n⟧) k) as [E|E].
    + pose proof (G2' _ Hr). rsteps. apply granted_step; try done; apply Z.rem_nonneg; fold off; lia.
    + apply returns_ok. split; [done|]. intros j' Hj'. destruct (decide (j' = j)) as [->|]; [done|]. apply Hno. lia.
  - intros [st|st] HI; apply returns_ok; simpl; [|done]. destruct HI as [-> Hno]. split; simpl; try done.
    + intros o Ho. apply G4. lia.
    + intros i Hi Hne. destruct (G5 i Hi Hne). lia.
    + intros i Hi Hr. destruct (decide (req⟦i⟧ = k)) as [E|]; [|apply G6; [done|lia]].
      destruct (rotation_onto n off i Hoff Hi) as (j & Hj & Ej). destruct (Hno j Hj). by rewrite Ej.
Qed.

Lemma grant_phase_ok req rptr gptr :
  asks req → pointers n rptr → pointers m gptr →
  returns (grant_phase d req (al_inmatch (d_base d), al_outmatch (d_base d), rptr, gptr)) (granted req m).
Proof.
  intros Hq Hr Hg. unfold grant_phase. rewrite d_outputs. apply (returns_for (granted req)); [lia| |].
  - split; simpl; try done.
    + by apply (DenseInv.dense_free_matching n m _ R).
    + intros o Ho. apply (DenseInv.dense_free_out n m _ R); [done|lia].
    + intros i Hi Hne. by rewrite (DenseInv.dense_free_in n m _ R) in Hne.
    + lia.
  - intros k st Hk Hst. by apply loa_grant_output_ok.
Qed.
End phases.

(** ** The interface laws *)

Record loa_opened (n m : Z) (a : LOA) (R : requests) : Prop := {
  la_dense : DenseInv.dense_opened n m (lo_dense a) R;
  la_counts : zlen (lo_counts a) = m;
  la_req : zlen (lo_req a) = n;
  la_rptr : pointers n (lo_rptr a);
  la_gptr : pointers m (lo_gptr a)
}.

Lemma loa_Allocate n m a R :
  0 < n → 0 < m → loa_opened n m a R →
  returns (Allocate a) (λ a', loa_opened n m (Clear a') no_requests ∧
    matching n m (wants R) (al_inmatch (d_base (lo_dense a'))) (al_outmatch (d_base (lo_dense a'))) ∧
    lonely_served n m R (al_inmatch (d_base (lo_dense a'))) (al_outmatch (d_base (lo_dense a')))).
Proof.
  intros Hn Hm [Hd Hc Hq Hr Hg]. unfold Allocate.
  destruct (count_phase_ok n m _ R Hd Hn Hm _ Hc) as (counts & -> & Hlc & Hcnt). cbn [mbind res_bind].
  destruct (request_phase_ok n m _ R Hd Hn Hm counts _ _ Hlc Hcnt Hr Hq) as (req & -> & Hasks). cbn [mbind res_bind].
  destruct (grant_phase_ok n m _ R Hd Hn Hm req _ _ Hasks Hr Hg) as ([[[im om] rptr] gptr] & -> & [G1 G2 G3 G4 G5 G6]).
  apply returns_ok. simpl in *. destruct Hasks as [Hlq Hasks]. split_and!; try done.
  - split; simpl; try done. by apply (DenseInv.dense_close n m _ R).
  - split.
    + intros i Hi Hne. destruct (G5 i Hi Hne) as [E _]. rewrite E.
      destruct (Hasks i Hi) as [[? _]|?]; [congruence|done].
    + intros i o Hi Ho Hw. destruct (Hasks i Hi) as [[_ Hno]|Hlon]; [by destruct (Hno o Ho)|].
      exists (req⟦i⟧). split; [done|]. apply G6; [done|]. apply Hlon.
Qed.

Definition LOALaws (n m : Z) (Hn : 0 < n) (Hm : 0 < m) : AllocatorLaws LOAI n m (lonely_served n m).
Proof.
  refine {| opened := loa_opened n m |}.
  - intros a R R' E [H1 H2 H3 H4 H5]. split; try done. by apply (DenseInv.dense_ext n m _ R).
  - intros a R i o label ip op [H1 H2 H3 H4 H5] Hi Ho Hl HN. simpl. unfold AddRequest.
    destruct (DenseInv.dense_AddRequest n m _ R i o label ip op H1 Hi Ho Hl HN) as (d & -> & Hd).
    apply returns_ok. by split.
  - intros a R. by apply loa_Allocate.
Defined.

(** C34. The lonely output allocator: any sequence of cycles with legal requests
    runs to the end; each cycle grants a matching of its requests, every grant
    is for an output its input could not replace by a less requested one, and
    every requesting input has such an output that is granted. *)
Theorem loa_cycles n m rss :
  0 < n → 0 < m → Forall (areqs_ok n m) rss →
  returns (alloc_cycles LOAI (New n m) rss) (λ r, Forall2 (answers n m (lonely_served n m)) rss r.2).
Proof.
  intros Hn Hm Hok. apply (alloc_cycles_ok _ n m _ (LOALaws n m Hn Hm)); [|done].
  assert (DenseInv.dense_opened n m (DenseOps.New n m) no_requests) as Hd by (apply DenseInv.dense_New; lia).
  assert (∀ k, 0 < k → pointers k (replicate (Z.to_nat k) 0)) as Hp.
  { intros k Hk. split; [apply zlen_replicate; lia|]. intros i Hi. by rewrite znth_replicate. }
  split; simpl; auto; try (apply zlen_replicate; lia). by apply (DenseInv.dense_close_idle n m _ no_requests).
Qed.

Lemma loa_cycles_witness :
  returns (alloc_cycles LOAI (New 3 2) [[(0, 1, 0, 0, 0); (1, 1, 3, 2, 0); (1, 0, 2, 2, 1)]; []; [(2, 0, 1, 0, 0)]])
    (λ r, Forall2 (answers 3 2 (lonely_served 3 2))
      [[(0, 1, 0, 0, 0); (1, 1, 3, 2, 0); (1, 0, 2, 2, 1)]; []; [(2, 0, 1, 0, 0)]] r.2).
Proof. apply (loa_cycles 3 2); [lia|lia|]. by apply areqs_okb_ok. Defined.
End LOAInv.
