(* ===== verification/Rng.v ===== *)
(** * Knuth's lagged Fibonacci generator

    [ran_array], [ran_start] and [ran_arr_next] of rng.hpp, and [RandomInt] of
    random_utils.hpp.  No access leaves its array, every number drawn is in
    [[0, 2^30)], and the numbers drawn are the prescribed ones: the first 100 of
    every 1009 consecutive elements of the lagged Fibonacci sequence that starts
    with the generator's state. *)

From S2P Require Import Prelude.

Definition KK : Z := 100.
Definition LL : Z := 37.
Definition MM : Z := Z.shiftl 1 30.
Definition QUALITY : Z := 1009.
Definition TT : Z := 70.
Definition mod_diff (x y : Z) : Z := Z.land (x - y) (MM - 1).
Definition is_odd (x : Z) : bool := negb (Z.land x 1 =? 0).

(** [ran_arr_ptr] points to one of the two sentinels or into the buffer. *)
Inductive arr_ptr : Set :=
  | PDummy
  | PStarted
  | PBuf (k : Z).

Record Rng : Set := mkRng {
  ran_x : list Z;
  ran_arr_buf : list Z;
  ran_arr_ptr : arr_ptr
}.

Module RngOps.

(** The static initialisation. *)
Definition initial : Rng :=
  mkRng (replicate (Z.to_nat KK) 0) (replicate (Z.to_nat QUALITY) 0) PDummy.

(** [for (j = hi; j >= lo; j--)]. *)
Definition zdown {S} (hi lo : Z) (body : Z → S → res S) (s : S) : res S :=
  zfor 0 (hi - lo + 1) (λ i s, body (hi - i) s) s.

(** Fills [aa] with [n] numbers and advances the state [x]. *)
Definition ran_array (aa x : list Z) (n : Z) : res (list Z * list Z) :=
  aa ← zfor 0 KK (λ j aa, v ← vget x j; vset aa j v) aa;
  aa ← zfor KK n (λ j aa, a ← vget aa (j - KK); b ← vget aa (j - LL); vset aa j (mod_diff a b)) aa;
  x ← zfor 0 LL (λ i x, a ← vget aa (n + i - KK); b ← vget aa (n + i - LL); vset x i (mod_diff a b)) x;
  x ← zfor LL KK (λ i x, a ← vget aa (n + i - KK); b ← vget x (i - LL); vset x i (mod_diff a b)) x;
  Ok (aa, x).

(** [x[i] = mod_diff(x[i], x[j])]. *)
Definition sub_at (x : list Z) (i j : Z) : res (list Z) :=
  a ← vget x i; b ← vget x j; vset x i (mod_diff a b).

(** One round of the preparation loop of [ran_start]. *)
Definition square (x : list Z) : res (list Z) :=
  x ← zdown (KK - 1) 1 (λ j x, v ← vget x j; x ← vset x (j + j) v; vset x (j + j - 1) 0) x;
  zdown (KK + KK - 2) KK (λ j x, x ← sub_at x (j - (KK - LL)) j; sub_at x (j - KK) j) x.

Definition multiply_by_z (x : list Z) : res (list Z) :=
  x ← zdown KK 1 (λ j x, v ← vget x (j - 1); vset x j v) x;
  v ← vget x KK;
  x ← vset x 0 v;
  sub_at x LL KK.

(** [for (ss = seed & (MM-1), t = TT-1; t; )]. *)
Fixpoint prepare (fuel : nat) (x : list Z) (ss t : Z) : res (list Z) :=
  if t =? 0 then Ok x
  else match fuel with
  | O => Fail OutOfFuel
  | S fuel =>
      x ← square x;
      x ← (if is_odd ss then multiply_by_z x else Ok x);
      if negb (ss =? 0) then prepare fuel x (Z.shiftr ss 1) t else prepare fuel x ss (t - 1)
  end.

(** The elements of the local buffer that the bootstrap does not set are
    written by [square] before they are read; their initial value is 0 here. *)
Definition ran_start (g : Rng) (seed : Z) : res Rng :=
  let x := replicate (Z.to_nat (KK + KK - 1)) 0 in
  '(x, _) ← zfor 0 KK (λ j '(x, ss),
     x ← vset x j ss;
     let ss := Z.shiftl ss 1 in
     Ok (x, if MM <=? ss then ss - (MM - 2) else ss)) (x, Z.land (seed + 2) (MM - 2));
  v ← vget x 1;
  x ← vset x 1 (v + 1);
  x ← prepare 100 x (Z.land seed (MM - 1)) (TT - 1);
  r ← zfor 0 LL (λ j r, v ← vget x j; vset r (j + KK - LL) v) (ran_x g);
  r ← zfor LL KK (λ j r, v ← vget x j; vset r (j - LL) v) r;
  '(_, r) ← zfor 0 10 (λ _ '(x, r), ran_array x r (KK + KK - 1)) (x, r);
  Ok (mkRng r (ran_arr_buf g) PStarted).

Definition ran_arr_cycle (g : Rng) : res (Z * Rng) :=
  g ← (match ran_arr_ptr g with PDummy => ran_start g 314159 | _ => Ok g end);
  '(buf, x) ← ran_array (ran_arr_buf g) (ran_x g) QUALITY;
  buf ← vset buf KK (-1);
  v ← vget buf 0;
  Ok (v, mkRng x buf (PBuf 1)).

(** [ran_arr_next], which [ran_next] of rng_wrapper.cpp calls. *)
Definition ran_next (g : Rng) : res (Z * Rng) :=
  match ran_arr_ptr g with
  | PBuf k =>
      v ← vget (ran_arr_buf g) k;
      if 0 <=? v then Ok (v, mkRng (ran_x g) (ran_arr_buf g) (PBuf (k + 1))) else ran_arr_cycle g
  | _ => ran_arr_cycle g
  end.

Definition RandomInt (g : Rng) (max : Z) : res (Z * Rng) :=
  '(v, g) ← ran_next g;
  Ok (v `rem` (max + 1), g).

End RngOps.

(** ** The sequence *)

(** One step of the recurrence on a window of [KK] consecutive elements. *)
Definition shift (w : list Z) : list Z := tail w ++ [mod_diff (w⟦0⟧) (w⟦KK - LL⟧)].

(** The sequence that starts with [x]. *)
Definition stream (x : list Z) (i : Z) : Z := (Nat.iter (Z.to_nat i) shift x)⟦0⟧.

Module RngInv.
Import RngOps.

Lemma mod_diff_range x y : 0 ≤ mod_diff x y < MM.
Proof.
  unfold mod_diff. change (MM - 1) with (Z.ones 30). rewrite Z.land_ones by lia.
  change MM with (2 ^ 30). apply Z.mod_pos_bound. lia.
Qed.

Lemma zlen_shift w : zlen w = KK → zlen (shift w) = KK.
Proof. unfold zlen, shift, KK. destruct w; simpl; [lia|]. rewrite length_app. simpl. lia. Qed.

Lemma znth_shift w j : zlen w = KK → 0 ≤ j < KK - 1 → (shift w)⟦j⟧ = w⟦j + 1⟧.
Proof.
  unfold zlen, shift, KK, znth. intros Hl Hj. destruct w as [|a w]; [done|]. simpl in *.
  rewrite lookup_total_app_l by lia. by replace (Z.to_nat (j + 1)) with (S (Z.to_nat j)) by lia.
Qed.

Lemma znth_shift_last w : zlen w = KK → (shift w)⟦KK - 1⟧ = mod_diff (w⟦0⟧) (w⟦KK - LL⟧).
Proof.
  unfold zlen, shift, KK. intros Hl. destruct w as [|a w]; [done|].
  apply list_lookup_total_correct. simpl in Hl |- *.
  rewrite lookup_app_r by (unfold KK; lia). by replace (_ - length w)%nat with O by (unfold KK; lia).
Qed.

Lemma zlen_window x k : zlen x = KK → zlen (Nat.iter k shift x) = KK.
Proof. intros Hl. induction k as [|k IH]; [done|]. simpl. by apply zlen_shift. Qed.

Lemma window_nth x j : zlen x = KK → 0 ≤ j → ∀ i, 0 ≤ i → j < KK →
  (Nat.iter (Z.to_nat i) shift x)⟦j⟧ = stream x (i + j).
Proof.
  intros Hl Hj. pattern j. apply zsumf_ind; [|clear j Hj|done].
  - intros i Hi _. unfold stream. by rewrite Z.add_0_r.
  - intros j Hj IH i Hi Hlt. replace (i + (j + 1)) with ((i + 1) + j) by lia. rewrite <- IH by lia.
    replace (Z.to_nat (i + 1)) with (S (Z.to_nat i)) by lia. simpl.
    rewrite znth_shift by (try lia; by apply zlen_window). done.
Qed.

Lemma stream_start x j : zlen x = KK → 0 ≤ j < KK → stream x j = x⟦j⟧.
Proof. intros Hl Hj. symmetry. apply (window_nth x j Hl ltac:(lia) 0); lia. Qed.

Lemma stream_rec x i : zlen x = KK → KK ≤ i → stream x i = mod_diff (stream x (i - KK)) (stream x (i - LL)).
Proof.
  intros Hl Hi. assert (0 ≤ i - KK) as H0 by lia. pose proof (zlen_window x (Z.to_nat (i - KK)) Hl) as Hw.
  replace i with ((i - KK + 1) + (KK - 1)) at 1 by lia.
  rewrite <- (window_nth x (KK - 1)) by (done || unfold KK in *; lia).
  replace (Z.to_nat (i - KK + 1)) with (S (Z.to_nat (i - KK))) by lia. simpl.
  rewrite znth_shift_last by done. rewrite !window_nth by (done || unfold KK, LL in *; lia).
  f_equal; f_equal; lia.
Qed.

(** A window of the sequence starts the rest of the sequence. *)
Lemma stream_window x y i j : zlen x = KK → zlen y = KK → 0 ≤ i → 0 ≤ j →
  (∀ k, 0 ≤ k < KK → y⟦k⟧ = stream x (i + k)) → stream y j = stream x (i + j).
Proof.
  intros Hx Hy Hi Hj Hw. assert (y = Nat.iter (Z.to_nat i) shift x) as ->.
  { apply zlist_eq; [by rewrite zlen_window|]. intros k Hk. rewrite Hy in Hk.
    rewrite window_nth by (done || lia). auto. }
  unfold stream. rewrite <- Nat.iter_add. do 2 f_equal. lia.
Qed.

Lemma stream_range x i : zlen x = KK → KK ≤ i → 0 ≤ stream x i < MM.
Proof. intros Hl Hi. rewrite stream_rec by done. apply mod_diff_range. Qed.

(** ** [ran_array] *)

Lemma ran_array_ok aa x n :
  zlen x = KK → KK ≤ n ≤ zlen aa →
  returns (ran_array aa x n) (λ r, zlen r.1 = zlen aa ∧ zlen r.2 = KK ∧
    (∀ j, 0 ≤ j < n → r.1⟦j⟧ = stream x j) ∧ (∀ j, 0 ≤ j < KK → r.2⟦j⟧ = stream x (n + j))).
Proof.
  intros Hx Hn. unfold ran_array. set (L := zlen aa) in *.
  pose (A k (a : list Z) := zlen a = L ∧ ∀ j, 0 ≤ j < k → a⟦j⟧ = stream x j).
  pose (B k (y : list Z) := zlen y = KK ∧ ∀ j, 0 ≤ j < k → y⟦j⟧ = stream x (n + j)).
  assert (∀ k a v, A k a → 0 ≤ k < L → v = stream x k → A (k + 1) (a⟦k := v⟧)) as HA.
  { intros k a v [H1 H2] Hk ->. split; [by rewrite zlen_zupd|]. intros j Hj. rewrite znth_zupd by lia.
    case_decide; [by subst|]. apply H2. lia. }
  assert (∀ k y v, B k y → 0 ≤ k < KK → v = stream x (n + k) → B (k + 1) (y⟦k := v⟧)) as HB.
  { intros k y v [H1 H2] Hk ->. split; [by rewrite zlen_zupd|]. intros j Hj. rewrite znth_zupd by lia.
    case_decide; [by subst|]. apply H2. lia. }
  unfold KK, LL in *.
  eapply returns_bind; [apply (returns_for A); [lia|by split; [|lia]|]|].
  { intros j a Hj HAj. pose proof HAj as [Hl _]. rstep. rewrite vset_ok by lia. apply returns_ok, HA; [done|lia|].
    by rewrite stream_start by (unfold KK; lia). }
  intros a1 HA1. eapply returns_bind; [apply (returns_for A); [lia|done|]|].
  { intros j a Hj HAj. pose proof HAj as [Hl Hv]. do 2 rstep. rewrite vset_ok by lia. apply returns_ok, HA; [done|lia|].
    rewrite (stream_rec x j) by (done || unfold KK; lia). by rewrite !Hv by lia. }
  intros a2 [Hl2 Hv2]. eapply returns_bind; [apply (returns_for B); [lia|by split; [|lia]|]|].
  { intros i y Hi HBi. pose proof HBi as [Hl _]. do 2 rstep. rewrite vset_ok by lia. apply returns_ok, HB; [done|lia|].
    rewrite (stream_rec x (n + i)) by (done || unfold KK; lia). by rewrite !Hv2 by lia. }
  intros y1 HB1. eapply returns_bind; [apply (returns_for B); [lia|done|]|].
  { intros i y Hi HBi. pose proof HBi as [Hl Hv]. do 2 rstep. rewrite vset_ok by lia. apply returns_ok, HB; [done|lia|].
    rewrite (stream_rec x (n + i)) by (done || unfold KK; lia). rewrite Hv2, Hv by lia.
    f_equal. f_equal. unfold LL. lia. }
  intros y2 [Hly Hvy]. by apply returns_ok.
Qed.

(** ** [ran_start] *)

Lemma returns_zdown {S} (P : S → Prop) hi lo (body : Z → S → res S) s :
  P s → (∀ j s, lo ≤ j ≤ hi → P s → returns (body j s) P) → returns (zdown hi lo body s) P.
Proof.
  intros Hs Hb. unfold zdown. destruct (decide (hi < lo)).
  { rewrite zfor_empty by lia. by apply returns_ok. }
  apply (returns_for (λ _, P)); [lia|done|]. intros i s' Hi. apply Hb. lia.
Qed.

(** The preparation buffer of [ran_start]. *)
Definition prep (x : list Z) : Prop := zlen x = KK + KK - 1.

Lemma sub_at_ok x i j : prep x → 0 ≤ i < KK + KK - 1 → 0 ≤ j < KK + KK - 1 → returns (sub_at x i j) prep.
Proof. intros Hx Hi Hj. unfold sub_at, prep in *. do 2 rstep. rewrite vset_ok by lia. apply returns_ok. lens. Qed.

Lemma square_ok x : prep x → returns (square x) prep.
Proof.
  intros Hx. unfold square. unfold KK, LL in *. eapply returns_bind.
  - apply (returns_zdown prep); [done|]. intros j y Hj Hy. unfold prep, KK in *. do 2 rstep.
    rewrite vset_ok by lens. apply returns_ok. lens.
  - intros y Hy. apply (returns_zdown prep); [done|]. intros j z Hj Hz.
    eapply returns_bind; [apply (sub_at_ok z); (done || unfold KK; lia)|].
    intros z' Hz'. apply (sub_at_ok z'); (done || unfold KK; lia).
Qed.

Lemma multiply_by_z_ok x : prep x → returns (multiply_by_z x) prep.
Proof.
  intros Hx. unfold multiply_by_z. unfold KK, LL in *. eapply returns_bind.
  - apply (returns_zdown prep); [done|]. intros j y Hj Hy. unfold prep, KK in *. rstep.
    rewrite vset_ok by lens. apply returns_ok. lens.
  - intros y Hy. unfold prep, KK in *. do 2 rstep. apply sub_at_ok; unfold prep, KK; lens.
Qed.

(** The preparation loop runs once for each bit of the seed and [t] times more. *)
Lemma prepare_ok fuel : ∀ x ss t k,
  prep x → 0 ≤ t → 0 ≤ k → 0 ≤ ss < 2 ^ k → k + t ≤ Z.of_nat fuel → returns (prepare fuel x ss t) prep.
Proof.
  induction fuel as [|fuel IH]; intros x ss t k Hx Ht Hk Hss Hf; simpl.
  { destruct (Z.eqb_spec t 0); [by apply returns_ok|lia]. }
  destruct (Z.eqb_spec t 0); [by apply returns_ok|].
  eapply returns_bind; [by apply square_ok|]. intros y Hy.
  eapply (returns_bind _ _ prep); [destruct (is_odd ss); [by apply multiply_by_z_ok|by apply returns_ok]|].
  intros z Hz. destruct (Z.eqb_spec ss 0) as [->|Hne]; simpl.
  - apply (IH z 0 (t - 1) 0); try done; lia.
  - assert (0 < k) by (destruct (decide (k = 0)) as [->|]; [simpl in Hss; lia|lia]).
    apply (IH z _ t (k - 1)); try done; try lia. rewrite Z.shiftr_div_pow2 by lia. change (2 ^ 1) with 2.
    replace (2 ^ k) with (2 * 2 ^ (k - 1)) in Hss by (rewrite <- Z.pow_succ_r by lia; f_equal; lia).
    split; [apply Z.div_pos; lia|apply Z.div_lt_upper_bound; lia].
Qed.

Definition seeded (x : list Z) : Prop := zlen x = KK ∧ ∀ i, 0 ≤ i < KK → 0 ≤ x⟦i⟧ < MM.

Lemma ran_array_seeded x n r :
  zlen x = KK → KK ≤ n → zlen r = KK → (∀ j, 0 ≤ j < KK → r⟦j⟧ = stream x (n + j)) → seeded r.
Proof. intros Hx Hn Hr Hs. split; [done|]. intros i Hi. rewrite Hs by done. apply stream_range; [done|lia]. Qed.

Lemma copy_ok (x r : list Z) lo hi (f : Z → Z) :
  0 ≤ lo ≤ hi → hi ≤ KK → prep x → zlen r = KK → (∀ j, lo ≤ j < hi → 0 ≤ f j < KK) →
  returns (zfor lo hi (λ j r, v ← vget x j; vset r (f j) v) r) (λ r, zlen r = KK).
Proof.
  intros Hlo Hhi Hx Hr Hf. apply (returns_for (λ _ r, zlen r = KK)); [lia|done|].
  intros j r' Hj Hr'. specialize (Hf j Hj). unfold prep, KK in *. rstep. rewrite vset_ok by lia. apply returns_ok. lens.
Qed.

Lemma ran_start_ok g seed :
  zlen (ran_x g) = KK →
  returns (ran_start g seed) (λ g', seeded (ran_x g') ∧ ran_arr_buf g' = ran_arr_buf g ∧ ran_arr_ptr g' = PStarted).
Proof.
  intros Hg. unfold ran_start. eapply returns_bind.
  { apply (returns_for (λ _ st, prep st.1)); [done|by apply zlen_replicate|].
    intros j [x ss] Hj Hx. unfold prep, KK in *. simpl in Hx. rstep. apply returns_ok. simpl. lens. }
  intros [x ss] Hx. unfold prep, KK in Hx. simpl in Hx. do 2 rstep. eapply returns_bind.
  { apply (prepare_ok _ _ _ _ 30); try done; [unfold prep, KK; lens|].
    change (MM - 1) with (Z.ones 30). rewrite Z.land_ones by lia. apply Z.mod_pos_bound. lia. }
  intros y Hy.
  eapply returns_bind; [apply (copy_ok y _ 0 LL (λ j, j + KK - LL)); try done; unfold KK, LL; lia|].
  intros r Hr. eapply returns_bind; [apply (copy_ok y r LL KK (λ j, j - LL)); try done; unfold KK, LL; lia|].
  intros r2 Hr2. eapply returns_bind.
  - apply (returns_for (λ k st, prep st.1 ∧ zlen st.2 = KK ∧ (0 < k → seeded st.2))); [lia|by split_and!|].
    intros k [z r3] Hk (Hz & Hr3 & _). simpl in *.
    eapply returns_mono; [apply (ran_array_ok z r3 (KK + KK - 1) Hr3); rewrite Hz; unfold KK; lia|].
    intros [z' r4] (Hz' & Hr4 & _ & Hs). simpl in *. split_and!; [unfold prep in *; by rewrite Hz'|done|]. intros _.
    by apply (ran_array_seeded r3 (KK + KK - 1)).
  - intros [z r3] (_ & _ & Hs). apply returns_ok. simpl in *. split_and!; auto. apply Hs. lia.
Qed.

(** ** The numbers drawn *)

(** The generator has drawn [i] numbers of the sequence [x]: [PBuf k] points
    into the block that starts at the [1009 * c]-th element. *)
Definition drawn (x : list Z) (i : Z) (g : Rng) : Prop :=
  zlen (ran_arr_buf g) = QUALITY ∧ zlen (ran_x g) = KK ∧
  ((i = 0 ∧ ran_arr_ptr g = PStarted ∧ ∀ j, 0 ≤ j < KK → (ran_x g)⟦j⟧ = stream x j) ∨
   (∃ c k, i = KK * c + k ∧ 0 ≤ c ∧ 1 ≤ k ≤ KK ∧ ran_arr_ptr g = PBuf k ∧
      (ran_arr_buf g)⟦KK⟧ = -1 ∧
      (∀ j, 0 ≤ j < KK → (ran_arr_buf g)⟦j⟧ = stream x (QUALITY * c + j)) ∧
      ∀ j, 0 ≤ j < KK → (ran_x g)⟦j⟧ = stream x (QUALITY * (c + 1) + j))).

(** The index of the [i]-th number drawn. *)
Definition drawn_index (i : Z) : Z := QUALITY * (i / KK) + i mod KK.

Lemma drawn_index_eq c k : 0 ≤ k < KK → drawn_index (KK * c + k) = QUALITY * c + k.
Proof.
  intros Hk. unfold drawn_index. rewrite <- (Z.div_unique_pos (KK * c + k) KK c k) by lia.
  by rewrite <- (Z.mod_unique_pos (KK * c + k) KK c k) by lia.
Qed.

(** A new block. *)
Lemma ran_arr_cycle_ok x g c :
  zlen x = KK → zlen (ran_arr_buf g) = QUALITY → zlen (ran_x g) = KK → 0 ≤ c → ran_arr_ptr g ≠ PDummy →
  (∀ j, 0 ≤ j < KK → (ran_x g)⟦j⟧ = stream x (QUALITY * c + j)) →
  returns (ran_arr_cycle g) (λ r, r.1 = stream x (QUALITY * c) ∧ drawn x (KK * c + 1) r.2).
Proof.
  intros Hx Hb Hg Hc Hp Hs. unfold ran_arr_cycle.
  assert ((match ran_arr_ptr g with PDummy => ran_start g 314159 | _ => Ok g end) = Ok g) as ->
    by (destruct (ran_arr_ptr g); [destruct (Hp eq_refl)|reflexivity|reflexivity]). cbn [mbind res_bind].
  destruct (ran_array_ok (ran_arr_buf g) (ran_x g) QUALITY Hg) as ([buf y] & -> & Hl & Hy & Hbuf & Hys);
    [rewrite Hb; unfold KK, QUALITY; lia|]. simpl in *.
  assert (∀ j, 0 ≤ j → stream (ran_x g) j = stream x (QUALITY * c + j)) as Hst.
  { intros j Hj. apply stream_window; try done. unfold QUALITY. lia. }
  cbn [mbind res_bind]. unfold KK, QUALITY in *. do 2 rstep. apply returns_ok. simpl. split.
  - rewrite znth_zupd_ne by lia. rewrite Hbuf, Hst by lia. f_equal. lia.
  - split; simpl; [unfold QUALITY; lens|]. split; [done|]. right. exists c, 1. unfold KK, QUALITY.
    split_and!; try lia; try done.
    + rewrite znth_zupd_eq by lia. done.
    + intros j Hj. rewrite znth_zupd_ne by lia. rewrite Hbuf, Hst by lia. done.
    + intros j Hj. rewrite Hys, Hst by lia. f_equal. lia.
Qed.

Lemma ran_next_drawn x i g :
  seeded x → 0 ≤ i → drawn x i g →
  returns (ran_next g) (λ r, r.1 = stream x (drawn_index i) ∧ drawn x (i + 1) r.2).
Proof.
  intros [Hx Hr] Hi (Hb & Hg & [(-> & Hp & Hs)|(c & k & -> & Hc & Hk & Hp & Hend & Hbuf & Hs)]); unfold ran_next; rewrite Hp.
  - apply (ran_arr_cycle_ok x g 0); try done. by rewrite Hp.
  - destruct (decide (k = KK)) as [->|Hne].
    + rewrite vget_ok by (rewrite Hb; done). rewrite Hend. cbn [mbind res_bind]. simpl.
      replace (KK * c + KK) with (KK * (c + 1) + 0) by lia. rewrite drawn_index_eq by done.
      replace (QUALITY * (c + 1) + 0) with (QUALITY * (c + 1)) by lia.
      replace (KK * (c + 1) + 0 + 1) with (KK * (c + 1) + 1) by lia.
      apply ran_arr_cycle_ok; try done; [lia|by rewrite Hp].
    + assert (0 ≤ stream x (QUALITY * c + k)) as Hpos.
      { destruct (decide (QUALITY * c + k < KK)); [|apply stream_range; [done|lia]].
        rewrite stream_start by (done || unfold QUALITY in *; lia). apply Hr. unfold QUALITY in *. lia. }
      rewrite vget_ok by (rewrite Hb; unfold KK, QUALITY in *; lia). cbn [mbind res_bind]. rewrite Hbuf by lia.
      destruct (Z.leb_spec 0 (stream x (QUALITY * c + k))); [|lia]. apply returns_ok. simpl.
      rewrite drawn_index_eq by lia. split; [done|]. split; [done|]. split; [done|]. right. exists c, (k + 1).
      split_and!; try done; lia.
Qed.

Fixpoint draws (n : nat) (g : Rng) : res (list Z * Rng) :=
  match n with
  | O => Ok ([], g)
  | S n => '(v, g) ← ran_next g; '(vs, g) ← draws n g; Ok (v :: vs, g)
  end.

Lemma draws_ok x n : seeded x → ∀ i g, 0 ≤ i → drawn x i g →
  returns (draws n g) (λ r, r.1 = (λ j, stream x (drawn_index j)) <$> seqZ i (Z.of_nat n)).
Proof.
  intros Hx. induction n as [|n IH]; intros i g Hi Hd; simpl draws; [by apply returns_ok|].
  destruct (ran_next_drawn x i g Hx Hi Hd) as ([v g'] & -> & Hv & Hd'). cbn [mbind res_bind].
  destruct (IH (i + 1) g' ltac:(lia) Hd') as ([vs g''] & -> & Hvs). apply returns_ok. simpl in *.
  rewrite (seqZ_cons i) by lia. rewrite fmap_cons, Hv, Hvs. f_equal. f_equal. f_equal; lia.
Qed.

(** The generator: after [ran_start] with any seed, the state is 100 numbers
    in [[0, 2^30)], and the [i]-th call of [ran_next] returns element
    [1009 * (i / 100) + i mod 100] of the sequence
    [X(j) = (X(j-100) - X(j-37)) mod 2^30] that starts with that state. *)
Theorem ran_next_sequence g seed n :
  zlen (ran_x g) = KK → zlen (ran_arr_buf g) = QUALITY →
  returns (ran_start g seed) (λ g', seeded (ran_x g') ∧
    returns (draws n g') (λ r,
      r.1 = (λ i, stream (ran_x g') (QUALITY * (i / KK) + i mod KK)) <$> seqZ 0 (Z.of_nat n))).
Proof.
  intros Hg Hb. eapply returns_mono; [by apply ran_start_ok|]. intros g' (Hs & Hb' & Hp). split; [done|].
  apply draws_ok; try done. split; [congruence|]. destruct Hs as [Hl Hs]. split; [done|]. left.
  split_and!; try done. intros j Hj. by rewrite stream_start.
Qed.

Lemma ran_next_sequence_witness :
  returns (ran_start initial 42) (λ g', seeded (ran_x g') ∧
    returns (draws 3 g') (λ r,
      r.1 = (λ i, stream (ran_x g') (QUALITY * (i / KK) + i mod KK)) <$> seqZ 0 3)).
Proof. apply (ran_next_sequence initial 42 3); reflexivity. Defined.

(** ** Drawing at any time *)

(** The state of the generator between any two calls; before the first
    [ran_start] it is the static initialisation. *)
Definition rng_ok (g : Rng) : Prop :=
  zlen (ran_arr_buf g) = QUALITY ∧ zlen (ran_x g) = KK ∧
  (ran_arr_ptr g = PDummy ∨ ∃ x i, seeded x ∧ 0 ≤ i ∧ drawn x i g).

Lemma rng_ok_initial : rng_ok initial.
Proof. split_and!; [done|done|by left]. Qed.

Lemma stream_nonneg x i : seeded x → 0 ≤ i → 0 ≤ stream x i < MM.
Proof.
  intros [Hl Hr] Hi. destruct (decide (i < KK)); [rewrite stream_start by (done || lia); auto|].
  apply stream_range; [done|lia].
Qed.

Lemma drawn_index_nonneg i : 0 ≤ i → 0 ≤ drawn_index i.
Proof.
  intros Hi. unfold drawn_index, QUALITY, KK. pose proof (Z.mod_pos_bound i 100 ltac:(lia)).
  pose proof (Z.div_pos i 100 ltac:(lia) ltac:(lia)). lia.
Qed.

Lemma ran_next_ok g : rng_ok g → returns (ran_next g) (λ r, 0 ≤ r.1 < MM ∧ rng_ok r.2).
Proof.
  intros (Hb & Hg & [Hp|(x & i & Hx & Hi & Hd)]).
  - assert (ran_next g = (g' ← ran_start g 314159; ran_arr_cycle g')) as ->.
    { unfold ran_next, ran_arr_cycle. rewrite Hp. destruct (ran_start_ok g 314159 Hg) as (g' & -> & _ & _ & Hp').
      cbn [mbind res_bind]. by rewrite Hp'. }
    eapply returns_bind; [by apply ran_start_ok|]. intros g' ([Hl Hs] & Hb' & Hp').
    eapply returns_mono; [apply (ran_arr_cycle_ok (ran_x g') g' 0); try done; [congruence|by rewrite Hp'|]|].
    { intros j Hj. simpl. by rewrite stream_start. }
    intros [v g2] [Hv Hd]. simpl in *. split; [rewrite Hv; by apply stream_nonneg|].
    pose proof Hd as (? & ? & _). split_and!; try done. right. exists (ran_x g'), 1. by split_and!.
  - eapply returns_mono; [by apply (ran_next_drawn x i)|]. intros [v g'] [Hv Hd']. simpl in *.
    split; [rewrite Hv; apply stream_nonneg; [done|by apply drawn_index_nonneg]|].
    pose proof Hd' as (? & ? & _). split_and!; try done. right. exists x, (i + 1). split_and!; try done. lia.
Qed.

Lemma RandomInt_ok g max : rng_ok g → 0 ≤ max →
  returns (RandomInt g max) (λ r, 0 ≤ r.1 ≤ max ∧ rng_ok r.2).
Proof.
  intros Hg Hmax. unfold RandomInt. eapply returns_bind; [by apply ran_next_ok|]. intros [v g'] [Hv Hg'].
  apply returns_ok. simpl in *. split; [|done]. pose proof (Z.rem_bound_pos v (max + 1) ltac:(lia) ltac:(lia)). lia.
Qed.
End RngInv.
