(* ===== verification/Rounds.v ===== *)
(** * Grant and accept rounds: parallel iterative matching

    The argument shared by the iterative allocators: in a round every free
    output offers itself to one free input that requests it, and every input
    accepts one of its offers.  The grants stay a matching, and a round that
    changes nothing leaves a maximal one.  [PIM] (allocators/pim.cpp) chooses at
    random, with the generator of [Rng]. *)

From S2P Require Import Prelude StdMap Allocator AllocLaws AllocStore Rng.

(** ** Rounds *)

Module Rounds.

(** The number of grants. *)
Definition matched (n : Z) (im : list Z) : Z := zsumf (λ i, if im⟦i⟧ =? -1 then 0 else 1) n.

(** After [k] rounds: at least [k] grants, unless no more are possible. *)
Definition after_rounds (n m k : Z) : grants_prop := λ R im om,
  maximal n m (wants R) im om ∨ k ≤ matched n im.

Section round.
Context (n m : Z) (R : requests).

(** The offers of the outputs to the inputs, given the grants so far; the
    outputs from [k] on have not chosen yet. *)
Record offers (im om : list Z) (k : Z) (grants : list Z) : Prop := {
  of_len : zlen grants = m;
  of_ok : ∀ o, 0 ≤ o < m → grants⟦o⟧ = -1 ∨
    (0 ≤ grants⟦o⟧ < n ∧ wants R (grants⟦o⟧) o ∧ im⟦grants⟦o⟧⟧ = -1 ∧ om⟦o⟧ = -1);
  of_todo : ∀ o, k ≤ o < m → grants⟦o⟧ = -1;
  of_all : ∀ i o, 0 ≤ i < n → 0 ≤ o < k → wants R i o → im⟦i⟧ = -1 → om⟦o⟧ = -1 → grants⟦o⟧ ≠ -1
}.

Lemma offers_start im om : 0 ≤ m → offers im om 0 (replicate (Z.to_nat m) (-1)).
Proof.
  intros Hm. split; [by apply zlen_replicate| | |lia]; intros o Ho; rewrite znth_replicate by lia; [by left|done].
Qed.

Lemma offers_none im om k grants :
  0 ≤ k < m → offers im om k grants →
  (∀ i, 0 ≤ i < n → wants R i k → im⟦i⟧ = -1 → om⟦k⟧ = -1 → False) → offers im om (k + 1) grants.
Proof.
  intros Hk [H1 H2 H3 H4] Hno. split; try done.
  - intros o Ho. apply H3. lia.
  - intros i o Hi Ho Hw E1 E2. destruct (decide (o = k)) as [->|]; [by destruct (Hno i)|].
    apply (H4 i); try done. lia.
Qed.

Lemma offers_some im om k grants i :
  0 ≤ k < m → offers im om k grants → 0 ≤ i < n → wants R i k → im⟦i⟧ = -1 → om⟦k⟧ = -1 →
  offers im om (k + 1) (grants⟦k := i⟧).
Proof.
  intros Hk [H1 H2 H3 H4] Hi Hw E1 E2. split; [lens| | |].
  - intros o Ho. rewrite znth_zupd by lia. case_decide; [subst; by right|by apply H2].
  - intros o Ho. rewrite znth_zupd_ne by lia. apply H3. lia.
  - intros i' o Hi' Ho Hw' E1' E2'. rewrite znth_zupd by lia. case_decide; [lia|].
    apply (H4 i'); try done. lia.
Qed.

(** The grants after the inputs below [k] have accepted. *)
Record accepting (im0 om0 grants : list Z) (k : Z) (im om : list Z) : Prop := {
  ac_match : matching n m (wants R) im om;
  ac_keep : ∀ i, 0 ≤ i < n → im0⟦i⟧ ≠ -1 → im⟦i⟧ = im0⟦i⟧;
  ac_todo : ∀ i, k ≤ i < n → im⟦i⟧ = im0⟦i⟧;
  ac_out : ∀ o, 0 ≤ o < m → om⟦o⟧ = om0⟦o⟧ ∨ (0 ≤ grants⟦o⟧ < k);
  ac_new : ∀ i, 0 ≤ i < n → im⟦i⟧ = im0⟦i⟧ ∨ (∃ o, 0 ≤ o < m ∧ grants⟦o⟧ = i);
  ac_done : ∀ o, 0 ≤ o < m → 0 ≤ grants⟦o⟧ < k → im⟦grants⟦o⟧⟧ ≠ -1
}.

Context (im0 om0 grants : list Z) (Hoff : offers im0 om0 m grants).

Lemma accepting_start : matching n m (wants R) im0 om0 → accepting im0 om0 grants 0 im0 om0.
Proof. intros Hmt. split; try done; [by left|by left|lia]. Qed.

Lemma accepting_none k im om :
  accepting im0 om0 grants k im om → (∀ o, 0 ≤ o < m → grants⟦o⟧ ≠ k) →
  accepting im0 om0 grants (k + 1) im om.
Proof.
  intros [H1 H2 H3 H4 H5 H6] Hno. split; try done.
  - intros i Hi. apply H3. lia.
  - intros o Ho. destruct (H4 o Ho); [by left|right; lia].
  - intros o Ho Hg. apply H6; [done|]. specialize (Hno o Ho). lia.
Qed.

Lemma accepting_some k im om o :
  accepting im0 om0 grants k im om → 0 ≤ k < n → 0 ≤ o < m → grants⟦o⟧ = k →
  accepting im0 om0 grants (k + 1) (im⟦k := o⟧) (om⟦o := k⟧).
Proof.
  intros [H1 H2 H3 H4 H5 H6] Hk Ho Eg. pose proof H1 as [L1 L2 _ _].
  destruct (of_ok _ _ _ _ Hoff o Ho) as [?|(_ & Hw & Ei & Eo)]; [lia|]. rewrite Eg in *.
  split.
  - apply matching_grant; try done; [rewrite H3 by lia; done|]. destruct (H4 o Ho) as [->|?]; [done|lia].
  - intros i Hi Hne. rewrite znth_zupd by lia. case_decide; [by subst|auto].
  - intros i Hi. rewrite znth_zupd_ne by lia. apply H3. lia.
  - intros o' Ho'. rewrite znth_zupd by lia. case_decide; [subst; right; lia|].
    destruct (H4 o' Ho'); [by left|right; lia].
  - intros i Hi. rewrite znth_zupd by lia. case_decide; [subst; right; eauto|auto].
  - intros o' Ho' Hg. rewrite znth_zupd by lia. case_decide; [lia|]. apply H6; [done|lia].
Qed.

(** A full round makes progress or finds the matching maximal. *)
Lemma round_progress j im om :
  matching n m (wants R) im0 om0 → accepting im0 om0 grants n im om →
  after_rounds n m j R im0 om0 → after_rounds n m (j + 1) R im om.
Proof.
  intros Hmt0 [H1 H2 H3 H4 H5 H6] Hj.
  destruct (decide (Exists (λ o, grants⟦o⟧ ≠ -1) (seqZ 0 m))) as [Hex|Hnone].
  - apply Exists_exists in Hex as (o & Ho%elem_of_seqZ & Hne). assert (0 ≤ o < m) as Ho' by lia.
    destruct (of_ok _ _ _ _ Hoff o Ho') as [?|(Hg & Hw & Ei & Eo)]; [done|].
    right. destruct Hj as [Hmax|Hj]; [by destruct (Hmax (grants⟦o⟧) o Hg Ho' Hw)|].
    enough (matched n im0 < matched n im) by lia. apply (zsumf_lt _ _ n (grants⟦o⟧)); try done.
    + intros i Hi. destruct (Z.eqb_spec (im0⟦i⟧) (-1)) as [_|Hne']; [by destruct (im⟦i⟧ =? -1)|].
      rewrite H2 by done. destruct (Z.eqb_spec (im0⟦i⟧) (-1)); [done|lia].
    + rewrite Ei, Z.eqb_refl. destruct (Z.eqb_spec (im⟦grants⟦o⟧⟧) (-1)) as [E|]; [by destruct (H6 o Ho')|lia].
  - left. assert (∀ o, 0 ≤ o < m → grants⟦o⟧ = -1) as Hg.
    { intros o Ho. destruct (decide (grants⟦o⟧ = -1)); [done|]. destruct Hnone. apply Exists_exists.
      exists o. split; [apply elem_of_seqZ; lia|done]. }
    intros i o Hi Ho Hw.
    assert (im⟦i⟧ = im0⟦i⟧) as Ei.
    { destruct (H5 i Hi) as [?|(o' & Ho' & E)]; [done|]. rewrite Hg in E by done. lia. }
    destruct (H4 o Ho) as [Eo|Hg']; [|rewrite Hg in Hg' by done; lia]. rewrite Ei, Eo.
    destruct (decide (im0⟦i⟧ = -1)); [|by left]. destruct (decide (om0⟦o⟧ = -1)); [|by right].
    destruct (of_all _ _ _ _ Hoff i o Hi Ho Hw); auto.
Qed.
End round.
End Rounds.

(** ** [PIM] *)

Record PIM : Set := mkPIM { pim_dense : Dense; pim_iter : Z }.

Module PIMOps.

Definition New (inputs outputs iters : Z) : PIM := mkPIM (DenseOps.New inputs outputs) iters.

(** The allocator together with the global generator. *)
Definition Clear (a : PIM * Rng) : PIM * Rng := (mkPIM (DenseOps.Clear (pim_dense a.1)) (pim_iter a.1), a.2).

Definition AddRequest (a : PIM * Rng) (in_ out label in_pri out_pri : Z) : res (PIM * Rng) :=
  d ← DenseOps.AddRequest (pim_dense a.1) in_ out label in_pri out_pri;
  Ok (mkPIM d (pim_iter a.1), a.2).

Section phases.
Context (d : Dense).
Local Abbreviation inputs := (al_inputs (d_base d)).
Local Abbreviation outputs := (al_outputs (d_base d)).

Definition grant_output (im om : list Z) (output : Z) (st : list Z * Rng) : res (list Z * Rng) :=
  let '(grants, g) := st in
  '(input_offset, g) ← RngOps.RandomInt g (inputs - 1);
  c ← zforb 0 inputs (λ i grants,
    let input := (i + input_offset) `rem` inputs in
    r ← DenseOps.at_ d input output;
    x ← vget im input;
    y ← vget om output;
    if negb (r_label r =? -1) && (x =? -1) && (y =? -1) then
      grants ← vset grants output input; Ok (Break grants)
    else Ok (Next grants)) grants;
  Ok (ctl_val c, g).

Definition accept_input (grants : list Z) (input : Z) (st : list Z * list Z * Rng)
    : res (list Z * list Z * Rng) :=
  let '(im, om, g) := st in
  '(output_offset, g) ← RngOps.RandomInt g (outputs - 1);
  c ← zforb 0 outputs (λ o st,
    let '(im, om) := st in
    let output := (o + output_offset) `rem` outputs in
    x ← vget grants output;
    if x =? input then
      im ← vset im input output; om ← vset om output input; Ok (Break (im, om))
    else Ok (Next (im, om))) (im, om);
  Ok (ctl_val c, g).

Definition round (st : list Z * list Z * Rng) : res (list Z * list Z * Rng) :=
  let '(im, om, g) := st in
  '(grants, g) ← zfor 0 outputs (grant_output im om) (replicate (Z.to_nat outputs) (-1), g);
  zfor 0 inputs (accept_input grants) (im, om, g).
End phases.

Definition Allocate (a : PIM * Rng) : res (PIM * Rng) :=
  let d := pim_dense a.1 in
  '(im, om, g) ← zfor 0 (pim_iter a.1) (λ _ st, round d st) (al_inmatch (d_base d), al_outmatch (d_base d), a.2);
  Ok (mkPIM (mkDense (AllocOps.set_match im om (d_base d)) (d_request d)) (pim_iter a.1), g).

End PIMOps.

Definition PIMI : AllocatorI (PIM * Rng) :=
  mkAllocI (λ a, d_base (pim_dense a.1)) PIMOps.Clear PIMOps.AddRequest PIMOps.Allocate.

Module PIMInv.
Import PIMOps Rounds RngInv.

Section phases.
Context (n m : Z) (d : Dense) (R : requests) (Hd : DenseInv.dense_opened n m d R).
Context (Hn : 0 < n) (Hm : 0 < m).

Lemma pim_grant_output_ok im om k grants g :
  matching n m (wants R) im om → 0 ≤ k < m → offers n m R im om k grants → rng_ok g →
  returns (grant_output d im om k (grants, g)) (λ r, offers n m R im om (k + 1) r.1 ∧ rng_ok r.2).
Proof.
  intros [L1 L2 _ _] Hk Hof Hg. unfold grant_output.
  rewrite (DenseInv.ds_in _ _ _ (DenseInv.do_shape _ _ _ _ Hd)).
  eapply returns_bind; [apply (RandomInt_ok g (n - 1) Hg); lia|]. intros [off g'] [Hoff Hg']. simpl in Hoff, Hg'.
  eapply returns_bind.
  - apply (returns_forb (λ i gr, gr = grants ∧ ∀ j, 0 ≤ j < i →
      wants R ((j + off) `rem` n) k → im⟦(j + off) `rem` n⟧ = -1 → om⟦k⟧ = -1 → False) (offers n m R im om (k + 1))); [lia|by split; [|lia]|].
    intros i gr Hi [-> Hno]. set (x := (i + off) `rem` n).
    assert (0 ≤ x < n) as Hx by (apply rotation_range; lia).
    rewrite (DenseInv.at_ok n m) by (done || apply Hd). cbn [mbind res_bind]. do 2 rstep.
    pose proof (DenseInv.wants_cell n m d R x k Hd Hx Hk) as Hw.
    destruct (negb _ && _ && _) eqn:E.
    + bool_to_prop. rewrite vset_ok by (rewrite (of_len _ _ _ _ _ _ _ Hof); lia). apply returns_ok.
      apply offers_some; try done. by apply Hw, Z.eqb_neq.
    + apply returns_ok. split; [done|]. intros j Hj. destruct (decide (j = i)) as [->|]; [|apply Hno; lia].
      fold x. intros Hwx E1 E2. apply Hw in Hwx. rewrite Hwx, E1, E2 in E. done.
  - intros c Hc. apply returns_ok. simpl. split; [|done]. destruct c as [gr|gr]; [|done]. simpl.
    destruct Hc as [-> Hno]. apply offers_none; try done. intros i Hi Hw E1 E2.
    destruct (rotation_onto n off i ltac:(lia) Hi) as (j & Hj & Ej). apply (Hno j Hj); by rewrite ?Ej.
Qed.

Lemma pim_accept_input_ok im0 om0 grants k im om g :
  offers n m R im0 om0 m grants → accepting n m R im0 om0 grants k im om → 0 ≤ k < n → rng_ok g →
  returns (accept_input d grants k (im, om, g)) (λ r,
    accepting n m R im0 om0 grants (k + 1) r.1.1 r.1.2 ∧ rng_ok r.2).
Proof.
  intros Hof Hac Hk Hg. pose proof (ac_match _ _ _ _ _ _ _ _ _ Hac) as [L1 L2 _ _].
  pose proof (of_len _ _ _ _ _ _ _ Hof) as L3. unfold accept_input.
  rewrite (DenseInv.ds_out _ _ _ (DenseInv.do_shape _ _ _ _ Hd)).
  eapply returns_bind; [apply (RandomInt_ok g (m - 1) Hg); lia|]. intros [off g'] [Hoff Hg']. simpl in Hoff, Hg'.
  eapply returns_bind.
  - apply (returns_forb (λ i st, st = (im, om) ∧ ∀ j, 0 ≤ j < i → grants⟦(j + off) `rem` m⟧ ≠ k)
      (λ st, accepting n m R im0 om0 grants (k + 1) st.1 st.2)); [lia|by split; [|lia]|].
    intros i st Hi [-> Hno]. pose proof (rotation_range m off i ltac:(lia) Hi) as Hx. rstep.
    destruct (Z.eqb_spec (grants⟦(i + off) `rem` m⟧) k) as [E|E].
    + do 2 rstep. apply returns_ok. by apply accepting_some.
    + apply returns_ok. split; [done|]. intros j Hj. destruct (decide (j = i)) as [->|]; [done|apply Hno; lia].
  - intros c Hc. apply returns_ok. simpl. split; [|done]. destruct c as [st|st]; [|done]. simpl.
    destruct Hc as [-> Hno]. apply accepting_none; try done. intros o Ho.
    destruct (rotation_onto m off o ltac:(lia) Ho) as (j & Hj & <-). by apply Hno.
Qed.

Lemma pim_round_ok j st :
  matching n m (wants R) st.1.1 st.1.2 → after_rounds n m j R st.1.1 st.1.2 → rng_ok st.2 →
  returns (round d st) (λ st', matching n m (wants R) st'.1.1 st'.1.2 ∧
    after_rounds n m (j + 1) R st'.1.1 st'.1.2 ∧ rng_ok st'.2).
Proof.
  destruct st as [[im om] g]. simpl. intros Hmt Hj Hg. unfold round.
  rewrite (DenseInv.ds_in _ _ _ (DenseInv.do_shape _ _ _ _ Hd)), (DenseInv.ds_out _ _ _ (DenseInv.do_shape _ _ _ _ Hd)).
  eapply returns_bind.
  - apply (returns_for (λ k st, offers n m R im om k st.1 ∧ rng_ok st.2)); [lia|split; [apply offers_start; lia|done]|].
    intros k [gr g'] Hk [Hof Hg']. by apply pim_grant_output_ok.
  - intros [grants g'] [Hof Hg']. simpl in *. eapply returns_mono.
    + apply (returns_for (λ k st, accepting n m R im om grants k st.1.1 st.1.2 ∧ rng_ok st.2)); [lia| |].
      { split; [by apply accepting_start|done]. }
      intros k [[im' om'] g''] Hk [Hac Hg'']. by apply pim_accept_input_ok.
    + intros [[im' om'] g''] [Hac Hg'']. simpl in *. split_and!; [by apply Hac| |done].
      by apply (round_progress n m R im om grants).
Qed.
End phases.

Definition pim_opened (n m iters : Z) (a : PIM * Rng) (R : requests) : Prop :=
  DenseInv.dense_opened n m (pim_dense a.1) R ∧ pim_iter a.1 = iters ∧ rng_ok a.2.

Definition PIMLaws (n m iters : Z) (Hn : 0 < n) (Hm : 0 < m) (Hi : 0 ≤ iters) :
  AllocatorLaws PIMI n m (after_rounds n m iters).
Proof.
  refine {| opened := pim_opened n m iters |}.
  - intros a R R' E [Hd ?]. split; [|done]. by apply (DenseInv.dense_ext n m _ R).
  - intros a R i o label ip op (Hd & Hit & Hg) Hi' Ho Hl HN. simpl. unfold AddRequest.
    destruct (DenseInv.dense_AddRequest n m _ R i o label ip op Hd Hi' Ho Hl HN) as (d & -> & Hd').
    by apply returns_ok.
  - intros a R (Hd & Hit & Hg). simpl. unfold Allocate. rewrite Hit. eapply returns_bind.
    + apply (returns_for (λ k st, matching n m (wants R) st.1.1 st.1.2 ∧ after_rounds n m k R st.1.1 st.1.2 ∧ rng_ok st.2));
        [lia| |].
      { simpl. split_and!; [by apply (DenseInv.dense_free_matching n m _ R)| |done]. right.
        apply zsumf_nonneg; [lia|]. intros i _. by destruct (_ =? -1). }
      intros k st _ (Hmt & Hk & Hg'). by apply pim_round_ok.
    + intros [[im om] g] (Hmt & Hk & Hg'). apply returns_ok. simpl in *. split_and!; try done.
      split_and!; try done. by apply (DenseInv.dense_close n m _ R).
Defined.

(** C33. Parallel iterative matching with [iters] rounds, whatever numbers the
    generator draws: any sequence of cycles with legal requests runs to the end,
    and each cycle grants a matching of its requests that is maximal or has at
    least [iters] grants. *)
Theorem pim_cycles n m iters g rss :
  0 < n → 0 < m → 0 ≤ iters → rng_ok g → Forall (areqs_ok n m) rss →
  returns (alloc_cycles PIMI (New n m iters, g) rss) (λ r,
    Forall2 (answers n m (after_rounds n m iters)) rss r.2).
Proof.
  intros Hn Hm Hi Hg Hok. apply (alloc_cycles_ok _ n m _ (PIMLaws n m iters Hn Hm Hi)); [|done].
  split_and!; try done. apply (DenseInv.dense_close_idle n m _ no_requests), DenseInv.dense_New; lia.
Qed.

Lemma pim_cycles_witness :
  returns (alloc_cycles PIMI (New 3 2 1, RngOps.initial) [[(0, 1, 0, 0, 0); (1, 1, 3, 2, 0); (1, 0, 2, 2, 1)]; []])
    (λ r, Forall2 (answers 3 2 (after_rounds 3 2 1)) [[(0, 1, 0, 0, 0); (1, 1, 3, 2, 0); (1, 0, 2, 2, 1)]; []] r.2).
Proof. apply (pim_cycles 3 2 1); [lia|lia|lia|apply rng_ok_initial|]. by apply areqs_okb_ok. Defined.
End PIMInv.
