(* ===== verification/Islip.v ===== *)
(** * iSLIP

    [iSLIP_Sparse] (allocators/islip.cpp): rounds of grants and accepts with
    rotating pointers over the request lists of a sparse allocator. *)

From S2P Require Import Prelude StdMap Allocator AllocLaws AllocStore Rounds.

Record ISLIP : Set := mkISLIP {
  is_sparse : Sparse;
  is_iter : Z;
  is_gptrs : list Z;
  is_aptrs : list Z
}.

Module ISLIPOps.

Definition New (inputs outputs iters : Z) : ISLIP :=
  mkISLIP (SparseOps.New inputs outputs) iters (replicate (Z.to_nat outputs) 0) (replicate (Z.to_nat inputs) 0).

Definition Clear (a : ISLIP) : ISLIP :=
  mkISLIP (SparseOps.Clear (is_sparse a)) (is_iter a) (is_gptrs a) (is_aptrs a).

Definition AddRequest (a : ISLIP) (in_ out label in_pri out_pri : Z) : res ISLIP :=
  s ← SparseOps.AddRequest (is_sparse a) in_ out label in_pri out_pri;
  Ok (mkISLIP s (is_iter a) (is_gptrs a) (is_aptrs a)).

Section scan.
Context (all : imap sRequest) (offset : Z) (test : Z → res bool).

(** The first loop over an iterator: skip the ports below the pointer. *)
Fixpoint skip_below (p : imap sRequest) : imap sRequest :=
  match p with
  | (k, r) :: p' => if r_port r <? offset then skip_below p' else p
  | [] => []
  end.

(** The second loop: the iterator [p] runs to the end, wraps around once and
    stops at the pointer; the port that passes [test] ends it. *)
Fixpoint scan (fuel : nat) (p : imap sRequest) (wrapped : bool) : res (option Z) :=
  if negb wrapped || match p with (_, r) :: _ => r_port r <? offset | [] => false end then
    match fuel with
    | O => Fail OutOfFuel
    | S fuel =>
        let '(p, stop, wrapped) :=
          match p with
          | [] => if wrapped then (p, true, wrapped) else (all, false, true)
          | _ => (p, false, wrapped)
          end in
        if stop : bool then Ok None
        else match p with
        | [] => Fail BadIterator
        | (_, r) :: p' =>
            b ← test (r_port r);
            if b : bool then Ok (Some (r_port r)) else scan fuel p' wrapped
        end
    end
  else Ok None.

Definition rr_select : res (option Z) :=
  scan (2 * length all + 1) (skip_below all) false.
End scan.

Definition grant_output (s : Sparse) (gptrs im om : list Z) (output : Z) (grants : list Z) : res (list Z) :=
  m ← vget (s_out_req s) output;
  y ← vget om output;
  if SparseOps.is_empty m || negb (y =? -1) then Ok grants
  else
    input_offset ← vget gptrs output;
    sel ← rr_select m input_offset (λ input, x ← vget im input; Ok (x =? -1));
    match sel with Some input => vset grants output input | None => Ok grants end.

Definition accept_input (s : Sparse) (iter : Z) (grants : list Z) (input : Z)
    (st : list Z * list Z * list Z * list Z) : res (list Z * list Z * list Z * list Z) :=
  let '(im, om, gptrs, aptrs) := st in
  m ← vget (s_in_req s) input;
  if SparseOps.is_empty m then Ok st
  else
    output_offset ← vget aptrs input;
    sel ← rr_select m output_offset (λ output, x ← vget grants output; Ok (x =? input));
    match sel with
    | Some output =>
        im ← vset im input output;
        om ← vset om output input;
        if iter =? 0 then
          gptrs ← vset gptrs output ((input + 1) `rem` al_inputs (s_base s));
          aptrs ← vset aptrs input ((output + 1) `rem` al_outputs (s_base s));
          Ok (im, om, gptrs, aptrs)
        else Ok (im, om, gptrs, aptrs)
    | None => Ok st
    end.

Definition round (s : Sparse) (iter : Z) (st : list Z * list Z * list Z * list Z)
    : res (list Z * list Z * list Z * list Z) :=
  let '(im, om, gptrs, aptrs) := st in
  let b := s_base s in
  grants ← zfor 0 (al_outputs b) (grant_output s gptrs im om) (replicate (Z.to_nat (al_outputs b)) (-1));
  zfor 0 (al_inputs b) (accept_input s iter grants) (im, om, gptrs, aptrs).

Definition Allocate (a : ISLIP) : res ISLIP :=
  let s := is_sparse a in
  '(im, om, gptrs, aptrs) ← zfor 0 (is_iter a) (round s)
     (al_inmatch (s_base s), al_outmatch (s_base s), is_gptrs a, is_aptrs a);
  Ok (mkISLIP (SparseLaws.with_match im om s) (is_iter a) gptrs aptrs).

End ISLIPOps.

Definition ISLIPI : AllocatorI ISLIP :=
  mkAllocI (λ a, s_base (is_sparse a)) ISLIPOps.Clear ISLIPOps.AddRequest ISLIPOps.Allocate.

Module ISLIPInv.
Import ISLIPOps Rounds SparseLaws.

Lemma islip_scan_wrap all offset test fuel k r l : all = (k, r) :: l →
  scan all offset test (S fuel) [] false =
    (b ← test (r_port r); if b : bool then Ok (Some (r_port r)) else scan all offset test fuel l true).
Proof. by intros ->. Qed.

Section scan.
Context (all : imap sRequest) (offset : Z) (test : Z → res bool) (t : Z → bool).
Local Abbreviation ports l := ((λ x : Z * sRequest, r_port x.2) <$> l).
Context (Hsorted : StronglySorted (λ x y : Z * sRequest, r_port x.2 < r_port y.2) all).
Context (Htest : ∀ x, x ∈ ports all → test x = Ok (t x)).

Lemma skip_below_spec l : ∃ pre, l = pre ++ skip_below offset l ∧ Forall (λ x, r_port x.2 < offset) pre.
Proof.
  induction l as [|[k r] l (pre & E & Hpre)]; simpl; [by exists []|].
  destruct (Z.ltb_spec (r_port r) offset); [|by exists []].
  exists ((k, r) :: pre). simpl. split; [by rewrite <- E|by constructor].
Qed.

(** After the wrap: the rest [p] of the list is examined up to the pointer. *)
Lemma islip_scan_wrapped p : ∀ fuel, (∀ x, x ∈ p → x ∈ all) → StronglySorted (λ x y : Z * sRequest, r_port x.2 < r_port y.2) p →
  (length p ≤ fuel)%nat →
  returns (scan all offset test fuel p true) (λ r, match r with
    | Some x => x ∈ ports all ∧ t x = true
    | None => ∀ x, x ∈ p → r_port x.2 < offset → t (r_port x.2) = false end).
Proof.
  induction p as [|[k r] p IH]; intros fuel Hsub Hs Hf.
  { destruct fuel; simpl; apply returns_ok; by intros x ?%elem_of_nil. }
  destruct fuel as [|fuel]; simpl in Hf; [lia|]. simpl.
  assert (r_port r ∈ ports all) as Hin by (apply list_elem_of_fmap; exists (k, r); split; [done|]; apply Hsub; by left).
  apply StronglySorted_inv in Hs as [Hs Hlt]. destruct (Z.ltb_spec (r_port r) offset) as [Hlo|Hhi].
  - rewrite Htest by done. cbn [mbind res_bind]. destruct (t (r_port r)) eqn:Et; [by apply returns_ok|].
    eapply returns_mono; [apply IH; [intros x Hx; apply Hsub; by right|done|lia]|].
    intros [x|] Hr; [done|]. intros x [->|Hx]%elem_of_cons Ho; [done|by apply Hr].
  - apply returns_ok. intros x [->|Hx]%elem_of_cons Ho; simpl in *; [lia|].
    rewrite Forall_forall in Hlt. specialize (Hlt _ Hx). simpl in Hlt. lia.
Qed.

Lemma scan_first p : ∀ fuel, all ≠ [] → (∀ x, x ∈ p → x ∈ all) →
  (∀ x, x ∈ all → ¬ x ∈ p → r_port x.2 < offset ∨ t (r_port x.2) = false) →
  (length p + length all + 1 ≤ fuel)%nat →
  returns (scan all offset test fuel p false) (λ r, match r with
    | Some x => x ∈ ports all ∧ t x = true
    | None => ∀ x, x ∈ ports all → t x = false end).
Proof.
  induction p as [|[k r] p IH]; intros fuel Hne Hsub Hrest Hf; (destruct fuel as [|fuel]; [simpl in Hf; lia|]).
  - assert (∃ k r l, all = (k, r) :: l) as (k & r & l & El) by (destruct all as [|[k r] l]; [done|by exists k, r, l]).
    assert (r_port r ∈ ports all) as Hin by (rewrite El; by left).
    rewrite (islip_scan_wrap all offset test fuel k r l El). rewrite Htest by done. cbn [mbind res_bind].
    destruct (t (r_port r)) eqn:Et; [by apply returns_ok|].
    pose proof Hsorted as Hs. rewrite El in Hs. apply StronglySorted_inv in Hs as [Hs _].
    eapply returns_mono; [apply islip_scan_wrapped; [intros x Hx; rewrite El; by right|done|rewrite El in Hf; simpl in Hf; lia]|].
    intros [x|] Hr; [done|]. intros x Hx. apply list_elem_of_fmap in Hx as (y & -> & Hy).
    destruct (Hrest y Hy) as [Hlo|?]; [by intros ?%elem_of_nil| |done].
    rewrite El in Hy. apply elem_of_cons in Hy as [->|Hy]; [done|]. by apply Hr.
  - assert (r_port r ∈ ports all) as Hin by (apply list_elem_of_fmap; exists (k, r); split; [done|]; apply Hsub; by left).
    simpl. rewrite Htest by done. cbn [mbind res_bind]. destruct (t (r_port r)) eqn:Et; [by apply returns_ok|].
    apply IH; [done|intros x Hx; apply Hsub; by right| |simpl in Hf; lia].
    intros x Hx Hn. destruct (decide (x = (k, r))) as [->|Hd]; [by right|]. apply Hrest; [done|].
    rewrite elem_of_cons. tauto.
Qed.

Lemma rr_select_ok : all ≠ [] →
  returns (rr_select all offset test) (λ r, match r with
    | Some x => x ∈ ports all ∧ t x = true
    | None => ∀ x, x ∈ ports all → t x = false end).
Proof.
  intros Hne. unfold rr_select. destruct (skip_below_spec all) as (pre & E & Hpre).
  assert (length all = length pre + length (skip_below offset all))%nat as Hl by (rewrite E at 1; by rewrite length_app).
  apply scan_first; [done| | |lia].
  - intros x Hx. rewrite E. apply elem_of_app. by right.
  - intros x Hx Hn. left. rewrite E, elem_of_app in Hx. rewrite Forall_forall in Hpre. destruct Hx; [auto|done].
Qed.
End scan.

(** ** The phases *)

Abbreviation port_list l := ((λ x : Z * sRequest, r_port x.2) <$> l).

Lemma ports_of_keys (l : imap sRequest) :
  msorted l → (∀ k r, mfind k l = Some r → r_port r = k) →
  StronglySorted (λ x y : Z * sRequest, r_port x.2 < r_port y.2) l ∧
  ∀ k, k ∈ port_list l ↔ mfind k l ≠ None.
Proof.
  intros Hs Hp. assert (∀ x, x ∈ l → r_port x.2 = x.1) as Hx.
  { intros [k r] Hin. apply (Hp k r). by apply elem_mfind. }
  split.
  - clear Hp. induction Hs as [|x l Hs IH Hf]; [constructor|]. constructor.
    + apply IH. intros y Hy. apply Hx. by right.
    + apply Forall_forall. intros y Hy. rewrite Forall_forall in Hf. specialize (Hf y Hy).
      rewrite (Hx x), (Hx y) by (try (by left); by right). done.
  - intros k. rewrite list_elem_of_fmap. split.
    + intros ([k' r] & -> & Hin). rewrite (Hx _ Hin). simpl. apply elem_mfind in Hin as ->; done.
    + intros Hne. destruct (mfind k l) as [r|] eqn:E; [|done]. exists (k, r).
      assert ((k, r) ∈ l) as Hin by (by apply elem_mfind). split; [by rewrite (Hx _ Hin)|done].
Qed.

Section phases.
Context (n m : Z) (s : Sparse) (R : requests) (Hop : sparse_opened n m s R).
Context (Hn : 0 < n) (Hm : 0 < m).

Lemma in_ports i : 0 ≤ i < n →
  StronglySorted (λ x y : Z * sRequest, r_port x.2 < r_port y.2) ((s_in_req s)⟦i⟧) ∧
  ∀ o, o ∈ port_list ((s_in_req s)⟦i⟧) ↔ 0 ≤ o < m ∧ wants R i o.
Proof.
  intros Hi. pose proof Hop as [Hsp En Em _ _ _]. destruct Hsp as [_ _ _ _ His _ Hin _ _ _ _ _ _]. rewrite En, Em in *.
  destruct (ports_of_keys ((s_in_req s)⟦i⟧)) as [Hs Hk]; [auto| |].
  { intros o r Hr. by destruct (Hin i o r Hi Hr) as (_ & ? & _). }
  split; [done|]. intros o. rewrite Hk. fold (SparseInv.sreq s i o). split.
  - intros Hne. destruct (SparseInv.sreq s i o) as [r|] eqn:E; [|done]. destruct (Hin i o r Hi E) as (Ho & _).
    split; [done|]. apply (wants_sreq n m s R i o Hop Hi Ho). by rewrite E.
  - intros [Ho Hw]. by apply (wants_sreq n m s R i o Hop Hi Ho).
Qed.

Lemma out_ports o : 0 ≤ o < m →
  StronglySorted (λ x y : Z * sRequest, r_port x.2 < r_port y.2) ((s_out_req s)⟦o⟧) ∧
  ∀ i, i ∈ port_list ((s_out_req s)⟦o⟧) ↔ 0 ≤ i < n ∧ wants R i o.
Proof.
  intros Ho. pose proof Hop as [Hsp En Em _ _ _]. destruct Hsp as [_ _ _ _ _ Hos _ Hout Hmir _ _ _ _]. rewrite En, Em in *.
  destruct (ports_of_keys ((s_out_req s)⟦o⟧)) as [Hs Hk]; [auto| |].
  { intros i r Hr. rewrite Hmir in Hr by (try done; by apply (Hout i o r)).
    destruct (SparseInv.sreq s i o); [|done]. by injection Hr as <-. }
  split; [done|]. intros i. rewrite Hk. split.
  - intros Hne. destruct (mfind i ((s_out_req s)⟦o⟧)) as [r|] eqn:E; [|done]. pose proof (Hout i o r Ho E) as Hi.
    split; [done|]. apply (wants_sreq n m s R i o Hop Hi Ho). rewrite Hmir in E by done. by destruct (SparseInv.sreq s i o).
  - intros [Hi Hw]. apply (wants_sreq n m s R i o Hop Hi Ho) in Hw. rewrite Hmir by done. by destruct (SparseInv.sreq s i o).
Qed.

Lemma islip_grant_output_ok gptrs im om k grants :
  matching n m (wants R) im om → 0 ≤ k < m → zlen gptrs = m → offers n m R im om k grants →
  returns (grant_output s gptrs im om k grants) (offers n m R im om (k + 1)).
Proof.
  intros [L1 L2 _ _] Hk Hg Hof. pose proof Hop as [Hsp En Em _ _ _].
  destruct (out_ports k Hk) as [Hs Hp]. pose proof (SparseInv.so_out_len _ Hsp) as Hl. rewrite Em in Hl.
  unfold grant_output. do 2 rstep. destruct (SparseOps.is_empty ((s_out_req s)⟦k⟧)) eqn:Ee; simpl.
  { apply SparseInv.is_empty_spec in Ee. apply returns_ok, offers_none; try done. intros i Hi Hw.
    assert (i ∈ port_list ((s_out_req s)⟦k⟧)) as Hin by (by apply Hp). rewrite Ee in Hin. by apply elem_of_nil in Hin. }
  destruct (Z.eqb_spec (om⟦k⟧) (-1)) as [Eo|Eo]; simpl.
  2: { apply returns_ok, offers_none; try done. }
  rstep. eapply returns_bind; [apply (rr_select_ok _ _ _ (λ i, im⟦i⟧ =? -1)); [done| |]|].
  - intros x [Hx _]%Hp. by rewrite vget_ok by lia.
  - intros E. by rewrite E in Ee.
  - intros [i|] Hr.
    + destruct Hr as [[Hi Hw]%Hp Et]. rewrite vset_ok by (rewrite (of_len _ _ _ _ _ _ _ Hof); lia).
      apply returns_ok, offers_some; try done. by apply Z.eqb_eq.
    + apply returns_ok, offers_none; try done. intros i Hi Hw Ei _.
      pose proof (Hr i (proj2 (Hp i) (conj Hi Hw))) as Ef. simpl in Ef. rewrite Ei in Ef. done.
Qed.

Definition st_ok (st : list Z * list Z * list Z * list Z) : Prop := zlen st.1.2 = m ∧ zlen st.2 = n.

Lemma islip_accept_input_ok iter im0 om0 grants k st :
  offers n m R im0 om0 m grants → accepting n m R im0 om0 grants k st.1.1.1 st.1.1.2 → 0 ≤ k < n → st_ok st →
  returns (accept_input s iter grants k st) (λ st',
    accepting n m R im0 om0 grants (k + 1) st'.1.1.1 st'.1.1.2 ∧ st_ok st').
Proof.
  intros Hof Hac Hk [Hg Ha]. destruct st as [[[im om] gptrs] aptrs]. simpl in *.
  pose proof Hop as [Hsp En Em _ _ _]. pose proof (ac_match _ _ _ _ _ _ _ _ _ Hac) as [L1 L2 _ _].
  pose proof (of_len _ _ _ _ _ _ _ Hof) as L3. pose proof (SparseInv.so_in_len _ Hsp) as Hl. rewrite En in Hl.
  destruct (in_ports k Hk) as [Hs Hp]. unfold accept_input. rstep.
  assert (∀ o, 0 ≤ o < m → grants⟦o⟧ = k → o ∈ port_list ((s_in_req s)⟦k⟧)) as Hoff.
  { intros o Ho E. apply Hp. split; [done|]. destruct (of_ok _ _ _ _ _ _ _ Hof o Ho) as [?|(_ & Hw & _)]; [lia|].
    by rewrite E in Hw. }
  destruct (SparseOps.is_empty ((s_in_req s)⟦k⟧)) eqn:Ee.
  { apply SparseInv.is_empty_spec in Ee. apply returns_ok. split; [|done]. apply accepting_none; try done.
    intros o Ho E. specialize (Hoff o Ho E). rewrite Ee in Hoff. by apply elem_of_nil in Hoff. }
  rstep. eapply returns_bind; [apply (rr_select_ok _ _ _ (λ o, grants⟦o⟧ =? k)); [done| |]|].
  - intros x [Hx _]%Hp. by rewrite vget_ok by lia.
  - intros E. by rewrite E in Ee.
  - intros [o|] Hr.
    + destruct Hr as [[Ho Hw]%Hp Et%Z.eqb_eq]. do 2 rstep.
      assert (accepting n m R im0 om0 grants (k + 1) (im⟦k := o⟧) (om⟦o := k⟧)) as Hac' by (by apply accepting_some).
      destruct (iter =? 0); [do 2 rstep|]; apply returns_ok; (split; [done|]); [split; simpl; lens|done].
    + apply returns_ok. split; [|done]. apply accepting_none; try done. intros o Ho E.
      pose proof (Hr o (Hoff o Ho E)) as Ef. simpl in Ef. rewrite E, Z.eqb_refl in Ef. done.
Qed.

Lemma islip_round_ok iter j st :
  matching n m (wants R) st.1.1.1 st.1.1.2 → after_rounds n m j R st.1.1.1 st.1.1.2 → st_ok st →
  returns (round s iter st) (λ st', matching n m (wants R) st'.1.1.1 st'.1.1.2 ∧
    after_rounds n m (j + 1) R st'.1.1.1 st'.1.1.2 ∧ st_ok st').
Proof.
  destruct st as [[[im om] gptrs] aptrs]. intros Hmt Hj Hst. pose proof Hst as [Hg Ha]. simpl in *. unfold round.
  rewrite (sp_in _ _ _ _ Hop), (sp_out _ _ _ _ Hop). eapply returns_bind.
  - apply (returns_for (offers n m R im om)); [lia|apply offers_start; lia|].
    intros k gr Hk Hof. by apply islip_grant_output_ok.
  - intros grants Hof. eapply returns_mono.
    + apply (returns_for (λ k st, accepting n m R im om grants k st.1.1.1 st.1.1.2 ∧ st_ok st)); [lia| |].
      { split; [by apply accepting_start|done]. }
      intros k st' Hk [Hac Hst']. by apply islip_accept_input_ok.
    + intros st' [Hac Hst']. split_and!; [by apply Hac| |done]. by apply (round_progress n m R im om grants).
Qed.
End phases.

Definition islip_opened (n m iters : Z) (a : ISLIP) (R : requests) : Prop :=
  sparse_opened n m (is_sparse a) R ∧ is_iter a = iters ∧ zlen (is_gptrs a) = m ∧ zlen (is_aptrs a) = n.

Definition ISLIPLaws (n m iters : Z) (Hn : 0 < n) (Hm : 0 < m) (Hi : 0 ≤ iters) :
  AllocatorLaws ISLIPI n m (after_rounds n m iters).
Proof.
  refine {| opened := islip_opened n m iters |}.
  - intros a R R' E [Hd ?]. split; [|done]. by apply (sparse_ext n m _ R).
  - intros a R i o label ip op (Hd & Hit & Hg) Hi' Ho Hl HN. simpl. unfold AddRequest.
    destruct (opened_AddRequest n m _ R i o label ip op Hd Hi' Ho Hl HN) as (d & -> & Hd').
    by apply returns_ok.
  - intros a R (Hd & Hit & Hg & Ha). simpl. unfold Allocate. rewrite Hit. eapply returns_bind.
    + apply (returns_for (λ k st, matching n m (wants R) st.1.1.1 st.1.1.2 ∧
        after_rounds n m k R st.1.1.1 st.1.1.2 ∧ st_ok n m st)); [lia| |].
      { simpl. split_and!; [by apply (sparse_free_matching n m _ R)| |by split]. right.
        apply zsumf_nonneg; [lia|]. intros i _. by destruct (_ =? -1). }
      intros k st _ (Hmt & Hk & Hst). by apply islip_round_ok.
    + intros [[[im om] gptrs] aptrs] (Hmt & Hk & [Hg' Ha']). apply returns_ok. simpl in *. split_and!; try done.
      split_and!; try done. by apply (sparse_close n m _ R).
Defined.

(** C32. iSLIP with [iters] rounds: any sequence of cycles with legal requests
    runs to the end, and each cycle grants a matching of its requests that is
    maximal or has at least [iters] grants. *)
Theorem islip_cycles n m iters rss :
  0 < n → 0 < m → 0 ≤ iters → Forall (areqs_ok n m) rss →
  returns (alloc_cycles ISLIPI (New n m iters) rss) (λ r,
    Forall2 (answers n m (after_rounds n m iters)) rss r.2).
Proof.
  intros Hn Hm Hi Hok. apply (alloc_cycles_ok _ n m _ (ISLIPLaws n m iters Hn Hm Hi)); [|done].
  split_and!; try (apply zlen_replicate; lia); [|done].
  apply (sparse_close_idle n m _ no_requests), sparse_New_opened; lia.
Qed.

Lemma islip_cycles_witness :
  returns (alloc_cycles ISLIPI (New 3 2 2) [[(0, 1, 0, 0, 0); (1, 1, 3, 2, 0); (1, 0, 2, 2, 1)]; []])
    (λ r, Forall2 (answers 3 2 (after_rounds 3 2 2)) [[(0, 1, 0, 0, 0); (1, 1, 3, 2, 0); (1, 0, 2, 2, 1)]; []] r.2).
Proof. apply (islip_cycles 3 2 2); [lia|lia|lia|]. by apply areqs_okb_ok. Defined.
End ISLIPInv.
