(* ===== verification/MaxSize.v ===== *)
(** * The maximum size allocator

    [MaxSizeMatch] (allocators/maxsize.cpp): breadth-first search for augmenting
    paths.  With no more outputs than inputs every allocation ends with a
    maximum matching; with more outputs than inputs the search can index its
    [_from] vector out of range. *)

From S2P Require Import Prelude StdMap Allocator AllocLaws AllocStore Rounds.

Record MaxSize : Set := mkMS { ms_dense : Dense; ms_from : list Z; ms_prio : Z }.

Module MaxSizeOps.

Definition New (inputs outputs : Z) : MaxSize :=
  mkMS (DenseOps.New inputs outputs) (replicate (Z.to_nat outputs) 0) 0.

Definition Clear (a : MaxSize) : MaxSize := mkMS (DenseOps.Clear (ms_dense a)) (ms_from a) (ms_prio a).

Definition AddRequest (a : MaxSize) (in_ out label in_pri out_pri : Z) : res MaxSize :=
  d ← DenseOps.AddRequest (ms_dense a) in_ out label in_pri out_pri;
  Ok (mkMS d (ms_from a) (ms_prio a)).

Section search.
Context (d : Dense) (im om : list Z).
Local Abbreviation inputs := (al_inputs (d_base d)).
Local Abbreviation outputs := (al_outputs (d_base d)).

(** The stacks [_s] and [_ns] are arrays of [inputs] elements; a stack is the
    list of the elements pushed. *)
Definition push (s : list Z) (x : Z) : res (list Z) :=
  if zlen s <? inputs then Ok (s ++ [x]) else Fail OutOfRange.

(** All unassigned inputs, starting at [_prio]. *)
Definition unassigned (prio : Z) : res (list Z) :=
  zfor 0 inputs (λ i s,
    let j := (i + prio) `rem` inputs in
    x ← vget im j;
    if x =? -1 then push s j else Ok s) [].

(** The state of the search: the next stack, [_from], and [j]; [Break] is the
    jump to [found_augmenting]. *)
Definition search_edge (i j : Z) (st : list Z * list Z * Z) : res (ctl (list Z * list Z * Z)) :=
  let '(ns, from, jf) := st in
  r ← DenseOps.at_ d i j;
  if negb (r_label r =? -1) then
    x ← vget im i;
    if negb (x =? j) then
      y ← vget from j;
      if y =? -1 then
        from ← vset from j i;
        z ← vget om j;
        if z =? -1 then Ok (Break (ns, from, j))
        else ns ← push ns z; Ok (Next (ns, from, jf))
      else Ok (Next st)
    else Ok (Next st)
  else Ok (Next st).

Definition search_level (s : list Z) (st : list Z * list Z * Z) : res (ctl (list Z * list Z * Z)) :=
  zforb 0 (zlen s) (λ e st, i ← vget s e; zforb 0 outputs (search_edge i) st) st.

(** The levels of the search; [Break] with the output an augmenting path ends at. *)
Definition search (s : list Z) : res (ctl (list Z * list Z * Z)) :=
  zforb 0 inputs (λ _ st,
    let '(s, from, jf) := st in
    c ← search_level s ([], from, jf);
    Ok (match c with Next st => Next st | Break (_, from, j) => Break (s, from, j) end))
    (s, replicate (Z.to_nat inputs) (-1), -1).

(** Flip the edges of the path that ends with [(i, j)]. *)
Fixpoint flip_path (fuel : nat) (from im om : list Z) (i j : Z) : res (list Z * list Z) :=
  x ← vget im i;
  if x =? -1 then im ← vset im i j; Ok (im, om)
  else match fuel with
  | O => Fail OutOfFuel
  | S fuel =>
      let jn := x in
      im ← vset im i j;
      let j := jn in
      i ← vget from j;
      om ← vset om j i;
      flip_path fuel from im om i j
  end.

Definition ShortestAugmenting (prio : Z) : res (bool * list Z * list Z * list Z) :=
  s ← unassigned prio;
  c ← search s;
  match c with
  | Next (_, from, _) => Ok (false, im, om, from)
  | Break (_, from, j) =>
      i ← vget from j;
      om ← vset om j i;
      '(im, om) ← flip_path (Z.to_nat inputs) from im om i j;
      Ok (true, im, om, from)
  end.
End search.

(** [while( _ShortestAugmenting( ) );]. *)
Fixpoint augment (fuel : nat) (d : Dense) (prio : Z) (im om from : list Z) : res (list Z * list Z * list Z) :=
  match fuel with
  | O => Fail OutOfFuel
  | S fuel =>
      '(more, im, om, from) ← ShortestAugmenting d im om prio;
      if more : bool then augment fuel d prio im om from else Ok (im, om, from)
  end.

Definition Allocate (a : MaxSize) : res MaxSize :=
  let d := ms_dense a in
  let b := d_base d in
  '(im, om, from) ← augment (Z.to_nat (al_inputs b) + 1) d (ms_prio a) (al_inmatch b) (al_outmatch b) (ms_from a);
  Ok (mkMS (mkDense (AllocOps.set_match im om b) (d_request d)) from ((ms_prio a + 1) `rem` al_inputs b)).

End MaxSizeOps.

Definition MaxSizeI : AllocatorI MaxSize :=
  mkAllocI (λ a, d_base (ms_dense a)) MaxSizeOps.Clear MaxSizeOps.AddRequest MaxSizeOps.Allocate.

(** ** Counting *)

Lemma NoDup_range (l : list Z) n : 0 ≤ n → NoDup l → (∀ x, x ∈ l → 0 ≤ x < n) → zlen l ≤ n.
Proof.
  intros Hn Hnd Hr. assert (l ⊆+ seqZ 0 n) as Hsub.
  { apply NoDup_submseteq; [done|]. intros x Hx. apply elem_of_seqZ. specialize (Hr x Hx). lia. }
  apply submseteq_length in Hsub. rewrite length_seqZ in Hsub. unfold zlen. lia.
Qed.

Module MaxSizeInv.
Import MaxSizeOps Rounds.

(** No matching of the requests has more grants. *)
Definition maximum (n m : Z) : grants_prop := λ R im om,
  ∀ im' om', matching n m (wants R) im' om' → matched n im' ≤ matched n im.

Lemma matched_length n im : 0 ≤ n → matched n im = zlen (filter (λ i, im⟦i⟧ ≠ -1) (seqZ 0 n)).
Proof.
  intros Hn. unfold matched, zsumf. generalize (seqZ 0 n). intros l. induction l as [|i l IH]; [done|].
  rewrite fmap_cons. cbn [zsum]. rewrite IH, filter_cons. unfold zlen.
  destruct (Z.eqb_spec (im⟦i⟧) (-1)); [rewrite decide_False by (by intros [])|rewrite decide_True by done]; simpl; lia.
Qed.

Lemma matched_le n im : 0 ≤ n → matched n im ≤ n.
Proof.
  intros Hn. unfold matched. transitivity (zsumf (λ _, 1) n); [|rewrite zsumf_const; lia].
  apply zsumf_le; [done|]. intros i _. by destruct (_ =? -1).
Qed.

(** König: the outputs [ord] and the inputs that are neither unmatched nor
    matched into [ord] cover all requests, so no matching is larger. *)
Lemma cover_maximum n m R im om ord :
  0 ≤ n → matching n m (wants R) im om → NoDup ord → (∀ j, j ∈ ord → 0 ≤ j < m ∧ om⟦j⟧ ≠ -1) →
  (∀ i j, 0 ≤ i < n → 0 ≤ j < m → im⟦i⟧ = -1 ∨ im⟦i⟧ ∈ ord → wants R i j → j ∈ ord) →
  maximum n m R im om.
Proof.
  intros Hn Hmt Hnd Hord Hcov im' om' Hmt'. pose proof Hmt as [_ _ M3 M4]. pose proof Hmt' as [_ _ M3' M4'].
  rewrite !matched_length by done.
  set (f i := if decide (im⟦i⟧ = -1 ∨ im⟦i⟧ ∈ ord) then om⟦im'⟦i⟧⟧ else i).
  set (l' := filter (λ i, im'⟦i⟧ ≠ -1) (seqZ 0 n)).
  assert (∀ i, i ∈ l' → 0 ≤ i < n ∧ 0 ≤ im'⟦i⟧ < m ∧ wants R i (im'⟦i⟧) ∧ om'⟦im'⟦i⟧⟧ = i) as Hl'.
  { intros i [Hne Hi%elem_of_seqZ]%list_elem_of_filter. assert (0 ≤ i < n) as Hi' by lia.
    split; [done|]. by destruct (M3' i Hi'). }
  assert (∀ i, i ∈ l' → im⟦i⟧ = -1 ∨ im⟦i⟧ ∈ ord → im'⟦i⟧ ∈ ord ∧ 0 ≤ om⟦im'⟦i⟧⟧ < n ∧ im⟦om⟦im'⟦i⟧⟧⟧ = im'⟦i⟧) as Hre.
  { intros i (Hi & Ho & Hw & _)%Hl' Hr. pose proof (Hcov i _ Hi Ho Hr Hw) as Hin. split; [done|].
    destruct (Hord _ Hin) as [_ Hne]. by destruct (M4 _ Ho) as [?|?]. }
  transitivity (zlen (f <$> l')); [by rewrite zlen_fmap|]. unfold zlen. apply Nat2Z.inj_le, submseteq_length, NoDup_submseteq.
  - apply NoDup_fmap_2_strong; [|apply NoDup_filter, NoDup_seqZ]. intros x y Hx Hy E. unfold f in E.
    pose proof (Hl' x Hx) as (_ & _ & _ & Ex). pose proof (Hl' y Hy) as (_ & _ & _ & Ey).
    destruct (decide (im⟦x⟧ = -1 ∨ im⟦x⟧ ∈ ord)) as [Hrx|Hrx], (decide (im⟦y⟧ = -1 ∨ im⟦y⟧ ∈ ord)) as [Hry|Hry]; try done.
    + destruct (Hre x Hx Hrx) as (_ & _ & Ex'). destruct (Hre y Hy Hry) as (_ & _ & Ey'). congruence.
    + destruct (Hre x Hx Hrx) as (Hin & _ & Ex'). rewrite E in Ex'. destruct Hry. right. by rewrite Ex'.
    + destruct (Hre y Hy Hry) as (Hin & _ & Ey'). rewrite <- E in Ey'. destruct Hrx. right. by rewrite Ey'.
  - intros y (x & -> & Hx)%list_elem_of_fmap. apply list_elem_of_filter. unfold f. case_decide as Hr.
    + destruct (Hre x Hx Hr) as (Hin & Ho & Ex). rewrite Ex. pose proof (Hord _ Hin) as [? _]. split; [lia|].
      apply elem_of_seqZ. lia.
    + split; [tauto|]. apply elem_of_seqZ. pose proof (Hl' x Hx) as [? _]. lia.
Qed.

(** ** Augmenting *)

Lemma matching_ungrant n m R im om i o :
  matching n m R im om → 0 ≤ i < n → im⟦i⟧ = o → o ≠ -1 → matching n m R (im⟦i := -1⟧) (om⟦o := -1⟧).
Proof.
  intros [L1 L2 H3 H4] Hi E Hne. destruct (H3 i Hi) as [?|(Ho & _ & Eo)]; [congruence|]. rewrite E in *.
  split; try lens.
  - intros k Hk. rewrite znth_zupd by lia. case_decide; [by left|].
    destruct (H3 k Hk) as [?|(Hok & Hr & Ek)]; [by left|right]. split; [done|]. split; [done|].
    rewrite znth_zupd by lia. case_decide as Eq; [|done]. rewrite <- Eq in Ek. congruence.
  - intros k Hk. rewrite znth_zupd by lia. case_decide; [by left|].
    destruct (H4 k Hk) as [?|[Hik Ek]]; [by left|right]. split; [done|].
    rewrite znth_zupd by lia. case_decide as Eq; [|done]. rewrite <- Eq in Ek. congruence.
Qed.

(** Input [i] moves from its output [jn] to [j]. *)
Lemma matching_move n m (R : Z → Z → Prop) im om i j jn :
  matching n m R im (om⟦j := -1⟧) → zlen om = m → om⟦j⟧ = i → 0 ≤ i < n → 0 ≤ j < m → R i j →
  im⟦i⟧ = jn → jn ≠ -1 →
  0 ≤ jn < m ∧ matching n m R (im⟦i := j⟧) (om⟦jn := -1⟧).
Proof.
  intros Hmt Hl Eo Hi Hj HR Ei Hne. pose proof Hmt as [L1 _ H3 _].
  destruct (H3 i Hi) as [?|(Hjn & _ & Ejn)]; [congruence|]. rewrite Ei in *. split; [done|].
  assert (jn ≠ j) as Hd by (intros ->; rewrite znth_zupd_eq in Ejn by lia; lia).
  pose proof (matching_ungrant n m R im _ i jn Hmt Hi Ei Hne) as Hu.
  assert (im⟦i := j⟧ = (im⟦i := -1⟧)⟦i := j⟧) as -> by (symmetry; apply list_insert_insert_eq).
  assert (om⟦jn := -1⟧ = (om⟦j := -1⟧)⟦jn := -1⟧⟦j := i⟧) as ->.
  { apply zlist_eq; [by rewrite !zlen_zupd|]. intros k Hk. rewrite zlen_zupd in Hk.
    rewrite !znth_zupd by lens. repeat case_decide; congruence. }
  apply matching_grant; try done; rewrite ?znth_zupd_eq, ?(znth_zupd_ne _ jn j), ?znth_zupd_eq by lens; done.
Qed.

(** The last edge of a path. *)
Lemma grant_last n m (R : Z → Z → Prop) im om i j :
  matching n m R im (om⟦j := -1⟧) → zlen om = m → om⟦j⟧ = i → 0 ≤ i < n → 0 ≤ j < m → R i j → im⟦i⟧ = -1 →
  matching n m R (im⟦i := j⟧) om ∧ matched n (im⟦i := j⟧) = matched n im + 1.
Proof.
  intros Hmt Hl Eo Hi Hj HR Ei. pose proof Hmt as [L1 _ _ _]. split.
  - assert (om = (om⟦j := -1⟧)⟦j := i⟧) as E.
    { apply zlist_eq; [by rewrite !zlen_zupd|]. intros k Hk. rewrite !znth_zupd by lens. repeat case_decide; congruence. }
    rewrite E. apply matching_grant; try done. by rewrite znth_zupd_eq by lens.
  - unfold matched. etrans; [apply (zsumf_change (λ i, if im⟦i⟧ =? -1 then 0 else 1) _ _ i Hi)|].
    + intros w Hw Hne. cbv beta. by rewrite znth_zupd_ne by lia.
    + cbv beta. rewrite znth_zupd_eq by lia. rewrite Ei. destruct (Z.eqb_spec j (-1)); simpl; lia.
Qed.

Section tree.
Context (n m : Z) (R : requests) (im0 : list Z) (Hn : 0 < n) (Hmn : 0 < m ≤ n).

(** The outputs reached so far, in the order they were reached: each was reached
    from an input that is unmatched or whose own output was reached before. *)
Record tree (from ord : list Z) : Prop := {
  tr_len : zlen from = n;
  tr_in : ∀ j, 0 ≤ j < m → (from⟦j⟧ ≠ -1 ↔ j ∈ ord);
  tr_nodup : NoDup ord;
  tr_range : ∀ j, j ∈ ord → 0 ≤ j < m;
  tr_from : ∀ pre j post, ord = pre ++ j :: post →
    0 ≤ from⟦j⟧ < n ∧ wants R (from⟦j⟧) j ∧ (im0⟦from⟦j⟧⟧ = -1 ∨ im0⟦from⟦j⟧⟧ ∈ pre)
}.

Lemma tree_nil : tree (replicate (Z.to_nat n) (-1)) [].
Proof.
  split.
  - apply zlen_replicate; lia.
  - intros j Hj. rewrite znth_replicate by lia. split; [done|by intros ?%elem_of_nil].
  - constructor.
  - by intros j ?%elem_of_nil.
  - intros pre j post E. by destruct pre.
Qed.

Lemma tree_snoc from ord i j :
  tree from ord → 0 ≤ j < m → j ∉ ord → 0 ≤ i < n → wants R i j → im0⟦i⟧ = -1 ∨ im0⟦i⟧ ∈ ord →
  tree (from⟦j := i⟧) (ord ++ [j]).
Proof.
  intros [H1 H2 H3 H4 H5] Hj Hnj Hi Hw Hr. split; [lens| | | |].
  - intros k Hk. rewrite znth_zupd, elem_of_app, list_elem_of_singleton by lia. case_decide as E.
    + subst k. split; [by right|]. intros _. lia.
    + rewrite H2 by done. split; [by left|]. by intros [?|?].
  - apply NoDup_app. split_and!; [done| |apply NoDup_singleton]. by intros x Hx ->%list_elem_of_singleton.
  - intros k [?| ->%list_elem_of_singleton]%elem_of_app; auto.
  - intros pre k post E. destruct post as [|x post _] using rev_ind.
    + apply app_inj_tail in E as [-> ->]. by rewrite znth_zupd_eq by lia.
    + rewrite app_comm_cons, app_assoc in E. apply app_inj_tail in E as [E ->].
      rewrite znth_zupd_ne; [by apply (H5 pre k post)|lia| |].
      * apply H4. rewrite E. apply elem_of_app. right. by left.
      * intros ->. apply Hnj. rewrite E. apply elem_of_app. right. by left.
Qed.

(** A vertex of the path still has its original output. *)
Lemma path_vertex from ord pre j post im :
  tree from ord → ord = pre ++ j :: post → (∀ i, 0 ≤ i < n → im⟦i⟧ = im0⟦i⟧ ∨ im0⟦i⟧ ∈ j :: post) →
  im⟦from⟦j⟧⟧ = im0⟦from⟦j⟧⟧ ∧ (im⟦from⟦j⟧⟧ = -1 ∨ im⟦from⟦j⟧⟧ ∈ pre).
Proof.
  intros [H1 H2 H3 H4 H5] E Hkeep. destruct (H5 pre j post E) as (Hi & Hw & Hr).
  destruct (Hkeep _ Hi) as [Ei|Hin]; [by rewrite Ei|]. exfalso. destruct Hr as [Hr|Hr].
  - rewrite Hr in Hin. assert (-1 ∈ ord) as Hbad by (rewrite E; apply elem_of_app; by right). apply H4 in Hbad. lia.
  - rewrite E in H3. apply NoDup_app in H3 as (_ & Hdis & _). by destruct (Hdis _ Hr).
Qed.

Lemma flip_path_ok from ord : tree from ord → ∀ fuel pre j post im om,
  ord = pre ++ j :: post → matching n m (wants R) im (om⟦j := -1⟧) → zlen om = m → om⟦j⟧ = from⟦j⟧ →
  (∀ i, 0 ≤ i < n → im⟦i⟧ = im0⟦i⟧ ∨ im0⟦i⟧ ∈ j :: post) → (length pre ≤ fuel)%nat →
  returns (flip_path fuel from im om (from⟦j⟧) j) (λ r,
    matching n m (wants R) r.1 r.2 ∧ matched n r.1 = matched n im + 1).
Proof.
  intros Ht fuel. induction fuel as [|fuel IH]; intros pre j post im om E Hmt Hlo Eo Hkeep Hf.
  all: destruct (path_vertex from ord pre j post im Ht E Hkeep) as [E0 Hr].
  all: pose proof Ht as [H1 H2 H3 H4 H5]; destruct (H5 pre j post E) as (Hi & Hw & _); pose proof Hmt as [L1 _ _ _].
  all: assert (0 ≤ j < m) as Hj by (apply H4; rewrite E; apply elem_of_app; right; by left).
  all: simpl; rstep; destruct (Z.eqb_spec (im⟦from⟦j⟧⟧) (-1)) as [Ei|Ei];
    [rstep; apply returns_ok; by apply grant_last|].
  { destruct pre; [|simpl in Hf; lia]. destruct Hr as [?|Hr%elem_of_nil]; done. }
  destruct Hr as [?|Hin]; [done|]. set (jn := im⟦from⟦j⟧⟧) in *.
  destruct (matching_move n m (wants R) im om _ j jn Hmt Hlo Eo Hi Hj Hw eq_refl Ei) as [Hjn Hmt'].
  apply list_elem_of_split in Hin as (pre1 & pre2 & ->).
  do 3 rstep. eapply returns_mono.
  - apply (IH pre1 jn (pre2 ++ j :: post)).
    + by rewrite E, <- app_assoc.
    + unfold zupd. rewrite list_insert_insert_eq. exact Hmt'.
    + lens.
    + by rewrite znth_zupd_eq by lia.
    + intros i Hi'. rewrite znth_zupd by lia. case_decide as Eq.
      * subst i. right. rewrite <- E0. by left.
      * destruct (Hkeep i Hi') as [?|Hin']; [by left|right]. right. apply elem_of_app. by right.
    + rewrite length_app in Hf. simpl in Hf. lia.
  - intros [im' om'] [Hm1 Hm2]. split; [done|]. rewrite Hm2. f_equal. apply zsumf_ext. intros i Hi'.
    rewrite znth_zupd by lia. case_decide as Eq; [|done]. subst i. fold jn.
    destruct (Z.eqb_spec j (-1)), (Z.eqb_spec jn (-1)); lia.
Qed.
End tree.

(** ** The search *)

Section search.
Context (n m : Z) (d : Dense) (R : requests) (im om : list Z).
Context (Hd : DenseInv.dense_opened n m d R) (Hmt : matching n m (wants R) im om).
Context (Hn : 0 < n) (Hmn : 0 < m ≤ n).
Local Abbreviation tree := (tree n m R im).

Definition reached (ord : list Z) (i : Z) : Prop := im⟦i⟧ = -1 ∨ im⟦i⟧ ∈ ord.

(** No free output reached yet; the inputs in [X] are expanded, those in [todo]
    and [ns] are reached and still to be expanded. *)
Record bfs (X : Z → Prop) (todo ns from ord : list Z) : Prop := {
  bf_tree : tree from ord;
  bf_matched : ∀ j, j ∈ ord → om⟦j⟧ ≠ -1;
  bf_expanded : ∀ i j, X i → 0 ≤ j < m → wants R i j → im⟦i⟧ = j ∨ j ∈ ord;
  bf_reached : ∀ i, i ∈ todo ++ ns → 0 ≤ i < n ∧ reached ord i;
  bf_pending : ∀ i, 0 ≤ i < n → reached ord i → X i ∨ i ∈ todo ++ ns
}.

(** The search ends at the free output [j]. *)
Definition found (from : list Z) (j : Z) : Prop := ∃ ord, tree from (ord ++ [j]) ∧ om⟦j⟧ = -1.

Lemma bfs_push X todo ns from ord i j :
  bfs X todo ns from ord → 0 ≤ i < n → reached ord i → 0 ≤ j < m → wants R i j → j ∉ ord → om⟦j⟧ ≠ -1 →
  bfs X todo (ns ++ [om⟦j⟧]) (from⟦j := i⟧) (ord ++ [j]).
Proof.
  intros [B1 B2 B3 B4 B5] Hi Hr Hj Hw Hnj Hne.
  assert (∀ i', reached ord i' → reached (ord ++ [j]) i') as Hmono.
  { intros i' [?|?]; [by left|right]. apply elem_of_app. by left. }
  split.
  - by apply tree_snoc.
  - intros k [?| ->%list_elem_of_singleton]%elem_of_app; auto.
  - intros i' k Hx Hk Hw'. destruct (B3 i' k Hx Hk Hw'); [by left|right]. apply elem_of_app. by left.
  - intros i'. rewrite app_assoc, elem_of_app, list_elem_of_singleton. intros [Hin| ->].
    + destruct (B4 i' Hin). auto.
    + destruct (mt_out _ _ _ _ _ Hmt j Hj) as [?|[Ho E]]; [done|]. split; [done|]. right. rewrite E.
      apply elem_of_app. right. by left.
  - intros i' Hi' Hr'. rewrite app_assoc, elem_of_app, list_elem_of_singleton.
    destruct (decide (im⟦i'⟧ = j)) as [E|E].
    + destruct (mt_in _ _ _ _ _ Hmt i' Hi') as [?|(_ & _ & Eo)]; [lia|]. rewrite E in Eo. auto.
    + destruct (B5 i' Hi'); [|by left|auto]. destruct Hr' as [?|[?|?%list_elem_of_singleton]%elem_of_app]; [by left|by right|done].
Qed.

Lemma ord_length from ord : tree from ord → zlen ord ≤ m.
Proof. intros [_ _ H3 H4 _]. apply NoDup_range; [lia|done|done]. Qed.

(** Edge [(i, j)]; [c] outputs had been reached when the level started. *)
Lemma search_edge_ok X todo c i j ns from ord jf :
  bfs X (i :: todo) ns from ord → zlen ns ≤ zlen ord - c → 0 ≤ c → 0 ≤ j < m →
  returns (search_edge d im om i j (ns, from, jf)) (λ r, match r with
    | Next st => ∃ ns' from' ord', st = (ns', from', jf) ∧ bfs X (i :: todo) ns' from' ord' ∧
        zlen ns' ≤ zlen ord' - c ∧ (∀ k, k ∈ ord → k ∈ ord') ∧ (wants R i j → im⟦i⟧ = j ∨ j ∈ ord')
    | Break st => found st.1.2 st.2
    end).
Proof.
  intros Hb Hc Hc0 Hj. pose proof Hb as [B1 B2 B3 B4 B5]. destruct (B4 i ltac:(by left)) as [Hi Hr].
  pose proof Hmt as [L1 L2 _ _]. pose proof (tr_len _ _ _ _ _ _ B1) as L3. unfold search_edge.
  rewrite (DenseInv.at_ok n m) by (done || apply Hd). cbn [mbind res_bind].
  pose proof (DenseInv.wants_cell n m d R i j Hd Hi Hj) as Hw.
  destruct (r_label (DenseInv.cell d i j) =? -1); simpl.
  { apply returns_ok. exists ns, from, ord. split_and!; try done. intros Hw'. by apply Hw in Hw'. }
  assert (wants R i j) as Hw' by (by apply Hw). rstep. destruct (Z.eqb_spec (im⟦i⟧) j) as [Ej|Ej]; simpl.
  { apply returns_ok. exists ns, from, ord. split_and!; try done. by left. }
  rstep. destruct (Z.eqb_spec (from⟦j⟧) (-1)) as [Ef|Ef].
  2: { apply returns_ok. exists ns, from, ord. split_and!; try done. right. by apply (tr_in _ _ _ _ _ _ B1). }
  assert (j ∉ ord) as Hnj by (intros Hin; by apply (tr_in _ _ _ _ _ _ B1) in Hin).
  do 2 rstep. destruct (Z.eqb_spec (om⟦j⟧) (-1)) as [Eo|Eo].
  { apply returns_ok. exists ord. split; [|done]. by apply tree_snoc. }
  pose proof (bfs_push X (i :: todo) ns from ord i j Hb Hi Hr Hj Hw' Hnj Eo) as Hb'.
  pose proof (ord_length _ _ (bf_tree _ _ _ _ _ Hb')) as Hl.
  assert (zlen (ord ++ [j]) = zlen ord + 1) as El by (unfold zlen; rewrite length_app; simpl; lia).
  unfold push. rewrite (DenseInv.ds_in _ _ _ (DenseInv.do_shape _ _ _ _ Hd)).
  destruct (Z.ltb_spec (zlen ns) n); [|lia]. cbn [mbind res_bind]. apply returns_ok.
  exists (ns ++ [om⟦j⟧]), (from⟦j := i⟧), (ord ++ [j]). split_and!; try done.
  - unfold zlen in *. rewrite !length_app. simpl. lia.
  - intros k Hk. apply elem_of_app. by left.
  - right. apply elem_of_app. right. by left.
Qed.

Lemma search_node_ok X todo c i ns from ord jf :
  bfs X (i :: todo) ns from ord → zlen ns ≤ zlen ord - c → 0 ≤ c →
  returns (zforb 0 m (search_edge d im om i) (ns, from, jf)) (λ r, match r with
    | Next st => ∃ ns' from' ord', st = (ns', from', jf) ∧ bfs (λ i', i' = i ∨ X i') todo ns' from' ord' ∧
        zlen ns' ≤ zlen ord' - c
    | Break st => found st.1.2 st.2
    end).
Proof.
  intros Hb Hc Hc0. eapply returns_mono.
  - apply (returns_forb (λ j st, ∃ ns' from' ord', st = (ns', from', jf) ∧ bfs X (i :: todo) ns' from' ord' ∧
        zlen ns' ≤ zlen ord' - c ∧ ∀ k, 0 ≤ k < j → wants R i k → im⟦i⟧ = k ∨ k ∈ ord')
      (λ st, found st.1.2 st.2)); [lia| |].
    { exists ns, from, ord. split_and!; try done. lia. }
    intros j st Hj (ns' & from' & ord' & -> & Hb' & Hc' & Hk).
    eapply returns_mono; [by apply (search_edge_ok X todo c i j ns' from' ord' jf)|].
    intros [st|st]; [|done]. intros (ns2 & from2 & ord2 & -> & Hb2 & Hc2 & Hsub & Hj2).
    exists ns2, from2, ord2. split_and!; try done. intros k Hk' Hw. destruct (decide (k = j)) as [->|]; [auto|].
    destruct (Hk k ltac:(lia) Hw); auto.
  - intros [st|st]; [|done]. intros (ns' & from' & ord' & -> & [B1 B2 B3 B4 B5] & Hc' & Hk).
    exists ns', from', ord'. split_and!; try done. split; try done.
    + intros i' j [->|Hx] Hj Hw; [by apply Hk|by apply B3].
    + intros i' Hi'. apply B4. by right.
    + intros i' Hi' Hr. destruct (B5 i' Hi' Hr) as [?|[->|?]%elem_of_cons]; auto.
Qed.

Lemma search_level_ok X s from ord jf :
  bfs X s [] from ord →
  returns (search_level d im om s ([], from, jf)) (λ r, match r with
    | Next st => ∃ X' ns' from' ord', st = (ns', from', jf) ∧ bfs X' [] ns' from' ord' ∧
        zlen ns' ≤ zlen ord' - zlen ord ∧ (s = [] → ns' = [])
    | Break st => found st.1.2 st.2
    end).
Proof.
  intros Hb. unfold search_level. rewrite (DenseInv.ds_out _ _ _ (DenseInv.do_shape _ _ _ _ Hd)).
  pose proof (zlen_nonneg s) as Hs. pose proof (zlen_nonneg ord) as Ho. eapply returns_mono.
  - apply (returns_forb (λ e st, ∃ X' ns' from' ord', st = (ns', from', jf) ∧
        bfs X' (drop (Z.to_nat e) s) ns' from' ord' ∧ zlen ns' ≤ zlen ord' - zlen ord ∧ (e = 0 → ns' = []))
      (λ st, found st.1.2 st.2)); [done| |].
    { exists X, [], from, ord. split_and!; try done. unfold zlen. simpl. lia. }
    intros e st He (X' & ns' & from' & ord' & -> & Hb' & Hc & _). rstep.
    assert (drop (Z.to_nat e) s = s⟦e⟧ :: drop (Z.to_nat (e + 1)) s) as Ed.
    { rewrite (drop_S s (s⟦e⟧) (Z.to_nat e)) by (apply znth_lookup; lia). do 2 f_equal. lia. }
    rewrite Ed in Hb'. eapply returns_mono; [by apply (search_node_ok X' (drop (Z.to_nat (e + 1)) s) (zlen ord) (s⟦e⟧) ns' from' ord' jf)|].
    intros [st|st]; [|done]. intros (ns2 & from2 & ord2 & -> & Hb2 & Hc2).
    exists (λ i', i' = s⟦e⟧ ∨ X' i'), ns2, from2, ord2. split_and!; try done. lia.
  - intros [st|st]; [|done]. intros (X' & ns' & from' & ord' & -> & Hb' & Hc & He).
    exists X', ns', from', ord'. rewrite drop_ge in Hb' by (unfold zlen; lia). split_and!; try done.
    intros ->. by apply He.
Qed.

(** The reached outputs are matched, and not to an unmatched input. *)
Lemma ord_bound X todo ns from ord u :
  bfs X todo ns from ord → 0 ≤ u < n → im⟦u⟧ = -1 → zlen ord < n.
Proof.
  intros [[H1 H2 H3 H4 H5] B2 _ _ _] Hu Eu.
  assert (∀ j, j ∈ ord → 0 ≤ om⟦j⟧ < n ∧ im⟦om⟦j⟧⟧ = j) as Ho.
  { intros j Hj. destruct (mt_out _ _ _ _ _ Hmt j (H4 j Hj)) as [?|?]; [by destruct (B2 j Hj)|done]. }
  assert (zlen (u :: ((λ j, om⟦j⟧) <$> ord)) ≤ n) as Hl.
  { apply NoDup_range; [lia| |].
    - apply NoDup_cons. split.
      + intros (j & E & Hj)%list_elem_of_fmap. destruct (Ho j Hj) as [_ Ej]. rewrite <- E in Ej.
        specialize (H4 j Hj). lia.
      + apply NoDup_fmap_2_strong; [|done]. intros x y Hx Hy E.
        destruct (Ho x Hx) as [_ <-]. rewrite E. by destruct (Ho y Hy) as [_ ->].
    - intros x [->|(j & -> & Hj)%list_elem_of_fmap]%elem_of_cons; [done|by apply Ho]. }
  unfold zlen in *. simpl in Hl. rewrite length_fmap in Hl. lia.
Qed.

Lemma search_ok X s :
  bfs X s [] (replicate (Z.to_nat n) (-1)) [] → (s = [] ∨ ∃ u, 0 ≤ u < n ∧ im⟦u⟧ = -1) →
  returns (search d im om s) (λ r, match r with
    | Next st => ∃ X' ord', bfs X' [] [] st.1.2 ord'
    | Break st => found st.1.2 st.2
    end).
Proof.
  intros Hb Hu. unfold search. rewrite (DenseInv.ds_in _ _ _ (DenseInv.do_shape _ _ _ _ Hd)). eapply returns_mono.
  - apply (returns_forb (λ k st, ∃ X' ord', bfs X' st.1.1 [] st.1.2 ord' ∧ (st.1.1 = [] ∨ k ≤ zlen ord') ∧
        (st.1.1 = [] ∨ ∃ u, 0 ≤ u < n ∧ im⟦u⟧ = -1)) (λ st, found st.1.2 st.2)); [lia| |].
    { exists X, []. split_and!; try done. by right. }
    intros k [[s' from] jf] Hk (X' & ord' & Hb' & Hk' & Hu'). simpl in *.
    destruct (search_level_ok X' s' from ord' jf Hb') as (c & -> & Hc). cbn [mbind res_bind]. apply returns_ok.
    destruct c as [st|[[ns from'] j]]; [|done]. destruct Hc as (X2 & ns2 & from2 & ord2 & -> & [B1 B2 B3 B4 B5] & Hc2 & He2).
    exists X2, ord2. simpl. split_and!.
    + split; try done. 1: intros i; rewrite app_nil_r; apply B4. intros i. rewrite app_nil_r. apply B5.
    + destruct ns2 as [|x ns2]; [by left|right]. destruct Hk' as [E|Hk']; [by specialize (He2 E)|].
      unfold zlen in *. simpl in Hc2. lia.
    + destruct Hu' as [E|?]; [left; auto|by right].
  - intros [[[s' from] jf]|st]; [|done]. simpl. intros (X' & ord' & Hb' & Hk & Hu'). exists X', ord'.
    destruct s' as [|x s']; [done|]. destruct Hk as [?|Hk]; [done|]. destruct Hu' as [?|(u & Hu1 & Hu2)]; [done|].
    pose proof (ord_bound _ _ _ _ _ u Hb' Hu1 Hu2). lia.
Qed.

Lemma unassigned_ok prio : 0 ≤ prio →
  returns (unassigned d im prio) (λ s, (∀ i, i ∈ s → 0 ≤ i < n ∧ im⟦i⟧ = -1) ∧
    ∀ i, 0 ≤ i < n → im⟦i⟧ = -1 → i ∈ s).
Proof.
  intros Hp. unfold unassigned, push. rewrite (DenseInv.ds_in _ _ _ (DenseInv.do_shape _ _ _ _ Hd)).
  pose proof Hmt as [L1 _ _ _]. eapply returns_mono.
  - apply (returns_for (λ k s, zlen s ≤ k ∧ (∀ i, i ∈ s → 0 ≤ i < n ∧ im⟦i⟧ = -1) ∧
      ∀ j, 0 ≤ j < k → im⟦(j + prio) `rem` n⟧ = -1 → (j + prio) `rem` n ∈ s)); [lia| |].
    { split_and!; [done|by intros i ?%elem_of_nil|lia]. }
    intros k s Hk (Hl & H1 & H2). pose proof (rotation_range n prio k Hp Hk) as Hr. rstep.
    destruct (Z.eqb_spec (im⟦(k + prio) `rem` n⟧) (-1)) as [E|E].
    + destruct (Z.ltb_spec (zlen s) n); [|lia]. apply returns_ok. split_and!.
      * unfold zlen in *. rewrite length_app. simpl. lia.
      * intros i [?| ->%list_elem_of_singleton]%elem_of_app; auto.
      * intros j Hj Ej. apply elem_of_app. destruct (decide (j = k)) as [->|]; [right; by left|left].
        apply H2; [lia|done].
    + apply returns_ok. split_and!; [lia|done|]. intros j Hj Ej. destruct (decide (j = k)) as [->|]; [done|].
      apply H2; [lia|done].
  - intros s (_ & H1 & H2). split; [done|]. intros i Hi Ei.
    destruct (rotation_onto n prio i Hp Hi) as (k & Hk & <-). by apply H2.
Qed.

Lemma ShortestAugmenting_ok prio : 0 ≤ prio →
  returns (ShortestAugmenting d im om prio) (λ r, let '(more, im', om', _) := r in
    if more : bool then matching n m (wants R) im' om' ∧ matched n im' = matched n im + 1
    else im' = im ∧ om' = om ∧ maximum n m R im om).
Proof.
  intros Hp. unfold ShortestAugmenting. pose proof Hmt as [L1 L2 _ M4].
  destruct (unassigned_ok prio Hp) as (s & -> & Hs1 & Hs2). cbn [mbind res_bind].
  eapply returns_bind.
  { apply (search_ok (λ _, False)).
    - split; try done; [by apply tree_nil|by intros ? ?%elem_of_nil| |].
      + intros i. rewrite app_nil_r. intros [? ?]%Hs1. split; [done|by left].
      + intros i Hi [?|?%elem_of_nil]; [|done]. right. rewrite app_nil_r. auto.
    - destruct s as [|u s]; [by left|right]. exists u. apply Hs1. by left. }
  intros [[[s' from] jf]|[[s' from] j]] Hc; simpl in Hc.
  - apply returns_ok. split_and!; try done. destruct Hc as (X & ord & [B1 B2 B3 _ B5]).
    apply (cover_maximum n m R im om ord); try done; [lia|apply B1|intros j Hj; split; [by apply B1|auto]|].
    intros i j Hi Hj Hr Hw. destruct (B5 i Hi Hr) as [Hx|?%elem_of_nil]; [|done].
    destruct (B3 i j Hx Hj Hw) as [E|]; [|done]. destruct Hr as [?|?]; [lia|congruence].
  - destruct Hc as (ord & Ht & Eo). pose proof Ht as [H1 H2 H3 H4 H5].
    assert (0 ≤ j < m) as Hj by (apply H4, elem_of_app; right; by left). do 2 rstep.
    rewrite (DenseInv.ds_in _ _ _ (DenseInv.do_shape _ _ _ _ Hd)).
    eapply returns_bind; [apply (flip_path_ok n m R im Hmn from (ord ++ [j]) Ht _ ord j [])|].
    + done.
    + unfold zupd. rewrite list_insert_insert_eq. rewrite list_insert_id; [done|]. rewrite znth_lookup by lia. by rewrite Eo.
    + lens.
    + by rewrite znth_zupd_eq by lia.
    + by left.
    + pose proof (ord_length _ _ Ht) as Hl. unfold zlen in Hl. rewrite length_app in Hl. simpl in Hl. lia.
    + intros [im' om'] [? ?]. by apply returns_ok.
Qed.
End search.

(** ** The interface laws *)

Lemma augment_ok n m d R prio fuel : 0 < n → 0 < m ≤ n → 0 ≤ prio → DenseInv.dense_opened n m d R →
  ∀ im om from, matching n m (wants R) im om → n < matched n im + Z.of_nat fuel →
  returns (augment fuel d prio im om from) (λ r, matching n m (wants R) r.1.1 r.1.2 ∧ maximum n m R r.1.1 r.1.2).
Proof.
  intros Hn Hmn Hp Hd. induction fuel as [|fuel IH]; intros im om from Hmt Hf.
  { pose proof (matched_le n im ltac:(lia)). lia. }
  simpl. eapply returns_bind; [by apply (ShortestAugmenting_ok n m d R im om)|].
  intros [[[[] im'] om'] from'] H.
  - destruct H as [Hmt' Hk]. apply IH; [done|]. lia.
  - destruct H as (-> & -> & Hmax). by apply returns_ok.
Qed.

Definition ms_opened (n m : Z) (a : MaxSize) (R : requests) : Prop :=
  DenseInv.dense_opened n m (ms_dense a) R ∧ 0 ≤ ms_prio a.

Definition MaxSizeLaws (n m : Z) (Hn : 0 < n) (Hmn : 0 < m ≤ n) : AllocatorLaws MaxSizeI n m (maximum n m).
Proof.
  refine {| opened := ms_opened n m |}.
  - intros a R R' E [Hd ?]. split; [|done]. by apply (DenseInv.dense_ext n m _ R).
  - intros a R i o label ip op (Hd & Hp) Hi' Ho Hl HN. simpl. unfold AddRequest.
    destruct (DenseInv.dense_AddRequest n m _ R i o label ip op Hd Hi' Ho Hl HN) as (d & -> & Hd').
    by apply returns_ok.
  - intros a R (Hd & Hp). simpl. unfold Allocate.
    rewrite (DenseInv.ds_in _ _ _ (DenseInv.do_shape _ _ _ _ Hd)). eapply returns_bind.
    + apply (augment_ok n m _ R (ms_prio a)); try done; [by apply (DenseInv.dense_free_matching n m _ R)|].
      enough (0 ≤ matched n (al_inmatch (d_base (ms_dense a)))) by lia.
      apply zsumf_nonneg; [lia|]. intros i _. by destruct (_ =? -1).
    + intros [[im om] from] [Hmt Hmax]. apply returns_ok. simpl in *. split_and!; try done.
      split; [by apply (DenseInv.dense_close n m _ R)|]. simpl. apply Z.rem_nonneg; lia.
Defined.

(** C14. The maximum size allocator with no more outputs than inputs: any sequence
    of cycles with legal requests runs to the end (the search for augmenting
    paths terminates and stays in range), and each cycle grants a matching of its
    requests that no other matching of them exceeds in size. *)
Theorem maxsize_cycles n m rss :
  0 < m ≤ n → Forall (areqs_ok n m) rss →
  returns (alloc_cycles MaxSizeI (New n m) rss) (λ r, Forall2 (answers n m (maximum n m)) rss r.2).
Proof.
  intros Hmn Hok. assert (0 < n) as Hn by lia.
  apply (alloc_cycles_ok _ n m _ (MaxSizeLaws n m Hn Hmn)); [|done].
  split; [|done]. apply (DenseInv.dense_close_idle n m _ no_requests), DenseInv.dense_New; lia.
Qed.

Lemma maxsize_cycles_witness :
  returns (alloc_cycles MaxSizeI (New 3 2) [[(0, 1, 0, 0, 0); (1, 1, 3, 2, 0); (1, 0, 2, 2, 1)]; []])
    (λ r, Forall2 (answers 3 2 (maximum 3 2)) [[(0, 1, 0, 0, 0); (1, 1, 3, 2, 0); (1, 0, 2, 2, 1)]; []] r.2).
Proof. apply (maxsize_cycles 3 2); [lia|]. by apply areqs_okb_ok. Defined.

(** With more outputs than inputs the search can index [_from], which it shrinks
    to [inputs] elements, out of range. *)
Example maxsize_more_outputs : alloc_cycles MaxSizeI (New 1 2) [[(0, 1, 0, 0, 0)]] = Fail OutOfRange.
Proof. reflexivity. Qed.
End MaxSizeInv.
