(* ===== verification/Select.v ===== *)
(** * The select allocator

    [SelAlloc] (allocators/selalloc.cpp): iSLIP with priorities and output
    masks.  With one iteration every cycle grants a matching of the requests for
    unmasked outputs.  The grants of one iteration are still there in the next,
    so with two iterations an input can accept a second output:
    [select_two_rounds]. *)

From S2P Require Import Prelude StdMap Allocator AllocLaws AllocStore Rounds Islip.

Record SelAlloc : Set := mkSel {
  se_sparse : Sparse;
  se_iter : Z;
  se_gptrs : list Z;
  se_aptrs : list Z;
  se_outmask : list Z
}.

Module SelOps.

Definition New (inputs outputs iters : Z) : SelAlloc :=
  mkSel (SparseOps.New inputs outputs) iters (replicate (Z.to_nat outputs) 0) (replicate (Z.to_nat inputs) 0)
    (replicate (Z.to_nat outputs) 0).

Definition Clear (a : SelAlloc) : SelAlloc :=
  mkSel (SparseOps.Clear (se_sparse a)) (se_iter a) (se_gptrs a) (se_aptrs a) (se_outmask a).

Definition AddRequest (a : SelAlloc) (in_ out label in_pri out_pri : Z) : res SelAlloc :=
  s ← SparseOps.AddRequest (se_sparse a) in_ out label in_pri out_pri;
  Ok (mkSel s (se_iter a) (se_gptrs a) (se_aptrs a) (se_outmask a)).

Definition MaskOutput (a : SelAlloc) (out mask : Z) : res SelAlloc :=
  assert! AllocOps.valid_out (s_base (se_sparse a)) out;
  om ← vset (se_outmask a) out mask;
  Ok (mkSel (se_sparse a) (se_iter a) (se_gptrs a) (se_aptrs a) om).

Section scan.
Context (all : imap sRequest) (offset : Z) (test : sRequest → res bool) (pri : sRequest → Z).

(** The best eligible port so far: [max_index] and [max_pri]. *)
Definition better (r : sRequest) (acc : Z * Z) : res (Z * Z) :=
  b ← test r;
  Ok (if (b : bool) && ((acc.2 <? pri r) || (acc.1 =? -1)) then (r_port r, pri r) else acc).

(** The round-robin walk of [ISLIPOps.scan], to its end. *)
Fixpoint scan_max (fuel : nat) (p : imap sRequest) (wrapped : bool) (acc : Z * Z) : res (Z * Z) :=
  if negb wrapped || match p with (_, r) :: _ => r_port r <? offset | [] => false end then
    match fuel with
    | O => Fail OutOfFuel
    | S fuel =>
        let '(p, stop, wrapped) :=
          match p with
          | [] => if wrapped then (p, true, wrapped) else (all, false, true)
          | _ => (p, false, wrapped)
          end in
        if stop : bool then Ok acc
        else match p with
        | [] => Fail BadIterator
        | (_, r) :: p' => acc ← better r acc; scan_max fuel p' wrapped acc
        end
    end
  else Ok acc.

Definition select_max : res (Z * Z) :=
  scan_max (2 * length all + 1) (ISLIPOps.skip_below offset all) false (-1, 0).
End scan.

Definition grant_output (s : Sparse) (gptrs outmask im om : list Z) (output : Z) (grants : list Z) : res (list Z) :=
  m ← vget (s_out_req s) output;
  y ← vget om output;
  k ← vget outmask output;
  if SparseOps.is_empty m || negb (y =? -1) || negb (k =? 0) then Ok grants
  else
    input_offset ← vget gptrs output;
    '(max_index, _) ← select_max m input_offset (λ r, x ← vget im (r_port r); Ok (x =? -1)) r_out_pri;
    if max_index =? -1 then Ok grants else vset grants output max_index.

Definition accept_input (s : Sparse) (iter : Z) (grants : list Z) (input : Z)
    (st : list Z * list Z * list Z * list Z) : res (list Z * list Z * list Z * list Z) :=
  let '(im, om, gptrs, aptrs) := st in
  m ← vget (s_in_req s) input;
  if SparseOps.is_empty m then Ok st
  else
    output_offset ← vget aptrs input;
    '(max_index, _) ← select_max m output_offset (λ r,
        x ← vget grants (r_port r); q ← vget (s_out_req s) (r_port r);
        Ok ((x =? input) && negb (SparseOps.is_empty q))) r_in_pri;
    if max_index =? -1 then Ok st
    else
      let output := max_index in
      im ← vset im input output;
      om ← vset om output input;
      if iter =? 0 then
        gptrs ← vset gptrs output ((input + 1) `rem` al_inputs (s_base s));
        aptrs ← vset aptrs input ((output + 1) `rem` al_outputs (s_base s));
        Ok (im, om, gptrs, aptrs)
      else Ok (im, om, gptrs, aptrs).

(** One iteration; [grants] is declared outside the loop. *)
Definition round (s : Sparse) (outmask : list Z) (iter : Z)
    (st : list Z * (list Z * list Z * list Z * list Z)) : res (list Z * (list Z * list Z * list Z * list Z)) :=
  let '(grants, (im, om, gptrs, aptrs)) := st in
  grants ← foldl (λ acc x, g ← acc; grant_output s gptrs outmask im om x.1 g) (Ok grants) (s_out_occ s);
  st ← foldl (λ acc x, st ← acc; accept_input s iter grants x.1 st) (Ok (im, om, gptrs, aptrs)) (s_in_occ s);
  Ok (grants, st).

Definition Allocate (a : SelAlloc) : res SelAlloc :=
  let s := se_sparse a in
  let b := s_base s in
  '(_, (im, om, gptrs, aptrs)) ← zfor 0 (se_iter a) (round s (se_outmask a))
     (replicate (Z.to_nat (al_outputs b)) (-1), (al_inmatch b, al_outmatch b, se_gptrs a, se_aptrs a));
  Ok (mkSel (SparseLaws.with_match im om s) (se_iter a) gptrs aptrs (se_outmask a)).

End SelOps.

Definition SelI : AllocatorI SelAlloc :=
  mkAllocI (λ a, s_base (se_sparse a)) SelOps.Clear SelOps.AddRequest SelOps.Allocate.

(** One input, two outputs and two iterations: both outputs are assigned the
    input, which is assigned only the second. *)
Example select_two_rounds :
  (r ← alloc_cycles SelI (SelOps.New 1 2 2) [[(0, 0, 0, 0, 0); (0, 1, 0, 0, 0)]]; Ok r.2) =
  Ok [([1], [0; 0])].
Proof. reflexivity. Qed.

Module SelInv.
Import SelOps Rounds SparseLaws.

Section scan.
Context (all : imap sRequest) (offset : Z) (test : sRequest → res bool) (pri : sRequest → Z) (t : sRequest → bool).
Context (Hsorted : StronglySorted (λ x y : Z * sRequest, r_port x.2 < r_port y.2) all).
Context (Htest : ∀ x, x ∈ all → test x.2 = Ok (t x.2)) (Hpos : ∀ x, x ∈ all → 0 ≤ r_port x.2).

(** [acc] is the first best of the eligible requests in [V]. *)
Definition best (V : Z * sRequest → Prop) (acc : Z * Z) : Prop :=
  (acc = (-1, 0) ∧ ∀ x, x ∈ all → V x → t x.2 = false) ∨
  (∃ x, x ∈ all ∧ t x.2 = true ∧ acc = (r_port x.2, pri x.2) ∧
     ∀ y, y ∈ all → V y → t y.2 = true → pri y.2 ≤ pri x.2).

Lemma best_mono (V V' : Z * sRequest → Prop) acc : (∀ x, x ∈ all → V' x → V x) → best V acc → best V' acc.
Proof.
  intros HV [[-> Hn]|(x & Hx & Ht & -> & Hmax)]; [left|right]; [by auto|]. exists x. split_and!; auto.
Qed.

Lemma better_ok V x acc : x ∈ all → best V acc → returns (better test pri x.2 acc) (best (λ y, y = x ∨ V y)).
Proof.
  intros Hx Hb. unfold better. rewrite Htest by done. cbn [mbind res_bind]. apply returns_ok.
  destruct Hb as [[-> Hn]|(y & Hy & Ht & -> & Hmax)]; simpl.
  - rewrite orb_true_r, andb_true_r. destruct (t x.2) eqn:Ex; [right|left].
    + exists x. split_and!; try done. intros z Hz [->|HV] Htz; [lia|]. by rewrite Hn in Htz.
    + split; [done|]. intros z Hz [->|?]; auto.
  - right. destruct (Z.eqb_spec (r_port y.2) (-1)) as [E|_]; [specialize (Hpos y Hy); lia|]. rewrite orb_false_r.
    destruct (t x.2) eqn:Ex; simpl; [destruct (Z.ltb_spec (pri y.2) (pri x.2))|].
    + exists x. split_and!; try done. intros z Hz [->|HV] Htz; [lia|]. specialize (Hmax z Hz HV Htz). lia.
    + exists y. split_and!; try done. intros z Hz [->|HV] Htz; [lia|auto].
    + exists y. split_and!; try done. intros z Hz [->|HV] Htz; [congruence|auto].
Qed.

Lemma scan_max_wrapped p : ∀ fuel V acc, (∀ x, x ∈ p → x ∈ all) →
  StronglySorted (λ x y : Z * sRequest, r_port x.2 < r_port y.2) p → (length p ≤ fuel)%nat →
  (∀ y, y ∈ all → V y ∨ (y ∈ p ∧ r_port y.2 < offset)) → best V acc →
  returns (scan_max all offset test pri fuel p true acc) (best (λ _, True)).
Proof.
  induction p as [|[k r] p IH]; intros fuel V acc Hsub Hs Hf Hcov Hb.
  { destruct fuel; simpl; apply returns_ok; revert Hb; apply best_mono; intros x Hx _;
      (destruct (Hcov x Hx) as [?|[?%elem_of_nil _]]; done). }
  destruct fuel as [|fuel]; simpl in Hf; [lia|]. simpl.
  apply StronglySorted_inv in Hs as [Hs Hlt]. destruct (Z.ltb_spec (r_port r) offset) as [Hlo|Hhi].
  - eapply returns_bind; [apply (better_ok V (k, r)); [apply Hsub; by left|done]|]. intros acc' Hb'.
    eapply IH; [intros x Hx; apply Hsub; by right|done|lia| |exact Hb'].
    intros y Hy. destruct (Hcov y Hy) as [?|[[->|?]%elem_of_cons ?]]; auto.
  - apply returns_ok. revert Hb. apply best_mono. intros x Hx _.
    destruct (Hcov x Hx) as [?|[[->|Hin]%elem_of_cons Ho]]; [done|simpl in Ho; lia|].
    rewrite Forall_forall in Hlt. specialize (Hlt _ Hin). simpl in Hlt. lia.
Qed.

Lemma scan_max_wrap fuel k r l acc : all = (k, r) :: l →
  scan_max all offset test pri (S fuel) [] false acc =
    (acc ← better test pri r acc; scan_max all offset test pri fuel l true acc).
Proof. intros E. simpl. by rewrite E at 1. Qed.

Lemma scan_max_first p : ∀ fuel V acc, all ≠ [] → (∀ x, x ∈ p → x ∈ all) →
  (length p + length all + 1 ≤ fuel)%nat → (∀ y, y ∈ all → V y ∨ y ∈ p ∨ r_port y.2 < offset) → best V acc →
  returns (scan_max all offset test pri fuel p false acc) (best (λ _, True)).
Proof.
  induction p as [|[k r] p IH]; intros fuel V acc Hne Hsub Hf Hcov Hb; (destruct fuel as [|fuel]; [simpl in Hf; lia|]).
  - assert (∃ k r l, all = (k, r) :: l) as (k & r & l & El) by (destruct all as [|[k r] l]; [done|by exists k, r, l]).
    rewrite (scan_max_wrap fuel k r l acc El).
    assert ((k, r) ∈ all) as Hin by (rewrite El; by left).
    eapply returns_bind; [by apply (better_ok V (k, r))|]. intros acc' Hb'.
    pose proof Hsorted as Hs. rewrite El in Hs. apply StronglySorted_inv in Hs as [Hs _].
    eapply scan_max_wrapped; [intros x Hx; rewrite El; by right|done|rewrite El in Hf; simpl in Hf; lia| |exact Hb'].
    intros y Hy. destruct (Hcov y Hy) as [?|[?%elem_of_nil|?]]; [auto|done|].
    rewrite El in Hy. apply elem_of_cons in Hy as [->|?]; auto.
  - simpl. eapply returns_bind; [apply (better_ok V (k, r)); [apply Hsub; by left|done]|]. intros acc' Hb'.
    eapply IH; [done|intros x Hx; apply Hsub; by right|simpl in Hf; lia| |exact Hb'].
    intros y Hy. destruct (Hcov y Hy) as [?|[[->|?]%elem_of_cons|?]]; auto.
Qed.

Lemma select_max_ok : all ≠ [] → returns (select_max all offset test pri) (best (λ _, True)).
Proof.
  intros Hne. unfold select_max. destruct (ISLIPInv.skip_below_spec offset all) as (pre & E & Hpre).
  assert (length all = length pre + length (ISLIPOps.skip_below offset all))%nat as Hl by (rewrite E at 1; by rewrite length_app).
  apply (scan_max_first _ _ (λ _, False)); [done| |lia| |by left].
  - intros x Hx. rewrite E. apply elem_of_app. by right.
  - intros x Hx. right. rewrite E, elem_of_app in Hx. rewrite Forall_forall in Hpre. destruct Hx; auto.
Qed.
End scan.

(** ** One iteration *)

(** The requests for outputs that are not masked. *)
Definition unmasked (mask : list Z) (R : requests) : requests := λ i o, if mask⟦o⟧ =? 0 then R i o else None.

Section phases.
Context (n m : Z) (s : Sparse) (R : requests) (Hop : sparse_opened n m s R) (mask : list Z) (Hmask : zlen mask = m).
Context (Hn : 0 < n) (Hm : 0 < m).
Local Abbreviation Rm := (unmasked mask R).

Lemma wants_unmasked i o : wants Rm i o ↔ mask⟦o⟧ = 0 ∧ wants R i o.
Proof. unfold wants, unmasked. destruct (Z.eqb_spec (mask⟦o⟧) 0); intuition. Qed.

Lemma select_grant_output_ok gptrs im om k grants :
  matching n m (wants Rm) im om → 0 ≤ k < m → zlen gptrs = m → offers n m Rm im om k grants →
  returns (grant_output s gptrs mask im om k grants) (offers n m Rm im om (k + 1)).
Proof.
  intros [L1 L2 _ _] Hk Hg Hof. pose proof Hop as [Hsp En Em _ _ _].
  destruct (ISLIPInv.out_ports n m s R Hop k Hk) as [Hs Hp]. pose proof (SparseInv.so_out_len _ Hsp) as Hl. rewrite Em in Hl.
  assert (∀ x, x ∈ (s_out_req s)⟦k⟧ → 0 ≤ r_port x.2 < n ∧ wants R (r_port x.2) k) as Hx.
  { intros x Hx. apply Hp, list_elem_of_fmap. by exists x. }
  unfold grant_output. do 3 rstep. destruct (SparseOps.is_empty ((s_out_req s)⟦k⟧)) eqn:Ee; simpl.
  { apply SparseInv.is_empty_spec in Ee. apply returns_ok, offers_none; try done. intros i Hi [_ Hw]%wants_unmasked.
    assert (i ∈ ISLIPInv.port_list ((s_out_req s)⟦k⟧)) as Hin by (by apply Hp). rewrite Ee in Hin. by apply elem_of_nil in Hin. }
  destruct (Z.eqb_spec (om⟦k⟧) (-1)) as [Eo|Eo]; simpl; [|apply returns_ok, offers_none; by try done].
  destruct (Z.eqb_spec (mask⟦k⟧) 0) as [Ek|Ek]; simpl.
  2: { apply returns_ok, offers_none; try done. intros i Hi [? _]%wants_unmasked. done. }
  rstep. eapply returns_bind; [apply (select_max_ok _ _ _ _ (λ r, im⟦r_port r⟧ =? -1)); [done| | |]|].
  - intros x Hin. destruct (Hx x Hin) as [? _]. by rewrite vget_ok by lia.
  - intros x Hin. destruct (Hx x Hin). lia.
  - intros E. by rewrite E in Ee.
  - intros acc [[-> Hno]|(x & Hin & Ht%Z.eqb_eq & -> & _)]; simpl.
    + apply returns_ok, offers_none; try done. intros i Hi [_ Hw]%wants_unmasked Ei _.
      assert (i ∈ ISLIPInv.port_list ((s_out_req s)⟦k⟧)) as (x & -> & Hin)%list_elem_of_fmap by (by apply Hp).
      specialize (Hno x Hin I). simpl in Hno. by rewrite Ei in Hno.
    + destruct (Hx x Hin) as [Hi Hw]. destruct (Z.eqb_spec (r_port x.2) (-1)); [lia|].
      rewrite vset_ok by (rewrite (of_len _ _ _ _ _ _ _ Hof); lia).
      apply returns_ok, offers_some; try done. by apply wants_unmasked.
Qed.

Lemma select_accept_input_ok iter im0 om0 grants k st :
  offers n m Rm im0 om0 m grants → accepting n m Rm im0 om0 grants k st.1.1.1 st.1.1.2 → 0 ≤ k < n →
  ISLIPInv.st_ok n m st →
  returns (accept_input s iter grants k st) (λ st',
    accepting n m Rm im0 om0 grants (k + 1) st'.1.1.1 st'.1.1.2 ∧ ISLIPInv.st_ok n m st').
Proof.
  intros Hof Hac Hk [Hg Ha]. destruct st as [[[im om] gptrs] aptrs]. simpl in *.
  pose proof Hop as [Hsp En Em _ _ _]. pose proof (ac_match _ _ _ _ _ _ _ _ _ Hac) as [L1 L2 _ _].
  pose proof (of_len _ _ _ _ _ _ _ Hof) as L3. pose proof Hsp as [_ _ Hil Hol _ _ _ _ _ _ _ _ _]. rewrite En, Em in *.
  destruct (ISLIPInv.in_ports n m s R Hop k Hk) as [Hs Hp]. unfold accept_input. rstep.
  assert (∀ o, 0 ≤ o < m → grants⟦o⟧ = k → o ∈ ISLIPInv.port_list ((s_in_req s)⟦k⟧) ∧ (s_out_req s)⟦o⟧ ≠ []) as Hoff.
  { intros o Ho E. destruct (of_ok _ _ _ _ _ _ _ Hof o Ho) as [?|(_ & [_ Hw]%wants_unmasked & _)]; [lia|].
    rewrite E in Hw. split; [by apply Hp|]. intros E0.
    assert (k ∈ ISLIPInv.port_list ((s_out_req s)⟦o⟧)) as Hin by (by apply (ISLIPInv.out_ports n m s R Hop o Ho)).
    rewrite E0 in Hin. by apply elem_of_nil in Hin. }
  assert (∀ x, x ∈ (s_in_req s)⟦k⟧ → 0 ≤ r_port x.2 < m) as Hx.
  { intros x Hx. apply Hp, list_elem_of_fmap. by exists x. }
  destruct (SparseOps.is_empty ((s_in_req s)⟦k⟧)) eqn:Ee.
  { apply SparseInv.is_empty_spec in Ee. apply returns_ok. split; [|done]. apply accepting_none; try done.
    intros o Ho E. destruct (Hoff o Ho E) as [Hin _]. rewrite Ee in Hin. by apply elem_of_nil in Hin. }
  rstep. eapply returns_bind; [apply (select_max_ok _ _ _ _
    (λ r, (grants⟦r_port r⟧ =? k) && negb (SparseOps.is_empty ((s_out_req s)⟦r_port r⟧)))); [done| | |]|].
  - intros x Hin. specialize (Hx x Hin). by rewrite !vget_ok by lia.
  - intros x Hin. specialize (Hx x Hin). lia.
  - intros E. by rewrite E in Ee.
  - intros acc [[-> Hno]|(x & Hin & Ht & -> & _)]; simpl.
    + apply returns_ok. split; [|done]. apply accepting_none; try done. intros o Ho E.
      destruct (Hoff o Ho E) as [(x & -> & Hin)%list_elem_of_fmap Hne]. specialize (Hno x Hin I). simpl in Hno.
      rewrite E, Z.eqb_refl in Hno. simpl in Hno. apply negb_false_iff, SparseInv.is_empty_spec in Hno. done.
    + apply andb_prop in Ht as [Ht%Z.eqb_eq _]. specialize (Hx x Hin). destruct (Z.eqb_spec (r_port x.2) (-1)); [lia|].
      do 2 rstep. pose proof (accepting_some n m Rm im0 om0 grants Hof k im om _ Hac Hk Hx Ht) as Hac'.
      destruct (iter =? 0); [do 2 rstep|]; apply returns_ok; (split; [done|]); [split; simpl; lens|done].
Qed.

Lemma occ_loop {S} (body : Z → S → res S) (k : Z) (l : list (imap sRequest)) (occ : iset) st :
  0 ≤ k → msorted occ → (∀ i, mfind i occ = Some tt ↔ 0 ≤ i < k ∧ l⟦i⟧ ≠ []) →
  (∀ i st, 0 ≤ i < k → l⟦i⟧ = [] → body i st = Ok st) →
  foldl (λ m x, s ← m; body x.1 s) (Ok st) occ = zfor 0 k body st.
Proof.
  intros Hk Hs Hocc Hb. replace k with (0 + Z.of_nat (Z.to_nat k)) by lia.
  apply iset_zfor; [done| |].
  - intros [i []] Hin. apply elem_mfind in Hin; [|done]. apply Hocc in Hin as [? _]. simpl. lia.
  - intros i st' Hi Hf. apply Hb; [lia|]. destruct (decide (l⟦i⟧ = [])) as [?|Hne]; [done|].
    assert (mfind i occ = Some tt) as E by (apply Hocc; split; [lia|done]). congruence.
Qed.

Lemma first_round_ok im om gptrs aptrs :
  matching n m (wants Rm) im om → zlen gptrs = m → zlen aptrs = n →
  returns (round s mask 0 (replicate (Z.to_nat m) (-1), (im, om, gptrs, aptrs))) (λ r,
    matching n m (wants Rm) r.2.1.1.1 r.2.1.1.2 ∧ after_rounds n m 1 Rm r.2.1.1.1 r.2.1.1.2 ∧
    ISLIPInv.st_ok n m r.2).
Proof.
  intros Hmt Hg Ha. pose proof Hmt as [L1 L2 _ _]. pose proof Hop as [Hsp En Em _ _ _].
  pose proof Hsp as [_ _ Hil Hol _ _ _ _ _ Hios Hoos Hio Hoo]. rewrite En, Em in *. unfold round.
  rewrite (occ_loop (grant_output s gptrs mask im om) m (s_out_req s)); [|lia|done|done|].
  2: { intros o g Ho E. unfold grant_output. rewrite !vget_ok by lia. cbn [mbind res_bind]. by rewrite E. }
  eapply returns_bind.
  { apply (returns_for (offers n m Rm im om)); [lia|apply offers_start; lia|].
    intros k gr Hk Hof. by apply select_grant_output_ok. }
  intros grants Hof. rewrite (occ_loop (accept_input s 0 grants) n (s_in_req s)); [|lia|done|done|].
  2: { intros i [[[x y] z] t] Hi E. unfold accept_input. rewrite (vget_ok (s_in_req s)) by lia. cbn [mbind res_bind]. by rewrite E. }
  eapply returns_bind.
  - apply (returns_for (λ k st, accepting n m Rm im om grants k st.1.1.1 st.1.1.2 ∧ ISLIPInv.st_ok n m st)); [lia| |].
    { split; [by apply accepting_start|done]. }
    intros k st Hk [Hac Hst]. by apply select_accept_input_ok.
  - intros st [Hac Hst]. apply returns_ok. simpl. split_and!; [by apply Hac| |done].
    apply (round_progress n m Rm im om grants Hof 0 _ _ Hmt Hac). right.
    apply zsumf_nonneg; [lia|]. intros i _. by destruct (_ =? -1).
Qed.
End phases.

(** ** The interface laws *)

(** Only unmasked outputs are granted, and at least one of their requests. *)
Definition select_quality (n m : Z) (mask : list Z) : grants_prop := λ R im om,
  matching n m (wants (unmasked mask R)) im om ∧ progress n m (unmasked mask R) im om.

Definition sel_opened (n m : Z) (mask : list Z) (a : SelAlloc) (R : requests) : Prop :=
  sparse_opened n m (se_sparse a) R ∧ se_iter a = 1 ∧ zlen (se_gptrs a) = m ∧ zlen (se_aptrs a) = n ∧
  se_outmask a = mask.

Lemma after_one_progress n m R im om :
  0 ≤ n → matching n m (wants R) im om → after_rounds n m 1 R im om → progress n m R im om.
Proof.
  intros Hn Hmt [Hmax|Hk] (i & o & Hi & Ho & Hw).
  - destruct (Hmax i o Hi Ho Hw) as [?|Hne]; [by exists i|].
    destruct (mt_out _ _ _ _ _ Hmt o Ho) as [?|[Hr E]]; [done|]. exists (om⟦o⟧). rewrite E. split; [done|lia].
  - destruct (decide (Exists (λ i, im⟦i⟧ ≠ -1) (seqZ 0 n))) as [(i' & Hi'%elem_of_seqZ & Hne)%Exists_exists|Hno].
    + exists i'. split; [lia|done].
    + exfalso. unfold matched in Hk. rewrite (zsumf_ext _ (λ _, 0)), zsumf_const_0 in Hk; [lia|].
      intros v Hv. destruct (Z.eqb_spec (im⟦v⟧) (-1)); [done|]. destruct Hno. apply Exists_exists.
      exists v. split; [apply elem_of_seqZ; lia|done].
Qed.

Definition SelLaws (n m : Z) (mask : list Z) (Hn : 0 < n) (Hm : 0 < m) (Hmask : zlen mask = m) :
  AllocatorLaws SelI n m (select_quality n m mask).
Proof.
  refine {| opened := sel_opened n m mask |}.
  - intros a R R' E [Hd ?]. split; [|done]. by apply (sparse_ext n m _ R).
  - intros a R i o label ip op (Hd & Hrest) Hi' Ho Hl HN. simpl. unfold AddRequest.
    destruct (opened_AddRequest n m _ R i o label ip op Hd Hi' Ho Hl HN) as (d & -> & Hd').
    by apply returns_ok.
  - intros a R (Hd & Hit & Hg & Ha & Hmk). simpl. unfold Allocate. rewrite Hit, Hmk, (sp_out _ _ _ _ Hd).
    change (zfor 0 1 ?b ?st) with (x ← b 0 st; Ok x). eapply returns_bind.
    { eapply returns_bind; [apply (first_round_ok n m _ R Hd mask Hmask Hn Hm); try done; by apply (sparse_free_matching n m _ R)|].
      intros r Hr. apply returns_ok. exact Hr. }
    intros [gr [[[im om] gptrs] aptrs]] (Hmt & Hk & [Hg' Ha']). apply returns_ok. simpl in *.
    assert (matching n m (wants R) im om) as HmR.
    { revert Hmt. apply matching_ext. intros i o _ _ [_ ?]%wants_unmasked. done. }
    split_and!; [|done|split; [done|apply after_one_progress; try done; lia]].
    split_and!; try done. by apply (sparse_close n m _ R).
Defined.

Definition mask_all (a : SelAlloc) (l : list (Z * Z)) : res SelAlloc :=
  foldl (λ acc p, a ← acc; MaskOutput a p.1 p.2) (Ok a) l.

(** C35. The select allocator with one iteration, after any masking of outputs:
    any sequence of cycles with legal requests runs to the end, and each cycle
    grants a matching of its requests in which no masked output takes part and
    some request for an unmasked output is granted if there is one. *)
Theorem select_cycles n m masks rss :
  0 < n → 0 < m → Forall (λ p, 0 ≤ p.1 < m) masks → Forall (areqs_ok n m) rss →
  returns (a ← mask_all (New n m 1) masks; r ← alloc_cycles SelI a rss; Ok (se_outmask a, r.2)) (λ r,
    Forall2 (answers n m (select_quality n m r.1)) rss r.2).
Proof.
  intros Hn Hm Hmk Hok. eapply (returns_bind _ _ (λ a, zlen (se_outmask a) = m ∧
    sel_opened n m (se_outmask a) (Clear a) no_requests)).
  - unfold mask_all. eapply returns_mono; [apply (returns_foldl (λ l a, Forall (λ p, 0 ≤ p.1 < m) l ∧
      zlen (se_outmask a) = m ∧ al_outputs (s_base (se_sparse a)) = m ∧
      sel_opened n m (se_outmask a) (Clear a) no_requests) (λ a p, MaskOutput a p.1 p.2))|].
    + split_and!; try done; [apply zlen_replicate; lia|].
      split_and!; try done; try (apply zlen_replicate; lia).
      apply (sparse_close_idle n m _ no_requests), sparse_New_opened; lia.
    + intros [o k] l a (Hl & Hz & Eo & Ha). apply Forall_cons in Hl as [Ho Hl]. simpl in *. unfold MaskOutput.
      rewrite SparseInv.valid_out_true by (by rewrite Eo). cbn [cassert mbind res_bind]. rstep. apply returns_ok.
      split_and!; try done; simpl; [lens|]. by destruct Ha as (? & ? & ? & ? & _).
    + intros a (_ & ? & _ & ?). done.
  - intros a [Hz Ha].
    destruct (alloc_cycles_ok _ n m _ (SelLaws n m (se_outmask a) Hn Hm Hz) rss a Ha Hok) as (r & -> & Hr).
    by apply returns_ok.
Qed.

Lemma select_cycles_witness :
  returns (a ← mask_all (New 3 2 1) [(0, 1)];
           r ← alloc_cycles SelI a [[(0, 1, 0, 0, 0); (1, 1, 3, 2, 0); (1, 0, 2, 2, 1)]; []]; Ok (se_outmask a, r.2))
    (λ r, Forall2 (answers 3 2 (select_quality 3 2 r.1)) [[(0, 1, 0, 0, 0); (1, 1, 3, 2, 0); (1, 0, 2, 2, 1)]; []] r.2).
Proof.
  apply (select_cycles 3 2); [lia|lia| |]; [repeat constructor; simpl; lia|]. by apply areqs_okb_ok.
Defined.
End SelInv.
