(* ===== verification/KNCube.v ===== *)
(** * The k-ary n-cube topology

    [KNCube] (networks/kncube.cpp): node and channel numbering of meshes and
    tori, and the wiring that [_BuildNet] makes of it.  A node number is read as
    [n] digits base [k]; the neighbours of a node differ from it in one digit,
    and every channel connects the output port of a router to the input port of
    its neighbour on the opposite side. *)

From S2P Require Import Prelude.

(** [powi] (misc_utils.cpp).  The code computes in [int], which overflows for networks
    with more than [int_max] nodes; the model is that of smaller networks. *)
Definition powi (x y : Z) : res Z := zfor 0 y (λ _ r, Ok (r * x)) 1.

(** The channels of the network: between routers, and from and to the nodes. *)
Inductive chan_id : Set :=
  | Chan (c : Z)
  | Inject (node : Z)
  | Eject (node : Z).

#[export] Instance chan_id_inhabited : Inhabited chan_id := populate (Chan 0).

Record KNCube : Set := mkKNCube {
  kn_k : Z;
  kn_n : Z;
  kn_mesh : bool;
  kn_size : Z;
  kn_channels : Z
}.

(** The result of [_BuildNet]: the input and output channels of each router in
    the order they are added, and the latencies of the channels between routers
    and of their credit channels. *)
Record Wiring : Set := mkWiring {
  wi_inputs : list (list chan_id);
  wi_outputs : list (list chan_id);
  wi_latency : list Z;
  wi_cred_latency : list Z
}.

Module KNCubeOps.

Definition ComputeSize (k n : Z) (mesh : bool) : res KNCube :=
  size ← powi k n;
  Ok (mkKNCube k n mesh size (2 * n * size)).

Section ops.
Context (net : KNCube).
Local Abbreviation k := (kn_k net).
Local Abbreviation n := (kn_n net).

Definition LeftChannel (node dim : Z) : Z :=
  let base := 2 * n * node in
  let off := 2 * dim + 1 in
  base + off.

Definition RightChannel (node dim : Z) : Z :=
  let base := 2 * n * node in
  let off := 2 * dim in
  base + off.

Definition LeftNode (node dim : Z) : res Z :=
  k_to_dim ← powi k dim;
  let loc_in_dim := (node `quot` k_to_dim) `rem` k in
  Ok (if loc_in_dim =? 0 then node + (k - 1) * k_to_dim else node - k_to_dim).

Definition RightNode (node dim : Z) : res Z :=
  k_to_dim ← powi k dim;
  let loc_in_dim := (node `quot` k_to_dim) `rem` k in
  Ok (if loc_in_dim =? k - 1 then node - (k - 1) * k_to_dim else node + k_to_dim).

(** [AddInputChannel] and [AddOutputChannel] append to the router's ports. *)
Definition add_port (v : list (list chan_id)) (node : Z) (c : chan_id) : res (list (list chan_id)) :=
  ports ← vget v node; vset v node (ports ++ [c]).

(** [SetLatency] of a channel and of its credit channel. *)
Definition set_latency (w : Wiring) (c latency : Z) : res Wiring :=
  lat ← vset (wi_latency w) c latency;
  cred ← vset (wi_cred_latency w) c latency;
  Ok (mkWiring (wi_inputs w) (wi_outputs w) lat cred).

Definition build_dim (use_noc_latency : bool) (node dim : Z) (w : Wiring) : res Wiring :=
  left_node ← LeftNode node dim;
  right_node ← RightNode node dim;
  let latency := if kn_mesh net then 1 else 2 in
  let right_input := LeftChannel right_node dim in
  let left_input := RightChannel left_node dim in
  inputs ← add_port (wi_inputs w) node (Chan right_input);
  inputs ← add_port inputs node (Chan left_input);
  let w := mkWiring inputs (wi_outputs w) (wi_latency w) (wi_cred_latency w) in
  let lat := if use_noc_latency then latency else 1 in
  w ← set_latency w right_input lat;
  w ← set_latency w left_input lat;
  let right_output := RightChannel node dim in
  let left_output := LeftChannel node dim in
  outputs ← add_port (wi_outputs w) node (Chan right_output);
  outputs ← add_port outputs node (Chan left_output);
  let w := mkWiring (wi_inputs w) outputs (wi_latency w) (wi_cred_latency w) in
  w ← set_latency w right_output lat;
  set_latency w left_output lat.

Definition build_node (use_noc_latency : bool) (node : Z) (w : Wiring) : res Wiring :=
  w ← zfor 0 n (build_dim use_noc_latency node) w;
  inputs ← add_port (wi_inputs w) node (Inject node);
  outputs ← add_port (wi_outputs w) node (Eject node);
  Ok (mkWiring inputs outputs (wi_latency w) (wi_cred_latency w)).

(** A channel is created with latency 1. *)
Definition BuildNet (use_noc_latency : bool) : res Wiring :=
  zfor 0 (kn_size net) (build_node use_noc_latency)
    (mkWiring (replicate (Z.to_nat (kn_size net)) []) (replicate (Z.to_nat (kn_size net)) [])
       (replicate (Z.to_nat (kn_channels net)) 1) (replicate (Z.to_nat (kn_channels net)) 1)).
End ops.
End KNCubeOps.

(** ** Digits *)

(** The position of a node in dimension [d]. *)
Definition digit (k d x : Z) : Z := (x / k ^ d) mod k.

Section digits.
Context (k : Z) (Hk : 0 < k).

Lemma pow_pos d : 0 ≤ d → 0 < k ^ d.
Proof. intros. by apply Z.pow_pos_nonneg. Qed.

Lemma digit_range d x : 0 ≤ digit k d x < k.
Proof. by apply Z.mod_pos_bound. Qed.

Lemma digit_0 x : digit k 0 x = x mod k.
Proof. unfold digit. by rewrite Z.pow_0_r, Z.div_1_r. Qed.

Lemma digit_succ d x : 0 ≤ d → digit k (d + 1) x = digit k d (x / k).
Proof.
  intros Hd. unfold digit. rewrite Z.pow_add_r, Z.pow_1_r, (Z.mul_comm (k ^ d)) by lia.
  rewrite Z.div_div; [done|lia|by apply pow_pos].
Qed.

(** The number with digit [d] replaced by [c]. *)
Definition set_digit (d c x : Z) : Z := x + (c - digit k d x) * k ^ d.

Lemma set_digit_quot d c x j :
  0 ≤ d < j → 0 ≤ c < k → set_digit d c x / k ^ j = x / k ^ j.
Proof.
  intros Hj Hc. unfold set_digit, digit. pose proof (pow_pos d ltac:(lia)) as Hp.
  replace j with (d + (1 + (j - d - 1))) by lia. rewrite !Z.pow_add_r, Z.pow_1_r by lia.
  pose proof (pow_pos (j - d - 1) ltac:(lia)) as Hp'.
  rewrite <- !Z.div_div by lia. rewrite Z.div_add by lia. set (q := x / k ^ d).
  assert ((q + (c - q mod k)) / k = q / k) as ->; [|done].
  pose proof (Z.div_mod q k ltac:(lia)) as E. replace (q + (c - q mod k)) with (c + (q / k) * k) by lia.
  rewrite Z.div_add by lia. rewrite (Z.div_small c k) by lia. lia.
Qed.

Lemma digit_set_eq d c x : 0 ≤ d → 0 ≤ c < k → digit k d (set_digit d c x) = c.
Proof.
  intros Hd Hc. unfold set_digit, digit. pose proof (pow_pos d Hd) as Hp.
  rewrite Z.div_add by lia. set (q := x / k ^ d).
  pose proof (Z.div_mod q k ltac:(lia)) as E. replace (q + (c - q mod k)) with (c + (q / k) * k) by lia.
  rewrite Z.mod_add by lia. by apply Z.mod_small.
Qed.

Lemma digit_set_ne d c x j : 0 ≤ d → 0 ≤ j → j ≠ d → 0 ≤ c < k → digit k j (set_digit d c x) = digit k j x.
Proof.
  intros Hd Hj Hne Hc. destruct (decide (d < j)) as [Hlt|Hlt].
  - unfold digit at 1. rewrite set_digit_quot by lia. done.
  - unfold digit at 1, set_digit. set (e := c - digit k d x).
    replace d with ((d - j - 1) + (1 + j)) at 1 by lia. rewrite !Z.pow_add_r, Z.pow_1_r by lia.
    pose proof (pow_pos j Hj). rewrite Z.mul_assoc, Z.mul_assoc, Z.div_add by lia.
    by rewrite <- (Z.mul_assoc), Z.mul_assoc, Z.mod_add by lia.
Qed.

Lemma set_digit_range n d c x : 0 ≤ d < n → 0 ≤ c < k → 0 ≤ x < k ^ n → 0 ≤ set_digit d c x < k ^ n.
Proof.
  intros Hd Hc Hx. pose proof (pow_pos n ltac:(lia)) as Hp.
  pose proof (set_digit_quot d c x n Hd Hc) as E. rewrite (Z.div_small x) in E by done.
  apply Z.div_small_iff in E; [|lia]. lia.
Qed.

Lemma digits_eq n : 0 ≤ n → ∀ x y, 0 ≤ x < k ^ n → 0 ≤ y < k ^ n →
  (∀ d, 0 ≤ d < n → digit k d x = digit k d y) → x = y.
Proof.
  intros Hn. pattern n. apply zsumf_ind; [|clear n Hn|done].
  { intros x y Hx Hy _. rewrite Z.pow_0_r in *. lia. }
  intros n Hn IH x y Hx Hy He. rewrite Z.pow_add_r, Z.pow_1_r in Hx, Hy by lia.
  rewrite (Z.div_mod x k), (Z.div_mod y k) by lia. f_equal.
  - f_equal. apply IH.
    + split; [apply Z.div_pos; lia|apply Z.div_lt_upper_bound; lia].
    + split; [apply Z.div_pos; lia|apply Z.div_lt_upper_bound; lia].
    + intros d Hd. rewrite <- !digit_succ by lia. apply He. lia.
  - rewrite <- !digit_0. apply He. lia.
Qed.
End digits.

(** ** Neighbours *)

Module KNCubeInv.
Import KNCubeOps.

Lemma powi_ok x y : 0 ≤ y → powi x y = Ok (x ^ y).
Proof.
  intros Hy. assert (returns (powi x y) (λ r, r = x ^ y)) as (r & -> & ->); [|done].
  unfold powi. apply (returns_for (λ i r, r = x ^ i)); [done|done|].
  intros i r Hi ->. apply returns_ok. rewrite Z.pow_add_r, Z.pow_1_r by lia. done.
Qed.

(** A mesh or torus of positive radix. *)
Definition net_ok (net : KNCube) : Prop :=
  0 < kn_k net ∧ 0 ≤ kn_n net ∧ kn_size net = kn_k net ^ kn_n net ∧ kn_channels net = 2 * kn_n net * kn_size net.

Lemma ComputeSize_ok k n mesh : 0 < k → 0 ≤ n → returns (ComputeSize k n mesh) (λ net,
  net_ok net ∧ kn_k net = k ∧ kn_n net = n ∧ kn_mesh net = mesh).
Proof. intros Hk Hn. unfold ComputeSize. rewrite powi_ok by done. by apply returns_ok. Qed.

Section net.
Context (net : KNCube) (Hnet : net_ok net).
Local Abbreviation k := (kn_k net).
Local Abbreviation n := (kn_n net).
Local Abbreviation dig := (digit (kn_k net)).

Definition right_of (x d : Z) : Z := set_digit k d ((dig d x + 1) mod k) x.
Definition left_of (x d : Z) : Z := set_digit k d ((dig d x - 1) mod k) x.

Lemma k_pos : 0 < k.
Proof. apply Hnet. Qed.

Lemma loc_in_dim x d : 0 ≤ x → 0 ≤ d → (x `quot` (k ^ d)) `rem` k = dig d x.
Proof.
  intros Hx Hd. pose proof (pow_pos k k_pos d Hd). rewrite quot_div by lia.
  rewrite rem_mod; [done| |apply k_pos]. by apply Z.div_pos.
Qed.

Lemma RightNode_ok x d : 0 ≤ x → 0 ≤ d → RightNode net x d = Ok (right_of x d).
Proof.
  intros Hx Hd. unfold RightNode, right_of, set_digit. rewrite powi_ok by done. cbn [mbind res_bind].
  rewrite loc_in_dim by done. pose proof (digit_range k k_pos d x) as Hr. f_equal.
  destruct (Z.eqb_spec (dig d x) (k - 1)) as [E|E].
  - rewrite E. replace (k - 1 + 1) with k by lia. rewrite Z.mod_same by lia. lia.
  - rewrite Z.mod_small by lia. lia.
Qed.

Lemma LeftNode_ok x d : 0 ≤ x → 0 ≤ d → LeftNode net x d = Ok (left_of x d).
Proof.
  intros Hx Hd. unfold LeftNode, left_of, set_digit. rewrite powi_ok by done. cbn [mbind res_bind].
  rewrite loc_in_dim by done. pose proof (digit_range k k_pos d x) as Hr. f_equal.
  destruct (Z.eqb_spec (dig d x) 0) as [E|E].
  - rewrite E. replace (0 - 1) with (k - 1 + (-1) * k) by lia. rewrite Z.mod_add, Z.mod_small by lia. lia.
  - rewrite Z.mod_small by lia. lia.
Qed.

Lemma mod_k_range c : 0 ≤ c mod k < k.
Proof. apply Z.mod_pos_bound, k_pos. Qed.

Lemma right_of_range x d : 0 ≤ x < kn_size net → 0 ≤ d < n → 0 ≤ right_of x d < kn_size net.
Proof.
  destruct Hnet as (Hk & _ & Hs & _). rewrite Hs. intros Hx Hd. apply set_digit_range; try done. apply mod_k_range.
Qed.
Lemma left_of_range x d : 0 ≤ x < kn_size net → 0 ≤ d < n → 0 ≤ left_of x d < kn_size net.
Proof.
  destruct Hnet as (Hk & _ & Hs & _). rewrite Hs. intros Hx Hd. apply set_digit_range; try done. apply mod_k_range.
Qed.

(** Stepping right and then left, or left and then right, returns. *)
Lemma left_right x d : 0 ≤ x < kn_size net → 0 ≤ d < n → left_of (right_of x d) d = x.
Proof.
  intros Hx Hd. pose proof (right_of_range x d Hx Hd) as Hr. pose proof (left_of_range _ d Hr Hd) as Hlr.
  destruct Hnet as (Hk & Hn & Hs & _). rewrite Hs in *. apply (digits_eq k Hk n Hn); try done.
  intros j Hj. unfold left_of, right_of in *. destruct (decide (j = d)) as [->|Hne].
  - rewrite digit_set_eq, digit_set_eq by (try lia; apply mod_k_range).
    rewrite Zminus_mod_idemp_l. replace (dig d x + 1 - 1) with (dig d x) by lia.
    apply Z.mod_small, digit_range; lia.
  - rewrite !digit_set_ne by (try lia; apply mod_k_range). done.
Qed.

Lemma right_left x d : 0 ≤ x < kn_size net → 0 ≤ d < n → right_of (left_of x d) d = x.
Proof.
  intros Hx Hd. pose proof (left_of_range x d Hx Hd) as Hr. pose proof (right_of_range _ d Hr Hd) as Hlr.
  destruct Hnet as (Hk & Hn & Hs & _). rewrite Hs in *. apply (digits_eq k Hk n Hn); try done.
  intros j Hj. unfold left_of, right_of in *. destruct (decide (j = d)) as [->|Hne].
  - rewrite digit_set_eq, digit_set_eq by (try lia; apply mod_k_range).
    rewrite Zplus_mod_idemp_l. replace (dig d x - 1 + 1) with (dig d x) by lia. apply Z.mod_small, digit_range; lia.
  - rewrite !digit_set_ne by (try lia; apply mod_k_range). done.
Qed.

(** ** The wiring *)

Definition in_ports (x d : Z) : list chan_id :=
  flat_map (λ d, [Chan (LeftChannel net (right_of x d) d); Chan (RightChannel net (left_of x d) d)]) (seqZ 0 d).
Definition out_ports (x d : Z) : list chan_id :=
  flat_map (λ d, [Chan (RightChannel net x d); Chan (LeftChannel net x d)]) (seqZ 0 d).

Lemma channel_range x d : 0 ≤ x < kn_size net → 0 ≤ d < n →
  0 ≤ RightChannel net x d < kn_channels net ∧ 0 ≤ LeftChannel net x d < kn_channels net.
Proof.
  destruct Hnet as (_ & _ & _ & ->). intros Hx Hd. unfold RightChannel, LeftChannel.
  assert (2 * n * x ≤ 2 * n * (kn_size net - 1)) by nia. split; split; nia.
Qed.

(** Every channel belongs to one node, dimension and direction. *)
Lemma channel_onto c : 0 ≤ c < kn_channels net →
  ∃ x d, 0 ≤ x < kn_size net ∧ 0 ≤ d < n ∧ (c = RightChannel net x d ∨ c = LeftChannel net x d).
Proof.
  destruct Hnet as (_ & Hn & _ & ->). intros Hc. assert (0 < n) as Hn0 by (destruct (decide (n = 0)) as [E|]; [rewrite E in Hc; lia|lia]).
  exists (c / (2 * n)), ((c mod (2 * n)) / 2). unfold RightChannel, LeftChannel.
  pose proof (Z.div_mod c (2 * n) ltac:(lia)) as E1. pose proof (Z.mod_pos_bound c (2 * n) ltac:(lia)) as B1.
  pose proof (Z.div_mod (c mod (2 * n)) 2 ltac:(lia)) as E2. pose proof (Z.mod_pos_bound (c mod (2 * n)) 2 ltac:(lia)) as B2.
  split_and!; [apply Z.div_pos; lia|apply Z.div_lt_upper_bound; nia|apply Z.div_pos; lia|apply Z.div_lt_upper_bound; lia|].
  destruct (decide ((c mod (2 * n)) mod 2 = 0)); [left|right]; nia.
Qed.

(** The ports while the dimensions below [d] of node [x] are wired. *)
Record ports (x d : Z) (w : Wiring) : Prop := {
  po_in_len : zlen (wi_inputs w) = kn_size net;
  po_out_len : zlen (wi_outputs w) = kn_size net;
  po_in : x < kn_size net → (wi_inputs w)⟦x⟧ = in_ports x d;
  po_out : x < kn_size net → (wi_outputs w)⟦x⟧ = out_ports x d;
  po_before : ∀ y, 0 ≤ y < x →
    (wi_inputs w)⟦y⟧ = in_ports y n ++ [Inject y] ∧ (wi_outputs w)⟦y⟧ = out_ports y n ++ [Eject y];
  po_after : ∀ y, x < y < kn_size net → (wi_inputs w)⟦y⟧ = [] ∧ (wi_outputs w)⟦y⟧ = []
}.

(** The channels in [S] have their latency. *)
Record lats (lat : Z) (S : Z → Prop) (w : Wiring) : Prop := {
  la_len : zlen (wi_latency w) = kn_channels net ∧ zlen (wi_cred_latency w) = kn_channels net;
  la_set : ∀ c, S c → 0 ≤ c < kn_channels net → (wi_latency w)⟦c⟧ = lat ∧ (wi_cred_latency w)⟦c⟧ = lat
}.

Lemma set_latency_ok lat S w c : lats lat S w → 0 ≤ c < kn_channels net →
  returns (set_latency w c lat) (λ w', lats lat (λ c', c' = c ∨ S c') w' ∧
    wi_inputs w' = wi_inputs w ∧ wi_outputs w' = wi_outputs w).
Proof.
  intros [[W7 W7'] W8] Hc. unfold set_latency. do 2 rstep. apply returns_ok.
  split; [|done]. split; simpl; [split; lens|]. intros c' HS Hc'. rewrite !znth_zupd by lia.
  case_decide; [done|]. apply W8; [|done]. by destruct HS.
Qed.

Lemma lats_mono lat (S S' : Z → Prop) w : (∀ c, S' c → S c) → lats lat S w → lats lat S' w.
Proof. intros H [H1 H2]. split; auto. Qed.

Lemma lats_same lat S w inputs outputs :
  lats lat S w → lats lat S (mkWiring inputs outputs (wi_latency w) (wi_cred_latency w)).
Proof. intros [H1 H2]. by split. Qed.

Lemma flat_map_snoc {A} (f : Z → list A) d : 0 ≤ d → flat_map f (seqZ 0 (d + 1)) = flat_map f (seqZ 0 d) ++ f d.
Proof.
  intros Hd. rewrite seqZ_app by lia. rewrite flat_map_app, Z.add_0_l, (seqZ_cons d 1) by lia. simpl.
  by rewrite app_nil_r.
Qed.

Lemma ports_set x d d' w inputs outputs :
  ports x d w → 0 ≤ x < kn_size net → inputs = (wi_inputs w)⟦x := in_ports x d'⟧ →
  outputs = (wi_outputs w)⟦x := out_ports x d'⟧ → ∀ l l', ports x d' (mkWiring inputs outputs l l').
Proof.
  intros [P1 P2 P3 P4 P5 P6] Hx -> -> l l'. split; simpl; try lens.
  - intros _. by rewrite znth_zupd_eq by lia.
  - intros _. by rewrite znth_zupd_eq by lia.
  - intros y Hy. rewrite !znth_zupd_ne by lia. auto.
  - intros y Hy. rewrite !znth_zupd_ne by lia. auto.
Qed.

Lemma add_two {B} (v : list (list chan_id)) x c1 c2 (g : list (list chan_id) → res B) : 0 ≤ x < zlen v →
  (v1 ← add_port v x c1; v2 ← add_port v1 x c2; g v2) = g (v⟦x := v⟦x⟧ ++ [c1; c2]⟧).
Proof.
  intros Hx. unfold add_port. rewrite vget_ok by lens. cbn [mbind res_bind]. rewrite vset_ok by lens.
  cbn [mbind res_bind]. rewrite vget_ok by lens. cbn [mbind res_bind]. rewrite vset_ok by lens.
  rewrite znth_zupd_eq by lia. rewrite <- app_assoc. cbn [mbind res_bind]. f_equal. apply list_insert_insert_eq.
Qed.

Lemma build_dim_ok (noc : bool) x d S w :
  let lat := if noc then (if kn_mesh net then 1 else 2) else 1 in
  ports x d w → lats lat S w → 0 ≤ x < kn_size net → 0 ≤ d < n →
  returns (build_dim net noc x d w) (λ w', ports x (d + 1) w' ∧
    lats lat (λ c, c = RightChannel net x d ∨ c = LeftChannel net x d ∨ S c) w').
Proof.
  intros lat Hp Hl Hx Hd. pose proof Hp as [P1 P2 P3 P4 P5 P6]. unfold build_dim.
  destruct (channel_range _ _ (right_of_range x d Hx Hd) Hd) as [_ Hc1].
  destruct (channel_range _ _ (left_of_range x d Hx Hd) Hd) as [Hc2 _].
  destruct (channel_range _ _ Hx Hd) as [Hc3 Hc4].
  rewrite LeftNode_ok, RightNode_ok by lia. cbn [mbind res_bind]. fold lat.
  rewrite add_two by lia.
  eapply returns_bind; [apply (set_latency_ok lat S); [by apply lats_same|done]|]. intros w1 (Hl1 & Ei1 & Eo1).
  eapply returns_bind; [eapply (set_latency_ok lat); [exact Hl1|done]|]. intros w2 (Hl2 & Ei2 & Eo2). simpl in *.
  assert (0 ≤ x < zlen (wi_outputs w2)) as Hxl by (rewrite Eo2, Eo1; lia).
  rewrite add_two by done.
  eapply returns_bind; [eapply (set_latency_ok lat); [apply lats_same; exact Hl2|done]|]. intros w3 (Hl3 & Ei3 & Eo3).
  eapply returns_mono; [eapply (set_latency_ok lat); [exact Hl3|done]|]. intros w4 (Hl4 & Ei4 & Eo4). simpl in *. split.
  - destruct w4 as [i4 o4 l4 c4]. simpl in *. eapply ports_set; [exact Hp|done| |].
    { rewrite Ei4, Ei3, Ei2, Ei1, P3 by lia. unfold in_ports. by rewrite flat_map_snoc by lia. }
    rewrite Eo4, Eo3, Eo2, Eo1, P4 by lia. unfold out_ports. by rewrite flat_map_snoc by lia.
  - revert Hl4. apply lats_mono. tauto.
Qed.

Lemma build_node_ok noc x S w :
  let lat := if noc : bool then (if kn_mesh net then 1 else 2) else 1 in
  ports x 0 w → lats lat S w → 0 ≤ x < kn_size net →
  returns (build_node net noc x w) (λ w', ports (x + 1) 0 w' ∧
    lats lat (λ c, S c ∨ ∃ d, 0 ≤ d < n ∧ (c = RightChannel net x d ∨ c = LeftChannel net x d)) w').
Proof.
  intros lat Hp Hl Hx. assert (0 ≤ n) as Hn by apply Hnet. unfold build_node. eapply returns_bind.
  - apply (returns_for (λ d w, ports x d w ∧ lats lat
      (λ c, S c ∨ ∃ d', 0 ≤ d' < d ∧ (c = RightChannel net x d' ∨ c = LeftChannel net x d')) w)); [done| |].
    { split; [done|]. revert Hl. apply lats_mono. intros c [?|(d & ? & _)]; [done|lia]. }
    intros d w' Hd [Hp' Hl']. eapply returns_mono; [by apply (build_dim_ok noc x d _ w' Hp' Hl')|].
    intros w2 [Hp2 Hl2]. split; [done|]. revert Hl2. apply lats_mono. intros c [?|(d' & Hd' & Hc)]; [by right; right; left|].
    destruct (decide (d' = d)) as [->|]; [tauto|]. right. right. right. exists d'. split; [lia|done].
  - intros w' [[P1 P2 P3 P4 P5 P6] Hl']. unfold add_port.
    rewrite vget_ok by lia. cbn [mbind res_bind]. rewrite vset_ok by lia. cbn [mbind res_bind].
    rewrite vget_ok by lia. cbn [mbind res_bind]. rewrite vset_ok by lia. cbn [mbind res_bind].
    apply returns_ok. split; [|by apply lats_same]. split; simpl; try lens.
    + intros Hlt. rewrite znth_zupd_ne by lia. by destruct (P6 (x + 1)); [lia|].
    + intros Hlt. rewrite znth_zupd_ne by lia. by destruct (P6 (x + 1)); [lia|].
    + intros y Hy. rewrite !znth_zupd by lia. case_decide; [subst y; by rewrite P3, P4 by lia|]. apply P5. lia.
    + intros y Hy. rewrite !znth_zupd_ne by lia. apply P6. lia.
Qed.

Lemma BuildNet_ok noc :
  let lat := if noc : bool then (if kn_mesh net then 1 else 2) else 1 in
  returns (BuildNet net noc) (λ w, zlen (wi_inputs w) = kn_size net ∧ zlen (wi_outputs w) = kn_size net ∧
    (∀ x, 0 ≤ x < kn_size net → (wi_inputs w)⟦x⟧ = in_ports x n ++ [Inject x] ∧
       (wi_outputs w)⟦x⟧ = out_ports x n ++ [Eject x]) ∧
    ∀ c, 0 ≤ c < kn_channels net → (wi_latency w)⟦c⟧ = lat ∧ (wi_cred_latency w)⟦c⟧ = lat).
Proof.
  intros lat. pose proof Hnet as (Hk & Hn & Hs & Hc). pose proof (pow_pos k Hk n Hn) as Hpos. unfold BuildNet.
  assert (0 ≤ kn_channels net) as Hcn by (rewrite Hc; nia). eapply returns_mono.
  - apply (returns_for (λ x w, ports x 0 w ∧ lats lat
      (λ c, ∃ x' d, 0 ≤ x' < x ∧ 0 ≤ d < n ∧ (c = RightChannel net x' d ∨ c = LeftChannel net x' d)) w)); [lia| |].
    { split.
      - split; simpl; try (apply zlen_replicate; lia); intros; try lia; by rewrite !znth_replicate by lia.
      - split; simpl; [split; by apply zlen_replicate|]. intros c (x' & d & ? & _). lia. }
    intros x w Hx [Hp Hl]. eapply returns_mono; [by apply (build_node_ok noc x _ w Hp Hl)|].
    intros w' [Hp' Hl']. split; [done|]. revert Hl'. apply lats_mono. intros c (x' & d & Hx' & Hd & Hc').
    destruct (decide (x' = x)) as [->|]; [right; eauto|left]. exists x', d. split_and!; try done; lia.
  - intros w [[P1 P2 P3 P4 P5 P6] [L1 L2]]. split_and!; [done..|]. intros c Hc'. apply L2; [|done].
    destruct (channel_onto c Hc') as (x & d & Hx & Hd & E). exists x, d. done.
Qed.

Lemma flat_two {A} `{!Inhabited A} (a b : Z → A) m : 0 ≤ m →
  zlen (flat_map (λ d, [a d; b d]) (seqZ 0 m)) = 2 * m ∧
  ∀ d rest, 0 ≤ d < m → (flat_map (λ d, [a d; b d]) (seqZ 0 m) ++ rest)⟦2 * d⟧ = a d ∧
    (flat_map (λ d, [a d; b d]) (seqZ 0 m) ++ rest)⟦2 * d + 1⟧ = b d.
Proof.
  intros Hm. pattern m. apply zsumf_ind; [|clear m Hm|done].
  { split; [done|]. intros. lia. }
  intros m Hm [IHl IH]. rewrite flat_map_snoc by done. split.
  - unfold zlen in *. rewrite length_app. simpl. lia.
  - intros d rest Hd. rewrite <- app_assoc. destruct (decide (d = m)) as [->|]; [|apply IH; lia].
    set (l := flat_map _ (seqZ 0 m)) in *. unfold zlen in IHl. unfold znth.
    rewrite (lookup_total_app_r l _ (Z.to_nat (2 * m))), (lookup_total_app_r l _ (Z.to_nat (2 * m + 1))) by lia.
    replace (Z.to_nat (2 * m) - length l)%nat with O by lia.
    by replace (Z.to_nat (2 * m + 1) - length l)%nat with 1%nat by lia.
Qed.
(** The ports of router [x]. *)
Lemma port_lists x : 0 ≤ n → let ins := in_ports x n ++ [Inject x] in let outs := out_ports x n ++ [Eject x] in
  zlen ins = 2 * n + 1 ∧ zlen outs = 2 * n + 1 ∧ ins⟦2 * n⟧ = Inject x ∧ outs⟦2 * n⟧ = Eject x ∧
  ∀ d, 0 ≤ d < n → outs⟦2 * d⟧ = Chan (RightChannel net x d) ∧ outs⟦2 * d + 1⟧ = Chan (LeftChannel net x d) ∧
    ins⟦2 * d⟧ = Chan (LeftChannel net (right_of x d) d) ∧ ins⟦2 * d + 1⟧ = Chan (RightChannel net (left_of x d) d).
Proof.
  intros Hn ins outs. destruct (flat_two (λ d, Chan (RightChannel net x d)) (λ d, Chan (LeftChannel net x d)) n Hn) as [Lo Ho].
  destruct (flat_two (λ d, Chan (LeftChannel net (right_of x d) d)) (λ d, Chan (RightChannel net (left_of x d) d)) n Hn) as [Li Hi].
  assert (∀ (l : list chan_id) c, zlen l = 2 * n → zlen (l ++ [c]) = 2 * n + 1 ∧ (l ++ [c])⟦2 * n⟧ = c) as Hlast.
  { intros l c Hl. unfold zlen in *. rewrite length_app. split; [simpl; lia|]. unfold znth. rewrite lookup_total_app_r by lia. by replace (Z.to_nat (2 * n) - length l)%nat with O by lia. }
  destruct (Hlast _ (Inject x) Li), (Hlast _ (Eject x) Lo). split_and!; try done. intros d Hd. destruct (Ho d [Eject x] Hd). by destruct (Hi d [Inject x] Hd).
Qed.
End net.

(** C15. The wiring of a k-ary n-cube: [_BuildNet] runs without leaving a vector;
    the right (left) output of every router and dimension is the channel that its
    right (left) neighbour has as the input on the opposite side; output [p] of
    router [x] is channel [2*n*x + p], so every channel has exactly one driver;
    the last ports inject and eject; and all channels have the configured
    latency. *)
Theorem kncube_wiring k n mesh noc :
  0 < k → 0 ≤ n →
  returns (net ← ComputeSize k n mesh; w ← BuildNet net noc; Ok (net, w)) (λ '(net, w),
    (∀ x d, 0 ≤ x < k ^ n → 0 ≤ d < n → ∃ y z, RightNode net x d = Ok y ∧ LeftNode net x d = Ok z ∧
       0 ≤ y < k ^ n ∧ 0 ≤ z < k ^ n ∧
       (wi_outputs w)⟦x⟧⟦2 * d⟧ = (wi_inputs w)⟦y⟧⟦2 * d + 1⟧ ∧
       (wi_outputs w)⟦x⟧⟦2 * d + 1⟧ = (wi_inputs w)⟦z⟧⟦2 * d⟧) ∧
    (∀ x p, 0 ≤ x < k ^ n → 0 ≤ p < 2 * n → (wi_outputs w)⟦x⟧⟦p⟧ = Chan (2 * n * x + p)) ∧
    (∀ x, 0 ≤ x < k ^ n → (wi_inputs w)⟦x⟧⟦2 * n⟧ = Inject x ∧ (wi_outputs w)⟦x⟧⟦2 * n⟧ = Eject x) ∧
    ∀ c, 0 ≤ c < 2 * n * k ^ n → (wi_latency w)⟦c⟧ = (if (noc : bool) && negb mesh then 2 else 1) ∧
      (wi_cred_latency w)⟦c⟧ = (if (noc : bool) && negb mesh then 2 else 1)).
Proof.
  intros Hk Hn. eapply returns_bind; [by apply ComputeSize_ok|]. intros net (Hnet & <- & <- & <-).
  pose proof Hnet as (_ & _ & Hs & Hc). eapply returns_bind; [by apply BuildNet_ok|]. intros w (_ & _ & Hw & Hlat). apply returns_ok.
  rewrite <- Hs, <- Hc.
  assert (∀ x, 0 ≤ x < kn_size net → ∀ d, 0 ≤ d < kn_n net →
    (wi_outputs w)⟦x⟧⟦2 * d⟧ = Chan (RightChannel net x d) ∧ (wi_outputs w)⟦x⟧⟦2 * d + 1⟧ = Chan (LeftChannel net x d) ∧
    (wi_inputs w)⟦x⟧⟦2 * d⟧ = Chan (LeftChannel net (right_of net x d) d) ∧
    (wi_inputs w)⟦x⟧⟦2 * d + 1⟧ = Chan (RightChannel net (left_of net x d) d)) as Hp
    by (intros x Hx d Hd; destruct (Hw x Hx) as [-> ->]; by apply (port_lists net x Hn)).
  split_and!.
  - intros x d Hx Hd. exists (right_of net x d), (left_of net x d).
    pose proof (right_of_range net Hnet x d Hx Hd) as Hr. pose proof (left_of_range net Hnet x d Hx Hd) as Hl.
    rewrite RightNode_ok, LeftNode_ok by (done || lia). do 4 (split; [done|]).
    destruct (Hp x Hx d Hd) as (-> & -> & _). destruct (Hp _ Hr d Hd) as (_ & _ & _ & ->).
    destruct (Hp _ Hl d Hd) as (_ & _ & -> & _). by rewrite left_right, right_left.
  - intros x p Hx Hpr. pose proof (Z.div_mod p 2 ltac:(lia)) as E. pose proof (Z.mod_pos_bound p 2 ltac:(lia)) as B.
    destruct (Hp x Hx (p / 2)) as (H1 & H2 & _); [split; [apply Z.div_pos; lia|apply Z.div_lt_upper_bound; lia]|].
    destruct (decide (p mod 2 = 0)) as [E0|E0].
    + replace (2 * (p / 2)) with p in H1 by lia. rewrite H1. unfold RightChannel. f_equal. lia.
    + replace (2 * (p / 2) + 1) with p in H2 by lia. rewrite H2. unfold LeftChannel. f_equal. lia.
  - intros x Hx. destruct (Hw x Hx) as [-> ->]. destruct (port_lists net x Hn) as (_ & _ & -> & -> & _). done.
  - intros c Hcr. destruct (Hlat c Hcr) as [-> ->]. by destruct noc, (kn_mesh net).
Qed.

Lemma kncube_wiring_witness :
  returns (net ← ComputeSize 4 2 false; w ← BuildNet net true; Ok (net, w)) (λ '(net, w),
    (∀ x d, 0 ≤ x < 4 ^ 2 → 0 ≤ d < 2 → ∃ y z, RightNode net x d = Ok y ∧ LeftNode net x d = Ok z ∧
       0 ≤ y < 4 ^ 2 ∧ 0 ≤ z < 4 ^ 2 ∧
       (wi_outputs w)⟦x⟧⟦2 * d⟧ = (wi_inputs w)⟦y⟧⟦2 * d + 1⟧ ∧
       (wi_outputs w)⟦x⟧⟦2 * d + 1⟧ = (wi_inputs w)⟦z⟧⟦2 * d⟧) ∧
    (∀ x p, 0 ≤ x < 4 ^ 2 → 0 ≤ p < 2 * 2 → (wi_outputs w)⟦x⟧⟦p⟧ = Chan (2 * 2 * x + p)) ∧
    (∀ x, 0 ≤ x < 4 ^ 2 → (wi_inputs w)⟦x⟧⟦2 * 2⟧ = Inject x ∧ (wi_outputs w)⟦x⟧⟦2 * 2⟧ = Eject x) ∧
    ∀ c, 0 ≤ c < 2 * 2 * 4 ^ 2 → (wi_latency w)⟦c⟧ = 2 ∧ (wi_cred_latency w)⟦c⟧ = 2).
Proof. apply (kncube_wiring 4 2 false true); lia. Defined.
End KNCubeInv.
