(* ===== verification/Route.v ===== *)
(** * Routing functions of the mesh

    The routing functions of routefunc.cpp for meshes: a routing function looks
    at the router, the flit and the input channel and returns the set of output
    ports and VCs the packet may take.  It may write the [ph] and [intm] fields
    of the flit (they are [mutable]) and draw random numbers, so both are
    threaded through.  Watch output is left out. *)

From S2P Require Import Prelude OutputSet Flit Rng KNCube.

(** The globals the routing functions read: [gK], [gN], [gNodes] and the VC
    ranges of the packet classes. *)
Record Globals : Set := mkGlobals {
  gK : Z;
  gN : Z;
  gNodes : Z;
  gBeginVCs : list Z;
  gEndVCs : list Z
}.

(** What they read of the router: its number, the occupancy of the buffers
    behind its outputs and the faults of its output channels. *)
Record Router : Set := mkRouter {
  r_id : Z;
  r_occupancy : list Z;
  r_channel_faults : list bool
}.

Module RouterOps.

Definition GetUsedCredit (r : Router) (o : Z) : res Z :=
  assert! (0 <=? o) && (o <? zlen (r_occupancy r));
  vget (r_occupancy r) o.

Definition IsFaultyOutput (r : Router) (c : Z) : res bool :=
  assert! (0 <=? c) && (c <? zlen (r_channel_faults r));
  vget (r_channel_faults r) c.

End RouterOps.

Definition tRoutingFunction : Set :=
  Globals → Router → Flit → Z → OutputSet → bool → Rng → res (OutputSet * Flit * Rng).

Module RouteOps.
Import RouterOps FlitOps.

Section route.
Context (G : Globals).
Local Abbreviation k := (gK G).
Local Abbreviation n := (gN G).

(** The VCs of the flit's class, and the assertion on the VC it is in that
    every function starts with. *)
Definition class_vcs (f : Flit) (inject : bool) : res (Z * Z) :=
  vcBegin ← vget (gBeginVCs G) (f_cl f);
  vcEnd ← vget (gEndVCs G) (f_cl f);
  assert! ((vcBegin <=? f_vc f) && (f_vc f <=? vcEnd)) || (inject && (f_vc f <? 0));
  Ok (vcBegin, vcEnd).

(** [outputs->Clear(); outputs->AddRange(out_port, vcBegin, vcEnd)]. *)
Definition only (outputs : OutputSet) (out_port vcBegin vcEnd : Z) : OutputSet :=
  OutputSetOps.AddRange (OutputSetOps.Clear outputs) out_port vcBegin vcEnd 0.

(** The search for the first dimension that is left, from either end; the
    result is the dimension and the coordinates in it. *)
Definition first_dim (cur dest : Z) : res (Z * Z * Z) :=
  c ← zforb 0 (n - 1) (λ _ '(dim_left, cur, dest),
        if negb (cur `rem` k =? dest `rem` k) then Ok (Break (dim_left, cur, dest))
        else Ok (Next (dim_left + 1, cur `quot` k, dest `quot` k))) (0, cur, dest);
  let '(dim_left, cur, dest) := ctl_val c in
  Ok (dim_left, cur `rem` k, dest `rem` k).

Definition last_dim (cur dest : Z) : res (Z * Z * Z) :=
  c ← zforb 0 (n - 1) (λ _ '(dim_left, cur, dest),
        if negb ((cur * k) `quot` gNodes G =? (dest * k) `quot` gNodes G) then Ok (Break (dim_left, cur, dest))
        else Ok (Next (dim_left - 1, (cur * k) `rem` gNodes G, (dest * k) `rem` gNodes G))) (n - 1, cur, dest);
  let '(dim_left, cur, dest) := ctl_val c in
  Ok (dim_left, (cur * k) `quot` gNodes G, (dest * k) `quot` gNodes G).

Definition dor_next_mesh (cur dest : Z) (descending : bool) : res Z :=
  if cur =? dest then Ok (2 * n)
  else
    '(dim_left, cur, dest) ← (if descending then last_dim cur dest else first_dim cur dest);
    Ok (if cur <? dest then 2 * dim_left else 2 * dim_left + 1).

Definition dim_order_mesh (r : Router) (f : Flit) (in_channel : Z) (outputs : OutputSet) (inject : bool) (g : Rng)
    : res (OutputSet * Flit * Rng) :=
  out_port ← (if inject then Ok (-1) else dor_next_mesh (r_id r) (f_dest f) false);
  '(vcBegin, vcEnd) ← class_vcs f inject;
  Ok (only outputs out_port vcBegin vcEnd, f, g).

(** The share of a VC range that a destination has, when the range is divided
    into [parts]. *)
Definition dest_vcs (vcBegin vcEnd parts i : Z) : res (Z * Z) :=
  let vcs_per_dest := (vcEnd - vcBegin + 1) `quot` parts in
  assert! (0 <? vcs_per_dest);
  let vcBegin := vcBegin + i * vcs_per_dest in
  Ok (vcBegin, vcBegin + vcs_per_dest - 1).

Definition dim_order_ni_mesh (r : Router) (f : Flit) (in_channel : Z) (outputs : OutputSet) (inject : bool) (g : Rng)
    : res (OutputSet * Flit * Rng) :=
  out_port ← (if inject then Ok (-1) else dor_next_mesh (r_id r) (f_dest f) false);
  '(vcBegin, vcEnd) ← class_vcs f inject;
  '(vcBegin, vcEnd) ← (if inject || negb (r_id r =? f_dest f)
                       then dest_vcs vcBegin vcEnd (gNodes G) (f_dest f) else Ok (vcBegin, vcEnd));
  Ok (only outputs out_port vcBegin vcEnd, f, g).

Definition dim_order_pni_mesh (r : Router) (f : Flit) (in_channel : Z) (outputs : OutputSet) (inject : bool) (g : Rng)
    : res (OutputSet * Flit * Rng) :=
  out_port ← (if inject then Ok (-1) else dor_next_mesh (r_id r) (f_dest f) false);
  '(vcBegin, vcEnd) ← class_vcs f inject;
  '(vcBegin, vcEnd) ← (if inject || negb (r_id r =? f_dest f) then
      next_coord ← (if inject then Ok (f_dest f)
                    else zfor 0 (out_port `quot` 2) (λ _ c, Ok (c `quot` k)) (f_dest f));
      let next_coord := next_coord `rem` k in
      assert! (0 <=? next_coord) && (next_coord <? k);
      dest_vcs vcBegin vcEnd k next_coord
    else Ok (vcBegin, vcEnd));
  Ok (only outputs out_port vcBegin vcEnd, f, g).

(** The first or second half of a VC range. *)
Definition half_vcs (vcBegin vcEnd available_vcs : Z) (first : bool) : Z * Z :=
  if first then (vcBegin, vcEnd - available_vcs) else (vcBegin + available_vcs, vcEnd).

Definition xy_yx_mesh (r : Router) (f : Flit) (in_channel : Z) (outputs : OutputSet) (inject : bool) (g : Rng)
    : res (OutputSet * Flit * Rng) :=
  '(vcBegin, vcEnd) ← class_vcs f inject;
  if inject then Ok (only outputs (-1) vcBegin vcEnd, f, g)
  else if r_id r =? f_dest f then Ok (only outputs (2 * n) vcBegin vcEnd, f, g)
  else
    let available_vcs := (vcEnd - vcBegin + 1) `quot` 2 in
    assert! (0 <? available_vcs);
    '(x_then_y, g) ← (if in_channel <? 2 * n then Ok (f_vc f <? vcBegin + available_vcs, g)
                      else '(v, g) ← RngOps.RandomInt g 1; Ok (0 <? v, g));
    out_port ← dor_next_mesh (r_id r) (f_dest f) (negb x_then_y);
    let '(vcBegin, vcEnd) := half_vcs vcBegin vcEnd available_vcs x_then_y in
    Ok (only outputs out_port vcBegin vcEnd, f, g).

Definition adaptive_xy_yx_mesh (r : Router) (f : Flit) (in_channel : Z) (outputs : OutputSet) (inject : bool) (g : Rng)
    : res (OutputSet * Flit * Rng) :=
  '(vcBegin, vcEnd) ← class_vcs f inject;
  if inject then Ok (only outputs (-1) vcBegin vcEnd, f, g)
  else if r_id r =? f_dest f then Ok (only outputs (2 * n) vcBegin vcEnd, f, g)
  else
    let available_vcs := (vcEnd - vcBegin + 1) `quot` 2 in
    assert! (0 <? available_vcs);
    out_port_xy ← dor_next_mesh (r_id r) (f_dest f) false;
    out_port_yx ← dor_next_mesh (r_id r) (f_dest f) true;
    '(x_then_y, g) ← (if in_channel <? 2 * n then Ok (f_vc f <? vcBegin + available_vcs, g)
      else
        credit_xy ← GetUsedCredit r out_port_xy;
        credit_yx ← GetUsedCredit r out_port_yx;
        if credit_yx <? credit_xy then Ok (false, g)
        else if credit_xy <? credit_yx then Ok (true, g)
        else '(v, g) ← RngOps.RandomInt g 1; Ok (0 <? v, g));
    let '(vcBegin, vcEnd) := half_vcs vcBegin vcEnd available_vcs x_then_y in
    Ok (only outputs (if (x_then_y : bool) then out_port_xy else out_port_yx) vcBegin vcEnd, f, g).

(** A random node in the minimal quadrant of the source and the destination. *)
Definition rand_min_intr_mesh (src dest : Z) (g : Rng) : res (Z * Rng) :=
  '(intm, _, _, _, g) ← zfor 0 n (λ _ '(intm, offset, src, dest, g),
      let dist := dest `rem` k - src `rem` k in
      '(v, g) ← RngOps.RandomInt g (if 0 <? dist then dist else - dist);
      Ok (intm + offset * ((if 0 <? dist then src `rem` k else dest `rem` k) + v),
          offset * k, src `quot` k, dest `quot` k, g)) (0, 1, src, dest, g);
  Ok (intm, g).

(** The two-phase functions: the intermediate node is chosen at injection, and
    phase 1 starts where the packet reaches it. *)
Definition two_phase (pick : Flit → Rng → res (Z * Rng)) (r : Router) (f : Flit) (in_channel : Z) (g : Rng)
    : res (Flit * Rng) :=
  '(f, g) ← (if in_channel =? 2 * n then
               '(intm, g) ← pick f g; Ok (set_intm intm (set_ph 0 f), g)
             else Ok (f, g));
  Ok (if (f_ph f =? 0) && (r_id r =? f_intm f) then set_ph 1 f else f, g).

Definition phase_target (f : Flit) : Z := if f_ph f =? 0 then f_intm f else f_dest f.

(** At the destination router the VCs are not separated by phase. *)
Definition phase_vcs (r : Router) (f : Flit) (vcBegin vcEnd : Z) : res (Z * Z) :=
  if r_id r =? f_dest f then Ok (vcBegin, vcEnd)
  else
    let available_vcs := (vcEnd - vcBegin + 1) `quot` 2 in
    assert! (0 <? available_vcs);
    assert! (f_ph f =? 0) || (f_ph f =? 1);
    Ok (half_vcs vcBegin vcEnd available_vcs (f_ph f =? 0)).

Definition romm_mesh (r : Router) (f : Flit) (in_channel : Z) (outputs : OutputSet) (inject : bool) (g : Rng)
    : res (OutputSet * Flit * Rng) :=
  '(vcBegin, vcEnd) ← class_vcs f inject;
  if inject then Ok (only outputs (-1) vcBegin vcEnd, f, g)
  else
    '(f, g) ← two_phase (λ f, rand_min_intr_mesh (f_src f) (f_dest f)) r f in_channel g;
    out_port ← dor_next_mesh (r_id r) (phase_target f) false;
    '(vcBegin, vcEnd) ← phase_vcs r f vcBegin vcEnd;
    Ok (only outputs out_port vcBegin vcEnd, f, g).

Definition romm_ni_mesh (r : Router) (f : Flit) (in_channel : Z) (outputs : OutputSet) (inject : bool) (g : Rng)
    : res (OutputSet * Flit * Rng) :=
  '(vcBegin, vcEnd) ← class_vcs f inject;
  '(vcBegin, vcEnd) ← (if inject || negb (r_id r =? f_dest f)
                       then dest_vcs vcBegin vcEnd (gNodes G) (f_dest f) else Ok (vcBegin, vcEnd));
  if inject then Ok (only outputs (-1) vcBegin vcEnd, f, g)
  else
    '(f, g) ← two_phase (λ f, rand_min_intr_mesh (f_src f) (f_dest f)) r f in_channel g;
    out_port ← dor_next_mesh (r_id r) (phase_target f) false;
    Ok (only outputs out_port vcBegin vcEnd, f, g).

Definition valiant_mesh (r : Router) (f : Flit) (in_channel : Z) (outputs : OutputSet) (inject : bool) (g : Rng)
    : res (OutputSet * Flit * Rng) :=
  '(vcBegin, vcEnd) ← class_vcs f inject;
  if inject then Ok (only outputs (-1) vcBegin vcEnd, f, g)
  else
    '(f, g) ← two_phase (λ _ g, RngOps.RandomInt g (gNodes G - 1)) r f in_channel g;
    out_port ← dor_next_mesh (r_id r) (phase_target f) false;
    '(vcBegin, vcEnd) ← phase_vcs r f vcBegin vcEnd;
    Ok (only outputs out_port vcBegin vcEnd, f, g).

(** The loop over the dimensions that adds the productive ports. *)
Definition add_productive (vc_start vc_end pri cur dest : Z) (outputs : OutputSet) : res OutputSet :=
  '(outputs, _, _) ← zfor 0 n (λ d '(outputs, cur, dest),
      let outputs :=
        if cur `rem` k =? dest `rem` k then outputs
        else if cur `rem` k <? dest `rem` k then OutputSetOps.AddRange outputs (2 * d) vc_start vc_end pri
        else OutputSetOps.AddRange outputs (2 * d + 1) vc_start vc_end pri in
      Ok (outputs, cur `quot` k, dest `quot` k)) (outputs, cur, dest);
  Ok outputs.

Definition min_adapt_mesh (r : Router) (f : Flit) (in_channel : Z) (outputs : OutputSet) (inject : bool) (g : Rng)
    : res (OutputSet * Flit * Rng) :=
  '(vcBegin, vcEnd) ← class_vcs f inject;
  let outputs := OutputSetOps.Clear outputs in
  if inject then Ok (OutputSetOps.AddRange outputs (-1) vcBegin vcEnd 0, f, g)
  else if r_id r =? f_dest f then Ok (OutputSetOps.AddRange outputs (2 * n) vcBegin vcEnd 0, f, g)
  else
    let in_vc := if in_channel =? 2 * n then vcEnd else f_vc f in
    out_port ← dor_next_mesh (r_id r) (f_dest f) false;
    let outputs := OutputSetOps.AddRange outputs out_port 0 vcBegin vcBegin in
    outputs ← (if in_vc =? vcBegin then Ok outputs
               else add_productive (vcBegin + 1) vcEnd 1 (r_id r) (f_dest f) outputs);
    Ok (outputs, f, g).

Definition chaos_mesh (r : Router) (f : Flit) (in_channel : Z) (outputs : OutputSet) (inject : bool) (g : Rng)
    : res (OutputSet * Flit * Rng) :=
  let outputs := OutputSetOps.Clear outputs in
  if inject then Ok (OutputSetOps.AddRange outputs (-1) 0 0 0, f, g)
  else if r_id r =? f_dest f then Ok (OutputSetOps.AddRange outputs (2 * n) 0 0 0, f, g)
  else
    outputs ← add_productive 0 0 0 (r_id r) (f_dest f) outputs;
    Ok (outputs, f, g).

(** *** [planar_adapt_mesh] *)

(** The first unmatched dimension, skipping dimension 0 for a packet that was
    misrouted in it; the result is the dimension with the remaining coordinates. *)
Definition adaptive_plane (in_channel in_vc vcBegin vc_mult cur dest : Z) : res (Z * Z * Z) :=
  c ← zforb 0 n (λ _ '(d, cur, dest),
        if negb (cur `rem` k =? dest `rem` k) &&
           negb ((in_channel `quot` 2 =? 0) && (d =? 0) && (in_vc <? vcBegin + 2 * vc_mult))
        then Ok (Break (d, cur, dest))
        else Ok (Next (d + 1, cur `quot` k, dest `quot` k))) (0, cur, dest);
  Ok (ctl_val c).

(** The port in the second dimension of the plane: the productive one, unless
    it would reverse the packet. *)
Definition second_port (in_channel : Z) (fault : bool) (d cur dest : Z) : Z :=
  let d1_min_c :=
    if cur `rem` k <? dest `rem` k then 2 * d
    else if negb (cur `rem` k =? dest `rem` k) then 2 * d + 1
    else -1 in
  if d1_min_c =? in_channel then (if fault then Z.lxor in_channel 1 else -1) else d1_min_c.

(** Misrouting around a fault when nothing is productive in that dimension. *)
Definition misroute (r : Router) (in_channel d cur vcBegin vcEnd : Z) (outputs : OutputSet) (g : Rng)
    : res (OutputSet * Rng) :=
  '(d1_min_c, atedge, g) ←
    (if cur `rem` k =? 0 then Ok (2 * d, true, g)
     else if cur `rem` k =? k - 1 then Ok (2 * d + 1, true, g)
     else
       '(v, g) ← RngOps.RandomInt g 1;
       Ok (if 2 * d + v =? in_channel then Z.lxor in_channel 1 else 2 * d + v, false, g));
  faulty ← IsFaultyOutput r d1_min_c;
  if negb faulty then Ok (OutputSetOps.AddRange outputs d1_min_c vcBegin vcEnd 0, g)
  else if (atedge : bool) then Fail ErrorExit
  else
    faulty ← IsFaultyOutput r (Z.lxor d1_min_c 1);
    if negb faulty then Ok (OutputSetOps.AddRange outputs (Z.lxor d1_min_c 1) vcBegin vcEnd 0, g)
    else Fail ErrorExit.

Definition planar_adapt_mesh (r : Router) (f : Flit) (in_channel : Z) (outputs : OutputSet) (inject : bool) (g : Rng)
    : res (OutputSet * Flit * Rng) :=
  '(vcBegin, vcEnd) ← class_vcs f inject;
  let outputs := OutputSetOps.Clear outputs in
  if inject then Ok (OutputSetOps.AddRange outputs (-1) vcBegin vcEnd 0, f, g)
  else if r_id r =? f_dest f then Ok (OutputSetOps.AddRange outputs (2 * n) vcBegin vcEnd 0, f, g)
  else
    let vc_mult := (vcEnd - vcBegin + 1) `quot` 3 in
    '(d, cur, dest) ← adaptive_plane in_channel (f_vc f) vcBegin vc_mult (r_id r) (f_dest f);
    assert! (d <? n);
    let increase := cur `rem` k <? dest `rem` k in
    let first_port := if increase then 2 * d else 2 * d + 1 in
    fault ← IsFaultyOutput r first_port;
    let outputs := if (fault : bool) then outputs
                   else OutputSetOps.AddRange outputs first_port (vcBegin + 2 * vc_mult) vcEnd 0 in
    let d := (d + 1) `rem` n in
    let cur := cur `quot` k in
    let dest := dest `quot` k in
    let vcBegin := if increase then vcBegin else vcBegin + vc_mult in
    let vcEnd := vcBegin + vc_mult - 1 in
    let d1_min_c := second_port in_channel fault d cur dest in
    '(outputs, g) ←
      (if negb (d1_min_c =? -1) then
         faulty ← IsFaultyOutput r d1_min_c;
         if negb faulty then Ok (OutputSetOps.AddRange outputs d1_min_c vcBegin vcEnd 0, g)
         else if fault then Fail ErrorExit else Ok (outputs, g)
       else if fault then misroute r in_channel d cur vcBegin vcEnd outputs g
       else Ok (outputs, g));
    Ok (outputs, f, g).

(** Destination-tag routing of the butterfly. *)
Definition dest_tag_fly (r : Router) (f : Flit) (in_channel : Z) (outputs : OutputSet) (inject : bool) (g : Rng)
    : res (OutputSet * Flit * Rng) :=
  '(vcBegin, vcEnd) ← class_vcs f inject;
  out_port ← (if inject then Ok (-1)
    else
      let stage := (r_id r * k) `quot` gNodes G in
      dest ← zfor stage (n - 1) (λ _ dest, Ok (dest `quot` k)) (f_dest f);
      Ok (dest `rem` k));
  Ok (only outputs out_port vcBegin vcEnd, f, g).

End route.
End RouteOps.
