(* ===== verification/Mesh.v ===== *)
(** * Packets travelling through a mesh or torus

    The hops a packet can make under a routing function: at each router it takes
    some output and VC the function offers, and [kncube_wiring] says where that
    output leads.  Routers, their occupancy and the random numbers are arbitrary
    at every hop.  On top of the hops: delivery (every route ends at the
    destination after a known number of hops, with no assertion failing on the
    way) and deadlock freedom (the dependencies between buffers are acyclic).
    [RoutingLaws] is the interface through which the routing functions obtain
    both.

    Then the coordinates (digits) of the nodes of a mesh: what [dor_next_mesh]
    computes in terms of them, productive ports and the distance they shorten. *)

From stdpp Require Import relations.
From S2P Require Import Prelude OutputSet Flit Rng KNCube Route.

(** A packet at an input of a router. *)
Record place : Set := mkPlace { p_node : Z; p_in : Z; p_flit : Flit }.

Section travel.
Context (G : Globals).

Definition cube : KNCube := mkKNCube (gK G) (gN G) true (gNodes G) (2 * gN G * gNodes G).

(** Output [2d] leads to the right neighbour in dimension [d], [2d+1] to the left
    one; the packet arrives at the input of the other parity. *)
Definition neighbour (x port : Z) : res Z :=
  if Z.even port then KNCubeOps.RightNode cube x (port `quot` 2)
  else KNCubeOps.LeftNode cube x (port `quot` 2).
Definition entry_port (port : Z) : Z := Z.lxor port 1.

Definition router_ok (r : Router) : Prop :=
  zlen (r_occupancy r) = 2 * gN G + 1 ∧ zlen (r_channel_faults r) = 2 * gN G + 1.

Section hops.
Context (rf : tRoutingFunction) (healthy : Router → Prop).

Inductive hop (p p' : place) : Prop :=
  | hop_intro r g outs0 outs f g' e v y :
      router_ok r → healthy r → r_id r = p_node p → RngInv.rng_ok g →
      rf G r (p_flit p) (p_in p) outs0 false g = Ok (outs, f, g') →
      e ∈ outs → vc_start e ≤ v ≤ vc_end e → 0 ≤ output_port e < 2 * gN G →
      neighbour (p_node p) (output_port e) = Ok y →
      p' = mkPlace y (entry_port (output_port e)) (FlitOps.set_vc v f) →
      hop p p'.

(** A packet of class [cl] from [src] to [dest] at the injection port, in a VC
    that the routing function offered for injection. *)
Inductive injected (cl src dest : Z) (p : place) : Prop :=
  | injected_intro r g outs0 outs f0 f g' e v :
      RngInv.rng_ok g → f_cl f0 = cl → f_src f0 = src → f_dest f0 = dest → f_vc f0 < 0 →
      rf G r f0 (-1) outs0 true g = Ok (outs, f, g') →
      e ∈ outs → vc_start e ≤ v ≤ vc_end e →
      p = mkPlace src (2 * gN G) (FlitOps.set_vc v f) →
      injected cl src dest p.

(** The VCs of a class; [node_ok] and [class_ok] are the legal packets. *)
Definition node_ok (x : Z) : Prop := 0 ≤ x < gNodes G.
Definition first_vc (cl : Z) : Z := (gBeginVCs G)⟦cl⟧.
Definition last_vc (cl : Z) : Z := (gEndVCs G)⟦cl⟧.
Definition class_ok (cl : Z) : Prop :=
  0 ≤ cl < zlen (gBeginVCs G) ∧ cl < zlen (gEndVCs G) ∧ first_vc cl ≤ last_vc cl.
Definition in_class (cl : Z) (e : sSetElement) : Prop :=
  first_vc cl ≤ vc_start e ∧ vc_start e ≤ vc_end e ∧ vc_end e ≤ last_vc cl.

(** Whatever the router and the random numbers, routing from [p] succeeds,
    offers something, and offers only what [Q] allows. *)
Definition offers (p : place) (Q : sSetElement → Prop) : Prop := ∀ r g outs0,
  router_ok r → healthy r → r_id r = p_node p → RngInv.rng_ok g →
  returns (rf G r (p_flit p) (p_in p) outs0 false g) (λ '(outs, _, _), outs ≠ [] ∧ ∀ e, e ∈ outs → Q e).

(** Every route from [p] has exactly [D] hops and ends at the destination; on
    the way the function offers links, and at the end the ejection port, always
    with VCs of the packet's class. *)
Definition delivers (D : Z) (p : place) : Prop := ∀ i p', nsteps hop i p p' →
  Z.of_nat i ≤ D ∧ f_dest (p_flit p') = f_dest (p_flit p) ∧
  (Z.of_nat i = D → p_node p' = f_dest (p_flit p)) ∧
  offers p' (λ e, in_class (f_cl (p_flit p)) e ∧
    if decide (Z.of_nat i = D) then output_port e = 2 * gN G else 0 ≤ output_port e < 2 * gN G).

(** A buffer is an input VC of a router; a packet in one waits for those its
    next hops lead to. *)
Definition buffer_of (p : place) : Z * Z * Z := (p_node p, p_in p, f_vc (p_flit p)).
Definition waits_for (b b' : Z * Z * Z) : Prop := ∃ cl src dest p0 p p',
  class_ok cl ∧ node_ok src ∧ node_ok dest ∧ injected cl src dest p0 ∧
  rtc hop p0 p ∧ hop p p' ∧ b = buffer_of p ∧ b' = buffer_of p'.
Definition deadlock_free : Prop := ∀ b, ¬ tc waits_for b b.

(** An offered element is legal at [p]; taking it keeps the invariant [I] and
    lowers the measure [m] by one. *)
Definition elem_ok (I : place → Prop) (m : place → Z) (p : place) (f : Flit) (e : sSetElement) : Prop :=
  in_class (f_cl (p_flit p)) e ∧
  if decide (m p = 0) then output_port e = 2 * gN G
  else 0 ≤ output_port e < 2 * gN G ∧ ∀ v y, vc_start e ≤ v ≤ vc_end e →
    neighbour (p_node p) (output_port e) = Ok y →
    let p' := mkPlace y (entry_port (output_port e)) (FlitOps.set_vc v f) in
    I p' ∧ m p' = m p - 1.

Definition step_ok (I : place → Prop) (m : place → Z) (p : place) : Prop := ∀ r g outs0,
  router_ok r → healthy r → r_id r = p_node p → RngInv.rng_ok g →
  returns (rf G r (p_flit p) (p_in p) outs0 false g) (λ '(outs, f, _),
    outs ≠ [] ∧ f_dest f = f_dest (p_flit p) ∧ f_cl f = f_cl (p_flit p) ∧ ∀ e, e ∈ outs → elem_ok I m p f e).

(** What a routing function promises of the packets in its care: the measure is
    the number of hops left, and each hop lowers it by one.  [admits]: packets
    come into its care at injection. *)
Record RoutingLaws : Type := {
  ru_inv : place → Prop;
  ru_measure : place → Z;
  ru_measure_0 p : ru_inv p → 0 ≤ ru_measure p ∧ (ru_measure p = 0 → p_node p = f_dest (p_flit p));
  ru_step p : ru_inv p → step_ok ru_inv ru_measure p
}.

Definition admits (I : place → Prop) : Prop := ∀ cl src dest p,
  class_ok cl → node_ok src → node_ok dest → injected cl src dest p →
  I p ∧ f_cl (p_flit p) = cl ∧ f_dest (p_flit p) = dest ∧ p_node p = src.

(** ** What the laws give *)

Section laws.
Context (L : RoutingLaws).

Lemma hop_laws p p' : ru_inv L p → hop p p' →
  ru_inv L p' ∧ ru_measure L p' = ru_measure L p - 1 ∧
  f_dest (p_flit p') = f_dest (p_flit p) ∧ f_cl (p_flit p') = f_cl (p_flit p).
Proof.
  intros HI [r g outs0 outs f g' e v y Hr Hh Hid Hg Hrf He Hv Hport Hy ->].
  pose proof (ru_step L p HI r g outs0 Hr Hh Hid Hg) as Hs. rewrite Hrf in Hs.
  destruct Hs as (x & [= <-] & _ & Hd & Hc & Ho). destruct (Ho e He) as [_ Ho'].
  destruct (decide (ru_measure L p = 0)); [lia|]. destruct Ho' as [_ Ho'].
  destruct (Ho' v y Hv Hy) as [HI' Hm]. by split_and!.
Qed.

Lemma nsteps_laws i p p' : ru_inv L p → nsteps hop i p p' →
  ru_inv L p' ∧ ru_measure L p' = ru_measure L p - Z.of_nat i ∧
  f_dest (p_flit p') = f_dest (p_flit p) ∧ f_cl (p_flit p') = f_cl (p_flit p).
Proof.
  intros HI Hs. revert HI. induction Hs as [p|i p p1 p' H1 _ IH]; intros HI; [split_and!; try done; lia|].
  destruct (hop_laws p p1 HI H1) as (HI1 & Hm & Hd & Hc). destruct (IH HI1) as (HI' & Hm' & Hd' & Hc').
  split_and!; [done|lia|congruence|congruence].
Qed.

Lemma laws_deliver p : ru_inv L p → delivers (ru_measure L p) p.
Proof.
  intros HI i p' Hs. destruct (nsteps_laws i p p' HI Hs) as (HI' & Hm & Hd & Hc).
  destruct (ru_measure_0 L p' HI') as [H0 Hz]. rewrite Hd in Hz.
  split_and!; [lia|done|intros; apply Hz; lia|].
  intros r g outs0 Hr Hh Hid Hg. eapply returns_mono; [by apply (ru_step L p' HI')|].
  intros [[outs f] g'] (Hne & _ & _ & Ho). split; [done|]. intros e He. destruct (Ho e He) as [Hcl Hport].
  rewrite Hc in Hcl. split; [done|]. destruct (decide (ru_measure L p' = 0)).
  - by rewrite decide_True by lia.
  - rewrite decide_False by lia. by destruct Hport.
Qed.

(** A rank of the buffers that grows with every hop excludes cyclic waiting. *)
Lemma ranked_deadlock_free (rank : place → Z) :
  admits (ru_inv L) →
  (∀ p p', ru_inv L p → ru_inv L p' → buffer_of p = buffer_of p' → rank p = rank p') →
  (∀ p p', ru_inv L p → hop p p' → rank p < rank p') → deadlock_free.
Proof.
  intros Hadm Hbuf Hrank. assert (∀ b b', tc waits_for b b' → ∃ p p', ru_inv L p ∧ ru_inv L p' ∧
    b = buffer_of p ∧ b' = buffer_of p' ∧ rank p < rank p') as Ht.
  { induction 1 as [b b' Hw|b b1 b' Hw _ IH].
    all: destruct Hw as (cl & src & dest & p0 & p & p1 & Hcl & Hs & Hd & Hi & Hp & Hh & -> & ->).
    all: destruct (Hadm _ _ _ _ Hcl Hs Hd Hi) as (HI & _).
    all: apply rtc_nsteps_1 in Hp as [i Hp]; destruct (nsteps_laws i p0 p HI Hp) as (HIp & _).
    all: pose proof (hop_laws p p1 HIp Hh) as (HI1 & _); pose proof (Hrank p p1 HIp Hh).
    - by exists p, p1.
    - destruct IH as (p2 & p3 & HI2 & HI3 & E & -> & Hlt). rewrite (Hbuf p1 p2 HI1 HI2 E) in *.
      exists p, p3. split_and!; try done. lia. }
  intros b (p & p' & HI & HI' & E & E' & Hlt)%Ht. rewrite (Hbuf p p') in Hlt by congruence. lia.
Qed.
End laws.
End hops.
End travel.

(** ** Coordinates and dimension-order routing *)

Definition mesh_ok (G : Globals) : Prop := 0 < gK G ∧ 0 ≤ gN G ∧ gNodes G = gK G ^ gN G.

Section mesh.
Context (G : Globals) (HG : mesh_ok G).
Local Abbreviation k := (gK G).
Local Abbreviation n := (gN G).
Local Abbreviation dig := (digit (gK G)).

Lemma gk_pos : 0 < k.
Proof. apply HG. Qed.
Lemma cube_ok : KNCubeInv.net_ok (cube G).
Proof. destruct HG as (? & ? & ?). by split_and!. Qed.

Lemma rem_digit x d : 0 ≤ x → 0 ≤ d → (x / k ^ d) `rem` k = dig d x.
Proof.
  intros Hx Hd. apply rem_mod; [|apply gk_pos]. apply Z.div_pos; [done|]. by apply pow_pos; [apply gk_pos|].
Qed.
Lemma quot_shift x d : 0 ≤ x → 0 ≤ d → (x / k ^ d) `quot` k = x / k ^ (d + 1).
Proof.
  intros Hx Hd. pose proof gk_pos. pose proof (pow_pos k gk_pos d Hd).
  rewrite quot_div; [|by apply Z.div_pos|done]. rewrite Z.div_div, Z.pow_add_r, Z.pow_1_r by lia. done.
Qed.

(** The leading digit of the low [d + 1] ones. *)
Lemma mod_digit x d : 0 ≤ d → x mod k ^ (d + 1) / k ^ d = dig d x.
Proof.
  intros Hd. pose proof gk_pos. pose proof (pow_pos k gk_pos d Hd). unfold digit.
  rewrite Z.pow_add_r, Z.pow_1_r by lia. rewrite Z.rem_mul_r by lia.
  rewrite (Z.mul_comm (k ^ d)), Z.div_add by lia. by rewrite Z.div_small by (apply Z.mod_pos_bound; lia).
Qed.
Lemma mod_digit_low x d : 0 ≤ d → x mod k ^ (d + 1) - dig d x * k ^ d = x mod k ^ d.
Proof.
  intros Hd. pose proof gk_pos. pose proof (pow_pos k gk_pos d Hd). unfold digit.
  rewrite Z.pow_add_r, Z.pow_1_r by lia. rewrite Z.rem_mul_r by lia. lia.
Qed.

(** The search from the top: [(x mod k^(d+1)) * k^(n-d-1)] is the number the loop
    has when it looks at dimension [d]. *)
Lemma top_digit x d : 0 ≤ d < n →
  ((x mod k ^ (d + 1)) * k ^ (n - d - 1) * k) `quot` gNodes G = dig d x ∧
  ((x mod k ^ (d + 1)) * k ^ (n - d - 1) * k) `rem` gNodes G = (x mod k ^ d) * k ^ (n - d).
Proof.
  intros Hd. destruct HG as (Hk & Hn & ->). pose proof (pow_pos k Hk n ltac:(lia)).
  pose proof (pow_pos k Hk d ltac:(lia)). pose proof (pow_pos k Hk (n - d) ltac:(lia)).
  pose proof (pow_pos k Hk (n - d - 1) ltac:(lia)). pose proof (pow_pos k Hk (d + 1) ltac:(lia)) as Hp.
  pose proof (Z.mod_pos_bound x (k ^ (d + 1)) Hp) as Hm.
  assert ((x mod k ^ (d + 1)) * k ^ (n - d - 1) * k = (x mod k ^ (d + 1)) * k ^ (n - d)) as ->.
  { replace (n - d) with (n - d - 1 + 1) at 2 by lia. rewrite (Z.pow_add_r k (n - d - 1) 1), Z.pow_1_r by lia. lia. }
  assert (k ^ n = k ^ d * k ^ (n - d)) as En by (rewrite <- Z.pow_add_r by lia; f_equal; lia).
  rewrite quot_div, rem_mod by nia. rewrite En. split.
  - rewrite Z.div_mul_cancel_r by lia. apply mod_digit; lia.
  - rewrite Z.mul_mod_distr_r by lia. f_equal. rewrite Z.pow_add_r, Z.pow_1_r by lia. rewrite Z.rem_mul_r by lia.
    rewrite Z.mul_comm, Z.mod_add by lia. apply Z.mod_mod. lia.
Qed.

(** Dimension [d] is the first that is left, from the side [descending] says. *)
Definition first_left (descending : bool) (cur dest d : Z) : Prop :=
  0 ≤ d < n ∧ dig d cur ≠ dig d dest ∧
  ∀ j, 0 ≤ j < n → (if descending then d < j else j < d) → dig j cur = dig j dest.

Definition port_to (cur dest d : Z) : Z := if dig d cur <? dig d dest then 2 * d else 2 * d + 1.

Lemma first_dim_ok cur dest : node_ok G cur → node_ok G dest → cur ≠ dest →
  returns (RouteOps.first_dim G cur dest) (λ '(d, c, t),
    first_left false cur dest d ∧ c = dig d cur ∧ t = dig d dest).
Proof.
  unfold node_ok. pose proof HG as (Hk & Hn & ->). intros Hc Hd Hne.
  assert (0 < n) as Hn0 by (destruct (decide (n = 0)) as [E|]; [rewrite E, Z.pow_0_r in *; lia|lia]).
  unfold RouteOps.first_dim.
  eapply (returns_bind _ _ (λ c, ∃ d, ctl_val c = (d, cur / k ^ d, dest / k ^ d) ∧ first_left false cur dest d)).
  - eapply returns_mono; [apply (returns_forb (λ i s, s = (i, cur / k ^ i, dest / k ^ i) ∧ ∀ j, 0 ≤ j < i → dig j cur = dig j dest)
      (λ s, ∃ d, s = (d, cur / k ^ d, dest / k ^ d) ∧ first_left false cur dest d))|].
    + lia.
    + rewrite Z.pow_0_r, !Z.div_1_r. split; [done|lia].
    + intros i s Hi [-> Heq]. rewrite !rem_digit by lia. destruct (Z.eqb_spec (dig i cur) (dig i dest)) as [E|E]; apply returns_ok.
      * rewrite !quot_shift by lia. split; [done|]. intros j Hj. destruct (decide (j = i)) as [->|]; [done|apply Heq; lia].
      * exists i. split; [done|]. split_and!; [lia|lia|done|]. intros j Hj Hlt. apply Heq. lia.
    + intros [s|s] Hs; [|done]. destruct Hs as [-> Heq]. exists (n - 1). split; [done|]. split_and!; [lia|lia| |].
      * intros E. apply Hne. apply (digits_eq k Hk n Hn); try done. intros j Hj.
        destruct (decide (j = n - 1)) as [->|]; [done|apply Heq; lia].
      * intros j Hj Hlt. apply Heq. lia.
  - intros c (d & E & Hf). rewrite E. apply returns_ok. pose proof Hf as (? & _). by rewrite !rem_digit by lia.
Qed.

Lemma last_dim_ok cur dest : node_ok G cur → node_ok G dest → cur ≠ dest →
  returns (RouteOps.last_dim G cur dest) (λ '(d, c, t),
    first_left true cur dest d ∧ c = dig d cur ∧ t = dig d dest).
Proof.
  unfold node_ok. intros Hc Hd Hne. pose proof HG as (Hk & Hn & En). rewrite En in Hc, Hd.
  assert (0 < n) as Hn0 by (destruct (decide (n = 0)) as [E|]; [rewrite E, Z.pow_0_r in *; lia|lia]).
  set (at_ d := (d, (cur mod k ^ (d + 1)) * k ^ (n - d - 1), (dest mod k ^ (d + 1)) * k ^ (n - d - 1))).
  unfold RouteOps.last_dim.
  eapply (returns_bind _ _ (λ c, ∃ d, ctl_val c = at_ d ∧ first_left true cur dest d)).
  - eapply returns_mono; [apply (returns_forb (λ i s, s = at_ (n - 1 - i) ∧ ∀ j, n - 1 - i < j < n → dig j cur = dig j dest)
      (λ s, ∃ d, s = at_ d ∧ first_left true cur dest d))|].
    + lia.
    + unfold at_. rewrite Z.sub_0_r, Z.sub_add. rewrite !Z.mod_small by done.
      replace (n - (n - 1) - 1) with 0 by lia. rewrite Z.pow_0_r, !Z.mul_1_r. split; [done|lia].
    + intros i s Hi [-> Heq]. unfold at_ at 1. cbv beta iota. destruct (top_digit cur (n - 1 - i) ltac:(lia)) as [-> ->].
      destruct (top_digit dest (n - 1 - i) ltac:(lia)) as [-> ->].
      destruct (Z.eqb_spec (dig (n - 1 - i) cur) (dig (n - 1 - i) dest)) as [E|E]; apply returns_ok.
      * split.
        -- unfold at_. replace (n - 1 - (i + 1) + 1) with (n - 1 - i) by lia.
           replace (n - (n - 1 - (i + 1)) - 1) with (n - (n - 1 - i)) by lia. f_equal. f_equal. lia.
        -- intros j Hj. destruct (decide (j = n - 1 - i)) as [->|]; [done|apply Heq; lia].
      * exists (n - 1 - i). split; [done|]. split_and!; [lia|lia|done|]. intros j Hj Hlt. apply Heq. lia.
    + intros [s|s] Hs; [|done]. destruct Hs as [-> Heq]. exists (n - 1 - (n - 1)). split; [done|]. split_and!; [lia|lia| |].
      * intros E. apply Hne. apply (digits_eq k Hk n Hn); try done. intros j Hj.
        destruct (decide (j = n - 1 - (n - 1))) as [->|]; [done|apply Heq; lia].
      * intros j Hj Hlt. apply Heq. lia.
  - intros c (d & E & Hf). rewrite E. unfold at_. apply returns_ok. pose proof Hf as (Hd' & _).
    destruct (top_digit cur d Hd') as [-> _]. by destruct (top_digit dest d Hd') as [-> _].
Qed.

Lemma dor_next_mesh_ok cur dest desc : node_ok G cur → node_ok G dest →
  returns (RouteOps.dor_next_mesh G cur dest desc) (λ port,
    if decide (cur = dest) then port = 2 * n
    else ∃ d, first_left desc cur dest d ∧ port = port_to cur dest d).
Proof.
  intros Hc Hd. unfold RouteOps.dor_next_mesh. destruct (Z.eqb_spec cur dest) as [E|E].
  { apply returns_ok. by rewrite decide_True. }
  eapply (returns_bind _ _ (λ '(d, c, t), first_left desc cur dest d ∧ c = dig d cur ∧ t = dig d dest)).
  - destruct desc; [by apply last_dim_ok|by apply first_dim_ok].
  - intros [[d c] t] (Hf & -> & ->). apply returns_ok. rewrite decide_False by done. by exists d.
Qed.

(** ** Hops *)

Lemma lxor_even d : Z.lxor (2 * d) 1 = 2 * d + 1.
Proof.
  symmetry. apply Z.add_nocarry_lxor. change 1 with (Z.ones 1). rewrite Z.land_ones by lia.
  change (2 ^ 1) with 2. rewrite Z.mul_comm. apply Z.mod_mul. lia.
Qed.
Lemma lxor_odd d : Z.lxor (2 * d + 1) 1 = 2 * d.
Proof. by rewrite <- lxor_even, Z.lxor_assoc, Z.lxor_nilpotent, Z.lxor_0_r. Qed.
Lemma quot_even d : 0 ≤ d → (2 * d) `quot` 2 = d.
Proof. intros. rewrite Z.mul_comm. by apply Z.quot_mul. Qed.
Lemma quot_odd d : 0 ≤ d → (2 * d + 1) `quot` 2 = d.
Proof. intros. rewrite quot_div by lia. symmetry. by apply (Z.div_unique_pos _ _ d 1). Qed.

Lemma neighbour_right x d : 0 ≤ x → 0 ≤ d →
  neighbour G x (2 * d) = Ok (set_digit k d ((dig d x + 1) mod k) x).
Proof.
  intros Hx Hd. unfold neighbour. rewrite Z.even_mul, quot_even by done. simpl.
  by apply (KNCubeInv.RightNode_ok (cube G) cube_ok).
Qed.
Lemma neighbour_left x d : 0 ≤ x → 0 ≤ d →
  neighbour G x (2 * d + 1) = Ok (set_digit k d ((dig d x - 1) mod k) x).
Proof.
  intros Hx Hd. unfold neighbour. rewrite Z.even_add, Z.even_mul, quot_odd by done. simpl.
  by apply (KNCubeInv.LeftNode_ok (cube G) cube_ok).
Qed.

(** [y] is [x] with coordinate [d] one step closer to that of [dest], on input
    [port]. *)
Definition closer (dest d x y port : Z) : Prop :=
  (dig d x < dig d dest ∧ y = set_digit k d (dig d x + 1) x ∧ port = 2 * d + 1) ∨
  (dig d dest < dig d x ∧ y = set_digit k d (dig d x - 1) x ∧ port = 2 * d).

Lemma port_to_range cur dest d : 0 ≤ d < n → 0 ≤ port_to cur dest d < 2 * n.
Proof. intros Hd. unfold port_to. destruct (_ <? _); lia. Qed.

Lemma neighbour_closer cur dest d y : node_ok G cur → 0 ≤ d < n → dig d cur ≠ dig d dest →
  neighbour G cur (port_to cur dest d) = Ok y → closer dest d cur y (entry_port (port_to cur dest d)).
Proof.
  unfold node_ok. intros Hc Hd Hne. unfold port_to, closer, entry_port.
  pose proof (digit_range k gk_pos d cur). pose proof (digit_range k gk_pos d dest).
  destruct (Z.ltb_spec (dig d cur) (dig d dest)).
  - rewrite neighbour_right by lia. intros [= <-]. left. rewrite lxor_even, Z.mod_small by lia. by split_and!.
  - rewrite neighbour_left by lia. intros [= <-]. right. rewrite lxor_odd, Z.mod_small by lia. split_and!; try done; lia.
Qed.

(** The coordinates after a hop. *)
Lemma closer_digits dest d x y port : 0 ≤ d < n → closer dest d x y port →
  (∀ j, 0 ≤ j < n → j ≠ d → dig j y = dig j x) ∧
  Z.abs (dig d y - dig d dest) = Z.abs (dig d x - dig d dest) - 1.
Proof.
  intros Hd Hc. pose proof (digit_range k gk_pos d x). pose proof (digit_range k gk_pos d dest).
  destruct Hc as [(Hlt & -> & _)|(Hlt & -> & _)]; (split; [intros j Hj Hne; apply digit_set_ne; lia || apply gk_pos|]);
    rewrite digit_set_eq by (lia || apply gk_pos); lia.
Qed.

Lemma closer_node_ok dest d x y port : 0 ≤ d < n → node_ok G x → closer dest d x y port → node_ok G y.
Proof.
  unfold node_ok. destruct HG as (Hk & _ & ->). intros Hd Hx Hc.
  pose proof (digit_range k Hk d x). pose proof (digit_range k Hk d dest).
  destruct Hc as [(Hlt & -> & _)|(Hlt & -> & _)]; apply set_digit_range; lia.
Qed.

(** ** Distance *)

Definition mdist (x y : Z) : Z := zsumf (λ d, Z.abs (dig d x - dig d y)) n.

Lemma mdist_nonneg x y : 0 ≤ mdist x y.
Proof. destruct HG as (_ & Hn & _). apply zsumf_nonneg; [done|]. lia. Qed.

Lemma mdist_0 x y : node_ok G x → node_ok G y → mdist x y = 0 ↔ x = y.
Proof.
  unfold node_ok. destruct HG as (Hk & Hn & ->). intros Hx Hy. split.
  - intros E. apply (digits_eq k Hk n Hn); try done. intros d Hd.
    pose proof (zsumf_ge (λ d, Z.abs (dig d x - dig d y)) n d Hd ltac:(simpl; lia)) as H1. unfold mdist in E. simpl in H1. lia.
  - intros ->. unfold mdist. rewrite <- (zsumf_const_0 n). apply zsumf_ext. intros. lia.
Qed.

Lemma mdist_closer dest d x y port : 0 ≤ d < n → closer dest d x y port → mdist y dest = mdist x dest - 1.
Proof.
  intros Hd Hc. destruct (closer_digits dest d x y port Hd Hc) as [Hne Hd'].
  unfold mdist. rewrite (zsumf_change (λ j, Z.abs (dig j x - dig j dest)) (λ j, Z.abs (dig j y - dig j dest)) n d).
  - lia.
  - done.
  - intros j Hj Hj'. by rewrite Hne.
Qed.

(** ** Dimension order along a route *)

(** A packet for [dest] that has come to input [port] of [x] in dimension order:
    the dimensions before that of the port are done, and the last one was not
    overshot. *)
Definition on_course (desc : bool) (dest x port : Z) : Prop :=
  port = 2 * n ∨ ∃ d, 0 ≤ d < n ∧
    (∀ j, 0 ≤ j < n → (if desc then d < j else j < d) → dig j x = dig j dest) ∧
    ((port = 2 * d + 1 ∧ dig d x ≤ dig d dest) ∨ (port = 2 * d ∧ dig d dest ≤ dig d x)).

Lemma on_course_hop desc dest d x y port :
  first_left desc x dest d → closer dest d x y port → on_course desc dest y port.
Proof.
  intros (Hd & Hne & Hdone) Hc. destruct (closer_digits dest d x y port Hd Hc) as [Hoth Hd'].
  right. exists d. split_and!; [lia|lia| |].
  - intros j Hj Hjd. rewrite Hoth; [by apply Hdone|done|]. destruct desc; lia.
  - pose proof (digit_range k gk_pos d x). pose proof (digit_range k gk_pos d dest).
    destruct Hc as [(Hlt & -> & ->)|(Hlt & -> & ->)]; [left|right]; (split; [done|]);
      rewrite digit_set_eq by (lia || apply gk_pos); lia.
Qed.

(** The rank of an input in dimension order: the dimension first, then the
    position in the direction of travel; injection comes before all. *)
Definition dim_rank (desc : bool) (d : Z) : Z := if desc then n - 1 - d else d.
Definition dor_rank (desc : bool) (x port : Z) : Z :=
  if port =? 2 * n then -1
  else dim_rank desc (port `quot` 2) * k +
       (if Z.even port then k - 1 - dig (port `quot` 2) x else dig (port `quot` 2) x).

Lemma dor_rank_injection desc x : dor_rank desc x (2 * n) = -1.
Proof. unfold dor_rank. by rewrite Z.eqb_refl. Qed.
Lemma dor_rank_right desc x d : 0 ≤ d < n → dor_rank desc x (2 * d + 1) = dim_rank desc d * k + dig d x.
Proof.
  intros Hd. unfold dor_rank. destruct (Z.eqb_spec (2 * d + 1) (2 * n)); [lia|].
  rewrite quot_odd, Z.even_add, Z.even_mul by lia. done.
Qed.
Lemma dor_rank_left desc x d : 0 ≤ d < n → dor_rank desc x (2 * d) = dim_rank desc d * k + (k - 1 - dig d x).
Proof.
  intros Hd. unfold dor_rank. destruct (Z.eqb_spec (2 * d) (2 * n)); [lia|].
  rewrite quot_even, Z.even_mul by lia. done.
Qed.

Lemma dor_rank_range desc dest x port : on_course desc dest x port → -1 ≤ dor_rank desc x port < n * k.
Proof.
  pose proof gk_pos. destruct HG as (_ & Hn & _). intros [->|(d & Hd & _ & Hp)].
  - unfold dor_rank. rewrite Z.eqb_refl. nia.
  - pose proof (digit_range k gk_pos d x). assert (0 ≤ dim_rank desc d ≤ n - 1) by (unfold dim_rank; destruct desc; lia).
    destruct Hp as [[-> _]|[-> _]]; [rewrite dor_rank_right by done|rewrite dor_rank_left by done]; nia.
Qed.

Lemma dor_rank_entry desc dest d x y port : 0 ≤ d < n → closer dest d x y port →
  dim_rank desc d * k ≤ dor_rank desc y port.
Proof.
  intros Hd Hc. pose proof (digit_range k gk_pos d y).
  destruct Hc as [(_ & _ & ->)|(_ & _ & ->)]; [rewrite dor_rank_right by done|rewrite dor_rank_left by done]; nia.
Qed.

Lemma dor_rank_hop desc dest d x y port port' :
  on_course desc dest x port → first_left desc x dest d → closer dest d x y port' →
  dor_rank desc x port < dor_rank desc y port'.
Proof.
  intros Hon Hf Hc. pose proof Hf as (Hd & Hne & Hdone). pose proof gk_pos as Hk.
  pose proof (dor_rank_entry desc dest d x y port' Hd Hc) as He.
  assert (0 ≤ dim_rank desc d) by (unfold dim_rank; destruct desc; lia).
  destruct Hon as [->|(d0 & Hd0 & Hdone0 & Hp)].
  { unfold dor_rank at 1. rewrite Z.eqb_refl. nia. }
  pose proof (digit_range k gk_pos d0 x) as Hr0. destruct (decide (d0 = d)) as [->|Hdd].
  - pose proof (digit_range k gk_pos d dest).
    destruct Hp as [[-> Hle]|[-> Hle]], Hc as [(Hlt & -> & ->)|(Hlt & -> & ->)]; try lia.
    + rewrite !dor_rank_right by done. rewrite digit_set_eq by (lia || done). lia.
    + rewrite !dor_rank_left by done. rewrite digit_set_eq by (lia || done). lia.
  - assert (dim_rank desc d0 < dim_rank desc d) as Hlt.
    { unfold dim_rank. pose proof (Hdone0 d Hd) as Hb. destruct desc.
      - destruct (decide (d0 < d)); [by destruct Hne; apply Hb|lia].
      - destruct (decide (d < d0)); [by destruct Hne; apply Hb|lia]. }
    destruct Hp as [[-> _]|[-> _]]; [rewrite dor_rank_right by done|rewrite dor_rank_left by done]; nia.
Qed.
End mesh.
