(* ===== verification/MeshRouting.v ===== *)
(** * Delivery and deadlock freedom of the mesh routing functions

    Each routing function of [Route] discharges [RoutingLaws]; delivery follows,
    and for the functions that order the buffers, deadlock freedom. *)

From stdpp Require Import relations.
From S2P Require Import Prelude OutputSet Flit Rng KNCube Route Mesh.
Import RouteOps.

(** Every router is acceptable. *)
Definition any_router : Router → Prop := λ _, True.

Section common.
Context (G : Globals) (HG : mesh_ok G).
Local Abbreviation k := (gK G).
Local Abbreviation n := (gN G).
Local Abbreviation first_vc := (first_vc G).
Local Abbreviation last_vc := (last_vc G).

(** A packet in the network: nodes, class and VC are legal. *)
Definition legal (p : place) : Prop :=
  node_ok G (p_node p) ∧ node_ok G (f_dest (p_flit p)) ∧ class_ok G (f_cl (p_flit p)) ∧
  first_vc (f_cl (p_flit p)) ≤ f_vc (p_flit p) ≤ last_vc (f_cl (p_flit p)).

Definition to_go (p : place) : Z := mdist G (p_node p) (f_dest (p_flit p)).

Lemma to_go_0 p : legal p → 0 ≤ to_go p ∧ (to_go p = 0 ↔ p_node p = f_dest (p_flit p)).
Proof. intros (Hx & Hd & _). split; [by apply mdist_nonneg|by apply mdist_0]. Qed.
Lemma to_go_end p : legal p → 0 ≤ to_go p ∧ (to_go p = 0 → p_node p = f_dest (p_flit p)).
Proof. intros Hl. destruct (to_go_0 p Hl) as [H0 Hz]. by split; [|apply Hz]. Qed.

Lemma class_vcs_link f : class_ok G (f_cl f) → first_vc (f_cl f) ≤ f_vc f ≤ last_vc (f_cl f) →
  class_vcs G f false = Ok (first_vc (f_cl f), last_vc (f_cl f)).
Proof.
  intros (Hc & Hc' & _) Hv. unfold class_vcs. vgets. fold (first_vc (f_cl f)) (last_vc (f_cl f)). destruct (Z.leb_spec (first_vc (f_cl f)) (f_vc f)); [|lia].
  destruct (Z.leb_spec (f_vc f) (last_vc (f_cl f))); [done|lia].
Qed.

Lemma class_vcs_inject f : class_ok G (f_cl f) → f_vc f < 0 →
  class_vcs G f true = Ok (first_vc (f_cl f), last_vc (f_cl f)).
Proof.
  intros (Hc & Hc' & _) Hv. unfold class_vcs. vgets. fold (first_vc (f_cl f)) (last_vc (f_cl f)). destruct (Z.ltb_spec (f_vc f) 0); [|lia].
  by rewrite orb_true_r.
Qed.

Lemma elem_of_only outs port b e x : x ∈ only outs port b e → x = SetElement b e 0 port.
Proof. by intros ?%list_elem_of_singleton. Qed.

(** An element a dimension-order step offers. *)
Lemma dor_elem I p f desc e :
  legal p → f_dest f = f_dest (p_flit p) →
  (if decide (p_node p = f_dest (p_flit p)) then output_port e = 2 * n
   else ∃ d, first_left G desc (p_node p) (f_dest (p_flit p)) d ∧ output_port e = port_to G (p_node p) (f_dest (p_flit p)) d) →
  in_class G (f_cl (p_flit p)) e →
  (∀ d y v, p_node p ≠ f_dest (p_flit p) → first_left G desc (p_node p) (f_dest (p_flit p)) d → vc_start e ≤ v ≤ vc_end e →
     closer G (f_dest (p_flit p)) d (p_node p) y (entry_port (output_port e)) →
     I (mkPlace y (entry_port (output_port e)) (FlitOps.set_vc v f))) →
  elem_ok G I to_go p f e.
Proof.
  intros Hl Hf Hport Hr HI. split; [done|]. pose proof (to_go_0 p Hl) as [_ Hz].
  destruct (decide (p_node p = f_dest (p_flit p))) as [E|E]; [by rewrite decide_True by (by apply Hz)|].
  rewrite decide_False by (by rewrite Hz). destruct Hport as (d & Hfl & Ep). pose proof Hfl as (Hd & Hne & _).
  split; [rewrite Ep; by apply port_to_range|].
  intros v y Hv Hy. rewrite Ep in Hy. pose proof (neighbour_closer G HG _ _ _ _ (proj1 Hl) Hd Hne Hy) as Hc. rewrite <- Ep in Hc.
  split; [by apply (HI d)|]. unfold to_go. simpl. rewrite Hf. by apply (mdist_closer G HG _ d _ _ _ Hd Hc).
Qed.

(** Laws whose measure is the distance deliver along shortest routes. *)
Lemma shortest_deliver rf healthy (L : RoutingLaws G rf healthy) cl src dest p :
  admits G rf (ru_inv _ _ _ L) → (∀ p, ru_measure _ _ _ L p = to_go p) →
  class_ok G cl → node_ok G src → node_ok G dest → injected G rf cl src dest p →
  delivers G rf healthy (mdist G src dest) p.
Proof.
  intros Hadm Hm Hcl Hs Hd Hi. destruct (Hadm _ _ _ _ Hcl Hs Hd Hi) as (HI & _ & Ed & Es).
  pose proof (laws_deliver _ _ _ L p HI) as Hdel. rewrite Hm in Hdel. unfold to_go in Hdel. by rewrite Ed, Es in Hdel.
Qed.
End common.

(** ** Dimension order *)

Section dor.
Context (G : Globals) (HG : mesh_ok G).
Local Abbreviation n := (gN G).
Local Abbreviation first_vc := (first_vc G).
Local Abbreviation last_vc := (last_vc G).

(** The routing function offers the dimension-order port only, with VCs of the
    class, and leaves the flit as it is; [ok] is what it needs to know of the
    input it looks at. *)
Context (healthy : Router → Prop) (ok : Z → Flit → Prop).

Record dor_like (rf : tRoutingFunction) : Prop := {
  dl_link r f in_channel outs g port :
    class_ok G (f_cl f) → first_vc (f_cl f) ≤ f_vc f ≤ last_vc (f_cl f) → router_ok G r → healthy r →
    node_ok G (r_id r) → node_ok G (f_dest f) → ok in_channel f → dor_next_mesh G (r_id r) (f_dest f) false = Ok port →
    ∃ outs' g', rf G r f in_channel outs false g = Ok (outs', f, g') ∧ outs' ≠ [] ∧ ∀ e, e ∈ outs' →
      output_port e = port ∧ in_class G (f_cl f) e ∧
      ∀ v, vc_start e ≤ v ≤ vc_end e → ok (entry_port port) (FlitOps.set_vc v f);
  dl_inject r f outs g :
    class_ok G (f_cl f) → f_vc f < 0 → node_ok G (f_dest f) →
    ∃ outs' g', rf G r f (-1) outs true g = Ok (outs', f, g') ∧ ∀ e, e ∈ outs' →
      in_class G (f_cl f) e ∧ ∀ v, vc_start e ≤ v ≤ vc_end e → ok (2 * n) (FlitOps.set_vc v f)
}.

Definition dor_inv (p : place) : Prop :=
  legal G p ∧ on_course G false (f_dest (p_flit p)) (p_node p) (p_in p) ∧ ok (p_in p) (p_flit p).

Lemma dor_admits rf : dor_like rf → admits G rf dor_inv.
Proof.
  intros H cl src dest p Hcl Hs Hd [r g outs0 outs f0 f g' e v Hg Ecl Es Ed Hv Hrf He Hve ->].
  destruct (dl_inject _ H r f0 outs0 g) as (outs' & g2 & Hrf' & Hb); [congruence|done|congruence|].
  rewrite Hrf in Hrf'. injection Hrf' as -> -> ->. destruct (Hb e He) as [(? & ? & ?) Hok]. simpl in *.
  split_and!; try done. split; [|split; [by left|by apply Hok]]. split_and!; simpl; try congruence; lia.
Qed.

Definition dor_laws rf (H : dor_like rf) : RoutingLaws G rf healthy.
Proof.
  refine {| ru_inv := dor_inv; ru_measure := to_go G |}.
  - intros p [Hl _]. by apply to_go_end.
  - intros p (Hl & Hon & Hok) r g outs0 Hr Hh Hid Hg. pose proof Hl as (Hx & Hd & Hc & Hv).
    destruct (dor_next_mesh_ok G HG (p_node p) _ false Hx Hd) as (port & Hport & Hspec). rewrite <- Hid in Hport.
    destruct (dl_link _ H r (p_flit p) (p_in p) outs0 g port) as (outs & g' & -> & Hne & Ho); try done; [by rewrite Hid|].
    apply returns_ok. split_and!; try done. intros e He. destruct (Ho e He) as (<- & Hbe & Hok').
    apply (dor_elem G HG _ _ _ false); try done.
    intros d y v Hne' Hfl Hve Hcl. pose proof Hfl as (Hdn & _). destruct Hbe as (? & ? & ?).
    split; [|split; [by apply (on_course_hop G HG false _ d (p_node p))|by apply Hok']].
    split_and!; simpl; try done; [by apply (closer_node_ok G HG _ d _ _ _ Hdn Hx Hcl)|lia|lia].
Defined.

Lemma dor_hop_rank rf p p' : dor_like rf → dor_inv p → hop G rf healthy p p' →
  dor_rank G false (p_node p) (p_in p) < dor_rank G false (p_node p') (p_in p').
Proof.
  intros H (Hl & Hon & Hok) [r g outs0 outs f g' e v y Hr Hh Hid Hg Hrf He Hv Hp Hy ->].
  pose proof Hl as (Hx & Hd & Hc & Hvc).
  destruct (dor_next_mesh_ok G HG (p_node p) _ false Hx Hd) as (port & Hport & Hspec). rewrite <- Hid in Hport.
  destruct (dl_link _ H r (p_flit p) (p_in p) outs0 g port) as (outs' & g2 & E & _ & Ho); try done; [by rewrite Hid|].
  rewrite Hrf in E. injection E as -> -> ->. destruct (Ho e He) as (<- & _). simpl in *.
  destruct (decide (p_node p = f_dest (p_flit p))); [lia|]. destruct Hspec as (d & Hfl & Ep).
  pose proof Hfl as (Hdn & Hne & _). rewrite Ep in *. pose proof (neighbour_closer G HG _ _ _ _ Hx Hdn Hne Hy) as Hcl.
  by apply (dor_rank_hop G HG false (f_dest (p_flit p)) d).
Qed.

Lemma dor_deadlock_free rf : dor_like rf → deadlock_free G rf healthy.
Proof.
  intros H. apply (ranked_deadlock_free _ _ _ (dor_laws rf H) (λ p, dor_rank G false (p_node p) (p_in p))).
  - by apply dor_admits.
  - intros p p' _ _ [= -> -> _]. done.
  - intros p p' HI Hh. by apply (dor_hop_rank rf).
Qed.

(** Wherever the packet gets, only the dimension-order port is offered. *)
Lemma dor_offers rf p p' : dor_like rf → dor_inv p → rtc (hop G rf healthy) p p' →
  offers G rf healthy p' (λ e, dor_next_mesh G (p_node p') (f_dest (p_flit p')) false = Ok (output_port e)).
Proof.
  intros H HI Hr. apply rtc_nsteps_1 in Hr as [i Hr].
  destruct (nsteps_laws _ _ _ (dor_laws rf H) i p p' HI Hr) as ((Hl & Hon & Hok) & _).
  intros r g outs0 Hr' Hh Hid Hg. pose proof Hl as (Hx & Hd & Hc & Hv).
  destruct (dor_next_mesh_ok G HG (p_node p') _ false Hx Hd) as (port & Hport & _). rewrite <- Hid in Hport, Hx.
  destruct (dl_link _ H r (p_flit p') (p_in p') outs0 g port) as (outs & g' & -> & Hne & Ho); try done.
  apply returns_ok. split; [done|]. intros e He. destruct (Ho e He) as (<- & _). by rewrite <- Hid.
Qed.

(** A function that offers a single range of VCs. *)
Lemma only_dor (rf : tRoutingFunction) :
  (∀ i f, ok i f) →
  (∀ r f in_channel outs g port, class_ok G (f_cl f) → first_vc (f_cl f) ≤ f_vc f ≤ last_vc (f_cl f) →
     node_ok G (r_id r) → node_ok G (f_dest f) → dor_next_mesh G (r_id r) (f_dest f) false = Ok port →
     ∃ b e, rf G r f in_channel outs false g = Ok (only outs port b e, f, g) ∧
       first_vc (f_cl f) ≤ b ∧ b ≤ e ∧ e ≤ last_vc (f_cl f)) →
  (∀ r f outs g, class_ok G (f_cl f) → f_vc f < 0 → node_ok G (f_dest f) →
     ∃ b e, rf G r f (-1) outs true g = Ok (only outs (-1) b e, f, g) ∧
       first_vc (f_cl f) ≤ b ∧ b ≤ e ∧ e ≤ last_vc (f_cl f)) → dor_like rf.
Proof.
  intros Hok Hl Hi. split.
  - intros r f i outs g port Hc Hv _ _ Hx Hd _ Hp. destruct (Hl r f i outs g port Hc Hv Hx Hd Hp) as (b & e & -> & Hbe).
    eexists _, g. split_and!; [done|done|]. by intros x ->%elem_of_only.
  - intros r f outs g Hc Hv Hd. destruct (Hi r f outs g Hc Hv Hd) as (b & e & -> & Hbe).
    eexists _, g. split; [done|]. by intros x ->%elem_of_only.
Qed.
End dor.

(** No condition on the input. *)
Definition any_input : Z → Flit → Prop := λ _ _, True.

Section dim_order.
Context (G : Globals) (HG : mesh_ok G).
Local Abbreviation k := (gK G).
Local Abbreviation first_vc := (first_vc G).
Local Abbreviation last_vc := (last_vc G).

(** Every class has at least [parts] VCs. *)
Definition vcs_for (parts : Z) : Prop := ∀ cl, class_ok G cl → parts ≤ last_vc cl - first_vc cl + 1.

Lemma dest_vcs_ok b e parts i : 0 < parts ≤ e - b + 1 → 0 ≤ i < parts →
  let per := (e - b + 1) `quot` parts in
  dest_vcs b e parts i = Ok (b + i * per, b + i * per + per - 1) ∧
  b ≤ b + i * per ∧ b + i * per ≤ b + i * per + per - 1 ∧ b + i * per + per - 1 ≤ e.
Proof.
  intros Hp Hi per. assert (0 < per) as H0 by (apply Z.quot_str_pos; lia).
  assert (parts * per ≤ e - b + 1) as H1 by (apply Z.mul_quot_le; lia).
  unfold dest_vcs. fold per. destruct (Z.ltb_spec 0 per); [|lia]. split; [done|]. nia.
Qed.

Lemma dim_order_mesh_dor : dor_like G any_router any_input dim_order_mesh.
Proof.
  apply only_dor; [done| |].
  - intros r f i outs g port Hc Hv Hx Hd Hport. exists (first_vc (f_cl f)), (last_vc (f_cl f)).
    unfold dim_order_mesh. rewrite Hport. cbn [mbind res_bind]. rewrite class_vcs_link by done. split; [done|].
    destruct Hc as (_ & _ & ?). lia.
  - intros r f outs g Hc Hv Hd. exists (first_vc (f_cl f)), (last_vc (f_cl f)). unfold dim_order_mesh.
    cbn [mbind res_bind]. rewrite class_vcs_inject by done. split; [done|]. destruct Hc as (_ & _ & ?). lia.
Qed.

Lemma dim_order_ni_mesh_dor : vcs_for (gNodes G) → dor_like G any_router any_input dim_order_ni_mesh.
Proof.
  intros Hni. apply only_dor; [done| |].
  - intros r f i outs g port Hc Hv Hx Hd Hport. unfold dim_order_ni_mesh. rewrite Hport. cbn [mbind res_bind].
    rewrite class_vcs_link by done. cbn [mbind res_bind orb]. pose proof (Hni _ Hc) as Hn. unfold node_ok in Hd.
    destruct (Z.eqb_spec (r_id r) (f_dest f)); cbn [negb].
    + exists (first_vc (f_cl f)), (last_vc (f_cl f)). split; [done|]. destruct Hc as (_ & _ & ?). lia.
    + destruct (dest_vcs_ok (first_vc (f_cl f)) (last_vc (f_cl f)) (gNodes G) (f_dest f)) as [-> Hr]; [lia|done|].
      eexists _, _. by split.
  - intros r f outs g Hc Hv Hd. unfold dim_order_ni_mesh. cbn [mbind res_bind orb]. rewrite class_vcs_inject by done.
    pose proof (Hni _ Hc) as Hn. unfold node_ok in Hd. cbn [mbind res_bind].
    destruct (dest_vcs_ok (first_vc (f_cl f)) (last_vc (f_cl f)) (gNodes G) (f_dest f)) as [-> Hr]; [lia|done|].
    eexists _, _. by split.
Qed.

(** The loop that shifts the destination to the coordinate of a dimension. *)
Lemma shift_ok x m : 0 ≤ x → 0 ≤ m → zfor 0 m (λ _ c, Ok (c `quot` k)) x = Ok (x / k ^ m).
Proof.
  intros Hx Hm. assert (returns (zfor 0 m (λ _ c, Ok (c `quot` k)) x) (λ c, c = x / k ^ m)) as (c & -> & ->); [|done].
  apply (returns_for (λ i c, c = x / k ^ i)); [done|by rewrite Z.pow_0_r, Z.div_1_r|].
  intros i c Hi ->. apply returns_ok. by apply quot_shift; try lia.
Qed.

(** A VC of the share of a coordinate. *)
Lemma coord_vcs_ok b e c : k ≤ e - b + 1 → 0 ≤ c < k →
  ∃ b' e', (assert! (0 <=? c) && (c <? k); dest_vcs b e k c) = Ok (b', e') ∧ b ≤ b' ∧ b' ≤ e' ∧ e' ≤ e.
Proof.
  intros Hk Hc. destruct (Z.leb_spec 0 c); [|lia]. destruct (Z.ltb_spec c k); [|lia]. cbn [andb cassert mbind res_bind].
  destruct (dest_vcs_ok b e k c) as [-> Hr]; [|done|].
  - lia.
  - eexists _, _. by split.
Qed.

Lemma dim_order_pni_mesh_dor : vcs_for k → dor_like G any_router any_input dim_order_pni_mesh.
Proof.
  intros Hni. apply only_dor; [done| |].
  - intros r f i outs g port Hc Hv Hx Hd Hport. unfold dim_order_pni_mesh. rewrite Hport. cbn [mbind res_bind].
    rewrite class_vcs_link by done. cbn [mbind res_bind orb]. pose proof (Hni _ Hc) as Hn.
    destruct (dor_next_mesh_ok G HG _ _ false Hx Hd) as (port' & E & Hspec). rewrite Hport in E. injection E as <-.
    destruct (Z.eqb_spec (r_id r) (f_dest f)) as [E|E]; cbn [negb].
    + exists (first_vc (f_cl f)), (last_vc (f_cl f)). split; [done|]. destruct Hc as (_ & _ & ?). lia.
    + rewrite decide_False in Hspec by done. destruct Hspec as (d & (Hdn & _) & ->).
      pose proof (port_to_range G (r_id r) (f_dest f) d Hdn). unfold node_ok in Hd.
      rewrite shift_ok; [|lia|apply Z.quot_pos; lia]. cbn [mbind res_bind].
      destruct (coord_vcs_ok (first_vc (f_cl f)) (last_vc (f_cl f))
        ((f_dest f / k ^ (port_to G (r_id r) (f_dest f) d `quot` 2)) `rem` k) Hn) as (b & e & -> & Hr).
      { rewrite rem_digit; [|done|lia|apply Z.quot_pos; lia]. apply digit_range, HG. }
      by exists b, e.
  - intros r f outs g Hc Hv Hd. unfold dim_order_pni_mesh. cbn [mbind res_bind orb]. rewrite class_vcs_inject by done.
    cbn [mbind res_bind].
    destruct (coord_vcs_ok (first_vc (f_cl f)) (last_vc (f_cl f)) (f_dest f `rem` k) (Hni _ Hc)) as (b & e & -> & Hr).
    { unfold node_ok in Hd. apply Z.rem_bound_pos; [lia|apply HG]. }
    by exists b, e.
Qed.
End dim_order.

(** ** XY or YX order by half of the VCs *)

Section xy_yx.
Context (G : Globals) (HG : mesh_ok G).
Local Abbreviation n := (gN G).
Local Abbreviation first_vc := (first_vc G).
Local Abbreviation last_vc := (last_vc G).

(** Classes have an even number of VCs and share all of them or none. *)
Definition even_classes : Prop := ∀ cl, class_ok G cl → ∃ h, 0 < h ∧ last_vc cl = first_vc cl + 2 * h - 1.
Definition separate_classes : Prop := ∀ cl cl' v, class_ok G cl → class_ok G cl' →
  first_vc cl ≤ v ≤ last_vc cl → first_vc cl' ≤ v ≤ last_vc cl' → first_vc cl = first_vc cl' ∧ last_vc cl = last_vc cl'.

Definition middle (cl : Z) : Z := first_vc cl + (last_vc cl - first_vc cl + 1) `quot` 2.
Definition upper (p : place) : bool := middle (f_cl (p_flit p)) <=? f_vc (p_flit p).

Lemma middle_ok cl : even_classes → class_ok G cl →
  let h := (last_vc cl - first_vc cl + 1) `quot` 2 in
  0 < h ∧ middle cl = first_vc cl + h ∧ last_vc cl - h = middle cl - 1 ∧ middle cl ≤ last_vc cl.
Proof.
  intros He Hc h. destruct (He cl Hc) as (h' & Hh & E). assert (h = h') as Eh.
  { unfold h. rewrite E. replace (first_vc cl + 2 * h' - 1 - first_vc cl + 1) with (h' * 2) by lia. by apply Z.quot_mul. }
  unfold middle. fold h. lia.
Qed.

(** The routing function offers a dimension-order port in the order, and with
    the VCs, that the half of the current VC stands for. *)
Record xy_like (rf : tRoutingFunction) : Prop := {
  xl_link r f in_channel outs g :
    class_ok G (f_cl f) → first_vc (f_cl f) ≤ f_vc f ≤ last_vc (f_cl f) →
    router_ok G r → node_ok G (r_id r) → node_ok G (f_dest f) → RngInv.rng_ok g →
    ∃ desc port b e g', rf G r f in_channel outs false g = Ok (only outs port b e, f, g') ∧
      dor_next_mesh G (r_id r) (f_dest f) desc = Ok port ∧
      (in_channel < 2 * n → r_id r ≠ f_dest f → desc = (middle (f_cl f) <=? f_vc f)) ∧
      (if decide (r_id r = f_dest f) then b = first_vc (f_cl f) ∧ e = last_vc (f_cl f)
       else if desc then b = middle (f_cl f) ∧ e = last_vc (f_cl f)
       else b = first_vc (f_cl f) ∧ e = middle (f_cl f) - 1);
  xl_inject r f outs g :
    class_ok G (f_cl f) → f_vc f < 0 →
    rf G r f (-1) outs true g = Ok (only outs (-1) (first_vc (f_cl f)) (last_vc (f_cl f)), f, g)
}.

Definition xy_inv (p : place) : Prop :=
  legal G p ∧ on_course G (upper p) (f_dest (p_flit p)) (p_node p) (p_in p).

Context (Heven : even_classes) (rf : tRoutingFunction) (Hrf : xy_like rf).

Lemma xy_step p r outs g : xy_inv p → router_ok G r → r_id r = p_node p → RngInv.rng_ok g →
  ∃ desc port b e g', rf G r (p_flit p) (p_in p) outs false g = Ok (only outs port b e, p_flit p, g') ∧
    (if decide (p_node p = f_dest (p_flit p)) then port = 2 * n
     else ∃ d, first_left G desc (p_node p) (f_dest (p_flit p)) d ∧ port = port_to G (p_node p) (f_dest (p_flit p)) d) ∧
    (first_vc (f_cl (p_flit p)) ≤ b ∧ b ≤ e ∧ e ≤ last_vc (f_cl (p_flit p))) ∧
    (p_node p ≠ f_dest (p_flit p) → on_course G desc (f_dest (p_flit p)) (p_node p) (p_in p) ∧
       (p_in p < 2 * n → upper p = desc) ∧
       ∀ v, b ≤ v ≤ e → (middle (f_cl (p_flit p)) <=? v) = desc).
Proof.
  intros [Hl Hon] Hr Hid Hg. pose proof Hl as (Hx & Hd & Hc & Hv).
  destruct (xl_link _ Hrf r (p_flit p) (p_in p) outs g Hc Hv Hr) as (desc & port & b & e & g' & E & Hport & Hdesc & Hbe);
    [by rewrite Hid|done|done|]. rewrite Hid in *.
  destruct (dor_next_mesh_ok G HG (p_node p) _ desc Hx Hd) as (port' & Hport' & Hspec).
  rewrite Hport in Hport'. injection Hport' as <-. destruct (middle_ok _ Heven Hc) as (Hh & Em & El & Hml).
  assert (first_vc (f_cl (p_flit p)) ≤ last_vc (f_cl (p_flit p))) by (by destruct Hc as (_ & _ & ?)).
  exists desc, port, b, e, g'. split_and!; try done.
  1-3: destruct (decide _); [lia|destruct desc; lia].
  intros Hne. rewrite decide_False in Hbe by done. split_and!.
  - destruct Hon as [Hin|Hon]; [by left|]. destruct Hon as (d & Hdn & Hdone & Hp).
    assert (upper p = desc) as <- by (symmetry; apply Hdesc; [destruct Hp; lia|done]). right. by exists d.
  - intros Hin. symmetry. by apply Hdesc.
  - intros v Hve. destruct desc; [apply Z.leb_le|apply Z.leb_gt]; lia.
Qed.

(** The state after a hop. *)
Lemma xy_next p desc d v y port : xy_inv p → first_left G desc (p_node p) (f_dest (p_flit p)) d →
  first_vc (f_cl (p_flit p)) ≤ v ≤ last_vc (f_cl (p_flit p)) → (middle (f_cl (p_flit p)) <=? v) = desc →
  closer G (f_dest (p_flit p)) d (p_node p) y port → xy_inv (mkPlace y port (FlitOps.set_vc v (p_flit p))).
Proof.
  intros [(Hx & Hd & Hc & _) _] Hfl Hv Hm Hcl. pose proof Hfl as (Hdn & _). split.
  - split_and!; try done; simpl; [by apply (closer_node_ok G HG _ d _ _ _ Hdn Hx Hcl)|lia|lia].
  - unfold upper. simpl. rewrite Hm. by apply (on_course_hop G HG desc _ d (p_node p)).
Qed.

Lemma xy_admits : admits G rf xy_inv.
Proof.
  intros cl src dest p Hcl Hs Hd [r g outs0 outs f0 f g' e v Hg Ecl Es Ed Hv E He Hve ->].
  rewrite (xl_inject _ Hrf r f0 outs0 g) in E by congruence. injection E as <- <- <-.
  apply elem_of_only in He as ->. simpl in *. split_and!; try done. split; [|by left].
  split_and!; simpl; try congruence; lia.
Qed.

Definition xy_laws : RoutingLaws G rf any_router.
Proof.
  refine {| ru_inv := xy_inv; ru_measure := to_go G |}.
  - intros p [Hl _]. by apply to_go_end.
  - intros p HI r g outs0 Hr _ Hid Hg.
    destruct (xy_step p r outs0 g HI Hr Hid Hg) as (desc & port & b & e & g' & -> & Hspec & Hbe & Hnext).
    apply returns_ok. split_and!; try done. intros x ->%elem_of_only. pose proof HI as [Hl _].
    apply (dor_elem G HG _ _ _ desc); try done. intros d y v Hne Hfl Hve Hcl. simpl in Hve, Hcl.
    destruct (Hnext Hne) as (_ & _ & Hm). apply (xy_next p desc d); try done; [lia|by apply Hm].
Defined.

Lemma xy_rank p p' : xy_inv p → hop G rf any_router p p' →
  dor_rank G (upper p) (p_node p) (p_in p) < dor_rank G (upper p') (p_node p') (p_in p').
Proof.
  intros HI [r g outs0 outs f g' e v y Hr _ Hid Hg E He Hv Hp Hy ->].
  destruct (xy_step p r outs0 g HI Hr Hid Hg) as (desc & port & b & e' & g2 & E' & Hspec & Hbe & Hnext).
  rewrite E in E'. injection E' as -> -> ->. apply elem_of_only in He as ->. simpl in *.
  destruct (decide (p_node p = f_dest (p_flit p))) as [?|Hne]; [lia|]. destruct Hspec as (d & Hfl & ->).
  pose proof Hfl as (Hdn & Hdd & _). pose proof HI as [(Hx & _) _].
  pose proof (neighbour_closer G HG _ _ _ _ Hx Hdn Hdd Hy) as Hcl. destruct (Hnext Hne) as (Hon & Hup & Hm).
  assert (upper (mkPlace y (entry_port (port_to G (p_node p) (f_dest (p_flit p)) d)) (FlitOps.set_vc v (p_flit p))) = desc)
    as -> by (by apply Hm).
  pose proof (dor_rank_hop G HG desc _ d _ _ _ _ Hon Hfl Hcl) as Hlt.
  destruct (decide (p_in p < 2 * n)) as [Hin|Hin]; [by rewrite (Hup Hin)|].
  destruct Hon as [Ein|(d' & Hd' & _ & ?)]; [|lia]. rewrite Ein, dor_rank_injection in *. done.
Qed.

Lemma xy_deadlock_free : separate_classes → deadlock_free G rf any_router.
Proof.
  intros Hsep. apply (ranked_deadlock_free _ _ _ xy_laws (λ p, dor_rank G (upper p) (p_node p) (p_in p))).
  - apply xy_admits.
  - intros p p' [(_ & _ & Hc & Hv) _] [(_ & _ & Hc' & Hv') _] [= E1 E2 E3].
    rewrite E3 in Hv. destruct (Hsep _ _ _ Hc Hc' Hv Hv') as [Ef El].
    unfold upper, middle. by rewrite E1, E2, E3, Ef, El.
  - intros p p' HI Hh. by apply xy_rank.
Qed.
End xy_yx.

Section xy_yx_functions.
Context (G : Globals) (HG : mesh_ok G) (Heven : even_classes G).
Local Abbreviation n := (gN G).
Local Abbreviation first_vc := (first_vc G).
Local Abbreviation last_vc := (last_vc G).

(** The half and the order that go with [x_then_y]. *)
Lemma half_vcs_ok cl (x_then_y : bool) : class_ok G cl →
  half_vcs (first_vc cl) (last_vc cl) ((last_vc cl - first_vc cl + 1) `quot` 2) x_then_y =
    (if x_then_y then (first_vc cl, middle G cl - 1) else (middle G cl, last_vc cl)).
Proof. intros Hc. destruct (middle_ok G cl Heven Hc) as (_ & Em & El & _). unfold half_vcs. by rewrite El, Em. Qed.

Lemma RandomInt_1 g : RngInv.rng_ok g → ∃ v g', RngOps.RandomInt g 1 = Ok (v, g') ∧ 0 ≤ v ≤ 1 ∧ RngInv.rng_ok g'.
Proof. intros Hg. destruct (RngInv.RandomInt_ok g 1 Hg ltac:(lia)) as ([v g'] & E & Hv & Hg'). by exists v, g'. Qed.

(** The order a packet is routed in; on a link it is that of its VC. *)
Lemma order_of_vc cl v : (v <? first_vc cl + (last_vc cl - first_vc cl + 1) `quot` 2) = negb (middle G cl <=? v).
Proof. unfold middle. by rewrite Z.ltb_antisym. Qed.

Lemma xy_yx_mesh_xy : xy_like G xy_yx_mesh.
Proof.
  split.
  - intros r f i outs g Hc Hv Hr Hx Hd Hg. unfold xy_yx_mesh. rewrite class_vcs_link by done. cbn [mbind res_bind].
    destruct (middle_ok G _ Heven Hc) as (Hh & _). destruct (Z.eqb_spec (r_id r) (f_dest f)) as [E|E].
    { exists false, (2 * n). eexists _, _, g. rewrite decide_True by done. split_and!; try done.
      unfold dor_next_mesh. by rewrite E, Z.eqb_refl. }
    destruct (Z.ltb_spec 0 ((last_vc (f_cl f) - first_vc (f_cl f) + 1) `quot` 2)); [|lia]. cbn [cassert mbind res_bind].
    assert (∃ xy g', (if i <? 2 * n then Ok (f_vc f <? first_vc (f_cl f) + (last_vc (f_cl f) - first_vc (f_cl f) + 1) `quot` 2, g)
      else '(v, g) ← RngOps.RandomInt g 1; Ok (0 <? v, g)) = Ok (xy, g') ∧ (i < 2 * n → xy = negb (middle G (f_cl f) <=? f_vc f)))
      as (xy & g' & -> & Hxy).
    { destruct (Z.ltb_spec i (2 * n)); [eexists _, _; split; [done|]; intros _; apply order_of_vc|].
      destruct (RandomInt_1 g Hg) as (v & g' & -> & _). eexists _, _. split; [done|lia]. }
    cbn [mbind res_bind]. destruct (dor_next_mesh_ok G HG _ _ (negb xy) Hx Hd) as (port & Hport & _). rewrite Hport.
    cbn [mbind res_bind]. rewrite half_vcs_ok by done. exists (negb xy), port.
    destruct xy; eexists _, _, g'; rewrite decide_False by done; split_and!; try done; intros Hi _; specialize (Hxy Hi);
      by destruct (middle G (f_cl f) <=? f_vc f).
  - intros r f outs g Hc Hv. unfold xy_yx_mesh. by rewrite class_vcs_inject.
Qed.

Lemma adaptive_xy_yx_mesh_xy : xy_like G adaptive_xy_yx_mesh.
Proof.
  split.
  - intros r f i outs g Hc Hv Hr Hx Hd Hg. unfold adaptive_xy_yx_mesh. rewrite class_vcs_link by done. cbn [mbind res_bind].
    destruct (middle_ok G _ Heven Hc) as (Hh & _). destruct (Z.eqb_spec (r_id r) (f_dest f)) as [E|E].
    { exists false, (2 * n). eexists _, _, g. rewrite decide_True by done. split_and!; try done.
      unfold dor_next_mesh. by rewrite E, Z.eqb_refl. }
    destruct (Z.ltb_spec 0 ((last_vc (f_cl f) - first_vc (f_cl f) + 1) `quot` 2)); [|lia]. cbn [cassert mbind res_bind].
    destruct (dor_next_mesh_ok G HG _ _ false Hx Hd) as (port_xy & Exy & Sxy). rewrite Exy. cbn [mbind res_bind].
    destruct (dor_next_mesh_ok G HG _ _ true Hx Hd) as (port_yx & Eyx & Syx). rewrite Eyx. cbn [mbind res_bind].
    rewrite decide_False in Sxy, Syx by done. destruct Sxy as (dx & (Hdx & _) & ->), Syx as (dy & (Hdy & _) & ->).
    pose proof (port_to_range G (r_id r) (f_dest f) dx Hdx). pose proof (port_to_range G (r_id r) (f_dest f) dy Hdy).
    match goal with |- context [mbind ?k (if i <? 2 * n then ?a else ?b)] =>
      assert (∃ xy g', (if i <? 2 * n then a else b) = Ok (xy, g') ∧ (i < 2 * n → xy = negb (middle G (f_cl f) <=? f_vc f)))
      as (xy & g' & -> & Hxy) end.
    { destruct (Z.ltb_spec i (2 * n)); [eexists _, _; split; [done|]; intros _; apply order_of_vc|].
      destruct Hr as [Ho _]. unfold RouterOps.GetUsedCredit.
      do 2 (rewrite (proj2 (andb_true_iff _ _)) by (split; [apply Z.leb_le|apply Z.ltb_lt]; lia); cbn [cassert mbind res_bind]; vgets).
      do 2 (destruct (_ <? _); [eexists _, _; split; [done|lia]|]).
      destruct (RandomInt_1 g Hg) as (v & g' & -> & _). eexists _, _. split; [done|lia]. }
    cbn [mbind res_bind]. rewrite half_vcs_ok by done. exists (negb xy).
    destruct xy; eexists _, _, _, g'; rewrite decide_False by done; split_and!; try done; intros Hi _; specialize (Hxy Hi);
      by destruct (middle G (f_cl f) <=? f_vc f).
  - intros r f outs g Hc Hv. unfold adaptive_xy_yx_mesh. by rewrite class_vcs_inject.
Qed.
End xy_yx_functions.
