(* ===== verification/TwoPhase.v ===== *)
(** * Two-phase routing in a mesh

    ROMM and Valiant routing: first to an intermediate node, chosen at injection,
    then to the destination, in dimension order both times. *)

From S2P Require Import Prelude OutputSet Flit Rng KNCube Route Mesh MeshRouting.
Import RouteOps.

Section two_phase.
Context (G : Globals) (HG : mesh_ok G).
Local Abbreviation k := (gK G).
Local Abbreviation n := (gN G).
Local Abbreviation dig := (digit (gK G)).
Local Abbreviation first_vc := (first_vc G).
Local Abbreviation last_vc := (last_vc G).

(** ** The minimal quadrant *)

Definition between (x m y : Z) : Prop := ∀ d, 0 ≤ d < n →
  (dig d x ≤ dig d m ≤ dig d y) ∨ (dig d y ≤ dig d m ≤ dig d x).

Lemma between_same x m : node_ok G x → node_ok G m → between x m x → m = x.
Proof.
  unfold node_ok. destruct HG as (Hk & Hn & ->). intros Hx Hm Hb. apply (digits_eq k Hk n Hn); try done.
  intros d Hd. destruct (Hb d Hd); lia.
Qed.

Lemma between_closer x m y d x' port : 0 ≤ d < n → between x m y → closer G m d x x' port →
  closer G y d x x' port ∧ between x' m y.
Proof.
  intros Hd Hb Hc. destruct (closer_digits G HG m d x x' port Hd Hc) as [Hoth Hd']. split.
  - destruct Hc as [(Hlt & -> & ->)|(Hlt & -> & ->)]; [left|right]; split_and!; try done; destruct (Hb d Hd); lia.
  - intros j Hj. destruct (decide (j = d)) as [->|Hne]; [|rewrite Hoth by done; by apply Hb].
    pose proof (digit_range k (proj1 HG) d x). pose proof (digit_range k (proj1 HG) d m).
    destruct Hc as [(Hlt & -> & ->)|(Hlt & -> & ->)]; rewrite digit_set_eq by (lia || apply HG); destruct (Hb d Hd); lia.
Qed.

(** Writing a digit above the number. *)
Lemma add_digit x d c : 0 ≤ d → 0 ≤ x < k ^ d → x + k ^ d * c = set_digit k d c x.
Proof. intros Hd Hx. unfold set_digit, digit. rewrite (Z.div_small x) by done. rewrite Z.mod_0_l; [lia|]. pose proof (gk_pos G HG). lia. Qed.

Lemma add_digit_ok x d c : 0 ≤ d → 0 ≤ x < k ^ d → 0 ≤ c < k →
  0 ≤ x + k ^ d * c < k ^ (d + 1) ∧ dig d (x + k ^ d * c) = c ∧ ∀ j, 0 ≤ j < d → dig j (x + k ^ d * c) = dig j x.
Proof.
  intros Hd Hx Hc. pose proof (gk_pos G HG) as Hk. pose proof (pow_pos k Hk d Hd). rewrite (add_digit x d c Hd Hx). split_and!.
  1-2: apply (set_digit_range k Hk (d + 1) d c x); try lia; rewrite Z.pow_add_r, Z.pow_1_r by lia; nia.
  - by apply digit_set_eq.
  - intros j Hj. apply digit_set_ne; lia.
Qed.

(** [rand_min_intr_mesh] picks a node of the quadrant. *)
Lemma rand_min_intr_mesh_ok src dest g : node_ok G src → node_ok G dest → RngInv.rng_ok g →
  returns (rand_min_intr_mesh G src dest g) (λ '(intm, g'),
    RngInv.rng_ok g' ∧ node_ok G intm ∧ between src intm dest).
Proof.
  unfold node_ok. intros Hs Hd Hg. pose proof HG as (Hk & Hn & En). unfold rand_min_intr_mesh.
  eapply returns_bind; [apply (returns_for (λ i '(intm, offset, s, t, g),
    0 ≤ intm < k ^ i ∧ offset = k ^ i ∧ s = src / k ^ i ∧ t = dest / k ^ i ∧ RngInv.rng_ok g ∧
    ∀ j, 0 ≤ j < i → (dig j src ≤ dig j intm ≤ dig j dest) ∨ (dig j dest ≤ dig j intm ≤ dig j src)))|].
  - done.
  - rewrite Z.pow_0_r, !Z.div_1_r. split_and!; try done; lia.
  - intros i [[[[intm offset] s] t] g1] Hi (Hintm & -> & -> & -> & Hg1 & Hb). rewrite !rem_digit by (done || lia).
    pose proof (digit_range k Hk i src). pose proof (digit_range k Hk i dest).
    eapply returns_bind; [apply (RngInv.RandomInt_ok g1 _ Hg1)|].
    { destruct (Z.ltb_spec 0 (dig i dest - dig i src)); lia. }
    intros [v g2] [Hv Hg2]. apply returns_ok. simpl in Hv.
    set (c := (if 0 <? dig i dest - dig i src then dig i src else dig i dest) + v).
    assert ((dig i src ≤ c ≤ dig i dest) ∨ (dig i dest ≤ c ≤ dig i src)) as Hc
      by (unfold c; destruct (Z.ltb_spec 0 (dig i dest - dig i src)); lia).
    destruct (add_digit_ok intm i c ltac:(lia) Hintm ltac:(lia)) as (Hr & Hdi & Hdj).
    rewrite !quot_shift by (done || lia). rewrite Z.pow_add_r, Z.pow_1_r in * by lia. split_and!; try done; try lia.
    intros j Hj. destruct (decide (j = i)) as [->|]; [by rewrite Hdi|rewrite Hdj by lia; apply Hb; lia].
  - intros [[[[intm offset] s] t] g1] (Hintm & _ & _ & _ & Hg1 & Hb). apply returns_ok. rewrite En. split; [done|]. split; [done|exact Hb].
Qed.

(** ** One step of a two-phase function *)

(** [romm_mesh] and [valiant_mesh] differ in how they pick the intermediate node. *)
Definition phased (pick : Globals → Flit → Rng → res (Z * Rng)) : tRoutingFunction := λ G r f in_channel outputs inject g,
  '(vcBegin, vcEnd) ← class_vcs G f inject;
  if inject then Ok (only outputs (-1) vcBegin vcEnd, f, g)
  else
    '(f, g) ← RouteOps.two_phase G (pick G) r f in_channel g;
    out_port ← dor_next_mesh G (r_id r) (phase_target f) false;
    '(vcBegin, vcEnd) ← phase_vcs r f vcBegin vcEnd;
    Ok (only outputs out_port vcBegin vcEnd, f, g).

(** A flit whose phase is settled at node [x]. *)
Definition settled (x : Z) (f : Flit) : Prop :=
  (f_ph f = 0 ∧ node_ok G (f_intm f) ∧ x ≠ f_intm f) ∨ f_ph f = 1.

(** The hops left, and a packet on its way. *)
Definition left_from (x : Z) (f : Flit) : Z :=
  if f_ph f =? 0 then mdist G x (f_intm f) + mdist G (f_intm f) (f_dest f) else mdist G x (f_dest f).
Definition under_way (p : place) : Prop :=
  legal G p ∧ p_in p ≠ 2 * n ∧ (f_ph (p_flit p) = 0 ∧ node_ok G (f_intm (p_flit p)) ∨ f_ph (p_flit p) = 1) ∧
  on_course G false (phase_target (p_flit p)) (p_node p) (p_in p).

Lemma left_from_0 x f : node_ok G x → node_ok G (f_dest f) → (f_ph f = 0 ∧ node_ok G (f_intm f) ∨ f_ph f = 1) →
  0 ≤ left_from x f ∧ (left_from x f = 0 → x = f_dest f).
Proof.
  intros Hx Hd Hph. unfold left_from. pose proof (mdist_nonneg G HG x (f_dest f)).
  pose proof (mdist_nonneg G HG x (f_intm f)). pose proof (mdist_nonneg G HG (f_intm f) (f_dest f)).
  destruct Hph as [[-> Hm]| ->]; simpl; (split; [lia|]); intros E.
  - trans (f_intm f); apply (mdist_0 G HG); try done; lia.
  - by apply (mdist_0 G HG).
Qed.

Lemma settled_target x f : node_ok G x → node_ok G (f_dest f) → settled x f →
  node_ok G (phase_target f) ∧ (left_from x f = 0 ↔ x = phase_target f).
Proof.
  intros Hx Hd Hs. unfold phase_target. destruct Hs as [(Hph & Hm & Hne)|Hph].
  - destruct (left_from_0 x f Hx Hd ltac:(by left)) as [H0 _]. unfold left_from in *. rewrite Hph in *. simpl in *.
    split; [done|]. split; [|done]. intros E. destruct Hne. apply (mdist_0 G HG); try done.
    pose proof (mdist_nonneg G HG x (f_intm f)). pose proof (mdist_nonneg G HG (f_intm f) (f_dest f)). lia.
  - unfold left_from. rewrite Hph. simpl. split; [done|]. by apply mdist_0.
Qed.

Lemma left_from_closer x f d y port : 0 ≤ d < n → closer G (phase_target f) d x y port → left_from y f = left_from x f - 1.
Proof.
  intros Hd Hc. unfold left_from, phase_target in *. pose proof (mdist_closer G HG _ d x y port Hd Hc).
  destruct (f_ph f =? 0); lia.
Qed.

(** Where the second half of a VC range begins is irrelevant here; two VCs
    suffice for both parts to be inside the class. *)
Lemma phase_vcs_ok r f b e : 2 ≤ e - b + 1 → f_ph f = 0 ∨ f_ph f = 1 →
  ∃ b' e', phase_vcs r f b e = Ok (b', e') ∧ (b ≤ b' ∧ b' ≤ e' ∧ e' ≤ e) ∧
    (r_id r ≠ f_dest f → (b', e') = half_vcs b e ((e - b + 1) `quot` 2) (f_ph f =? 0)).
Proof.
  intros Hbe Hph. unfold phase_vcs. destruct (Z.eqb_spec (r_id r) (f_dest f)).
  { exists b, e. split; [done|]. split; [lia|done]. }
  rewrite quot_div by lia. assert (0 < (e - b + 1) / 2 ∧ 2 * ((e - b + 1) / 2) ≤ e - b + 1) as [H0 H1].
  { split; [apply Z.div_str_pos; lia|apply Z.mul_div_le; lia]. }
  destruct (Z.ltb_spec 0 ((e - b + 1) / 2)); [|lia]. cbn [cassert mbind res_bind].
  destruct Hph as [->| ->]; simpl; eexists _, _; (split; [done|split; [lia|done]]).
Qed.

(** The output offered once the phase is settled. *)
Definition phase_output (r : Router) (f : Flit) (outs : OutputSet) (b e : Z) (g : Rng) : res (OutputSet * Flit * Rng) :=
  out_port ← dor_next_mesh G (r_id r) (phase_target f) false;
  '(vcBegin, vcEnd) ← phase_vcs r f b e;
  Ok (only outs out_port vcBegin vcEnd, f, g).

Lemma phase_output_ok r f outs g : node_ok G (r_id r) → node_ok G (f_dest f) → class_ok G (f_cl f) →
  vcs_for G 2 → settled (r_id r) f →
  ∃ port b e, phase_output r f outs (first_vc (f_cl f)) (last_vc (f_cl f)) g = Ok (only outs port b e, f, g) ∧
    (first_vc (f_cl f) ≤ b ∧ b ≤ e ∧ e ≤ last_vc (f_cl f)) ∧
    (r_id r ≠ f_dest f → (b, e) = half_vcs (first_vc (f_cl f)) (last_vc (f_cl f))
       ((last_vc (f_cl f) - first_vc (f_cl f) + 1) `quot` 2) (f_ph f =? 0)) ∧
    (if decide (left_from (r_id r) f = 0) then port = 2 * n
     else 0 ≤ port < 2 * n ∧ ∀ y, neighbour G (r_id r) port = Ok y → ∃ d,
       first_left G false (r_id r) (phase_target f) d ∧ closer G (phase_target f) d (r_id r) y (entry_port port)).
Proof.
  intros Hx Hd Hc H2 Hs. destruct (settled_target _ _ Hx Hd Hs) as [Ht Hz].
  assert (f_ph f = 0 ∨ f_ph f = 1) as Hph by (destruct Hs as [(? & _)|?]; auto).
  destruct (dor_next_mesh_ok G HG _ _ false Hx Ht) as (port & Hport & Hspec).
  destruct (phase_vcs_ok r f (first_vc (f_cl f)) (last_vc (f_cl f)) (H2 _ Hc) Hph) as (b & e & Hvc & Hbe & Hhalf).
  exists port, b, e. unfold phase_output. rewrite Hport. cbn [mbind res_bind]. rewrite Hvc. split_and!; try done; try lia.
  destruct (decide (r_id r = phase_target f)) as [E|E]; [by rewrite decide_True by (by apply Hz)|].
  rewrite decide_False by (by rewrite Hz). destruct Hspec as (d & Hfl & ->). pose proof Hfl as (Hdn & Hne & _).
  split; [by apply port_to_range|]. intros y Hy. exists d. split; [done|]. by apply neighbour_closer.
Qed.

(** The place after a hop. *)
Lemma under_way_next r f y port v d : node_ok G (r_id r) → node_ok G (f_dest f) → class_ok G (f_cl f) →
  settled (r_id r) f → first_vc (f_cl f) ≤ v ≤ last_vc (f_cl f) → first_left G false (r_id r) (phase_target f) d →
  closer G (phase_target f) d (r_id r) y port →
  under_way (mkPlace y port (FlitOps.set_vc v f)) ∧ left_from y (FlitOps.set_vc v f) = left_from (r_id r) f - 1.
Proof.
  intros Hx Hd Hc Hs Hv Hfl Hcl. pose proof Hfl as (Hdn & _). split; [|exact (left_from_closer _ f d y port Hdn Hcl)].
  split; [|split_and!; simpl].
  - split_and!; simpl; try done; try lia. by apply (closer_node_ok G HG _ d _ _ _ Hdn Hx Hcl).
  - destruct Hcl as [(_ & _ & ->)|(_ & _ & ->)]; lia.
  - destruct Hs as [(? & ? & _)|?]; auto.
  - by apply (on_course_hop G HG false _ d (r_id r)).
Qed.

(** ** Settling the phase *)

Definition same_packet (f f' : Flit) : Prop :=
  f_dest f' = f_dest f ∧ f_cl f' = f_cl f ∧ f_vc f' = f_vc f ∧ f_src f' = f_src f.

Lemma two_phase_routed pick r p g : under_way p → r_id r = p_node p →
  ∃ f, RouteOps.two_phase G pick r (p_flit p) (p_in p) g = Ok (f, g) ∧ same_packet (p_flit p) f ∧
    f_intm f = f_intm (p_flit p) ∧ settled (p_node p) f ∧ left_from (p_node p) f = left_from (p_node p) (p_flit p) ∧
    (f_ph f = f_ph (p_flit p) ∨ f_ph (p_flit p) = 0 ∧ p_node p = f_intm (p_flit p) ∧ f_ph f = 1).
Proof.
  intros ((Hx & Hd & _) & Hin & Hph & _) Hid. unfold RouteOps.two_phase. rewrite Hid.
  destruct (Z.eqb_spec (p_in p) (2 * n)); [done|]. cbn [mbind res_bind]. eexists. split; [done|].
  destruct Hph as [[E Hm]|E]; rewrite E; simpl.
  - destruct (Z.eqb_spec (p_node p) (f_intm (p_flit p))) as [Ei|Ei]; simpl.
    + split_and!; try done; [by right| |by right]. unfold left_from. rewrite E. simpl.
      rewrite <- Ei. pose proof (proj2 (mdist_0 G HG _ _ Hx Hx) eq_refl). lia.
    + split_and!; try done; [by left|by left].
  - split_and!; try done; [by right|by left].
Qed.

Lemma two_phase_injected pick (Q : Z → Prop) r f g : node_ok G (r_id r) →
  returns (pick f g) (λ '(m, g'), RngInv.rng_ok g' ∧ node_ok G m ∧ Q m) →
  ∃ f' g', RouteOps.two_phase G pick r f (2 * n) g = Ok (f', g') ∧ same_packet f f' ∧ RngInv.rng_ok g' ∧
    node_ok G (f_intm f') ∧ Q (f_intm f') ∧ settled (r_id r) f' ∧ (f_ph f' =? 0) = negb (r_id r =? f_intm f') ∧
    left_from (r_id r) f' = mdist G (r_id r) (f_intm f') + mdist G (f_intm f') (f_dest f).
Proof.
  intros Hx ([m g'] & E & Hg & Hm & HQ). unfold RouteOps.two_phase. rewrite Z.eqb_refl, E. cbn [mbind res_bind].
  eexists _, g'. split; [done|]. simpl. destruct (Z.eqb_spec (r_id r) m) as [Ei|Ei]; simpl.
  - split_and!; try done; [by right|by rewrite Ei, Z.eqb_refl|]. unfold left_from. simpl. rewrite <- Ei.
    pose proof (proj2 (mdist_0 G HG _ _ Hx Hx) eq_refl). lia.
  - split_and!; try done; [by left|by apply Z.eqb_neq in Ei as ->].
Qed.

Context (H2 : vcs_for G 2).

Lemma phased_link pick r f in_channel outs g :
  class_ok G (f_cl f) → first_vc (f_cl f) ≤ f_vc f ≤ last_vc (f_cl f) →
  phased pick G r f in_channel outs false g =
    ('(f', g) ← RouteOps.two_phase G (pick G) r f in_channel g; phase_output r f' outs (first_vc (f_cl f)) (last_vc (f_cl f)) g).
Proof. intros Hc Hv. unfold phased. by rewrite class_vcs_link. Qed.

(** From a settled flit: what is offered, and the places it leads to. *)
Lemma phase_step r f outs g (Q : OutputSet * Flit * Rng → Prop) :
  node_ok G (r_id r) → node_ok G (f_dest f) → class_ok G (f_cl f) → settled (r_id r) f →
  (∀ port b e, in_class G (f_cl f) (SetElement b e 0 port) →
     (r_id r ≠ f_dest f → (b, e) = half_vcs (first_vc (f_cl f)) (last_vc (f_cl f))
       ((last_vc (f_cl f) - first_vc (f_cl f) + 1) `quot` 2) (f_ph f =? 0)) →
     (if decide (left_from (r_id r) f = 0) then port = 2 * n
      else 0 ≤ port < 2 * n ∧ ∀ v y, b ≤ v ≤ e → neighbour G (r_id r) port = Ok y →
        under_way (mkPlace y (entry_port port) (FlitOps.set_vc v f)) ∧
        left_from y (FlitOps.set_vc v f) = left_from (r_id r) f - 1 ∧
        ∃ d, first_left G false (r_id r) (phase_target f) d ∧ closer G (phase_target f) d (r_id r) y (entry_port port)) →
     Q (only outs port b e, f, g)) →
  returns (phase_output r f outs (first_vc (f_cl f)) (last_vc (f_cl f)) g) Q.
Proof.
  intros Hx Hd Hc Hs HQ. destruct (phase_output_ok r f outs g Hx Hd Hc H2 Hs) as (port & b & e & -> & Hbe & Hhalf & Hport).
  apply returns_ok. apply HQ; [done|done|]. destruct (decide (left_from (r_id r) f = 0)) as [E|E]; [done|].
  destruct Hport as [Hp Hy]. split; [done|]. intros v y Hv Hny. destruct (Hy y Hny) as (d & Hfl & Hcl).
  destruct (under_way_next r f y (entry_port port) v d) as [Hu Hlf]; try done; [lia|]. split_and!; try done. by exists d.
Qed.

(** The laws from the first hop on. *)
Definition phased_laws pick : RoutingLaws G (phased pick) any_router.
Proof.
  refine {| ru_inv := under_way; ru_measure p := left_from (p_node p) (p_flit p) |}.
  - intros p ((Hx & Hd & _) & _ & Hph & _). by apply left_from_0.
  - intros p Hu r g outs0 Hr _ Hid Hg. pose proof Hu as ((Hx & Hd & Hc & Hv) & _).
    rewrite phased_link by done. destruct (two_phase_routed (pick G) r p g Hu Hid) as (f & -> & (Ed & Ec & _) & _ & Hs & El & _).
    cbn [mbind res_bind]. rewrite <- Ec, <- Hid in *. rewrite <- Ed in Hd.
    apply phase_step; try done. intros port b e Hbe _ Hport. split_and!; try done. intros x ->%elem_of_only.
    split; [by rewrite <- Ec|]. rewrite <- Hid, <- El. destruct (decide (left_from (r_id r) f = 0)); [done|].
    destruct Hport as [Hp Hy]. split; [done|]. intros v y Hv' Hny. destruct (Hy v y Hv' Hny) as (Hu' & Hl' & _).
    done.
Defined.

(** ** ROMM *)

Definition pick_romm : Globals → Flit → Rng → res (Z * Rng) := λ G f, rand_min_intr_mesh G (f_src f) (f_dest f).
Definition pick_valiant : Globals → Flit → Rng → res (Z * Rng) := λ G _ g, RngOps.RandomInt g (gNodes G - 1).

(** Waiting at the injection port, or under way with the intermediate node in
    the quadrant and the half of the VCs that goes with the phase. *)
Definition romm_inv (p : place) : Prop :=
  (legal G p ∧ p_in p = 2 * n ∧ node_ok G (f_src (p_flit p)) ∧ p_node p = f_src (p_flit p)) ∨
  (under_way p ∧ (f_ph (p_flit p) = 0 → between (p_node p) (f_intm (p_flit p)) (f_dest (p_flit p))) ∧
   (even_classes G → upper G p = negb (f_ph (p_flit p) =? 0))).

Lemma romm_legal p : romm_inv p → legal G p.
Proof. by intros [[? _]|[[? _] _]]. Qed.

(** Settling the phase of a ROMM packet. *)
Lemma romm_settles r p g : romm_inv p → r_id r = p_node p → RngInv.rng_ok g →
  ∃ f g', RouteOps.two_phase G (pick_romm G) r (p_flit p) (p_in p) g = Ok (f, g') ∧ same_packet (p_flit p) f ∧
    settled (p_node p) f ∧ (f_ph f = 0 → between (p_node p) (f_intm f) (f_dest (p_flit p))) ∧
    (under_way p → f_ph f = f_ph (p_flit p) ∧ f_intm f = f_intm (p_flit p) ∨ f_ph (p_flit p) = 0 ∧ f_ph f = 1).
Proof.
  intros [((Hx & Hd & _) & Hin & Hsrc & Es)|(Hu & Hb & _)] Hid Hg.
  - rewrite Hin. destruct (two_phase_injected (pick_romm G) (λ m, between (p_node p) m (f_dest (p_flit p))) r (p_flit p) g)
      as (f & g' & -> & Hsame & _ & _ & Hbet & Hs & _); [by rewrite Hid| |].
    { unfold pick_romm. rewrite Es. by apply rand_min_intr_mesh_ok. }
    exists f, g'. rewrite Hid in Hs. split_and!; try done. intros (_ & Hne & _). done.
  - destruct (two_phase_routed (pick_romm G) r p g Hu Hid) as (f & -> & Hsame & Ei & Hs & _ & Hph).
    exists f, g. split_and!; try done.
    + intros E0. rewrite Ei. apply Hb. destruct Hph as [<-|(_ & _ & E1)]; [done|congruence].
    + intros _. destruct Hph as [E|(E0 & _ & E1)]; [by left|by right].
Qed.

(** A settled ROMM packet at its destination has nothing left. *)
Lemma romm_left x f dest : node_ok G x → node_ok G dest → f_dest f = dest → settled x f →
  (f_ph f = 0 → between x (f_intm f) dest) → (left_from x f = 0 ↔ mdist G x dest = 0).
Proof.
  intros Hx Hd Ed Hs Hb. destruct (settled_target x f Hx ltac:(by rewrite Ed) Hs) as [Ht Hz]. rewrite Hz, mdist_0 by done.
  unfold phase_target in *. destruct Hs as [(E0 & Hm & Hne)|E1].
  - rewrite E0 in *. simpl in *. split; [done|]. intros ->. destruct Hne. symmetry. apply between_same; auto.
  - rewrite E1. simpl. by rewrite Ed.
Qed.

(** The next place of a ROMM packet. *)
Lemma romm_next x f d y port v : settled x f → (f_ph f = 0 → between x (f_intm f) (f_dest f)) →
  under_way (mkPlace y port (FlitOps.set_vc v f)) → 0 ≤ d < n → closer G (phase_target f) d x y port →
  (even_classes G → (middle G (f_cl f) <=? v) = negb (f_ph f =? 0)) →
  romm_inv (mkPlace y port (FlitOps.set_vc v f)) ∧ closer G (f_dest f) d x y port.
Proof.
  intros Hs Hb Hu Hd Hcl Hup. unfold phase_target in Hcl. destruct Hs as [(E0 & Hm & Hne)|E1].
  - rewrite E0 in Hcl. simpl in Hcl. destruct (between_closer x _ _ d y port Hd (Hb E0) Hcl) as [Hcl' Hb'].
    split; [|done]. right. by split_and!.
  - rewrite E1 in Hcl. simpl in Hcl. split; [|done]. right. split_and!; [done| |done]. simpl. congruence.
Qed.

Definition romm_rank (p : place) : Z :=
  if p_in p =? 2 * n then -1
  else (if upper G p then n * k else 0) + dor_rank G false (p_node p) (p_in p).

Lemma half_upper cl (first : bool) v b e : even_classes G → class_ok G cl →
  (b, e) = half_vcs (first_vc cl) (last_vc cl) ((last_vc cl - first_vc cl + 1) `quot` 2) first → b ≤ v ≤ e →
  (middle G cl <=? v) = negb first.
Proof.
  intros Hev Hc E Hv. rewrite half_vcs_ok in E by done. destruct (middle_ok G cl Hev Hc) as (_ & _ & _ & Hm).
  destruct first; injection E as -> ->; [apply Z.leb_gt|apply Z.leb_le]; lia.
Qed.

Lemma romm_rank_next p f d y port v : even_classes G → romm_inv p → 
  (under_way p → f_ph f = f_ph (p_flit p) ∧ f_intm f = f_intm (p_flit p) ∨ f_ph (p_flit p) = 0 ∧ f_ph f = 1) →
  f_dest f = f_dest (p_flit p) → romm_inv (mkPlace y port (FlitOps.set_vc v f)) → port ≠ 2 * n →
  first_left G false (p_node p) (phase_target f) d → closer G (phase_target f) d (p_node p) y port →
  romm_rank p < romm_rank (mkPlace y port (FlitOps.set_vc v f)).
Proof.
  intros Hev Hp Hph Ed Hp' Hport Hfl Hcl. pose proof Hfl as (Hdn & _). pose proof (gk_pos G HG).
  pose proof (dor_rank_entry G HG false _ d _ _ _ Hdn Hcl) as He. unfold dim_rank in He.
  unfold romm_rank. simpl. destruct (Z.eqb_spec port (2 * n)) as [?|_]; [done|].
  destruct Hp as [(_ & -> & _)|(Hu & _ & Hup)]; [rewrite Z.eqb_refl; destruct (upper _ _); nia|].
  destruct Hp' as [(_ & ? & _)|(_ & _ & Hup')]; [done|]. rewrite (Hup Hev), (Hup' Hev). simpl.
  pose proof Hu as (_ & Hin & _ & Hon). destruct (Z.eqb_spec (p_in p) (2 * n)) as [?|_]; [done|].
  destruct (Hph Hu) as [[E Ei]|[E0 E1]].
  - rewrite E. assert (phase_target f = phase_target (p_flit p)) as Et by (unfold phase_target; by rewrite E, Ei, Ed).
    rewrite Et in *. pose proof (dor_rank_hop G HG false _ d _ _ _ _ Hon Hfl Hcl). lia.
  - rewrite E0, E1. simpl. pose proof (dor_rank_range G HG _ _ _ _ Hon). nia.
Qed.

Lemma romm_step p r outs g : romm_inv p → r_id r = p_node p → RngInv.rng_ok g →
  ∃ port b e f g', phased pick_romm G r (p_flit p) (p_in p) outs false g = Ok (only outs port b e, f, g') ∧
    same_packet (p_flit p) f ∧ in_class G (f_cl (p_flit p)) (SetElement b e 0 port) ∧
    (if decide (to_go G p = 0) then port = 2 * n
     else 0 ≤ port < 2 * n ∧ ∀ v y, b ≤ v ≤ e → neighbour G (p_node p) port = Ok y →
       let p' := mkPlace y (entry_port port) (FlitOps.set_vc v f) in
       romm_inv p' ∧ to_go G p' = to_go G p - 1 ∧ (even_classes G → romm_rank p < romm_rank p')).
Proof.
  intros HI Hid Hg. pose proof (romm_legal p HI) as (Hx & Hd & Hc & Hv). rewrite phased_link by done.
  destruct (romm_settles r p g HI Hid Hg) as (f & g' & -> & Hsame & Hs & Hb & Hph). cbn [mbind res_bind].
  pose proof Hsame as (Ed & Ec & _). rewrite <- Ed in Hb, Hd. pose proof (romm_left _ f _ Hx Hd eq_refl Hs Hb) as Hz.
  rewrite <- Ec in *. rewrite <- Hid in Hx, Hs.
  destruct (phase_output_ok r f outs g' Hx Hd Hc H2 Hs) as (port & b & e & -> & Hbe & Hhalf & Hport).
  exists port, b, e, f, g'. rewrite Hid in *. unfold to_go. rewrite <- Ed. split_and!; try apply Hbe; try done.
  destruct (decide (left_from (p_node p) f = 0)) as [E|E]; [by rewrite decide_True by (by apply Hz)|].
  assert (mdist G (p_node p) (f_dest f) ≠ 0) as Hm by (by rewrite <- Hz). rewrite decide_False by done.
  destruct Hport as [Hp Hy]. split; [done|]. intros v y Hv' Hny. destruct (Hy y Hny) as (d & Hfl & Hcl).
  pose proof Hfl as (Hdn & _). simpl. rewrite <- Hid in *.
  destruct (under_way_next r f y (entry_port port) v d) as [Hu _]; try done; [lia|]. rewrite Hid in *.
  assert (p_node p ≠ f_dest f) as Hxd by (intros E'; apply Hm; by apply mdist_0).
  destruct (romm_next (p_node p) f d y (entry_port port) v) as [HI' Hcl']; try done.
  { intros Hev. by apply (half_upper _ _ v b e Hev Hc); [apply Hhalf|]. }
  split_and!; [done|by apply (mdist_closer G HG _ d _ _ _ Hdn Hcl')|].
  intros Hev. apply (romm_rank_next p f d); try done. by destruct Hu as (_ & ? & _).
Qed.

Lemma phased_inject pick cl src dest p : class_ok G cl → node_ok G src → node_ok G dest →
  injected G (phased pick) cl src dest p →
  legal G p ∧ p_in p = 2 * n ∧ p_node p = src ∧ f_src (p_flit p) = src ∧ f_cl (p_flit p) = cl ∧ f_dest (p_flit p) = dest.
Proof.
  intros Hcl Hs Hd [r g outs0 outs f0 f g' e v Hg Ecl Es Ed Hv E He Hve ->]. unfold phased in E.
  rewrite class_vcs_inject in E by congruence. injection E as <- <- <-. apply elem_of_only in He as ->. simpl in *.
  split_and!; try done. split_and!; simpl; try congruence; lia.
Qed.

Lemma romm_admits : admits G (phased pick_romm) romm_inv.
Proof.
  intros cl src dest p Hcl Hs Hd Hi. destruct (phased_inject _ _ _ _ _ Hcl Hs Hd Hi) as (Hl & Hin & En & Es & Ec & Ed).
  split_and!; try done. left. split_and!; try done; by rewrite Es.
Qed.

Definition romm_laws : RoutingLaws G (phased pick_romm) any_router.
Proof.
  refine {| ru_inv := romm_inv; ru_measure := to_go G |}.
  - intros p HI. by apply to_go_end, romm_legal.
  - intros p HI r g outs0 Hr _ Hid Hg.
    destruct (romm_step p r outs0 g HI Hid Hg) as (port & b & e & f & g' & -> & (Ed & Ec & _) & Hbe & Hport).
    apply returns_ok. split_and!; try done. intros x ->%elem_of_only. split; [done|].
    destruct (decide (to_go G p = 0)); [done|]. destruct Hport as [Hp Hy]. split; [done|].
    intros v y Hv Hny. by destruct (Hy v y Hv Hny) as (? & ? & _).
Defined.

Lemma romm_deadlock_free : even_classes G → separate_classes G → deadlock_free G (phased pick_romm) any_router.
Proof.
  intros Hev Hsep. apply (ranked_deadlock_free _ _ _ romm_laws romm_rank).
  - apply romm_admits.
  - intros p p' (_ & _ & Hc & Hv)%romm_legal (_ & _ & Hc' & Hv')%romm_legal [= E1 E2 E3].
    rewrite E3 in Hv. destruct (Hsep _ _ _ Hc Hc' Hv Hv') as [Ef El].
    unfold romm_rank, upper, middle. by rewrite E1, E2, E3, Ef, El.
  - intros p p' HI [r g outs0 outs f g' e v y Hr _ Hid Hg E He Hv Hp Hy ->].
    destruct (romm_step p r outs0 g HI Hid Hg) as (port & b & e' & f' & g2 & E' & _ & _ & Hport).
    rewrite E in E'. injection E' as -> -> ->. apply elem_of_only in He as ->. simpl in *.
    destruct (decide (to_go G p = 0)); [lia|]. destruct Hport as [_ Hnext]. destruct (Hnext v y Hv Hy) as (_ & _ & Hr'); auto.
Qed.

(** ** Valiant *)

Lemma valiant_picks f g : 0 < gNodes G → RngInv.rng_ok g →
  returns (pick_valiant G f g) (λ '(m, g'), RngInv.rng_ok g' ∧ node_ok G m ∧ True).
Proof.
  intros H0 Hg. eapply returns_mono; [apply (RngInv.RandomInt_ok g (gNodes G - 1) Hg); lia|].
  intros [m g3] [Hm Hg3]. simpl in *. unfold node_ok. split_and!; try done; lia.
Qed.

Lemma valiant_inject_offers cl src dest p : class_ok G cl → node_ok G src → node_ok G dest →
  injected G (phased pick_valiant) cl src dest p → offers G (phased pick_valiant) any_router p (in_class G cl).
Proof.
  intros Hcl Hs Hd Hi r g outs0 Hr _ Hid Hg.
  destruct (phased_inject _ _ _ _ _ Hcl Hs Hd Hi) as ((Hx & Hd' & Hc & Hvc) & Hin & En & _ & Ec & Ed).
  rewrite phased_link, Hin by done. rewrite <- Hid in Hx.
  destruct (two_phase_injected (pick_valiant G) (λ _, True) r (p_flit p) g Hx) as
    (f' & g2 & -> & (Ed' & Ec' & _) & _ & _ & _ & Hset & _).
  { apply valiant_picks; [unfold node_ok in Hd; lia|done]. }
  cbn [mbind res_bind]. rewrite <- Ec' in *. rewrite <- Ed' in Hd'.
  destruct (phase_output_ok r f' outs0 g2 Hx Hd' Hc H2 Hset) as (port & b & e' & -> & Hbe & _).
  apply returns_ok. split; [done|]. intros e ->%elem_of_only. rewrite <- Ec. done.
Qed.

Lemma valiant_first_hop cl src dest p p1 : class_ok G cl → node_ok G src → node_ok G dest →
  injected G (phased pick_valiant) cl src dest p → hop G (phased pick_valiant) any_router p p1 →
  under_way p1 ∧ node_ok G (f_intm (p_flit p1)) ∧ f_dest (p_flit p1) = dest ∧ f_cl (p_flit p1) = cl ∧
  left_from (p_node p1) (p_flit p1) =
    mdist G src (f_intm (p_flit p1)) + mdist G (f_intm (p_flit p1)) dest - 1.
Proof.
  intros Hcl Hs Hd Hi [r g outs0 outs f g' e v y Hr _ Hid Hg E He Hv Hp Hy ->].
  destruct (phased_inject _ _ _ _ _ Hcl Hs Hd Hi) as ((Hx & Hd' & Hc & Hvc) & Hin & En & _ & Ec & Ed).
  rewrite phased_link, Hin in E by done. rewrite <- Hid in Hx, Hy.
  destruct (two_phase_injected (pick_valiant G) (λ _, True) r (p_flit p) g Hx) as
    (f' & g2 & Etp & (Ed' & Ec' & _) & _ & Hm & _ & Hset & _ & Hl).
  { apply valiant_picks; [unfold node_ok in Hd; lia|done]. }
  rewrite Etp in E. cbn [mbind res_bind] in E. rewrite <- Ec' in *. rewrite <- Ed' in Hd'.
  destruct (phase_output_ok r f' outs0 g2 Hx Hd' Hc H2 Hset) as (port & b & e' & E' & Hbe & _ & Hport).
  rewrite E' in E. injection E as <- <- <-. apply elem_of_only in He as ->. simpl in *.
  destruct (decide (left_from (r_id r) f' = 0)); [lia|]. destruct Hport as [_ Hnext]. destruct (Hnext y Hy) as (d & Hfl & Hcl').
  destruct (under_way_next r f' y (entry_port port) v d) as [Hu Hl']; try done; [lia|].
  split_and!; try done; simpl; try congruence.
Qed.
End two_phase.
