(* ===== verification/AdaptiveMesh.v ===== *)
(** * The adaptive mesh routing functions

    [chaos_mesh], [min_adapt_mesh] and [planar_adapt_mesh] mean to offer several
    productive ports.  They add them with equal priorities, and an [OutputSet]
    keeps one element per priority: what is left is the port of dimension order. *)

From S2P Require Import Prelude OutputSet Flit Rng KNCube Route Mesh MeshRouting.
Import RouteOps.

Section adaptive.
Context (G : Globals) (HG : mesh_ok G).
Local Abbreviation k := (gK G).
Local Abbreviation n := (gN G).
Local Abbreviation dig := (digit (gK G)).
Local Abbreviation first_vc := (first_vc G).
Local Abbreviation last_vc := (last_vc G).

(** A second element of a priority is lost. *)
Lemma AddRange_again outs port b e port' b' e' pri : OutputSetOps.wf outs →
  OutputSetOps.AddRange (OutputSetOps.AddRange outs port b e pri) port' b' e' pri = OutputSetOps.AddRange outs port b e pri.
Proof.
  intros Hwf. apply OutputSetOps.set_insert_dup; [by apply OutputSetOps.set_insert_wf|].
  destruct (decide (Exists (λ x, se_pri x = pri) outs)) as [Hex|Hex].
  - unfold OutputSetOps.AddRange. by rewrite OutputSetOps.set_insert_dup.
  - apply Exists_exists. exists (SetElement b e pri port). split; [|done].
    unfold OutputSetOps.AddRange. rewrite OutputSetOps.set_insert_fresh; [by left|].
    by apply Forall_Exists_neg.
Qed.

(** The loop over the dimensions: only the first productive port stays. *)
Lemma add_productive_ok b e pri cur dest outs : OutputSetOps.wf outs → node_ok G cur → node_ok G dest → cur ≠ dest →
  returns (add_productive G b e pri cur dest outs) (λ outs', ∃ d, first_left G false cur dest d ∧
    outs' = OutputSetOps.AddRange outs (port_to G cur dest d) b e pri).
Proof.
  unfold node_ok. intros Hwf Hc Hd Hne. pose proof HG as (Hk & Hn & En). rewrite En in *. unfold add_productive.
  eapply returns_bind; [apply (returns_for (λ i '(o, c, t), c = cur / k ^ i ∧ t = dest / k ^ i ∧
    ((o = outs ∧ ∀ j, 0 ≤ j < i → dig j cur = dig j dest) ∨
     ∃ d, first_left G false cur dest d ∧ o = OutputSetOps.AddRange outs (port_to G cur dest d) b e pri)))|].
  - done.
  - rewrite Z.pow_0_r, !Z.div_1_r. split_and!; try done. left. split; [done|lia].
  - intros i [[o c] t] Hi (-> & -> & Ho). rewrite !rem_digit by (done || lia). apply returns_ok.
    rewrite !quot_shift by (done || lia). split_and!; [done|done|]. destruct (Z.eqb_spec (dig i cur) (dig i dest)) as [E|E].
    + destruct Ho as [[-> Heq]|Ho]; [left|by right]. split; [done|]. intros j Hj.
      destruct (decide (j = i)) as [->|]; [done|apply Heq; lia].
    + right. destruct Ho as [[-> Heq]|(d & Hfl & ->)].
      * exists i. split; [split_and!; try lia; intros j Hj Hlt; apply Heq; lia|]. unfold port_to. by destruct (_ <? _).
      * exists d. split; [done|]. by destruct (_ <? _); apply AddRange_again.
  - intros [[o c] t] (_ & _ & [[-> Heq]|Ho]); apply returns_ok; [|done].
    destruct Hne. by apply (digits_eq k Hk n Hn).
Qed.

Lemma first_left_unique desc cur dest d d' : first_left G desc cur dest d → first_left G desc cur dest d' → d = d'.
Proof.
  intros (Hd & Hne & Hj) (Hd' & Hne' & Hj'). destruct (decide (d = d')) as [|Hdd]; [done|].
  destruct desc.
  - destruct (decide (d < d')); [by destruct Hne'; apply Hj|destruct Hne; apply Hj'; lia].
  - destruct (decide (d < d')); [destruct Hne; apply Hj'; lia|destruct Hne'; apply Hj; lia].
Qed.

(** The port of dimension order. *)
Lemma dor_port cur dest port d : node_ok G cur → node_ok G dest → cur ≠ dest →
  dor_next_mesh G cur dest false = Ok port → first_left G false cur dest d → port_to G cur dest d = port.
Proof.
  intros Hc Hd Hne Hp Hfl. destruct (dor_next_mesh_ok G HG cur dest false Hc Hd) as (p' & E & Hs).
  rewrite Hp in E. injection E as <-. rewrite decide_False in Hs by done. destruct Hs as (d' & Hfl' & ->).
  by rewrite (first_left_unique false cur dest d d').
Qed.
Lemma dor_port_eject x port : dor_next_mesh G x x false = Ok port → port = 2 * n.
Proof. unfold dor_next_mesh. rewrite Z.eqb_refl. by intros [= <-]. Qed.

(** ** [chaos_mesh] and [min_adapt_mesh] *)

Lemma chaos_mesh_dor : (∀ cl, class_ok G cl → first_vc cl ≤ 0 ≤ last_vc cl) → dor_like G any_router any_input chaos_mesh.
Proof.
  intros H0. apply only_dor; [done| |].
  - intros r f i outs g port Hc Hv Hx Hd Hp. exists 0, 0. pose proof (H0 _ Hc). split; [|lia]. unfold chaos_mesh.
    destruct (Z.eqb_spec (r_id r) (f_dest f)) as [E|E]; [rewrite E in Hp; by rewrite (dor_port_eject _ _ Hp)|].
    destruct (add_productive_ok 0 0 0 (r_id r) (f_dest f) [] ltac:(constructor) Hx Hd E) as (o & Eo & d & Hfl & ->).
    unfold OutputSetOps.Clear. rewrite Eo. cbn [mbind res_bind]. by rewrite (dor_port _ _ port d).
  - intros r f outs g Hc Hv Hd. exists 0, 0. pose proof (H0 _ Hc). split; [done|lia].
Qed.

Lemma min_adapt_mesh_dor : (∀ cl, class_ok G cl → first_vc cl = 0) → dor_like G any_router any_input min_adapt_mesh.
Proof.
  intros H0. split.
  - intros r f i outs g port Hc Hv _ _ Hx Hd _ Hp. pose proof (H0 _ Hc) as E0. unfold min_adapt_mesh.
    rewrite class_vcs_link by done. cbn [mbind res_bind]. rewrite E0 in Hv |- *.
    assert (0 ≤ last_vc (f_cl f)) as Hl by (destruct Hc as (_ & _ & ?); lia).
    destruct (Z.eqb_spec (r_id r) (f_dest f)) as [E|E].
    { rewrite E in Hp. rewrite (dor_port_eject _ _ Hp). eexists _, g. split_and!; [done|done|].
      intros x ->%list_elem_of_singleton. split_and!; try done; unfold in_class; simpl; lia. }
    rewrite Hp. cbn [mbind res_bind]. set (in_vc := if i =? 2 * n then last_vc (f_cl f) else f_vc f).
    assert (0 ≤ in_vc ≤ last_vc (f_cl f)) as Hin by (unfold in_vc; destruct (i =? 2 * n); lia).
    destruct (Z.eqb_spec in_vc 0).
    + eexists _, g. split_and!; [done|done|]. intros x ->%list_elem_of_singleton. split_and!; try done; unfold in_class; simpl; lia.
    + destruct (add_productive_ok (0 + 1) (last_vc (f_cl f)) 1 (r_id r) (f_dest f) [SetElement 0 0 0 port]) as (o & Eo & d & Hfl & ->);
        try done; [repeat constructor|]. cbn [OutputSetOps.AddRange OutputSetOps.Clear set_insert]. rewrite Eo.
      cbn [mbind res_bind]. rewrite (dor_port _ _ port d) by done. eexists _, g. split_and!; [done|done|].
      intros x Hx'. cbn in Hx'. apply elem_of_cons in Hx' as [->|Hx'%list_elem_of_singleton]; [|subst x];
        (split_and!; try done; unfold in_class; simpl; lia).
  - intros r f outs g Hc Hv Hd. unfold min_adapt_mesh. rewrite class_vcs_inject by done. eexists _, g. split; [done|].
    intros x ->%list_elem_of_singleton. pose proof Hc as (_ & _ & ?). split_and!; try done; unfold in_class; simpl; lia.
Qed.

(** ** [planar_adapt_mesh] without faults *)

Definition no_faults (r : Router) : Prop := ∀ c, 0 ≤ c < zlen (r_channel_faults r) → (r_channel_faults r)⟦c⟧ = false.

Definition last_third (cl : Z) : Z := first_vc cl + 2 * ((last_vc cl - first_vc cl + 1) `quot` 3).

(** A packet that came in dimension 0 is in the last third of the VCs. *)
Definition planar_input (i : Z) (f : Flit) : Prop := i `quot` 2 = 0 → last_third (f_cl f) ≤ f_vc f.

Lemma last_third_ok cl : class_ok G cl → first_vc cl ≤ last_third cl ≤ last_vc cl.
Proof.
  intros (_ & _ & Hc). unfold last_third. rewrite quot_div by lia.
  pose proof (Z.div_pos (last_vc cl - first_vc cl + 1) 3 ltac:(lia) ltac:(lia)).
  pose proof (Z.mul_div_le (last_vc cl - first_vc cl + 1) 3 ltac:(lia)). lia.
Qed.

Lemma not_faulty r c : router_ok G r → no_faults r → 0 ≤ c < 2 * n → RouterOps.IsFaultyOutput r c = Ok false.
Proof.
  intros [_ Hl] Hf Hc. unfold RouterOps.IsFaultyOutput.
  rewrite (proj2 (andb_true_iff _ _)) by (split; [apply Z.leb_le|apply Z.ltb_lt]; lia). cbn [cassert mbind res_bind].
  rewrite vget_ok by lia. by rewrite Hf by lia.
Qed.

Lemma adaptive_plane_ok i f cur dest : planar_input i f → node_ok G cur → node_ok G dest → cur ≠ dest →
  returns (adaptive_plane G i (f_vc f) (first_vc (f_cl f)) ((last_vc (f_cl f) - first_vc (f_cl f) + 1) `quot` 3) cur dest)
    (λ '(d, c, t), first_left G false cur dest d ∧ c = cur / k ^ d ∧ t = dest / k ^ d).
Proof.
  unfold node_ok. intros Hok Hc Hd Hne. pose proof HG as (Hk & Hn & En). rewrite En in *. unfold adaptive_plane.
  assert (∀ d : Z, (i `quot` 2 =? 0) && (d =? 0) && (f_vc f <? last_third (f_cl f)) = false) as Hskip.
  { intros d. destruct (Z.eqb_spec (i `quot` 2) 0) as [E|]; [|done]. apply Hok in E.
    destruct (Z.ltb_spec (f_vc f) (last_third (f_cl f))); [lia|]. by rewrite andb_false_r. }
  eapply (returns_bind _ _ (λ c, ∃ d, ctl_val c = (d, cur / k ^ d, dest / k ^ d) ∧ first_left G false cur dest d)).
  - eapply returns_mono; [apply (returns_forb (λ j s, s = (j, cur / k ^ j, dest / k ^ j) ∧ ∀ l, 0 ≤ l < j → dig l cur = dig l dest)
      (λ s, ∃ d, s = (d, cur / k ^ d, dest / k ^ d) ∧ first_left G false cur dest d))|].
    + done.
    + rewrite Z.pow_0_r, !Z.div_1_r. split; [done|lia].
    + intros j s Hj [-> Heq]. unfold last_third in Hskip. rewrite Hskip, !rem_digit by (done || lia).
      destruct (Z.eqb_spec (dig j cur) (dig j dest)) as [E|E]; apply returns_ok.
      * rewrite !quot_shift by (done || lia). split; [done|]. intros l Hl. destruct (decide (l = j)) as [->|]; [done|apply Heq; lia].
      * exists j. split; [done|]. split_and!; [lia|lia|done|]. intros l Hl Hlt. apply Heq. lia.
    + intros [s|s] Hs; [|done]. destruct Hs as [_ Heq]. destruct Hne. by apply (digits_eq k Hk n Hn).
  - intros c (d & E & Hf). rewrite E. by apply returns_ok.
Qed.

Lemma planar_adapt_mesh_dor : 0 < n → dor_like G no_faults planar_input planar_adapt_mesh.
Proof.
  intros Hn0. split.
  - intros r f i outs g port Hc Hv Hr Hh Hx Hd Hok Hp. pose proof (last_third_ok _ Hc) as Ht. unfold planar_adapt_mesh.
    rewrite class_vcs_link by done. cbn [mbind res_bind]. destruct (Z.eqb_spec (r_id r) (f_dest f)) as [E|E].
    { rewrite E in Hp. rewrite (dor_port_eject _ _ Hp). eexists _, g. split_and!; [done|done|].
      intros x ->%list_elem_of_singleton. split_and!; try done; [unfold in_class; simpl; lia|].
      intros v _. unfold planar_input, entry_port. rewrite lxor_even, quot_odd by lia. lia. }
    destruct (adaptive_plane_ok i f _ _ Hok Hx Hd E) as ([[d c] t] & -> & Hfl & -> & ->). cbn [mbind res_bind].
    pose proof Hfl as (Hdn & _). unfold node_ok in Hx, Hd. destruct (Z.ltb_spec d n); [|lia]. cbn [cassert mbind res_bind].
    rewrite !rem_digit by (done || lia).
    assert ((if dig d (r_id r) <? dig d (f_dest f) then 2 * d else 2 * d + 1) = port) as ->
      by (by rewrite <- (dor_port (r_id r) (f_dest f) port d)).
    rewrite (not_faulty r port) by (done || rewrite <- (dor_port (r_id r) (f_dest f) port d) by done; by apply port_to_range).
    cbn [mbind res_bind]. fold (last_third (f_cl f)).
    match goal with |- context [mbind _ ?m] => assert (m = Ok (OutputSetOps.AddRange [] port (last_third (f_cl f)) (last_vc (f_cl f)) 0, g)) as -> end.
    { set (d1 := second_port _ _ _ _ _ _). assert (d1 = -1 ∨ 0 ≤ d1 < 2 * n) as Hd1.
      { pose proof (Z.rem_bound_pos (d + 1) n ltac:(lia) ltac:(lia)). unfold d1, second_port.
        destruct (_ =? i); [by left|]. destruct (_ <? _); [right; lia|]. destruct (negb _); [right; lia|by left]. }
      destruct (Z.eqb_spec d1 (-1)); [done|]. cbn [negb]. rewrite (not_faulty r d1) by (done || lia). cbn [mbind res_bind negb].
      by rewrite AddRange_again by constructor. }
    cbn [mbind res_bind]. eexists _, g. split_and!; [done|done|].
    intros x ->%list_elem_of_singleton. split_and!; try done; [unfold in_class; simpl; lia|]. intros v Hv' _. simpl in *. lia.
  - intros r f outs g Hc Hv Hd. unfold planar_adapt_mesh. rewrite class_vcs_inject by done. eexists _, g. split; [done|].
    intros x ->%list_elem_of_singleton. pose proof Hc as (_ & _ & ?). split; [unfold in_class; simpl; lia|].
    intros v _. unfold planar_input. rewrite quot_even by lia. lia.
Qed.
End adaptive.
