(* ===== verification/MeshTheorems.v ===== *)
(** * What the mesh routing functions guarantee

    The properties of the routing functions for meshes, with witnesses in a
    3x3 mesh, and the configurations in which they do not hold. *)

From stdpp Require Import relations.
From S2P Require Import Prelude OutputSet Flit Rng KNCube Route Mesh MeshRouting TwoPhase AdaptiveMesh.
Import RouteOps.

(** ** Dimension order *)

(** C8. Dimension-order routing, plain and with VCs divided by destination or by
    coordinate: from every node to every node, no assertion fails, every route
    is a shortest one and ends in ejection at the destination, only VCs of the
    packet's class are used, and the buffers cannot wait for each other in a
    cycle. *)
Theorem dim_order_delivers G rf cl src dest p :
  mesh_ok G →
  (rf = dim_order_mesh ∨ (rf = dim_order_ni_mesh ∧ vcs_for G (gNodes G)) ∨ (rf = dim_order_pni_mesh ∧ vcs_for G (gK G))) →
  class_ok G cl → node_ok G src → node_ok G dest → injected G rf cl src dest p →
  delivers G rf any_router (mdist G src dest) p ∧ deadlock_free G rf any_router.
Proof.
  intros HG Hrf Hcl Hs Hd Hi. assert (dor_like G any_router any_input rf) as H.
  { destruct Hrf as [->|[[-> ?]|[-> ?]]];
      [by apply dim_order_mesh_dor|by apply dim_order_ni_mesh_dor|by apply dim_order_pni_mesh_dor]. }
  split; [|by apply (dor_deadlock_free G HG any_router any_input)].
  by apply (shortest_deliver G rf any_router (dor_laws G HG _ _ rf H) cl); [apply (dor_admits G any_router any_input)|..].
Qed.

(** A packet from node 0 to node 7 of a 3x3 mesh with VCs [0, last]. *)
Definition mesh_3x3 (last : Z) : Globals := mkGlobals 3 2 9 [0] [last].
Definition packet_0_7 (vc : Z) : Flit := {|
  f_type := ANY_TYPE; f_vc := vc; f_cl := 0; f_head := true; f_tail := true;
  f_ctime := 0; f_itime := 0; f_atime := 0; f_id := 0; f_pid := 0;
  f_hops := 0; f_watch := false; f_record := false; f_src := 0; f_dest := 7;
  f_pri := 0; f_intm := -1; f_ph := -1; f_packet_size := 1;
  f_subnetwork := 0; f_la_route_set := [] |}.
Definition idle_router (x : Z) : Router := mkRouter x (replicate 5 0) (replicate 5 false).

Lemma mesh_3x3_class last cl : class_ok (mesh_3x3 last) cl → cl = 0 ∧ first_vc (mesh_3x3 last) cl = 0 ∧ last_vc (mesh_3x3 last) cl = last.
Proof. intros (H & _). assert (cl = 0) as -> by (unfold zlen in H; simpl in H; lia). done. Qed.
Lemma mesh_3x3_vcs_for last parts : parts ≤ last + 1 → vcs_for (mesh_3x3 last) parts.
Proof. intros Hp cl Hc. apply mesh_3x3_class in Hc as (_ & -> & ->). lia. Qed.
Lemma mesh_3x3_even : even_classes (mesh_3x3 11).
Proof. intros cl Hc. apply mesh_3x3_class in Hc as (_ & -> & ->). by exists 6. Qed.
Lemma mesh_3x3_separate last : separate_classes (mesh_3x3 last).
Proof. intros cl cl' v Hc Hc' _ _. by apply mesh_3x3_class in Hc as (-> & _), Hc' as (-> & _). Qed.

Lemma mesh_3x3_injected rf b e : rf (mesh_3x3 11) (idle_router 0) (packet_0_7 (-1)) (-1) [] true RngOps.initial =
    Ok ([SetElement b e 0 (-1)], packet_0_7 (-1), RngOps.initial) → b ≤ e →
  injected (mesh_3x3 11) rf 0 0 7 (mkPlace 0 4 (packet_0_7 b)).
Proof.
  intros E Hbe. eapply (injected_intro _ _ 0 0 7 _ (idle_router 0) RngOps.initial [] _ (packet_0_7 (-1)) _ _ (SetElement b e 0 (-1)) b); try done.
  - apply RngInv.rng_ok_initial.
  - by left.
Qed.

Lemma dim_order_delivers_witness :
  delivers (mesh_3x3 11) dim_order_ni_mesh any_router 3 (mkPlace 0 4 (packet_0_7 7)) ∧
  deadlock_free (mesh_3x3 11) dim_order_ni_mesh any_router.
Proof.
  apply (dim_order_delivers (mesh_3x3 11) dim_order_ni_mesh 0 0 7); try done.
  - right. left. split; [done|]. by apply mesh_3x3_vcs_for.
  - by apply (mesh_3x3_injected dim_order_ni_mesh 7 7).
Defined.

(** ** Non-interference *)

Lemma dest_vcs_inv b e parts i b' e' : dest_vcs b e parts i = Ok (b', e') →
  0 < (e - b + 1) `quot` parts ∧ b' = b + i * ((e - b + 1) `quot` parts) ∧ e' = b' + (e - b + 1) `quot` parts - 1.
Proof. unfold dest_vcs. intros [Hp [= <- <-]]%assert_ok_inv. bool_to_prop. lia. Qed.

(** The VCs a non-interfering function offers before the last router. *)
Definition ni_like (rf : tRoutingFunction) : Prop := ∀ G r f i outs (inject : bool) g outs' f' g' e,
  (inject = false → r_id r ≠ f_dest f) → rf G r f i outs inject g = Ok (outs', f', g') → e ∈ outs' →
  let per := (last_vc G (f_cl f) - first_vc G (f_cl f) + 1) `quot` gNodes G in
  0 < per ∧ vc_start e = first_vc G (f_cl f) + f_dest f * per ∧ vc_end e = vc_start e + per - 1.

Lemma ni_vcs G r f (inject : bool) (k : Z * Z → res (OutputSet * Flit * Rng)) x :
  (inject = false → r_id r ≠ f_dest f) →
  ('(vcBegin, vcEnd) ← class_vcs G f inject;
   '(vcBegin, vcEnd) ← (if inject || negb (r_id r =? f_dest f)
                        then dest_vcs vcBegin vcEnd (gNodes G) (f_dest f) else Ok (vcBegin, vcEnd));
   k (vcBegin, vcEnd)) = Ok x →
  let per := (last_vc G (f_cl f) - first_vc G (f_cl f) + 1) `quot` gNodes G in
  0 < per ∧ k (first_vc G (f_cl f) + f_dest f * per, first_vc G (f_cl f) + f_dest f * per + per - 1) = Ok x.
Proof.
  intros Hne Hk. apply bind_ok_inv in Hk as ([b e] & Hcl & Hk). unfold class_vcs in Hcl.
  apply bind_ok_inv in Hcl as (b0 & [_ Hb]%vget_inv & Hcl). apply bind_ok_inv in Hcl as (e0 & [_ He]%vget_inv & Hcl).
  apply assert_ok_inv in Hcl as [_ [= -> ->]]. fold (first_vc G (f_cl f)) in Hb. fold (last_vc G (f_cl f)) in He. subst b e.
  assert (inject || negb (r_id r =? f_dest f) = true) as E.
  { destruct inject; [done|]. by rewrite (proj2 (Z.eqb_neq _ _) (Hne eq_refl)). }
  rewrite E in Hk. apply bind_ok_inv in Hk as ([b' e'] & (Hp & -> & ->)%dest_vcs_inv & Hk). by split.
Qed.

Lemma dim_order_ni_mesh_ni : ni_like dim_order_ni_mesh.
Proof.
  intros G r f i outs inject g outs' f' g' e Hne Hrf He. unfold dim_order_ni_mesh in Hrf.
  apply bind_ok_inv in Hrf as (port & _ & Hrf).
  apply (ni_vcs G r f inject (λ '(b, e), Ok (only outs port b e, f, g))) in Hrf as [Hp [= <- _ _]]; [|done].
  apply elem_of_only in He as ->. by split.
Qed.

Lemma romm_ni_mesh_ni : ni_like romm_ni_mesh.
Proof.
  intros G r f i outs inject g outs' f' g' e Hne Hrf He. unfold romm_ni_mesh in Hrf.
  apply (ni_vcs G r f inject (λ '(b, e), if inject then Ok (only outs (-1) b e, f, g)
    else '(f, g) ← two_phase G (λ f, rand_min_intr_mesh G (f_src f) (f_dest f)) r f i g;
         out_port ← dor_next_mesh G (r_id r) (phase_target f) false; Ok (only outs out_port b e, f, g))) in Hrf as [Hp Hrf]; [|done].
  destruct inject; [injection Hrf as <- _ _; apply elem_of_only in He as ->; by split|].
  apply bind_ok_inv in Hrf as ([f1 g1] & _ & Hrf). apply bind_ok_inv in Hrf as (port & _ & [= <- _ _]).
  apply elem_of_only in He as ->. by split.
Qed.

(** The coordinate of the destination by which [dim_order_pni_mesh] divides the VCs: in
    the dimension of the next hop, and in dimension 0 at injection. *)
Definition next_coord G (r : Router) (f : Flit) (inject : bool) (c : Z) : Prop :=
  if inject then c = digit (gK G) 0 (f_dest f)
  else ∃ port, dor_next_mesh G (r_id r) (f_dest f) false = Ok port ∧ c = digit (gK G) (port `quot` 2) (f_dest f).

Lemma dim_order_pni_mesh_vcs G r f i outs (inject : bool) g outs' f' g' e c :
  mesh_ok G → node_ok G (f_dest f) → (inject = false → node_ok G (r_id r) ∧ r_id r ≠ f_dest f) → next_coord G r f inject c →
  dim_order_pni_mesh G r f i outs inject g = Ok (outs', f', g') → e ∈ outs' →
  let per := (last_vc G (f_cl f) - first_vc G (f_cl f) + 1) `quot` gK G in
  0 < per ∧ vc_start e = first_vc G (f_cl f) + c * per ∧ vc_end e = vc_start e + per - 1.
Proof.
  intros HG Hd Hr Hc Hrf He. unfold dim_order_pni_mesh in Hrf. apply bind_ok_inv in Hrf as (port & Hport & Hrf).
  apply bind_ok_inv in Hrf as ([b e'] & Hcl & Hrf). unfold class_vcs in Hcl.
  apply bind_ok_inv in Hcl as (b0 & [_ Hb]%vget_inv & Hcl). apply bind_ok_inv in Hcl as (e0 & [_ He0]%vget_inv & Hcl).
  apply assert_ok_inv in Hcl as [_ [= -> ->]]. fold (first_vc G (f_cl f)) in Hb. fold (last_vc G (f_cl f)) in He0. subst b e'.
  assert (inject || negb (r_id r =? f_dest f) = true) as E.
  { destruct inject; [done|]. by rewrite (proj2 (Z.eqb_neq _ _) (proj2 (Hr eq_refl))). }
  rewrite E in Hrf. apply bind_ok_inv in Hrf as ([b' e'] & Hvcs & [= <- _ _]). apply elem_of_only in He as ->.
  apply bind_ok_inv in Hvcs as (x & Hx & Hvcs). apply assert_ok_inv in Hvcs as [_ (Hp & -> & ->)%dest_vcs_inv].
  assert (x `rem` gK G = c) as ->; [|by split]. unfold node_ok in Hd. destruct inject; simpl in Hc.
  - injection Hx as <-. rewrite Hc, <- rem_digit by first [done|lia]. by rewrite Z.pow_0_r, Z.div_1_r.
  - destruct Hc as (port' & Hport' & ->). rewrite Hport' in Hport. injection Hport as <-.
    assert (0 ≤ port' `quot` 2) as Hq.
    { destruct (Hr eq_refl) as [Hn Hne]. destruct (dor_next_mesh_ok G HG _ _ false Hn Hd) as (port & E2 & Hspec). rewrite Hport' in E2. injection E2 as <-.
      rewrite decide_False in Hspec by done. destruct Hspec as (d & (Hdn & _) & ->). pose proof (port_to_range G (r_id r) (f_dest f) d Hdn). apply Z.quot_pos; lia. }
    rewrite (shift_ok G HG) in Hx by lia. injection Hx as <-. by apply rem_digit; first [done|lia].
Qed.

(** The shares of two different numbers are disjoint. *)
Lemma shares_disjoint b per x y s1 e1 s2 e2 v : x ≠ y → 0 < per → s1 = b + x * per → e1 = s1 + per - 1 → s2 = b + y * per → e2 = s2 + per - 1 →
  s1 ≤ v ≤ e1 → ¬ s2 ≤ v ≤ e2.
Proof. intros Hne Hp -> -> -> -> Hv1 Hv2. assert (x < y ∨ y < x) as [Hlt|Hlt] by lia; nia. Qed.

(** C31. The non-interfering functions divide the VCs of a class.  Two packets of one
    class that are injected or not yet at their last router are offered disjoint sets of
    VCs, whatever their routers: by [dim_order_ni_mesh] and [romm_ni_mesh] when their
    destinations differ, and by [dim_order_pni_mesh] when their destinations differ in
    the coordinate of the next hop. *)
Theorem ni_separates_destinations rf G r1 f1 i1 (inj1 : bool) g1 r2 f2 i2 (inj2 : bool) g2 o1 o2 s1 s2 f1' f2' g1' g2' e1 e2 v :
  ((rf = dim_order_ni_mesh ∨ rf = romm_ni_mesh) ∧ f_dest f1 ≠ f_dest f2) ∨
  (rf = dim_order_pni_mesh ∧ mesh_ok G ∧ node_ok G (f_dest f1) ∧ node_ok G (f_dest f2) ∧
    (inj1 = false → node_ok G (r_id r1)) ∧ (inj2 = false → node_ok G (r_id r2)) ∧
    ∃ c1 c2, next_coord G r1 f1 inj1 c1 ∧ next_coord G r2 f2 inj2 c2 ∧ c1 ≠ c2) →
  f_cl f1 = f_cl f2 →
  (inj1 = false → r_id r1 ≠ f_dest f1) → (inj2 = false → r_id r2 ≠ f_dest f2) →
  rf G r1 f1 i1 o1 inj1 g1 = Ok (s1, f1', g1') → rf G r2 f2 i2 o2 inj2 g2 = Ok (s2, f2', g2') →
  e1 ∈ s1 → e2 ∈ s2 → vc_start e1 ≤ v ≤ vc_end e1 → ¬ vc_start e2 ≤ v ≤ vc_end e2.
Proof.
  intros Hrf Ecl Hn1 Hn2 H1 H2 He1 He2. destruct Hrf as [[Hrf Hd]|(-> & HG & Hd1 & Hd2 & Hr1 & Hr2 & c1 & c2 & Hc1 & Hc2 & Hne)].
  - assert (ni_like rf) as Hni by (destruct Hrf as [->| ->]; [apply dim_order_ni_mesh_ni|apply romm_ni_mesh_ni]).
    destruct (Hni _ _ _ _ _ _ _ _ _ _ _ Hn1 H1 He1) as (Hp & Eb1 & Ee1).
    destruct (Hni _ _ _ _ _ _ _ _ _ _ _ Hn2 H2 He2) as (_ & Eb2 & Ee2). rewrite <- Ecl in *. by eapply shares_disjoint.
  - destruct (dim_order_pni_mesh_vcs G r1 f1 i1 o1 inj1 g1 s1 f1' g1' e1 c1 HG Hd1 ltac:(auto) Hc1 H1 He1) as (Hp & Eb1 & Ee1).
    destruct (dim_order_pni_mesh_vcs G r2 f2 i2 o2 inj2 g2 s2 f2' g2' e2 c2 HG Hd2 ltac:(auto) Hc2 H2 He2) as (_ & Eb2 & Ee2). rewrite <- Ecl in *. by eapply shares_disjoint.
Qed.

(** Packets for the nodes 7 and 0 of a 3x3 mesh, one at router 0 and one at injection: with
    12 VCs, [dim_order_ni_mesh] gives one VC to each node, and [dim_order_pni_mesh] four
    to each coordinate. *)
Lemma ni_separates_destinations_witness : ¬ 0 ≤ 7 ≤ 0 ∧ ¬ 0 ≤ 4 ≤ 3.
Proof.
  split.
  - apply (ni_separates_destinations dim_order_ni_mesh (mesh_3x3 11)
      (idle_router 0) (packet_0_7 0) 4 false RngOps.initial
      (idle_router 3) (FlitOps.sample 1 1 (-1) true true) (-1) true RngOps.initial
      [] [] [SetElement 7 7 0 0] [SetElement 0 0 0 (-1)] (packet_0_7 0) (FlitOps.sample 1 1 (-1) true true)
      RngOps.initial RngOps.initial (SetElement 7 7 0 0) (SetElement 0 0 0 (-1)) 7); try done; try by left.
    left. split; [by left|done].
  - apply (ni_separates_destinations dim_order_pni_mesh (mesh_3x3 11)
      (idle_router 0) (packet_0_7 0) 4 false RngOps.initial
      (idle_router 3) (FlitOps.sample 1 1 (-1) true true) (-1) true RngOps.initial
      [] [] [SetElement 4 7 0 0] [SetElement 0 3 0 (-1)] (packet_0_7 0) (FlitOps.sample 1 1 (-1) true true)
      RngOps.initial RngOps.initial (SetElement 4 7 0 0) (SetElement 0 3 0 (-1)) 4); try done; try by left.
    right. split_and!; try done. exists 1, 0. split; [by exists 0|done].
Defined.

(** ** The adaptive functions *)

(** C29. [chaos_mesh] when VC 0 is a VC of every class, [min_adapt_mesh] when every class
    starts at VC 0, and [planar_adapt_mesh] when no router has a fault deliver along
    shortest routes and cannot deadlock -- because they are dimension-order routing: at
    every router they offer the dimension-order port and no other. *)
Theorem adaptive_mesh_is_dimension_order G rf healthy cl src dest p :
  mesh_ok G → 0 < gN G →
  (rf = chaos_mesh ∧ healthy = any_router ∧ (∀ cl, class_ok G cl → first_vc G cl ≤ 0 ≤ last_vc G cl)) ∨
  (rf = min_adapt_mesh ∧ healthy = any_router ∧ (∀ cl, class_ok G cl → first_vc G cl = 0)) ∨
  (rf = planar_adapt_mesh ∧ healthy = no_faults) →
  class_ok G cl → node_ok G src → node_ok G dest → injected G rf cl src dest p →
  delivers G rf healthy (mdist G src dest) p ∧ deadlock_free G rf healthy ∧
  ∀ p', rtc (hop G rf healthy) p p' →
    offers G rf healthy p' (λ e, dor_next_mesh G (p_node p') (f_dest (p_flit p')) false = Ok (output_port e)).
Proof.
  intros HG Hn Hrf Hcl Hs Hd Hi. assert (∃ ok, dor_like G healthy ok rf) as [ok H].
  { destruct Hrf as [(-> & -> & H0)|[(-> & -> & H0)|(-> & ->)]]; eexists;
      [by apply chaos_mesh_dor|by apply min_adapt_mesh_dor|by apply planar_adapt_mesh_dor]. }
  destruct (dor_admits G healthy ok rf H _ _ _ _ Hcl Hs Hd Hi) as (HI & _). split_and!.
  - by apply (shortest_deliver G rf healthy (dor_laws G HG _ _ rf H) cl); [apply (dor_admits G healthy ok)|..].
  - by apply (dor_deadlock_free G HG healthy ok).
  - intros p' Hr. by apply (dor_offers G HG healthy ok rf p p').
Qed.

Lemma adaptive_mesh_is_dimension_order_witness :
  delivers (mesh_3x3 11) planar_adapt_mesh no_faults 3 (mkPlace 0 4 (packet_0_7 0)) ∧
  deadlock_free (mesh_3x3 11) planar_adapt_mesh no_faults ∧
  ∀ p', rtc (hop (mesh_3x3 11) planar_adapt_mesh no_faults) (mkPlace 0 4 (packet_0_7 0)) p' →
    offers (mesh_3x3 11) planar_adapt_mesh no_faults p'
      (λ e, dor_next_mesh (mesh_3x3 11) (p_node p') (f_dest (p_flit p')) false = Ok (output_port e)).
Proof.
  apply (adaptive_mesh_is_dimension_order (mesh_3x3 11) planar_adapt_mesh no_faults 0 0 7); try done.
  - right. by right.
  - by apply (mesh_3x3_injected planar_adapt_mesh 0 11).
Defined.

(** With a class that does not start at VC 0, [min_adapt_mesh] offers the VCs of
    the classes below: its [AddRange] has the arguments in the wrong order.  A
    packet that takes one fails the assertion at the next router. *)
Definition two_classes : Globals := mkGlobals 3 2 9 [0; 2] [1; 3].
Definition class_1_packet (vc : Z) : Flit := {|
  f_type := ANY_TYPE; f_vc := vc; f_cl := 1; f_head := true; f_tail := true;
  f_ctime := 0; f_itime := 0; f_atime := 0; f_id := 0; f_pid := 0;
  f_hops := 0; f_watch := false; f_record := false; f_src := 0; f_dest := 7;
  f_pri := 0; f_intm := -1; f_ph := -1; f_packet_size := 1;
  f_subnetwork := 0; f_la_route_set := [] |}.

Example min_adapt_foreign_vcs :
  min_adapt_mesh two_classes (idle_router 0) (class_1_packet 2) 4 [] false RngOps.initial =
    Ok ([SetElement 0 2 2 0; SetElement 3 3 1 0], class_1_packet 2, RngOps.initial) ∧
  min_adapt_mesh two_classes (idle_router 1) (class_1_packet 0) 1 [] false RngOps.initial = Fail AssertFailed.
Proof. by split. Qed.

(** ** XY-YX routing *)

(** C28. [xy_yx_mesh] and [adaptive_xy_yx_mesh], with an even number of VCs per
    class: whatever order is drawn or chosen at injection, the packet keeps it,
    is delivered along a shortest route, and XY and YX packets together cannot
    deadlock. *)
Theorem xy_yx_delivers G rf cl src dest p :
  mesh_ok G → even_classes G → separate_classes G → rf = xy_yx_mesh ∨ rf = adaptive_xy_yx_mesh →
  class_ok G cl → node_ok G src → node_ok G dest → injected G rf cl src dest p →
  delivers G rf any_router (mdist G src dest) p ∧ deadlock_free G rf any_router.
Proof.
  intros HG Hev Hsep Hrf Hcl Hs Hd Hi. assert (xy_like G rf) as H.
  { destruct Hrf as [->| ->]; [by apply xy_yx_mesh_xy|by apply adaptive_xy_yx_mesh_xy]. }
  split; [|by apply xy_deadlock_free].
  by apply (shortest_deliver G rf any_router (xy_laws G HG Hev rf H) cl); [apply xy_admits|..].
Qed.

Lemma xy_yx_delivers_witness :
  delivers (mesh_3x3 11) xy_yx_mesh any_router 3 (mkPlace 0 4 (packet_0_7 0)) ∧
  deadlock_free (mesh_3x3 11) xy_yx_mesh any_router.
Proof.
  apply (xy_yx_delivers (mesh_3x3 11) xy_yx_mesh 0 0 7); try done.
  - apply mesh_3x3_even.
  - apply mesh_3x3_separate.
  - by left.
  - by apply (mesh_3x3_injected xy_yx_mesh 0 11).
Defined.

(** With three VCs the halves overlap: VC 1 is offered to XY packets, and at the
    next router the packet in it is taken for a YX packet and turns. *)
Definition packet_0_8 (vc : Z) : Flit := {|
  f_type := ANY_TYPE; f_vc := vc; f_cl := 0; f_head := true; f_tail := true;
  f_ctime := 0; f_itime := 0; f_atime := 0; f_id := 0; f_pid := 0;
  f_hops := 0; f_watch := false; f_record := false; f_src := 0; f_dest := 8;
  f_pri := 0; f_intm := -1; f_ph := -1; f_packet_size := 1;
  f_subnetwork := 0; f_la_route_set := [] |}.

Example xy_yx_odd_vcs :
  adaptive_xy_yx_mesh (mesh_3x3 2) (mkRouter 0 [0; 0; 5; 0; 0] (replicate 5 false)) (packet_0_8 0) 4 [] false RngOps.initial =
    Ok ([SetElement 0 1 0 0], packet_0_8 0, RngOps.initial) ∧
  adaptive_xy_yx_mesh (mesh_3x3 2) (idle_router 1) (packet_0_8 1) 1 [] false RngOps.initial =
    Ok ([SetElement 1 2 0 2], packet_0_8 1, RngOps.initial).
Proof. by split. Qed.

(** ** Two phases *)






(** A packet that passes its destination in phase 0 is offered all VCs on the
    next link, those of phase 1 included. *)
Example valiant_phase_0_at_destination :
  let f := FlitOps.set_intm 8 (FlitOps.set_ph 0 (packet_0_7 0)) in
  valiant_mesh (mesh_3x3 3) (idle_router 7) f 1 [] false RngOps.initial = Ok ([SetElement 0 3 0 0], f, RngOps.initial) ∧
  valiant_mesh (mesh_3x3 3) (idle_router 6) f 3 [] false RngOps.initial = Ok ([SetElement 0 1 0 0], f, RngOps.initial).
Proof. by split. Qed.
