(* ===== verification/TorusRoute.v ===== *)
(** * Routing functions of the torus

    The routing functions of routefunc.cpp for tori.  [dor_next_torus] returns
    the output port and the value it writes through [partition], if it writes
    one. *)

From S2P Require Import Prelude OutputSet Flit Rng KNCube Route.

Module TorusOps.
Import FlitOps RouteOps.

Section route.
Context (G : Globals).
Local Abbreviation k := (gK G).
Local Abbreviation n := (gN G).

(** The VC partition of a packet that starts to travel in a ring; [go_right] is
    [dir == 0]. *)
Definition ring_partition (balance go_right : bool) (cur dest : Z) (g : Rng) : res (Z * Rng) :=
  if balance then
    if (go_right && (dest <? cur)) || (negb go_right && (cur <? dest)) then Ok (1, g)
    else if (go_right && (cur <=? (k - 1) `quot` 2) && ((k - 1) `quot` 2 <? dest)) ||
            (negb go_right && ((k - 1) `quot` 2 <? cur) && (dest <=? (k - 1) `quot` 2)) then Ok (0, g)
    else RngOps.RandomInt g 1
  else Ok (if (go_right && (dest <? cur)) || (negb go_right && (dest <? cur)) then 1 else 0, g).

(** The direction: the shorter one, a random one if both are the same length. *)
Definition ring_direction (cur dest : Z) (g : Rng) : res (bool * Rng) :=
  let dist2 := k - 2 * ((dest - cur + k) `rem` k) in
  if 0 <? dist2 then Ok (true, g)
  else if dist2 =? 0 then '(v, g) ← RngOps.RandomInt g 1; Ok (negb (v =? 0), g)
  else Ok (false, g).

Definition dor_next_torus (cur dest in_port : Z) (partition balance : bool) (g : Rng) : res (Z * option Z * Rng) :=
  c ← zforb 0 n (λ _ '(dim_left, cur, dest),
        if negb (cur `rem` k =? dest `rem` k) then Ok (Break (dim_left, cur, dest))
        else Ok (Next (dim_left + 1, cur `quot` k, dest `quot` k))) (0, cur, dest);
  let '(dim_left, cur, dest) := ctl_val c in
  if dim_left <? n then
    if negb (in_port `quot` 2 =? dim_left) then
      let cur := cur `rem` k in
      let dest := dest `rem` k in
      '(go_right, g) ← ring_direction cur dest g;
      let out_port := if (go_right : bool) then 2 * dim_left else 2 * dim_left + 1 in
      if partition then
        '(part, g) ← ring_partition balance go_right cur dest g;
        Ok (out_port, Some part, g)
      else Ok (out_port, None, g)
    else Ok (Z.lxor in_port 1, None, g)
  else Ok (2 * n, None, g).

(** [dor_next_torus(..., &f->ph, balance)]. *)
Definition dor_next_torus_ph (cur : Z) (f : Flit) (in_port : Z) (balance : bool) (g : Rng) : res (Z * Flit * Rng) :=
  '(out_port, part, g) ← dor_next_torus cur (f_dest f) in_port true balance g;
  Ok (out_port, set_ph (default (f_ph f) part) f, g).

Definition dim_order_torus (r : Router) (f : Flit) (in_channel : Z) (outputs : OutputSet) (inject : bool) (g : Rng)
    : res (OutputSet * Flit * Rng) :=
  '(vcBegin, vcEnd) ← class_vcs G f inject;
  if inject then Ok (only outputs (-1) vcBegin vcEnd, f, g)
  else
    '(out_port, f, g) ← dor_next_torus_ph (r_id r) f in_channel false g;
    if r_id r =? f_dest f then Ok (only outputs out_port vcBegin vcEnd, f, g)
    else
      let available_vcs := (vcEnd - vcBegin + 1) `quot` 2 in
      assert! (0 <? available_vcs);
      let '(vcBegin, vcEnd) := half_vcs vcBegin vcEnd available_vcs (f_ph f =? 0) in
      Ok (only outputs out_port vcBegin vcEnd, f, g).

Definition dim_order_bal_torus (r : Router) (f : Flit) (in_channel : Z) (outputs : OutputSet) (inject : bool) (g : Rng)
    : res (OutputSet * Flit * Rng) :=
  '(vcBegin, vcEnd) ← class_vcs G f inject;
  if inject then Ok (only outputs (-1) vcBegin vcEnd, f, g)
  else
    '(out_port, f, g) ← dor_next_torus_ph (r_id r) f in_channel true g;
    if r_id r =? f_dest f then Ok (only outputs out_port vcBegin vcEnd, f, g)
    else
      let available_vcs := (vcEnd - vcBegin + 1) `quot` 2 in
      assert! (0 <? available_vcs);
      assert! (f_ph f =? 0) || (f_ph f =? 1);
      let '(vcBegin, vcEnd) := half_vcs vcBegin vcEnd available_vcs (f_ph f =? 0) in
      Ok (only outputs out_port vcBegin vcEnd, f, g).

Definition dim_order_ni_torus (r : Router) (f : Flit) (in_channel : Z) (outputs : OutputSet) (inject : bool) (g : Rng)
    : res (OutputSet * Flit * Rng) :=
  '(vcBegin, vcEnd) ← class_vcs G f inject;
  if inject then Ok (only outputs (-1) vcBegin vcEnd, f, g)
  else
    '(out_port, _, g) ← dor_next_torus (r_id r) (f_dest f) in_channel false false g;
    if r_id r =? f_dest f then Ok (only outputs out_port vcBegin vcEnd, f, g)
    else
      let vcs_per_dest := (vcEnd - vcBegin + 1) `quot` gNodes G in
      assert! negb (vcs_per_dest =? 0);
      let vcBegin := vcBegin + f_dest f * vcs_per_dest in
      let vcEnd := vcBegin + vcs_per_dest - 1 in
      Ok (only outputs out_port vcBegin vcEnd, f, g).

(** The VCs of a ring partition and a phase in Valiant routing. *)
Definition ring_phase_vcs (ring_part phase vcBegin vcEnd : Z) : res (Z * Z) :=
  let ring_available_vcs := (vcEnd - vcBegin + 1) `quot` 2 in
  assert! (0 <? ring_available_vcs);
  assert! (ring_part =? 0) || (ring_part =? 1);
  let '(vcBegin, vcEnd) := half_vcs vcBegin vcEnd ring_available_vcs (ring_part =? 0) in
  let ph_available_vcs := ring_available_vcs `quot` 2 in
  assert! (0 <? ph_available_vcs);
  assert! (phase =? 0) || (phase =? 1);
  Ok (half_vcs vcBegin vcEnd ph_available_vcs (phase =? 0)).

(** The local [ring_part] has no initial value, and [dor_next_torus] does not
    always write it: [ring_part] is what the variable happens to hold. *)
Definition valiant_torus (ring_part : Z) (r : Router) (f : Flit) (in_channel : Z) (outputs : OutputSet) (inject : bool) (g : Rng)
    : res (OutputSet * Flit * Rng) :=
  '(vcBegin, vcEnd) ← class_vcs G f inject;
  if inject then Ok (only outputs (-1) vcBegin vcEnd, f, g)
  else
    '(phase, f, g) ← (if in_channel =? 2 * n then
                        '(intm, g) ← RngOps.RandomInt g (gNodes G - 1); Ok (0, set_intm intm f, g)
                      else Ok (f_ph f `quot` 2, f, g));
    let arrived := (phase =? 0) && (r_id r =? f_intm f) in
    let phase := if arrived then 1 else phase in
    let in_channel := if arrived then 2 * n else in_channel in
    '(out_port, part, g) ← dor_next_torus (r_id r) (if phase =? 0 then f_intm f else f_dest f) in_channel true false g;
    let ring_part := default ring_part part in
    let f := set_ph (2 * phase + ring_part) f in
    '(vcBegin, vcEnd) ← (if r_id r =? f_dest f then Ok (vcBegin, vcEnd) else ring_phase_vcs ring_part phase vcBegin vcEnd);
    Ok (only outputs out_port vcBegin vcEnd, f, g).

(** As in the source, the phase change is tested and made in [f->ph], not in
    [phase]. *)
Definition valiant_ni_torus (ring_part : Z) (r : Router) (f : Flit) (in_channel : Z) (outputs : OutputSet) (inject : bool) (g : Rng)
    : res (OutputSet * Flit * Rng) :=
  '(vcBegin, vcEnd) ← class_vcs G f inject;
  '(vcBegin, vcEnd) ← (if inject || negb (r_id r =? f_dest f)
                       then dest_vcs vcBegin vcEnd (gNodes G) (f_dest f) else Ok (vcBegin, vcEnd));
  if inject then Ok (only outputs (-1) vcBegin vcEnd, f, g)
  else
    '(phase, f, g) ← (if in_channel =? 2 * n then
                        '(intm, g) ← RngOps.RandomInt g (gNodes G - 1); Ok (0, set_intm intm f, g)
                      else Ok (f_ph f `quot` 2, f, g));
    let arrived := (f_ph f =? 0) && (r_id r =? f_intm f) in
    let f := if arrived then set_ph 1 f else f in
    let in_channel := if arrived then 2 * n else in_channel in
    '(out_port, part, g) ← dor_next_torus (r_id r) (if f_ph f =? 0 then f_intm f else f_dest f) in_channel true false g;
    let ring_part := default ring_part part in
    let f := set_ph (2 * phase + ring_part) f in
    '(vcBegin, vcEnd) ← (if r_id r =? f_dest f then Ok (vcBegin, vcEnd) else ring_phase_vcs ring_part phase vcBegin vcEnd);
    Ok (only outputs out_port vcBegin vcEnd, f, g).

(** The loop that adds the port of the shorter direction in every dimension. *)
Definition add_shorter (vc cur dest : Z) (outputs : OutputSet) : res (OutputSet * Z * Z) :=
  zfor 0 n (λ d '(outputs, cur, dest),
    let outputs :=
      if cur `rem` k =? dest `rem` k then outputs
      else
        let dist2 := k - 2 * ((dest `rem` k - cur `rem` k + k) `rem` k) in
        if 0 <? dist2 then OutputSetOps.AddRange outputs (2 * d) vc vc 1
        else OutputSetOps.AddRange outputs (2 * d + 1) vc vc 1 in
    Ok (outputs, cur `quot` k, dest `quot` k)) (outputs, cur, dest).

(** There is no [return] after the ejection port is added. *)
Definition min_adapt_torus (r : Router) (f : Flit) (in_channel : Z) (outputs : OutputSet) (inject : bool) (g : Rng)
    : res (OutputSet * Flit * Rng) :=
  '(vcBegin, vcEnd) ← class_vcs G f inject;
  let outputs := OutputSetOps.Clear outputs in
  if inject then Ok (OutputSetOps.AddRange outputs (-1) vcBegin vcEnd 0, f, g)
  else
    let outputs := if r_id r =? f_dest f then OutputSetOps.AddRange outputs (2 * n) vcBegin vcEnd 0 else outputs in
    let in_vc := if in_channel =? 2 * n then vcEnd else f_vc f in
    '(outputs, out_port, f, g) ←
      (if vcBegin + 1 <? in_vc then
         '(outputs, _, _) ← add_shorter (vcBegin + 3) (r_id r) (f_dest f) outputs;
         '(out_port, f, g) ← dor_next_torus_ph (r_id r) f (2 * n) false g;
         Ok (outputs, out_port, f, g)
       else
         '(out_port, f, g) ← dor_next_torus_ph (r_id r) f in_channel false g;
         Ok (outputs, out_port, f, g));
    let vc := if f_ph f =? 0 then vcBegin else vcBegin + 1 in
    Ok (OutputSetOps.AddRange outputs out_port vc vc 0, f, g).

Definition chaos_torus (r : Router) (f : Flit) (in_channel : Z) (outputs : OutputSet) (inject : bool) (g : Rng)
    : res (OutputSet * Flit * Rng) :=
  let outputs := OutputSetOps.Clear outputs in
  if inject then Ok (OutputSetOps.AddRange outputs (-1) 0 0 0, f, g)
  else if r_id r =? f_dest f then Ok (OutputSetOps.AddRange outputs (2 * n) 0 0 0, f, g)
  else
    '(outputs, _, _) ← zfor 0 n (λ d '(outputs, cur, dest),
        let outputs :=
          if cur `rem` k =? dest `rem` k then outputs
          else
            let dist2 := k - 2 * ((dest `rem` k - cur `rem` k + k) `rem` k) in
            let outputs := if 0 <=? dist2 then OutputSetOps.AddRange outputs (2 * d) 0 0 0 else outputs in
            if dist2 <=? 0 then OutputSetOps.AddRange outputs (2 * d + 1) 0 0 0 else outputs in
        Ok (outputs, cur `quot` k, dest `quot` k)) (outputs, r_id r, f_dest f);
    Ok (outputs, f, g).

End route.
End TorusOps.
