(* ===== verification/Torus.v ===== *)
(** * Rings and dimension-order routing in a torus

    Distances and positions in a ring, what [dor_next_torus] computes, and why
    the two partitions of the VCs order the buffers of a ring.  From these, the
    delivery and deadlock freedom of dimension-order routing in a torus. *)

From S2P Require Import Prelude OutputSet Flit Rng KNCube Route Mesh MeshRouting TorusRoute.
Import TorusOps.

(** ** Rings *)

Section ring.
Context (k : Z) (Hk : 0 < k).

Lemma small_mod a : -k ≤ a < 2 * k → a mod k = if a <? 0 then a + k else if a <? k then a else a - k.
Proof.
  intros Ha. destruct (Z.ltb_spec a 0); [rewrite <- (Z.mod_add a 1 k) by lia; rewrite Z.mod_small; lia|].
  destruct (Z.ltb_spec a k); [apply Z.mod_small; lia|]. rewrite <- (Z.mod_add a (-1) k) by lia. rewrite Z.mod_small; lia.
Qed.

(** The hops from [c] to [t] in a direction, and one of them. *)
Definition ahead (rt : bool) (c t : Z) : Z := if rt then (t - c) mod k else (c - t) mod k.
Definition ring_step (rt : bool) (c : Z) : Z := if rt then (c + 1) mod k else (c - 1) mod k.
Definition ring_dist (c t : Z) : Z := Z.min (ahead true c t) (ahead false c t).

(** Positions in the order of travel: from 0, or, for packets that wrap around,
    from the middle of the ring. *)
Definition mirror (rt : bool) (c : Z) : Z := if rt then c else k - 1 - c.
Definition middle_of (rt : bool) : Z := if rt then (k - 1) / 2 + 1 else k - 1 - (k - 1) / 2.
Definition ring_pos (rt wraps : bool) (c : Z) : Z :=
  if wraps then (mirror rt c - middle_of rt) mod k else mirror rt c.

Lemma middle_range rt : 0 ≤ middle_of rt ≤ k ∧ k - 1 ≤ 2 * middle_of rt ≤ k + 1.
Proof.
  unfold middle_of. pose proof (Z.div_mod (k - 1) 2 ltac:(lia)). pose proof (Z.mod_pos_bound (k - 1) 2 ltac:(lia)).
  destruct rt; lia.
Qed.

(** Evaluates the [mod]s of a ring innermost first and splits their cases. *)
Ltac ring_mod :=
  match goal with |- context [?a mod k] =>
    lazymatch a with context [_ mod k] => fail | _ => idtac end;
    rewrite (small_mod a) by lia; destruct (Z.ltb_spec a 0); [|destruct (Z.ltb_spec a k)] end.
Ltac ring_lia := unfold ring_dist, ahead, ring_step, ring_pos, mirror in *; repeat ring_mod; lia.

Lemma ring_step_range rt c : 0 ≤ ring_step rt c < k.
Proof. destruct rt; by apply Z.mod_pos_bound. Qed.

Lemma ahead_nonneg rt c t : 0 ≤ ahead rt c t < k.
Proof. destruct rt; by apply Z.mod_pos_bound. Qed.

Lemma ahead_0 rt c t : 0 ≤ c < k → 0 ≤ t < k → ahead rt c t = 0 ↔ c = t.
Proof. intros Hc Ht. destruct rt; ring_lia. Qed.

Lemma ahead_step rt c t : 0 ≤ c < k → 0 ≤ t < k → c ≠ t → ahead rt (ring_step rt c) t = ahead rt c t - 1.
Proof. intros Hc Ht Hne. destruct rt; ring_lia. Qed.

Lemma ahead_dist rt c t : 0 ≤ c < k → 0 ≤ t < k → 2 * ahead rt c t ≤ k → ring_dist c t = ahead rt c t.
Proof. intros Hc Ht. destruct rt; ring_lia. Qed.

(** A packet that does not wrap, one that does, and one that stays on its side of
    the middle: its position grows by one with every hop. *)
Definition ring_course (rt wraps : bool) (c t : Z) : Prop := ring_pos rt wraps t - ring_pos rt wraps c = ahead rt c t.

Lemma ring_course_step rt wraps c t : 0 ≤ c < k → 0 ≤ t < k → c ≠ t → ring_course rt wraps c t →
  ring_course rt wraps (ring_step rt c) t ∧ ring_pos rt wraps (ring_step rt c) = ring_pos rt wraps c + 1.
Proof.
  intros Hc Ht Hne Hr. assert (ring_course rt wraps (ring_step rt c) t) as H.
  { revert Hr. unfold ring_course. pose proof (middle_range rt). destruct rt, wraps; ring_lia. }
  split; [done|]. unfold ring_course in *. rewrite ahead_step in H by done. lia.
Qed.

(** The course a packet starts on, after its first hop: not wrapping; wrapping;
    and with the positions of wrapping packets, on one side of the middle. *)
Lemma ring_start_straight rt c t : 0 ≤ c < k → 0 ≤ t < k → mirror rt c < mirror rt t → ring_course rt false (ring_step rt c) t.
Proof. intros Hc Ht Hlt. unfold ring_course. destruct rt; ring_lia. Qed.

Lemma ring_start_side rt c t : 0 ≤ c < k → 0 ≤ t < k → mirror rt c < mirror rt t →
  mirror rt t < middle_of rt ∨ middle_of rt ≤ mirror rt c → ring_course rt true (ring_step rt c) t.
Proof. intros Hc Ht Hlt Hm. pose proof (middle_range rt). unfold ring_course. destruct rt; ring_lia. Qed.

Lemma ring_start_wrap rt c t : 0 ≤ c < k → 0 ≤ t < k → mirror rt t < mirror rt c → 2 * ahead rt c t ≤ k →
  ring_course rt true (ring_step rt c) t.
Proof. intros Hc Ht Hlt. pose proof (middle_range rt). unfold ring_course. destruct rt; ring_lia. Qed.
End ring.

(** ** One step of [dor_next_torus] *)

(** Whether a packet of a partition wraps around: the deterministic dateline
    gives partition 1 to the packets that wrap when they travel right, and to
    those that do not when they travel left. *)
Definition wraps_of (balance rt : bool) (ph : Z) : bool := if rt || balance then ph =? 1 else ph =? 0.

Section torus.
Context (G : Globals) (HG : mesh_ok G).
Local Abbreviation k := (gK G).
Local Abbreviation n := (gN G).
Local Abbreviation dig := (digit (gK G)).

Lemma ring_direction_ok c t g : 0 ≤ c < k → 0 ≤ t < k → c ≠ t → RngInv.rng_ok g →
  returns (ring_direction G c t g) (λ '(rt, g'), RngInv.rng_ok g' ∧ 2 * ahead k rt c t ≤ k).
Proof.
  intros Hc Ht Hne Hg. pose proof (gk_pos G HG) as Hk. unfold ring_direction. rewrite rem_mod by lia.
  assert ((t - c + k) mod k = ahead k true c t) as ->
    by (unfold ahead; rewrite <- (Z.mod_add (t - c) 1 k) by lia; by rewrite Z.mul_1_l).
  assert (ahead k false c t = k - ahead k true c t) as E.
  { unfold ahead. rewrite !small_mod by lia. destruct (Z.ltb_spec (c - t) 0), (Z.ltb_spec (t - c) 0); [lia| | |lia].
    - destruct (Z.ltb_spec (t - c) k); lia.
    - destruct (Z.ltb_spec (c - t) k); lia. }
  destruct (Z.ltb_spec 0 (k - 2 * ahead k true c t)); [apply returns_ok; split; [done|lia]|].
  destruct (Z.eqb_spec (k - 2 * ahead k true c t) 0).
  - eapply returns_bind; [by apply (RngInv.RandomInt_ok g 1); [|lia]|]. intros [v g'] [_ Hg']. apply returns_ok.
    split; [done|]. destruct (negb (v =? 0)); lia.
  - apply returns_ok. split; [done|lia].
Qed.

Lemma ring_partition_ok balance rt c t g : 0 ≤ c < k → 0 ≤ t < k → c ≠ t → 2 * ahead k rt c t ≤ k → RngInv.rng_ok g →
  returns (ring_partition G balance rt c t g) (λ '(q, g'), RngInv.rng_ok g' ∧ (q = 0 ∨ q = 1) ∧
    ring_course k rt (wraps_of balance rt q) (ring_step k rt c) t).
Proof.
  intros Hc Ht Hne Ha Hg. pose proof (gk_pos G HG) as Hk. unfold ring_partition. rewrite quot_div by lia.
  destruct (decide (mirror k rt t < mirror k rt c)) as [Hw|Hw].
  { pose proof (ring_start_wrap k Hk rt c t Hc Ht Hw Ha) as Hr. unfold mirror in Hw.
    destruct balance, rt; simpl; destruct (Z.ltb_spec t c), (Z.ltb_spec c t); try lia; apply returns_ok; auto. }
  assert (mirror k rt c < mirror k rt t) as Hs by (destruct rt; simpl in *; lia).
  pose proof (ring_start_straight k Hk rt c t Hc Ht Hs) as Hr. unfold wraps_of. destruct balance.
  - rewrite orb_true_r. assert ((rt && (t <? c)) || (negb rt && (c <? t)) = false) as ->.
    { destruct rt; simpl in *; [destruct (Z.ltb_spec t c)|destruct (Z.ltb_spec c t)]; done || lia. }
    destruct ((rt && _ && _) || _) eqn:E; [apply returns_ok; auto|].
    eapply returns_mono; [by apply (RngInv.RandomInt_ok g 1); [|lia]|]. intros [v g'] [Hv Hg']. simpl in Hv.
    assert (v = 0 ∨ v = 1) as [->| ->] by lia; split_and!; auto. simpl. apply ring_start_side; try done.
    unfold middle_of, mirror in *. destruct rt; simpl in E; rewrite ?orb_false_r in E; apply andb_false_iff in E; bool_to_prop;
      destruct E as [E|E]; bool_to_prop; lia.
  - rewrite orb_false_r. apply returns_ok. split; [done|]. destruct rt; simpl in *; destruct (Z.ltb_spec t c); try lia; auto.
Qed.

Lemma dims_loop_ok cur dest : node_ok G cur → node_ok G dest →
  returns (zforb 0 n (λ _ '(dim_left, cur, dest),
      if negb (cur `rem` k =? dest `rem` k) then Ok (Break (dim_left, cur, dest))
      else Ok (Next (dim_left + 1, cur `quot` k, dest `quot` k))) (0, cur, dest))
    (λ c, ∃ d, ctl_val c = (d, cur / k ^ d, dest / k ^ d) ∧
      if decide (cur = dest) then d = n else first_left G false cur dest d).
Proof.
  unfold node_ok. intros Hc Hd. pose proof HG as (Hk & Hn & En). rewrite En in *.
  eapply returns_mono; [apply (returns_forb (λ j s, s = (j, cur / k ^ j, dest / k ^ j) ∧ ∀ l, 0 ≤ l < j → dig l cur = dig l dest)
    (λ s, ∃ d, s = (d, cur / k ^ d, dest / k ^ d) ∧ first_left G false cur dest d))|].
  - done.
  - rewrite Z.pow_0_r, !Z.div_1_r. split; [done|lia].
  - intros j s Hj [-> Heq]. rewrite !rem_digit by (done || lia).
    destruct (Z.eqb_spec (dig j cur) (dig j dest)) as [E|E]; apply returns_ok.
    + rewrite !quot_shift by (done || lia). split; [done|]. intros l Hl. destruct (decide (l = j)) as [->|]; [done|apply Heq; lia].
    + exists j. split; [done|]. split_and!; [lia|lia|done|]. intros l Hl Hlt. apply Heq. lia.
  - intros [s|s] Hs.
    + destruct Hs as [-> Heq]. exists n. split; [done|]. rewrite decide_True; [done|]. by apply (digits_eq k Hk n Hn).
    + destruct Hs as (d & -> & Hfl). exists d. split; [done|]. rewrite decide_False; [done|].
      intros ->. by destruct Hfl as (_ & ? & _).
Qed.

(** The ports of a direction in a dimension. *)
Definition out_of (d : Z) (rt : bool) : Z := if rt then 2 * d else 2 * d + 1.
Definition in_of (d : Z) (rt : bool) : Z := if rt then 2 * d + 1 else 2 * d.

Lemma entry_out d rt : entry_port (out_of d rt) = in_of d rt.
Proof. unfold entry_port. destruct rt; [apply lxor_even|apply lxor_odd]. Qed.
Lemma entry_in d rt : Z.lxor (in_of d rt) 1 = out_of d rt.
Proof. destruct rt; [apply lxor_odd|apply lxor_even]. Qed.
Lemma in_of_quot d rt : 0 ≤ d → in_of d rt `quot` 2 = d.
Proof. intros. destruct rt; [by apply quot_odd|by apply quot_even]. Qed.

(** A packet for [dest] at input [port] of [x]: it has come the shorter way
    around in the dimension of the port, and earlier dimensions are done. *)
Definition torus_dir (dest x port : Z) : Prop :=
  port = 2 * n ∨ ∃ d rt, 0 ≤ d < n ∧ port = in_of d rt ∧ (∀ j, 0 ≤ j < d → dig j x = dig j dest) ∧
    2 * ahead k rt (dig d x) (dig d dest) ≤ k.

(** A step in dimension [d]: straight on, or a turn into it, which chooses a
    partition. *)
Definition torus_move (balance : bool) (dest x port d : Z) (rt : bool) (part : option Z) : Prop :=
  first_left G false x dest d ∧ 2 * ahead k rt (dig d x) (dig d dest) ≤ k ∧
  ((port = in_of d rt ∧ part = None) ∨
   (port `quot` 2 ≠ d ∧ ∃ q, part = Some q ∧ (q = 0 ∨ q = 1) ∧
      ring_course k rt (wraps_of balance rt q) (ring_step k rt (dig d x)) (dig d dest))).

Lemma dor_next_torus_ok cur dest port balance g :
  node_ok G cur → node_ok G dest → torus_dir dest cur port → RngInv.rng_ok g →
  returns (dor_next_torus G cur dest port true balance g) (λ '(out, part, g'), RngInv.rng_ok g' ∧
    if decide (cur = dest) then out = 2 * n ∧ part = None
    else ∃ d rt, torus_move balance dest cur port d rt part ∧ out = out_of d rt).
Proof.
  intros Hc Hd Hdir Hg. pose proof (gk_pos G HG) as Hk. unfold dor_next_torus.
  destruct (dims_loop_ok cur dest Hc Hd) as (c & -> & d & E & Hspec). cbn [mbind res_bind]. rewrite E.
  destruct (decide (cur = dest)) as [Heq|Hne].
  { subst d. rewrite Z.ltb_irrefl. by apply returns_ok. }
  pose proof Hspec as (Hdn & Hdd & Hlow). destruct (Z.ltb_spec d n); [|lia]. unfold node_ok in Hc, Hd.
  rewrite !rem_digit by (done || lia). pose proof (digit_range k Hk d cur). pose proof (digit_range k Hk d dest).
  destruct (Z.eqb_spec (port `quot` 2) d) as [Ep|Ep]; cbn [negb].
  - apply returns_ok. split; [done|]. destruct Hdir as [->|(d0 & rt & Hd0 & -> & Hlow0 & Ha)].
    { rewrite quot_even in Ep by lia. lia. }
    rewrite in_of_quot in Ep by lia. subst d0. exists d, rt. rewrite entry_in. split; [|done]. split_and!; auto.
  - eapply returns_bind; [by apply ring_direction_ok|]. intros [rt g'] [Hg' Ha].
    eapply returns_bind; [by apply ring_partition_ok|]. intros [q g2] (Hg2 & Hq & Hcr). apply returns_ok.
    split; [done|]. exists d, rt. split; [|done]. split_and!; try done. right. split; [done|]. by exists q.
Qed.
End torus.

Import RouteOps TorusOps.
(** ** Delivery and deadlock freedom *)

Section torus.
Context (G : Globals) (HG : mesh_ok G).
Local Abbreviation k := (gK G).
Local Abbreviation n := (gN G).
Local Abbreviation dig := (digit (gK G)).
Local Abbreviation first_vc := (first_vc G).
Local Abbreviation last_vc := (last_vc G).

(** ** Distance *)

Definition tdist (x y : Z) : Z := zsumf (λ d, ring_dist k (dig d x) (dig d y)) n.

Lemma ring_dist_0 x y d : ring_dist k (dig d x) (dig d y) = 0 ↔ dig d x = dig d y.
Proof.
  pose proof (gk_pos G HG) as Hk. pose proof (digit_range k Hk d x). pose proof (digit_range k Hk d y).
  pose proof (ahead_0 k Hk true (dig d x) (dig d y)). pose proof (ahead_0 k Hk false (dig d x) (dig d y)).
  pose proof (ahead_nonneg k Hk true (dig d x) (dig d y)). pose proof (ahead_nonneg k Hk false (dig d x) (dig d y)).
  unfold ring_dist. lia.
Qed.
Lemma ring_dist_nonneg c t : 0 ≤ ring_dist k c t.
Proof.
  pose proof (ahead_nonneg k (gk_pos G HG) true c t). pose proof (ahead_nonneg k (gk_pos G HG) false c t). unfold ring_dist. lia.
Qed.

Lemma tdist_nonneg x y : 0 ≤ tdist x y.
Proof. destruct HG as (_ & Hn & _). apply zsumf_nonneg; [done|]. intros. apply ring_dist_nonneg. Qed.

Lemma tdist_0 x y : node_ok G x → node_ok G y → tdist x y = 0 ↔ x = y.
Proof.
  unfold node_ok. pose proof HG as (Hk & Hn & ->). intros Hx Hy. split.
  - intros E. apply (digits_eq k Hk n Hn); try done. intros d Hd. apply ring_dist_0.
    pose proof (zsumf_ge (λ d, ring_dist k (dig d x) (dig d y)) n d Hd ltac:(intros; apply ring_dist_nonneg)) as H1.
    pose proof (ring_dist_nonneg (dig d x) (dig d y)). unfold tdist in E. simpl in H1. lia.
  - intros ->. unfold tdist. rewrite <- (zsumf_const_0 n). apply zsumf_ext. intros d Hd. by apply ring_dist_0.
Qed.

(** ** A hop *)

Lemma neighbour_out x d rt : 0 ≤ x → 0 ≤ d → neighbour G x (out_of d rt) = Ok (set_digit k d (ring_step k rt (dig d x)) x).
Proof. intros Hx Hd. destruct rt; [by apply neighbour_right|by apply neighbour_left]. Qed.

Lemma hop_digits x d rt y : 0 ≤ d < n → y = set_digit k d (ring_step k rt (dig d x)) x →
  dig d y = ring_step k rt (dig d x) ∧ ∀ j, 0 ≤ j → j ≠ d → dig j y = dig j x.
Proof.
  intros Hd ->. pose proof (gk_pos G HG) as Hk. pose proof (ring_step_range k Hk rt (dig d x)).
  split; [apply digit_set_eq; lia|]. intros j Hj Hne. apply digit_set_ne; lia.
Qed.

Lemma hop_node_ok x d rt : 0 ≤ d < n → node_ok G x → node_ok G (set_digit k d (ring_step k rt (dig d x)) x).
Proof.
  unfold node_ok. pose proof HG as (Hk & _ & ->). intros Hd Hx. apply set_digit_range; try done. by apply ring_step_range.
Qed.

Lemma tdist_hop x dest d rt y : 0 ≤ d < n → dig d x ≠ dig d dest → 2 * ahead k rt (dig d x) (dig d dest) ≤ k →
  y = set_digit k d (ring_step k rt (dig d x)) x → tdist y dest = tdist x dest - 1.
Proof.
  intros Hd Hne Ha Hy. destruct (hop_digits x d rt y Hd Hy) as [Ed Eo]. pose proof (gk_pos G HG) as Hk.
  pose proof (digit_range k Hk d x). pose proof (digit_range k Hk d dest). unfold tdist.
  rewrite (zsumf_change (λ j, ring_dist k (dig j x) (dig j dest)) (λ j, ring_dist k (dig j y) (dig j dest)) n d); [|done|].
  - cbv beta. rewrite Ed. pose proof (ahead_step k Hk rt (dig d x) (dig d dest) ltac:(done) ltac:(done) Hne) as Hs.
    rewrite (ahead_dist k Hk rt (dig d x) (dig d dest)) by done.
    rewrite (ahead_dist k Hk rt (ring_step k rt (dig d x)) (dig d dest)); [lia|by apply ring_step_range|done|lia].
  - intros j Hj Hj'. by rewrite Eo by lia.
Qed.

(** ** The invariant *)

Context (balance : bool).

(** The partition a packet travels in and the half of the VCs it is in. *)
Definition ring_state (p : place) (d : Z) (rt : bool) : Prop :=
  0 ≤ d < n ∧ p_in p = in_of d rt ∧ (∀ j, 0 ≤ j < d → dig j (p_node p) = dig j (f_dest (p_flit p))) ∧
  2 * ahead k rt (dig d (p_node p)) (dig d (f_dest (p_flit p))) ≤ k ∧
  (f_ph (p_flit p) = 0 ∨ f_ph (p_flit p) = 1) ∧
  ring_course k rt (wraps_of balance rt (f_ph (p_flit p))) (dig d (p_node p)) (dig d (f_dest (p_flit p))) ∧
  upper G p = negb (f_ph (p_flit p) =? 0).
Definition torus_inv (p : place) : Prop := legal G p ∧ (p_in p = 2 * n ∨ ∃ d rt, ring_state p d rt).
Definition torus_to_go (p : place) : Z := tdist (p_node p) (f_dest (p_flit p)).

Lemma torus_inv_dir p : torus_inv p → torus_dir G (f_dest (p_flit p)) (p_node p) (p_in p).
Proof. intros [_ [->|(d & rt & Hd & -> & Hlow & Ha & _)]]; [by left|right]. by exists d, rt. Qed.

Lemma torus_to_go_0 p : legal G p → 0 ≤ torus_to_go p ∧ (torus_to_go p = 0 ↔ p_node p = f_dest (p_flit p)).
Proof. intros (Hx & Hd & _). split; [apply tdist_nonneg|by apply tdist_0]. Qed.

(** The rank of a buffer: the dimension, then the position in the ring. *)
Definition torus_rank (p : place) : Z :=
  if p_in p =? 2 * n then -1
  else let d := p_in p `quot` 2 in let rt := Z.odd (p_in p) in
       d * k + ring_pos k rt (wraps_of balance rt (if upper G p then 1 else 0)) (dig d (p_node p)).

Lemma ring_pos_range rt w c : 0 ≤ c < k → 0 ≤ ring_pos k rt w c < k.
Proof. intros Hc. unfold ring_pos, mirror. destruct w; [apply Z.mod_pos_bound, gk_pos, HG|]. destruct rt; lia. Qed.

Lemma torus_rank_state p d rt : ring_state p d rt →
  torus_rank p = d * k + ring_pos k rt (wraps_of balance rt (f_ph (p_flit p))) (dig d (p_node p)).
Proof.
  intros (Hd & Hin & _ & _ & Hph & _ & Hup). unfold torus_rank. rewrite Hin, in_of_quot by lia.
  assert (Z.odd (in_of d rt) = rt) as -> by (destruct rt; unfold in_of; [by rewrite Z.odd_add, Z.odd_mul|by rewrite Z.odd_mul]).
  destruct (Z.eqb_spec (in_of d rt) (2 * n)); [destruct rt; simpl in *; lia|]. simpl.
  rewrite Hup. by destruct Hph as [->| ->].
Qed.

(** A move keeps the invariant and raises the rank. *)
Lemma torus_move_ok p f d rt part v y :
  torus_inv p → torus_move G balance (f_dest (p_flit p)) (p_node p) (p_in p) d rt part →
  f = FlitOps.set_ph (default (f_ph (p_flit p)) part) (p_flit p) →
  first_vc (f_cl f) ≤ v ≤ last_vc (f_cl f) → (middle G (f_cl f) <=? v) = negb (f_ph f =? 0) →
  y = set_digit k d (ring_step k rt (dig d (p_node p))) (p_node p) →
  let p' := mkPlace y (in_of d rt) (FlitOps.set_vc v f) in
  torus_inv p' ∧ torus_to_go p' = torus_to_go p - 1 ∧ torus_rank p < torus_rank p' ∧ (f_ph f = 0 ∨ f_ph f = 1).
Proof.
  intros [(Hx & Hd & Hc & Hv) Hst] (Hfl & Ha & Hpart) -> Hv' Hup Hy p'. pose proof Hfl as (Hdn & Hdd & Hlow).
  pose proof (gk_pos G HG) as Hk. pose proof (digit_range k Hk d (p_node p)) as Hr. pose proof (digit_range k Hk d (f_dest (p_flit p))) as Hr'.
  destruct (hop_digits _ d rt y Hdn Hy) as [Ed Eo].
  assert (ring_state p' d rt ∧ torus_rank p < d * k + ring_pos k rt (wraps_of balance rt (f_ph (p_flit p'))) (ring_step k rt (dig d (p_node p))))
    as [Hst' Hrank].
  { pose proof (ahead_step k Hk rt (dig d (p_node p)) _ Hr Hr' Hdd) as Has. destruct Hpart as [[Hport ->]|(Hport & q & -> & Hq & Hcr)].
    - destruct Hst as [Hin|(d0 & rt0 & Hst)]; [rewrite Hin in Hport; destruct rt; simpl in Hport; lia|].
      pose proof Hst as (Hd0 & Hin & _ & _ & Hph & Hcr & _). rewrite Hin in Hport.
      assert (d0 = d ∧ rt0 = rt) as [-> ->] by (destruct rt, rt0; simpl in Hport; split; done || lia).
      destruct (ring_course_step k Hk rt _ _ _ Hr Hr' Hdd Hcr) as [Hcr' Hpos]. split.
      + unfold ring_state. simpl. rewrite Ed. split_and!; try done; try lia. intros j Hj. rewrite Eo by lia. apply Hlow; lia.
      + rewrite (torus_rank_state p d rt Hst). simpl. rewrite Hpos. lia.
    - pose proof (ring_pos_range rt (wraps_of balance rt q) (ring_step k rt (dig d (p_node p))) ltac:(by apply ring_step_range)).
      split; [unfold ring_state; simpl; rewrite Ed; split_and!; try done; try lia; intros j Hj; rewrite Eo by lia; apply Hlow; lia|].
      simpl. destruct Hst as [Hin|(d0 & rt0 & Hst)].
      + unfold torus_rank. rewrite Hin, Z.eqb_refl. nia.
      + rewrite (torus_rank_state p d0 rt0 Hst). destruct Hst as (Hd0 & Hin & Hlow0 & _).
        pose proof (ring_pos_range rt0 (wraps_of balance rt0 (f_ph (p_flit p))) _ (digit_range k Hk d0 (p_node p))).
        rewrite Hin, in_of_quot in Hport by lia. assert (d0 < d); [|nia].
        destruct (decide (d < d0)); [|lia]. destruct Hdd. apply Hlow0. lia. }
  split_and!.
  - split; [|right; by exists d, rt]. simpl in Hv'. split_and!; simpl; try done; try lia. rewrite Hy. by apply hop_node_ok.
  - unfold torus_to_go. simpl. by apply (tdist_hop _ _ d rt).
  - rewrite (torus_rank_state p' d rt Hst'). simpl. rewrite Ed. done.
  - apply Hst'.
Qed.

(** ** The routing functions *)

Context (Heven : even_classes G).

(** The function offers the port of [dor_next_torus], with the half of the VCs
    that the partition selects. *)
Record ring_like (rf : tRoutingFunction) : Prop := {
  rl_link r f in_channel outs g out part g' :
    class_ok G (f_cl f) → first_vc (f_cl f) ≤ f_vc f ≤ last_vc (f_cl f) →
    dor_next_torus G (r_id r) (f_dest f) in_channel true balance g = Ok (out, part, g') →
    let f' := FlitOps.set_ph (default (f_ph f) part) f in
    (r_id r ≠ f_dest f → f_ph f' = 0 ∨ f_ph f' = 1) →
    ∃ b e, rf G r f in_channel outs false g = Ok (only outs out b e, f', g') ∧
      if decide (r_id r = f_dest f) then b = first_vc (f_cl f) ∧ e = last_vc (f_cl f)
      else if f_ph f' =? 0 then b = first_vc (f_cl f) ∧ e = middle G (f_cl f) - 1
      else b = middle G (f_cl f) ∧ e = last_vc (f_cl f);
  rl_inject r f outs g :
    class_ok G (f_cl f) → f_vc f < 0 →
    rf G r f (-1) outs true g = Ok (only outs (-1) (first_vc (f_cl f)) (last_vc (f_cl f)), f, g)
}.

Context (rf : tRoutingFunction) (Hrf : ring_like rf).

Lemma ring_admits : admits G rf torus_inv.
Proof.
  intros cl src dest p Hcl Hs Hd [r g outs0 outs f0 f g' e v Hg Ecl Es Ed Hv E He Hve ->].
  rewrite (rl_inject _ Hrf r f0 outs0 g) in E by congruence. injection E as <- <- <-.
  apply elem_of_only in He as ->. simpl in *. split_and!; try done. split; [|by left].
  split_and!; simpl; try congruence; lia.
Qed.

(** Whatever comes of [dor_next_torus], a packet that is not at its destination
    has a partition. *)
Lemma torus_move_ph p d rt part : torus_inv p → torus_move G balance (f_dest (p_flit p)) (p_node p) (p_in p) d rt part →
  default (f_ph (p_flit p)) part = 0 ∨ default (f_ph (p_flit p)) part = 1.
Proof.
  intros [_ Hst] ((Hdn & _) & _ & Hpart). destruct Hpart as [[Hport ->]|(_ & q & -> & Hq & _)]; [|done].
  destruct Hst as [Hin|(d0 & rt0 & _ & _ & _ & _ & Hph & _)]; [|done]. rewrite Hin in Hport. destruct rt; simpl in Hport; lia.
Qed.

Lemma ring_step_ok p r outs g : torus_inv p → r_id r = p_node p → RngInv.rng_ok g →
  ∃ out b e f g', rf G r (p_flit p) (p_in p) outs false g = Ok (only outs out b e, f, g') ∧
    f_dest f = f_dest (p_flit p) ∧ f_cl f = f_cl (p_flit p) ∧ in_class G (f_cl (p_flit p)) (SetElement b e 0 out) ∧
    (if decide (torus_to_go p = 0) then out = 2 * n
     else 0 ≤ out < 2 * n ∧ ∀ v y, b ≤ v ≤ e → neighbour G (p_node p) out = Ok y →
       let p' := mkPlace y (entry_port out) (FlitOps.set_vc v f) in
       torus_inv p' ∧ torus_to_go p' = torus_to_go p - 1 ∧ torus_rank p < torus_rank p').
Proof.
  intros HI Hid Hg. pose proof HI as [Hl _]. pose proof Hl as (Hx & Hd & Hc & Hv).
  pose proof (torus_to_go_0 p Hl) as [_ Hz]. destruct (middle_ok G _ Heven Hc) as (Hh & Em & El & Hml).
  destruct (dor_next_torus_ok G HG _ _ _ balance g Hx Hd (torus_inv_dir p HI) Hg) as ([[out part] g'] & E & _ & Hspec).
  rewrite <- Hid in E. destruct (rl_link _ Hrf r (p_flit p) (p_in p) outs g out part g' Hc Hv E) as (b & e & E' & Hbe).
  { intros Hne. rewrite Hid in Hne. rewrite decide_False in Hspec by done. destruct Hspec as (d & rt & Hm & _).
    by apply (torus_move_ph p d rt). }
  rewrite Hid in Hbe. exists out, b, e, (FlitOps.set_ph (default (f_ph (p_flit p)) part) (p_flit p)), g'.
  split_and!; try done.
  { unfold in_class. simpl. destruct (decide _); [lia|destruct (_ =? 0); lia]. }
  destruct (decide (p_node p = f_dest (p_flit p))) as [Hpd|Hpd].
  { rewrite decide_True by (by apply Hz). by destruct Hspec. }
  rewrite decide_False by (by rewrite Hz). destruct Hspec as (d & rt & Hm & ->). pose proof Hm as ((Hdn & _) & _).
  split; [destruct rt; simpl; lia|]. intros v y Hve Hy. unfold node_ok in Hx. rewrite neighbour_out in Hy by lia.
  injection Hy as Hy. rewrite entry_out.
  destruct (torus_move_ok p _ d rt part v y HI Hm eq_refl) as (HI' & Hgo & Hrank & _); try done; simpl.
  - destruct (_ =? 0); lia.
  - destruct (torus_move_ph p d rt part HI Hm) as [Ep|Ep]; simpl in Hbe; rewrite Ep in *; simpl in *; [apply Z.leb_gt|apply Z.leb_le]; lia.
Qed.

Definition ring_laws : RoutingLaws G rf any_router.
Proof.
  refine {| ru_inv := torus_inv; ru_measure := torus_to_go |}.
  - intros p [Hl _]. destruct (torus_to_go_0 p Hl) as [H0 Hz]. split; [done|apply Hz].
  - intros p HI r g outs0 Hr _ Hid Hg.
    destruct (ring_step_ok p r outs0 g HI Hid Hg) as (out & b & e & f & g' & -> & Ed & Ec & Hbe & Hport).
    apply returns_ok. split_and!; try done. intros x ->%elem_of_only. split; [done|].
    destruct (decide (torus_to_go p = 0)); [done|]. destruct Hport as [Hp Hy]. split; [done|].
    intros v y Hv Hny. by destruct (Hy v y Hv Hny) as (? & ? & _).
Defined.

Lemma ring_deadlock_free : separate_classes G → deadlock_free G rf any_router.
Proof.
  intros Hsep. apply (ranked_deadlock_free _ _ _ ring_laws torus_rank).
  - apply ring_admits.
  - intros p p' [(_ & _ & Hc & Hv) _] [(_ & _ & Hc' & Hv') _] [= E1 E2 E3].
    rewrite E3 in Hv. destruct (Hsep _ _ _ Hc Hc' Hv Hv') as [Ef El].
    unfold torus_rank, upper, middle. by rewrite E1, E2, E3, Ef, El.
  - intros p p' HI [r g outs0 outs f g' e v y Hr _ Hid Hg E He Hv Hp Hy ->].
    destruct (ring_step_ok p r outs0 g HI Hid Hg) as (out & b & e' & f' & g2 & E' & _ & _ & _ & Hport).
    rewrite E in E'. injection E' as -> -> ->. apply elem_of_only in He as ->. simpl in *.
    destruct (decide (torus_to_go p = 0)); [lia|]. destruct Hport as [_ Hnext].
    by destruct (Hnext v y Hv Hy) as (_ & _ & Hr').
Qed.
End torus.
