(* ===== verification/TorusTheorems.v ===== *)
(** * What the torus routing functions guarantee

    Dimension-order routing in a torus, with the deterministic and with the
    balanced dateline; and configurations in which the guarantees are lost. *)

From stdpp Require Import relations.
From S2P Require Import Prelude OutputSet Flit Rng KNCube Route TorusRoute Mesh MeshRouting Torus.
Import RouteOps TorusOps.

Section functions.
Context (G : Globals) (HG : mesh_ok G) (Heven : even_classes G).

Lemma dim_order_torus_ring : ring_like G false dim_order_torus.
Proof.
  split.
  - intros r f i outs g out part g' Hc Hv E f' Hph. unfold dim_order_torus. rewrite class_vcs_link by done.
    cbn [mbind res_bind]. unfold dor_next_torus_ph. rewrite E. cbn [mbind res_bind]. fold f'.
    change (f_dest f') with (f_dest f). destruct (middle_ok G _ Heven Hc) as (Hh & _).
    destruct (Z.eqb_spec (r_id r) (f_dest f)) as [Ed|Ed]; [eexists _, _; split; [done|]; by rewrite decide_True|].
    destruct (Z.ltb_spec 0 ((last_vc G (f_cl f) - first_vc G (f_cl f) + 1) `quot` 2)); [|lia].
    cbn [cassert mbind res_bind]. rewrite half_vcs_ok by done. destruct (f_ph f' =? 0); eexists _, _; (split; [done|]); by rewrite decide_False.
  - intros r f outs g Hc Hv. unfold dim_order_torus. by rewrite class_vcs_inject.
Qed.

Lemma dim_order_bal_torus_ring : ring_like G true dim_order_bal_torus.
Proof.
  split.
  - intros r f i outs g out part g' Hc Hv E f' Hph. unfold dim_order_bal_torus. rewrite class_vcs_link by done.
    cbn [mbind res_bind]. unfold dor_next_torus_ph. rewrite E. cbn [mbind res_bind]. fold f'.
    change (f_dest f') with (f_dest f). destruct (middle_ok G _ Heven Hc) as (Hh & _).
    destruct (Z.eqb_spec (r_id r) (f_dest f)) as [Ed|Ed]; [eexists _, _; split; [done|]; by rewrite decide_True|].
    destruct (Z.ltb_spec 0 ((last_vc G (f_cl f) - first_vc G (f_cl f) + 1) `quot` 2)); [|lia].
    cbn [cassert mbind res_bind]. rewrite half_vcs_ok by done.
    destruct (Hph Ed) as [->| ->]; cbn; eexists _, _; (split; [done|]); by rewrite decide_False.
  - intros r f outs g Hc Hv. unfold dim_order_bal_torus. by rewrite class_vcs_inject.
Qed.
End functions.

(** C9. Dimension-order routing in a torus, with the deterministic dateline
    ([dim_order_torus]) and the balanced one ([dim_order_bal_torus]), an even
    number of VCs per class: no assertion fails, every packet travels the shorter
    way around every ring, whatever the ties draw, and ejects at its destination;
    and the two partitions make the wrap-around links safe: the buffers cannot
    wait for each other in a cycle. *)
Theorem torus_delivers G rf cl src dest p :
  mesh_ok G → even_classes G → separate_classes G → rf = dim_order_torus ∨ rf = dim_order_bal_torus →
  class_ok G cl → node_ok G src → node_ok G dest → injected G rf cl src dest p →
  delivers G rf any_router (tdist G src dest) p ∧ deadlock_free G rf any_router.
Proof.
  intros HG Hev Hsep Hrf Hcl Hs Hd Hi. assert (∃ bal, ring_like G bal rf) as [bal H].
  { destruct Hrf as [->| ->]; [exists false; by apply dim_order_torus_ring|exists true; by apply dim_order_bal_torus_ring]. }
  split; [|by apply (ring_deadlock_free G HG bal)].
  destruct (ring_admits G bal rf H _ _ _ _ Hcl Hs Hd Hi) as (HI & _ & Ed & Es).
  pose proof (laws_deliver _ _ _ (ring_laws G HG bal Hev rf H) p HI) as Hdel. simpl in Hdel. unfold torus_to_go in Hdel.
  by rewrite Ed, Es in Hdel.
Qed.

(** A ring of five routers with VCs [0, last]. *)
Definition ring_5 (last : Z) : Globals := mkGlobals 5 1 5 [0] [last].
Definition ring_packet (src dest vc ph : Z) : Flit := {|
  f_type := ANY_TYPE; f_vc := vc; f_cl := 0; f_head := true; f_tail := true;
  f_ctime := 0; f_itime := 0; f_atime := 0; f_id := 0; f_pid := 0;
  f_hops := 0; f_watch := false; f_record := false; f_src := src; f_dest := dest;
  f_pri := 0; f_intm := -1; f_ph := ph; f_packet_size := 1;
  f_subnetwork := 0; f_la_route_set := [] |}.
Definition ring_router (x : Z) : Router := mkRouter x (replicate 3 0) (replicate 3 false).

Lemma ring_5_injected rf last src dest : 0 ≤ last →
  rf (ring_5 last) (ring_router src) (ring_packet src dest (-1) (-1)) (-1) [] true RngOps.initial =
    Ok ([SetElement 0 last 0 (-1)], ring_packet src dest (-1) (-1), RngOps.initial) →
  injected (ring_5 last) rf 0 src dest (mkPlace src 2 (ring_packet src dest 0 (-1))).
Proof.
  intros Hl E. eapply (injected_intro _ _ 0 src dest _ (ring_router src) RngOps.initial [] _ (ring_packet src dest (-1) (-1)) _ _
    (SetElement 0 last 0 (-1)) 0); try done.
  - apply RngInv.rng_ok_initial.
  - by left.
Qed.

Lemma torus_delivers_witness :
  delivers (ring_5 1) dim_order_torus any_router 2 (mkPlace 3 2 (ring_packet 3 0 0 (-1))) ∧
  deadlock_free (ring_5 1) dim_order_torus any_router.
Proof.
  apply (torus_delivers (ring_5 1) dim_order_torus 0 3 0); try done.
  - intros cl (H & _). assert (cl = 0) as -> by (unfold zlen in H; simpl in H; lia). by exists 1.
  - intros cl cl' v (H & _) (H' & _) _ _. unfold zlen in H, H'. simpl in H, H'.
    assert (cl = 0 ∧ cl' = 0) as [-> ->] by lia. done.
  - by left.
  - by apply (ring_5_injected dim_order_torus 1 3 0).
Defined.

(** ** Three VCs *)

(** The packet from [x - 1] to [x + 1] waits at [x] in VC 1 for VC 1 at [x + 1]:
    with three VCs, VC 1 belongs to both partitions. *)
Lemma ring_5_waits x : 0 ≤ x < 5 →
  waits_for (ring_5 2) dim_order_torus any_router (x, 1, 1) ((x + 1) mod 5, 1, 1).
Proof.
  intros Hx. set (s := (x + 4) mod 5). set (t := (x + 1) mod 5). set (q := if t <? s then 1 else 0).
  assert (class_ok (ring_5 2) 0 ∧ node_ok (ring_5 2) s ∧ node_ok (ring_5 2) t) as (Hc & Hs & Ht).
  { split; [done|]. unfold node_ok. simpl. unfold s, t. split; apply Z.mod_pos_bound; lia. }
  set (hop1 := mkPlace x 1 (ring_packet s t 1 q)). set (hop2 := mkPlace t 1 (ring_packet s t 1 q)).
  exists 0, s, t, (mkPlace s 2 (ring_packet s t 0 (-1))), hop1, hop2. split_and!; try done; [by apply ring_5_injected| |].
  all: assert (x = 0 ∨ x = 1 ∨ x = 2 ∨ x = 3 ∨ x = 4) as Hcases by lia.
  - apply rtc_once. apply (hop_intro _ _ _ _ _ (ring_router s) RngOps.initial [] [SetElement q (1 + q) 0 0] (ring_packet s t 0 q)
      RngOps.initial (SetElement q (1 + q) 0 0) 1 x);
      try done; try apply RngInv.rng_ok_initial.
    all: destruct Hcases as [->|[->|[->|[->| ->]]]]; try done; by left.
  - apply (hop_intro _ _ _ _ _ (ring_router x) RngOps.initial [] [SetElement q (1 + q) 0 0] (ring_packet s t 1 q)
      RngOps.initial (SetElement q (1 + q) 0 0) 1 t);
      try done; try apply RngInv.rng_ok_initial.
    all: destruct Hcases as [->|[->|[->|[->| ->]]]]; try done; by left.
Qed.

(** With three VCs [dim_order_torus] is not deadlock free: in a ring of five the
    packets that go two hops to the right can wait for each other in a circle. *)
Theorem odd_vcs_deadlock : ¬ deadlock_free (ring_5 2) dim_order_torus any_router.
Proof.
  intros Hfree. apply (Hfree (0, 1, 1)).
  do 4 (eapply tc_l; [by apply ring_5_waits|]; simpl). by apply tc_once, (ring_5_waits 4).
Qed.

(** ** Valiant routing in a torus *)

(** After its first hop in a ring, a packet's [ring_part] is not written: its VCs
    depend on what the local variable happens to hold, and for most values the
    assertion fails. *)
Example valiant_torus_ring_part :
  let f := FlitOps.set_intm 2 (ring_packet 0 4 0 0) in
  valiant_torus (ring_5 3) 0 (ring_router 1) f 1 [] false RngOps.initial =
    Ok ([SetElement 0 0 0 0], FlitOps.set_ph 0 f, RngOps.initial) ∧
  valiant_torus (ring_5 3) 1 (ring_router 1) f 1 [] false RngOps.initial =
    Ok ([SetElement 2 2 0 0], FlitOps.set_ph 1 f, RngOps.initial) ∧
  valiant_torus (ring_5 3) 7 (ring_router 1) f 1 [] false RngOps.initial = Fail AssertFailed.
Proof. by split_and!. Qed.

(** [valiant_ni_torus] tests [f->ph] where it means the phase: a packet in
    partition 1 of phase 0 is taken for one in phase 1.  At node 4 the packet from
    3 by way of 0 to 4 is ejected without visiting 0; [valiant_torus] sends it on. *)
Example valiant_ni_torus_phase :
  let f := FlitOps.set_intm 0 (ring_packet 3 4 0 1) in
  valiant_ni_torus (ring_5 19) 0 (ring_router 4) f 1 [] false RngOps.initial =
    Ok ([SetElement 0 19 0 2], FlitOps.set_ph 0 f, RngOps.initial) ∧
  valiant_torus (ring_5 19) 0 (ring_router 4) f 1 [] false RngOps.initial =
    Ok ([SetElement 0 19 0 0], FlitOps.set_ph 0 f, RngOps.initial).
Proof. by split. Qed.
