(* ===== verification/Dijkstra.v ===== *)
(** * Routing tables from shortest paths

    [AnyNet::route] (networks/anynet.cpp) and [NVIDIADGX1::hypermesh_min_route]
    (networks/nvidia_dgx_1.cpp) are the same program: Dijkstra's algorithm over
    a map of maps of links, followed by a pass that stores, for every node, the
    output port of the first link of the path that was found.  The program is
    modelled once, over the type of the latencies, and shown to compute shortest
    paths; from a router that does not reach all others it never ends.

    [m[k]] on a missing key of a [std::map] inserts an empty entry; the entries
    that the program inserts in this way are never visited again, so that [row]
    only reads.

    The distances are those of shortest paths and the routing table holds the first
    link of one ([route_shortest]); the search ends after as many steps as there are
    routers exactly when all are reachable ([dijkstra_search_ok],
    [search_diverges]). *)

From S2P Require Import Prelude StdMap.

Section route.
Context {L : Type} (latency : L → Z).

(** A link or an attached node: its output port and its latency. *)
Abbreviation port := (Z * L)%type.
Implicit Types (links nodes : imap (imap port)) (dist prev : list Z) (rlist : iset) (table : list (imap Z)).

Definition row {X} (m : imap (imap X)) (k : Z) : imap X := default [] (mfind k m).

Record Search : Set := mkSearch {
  s_dist : list Z;
  s_prev : list Z;
  s_rlist : iset
}.

Definition start (size r_start : Z) : res Search :=
  dist ← vset (replicate (Z.to_nat size) int_max) r_start 0;
  Ok (mkSearch dist (replicate (Z.to_nat size) (-1)) ((λ i, (i, tt)) <$> seqZ 0 size)).

(** The unvisited router with the least distance, [-1] if all are at [int_max]. *)
Definition nearer dist (min : Z * Z) (i : Z * unit) : res (Z * Z) :=
  d ← vget dist i.1;
  Ok (if d <? min.1 then (d, i.1) else min).

Definition find_min dist rlist : res (Z * Z) :=
  foldl (λ m i, min ← m; nearer dist min i) (Ok (int_max, -1)) rlist.

Definition relax (min_cand : Z) (s : list Z * list Z) (i : Z * port) : res (list Z * list Z) :=
  let '(dist, prev) := s in
  d ← vget dist min_cand;
  let new_dist := to_int (d + latency i.2.2) in
  d' ← vget dist i.1;
  if new_dist <? d' then
    dist ← vset dist i.1 new_dist;
    prev ← vset prev i.1 min_cand;
    Ok (dist, prev)
  else Ok (dist, prev).

Definition visit links (s : Search) : res Search :=
  '(_, min_cand) ← find_min (s_dist s) (s_rlist s);
  '(dist, prev) ← foldl (λ m i, s ← m; relax min_cand s i) (Ok (s_dist s, s_prev s)) (row links min_cand);
  Ok (mkSearch dist prev (merase min_cand (s_rlist s))).

Fixpoint search (fuel : nat) links (s : Search) : res Search :=
  match s_rlist s, fuel with
  | [], _ => Ok s
  | _, O => Fail OutOfFuel
  | _, S fuel => s ← visit links s; search fuel links s
  end.

(** [while(prev[neighbor] != r_start)]; the sum of the latencies on the way is
    not used. *)
Fixpoint first_hop (fuel : nat) links prev (r_start neighbor : Z) : res Z :=
  match fuel with
  | O => Fail OutOfFuel
  | S fuel =>
      p ← vget prev neighbor;
      if p =? r_start then Ok neighbor
      else
        assert! 0 <? mcount p (row links neighbor);
        first_hop fuel links prev r_start p
  end.

Definition set_port (r_start node p : Z) table : res (list (imap Z)) :=
  t ← vget table r_start; vset table r_start (mset node p t).

Definition post (fuel : nat) links nodes prev (r_start i : Z) table : res (list (imap Z)) :=
  p ← vget prev i;
  if p =? -1 then
    assert! i =? r_start;
    foldl (λ m x, t ← m; set_port r_start x.1 x.2.1 t) (Ok table) (row nodes i)
  else
    neighbor ← first_hop fuel links prev r_start i;
    match mfind neighbor (row links r_start) with
    | None => Fail AssertFailed
    | Some (p, _) => foldl (λ m x, t ← m; set_port r_start x.1 p t) (Ok table) (row nodes i)
    end.

Definition route (fuel : nat) links nodes (size r_start : Z) table : res (list (imap Z)) :=
  s ← start size r_start;
  s ← search fuel links s;
  zfor 0 size (post fuel links nodes (s_prev s) r_start) table.
End route.
Arguments mkSearch _ _ _ : clear implicits.

(** ** The search computes shortest paths *)

Section paths.
Context {L : Type} (latency : L → Z) (links : imap (imap (Z * L))) (n W : Z).

Definition edge (u v w : Z) : Prop := ∃ p l, mfind v (row links u) = Some (p, l) ∧ latency l = w.

(** [path u v d]: a path from [u] to [v] of total latency [d]. *)
Inductive path (u : Z) : Z → Z → Prop :=
  | path_nil : path u u 0
  | path_snoc v x d w : path u v d → edge v x w → path u x (d + w).

Definition shortest (u v d : Z) : Prop := path u v d ∧ ∀ d', path u v d' → d ≤ d'.

Lemma path_edge u v w : edge u v w → path u v w.
Proof. intros H. apply (path_snoc u u v 0 w); [constructor|done]. Qed.

Lemma path_trans u v x d e : path u v d → path v x e → path u x (d + e).
Proof.
  intros Hp. induction 1 as [|y z e w _ IH He]; [by rewrite Z.add_0_r|].
  rewrite Z.add_assoc. by apply path_snoc with y.
Qed.

(** Links are between routers, and no sum of latencies along a path that visits
    no router twice reaches [int_max]. *)
Record graph_ok : Prop := {
  g_sorted u : msorted (row links u);
  g_range u v w : edge u v w → 0 ≤ u < n ∧ 0 ≤ v < n;
  g_lat u v w : edge u v w → 0 < w ≤ W;
  g_fits : n * W < int_max;
  g_pos : 0 ≤ W
}.

(** ** Finding the closest router *)

Lemma find_min_ok dist rlist : (∀ x, x ∈ rlist → 0 ≤ x.1 < zlen dist) →
  returns (find_min dist rlist) (λ '(d, c),
    (∀ x, x ∈ rlist → d ≤ dist⟦x.1⟧) ∧
    ((d = int_max ∧ c = -1) ∨ (d < int_max ∧ (c, tt) ∈ rlist ∧ dist⟦c⟧ = d))).
Proof.
  intros Hr. eapply returns_mono; [apply (returns_foldl (λ l '(d, c),
    (∀ x, x ∈ rlist → x ∈ l ∨ d ≤ dist⟦x.1⟧) ∧ (∀ x, x ∈ l → x ∈ rlist) ∧
    ((d = int_max ∧ c = -1) ∨ (d < int_max ∧ (c, tt) ∈ rlist ∧ dist⟦c⟧ = d))) (nearer dist))|].
  - split_and!; auto.
  - intros [x []] l [d c] (Hall & Hsub & Hc). unfold nearer. simpl.
    assert ((x, tt) ∈ rlist) as Hx by (apply Hsub; by left). rewrite vget_ok by apply (Hr _ Hx). cbn [mbind res_bind].
    apply returns_ok. assert (∀ y, y ∈ l → y ∈ rlist) as Hsub' by (intros y Hy; apply Hsub; by right).
    destruct (Z.ltb_spec (dist⟦x⟧) d) as [Hlt|Hge].
    + split_and!; [|done|right; split_and!; [destruct Hc as [[-> _]|(? & _)]; lia|done..]].
      intros y [[->|?]%elem_of_cons| ?]%Hall; [right; simpl; lia|by left|right; lia].
    + split_and!; [|done|done]. intros y [[->|?]%elem_of_cons| ?]%Hall; [right; simpl; lia|by left|by right].
  - intros [d c] (Hall & _ & Hc). split; [|done]. intros x [?%elem_of_nil|?]%Hall; done.
Qed.

(** ** Relaxing the links of a router *)

(** [v] keeps its distance from [dist0] or has a shorter one over [u]. *)
Definition relaxed (u : Z) (dist0 prev0 dist prev : list Z) (v : Z) : Prop :=
  (dist⟦v⟧ = dist0⟦v⟧ ∧ prev⟦v⟧ = prev0⟦v⟧) ∨
  (∃ w, edge u v w ∧ prev⟦v⟧ = u ∧ dist⟦v⟧ = dist0⟦u⟧ + w ∧ dist⟦v⟧ < dist0⟦v⟧).

Record relaxing (u : Z) (dist0 prev0 : list Z) (l : list (Z * (Z * L))) (s : list Z * list Z) : Prop := {
  rx_links x : x ∈ l → x ∈ row links u;
  rx_dist : zlen s.1 = n;
  rx_prev : zlen s.2 = n;
  rx_self : s.1⟦u⟧ = dist0⟦u⟧;
  rx_all v : 0 ≤ v < n → relaxed u dist0 prev0 s.1 s.2 v;
  rx_done x : x ∈ row links u → x ∈ l ∨ s.1⟦x.1⟧ ≤ dist0⟦u⟧ + latency x.2.2
}.

Lemma relax_ok u dist0 prev0 x l s : graph_ok →
  0 ≤ dist0⟦u⟧ → dist0⟦u⟧ + W < int_max → relaxing u dist0 prev0 (x :: l) s →
  returns (relax latency u s x) (relaxing u dist0 prev0 l).
Proof.
  intros HG Hu0 Hu1 [Hl Hd Hp Hs Hall Hdone]. destruct s as [dist prev], x as [v [p b]]. simpl in *.
  assert ((v, (p, b)) ∈ row links u) as Hx by (apply Hl; by left).
  assert (edge u v (latency b)) as He by (exists p, b; split; [by apply elem_mfind; [apply (g_sorted HG)|]|done]).
  destruct (g_range HG _ _ _ He) as [Hru Hrv]. pose proof (g_lat HG _ _ _ He) as Hw.
  unfold relax. simpl. rewrite !vget_ok by lia. cbn [mbind res_bind].
  rewrite Hs, to_int_id by (unfold int_min; lia). destruct (Z.ltb_spec (dist0⟦u⟧ + latency b) (dist⟦v⟧)) as [Hlt|Hge].
  - rewrite !vset_ok by lia. cbn [mbind res_bind]. apply returns_ok. assert (v ≠ u) as Hne by (intros ->; lia).
    split; simpl; rewrite ?zlen_zupd; try done.
    + intros y Hy. apply Hl. by right.
    + by rewrite znth_zupd_ne by lia.
    + intros v' Hv'. unfold relaxed. rewrite !znth_zupd by lia. case_decide as E; [subst v'|by apply Hall].
      right. exists (latency b). split_and!; try done.
      destruct (Hall v Hrv) as [[E _]|(w & _ & _ & E & ?)]; lia.
    + intros y Hy. destruct (Hdone y Hy) as [[->|?]%elem_of_cons|Hle]; [|by left|].
      * right. simpl. rewrite znth_zupd_eq by lia. lia.
      * right. destruct y as [v' [p' b']]. simpl in *. rewrite znth_zupd; [|lia|].
        { case_decide as E; [subst v'|done]. lia. }
        apply elem_mfind in Hy; [|apply (g_sorted HG)]. pose proof (g_range HG u v' (latency b') ltac:(by exists p', b')); lia.
  - apply returns_ok. split; simpl; try done.
    + intros y Hy. apply Hl. by right.
    + intros y Hy. destruct (Hdone y Hy) as [[->|?]%elem_of_cons|Hle]; [right; simpl; lia|by left|by right].
Qed.

Lemma relax_all_ok u dist0 prev0 : graph_ok → 0 ≤ u < n →
  zlen dist0 = n → zlen prev0 = n → 0 ≤ dist0⟦u⟧ → dist0⟦u⟧ + W < int_max →
  returns (foldl (λ m i, s ← m; relax latency u s i) (Ok (dist0, prev0)) (row links u)) (relaxing u dist0 prev0 []).
Proof.
  intros HG Hu Hd Hp H0 H1. apply (returns_foldl (relaxing u dist0 prev0)).
  - split; simpl; auto. intros v Hv. by left.
  - intros x l s Hi. by apply relax_ok.
Qed.

(** ** The state of the search

    A router is visited when it has left [rlist].  Visited routers have their
    final distance, no other is closer, and the predecessors are visited. *)

Definition visited (s : Search) (u : Z) : Prop := 0 ≤ u < n ∧ mfind u (s_rlist s) = None.

Record searched (src : Z) (s : Search) : Prop := {
  se_sorted : msorted (s_rlist s);
  se_range x : mfind x (s_rlist s) = Some tt → 0 ≤ x < n;
  se_dist : zlen (s_dist s) = n;
  se_prev : zlen (s_prev s) = n;
  se_src : (s_dist s)⟦src⟧ = 0 ∧ (s_prev s)⟦src⟧ = -1;
  se_bound v : 0 ≤ v < n → 0 ≤ (s_dist s)⟦v⟧ ∧
    ((s_dist s)⟦v⟧ = int_max ∨ (s_dist s)⟦v⟧ ≤ (n - zlen (s_rlist s)) * W);
  se_link v : 0 ≤ v < n → v ≠ src → (s_dist s)⟦v⟧ < int_max → ∃ w,
    visited s ((s_prev s)⟦v⟧) ∧ edge ((s_prev s)⟦v⟧) v w ∧ (s_dist s)⟦v⟧ = (s_dist s)⟦(s_prev s)⟦v⟧⟧ + w;
  se_closed u v w : visited s u → edge u v w → (s_dist s)⟦v⟧ ≤ (s_dist s)⟦u⟧ + w;
  se_near u : visited s u → (s_dist s)⟦u⟧ < int_max;
  se_order u v : visited s u → mfind v (s_rlist s) = Some tt → (s_dist s)⟦u⟧ ≤ (s_dist s)⟦v⟧
}.

Lemma merase_length (l : iset) u : mfind u l = Some tt → zlen (merase u l) = zlen l - 1.
Proof.
  unfold zlen. induction l as [|[k []] l IH]; simpl; [done|]. destruct (Z.eqb_spec k u); [lia|].
  intros H. simpl. specialize (IH H). lia.
Qed.

Lemma relaxed_same u dist0 prev0 dist prev v : graph_ok → relaxed u dist0 prev0 dist prev v →
  dist0⟦v⟧ ≤ dist0⟦u⟧ → dist⟦v⟧ = dist0⟦v⟧ ∧ prev⟦v⟧ = prev0⟦v⟧.
Proof. intros HG [?|(w & He & _ & E & Hlt)] Hle; [done|]. pose proof (g_lat HG _ _ _ He). lia. Qed.

Lemma relaxed_le u dist0 prev0 dist prev v : relaxed u dist0 prev0 dist prev v → dist⟦v⟧ ≤ dist0⟦v⟧.
Proof. intros [[-> _]|(w & _ & _ & _ & ?)]; lia. Qed.

Lemma visited_erase s u v dist prev : msorted (s_rlist s) → mfind u (s_rlist s) = Some tt →
  visited (mkSearch dist prev (merase u (s_rlist s))) v ↔ visited s v ∨ (v = u ∧ 0 ≤ u < n).
Proof.
  intros Hs Hu. unfold visited. simpl. rewrite mfind_merase by done.
  case_decide as E; [subst v; rewrite Hu|]; intuition congruence.
Qed.

Lemma searched_visit src s u dist prev : graph_ok → 0 ≤ src < n → searched src s →
  mfind u (s_rlist s) = Some tt → (s_dist s)⟦u⟧ < int_max →
  (∀ v, mfind v (s_rlist s) = Some tt → (s_dist s)⟦u⟧ ≤ (s_dist s)⟦v⟧) →
  relaxing u (s_dist s) (s_prev s) [] (dist, prev) →
  searched src (mkSearch dist prev (merase u (s_rlist s))).
Proof.
  intros HG Hsrc HS Hu Hnear Hmin HR. pose proof (se_range _ _ HS u Hu) as Hru. pose proof (g_pos HG) as HW.
  assert (∀ v, visited s v ∨ (v = u ∧ 0 ≤ u < n) → 0 ≤ v < n ∧ (s_dist s)⟦v⟧ ≤ (s_dist s)⟦u⟧) as Hle.
  { intros v [Hv|[-> _]]; [|done]. split; [apply Hv|]. by apply (se_order _ _ HS). }
  assert (∀ v, visited s v ∨ (v = u ∧ 0 ≤ u < n) → dist⟦v⟧ = (s_dist s)⟦v⟧ ∧ prev⟦v⟧ = (s_prev s)⟦v⟧) as Hsame.
  { intros v Hv. destruct (Hle v Hv) as [Hrv Hd]. by apply (relaxed_same u _ _ dist prev v HG (rx_all _ _ _ _ _ HR v Hrv)). }
  assert (∀ v, 0 ≤ v < n → relaxed u (s_dist s) (s_prev s) dist prev v) as Hrel by apply HR.
  split; simpl.
  - by apply msorted_merase, HS.
  - intros x. rewrite mfind_merase by apply HS. case_decide; [done|]. apply HS.
  - apply HR.
  - apply HR.
  - destruct (se_src _ _ HS) as [E0 E1]. rewrite <- E0, <- E1. apply (relaxed_same u _ _ dist prev src HG (Hrel _ Hsrc)).
    rewrite E0. apply (se_bound _ _ HS _ Hru).
  - intros v Hv. rewrite merase_length by done. pose proof (se_bound _ _ HS v Hv) as Hb.
    destruct (Hrel v Hv) as [[-> _]|(w & He & _ & -> & _)]; [nia|].
    pose proof (g_lat HG _ _ _ He). pose proof (se_bound _ _ HS u Hru). nia.
  - intros v Hv Hne Hd. destruct (Hrel v Hv) as [[Ed Ep]|(w & He & Ep & Ed & _)]; rewrite Ed, Ep in *.
    + destruct (se_link _ _ HS v Hv Hne Hd) as (w & Hpv & He & E). exists w. rewrite visited_erase by (done || apply HS).
      split_and!; [by left|done|]. by rewrite (proj1 (Hsame _ (or_introl Hpv))).
    + exists w. rewrite visited_erase by (done || apply HS). rewrite (proj1 (Hsame u ltac:(by right))). split_and!; auto.
  - intros x v w. rewrite visited_erase by (done || apply HS). intros Hx He. rewrite (proj1 (Hsame x Hx)).
    pose proof (g_range HG _ _ _ He) as [_ Hv]. destruct Hx as [Hx|[-> _]].
    + pose proof (relaxed_le _ _ _ _ _ _ (Hrel v Hv)). pose proof (se_closed _ _ HS x v w Hx He). lia.
    + destruct He as (p & l & Hf & <-). apply elem_mfind in Hf; [|apply (g_sorted HG)].
      by destruct (rx_done _ _ _ _ _ HR _ Hf) as [?%elem_of_nil|?].
  - intros x. rewrite visited_erase by (done || apply HS). intros Hx. rewrite (proj1 (Hsame x Hx)).
    pose proof (Hle x Hx). lia.
  - intros x v. rewrite visited_erase by (done || apply HS). rewrite mfind_merase by apply HS. case_decide; [done|].
    intros Hx Hv. rewrite (proj1 (Hsame x Hx)). pose proof (Hle x Hx). pose proof (Hmin v Hv).
    destruct (Hrel v (se_range _ _ HS v Hv)) as [[-> _]|(w & He & _ & -> & _)]; [lia|]. pose proof (g_lat HG _ _ _ He). lia.
Qed.

Lemma se_elem src s x : searched src s → x ∈ s_rlist s → mfind x.1 (s_rlist s) = Some tt ∧ 0 ≤ x.1 < n.
Proof.
  intros HS Hx. destruct x as [x []]. apply elem_mfind in Hx; [|apply HS]. split; [done|]. by apply (se_range _ _ HS).
Qed.

(** While a router is left to visit, one of those left has been reached. *)
Lemma se_reached src s v : graph_ok → searched src s → (∀ x, 0 ≤ x < n → ∃ d, path src x d) →
  mfind v (s_rlist s) = Some tt → ∃ x, mfind x (s_rlist s) = Some tt ∧ (s_dist s)⟦x⟧ < int_max.
Proof.
  intros HG HS Hconn Hv. destruct (Hconn v (se_range _ _ HS v Hv)) as [d Hp]. revert Hv.
  induction Hp as [|y x d w Hp IH He]; intros Hv.
  - exists src. split; [done|]. by rewrite (proj1 (se_src _ _ HS)).
  - destruct (mfind y (s_rlist s)) as [[]|] eqn:Ey; [by apply IH|]. exists x. split; [done|].
    assert (visited s y) as Hy by (split; [apply (g_range HG _ _ _ He)|done]).
    pose proof (se_near _ _ HS y Hy) as Hn. pose proof (se_closed _ _ HS y x w Hy He).
    pose proof (g_lat HG _ _ _ He). pose proof (g_fits HG).
    assert (1 ≤ zlen (s_rlist s)) by (unfold zlen; destruct (s_rlist s); [done|simpl; lia]).
    destruct (se_bound _ _ HS y ltac:(apply Hy)) as [_ [?|?]]; nia.
Qed.

Lemma dijkstra_visit_ok src s v : graph_ok → 0 ≤ src < n → searched src s → (∀ x, 0 ≤ x < n → ∃ d, path src x d) →
  mfind v (s_rlist s) = Some tt →
  returns (visit latency links s) (λ s', searched src s' ∧ zlen (s_rlist s') = zlen (s_rlist s) - 1).
Proof.
  intros HG Hsrc HS Hconn Hv. destruct (se_reached src s v HG HS Hconn Hv) as (x & Hx & Hxn). unfold visit.
  eapply returns_bind; [apply find_min_ok|].
  { intros y Hy. rewrite (se_dist _ _ HS). by apply (se_elem src s y). }
  intros [d u] [Hmin Hu]. assert (∀ y, mfind y (s_rlist s) = Some tt → d ≤ (s_dist s)⟦y⟧) as Hmin'.
  { intros y Hy. apply (Hmin (y, tt)). by apply elem_mfind; [apply HS|]. }
  destruct Hu as [[-> ->]|(Hd & Hu & E)]; [specialize (Hmin' x Hx); lia|]. subst d.
  apply elem_mfind in Hu; [|apply HS]. pose proof (se_range _ _ HS u Hu) as Hru.
  assert (1 ≤ zlen (s_rlist s)) by (unfold zlen; destruct (s_rlist s); [done|simpl; lia]).
  pose proof (g_fits HG). pose proof (g_pos HG). pose proof (se_bound _ _ HS u Hru).
  eapply returns_bind; [apply relax_all_ok; try done; [apply HS..|lia|nia]|].
  intros [dist prev] HR. apply returns_ok. split; [by apply searched_visit|]. by apply merase_length.
Qed.

Lemma dijkstra_search_ok src : graph_ok → 0 ≤ src < n → (∀ x, 0 ≤ x < n → ∃ d, path src x d) → ∀ fuel s,
  searched src s → zlen (s_rlist s) ≤ Z.of_nat fuel →
  returns (search latency fuel links s) (λ s', searched src s' ∧ s_rlist s' = []).
Proof.
  intros HG Hsrc Hconn. induction fuel as [|fuel IH]; intros s HS Hf.
  all: simpl; destruct (s_rlist s) as [|[v []] l] eqn:El; [by apply returns_ok|].
  - unfold zlen in Hf. simpl in Hf. lia.
  - eapply returns_bind; [apply (dijkstra_visit_ok src s v); try done|].
    { rewrite El. simpl. by rewrite Z.eqb_refl. }
    intros s' [HS' Hl]. apply IH; [done|]. rewrite El in Hl. unfold zlen in *. simpl in *. lia.
Qed.

Lemma mfind_all x size : 0 ≤ x < size → mfind x ((λ i, (i, tt)) <$> seqZ 0 size) = Some tt.
Proof.
  intros Hx. assert (∀ l : list Z, x ∈ l → mfind x ((λ i, (i, tt)) <$> l) = Some tt) as H.
  { induction l as [|y l IH]; [by intros ?%elem_of_nil|]. intros [->|?]%elem_of_cons; simpl; [by rewrite Z.eqb_refl|].
    destruct (y =? x); [done|by apply IH]. }
  apply H. apply elem_of_seqZ. lia.
Qed.

Lemma all_sorted m : ∀ lo, msorted ((λ i, (i, tt)) <$> seqZ lo (Z.of_nat m)).
Proof.
  induction m as [|m IH]; intros lo; [constructor|].
  rewrite seqZ_cons by lia. simpl. replace (Z.pred (Z.of_nat (S m))) with (Z.of_nat m) by lia. constructor; [apply IH|].
  apply Forall_forall. intros x. rewrite list_elem_of_fmap. intros (y & -> & Hy%elem_of_seqZ). simpl. lia.
Qed.

Lemma start_ok src : graph_ok → 0 ≤ src < n →
  returns (start n src) (λ s, searched src s ∧ zlen (s_rlist s) = n).
Proof.
  intros HG Hsrc. unfold start. rewrite vset_ok by (rewrite zlen_replicate; lia). cbn [mbind res_bind].
  assert (∀ v, 0 ≤ v < n → (replicate (Z.to_nat n) int_max)⟦src := 0⟧⟦v⟧ = if decide (src = v) then 0 else int_max) as Hd.
  { intros v Hv. rewrite znth_zupd by (rewrite ?zlen_replicate; lia). case_decide; [done|]. by rewrite znth_replicate. }
  assert (zlen ((λ i, (i, tt)) <$> seqZ 0 n) = n) as Hlen by (rewrite zlen_fmap; unfold zlen; rewrite length_seqZ; lia).
  apply returns_ok. split; [|done].
  assert (∀ dist prev v, ¬ visited (mkSearch dist prev ((λ i, (i, tt)) <$> seqZ 0 n)) v) as Hvis.
  { intros dist prev v [Hr Hv]. simpl in Hv. by rewrite mfind_all in Hv. }
  split; simpl; try (intros; by edestruct Hvis).
  - rewrite <- (Z2Nat.id n) by lia. apply all_sorted.
  - intros x Hx. apply elem_mfind in Hx.
    + apply list_elem_of_fmap in Hx as (y & [= ->] & Hy%elem_of_seqZ). lia.
    + rewrite <- (Z2Nat.id n) by lia. apply all_sorted.
  - rewrite zlen_zupd, zlen_replicate; lia.
  - rewrite zlen_replicate; lia.
  - rewrite Hd, decide_True, znth_replicate by done. done.
  - intros v Hv. rewrite Hd, Hlen by done. unfold int_max. case_decide; lia.
  - intros v Hv Hne. rewrite Hd by done. rewrite decide_False by done. lia.
Qed.

(** ** The distances are those of shortest paths *)

Section done.
Context (src : Z) (s : Search) (HG : graph_ok) (Hsrc : 0 ≤ src < n) (HS : searched src s) (Hdone : s_rlist s = []).
Local Abbreviation dist := (s_dist s).
Local Abbreviation prev := (s_prev s).

Lemma done_visited v : 0 ≤ v < n → visited s v.
Proof. intros Hv. split; [done|]. by rewrite Hdone. Qed.

Lemma done_link v : 0 ≤ v < n → v ≠ src → ∃ w,
  0 ≤ prev⟦v⟧ < n ∧ edge (prev⟦v⟧) v w ∧ 0 < w ∧ dist⟦v⟧ = dist⟦prev⟦v⟧⟧ + w.
Proof.
  intros Hv Hne. destruct (se_link _ _ HS v Hv Hne (se_near _ _ HS v (done_visited v Hv))) as (w & Hp & He & E).
  exists w. split_and!; [apply Hp|apply Hp|done|apply (g_lat HG _ _ _ He)|done].
Qed.

Lemma done_path v : 0 ≤ v < n → path src v (dist⟦v⟧).
Proof.
  intros Hv. remember (Z.to_nat (dist⟦v⟧)) as k eqn:Hk. revert v Hv Hk.
  induction k as [k IH] using lt_wf_ind. intros v Hv ->. destruct (decide (v = src)) as [->|Hne].
  - rewrite (proj1 (se_src _ _ HS)). constructor.
  - destruct (done_link v Hv Hne) as (w & Hp & He & Hw & E). rewrite E. apply path_snoc with (prev⟦v⟧); [|done].
    pose proof (se_bound _ _ HS _ Hp) as [? _]. eapply IH; [|done|done]. lia.
Qed.

Lemma path_range u v d : path u v d → 0 ≤ u < n → 0 ≤ v < n ∧ 0 ≤ d.
Proof.
  induction 1 as [|y z e w _ IH He]; intros Hu; [done|]. pose proof (g_range HG _ _ _ He). pose proof (g_lat HG _ _ _ He).
  specialize (IH Hu). lia.
Qed.

Lemma done_shortest v : 0 ≤ v < n → shortest src v (dist⟦v⟧).
Proof.
  intros Hv. split; [by apply done_path|]. intros d' Hp. clear Hv.
  induction Hp as [|y z e w Hp IH He]; [by rewrite (proj1 (se_src _ _ HS))|].
  pose proof (se_closed _ _ HS y z w (done_visited y (proj1 (g_range HG _ _ _ He))) He). lia.
Qed.

(** ** The first link of a shortest path *)

(** How many routers are closer to the source than [v]: the walk back along the
    predecessors takes at most that many steps. *)
Definition closer_to_src (v : Z) : Z := zsumf (λ y, if dist⟦y⟧ <? dist⟦v⟧ then 1 else 0) n.

Lemma closer_to_src_lt u v : 0 ≤ u < n → dist⟦u⟧ < dist⟦v⟧ → closer_to_src u < closer_to_src v.
Proof.
  intros Hu Hlt. apply (zsumf_lt _ _ n u); [|done|].
  - intros y _. destruct (Z.ltb_spec (dist⟦y⟧) (dist⟦u⟧)), (Z.ltb_spec (dist⟦y⟧) (dist⟦v⟧)); lia.
  - destruct (Z.ltb_spec (dist⟦u⟧) (dist⟦u⟧)), (Z.ltb_spec (dist⟦u⟧) (dist⟦v⟧)); lia.
Qed.

Lemma closer_to_src_bound v : 0 ≤ v < n → closer_to_src v < n.
Proof.
  intros Hv. assert (zsumf (λ _, 1) n = n) as E by (rewrite zsumf_const; lia).
  enough (closer_to_src v < zsumf (λ _, 1) n) by lia.
  apply (zsumf_lt _ _ n v); [|done|].
  - intros y _. destruct (_ <? _); lia.
  - destruct (Z.ltb_spec (dist⟦v⟧) (dist⟦v⟧)); lia.
Qed.

Lemma first_hop_ok v (Hsym : ∀ x y w, edge x y w → ∃ w', edge y x w') : ∀ fuel x d,
  0 ≤ x < n → x ≠ src → path x v d → dist⟦v⟧ = dist⟦x⟧ + d → closer_to_src x < Z.of_nat fuel →
  returns (first_hop fuel links prev src x) (λ nb, ∃ w e, edge src nb w ∧ path nb v e ∧ dist⟦v⟧ = w + e).
Proof.
  induction fuel as [|fuel IH]; intros x d Hx Hne Hp E Hf; simpl.
  { assert (0 ≤ closer_to_src x); [|lia]. apply zsumf_nonneg; [lia|]. intros y _. destruct (_ <? _); lia. }
  destruct (done_link x Hx Hne) as (w & Hpx & He & Hw & Ex). rewrite vget_ok by (rewrite (se_prev _ _ HS); lia).
  cbn [mbind res_bind]. destruct (Z.eqb_spec (prev⟦x⟧) src) as [Es|Hns].
  - apply returns_ok. rewrite Es in *. exists w, d. split_and!; try done.
    rewrite E, Ex, (proj1 (se_src _ _ HS)). lia.
  - apply returns_assert.
    { destruct (Hsym _ _ _ He) as (w' & p & l & Hf' & _). unfold mcount. by rewrite Hf'. }
    apply (IH _ (w + d)); try done.
    + apply path_trans with x; [by apply path_edge|done].
    + lia.
    + pose proof (closer_to_src_lt (prev⟦x⟧) x Hpx ltac:(lia)). lia.
Qed.
End done.

(** ** A search that cannot reach a router does not end *)

Section unreachable.
Context (src x : Z) (HG : graph_ok) (Hsrc : 0 ≤ src < n) (Hx : 0 ≤ x < n) (Hun : ∀ d, ¬ path src x d).

(** Routers that cannot be reached keep their distance and stay in [rlist]. *)
Record stuck (s : Search) : Prop := {
  st_sorted : msorted (s_rlist s);
  st_range v : mfind v (s_rlist s) = Some tt → 0 ≤ v < n;
  st_dist : zlen (s_dist s) = n;
  st_prev : zlen (s_prev s) = n;
  st_far v : 0 ≤ v < n → (∀ d, ¬ path src v d) → (s_dist s)⟦v⟧ = int_max ∧ mfind v (s_rlist s) = Some tt
}.

Lemma relax_stuck u dist0 prev0 : (u = -1 ∨ (0 ≤ u < n ∧ ¬ ∀ d, ¬ path src u d)) → zlen dist0 = n → zlen prev0 = n →
  returns (foldl (λ m i, s ← m; relax latency u s i) (Ok (dist0, prev0)) (row links u))
    (λ s, zlen s.1 = n ∧ zlen s.2 = n ∧ ∀ v, 0 ≤ v < n → (∀ d, ¬ path src v d) → s.1⟦v⟧ = dist0⟦v⟧).
Proof.
  intros Hu Hd0 Hp0. eapply returns_mono; [apply (returns_foldl (λ l s, (∀ y, y ∈ l → y ∈ row links u) ∧
    zlen s.1 = n ∧ zlen s.2 = n ∧ ∀ v, 0 ≤ v < n → (∀ d, ¬ path src v d) → s.1⟦v⟧ = dist0⟦v⟧)); [by split_and!|]|].
  - intros [v [p l]] rest [dist prev] (Hsub & Hd & Hp & Hfar). simpl in *.
    assert (edge u v (latency l)) as He.
    { exists p, l. split; [|done]. apply elem_mfind; [apply (g_sorted HG)|]. apply Hsub. by left. }
    pose proof (g_range HG _ _ _ He) as [Hru Hrv].
    assert (∀ y, y ∈ rest → y ∈ row links u) as Hsub' by (intros y Hy; apply Hsub; by right).
    unfold relax. simpl. rewrite !vget_ok by lia. cbn [mbind res_bind]. destruct (_ <? _); [|by apply returns_ok].
    rewrite !vset_ok by lia. cbn [mbind res_bind]. apply returns_ok. simpl. rewrite !zlen_zupd. split_and!; try done.
    intros y Hy Hny. rewrite znth_zupd by lia. case_decide as E; [subst y|by apply Hfar]. exfalso.
    destruct Hu as [->|[_ Hnu]]; [lia|]. apply Hnu. intros d Hpath. by apply (Hny (d + latency l)), path_snoc with u.
  - intros s (_ & ?). done.
Qed.

Lemma visit_stuck s : stuck s → returns (visit latency links s) stuck.
Proof.
  intros HS. unfold visit. assert (∀ y, y ∈ s_rlist s → mfind y.1 (s_rlist s) = Some tt) as Hin.
  { intros [y []] Hy. by apply elem_mfind; [apply HS|]. }
  eapply returns_bind; [apply find_min_ok; intros y Hy; rewrite (st_dist _ HS); by apply (st_range _ HS), Hin|].
  intros [d u] [_ Hu]. assert (u = -1 ∨ (0 ≤ u < n ∧ ¬ ∀ d, ¬ path src u d)) as Hu'.
  { destruct Hu as [[_ ->]|(Hd & Hu & E)]; [by left|]. specialize (st_range _ HS u (Hin _ Hu)) as Hru.
    right. split; [done|]. intros Hn. destruct (st_far _ HS u Hru Hn). lia. }
  eapply returns_bind; [apply (relax_stuck u _ _ Hu' (st_dist _ HS) (st_prev _ HS))|]. intros [dist prev] (Hd & Hp & Hfar).
  apply returns_ok. split; simpl; try done.
  - by apply msorted_merase, HS.
  - intros v. rewrite mfind_merase by apply HS. case_decide; [done|]. apply HS.
  - intros v Hv Hn. destruct (st_far _ HS v Hv Hn) as [Ed Er]. simpl in Hfar. rewrite (Hfar v Hv Hn). split; [done|].
    rewrite mfind_merase by apply HS. rewrite decide_False; [done|]. intros ->. destruct Hu' as [->|[_ []]]; [lia|done].
Qed.

Lemma search_diverges fuel : ∀ s, stuck s → search latency fuel links s = Fail OutOfFuel.
Proof.
  induction fuel as [|fuel IH]; intros s HS; simpl.
  all: destruct (st_far _ HS x Hx Hun) as [_ Hr]; destruct (s_rlist s) as [|y l] eqn:El; [done|].
  - done.
  - destruct (visit_stuck s HS) as (s' & -> & HS'). by apply IH.
Qed.

Lemma route_diverges fuel nodes table : route latency fuel links nodes n src table = Fail OutOfFuel.
Proof.
  unfold route. destruct (start_ok src HG Hsrc) as (s & E & HS & _). rewrite E. cbn [mbind res_bind].
  rewrite search_diverges; [done|]. unfold start in E. apply bind_ok_inv in E as (dist & Ed & [= <-]).
  apply vset_inv in Ed as [_ ->]. split; [apply HS|apply (se_range _ _ HS)|apply HS|apply HS|]. simpl.
  intros v Hv Hn. rewrite mfind_all by done. rewrite znth_zupd by (rewrite ?zlen_replicate; lia).
  rewrite decide_False, znth_replicate by (done || (intros ->; apply (Hn 0); constructor)). done.
Qed.
End unreachable.

(** ** The routing table *)

Section table.
Context (nodes : imap (imap (Z * L))) (src : Z).
Implicit Types table : list (imap Z).

(** The port that leads from [src] to a node of router [i]: the node's own port,
    or the port of the first link of a shortest path. *)
Definition next_port (i node p : Z) : Prop :=
  (i = src ∧ ∃ l, mfind node (row nodes src) = Some (p, l)) ∨
  (i ≠ src ∧ ∃ nb l d, mfind nb (row links src) = Some (p, l) ∧
     shortest nb i d ∧ shortest src i (latency l + d)).

Record table_ok table : Prop := {
  tb_len : zlen table = n;
  tb_sorted r : 0 ≤ r < n → msorted (table⟦r⟧)
}.

(** [table'] is [table] with the entries of [f] set in row [src]. *)
Record updated (f : Z → option Z) table table' : Prop := {
  up_ok : table_ok table';
  up_other r : 0 ≤ r < n → r ≠ src → table'⟦r⟧ = table⟦r⟧;
  up_row node : mfind node (table'⟦src⟧) = match f node with Some p => Some p | None => mfind node (table⟦src⟧) end
}.

Lemma set_port_ok node p table : 0 ≤ src < n → table_ok table →
  set_port src node p table = Ok (table⟦src := mset node p (table⟦src⟧)⟧).
Proof.
  intros Hsrc HT. unfold set_port. rewrite vget_ok by (rewrite (tb_len _ HT); lia). cbn [mbind res_bind].
  by rewrite vset_ok by (rewrite (tb_len _ HT); lia).
Qed.

Lemma set_ports_ok (f : Z * (Z * L) → Z) l table : 0 ≤ src < n → msorted l → table_ok table →
  returns (foldl (λ m x, t ← m; set_port src x.1 (f x) t) (Ok table) l)
    (updated (λ node, (λ y, f (node, y)) <$> mfind node l) table).
Proof.
  intros Hsrc Hs. revert table. induction Hs as [|[k y] l Hs IH Hlt]; intros table HT; cbn [foldl].
  { apply returns_ok. by split. }
  cbn [mbind res_bind]. rewrite set_port_ok by done.
  assert (table_ok (table⟦src := mset k (f (k, y)) (table⟦src⟧)⟧)) as HT'.
  { split; [by rewrite zlen_zupd, (tb_len _ HT)|]. intros r Hr. rewrite znth_zupd by (rewrite ?(tb_len _ HT); lia).
    case_decide; [by apply msorted_mset, HT|by apply HT]. }
  eapply returns_mono; [by apply IH|]. intros table' [Hok Ho Hrow]. split; [done| |].
  - intros r Hr Hne. rewrite (Ho r Hr Hne). by rewrite znth_zupd_ne by (rewrite ?(tb_len _ HT); lia).
  - intros node. rewrite Hrow. simpl. rewrite znth_zupd_eq by (rewrite (tb_len _ HT); lia).
    rewrite mfind_mset by by apply HT. destruct (Z.eqb_spec k node) as [->|Hne].
    + rewrite (mfind_below node l Hlt). simpl. by rewrite decide_True.
    + destruct (mfind node l); [done|]. simpl. by rewrite decide_False.
Qed.

(** Every node is attached to one router. *)
Record nodes_ok : Prop := {
  nd_sorted i : msorted (row nodes i);
  nd_one i j node x y : mfind node (row nodes i) = Some x → mfind node (row nodes j) = Some y → i = j
}.

Lemma post_ok s fuel i table : graph_ok → nodes_ok → (∀ x y w, edge x y w → ∃ w', edge y x w') →
  0 ≤ src < n → searched src s → s_rlist s = [] → n ≤ Z.of_nat fuel → 0 ≤ i < n → table_ok table →
  returns (post fuel links nodes (s_prev s) src i table) (λ table', ∃ f, updated f table table' ∧
    (∀ node, f node = None ↔ mfind node (row nodes i) = None) ∧ ∀ node p, f node = Some p → next_port i node p).
Proof.
  intros HG HN Hsym Hsrc HS Hdone Hf Hi HT. unfold post. rewrite vget_ok by (rewrite (se_prev _ _ HS); lia).
  cbn [mbind res_bind]. destruct (decide (i = src)) as [->|Hne].
  - rewrite (proj2 (se_src _ _ HS)). simpl. rewrite Z.eqb_refl. cbn [cassert mbind res_bind].
    eapply returns_mono; [apply (set_ports_ok (λ x, x.2.1)); [done|apply HN|done]|]. intros table' Hup. eexists.
    split; [exact Hup|]. split; intros node; [by rewrite fmap_None|]. intros p (y & Hy & ->)%fmap_Some.
    left. split; [done|]. exists y.2. by rewrite Hy, <- surjective_pairing.
  - destruct (done_link src s HG HS Hdone i Hi Hne) as (w & Hp & He & _ & _).
    destruct (Z.eqb_spec ((s_prev s)⟦i⟧) (-1)); [lia|].
    eapply returns_bind; [apply (first_hop_ok src s HG Hsrc HS Hdone i Hsym fuel i 0); try done|].
    + constructor.
    + lia.
    + pose proof (closer_to_src_bound s i Hi). lia.
    + intros nb (w' & e & (p & l & Hnb & <-) & Hpe & E). rewrite Hnb.
      eapply returns_mono; [apply (set_ports_ok (λ _, p)); [done|apply HN|done]|]. intros table' Hup. eexists.
      split; [exact Hup|]. split; intros node; [by rewrite fmap_None|]. intros p' (y & Hy & ->)%fmap_Some.
      right. split; [done|]. exists nb, l, e. destruct (done_shortest src s HG HS Hdone i Hi) as [Hpi Hmin].
      rewrite E in *. split_and!; [done| |by split]. split; [done|]. intros d' Hd'.
      assert (edge src nb (latency l)) as Hedge by by exists p, l.
      specialize (Hmin _ (path_trans _ _ _ _ _ (path_edge _ _ _ Hedge) Hd')). lia.
Qed.

(** The table of [src] has the right port for every node. *)
Definition row_ok table : Prop := ∀ i node, 0 ≤ i < n → mfind node (row nodes i) ≠ None →
  ∃ p, mfind node (table⟦src⟧) = Some p ∧ next_port i node p.

Lemma route_shortest fuel table : graph_ok → nodes_ok → (∀ x y w, edge x y w → ∃ w', edge y x w') →
  0 ≤ src < n → (∀ x, 0 ≤ x < n → ∃ d, path src x d) → n ≤ Z.of_nat fuel → table_ok table →
  returns (route latency fuel links nodes n src table) (λ table', table_ok table' ∧
    (∀ r, 0 ≤ r < n → r ≠ src → table'⟦r⟧ = table⟦r⟧) ∧ row_ok table').
Proof.
  intros HG HN Hsym Hsrc Hconn Hf HT. unfold route. eapply returns_bind; [by apply start_ok|]. intros s0 [HS0 Hl0].
  eapply returns_bind; [apply (dijkstra_search_ok src HG Hsrc Hconn fuel s0 HS0); lia|]. intros s [HS Hdone].
  eapply returns_mono; [apply (returns_for (λ i table', table_ok table' ∧
    (∀ r, 0 ≤ r < n → r ≠ src → table'⟦r⟧ = table⟦r⟧) ∧
    ∀ j node, 0 ≤ j < i → mfind node (row nodes j) ≠ None → ∃ p, mfind node (table'⟦src⟧) = Some p ∧ next_port j node p))|].
  - lia.
  - split_and!; try done. lia.
  - intros i t Hi (Ht & Hother & Hrows). eapply returns_mono; [by apply (post_ok s)|].
    intros t' (f & [Hok Hup Hrow] & Hf0 & Hf1). split; [done|]. split.
    + intros r Hr Hne. by rewrite Hup, Hother.
    + intros j node Hj Hn. rewrite Hrow. destruct (f node) as [p|] eqn:Ef.
      * exists p. split; [done|]. assert (mfind node (row nodes i) ≠ None) as Hni by by rewrite <- Hf0, Ef.
        destruct (mfind node (row nodes i)) as [y|] eqn:Ey; [|done].
        destruct (mfind node (row nodes j)) as [z|] eqn:Ez; [|done].
        rewrite (nd_one HN _ _ _ _ _ Ez Ey). by apply Hf1.
      * apply Hrows; [|done]. destruct (decide (j = i)) as [->|]; [|lia]. by apply Hf0 in Ef.
  - done.
Qed.
End table.
End paths.
