(* ===== verification/AnyNet.v ===== *)
(** * Networks described by a file

    [AnyNet] (networks/anynet.cpp): the parser of the network file, the wiring
    made from it, the routing table and the routing function.  A file is its
    text; [cout] messages are left out. *)

From Stdlib Require Import Ascii.
From S2P Require Import Prelude StdMap OutputSet Flit Rng KNCube Route Dijkstra.

(** ** The C and C++ library functions the parser calls *)

(** The pieces of a string between the occurrences of a character: the lines
    that [getline] returns, and the words of the [find]/[substr] loop. *)
Fixpoint split_on (c : ascii) (s : string) : list string :=
  match s with
  | EmptyString => [EmptyString]
  | String a s =>
      if Ascii.eqb a c then EmptyString :: split_on c s
      else match split_on c s with
           | [] => [String a EmptyString]
           | w :: ws => String a w :: ws
           end
  end.

Definition newline : ascii := Ascii false true false true false false false false.
Definition blank : ascii := Ascii false false false false false true false false.

Definition is_space (c : ascii) : bool :=
  let n := Ascii.nat_of_ascii c in (n =? 32)%nat || ((9 <=? n)%nat && (n <=? 13)%nat).
Definition is_digit (c : ascii) : bool := let n := Ascii.nat_of_ascii c in (48 <=? n)%nat && (n <=? 57)%nat.

Fixpoint atoi_digits (s : string) (acc : Z) : Z :=
  match s with
  | String c s => if is_digit c then atoi_digits s (10 * acc + Z.of_nat (Ascii.nat_of_ascii c) - 48) else acc
  | EmptyString => acc
  end.

Fixpoint atoi (s : string) : Z :=
  match s with
  | String c s' =>
      if is_space c then atoi s'
      else if Ascii.eqb c "-"%char then - atoi_digits s' 0
      else if Ascii.eqb c "+"%char then atoi_digits s' 0
      else atoi_digits s 0
  | EmptyString => 0
  end.

(** ** The network file *)

Inductive ParseState : Set := HEAD_TYPE | HEAD_ID | BODY_TYPE | BODY_ID | LINK_WEIGHT.
Inductive ParseType : Set := NODE | ROUTER | UNKNOWN.

(** [router_list[NODE]], [router_list[ROUTER]] and [node_list]: per router, its
    nodes and its links to other routers with their output port and latency;
    per node, its router. *)
Record AnyNet : Set := mkAnyNet {
  an_node : imap (imap (Z * Z));
  an_router : imap (imap (Z * Z));
  an_node_list : imap Z
}.

(** The parser's position in a line. *)
Record Parse : Set := mkParse {
  pa_state : ParseState;
  pa_head_type : ParseType;
  pa_head_id : Z;
  pa_body_type : ParseType;
  pa_body_id : Z
}.

Module ParseOps.

Definition touch (k : Z) (m : imap (imap (Z * Z))) : imap (imap (Z * Z)) :=
  if mcount k m =? 0 then mset k [] m else m.

(** [m[k][j] = x] and [m[k][j].second = w]. *)
Definition set2 (k j : Z) (x : Z * Z) (m : imap (imap (Z * Z))) : imap (imap (Z * Z)) :=
  mset k (mset j x (row m k)) m.
Definition set_second (k j w : Z) (m : imap (imap (Z * Z))) : imap (imap (Z * Z)) :=
  set2 k j ((default (0, 0) (mfind j (row m k))).1, w) m.

Definition init_router (id : Z) (net : AnyNet) : AnyNet :=
  mkAnyNet (touch id (an_node net)) (touch id (an_router net)) (an_node_list net).

(** [node_list[node] = router] and [router_list[NODE][router][node] = (-1,1)],
    unless the node is connected to another router. *)
Definition attach (node router : Z) (net : AnyNet) : res AnyNet :=
  assert! match mfind node (an_node_list net) with Some r => r =? router | None => true end;
  Ok (mkAnyNet (set2 router node (-1, 1) (an_node net)) (an_router net) (mset node router (an_node_list net))).

Definition connect (head body : Z) (net : AnyNet) : AnyNet :=
  let links := set2 head body (-1, 1) (an_router net) in
  let links := if mcount head (row links body) =? 0 then set2 body head (-1, 1) links else links in
  mkAnyNet (an_node net) links (an_node_list net).

Definition head_type (temp : string) : res ParseType :=
  if String.eqb temp "router" then Ok ROUTER
  else if String.eqb temp "node" then Ok NODE
  else Fail AssertFailed.

(** [case BODY_TYPE]. *)
Definition parse_body_type (temp : string) (p : Parse) (net : AnyNet) : res (Parse * AnyNet) :=
  t ← head_type temp;
  Ok (mkParse BODY_ID (pa_head_type p) (pa_head_id p) t (pa_body_id p), net).

(** [case BODY_ID]. *)
Definition parse_body_id (temp : string) (p : Parse) (net : AnyNet) : res (Parse * AnyNet) :=
  let body_id := atoi temp in
  let net := match pa_body_type p with ROUTER => init_router body_id net | _ => net end in
  net ← match pa_head_type p, pa_body_type p with
        | NODE, NODE => Fail AssertFailed
        | NODE, ROUTER => attach (pa_head_id p) body_id net
        | ROUTER, NODE => attach body_id (pa_head_id p) net
        | ROUTER, ROUTER => Ok (connect (pa_head_id p) body_id net)
        | _, _ => Ok net
        end;
  Ok (mkParse LINK_WEIGHT (pa_head_type p) (pa_head_id p) (pa_body_type p) body_id, net).

(** [case LINK_WEIGHT]: a word that is no type is a weight. *)
Definition parse_weight (temp : string) (p : Parse) (net : AnyNet) : res (Parse * AnyNet) :=
  if String.eqb temp "router" || String.eqb temp "node" then parse_body_type temp p net
  else
    let set := set_second (pa_head_id p) (pa_body_id p) (atoi temp) in
    match pa_head_type p with
    | NODE => Ok (p, mkAnyNet (set (an_node net)) (an_router net) (an_node_list net))
    | ROUTER => Ok (p, mkAnyNet (an_node net) (set (an_router net)) (an_node_list net))
    | UNKNOWN => Fail OutOfRange
    end.

Definition parse_word (temp : string) (s : Parse * AnyNet) : res (Parse * AnyNet) :=
  let '(p, net) := s in
  if String.eqb temp "" || String.eqb temp " " then Ok (p, net)
  else
    match pa_state p with
    | HEAD_TYPE =>
        t ← head_type temp;
        Ok (mkParse HEAD_ID t (pa_head_id p) (pa_body_type p) (pa_body_id p), net)
    | HEAD_ID =>
        let head_id := atoi temp in
        Ok (mkParse BODY_TYPE (pa_head_type p) head_id (pa_body_type p) (pa_body_id p), init_router head_id net)
    | LINK_WEIGHT => parse_weight temp p net
    | BODY_TYPE => parse_body_type temp p net
    | BODY_ID => parse_body_id temp p net
    end.

Definition parse_line (net : AnyNet) (line : string) : res AnyNet :=
  if String.eqb line "" then Ok net
  else
    '(_, net) ← foldl (λ m temp, s ← m; parse_word temp s) (Ok (mkParse HEAD_TYPE UNKNOWN (-1) UNKNOWN (-1), net))
                  (split_on blank line);
    Ok net.

(** [network_list.open(file_name)] gives the text of the file, if it is there. *)
Definition readFile (file : option string) : res AnyNet :=
  match file with
  | None => Fail ErrorExit
  | Some text =>
      net ← foldl (λ m line, net ← m; parse_line net line) (Ok (mkAnyNet [] [] [])) (split_on newline text);
      assert! zlen (an_node net) =? zlen (an_router net);
      (* the nodes are numbered from 0 *)
      zfor 0 (zlen (an_node_list net)) (λ i net,
        node ← vget ((an_node_list net).*1) i;
        assert! node =? i;
        Ok net) net
  end.

End ParseOps.

(** ** The wiring *)

(** [_routers], null until a router is made: the number of ports it is made with
    and the channels added to it. *)
Record Ports : Set := mkPorts {
  po_radix : Z;
  po_inputs : list chan_id;
  po_outputs : list chan_id
}.

(** [an_net] with the output ports filled in; the next port of each router; the
    latency of the four channels of each node and of the two of each link. *)
Record Built : Set := mkBuilt {
  bu_net : AnyNet;
  bu_outport : list Z;
  bu_routers : list (option Ports);
  bu_node_lat : list Z;
  bu_chan_lat : list Z
}.

Module AnyNetOps.

(** [_channels], [_size] and [_nodes]. *)
Definition ComputeSize (net : AnyNet) : Z * Z * Z :=
  (foldl (λ c r, c + zlen r.2) 0 (an_router net), zlen (an_router net), zlen (an_node_list net)).

Definition add_channels (routers : list (option Ports)) (r : Z) (ins outs : list chan_id) : res (list (option Ports)) :=
  p ← vget routers r;
  match p with
  | None => Fail BadIterator
  | Some p => vset routers r (Some (mkPorts (po_radix p) (po_inputs p ++ ins) (po_outputs p ++ outs)))
  end.

(** [SetLatency] of a channel. *)
Definition set_delay (delays : list Z) (c cycles : Z) : res (list Z) :=
  delays ← vset delays c cycles;
  if cycles <=? 0 then Fail ErrorExit else Ok delays.

(** The body of the loops over [niter->second] and [riter->second]. *)
Definition build_node_link (node link lat : Z) (b : Built) : res Built :=
  p ← vget (bu_outport b) node;
  let net := bu_net b in
  let nodes := mset node (mset link (p, lat) (row (an_node net) node)) (an_node net) in
  outport ← vset (bu_outport b) node (p + 1);
  node_lat ← set_delay (bu_node_lat b) link lat;
  routers ← add_channels (bu_routers b) node [Inject link] [Eject link];
  Ok (mkBuilt (mkAnyNet nodes (an_router net) (an_node_list net)) outport routers node_lat (bu_chan_lat b)).

Definition build_router_link (node other_node lat : Z) (s : Built * Z) : res (Built * Z) :=
  let '(b, channel_count) := s in
  p ← vget (bu_outport b) node;
  let net := bu_net b in
  let links := mset node (mset other_node (p, lat) (row (an_router net) node)) (an_router net) in
  outport ← vset (bu_outport b) node (p + 1);
  chan_lat ← set_delay (bu_chan_lat b) channel_count lat;
  routers ← add_channels (bu_routers b) node [] [Chan channel_count];
  routers ← add_channels routers other_node [Chan channel_count] [];
  Ok (mkBuilt (mkAnyNet (an_node net) links (an_node_list net)) outport routers (bu_node_lat b) chan_lat, channel_count + 1).

Definition build_nodes (links : imap (imap (Z * Z))) (node : Z) (nodes : imap (Z * Z)) (b : Built) : res Built :=
  match mfind node links with
  | None => Fail BadIterator
  | Some l =>
      let radix := zlen nodes + zlen l in
      routers ← vset (bu_routers b) node (Some (mkPorts radix [] []));
      let b := mkBuilt (bu_net b) (bu_outport b) routers (bu_node_lat b) (bu_chan_lat b) in
      foldl (λ m x, b ← m; build_node_link node x.1 x.2.2 b) (Ok b) nodes
  end.

Definition build_links (links : imap (imap (Z * Z))) (node : Z) (s : Built * Z) : res (Built * Z) :=
  match mfind node links with
  | None => Fail BadIterator
  | Some l => foldl (λ m x, s ← m; build_router_link node x.1 x.2.2 s) (Ok s) l
  end.

Definition buildRoutingTable (fuel : nat) (net : AnyNet) (size : Z) : res (list (imap Z)) :=
  zfor 0 size (route id fuel (an_router net) (an_node net) size) (replicate (Z.to_nat size) []).

Definition BuildNet (fuel : nat) (net : AnyNet) : res (Built * list (imap Z)) :=
  let '(channels, size, nodes) := ComputeSize net in
  let b := mkBuilt net (replicate (Z.to_nat size) 0) (replicate (Z.to_nat size) None)
             (replicate (Z.to_nat nodes) 1) (replicate (Z.to_nat channels) 1) in
  b ← foldl (λ m x, b ← m; build_nodes (an_router net) x.1 x.2 b) (Ok b) (an_node net);
  '(b, _) ← foldl (λ m x, s ← m; build_links (an_router net) x.1 s) (Ok (b, 0)) (an_node net);
  table ← buildRoutingTable fuel (bu_net b) size;
  Ok (b, table).

(** The constructor. *)
Definition New (fuel : nat) (file_name : string) (file : option string) : res (Built * list (imap Z)) :=
  if String.eqb file_name "" then Fail ErrorExit
  else net ← ParseOps.readFile file; BuildNet fuel net.

Definition min_anynet (table : list (imap Z)) (G : Globals) (r : Router) (f : Flit) (in_channel : Z)
    (outputs : OutputSet) (inject : bool) (g : Rng) : res (OutputSet * Flit * Rng) :=
  out_port ← (if inject then Ok (-1)
    else
      t ← vget table (r_id r);
      match mfind (f_dest f) t with None => Fail AssertFailed | Some p => Ok p end);
  vcBegin ← vget (gBeginVCs G) (f_cl f);
  vcEnd ← vget (gEndVCs G) (f_cl f);
  Ok (RouteOps.only outputs out_port vcBegin vcEnd, f, g).

End AnyNetOps.
