(* ===== verification/AnyNetWiring.v ===== *)
(** * The wiring of a network described by a file

    What [AnyNet::_BuildNet] makes of a well-formed description: the ports of a
    router are its nodes followed by its links, in the order of their numbers,
    and every link is a channel from the port of one router to an input of the
    other. *)

From S2P Require Import Prelude StdMap KNCube Dijkstra AnyNet.
Import AnyNetOps.

(** A description with routers [0 .. n-1], nodes [0 .. m-1] and latencies up to
    [W]: links in both directions, every node at one router. *)
Record net_ok (n m W : Z) (net : AnyNet) : Prop := {
  no_n : 0 ≤ n;
  no_m : 0 ≤ m;
  no_heads : (an_node net).*1 = seqZ 0 n;
  no_routers : (an_router net).*1 = seqZ 0 n;
  no_nodes : (an_node_list net).*1 = seqZ 0 m;
  no_node_row r : msorted (row (an_node net) r);
  no_link_row r : msorted (row (an_router net) r);
  no_sym u v x : mfind v (row (an_router net) u) = Some x → ∃ y, mfind u (row (an_router net) v) = Some y;
  no_lat u v x : mfind v (row (an_router net) u) = Some x → 0 < x.2 ≤ W;
  no_node_lat r x y : mfind x (row (an_node net) r) = Some y → 0 < y.2;
  no_attached r x : (∃ y, mfind x (row (an_node net) r) = Some y) ↔ mfind x (an_node_list net) = Some r
}.

Lemma row_mset {X} k y (m : imap (imap X)) q : msorted m → row (mset k y m) q = if decide (q = k) then y else row m q.
Proof. intros Hs. unfold row. rewrite mfind_mset by done. by case_decide. Qed.

Lemma row_find {X} (m : imap (imap X)) r k x : mfind k (row m r) = Some x → ∃ l, mfind r m = Some l.
Proof. unfold row. destruct (mfind r m) as [l|]; [by exists l|done]. Qed.

Lemma zupd_zupd {A} (v : list A) i x y : v⟦i := x⟧⟦i := y⟧ = v⟦i := y⟧.
Proof. unfold zupd. by rewrite list_insert_insert_eq. Qed.

Lemma zupd_id {A} `{Inhabited A} (v : list A) i x : 0 ≤ i < zlen v → v⟦i⟧ = x → v⟦i := x⟧ = v.
Proof. intros Hi <-. unfold zupd. apply list_insert_id. by apply znth_lookup. Qed.

#[export] Instance option_ports_inhabited : Inhabited (option Ports) := populate None.

(** ** Numbering the ports of a router *)

(** [row'] is [l] with the ports of its first [k] entries counted from [s]. *)
Record numbered (s : Z) (k : nat) (l row' : imap (Z * Z)) : Prop := {
  nu_sorted : msorted row';
  nu_some j x p lat : l !! j = Some (x, (p, lat)) → mfind x row' = Some (if (j <? k)%nat then s + Z.of_nat j else p, lat);
  nu_none x : mfind x l = None → mfind x row' = None
}.

Lemma numbered_0 s l : msorted l → numbered s 0 l l.
Proof. intros Hs. split; [done| |done]. intros j x p lat Hj. by apply mfind_at with j. Qed.

Lemma numbered_step s k l row' x p lat : msorted l → numbered s k l row' → l !! k = Some (x, (p, lat)) →
  numbered s (S k) l (mset x (s + Z.of_nat k, lat) row').
Proof.
  intros Hl [Hs Hsome Hnone] Hk. split; [by apply msorted_mset| |].
  - intros j y q lat' Hj. rewrite mfind_mset by done. case_decide as E.
    + subst y. assert (j = k) as -> by apply (msorted_at l j k x _ _ Hl Hj Hk). rewrite Hk in Hj. simplify_eq.
      by replace (k <? S k)%nat with true by (symmetry; apply Nat.ltb_lt; lia).
    + rewrite (Hsome j y q lat' Hj). assert (j ≠ k) by (intros ->; rewrite Hk in Hj; congruence).
      destruct (Nat.ltb_spec j k), (Nat.ltb_spec j (S k)); done || lia.
  - intros y Hy. rewrite mfind_mset by done. case_decide as E; [|by apply Hnone].
    subst y. by rewrite (mfind_at l k x (p, lat) Hl Hk) in Hy.
Qed.

Section wiring.
Context (net : AnyNet) (n m W : Z) (Hnet : net_ok n m W net).
Local Abbreviation nodes_of := (row (an_node net)).
Local Abbreviation links_of := (row (an_router net)).

Definition radix_of (r : Z) : Z := zlen (nodes_of r) + zlen (links_of r).

Lemma node_range r j x y : nodes_of r !! j = Some (x, y) → 0 ≤ x < m.
Proof.
  intros Hj. apply mfind_at in Hj; [|apply Hnet]. assert (mfind x (an_node_list net) = Some r) as Hx.
  { apply (no_attached _ _ _ _ Hnet). by exists y. }
  by apply (keys_range _ m 0 x r (no_nodes _ _ _ _ Hnet)).
Qed.

Lemma link_range r v x : mfind v (links_of r) = Some x → 0 ≤ r < n ∧ 0 ≤ v < n.
Proof.
  intros Hv. destruct (no_sym _ _ _ _ Hnet r v x Hv) as [y Hy].
  destruct (row_find _ _ _ _ Hv) as [l Hl], (row_find _ _ _ _ Hy) as [l' Hl'].
  split; [by apply (keys_range _ n 0 r l (no_routers _ _ _ _ Hnet))|by apply (keys_range _ n 0 v l' (no_routers _ _ _ _ Hnet))].
Qed.

Lemma set_delay_ok v c d : 0 ≤ c < zlen v → 0 < d → set_delay v c d = Ok (v⟦c := d⟧).
Proof. intros Hc Hd. unfold set_delay. rewrite vset_ok by done. cbn [mbind res_bind]. by destruct (Z.leb_spec d 0); [lia|]. Qed.

(** ** Nodes *)

Definition node_ports (r : Z) (k : nat) : Ports :=
  mkPorts (radix_of r) (Inject <$> take k ((nodes_of r).*1)) (Eject <$> take k ((nodes_of r).*1)).

(** [b] after the first [k] nodes of router [r], from [b0]. *)
Record node_inv (r : Z) (b0 : Built) (k : nat) (b : Built) : Prop := {
  ni_links : an_router (bu_net b) = an_router (bu_net b0);
  ni_list : an_node_list (bu_net b) = an_node_list (bu_net b0);
  ni_chan : bu_chan_lat b = bu_chan_lat b0;
  ni_keys : (an_node (bu_net b)).*1 = seqZ 0 n;
  ni_rows q : q ≠ r → row (an_node (bu_net b)) q = row (an_node (bu_net b0)) q;
  ni_row : numbered 0 k (nodes_of r) (row (an_node (bu_net b)) r);
  ni_out : bu_outport b = (bu_outport b0)⟦r := Z.of_nat k⟧;
  ni_routers : bu_routers b = (bu_routers b0)⟦r := Some (node_ports r k)⟧;
  ni_lat_len : zlen (bu_node_lat b) = m;
  ni_lat j x p lat : nodes_of r !! j = Some (x, (p, lat)) → (j < k)%nat → (bu_node_lat b)⟦x⟧ = lat;
  ni_lat_other x : 0 ≤ x < m → mfind x (nodes_of r) = None → (bu_node_lat b)⟦x⟧ = (bu_node_lat b0)⟦x⟧
}.

Lemma build_node_link_ok r b0 k x p lat b : 0 ≤ r < n → zlen (bu_outport b0) = n → zlen (bu_routers b0) = n →
  node_inv r b0 k b → nodes_of r !! k = Some (x, (p, lat)) → returns (build_node_link r x lat b) (node_inv r b0 (S k)).
Proof.
  intros Hr Ho Hro [E1 E2 E3 Hk Hrows Hrow Eout Ert Hll Hlat Hlo] Hx. pose proof (node_range r k x _ Hx) as Hxm.
  unfold build_node_link. rewrite vget_ok by (rewrite Eout, zlen_zupd; lia). cbn [mbind res_bind].
  rewrite (vset_ok (bu_outport b)) by (rewrite Eout, zlen_zupd; lia). cbn [mbind res_bind].
  pose proof (no_node_lat _ _ _ _ Hnet r x _ (mfind_at _ _ _ _ (no_node_row _ _ _ _ Hnet r) Hx)) as Hlp. simpl in Hlp.
  rewrite set_delay_ok by lia. cbn [mbind res_bind]. unfold add_channels.
  rewrite vget_ok by (rewrite Ert, zlen_zupd; lia). cbn [mbind res_bind].
  rewrite Ert, znth_zupd_eq by lia. rewrite vset_ok by (rewrite zlen_zupd; lia). cbn [mbind res_bind]. apply returns_ok.
  assert (msorted (an_node (bu_net b))) as Hs by by eapply keys_sorted.
  assert (((nodes_of r).*1) !! k = Some x) as Hkx by (rewrite list_lookup_fmap, Hx; done).
  split; simpl; try done.
  - destruct (keys_find _ n 0 r Hk ltac:(lia)) as [l Hl]. by rewrite (mset_same_keys _ _ l).
  - intros q Hq. rewrite row_mset, decide_False by done. by apply Hrows.
  - rewrite row_mset, decide_True by done. rewrite Eout, znth_zupd_eq by lia.
    replace (Z.of_nat k, lat) with (0 + Z.of_nat k, lat) by done. apply (numbered_step _ _ _ _ x p); [apply Hnet|done|done].
  - rewrite Eout, znth_zupd_eq, zupd_zupd by lia. f_equal. lia.
  - rewrite zupd_zupd. unfold node_ports. simpl. by rewrite (take_S_r _ _ x Hkx), !fmap_app.
  - by rewrite zlen_zupd.
  - intros j y q lat' Hj Hlt. pose proof (node_range r j y _ Hj). rewrite znth_zupd by lia. case_decide as E.
    + subst y. assert (j = k) as -> by apply (msorted_at _ j k x _ _ (no_node_row _ _ _ _ Hnet r) Hj Hx). congruence.
    + apply (Hlat j y q lat' Hj). assert (j ≠ k) by (intros ->; congruence). lia.
  - intros y Hy Hn. rewrite znth_zupd_ne; [by apply Hlo|lia|lia|].
    intros ->. by rewrite (mfind_at _ _ _ _ (no_node_row _ _ _ _ Hnet r) Hx) in Hn.
Qed.

(** [b] after the nodes of the routers below [i]. *)
Record nodes_inv (chan0 : list Z) (i : Z) (b : Built) : Prop := {
  p1_links : an_router (bu_net b) = an_router net;
  p1_list : an_node_list (bu_net b) = an_node_list net;
  p1_chan : bu_chan_lat b = chan0;
  p1_keys : (an_node (bu_net b)).*1 = seqZ 0 n;
  p1_row q : 0 ≤ q < n →
    numbered 0 (if q <? i then length (nodes_of q) else 0) (nodes_of q) (row (an_node (bu_net b)) q);
  p1_out_len : zlen (bu_outport b) = n;
  p1_out q : 0 ≤ q < n → (bu_outport b)⟦q⟧ = if q <? i then zlen (nodes_of q) else 0;
  p1_routers_len : zlen (bu_routers b) = n;
  p1_routers q : 0 ≤ q < i → (bu_routers b)⟦q⟧ = Some (node_ports q (length (nodes_of q)));
  p1_lat_len : zlen (bu_node_lat b) = m;
  p1_lat q j x p lat : 0 ≤ q < i → nodes_of q !! j = Some (x, (p, lat)) → (bu_node_lat b)⟦x⟧ = lat
}.

Lemma nodes_inv_next chan0 i b b' : 0 ≤ i < n → nodes_inv chan0 i b →
  node_inv i (mkBuilt (bu_net b) (bu_outport b) ((bu_routers b)⟦i := Some (node_ports i 0)⟧) (bu_node_lat b) (bu_chan_lat b))
    (length (nodes_of i)) b' → nodes_inv chan0 (i + 1) b'.
Proof.
  intros Hi [E1 E2 E3 Hk Hrow Hol Ho Hrl Hr Hll Hl] [F1 F2 F3 G Grows Grow Go Gr Gll Gl Glo]. simpl in *.
  split; try congruence.
  - intros q Hq. destruct (Z.ltb_spec q (i + 1)) as [Hlt|Hge].
    + destruct (decide (q = i)) as [->|Hne]; [done|]. rewrite (Grows q Hne). specialize (Hrow q Hq).
      by destruct (Z.ltb_spec q i); [|lia].
    + rewrite (Grows q ltac:(lia)). specialize (Hrow q Hq). by destruct (Z.ltb_spec q i); [lia|].
  - rewrite Go, zlen_zupd. done.
  - intros q Hq. rewrite Go, znth_zupd by lia. case_decide as E.
    + subst q. by destruct (Z.ltb_spec i (i + 1)); [|lia].
    + rewrite (Ho q Hq). destruct (Z.ltb_spec q i), (Z.ltb_spec q (i + 1)); done || lia.
  - rewrite Gr, !zlen_zupd. done.
  - intros q Hq. rewrite Gr, zupd_zupd, znth_zupd by lia. case_decide as E; [by subst q|]. apply Hr. lia.
  - intros q j x p lat Hq Hx. destruct (decide (q = i)) as [->|Hne]; [by apply (Gl j x p lat Hx); apply lookup_lt_Some in Hx|].
    rewrite Glo; [apply (Hl q j x p lat); [lia|done]|by apply (node_range q j x _ Hx)|].
    destruct (mfind x (nodes_of i)) as [y|] eqn:E; [|done]. exfalso. apply Hne.
    assert (mfind x (an_node_list net) = Some q) by (apply (no_attached _ _ _ _ Hnet); eexists; by apply (mfind_at _ j); [apply Hnet|]).
    assert (mfind x (an_node_list net) = Some i) by (apply (no_attached _ _ _ _ Hnet); by exists y). congruence.
Qed.

Lemma build_nodes_ok chan0 i b : 0 ≤ i < n → nodes_inv chan0 i b →
  returns (build_nodes (an_router net) i (nodes_of i) b) (nodes_inv chan0 (i + 1)).
Proof.
  intros Hi HI. unfold build_nodes. destruct (keys_find _ n 0 i (no_routers _ _ _ _ Hnet) ltac:(lia)) as [l El].
  rewrite El. rewrite vset_ok by (rewrite (p1_routers_len _ _ _ HI); lia). cbn [mbind res_bind].
  set (b0 := mkBuilt _ _ _ _ _). assert (b0 = mkBuilt (bu_net b) (bu_outport b)
    ((bu_routers b)⟦i := Some (node_ports i 0)⟧) (bu_node_lat b) (bu_chan_lat b)) as Eb.
  { assert (links_of i = l) as Er by (unfold row; by rewrite El). unfold b0, node_ports, radix_of. by rewrite Er. }
  clearbody b0. subst b0. eapply returns_mono; [|intros b' Hb'; by apply (nodes_inv_next chan0 i b b' Hi HI Hb')].
  apply returns_foldl_at.
  - split; simpl; try done.
    + apply HI.
    + pose proof (p1_row _ _ _ HI i ltac:(lia)) as H. by rewrite Z.ltb_irrefl in H.
    + rewrite zupd_id; [done|rewrite (p1_out_len _ _ _ HI); lia|]. rewrite (p1_out _ _ _ HI i) by lia. by rewrite Z.ltb_irrefl.
    + by rewrite zupd_zupd.
    + apply HI.
    + lia.
  - intros k [x [p lat]] b' Hx HI'. apply (build_node_link_ok i _ k x p lat); simpl; try done.
    + apply HI.
    + rewrite zlen_zupd. apply HI.
Qed.

Lemma all_nodes_ok chan0 :
  returns (foldl (λ m x, b ← m; build_nodes (an_router net) x.1 x.2 b)
    (Ok (mkBuilt net (replicate (Z.to_nat n) 0) (replicate (Z.to_nat n) None) (replicate (Z.to_nat m) 1) chan0)) (an_node net))
    (nodes_inv chan0 n).
Proof.
  pose proof (no_n _ _ _ _ Hnet). pose proof (no_m _ _ _ _ Hnet).
  assert (Z.of_nat (length (an_node net)) = n) as Hlen.
  { rewrite <- (length_fmap fst), (no_heads _ _ _ _ Hnet), length_seqZ. lia. }
  eapply returns_mono; [apply (returns_foldl_at (λ k, nodes_inv chan0 (Z.of_nat k)))|].
  - change (Z.of_nat 0) with 0. split; simpl; try done.
    + apply Hnet.
    + intros q Hq. destruct (Z.ltb_spec q 0); [lia|]. by apply numbered_0, Hnet.
    + by apply zlen_replicate.
    + intros q Hq. rewrite znth_replicate by done. by destruct (Z.ltb_spec q 0); [lia|].
    + by apply zlen_replicate.
    + lia.
    + by apply zlen_replicate.
    + lia.
  - intros k [r l] b Hk HI. pose proof (keys_at _ n 0 k r l (no_heads _ _ _ _ Hnet) Hk) as ->. rewrite Z.add_0_l in *.
    apply mfind_at in Hk; [|eapply keys_sorted, Hnet]. simpl in *. destruct (keys_range _ n 0 _ _ (no_heads _ _ _ _ Hnet) Hk).
    replace (Z.of_nat (S k)) with (Z.of_nat k + 1) by lia. replace l with (nodes_of (Z.of_nat k)) by (unfold row; by rewrite Hk).
    apply build_nodes_ok; [lia|done].
  - simpl. by rewrite Hlen.
Qed.

(** ** Links *)

(** The number of the first channel out of router [r]. *)
Definition base (r : Z) : Z := zsumf (λ q, zlen (links_of q)) r.

Lemma base_succ r : 0 ≤ r → base (r + 1) = base r + zlen (links_of r).
Proof. intros. by apply zsumf_snoc. Qed.

Lemma base_mono a b : 0 ≤ a ≤ b → base a ≤ base b.
Proof.
  intros Hab. replace b with (a + Z.of_nat (Z.to_nat (b - a))) by lia. induction (Z.to_nat (b - a)) as [|d IH]; [by rewrite Z.add_0_r|].
  replace (a + Z.of_nat (S d)) with (a + Z.of_nat d + 1) by lia. rewrite base_succ by lia.
  pose proof (zlen_nonneg (links_of (a + Z.of_nat d))). lia.
Qed.

Lemma base_lt q i j : 0 ≤ q < i → 0 ≤ j < zlen (links_of q) → base q + j < base i.
Proof. intros Hq Hj. pose proof (base_mono (q + 1) i ltac:(lia)). rewrite base_succ in * by lia. lia. Qed.

(** The position of router [v] among the links of [u]. *)
Definition pos (u v : Z) : option nat := fst <$> list_find (λ x : Z * (Z * Z), x.1 = v) (links_of u).

Lemma pos_some u v j : pos u v = Some j ↔ ∃ x, links_of u !! j = Some (v, x).
Proof.
  unfold pos. split.
  - intros ([j' [v' x]] & [Hj [E _]]%list_find_Some & ->)%fmap_Some. simpl in *. subst v'. by exists x.
  - intros [x Hj]. destruct (list_find (λ x : Z * (Z * Z), x.1 = v) (links_of u)) as [[j' [v' y]]|] eqn:E; simpl.
    + apply list_find_Some in E as (Hj' & Ev & _). simpl in Ev. subst v'. f_equal.
      apply (msorted_at _ _ _ _ _ _ (no_link_row _ _ _ _ Hnet u) Hj' Hj).
    + apply list_find_None in E. rewrite Forall_forall in E. destruct (E (v, x)); [|done]. by apply list_elem_of_lookup_2 with j.
Qed.

(** The channels into [q] from the routers below [i], and from the first [k]
    links of [i]. *)
Definition arrivals (q i : Z) : list chan_id :=
  omap (λ u, (λ j, Chan (base u + Z.of_nat j)) <$> pos u q) (seqZ 0 i).
Definition partial (q i : Z) (k : nat) : list chan_id :=
  match pos i q with Some j => if (j <? k)%nat then [Chan (base i + Z.of_nat j)] else [] | None => [] end.

Lemma arrivals_succ q i : 0 ≤ i → arrivals q (i + 1) = arrivals q i ++ partial q i (length (links_of i)).
Proof.
  intros Hi. unfold arrivals, partial. rewrite seqZ_app, omap_app by lia. f_equal. rewrite Z.add_0_l, seqZ_cons by lia. simpl.
  destruct (pos i q) as [j|] eqn:E; simpl; [|done]. apply pos_some in E as [x E]. apply lookup_lt_Some in E.
  destruct (Nat.ltb_spec j (length (links_of i))); [done|lia].
Qed.

(** How many links of [q] are built, and the ports of [q] then. *)
Definition built (i : Z) (k : nat) (q : Z) : nat :=
  if q <? i then length (links_of q) else if q =? i then k else 0%nat.

Definition ports_at (i : Z) (k : nat) (q : Z) : Ports :=
  mkPorts (radix_of q) ((Inject <$> (nodes_of q).*1) ++ arrivals q i ++ partial q i k)
    ((Eject <$> (nodes_of q).*1) ++ (Chan <$> seqZ (base q) (Z.of_nat (built i k q)))).

Record links_inv (b1 : Built) (i : Z) (k : nat) (s : Built * Z) : Prop := {
  p2_count : s.2 = base i + Z.of_nat k;
  p2_nodes : an_node (bu_net s.1) = an_node (bu_net b1);
  p2_list : an_node_list (bu_net s.1) = an_node_list net;
  p2_node_lat : bu_node_lat s.1 = bu_node_lat b1;
  p2_keys : (an_router (bu_net s.1)).*1 = seqZ 0 n;
  p2_row q : 0 ≤ q < n → numbered (zlen (nodes_of q)) (built i k q) (links_of q) (row (an_router (bu_net s.1)) q);
  p2_out_len : zlen (bu_outport s.1) = n;
  p2_out q : 0 ≤ q < n → (bu_outport s.1)⟦q⟧ = zlen (nodes_of q) + Z.of_nat (built i k q);
  p2_routers_len : zlen (bu_routers s.1) = n;
  p2_routers q : 0 ≤ q < n → (bu_routers s.1)⟦q⟧ = Some (ports_at i k q);
  p2_chan_len : zlen (bu_chan_lat s.1) = base n;
  p2_chan q j v p lat : 0 ≤ q < n → links_of q !! j = Some (v, (p, lat)) → (j < built i k q)%nat →
    (bu_chan_lat s.1)⟦base q + Z.of_nat j⟧ = lat
}.

Lemma add_channels_ok routers r p ins outs : 0 ≤ r < zlen routers → routers⟦r⟧ = Some p →
  add_channels routers r ins outs = Ok (routers⟦r := Some (mkPorts (po_radix p) (po_inputs p ++ ins) (po_outputs p ++ outs))⟧).
Proof. intros Hr E. unfold add_channels. rewrite vget_ok, E by done. cbn [mbind res_bind]. by rewrite vset_ok. Qed.

Lemma built_self i k : built i k i = k.
Proof. unfold built. by rewrite Z.ltb_irrefl, Z.eqb_refl. Qed.

Lemma built_other i k k' q : q ≠ i → built i k q = built i k' q.
Proof. intros Hq. unfold built. by destruct (Z.eqb_spec q i). Qed.

Lemma partial_step q i k v x : links_of i !! k = Some (v, x) →
  partial q i (S k) = partial q i k ++ if decide (q = v) then [Chan (base i + Z.of_nat k)] else [].
Proof.
  intros Hk. unfold partial. destruct (pos i q) as [j|] eqn:E.
  - apply pos_some in E as [y Hj]. case_decide as Eq.
    + subst q. assert (j = k) as -> by apply (msorted_at _ _ _ _ _ _ (no_link_row _ _ _ _ Hnet i) Hj Hk).
      by rewrite Nat.ltb_irrefl, (proj2 (Nat.ltb_lt k (S k))) by lia.
    + assert (j ≠ k) by (intros ->; congruence). rewrite app_nil_r.
      destruct (Nat.ltb_spec j (S k)), (Nat.ltb_spec j k); done || lia.
  - case_decide as Eq; [|done]. subst q. assert (pos i v = Some k) by (apply pos_some; by exists x). congruence.
Qed.

Lemma ports_step i k v x q : 0 ≤ i → links_of i !! k = Some (v, x) →
  ports_at i (S k) q = mkPorts (radix_of q)
    (po_inputs (ports_at i k q) ++ if decide (q = v) then [Chan (base i + Z.of_nat k)] else [])
    (po_outputs (ports_at i k q) ++ if decide (q = i) then [Chan (base i + Z.of_nat k)] else []).
Proof.
  intros Hi Hk. unfold ports_at. simpl. rewrite (partial_step q i k v x Hk), <- !app_assoc. do 2 f_equal.
  case_decide as E; [subst q|by rewrite app_nil_r, (built_other i k (S k) q)]. rewrite !built_self.
  replace (Z.of_nat (S k)) with (Z.of_nat k + 1) by lia. rewrite seqZ_app, fmap_app by lia. f_equal.
Qed.

Lemma link_step b1 i k s v p lat : 0 ≤ i < n → links_inv b1 i k s → links_of i !! k = Some (v, (p, lat)) →
  returns (build_router_link i v lat s) (links_inv b1 i (S k)).
Proof.
  intros Hi [Ec E1 E2 E3 Hk Hrow Hol Ho Hrl Hr Hcl Hc] Hx. destruct s as [b c]. simpl in *. subst c.
  assert (0 ≤ v < n) as Hv by (eapply link_range, (mfind_at _ _ _ _ (no_link_row _ _ _ _ Hnet i) Hx)).
  pose proof (lookup_lt_Some _ _ _ Hx) as Hlt.
  assert (0 ≤ base i + Z.of_nat k < base n) as Hcr.
  { split; [pose proof (base_mono 0 i ltac:(lia)) as H; change (base 0) with 0 in H; lia|].
    apply base_lt; unfold zlen; lia. }
  unfold build_router_link. rewrite vget_ok by lia. cbn [mbind res_bind].
  pose proof (no_lat _ _ _ _ Hnet i v _ (mfind_at _ _ _ _ (no_link_row _ _ _ _ Hnet i) Hx)) as Hlp. simpl in Hlp.
  rewrite (vset_ok (bu_outport b)) by lia. cbn [mbind res_bind]. rewrite set_delay_ok by lia. cbn [mbind res_bind].
  rewrite (add_channels_ok _ i (ports_at i k i)) by (lia || by apply Hr). cbn [mbind res_bind].
  rewrite (add_channels_ok _ v (mkPorts (radix_of v) (po_inputs (ports_at i k v))
    (po_outputs (ports_at i k v) ++ if decide (v = i) then [Chan (base i + Z.of_nat k)] else []))).
  2: rewrite zlen_zupd; lia.
  2: { rewrite znth_zupd by lia. case_decide as E; [subst v; by rewrite decide_True, app_nil_r|].
       rewrite decide_False, app_nil_r by congruence. by apply Hr. }
  cbn [mbind res_bind]. apply returns_ok. assert (msorted (an_router (bu_net b))) as Hs by by eapply keys_sorted.
  split; simpl; try done; rewrite ?zlen_zupd; try done.
  - lia.
  - destruct (keys_find _ n 0 i Hk ltac:(lia)) as [l Hl]. by rewrite (mset_same_keys _ _ l).
  - intros q Hq. rewrite row_mset by done. case_decide as E; [subst q|rewrite (built_other i (S k) k) by done; by apply Hrow].
    specialize (Hrow i Hi). rewrite built_self in Hrow. rewrite (Ho i Hi), !built_self. by apply (numbered_step _ _ _ _ v p); [apply Hnet|..].
  - intros q Hq. rewrite znth_zupd by lia. case_decide as E; [subst q; rewrite (Ho i Hi), !built_self; lia|].
    by rewrite (Ho q Hq), (built_other i (S k) k).
  - intros q Hq. rewrite (ports_step i k v _ q ltac:(lia) Hx). rewrite znth_zupd by (rewrite ?zlen_zupd; lia). case_decide as E.
    + subst q. by rewrite (decide_True (P := v = v)), app_nil_r by done.
    + rewrite znth_zupd by lia. rewrite (decide_False (P := q = v)), app_nil_r by congruence. case_decide as E2'.
      * subst q. by rewrite decide_True, app_nil_r by done.
      * rewrite (decide_False (P := q = i)), app_nil_r by congruence. rewrite app_nil_r. by apply Hr.
  - intros q j v' p' lat' Hq Hj Hb. pose proof (lookup_lt_Some _ _ _ Hj).
    assert (0 ≤ base q) by (apply (base_mono 0 q); lia). rewrite znth_zupd by lia. case_decide as E.
    + destruct (decide (q = i)) as [->|Hne]; [assert (j = k) as -> by lia; congruence|].
      rewrite (built_other i (S k) k) in Hb by done. unfold built in Hb. destruct (Z.ltb_spec q i) as [Hqi|].
      * pose proof (base_lt q i (Z.of_nat j) ltac:(lia) ltac:(unfold zlen; lia)). lia.
      * destruct (Z.eqb_spec q i); lia.
    + apply (Hc q j v' p' lat'); try done. destruct (decide (q = i)) as [->|Hne]; [|by rewrite (built_other i k (S k))].
      rewrite built_self in *. assert (j ≠ k) by (intros ->; done). lia.
Qed.

Lemma built_next i q : built (i + 1) 0 q = built i (length (links_of i)) q.
Proof.
  unfold built. destruct (Z.ltb_spec q (i + 1)), (Z.ltb_spec q i), (Z.eqb_spec q i), (Z.eqb_spec q (i + 1)); subst; done || lia.
Qed.

Lemma partial_0 q i : partial q i 0 = [].
Proof. unfold partial. by destruct (pos i q). Qed.

Lemma ports_next i q : 0 ≤ i → ports_at (i + 1) 0 q = ports_at i (length (links_of i)) q.
Proof. intros Hi. unfold ports_at. by rewrite built_next, partial_0, app_nil_r, arrivals_succ. Qed.

Lemma links_next b1 i s : 0 ≤ i < n → links_inv b1 i (length (links_of i)) s → links_inv b1 (i + 1) 0 s.
Proof.
  intros Hi [Ec E1 E2 E3 Hk Hrow Hol Ho Hrl Hr Hcl Hc]. split; try done.
  - rewrite Ec, base_succ by lia. unfold zlen. lia.
  - intros q Hq. rewrite built_next. by apply Hrow.
  - intros q Hq. rewrite built_next. by apply Ho.
  - intros q Hq. rewrite ports_next by lia. by apply Hr.
  - intros q j v p lat Hq Hj. rewrite built_next. by apply (Hc q j v p lat).
Qed.

Lemma build_links_ok b1 i s : 0 ≤ i < n → links_inv b1 i 0 s →
  returns (build_links (an_router net) i s) (links_inv b1 (i + 1) 0).
Proof.
  intros Hi HI. unfold build_links. destruct (keys_find _ n 0 i (no_routers _ _ _ _ Hnet) ltac:(lia)) as [l El].
  rewrite El. assert (links_of i = l) as Er by (unfold row; by rewrite El). rewrite <- Er.
  eapply returns_mono; [apply (returns_foldl_at (links_inv b1 i)); [done|]|intros s' Hs'; by apply links_next].
  intros k [v [p lat]] s' Hk HI'. by apply (link_step b1 i k s' v p lat).
Qed.

Lemma all_links_ok chan0 b1 : zlen chan0 = base n → nodes_inv chan0 n b1 →
  returns (foldl (λ m x, s ← m; build_links (an_router net) x.1 s) (Ok (b1, 0)) (an_node net)) (links_inv b1 n 0).
Proof.
  intros Hc0 [E1 E2 E3 Hk Hrow Hol Ho Hrl Hr Hll Hl]. pose proof (no_n _ _ _ _ Hnet).
  assert (Z.of_nat (length (an_node net)) = n) as Hlen.
  { rewrite <- (length_fmap fst), (no_heads _ _ _ _ Hnet), length_seqZ. lia. }
  assert (∀ q, 0 ≤ q < n → built 0 0 q = 0%nat) as Hb.
  { intros q Hq. unfold built. destruct (Z.ltb_spec q 0); [lia|]. by destruct (q =? 0). }
  eapply returns_mono; [apply (returns_foldl_at (λ k, links_inv b1 (Z.of_nat k) 0))|].
  - change (Z.of_nat 0) with 0. split; simpl; try done.
    + rewrite E1. apply Hnet.
    + intros q Hq. rewrite E1, Hb by done. apply numbered_0, Hnet.
    + intros q Hq. rewrite Ho, Hb by done. destruct (Z.ltb_spec q n); lia.
    + intros q Hq. rewrite Hr by done. unfold node_ports, ports_at. rewrite partial_0, Hb, !app_nil_r by done.
      rewrite firstn_all2 by (rewrite length_fmap; lia). done.
    + by rewrite E3.
    + intros q j v p lat Hq _. rewrite Hb by done. lia.
  - intros k [r l] s Hk' HI. pose proof (keys_at _ n 0 k r l (no_heads _ _ _ _ Hnet) Hk') as ->. rewrite Z.add_0_l in *.
    apply mfind_at in Hk'; [|eapply keys_sorted, Hnet]. simpl in *. destruct (keys_range _ n 0 _ _ (no_heads _ _ _ _ Hnet) Hk').
    replace (Z.of_nat (S k)) with (Z.of_nat k + 1) by lia. apply build_links_ok; [lia|done].
  - simpl. by rewrite Hlen.
Qed.

(** ** The result *)

Lemma pos_find u v : is_Some (pos u v) ↔ is_Some (mfind v (links_of u)).
Proof.
  split.
  - intros [j [x Hj]%pos_some]. exists x. apply mfind_at with j; [apply Hnet|done].
  - intros [x Hx]. apply elem_mfind in Hx; [|apply Hnet]. apply list_elem_of_lookup_1 in Hx as [j Hj].
    exists j. apply pos_some. by exists x.
Qed.

Lemma elem_arrivals v c : Chan c ∈ arrivals v n ↔
  ∃ u j x, 0 ≤ u < n ∧ links_of u !! j = Some (v, x) ∧ c = base u + Z.of_nat j.
Proof.
  unfold arrivals. rewrite list_elem_of_omap. split.
  - intros (u & Hu%elem_of_seqZ & (j & [x Hj]%pos_some & [= ->])%fmap_Some). exists u, j, x. split_and!; [lia|lia|done|done].
  - intros (u & j & x & Hu & Hj & ->). exists u. split; [apply elem_of_seqZ; lia|].
    assert (pos u v = Some j) as -> by (apply pos_some; by exists x). done.
Qed.

Lemma channel_source u u' j j' : 0 ≤ u < n → 0 ≤ u' < n → 0 ≤ j < zlen (links_of u) → 0 ≤ j' < zlen (links_of u') →
  base u + j = base u' + j' → u = u' ∧ j = j'.
Proof.
  intros Hu Hu' Hj Hj' E. assert (u = u') as ->; [|lia].
  destruct (decide (u < u')); [pose proof (base_lt u u' j ltac:(lia) Hj); lia|].
  destruct (decide (u' < u)); [pose proof (base_lt u' u j' ltac:(lia) Hj'); lia|lia].
Qed.

Lemma NoDup_keys {X} (l : imap X) : msorted l → NoDup (l.*1).
Proof.
  induction 1 as [|[k x] l Hs IH Hl]; simpl; constructor; [|done]. intros ([k' y] & -> & Hy)%list_elem_of_fmap.
  rewrite Forall_forall in Hl. specialize (Hl _ Hy). simpl in Hl. lia.
Qed.

Lemma length_arrivals v : 0 ≤ v < n → zlen (arrivals v n) = zlen (links_of v).
Proof.
  intros Hv. unfold zlen, arrivals. f_equal. rewrite <- (length_fmap fst (links_of v)).
  transitivity (length (filter (λ u, is_Some (pos u v)) (seqZ 0 n))).
  - generalize (seqZ 0 n). induction l as [|u l IH]; [done|]. simpl. rewrite filter_cons.
    destruct (pos u v) as [j|]; simpl; [f_equal|]; exact IH.
  - apply Permutation_length, NoDup_Permutation.
    + apply NoDup_filter, NoDup_seqZ.
    + apply NoDup_keys, Hnet.
    + intros u. rewrite list_elem_of_filter, elem_of_seqZ, pos_find, list_elem_of_fmap. split.
      * intros [[x Hx] Hu]. destruct (no_sym _ _ _ _ Hnet u v x Hx) as [y Hy]. exists (u, y). split; [done|].
        by apply elem_mfind; [apply Hnet|].
      * intros ([u' y] & -> & Hy). apply elem_mfind in Hy; [|apply Hnet].
        destruct (no_sym _ _ _ _ Hnet v u' y Hy) as [x Hx]. pose proof (link_range u' v x Hx). simpl. split; [by exists x|lia].
Qed.
End wiring.

(** What the built network [b] has of the description [net]: every router gets
    as many inputs and outputs as it was made for; the port that the description
    records for a node ejects to it; the port it records for a link is a channel
    of the link's latency into the right router; and a channel has one sink. *)
Record wiring_ok (net : AnyNet) (n : Z) (b : Built) : Prop := {
  wo_radix r : 0 ≤ r < n → ∃ p, (bu_routers b)⟦r⟧ = Some p ∧ zlen (po_inputs p) = po_radix p ∧ zlen (po_outputs p) = po_radix p;
  wo_node r x y : 0 ≤ r < n → mfind x (row (an_node net) r) = Some y → ∃ port p,
    mfind x (row (an_node (bu_net b)) r) = Some (port, y.2) ∧ (bu_routers b)⟦r⟧ = Some p ∧ 0 ≤ port ∧
    po_outputs p !! Z.to_nat port = Some (Eject x) ∧ Inject x ∈ po_inputs p ∧ (bu_node_lat b)⟦x⟧ = y.2;
  wo_no_node r x : 0 ≤ r < n → mfind x (row (an_node net) r) = None → mfind x (row (an_node (bu_net b)) r) = None;
  wo_link u v y : mfind v (row (an_router net) u) = Some y → ∃ port c pu pv,
    mfind v (row (an_router (bu_net b)) u) = Some (port, y.2) ∧ (bu_routers b)⟦u⟧ = Some pu ∧ (bu_routers b)⟦v⟧ = Some pv ∧
    0 ≤ port ∧ po_outputs pu !! Z.to_nat port = Some (Chan c) ∧ Chan c ∈ po_inputs pv ∧ (bu_chan_lat b)⟦c⟧ = y.2;
  wo_no_link u v : 0 ≤ u < n → mfind v (row (an_router net) u) = None → mfind v (row (an_router (bu_net b)) u) = None;
  wo_sink c u v pu pv : 0 ≤ u < n → 0 ≤ v < n → (bu_routers b)⟦u⟧ = Some pu → (bu_routers b)⟦v⟧ = Some pv →
    Chan c ∈ po_inputs pu → Chan c ∈ po_inputs pv → u = v
}.

Section result.
Context (net : AnyNet) (n m W : Z) (Hnet : net_ok n m W net).
Local Abbreviation nodes_of := (row (an_node net)).
Local Abbreviation links_of := (row (an_router net)).

Lemma mfind_index {X} (l : imap X) k x : msorted l → mfind k l = Some x → ∃ j, l !! j = Some (k, x).
Proof. intros Hs Hf. apply elem_mfind in Hf; [|done]. by apply list_elem_of_lookup_1. Qed.

Lemma built_all q : 0 ≤ q < n → built net n 0 q = length (links_of q).
Proof. intros Hq. unfold built. by destruct (Z.ltb_spec q n); [|lia]. Qed.

Lemma final_ports b1 b c q : links_inv net n b1 n 0 (b, c) → 0 ≤ q < n → (bu_routers b)⟦q⟧ = Some (mkPorts (radix_of net q)
  ((Inject <$> (nodes_of q).*1) ++ arrivals net q n) ((Eject <$> (nodes_of q).*1) ++ (Chan <$> seqZ (base net q) (zlen (links_of q))))).
Proof.
  intros HI Hq. rewrite (p2_routers _ _ _ _ _ _ HI q Hq : (bu_routers b)⟦q⟧ = _). unfold ports_at.
  by rewrite partial_0, app_nil_r, built_all.
Qed.

Lemma elem_inputs c (xs : list Z) l : Chan c ∈ (Inject <$> xs) ++ l ↔ Chan c ∈ l.
Proof. rewrite elem_of_app, list_elem_of_fmap. split; [by intros [(x & ? & _)|?]|by right]. Qed.

Lemma built_wiring chan0 b1 b c : nodes_inv net n m chan0 n b1 → links_inv net n b1 n 0 (b, c) → wiring_ok net n b.
Proof.
  intros H1 H2. pose proof (final_ports b1 b c) as Hp.
  assert (∀ q x, zlen (nodes_of q) = x → zlen ((nodes_of q).*1) = x) as Hkeys by (intros q x <-; apply zlen_fmap).
  split.
  - intros r Hr. rewrite (Hp r H2 Hr). eexists. split; [done|]. unfold radix_of. simpl.
    unfold zlen. rewrite !length_app, !length_fmap, length_seqZ. pose proof (length_arrivals net n m W Hnet r Hr) as E.
    unfold zlen in *. lia.
  - intros r x [p lat] Hr Hx. destruct (mfind_index _ _ _ (no_node_row _ _ _ _ Hnet r) Hx) as [j Hj].
    pose proof (lookup_lt_Some _ _ _ Hj) as Hlt. exists (Z.of_nat j). rewrite (Hp r H2 Hr). eexists. split_and!; [|done|lia|..].
    + rewrite (p2_nodes _ _ _ _ _ _ H2 : an_node (bu_net b) = _).
      rewrite (nu_some _ _ _ _ (p1_row _ _ _ _ _ _ H1 r Hr) j x p lat Hj).
      destruct (Z.ltb_spec r n); [|lia]. by destruct (Nat.ltb_spec j (length (nodes_of r))); [|lia].
    + simpl. rewrite Nat2Z.id, lookup_app_l by (rewrite !length_fmap; lia). by rewrite !list_lookup_fmap, Hj.
    + simpl. apply elem_of_app. left. apply list_elem_of_fmap. exists x. split; [done|].
      apply list_elem_of_fmap. exists (x, (p, lat)). split; [done|]. by apply list_elem_of_lookup_2 with j.
    + rewrite (p2_node_lat _ _ _ _ _ _ H2 : bu_node_lat b = _). by apply (p1_lat _ _ _ _ _ _ H1 r j x p lat).
  - intros r x Hr Hx. rewrite (p2_nodes _ _ _ _ _ _ H2 : an_node (bu_net b) = _). by apply (nu_none _ _ _ _ (p1_row _ _ _ _ _ _ H1 r Hr)).
  - intros u v [p lat] Hv. destruct (mfind_index _ _ _ (no_link_row _ _ _ _ Hnet u) Hv) as [j Hj].
    pose proof (lookup_lt_Some _ _ _ Hj) as Hlt. destruct (link_range net n m W Hnet u v _ Hv) as [Hu Hv'].
    exists (zlen (nodes_of u) + Z.of_nat j), (base net u + Z.of_nat j). rewrite (Hp u H2 Hu), (Hp v H2 Hv').
    eexists _, _. split_and!; [|done|done|unfold zlen; lia|..].
    + rewrite (nu_some _ _ _ _ (p2_row _ _ _ _ _ _ H2 u Hu) j v p lat Hj : mfind v (row (an_router (bu_net b)) u) = _). rewrite built_all by done.
      by destruct (Nat.ltb_spec j (length (links_of u))); [|lia].
    + simpl. unfold zlen. rewrite <- Nat2Z.inj_add, Nat2Z.id, lookup_app_r by (rewrite !length_fmap; lia).
      rewrite !length_fmap, list_lookup_fmap. replace (length (nodes_of u) + j - length (nodes_of u))%nat with j by lia.
      by rewrite lookup_seqZ_lt by lia.
    + simpl. apply elem_inputs, (elem_arrivals net n m W Hnet). by exists u, j, (p, lat).
    + apply (p2_chan _ _ _ _ _ _ H2 u j v p lat); [done|done|]. by rewrite built_all.
  - intros u v Hu Hv. by apply (nu_none _ _ _ _ (p2_row _ _ _ _ _ _ H2 u Hu)).
  - intros ch u v pu pv Hu Hv. rewrite (Hp u H2 Hu), (Hp v H2 Hv). intros [= <-] [= <-]. simpl.
    rewrite !elem_inputs, !(elem_arrivals net n m W Hnet). intros (x & j & y & Hx & Hj & ->) (x' & j' & y' & Hx' & Hj' & E).
    destruct (channel_source net n x x' (Z.of_nat j) (Z.of_nat j') Hx Hx') as [-> E']; [..|done|].
    + apply lookup_lt_Some in Hj. unfold zlen. lia.
    + apply lookup_lt_Some in Hj'. unfold zlen. lia.
    + apply Nat2Z.inj in E' as ->. rewrite Hj in Hj'. congruence.
Qed.
End result.

(** ** The channels of a router *)

Section wires.
Context (net : AnyNet) (n m W : Z) (Hnet : net_ok n m W net).
Local Abbreviation nodes_of := (row (an_node net)).
Local Abbreviation links_of := (row (an_router net)).

Definition any_inputs (r : Z) : list chan_id := (Inject <$> (nodes_of r).*1) ++ arrivals net r n.
Definition any_outputs (r : Z) : list chan_id := (Eject <$> (nodes_of r).*1) ++ (Chan <$> seqZ (base net r) (zlen (links_of r))).

Lemma node_at_router x r : x ∈ (nodes_of r).*1 ↔ mfind x (an_node_list net) = Some r.
Proof.
  rewrite <- (no_attached _ _ _ _ Hnet r x), list_elem_of_fmap. split.
  - intros ([x' y] & -> & Hx). exists y. apply elem_mfind; [apply Hnet|done].
  - intros [y Hy]. exists (x, y). split; [done|]. apply elem_mfind; [apply Hnet|done].
Qed.

Lemma elem_any_inputs c r : c ∈ any_inputs r ↔ match c with
  | Inject x => mfind x (an_node_list net) = Some r
  | Chan k => ∃ u j x, 0 ≤ u < n ∧ links_of u !! j = Some (r, x) ∧ k = base net u + Z.of_nat j
  | Eject _ => False
  end.
Proof.
  unfold any_inputs. rewrite elem_of_app, list_elem_of_fmap. destruct c as [k|x|x].
  - rewrite <- (elem_arrivals net n m W Hnet). split; [by intros [(y & ? & _)|?]|by right].
  - rewrite <- node_at_router. split; [intros [(y & [= ->] & Hy)|Hx]; [done|]|left; by exists x]. apply list_elem_of_omap in Hx as (u & _ & Hx). by apply fmap_Some in Hx as (? & _ & ?).
  - split; [intros [(y & ? & _)|Hx]; [done|]|done]. apply list_elem_of_omap in Hx as (u & _ & Hx). by apply fmap_Some in Hx as (? & _ & ?).
Qed.

Lemma elem_any_outputs c r : c ∈ any_outputs r ↔ match c with
  | Eject x => mfind x (an_node_list net) = Some r
  | Chan k => base net r ≤ k < base net r + zlen (links_of r)
  | Inject _ => False
  end.
Proof.
  unfold any_outputs. rewrite elem_of_app, !list_elem_of_fmap. destruct c as [k|x|x].
  - split; [intros [(y & Hy & _)|(y & [= ->] & Hy)]; [done|by apply elem_of_seqZ]|]. intros Hk. right. exists k. split; [done|by apply elem_of_seqZ].
  - split; [by intros [(y & ? & _)|(y & ? & _)]|done].
  - rewrite <- node_at_router. split; [intros [(y & [= ->] & Hy)|(y & ? & _)]; done|left; by exists x].
Qed.

Lemma NoDup_arrivals r i : 0 ≤ i ≤ n → NoDup (arrivals net r i).
Proof.
  intros Hi. assert (∀ i, 0 ≤ i → i ≤ n → NoDup (arrivals net r i)) as Hall; [|apply Hall; lia]. clear i Hi. intros i Hi. pattern i. apply zsumf_ind; [intros _; constructor| |done]. clear i Hi.
  intros i Hi IH Hn. rewrite (arrivals_succ net n m W Hnet) by done. apply NoDup_app. split_and!; [apply IH; lia| |].
  - intros c Hc Hp. apply list_elem_of_omap in Hc as (u & Hu%elem_of_seqZ & (j & [x Hj]%(pos_some net n m W Hnet) & ->)%fmap_Some). unfold partial in Hp. destruct (pos net i r) as [j'|] eqn:E; [|by apply elem_of_nil in Hp].
    apply (pos_some net n m W Hnet) in E as [x' Hj']. destruct (_ <? _)%nat; [|by apply elem_of_nil in Hp]. apply list_elem_of_singleton in Hp as [= E].
    apply lookup_lt_Some in Hj, Hj'. destruct (channel_source net n u i (Z.of_nat j) (Z.of_nat j')); unfold zlen; lia.
  - unfold partial. destruct (pos net i r); [|constructor]. destruct (_ <? _)%nat; [apply NoDup_singleton|constructor].
Qed.

Lemma any_inputs_once r : NoDup (any_inputs r).
Proof.
  apply NoDup_app. split_and!.
  - apply NoDup_fmap_2; [by intros ? ? [= ->]|]. apply NoDup_keys, Hnet.
  - intros c (x & -> & _)%list_elem_of_fmap Hx. apply list_elem_of_omap in Hx as (u & _ & Hx). by apply fmap_Some in Hx as (? & _ & ?).
  - apply NoDup_arrivals. pose proof (no_n _ _ _ _ Hnet). lia.
Qed.

Lemma any_outputs_once r : NoDup (any_outputs r).
Proof.
  apply NoDup_app. split_and!.
  - apply NoDup_fmap_2; [by intros ? ? [= ->]|]. apply NoDup_keys, Hnet.
  - intros c (x & -> & _)%list_elem_of_fmap (y & ? & _)%list_elem_of_fmap. done.
  - apply NoDup_fmap_2; [by intros ? ? [= ->]|]. apply NoDup_seqZ.
Qed.

(** Every channel belongs to a link. *)
Lemma base_onto k : 0 ≤ k < base net n → ∃ u j, 0 ≤ u < n ∧ 0 ≤ j < zlen (links_of u) ∧ k = base net u + j.
Proof.
  assert (∀ i, 0 ≤ i → i ≤ n → k < base net i → 0 ≤ k → ∃ u j, 0 ≤ u < n ∧ 0 ≤ j < zlen (links_of u) ∧ k = base net u + j) as Hall; [|pose proof (no_n _ _ _ _ Hnet); intros Hk; apply (Hall n); lia].
  intros i Hi. pattern i. apply zsumf_ind; [intros _; change (base net 0) with 0; lia| |done]. clear i Hi. intros i Hi IH Hn Hk H0. rewrite base_succ in Hk by done.
  destruct (decide (k < base net i)) as [Hlt|Hge]; [apply IH; lia|]. exists i, (k - base net i). split_and!; lia.
Qed.

Lemma node_router x : 0 ≤ x < m → ∃ r, 0 ≤ r < n ∧ mfind x (an_node_list net) = Some r.
Proof.
  intros Hx. assert (is_Some (mfind x (an_node_list net))) as [r Hr].
  { assert (x ∈ (an_node_list net).*1) as Hin by (rewrite (no_nodes _ _ _ _ Hnet); by apply elem_of_seqZ). apply list_elem_of_fmap in Hin as ([x' r] & -> & Hin). exists r.
    apply elem_mfind; [eapply keys_sorted, Hnet|done]. }
  exists r. split; [|done]. apply (no_attached _ _ _ _ Hnet) in Hr as [y Hy]. destruct (row_find _ _ _ _ Hy) as [l Hl]. by apply (keys_range _ n 0 r l (no_heads _ _ _ _ Hnet)).
Qed.
End wires.
