(* ===== verification/AnyNetRouting.v ===== *)
(** * Packets in a network described by a file

    [min_anynet] with the tables that [buildRoutingTable] computes: packets go
    from router to router along the wiring until they are ejected.  Every packet
    is ejected at its destination, and the latencies of the channels it takes add
    up to those of a shortest path. *)

From S2P Require Import Prelude StdMap OutputSet Flit Rng KNCube Route Dijkstra AnyNet AnyNetWiring.
Import AnyNetOps.

Section paths_ext.
Context (l1 l2 : imap (imap (Z * Z))) (Hext : ∀ u v w, edge id l1 u v w ↔ edge id l2 u v w).

Lemma path_ext u v d : path id l1 u v d ↔ path id l2 u v d.
Proof. split; (induction 1; [constructor|econstructor; [done|by apply Hext]]). Qed.

Lemma shortest_ext u v d : shortest id l1 u v d ↔ shortest id l2 u v d.
Proof.
  unfold shortest. rewrite path_ext. split; intros [? H]; (split; [done|]); intros d' Hp; apply H; by apply path_ext.
Qed.
End paths_ext.

(** ** The travel of a packet *)

Section trip.
Context (b : Built) (table : list (imap Z)) (n : Z) (G : Globals).

(** At router [r] the routing function offers output [port] to packet [f]. *)
Definition sends (r : Z) (f : Flit) (port : Z) : Prop := ∃ R in_channel outputs g outputs' f' g' se,
  r_id R = r ∧ min_anynet table G R f in_channel outputs false g = Ok (outputs', f', g') ∧ se ∈ outputs' ∧ output_port se = port.

(** The channel behind an output port. *)
Definition leads (r port : Z) (c : chan_id) : Prop := ∃ p,
  (bu_routers b)⟦r⟧ = Some p ∧ 0 ≤ port ∧ po_outputs p !! Z.to_nat port = Some c.

(** [trip f r x d]: from router [r] packet [f] can end up at node [x], by
    channels of total latency [d].  On the way only its VC changes. *)
Inductive trip : Flit → Z → Z → Z → Prop :=
  | trip_eject f r port x : sends r f port → leads r port (Eject x) → trip f r x 0
  | trip_hop f f' r port c v p x d :
      sends r f port → leads r port (Chan c) →
      0 ≤ v < n → (bu_routers b)⟦v⟧ = Some p → Chan c ∈ po_inputs p →
      f_dest f' = f_dest f → f_cl f' = f_cl f →
      trip f' v x d → trip f r x ((bu_chan_lat b)⟦c⟧ + d).
End trip.

Section build.
Context (net : AnyNet) (n m W : Z) (Hnet : net_ok n m W net) (HW : 0 ≤ W) (Hfits : n * W < int_max).
Context (Hconn : ∀ u v, 0 ≤ u < n → 0 ≤ v < n → ∃ d, path id (an_router net) u v d).

Section built.
Context (b : Built) (Hb : wiring_ok net n b).
Context (Hkeys : (an_router (bu_net b)).*1 = seqZ 0 n) (Hkeys' : (an_node (bu_net b)).*1 = seqZ 0 n).
Context (Hlrow : ∀ r, 0 ≤ r < n → msorted (row (an_router (bu_net b)) r)).
Context (Hnrow : ∀ r, 0 ≤ r < n → msorted (row (an_node (bu_net b)) r)).
Local Abbreviation links := (an_router (bu_net b)).
Local Abbreviation nodes := (an_node (bu_net b)).

Lemma row_out {X} (l : imap (imap X)) r : l.*1 = seqZ 0 n → ¬ 0 ≤ r < n → row l r = [].
Proof.
  intros Hk Hr. unfold row. destruct (mfind r l) as [x|] eqn:E; [|done]. pose proof (keys_range _ n 0 r x Hk E). lia.
Qed.

Lemma built_edge u v w : edge id links u v w ↔ edge id (an_router net) u v w.
Proof.
  split; intros (p & l & Hf & <-).
  - destruct (decide (0 ≤ u < n)) as [Hu|Hu]; [|by rewrite (row_out _ u Hkeys Hu) in Hf].
    destruct (mfind v (row (an_router net) u)) as [[p' l']|] eqn:E; [|by rewrite (wo_no_link _ _ _ Hb u v Hu E) in Hf].
    destruct (wo_link _ _ _ Hb u v _ E) as (p2 & c & pu & pv & E2 & _). rewrite E2 in Hf. injection Hf as -> <-. by exists p', l'.
  - destruct (wo_link _ _ _ Hb u v _ Hf) as (p2 & c & pu & pv & E2 & _). by exists p2, l.
Qed.

Lemma built_graph : graph_ok id links n W.
Proof.
  split; try done.
  - intros u. destruct (decide (0 ≤ u < n)) as [Hu|Hu]; [by apply Hlrow|]. rewrite (row_out _ u Hkeys Hu). constructor.
  - intros u v w (p & l & Hf & _)%built_edge. by apply (link_range net n m W Hnet u v (p, l)).
  - intros u v w (p & l & Hf & <-)%built_edge. by apply (no_lat _ _ _ _ Hnet u v (p, l)).
Qed.

Lemma built_sym u v w : edge id links u v w → ∃ w', edge id links v u w'.
Proof.
  intros (p & l & Hf & _)%built_edge. destruct (no_sym _ _ _ _ Hnet u v _ Hf) as [[p' l'] Hf'].
  exists l'. apply built_edge. by exists p', l'.
Qed.

Lemma built_node r x y : mfind x (row nodes r) = Some y → 0 ≤ r < n ∧ mfind x (an_node_list net) = Some r.
Proof.
  intros Hf. destruct (decide (0 ≤ r < n)) as [Hr|Hr]; [|by rewrite (row_out _ r Hkeys' Hr) in Hf]. split; [done|].
  apply (no_attached _ _ _ _ Hnet). destruct (mfind x (row (an_node net) r)) as [z|] eqn:E; [by exists z|].
  by rewrite (wo_no_node _ _ _ Hb r x Hr E) in Hf.
Qed.

Lemma built_nodes_ok : nodes_ok nodes.
Proof.
  split.
  - intros i. destruct (decide (0 ≤ i < n)) as [Hi|Hi]; [by apply Hnrow|]. rewrite (row_out _ i Hkeys' Hi). constructor.
  - intros i j x y z [_ Hi]%built_node [_ Hj]%built_node. congruence.
Qed.

Lemma buildRoutingTable_ok fuel : n ≤ Z.of_nat fuel →
  returns (buildRoutingTable fuel (bu_net b) n) (λ table, zlen table = n ∧
    ∀ r, 0 ≤ r < n → row_ok id links n nodes r table).
Proof.
  intros Hf. pose proof (no_n _ _ _ _ Hnet). unfold buildRoutingTable.
  eapply returns_mono; [apply (returns_for (λ i table, table_ok n table ∧ ∀ r, 0 ≤ r < i → row_ok id links n nodes r table))|].
  - done.
  - split; [split|lia]; [by apply zlen_replicate|]. intros r Hr. rewrite znth_replicate by done. constructor.
  - intros i table Hi [HT Hrows]. eapply returns_mono.
    + apply (route_shortest id links n W nodes i fuel table); try done; [apply built_graph|apply built_nodes_ok|apply built_sym|].
      intros x Hx. destruct (Hconn i x Hi Hx) as [d Hd]. exists d. by apply (path_ext _ _ built_edge).
    + intros table' (HT' & Hother & Hrow). split; [done|]. intros r Hr. destruct (decide (r = i)) as [->|Hne]; [done|].
      unfold row_ok. rewrite (Hother r) by lia. apply Hrows. lia.
  - intros table [HT Hrows]. split; [apply HT|done].
Qed.

(** ** Delivery *)

Section deliver.
Context (table : list (imap Z)) (Htl : zlen table = n).
Context (Hrows : ∀ r, 0 ≤ r < n → row_ok id links n nodes r table).
Context (G : Globals).

(** The packet's class has VCs. *)
Definition class_of (f : Flit) : Prop := 0 ≤ f_cl f < zlen (gBeginVCs G) ∧ 0 ≤ f_cl f < zlen (gEndVCs G).

Lemma sends_iff f r port : 0 ≤ r < n → class_of f →
  sends table G r f port ↔ mfind (f_dest f) (table⟦r⟧) = Some port.
Proof.
  intros Hr [Hb1 He1].
  assert (∀ R i outs g p, r_id R = r → mfind (f_dest f) (table⟦r⟧) = Some p → min_anynet table G R f i outs false g =
    Ok ([SetElement ((gBeginVCs G)⟦f_cl f⟧) ((gEndVCs G)⟦f_cl f⟧) 0 p], f, g)) as Hrun.
  { intros R i outs g p HR Hp. unfold min_anynet. rewrite HR, (vget_ok table) by lia. cbn [mbind res_bind]. rewrite Hp. cbn [mbind res_bind].
    by rewrite !vget_ok. }
  split.
  - intros (R & i & outs & g & outs' & f' & g' & se & HR & E & Hse & <-). destruct (mfind (f_dest f) (table⟦r⟧)) as [p|] eqn:Ep.
    + rewrite (Hrun R i outs g p HR eq_refl) in E. injection E as <- _ _. by apply list_elem_of_singleton in Hse as ->.
    + unfold min_anynet in E. rewrite HR, (vget_ok table) in E by lia. cbn [mbind res_bind] in E. by rewrite Ep in E.
  - intros Hp. exists (mkRouter r [] []), 0, [], RngOps.initial. eexists _, _, _, _.
    split_and!; [done|by apply Hrun|by apply list_elem_of_singleton|done].
Qed.

Lemma leads_det r port c c' : leads b r port c → leads b r port c' → c = c'.
Proof. intros (p & E & _ & Hc) (p' & E' & _ & Hc'). congruence. Qed.

Lemma shortest_self r d : 0 ≤ r < n → shortest id (an_router net) r r d → d = 0.
Proof.
  intros Hr [Hp Hmin]. specialize (Hmin 0 (path_nil _ _ _)). apply (path_ext _ _ built_edge) in Hp.
  apply (path_range id links n W built_graph) in Hp; [lia|done].
Qed.

Lemma eject_ok f r x : 0 ≤ r < n → class_of f → f_dest f = x → mfind x (an_node_list net) = Some r →
  ∃ port, sends table G r f port ∧ leads b r port (Eject x).
Proof.
  intros Hr Hc Hx Hat. destruct (proj2 (no_attached _ _ _ _ Hnet r x) Hat) as [y Hy].
  destruct (wo_node _ _ _ Hb r x y Hr Hy) as (port & p & Hport & Hp & H0 & Hout & _).
  destruct (Hrows r Hr r x Hr) as (port' & Ht & [[_ [l Hl]]|[? _]]); [congruence| |done].
  exists port. rewrite sends_iff, Hx by done. split; [congruence|]. by exists p.
Qed.

Lemma hop_ok f r x rx d : 0 ≤ r < n → class_of f → f_dest f = x → mfind x (an_node_list net) = Some rx → 0 ≤ rx < n →
  r ≠ rx → shortest id (an_router net) r rx d →
  ∃ port c v p d', sends table G r f port ∧ leads b r port (Chan c) ∧ 0 ≤ v < n ∧ (bu_routers b)⟦v⟧ = Some p ∧
    Chan c ∈ po_inputs p ∧ shortest id (an_router net) v rx d' ∧ d = (bu_chan_lat b)⟦c⟧ + d' ∧ 0 < (bu_chan_lat b)⟦c⟧.
Proof.
  intros Hr Hc Hx Hat Hrx Hne Hd. destruct (proj2 (no_attached _ _ _ _ Hnet rx x) Hat) as [y Hy].
  destruct (wo_node _ _ _ Hb rx x y Hrx Hy) as (port0 & _ & Hport0 & _).
  destruct (Hrows r Hr rx x Hrx) as (port & Ht & [[? _]|[_ (nb & l & e & Hnb & Hse & Hsd)]]); [congruence|congruence|].
  assert (edge id links r nb l) as Hedge by by exists port, l.
  pose proof (g_lat _ _ _ _ built_graph _ _ _ Hedge) as Hl. pose proof Hedge as (p0 & l0 & Hf & El)%built_edge. simpl in El. subst l0.
  destruct (wo_link _ _ _ Hb r nb _ Hf) as (port2 & c & pu & pv & E2 & Hpu & Hpv & H0 & Hout & Hin & Hlat).
  rewrite Hnb in E2. injection E2 as <-. simpl in Hlat. exists port, c, nb, pv, e. rewrite sends_iff, Hx, Hlat by done.
  apply (shortest_ext _ _ built_edge) in Hse, Hsd. pose proof (link_range net n m W Hnet r nb _ Hf) as [_ Hv].
  split_and!; try done; [by exists pu|lia|lia| |lia]. destruct Hd as [Hp1 Hm1], Hsd as [Hp2 Hm2].
  specialize (Hm1 _ Hp2). specialize (Hm2 _ Hp1). unfold id in *. lia.
Qed.

Lemma trip_ok x rx : mfind x (an_node_list net) = Some rx → 0 ≤ rx < n → ∀ k f r d,
  Z.to_nat d = k → 0 ≤ r < n → class_of f → f_dest f = x → shortest id (an_router net) r rx d →
  trip b table n G f r x d ∧ ∀ y d', trip b table n G f r y d' → y = x ∧ d' = d.
Proof.
  intros Hat Hrx. induction k as [k IH] using lt_wf_ind. intros f r d <- Hr Hc Hx Hd.
  destruct (decide (r = rx)) as [->|Hne].
  - rewrite (shortest_self rx d Hr Hd). destruct (eject_ok f rx x Hr Hc Hx Hat) as (port & Hs & Hl).
    assert (∀ port', sends table G rx f port' → port' = port) as Hdet.
    { intros port'. rewrite sends_iff in * by done. intros Hs'. rewrite Hs in Hs'. by injection Hs'. }
    split; [by apply trip_eject with port|]. intros y d' Ht. inversion Ht as [? ? port' ? Hs' Hl'|? ? ? port' c ? ? ? ? Hs' Hl']; subst.
    + rewrite (Hdet port' Hs') in Hl'. by injection (leads_det _ _ _ _ Hl Hl') as ->.
    + rewrite (Hdet port' Hs') in Hl'. discriminate (leads_det _ _ _ _ Hl Hl').
  - destruct (hop_ok f r x rx d Hr Hc Hx Hat Hrx Hne Hd) as (port & c & v & p & e & Hs & Hl & Hv & Hp & Hin & Hse & -> & Hpos).
    assert (∀ port', sends table G r f port' → port' = port) as Hdet.
    { intros port'. rewrite sends_iff in * by done. intros Hs'. rewrite Hs in Hs'. by injection Hs'. }
    assert (0 ≤ e) as He by (apply (path_range id links n W built_graph v rx e); [|done]; by apply (path_ext _ _ built_edge), Hse).
    assert (∀ f', f_dest f' = f_dest f → f_cl f' = f_cl f → trip b table n G f' v x e ∧
      ∀ y d', trip b table n G f' v y d' → y = x ∧ d' = e) as Hnext.
    { intros f' Ed Ec. apply (IH (Z.to_nat e)); try done; [lia|unfold class_of in *; by rewrite Ec|congruence]. }
    split; [by eapply trip_hop; try done; apply Hnext|].
    intros y d' Ht. inversion Ht as [? ? port' ? Hs' Hl'|? f' ? port' c' v' p' ? e' Hs' Hl' Hv' Hp' Hin' Ed Ec Ht']; subst.
    + rewrite (Hdet port' Hs') in Hl'. discriminate (leads_det _ _ _ _ Hl Hl').
    + rewrite (Hdet port' Hs') in Hl'. injection (leads_det _ _ _ _ Hl Hl') as ->.
      assert (v' = v) as -> by apply (wo_sink _ _ _ Hb c' v' v p' p Hv' Hv Hp' Hp Hin' Hin).
      by destruct (proj2 (Hnext f' Ed Ec) y e' Ht') as [-> ->].
Qed.

Lemma delivered f r rx : class_of f → 0 ≤ r < n → mfind (f_dest f) (an_node_list net) = Some rx →
  ∃ d, shortest id (an_router net) r rx d ∧ trip b table n G f r (f_dest f) d ∧
    ∀ y d', trip b table n G f r y d' → y = f_dest f ∧ d' = d.
Proof.
  intros Hc Hr Hat. destruct (proj2 (no_attached _ _ _ _ Hnet rx (f_dest f)) Hat) as [y Hy].
  destruct (row_find _ _ _ _ Hy) as [l Hl]. pose proof (keys_range _ n 0 rx l (no_heads _ _ _ _ Hnet) Hl) as Hrx.
  assert (∃ d, shortest id (an_router net) r rx d) as [d Hd].
  { destruct (decide (r = rx)) as [->|Hne].
    - exists 0. split; [constructor|]. intros d' Hp%(path_ext _ _ built_edge).
      apply (path_range id links n W built_graph) in Hp; lia.
    - destruct (wo_node _ _ _ Hb rx _ y ltac:(lia) Hy) as (port0 & _ & Hport0 & _).
      destruct (Hrows r Hr rx (f_dest f) ltac:(lia)) as (port & _ & [[? _]|[_ (nb & l' & e & _ & _ & Hsd)]]); [congruence|congruence|].
      eexists. by apply (shortest_ext _ _ built_edge). }
  exists d. split; [done|]. by apply (trip_ok (f_dest f) rx Hat ltac:(lia) (Z.to_nat d)).
Qed.
End deliver.
End built.

Lemma channels_base : foldl (λ c r, c + zlen r.2) 0 (an_router net) = base net n.
Proof.
  assert (∀ (l : imap (imap (Z * Z))) c, foldl (λ c r, c + zlen r.2) c l = c + zsum (zlen <$> l.*2)) as Hsum.
  { induction l as [|x l IH]; intros c; [simpl; lia|]. rewrite !fmap_cons. cbn [foldl zsum]. rewrite IH. lia. }
  rewrite Hsum, Z.add_0_l. unfold base, zsumf. f_equal. apply list_eq. intros j. rewrite !list_lookup_fmap.
  destruct (an_router net !! j) as [[r l]|] eqn:E; simpl.
  - pose proof (keys_at _ n 0 j r l (no_routers _ _ _ _ Hnet) E) as ->. pose proof E as Hf.
    apply mfind_at in Hf; [|eapply keys_sorted, Hnet]. pose proof (keys_range _ n 0 _ l (no_routers _ _ _ _ Hnet) Hf).
    rewrite lookup_seqZ_lt by lia. simpl. rewrite Z.add_0_l in *. unfold row. by rewrite Hf.
  - rewrite lookup_seqZ_ge; [done|]. apply lookup_ge_None in E.
    rewrite <- (length_fmap fst), (no_routers _ _ _ _ Hnet), length_seqZ in E. lia.
Qed.

Lemma base_nonneg : 0 ≤ base net n.
Proof. apply (base_mono net 0 n). pose proof (no_n _ _ _ _ Hnet). lia. Qed.

Lemma anynet_ComputeSize_ok : ComputeSize net = (base net n, n, m).
Proof.
  unfold ComputeSize. rewrite channels_base. unfold zlen.
  rewrite <- (length_fmap fst (an_router net)), <- (length_fmap fst (an_node_list net)).
  rewrite (no_routers _ _ _ _ Hnet), (no_nodes _ _ _ _ Hnet), !length_seqZ.
  pose proof (no_n _ _ _ _ Hnet). pose proof (no_m _ _ _ _ Hnet). by rewrite !Z2Nat.id.
Qed.

(** The wiring part of [BuildNet]: it succeeds whatever the links are. *)
Record laid_out (b : Built) : Prop := {
  lo_wiring : wiring_ok net n b;
  lo_links : (an_router (bu_net b)).*1 = seqZ 0 n;
  lo_nodes : (an_node (bu_net b)).*1 = seqZ 0 n;
  lo_link_row r : 0 ≤ r < n → msorted (row (an_router (bu_net b)) r);
  lo_node_row r : 0 ≤ r < n → msorted (row (an_node (bu_net b)) r);
  lo_size : zlen (bu_routers b) = n;
  lo_channels : zlen (bu_chan_lat b) = base net n;
  lo_ports q : 0 ≤ q < n → (bu_routers b)⟦q⟧ = Some (mkPorts (radix_of net q)
    (any_inputs net n q) (any_outputs net q));
  lo_chan_lat u j v p lat : 0 ≤ u < n → row (an_router net) u !! j = Some (v, (p, lat)) → (bu_chan_lat b)⟦base net u + Z.of_nat j⟧ = lat
}.

Lemma BuildNet_wired fuel : ∃ b, laid_out b ∧
  BuildNet fuel net = (table ← buildRoutingTable fuel (bu_net b) n; Ok (b, table)).
Proof.
  unfold BuildNet. rewrite anynet_ComputeSize_ok.
  destruct (all_nodes_ok net n m W Hnet (replicate (Z.to_nat (base net n)) 1)) as (b1 & E1 & H1). rewrite E1. cbn [mbind res_bind].
  destruct (all_links_ok net n m W Hnet _ b1 (zlen_replicate _ _ base_nonneg) H1) as ([b c] & E2 & H2). rewrite E2. cbn [mbind res_bind].
  exists b. split; [|done]. split.
  - by apply (built_wiring net n m W Hnet _ b1 b c H1 H2).
  - apply (p2_keys _ _ _ _ _ _ H2).
  - rewrite (p2_nodes _ _ _ _ _ _ H2 : an_node (bu_net b) = _). apply (p1_keys _ _ _ _ _ _ H1).
  - intros r Hr. apply (nu_sorted _ _ _ _ (p2_row _ _ _ _ _ _ H2 r Hr)).
  - intros r Hr. rewrite (p2_nodes _ _ _ _ _ _ H2 : an_node (bu_net b) = _). apply (nu_sorted _ _ _ _ (p1_row _ _ _ _ _ _ H1 r Hr)).
  - apply (p2_routers_len _ _ _ _ _ _ H2).
  - apply (p2_chan_len _ _ _ _ _ _ H2).
  - intros q Hq. by apply (final_ports net n b1 b c q H2).
  - intros u j v p lat Hu Hj. apply (p2_chan _ _ _ _ _ _ H2 u j v p lat Hu Hj). rewrite built_all by done. by apply lookup_lt_Some in Hj.
Qed.
End build.
