(* ===== verification/AnyNetFile.v ===== *)
(** * The network file as it is documented

    The comment at the top of networks/anynet.cpp describes lines such as
    [router 0 node 0 router 1 15 router 2].  Here is that format as a datatype
    with a printer; [readFile] reads what is printed, and the network it builds
    has the links and latencies that are written. *)

From stdpp Require Import pretty.
From Stdlib Require Import Ascii.
From S2P Require Import Prelude StdMap Dijkstra AnyNet AnyNetWiring.
Import ParseOps.

(** ** The format *)

(** An entry of a line: a node, or a link with the latency it may have. *)
Inductive item : Set :=
  | INode (x : Z)
  | ILink (r : Z) (w : option Z).

(** A line: a router and what it is connected to. *)
Definition line : Set := Z * list item.

Definition number (x : Z) : string := pretty (Z.to_N x).

Definition item_words (i : item) : list string :=
  match i with
  | INode x => ["node"; number x]
  | ILink r None => ["router"; number r]
  | ILink r (Some w) => ["router"; number r; number w]
  end.

Definition line_words (l : line) : list string := "router" :: number l.1 :: flat_map item_words l.2.

Fixpoint join (c : ascii) (ws : list string) : string :=
  match ws with
  | [] => EmptyString
  | [w] => w
  | w :: ws => w +:+ String c (join c ws)
  end.

Definition print_file (ls : list line) : string := join newline (join blank ∘ line_words <$> ls).

(** ** Splitting what was joined *)

Fixpoint all_chars (P : ascii → bool) (s : string) : bool :=
  match s with EmptyString => true | String a s => P a && all_chars P s end.

(** The character does not occur. *)
Definition free_of (c : ascii) (s : string) : bool := all_chars (λ a, negb (Ascii.eqb a c)) s.

Lemma all_chars_app P s t : all_chars P (s +:+ t) = all_chars P s && all_chars P t.
Proof. induction s as [|a s IH]; [done|]. simpl. by rewrite IH, andb_assoc. Qed.

Lemma all_chars_impl P Q s : (∀ a, P a = true → Q a = true) → all_chars P s = true → all_chars Q s = true.
Proof.
  intros H. induction s as [|a s IH]; [done|]. simpl. intros [Ha Hs]%andb_true_iff. by rewrite (H a Ha), IH.
Qed.

Lemma split_on_free c s : free_of c s = true → split_on c s = [s].
Proof.
  unfold free_of. induction s as [|a s IH]; [done|]. simpl. intros [Ha Hs]%andb_true_iff. apply negb_true_iff in Ha.
  by rewrite Ha, IH.
Qed.

Lemma split_on_app c s t : free_of c s = true → split_on c (s +:+ String c t) = s :: split_on c t.
Proof.
  unfold free_of. induction s as [|a s IH]; simpl; [intros _; by rewrite Ascii.eqb_refl|].
  intros [Ha Hs]%andb_true_iff. apply negb_true_iff in Ha. by rewrite Ha, IH.
Qed.

Lemma split_join c ws : ws ≠ [] → Forall (λ w, free_of c w = true) ws → split_on c (join c ws) = ws.
Proof.
  intros Hne Hf. induction Hf as [|w ws Hw Hws IH]; [done|]. destruct ws as [|w' ws]; [by apply split_on_free|].
  change (join c (w :: w' :: ws)) with (w +:+ String c (join c (w' :: ws))). by rewrite split_on_app, IH.
Qed.

Lemma free_join c d ws : Ascii.eqb d c = false → Forall (λ w, free_of c w = true) ws → free_of c (join d ws) = true.
Proof.
  intros Hd Hf. unfold free_of in *. induction Hf as [|w ws Hw Hws IH]; [done|]. destruct ws as [|w' ws]; [done|].
  change (join d (w :: w' :: ws)) with (w +:+ String d (join d (w' :: ws))). rewrite all_chars_app, Hw. cbn [all_chars andb].
  by rewrite Hd, IH.
Qed.

(** ** Numbers *)

Lemma pretty_char_digit x : is_digit (pretty_N_char x) = true.
Proof. unfold pretty_N_char. by repeat case_match. Qed.

Lemma pretty_char_value x : (x < 10)%N → Z.of_nat (nat_of_ascii (pretty_N_char x)) = 48 + Z.of_N x.
Proof.
  intros Hx. assert (x = 0 ∨ x = 1 ∨ x = 2 ∨ x = 3 ∨ x = 4 ∨ x = 5 ∨ x = 6 ∨ x = 7 ∨ x = 8 ∨ x = 9)%N as H by lia.
  by repeat destruct H as [->|H]; [..|subst].
Qed.

Lemma pretty_go_digits x : ∀ s, all_chars is_digit s = true → all_chars is_digit (pretty_N_go x s) = true.
Proof.
  induction (N.lt_wf_0 x) as [x _ IH]. intros s Hs. destruct (decide (x = 0)%N) as [->|Hx]; [by rewrite pretty_N_go_0|].
  rewrite pretty_N_go_step by lia. apply IH; [apply N.div_lt; lia|]. simpl. by rewrite pretty_char_digit.
Qed.

Lemma pretty_go_value x : ∀ s, atoi_digits (pretty_N_go x s) 0 = atoi_digits s (Z.of_N x).
Proof.
  induction (N.lt_wf_0 x) as [x _ IH]. intros s. destruct (decide (x = 0)%N) as [->|Hx]; [by rewrite pretty_N_go_0|].
  rewrite pretty_N_go_step, IH by (lia || (apply N.div_lt; lia)). simpl.
  rewrite pretty_char_digit, pretty_char_value by (apply N.mod_lt; lia). f_equal.
  pose proof (N.div_mod x 10 ltac:(lia)). lia.
Qed.

Lemma pretty_go_nonempty x s : (x ≠ 0)%N ∨ s ≠ "" → pretty_N_go x s ≠ "".
Proof.
  revert s. induction (N.lt_wf_0 x) as [x _ IH]. intros s H. destruct (decide (x = 0)%N) as [->|Hx]; [rewrite pretty_N_go_0; by destruct H|].
  rewrite pretty_N_go_step by lia. apply IH; [apply N.div_lt; lia|]. by right.
Qed.

(** A number is printed as a digit and more digits, and read back. *)
Lemma number_digits x : ∃ a s, number x = String a s ∧ is_digit a = true ∧ all_chars is_digit (number x) = true.
Proof.
  assert (all_chars is_digit (number x) = true) as Hd.
  { unfold number, pretty, pretty_N. case_decide; [done|]. by apply pretty_go_digits. }
  assert (number x ≠ "") as Hne.
  { unfold number, pretty, pretty_N. case_decide; [done|]. apply pretty_go_nonempty. by left. }
  destruct (number x) as [|a s] eqn:E; [done|]. exists a, s. simpl in Hd. apply andb_true_iff in Hd as Hd'. split_and!; [done|apply Hd'|done].
Qed.

Lemma digit_cases a : is_digit a = true → is_space a = false ∧ Ascii.eqb a "-" = false ∧ Ascii.eqb a "+" = false ∧
  Ascii.eqb a blank = false ∧ Ascii.eqb a newline = false ∧ Ascii.eqb a "r" = false ∧ Ascii.eqb a "n" = false.
Proof. destruct a as [[] [] [] [] [] [] [] []]; by vm_compute. Qed.

Lemma atoi_number x : 0 ≤ x → atoi (number x) = x.
Proof.
  intros Hx. destruct (number_digits x) as (a & s & E & Ha & _). rewrite E.
  destruct (digit_cases a Ha) as (H1 & H2 & H3 & _).
  assert (atoi (String a s) = atoi_digits (String a s) 0) as -> by (cbn [atoi]; by rewrite H1, H2, H3). rewrite <- E.
  unfold number, pretty, pretty_N. case_decide as E0; [change (0 = x); lia|]. rewrite pretty_go_value. simpl. lia.
Qed.

Lemma number_free x : free_of blank (number x) = true ∧ free_of newline (number x) = true.
Proof.
  destruct (number_digits x) as (_ & _ & _ & _ & Hd).
  split; (eapply all_chars_impl; [|exact Hd]); intros a Ha; destruct (digit_cases a Ha) as (_ & _ & _ & H1 & H2 & _);
    apply negb_true_iff; done.
Qed.

Lemma number_word x : String.eqb (number x) "" = false ∧ String.eqb (number x) " " = false ∧
  String.eqb (number x) "router" = false ∧ String.eqb (number x) "node" = false.
Proof.
  destruct (number_digits x) as (a & s & -> & Ha & _). destruct (digit_cases a Ha) as (_ & _ & _ & H1 & _ & H2 & H3).
  simpl. unfold blank in H1. by rewrite H1, H2, H3.
Qed.

(** ** What the entries do to the network *)

Definition denote_item (h : Z) (net : AnyNet) (i : item) : res AnyNet :=
  match i with
  | INode x => attach x h net
  | ILink r w =>
      let net := connect h r (init_router r net) in
      Ok match w with
         | None => net
         | Some w => mkAnyNet (an_node net) (set_second h r w (an_router net)) (an_node_list net)
         end
  end.

Definition denote_line (net : AnyNet) (l : line) : res AnyNet :=
  foldl (λ m i, net ← m; denote_item l.1 net i) (Ok (init_router l.1 net)) l.2.

Definition item_nonneg (i : item) : Prop :=
  match i with INode x => 0 ≤ x | ILink r w => 0 ≤ r ∧ match w with Some w => 0 ≤ w | None => True end end.

Lemma foldl_fail {S X} (body : S → X → res S) e l : foldl (λ m x, s ← m; body s x) (Fail e) l = Fail e.
Proof. by induction l. Qed.

Definition ready (h : Z) (p : Parse) : Prop :=
  pa_head_type p = ROUTER ∧ pa_head_id p = h ∧ (pa_state p = BODY_TYPE ∨ pa_state p = LINK_WEIGHT).

Local Abbreviation parse_words := (foldl (λ m temp, s ← m; parse_word temp s)).

(** The word that starts an entry. *)
Lemma parse_type h p net (t : bool) : ready h p → parse_word (if t then "router" else "node") (p, net) =
  Ok (mkParse BODY_ID ROUTER h (if t then ROUTER else NODE) (pa_body_id p), net).
Proof. intros (E1 & E2 & [E3|E3]); unfold parse_word; rewrite E3; destruct t;
    unfold parse_weight, parse_body_type; simpl; rewrite ?E1, ?E2; done. Qed.

(** The number that follows it. *)
Lemma parse_id h net (t : bool) id x : 0 ≤ x →
  parse_word (number x) (mkParse BODY_ID ROUTER h (if t then ROUTER else NODE) id, net) =
  (net ← denote_item h net (if t then ILink x None else INode x);
   Ok (mkParse LINK_WEIGHT ROUTER h (if t then ROUTER else NODE) x, net)).
Proof.
  intros Hx. destruct (number_word x) as (H1 & H2 & _). unfold parse_word. rewrite H1, H2. simpl.
  unfold parse_body_id. rewrite atoi_number by done. by destruct t.
Qed.

Lemma parse_item h p net i : ready h p → item_nonneg i → ∃ p', ready h p' ∧
  parse_words (Ok (p, net)) (item_words i) = (net ← denote_item h net i; Ok (p', net)).
Proof.
  intros Hp Hi. destruct i as [x|r w].
  - exists (mkParse LINK_WEIGHT ROUTER h NODE x). split; [by split_and!; [..|right]|].
    cbn [item_words foldl mbind res_bind]. rewrite (parse_type h p net false Hp). cbn [mbind res_bind].
    by rewrite (parse_id h net false _ x Hi).
  - destruct Hi as [Hr Hw]. exists (mkParse LINK_WEIGHT ROUTER h ROUTER r). split; [by split_and!; [..|right]|].
    destruct w as [w|]; cbn [item_words foldl mbind res_bind]; rewrite (parse_type h p net true Hp); cbn [mbind res_bind];
      rewrite (parse_id h net true _ r Hr); [|done].
    cbn [denote_item mbind res_bind]. destruct (number_word w) as (H1 & H2 & H3 & H4). unfold parse_word.
    rewrite H1, H2. cbn [orb pa_state]. unfold parse_weight. rewrite H3, H4. cbn [orb pa_head_type]. by rewrite atoi_number.
Qed.

Lemma parse_items h items : ∀ p net, ready h p → Forall item_nonneg items → ∃ p',
  parse_words (Ok (p, net)) (flat_map item_words items) =
  (net ← foldl (λ m i, net ← m; denote_item h net i) (Ok net) items; Ok (p', net)).
Proof.
  induction items as [|i items IH]; intros p net Hp Hi; [by exists p|].
  apply Forall_cons in Hi as [Hi Hitems]. destruct (parse_item h p net i Hp Hi) as (p1 & Hp1 & E). simpl.
  rewrite foldl_app, E. destruct (denote_item h net i) as [net'|e]; cbn [mbind res_bind]; [by apply IH|].
  exists p. by rewrite !foldl_fail.
Qed.

Lemma words_free c l : free_of c "router" = true → free_of c "node" = true →
  (∀ x, free_of c (number x) = true) → Forall (λ w, free_of c w = true) (line_words l).
Proof.
  intros Hr Hn Hx. repeat (constructor; [done|]). apply Forall_flat_map, Forall_forall. intros i _.
  destruct i as [x|r [w|]]; simpl; repeat constructor; done.
Qed.

Lemma parse_head net h : 0 ≤ h → parse_word (number h) (mkParse HEAD_ID ROUTER (-1) UNKNOWN (-1), net) =
  Ok (mkParse BODY_TYPE ROUTER h UNKNOWN (-1), init_router h net).
Proof. intros Hh. destruct (number_word h) as (H1 & H2 & _). unfold parse_word. rewrite H1, H2. simpl. by rewrite atoi_number. Qed.

Definition line_nonneg (l : line) : Prop := 0 ≤ l.1 ∧ Forall item_nonneg l.2.

Lemma parse_line_ok net l : line_nonneg l → parse_line net (join blank (line_words l)) = denote_line net l.
Proof.
  intros [Hh Hi]. unfold parse_line, denote_line. destruct l as [h items]. simpl in Hh, Hi.
  rewrite split_join; [|done|apply words_free; try done; apply number_free].
  change (String.eqb (join blank (line_words (h, items))) "") with false. cbn [line_words foldl fst snd].
  cbn [mbind res_bind]. rewrite (eq_refl : parse_word "router" (mkParse HEAD_TYPE UNKNOWN (-1) UNKNOWN (-1), net) =
    Ok (mkParse HEAD_ID ROUTER (-1) UNKNOWN (-1), net)). cbn [mbind res_bind]. rewrite parse_head by done.
  destruct (parse_items h items (mkParse BODY_TYPE ROUTER h UNKNOWN (-1)) (init_router h net)) as [p' E]; [by split_and!; [..|left]|done|].
  rewrite E. by destruct (foldl _ _ items).
Qed.

(** ** The entries of a file as a sequence of events *)

Inductive event : Set :=
  | ERouter (r : Z)
  | ENode (h x : Z)
  | ELink (h r : Z) (w : option Z).

Definition item_event (h : Z) (i : item) : event :=
  match i with INode x => ENode h x | ILink r w => ELink h r w end.
Definition line_events (l : line) : list event := ERouter l.1 :: (item_event l.1 <$> l.2).
Definition events (ls : list line) : list event := flat_map line_events ls.

Definition do_event (net : AnyNet) (e : event) : res AnyNet :=
  match e with
  | ERouter r => Ok (init_router r net)
  | ENode h x => attach x h net
  | ELink h r w => denote_item h net (ILink r w)
  end.

Local Abbreviation run_events := (foldl (λ m e, net ← m; do_event net e)).

Lemma denote_line_events l : ∀ m, (net ← m; denote_line net l) = run_events m (line_events l).
Proof.
  intros m. unfold denote_line, line_events. destruct l as [h items]. simpl.
  assert (∀ m, run_events m (item_event h <$> items) = foldl (λ m i, net ← m; denote_item h net i) m items) as ->.
  { induction items as [|i items IH]; intros m'; [done|]. rewrite fmap_cons. cbn [foldl]. rewrite IH. f_equal.
    by destruct m', i. }
  destruct m as [net|e]; cbn [mbind res_bind]; [done|]. by rewrite foldl_fail.
Qed.

Lemma parse_lines ls : ∀ net, Forall line_nonneg ls →
  foldl (λ m line, net ← m; parse_line net line) (Ok net) (join blank ∘ line_words <$> ls) = run_events (Ok net) (events ls).
Proof.
  assert (∀ m, Forall line_nonneg ls →
    foldl (λ m line, net ← m; parse_line net line) m (join blank ∘ line_words <$> ls) = run_events m (events ls)) as H; [|intros net; apply H].
  induction ls as [|l ls IH]; intros m Hl; [done|]. apply Forall_cons in Hl as [Hl Hls].
  rewrite fmap_cons. cbn [foldl events flat_map compose]. rewrite foldl_app, <- denote_line_events, IH by done. f_equal.
  destruct m as [net|e]; cbn [mbind res_bind]; [|done]. by apply parse_line_ok.
Qed.

Definition empty_net : AnyNet := mkAnyNet [] [] [].

(** [readFile] of a printed file: the events, and the final checks. *)
Lemma readFile_print ls : Forall line_nonneg ls → readFile (Some (print_file ls)) =
  (net ← run_events (Ok empty_net) (events ls);
   assert! zlen (an_node net) =? zlen (an_router net);
   zfor 0 (zlen (an_node_list net)) (λ i net, node ← vget ((an_node_list net).*1) i; assert! node =? i; Ok net) net).
Proof.
  intros Hl. unfold readFile, print_file. destruct ls as [|l ls]; [done|].
  rewrite split_join; [by rewrite parse_lines|done|]. apply Forall_fmap, Forall_forall. intros l' _.
  apply free_join; [done|]. apply words_free; try done. apply number_free.
Qed.

(** ** What a file says

    The latency of the link from [u] to [v]: the last one written for it, or one
    cycle if only the opposite link is written; and the router of a node. *)

Definition link_step (u v : Z) (acc : option Z) (e : event) : option Z :=
  match e with
  | ELink h r w =>
      if (h =? u) && (r =? v) then Some (default 1 w)
      else if (r =? u) && (h =? v) then Some (default 1 acc)
      else acc
  | _ => acc
  end.
Definition link_lat (es : list event) (u v : Z) : option Z := foldl (link_step u v) None es.

Definition home_step (x : Z) (acc : option Z) (e : event) : option Z :=
  match e with ENode h y => if y =? x then Some h else acc | _ => acc end.
Definition home (es : list event) (x : Z) : option Z := foldl (home_step x) None es.

Definition mentioned (es : list event) (r : Z) : Prop := ERouter r ∈ es ∨ ∃ h w, ELink h r w ∈ es.

Lemma link_lat_snoc es e u v : link_lat (es ++ [e]) u v = link_step u v (link_lat es u v) e.
Proof. unfold link_lat. by rewrite foldl_app. Qed.
Lemma home_snoc es e x : home (es ++ [e]) x = home_step x (home es x) e.
Proof. unfold home. by rewrite foldl_app. Qed.

Lemma mentioned_snoc es e r : mentioned (es ++ [e]) r ↔
  mentioned es r ∨ match e with ERouter r' => r' = r | ELink _ r' _ => r' = r | _ => False end.
Proof.
  unfold mentioned. rewrite elem_of_app, list_elem_of_singleton. setoid_rewrite elem_of_app. setoid_rewrite list_elem_of_singleton.
  destruct e; naive_solver.
Qed.

Lemma home_node es x h : home es x = Some h → ENode h x ∈ es.
Proof.
  induction es as [|e es IH] using rev_ind; [done|]. rewrite home_snoc, elem_of_app, list_elem_of_singleton.
  destruct e as [r|h' y|h' r w]; simpl; try (intros ?%IH; by left).
  destruct (Z.eqb_spec y x) as [->|]; [intros [= ->]; by right|intros ?%IH; by left].
Qed.

Lemma home_some es x h : ENode h x ∈ es → is_Some (home es x).
Proof.
  induction es as [|e es IH] using rev_ind; [by intros ?%elem_of_nil|]. rewrite home_snoc, elem_of_app, list_elem_of_singleton.
  intros [H|<-]; simpl; [|by rewrite Z.eqb_refl]. specialize (IH H).
  destruct e as [r|h' y|h' r w]; simpl; try done. by destruct (y =? x).
Qed.

Lemma link_lat_sym es u v : is_Some (link_lat es u v) → is_Some (link_lat es v u).
Proof.
  induction es as [|e es IH] using rev_ind; [done|]. rewrite !link_lat_snoc. destruct e as [r|h y|h r w]; simpl; try done.
  destruct (Z.eqb_spec h u), (Z.eqb_spec r v), (Z.eqb_spec r u), (Z.eqb_spec h v); simpl; try done; subst; try done; eauto.
Qed.

Lemma link_lat_range es W u v l : 1 ≤ W → (∀ h r w, ELink h r (Some w) ∈ es → 0 < w ≤ W) →
  link_lat es u v = Some l → 0 < l ≤ W.
Proof.
  intros HW. revert l. induction es as [|e es IH] using rev_ind; [done|]. intros l Hw. rewrite link_lat_snoc.
  assert (∀ l, link_lat es u v = Some l → 0 < l ≤ W) as IH'.
  { intros l'. apply IH. intros h r w He. apply (Hw h r w), elem_of_app. by left. }
  destruct e as [r|h y|h r w]; simpl; try apply IH'.
  destruct ((h =? u) && (r =? v)).
  - intros [= <-]. destruct w as [w|]; simpl; [|lia]. apply (Hw h r w). apply elem_of_app. right. by apply list_elem_of_singleton.
  - destruct ((r =? u) && (h =? v)); [|apply IH']. intros [= <-]. destruct (link_lat es u v) as [l'|]; simpl; [by apply IH'|lia].
Qed.

(** ** The network that the events build *)

(** A map of maps with sorted rows. *)
Definition rows_sorted (m : imap (imap (Z * Z))) : Prop := msorted m ∧ ∀ r, msorted (row m r).

Lemma mfind_set2 k j x m u v : rows_sorted m →
  mfind v (row (set2 k j x m) u) = if decide (u = k ∧ v = j) then Some x else mfind v (row m u).
Proof.
  intros [Hm Hr]. unfold set2. rewrite row_mset by done. destruct (decide (u = k)) as [->|Hu].
  - rewrite mfind_mset by done. destruct (decide (v = j)) as [->|Hv]; [by rewrite decide_True|]. rewrite decide_False; [done|tauto].
  - rewrite decide_False; [done|tauto].
Qed.

Lemma set2_sorted k j x m : rows_sorted m → rows_sorted (set2 k j x m).
Proof.
  intros [Hm Hr]. split; [by apply msorted_mset|]. intros r. unfold set2. rewrite row_mset by done.
  case_decide; [by apply msorted_mset|done].
Qed.

Lemma set2_key k j x m r : rows_sorted m → is_Some (mfind r (set2 k j x m)) ↔ is_Some (mfind r m) ∨ r = k.
Proof.
  intros [Hm _]. unfold set2. rewrite mfind_mset by done. case_decide as E; [subst r; naive_solver|]. intuition.
Qed.

Lemma touch_row k m r : rows_sorted m → row (touch k m) r = row m r.
Proof.
  intros [Hm _]. unfold touch, mcount. destruct (mfind k m) as [y|] eqn:E; simpl; [done|]. rewrite row_mset by done.
  case_decide as Er; [subst r; unfold row; by rewrite E|done].
Qed.

Lemma touch_sorted k m : rows_sorted m → rows_sorted (touch k m).
Proof.
  intros Hs. split; [|intros r; rewrite touch_row by done; apply Hs].
  unfold touch. destruct (_ =? _); [by apply msorted_mset, Hs|apply Hs].
Qed.

Lemma touch_key k m r : rows_sorted m → is_Some (mfind r (touch k m)) ↔ is_Some (mfind r m) ∨ r = k.
Proof.
  intros [Hm _]. unfold touch, mcount. destruct (mfind k m) as [y|] eqn:E; simpl.
  - split; [by left|]. intros [?| ->]; [done|by rewrite E].
  - rewrite mfind_mset by done. case_decide as Er; [subst r; naive_solver|]. intuition.
Qed.

Record read_inv (es : list event) (net : AnyNet) : Prop := {
  ri_node : rows_sorted (an_node net);
  ri_router : rows_sorted (an_router net);
  ri_sorted : msorted (an_node_list net);
  ri_nkey r : is_Some (mfind r (an_node net)) ↔ mentioned es r;
  ri_rkey r : is_Some (mfind r (an_router net)) ↔ mentioned es r;
  ri_link u v : mfind v (row (an_router net) u) = pair (-1) <$> link_lat es u v;
  ri_home x h : mfind x (row (an_node net) h) = if decide (home es x = Some h) then Some (-1, 1) else None;
  ri_list x : mfind x (an_node_list net) = home es x
}.

(** The line's router has been mentioned, and a node has one router. *)
Definition event_ok (es : list event) (e : event) : Prop :=
  match e with
  | ERouter _ => True
  | ENode h x => mentioned es h ∧ (home es x = None ∨ home es x = Some h)
  | ELink h r w => mentioned es h
  end.

Lemma router_inv es net r : read_inv es net → read_inv (es ++ [ERouter r]) (init_router r net).
Proof.
  intros [Hn Hr Hs Hnk Hrk Hl Hh Hx]. split; simpl; try by apply touch_sorted.
  - done.
  - intros q. rewrite touch_key, mentioned_snoc, Hnk by done. naive_solver.
  - intros q. rewrite touch_key, mentioned_snoc, Hrk by done. naive_solver.
  - intros u v. by rewrite touch_row, link_lat_snoc.
  - intros x h. by rewrite touch_row, home_snoc.
  - intros x. by rewrite home_snoc.
Qed.

Lemma node_event_inv es net h x : read_inv es net → event_ok es (ENode h x) →
  returns (attach x h net) (read_inv (es ++ [ENode h x])).
Proof.
  intros [Hn Hr Hs Hnk Hrk Hl Hh Hx] [Hm Ho]. unfold attach. rewrite Hx. apply returns_assert.
  { destruct Ho as [-> | ->]; [done|]. by rewrite Z.eqb_refl. }
  apply returns_ok. split; simpl; [by apply set2_sorted|done|by apply msorted_mset|..].
  - intros q. rewrite set2_key, mentioned_snoc, Hnk by done. split; [intros [?| ->]; by left|]. intros [?|[]]. by left.
  - intros q. rewrite mentioned_snoc, Hrk. tauto.
  - intros u v. by rewrite link_lat_snoc.
  - intros y h'. rewrite mfind_set2, home_snoc by done. simpl. destruct (Z.eqb_spec x y) as [->|Hne].
    + destruct (decide (h' = h)) as [->|Hne]; [by rewrite !decide_True|].
      rewrite decide_False, Hh, !decide_False; [done|naive_solver..].
    + rewrite decide_False, Hh by naive_solver. done.
  - intros y. rewrite mfind_mset, home_snoc by done. simpl. destruct (Z.eqb_spec x y) as [->|Hne]; [by rewrite decide_True|].
    rewrite decide_False by congruence. apply Hx.
Qed.

(** [connect], followed by the weight if there is one. *)
Definition weighted (h r : Z) (w : option Z) (links : imap (imap (Z * Z))) : imap (imap (Z * Z)) :=
  let l1 := set2 h r (-1, 1) links in
  let l2 := if mcount h (row l1 r) =? 0 then set2 r h (-1, 1) l1 else l1 in
  match w with None => l2 | Some w => set_second h r w l2 end.

Lemma weighted_sorted h r w links : rows_sorted links → rows_sorted (weighted h r w links).
Proof.
  intros Hs. unfold weighted, set_second. assert (rows_sorted (set2 h r (-1, 1) links)) by by apply set2_sorted.
  destruct w, (_ =? _); auto using set2_sorted.
Qed.

Lemma weighted_key h r w links q : rows_sorted links →
  is_Some (mfind h links) → is_Some (mfind r links) → is_Some (mfind q (weighted h r w links)) ↔ is_Some (mfind q links).
Proof.
  intros Hs Hh Hr. unfold weighted, set_second. assert (rows_sorted (set2 h r (-1, 1) links)) by by apply set2_sorted.
  assert (∀ q, q = h ∨ q = r → is_Some (mfind q links)) as Hq by (intros ? [-> | ->]; done).
  destruct w, (_ =? _); rewrite !set2_key by auto using set2_sorted; naive_solver.
Qed.

Lemma weighted_find h r w links u v acc : rows_sorted links → mfind v (row links u) = pair (-1) <$> acc →
  mfind v (row (weighted h r w links) u) = pair (-1) <$> link_step u v acc (ELink h r w).
Proof.
  intros Hs E. unfold weighted. set (l1 := set2 h r (-1, 1) links). assert (rows_sorted l1) as Hs1 by by apply set2_sorted.
  assert (mfind r (row l1 h) = Some (-1, 1)) as E1 by (unfold l1; by rewrite mfind_set2, decide_True by done).
  set (l2 := if mcount h (row l1 r) =? 0 then set2 r h (-1, 1) l1 else l1).
  assert (rows_sorted l2) as Hs2 by (unfold l2; destruct (_ =? _); auto using set2_sorted).
  assert (mfind r (row l2 h) = Some (-1, 1)) as E2.
  { unfold l2. destruct (_ =? _); [|done]. rewrite mfind_set2 by done. by case_decide. }
  assert (mfind v (row l2 u) = if decide (h = u ∧ r = v) then Some (-1, 1)
    else if decide (r = u ∧ h = v) then Some (-1, default 1 acc) else pair (-1) <$> acc) as E3.
  { destruct (decide (h = u ∧ r = v)) as [[-> ->]|Hn]; [done|].
    assert (mfind v (row l1 u) = pair (-1) <$> acc) as E4 by (unfold l1; rewrite mfind_set2, decide_False by naive_solver; done).
    unfold l2, mcount. destruct (decide (r = u ∧ h = v)) as [[-> ->]|Hn2].
    - rewrite E4. destruct acc as [l|]; simpl; [by rewrite E4|]. by rewrite mfind_set2, decide_True by done.
    - destruct (_ =? _); [|done]. rewrite mfind_set2, decide_False by naive_solver. done. }
  simpl. destruct (Z.eqb_spec h u) as [->|Hhu], (Z.eqb_spec r v) as [->|Hrv]; simpl.
  - rewrite decide_True in E3 by done. destruct w as [w|]; simpl; [|done]. unfold set_second.
    by rewrite mfind_set2, decide_True, E2 by done.
  - destruct w as [w|]; unfold set_second; rewrite ?mfind_set2, ?decide_False by naive_solver; rewrite E3, decide_False by naive_solver.
    all: destruct (Z.eqb_spec r u) as [->|]; simpl; [destruct (Z.eqb_spec u v) as [->|]; [done|]|]; by rewrite decide_False by naive_solver.
  - destruct w as [w|]; unfold set_second; rewrite ?mfind_set2, ?decide_False by naive_solver; rewrite E3, decide_False by naive_solver.
    all: destruct (Z.eqb_spec v u) as [->|]; simpl; [destruct (Z.eqb_spec h u) as [->|]; [done|]|]; by rewrite decide_False by naive_solver.
  - destruct w as [w|]; unfold set_second; rewrite ?mfind_set2, ?decide_False by naive_solver; rewrite E3, decide_False by naive_solver.
    all: destruct (Z.eqb_spec r u) as [->|]; simpl; [destruct (Z.eqb_spec h v) as [->|]; [by rewrite decide_True|]|];
      by rewrite decide_False by naive_solver.
Qed.

Lemma denote_link h net r w : denote_item h net (ILink r w) =
  Ok (mkAnyNet (an_node (init_router r net)) (weighted h r w (an_router (init_router r net))) (an_node_list (init_router r net))).
Proof. by destruct w. Qed.

Lemma link_event_inv es net h r w : read_inv es net → mentioned es h →
  returns (denote_item h net (ILink r w)) (read_inv (es ++ [ELink h r w])).
Proof.
  intros HI Hh. pose proof (router_inv es net r HI) as [Hn Hr Hs Hnk Hrk Hl Hho Hx]. rewrite denote_link.
  set (net1 := init_router r net) in *. clearbody net1. apply returns_ok.
  assert (∀ q, mentioned (es ++ [ERouter r]) q ↔ mentioned (es ++ [ELink h r w]) q) as Hm by (intros q; by rewrite !mentioned_snoc).
  split; simpl; try done.
  - by apply weighted_sorted.
  - intros q. by rewrite <- Hm, Hnk.
  - intros q. rewrite <- Hm, <- Hrk. apply weighted_key; [done|..]; apply Hrk, mentioned_snoc; [by left|by right].
  - intros u v. rewrite link_lat_snoc. apply weighted_find; [done|]. rewrite Hl, link_lat_snoc. done.
  - intros x h'. rewrite Hho, !home_snoc. done.
  - intros x. rewrite Hx, !home_snoc. done.
Qed.

Lemma run_events_ok es : (∀ es1 e es2, es = es1 ++ e :: es2 → event_ok es1 e) →
  returns (run_events (Ok empty_net) es) (read_inv es).
Proof.
  induction es as [|e es IH] using rev_ind; intros Hok.
  - apply returns_ok. assert (∀ r, ¬ mentioned [] r) as Hm by (intros r [?%elem_of_nil|(? & ? & ?%elem_of_nil)]; done).
    split; simpl; try done; try (split; [constructor|intros; constructor]); try constructor.
    all: try (intros [? ?]; done). all: by intros ?%Hm.
  - rewrite foldl_app. destruct IH as (net & -> & HI).
    { intros es1 e' es2 E. apply (Hok es1 e' (es2 ++ [e])). by rewrite E, <- app_assoc. }
    simpl. specialize (Hok es e [] eq_refl). destruct e as [r|h x|h r w]; simpl.
    + apply returns_ok. by apply router_inv.
    + by apply node_event_inv.
    + by apply link_event_inv.
Qed.

(** ** Well-formed files *)

(** Routers [0 .. n-1] and nodes [0 .. m-1] occur, every node at one router, and
    the latencies are between 1 and [W]. *)
Record file_ok (n m W : Z) (ls : list line) : Prop := {
  fo_n : 0 ≤ n;
  fo_m : 0 ≤ m;
  fo_W : 1 ≤ W;
  fo_routers r : mentioned (events ls) r ↔ 0 ≤ r < n;
  fo_nodes x : (∃ h, ENode h x ∈ events ls) ↔ 0 ≤ x < m;
  fo_one h h' x : ENode h x ∈ events ls → ENode h' x ∈ events ls → h = h';
  fo_weights h r w : ELink h r (Some w) ∈ events ls → 0 < w ≤ W
}.

Definition headed (es : list event) : Prop := ∀ es1 e es2, es = es1 ++ e :: es2 →
  match e with ERouter _ => True | ENode h _ | ELink h _ _ => ERouter h ∈ es1 end.

Lemma headed_app a b : headed a → headed b → headed (a ++ b).
Proof.
  intros Ha Hb es1 e es2 E. apply app_eq_inv in E as [(k & -> & E)|(k & -> & E)].
  - destruct k as [|e' k]; simplify_eq/=.
    + specialize (Hb [] e es2 eq_refl). by destruct e; try by apply elem_of_nil in Hb.
    + apply (Ha es1 e' k eq_refl).
  - specialize (Hb k e es2 E). destruct e; [done|..]; apply elem_of_app; by right.
Qed.

Lemma events_headed ls : headed (events ls).
Proof.
  induction ls as [|[h items] ls IH]; [by intros [|] ? ? ?|]. cbn [events flat_map]. apply headed_app; [|done].
  intros [|e1 es1] e es2 E; [by injection E as <-|]. unfold line_events in E. simpl in E. injection E as <- E.
  assert (e ∈ item_event h <$> items) as He by (rewrite E; apply elem_of_app; right; by left).
  apply list_elem_of_fmap in He as (i & -> & _). destruct i; by left.
Qed.

Lemma events_ok n m W ls : file_ok n m W ls → ∀ es1 e es2, events ls = es1 ++ e :: es2 → event_ok es1 e.
Proof.
  intros Hf es1 e es2 E. pose proof (events_headed ls es1 e es2 E) as Hh. destruct e as [r|h x|h r w]; simpl; [done|split|by left].
  - by left.
  - destruct (home es1 x) as [h'|] eqn:Eh; [|by left]. right. f_equal. apply home_node in Eh.
    apply (fo_one _ _ _ _ Hf h' h x); rewrite E; apply elem_of_app; [by left|right; by left].
Qed.

Lemma file_nonneg n m W ls : file_ok n m W ls → Forall line_nonneg ls.
Proof.
  intros Hf. apply Forall_forall. intros [h items] Hl.
  assert (∀ e, e ∈ line_events (h, items) → e ∈ events ls) as Hin.
  { intros e He. unfold events. rewrite list_elem_of_In, in_flat_map. exists (h, items). by rewrite <- !list_elem_of_In. }
  assert (ERouter h ∈ events ls) as Hh by (apply Hin; by left). split; simpl.
  - apply (fo_routers _ _ _ _ Hf). by left.
  - apply Forall_forall. intros i Hi. assert (item_event h i ∈ events ls) as He.
    { apply Hin. right. apply list_elem_of_fmap. by exists i. }
    destruct i as [x|r w]; simpl in *.
    + apply (fo_nodes _ _ _ _ Hf). by exists h.
    + split; [apply (fo_routers _ _ _ _ Hf); right; by exists h, w|]. destruct w as [w|]; [|done].
      pose proof (fo_weights _ _ _ _ Hf h r w He). lia.
Qed.

Lemma keys_seqZ {X} (l : imap X) n : msorted l → (∀ k, is_Some (mfind k l) ↔ 0 ≤ k < n) → l.*1 = seqZ 0 n.
Proof.
  intros Hs Hk. apply (StronglySorted_unique_strong Z.lt).
  - intros x y _ _ ? ?. lia.
  - clear Hk. induction Hs as [|[k x] l Hs IH Hl]; simpl; constructor; [done|]. by apply Forall_fmap.
  - destruct (decide (0 ≤ n)) as [Hn|]; [|rewrite seqZ_nil by lia; constructor].
    rewrite <- (Z2Nat.id n) by done. generalize (Z.to_nat n), 0. clear. induction n as [|n IH]; intros lo; [constructor|].
    rewrite seqZ_cons by lia. constructor; [replace (Z.pred (Z.of_nat (S n))) with (Z.of_nat n) by lia; apply IH|].
    apply Forall_forall. intros x Hx%elem_of_seqZ. lia.
  - apply NoDup_Permutation; [by apply NoDup_keys|apply NoDup_seqZ|]. intros k. rewrite elem_of_seqZ.
    rewrite Z.add_0_l, <- Hk, list_elem_of_fmap. split.
    + intros ([k' x] & -> & Hx). exists x. by apply elem_mfind.
    + intros [x Hx]. exists (k, x). split; [done|]. by apply elem_mfind.
Qed.

Lemma read_net_ok n m W ls net : file_ok n m W ls → read_inv (events ls) net → net_ok n m W net.
Proof.
  intros Hf [Hn Hr Hs Hnk Hrk Hl Hh Hx]. split; try apply Hf; try apply Hn; try apply Hr.
  - apply keys_seqZ; [apply Hn|]. intros k. by rewrite Hnk, (fo_routers _ _ _ _ Hf).
  - apply keys_seqZ; [apply Hr|]. intros k. by rewrite Hrk, (fo_routers _ _ _ _ Hf).
  - apply keys_seqZ; [done|]. intros k. rewrite Hx, <- (fo_nodes _ _ _ _ Hf). split.
    + intros [h Hk%home_node]. by exists h.
    + intros [h Hk]. by eapply home_some.
  - intros u v x. rewrite !Hl. intros (l & E & _)%fmap_Some. destruct (link_lat_sym (events ls) u v) as [l' ->]; [by exists l|].
    by eexists.
  - intros u v x. rewrite Hl. intros (l & E & ->)%fmap_Some. simpl. eapply link_lat_range; [apply Hf|apply Hf|done].
  - intros r x y. rewrite Hh. case_decide; [|done]. by intros [= <-].
  - intros r x. rewrite Hh, Hx. case_decide; [split; [done|by eexists]|]. split; [by intros [? ?]|done].
Qed.

(** The printed file is read back as the network it describes. *)
Lemma readFile_ok n m W ls : file_ok n m W ls →
  returns (readFile (Some (print_file ls))) (λ net, net_ok n m W net ∧ read_inv (events ls) net).
Proof.
  intros Hf. rewrite readFile_print by by eapply file_nonneg.
  eapply returns_bind; [apply run_events_ok; by eapply events_ok|]. intros net HI.
  pose proof (read_net_ok n m W ls net Hf HI) as Hok. pose proof (fo_m _ _ _ _ Hf) as Hm. pose proof (fo_n _ _ _ _ Hf) as Hn.
  assert (∀ {X} (l : imap X) k, 0 ≤ k → l.*1 = seqZ 0 k → zlen l = k) as Hlen.
  { intros X l k Hk E. unfold zlen. rewrite <- (length_fmap fst), E, length_seqZ. lia. }
  apply returns_assert.
  { rewrite (Hlen _ _ n Hn (no_heads _ _ _ _ Hok)), (Hlen _ _ n Hn (no_routers _ _ _ _ Hok)). apply Z.eqb_refl. }
  rewrite (Hlen _ _ m Hm (no_nodes _ _ _ _ Hok)).
  eapply returns_mono; [apply (returns_for (λ _ net', net' = net)); [done|done|]|by intros ? ->].
  intros i net' Hi ->. rewrite (no_nodes _ _ _ _ Hok). unfold vget. destruct (Z.leb_spec 0 i); [|lia].
  rewrite lookup_seqZ_lt by lia. cbn [mbind res_bind]. replace (0 + Z.of_nat (Z.to_nat i)) with i by lia.
  rewrite Z.eqb_refl. by apply returns_ok.
Qed.
