(* ===== verification/AnyNetTheorems.v ===== *)
(** * What holds of networks described by a file

    The properties of [AnyNet] from the text of the network file to the delivery
    of packets, and files for which the documentation promises more. *)

From stdpp Require Import relations.
From S2P Require Import Prelude StdMap OutputSet Flit Rng KNCube Route Dijkstra AnyNet AnyNetWiring AnyNetRouting AnyNetFile.
Import AnyNetOps ParseOps.

(** ** The file *)

(** C16. Reading a well-formed network file succeeds and gives the network it
    describes: the link from [u] to [v] has the latency last written for it, one
    cycle if none is written or only the opposite link is; every node is at the
    router it is written at; links go both ways. *)
Theorem anynet_file_roundtrip n m W ls : file_ok n m W ls →
  returns (readFile (Some (print_file ls))) (λ net, net_ok n m W net ∧
    (∀ u v, mfind v (row (an_router net) u) = pair (-1) <$> link_lat (events ls) u v) ∧
    (∀ x, mfind x (an_node_list net) = home (events ls) x)).
Proof.
  intros Hf. eapply returns_mono; [by apply readFile_ok|]. intros net [Hok HI]. split; [done|].
  split; [apply (ri_link _ _ HI)|apply (ri_list _ _ HI)].
Qed.

(** examples/anynet/anynet_file. *)
Definition example_lines : list line :=
  [(0, [INode 0; INode 1; INode 2; ILink 1 None]); (1, [INode 3; INode 4; INode 5]);
   (2, [INode 6; INode 7; INode 8; ILink 1 None; ILink 0 None])].
Definition example_text : string := "router 0 node 0 node 1 node 2 router 1
router 1 node 3 node 4 node 5
router 2 node 6 node 7 node 8 router 1 router 0".

Lemma example_printed : print_file example_lines = example_text.
Proof. by vm_compute. Qed.

(** A finite check of [file_ok]. *)
Definition event_node (e : event) : option (Z * Z) := match e with ENode h x => Some (x, h) | _ => None end.
Definition event_router (e : event) : list Z :=
  match e with ERouter r => [r] | ELink _ r _ => [r] | _ => [] end.
Definition file_okb (n m W : Z) (ls : list line) : bool :=
  let es := events ls in
  (0 <=? n) && (0 <=? m) && (1 <=? W) &&
  forallb (λ r, (0 <=? r) && (r <? n)) (flat_map event_router es) &&
  forallb (λ r, bool_decide (r ∈ flat_map event_router es)) (seqZ 0 n) &&
  forallb (λ x, (0 <=? x.1) && (x.1 <? m)) (omap event_node es) &&
  forallb (λ x, bool_decide (x ∈ (omap event_node es).*1)) (seqZ 0 m) &&
  forallb (λ x, forallb (λ y, negb (x.1 =? y.1) || (x.2 =? y.2)) (omap event_node es)) (omap event_node es) &&
  forallb (λ e, match e with ELink _ _ (Some w) => (0 <? w) && (w <=? W) | _ => true end) es.

Lemma mentioned_routers es r : mentioned es r ↔ r ∈ flat_map event_router es.
Proof.
  rewrite list_elem_of_In, in_flat_map. setoid_rewrite <- list_elem_of_In. unfold mentioned. split.
  - intros [H|(h & w & H)]; eexists; (split; [exact H|]); by left.
  - intros ([r'|h x|h r' w] & He & Hr); simpl in Hr; [|by apply elem_of_nil in Hr|]; apply list_elem_of_singleton in Hr as ->; [by left|].
    right. by exists h, w.
Qed.

Lemma event_nodes (es : list event) x h : ENode h x ∈ es ↔ (x, h) ∈ omap event_node es.
Proof.
  rewrite list_elem_of_omap. split; [by exists (ENode h x)|]. by intros ([r|h' x'|h' r w] & He & [= -> ->]).
Qed.

Lemma file_okb_ok n m W ls : file_okb n m W ls = true → file_ok n m W ls.
Proof.
  unfold file_okb. rewrite !andb_true_iff, !forallb_forall. setoid_rewrite <- list_elem_of_In.
  intros ((((((((Hn & Hm) & HW) & Hr) & Hr') & Hx) & Hx') & Ho) & Hw). split; try lia.
  - intros r. rewrite mentioned_routers. split; [intros ?%Hr; lia|]. intros H.
    specialize (Hr' r ltac:(apply elem_of_seqZ; lia)). by apply bool_decide_eq_true in Hr'.
  - intros x. setoid_rewrite event_nodes. split; [intros [h H%Hx]; simpl in H; lia|]. intros H.
    specialize (Hx' x ltac:(apply elem_of_seqZ; lia)). apply bool_decide_eq_true, list_elem_of_fmap in Hx' as ([y h] & -> & Hy).
    by exists h.
  - intros h h' x H1%event_nodes H2%event_nodes. specialize (Ho _ H1). rewrite forallb_forall in Ho.
    setoid_rewrite <- list_elem_of_In in Ho. specialize (Ho _ H2). simpl in Ho. rewrite Z.eqb_refl in Ho. simpl in Ho. lia.
  - intros h r w H%Hw. simpl in H. lia.
Qed.

Lemma example_ok : file_ok 3 9 1 example_lines.
Proof. apply file_okb_ok. by vm_compute. Qed.

Lemma anynet_file_roundtrip_witness : returns (readFile (Some example_text)) (λ net, net_ok 3 9 1 net ∧
    (∀ u v, mfind v (row (an_router net) u) = pair (-1) <$> link_lat (events example_lines) u v) ∧
    (∀ x, mfind x (an_node_list net) = home (events example_lines) x)).
Proof. rewrite <- example_printed. apply (anynet_file_roundtrip 3 9 1 example_lines). apply example_ok. Defined.

(** ** Delivery *)

(** A path of links from [u] to [v]. *)
Definition reaches (ls : list line) : Z → Z → Prop := rtc (λ u v, is_Some (link_lat (events ls) u v)).

Section file.
Context (n m W : Z) (ls : list line) (net : AnyNet) (HI : read_inv (events ls) net).

Lemma reaches_path u v : reaches ls u v ↔ ∃ d, path id (an_router net) u v d.
Proof.
  split.
  - intros H. assert (∀ x y, is_Some (link_lat (events ls) x y) → ∃ w, edge id (an_router net) x y w) as He.
    { intros x y [w E]. exists w, (-1), w. by rewrite (ri_link _ _ HI), E. }
    induction H as [u|u x v Hux _ [d IH]]; [exists 0; constructor|]. destruct (He u x Hux) as [w Hw].
    exists (w + d). apply path_trans with x; [by apply path_edge|done].
  - intros [d Hp]. induction Hp as [|x y d w _ IH (p & l & Hf & _)]; [constructor|]. eapply rtc_r; [exact IH|].
    rewrite (ri_link _ _ HI) in Hf. apply fmap_Some in Hf as (l' & -> & _). by eexists.
Qed.

Lemma reaches_sym u v : reaches ls u v → reaches ls v u.
Proof.
  assert (Symmetric (λ u v, is_Some (link_lat (events ls) u v))) as Hs by (intros x y; apply link_lat_sym).
  intros H. pose proof (rtc_equivalence Hs). by symmetry.
Qed.
End file.

Lemma New_BuildNet n m W ls fuel name net : file_ok n m W ls → name ≠ "" → readFile (Some (print_file ls)) = Ok net →
  New fuel name (Some (print_file ls)) = BuildNet fuel net.
Proof. intros Hf Hn E. unfold New. destruct (String.eqb_spec name ""); [done|]. by rewrite E. Qed.

(** What the constructor makes of a file whose routers are all linked. *)
Lemma New_built n m W ls fuel name : file_ok n m W ls → n * W < int_max → (∀ v, 0 ≤ v < n → reaches ls 0 v) → n ≤ Z.of_nat fuel → name ≠ "" →
  returns (New fuel name (Some (print_file ls))) (λ '(b, table), ∃ net,
    readFile (Some (print_file ls)) = Ok net ∧ net_ok n m W net ∧ read_inv (events ls) net ∧ laid_out net n b ∧ zlen table = n ∧
    (∀ u v, 0 ≤ u < n → 0 ≤ v < n → ∃ d, path id (an_router net) u v d) ∧
    ∀ r, 0 ≤ r < n → row_ok id (an_router (bu_net b)) n (an_node (bu_net b)) r table).
Proof.
  intros Hf Hfits Hconn Hfuel Hname. destruct (readFile_ok n m W ls Hf) as (net & En & Hok & HI).
  rewrite (New_BuildNet n m W ls fuel name net Hf Hname En). pose proof (fo_W _ _ _ _ Hf) as HW.
  destruct (BuildNet_wired net n m W Hok fuel) as (b & Hlo & ->). pose proof Hlo as [Hb Hk Hk' Hl Hn _ _ _ _].
  assert (∀ u v, 0 ≤ u < n → 0 ≤ v < n → ∃ d, path id (an_router net) u v d) as Hpaths.
  { intros u v Hu Hv. apply (reaches_path ls net HI). trans 0; [by apply reaches_sym, Hconn|by apply Hconn]. }
  eapply returns_bind; [apply (buildRoutingTable_ok net n m W Hok ltac:(lia) Hfits Hpaths b Hb Hk Hk' Hl Hn fuel Hfuel)|].
  intros table [Htl Hrows]. apply returns_ok. exists net. split_and!; done.
Qed.

(** C11. A well-formed file whose routers are all linked: the constructor succeeds,
    in as many steps per table as there are routers; the wiring is that of the
    file; and with the routing tables it computes, a packet at any router, in any
    class, is ejected at its destination and nowhere else, after channels whose
    latencies add up to the length of a shortest path. *)
Theorem anynet_delivers n m W ls fuel name :
  file_ok n m W ls → n * W < int_max → (∀ v, 0 ≤ v < n → reaches ls 0 v) → n ≤ Z.of_nat fuel → name ≠ "" →
  returns (New fuel name (Some (print_file ls))) (λ '(b, table), ∃ net,
    readFile (Some (print_file ls)) = Ok net ∧ wiring_ok net n b ∧
    ∀ G f r, class_of G f → 0 ≤ r < n → 0 ≤ f_dest f < m → ∃ rx d,
      home (events ls) (f_dest f) = Some rx ∧ shortest id (an_router net) r rx d ∧ trip b table n G f r (f_dest f) d ∧
      ∀ y d', trip b table n G f r y d' → y = f_dest f ∧ d' = d).
Proof.
  intros Hf Hfits Hconn Hfuel Hname. pose proof (fo_W _ _ _ _ Hf) as HW. eapply returns_mono; [by apply (New_built n m W ls fuel name)|].
  intros [b table] (net & En & Hok & HI & [Hb Hk Hk' Hl Hn _ _ _ _] & Htl & Hpaths & Hrows). exists net. split_and!; [done|done|]. intros G f r Hc Hr Hd.
  destruct (proj2 (fo_nodes _ _ _ _ Hf (f_dest f)) Hd) as [h Hh]. destruct (home_some _ _ _ Hh) as [rx Erx].
  destruct (delivered net n m W Hok ltac:(lia) Hfits Hpaths b Hb Hk Hk' Hl Hn table Htl Hrows G f r rx Hc Hr) as (d & ? & ? & ?);
    [by rewrite (ri_list _ _ HI)|]. by exists rx, d.
Qed.

Lemma anynet_delivers_witness :
  returns (New 3 "anynet_file" (Some example_text)) (λ '(b, table), ∃ net,
    readFile (Some example_text) = Ok net ∧ wiring_ok net 3 b ∧
    ∀ G f r, class_of G f → 0 ≤ r < 3 → 0 ≤ f_dest f < 9 → ∃ rx d,
      home (events example_lines) (f_dest f) = Some rx ∧ shortest id (an_router net) r rx d ∧ trip b table 3 G f r (f_dest f) d ∧
      ∀ y d', trip b table 3 G f r y d' → y = f_dest f ∧ d' = d).
Proof.
  rewrite <- example_printed. apply (anynet_delivers 3 9 1 example_lines); try done; [apply example_ok|].
  intros v Hv. assert (v = 0 ∨ v = 1 ∨ v = 2) as [->|[->| ->]] by lia; [constructor|apply rtc_once; by eexists..].
Defined.

(** ** Termination *)

(** C25. The constructor ends exactly on networks in one piece: with all routers
    linked it returns; with a router that router 0 does not reach, the search for
    the first table never ends, whatever the number of steps. *)
Theorem anynet_terminates n m W ls fuel name :
  file_ok n m W ls → n * W < int_max → n ≤ Z.of_nat fuel → name ≠ "" →
  ((∀ v, 0 ≤ v < n → reaches ls 0 v) → ∃ bt, New fuel name (Some (print_file ls)) = Ok bt) ∧
  (∀ v, 0 ≤ v < n → ¬ reaches ls 0 v → ∀ fuel', New fuel' name (Some (print_file ls)) = Fail OutOfFuel).
Proof.
  intros Hf Hfits Hfuel Hname. destruct (readFile_ok n m W ls Hf) as (net & En & Hok & HI). pose proof (fo_W _ _ _ _ Hf) as HW. split.
  - intros Hconn. destruct (New_built n m W ls fuel name Hf Hfits Hconn Hfuel Hname) as (bt & -> & _). by exists bt.
  - intros v Hv Hun fuel'. rewrite (New_BuildNet n m W ls fuel' name net Hf Hname En).
    destruct (BuildNet_wired net n m W Hok fuel') as (b & [Hb Hk Hk' Hl Hn _ _ _ _] & ->). unfold buildRoutingTable, zfor.
    replace (Z.to_nat (n - 0)) with (S (Z.to_nat (n - 1))) by lia. cbn [for_loop].
    rewrite (route_diverges id (an_router (bu_net b)) n W 0 v); [done|..].
    + apply (built_graph net n m W Hok ltac:(lia) Hfits b Hb Hk Hl).
    + lia.
    + done.
    + intros d Hp. apply Hun, (reaches_path ls net HI). exists d.
      by apply (path_ext _ _ (built_edge net n b Hb Hk)).
Qed.

(** Two routers without a link between them. *)
Definition apart_lines : list line := [(0, [INode 0]); (1, [INode 1])].

Lemma apart_unreached : ¬ reaches apart_lines 0 1.
Proof.
  intros H. apply rtc_inv in H as [H|(u & Hu & _)]; [done|]. assert (∀ u, link_lat (events apart_lines) 0 u = None) as Hnone by done.
  rewrite Hnone in Hu. by destruct Hu.
Qed.

Lemma anynet_terminates_witness :
  (∃ bt, New 3 "anynet_file" (Some (print_file example_lines)) = Ok bt) ∧ (∀ fuel, New fuel "anynet_file" (Some (print_file apart_lines)) = Fail OutOfFuel).
Proof.
  split.
  - apply (anynet_terminates 3 9 1 example_lines); try done; [apply example_ok|].
    intros v Hv. assert (v = 0 ∨ v = 1 ∨ v = 2) as [->|[->| ->]] by lia; [constructor|apply rtc_once; by eexists..].
  - apply (anynet_terminates 2 2 1 apart_lines 2 "anynet_file") with (v := 1); try done; [apply file_okb_ok; by vm_compute|apply apart_unreached].
Defined.

(** ** Files the documentation allows *)

(** Example 2 of the comment in anynet.cpp, completed by a second router:
    [node 1 5] is meant to give node 1 a latency of five cycles.  It makes a link
    from router 0 to router 1, and one to a router 2 that does not exist. *)
Example node_latency_makes_links :
  readFile (Some "router 0 node 0 node 1 5 node 2 5
router 1 node 3 router 0") = Ok (mkAnyNet
    [(0, [(0, (-1, 1)); (1, (-1, 1)); (2, (-1, 1))]); (1, [(3, (-1, 1))])]
    [(0, [(1, (0, 5)); (2, (0, 5))]); (1, [(0, (-1, 1))])] [(0, 0); (1, 0); (2, 0); (3, 1)]) ∧
  New 10 "file" (Some "router 0 node 0 node 1 5 node 2 5
router 1 node 3 router 0") = Fail OutOfRange.
Proof. split; by vm_compute. Qed.

(** A line that starts with a node makes a router with the node's number, which
    has no links: the search for the routing table does not end. *)
Example node_line_makes_router :
  readFile (Some "router 0 node 0 router 1
node 1 router 1
node 2 router 1") = Ok (mkAnyNet
    [(0, [(0, (-1, 1))]); (1, [(1, (-1, 1)); (2, (-1, 1))]); (2, [])]
    [(0, [(1, (-1, 1))]); (1, [(0, (-1, 1))]); (2, [])] [(0, 0); (1, 1); (2, 1)]) ∧
  New 1000 "file" (Some "router 0 node 0 router 1
node 1 router 1
node 2 router 1") = Fail OutOfFuel.
Proof. split; by vm_compute. Qed.
