(* ===== verification/DGX.v ===== *)
(** * The NVIDIA DGX-1 topology

    [NVIDIADGX1] (networks/nvidia_dgx_1.cpp): boxes of fourteen routers, two
    trees of one CPU, two PCIe switches and four GPUs each, with a hyper-mesh of
    NVLinks between the GPUs; every link is a bus of several lanes and every
    router has 64 virtual nodes.  [cout] messages are left out. *)

From S2P Require Import Prelude StdMap OutputSet Flit Rng KNCube Route Dijkstra AnyNet.

Inductive BusLatency : Set := PCIe_Gen3_x16 | NVLink_V1 | NVLink_V2 | QPI.

(** The values of the enumeration, cycles per flit. *)
Definition bus_latency (b : BusLatency) : Z :=
  match b with PCIe_Gen3_x16 => 16 | NVLink_V1 => 6 | NVLink_V2 => 2 | QPI => 1 end.

Inductive version : Set := P100 | V100.

(** A link: its virtual output port and its bus. *)
Abbreviation bus_links := (imap (imap (Z * BusLatency))).

Record Topology : Set := mkTopology {
  GPU_node_list : iset;
  CPU_node_list : iset;
  PCIe_Switch_list : iset;
  node_list : imap Z;
  node_router : bus_links;
  router_router : bus_links
}.

Module TopologyOps.

(** [m[k][j] = (-1, bus)]. *)
Definition add_link (k j : Z) (bus : BusLatency) (m : bus_links) : bus_links := mset k (mset j (-1, bus) (row m k)) m.

Definition add_node (k : Z) (bus : BusLatency) (t : Topology) : Topology :=
  mkTopology (GPU_node_list t) (CPU_node_list t) (PCIe_Switch_list t)
    (mset k k (node_list t)) (add_link k k bus (node_router t)) (router_router t).
Definition add_bus (k j : Z) (bus : BusLatency) (t : Topology) : Topology :=
  mkTopology (GPU_node_list t) (CPU_node_list t) (PCIe_Switch_list t)
    (node_list t) (node_router t) (add_link k j bus (router_router t)).
Definition add_GPU (k : Z) (t : Topology) : Topology :=
  mkTopology (mset k tt (GPU_node_list t)) (CPU_node_list t) (PCIe_Switch_list t) (node_list t) (node_router t) (router_router t).
Definition add_CPU (k : Z) (t : Topology) : Topology :=
  mkTopology (GPU_node_list t) (mset k tt (CPU_node_list t)) (PCIe_Switch_list t) (node_list t) (node_router t) (router_router t).
Definition add_PS (k : Z) (t : Topology) : Topology :=
  mkTopology (GPU_node_list t) (CPU_node_list t) (mset k tt (PCIe_Switch_list t)) (node_list t) (node_router t) (router_router t).

Definition buildBinaryTree (offset : Z) (t : Topology) : res Topology :=
  let CPU_node := offset in
  let t := add_CPU CPU_node t in
  let t := add_node CPU_node PCIe_Gen3_x16 t in
  let t := add_bus CPU_node (offset + 1) PCIe_Gen3_x16 t in
  let t := add_bus CPU_node (offset + 2) PCIe_Gen3_x16 t in
  t ← zfor 2 4 (λ i t,
    let PS_node := offset + i - 1 in
    let t := add_PS PS_node t in
    let t := add_node PS_node PCIe_Gen3_x16 t in
    let t := add_bus PS_node (offset + i * 2 - 1) PCIe_Gen3_x16 t in
    let t := add_bus PS_node (offset + i * 2) PCIe_Gen3_x16 t in
    Ok (add_bus PS_node (offset + i `quot` 2 - 1) PCIe_Gen3_x16 t)) t;
  zfor 4 8 (λ i t,
    let GPU_node := offset + i - 1 in
    let t := add_GPU GPU_node t in
    let t := add_node GPU_node NVLink_V1 t in
    Ok (add_bus GPU_node (offset + i `quot` 2 - 1) PCIe_Gen3_x16 t)) t.

Definition same (d g k : Z) : bool := g `quot` d =? (g + k) `quot` d.

Definition gpu_links (v : version) (t : Topology) (GPU_node : Z) : Topology :=
  let diagonal_GPU := if same 7 GPU_node 2 then GPU_node + 2 else GPU_node - 2 in
  let other_plane_GPU := if same 14 GPU_node 7 then GPU_node + 7 else GPU_node - 7 in
  let left_GPU := if same 7 GPU_node 3 then GPU_node + 3 else GPU_node - 1 in
  let right_GPU := if same 7 GPU_node 1 then GPU_node + 1 else GPU_node - 3 in
  let t := add_bus GPU_node diagonal_GPU NVLink_V1 t in
  match v with
  | P100 =>
      add_bus GPU_node right_GPU NVLink_V1 (add_bus GPU_node left_GPU NVLink_V1 (add_bus GPU_node other_plane_GPU NVLink_V1 t))
  | V100 =>
      if same 7 GPU_node 2 then
        let t := add_bus GPU_node other_plane_GPU NVLink_V2 t in
        if same 7 GPU_node 3 then add_bus GPU_node right_GPU NVLink_V1 (add_bus GPU_node left_GPU NVLink_V2 t)
        else add_bus GPU_node right_GPU NVLink_V2 (add_bus GPU_node left_GPU NVLink_V1 t)
      else
        add_bus GPU_node right_GPU NVLink_V2 (add_bus GPU_node left_GPU NVLink_V2 (add_bus GPU_node other_plane_GPU NVLink_V1 t))
  end.

Definition buildHyperCube (v : version) (t : Topology) : Topology :=
  foldl (λ t x, gpu_links v t x.1) t (GPU_node_list t).

Definition buildTopology (v : version) (num_dgx1 : Z) : res Topology :=
  zfor 0 num_dgx1 (λ i t,
    t ← zfor 0 2 (λ plane t, buildBinaryTree (i * 14 + plane * 7) t) t;
    let t := buildHyperCube v t in
    let t := add_bus (i * 14) (i * 14 + 7) QPI t in
    Ok (add_bus (i * 14 + 7) (i * 14) QPI t)) (mkTopology [] [] [] [] [] []).

Definition getLanesNum (bus : BusLatency) : Z :=
  match bus with PCIe_Gen3_x16 => 16 | NVLink_V1 => 8 | NVLink_V2 => 8 | QPI => 1 end.

(** [_channels], [_size] and [_nodes]. *)
Definition ComputeSize (t : Topology) : Z * Z * Z :=
  (foldl (λ c r, foldl (λ c l, c + getLanesNum l.2.2) c r.2) 0 (router_router t), zlen (router_router t), 64 * zlen (node_list t)).

End TopologyOps.

(** ** Routes in a tree *)

(** [dep]; 32 steps are enough for an [int]. *)
Definition dep (x : Z) : Z :=
  (fix loop (fuel : nat) (x d : Z) : Z :=
     match fuel with
     | O => d
     | S fuel => if 0 <? x then loop fuel (Z.shiftr x 1) (d + 1) else d
     end) 32%nat x 0.

(** The two loops of [next_hop]; the state is the positions, the first hops and
    the flags. *)
Fixpoint climb (fuel : nat) (x y first_hop_y last_hop_y : Z) (flag1 : bool) : res (Z * Z * Z) :=
  if dep x <? dep y then
    match fuel with
    | O => Fail OutOfFuel
    | S fuel =>
        let last_hop_y := y in
        let y := Z.shiftr y 1 in
        climb fuel x y (if flag1 then first_hop_y else y) last_hop_y true
    end
  else Ok (y, first_hop_y, last_hop_y).

Fixpoint meet (fuel : nat) (x y first_hop_x : Z) (flag2 : bool) : res Z :=
  if x =? y then Ok first_hop_x
  else
    match fuel with
    | O => Fail OutOfFuel
    | S fuel =>
        let x := Z.shiftr x 1 in
        meet fuel x (Z.shiftr y 1) (if flag2 then first_hop_x else x) true
    end.

Definition next_hop (x y : Z) : res (Z * Z) :=
  let x := x + 1 in
  let y := y + 1 in
  let flag := dep y <? dep x in
  let '(x, y) := if flag then (y, x) else (x, y) in
  '(y', first_hop_y, last_hop_y) ← climb 32 x y y y false;
  let first_hop_x := if x =? y' then last_hop_y else x in
  first_hop_x ← meet 32 x y' first_hop_x false;
  let '(first_hop_x, first_hop_y) := if flag then (first_hop_y, first_hop_x) else (first_hop_x, first_hop_y) in
  Ok (first_hop_x - 1, first_hop_y - 1).

(** ** Wiring and routing tables *)

(** The network under construction: the topology with its virtual ports; per
    router the next virtual port and the actual ports of every virtual one, the
    number of actual ports so far; the virtual nodes of every node, the node of
    every virtual node, and an iterator into the virtual nodes of every node
    ([None] is [end()]); the ports of the routers; the latencies of the channels. *)
Record DGXNet : Set := mkDGXNet {
  dn_topology : Topology;
  dn_virtual_outport : list Z;
  dn_actual_outports : list (imap iset);
  dn_actual_outcnt : imap Z;
  dn_virtual_nodes : imap iset;
  dn_actual_node : imap Z;
  dn_last_vnode : list (option Z);
  dn_routers : list (option Ports);
  dn_node_lat : list Z;
  dn_chan_lat : list Z
}.

Module DGXOps.
Import TopologyOps.

(** [begin()] and [++] of an iterator of a set. *)
Definition set_begin (s : iset) : option Z := match s with [] => None | (k, _) :: _ => Some k end.
Definition set_next (s : iset) (k : Z) : option Z := set_begin (filter (λ x, k < x.1) s).

Definition getRouterPortsNum (t : Topology) (router : Z) : res Z :=
  match mfind router (node_router t), mfind router (router_router t) with
  | Some nodes, Some links => Ok (64 * zlen nodes + foldl (λ c l, c + getLanesNum l.2.2) 0 links)
  | _, _ => Fail BadIterator
  end.

(** [actual_outports[node][vport].insert(actual_outcnt[node]); actual_outcnt[node]++]. *)
Definition add_actual (node vport : Z) (n : DGXNet) : res DGXNet :=
  let cnt := default 0 (mfind node (dn_actual_outcnt n)) in
  ports ← vget (dn_actual_outports n) node;
  outports ← vset (dn_actual_outports n) node (mset vport (mset cnt tt (row ports vport)) ports);
  Ok (mkDGXNet (dn_topology n) (dn_virtual_outport n) outports (mset node (cnt + 1) (dn_actual_outcnt n))
        (dn_virtual_nodes n) (dn_actual_node n) (dn_last_vnode n) (dn_routers n) (dn_node_lat n) (dn_chan_lat n)).

(** One lane of the connection of node [link] to router [node]. *)
Definition node_lane (node link vport : Z) (s : DGXNet * Z) : res (DGXNet * Z) :=
  let '(n, vnode) := s in
  n ← add_actual node vport n;
  let vnodes := mset link (mset vnode tt (row (dn_virtual_nodes n) link)) (dn_virtual_nodes n) in
  let actual := mset vnode link (dn_actual_node n) in
  node_lat ← vset (dn_node_lat n) vnode 1;
  routers ← AnyNetOps.add_channels (dn_routers n) node [Inject vnode] [Eject vnode];
  Ok (mkDGXNet (dn_topology n) (dn_virtual_outport n) (dn_actual_outports n) (dn_actual_outcnt n)
        vnodes actual (dn_last_vnode n) routers node_lat (dn_chan_lat n), vnode + 1).

Definition bump_virtual (node : Z) (n : DGXNet) : res DGXNet :=
  p ← vget (dn_virtual_outport n) node;
  v ← vset (dn_virtual_outport n) node (p + 1);
  Ok (mkDGXNet (dn_topology n) v (dn_actual_outports n) (dn_actual_outcnt n)
        (dn_virtual_nodes n) (dn_actual_node n) (dn_last_vnode n) (dn_routers n) (dn_node_lat n) (dn_chan_lat n)).

(** The body of the loop over [niter->second]. *)
Definition build_node (node link : Z) (bus : BusLatency) (s : DGXNet * Z) : res (DGXNet * Z) :=
  let '(n, vnode) := s in
  p ← vget (dn_virtual_outport n) node;
  let t := dn_topology n in
  let t := mkTopology (GPU_node_list t) (CPU_node_list t) (PCIe_Switch_list t) (node_list t)
             (mset node (mset link (p, bus) (row (node_router t) node)) (node_router t)) (router_router t) in
  last ← vset (dn_last_vnode n) link (set_begin (row (dn_virtual_nodes n) link));
  let n := mkDGXNet t (dn_virtual_outport n) (dn_actual_outports n) (dn_actual_outcnt n)
             (dn_virtual_nodes n) (dn_actual_node n) last (dn_routers n) (dn_node_lat n) (dn_chan_lat n) in
  '(n, vnode) ← zfor 0 64 (λ _, node_lane node link p) (n, vnode);
  n ← bump_virtual node n;
  Ok (n, vnode).

Definition build_router (t : Topology) (node : Z) (nodes : imap (Z * BusLatency)) (s : DGXNet * Z) : res (DGXNet * Z) :=
  let '(n, vnode) := s in
  radix ← getRouterPortsNum t node;
  routers ← vset (dn_routers n) node (Some (mkPorts radix [] []));
  let n := mkDGXNet (dn_topology n) (dn_virtual_outport n) (dn_actual_outports n) (dn_actual_outcnt n)
             (dn_virtual_nodes n) (dn_actual_node n) (dn_last_vnode n) routers (dn_node_lat n) (dn_chan_lat n) in
  foldl (λ m x, s ← m; build_node node x.1 x.2.2 s) (Ok (n, vnode)) nodes.

(** One lane of a bus between routers. *)
Definition link_lane (node other_node vport lat : Z) (s : DGXNet * Z) : res (DGXNet * Z) :=
  let '(n, link) := s in
  n ← add_actual node vport n;
  chan_lat ← vset (dn_chan_lat n) link lat;
  routers ← AnyNetOps.add_channels (dn_routers n) node [] [Chan link];
  routers ← AnyNetOps.add_channels routers other_node [Chan link] [];
  Ok (mkDGXNet (dn_topology n) (dn_virtual_outport n) (dn_actual_outports n) (dn_actual_outcnt n)
        (dn_virtual_nodes n) (dn_actual_node n) (dn_last_vnode n) routers (dn_node_lat n) chan_lat, link + 1).

(** The body of the loop over [riter->second]; the channels are counted by
    [pchannel_count]. *)
Definition build_bus (node other_node : Z) (bus : BusLatency) (s : DGXNet * Z) : res (DGXNet * Z) :=
  let '(n, pchannel_count) := s in
  p ← vget (dn_virtual_outport n) node;
  let t := dn_topology n in
  let t := mkTopology (GPU_node_list t) (CPU_node_list t) (PCIe_Switch_list t) (node_list t) (node_router t)
             (mset node (mset other_node (p, bus) (row (router_router t) node)) (router_router t)) in
  let n := mkDGXNet t (dn_virtual_outport n) (dn_actual_outports n) (dn_actual_outcnt n)
             (dn_virtual_nodes n) (dn_actual_node n) (dn_last_vnode n) (dn_routers n) (dn_node_lat n) (dn_chan_lat n) in
  '(n, pchannel_count) ← zfor 0 (getLanesNum bus) (λ _, link_lane node other_node p (bus_latency bus)) (n, pchannel_count);
  n ← bump_virtual node n;
  Ok (n, pchannel_count).

Definition build_buses (t : Topology) (node : Z) (s : DGXNet * Z) : res (DGXNet * Z) :=
  match mfind node (router_router t) with
  | None => Fail BadIterator
  | Some links => foldl (λ m x, s ← m; build_bus node x.1 x.2.2 s) (Ok s) links
  end.

(** [router_list[...][r][k].first]; a missing entry is made with port 0. *)
Definition port_of (m : bus_links) (r k : Z) : Z := match mfind k (row m r) with Some (p, _) => p | None => 0 end.

Definition set_route (table : list (imap Z)) (r k p : Z) : res (list (imap Z)) :=
  t ← vget table r; vset table r (mset k p t).

(** The routers a packet leaves [r_start] for and arrives at [i] from. *)
Definition tree_hops (r_start i : Z) : res (Z * Z) :=
  if r_start `quot` 7 =? i `quot` 7 then
    '(a, b) ← next_hop (r_start `rem` 7) (i `rem` 7);
    Ok (a + r_start `quot` 7 * 7, b + i `quot` 7 * 7)
  else
    next_hop_x ← (if r_start `rem` 7 =? 0 then Ok ((r_start + 7) `rem` 14 + r_start `quot` 14 * 14)
                  else '(_, b) ← next_hop 0 (r_start `rem` 7); Ok (b + r_start `quot` 7 * 7));
    '(_, b) ← next_hop 0 (i `rem` 7);
    Ok (next_hop_x, b + i `quot` 7 * 7).

Definition binarytree_route (t : Topology) (size r_start : Z) (table : list (imap Z)) : res (list (imap Z)) :=
  zfor 0 size (λ i table,
    if i =? r_start then set_route table r_start r_start (port_of (node_router t) r_start r_start)
    else
      '(next_hop_x, next_hop_y) ← tree_hops r_start i;
      table ← set_route table r_start i (port_of (router_router t) r_start next_hop_x);
      if 0 <? mcount i (GPU_node_list t) then set_route table i r_start (port_of (router_router t) i next_hop_y)
      else Ok table) table.

Definition buildRoutingTable (fuel : nat) (t : Topology) (size : Z) : res (list (imap Z)) :=
  let over (s : iset) (f : Z → list (imap Z) → res (list (imap Z))) m := foldl (λ m x, table ← m; f x.1 table) m s in
  over (PCIe_Switch_list t) (binarytree_route t size)
    (over (CPU_node_list t) (binarytree_route t size)
       (over (GPU_node_list t) (route bus_latency fuel (router_router t) (node_router t) size)
          (Ok (replicate (Z.to_nat size) [])))).

(** [_BuildNet] up to the routing table. *)
Definition wiring (t : Topology) : res DGXNet :=
  let '(channels, size, nodes) := ComputeSize t in
  let n := mkDGXNet t (replicate (Z.to_nat size) 0) (replicate (Z.to_nat size) []) [] [] []
             (replicate (Z.to_nat size) None) (replicate (Z.to_nat size) None)
             (replicate (Z.to_nat nodes) 1) (replicate (Z.to_nat channels) 1) in
  '(n, _) ← foldl (λ m x, s ← m; build_router t x.1 x.2 s) (Ok (n, 0)) (node_router t);
  '(n, _) ← foldl (λ m x, s ← m; build_buses t x.1 s) (Ok (n, 0)) (node_router t);
  Ok n.

(** The code also prints the tables; reading an entry that is missing adds it with the
    value 0.  With one box there is none. *)
Definition BuildNet (fuel : nat) (t : Topology) : res (DGXNet * list (imap Z)) :=
  n ← wiring t;
  table ← buildRoutingTable fuel (dn_topology n) (zlen (router_router t));
  Ok (n, table).

(** The constructor. *)
Definition New (fuel : nat) (v : version) (num_dgx1 : Z) : res (DGXNet * list (imap Z)) :=
  assert! 1 <=? num_dgx1;
  t ← buildTopology v num_dgx1;
  BuildNet fuel t.

Definition GetVirtualNode (node : Z) (n : DGXNet) : res (Z * DGXNet) :=
  it ← vget (dn_last_vnode n) node;
  match it with
  | None => Fail BadIterator
  | Some vnode =>
      let s := row (dn_virtual_nodes n) node in
      let next := match set_next s vnode with Some k => Some k | None => set_begin s end in
      last ← vset (dn_last_vnode n) node next;
      Ok (vnode, mkDGXNet (dn_topology n) (dn_virtual_outport n) (dn_actual_outports n) (dn_actual_outcnt n)
                   (dn_virtual_nodes n) (dn_actual_node n) last (dn_routers n) (dn_node_lat n) (dn_chan_lat n))
  end.

Definition GetActualNode (node : Z) (n : DGXNet) : Z := default 0 (mfind node (dn_actual_node n)).

Definition nccl_nvidiadgx1 (table : list (imap Z)) (out_ports : list (imap iset)) (G : Globals) (r : Router) (f : Flit)
    (in_channel : Z) (outputs : OutputSet) (inject : bool) (g : Rng) : res (OutputSet * Flit * Rng) :=
  ports ← (if inject then Ok [(-1, tt)]
    else
      t ← vget table (r_id r);
      match mfind (f_dest f) t with
      | None => Fail AssertFailed
      | Some virtual_outport =>
          ps ← vget out_ports (r_id r);
          match mfind virtual_outport ps with None => Fail AssertFailed | Some s => Ok s end
      end);
  vcBegin ← vget (gBeginVCs G) (f_cl f);
  vcEnd ← vget (gEndVCs G) (f_cl f);
  Ok (foldl (λ o x, OutputSetOps.AddRange o x.1 vcBegin vcEnd 0) (OutputSetOps.Clear outputs) ports, f, g).

End DGXOps.
