(* ===== verification/DGXRouting.v ===== *)
(** * Packets in a DGX-1

    The travel of packets in the network that [NVIDIADGX1] builds, in terms of
    the lanes, channels and virtual nodes of the wiring, and the finite checks
    that decide it for one box. *)

From stdpp Require Import relations.
From S2P Require Import Prelude StdMap OutputSet Flit Rng KNCube Route Dijkstra AnyNet DGX.
Import DGXOps TopologyOps.

#[export] Instance chan_id_eq_dec : EqDecision chan_id.
Proof. solve_decision. Defined.
#[export] Instance chan_opt_dec (o : option Ports) c : Decision (match o with Some po => Chan c ∈ po_inputs po | None => False end).
Proof. destruct o; apply _. Defined.

(** ** Sends, leads, trips *)

Section travel.
Context (n : DGXNet) (table : list (imap Z)) (size : Z) (G : Globals).

(** The packet's class has VCs. *)
Definition dgx_class (f : Flit) : Prop :=
  0 ≤ f_cl f < zlen (gBeginVCs G) ∧ 0 ≤ f_cl f < zlen (gEndVCs G) ∧ (gBeginVCs G)⟦f_cl f⟧ ≤ (gEndVCs G)⟦f_cl f⟧.

(** At router [r] the routing function offers the lane [port] and [vc] to [f]. *)
Definition lane_offered (r : Z) (f : Flit) (port vc : Z) : Prop := ∃ R in_channel outputs g outputs' f' g' se,
  r_id R = r ∧ nccl_nvidiadgx1 table (dn_actual_outports n) G R f in_channel outputs false g = Ok (outputs', f', g') ∧
  se ∈ outputs' ∧ output_port se = port ∧ vc_start se ≤ vc ≤ vc_end se.

Definition lane_leads (r port : Z) (c : chan_id) : Prop := ∃ p,
  (dn_routers n)⟦r⟧ = Some p ∧ 0 ≤ port ∧ po_outputs p !! Z.to_nat port = Some c.

(** Channel [c] ends at router [v]. *)
Definition ends_at (c v : Z) : Prop := ∃ p, 0 ≤ v < size ∧ (dn_routers n)⟦v⟧ = Some p ∧ Chan c ∈ po_inputs p.

(** [dgx_trip f r vnode h d]: from router [r] packet [f] can end up at virtual
    node [vnode], over [h] channels of total latency [d]. *)
Inductive dgx_trip : Flit → Z → Z → Z → Z → Prop :=
  | dgx_eject f r port vc vnode :
      lane_offered r f port vc → lane_leads r port (Eject vnode) → dgx_trip f r vnode 0 0
  | dgx_hop f f' r port vc c v vnode h d :
      lane_offered r f port vc → lane_leads r port (Chan c) → ends_at c v →
      f_dest f' = f_dest f → f_cl f' = f_cl f →
      dgx_trip f' v vnode h d → dgx_trip f r vnode (h + 1) ((dn_chan_lat n)⟦c⟧ + d).

(** A packet of a valid class and destination that holds VC [b.2] of channel [b.1] is offered VC [b'.2] of
    channel [b'.1] at the router where [b.1] ends. *)
Definition dgx_waits_for (b b' : Z * Z) : Prop := ∃ u v f f' port port',
  0 ≤ u < size ∧ dgx_class f ∧ 0 ≤ f_dest f < size ∧ lane_offered u f port b.2 ∧ lane_leads u port (Chan b.1) ∧ ends_at b.1 v ∧
  f_dest f' = f_dest f ∧ f_cl f' = f_cl f ∧ lane_offered v f' port' b'.2 ∧ lane_leads v port' (Chan b'.1).

Definition dgx_deadlock_free : Prop := ∀ b, ¬ tc dgx_waits_for b b.

(** ** The first lane *)

(** The routing function adds every lane of the bus with the same priority, and
    the set keeps the first. *)
Definition first_lane (r x : Z) : option Z :=
  p ← mfind x (table⟦r⟧); s ← mfind p ((dn_actual_outports n)⟦r⟧); set_begin s.

Lemma lanes_dropped e l b0 e0 : se_pri e = 0 →
  foldl (λ o (x : Z * unit), OutputSetOps.AddRange o x.1 b0 e0 0) [e] l = [e].
Proof.
  intros He. induction l as [|x l IH]; [done|]. simpl.
  assert (OutputSetOps.AddRange [e] x.1 b0 e0 0 = [e]) as ->; [|done].
  unfold OutputSetOps.AddRange. simpl. unfold se_lt. simpl. by rewrite He.
Qed.

Lemma nccl_one_lane r f port R i outs g : zlen table = size → zlen (dn_actual_outports n) = size → 0 ≤ r < size → dgx_class f →
  r_id R = r → first_lane r (f_dest f) = Some port →
  nccl_nvidiadgx1 table (dn_actual_outports n) G R f i outs false g =
    Ok ([SetElement ((gBeginVCs G)⟦f_cl f⟧) ((gEndVCs G)⟦f_cl f⟧) 0 port], f, g).
Proof.
  intros Ht Ho Hr (Hb & He & _) HR Hl. unfold first_lane in Hl. unfold nccl_nvidiadgx1. rewrite HR, (vget_ok table) by lia.
  cbn [mbind res_bind]. destruct (mfind (f_dest f) (table⟦r⟧)) as [p|]; [|done]. simpl in Hl.
  rewrite (vget_ok (dn_actual_outports n)) by lia. cbn [mbind res_bind].
  destruct (mfind p ((dn_actual_outports n)⟦r⟧)) as [[|[k []] l]|]; simpl in Hl; try done. injection Hl as <-. cbn [mbind res_bind].
  rewrite !vget_ok by lia. cbn [mbind res_bind foldl]. do 3 f_equal.
  exact (lanes_dropped (SetElement _ _ 0 k) l _ _ eq_refl).
Qed.

Lemma offered_iff r f port vc : zlen table = size → zlen (dn_actual_outports n) = size → 0 ≤ r < size → dgx_class f →
  lane_offered r f port vc ↔ first_lane r (f_dest f) = Some port ∧ (gBeginVCs G)⟦f_cl f⟧ ≤ vc ≤ (gEndVCs G)⟦f_cl f⟧.
Proof.
  intros Ht Ho Hr Hc. split.
  - intros (R & i & outs & g & outs' & f' & g' & se & HR & E & Hse & <- & Hv).
    destruct (first_lane r (f_dest f)) as [p|] eqn:Ep.
    + rewrite (nccl_one_lane r f p R i outs g Ht Ho Hr Hc HR Ep) in E. injection E as <- _ _.
      by apply list_elem_of_singleton in Hse as ->.
    + exfalso. destruct Hc as (Hb & He & _). unfold first_lane in Ep. unfold nccl_nvidiadgx1 in E.
      rewrite HR, (vget_ok table) in E by lia. cbn [mbind res_bind] in E.
      destruct (mfind (f_dest f) (table⟦r⟧)) as [p|]; [|done]. simpl in Ep.
      rewrite (vget_ok (dn_actual_outports n)) in E by lia. cbn [mbind res_bind] in E.
      destruct (mfind p ((dn_actual_outports n)⟦r⟧)) as [[|[k []] l]|]; simpl in Ep; try done. cbn [mbind res_bind] in E.
      rewrite !vget_ok in E by lia. cbn [mbind res_bind foldl] in E. injection E as <- _ _. by apply elem_of_nil in Hse.
  - intros [Hl Hv]. exists (mkRouter r [] []), 0, [], RngOps.initial. eexists _, _, _, _.
    split_and!; [done|by apply (nccl_one_lane r f port)|by apply list_elem_of_singleton|done|apply Hv..].
Qed.

(** ** Following a packet *)

(** The channel behind the first lane, the routers a channel ends at, and where
    a packet ends up in [fuel] steps. *)
Definition lane_chan (r x : Z) : option chan_id :=
  p ← first_lane r x; po ← (dn_routers n)⟦r⟧; if 0 <=? p then po_outputs po !! Z.to_nat p else None.
Definition sinks (c : Z) : list Z :=
  filter (λ v, match (dn_routers n)⟦v⟧ with Some po => Chan c ∈ po_inputs po | None => False end) (seqZ 0 size).

Fixpoint walk (fuel : nat) (r x : Z) : option (Z * Z * Z) :=
  match fuel with
  | O => None
  | S fuel =>
      match lane_chan r x with
      | Some (Eject vnode) => Some (vnode, 0, 0)
      | Some (Chan c) =>
          match sinks c with
          | [v] => '(vnode, h, d) ← walk fuel v x; Some (vnode, h + 1, (dn_chan_lat n)⟦c⟧ + d)
          | _ => None
          end
      | _ => None
      end
  end.

Lemma elem_sinks c v : v ∈ sinks c ↔ ends_at c v.
Proof.
  unfold sinks, ends_at. rewrite list_elem_of_filter, elem_of_seqZ. split.
  - intros [H Hv]. destruct ((dn_routers n)⟦v⟧) as [po|]; [|done]. exists po. split_and!; [lia|lia|done|done].
  - intros (po & Hv & -> & H). split; [done|lia].
Qed.

Section walk.
Context (Ht : zlen table = size) (Ho : zlen (dn_actual_outports n) = size).

Lemma lane_chan_leads r x port c : first_lane r x = Some port → lane_leads r port c ↔ lane_chan r x = Some c.
Proof.
  intros Hl. unfold lane_leads, lane_chan. rewrite Hl. simpl. split.
  - intros (p & -> & H0 & Hc). simpl. by destruct (Z.leb_spec 0 port); [|lia].
  - destruct ((dn_routers n)⟦r⟧) as [p|]; simpl; [|done]. destruct (Z.leb_spec 0 port); [|done]. intros Hc. by exists p.
Qed.

(** What is offered leads to one channel. *)
Lemma offered_chan r f port vc c : 0 ≤ r < size → dgx_class f → lane_offered r f port vc → lane_leads r port c →
  lane_chan r (f_dest f) = Some c.
Proof. intros Hr Hc [Hl _]%offered_iff Hle; [|done..]. by apply (lane_chan_leads r (f_dest f) port c Hl). Qed.

Lemma chan_offered r f c vc : 0 ≤ r < size → dgx_class f → lane_chan r (f_dest f) = Some c →
  (gBeginVCs G)⟦f_cl f⟧ ≤ vc ≤ (gEndVCs G)⟦f_cl f⟧ → ∃ port, lane_offered r f port vc ∧ lane_leads r port c.
Proof.
  intros Hr Hc Hl Hv. destruct (first_lane r (f_dest f)) as [port|] eqn:E; [|unfold lane_chan in Hl; by rewrite E in Hl].
  exists port. rewrite offered_iff by done. split; [done|]. by apply (lane_chan_leads r (f_dest f)).
Qed.

Lemma walk_ok x : ∀ fuel r f vnode h d, 0 ≤ r < size → dgx_class f → f_dest f = x → walk fuel r x = Some (vnode, h, d) →
  dgx_trip f r vnode h d ∧ ∀ vnode' h' d', dgx_trip f r vnode' h' d' → vnode' = vnode ∧ h' = h ∧ d' = d.
Proof.
  induction fuel as [|fuel IH]; intros r f vnode h d Hr Hc Hx Hw; [done|]. simpl in Hw.
  destruct (lane_chan r x) as [[c|?|vn]|] eqn:El; try done.
  - destruct (sinks c) as [|v [|? ?]] eqn:Es; try done.
    destruct (walk fuel v x) as [[[vn h1] d1]|] eqn:Ew; [|done]. simpl in Hw. injection Hw as <- <- <-.
    assert (ends_at c v) as Hv by (apply elem_sinks; rewrite Es; by left).
    assert (0 ≤ v < size) as Hvs by (destruct Hv as (po & ? & _); done).
    assert (∀ f', f_dest f' = f_dest f → f_cl f' = f_cl f → dgx_trip f' v vn h1 d1 ∧
      ∀ vn' h' d', dgx_trip f' v vn' h' d' → vn' = vn ∧ h' = h1 ∧ d' = d1) as Hnext.
    { intros f' Ed Ec. apply IH; try done; [unfold dgx_class in *; by rewrite Ec|congruence]. }
    destruct (chan_offered r f (Chan c) ((gBeginVCs G)⟦f_cl f⟧) Hr Hc) as (port & Hof & Hle); [by rewrite Hx|destruct Hc; lia|].
    split; [eapply dgx_hop; try done; by apply Hnext|]. intros vn' h' d' Hp.
    inversion Hp as [? ? port' vc' ? Hof' Hle'|? f' ? port' vc' c' v' ? h2 d2 Hof' Hle' Hv' Ed Ec Hp']; subst.
    + pose proof (offered_chan _ _ _ _ _ Hr Hc Hof' Hle'). congruence.
    + pose proof (offered_chan _ _ _ _ _ Hr Hc Hof' Hle') as E. rewrite El in E. injection E as <-.
      apply elem_sinks in Hv'. rewrite Es in Hv'. apply list_elem_of_singleton in Hv' as ->.
      by destruct (proj2 (Hnext f' Ed Ec) _ _ _ Hp') as (-> & -> & ->).
  - injection Hw as <- <- <-.
    destruct (chan_offered r f (Eject vn) ((gBeginVCs G)⟦f_cl f⟧) Hr Hc) as (port & Hof & Hle); [by rewrite Hx|destruct Hc; lia|].
    split; [by eapply dgx_eject|]. intros vn' h' d' Hp.
    inversion Hp as [? ? port' vc' ? Hof' Hle'|? f' ? port' vc' c' v' ? h2 d2 Hof' Hle' Hv' Ed Ec Hp']; subst;
      pose proof (offered_chan _ _ _ _ _ Hr Hc Hof' Hle'); by simplify_eq.
Qed.

(** ** Waiting *)

(** The channel a packet for [x] takes from [u], and the one after it. *)
Definition turn (u x : Z) : option (Z * Z) :=
  match lane_chan u x with
  | Some (Chan c) =>
      match sinks c with
      | [v] => match lane_chan v x with Some (Chan c') => Some (c, c') | _ => None end
      | _ => None
      end
  | _ => None
  end.

Lemma turn_waits u f c c' vc vc' : 0 ≤ u < size → dgx_class f → 0 ≤ f_dest f < size → turn u (f_dest f) = Some (c, c') →
  (gBeginVCs G)⟦f_cl f⟧ ≤ vc ≤ (gEndVCs G)⟦f_cl f⟧ → (gBeginVCs G)⟦f_cl f⟧ ≤ vc' ≤ (gEndVCs G)⟦f_cl f⟧ →
  dgx_waits_for (c, vc) (c', vc').
Proof.
  intros Hu Hc Hd Ht' Hv Hv'. unfold turn in Ht'. destruct (lane_chan u (f_dest f)) as [[k|?|?]|] eqn:E1; try done.
  destruct (sinks k) as [|v [|? ?]] eqn:Es; try done. destruct (lane_chan v (f_dest f)) as [[k'|?|?]|] eqn:E2; try done.
  injection Ht' as -> ->. assert (ends_at c v) as Hev by (apply elem_sinks; rewrite Es; by left).
  assert (0 ≤ v < size) as Hvs by (destruct Hev as (po & ? & _); done).
  destruct (chan_offered u f (Chan c) vc Hu Hc E1 Hv) as (port & H1 & H2).
  destruct (chan_offered v f (Chan c') vc' Hvs Hc E2 Hv') as (port' & H3 & H4).
  by exists u, v, f, f, port, port'.
Qed.

Lemma waits_turn b b' : (∀ c u x, 0 ≤ u < size → 0 ≤ x < size → lane_chan u x = Some (Chan c) → ∃ v, sinks c = [v]) →
  dgx_waits_for b b' → ∃ u x, 0 ≤ u < size ∧ 0 ≤ x < size ∧ turn u x = Some (b.1, b'.1).
Proof.
  intros Hone (u & v & f & f' & port & port' & Hu & Hc & Hd & H1 & H2 & Hv & Ed & Ec & H3 & H4).
  exists u, (f_dest f). split_and!; try lia. assert (dgx_class f') as Hc' by (unfold dgx_class in *; by rewrite Ec).
  assert (0 ≤ v < size) as Hvs by (destruct Hv as (po & ? & _); done).
  pose proof (offered_chan _ _ _ _ _ Hu Hc H1 H2) as E1. pose proof (offered_chan _ _ _ _ _ Hvs Hc' H3 H4) as E2.
  unfold turn. rewrite E1. destruct (Hone _ _ _ Hu Hd E1) as [v' Es]. apply elem_sinks in Hv. rewrite Es in Hv |- *.
  apply list_elem_of_singleton in Hv as <-. by rewrite <- Ed, E2.
Qed.
End walk.
End travel.
