(* ===== verification/DGXTheorems.v ===== *)
(** * What holds of the DGX-1 networks

    Properties of the network of one box, for both versions, decided by
    evaluating the constructor; and of two boxes. *)

From stdpp Require Import relations.
From S2P Require Import Prelude StdMap OutputSet Flit Rng KNCube Route Dijkstra AnyNet AnyNetFile DGX DGXRouting.
Import DGXOps TopologyOps.

(** ** Shortest paths between GPUs *)

Section latencies.
Context (n : DGXNet) (table : list (imap Z)) (size : Z).
Local Abbreviation links := (router_router (dn_topology n)).

(** The latency of the links a packet takes, by its virtual ports. *)
Fixpoint link_walk (fuel : nat) (r x : Z) : option Z :=
  if r =? x then Some 0
  else
    match fuel with
    | O => None
    | S fuel =>
        p ← mfind x (table⟦r⟧);
        '(_, (v, (_, bus))) ← list_find (λ e : Z * (Z * BusLatency), e.2.1 = p) (row links r);
        d ← link_walk fuel v x;
        Some (bus_latency bus + d)
    end.

Definition rows_sortedb : bool := forallb (λ r : Z * imap (Z * BusLatency), bool_decide (StronglySorted Z.lt (r.2.*1))) links.

Lemma row_sorted r : rows_sortedb = true → msorted (row links r).
Proof.
  unfold rows_sortedb. rewrite forallb_forall. intros H. unfold row. destruct (mfind r links) as [l|] eqn:E; [|constructor].
  assert ((r, l) ∈ links) as Hin.
  { revert E. clear. induction links as [|[k y] m IH]; simpl; [done|]. destruct (Z.eqb_spec k r) as [->|]; [intros [= ->]; by left|].
    intros ?%IH. by right. }
  apply list_elem_of_In, H, bool_decide_eq_true in Hin. simpl in *. clear -Hin.
  induction l as [|[k x] l IH]; [constructor|]. rewrite fmap_cons in Hin. apply StronglySorted_inv in Hin as [Hs Hl].
  constructor; [by apply IH|]. by rewrite Forall_fmap in Hl.
Qed.

Lemma link_walk_path fuel x : ∀ r d, rows_sortedb = true → link_walk fuel r x = Some d → path bus_latency links r x d.
Proof.
  induction fuel as [|fuel IH]; intros r d Hs; simpl; destruct (Z.eqb_spec r x) as [->|]; try (intros [= <-]; apply path_nil).
  destruct (mfind x (table⟦r⟧)) as [p|]; simpl; [|done].
  destruct (list_find _ (row links r)) as [[j [v [p' bus]]]|] eqn:E; simpl; [|done].
  apply list_find_Some in E as (Hj & _ & _). destruct (link_walk fuel v x) as [d'|] eqn:Ed; simpl; [|done]. intros [= <-].
  apply path_trans with v; [|by apply IH]. apply path_edge. exists p', bus. split; [|done].
  apply mfind_at with j; [by apply row_sorted|done].
Qed.

(** [pot] gives a lower bound for the latency of every path to [x]. *)
Definition potential_ok (pot : list Z) (x : Z) : bool :=
  (pot⟦x⟧ =? 0) && forallb (λ r : Z * imap (Z * BusLatency),
    forallb (λ e : Z * (Z * BusLatency), pot⟦r.1⟧ <=? bus_latency e.2.2 + pot⟦e.1⟧) r.2) links.

Lemma potential_le pot x u d : rows_sortedb = true → potential_ok pot x = true → path bus_latency links u x d → pot⟦u⟧ ≤ d.
Proof.
  intros Hs [Hx He]%andb_true_iff. rewrite forallb_forall in He. intros Hp.
  assert (∀ v, path bus_latency links u v d → pot⟦u⟧ ≤ d + pot⟦v⟧) as H; [|specialize (H x Hp); lia].
  clear Hp. intros v. induction 1 as [|v y d w Hp IH (p & l & Hf & <-)]; [lia|].
  assert (∃ row', (v, row') ∈ links ∧ row links v = row') as (row' & Hin & Er).
  { unfold row in *. destruct (mfind v links) as [l'|] eqn:E; [|done]. exists l'. split; [|done].
    revert E. clear. induction links as [|[k z] m IH]; simpl; [done|]. destruct (Z.eqb_spec k v) as [->|]; [intros [= ->]; by left|].
    intros ?%IH. by right. }
  apply list_elem_of_In, He in Hin. simpl in Hin. rewrite forallb_forall in Hin. rewrite Er in Hf.
  assert ((y, (p, l)) ∈ row') as Hy by (apply elem_mfind; [rewrite <- Er; by apply row_sorted|done]).
  apply list_elem_of_In, Hin in Hy. simpl in Hy. lia.
Qed.
End latencies.

(** ** One box *)

Definition routers14 : list Z := seqZ 0 14.
Definition forall14 (P : Z → bool) : bool := forallb P routers14.

Lemma forall14_ok P x : forall14 P = true → 0 ≤ x < 14 → P x = true.
Proof. unfold forall14, routers14. rewrite forallb_forall. intros H Hx. apply H, list_elem_of_In, elem_of_seqZ. lia. Qed.

(** Where a packet from router [r] to node [x] ends up: at a virtual node of [x]
    after at most four hops, and over a shortest path if both are GPUs. *)
Definition deliver_check (n : DGXNet) (t : list (imap Z)) (pot : Z → list Z) (r x : Z) : bool :=
  match walk n t 14 5 r x with
  | Some (vnode, h, d) =>
      (GetActualNode vnode n =? x) && (0 <=? h) && (h <=? 4) &&
      (if (0 <? mcount r (GPU_node_list (dn_topology n))) && (0 <? mcount x (GPU_node_list (dn_topology n)))
       then bool_decide (link_walk n t 5 r x = Some d) && ((pot x)⟦r⟧ =? d) else true)
  | None => false
  end.

(** The distances to [x]: the links of a box have the same latency both ways. *)
Definition distances (n : DGXNet) (x : Z) : list Z :=
  match (s ← start 14 x; search bus_latency 14 (router_router (dn_topology n)) s) with Ok s => s_dist s | Fail _ => [] end.

Definition box_check (r : res (DGXNet * list (imap Z))) : bool :=
  match r with
  | Ok (n, t) =>
      (zlen t =? 14) && (zlen (dn_actual_outports n) =? 14) && rows_sortedb n &&
      forall14 (λ x, potential_ok n (distances n x) x) &&
      forall14 (λ r, forall14 (deliver_check n t (distances n) r))
  | Fail _ => false
  end.

Lemma box_checked v : box_check (New 14 v 1) = true.
Proof. by destruct v; vm_compute. Qed.

(** The packets of a network: where they are ejected, how far they travel. *)
Definition all_delivered (G : Globals) (n : DGXNet) (t : list (imap Z)) : Prop := ∀ f r,
  dgx_class G f → 0 ≤ r < 14 → 0 ≤ f_dest f < 14 → ∃ vnode h d,
    dgx_trip n t 14 G f r vnode h d ∧ GetActualNode vnode n = f_dest f ∧ 0 ≤ h ≤ 4 ∧
    (mfind r (GPU_node_list (dn_topology n)) = Some tt → mfind (f_dest f) (GPU_node_list (dn_topology n)) = Some tt →
     shortest bus_latency (router_router (dn_topology n)) r (f_dest f) d) ∧
    ∀ vnode' h' d', dgx_trip n t 14 G f r vnode' h' d' → vnode' = vnode ∧ h' = h ∧ d' = d.

Lemma checked_delivered G r : box_check r = true → returns r (λ '(n, t), all_delivered G n t).
Proof.
  destruct r as [[n t]|e]; [|done]. intros H. apply returns_ok. unfold box_check in H.
  rewrite !andb_true_iff in H. destruct H as ((((Ht & Ho) & Hs) & Hpot) & Hdel). intros f r Hc Hr Hd.
  pose proof (forall14_ok _ _ (forall14_ok _ _ Hdel Hr) Hd) as Hx. unfold deliver_check in Hx.
  destruct (walk n t 14 5 r (f_dest f)) as [[[vnode h] d]|] eqn:Ew; [|done]. rewrite !andb_true_iff in Hx.
  destruct Hx as (((Ha & Hh) & Hh') & Hg). exists vnode, h, d.
  destruct (walk_ok n t 14 G ltac:(lia) ltac:(lia) (f_dest f) 5 r f vnode h d Hr Hc eq_refl Ew) as [Htrip Huniq].
  split_and!; [done|lia|lia|lia| |done]. intros Hgr Hgx. unfold mcount in Hg. rewrite Hgr, Hgx in Hg. simpl in Hg.
  apply andb_true_iff in Hg as [Hlw%bool_decide_eq_true Hp]. split; [by apply (link_walk_path n t 5)|].
  intros d' Hp'. pose proof (potential_le n (distances n (f_dest f)) (f_dest f) r d' Hs (forall14_ok _ _ Hpot Hd) Hp'). lia.
Qed.

(** C23. One box, either version: construction succeeds; a packet in any class from
    any router to any node is ejected at a virtual node of its destination and
    nowhere else, over at most four channels; and between GPUs the latencies of
    the channels add up to those of a shortest path. *)
Theorem dgx_delivers v G : returns (New 14 v 1) (λ '(n, t), all_delivered G n t).
Proof. apply checked_delivered, box_checked. Qed.

(** ** Deadlock *)

(** Links in the order packets of a P100 box take them: up a tree, across, down
    a tree; among the GPUs from the second plane to the first, within a plane, then
    from the first plane to the second. *)
Definition link_rank (u v : Z) : Z :=
  if (3 <=? u `rem` 7) && (3 <=? v `rem` 7) then (if u `quot` 7 =? v `quot` 7 then 1 else if u <? v then 2 else 0)
  else if 3 <=? u `rem` 7 then 1
  else if 3 <=? v `rem` 7 then 5
  else if (u `rem` 7 =? 0) && (v `rem` 7 =? 0) then 3
  else if v `rem` 7 =? 0 then 2 else 4.

Definition chan_source (n : DGXNet) (c : Z) : Z :=
  default 0 (List.find (λ v, match (dn_routers n)⟦v⟧ with Some po => bool_decide (Chan c ∈ po_outputs po) | None => false end) routers14).
Definition chan_rank (n : DGXNet) (c : Z) : Z := link_rank (chan_source n c) (default 0 (head (sinks n 14 c))).

Definition rank_check (r : res (DGXNet * list (imap Z))) : bool :=
  match r with
  | Ok (n, t) =>
      (zlen t =? 14) && (zlen (dn_actual_outports n) =? 14) &&
      forall14 (λ u, forall14 (λ x,
        match lane_chan n t u x with
        | Some (Chan c) => match sinks n 14 c with [v] => true | _ => false end
        | _ => true
        end && match turn n t 14 u x with Some (c, c') => chan_rank n c <? chan_rank n c' | None => true end))
  | Fail _ => false
  end.

Lemma rank_checked : rank_check (New 14 P100 1) = true.
Proof. by vm_compute. Qed.

Lemma checked_deadlock_free G r : rank_check r = true → returns r (λ '(n, t), dgx_deadlock_free n t 14 G).
Proof.
  destruct r as [[n t]|e]; [|done]. intros H. apply returns_ok. unfold rank_check in H. rewrite !andb_true_iff in H.
  destruct H as ((Ht & Ho) & Hr).
  assert (∀ b b', dgx_waits_for n t 14 G b b' → chan_rank n b.1 < chan_rank n b'.1) as Hstep.
  { intros b b' Hw. destruct (waits_turn n t 14 G ltac:(lia) ltac:(lia) b b') as (u & x & Hu & Hx & E); [|done|].
    - intros c u x Hu Hx El. pose proof (forall14_ok _ _ (forall14_ok _ _ Hr Hu) Hx) as [Hs _]%andb_true_iff.
      rewrite El in Hs. destruct (sinks n 14 c) as [|v [|? ?]]; try done. by exists v.
    - pose proof (forall14_ok _ _ (forall14_ok _ _ Hr Hu) Hx) as [_ Hlt]%andb_true_iff. rewrite E in Hlt. lia. }
  assert (∀ b b', tc (dgx_waits_for n t 14 G) b b' → chan_rank n b.1 < chan_rank n b'.1) as Htc.
  { intros b b'. induction 1 as [b1 b2 Hw|b1 b2 b3 Hw _ IH]; [by apply Hstep|]. specialize (Hstep _ _ Hw). lia. }
  intros b Hb. specialize (Htc b b Hb). lia.
Qed.

(** The turns of a cycle of a V100 box: around both planes and twice across. *)
Definition cycle_turns : list (Z * Z) := [(3, 5); (6, 4); (5, 11); (4, 12); (11, 13); (12, 10); (13, 3); (10, 6)].

(** [chained c l c']: the turns [l] lead from channel [c] to channel [c']. *)
Fixpoint chained (n : DGXNet) (t : list (imap Z)) (c : Z) (l : list (Z * Z)) (c' : Z) : bool :=
  match l with
  | [] => c =? c'
  | (u, x) :: l =>
      (0 <=? u) && (u <? 14) && (0 <=? x) && (x <? 14) &&
      match turn n t 14 u x with Some (a, b) => (a =? c) && chained n t b l c' | None => false end
  end.

Definition cycle_check (r : res (DGXNet * list (imap Z))) : bool :=
  match r with
  | Ok (n, t) =>
      (zlen t =? 14) && (zlen (dn_actual_outports n) =? 14) &&
      match turn n t 14 3 5 with Some (c, _) => chained n t c cycle_turns c | None => false end
  | Fail _ => false
  end.

Lemma cycle_checked : cycle_check (New 14 V100 1) = true.
Proof. by vm_compute. Qed.

(** A packet for [x] in class [cl]. *)
Definition packet_to (x cl : Z) : Flit :=
  mkFlit ANY_TYPE 0 cl true true 0 0 0 0 0 false 0 x 0 0 false 0 1 (-1) (-1) [].

Section cycle.
Context (n : DGXNet) (t : list (imap Z)) (G : Globals) (cl vc : Z).
Context (Ht : zlen t = 14) (Ho : zlen (dn_actual_outports n) = 14).
Context (Hb : 0 ≤ cl < zlen (gBeginVCs G)) (He : 0 ≤ cl < zlen (gEndVCs G)) (Hv : (gBeginVCs G)⟦cl⟧ ≤ vc ≤ (gEndVCs G)⟦cl⟧).

Lemma chained_waits l : ∀ c c', chained n t c l c' = true → l ≠ [] → tc (dgx_waits_for n t 14 G) (c, vc) (c', vc).
Proof.
  induction l as [|[u x] l IH]; intros c c'; [done|]. cbn [chained]. rewrite !andb_true_iff. intros ((((Hu & Hu') & Hx) & Hx') & H) _.
  destruct (turn n t 14 u x) as [[a b]|] eqn:E; [|done]. apply andb_true_iff in H as [Ha H]. replace c with a by lia.
  assert (dgx_waits_for n t 14 G (a, vc) (b, vc)) as Hw.
  { apply (turn_waits n t 14 G ltac:(lia) ltac:(lia) u (packet_to x cl)); simpl; try done; try lia. unfold dgx_class. simpl. lia. }
  destruct l as [|p l]; [simpl in H; replace c' with b by lia; by apply tc_once|]. eapply tc_l; [exact Hw|]. by apply IH.
Qed.
End cycle.

Lemma checked_deadlock G cl r : cycle_check r = true →
  0 ≤ cl < zlen (gBeginVCs G) → 0 ≤ cl < zlen (gEndVCs G) → (gBeginVCs G)⟦cl⟧ ≤ (gEndVCs G)⟦cl⟧ →
  returns r (λ '(n, t), ¬ dgx_deadlock_free n t 14 G).
Proof.
  destruct r as [[n t]|e]; [|done]. intros H Hb He Hbe. apply returns_ok. unfold cycle_check in H. rewrite !andb_true_iff in H.
  destruct H as ((Ht & Ho) & Hc). destruct (turn n t 14 3 5) as [[c c1]|]; [|done]. intros Hfree.
  apply (Hfree (c, (gBeginVCs G)⟦cl⟧)).
  assert (zlen t = 14 ∧ zlen (dn_actual_outports n) = 14) as [Ht' Ho'] by lia.
  by apply (chained_waits n t G cl ((gBeginVCs G)⟦cl⟧) Ht' Ho' Hb He (conj (Z.le_refl _) Hbe) cycle_turns).
Qed.

(** C24. The channels of a P100 box cannot wait for each other in a cycle.  Those of
    a V100 box can, in every configuration of VCs that gives a class a VC: its
    shortest paths lead around both planes and across. *)
Theorem dgx_deadlock G cl :
  0 ≤ cl < zlen (gBeginVCs G) → 0 ≤ cl < zlen (gEndVCs G) → (gBeginVCs G)⟦cl⟧ ≤ (gEndVCs G)⟦cl⟧ →
  returns (New 14 P100 1) (λ '(n, t), dgx_deadlock_free n t 14 G) ∧
  returns (New 14 V100 1) (λ '(n, t), ¬ dgx_deadlock_free n t 14 G).
Proof.
  intros Hb He Hbe. split; [apply checked_deadlock_free, rank_checked|].
  by apply (checked_deadlock G cl); [apply cycle_checked|..].
Qed.

Lemma dgx_deadlock_witness :
  returns (New 14 P100 1) (λ '(n, t), dgx_deadlock_free n t 14 (mkGlobals 0 0 896 [0] [15])) ∧
  returns (New 14 V100 1) (λ '(n, t), ¬ dgx_deadlock_free n t 14 (mkGlobals 0 0 896 [0] [15])).
Proof. by apply (dgx_deadlock (mkGlobals 0 0 896 [0] [15]) 0). Defined.

(** ** Lanes and virtual nodes *)

#[local] Instance BusLatency_eq_dec : EqDecision BusLatency.
Proof. solve_decision. Defined.

(** The actual ports of the virtual port for [x]: as many as the bus has lanes,
    64 for the router's own nodes. *)
Definition lanes_ok (n : DGXNet) (t : list (imap Z)) (r x : Z) : bool :=
  match mfind x (t⟦r⟧) with
  | Some p =>
      match mfind p ((dn_actual_outports n)⟦r⟧) with
      | Some s =>
          if r =? x then zlen s =? 64
          else existsb (λ e : Z * (Z * BusLatency), bool_decide (mfind e.1 (row (router_router (dn_topology n)) r) = Some (p, e.2.2)) &&
                 (zlen s =? getLanesNum e.2.2)) (row (router_router (dn_topology n)) r)
      | None => false
      end
  | None => false
  end.

Definition lanes_check (r : res (DGXNet * list (imap Z))) : bool :=
  match r with
  | Ok (n, t) => (zlen t =? 14) && (zlen (dn_actual_outports n) =? 14) && forall14 (λ r, forall14 (lanes_ok n t r))
  | Fail _ => false
  end.

Lemma lanes_checked v : lanes_check (New 14 v 1) = true.
Proof. by destruct v; vm_compute. Qed.

Definition one_lane (G : Globals) (n : DGXNet) (t : list (imap Z)) : Prop := ∀ R f i outs g,
  dgx_class G f → 0 ≤ r_id R < 14 → 0 ≤ f_dest f < 14 → ∃ p s lane,
    mfind (f_dest f) (t⟦r_id R⟧) = Some p ∧ mfind p ((dn_actual_outports n)⟦r_id R⟧) = Some s ∧
    (if r_id R =? f_dest f then zlen s = 64
     else ∃ v bus, mfind v (row (router_router (dn_topology n)) (r_id R)) = Some (p, bus) ∧ zlen s = getLanesNum bus) ∧
    mfind lane s = Some tt ∧
    nccl_nvidiadgx1 t (dn_actual_outports n) G R f i outs false g =
      Ok ([SetElement ((gBeginVCs G)⟦f_cl f⟧) ((gEndVCs G)⟦f_cl f⟧) 0 lane], f, g).

Lemma checked_one_lane G r : lanes_check r = true → returns r (λ '(n, t), one_lane G n t).
Proof.
  destruct r as [[n t]|e]; [|done]. intros H. apply returns_ok. unfold lanes_check in H. rewrite !andb_true_iff in H.
  destruct H as ((Ht & Ho) & Hl). intros R f i outs g Hc Hr Hd.
  pose proof (forall14_ok _ _ (forall14_ok _ _ Hl Hr) Hd) as Hx. unfold lanes_ok in Hx.
  destruct (mfind (f_dest f) (t⟦r_id R⟧)) as [p|] eqn:Ep; [|done].
  destruct (mfind p ((dn_actual_outports n)⟦r_id R⟧)) as [s|] eqn:Es; [|done].
  assert (0 < zlen s ∧ if r_id R =? f_dest f then zlen s = 64
     else ∃ v bus, mfind v (row (router_router (dn_topology n)) (r_id R)) = Some (p, bus) ∧ zlen s = getLanesNum bus) as [Hpos Hs].
  { destruct (r_id R =? f_dest f); [lia|]. apply existsb_exists in Hx as ([v [p' bus]] & _ & Hx).
    apply andb_true_iff in Hx as [E%bool_decide_eq_true Hn]. simpl in *. split; [destruct bus; simpl in Hn; lia|].
    exists v, bus. split; [done|lia]. }
  destruct s as [|[lane []] s]; [by cbn in Hpos|]. exists p, ((lane, tt) :: s), lane. split_and!; try done; [simpl; by rewrite Z.eqb_refl|].
  apply (nccl_one_lane n t 14 G (r_id R) f lane); try done; [lia|lia|]. unfold first_lane. by rewrite Ep; simpl; rewrite Es.
Qed.

(** In one box, the routing function offers a packet a single lane: the set
    of outputs keeps one element per priority, so the other lanes of the bus, up
    to 15, and the other 63 ejection ports carry nothing. *)
Theorem dgx_one_lane v G : returns (New 14 v 1) (λ '(n, t), one_lane G n t).
Proof. apply checked_one_lane, lanes_checked. Qed.

Definition vnodes_check (r : res (DGXNet * list (imap Z))) : bool :=
  match r with
  | Ok (n, t) =>
      (zlen (dn_last_vnode n) =? 14) && forall14 (λ node,
        (zlen (row (dn_virtual_nodes n) node) =? 64) &&
        forallb (λ x : Z * unit, GetActualNode x.1 n =? node) (row (dn_virtual_nodes n) node) &&
        bool_decide ((dn_last_vnode n)⟦node⟧ = None))
  | Fail _ => false
  end.

Lemma vnodes_checked v : vnodes_check (New 14 v 1) = true.
Proof. by destruct v; vm_compute. Qed.

Lemma checked_vnodes r : vnodes_check r = true → returns r (λ '(n, t), ∀ node, 0 ≤ node < 14 →
  zlen (row (dn_virtual_nodes n) node) = 64 ∧
  (∀ vnode, (vnode, tt) ∈ row (dn_virtual_nodes n) node → GetActualNode vnode n = node) ∧
  GetVirtualNode node n = Fail BadIterator).
Proof.
  destruct r as [[n t]|e]; [|done]. intros H. apply returns_ok. unfold vnodes_check in H. rewrite !andb_true_iff in H.
  destruct H as (Hl & Hn). intros node Hnode. pose proof (forall14_ok _ _ Hn Hnode) as Hx. simpl in Hx. rewrite !andb_true_iff in Hx.
  destruct Hx as ((H64 & Ha) & Hi%bool_decide_eq_true). rewrite forallb_forall in Ha. split_and!; [lia| |].
  - intros vnode Hv. apply list_elem_of_In, Ha in Hv. simpl in Hv. lia.
  - unfold GetVirtualNode. by rewrite vget_ok, Hi by lia.
Qed.

(** After construction every node has 64 virtual nodes, each of which maps back
    to it; but the iterators were taken when the sets were empty, so that the
    first [GetVirtualNode] of every node reads past the end. *)
Theorem dgx_virtual_nodes v : returns (New 14 v 1) (λ '(n, t), ∀ node, 0 ≤ node < 14 →
  zlen (row (dn_virtual_nodes n) node) = 64 ∧
  (∀ vnode, (vnode, tt) ∈ row (dn_virtual_nodes n) node → GetActualNode vnode n = node) ∧
  GetVirtualNode node n = Fail BadIterator).
Proof. apply checked_vnodes, vnodes_checked. Qed.

(** ** Two boxes *)

(** The links of a network are between [size] routers, and none leads from the
    routers below [k] to another. *)
Definition links_check (links : bus_links) (size k : Z) : bool :=
  forallb (λ r : Z * imap (Z * BusLatency),
    bool_decide (StronglySorted Z.lt (r.2.*1)) && (0 <=? r.1) && (r.1 <? size) &&
    forallb (λ e : Z * (Z * BusLatency), (0 <=? e.1) && (e.1 <? size) && (negb (r.1 <? k) || (e.1 <? k))) r.2) links.

Lemma links_checked links size k : links_check links size k = true →
  (∀ u, msorted (row links u)) ∧
  ∀ u v w, edge bus_latency links u v w → 0 ≤ u < size ∧ 0 ≤ v < size ∧ (u < k → v < k) ∧ 0 < w ≤ 16.
Proof.
  unfold links_check. rewrite forallb_forall. intros H.
  assert (∀ u l, mfind u links = Some l → (u, l) ∈ links) as Hin.
  { clear. intros u l. induction links as [|[k y] m IH]; simpl; [done|]. destruct (Z.eqb_spec k u) as [->|]; [intros [= ->]; by left|].
    intros ?%IH. by right. }
  assert (∀ u, msorted (row links u)) as Hs.
  { intros u. unfold row. destruct (mfind u links) as [l|] eqn:E; [|constructor]. apply Hin, list_elem_of_In, H in E.
    rewrite !andb_true_iff in E. destruct E as (((E%bool_decide_eq_true & _) & _) & _). simpl in E. clear -E.
    induction l as [|[j x] l IH]; [constructor|]. rewrite fmap_cons in E. apply StronglySorted_inv in E as [Hs Hl].
    constructor; [by apply IH|]. by rewrite Forall_fmap in Hl. }
  split; [done|]. intros u v w (p & l & Hf & <-). pose proof (elem_mfind v (p, l) (row links u) (Hs u)) as [_ He]. specialize (He Hf).
  unfold row in He. destruct (mfind u links) as [l'|] eqn:E; [|by apply elem_of_nil in He]. simpl in He.
  apply Hin, list_elem_of_In, H in E. rewrite !andb_true_iff in E. destruct E as (((_ & E1) & E2) & E3). simpl in *.
  rewrite forallb_forall in E3. apply list_elem_of_In, E3 in He. simpl in He. split_and!; try lia; destruct l; simpl; lia.
Qed.

Definition boxes_check (r : res Topology) : bool :=
  match r with
  | Ok t =>
      (zlen (router_router t) =? 28) &&
      match wiring t with
      | Ok n =>
          links_check (router_router (dn_topology n)) 28 14 &&
          match GPU_node_list (dn_topology n) with (3, _) :: _ => true | _ => false end
      | Fail _ => false
      end
  | Fail _ => false
  end.

Lemma boxes_checked v : boxes_check (buildTopology v 2) = true.
Proof. by destruct v; vm_compute. Qed.

Lemma checked_boxes fuel r : boxes_check r = true → (t ← r; BuildNet fuel t) = Fail OutOfFuel.
Proof.
  destruct r as [t|e]; [|done]. unfold boxes_check. intros [Hsz H]%andb_true_iff. cbn [mbind res_bind]. unfold BuildNet.
  destruct (wiring t) as [n|e]; [|done]. cbn [mbind res_bind]. apply andb_true_iff in H as [[Hs He]%links_checked Hg].
  replace (zlen (router_router t)) with 28 by lia. unfold buildRoutingTable.
  destruct (GPU_node_list (dn_topology n)) as [|[g u] gpus]; [done|]. assert (g = 3) as -> by (destruct g as [|[[]|[]|]|]; done).
  cbn [foldl fst mbind res_bind]. rewrite (route_diverges bus_latency _ 28 16 3 14).
  - by rewrite !foldl_fail.
  - split; [done|intros ? ? ? H%He; lia|intros ? ? ? H%He; lia|done|done].
  - lia.
  - lia.
  - intros d Hp. assert (14 < 14); [|lia]. remember 14 as x eqn:Ex in Hp at 1. rewrite <- Ex at 1. clear Ex.
    induction Hp as [|v y d w Hp IH H%He]; [lia|]. by apply H.
Qed.

(** Two boxes are not linked to each other, and the search for the routes of
    the first GPU never ends: the constructor does not return, whatever the number
    of steps. *)
Theorem dgx_two_boxes v fuel : New fuel v 2 = Fail OutOfFuel.
Proof. apply (checked_boxes fuel (buildTopology v 2)), boxes_checked. Qed.
