(* ===== verification/Fly.v ===== *)
(** * The k-ary n-fly

    [KNFly] (networks/fly.cpp): [n] stages of [k^(n-1)] routers with [k] ports
    each, and destination-tag routing over them ([dest_tag_fly] of
    routefunc.cpp).  Every packet passes one router per stage and is ejected at
    its destination. *)

From stdpp Require Import relations.
From S2P Require Import Prelude OutputSet Flit Rng KNCube Route.
Import KNCubeOps KNCubeInv.

Record KNFly : Set := mkKNFly {
  fl_k : Z;
  fl_n : Z;
  fl_nodes : Z;
  fl_size : Z;
  fl_channels : Z
}.

(** The channels of the routers' ports, and the latencies of the channels. *)
Record FlyWiring : Set := mkFlyWiring {
  fw_inputs : list (list chan_id);
  fw_outputs : list (list chan_id);
  fw_latency : list Z
}.

Module KNFlyOps.

Definition ComputeSize (k n : Z) : res KNFly :=
  nodes ← powi k n;
  p ← powi k (n - 1);
  Ok (mkKNFly k n nodes (n * p) ((n - 1) * nodes)).

Section ops.
Context (net : KNFly).
Local Abbreviation k := (fl_k net).
Local Abbreviation n := (fl_n net).
Local Abbreviation nodes := (fl_nodes net).

Definition OutChannel (stage addr port : Z) : Z := stage * nodes + addr * k + port.

Definition InChannel (stage addr port : Z) : res Z :=
  shift ← powi k (n - stage - 1);
  let last_digit := port in
  let zero_digit := (addr `quot` shift) `rem` k in
  let in_addr := addr - zero_digit * shift + last_digit * shift in
  let in_port := zero_digit in
  Ok ((stage - 1) * nodes + in_addr * k + in_port).

Definition build_port (stage addr node port : Z) (w : FlyWiring) : res FlyWiring :=
  w ← (if stage =? 0 then
         inputs ← add_port (fw_inputs w) node (Inject (addr * k + port));
         Ok (mkFlyWiring inputs (fw_outputs w) (fw_latency w))
       else
         c ← InChannel stage addr port;
         inputs ← add_port (fw_inputs w) node (Chan c);
         latency ← vset (fw_latency w) c 1;
         Ok (mkFlyWiring inputs (fw_outputs w) latency));
  outputs ← add_port (fw_outputs w) node
              (if stage =? n - 1 then Eject (addr * k + port) else Chan (OutChannel stage addr port));
  Ok (mkFlyWiring (fw_inputs w) outputs (fw_latency w)).

Definition BuildNet : res FlyWiring :=
  per_stage ← powi k (n - 1);
  '(w, _) ← zfor 0 n (λ stage s,
    zfor 0 per_stage (λ addr '(w, node),
      w ← zfor 0 k (build_port stage addr node) w;
      Ok (w, node + 1)) s)
    (mkFlyWiring (replicate (Z.to_nat (fl_size net)) []) (replicate (Z.to_nat (fl_size net)) [])
       (replicate (Z.to_nat (fl_channels net)) 1), 0);
  Ok w.
End ops.
End KNFlyOps.

Import KNFlyOps.

(** ** The wiring *)

Section fly.
Context (k n : Z) (Hk : 0 < k) (Hn : 0 < n).
Local Abbreviation per := (k ^ (n - 1)).
Local Abbreviation net := (mkKNFly k n (k ^ n) (n * k ^ (n - 1)) ((n - 1) * k ^ n)).

Lemma fly_ComputeSize : ComputeSize k n = Ok net.
Proof. unfold ComputeSize. rewrite powi_ok by lia. cbn [mbind res_bind]. by rewrite powi_ok by lia. Qed.

Lemma per_pos : 0 < per.
Proof. apply Z.pow_pos_nonneg; lia. Qed.

Lemma nodes_per : k ^ n = per * k.
Proof. replace n with (n - 1 + 1) at 1 by lia. by rewrite Z.pow_add_r, Z.pow_1_r by lia. Qed.

(** The digit of the address that stage [s] settles. *)
Definition fly_digit (s : Z) : Z := n - s - 1.

(** The source of input [port] of the router [addr] of stage [s]. *)
Definition in_chan (s addr port : Z) : Z :=
  (s - 1) * k ^ n + set_digit k (fly_digit s) port addr * k + digit k (fly_digit s) addr.

Lemma InChannel_ok s addr port : 0 < s < n → 0 ≤ addr → InChannel net s addr port = Ok (in_chan s addr port).
Proof.
  intros Hs Ha. unfold InChannel, in_chan, set_digit, fly_digit. simpl. rewrite powi_ok by lia. cbn [mbind res_bind].
  pose proof (pow_pos k Hk (n - s - 1) ltac:(lia)) as Hp. rewrite quot_div by lia.
  assert (0 ≤ addr / k ^ (n - s - 1)) by (apply Z.div_pos; lia). rewrite rem_mod by lia.
  fold (digit k (n - s - 1) addr). f_equal. lia.
Qed.

Definition ins_of (s a : Z) (m : Z) : list chan_id :=
  (λ port, if s =? 0 then Inject (a * k + port) else Chan (in_chan s a port)) <$> seqZ 0 m.
Definition outs_of (s a : Z) (m : Z) : list chan_id :=
  (λ port, if s =? n - 1 then Eject (a * k + port) else Chan (OutChannel net s a port)) <$> seqZ 0 m.

(** The routers below [x] are wired, and router [x] up to port [m]. *)
Record fly_wired (x m : Z) (w : FlyWiring) : Prop := {
  fw_ilen : zlen (fw_inputs w) = n * per;
  fw_olen : zlen (fw_outputs w) = n * per;
  fw_llen : zlen (fw_latency w) = (n - 1) * k ^ n;
  fw_lat c : 0 ≤ c < (n - 1) * k ^ n → (fw_latency w)⟦c⟧ = 1;
  fw_below s a : 0 ≤ s < n → 0 ≤ a < per → s * per + a < x →
    (fw_inputs w)⟦s * per + a⟧ = ins_of s a k ∧ (fw_outputs w)⟦s * per + a⟧ = outs_of s a k;
  fw_at s a : 0 ≤ s < n → 0 ≤ a < per → s * per + a = x →
    (fw_inputs w)⟦x⟧ = ins_of s a m ∧ (fw_outputs w)⟦x⟧ = outs_of s a m;
  fw_above y : x < y < n * per → (fw_inputs w)⟦y⟧ = [] ∧ (fw_outputs w)⟦y⟧ = []
}.

Lemma router_index s a s' a' : 0 ≤ a < per → 0 ≤ a' < per → s * per + a = s' * per + a' → s = s' ∧ a = a'.
Proof. intros Ha Ha' E. assert (s = s') as -> by nia. split; [done|lia]. Qed.

Lemma add_port_ok (v : list (list chan_id)) x c : 0 ≤ x < zlen v → add_port v x c = Ok (v⟦x := v⟦x⟧ ++ [c]⟧).
Proof. intros Hx. unfold add_port. rewrite vget_ok by done. cbn [mbind res_bind]. by rewrite vset_ok. Qed.

Lemma in_chan_range s a port : 0 < s < n → 0 ≤ a < per → 0 ≤ port < k → 0 ≤ in_chan s a port < (n - 1) * k ^ n.
Proof.
  intros Hs Ha Hp. unfold in_chan. pose proof (digit_range k Hk (fly_digit s) a).
  assert (0 ≤ set_digit k (fly_digit s) port a < per) by (apply set_digit_range; unfold fly_digit; lia).
  pose proof nodes_per. assert (s - 1 ≤ n - 2) by lia. nia.
Qed.

Lemma ports_snoc {A} (f : Z → A) m : 0 ≤ m → f <$> seqZ 0 (m + 1) = (f <$> seqZ 0 m) ++ [f m].
Proof. intros Hm. rewrite seqZ_app, fmap_app by lia. by rewrite Z.add_0_l, (seqZ_cons m 1) by lia. Qed.

Lemma fly_wired_port s a m w lat : 0 ≤ s < n → 0 ≤ a < per → 0 ≤ m → fly_wired (s * per + a) m w →
  zlen lat = (n - 1) * k ^ n → (∀ c, 0 ≤ c < (n - 1) * k ^ n → lat⟦c⟧ = 1) →
  fly_wired (s * per + a) (m + 1) (mkFlyWiring
    ((fw_inputs w)⟦s * per + a := ins_of s a (m + 1)⟧) ((fw_outputs w)⟦s * per + a := outs_of s a (m + 1)⟧) lat).
Proof.
  intros Hs Ha Hm [Hi Ho Hl Hlat Hb Hat Hab] Hl' Hlat'. assert (0 ≤ s * per + a < n * per) as Hx by nia.
  split; simpl; rewrite ?zlen_zupd; try done.
  - intros s' a' Hs' Ha' Hlt. rewrite !znth_zupd_ne by nia. by apply Hb.
  - intros s' a' Hs' Ha' E. destruct (router_index _ _ _ _ Ha' Ha E) as [-> ->]. by rewrite !znth_zupd_eq by lia.
  - intros y Hy. rewrite !znth_zupd_ne by lia. by apply Hab.
Qed.

Lemma build_port_ok s a m w : 0 ≤ s < n → 0 ≤ a < per → 0 ≤ m < k → fly_wired (s * per + a) m w →
  returns (build_port net s a (s * per + a) m w) (fly_wired (s * per + a) (m + 1)).
Proof.
  intros Hs Ha Hm Hw. pose proof Hw as [Hi Ho Hl Hlat _ Hat _]. destruct (Hat s a Hs Ha eq_refl) as [Ei Eo].
  assert (0 ≤ s * per + a < n * per) as Hx by nia. unfold build_port. simpl.
  assert (∀ lat, zlen lat = (n - 1) * k ^ n → (∀ c, 0 ≤ c < (n - 1) * k ^ n → lat⟦c⟧ = 1) →
    returns (outputs ← add_port (fw_outputs w) (s * per + a)
        (if s =? n - 1 then Eject (a * k + m) else Chan (OutChannel net s a m));
      Ok (mkFlyWiring ((fw_inputs w)⟦s * per + a := ins_of s a (m + 1)⟧) outputs lat)) (fly_wired (s * per + a) (m + 1))) as Hout.
  { intros lat Hl' Hlat'. rewrite add_port_ok by lia. cbn [mbind res_bind]. apply returns_ok. rewrite Eo.
    replace (_ ++ [_]) with (outs_of s a (m + 1)) by (unfold outs_of; by rewrite ports_snoc by lia).
    apply (fly_wired_port s a m w lat); done || lia. }
  destruct (Z.eqb_spec s 0) as [E|E].
  - rewrite add_port_ok by lia. cbn [mbind res_bind fw_outputs fw_inputs fw_latency]. rewrite Ei.
    replace (_ ++ [_]) with (ins_of s a (m + 1)); [by apply Hout|]. unfold ins_of. rewrite ports_snoc by lia. by subst s.
  - rewrite InChannel_ok by lia. cbn [mbind res_bind]. rewrite add_port_ok by lia. cbn [mbind res_bind].
    pose proof (in_chan_range s a m ltac:(lia) Ha Hm) as Hc. rewrite vset_ok by lia.
    cbn [mbind res_bind fw_outputs fw_inputs fw_latency]. rewrite Ei.
    replace (_ ++ [_]) with (ins_of s a (m + 1)).
    + apply Hout; [by rewrite zlen_zupd|]. intros c Hcr. rewrite znth_zupd by lia. case_decide; [done|by apply Hlat].
    + unfold ins_of. rewrite ports_snoc by lia. by destruct (Z.eqb_spec s 0).
Qed.

Lemma fly_wired_next s a w : 0 ≤ s < n → 0 ≤ a < per → fly_wired (s * per + a) k w → fly_wired (s * per + a + 1) 0 w.
Proof.
  intros Hs Ha [Hi Ho Hl Hlat Hb Hat Hab]. split; try done.
  - intros s' a' Hs' Ha' Hlt. destruct (decide (s' * per + a' = s * per + a)) as [E|E]; [|apply Hb; lia || done].
    destruct (router_index _ _ _ _ Ha' Ha E) as [-> ->]. by apply Hat.
  - intros s' a' Hs' Ha' E. apply Hab. nia.
  - intros y Hy. apply Hab. lia.
Qed.

Lemma BuildNet_fly : returns (BuildNet net) (fly_wired (n * per) 0).
Proof.
  pose proof per_pos as Hp. unfold BuildNet. simpl. rewrite powi_ok by lia. cbn [mbind res_bind].
  eapply returns_bind; [apply (returns_for (λ s '(w, node), node = s * per ∧ fly_wired (s * per) 0 w))|].
  - lia.
  - split; [lia|]. assert (0 ≤ n * per) by nia. pose proof nodes_per. assert (0 ≤ (n - 1) * k ^ n) by nia.
    split; simpl; rewrite ?zlen_replicate by done; try done.
    + intros c Hc. by apply znth_replicate.
    + nia.
    + intros s a Hs Ha E. assert (s = 0) as -> by nia. replace a with 0 by lia. rewrite !znth_replicate by nia. done.
    + intros y Hy. rewrite !znth_replicate by lia. done.
  - intros s [w node] Hs [-> Hw]. eapply returns_mono; [apply (returns_for (λ a '(w, node), node = s * per + a ∧ fly_wired (s * per + a) 0 w))|].
    + lia.
    + by rewrite Z.add_0_r.
    + intros a [w' node'] Ha [-> Hw']. eapply returns_bind.
      * apply (returns_for (λ m, fly_wired (s * per + a) m)); [lia|done|]. intros m w2 Hm Hw2. by apply build_port_ok.
      * intros w2 Hw2. apply returns_ok. split; [lia|]. rewrite Z.add_assoc. by apply fly_wired_next.
    + intros [w' node'] [-> Hw']. replace (s * per + per) with ((s + 1) * per) in * by lia. done.
  - intros [w node] [_ Hw]. by apply returns_ok.
Qed.

(** The output [port] of a router is the input of the router of the next stage
    whose settled digit is [port]. *)
Lemma out_in s a port : 0 ≤ s < n - 1 → 0 ≤ a < per → 0 ≤ port < k →
  let a' := set_digit k (fly_digit (s + 1)) port a in
  0 ≤ a' < per ∧ in_chan (s + 1) a' (digit k (fly_digit (s + 1)) a) = OutChannel net s a port.
Proof.
  intros Hs Ha Hp a'. assert (0 ≤ fly_digit (s + 1) < n - 1) as Hd by (unfold fly_digit; lia).
  pose proof (digit_range k Hk (fly_digit (s + 1)) a) as Hda.
  assert (0 ≤ a' < per) as Ha' by (by apply set_digit_range). split; [done|]. unfold in_chan, OutChannel. simpl.
  assert (digit k (fly_digit (s + 1)) a' = port) as -> by (unfold a'; by rewrite digit_set_eq by lia).
  assert (set_digit k (fly_digit (s + 1)) (digit k (fly_digit (s + 1)) a) a' = a) as ->; [|lia].
  unfold set_digit at 1, a'. rewrite digit_set_eq by lia. unfold set_digit. lia.
Qed.

(** ** Destination tags *)

Section route.
Context (G : Globals) (HK : gK G = k) (HN : gN G = n) (HNodes : gNodes G = k ^ n).

(** The packet is in a VC of its class and has a destination. *)
Definition fly_flit (f : Flit) : Prop :=
  0 ≤ f_cl f < zlen (gBeginVCs G) ∧ 0 ≤ f_cl f < zlen (gEndVCs G) ∧
  (gBeginVCs G)⟦f_cl f⟧ ≤ f_vc f ≤ (gEndVCs G)⟦f_cl f⟧ ∧ 0 ≤ f_dest f < k ^ n.

Lemma stage_of s a : 0 ≤ s → 0 ≤ a < per → ((s * per + a) * k) `quot` (k ^ n) = s.
Proof.
  intros Hs Ha. pose proof per_pos. rewrite nodes_per, quot_div by nia.
  replace ((s * per + a) * k) with (a * k + s * (per * k)) by lia. rewrite Z.div_add by nia. rewrite Z.div_small by nia. lia.
Qed.

Lemma strip_digits s dest : 0 ≤ s < n → 0 ≤ dest →
  zfor s (n - 1) (λ _ dest, Ok (dest `quot` k)) dest = Ok (dest / k ^ (n - 1 - s)).
Proof.
  intros Hs Hd. destruct (returns_for (λ i d, d = dest / k ^ (i - s)) s (n - 1) (λ _ dest, Ok (dest `quot` k)) dest) as (d & -> & ->);
    [lia|by rewrite Z.sub_diag, Z.pow_0_r, Z.div_1_r| |done].
  intros i d Hi ->. apply returns_ok. pose proof (pow_pos k Hk (i - s) ltac:(lia)).
  rewrite quot_div by (try lia; apply Z.div_pos; lia). rewrite Z.div_div by lia.
  replace (i + 1 - s) with (i - s + 1) by lia. by rewrite Z.pow_add_r, Z.pow_1_r by lia.
Qed.

Lemma dest_tag_ok s a R f i outs g : 0 ≤ s < n → 0 ≤ a < per → r_id R = s * per + a → fly_flit f →
  RouteOps.dest_tag_fly G R f i outs false g =
    Ok ([SetElement ((gBeginVCs G)⟦f_cl f⟧) ((gEndVCs G)⟦f_cl f⟧) 0 (digit k (fly_digit s) (f_dest f))], f, g).
Proof.
  intros Hs Ha HR (Hb & He & Hv & Hd). unfold RouteOps.dest_tag_fly, RouteOps.class_vcs. rewrite !vget_ok by lia. cbn [mbind res_bind].
  destruct (Z.leb_spec ((gBeginVCs G)⟦f_cl f⟧) (f_vc f)); [|lia]. destruct (Z.leb_spec (f_vc f) ((gEndVCs G)⟦f_cl f⟧)); [|lia].
  cbn [andb orb cassert mbind res_bind]. rewrite HK, HN, HNodes, HR, stage_of by lia. rewrite strip_digits by lia. cbn [mbind res_bind].
  pose proof (pow_pos k Hk (n - 1 - s) ltac:(lia)).
  rewrite rem_mod by (try lia; apply Z.div_pos; lia). unfold fly_digit, digit. replace (n - s - 1) with (n - 1 - s) by lia. done.
Qed.

Context (w : FlyWiring) (Hw : fly_wired (n * per) 0 w).

(** The routing function offers output [port] and [vc] of router [r] to [f]. *)
Definition fly_offers (r : Z) (f : Flit) (port vc : Z) : Prop := ∃ R in_channel outputs g outputs' f' g' se,
  r_id R = r ∧ RouteOps.dest_tag_fly G R f in_channel outputs false g = Ok (outputs', f', g') ∧
  se ∈ outputs' ∧ output_port se = port ∧ vc_start se ≤ vc ≤ vc_end se.

Inductive fly_hop : Z * Flit → Z * Flit → Prop :=
  | fly_hop_intro r f port vc c r' f' :
      fly_offers r f port vc → 0 ≤ port → (fw_outputs w)⟦r⟧ !! Z.to_nat port = Some (Chan c) →
      0 ≤ r' < n * per → Chan c ∈ (fw_inputs w)⟦r'⟧ →
      f_dest f' = f_dest f → f_cl f' = f_cl f → f_vc f' = vc → fly_hop (r, f) (r', f').

Definition fly_ejects (p : Z * Flit) (x : Z) : Prop := ∃ port vc,
  fly_offers p.1 p.2 port vc ∧ 0 ≤ port ∧ (fw_outputs w)⟦p.1⟧ !! Z.to_nat port = Some (Eject x).

Lemma offers_iff s a f port vc : 0 ≤ s < n → 0 ≤ a < per → fly_flit f →
  fly_offers (s * per + a) f port vc ↔ port = digit k (fly_digit s) (f_dest f) ∧ (gBeginVCs G)⟦f_cl f⟧ ≤ vc ≤ (gEndVCs G)⟦f_cl f⟧.
Proof.
  intros Hs Ha Hf. split.
  - intros (R & i & outs & g & outs' & f' & g' & se & HR & E & Hse & <- & Hv).
    rewrite (dest_tag_ok s a R f i outs g Hs Ha HR Hf) in E. injection E as <- _ _. by apply list_elem_of_singleton in Hse as ->.
  - intros [-> Hv]. exists (mkRouter (s * per + a) [] []), 0, [], RngOps.initial. eexists _, _, _, _.
    split_and!; [done|by apply (dest_tag_ok s a)|by apply list_elem_of_singleton|done|apply Hv..].
Qed.

Lemma out_port_of s a port : 0 ≤ s < n → 0 ≤ a < per → 0 ≤ port < k → (fw_outputs w)⟦s * per + a⟧ !! Z.to_nat port =
  Some (if s =? n - 1 then Eject (a * k + port) else Chan (OutChannel net s a port)).
Proof.
  intros Hs Ha Hp. destruct (fw_below _ _ _ Hw s a Hs Ha ltac:(nia)) as [_ ->]. unfold outs_of.
  rewrite list_lookup_fmap, lookup_seqZ_lt by lia. simpl. by replace (0 + Z.of_nat (Z.to_nat port)) with port by lia.
Qed.

Lemma in_port_of s a c : 0 ≤ s < n → 0 ≤ a < per →
  Chan c ∈ (fw_inputs w)⟦s * per + a⟧ ↔ 0 < s ∧ ∃ port, 0 ≤ port < k ∧ c = in_chan s a port.
Proof.
  intros Hs Ha. destruct (fw_below _ _ _ Hw s a Hs Ha ltac:(nia)) as [-> _]. unfold ins_of.
  rewrite list_elem_of_fmap. setoid_rewrite elem_of_seqZ. destruct (Z.eqb_spec s 0); split.
  - by intros (port & ? & _).
  - lia.
  - intros (port & [= ->] & Hp). split; [lia|]. exists port. split; [lia|done].
  - intros (_ & port & Hp & ->). exists port. split; [done|lia].
Qed.

Lemma inject_port src : 0 ≤ src < k ^ n → Inject src ∈ (fw_inputs w)⟦src `quot` k⟧.
Proof.
  intros Hs. pose proof nodes_per. rewrite quot_div by lia. assert (0 ≤ src / k) by (apply Z.div_pos; lia).
  assert (src / k < per) by (apply Z.div_lt_upper_bound; lia).
  destruct (fw_below _ _ _ Hw 0 (src / k) ltac:(lia) ltac:(lia) ltac:(nia)) as [E _]. rewrite Z.mul_0_l, Z.add_0_l in E. rewrite E.
  unfold ins_of. apply list_elem_of_fmap. exists (src mod k). pose proof (Z.mod_pos_bound src k Hk).
  pose proof (Z.div_mod src k ltac:(lia)). split; [simpl; f_equal; lia|apply elem_of_seqZ; lia].
Qed.

Lemma router_split r : 0 ≤ r < n * per → ∃ s a, 0 ≤ s < n ∧ 0 ≤ a < per ∧ r = s * per + a.
Proof.
  intros Hr. pose proof per_pos. exists (r / per), (r mod per). pose proof (Z.div_mod r per ltac:(lia)).
  pose proof (Z.mod_pos_bound r per ltac:(lia)).
  assert (0 ≤ r / per) by (apply Z.div_pos; lia). assert (r / per < n) by (apply Z.div_lt_upper_bound; lia). lia.
Qed.

Lemma radix_unique b x y x' y' : 0 ≤ y < b → 0 ≤ y' < b → x * b + y = x' * b + y' → x = x' ∧ y = y'.
Proof. intros Hy Hy' E. assert (x = x') as -> by nia. split; [done|lia]. Qed.

(** A channel between stages has one sink. *)
Lemma channel_sink s a port r' : 0 ≤ s < n - 1 → 0 ≤ a < per → 0 ≤ port < k → 0 ≤ r' < n * per →
  Chan (OutChannel net s a port) ∈ (fw_inputs w)⟦r'⟧ ↔ r' = (s + 1) * per + set_digit k (fly_digit (s + 1)) port a.
Proof.
  intros Hs Ha Hp Hr. destruct (out_in s a port Hs Ha Hp) as [Ha' Hc]. split.
  - destruct (router_split r' Hr) as (s' & b & Hs' & Hb & ->). rewrite in_port_of by done. intros (Hpos & q & Hq & E).
    unfold OutChannel, in_chan in E. simpl in E. pose proof (digit_range k Hk (fly_digit s') b) as Hd.
    assert (0 ≤ set_digit k (fly_digit s') q b < per) as Hsd by (apply set_digit_range; unfold fly_digit; lia).
    rewrite nodes_per in E. destruct (radix_unique k (s * per + a) port ((s' - 1) * per + set_digit k (fly_digit s') q b)
      (digit k (fly_digit s') b)) as [E1 E2]; [done|done|lia|].
    destruct (radix_unique per s a (s' - 1) (set_digit k (fly_digit s') q b)) as [E3 E4]; [done..|].
    replace s' with (s + 1) in * by lia. subst a port.
    f_equal. unfold set_digit at 1. rewrite digit_set_eq by (unfold fly_digit; lia). unfold set_digit. lia.
  - intros ->. rewrite in_port_of by lia. split; [lia|]. exists (digit k (fly_digit (s + 1)) a).
    split; [apply digit_range; lia|by rewrite Hc].
Qed.

(** The address has the digits of the destination that the stages before [s]
    have settled. *)
Definition settled (s a dest : Z) : Prop := ∀ d, n - s - 1 ≤ d < n - 1 → digit k d a = digit k (d + 1) dest.

Lemma settled_next s a dest : 0 ≤ s < n - 1 → settled s a dest →
  settled (s + 1) (set_digit k (fly_digit (s + 1)) (digit k (fly_digit s) dest) a) dest.
Proof.
  intros Hs Hset d Hd. pose proof (digit_range k Hk (fly_digit s) dest). destruct (decide (d = fly_digit (s + 1))) as [->|Hne].
  - rewrite digit_set_eq by (unfold fly_digit in *; lia). f_equal. unfold fly_digit. lia.
  - rewrite digit_set_ne by (unfold fly_digit in *; lia). apply Hset. unfold fly_digit in *. lia.
Qed.

Lemma settled_last a dest : 0 ≤ a < per → 0 ≤ dest < k ^ n → settled (n - 1) a dest → a * k + digit k 0 dest = dest.
Proof.
  intros Ha Hd Hset. pose proof (digit_range k Hk 0 dest) as Hr. pose proof nodes_per.
  apply (digits_eq k Hk n ltac:(lia)); [nia|done|]. intros d Hdn. destruct (decide (d = 0)) as [->|Hne].
  - rewrite digit_0, Z.add_comm, Z.mod_add by lia. by apply Z.mod_small.
  - replace d with (d - 1 + 1) by lia. rewrite digit_succ by lia.
    rewrite Z.add_comm, Z.div_add, (Z.div_small (digit k 0 dest)) by lia. apply Hset. lia.
Qed.

(** A packet of stage [s]: it moves on to the next stage, or is ejected. *)
Lemma fly_step s a f p' : 0 ≤ s < n → 0 ≤ a < per → fly_flit f →
  fly_hop (s * per + a, f) p' ↔ s < n - 1 ∧
    p'.1 = (s + 1) * per + set_digit k (fly_digit (s + 1)) (digit k (fly_digit s) (f_dest f)) a ∧
    fly_flit p'.2 ∧ f_dest p'.2 = f_dest f ∧ f_cl p'.2 = f_cl f.
Proof.
  intros Hs Ha Hf. pose proof (digit_range k Hk (fly_digit s) (f_dest f)) as Hp. split.
  - intros H. inversion H as [r f0 port vc c r' f' Ho H0 Hc Hr' Hin Ed Ec Ev]; subst. simpl.
    apply (offers_iff s a) in Ho as [-> Hv]; [|done..]. rewrite out_port_of in Hc by done.
    destruct (Z.eqb_spec s (n - 1)); [done|]. injection Hc as <-. apply channel_sink in Hin; try lia; try done.
    split_and!; try done; [lia|]. destruct Hf as (Hb & He & _ & Hd). unfold fly_flit. rewrite Ec, Ed. done.
  - intros (Hlt & E & (Hb & He & Hv & Hd) & Ed & Ec). destruct p' as [r' f']. simpl in *. subst r'.
    destruct (out_in s a (digit k (fly_digit s) (f_dest f)) ltac:(lia) Ha Hp) as [Ha' _]. rewrite Ec in Hv.
    eapply (fly_hop_intro _ _ (digit k (fly_digit s) (f_dest f)) (f_vc f')); try done.
    + by apply (offers_iff s a).
    + lia.
    + rewrite out_port_of by done. destruct (Z.eqb_spec s (n - 1)); [lia|done].
    + nia.
    + apply channel_sink; try done; [lia|nia].
Qed.

Lemma fly_ejection s a f x : 0 ≤ s < n → 0 ≤ a < per → fly_flit f →
  fly_ejects (s * per + a, f) x ↔ s = n - 1 ∧ x = a * k + digit k 0 (f_dest f).
Proof.
  intros Hs Ha Hf. pose proof (digit_range k Hk (fly_digit s) (f_dest f)) as Hp. unfold fly_ejects. simpl. split.
  - intros (port & vc & Ho & H0 & Hc). apply (offers_iff s a) in Ho as [-> Hv]; [|done..]. rewrite out_port_of in Hc by done.
    destruct (Z.eqb_spec s (n - 1)) as [->|]; [|done]. injection Hc as <-. split; [done|]. by replace (fly_digit (n - 1)) with 0 by (unfold fly_digit; lia).
  - intros [-> ->]. exists (digit k (fly_digit (n - 1)) (f_dest f)), (f_vc f). split; [|split].
    + apply (offers_iff (n - 1) a); [done..|]. split; [done|]. apply Hf.
    + lia.
    + rewrite out_port_of, Z.eqb_refl by done. by replace (fly_digit (n - 1)) with 0 by (unfold fly_digit; lia).
Qed.

Lemma fly_progress src f : 0 ≤ src < k ^ n → fly_flit f → ∀ i p, nsteps fly_hop i (src `quot` k, f) p → ∃ a,
  Z.of_nat i ≤ n - 1 ∧ 0 ≤ a < per ∧ p.1 = Z.of_nat i * per + a ∧ fly_flit p.2 ∧ f_dest p.2 = f_dest f ∧ settled (Z.of_nat i) a (f_dest f).
Proof.
  intros Hs Hf. induction i as [|i IH]; intros p Hp.
  - inversion Hp; subst. exists (src `quot` k). simpl. rewrite quot_div by lia. pose proof nodes_per.
    split_and!; try done; try lia; [apply Z.div_pos; lia|apply Z.div_lt_upper_bound; lia|]. intros d Hd. lia.
  - apply nsteps_inv_r in Hp as ([r f1] & Hp1 & Hh). destruct (IH _ Hp1) as (a & Hi & Ha & Er & Hf1 & Ed & Hset). simpl in *. subst r.
    pose proof (digit_range k Hk (fly_digit (Z.of_nat i)) (f_dest f1)).
    apply (fly_step (Z.of_nat i) a f1 p) in Hh as (Hlt & E & Hf' & Ed' & _); [|lia|done|done].
    exists (set_digit k (fly_digit (Z.of_nat i + 1)) (digit k (fly_digit (Z.of_nat i)) (f_dest f1)) a).
    replace (Z.of_nat (S i)) with (Z.of_nat i + 1) by lia.
    destruct (out_in (Z.of_nat i) a (digit k (fly_digit (Z.of_nat i)) (f_dest f1)) ltac:(lia) Ha ltac:(lia)) as [Ha' _].
    split_and!; try done; try lia. rewrite Ed. by apply settled_next; [lia|].
Qed.

(** A flit that came over [c] asks for [c']. *)
Definition fly_waits_for (c c' : Z) : Prop := ∃ r f port vc, 0 ≤ r < n * per ∧ fly_flit f ∧ Chan c ∈ (fw_inputs w)⟦r⟧ ∧
  fly_offers r f port vc ∧ 0 ≤ port ∧ (fw_outputs w)⟦r⟧ !! Z.to_nat port = Some (Chan c').

Lemma waits_rank c c' : fly_waits_for c c' → c / k ^ n < c' / k ^ n.
Proof.
  intros (r & f & port & vc & Hr & Hf & Hin & Ho & Hp0 & Hout). destruct (router_split r Hr) as (s & a & Hs & Ha & ->).
  apply in_port_of in Hin as (Hpos & q & Hq & ->); [|done..]. apply (offers_iff s a) in Ho as [-> _]; [|done..].
  pose proof (digit_range k Hk (fly_digit s) (f_dest f)) as Hd. rewrite out_port_of in Hout by done.
  destruct (Z.eqb_spec s (n - 1)); [done|]. injection Hout as <-. unfold in_chan, OutChannel. simpl.
  pose proof (digit_range k Hk (fly_digit s) a). pose proof nodes_per. pose proof per_pos.
  assert (0 ≤ set_digit k (fly_digit s) q a < per) by (apply set_digit_range; unfold fly_digit; lia).
  replace ((s - 1) * k ^ n + _ + _) with (set_digit k (fly_digit s) q a * k + digit k (fly_digit s) a + (s - 1) * k ^ n) by lia.
  replace (s * k ^ n + _ + _) with (a * k + digit k (fly_digit s) (f_dest f) + s * k ^ n) by lia.
  rewrite !Z.div_add by nia. rewrite !Z.div_small by nia. lia.
Qed.

Lemma waits_acyclic c : ¬ tc fly_waits_for c c.
Proof.
  assert (∀ x y, tc fly_waits_for x y → x / k ^ n < y / k ^ n) as H; [|intros Hc; apply H in Hc; lia].
  induction 1 as [x y Hxy|x y z Hxy _ IH]; apply waits_rank in Hxy; lia.
Qed.
End route.
End fly.

(** C17. For every radix [k] and number of stages [n], the construction of the
    k-ary n-fly succeeds, and in the network it builds the destination tag
    routing brings every packet to its destination: the terminal's router is at
    the first stage, a packet makes exactly n-1 hops whatever choices are made,
    is ejected only after the last one and only at its destination; and no set
    of channels waits for itself. *)
Theorem fly_delivers k n : 0 < k → 0 < n →
  returns (net ← ComputeSize k n; BuildNet net) (λ w, ∀ G, gK G = k → gN G = n → gNodes G = k ^ n →
    (∀ c, ¬ tc (fly_waits_for k n G w) c c) ∧
    ∀ src f, 0 ≤ src < k ^ n → fly_flit k n G f →
      Inject src ∈ (fw_inputs w)⟦src `quot` k⟧ ∧
      ∀ i p, nsteps (fly_hop k n G w) i (src `quot` k, f) p →
        Z.of_nat i ≤ n - 1 ∧
        (Z.of_nat i < n - 1 → (∃ p', fly_hop k n G w p p') ∧ ∀ x, ¬ fly_ejects G w p x) ∧
        (Z.of_nat i = n - 1 → (∀ p', ¬ fly_hop k n G w p p') ∧ ∀ x, fly_ejects G w p x ↔ x = f_dest f)).
Proof.
  intros Hk Hn. rewrite fly_ComputeSize by done. cbn [mbind res_bind]. eapply returns_mono; [by apply BuildNet_fly|].
  intros w Hw G HK HN HNodes. split; [by apply waits_acyclic|]. intros src f Hs Hf. split.
  { by apply (inject_port k n). }
  intros i [r f1] Hp. destruct (fly_progress k n Hk Hn G HK HN HNodes w Hw src f Hs Hf i _ Hp) as (a & Hi & Ha & Er & Hf1 & Ed & Hset).
  simpl in Er, Hf1, Ed. subst r. pose proof (fly_ejection k n Hk Hn G HK HN HNodes w Hw (Z.of_nat i) a f1) as Hej.
  pose proof (fly_step k n Hk Hn G HK HN HNodes w Hw (Z.of_nat i) a f1) as Hst. split; [done|]. split; intros E.
  - split; [|intros x Hx; apply Hej in Hx as [? _]; done || lia].
    eexists (_, f1). apply Hst; [lia|done|done|]. simpl. split_and!; done || lia.
  - split; [intros p' Hp'; apply Hst in Hp' as [? _]; done || lia|]. intros x. rewrite Hej by (done || lia).
    rewrite Ed. rewrite (settled_last k n Hk Hn a (f_dest f)); [|done|rewrite <- Ed; apply Hf1|by rewrite <- E]. naive_solver.
Qed.

Lemma fly_delivers_witness : 0 < 2 ∧ 0 < 3 ∧
  ∃ w, (net ← ComputeSize 2 3; BuildNet net) = Ok w ∧ zlen (fw_inputs w) = 12 ∧ Inject 5 ∈ (fw_inputs w)⟦2⟧.
Proof.
  split; [lia|]. split; [lia|]. destruct (fly_delivers 2 3 ltac:(lia) ltac:(lia)) as (w & E & H).
  exists w. split; [exact E|]. split.
  - vm_compute in E. injection E as <-. reflexivity.
  - apply (H (mkGlobals 2 3 8 [0] [3]) eq_refl eq_refl eq_refl) with (src := 5) (f := FlitOps.sample 1 1 0 true true).
    + lia.
    + vm_compute. repeat split; congruence.
Defined.
