(* ===== verification/SwitchAlloc.v ===== *)
(** * Allocators as a router uses them

    A router does more with an allocator than a cycle of requests and grants: it
    reads a request back, replaces it by a better one of the same input, and looks
    up the label of a granted request.  [RouterAllocator] adds these operations of
    [Allocator] to [AllocatorI], with the global random numbers threaded through
    [Allocate]; [RouterAllocLaws] states what a router relies on.  Every allocator
    satisfies the laws. *)

From S2P Require Import Prelude StdMap Arbiter ArbiterProofs Arbitration Allocator AllocLaws AllocStore Separable Wavefront Lonely Rng Rounds Islip MaxSize Select.

(** [ra_ReadRequest] is the overload of [ReadRequest] that tells whether there is
    a request: its label and its priorities. *)
Record RouterAllocator (X : Type) : Type := mkRouterAllocator {
  ra_I : AllocatorI X;
  ra_ReadRequest : X → Z → Z → res (option (Z * Z * Z));
  ra_RemoveRequest : X → Z → Z → Z → res X;
  ra_OutputHasRequests : X → Z → res bool;
  ra_Allocate : X → Rng → res (X * Rng)
}.
Arguments mkRouterAllocator {X} _ _ _ _ _.
Arguments ra_I {X} _.
Arguments ra_ReadRequest {X} _ _ _ _.
Arguments ra_RemoveRequest {X} _ _ _ _ _.
Arguments ra_OutputHasRequests {X} _ _ _.
Arguments ra_Allocate {X} _ _ _.

(** The overload that returns the label, [-1] if there is no request. *)
Definition ra_ReadLabel {X} (A : RouterAllocator X) (x : X) (in_ out : Z) : res Z :=
  r ← ra_ReadRequest A x in_ out; Ok (match r with Some (label, _, _) => label | None => -1 end).

Record RouterAllocLaws {X} (A : RouterAllocator X) (n m : Z) : Type := {
  rl_opened : X → requests → Prop;
  rl_Clear : ∀ x, rl_opened x no_requests → rl_opened (i_Clear (ra_I A) x) no_requests;
  rl_ReadRequest : ∀ x R i o, rl_opened x R → 0 ≤ i < n → 0 ≤ o < m → ra_ReadRequest A x i o = Ok (R i o);
  rl_AddRequest : ∀ x R i o label ip op,
    rl_opened x R → 0 ≤ i < n → 0 ≤ o < m → 0 ≤ label → R i o = None →
    returns (i_AddRequest (ra_I A) x i o label ip op) (λ x', rl_opened x' (add_request R i o (label, ip, op)));
  rl_Replace : ∀ x R i o l label ip op,
    rl_opened x R → 0 ≤ i < n → 0 ≤ o < m → 0 ≤ label → R i o = Some l →
    returns (x ← ra_RemoveRequest A x i o l.1.1; i_AddRequest (ra_I A) x i o label ip op)
      (λ x', rl_opened x' (add_request R i o (label, ip, op)));
  rl_Allocate : ∀ x R g, rl_opened x R → RngInv.rng_ok g →
    returns (ra_Allocate A x g) (λ '(x', g'), RngInv.rng_ok g' ∧ rl_opened (i_Clear (ra_I A) x') no_requests ∧
      al_inputs (i_base (ra_I A) x') = n ∧ al_outputs (i_base (ra_I A) x') = m ∧
      matching n m (wants R) (al_inmatch (i_base (ra_I A) x')) (al_outmatch (i_base (ra_I A) x')) ∧
      ∀ i o, 0 ≤ i < n → 0 ≤ o < m → ra_ReadRequest A x' i o = Ok (R i o))
}.
Arguments rl_opened {X A n m} _ _ _.

(** ** Reading and removing requests *)

Module DenseRead.
Import DenseOps DenseInv.

Definition Requested (d : Dense) (in_ out : Z) : res (option (Z * Z * Z)) :=
  '(b, r) ← ReadRequest d in_ out;
  Ok (if (b : bool) then Some (r_label r, r_in_pri r, r_out_pri r) else None).

Lemma dense_Requested_ok n m d R i o : dense_opened n m d R → 0 ≤ i < n → 0 ≤ o < m → Requested d i o = Ok (R i o).
Proof.
  intros [Hs Hf Hr Hl Hd] Hi Ho. unfold Requested, ReadRequest.
  rewrite SparseInv.valid_in_true, SparseInv.valid_out_true by (rewrite ?(ds_in _ _ _ Hs), ?(ds_out _ _ _ Hs); lia).
  cbn [cassert mbind res_bind]. rewrite (at_ok n m) by done. cbn [mbind res_bind]. rewrite Hr by done. unfold cell_req.
  pose proof (Hl i o Hi Ho). destruct (Z.leb_spec 0 (r_label (cell d i o))), (Z.eqb_spec (r_label (cell d i o)) (-1)); done || lia.
Qed.

(** A request removed, and another put in its place. *)
Lemma dense_Replace n m d R i o l label ip op :
  dense_opened n m d R → 0 ≤ i < n → 0 ≤ o < m → 0 ≤ label → R i o = Some l →
  returns (d ← RemoveRequest d i o l.1.1; AddRequest d i o label ip op)
    (λ d', dense_opened n m d' (add_request R i o (label, ip, op))).
Proof.
  intros H Hi Ho Hlab HR. pose proof H as [Hs Hf Hr Hl Hd]. unfold RemoveRequest.
  rewrite SparseInv.valid_in_true, SparseInv.valid_out_true by (rewrite ?(ds_in _ _ _ Hs), ?(ds_out _ _ _ Hs); lia).
  cbn [cassert mbind res_bind]. rewrite (at_ok n m) by done. cbn [mbind res_bind].
  eapply returns_bind; [by apply (put_ok n m)|]. intros d' (Hs' & Hb & Hc).
  set (R' := λ i' o', if decide (i' = i ∧ o' = o) then None else R i' o').
  assert (dense_opened n m d' R') as H'.
  { split; try done; rewrite ?Hb; try done.
    - intros i' o' Hi' Ho'. unfold R'. rewrite Hc by lia. case_decide; [done|by apply Hr].
    - intros i' o' Hi' Ho'. rewrite Hc by lia. case_decide; [simpl; lia|by apply Hl].
    - intros i' o' Hi' Ho'. unfold wants, R'. case_decide; [done|]. by apply Hd. }
  eapply returns_mono; [apply (dense_AddRequest n m d' R' i o label ip op H' Hi Ho Hlab)|].
  - unfold R'. by rewrite decide_True.
  - intros d''. apply dense_ext. intros i' o'. unfold add_request, R'. by case_decide.
Qed.
End DenseRead.

Module SparseRead.
Import SparseOps SparseInv SparseLaws.

Definition Requested (s : Sparse) (in_ out : Z) : res (option (Z * Z * Z)) :=
  r ← SparseOps.ReadRequest s in_ out; Ok (match r with Some r => Some (req_data r) | None => None end).

Lemma sparse_Requested_ok n m s R i o : sparse_opened n m s R → 0 ≤ i < n → 0 ≤ o < m → Requested s i o = Ok (R i o).
Proof.
  intros [Hok Hi' Ho' Hf Hr Hd] Hi Ho. unfold Requested, SparseOps.ReadRequest. rewrite valid_in_true, valid_out_true by lia.
  cbn [cassert mbind res_bind]. rewrite vget_ok by (rewrite (so_in_len _ Hok); lia). cbn [mbind res_bind].
  by rewrite Hr by done.
Qed.

Lemma sparse_Replace n m s R i o l label ip op :
  sparse_opened n m s R → 0 ≤ i < n → 0 ≤ o < m → 0 ≤ label → R i o = Some l →
  returns (s ← RemoveRequest s i o l.1.1; AddRequest s i o label ip op)
    (λ s', sparse_opened n m s' (add_request R i o (label, ip, op))).
Proof.
  intros H Hi Ho Hlab HR. pose proof H as [Hok En Em Hf Hr Hd]. rewrite Hr in HR by done.
  apply fmap_Some in HR as (r & Er & ->). subst n m.
  eapply returns_bind; [by apply (sparse_RemoveRequest s i o r)|]. intros s' (Hok' & Eb & Hreq).
  set (R' := λ i' o', if decide (i' = i ∧ o' = o) then None else R i' o').
  assert (sparse_opened (al_inputs (s_base s)) (al_outputs (s_base s)) s' R') as H'.
  { split; rewrite ?Eb; try done.
    - intros i' o' Hi' Ho'. unfold R'. rewrite Hreq by done. case_decide; [done|by apply Hr].
    - intros i' o' Hi' Ho'. unfold wants, R'. case_decide; [done|]. by apply Hd. }
  eapply returns_mono; [apply (opened_AddRequest _ _ s' R' i o label ip op H' Hi Ho Hlab)|].
  - unfold R'. by rewrite decide_True.
  - intros s''. apply sparse_ext. intros i' o'. unfold add_request, R'. by case_decide.
Qed.
End SparseRead.

(** ** Deterministic allocators *)

Section deterministic.
Context {X : Type} (I : AllocatorI X) (read : X → Z → Z → res (option (Z * Z * Z))).
Context (remove : X → Z → Z → Z → res X) (has : X → Z → res bool).

Definition deterministic : RouterAllocator X :=
  mkRouterAllocator I read remove has (λ x g, x ← i_Allocate I x; Ok (x, g)).

Context (n m : Z) (quality : grants_prop) (L : AllocatorLaws I n m quality).

(** What the laws of a cycle leave open: requests are read and replaced, and an
    allocation keeps them. *)
Record reads : Prop := {
  rd_Clear x : opened L x no_requests → opened L (i_Clear I x) no_requests;
  rd_size x R : opened L x R → al_inputs (i_base I x) = n ∧ al_outputs (i_base I x) = m;
  rd_Read x R i o : opened L x R → 0 ≤ i < n → 0 ≤ o < m → read x i o = Ok (R i o);
  rd_Replace x R i o l label ip op : opened L x R → 0 ≤ i < n → 0 ≤ o < m → 0 ≤ label → R i o = Some l →
    returns (x ← remove x i o l.1.1; i_AddRequest I x i o label ip op)
      (λ x', opened L x' (add_request R i o (label, ip, op)));
  rd_keep x x' R : opened L x R → i_Allocate I x = Ok x' → (∀ i o, read x' i o = read x i o) ∧
    al_inputs (i_base I x') = al_inputs (i_base I x) ∧ al_outputs (i_base I x') = al_outputs (i_base I x)
}.

Definition deterministic_laws (H : reads) : RouterAllocLaws deterministic n m.
Proof.
  refine {| rl_opened := opened L |}.
  - apply (rd_Clear H).
  - intros x R i o. apply (rd_Read H).
  - apply al_AddRequest.
  - intros x R i o l label ip op. apply (rd_Replace H).
  - intros x R g Hx Hg. simpl. destruct (al_Allocate _ _ _ _ L x R Hx) as (x' & E & Hop & Hmt & _). rewrite E.
    apply returns_ok. destruct (rd_keep H x x' R Hx E) as (Hread & -> & ->). destruct (rd_size H x R Hx) as [-> ->].
    split_and!; try done. intros i o Hi Ho. rewrite Hread. by apply (rd_Read H).
Defined.
End deterministic.
Arguments deterministic {X} _ _ _ _.

(** ** The allocators *)

Section separable.
Context {A : Set} `{!Inhabited A} `{!Arbiter A} `{!ArbiterLaws A}.
Import SeparableOps SeparableInv.

Definition SeparableRA (order : sep_order) : RouterAllocator (Separable A) :=
  deterministic (SeparableI order) (λ s, SparseRead.Requested (sep_sparse s))
    (λ s in_ out label, sp ← SparseOps.RemoveRequest (sep_sparse s) in_ out label;
       Ok (mkSep sp (sep_input_arb s) (sep_output_arb s)))
    (λ s out, Ok (SparseOps.OutputHasRequests (sep_sparse s) out)).

Lemma arbs_fresh_used n size (arb : list A) : arbs_fresh n size arb → arbs_used n size arb.
Proof. intros [? H]. split; [done|]. intros i Hi. destruct (H i Hi) as (? & ? & _). by split; [|left]. Qed.

Definition SeparableRALaws (order : sep_order) (n m : Z) : RouterAllocLaws (SeparableRA order) n m.
Proof.
  apply (deterministic_laws _ _ _ _ n m _ (SeparableLaws order n m)). split; simpl.
  - intros s (Hop & Hi & Ho). split_and!; simpl; try (by apply arbs_clear, arbs_fresh_used).
    by apply (SparseLaws.sparse_close_idle n m _ no_requests).
  - intros s R (Hop & _). by destruct Hop.
  - intros s R i o (Hop & _). by apply SparseRead.sparse_Requested_ok.
  - intros s R i o l label ip op (Hop & Hi & Ho) Hi' Ho' Hl HR.
    destruct (SparseRead.sparse_Replace n m _ R i o l label ip op Hop Hi' Ho' Hl HR) as (sp' & E & Hsp').
    apply bind_ok_inv in E as (sp & -> & E). simpl. unfold AddRequest. simpl. rewrite E. by apply returns_ok.
  - intros s s' R Hop E.
    assert (sep_granted n m s R s') as (im & om & Es & _).
    { destruct order; [destruct (AllocateInputFirst_ok n m s R Hop) as (s'' & E' & Hs)|
        destruct (AllocateOutputFirst_ok n m s R Hop) as (s'' & E' & Hs)]; congruence. }
    by rewrite Es.
Defined.
End separable.

Section dense.
Context {X : Type} (get : X → Dense) (put : Dense → X → X).

(** [RemoveRequest] and the queries of [DenseAllocator], inherited. *)
Definition DenseRA (I : AllocatorI X) : RouterAllocator X :=
  deterministic I (λ a, DenseRead.Requested (get a))
    (λ a in_ out label, d ← DenseOps.RemoveRequest (get a) in_ out label; Ok (put d a))
    (λ a out, DenseOps.OutputHasRequests (get a) out).
End dense.

Definition WavefrontRA : RouterAllocator Wavefront := DenseRA w_dense
  (λ d w, mkWf d (w_last_in w) (w_last_out w) (w_priorities w) (w_skip_diags w) (w_square w) (w_pri w) (w_num_requests w))
  WavefrontI.
Definition LOARA : RouterAllocator LOA := DenseRA lo_dense
  (λ d a, mkLOA d (lo_counts a) (lo_req a) (lo_rptr a) (lo_gptr a)) LOAI.
Definition MaxSizeRA : RouterAllocator MaxSize := DenseRA ms_dense (λ d a, mkMS d (ms_from a) (ms_prio a)) MaxSizeI.

Definition WavefrontRALaws (n m : Z) (Hn : 0 < n) (Hm : 0 < m) : RouterAllocLaws WavefrontRA n m.
Proof.
  apply (deterministic_laws _ _ _ _ n m _ (WavefrontInv.WavefrontLaws n m Hn Hm)). split; simpl.
  - intros w [H1 H2 H3 H4 H5 H6 H7 H8 H9]. split; simpl; try done. by apply (DenseInv.dense_close_idle n m _ no_requests).
  - intros w R [[Hs _ _ _ _] _ _ _ _ _ _ _ _]. by destruct Hs.
  - intros w R i o Hw. apply DenseRead.dense_Requested_ok, Hw.
  - intros w R i o l label ip op [H1 H2 H3 H4 H5 H6 H7 H8 H9] Hi Ho Hl HR.
    destruct (DenseRead.dense_Replace n m _ R i o l label ip op H1 Hi Ho Hl HR) as (d' & E & Hd').
    apply bind_ok_inv in E as (d & -> & E). simpl. unfold WavefrontOps.AddRequest. simpl. rewrite E. apply returns_ok.
    assert (0 < w_num_requests w) as Hpos.
    { destruct (decide (w_num_requests w = 0)) as [E0|]; [|lia]. rewrite H5 in HR by done. done. }
    split; simpl; try done; try lia; unfold wants, add_request in *.
    + intros _. by rewrite decide_True.
    + by apply WavefrontInv.pinsert_ascending.
    + intros i' o' label' ip' op' Hi' Ho'. rewrite WavefrontInv.elem_pinsert. case_decide; [intros [= <- <- <-]; by left|].
      intros HR'. right. by apply (H9 i' o' label').
  - intros w w' R _ E. unfold WavefrontOps.Allocate in E. destruct (w_num_requests w =? 0); [by injection E as <-|].
    apply bind_ok_inv in E as ([[im om] fd] & _ & E). apply assert_ok_inv in E as [_ E]. by injection E as <-.
Defined.

Definition LOARALaws (n m : Z) (Hn : 0 < n) (Hm : 0 < m) : RouterAllocLaws LOARA n m.
Proof.
  apply (deterministic_laws _ _ _ _ n m _ (LOAInv.LOALaws n m Hn Hm)). split; simpl.
  - intros a [H1 H2 H3 H4 H5]. split; simpl; try done. by apply (DenseInv.dense_close_idle n m _ no_requests).
  - intros a R [[Hs _ _ _ _] _ _ _ _]. by destruct Hs.
  - intros a R i o Ha. apply DenseRead.dense_Requested_ok, Ha.
  - intros a R i o l label ip op [H1 H2 H3 H4 H5] Hi Ho Hl HR.
    destruct (DenseRead.dense_Replace n m _ R i o l label ip op H1 Hi Ho Hl HR) as (d' & E & Hd').
    apply bind_ok_inv in E as (d & -> & E). simpl. unfold LOAOps.AddRequest. simpl. rewrite E. by apply returns_ok.
  - intros a a' R _ E. unfold LOAOps.Allocate in E. do 2 apply bind_ok_inv in E as (? & _ & E).
    apply bind_ok_inv in E as ([[[im om] rp] gp] & _ & E). by injection E as <-.
Defined.

Definition MaxSizeRALaws (n m : Z) (Hn : 0 < n) (Hmn : 0 < m ≤ n) : RouterAllocLaws MaxSizeRA n m.
Proof.
  apply (deterministic_laws _ _ _ _ n m _ (MaxSizeInv.MaxSizeLaws n m Hn Hmn)). split; simpl.
  - intros a [H1 H2]. split; simpl; try done. by apply (DenseInv.dense_close_idle n m _ no_requests).
  - intros a R [[Hs _ _ _ _] _]. by destruct Hs.
  - intros a R i o Ha. apply DenseRead.dense_Requested_ok, Ha.
  - intros a R i o l label ip op [H1 H2] Hi Ho Hl HR.
    destruct (DenseRead.dense_Replace n m _ R i o l label ip op H1 Hi Ho Hl HR) as (d' & E & Hd').
    apply bind_ok_inv in E as (d & -> & E). simpl. unfold MaxSizeOps.AddRequest. simpl. rewrite E. by apply returns_ok.
  - intros a a' R _ E. unfold MaxSizeOps.Allocate in E.
    apply bind_ok_inv in E as ([[im om] from] & _ & E). by injection E as <-.
Defined.

Section sparse.
Context {X : Type} (get : X → Sparse) (put : Sparse → X → X).

Definition SparseRA (I : AllocatorI X) : RouterAllocator X :=
  deterministic I (λ a, SparseRead.Requested (get a))
    (λ a in_ out label, s ← SparseOps.RemoveRequest (get a) in_ out label; Ok (put s a))
    (λ a out, Ok (SparseOps.OutputHasRequests (get a) out)).
End sparse.

Definition ISLIPRA : RouterAllocator ISLIP := SparseRA is_sparse
  (λ s a, mkISLIP s (is_iter a) (is_gptrs a) (is_aptrs a)) ISLIPI.
Definition SelRA : RouterAllocator SelAlloc := SparseRA se_sparse
  (λ s a, mkSel s (se_iter a) (se_gptrs a) (se_aptrs a) (se_outmask a)) SelI.

Definition ISLIPRALaws (n m iters : Z) (Hn : 0 < n) (Hm : 0 < m) (Hit : 0 ≤ iters) : RouterAllocLaws ISLIPRA n m.
Proof.
  apply (deterministic_laws _ _ _ _ n m _ (ISLIPInv.ISLIPLaws n m iters Hn Hm Hit)). split; simpl.
  - intros a [H1 H2]. split; simpl; try done. by apply (SparseLaws.sparse_close_idle n m _ no_requests).
  - intros a R [Hs _]. by destruct Hs.
  - intros a R i o [Hs _]. by apply SparseRead.sparse_Requested_ok.
  - intros a R i o l label ip op [H1 H2] Hi Ho Hl HR.
    destruct (SparseRead.sparse_Replace n m _ R i o l label ip op H1 Hi Ho Hl HR) as (d' & E & Hd').
    apply bind_ok_inv in E as (d & -> & E). simpl. unfold ISLIPOps.AddRequest. simpl. rewrite E. by apply returns_ok.
  - intros a a' R _ E. unfold ISLIPOps.Allocate in E.
    apply bind_ok_inv in E as ([[[im om] gp] ap] & _ & E). by injection E as <-.
Defined.

Definition SelRALaws (n m : Z) (mask : list Z) (Hn : 0 < n) (Hm : 0 < m) (Hmask : zlen mask = m) : RouterAllocLaws SelRA n m.
Proof.
  apply (deterministic_laws _ _ _ _ n m _ (SelInv.SelLaws n m mask Hn Hm Hmask)). split; simpl.
  - intros a [H1 H2]. split; simpl; try done. by apply (SparseLaws.sparse_close_idle n m _ no_requests).
  - intros a R [Hs _]. by destruct Hs.
  - intros a R i o [Hs _]. by apply SparseRead.sparse_Requested_ok.
  - intros a R i o l label ip op [H1 H2] Hi Ho Hl HR.
    destruct (SparseRead.sparse_Replace n m _ R i o l label ip op H1 Hi Ho Hl HR) as (d' & E & Hd').
    apply bind_ok_inv in E as (d & -> & E). simpl. unfold SelOps.AddRequest. simpl. rewrite E. by apply returns_ok.
  - intros a a' R _ E. unfold SelOps.Allocate in E.
    apply bind_ok_inv in E as ([gr [[[im om] gp] ap]] & _ & E). by injection E as <-.
Defined.

(** [PIM] keeps a copy of the generator, which is replaced by the global one. *)
Definition PIMRA : RouterAllocator (PIM * Rng) :=
  mkRouterAllocator PIMI (λ a, DenseRead.Requested (pim_dense a.1))
    (λ a in_ out label, d ← DenseOps.RemoveRequest (pim_dense a.1) in_ out label; Ok (mkPIM d (pim_iter a.1), a.2))
    (λ a out, DenseOps.OutputHasRequests (pim_dense a.1) out)
    (λ a g, a ← PIMOps.Allocate (a.1, g); Ok (a, a.2)).

Definition PIMRALaws (n m iters : Z) (Hn : 0 < n) (Hm : 0 < m) (Hit : 0 ≤ iters) : RouterAllocLaws PIMRA n m.
Proof.
  pose (L := PIMInv.PIMLaws n m iters Hn Hm Hit). refine {| rl_opened := PIMInv.pim_opened n m iters |}; simpl.
  - intros a (H1 & H2 & H3). split_and!; simpl; try done. by apply (DenseInv.dense_close_idle n m _ no_requests).
  - intros a R i o (Hd & _). by apply DenseRead.dense_Requested_ok.
  - intros a R i o label ip op. apply (al_AddRequest _ _ _ _ L a R i o label ip op).
  - intros a R i o l label ip op [H1 H2] Hi Ho Hl HR.
    destruct (DenseRead.dense_Replace n m _ R i o l label ip op H1 Hi Ho Hl HR) as (d' & E & Hd').
    apply bind_ok_inv in E as (d & -> & E). simpl. unfold PIMOps.AddRequest. simpl. rewrite E. by apply returns_ok.
  - intros a R g (H1 & H2 & _) Hg.
    destruct (al_Allocate _ _ _ _ L (a.1, g) R) as (a' & E & Hop & Hmt & _); [by split_and!|]. simpl in E. rewrite E.
    apply returns_ok. assert (∃ im om, pim_dense a'.1 = mkDense (AllocOps.set_match im om (d_base (pim_dense a.1)))
      (d_request (pim_dense a.1))) as (im & om & Ed).
    { unfold PIMOps.Allocate in E. apply bind_ok_inv in E as ([[im om] g'] & _ & E). injection E as <-. by exists im, om. }
    split_and!; try done; [apply Hop|..]; [simpl; rewrite Ed; simpl; apply H1..|].
    intros i o Hi Ho. rewrite Ed. by apply (DenseRead.dense_Requested_ok n m (pim_dense a.1) R).
Defined.
