(* ===== verification/IQRouter.v ===== *)
(** * The input-queued router: state and front end

    [IQRouter] (routers/iq_router.cpp).  This file holds its state, the queues
    between its pipeline stages, and the stages that read flits and credits,
    route and allocate virtual channels; [IQSwitch] holds the switch stages and
    composes a cycle.

    Configuration options are fields of [IQConfig]; the routing function is a
    parameter [rf], and so is what the router sees of the routers behind its
    outputs ([sinks], for lookahead routing).  The allocators are used through
    [RouterAllocator].  Flits are values: a flit is in one buffer at a time, and
    the code that keeps a pointer to a flit in a buffer compares it with the
    front only.  Messages to [gWatchOut], the power monitors and the code under
    [TRACK_FLOWS] and [TRACK_STALLS] are left out. *)

From S2P Require Import Prelude StdMap OutputSet Flit VCBuffer BufferState Arbiter Allocator AllocLaws Rng Route SwitchAlloc.

(** [int const] members of [Router]. *)
Definition STALL_BUFFER_BUSY : Z := -2.
Definition STALL_BUFFER_CONFLICT : Z := -3.
Definition STALL_BUFFER_FULL : Z := -4.
Definition STALL_BUFFER_RESERVED : Z := -5.
Definition STALL_CROSSBAR_CONFLICT : Z := -6.

(** Options, of the router and of its base class.  [q_internal_speedup] is in
    units of 2^-10, in which the sums the code forms of a [double] are exact; a speedup
    that is no multiple of it, such as 1.7, has no counterpart. *)
Record IQConfig : Set := mkIQConfig {
  q_id : Z;
  q_inputs : Z;
  q_outputs : Z;
  q_classes : Z;
  q_vcs : Z;
  q_input_speedup : Z;
  q_output_speedup : Z;
  q_internal_speedup : Z;
  q_crossbar_delay : Z;
  q_credit_delay : Z;
  q_routing_delay : Z;
  q_vc_alloc_delay : Z;
  q_sw_alloc_delay : Z;
  q_output_buffer_size : Z;
  q_vc_busy_when_full : bool;
  q_vc_prioritize_empty : bool;
  q_vc_shuffle_requests : bool;
  q_speculative : bool;
  q_spec_check_elig : bool;
  q_spec_check_cred : bool;
  q_spec_mask_by_reqs : bool;
  q_hold_switch_for_packet : bool;
  q_noq : bool
}.

(** The connections held by packets, per expanded input and output. *)
Record Hold : Set := mkHold {
  h_in : list Z;
  h_out : list Z;
  h_vc : list Z
}.

(** [_noq_next_output_port], [_noq_next_vc_start], [_noq_next_vc_end]. *)
Record Noq : Set := mkNoq {
  n_output_port : list (list Z);
  n_vc_start : list (list Z);
  n_vc_end : list (list Z)
}.

(** The router behind an output channel, the input it arrives at and its number
    of outputs. *)
Record Sink : Set := mkSink {
  sk_router : Router;
  sk_port : Z;
  sk_outputs : Z
}.

Section state.
Context {VA SA PA : Type}.

(** The waiting items of a stage carry the time they are done, [-1] before they
    have been looked at; those of the allocation stages carry the input, the VC
    and the outcome. *)
Record IQRouter : Type := mkIQRouter {
  iq_buf : list Buffer;
  iq_next_buf : list BufferState;
  iq_vc_allocator : option VA;
  iq_sw_allocator : SA;
  iq_spec_sw_allocator : option PA;
  iq_in_queue_flits : imap Flit;
  iq_proc_credits : list (Z * (Credit * Z));
  iq_route_vcs : list (Z * (Z * Z));
  iq_vc_alloc_vcs : list (Z * (Z * Z * Z));
  iq_sw_hold_vcs : list (Z * (Z * Z * Z));
  iq_sw_alloc_vcs : list (Z * (Z * Z * Z));
  iq_crossbar_flits : list (Z * (Flit * (Z * Z)));
  iq_out_queue_credits : imap Credit;
  iq_output_buffer : list (list Flit);
  iq_credit_buffer : list (list Credit);
  iq_switch_hold : Hold;
  iq_vc_rr_offset : list Z;
  iq_sw_rr_offset : list Z;
  iq_noq_next : Noq;
  iq_active : bool;
  iq_partial_internal_cycles : Z;
  iq_rng : Rng
}.

Definition set_buf (x : list Buffer) (st : IQRouter) : IQRouter :=
  mkIQRouter x (iq_next_buf st) (iq_vc_allocator st) (iq_sw_allocator st) (iq_spec_sw_allocator st)
    (iq_in_queue_flits st) (iq_proc_credits st) (iq_route_vcs st) (iq_vc_alloc_vcs st) (iq_sw_hold_vcs st)
    (iq_sw_alloc_vcs st) (iq_crossbar_flits st) (iq_out_queue_credits st) (iq_output_buffer st) (iq_credit_buffer st)
    (iq_switch_hold st) (iq_vc_rr_offset st) (iq_sw_rr_offset st) (iq_noq_next st) (iq_active st)
    (iq_partial_internal_cycles st) (iq_rng st).
Definition set_next_buf (x : list BufferState) (st : IQRouter) : IQRouter :=
  mkIQRouter (iq_buf st) x (iq_vc_allocator st) (iq_sw_allocator st) (iq_spec_sw_allocator st) (iq_in_queue_flits st)
    (iq_proc_credits st) (iq_route_vcs st) (iq_vc_alloc_vcs st) (iq_sw_hold_vcs st) (iq_sw_alloc_vcs st)
    (iq_crossbar_flits st) (iq_out_queue_credits st) (iq_output_buffer st) (iq_credit_buffer st) (iq_switch_hold st)
    (iq_vc_rr_offset st) (iq_sw_rr_offset st) (iq_noq_next st) (iq_active st) (iq_partial_internal_cycles st)
    (iq_rng st).
Definition set_vc_allocator (x : option VA) (st : IQRouter) : IQRouter :=
  mkIQRouter (iq_buf st) (iq_next_buf st) x (iq_sw_allocator st) (iq_spec_sw_allocator st) (iq_in_queue_flits st)
    (iq_proc_credits st) (iq_route_vcs st) (iq_vc_alloc_vcs st) (iq_sw_hold_vcs st) (iq_sw_alloc_vcs st)
    (iq_crossbar_flits st) (iq_out_queue_credits st) (iq_output_buffer st) (iq_credit_buffer st) (iq_switch_hold st)
    (iq_vc_rr_offset st) (iq_sw_rr_offset st) (iq_noq_next st) (iq_active st) (iq_partial_internal_cycles st)
    (iq_rng st).
Definition set_sw_allocator (x : SA) (st : IQRouter) : IQRouter :=
  mkIQRouter (iq_buf st) (iq_next_buf st) (iq_vc_allocator st) x (iq_spec_sw_allocator st) (iq_in_queue_flits st)
    (iq_proc_credits st) (iq_route_vcs st) (iq_vc_alloc_vcs st) (iq_sw_hold_vcs st) (iq_sw_alloc_vcs st)
    (iq_crossbar_flits st) (iq_out_queue_credits st) (iq_output_buffer st) (iq_credit_buffer st) (iq_switch_hold st)
    (iq_vc_rr_offset st) (iq_sw_rr_offset st) (iq_noq_next st) (iq_active st) (iq_partial_internal_cycles st)
    (iq_rng st).
Definition set_spec_sw_allocator (x : option PA) (st : IQRouter) : IQRouter :=
  mkIQRouter (iq_buf st) (iq_next_buf st) (iq_vc_allocator st) (iq_sw_allocator st) x (iq_in_queue_flits st)
    (iq_proc_credits st) (iq_route_vcs st) (iq_vc_alloc_vcs st) (iq_sw_hold_vcs st) (iq_sw_alloc_vcs st)
    (iq_crossbar_flits st) (iq_out_queue_credits st) (iq_output_buffer st) (iq_credit_buffer st) (iq_switch_hold st)
    (iq_vc_rr_offset st) (iq_sw_rr_offset st) (iq_noq_next st) (iq_active st) (iq_partial_internal_cycles st)
    (iq_rng st).
Definition set_in_queue_flits (x : imap Flit) (st : IQRouter) : IQRouter :=
  mkIQRouter (iq_buf st) (iq_next_buf st) (iq_vc_allocator st) (iq_sw_allocator st) (iq_spec_sw_allocator st) x
    (iq_proc_credits st) (iq_route_vcs st) (iq_vc_alloc_vcs st) (iq_sw_hold_vcs st) (iq_sw_alloc_vcs st)
    (iq_crossbar_flits st) (iq_out_queue_credits st) (iq_output_buffer st) (iq_credit_buffer st) (iq_switch_hold st)
    (iq_vc_rr_offset st) (iq_sw_rr_offset st) (iq_noq_next st) (iq_active st) (iq_partial_internal_cycles st)
    (iq_rng st).
Definition set_proc_credits (x : list (Z * (Credit * Z))) (st : IQRouter) : IQRouter :=
  mkIQRouter (iq_buf st) (iq_next_buf st) (iq_vc_allocator st) (iq_sw_allocator st) (iq_spec_sw_allocator st)
    (iq_in_queue_flits st) x (iq_route_vcs st) (iq_vc_alloc_vcs st) (iq_sw_hold_vcs st) (iq_sw_alloc_vcs st)
    (iq_crossbar_flits st) (iq_out_queue_credits st) (iq_output_buffer st) (iq_credit_buffer st) (iq_switch_hold st)
    (iq_vc_rr_offset st) (iq_sw_rr_offset st) (iq_noq_next st) (iq_active st) (iq_partial_internal_cycles st)
    (iq_rng st).
Definition set_route_vcs (x : list (Z * (Z * Z))) (st : IQRouter) : IQRouter :=
  mkIQRouter (iq_buf st) (iq_next_buf st) (iq_vc_allocator st) (iq_sw_allocator st) (iq_spec_sw_allocator st)
    (iq_in_queue_flits st) (iq_proc_credits st) x (iq_vc_alloc_vcs st) (iq_sw_hold_vcs st) (iq_sw_alloc_vcs st)
    (iq_crossbar_flits st) (iq_out_queue_credits st) (iq_output_buffer st) (iq_credit_buffer st) (iq_switch_hold st)
    (iq_vc_rr_offset st) (iq_sw_rr_offset st) (iq_noq_next st) (iq_active st) (iq_partial_internal_cycles st)
    (iq_rng st).
Definition set_vc_alloc_vcs (x : list (Z * (Z * Z * Z))) (st : IQRouter) : IQRouter :=
  mkIQRouter (iq_buf st) (iq_next_buf st) (iq_vc_allocator st) (iq_sw_allocator st) (iq_spec_sw_allocator st)
    (iq_in_queue_flits st) (iq_proc_credits st) (iq_route_vcs st) x (iq_sw_hold_vcs st) (iq_sw_alloc_vcs st)
    (iq_crossbar_flits st) (iq_out_queue_credits st) (iq_output_buffer st) (iq_credit_buffer st) (iq_switch_hold st)
    (iq_vc_rr_offset st) (iq_sw_rr_offset st) (iq_noq_next st) (iq_active st) (iq_partial_internal_cycles st)
    (iq_rng st).
Definition set_sw_hold_vcs (x : list (Z * (Z * Z * Z))) (st : IQRouter) : IQRouter :=
  mkIQRouter (iq_buf st) (iq_next_buf st) (iq_vc_allocator st) (iq_sw_allocator st) (iq_spec_sw_allocator st)
    (iq_in_queue_flits st) (iq_proc_credits st) (iq_route_vcs st) (iq_vc_alloc_vcs st) x (iq_sw_alloc_vcs st)
    (iq_crossbar_flits st) (iq_out_queue_credits st) (iq_output_buffer st) (iq_credit_buffer st) (iq_switch_hold st)
    (iq_vc_rr_offset st) (iq_sw_rr_offset st) (iq_noq_next st) (iq_active st) (iq_partial_internal_cycles st)
    (iq_rng st).
Definition set_sw_alloc_vcs (x : list (Z * (Z * Z * Z))) (st : IQRouter) : IQRouter :=
  mkIQRouter (iq_buf st) (iq_next_buf st) (iq_vc_allocator st) (iq_sw_allocator st) (iq_spec_sw_allocator st)
    (iq_in_queue_flits st) (iq_proc_credits st) (iq_route_vcs st) (iq_vc_alloc_vcs st) (iq_sw_hold_vcs st) x
    (iq_crossbar_flits st) (iq_out_queue_credits st) (iq_output_buffer st) (iq_credit_buffer st) (iq_switch_hold st)
    (iq_vc_rr_offset st) (iq_sw_rr_offset st) (iq_noq_next st) (iq_active st) (iq_partial_internal_cycles st)
    (iq_rng st).
Definition set_crossbar_flits (x : list (Z * (Flit * (Z * Z)))) (st : IQRouter) : IQRouter :=
  mkIQRouter (iq_buf st) (iq_next_buf st) (iq_vc_allocator st) (iq_sw_allocator st) (iq_spec_sw_allocator st)
    (iq_in_queue_flits st) (iq_proc_credits st) (iq_route_vcs st) (iq_vc_alloc_vcs st) (iq_sw_hold_vcs st)
    (iq_sw_alloc_vcs st) x (iq_out_queue_credits st) (iq_output_buffer st) (iq_credit_buffer st) (iq_switch_hold st)
    (iq_vc_rr_offset st) (iq_sw_rr_offset st) (iq_noq_next st) (iq_active st) (iq_partial_internal_cycles st)
    (iq_rng st).
Definition set_out_queue_credits (x : imap Credit) (st : IQRouter) : IQRouter :=
  mkIQRouter (iq_buf st) (iq_next_buf st) (iq_vc_allocator st) (iq_sw_allocator st) (iq_spec_sw_allocator st)
    (iq_in_queue_flits st) (iq_proc_credits st) (iq_route_vcs st) (iq_vc_alloc_vcs st) (iq_sw_hold_vcs st)
    (iq_sw_alloc_vcs st) (iq_crossbar_flits st) x (iq_output_buffer st) (iq_credit_buffer st) (iq_switch_hold st)
    (iq_vc_rr_offset st) (iq_sw_rr_offset st) (iq_noq_next st) (iq_active st) (iq_partial_internal_cycles st)
    (iq_rng st).
Definition set_output_buffer (x : list (list Flit)) (st : IQRouter) : IQRouter :=
  mkIQRouter (iq_buf st) (iq_next_buf st) (iq_vc_allocator st) (iq_sw_allocator st) (iq_spec_sw_allocator st)
    (iq_in_queue_flits st) (iq_proc_credits st) (iq_route_vcs st) (iq_vc_alloc_vcs st) (iq_sw_hold_vcs st)
    (iq_sw_alloc_vcs st) (iq_crossbar_flits st) (iq_out_queue_credits st) x (iq_credit_buffer st) (iq_switch_hold st)
    (iq_vc_rr_offset st) (iq_sw_rr_offset st) (iq_noq_next st) (iq_active st) (iq_partial_internal_cycles st)
    (iq_rng st).
Definition set_credit_buffer (x : list (list Credit)) (st : IQRouter) : IQRouter :=
  mkIQRouter (iq_buf st) (iq_next_buf st) (iq_vc_allocator st) (iq_sw_allocator st) (iq_spec_sw_allocator st)
    (iq_in_queue_flits st) (iq_proc_credits st) (iq_route_vcs st) (iq_vc_alloc_vcs st) (iq_sw_hold_vcs st)
    (iq_sw_alloc_vcs st) (iq_crossbar_flits st) (iq_out_queue_credits st) (iq_output_buffer st) x (iq_switch_hold st)
    (iq_vc_rr_offset st) (iq_sw_rr_offset st) (iq_noq_next st) (iq_active st) (iq_partial_internal_cycles st)
    (iq_rng st).
Definition set_switch_hold (x : Hold) (st : IQRouter) : IQRouter :=
  mkIQRouter (iq_buf st) (iq_next_buf st) (iq_vc_allocator st) (iq_sw_allocator st) (iq_spec_sw_allocator st)
    (iq_in_queue_flits st) (iq_proc_credits st) (iq_route_vcs st) (iq_vc_alloc_vcs st) (iq_sw_hold_vcs st)
    (iq_sw_alloc_vcs st) (iq_crossbar_flits st) (iq_out_queue_credits st) (iq_output_buffer st) (iq_credit_buffer st)
    x (iq_vc_rr_offset st) (iq_sw_rr_offset st) (iq_noq_next st) (iq_active st) (iq_partial_internal_cycles st)
    (iq_rng st).
Definition set_vc_rr_offset (x : list Z) (st : IQRouter) : IQRouter :=
  mkIQRouter (iq_buf st) (iq_next_buf st) (iq_vc_allocator st) (iq_sw_allocator st) (iq_spec_sw_allocator st)
    (iq_in_queue_flits st) (iq_proc_credits st) (iq_route_vcs st) (iq_vc_alloc_vcs st) (iq_sw_hold_vcs st)
    (iq_sw_alloc_vcs st) (iq_crossbar_flits st) (iq_out_queue_credits st) (iq_output_buffer st) (iq_credit_buffer st)
    (iq_switch_hold st) x (iq_sw_rr_offset st) (iq_noq_next st) (iq_active st) (iq_partial_internal_cycles st)
    (iq_rng st).
Definition set_sw_rr_offset (x : list Z) (st : IQRouter) : IQRouter :=
  mkIQRouter (iq_buf st) (iq_next_buf st) (iq_vc_allocator st) (iq_sw_allocator st) (iq_spec_sw_allocator st)
    (iq_in_queue_flits st) (iq_proc_credits st) (iq_route_vcs st) (iq_vc_alloc_vcs st) (iq_sw_hold_vcs st)
    (iq_sw_alloc_vcs st) (iq_crossbar_flits st) (iq_out_queue_credits st) (iq_output_buffer st) (iq_credit_buffer st)
    (iq_switch_hold st) (iq_vc_rr_offset st) x (iq_noq_next st) (iq_active st) (iq_partial_internal_cycles st)
    (iq_rng st).
Definition set_noq_next (x : Noq) (st : IQRouter) : IQRouter :=
  mkIQRouter (iq_buf st) (iq_next_buf st) (iq_vc_allocator st) (iq_sw_allocator st) (iq_spec_sw_allocator st)
    (iq_in_queue_flits st) (iq_proc_credits st) (iq_route_vcs st) (iq_vc_alloc_vcs st) (iq_sw_hold_vcs st)
    (iq_sw_alloc_vcs st) (iq_crossbar_flits st) (iq_out_queue_credits st) (iq_output_buffer st) (iq_credit_buffer st)
    (iq_switch_hold st) (iq_vc_rr_offset st) (iq_sw_rr_offset st) x (iq_active st) (iq_partial_internal_cycles st)
    (iq_rng st).
Definition set_active (x : bool) (st : IQRouter) : IQRouter :=
  mkIQRouter (iq_buf st) (iq_next_buf st) (iq_vc_allocator st) (iq_sw_allocator st) (iq_spec_sw_allocator st)
    (iq_in_queue_flits st) (iq_proc_credits st) (iq_route_vcs st) (iq_vc_alloc_vcs st) (iq_sw_hold_vcs st)
    (iq_sw_alloc_vcs st) (iq_crossbar_flits st) (iq_out_queue_credits st) (iq_output_buffer st) (iq_credit_buffer st)
    (iq_switch_hold st) (iq_vc_rr_offset st) (iq_sw_rr_offset st) (iq_noq_next st) x (iq_partial_internal_cycles st)
    (iq_rng st).
Definition set_partial_internal_cycles (x : Z) (st : IQRouter) : IQRouter :=
  mkIQRouter (iq_buf st) (iq_next_buf st) (iq_vc_allocator st) (iq_sw_allocator st) (iq_spec_sw_allocator st)
    (iq_in_queue_flits st) (iq_proc_credits st) (iq_route_vcs st) (iq_vc_alloc_vcs st) (iq_sw_hold_vcs st)
    (iq_sw_alloc_vcs st) (iq_crossbar_flits st) (iq_out_queue_credits st) (iq_output_buffer st) (iq_credit_buffer st)
    (iq_switch_hold st) (iq_vc_rr_offset st) (iq_sw_rr_offset st) (iq_noq_next st) (iq_active st) x (iq_rng st).
Definition set_rng (x : Rng) (st : IQRouter) : IQRouter :=
  mkIQRouter (iq_buf st) (iq_next_buf st) (iq_vc_allocator st) (iq_sw_allocator st) (iq_spec_sw_allocator st)
    (iq_in_queue_flits st) (iq_proc_credits st) (iq_route_vcs st) (iq_vc_alloc_vcs st) (iq_sw_hold_vcs st)
    (iq_sw_alloc_vcs st) (iq_crossbar_flits st) (iq_out_queue_credits st) (iq_output_buffer st) (iq_credit_buffer st)
    (iq_switch_hold st) (iq_vc_rr_offset st) (iq_sw_rr_offset st) (iq_noq_next st) (iq_active st)
    (iq_partial_internal_cycles st) x.
End state.
Arguments IQRouter : clear implicits.

Module IQRouterOps.
Import CoreOps.

(** [_noq_next_output_port[input][vc]] and the like. *)
Definition get2 (v : list (list Z)) (i j : Z) : res Z := row ← vget v i; vget row j.
Definition set2 (v : list (list Z)) (i j x : Z) : res (list (list Z)) :=
  row ← vget v i; row ← vset row j x; vset v i row.

(** A pass over the items that have not been looked at: it stops at the first
    item with a time. *)
Fixpoint each_new {X S : Type} (body : Z * X → S → res (Z * X * S)) (items : list (Z * X)) (s : S) : res (list (Z * X) * S) :=
  match items with
  | [] => Ok ([], s)
  | (time, x) :: rest =>
      if 0 <=? time then Ok (items, s)
      else
        '(item, s) ← body (time, x) s;
        '(rest, s) ← each_new body rest s;
        Ok (item :: rest, s)
  end.

(** A pass over the items that are done at [now].  [read] is how the loop reads a time:
    that of [_SWAllocEvaluate] narrows it to an [int]. *)
Fixpoint each_done {X : Type} (read : Z → Z) (now : Z) (body : X → res X) (items : list (Z * X)) : res (list (Z * X)) :=
  match items with
  | [] => Ok []
  | (time, x) :: rest =>
      assert! (0 <=? read time);
      if now <? read time then Ok items
      else
        x ← body x;
        rest ← each_done read now body rest;
        Ok ((time, x) :: rest)
  end.

(** The loops of the update functions: take the items that are done off the
    front of a queue.  What [body] adds to the queue has no time yet, so that
    the number of items bounds the rounds.  With [wait] the loop ends at an item
    of a later time. *)
Fixpoint drain {X S : Type} (wait : bool) (fuel : nat) (now : Z) (queue : S → list (Z * X)) (pop : S → S)
    (body : X → S → res S) (s : S) : res S :=
  match queue s with
  | [] => Ok s
  | (time, x) :: _ =>
      if (time <? 0) || (wait && (now <? time)) then Ok s
      else
        match fuel with
        | O => Fail OutOfFuel
        | S fuel =>
            assert! (now =? time);
            s ← body x s;
            drain wait fuel now queue pop body (pop s)
        end
  end.

(** What a pass over the output VCs has found: one that is free, one with
    credit, one whose buffer is full only by reservation; and the allocator. *)
Record Found (X : Type) : Type := mkFound { fd_elig : bool; fd_cred : bool; fd_reserved : bool; fd_alloc : X }.
Arguments mkFound {X} _ _ _ _.
Arguments fd_elig {X} _.
Arguments fd_cred {X} _.
Arguments fd_reserved {X} _.
Arguments fd_alloc {X} _.

Section router.
Context (C : IQConfig) {VA SA PA : Type}.
Context (IV : RouterAllocator VA) (IS : RouterAllocator SA) (IP : RouterAllocator PA).
Context (rf : Router → Flit → Z → OutputSet → bool → Rng → res (OutputSet * Flit * Rng)).
Context (faults : list bool) (sinks : list (option Sink)) (now : Z).
Local Abbreviation IQ := (IQRouter VA SA PA).
Implicit Types st : IQ.

Definition valid_input (input : Z) : bool := (0 <=? input) && (input <? q_inputs C).
Definition valid_output (output : Z) : bool := (0 <=? output) && (output <? q_outputs C).
Definition valid_vc (vc : Z) : bool := (0 <=? vc) && (vc <? q_vcs C).

Definition expanded_input (input vc : Z) : Z := input * q_input_speedup C + vc `rem` q_input_speedup C.
Definition expanded_output (output input : Z) : Z := output * q_output_speedup C + input `rem` q_output_speedup C.

Definition input_and_vc (input vc : Z) : Z :=
  if q_vc_shuffle_requests C then vc * q_inputs C + input else input * q_vcs C + vc.

(** What a routing function sees of this router. *)
Definition view st : Router :=
  mkRouter (q_id C) ((λ bs, occupancy (core bs)) <$> iq_next_buf st) faults.

Definition put_buf (input : Z) (b : Buffer) st : res IQ :=
  bufs ← vset (iq_buf st) input b; Ok (set_buf bufs st).
Definition put_next_buf (output : Z) (b : BufferState) st : res IQ :=
  bufs ← vset (iq_next_buf st) output b; Ok (set_next_buf bufs st).

(** The assertions every stage makes of an item's VC, and the flit at its front. *)
Definition front (ok : eVCState → bool) (head : bool) st (input vc : Z) : res (Buffer * VC * Flit) :=
  assert! valid_input input;
  assert! valid_vc vc;
  b ← vget (iq_buf st) input;
  v ← vget (b_vc b) vc;
  assert! negb (VCOps.Empty v);
  assert! ok (v_state v);
  match VCOps.FrontFlit v with
  | None => Fail AssertFailed
  | Some f =>
      assert! (f_vc f =? vc);
      assert! implb head (f_head f);
      Ok (b, v, f)
  end.

Definition is_routing (s : eVCState) : bool := match s with routing => true | _ => false end.
Definition is_vc_alloc (s : eVCState) : bool := match s with vc_alloc => true | _ => false end.
Definition is_active (s : eVCState) : bool := match s with active => true | _ => false end.
Definition may_send (s : eVCState) : bool := is_active s || (q_speculative C && is_vc_alloc s).

(** ** Reading inputs *)

(** [flits] is what the input channels deliver. *)
Definition ReceiveFlits (flits : list (option Flit)) st : res (bool * IQ) :=
  zfor 0 (q_inputs C) (λ input '(activity, st),
    f ← vget flits input;
    match f with
    | None => Ok (activity, st)
    | Some f =>
        let q := iq_in_queue_flits st in
        Ok (true, set_in_queue_flits (if mcount input q =? 0 then mset input f q else q) st)
    end) (false, st).

Definition ReceiveCredits (credits : list (option Credit)) st : res (bool * IQ) :=
  zfor 0 (q_outputs C) (λ output '(activity, st),
    c ← vget credits output;
    match c with
    | None => Ok (activity, st)
    | Some c => Ok (true, set_proc_credits (iq_proc_credits st ++ [(now + q_credit_delay C, (c, output))]) st)
    end) (false, st).

Definition ReadInputs (flits : list (option Flit)) (credits : list (option Credit)) st : res IQ :=
  '(have_flits, st) ← ReceiveFlits flits st;
  '(have_credits, st) ← ReceiveCredits credits st;
  Ok (set_active (iq_active st || have_flits || have_credits) st).

(** ** Input queuing *)

Definition push_vc_alloc (input vc : Z) st : IQ := set_vc_alloc_vcs (iq_vc_alloc_vcs st ++ [(-1, (input, vc, -1))]) st.
Definition push_sw_alloc (input vc : Z) st : IQ := set_sw_alloc_vcs (iq_sw_alloc_vcs st ++ [(-1, (input, vc, -1))]) st.
Definition push_sw_hold (input vc : Z) st : IQ := set_sw_hold_vcs (iq_sw_hold_vcs st ++ [(-1, (input, vc, -1))]) st.
Definition push_route (input vc : Z) st : IQ := set_route_vcs (iq_route_vcs st ++ [(-1, (input, vc))]) st.

(** The flit at the front of a VC, changed in place by a routing function. *)
Definition put_front (input vc : Z) (f : Flit) st : res IQ :=
  b ← vget (iq_buf st) input;
  b ← BufferOps.update_vc (λ v, VCOps.with_buffer (f :: tail (v_buffer v)) v) b vc;
  put_buf input b st.

Definition UpdateNOQ (input vc : Z) (f : Flit) st : res IQ :=
  assert! (q_routing_delay C =? 0);
  assert! (f_vc f =? vc);
  assert! f_head f;
  match f_la_route_set f with
  | [se] =>
      sink ← vget sinks (output_port se);
      match sink with
      | None => Ok st
      | Some s =>
          '(nos, f, g) ← rf (sk_router s) f (sk_port s) [] false (iq_rng st);
          st ← put_front input vc f (set_rng g st);
          match nos with
          | [se] =>
              let next_output_port := output_port se in
              assert! (0 <=? next_output_port);
              let n := iq_noq_next st in
              p ← get2 (n_output_port n) input vc;
              assert! (p <? 0);
              op ← set2 (n_output_port n) input vc next_output_port;
              let next_vc_count := (vc_end se - vc_start se + 1) `quot` sk_outputs s in
              let next_vc_start := vc_start se + next_output_port * next_vc_count in
              assert! valid_vc next_vc_start;
              a ← get2 (n_vc_start n) input vc;
              assert! (a <? 0);
              vs ← set2 (n_vc_start n) input vc next_vc_start;
              let next_vc_end := vc_start se + (next_output_port + 1) * next_vc_count - 1 in
              assert! valid_vc next_vc_end;
              e ← get2 (n_vc_end n) input vc;
              assert! (e <? 0);
              ve ← set2 (n_vc_end n) input vc next_vc_end;
              assert! (next_vc_start <=? next_vc_end);
              Ok (set_noq_next (mkNoq op vs ve) st)
          | _ => Fail AssertFailed
          end
      end
  | _ => Fail AssertFailed
  end.

(** A packet's head has come to the front of a VC: it waits for its route, or
    uses the one it carries. *)
Definition start_packet (input vc : Z) (f : Flit) st : res IQ :=
  b ← vget (iq_buf st) input;
  if negb (q_routing_delay C =? 0) then
    b ← BufferOps.SetState b vc routing;
    st ← put_buf input b st;
    Ok (push_route input vc st)
  else
    b ← BufferOps.SetRouteSet b vc (Some (f_la_route_set f));
    b ← BufferOps.SetState b vc vc_alloc;
    st ← put_buf input b st;
    let st := if q_speculative C then push_sw_alloc input vc st else st in
    let st := match iq_vc_allocator st with Some _ => push_vc_alloc input vc st | None => st end in
    if q_noq C then UpdateNOQ input vc f st else Ok st.

(** The flit just added is the front flit exactly when it is the only one. *)
Definition queue_flit (input : Z) (f : Flit) st : res IQ :=
  assert! valid_input input;
  let vc := f_vc f in
  assert! valid_vc vc;
  b ← vget (iq_buf st) input;
  b ← BufferOps.AddFlit now b vc f;
  st ← put_buf input b st;
  v ← vget (b_vc b) vc;
  let alone := VCOps.GetOccupancy v =? 1 in
  held ← vget (h_vc (iq_switch_hold st)) (expanded_input input vc);
  match v_state v with
  | idle =>
      assert! alone;
      assert! f_head f;
      assert! negb (held =? vc);
      start_packet input vc f st
  | active =>
      Ok (if alone then if held =? vc then push_sw_hold input vc st else push_sw_alloc input vc st else st)
  | _ => Ok st
  end.

Fixpoint process_credits (items : list (Z * (Credit * Z))) st : res IQ :=
  match items with
  | [] => Ok (set_proc_credits [] st)
  | (time, (c, output)) :: rest =>
      if now <? time then Ok (set_proc_credits items st)
      else
        assert! valid_output output;
        bs ← vget (iq_next_buf st) output;
        bs ← BufferStateOps.ProcessCredit now bs c;
        st ← put_next_buf output bs st;
        process_credits rest st
  end.

Definition InputQueuing st : res IQ :=
  st ← foldl (λ m x, st ← m; queue_flit x.1 x.2 st) (Ok st) (iq_in_queue_flits st);
  let st := set_in_queue_flits [] st in
  process_credits (iq_proc_credits st) st.

(** ** Routing *)

Definition RouteEvaluate st : res IQ :=
  assert! negb (q_routing_delay C =? 0);
  '(items, _) ← each_new (λ item (_ : unit),
      _ ← front is_routing true st item.2.1 item.2.2;
      Ok ((now + q_routing_delay C - 1, item.2), tt)) (iq_route_vcs st) tt;
  Ok (set_route_vcs items st).

(** [VC::Route]. *)
Definition Route (v : VC) (r : Router) (f : Flit) (in_channel : Z) (g : Rng) : res (VC * Rng) :=
  match v_route_set v with
  | None => Fail BadIterator
  | Some rs =>
      '(rs, f, g) ← rf r f in_channel rs false g;
      Ok (VCOps.SetRouteSet (Some rs) (VCOps.with_buffer (f :: tail (v_buffer v)) v), g)
  end.

Definition route_done (x : Z * Z) st : res IQ :=
  let '(input, vc) := x in
  '(b, v, f) ← front is_routing true st input vc;
  '(v, g) ← Route v (view st) f input (iq_rng st);
  b ← BufferOps.update_vc (λ _, VCOps.SetState vc_alloc v) b vc;
  st ← put_buf input b (set_rng g st);
  let st := if q_speculative C then push_sw_alloc input vc st else st in
  Ok (match iq_vc_allocator st with Some _ => push_vc_alloc input vc st | None => st end).

Definition RouteUpdate st : res IQ :=
  assert! negb (q_routing_delay C =? 0);
  drain true (length (iq_route_vcs st)) now iq_route_vcs (λ st, set_route_vcs (tail (iq_route_vcs st)) st) route_done st.

(** ** VC allocation *)

(** The output VCs of an element of a route set. *)
Definition vc_range st (input vc : Z) (se : sSetElement) : res (Z * Z) :=
  noq ← (if q_noq C then p ← get2 (n_output_port (iq_noq_next st)) input vc; Ok (0 <=? p) else Ok false);
  '(vs, ve) ← (if (noq : bool) then
      assert! (q_routing_delay C =? 0);
      vs ← get2 (n_vc_start (iq_noq_next st)) input vc;
      ve ← get2 (n_vc_end (iq_noq_next st)) input vc;
      Ok (vs, ve)
    else Ok (vc_start se, vc_end se));
  assert! valid_vc vs;
  assert! valid_vc ve;
  assert! (vs <=? ve);
  Ok (vs, ve).

(** Requests to prefer empty VCs are ranked above the others. *)
Definition vc_priority (bs : BufferState) (out_vc pri : Z) : res Z :=
  if q_vc_prioritize_empty C then
    empty ← IsEmptyFor (core bs) out_vc;
    if negb empty then assert! (0 <=? pri); Ok (pri + int_min) else Ok pri
  else Ok pri.

Definition route_set_of (v : VC) : res OutputSet :=
  match v_route_set v with
  | None => Fail AssertFailed
  | Some rs => assert! negb (q_noq C) || (length rs =? 1)%nat; Ok rs
  end.

Definition request_vc (input vc out_priority : Z) (se : sSetElement) (dest_buf : BufferState) (out_vc : Z) (s : Found VA)
    : res (Found VA) :=
  assert! valid_vc out_vc;
  in_priority ← vc_priority dest_buf out_vc (se_pri se);
  available ← IsAvailableFor (core dest_buf) out_vc;
  if negb available then Ok s
  else
    full ← (if q_vc_busy_when_full C then BufferStateOps.IsFullFor now dest_buf out_vc else Ok false);
    if (full : bool) then
      all ← IsFull (core dest_buf);
      Ok (mkFound true (fd_cred s) (fd_reserved s || negb all) (fd_alloc s))
    else
      a ← i_AddRequest (ra_I IV) (fd_alloc s) (input_and_vc input vc) (output_port se * q_vcs C + out_vc) 0
            in_priority out_priority;
      Ok (mkFound true true (fd_reserved s) a).

Definition request_vcs st (item : Z * (Z * Z * Z)) (va : VA) : res (Z * (Z * Z * Z) * VA) :=
  let '(time, (input, vc, r)) := item in
  assert! (r =? -1);
  '(_, v, _) ← front is_vc_alloc true st input vc;
  route_set ← route_set_of v;
  s ← foldl (λ m se, s ← m;
        assert! valid_output (output_port se);
        dest_buf ← vget (iq_next_buf st) (output_port se);
        '(vs, ve) ← vc_range st input vc se;
        zfor vs (ve + 1) (request_vc input vc (v_pri v) se dest_buf) s) (Ok (mkFound false false false va)) route_set;
  let r :=
    if negb (fd_elig s) then STALL_BUFFER_BUSY
    else if q_vc_busy_when_full C && negb (fd_cred s) then
      if fd_reserved s then STALL_BUFFER_RESERVED else STALL_BUFFER_FULL
    else r in
  Ok ((time, (input, vc, r)), fd_alloc s).

Definition assign_vc st (va : VA) (item : Z * (Z * Z * Z)) (_ : unit) : res (Z * (Z * Z * Z) * unit) :=
  let '(_, (input, vc, r)) := item in
  let time := now + q_vc_alloc_delay C - 1 in
  assert! valid_input input;
  assert! valid_vc vc;
  if r <? -1 then Ok ((time, (input, vc, r)), tt)
  else
    assert! (r =? -1);
    _ ← front is_vc_alloc true st input vc;
    output_and_vc ← AllocOps.OutputAssigned (i_base (ra_I IV) va) (input_and_vc input vc);
    if 0 <=? output_and_vc then
      assert! valid_output (output_and_vc `quot` q_vcs C);
      assert! valid_vc (output_and_vc `rem` q_vcs C);
      Ok ((time, (input, vc, output_and_vc)), tt)
    else Ok ((time, (input, vc, STALL_BUFFER_CONFLICT)), tt).

Definition stall_full (bs : BufferState) : res Z :=
  all ← IsFull (core bs); Ok (if (all : bool) then STALL_BUFFER_FULL else STALL_BUFFER_RESERVED).

(** A grant of an allocation that takes several cycles is checked again. *)
Definition recheck_vc st (x : Z * Z * Z) : res (Z * Z * Z) :=
  let '(input, vc, r) := x in
  assert! negb (r =? -1);
  if 0 <=? r then
    let match_output := r `quot` q_vcs C in
    assert! valid_output match_output;
    let match_vc := r `rem` q_vcs C in
    assert! valid_vc match_vc;
    dest_buf ← vget (iq_next_buf st) match_output;
    _ ← front is_vc_alloc true st input vc;
    available ← IsAvailableFor (core dest_buf) match_vc;
    if negb available then Ok (input, vc, STALL_BUFFER_BUSY)
    else
      full ← (if q_vc_busy_when_full C then BufferStateOps.IsFullFor now dest_buf match_vc else Ok false);
      if (full : bool) then r ← stall_full dest_buf; Ok (input, vc, r) else Ok x
  else Ok x.

Definition VCAllocEvaluate st : res IQ :=
  match iq_vc_allocator st with
  | None => Fail AssertFailed
  | Some va =>
      '(items, va) ← each_new (request_vcs st) (iq_vc_alloc_vcs st) va;
      '(va, g) ← ra_Allocate IV va (iq_rng st);
      '(items, _) ← each_new (assign_vc st va) items tt;
      items ← (if q_vc_alloc_delay C <=? 1 then Ok items else each_done id now (recheck_vc st) items);
      Ok (set_rng g (set_vc_alloc_vcs items (set_vc_allocator (Some va) st)))
  end.

Definition vc_done (x : Z * Z * Z) st : res IQ :=
  let '(input, vc, output_and_vc) := x in
  assert! negb (output_and_vc =? -1);
  '(b, _, _) ← front is_vc_alloc true st input vc;
  if 0 <=? output_and_vc then
    let match_output := output_and_vc `quot` q_vcs C in
    assert! valid_output match_output;
    let match_vc := output_and_vc `rem` q_vcs C in
    assert! valid_vc match_vc;
    dest_buf ← vget (iq_next_buf st) match_output;
    available ← IsAvailableFor (core dest_buf) match_vc;
    assert! available;
    dest_buf ← BufferStateOps.TakeBuffer dest_buf match_vc (input * q_vcs C + vc);
    st ← put_next_buf match_output dest_buf st;
    b ← BufferOps.SetOutput b vc match_output match_vc;
    b ← BufferOps.SetState b vc active;
    st ← put_buf input b st;
    Ok (if q_speculative C then st else push_sw_alloc input vc st)
  else Ok (push_vc_alloc input vc st).

Definition VCAllocUpdate st : res IQ :=
  match iq_vc_allocator st with
  | None => Fail AssertFailed
  | Some _ =>
      drain true (length (iq_vc_alloc_vcs st)) now iq_vc_alloc_vcs
        (λ st, set_vc_alloc_vcs (tail (iq_vc_alloc_vcs st)) st) vc_done st
  end.
End router.
End IQRouterOps.
