(* ===== verification/IQSwitch.v ===== *)
(** * The input-queued router: switch stages and cycle

    The second half of [IQRouter] (routers/iq_router.cpp): held connections,
    switch allocation (plain, speculative and with piggybacked VC allocation),
    the crossbar, the output queues, and the cycle of a router: [ReadInputs],
    [Evaluate] (of [Router], routers/router.cpp) and [WriteOutputs]. *)

From S2P Require Import Prelude StdMap OutputSet Flit VCBuffer BufferState Arbiter Allocator AllocLaws Rng Route SwitchAlloc IQRouter.

Module IQSwitchOps.
Import CoreOps IQRouterOps.

(** [set<int>::insert]. *)
Fixpoint vc_insert (x : Z) (l : list Z) : list Z :=
  match l with
  | [] => [x]
  | y :: l' => if x <? y then x :: l else if y <? x then y :: vc_insert x l' else l
  end.

Section router.
Context (C : IQConfig) {VA SA PA : Type}.
Context (IV : RouterAllocator VA) (IS : RouterAllocator SA) (IP : RouterAllocator PA).
Context (rf : Router → Flit → Z → OutputSet → bool → Rng → res (OutputSet * Flit * Rng)).
Context (faults : list bool) (sinks : list (option Sink)) (now : Z).
Local Abbreviation IQ := (IQRouter VA SA PA).
Implicit Types st : IQ.
Local Abbreviation start_packet := (start_packet C rf sinks).

(** ** Sending a flit *)

(** [_output_buffer_size == -1 || _output_buffer[output].size() < size_t(_output_buffer_size)]. *)
Definition has_room st (output : Z) : res bool :=
  if q_output_buffer_size C =? -1 then Ok true
  else q ← vget (iq_output_buffer st) output; Ok (zlen q <? q_output_buffer_size C mod 2 ^ 64).

(** The route for the next router, for a head flit on its way out. *)
Definition lookahead (input vc output : Z) (f : Flit) st : res (Flit * IQ) :=
  sink ← vget sinks output;
  match sink with
  | None => Ok (FlitOps.set_la_route_set [] f, st)
  | Some s =>
      if q_noq C then
        let n := iq_noq_next st in
        next_output_port ← get2 (n_output_port n) input vc;
        assert! (0 <=? next_output_port);
        op ← set2 (n_output_port n) input vc (-1);
        next_vc_start ← get2 (n_vc_start n) input vc;
        assert! valid_vc C next_vc_start;
        vs ← set2 (n_vc_start n) input vc (-1);
        next_vc_end ← get2 (n_vc_end n) input vc;
        assert! valid_vc C next_vc_end;
        ve ← set2 (n_vc_end n) input vc (-1);
        Ok (FlitOps.set_la_route_set (OutputSetOps.AddRange [] next_output_port next_vc_start next_vc_end 0) f,
            set_noq_next (mkNoq op vs ve) st)
      else
        '(rs, f, g) ← rf (sk_router s) f (sk_port s) (f_la_route_set f) false (iq_rng st);
        Ok (FlitOps.set_la_route_set rs f, set_rng g st)
  end.

(** From [RemoveFlit] to the credit: the part [_SWHoldUpdate] and [_SWAllocUpdate]
    share. *)
Definition send_flit (input vc output match_vc ei eo : Z) st : res (Flit * IQ) :=
  b ← vget (iq_buf st) input;
  '(f, b) ← BufferOps.RemoveFlit b vc;
  st ← put_buf input b st;
  let f := FlitOps.set_vc match_vc (FlitOps.set_hops (f_hops f + 1) f) in
  '(f, st) ← (if (q_routing_delay C =? 0) && f_head f then lookahead input vc output f st else Ok (f, st));
  dest_buf ← vget (iq_next_buf st) output;
  dest_buf ← BufferStateOps.SendingFlit now dest_buf f;
  st ← put_next_buf output dest_buf st;
  let st := set_crossbar_flits (iq_crossbar_flits st ++ [(-1, (f, (ei, eo)))]) st in
  let q := iq_out_queue_credits st in
  let c := default (mkCredit []) (mfind input q) in
  Ok (f, set_out_queue_credits (mset input (mkCredit (vc_insert vc (c_vc c))) q) st).

Definition put_hold (ei eo : Z) (hi ho hv : Z) st : res IQ :=
  let h := iq_switch_hold st in
  vcs ← vset (h_vc h) ei hv;
  ins ← vset (h_in h) ei hi;
  outs ← vset (h_out h) eo ho;
  Ok (set_switch_hold (mkHold ins outs vcs) st).
Definition cancel_hold (ei eo : Z) st : res IQ := put_hold ei eo (-1) (-1) (-1) st.

Definition set_state (input vc : Z) (s : eVCState) st : res IQ :=
  b ← vget (iq_buf st) input;
  b ← BufferOps.SetState b vc s;
  put_buf input b st.

(** The flit that comes to the front after a flit has left. *)
Definition next_front (input vc : Z) st : res (option Flit) :=
  b ← vget (iq_buf st) input;
  nf ← BufferOps.FrontFlit b vc;
  match nf with
  | None => Ok None
  | Some nf => assert! (f_vc nf =? vc); Ok (Some nf)
  end.

(** ** Held connections *)

Definition hold_evaluate st (item : Z * (Z * Z * Z)) (_ : unit) : res (Z * (Z * Z * Z) * unit) :=
  let '(_, (input, vc, r)) := item in
  assert! (r =? -1);
  '(_, v, _) ← front C is_active false st input vc;
  let ei := expanded_input C input vc in
  hv ← vget (h_vc (iq_switch_hold st)) ei;
  assert! (hv =? vc);
  assert! valid_output C (v_out_port v);
  assert! valid_vc C (v_out_vc v);
  let eo := expanded_output C (v_out_port v) input in
  hi ← vget (h_in (iq_switch_hold st)) ei;
  assert! (hi =? eo);
  dest_buf ← vget (iq_next_buf st) (v_out_port v);
  full ← BufferStateOps.IsFullFor now dest_buf (v_out_vc v);
  r ← (if (full : bool) then stall_full dest_buf else Ok eo);
  Ok ((now, (input, vc, r)), tt).

Definition SWHoldEvaluate st : res IQ :=
  assert! q_hold_switch_for_packet C;
  '(items, _) ← each_new (hold_evaluate st) (iq_sw_hold_vcs st) tt;
  Ok (set_sw_hold_vcs items st).

(** The VC after a flit [f] has left over a held connection. *)
Definition hold_next (input vc ei eo : Z) (f : Flit) st : res IQ :=
  nf ← next_front input vc st;
  match nf with
  | None =>
      st ← cancel_hold ei eo st;
      if f_tail f then set_state input vc idle st else Ok st
  | Some nf =>
      if f_tail f then
        assert! f_head nf;
        st ← cancel_hold ei eo st;
        start_packet input vc nf st
      else Ok (push_sw_hold input vc st)
  end.

Definition hold_done (x : Z * Z * Z) st : res IQ :=
  let '(input, vc, eo) := x in
  assert! negb (eo =? -1);
  '(_, v, _) ← front C is_active false st input vc;
  let ei := expanded_input C input vc in
  hv ← vget (h_vc (iq_switch_hold st)) ei;
  assert! (hv =? vc);
  room ← (if 0 <=? eo then has_room st (eo `quot` q_output_speedup C) else Ok false);
  if (room : bool) then
    hi ← vget (h_in (iq_switch_hold st)) ei;
    assert! (hi =? eo);
    ho ← vget (h_out (iq_switch_hold st)) eo;
    assert! (ho =? ei);
    let output := eo `quot` q_output_speedup C in
    assert! valid_output C output;
    assert! (v_out_port v =? output);
    assert! valid_vc C (v_out_vc v);
    '(f, st) ← send_flit input vc output (v_out_vc v) ei eo st;
    hold_next input vc ei eo f st
  else
    assert! (eo =? STALL_BUFFER_FULL) || (eo =? STALL_BUFFER_RESERVED) || (0 <=? eo);
    held ← vget (h_in (iq_switch_hold st)) ei;
    assert! (0 <=? held);
    st ← cancel_hold ei held st;
    Ok (push_sw_alloc input vc st).

Definition SWHoldUpdate st : res IQ :=
  assert! q_hold_switch_for_packet C;
  drain false (length (iq_sw_hold_vcs st)) now iq_sw_hold_vcs (λ st, set_sw_hold_vcs (tail (iq_sw_hold_vcs st)) st)
    hold_done st.

(** ** Switch allocation *)

(** One request per expanded input and output: a better VC replaces it. *)
Definition place_request {X : Type} (A : RouterAllocator X) (x : X) (ei eo vc prio offset : Z) : res (bool * X) :=
  req ← ra_ReadRequest A x ei eo;
  match req with
  | Some (label, in_pri, _) =>
      if RoundRobinOps.Supersedes vc prio label in_pri offset (q_vcs C) then
        x ← ra_RemoveRequest A x ei eo label;
        x ← i_AddRequest (ra_I A) x ei eo vc prio prio;
        Ok (true, x)
      else Ok (false, x)
  | None =>
      x ← i_AddRequest (ra_I A) x ei eo vc prio prio;
      Ok (true, x)
  end.

Definition SWAllocAddReq (input vc output : Z) st : res (bool * IQ) :=
  assert! valid_output C output;
  let ei := expanded_input C input vc in
  let eo := expanded_output C output input in
  '(_, v, _) ← front C (may_send C) false st input vc;
  hi ← vget (h_in (iq_switch_hold st)) ei;
  ho ← (if hi <? 0 then vget (h_out (iq_switch_hold st)) eo else Ok 0);
  if (hi <? 0) && (ho <? 0) then
    offset ← vget (iq_sw_rr_offset st) ei;
    match q_speculative C && is_vc_alloc (v_state v), iq_spec_sw_allocator st with
    | true, Some pa =>
        '(b, pa) ← place_request IP pa ei eo vc (v_pri v) offset;
        Ok (b, set_spec_sw_allocator (Some pa) st)
    | spec, _ =>
        prio ← (if spec then assert! (0 <=? v_pri v); Ok (v_pri v + int_min) else Ok (v_pri v));
        '(b, sa) ← place_request IS (iq_sw_allocator st) ei eo vc prio offset;
        Ok (b, set_sw_allocator sa st)
    end
  else Ok (false, st).

(** Is there a suitable VC at the output, and one with credit? *)
Definition spec_check st (input vc : Z) (se : sSetElement) (dest_buf : BufferState) : res (bool * bool) :=
  if q_spec_check_elig C then
    '(vs, ve) ← vc_range C st input vc se;
    c ← zforb vs (ve + 1) (λ dest_vc s,
      assert! valid_vc C dest_vc;
      available ← IsAvailableFor (core dest_buf) dest_vc;
      room ← (if (available : bool) then has_room st (output_port se) else Ok false);
      if (room : bool) then
        ok ← (if q_spec_check_cred C then full ← BufferStateOps.IsFullFor now dest_buf dest_vc; Ok (negb full) else Ok true);
        Ok (if (ok : bool) then Break (true, true) else Next (true, s.2))
      else Ok (Next s)) (false, false);
    Ok (ctl_val c)
  else Ok (false, false).

(** A speculative request for one element of the route set. *)
Definition spec_request (input vc : Z) (s : IQ * Z) (se : sSetElement) : res (IQ * Z) :=
  let '(st, r) := s in
  assert! valid_output C (output_port se);
  dest_buf ← vget (iq_next_buf st) (output_port se);
  '(elig, cred) ← spec_check st input vc se dest_buf;
  if q_spec_check_elig C && negb elig then Ok (st, STALL_BUFFER_BUSY)
  else if q_spec_check_cred C && negb cred then r ← stall_full dest_buf; Ok (st, r)
  else '(_, st) ← SWAllocAddReq input vc (output_port se) st; Ok (st, r).

Definition sw_request (item : Z * (Z * Z * Z)) st : res (Z * (Z * Z * Z) * IQ) :=
  let '(time, (input, vc, r)) := item in
  assert! (r =? -1);
  assert! valid_input C input;
  assert! valid_vc C vc;
  hv ← vget (h_vc (iq_switch_hold st)) (expanded_input C input vc);
  assert! negb (hv =? vc);
  '(_, v, f) ← front C (may_send C) false st input vc;
  if is_active (v_state v) then
    assert! valid_output C (v_out_port v);
    assert! valid_vc C (v_out_vc v);
    dest_buf ← vget (iq_next_buf st) (v_out_port v);
    full ← BufferStateOps.IsFullFor now dest_buf (v_out_vc v);
    room ← (if (full : bool) then Ok false else has_room st (v_out_port v));
    if negb room then r ← stall_full dest_buf; Ok ((time, (input, vc, r)), st)
    else '(_, st) ← SWAllocAddReq input vc (v_out_port v) st; Ok ((time, (input, vc, r)), st)
  else
    assert! q_speculative C && is_vc_alloc (v_state v);
    assert! f_head f;
    route_set ← route_set_of C v;
    '(st, r) ← foldl (λ m se, s ← m; spec_request input vc s se) (Ok (st, r)) route_set;
    Ok ((time, (input, vc, r)), st).

(** The outcome of an allocation for one VC: a grant is its own only if the
    request was its own. *)
Definition sw_assign st (item : Z * (Z * Z * Z)) (offsets : list Z) : res (Z * (Z * Z * Z) * list Z) :=
  let '(_, (input, vc, r)) := item in
  let time := now + q_sw_alloc_delay C - 1 in
  assert! valid_input C input;
  assert! valid_vc C vc;
  if r <? -1 then Ok ((time, (input, vc, r)), offsets)
  else
    assert! (r =? -1);
    _ ← front C (may_send C) false st input vc;
    let ei := expanded_input C input vc in
    let failed := Ok ((time, (input, vc, STALL_CROSSBAR_CONFLICT)), offsets) in
    let granted (eo granted_vc : Z) :=
      if granted_vc =? vc then
        offsets ← vset offsets ei ((vc + q_input_speedup C) `rem` q_vcs C);
        Ok ((time, (input, vc, eo)), offsets)
      else failed in
    eo ← AllocOps.OutputAssigned (i_base (ra_I IS) (iq_sw_allocator st)) ei;
    if 0 <=? eo then
      assert! (eo `rem` q_output_speedup C =? input `rem` q_output_speedup C);
      g ← ra_ReadLabel IS (iq_sw_allocator st) ei eo;
      granted eo g
    else
      match iq_spec_sw_allocator st with
      | None => failed
      | Some pa =>
          eo ← AllocOps.OutputAssigned (i_base (ra_I IP) pa) ei;
          if 0 <=? eo then
            assert! (eo `rem` q_output_speedup C =? input `rem` q_output_speedup C);
            masked ← (if q_spec_mask_by_reqs C then ra_OutputHasRequests IS (iq_sw_allocator st) eo
                      else i ← AllocOps.InputAssigned (i_base (ra_I IS) (iq_sw_allocator st)) eo; Ok (0 <=? i));
            if (masked : bool) then failed
            else g ← ra_ReadLabel IP pa ei eo; granted eo g
          else failed
      end.

(** Is there a VC for a piggybacked allocation?  Whether all are busy, whether
    all free ones are full, and whether one of those is full by reservation. *)
Definition piggyback_check st (input vc output : Z) (dest_buf : BufferState) (v : VC) : res (bool * bool * bool) :=
  route_set ← route_set_of C v;
  foldl (λ m se, s ← m;
    if negb s.1.2 || negb (output_port se =? output) then Ok s
    else
      '(vs, ve) ← vc_range C st input vc se;
      c ← zforb vs (ve + 1) (λ out_vc s,
        let '(busy, full, reserved) := s in
        assert! valid_vc C out_vc;
        available ← IsAvailableFor (core dest_buf) out_vc;
        if negb available then Ok (Next s)
        else
          f ← BufferStateOps.IsFullFor now dest_buf out_vc;
          if negb f then Ok (Break (false, false, reserved))
          else all ← IsFull (core dest_buf); Ok (Next (false, full, reserved || negb all))) s;
      Ok (ctl_val c)) (Ok (true, true, false)) route_set.

(** A grant is checked again when the allocation is speculative or takes several
    cycles. *)
Definition sw_recheck st (x : Z * Z * Z) : res (Z * Z * Z) :=
  let '(input, vc, eo) := x in
  assert! negb (eo =? -1);
  if 0 <=? eo then
    let output := eo `quot` q_output_speedup C in
    assert! valid_output C output;
    dest_buf ← vget (iq_next_buf st) output;
    assert! valid_input C input;
    assert! (input `rem` q_output_speedup C =? eo `rem` q_output_speedup C);
    assert! valid_vc C vc;
    let ei := expanded_input C input vc in
    hv ← vget (h_vc (iq_switch_hold st)) ei;
    assert! negb (hv =? vc);
    '(_, v, f) ← front C (may_send C) false st input vc;
    hi ← vget (h_in (iq_switch_hold st)) ei;
    ho ← vget (h_out (iq_switch_hold st)) eo;
    if (0 <=? hi) || (0 <=? ho) then Ok (input, vc, STALL_CROSSBAR_CONFLICT)
    else if q_speculative C && is_vc_alloc (v_state v) then
      assert! f_head f;
      match iq_vc_allocator st with
      | Some va =>
          output_and_vc ← AllocOps.OutputAssigned (i_base (ra_I IV) va) (input_and_vc C input vc);
          if output_and_vc <? 0 then Ok (input, vc, -1)
          else if negb (output_and_vc `quot` q_vcs C =? output) then Ok (input, vc, STALL_BUFFER_CONFLICT)
          else
            full ← BufferStateOps.IsFullFor now dest_buf (output_and_vc `rem` q_vcs C);
            if (full : bool) then r ← stall_full dest_buf; Ok (input, vc, r) else Ok x
      | None =>
          '(busy, full, reserved) ← piggyback_check st input vc output dest_buf v;
          if (busy : bool) then Ok (input, vc, STALL_BUFFER_BUSY)
          else if (full : bool) then Ok (input, vc, if (reserved : bool) then STALL_BUFFER_RESERVED else STALL_BUFFER_FULL)
          else Ok x
      end
    else
      assert! (v_out_port v =? output);
      assert! valid_vc C (v_out_vc v);
      full ← BufferStateOps.IsFullFor now dest_buf (v_out_vc v);
      if (full : bool) then r ← stall_full dest_buf; Ok (input, vc, r) else Ok x
  else Ok x.

Definition SWAllocEvaluate st : res IQ :=
  '(items, st) ← each_new sw_request (iq_sw_alloc_vcs st) st;
  '(sa, g) ← ra_Allocate IS (iq_sw_allocator st) (iq_rng st);
  let st := set_rng g (set_sw_allocator sa st) in
  st ← (match iq_spec_sw_allocator st with
        | None => Ok st
        | Some pa => '(pa, g) ← ra_Allocate IP pa (iq_rng st); Ok (set_rng g (set_spec_sw_allocator (Some pa) st))
        end);
  '(items, offsets) ← each_new (sw_assign st) items (iq_sw_rr_offset st);
  let st := set_sw_rr_offset offsets st in
  items ← (if negb (q_speculative C) && (q_sw_alloc_delay C <=? 1) then Ok items
           else each_done to_int now (sw_recheck st) items);
  Ok (set_sw_alloc_vcs items st).

(** The best free output VC with credit, by priority and round robin. *)
Definition piggyback_vc st (input vc output offset : Z) (dest_buf : BufferState) (v : VC) : res Z :=
  route_set ← route_set_of C v;
  '(match_vc, _) ← foldl (λ m se, s ← m;
    if negb (output_port se =? output) then Ok s
    else
      '(vs, ve) ← vc_range C st input vc se;
      zfor vs (ve + 1) (λ out_vc '(match_vc, match_prio),
        assert! valid_vc C out_vc;
        vc_prio ← vc_priority C dest_buf out_vc (se_pri se);
        available ← IsAvailableFor (core dest_buf) out_vc;
        full ← (if (available : bool) then BufferStateOps.IsFullFor now dest_buf out_vc else Ok true);
        if negb full && ((match_vc <? 0) || RoundRobinOps.Supersedes out_vc vc_prio match_vc match_prio offset (q_vcs C))
        then Ok (out_vc, vc_prio) else Ok (match_vc, match_prio)) s) (Ok (-1, int_min)) route_set;
  assert! (0 <=? match_vc);
  Ok match_vc.

Definition take_piggyback (input vc output : Z) (v : VC) (f : Flit) st : res (Z * IQ) :=
  assert! f_head f;
  assert! (0 <=? f_cl f) && (f_cl f <? q_classes C);
  offset ← vget (iq_vc_rr_offset st) (output * q_classes C + f_cl f);
  dest_buf ← vget (iq_next_buf st) output;
  match_vc ← piggyback_vc st input vc output offset dest_buf v;
  b ← vget (iq_buf st) input;
  b ← BufferOps.SetState b vc active;
  b ← BufferOps.SetOutput b vc output match_vc;
  st ← put_buf input b st;
  dest_buf ← BufferStateOps.TakeBuffer dest_buf match_vc (input * q_vcs C + vc);
  st ← put_next_buf output dest_buf st;
  offsets ← vset (iq_vc_rr_offset st) (output * q_classes C + f_cl f) ((match_vc + 1) `rem` q_vcs C);
  Ok (match_vc, set_vc_rr_offset offsets st).

(** The VC after a flit [f] has left over a new connection. *)
Definition sw_next (input vc ei eo : Z) (f : Flit) st : res IQ :=
  nf ← next_front input vc st;
  match nf with
  | None => if f_tail f then set_state input vc idle st else Ok st
  | Some nf =>
      if f_tail f then
        assert! f_head nf;
        start_packet input vc nf st
      else if q_hold_switch_for_packet C then
        st ← put_hold ei eo eo ei vc st;
        Ok (push_sw_hold input vc st)
      else Ok (push_sw_alloc input vc st)
  end.

Definition sw_done (x : Z * Z * Z) st : res IQ :=
  let '(input, vc, eo) := x in
  '(_, v, f) ← front C (may_send C) false st input vc;
  if 0 <=? eo then
    let ei := expanded_input C input vc in
    hv ← vget (h_vc (iq_switch_hold st)) ei;
    assert! (hv <? 0);
    hi ← vget (h_in (iq_switch_hold st)) ei;
    assert! (hi <? 0);
    ho ← vget (h_out (iq_switch_hold st)) eo;
    assert! (ho <? 0);
    let output := eo `quot` q_output_speedup C in
    assert! valid_output C output;
    '(match_vc, st) ← (match iq_vc_allocator st with
      | None =>
          if is_vc_alloc (v_state v) then take_piggyback input vc output v f st
          else assert! (v_out_port v =? output); Ok (v_out_vc v, st)
      | Some _ => assert! (v_out_port v =? output); Ok (v_out_vc v, st)
      end);
    assert! valid_vc C match_vc;
    '(f, st) ← send_flit input vc output match_vc ei eo st;
    sw_next input vc ei eo f st
  else Ok (push_sw_alloc input vc st).

Definition SWAllocUpdate st : res IQ :=
  drain true (length (iq_sw_alloc_vcs st)) now iq_sw_alloc_vcs (λ st, set_sw_alloc_vcs (tail (iq_sw_alloc_vcs st)) st)
    sw_done st.

(** ** Crossbar *)

Definition SwitchEvaluate st : res IQ :=
  '(items, _) ← each_new (λ item (_ : unit), Ok ((now + q_crossbar_delay C - 1, item.2), tt)) (iq_crossbar_flits st) tt;
  Ok (set_crossbar_flits items st).

Definition switch_done (x : Flit * (Z * Z)) st : res IQ :=
  let '(f, (ei, eo)) := x in
  assert! valid_input C (ei `quot` q_input_speedup C);
  let output := eo `quot` q_output_speedup C in
  assert! valid_output C output;
  q ← vget (iq_output_buffer st) output;
  let q := q ++ [f] in
  qs ← vset (iq_output_buffer st) output q;
  assert! (zlen q <=? (q_output_buffer_size C mod 2 ^ 64 + q_crossbar_delay C * q_output_speedup C
                       + (q_output_speedup C - 1)) mod 2 ^ 64)
          || (q_output_buffer_size C =? -1);
  Ok (set_output_buffer qs st).

Definition SwitchUpdate st : res IQ :=
  drain true (length (iq_crossbar_flits st)) now iq_crossbar_flits
    (λ st, set_crossbar_flits (tail (iq_crossbar_flits st)) st) switch_done st.

(** ** Output queues *)

Definition queue_credit (m : res IQ) (x : Z * Credit) : res IQ :=
  st ← m;
  assert! valid_input C x.1;
  assert! negb (bool_decide (c_vc x.2 = []));
  q ← vget (iq_credit_buffer st) x.1;
  qs ← vset (iq_credit_buffer st) x.1 (q ++ [x.2]);
  Ok (set_credit_buffer qs st).

Definition OutputQueuing st : res IQ :=
  st ← foldl queue_credit (Ok st) (iq_out_queue_credits st);
  Ok (set_out_queue_credits [] st).

(** What is sent is the result, one item per channel. *)
Definition pop_each {X : Type} (n : Z) (queues : list (list X)) : res (list (option X) * list (list X)) :=
  zfor 0 n (λ i '(sent, queues),
    q ← vget queues i;
    match q with
    | [] => Ok (sent ++ [None], queues)
    | x :: q => queues ← vset queues i q; Ok (sent ++ [Some x], queues)
    end) ([], queues).

Definition SendFlits st : res (list (option Flit) * IQ) :=
  '(sent, qs) ← pop_each (q_outputs C) (iq_output_buffer st); Ok (sent, set_output_buffer qs st).
Definition SendCredits st : res (list (option Credit) * IQ) :=
  '(sent, qs) ← pop_each (q_inputs C) (iq_credit_buffer st); Ok (sent, set_credit_buffer qs st).

Definition WriteOutputs st : res (list (option Flit) * list (option Credit) * IQ) :=
  '(flits, st) ← SendFlits st;
  '(credits, st) ← SendCredits st;
  Ok (flits, credits, st).

(** ** A cycle *)

Definition nonempty {X : Type} (l : list X) : bool := match l with [] => false | _ => true end.
Definition when (b : bool) (f : IQ → res IQ) st : res IQ := if b then f st else Ok st.

Definition evaluate_stages st : res IQ :=
  st ← when (nonempty (iq_route_vcs st)) (RouteEvaluate C now) st;
  st ← (match iq_vc_allocator st with
        | None => Ok st
        | Some va =>
            let st := set_vc_allocator (Some (i_Clear (ra_I IV) va)) st in
            when (nonempty (iq_vc_alloc_vcs st)) (VCAllocEvaluate C IV now) st
        end);
  st ← when (q_hold_switch_for_packet C && nonempty (iq_sw_hold_vcs st)) SWHoldEvaluate st;
  let st := set_sw_allocator (i_Clear (ra_I IS) (iq_sw_allocator st)) st in
  let st := set_spec_sw_allocator (i_Clear (ra_I IP) <$> iq_spec_sw_allocator st) st in
  st ← when (nonempty (iq_sw_alloc_vcs st)) SWAllocEvaluate st;
  when (nonempty (iq_crossbar_flits st)) SwitchEvaluate st.

(** [activity] is what is left to do. *)
Definition update (queue : IQ → bool) (f : IQ → res IQ) (s : bool * IQ) : res (bool * IQ) :=
  if queue s.2 then st ← f s.2; Ok (s.1 || queue st, st) else Ok s.

Definition update_stages (s : bool * IQ) : res (bool * IQ) :=
  s ← update (λ st, nonempty (iq_route_vcs st)) (RouteUpdate C rf faults now) s;
  s ← update (λ st, nonempty (iq_vc_alloc_vcs st)) (VCAllocUpdate C now) s;
  s ← update (λ st, q_hold_switch_for_packet C && nonempty (iq_sw_hold_vcs st)) SWHoldUpdate s;
  s ← update (λ st, nonempty (iq_sw_alloc_vcs st)) SWAllocUpdate s;
  update (λ st, nonempty (iq_crossbar_flits st)) SwitchUpdate s.

Definition InternalStep st : res IQ :=
  if negb (iq_active st) then Ok st
  else
    st ← InputQueuing C rf sinks now st;
    let activity := nonempty (iq_proc_credits st) in
    st ← evaluate_stages st;
    '(activity, st) ← update_stages (activity, st);
    OutputQueuing (set_active activity st).

(** [Router::Evaluate]: as many steps as whole internal cycles have accumulated. *)
Fixpoint internal_steps (k : nat) st : res IQ :=
  match k with
  | O => Ok st
  | S k =>
      st ← InternalStep st;
      internal_steps k (set_partial_internal_cycles (iq_partial_internal_cycles st - 1024) st)
  end.

Definition Evaluate st : res IQ :=
  let partial := iq_partial_internal_cycles st + q_internal_speedup C in
  internal_steps (Z.to_nat (partial / 1024)) (set_partial_internal_cycles partial st).

Definition cycle (flits : list (option Flit)) (credits : list (option Credit)) st
    : res (list (option Flit) * list (option Credit) * IQ) :=
  st ← ReadInputs C now flits credits st;
  st ← Evaluate st;
  WriteOutputs st.

(** ** Queries *)

Definition GetUsedCredit st (o : Z) : res Z :=
  assert! valid_output C o;
  dest_buf ← vget (iq_next_buf st) o;
  Ok (occupancy (core dest_buf)).
Definition GetBufferOccupancy st (i : Z) : res Z :=
  assert! valid_input C i;
  b ← vget (iq_buf st) i;
  Ok (BufferOps.GetOccupancy b).

(** One value per output and VC. *)
Definition per_output_vc st (get : BufferState → Z → res Z) : res (list Z) :=
  zfor 0 (q_outputs C) (λ o, zfor 0 (q_vcs C) (λ v result,
    dest_buf ← vget (iq_next_buf st) o;
    x ← get dest_buf v;
    vset result (o * q_vcs C + v) x)) (replicate (Z.to_nat (q_outputs C * q_vcs C)) 0).
Definition UsedCredits st : res (list Z) := per_output_vc st (λ bs, OccupancyFor (core bs)).
Definition FreeCredits st : res (list Z) := per_output_vc st (BufferStateOps.AvailableFor now).
Definition MaxCredits st : res (list Z) := per_output_vc st (BufferStateOps.LimitFor now).
End router.

(** ** Construction *)

(** The constructor, after the options and the routing function are looked up;
    [va], [sa] and [pa] are the new allocators. *)
Definition New (C : IQConfig) (cfg : Config) (pri_type : ePrioType) (donation : bool) {VA SA PA : Type}
    (va : option VA) (sa : SA) (pa : option PA) (g : Rng) : res (IQRouter VA SA PA) :=
  if q_vc_alloc_delay C =? 0 then Fail ErrorExit
  else if q_sw_alloc_delay C =? 0 then Fail ErrorExit
  else if (match va with None => negb (q_speculative C) | Some _ => false end) then Fail ErrorExit
  else if q_noq C && (negb (q_routing_delay C =? 0) || (q_vcs C <? q_outputs C)) then Fail ErrorExit
  else
    let per (k : Z) {X : Type} (x : X) := replicate (Z.to_nat k) x in
    bs ← BufferStateOps.New cfg;
    let ei := q_inputs C * q_input_speedup C in
    let eo := q_outputs C * q_output_speedup C in
    let none := per (q_inputs C) (per (q_vcs C) (-1)) in
    Ok {| iq_buf := per (q_inputs C) (BufferOps.New (q_vcs C) (cfg_buf_size cfg) (cfg_vc_buf_size cfg)
                                        (q_routing_delay C) pri_type donation);
          iq_next_buf := per (q_outputs C) bs;
          iq_vc_allocator := va; iq_sw_allocator := sa; iq_spec_sw_allocator := if q_speculative C then pa else None;
          iq_in_queue_flits := []; iq_proc_credits := []; iq_route_vcs := []; iq_vc_alloc_vcs := [];
          iq_sw_hold_vcs := []; iq_sw_alloc_vcs := []; iq_crossbar_flits := []; iq_out_queue_credits := [];
          iq_output_buffer := per (q_outputs C) []; iq_credit_buffer := per (q_inputs C) [];
          iq_switch_hold := mkHold (per ei (-1)) (per eo (-1)) (per ei (-1));
          iq_vc_rr_offset := match va with None => per (q_outputs C * q_classes C) (-1) | Some _ => [] end;
          iq_sw_rr_offset := (λ i, i `rem` q_input_speedup C) <$> seqZ 0 ei;
          iq_noq_next := mkNoq none none none;
          iq_active := false; iq_partial_internal_cycles := 0; iq_rng := g |}.

(** [AddOutputChannel]: the round trip the feedback policies need. *)
Definition AddOutputChannel (C : IQConfig) {VA SA PA : Type} (output latency cred_latency : Z) (st : IQRouter VA SA PA)
    : res (IQRouter VA SA PA) :=
  let alloc_delay := if q_speculative C then Z.max (q_vc_alloc_delay C) (q_sw_alloc_delay C)
                     else q_vc_alloc_delay C + q_sw_alloc_delay C in
  let min_latency := 1 + q_crossbar_delay C + latency + q_routing_delay C + alloc_delay + cred_latency + q_credit_delay C in
  bs ← vget (iq_next_buf st) output;
  put_next_buf output (BufferStateOps.SetMinLatency bs min_latency) st.
End IQSwitchOps.
