(* ===== verification/Wormhole.v ===== *)
(** * Wormhole switching: what a router promises

    The specification the input-queued router is verified against.  A router
    moves flits from the VCs of its inputs to the VCs of its outputs; a run is
    summarised by the sequence of its moves.  A sequence of moves is [wormhole]
    when a packet that has started to move keeps its output VC to itself until
    its tail has moved.  Then every output VC carries whole packets, one after
    the other. *)

From S2P Require Import Prelude OutputSet Flit.

(** ** Packets in a stream of flits *)

(** The packet a stream is in the middle of, if any, after the flit [f]. *)
Definition next_flit (e : option Z) (f : Flit) : option (option Z) :=
  let e' p := if f_tail f then None else Some p in
  match e with
  | None => if f_head f then Some (e' (f_pid f)) else None
  | Some p => if negb (f_head f) && (f_pid f =? p) then Some (e' p) else None
  end.

(** A sequence of whole packets, but for the first and the last. *)
Fixpoint stream (e : option Z) (l : list Flit) : option (option Z) :=
  match l with [] => Some e | f :: l => e ← next_flit e f; stream e l end.

Lemma stream_app e l1 l2 : stream e (l1 ++ l2) = e' ← stream e l1; stream e' l2.
Proof.
  revert e. induction l1 as [|f l1 IH]; intros e; simpl; [done|]. destruct (next_flit e f) as [e'|]; simpl; [apply IH|done].
Qed.

Lemma stream_snoc e l f e' : stream e l = Some e' → stream e (l ++ [f]) = next_flit e' f.
Proof. intros E. rewrite stream_app, E. simpl. by destruct (next_flit e' f). Qed.

(** The fields of a flit that do not change on its way. *)
Definition strip (f : Flit) : Flit := {|
  f_type := f_type f; f_vc := 0; f_cl := f_cl f; f_head := f_head f; f_tail := f_tail f;
  f_ctime := f_ctime f; f_itime := f_itime f; f_atime := f_atime f; f_id := f_id f; f_pid := f_pid f;
  f_record := f_record f; f_src := f_src f; f_dest := f_dest f; f_pri := 0; f_hops := 0;
  f_watch := f_watch f; f_subnetwork := f_subnetwork f; f_packet_size := f_packet_size f;
  f_intm := 0; f_ph := 0; f_la_route_set := [] |}.

Lemma strip_packet f g : strip f = strip g → f_head f = f_head g ∧ f_tail f = f_tail g ∧ f_pid f = f_pid g.
Proof. intros [=]. done. Qed.

Lemma stream_strip e l l' : strip <$> l = strip <$> l' → stream e l = stream e l'.
Proof.
  revert e l'. induction l as [|f l IH]; intros e [|g l'] E; try done. rewrite !fmap_cons in E. apply cons_eq_inj in E as [Ef E].
  destruct (strip_packet f g Ef) as (H1 & H2 & H3). simpl. unfold next_flit. rewrite H1, H2, H3.
  destruct e as [p|]; (case_match; [|done]); simpl; by apply IH.
Qed.

(** ** Moves *)

Record Move : Set := mkMove { mv_in : Z; mv_vc : Z; mv_out : Z; mv_flit : Flit }.

Definition is_from (i v : Z) (m : Move) : Prop := mv_in m = i ∧ mv_vc m = v.
Definition is_to (o w : Z) (m : Move) : Prop := mv_out m = o ∧ f_vc (mv_flit m) = w.
#[export] Instance is_from_dec i v m : Decision (is_from i v m).
Proof. apply _. Defined.
#[export] Instance is_to_dec o w m : Decision (is_to o w m).
Proof. apply _. Defined.

Definition from (i v : Z) (T : list Move) : list Flit := mv_flit <$> filter (is_from i v) T.
Definition to (o w : Z) (T : list Move) : list Flit := mv_flit <$> filter (is_to o w) T.
Definition to_port (o : Z) (T : list Move) : list Flit := mv_flit <$> filter (λ m, mv_out m = o) T.

(** The output VC and the packet that input VC [v] of [i] is in the middle of. *)
Definition mid (i v : Z) (T : list Move) : option (Z * Z * Z) :=
  m ← last (filter (is_from i v) T);
  let f := mv_flit m in
  if f_tail f then None else Some (mv_out m, f_vc f, f_pid f).

Inductive wormhole : list Move → Prop :=
  | wormhole_nil : wormhole []
  | wormhole_first T i v o f :
      wormhole T → mid i v T = None → f_head f = true →
      (∀ i' v' p, mid i' v' T ≠ Some (o, f_vc f, p)) →
      wormhole (T ++ [mkMove i v o f])
  | wormhole_next T i v o f :
      wormhole T → mid i v T = Some (o, f_vc f, f_pid f) → f_head f = false →
      wormhole (T ++ [mkMove i v o f]).

Lemma filter_snoc {A} (P : A → Prop) `{∀ x, Decision (P x)} l x :
  filter P (l ++ [x]) = if decide (P x) then filter P l ++ [x] else filter P l.
Proof. rewrite filter_app. simpl. rewrite filter_cons. case_decide; [done|by rewrite app_nil_r]. Qed.

Lemma from_snoc i v T m : from i v (T ++ [m]) = if decide (is_from i v m) then from i v T ++ [mv_flit m] else from i v T.
Proof. unfold from. rewrite filter_snoc. case_decide; [by rewrite fmap_app|done]. Qed.
Lemma to_snoc o w T m : to o w (T ++ [m]) = if decide (is_to o w m) then to o w T ++ [mv_flit m] else to o w T.
Proof. unfold to. rewrite filter_snoc. case_decide; [by rewrite fmap_app|done]. Qed.
Lemma to_port_snoc o T m :
  to_port o (T ++ [m]) = if decide (mv_out m = o) then to_port o T ++ [mv_flit m] else to_port o T.
Proof. unfold to_port. rewrite filter_snoc. case_decide; [by rewrite fmap_app|done]. Qed.

Lemma mid_snoc i v T m : mid i v (T ++ [m]) =
  if decide (is_from i v m) then
    if f_tail (mv_flit m) then None else Some (mv_out m, f_vc (mv_flit m), f_pid (mv_flit m))
  else mid i v T.
Proof. unfold mid. rewrite filter_snoc. case_decide; [by rewrite last_snoc|done]. Qed.

(** ** Output VCs carry whole packets *)

(** No two input VCs are in the middle of packets on one output VC. *)
Definition exclusive (T : list Move) : Prop :=
  ∀ i v i' v' o w p p', mid i v T = Some (o, w, p) → mid i' v' T = Some (o, w, p') → i = i' ∧ v = v'.

(** An output VC is in the middle of the packet of an input VC, or of none. *)
Definition streams (T : list Move) : Prop :=
  ∀ o w, ∃ e, stream None (to o w T) = Some e ∧ ∀ p, e = Some p ↔ ∃ i v, mid i v T = Some (o, w, p).

(** What both kinds of moves have in common. *)
Definition claims (T : list Move) (i v o : Z) (f : Flit) : Prop :=
  (∀ i' v' p, mid i' v' T = Some (o, f_vc f, p) → i' = i ∧ v' = v) ∧
  (if f_head f then mid i v T = None else mid i v T = Some (o, f_vc f, f_pid f)).

Lemma claims_exclusive T i v o f : exclusive T → claims T i v o f → exclusive (T ++ [mkMove i v o f]).
Proof.
  intros IH [Hf _] i1 v1 i2 v2 o' w p p'. rewrite !mid_snoc. simpl. unfold is_from. simpl.
  repeat case_decide; destruct_and?; subst; [done| | |by apply IH].
  - destruct (f_tail f); [done|]. intros [= <- <- <-] E. apply Hf in E as [-> ->]. done.
  - destruct (f_tail f); [done|]. intros E [= <- <- <-]. apply Hf in E as [-> ->]. done.
Qed.

Lemma claims_streams T i v o f : streams T → claims T i v o f → streams (T ++ [mkMove i v o f]).
Proof.
  intros IH [Hf Hm] o' w. rewrite to_snoc. simpl. destruct (IH o' w) as (e & E & He). case_decide as Eow.
  - destruct Eow as [<- <-]. simpl in *.
    assert (e = if f_head f then None else Some (f_pid f)) as ->.
    { destruct (f_head f); [|apply He; by exists i, v]. destruct e as [p|]; [|done].
      destruct (proj1 (He p) eq_refl) as (i' & v' & E'). destruct (Hf _ _ _ E') as [-> ->]. congruence. }
    rewrite (stream_snoc _ _ _ _ E). exists (if f_tail f then None else Some (f_pid f)). split.
    { unfold next_flit. destruct (f_head f); [done|]. by rewrite Z.eqb_refl. }
    intros p. split.
    + destruct (f_tail f) eqn:Ht; [done|]. intros [= <-]. exists i, v. rewrite mid_snoc, decide_True by done.
      simpl. by rewrite Ht.
    + intros (i' & v' & E'). rewrite mid_snoc in E'. case_decide as Ef; simpl in E'.
      * destruct (f_tail f); [done|]. by injection E' as ->.
      * destruct Ef. destruct (Hf _ _ _ E') as [-> ->]. by split.
  - exists e. split; [done|]. intros p. rewrite He. split; intros (i' & v' & E'); exists i', v'.
    + rewrite mid_snoc. case_decide as Ef; [|done]. destruct Ef; simpl in *. subst.
      destruct (f_head f); [congruence|]. rewrite Hm in E'. injection E' as <- <- <-. by destruct Eow.
    + rewrite mid_snoc in E'. case_decide as Ef; [|done]. simpl in E'.
      destruct (f_tail f); [done|]. injection E' as <- <- <-. by destruct Eow.
Qed.

Lemma wormhole_streams T : wormhole T → exclusive T ∧ streams T.
Proof.
  induction 1 as [|T i v o f HT [IH1 IH2] Hm Hh Hfree|T i v o f HT [IH1 IH2] Hm Hh].
  - split; [done|]. intros o w. exists None. split; [done|]. intros p. split; [done|]. by intros (i & v & ?).
  - assert (claims T i v o f) as HC.
    { split; [|by rewrite Hh]. intros i' v' p E. by apply Hfree in E. }
    split; [by apply claims_exclusive|by apply claims_streams].
  - assert (claims T i v o f) as HC.
    { split; [|by rewrite Hh]. intros i' v' p E. by destruct (IH1 _ _ _ _ _ _ _ _ E Hm). }
    split; [by apply claims_exclusive|by apply claims_streams].
Qed.

(** ** Input VCs *)

Definition open_pid (i v : Z) (T : list Move) : option Z := snd <$> mid i v T.

Lemma from_stream T i v : wormhole T → stream None (from i v T) = Some (open_pid i v T).
Proof.
  unfold open_pid.
  induction 1 as [|T i' v' o f HT IH Hm Hh Hfree|T i' v' o f HT IH Hm Hh]; [done|..]; rewrite from_snoc, mid_snoc;
    (case_decide as E; [|done]); destruct E as [E1 E2]; simpl in *; subst; rewrite (stream_snoc _ _ _ _ IH), Hm;
    simpl; rewrite Hh; simpl; rewrite ?Z.eqb_refl; simpl; by destruct (f_tail f).
Qed.

Lemma to_to_port o w T : to o w T = filter (λ f, f_vc f = w) (to_port o T).
Proof.
  induction T as [|m T IH] using rev_ind; [done|]. rewrite to_snoc, to_port_snoc, IH. unfold is_to.
  repeat case_decide; destruct_and?; rewrite ?filter_snoc; try done; [by rewrite decide_True|]. rewrite decide_False by tauto. done.
Qed.
