(* ===== verification/RouterInv.v ===== *)
(** * The input-queued router: invariant

    What the verification of [IQRouter] assumes of a router's surroundings
    ([Setup]: the options, the allocators through [RouterAllocLaws], the routing
    function), and the invariant of its state: which VC waits in which queue,
    which packets own which output VCs, which connections are held, and how
    flits and credits are accounted for.  [Ghost] is the history of a router the
    invariant speaks of. *)

From S2P Require Import Prelude StdMap OutputSet Flit VCBuffer BufferState BufferStateInv Credits Link Arbiter Allocator AllocLaws Rng Route SwitchAlloc IQRouter IQSwitch Wormhole.
Import CoreOps Credits Link IQRouterOps IQSwitchOps.

#[export] Instance Buffer_inhabited : Inhabited Buffer := populate (mkBuffer 0 0 []).
#[export] Instance BufferState_inhabited : Inhabited BufferState :=
  populate (mkBufferState (mkCore false 0 0 [] 0 [] [] [] []) (PrivateBufferPolicy 0)).

(** ** Assumptions *)

(** The pipeline of the default options: allocation in one cycle, with a VC
    allocator and without speculation.  Routing, crossbar and credit delays, input
    and internal speedup, request priorities, held connections and lookahead
    routing are free. *)
Record supported (C : IQConfig) : Prop := {
  sp_inputs : 0 < q_inputs C;
  sp_outputs : 0 < q_outputs C;
  sp_vcs : 0 < q_vcs C;
  sp_input_speedup : 0 < q_input_speedup C;
  sp_output_speedup : q_output_speedup C = 1;
  sp_internal_speedup : 1024 ≤ q_internal_speedup C;
  sp_crossbar : 1 ≤ q_crossbar_delay C;
  sp_credit : 0 ≤ q_credit_delay C;
  sp_routing : 0 ≤ q_routing_delay C;
  sp_vc_alloc : q_vc_alloc_delay C = 1;
  sp_sw_alloc : q_sw_alloc_delay C = 1;
  sp_output_buffer : q_output_buffer_size C = -1;
  sp_speculative : q_speculative C = false;
  sp_noq : q_noq C = false;
  sp_tags : q_inputs C * q_vcs C ≤ int_max
}.

Definition flit_ok (f : Flit) : Prop := 0 ≤ f_pid f ≤ int_max ∧ 0 ≤ f_hops f.

(** A flit as it leaves on output VC [w], and as a routing function leaves it. *)
Definition leaving (w : Z) (f : Flit) : Flit := FlitOps.set_vc w (FlitOps.set_hops (f_hops f + 1) f).
Definition rerouted (f f' : Flit) : Prop := strip f' = strip f ∧ f_vc f' = f_vc f ∧ f_hops f' = f_hops f.

Definition offers (rs : OutputSet) (o w : Z) : Prop :=
  Exists (λ se, output_port se = o ∧ vc_start se ≤ w ≤ vc_end se) rs.

(** No output VC is offered twice. *)
Fixpoint no_overlap (rs : OutputSet) : Prop :=
  match rs with
  | [] => True
  | se :: rs => (∀ w, vc_start se ≤ w ≤ vc_end se → ¬ offers rs (output_port se) w) ∧ no_overlap rs
  end.

Definition element_ok (C : IQConfig) (se : sSetElement) : Prop :=
  0 ≤ output_port se < q_outputs C ∧ 0 ≤ vc_start se ≤ vc_end se ∧ vc_end se < q_vcs C ∧ 0 ≤ se_pri se.

Definition routes_ok (C : IQConfig) (rs : OutputSet) : Prop := Forall (element_ok C) rs ∧ no_overlap rs.

(** [accepts] holds of the head flits that may arrive, [leaves o] of those that may
    be put on output [o], and [passes o] of those that may be sent there, which
    with lookahead routing carry their route at the next router. *)
Record Setup (VA SA PA : Type) : Type := {
  su_C : IQConfig;
  su_IV : RouterAllocator VA;
  su_IS : RouterAllocator SA;
  su_IP : RouterAllocator PA;
  su_rf : Router → Flit → Z → OutputSet → bool → Rng → res (OutputSet * Flit * Rng);
  su_faults : list bool;
  su_bsize : Z;
  su_nsize : Z;
  accepts : Flit → Prop;
  leaves : Z → Flit → Prop;
  passes : Z → Flit → Prop;
  su_ok : supported su_C;
  su_LV : RouterAllocLaws su_IV (q_vcs su_C * q_inputs su_C) (q_vcs su_C * q_outputs su_C);
  su_LS : RouterAllocLaws su_IS (q_inputs su_C * q_input_speedup su_C) (q_outputs su_C * q_output_speedup su_C);
  su_accepts : ∀ f p, accepts f → accepts (FlitOps.set_pri p f);
  su_route : q_routing_delay su_C ≠ 0 → ∀ occ f i rs g,
    zlen occ = q_outputs su_C → 0 ≤ i < q_inputs su_C → accepts f → f_head f = true → RngInv.rng_ok g →
    returns (su_rf (mkRouter (q_id su_C) occ su_faults) f i rs false g) (λ '(rs', f', g'),
      RngInv.rng_ok g' ∧ rerouted f f' ∧ routes_ok su_C rs' ∧ ∀ o w, offers rs' o w → leaves o (leaving w f'));
  su_carried : q_routing_delay su_C = 0 → ∀ f, accepts f → f_head f = true →
    routes_ok su_C (f_la_route_set f) ∧ ∀ o w, offers (f_la_route_set f) o w → leaves o (leaving w f);
  su_passes : q_routing_delay su_C ≠ 0 → ∀ o f, leaves o f → passes o f
}.
Arguments su_C {VA SA PA} _.
Arguments su_IV {VA SA PA} _.
Arguments su_IS {VA SA PA} _.
Arguments su_IP {VA SA PA} _.
Arguments su_rf {VA SA PA} _.
Arguments su_faults {VA SA PA} _.
Arguments su_bsize {VA SA PA} _.
Arguments su_nsize {VA SA PA} _.
Arguments accepts {VA SA PA} _ _.
Arguments leaves {VA SA PA} _ _ _.
Arguments passes {VA SA PA} _ _ _.
Arguments su_ok {VA SA PA} _.
Arguments su_LV {VA SA PA} _.
Arguments su_LS {VA SA PA} _.

(** ** The history of a router *)

(** The moves of flits over the crossbar, what has been queued at each input and
    sent on each output, and the credits received at each output and sent at each
    input. *)
Record Ghost : Type := mkGhost {
  g_moves : list Move;
  g_received : Z → list Flit;
  g_credited : Z → list Credit;
  g_sent : Z → list Flit;
  g_credits : Z → list Credit
}.

Definition fadd {X} (g : Z → list X) (i : Z) (x : X) (j : Z) : list X := if decide (j = i) then g j ++ [x] else g j.

Definition on_vc (v : Z) (fs : list Flit) : list Flit := filter (λ f, f_vc f = v) fs.

(** The queue a VC waits in. *)
Inductive place : Set := Nowhere | InRoute | InVC | InHold | InSW.
#[export] Instance place_eq_dec : EqDecision place.
Proof. solve_decision. Defined.

Definition vcat (bufs : list Buffer) (i v : Z) : VC := (b_vc (bufs⟦i⟧))⟦v⟧.

Section inv.
Context {VA SA PA : Type} (E : Setup VA SA PA).
Local Abbreviation C := (su_C E).
Local Abbreviation IQ := (IQRouter VA SA PA).
Implicit Types (st : IQ) (G : Ghost).

Definition vin (i v : Z) : Prop := 0 ≤ i < q_inputs C ∧ 0 ≤ v < q_vcs C.
Definition vout (o w : Z) : Prop := 0 ≤ o < q_outputs C ∧ 0 ≤ w < q_vcs C.

(** What the router knows of the routers behind it. *)
Definition sinks_ok (sinks : list (option Sink)) : Prop :=
  zlen sinks = q_outputs C ∧
  (q_routing_delay C = 0 → ∀ o f, 0 ≤ o < q_outputs C → leaves E o f →
    match sinks⟦o⟧ with
    | None => passes E o (FlitOps.set_la_route_set [] f)
    | Some s => ∀ g, RngInv.rng_ok g →
        returns (su_rf E (sk_router s) f (sk_port s) (f_la_route_set f) false g) (λ '(rs, f', g'),
          RngInv.rng_ok g' ∧ rerouted f f' ∧ passes E o (FlitOps.set_la_route_set rs f'))
    end).

(** ** Virtual channels *)

Definition acceptable (f : Flit) : Prop := f_head f = true → accepts E f.

(** The state of a VC [V] after the moves [T]. *)
Definition vc_state_ok (T : list Move) (i v : Z) (V : VC) : Prop :=
  match v_state V with
  | idle => v_buffer V = [] ∧ mid i v T = None
  | routing => q_routing_delay C ≠ 0 ∧ v_buffer V ≠ [] ∧ mid i v T = None
  | vc_alloc => mid i v T = None ∧ ∃ f q rs, v_buffer V = f :: q ∧ v_route_set V = Some rs ∧ routes_ok C rs ∧
                  ∀ o w, offers rs o w → leaves E o (leaving w f)
  | active => let o := v_out_port V in let w := v_out_vc V in vout o w ∧
      match mid i v T with
      | None => ∃ f q, v_buffer V = f :: q ∧ leaves E o (leaving w f)
      | Some (o', w', _) => o' = o ∧ w' = w
      end
  end.

(** The flits that have not been routed yet. *)
Definition unrouted (V : VC) : list Flit :=
  match v_state V with idle | routing => v_buffer V | vc_alloc | active => tail (v_buffer V) end.

(** The packets of a VC, moved or buffered, follow each other; the last one may be
    open. *)
Definition streaming (T : list Move) (i v : Z) (V : VC) : Prop :=
  ∃ e, stream (open_pid i v T) (v_buffer V) = Some e ∧ v_expected_pid V = default (-1) e ∧ ∀ p, e = Some p → 0 ≤ p ≤ int_max.

Record vc_ok (T : list Move) (i v : Z) (V : VC) : Prop := {
  vk_flits : Forall (λ f, f_vc f = v ∧ flit_ok f) (v_buffer V);
  vk_accepts : Forall acceptable (unrouted V);
  vk_route : q_routing_delay C ≠ 0 → is_Some (v_route_set V);
  vk_stream : streaming T i v V;
  vk_state : vc_state_ok T i v V
}.

Record shape (bufs : list Buffer) : Prop := {
  sh_len : zlen bufs = q_inputs C;
  sh_vcs : ∀ i, 0 ≤ i < q_inputs C → zlen (b_vc (bufs⟦i⟧)) = q_vcs C;
  sh_inv : ∀ i, 0 ≤ i < q_inputs C → BufferOps.inv (bufs⟦i⟧);
  sh_size : ∀ i, 0 ≤ i < q_inputs C → b_size (bufs⟦i⟧) = su_bsize E
}.

(** [bufs'] is [bufs] with [V'] at [i], [v]. *)
Record changed (bufs bufs' : list Buffer) (i v : Z) (V' : VC) : Prop := {
  ch_shape : shape bufs → shape bufs';
  ch_at : ∀ j u, vin j u → vcat bufs' j u = if decide (j = i ∧ u = v) then V' else vcat bufs j u
}.

(** ** Held connections *)

Definition held (h : Hold) (i v : Z) : bool := (h_vc h)⟦expanded_input C i v⟧ =? v.

Record hold_ok (h : Hold) : Prop := {
  ho_vc_len : zlen (h_vc h) = q_inputs C * q_input_speedup C;
  ho_in_len : zlen (h_in h) = q_inputs C * q_input_speedup C;
  ho_out_len : zlen (h_out h) = q_outputs C;
  ho_in : ∀ e, 0 ≤ e < q_inputs C * q_input_speedup C →
    ((h_vc h)⟦e⟧ = -1 ∧ (h_in h)⟦e⟧ = -1) ∨
    (0 ≤ (h_vc h)⟦e⟧ < q_vcs C ∧ 0 ≤ (h_in h)⟦e⟧ < q_outputs C ∧ (h_out h)⟦(h_in h)⟦e⟧⟧ = e);
  ho_out : ∀ o, 0 ≤ o < q_outputs C → (h_out h)⟦o⟧ = -1 ∨
    (0 ≤ (h_out h)⟦o⟧ < q_inputs C * q_input_speedup C ∧ (h_in h)⟦(h_out h)⟦o⟧⟧ = o);
  ho_used : q_hold_switch_for_packet C = false → ∀ e, 0 ≤ e < q_inputs C * q_input_speedup C → (h_vc h)⟦e⟧ = -1
}.

(** All that is said of one VC: a packet that has been given an output VC owns
    it, and a VC that holds a connection has a flit to send over it. *)
Record vc_inv (T : list Move) (received : Z → list Flit) (nbs : list BufferState) (h : Hold) (i v : Z) (V : VC) : Prop := {
  vi_ok : vc_ok T i v V;
  vi_received : strip <$> (from i v T ++ v_buffer V) = strip <$> on_vc v (received i);
  vi_owner : v_state V = active → let c := core (nbs⟦v_out_port V⟧) in
    is_open c (v_out_vc V) = true ∧ (in_use_by c)⟦v_out_vc V⟧ = i * q_vcs C + v;
  vi_held : held h i v = true → v_state V = active ∧ v_buffer V ≠ [] ∧ (h_in h)⟦expanded_input C i v⟧ = v_out_port V
}.

(** ** Queues *)

Definition place_of (V : VC) (held : bool) : place :=
  match v_state V with
  | idle => Nowhere
  | routing => InRoute
  | vc_alloc => InVC
  | active => if VCOps.Empty V then Nowhere else if held then InHold else InSW
  end.
Definition place_at (bufs : list Buffer) (h : Hold) (i v : Z) : place := place_of (vcat bufs i v) (held h i v).

(** The VCs of a queue are those whose place it is, once each. *)
Definition members (p : Z → Z → place) (X : place) (l : list (Z * Z)) : Prop :=
  NoDup l ∧ ∀ i v, (i, v) ∈ l ↔ vin i v ∧ p i v = X.

Definition key {A B : Type} (x : Z * (A * B)) : A := x.2.1.

Record queues (p : Z → Z → place) (R : list (Z * (Z * Z))) (V H A : list (Z * (Z * Z * Z))) : Prop := {
  qu_route : members p InRoute (snd <$> R);
  qu_vc : members p InVC (key <$> V);
  qu_hold : members p InHold (key <$> H);
  qu_sw : members p InSW (key <$> A)
}.

(** ** Outputs and credits *)

Definition pending (o : Z) (l : list (Z * (Credit * Z))) : list Credit := (λ x, x.2.1) <$> filter (λ x, x.2.2 = o) l.
Definition in_crossbar (o : Z) (l : list (Z * (Flit * (Z * Z)))) : list Flit := (λ x, x.2.1) <$> filter (λ x, x.2.2.2 = o) l.

Definition credit_ok (c : Credit) : Prop := Forall (λ v, 0 ≤ v < q_vcs C) (c_vc c).

(** The credit accounting of the next buffers. *)
Record nexts (T : list Move) (credited : Z → list Credit) (P : list (Z * (Credit * Z))) (nbs : list BufferState) : Prop := {
  ne_len : zlen nbs = q_outputs C;
  ne_inv : ∀ o, 0 ≤ o < q_outputs C → let c := core (nbs⟦o⟧) in inv (nbs⟦o⟧) ∧ vcs c = q_vcs C ∧ size c = su_nsize E;
  ne_occ : ∀ o w, vout o w →
    occ (core (nbs⟦o⟧)) w + ncredits w (credited o) = nflits w (to_port o T) + ncredits w (pending o P);
  ne_pending : Forall (λ x, 0 ≤ x.2.2 < q_outputs C ∧ credit_ok x.2.1) P
}.

Definition move_ok (m : Move) : Prop :=
  vin (mv_in m) (mv_vc m) ∧ vout (mv_out m) (f_vc (mv_flit m)) ∧ flit_ok (mv_flit m) ∧
  (f_head (mv_flit m) = true → passes E (mv_out m) (mv_flit m)).

(** What has moved to an output is sent, or waits in its order. *)
Record outs (T : list Move) (sent : Z → list Flit) (X : list (Z * (Flit * (Z * Z)))) (obs : list (list Flit)) : Prop := {
  ou_worm : wormhole T;
  ou_moves : Forall move_ok T;
  ou_len : zlen obs = q_outputs C;
  ou_port : ∀ o, 0 ≤ o < q_outputs C → to_port o T = sent o ++ obs⟦o⟧ ++ in_crossbar o X;
  ou_crossbar : Forall (λ x, 0 ≤ x.2.2.1 < q_inputs C * q_input_speedup C ∧ 0 ≤ x.2.2.2 < q_outputs C) X
}.

Definition queued (i : Z) (Q : imap Credit) : list Z := default [] (c_vc <$> mfind i Q).

(** A credit is sent, or waits to be, for every flit that has left. *)
Record credit_book (T : list Move) (sent : Z → list Credit) (Q : imap Credit) (cbs : list (list Credit)) : Prop := {
  cr_len : zlen cbs = q_inputs C;
  cr_count : ∀ i v, 0 ≤ i < q_inputs C → zlen (from i v T) = ncredits v (sent i) + ncredits v (cbs⟦i⟧) + cnt v (queued i Q);
  cr_sorted : msorted Q;
  cr_queue : Forall (λ x, 0 ≤ x.1 < q_inputs C ∧ c_vc x.2 ≠ []) Q
}.

Record allocs (va : option VA) (sa : SA) (spec : option PA) (offsets : list Z) (g : Rng) : Prop := {
  al_vc : ∃ a, va = Some a ∧ rl_opened (su_LV E) (i_Clear (ra_I (su_IV E)) a) no_requests;
  al_sw : rl_opened (su_LS E) (i_Clear (ra_I (su_IS E)) sa) no_requests;
  al_spec : spec = None;
  al_offsets : zlen offsets = q_inputs C * q_input_speedup C;
  al_rng : RngInv.rng_ok g
}.

(** ** The invariant, but for times and outcomes *)

(** While a VC is being worked on, it is in no queue and nothing is said of it. *)
Record Inv (ex : option (Z * Z)) G st : Prop := {
  in_shape : shape (iq_buf st);
  in_vc : ∀ i v, vin i v → ex ≠ Some (i, v) →
    vc_inv (g_moves G) (g_received G) (iq_next_buf st) (iq_switch_hold st) i v (vcat (iq_buf st) i v);
  in_hold : hold_ok (iq_switch_hold st);
  in_queues : queues (λ i v, if decide (ex = Some (i, v)) then Nowhere else place_at (iq_buf st) (iq_switch_hold st) i v)
                (iq_route_vcs st) (iq_vc_alloc_vcs st) (iq_sw_hold_vcs st) (iq_sw_alloc_vcs st);
  in_nexts : nexts (g_moves G) (g_credited G) (iq_proc_credits st) (iq_next_buf st);
  in_outs : outs (g_moves G) (g_sent G) (iq_crossbar_flits st) (iq_output_buffer st);
  in_credits : credit_book (g_moves G) (g_credits G) (iq_out_queue_credits st) (iq_credit_buffer st);
  in_allocs : allocs (iq_vc_allocator st) (iq_sw_allocator st) (iq_spec_sw_allocator st) (iq_sw_rr_offset st) (iq_rng st)
}.

(** ** Times and outcomes *)

(** An item that has not been looked at. *)
Definition fresh (x : Z * (Z * Z * Z)) : Prop := x.1 = -1 ∧ x.2.2 = -1.

(** Items that are done together at some time from [now] on, then new ones. *)
Definition staged {X : Type} (now : Z) (l : list (Z * X)) : Prop :=
  ∃ t l1 l2, l = l1 ++ l2 ∧ now ≤ t ∧ Forall (λ x, x.1 = t) l1 ∧ Forall (λ x, x.1 = -1) l2.

(** Between steps. *)
Record rest (now : Z) st : Prop := {
  re_route : staged now (iq_route_vcs st);
  re_vc : Forall fresh (iq_vc_alloc_vcs st);
  re_hold : Forall fresh (iq_sw_hold_vcs st);
  re_sw : Forall fresh (iq_sw_alloc_vcs st);
  re_crossbar : staged now (iq_crossbar_flits st);
  re_credits : iq_out_queue_credits st = []
}.
End inv.
