(* ===== verification/RouterQueues.v ===== *)
(** * The input-queued router: VCs and queues

    Lemmas the stages of the router share: indices, updates of one VC, the
    queues, the assertions of [front], and the passes over queues. *)

From S2P Require Import Prelude StdMap OutputSet Flit VCBuffer BufferState BufferStateInv Credits Link Arbiter Allocator AllocLaws Rng Route SwitchAlloc IQRouter IQSwitch Wormhole RouterInv.
Import CoreOps Credits Link IQRouterOps IQSwitchOps.

(** ** Passes over queues *)

Lemma returns_each_new {X S : Type} (I : list (Z * X) → list (Z * X) → S → Prop) (body : Z * X → S → res (Z * X * S)) l : ∀ d s,
  Forall (λ x, x.1 < 0) l → I d l s →
  (∀ d x l s, x.1 < 0 → I d (x :: l) s → returns (body x s) (λ r, I (d ++ [r.1]) l r.2)) →
  returns (each_new body l s) (λ r, I (d ++ r.1) [] r.2).
Proof.
  induction l as [|[t x] l IH]; intros d s Hl Hi Hb; simpl.
  { apply returns_ok. simpl. by rewrite app_nil_r. }
  apply Forall_cons in Hl as [Ht Hl]. simpl in Ht. destruct (Z.leb_spec 0 t); [lia|].
  eapply returns_bind; [by apply Hb|]. intros [y s'] Hi'. simpl in Hi'.
  eapply returns_bind; [by apply IH|]. intros [r s''] Hi''. apply returns_ok. simpl in *.
  by rewrite <- app_assoc in Hi''.
Qed.

(** A queue whose first item has a time is left alone. *)
Lemma each_new_timed {X S : Type} (body : Z * X → S → res (Z * X * S)) t x l s :
  0 ≤ t → each_new body ((t, x) :: l) s = Ok ((t, x) :: l, s).
Proof. intros. simpl. destruct (Z.leb_spec 0 t); [done|lia]. Qed.

Definition n_timed {X : Type} (l : list (Z * X)) : nat := length (filter (λ x, 0 ≤ x.1) l).

Lemma n_timed_app {X : Type} (l k : list (Z * X)) : Forall (λ x, x.1 < 0) k → n_timed (l ++ k) = n_timed l.
Proof.
  intros Hk. unfold n_timed. rewrite filter_app, (filter_none _ k), app_nil_r; [done|].
  eapply Forall_impl; [exact Hk|]. simpl. lia.
Qed.

Lemma returns_drain {X S : Type} (I : S → Prop) wait fuel now (queue : S → list (Z * X)) pop body : ∀ s,
  (n_timed (queue s) ≤ fuel)%nat → I s → (∀ s, queue (pop s) = tail (queue s)) →
  (∀ s t x l, I s → queue s = (t, x) :: l → 0 ≤ t → (wait = true → t ≤ now) →
     t = now ∧ returns (body x s) (λ s', I (pop s') ∧ ∃ k, queue s' = queue s ++ k ∧ Forall (λ y, y.1 < 0) k)) →
  returns (drain wait fuel now queue pop body s) (λ s', I s' ∧
    match queue s' with [] => True | y :: _ => y.1 < 0 ∨ wait = true ∧ now < y.1 end).
Proof.
  induction fuel as [|fuel IH]; intros s Hf Hi Hp Hb; simpl; destruct (queue s) as [|[t x] l] eqn:Eq.
  1, 3: apply returns_ok; by rewrite Eq.
  all: destruct (Z.ltb_spec t 0); simpl; [apply returns_ok; rewrite Eq; auto|].
  all: destruct wait; simpl; [destruct (Z.ltb_spec now t); [apply returns_ok; rewrite Eq; auto|]|].
  1, 2: unfold n_timed in Hf; rewrite filter_cons_True in Hf by done; simpl in Hf; lia.
  all: destruct (Hb s t x l Hi Eq ltac:(lia) ltac:(intros; done || lia)) as (-> & s' & Hs' & Hi' & k & Ek & Hk);
    rewrite Z.eqb_refl; simpl; rewrite Hs'; simpl; (apply IH; [|done|done|done]); rewrite Hp, Ek, Eq; simpl;
    rewrite n_timed_app by done; unfold n_timed in *; rewrite filter_cons_True in Hf by done; simpl in Hf; lia.
Qed.

Lemma n_timed_length {X : Type} (l : list (Z * X)) : (n_timed l ≤ length l)%nat.
Proof. unfold n_timed. apply length_filter. Qed.

Section lemmas.
Context {VA SA PA : Type} (E : Setup VA SA PA).
Local Abbreviation C := (su_C E).
Local Abbreviation IQ := (IQRouter VA SA PA).
Implicit Types (st : IQ) (G : Ghost).

(** ** Indices *)

Lemma valid_input_true i : 0 ≤ i < q_inputs C → valid_input C i = true.
Proof. intros. unfold valid_input. lia. Qed.
Lemma valid_output_true o : 0 ≤ o < q_outputs C → valid_output C o = true.
Proof. intros. unfold valid_output. lia. Qed.
Lemma valid_vc_ok v : 0 ≤ v < q_vcs C → IQRouterOps.valid_vc C v = true.
Proof. intros. unfold IQRouterOps.valid_vc. lia. Qed.

Lemma expanded_input_range i v : vin E i v → 0 ≤ expanded_input C i v < q_inputs C * q_input_speedup C.
Proof.
  intros [Hi Hv]. unfold expanded_input. pose proof (sp_input_speedup _ (su_ok E)).
  pose proof (Z.rem_bound_pos v (q_input_speedup C) ltac:(lia) ltac:(lia)). nia.
Qed.

Lemma expanded_input_inj i v j u : vin E i v → vin E j u → expanded_input C i v = expanded_input C j u → i = j.
Proof.
  intros [Hi Hv] [Hj Hu]. unfold expanded_input. pose proof (sp_input_speedup _ (su_ok E)).
  pose proof (Z.rem_bound_pos v (q_input_speedup C) ltac:(lia) ltac:(lia)).
  pose proof (Z.rem_bound_pos u (q_input_speedup C) ltac:(lia) ltac:(lia)). nia.
Qed.

Lemma expanded_output_eq o i : expanded_output C o i = o.
Proof. unfold expanded_output. rewrite (sp_output_speedup _ (su_ok E)), Z.rem_1_r. lia. Qed.

Lemma output_of_expanded o : o `quot` q_output_speedup C = o.
Proof. rewrite (sp_output_speedup _ (su_ok E)). apply Z.quot_1_r. Qed.

Lemma tag_inj i v j u : vin E i v → vin E j u → i * q_vcs C + v = j * q_vcs C + u → i = j ∧ v = u.
Proof. intros [Hi Hv] [Hj Hu] Ht. assert (i = j) by nia. subst. lia. Qed.

(** ** Updating one VC *)

Record buffer_changed (b b' : Buffer) (v : Z) (V' : VC) : Prop := {
  bc_len : zlen (b_vc b') = zlen (b_vc b);
  bc_size : b_size b' = b_size b;
  bc_inv : BufferOps.inv b → BufferOps.inv b';
  bc_at : ∀ u, 0 ≤ u < zlen (b_vc b) → (b_vc b')⟦u⟧ = if decide (u = v) then V' else (b_vc b)⟦u⟧
}.

Lemma buffer_changed_trans b b1 b2 v V1 V2 :
  buffer_changed b b1 v V1 → buffer_changed b1 b2 v V2 → buffer_changed b b2 v V2.
Proof.
  intros [L1 S1 I1 A1] [L2 S2 I2 A2]. split; [congruence|congruence|auto|].
  intros u Hu. rewrite A2 by lia. case_decide; [done|]. rewrite A1 by lia. by rewrite decide_False.
Qed.

Lemma update_vc_ok g b v :
  0 ≤ v < zlen (b_vc b) → VCOps.GetOccupancy (g ((b_vc b)⟦v⟧)) = VCOps.GetOccupancy ((b_vc b)⟦v⟧) →
  returns (BufferOps.update_vc g b v) (λ b', buffer_changed b b' v (g ((b_vc b)⟦v⟧))).
Proof.
  intros Hv Ho. unfold BufferOps.update_vc. rsteps. split; simpl; [lens|done| |].
  - intros [I1 I2]. split; simpl; [|done]. rewrite BufferOps.zsum_fill_zupd by done. lia.
  - intros u Hu. rewrite znth_zupd by lia. by repeat case_decide.
Qed.

(** A second update of the same VC. *)
Lemma update_again g b b1 v V1 :
  0 ≤ v < zlen (b_vc b) → buffer_changed b b1 v V1 → VCOps.GetOccupancy (g V1) = VCOps.GetOccupancy V1 →
  returns (BufferOps.update_vc g b1 v) (λ b', buffer_changed b b' v (g V1)).
Proof.
  intros Hv H1 Ho. pose proof (bc_at _ _ _ _ H1 v Hv) as E1. rewrite decide_True in E1 by done.
  pose proof (bc_len _ _ _ _ H1). eapply returns_mono; [apply update_vc_ok; [lia|by rewrite E1]|].
  intros b' Hb. rewrite E1 in Hb. by eapply buffer_changed_trans.
Qed.

Lemma put_buf_ok bufs i v b V st :
  shape E bufs → vin E i v → iq_buf st = bufs → buffer_changed (bufs⟦i⟧) b v V →
  returns (put_buf i b st) (λ st', ∃ bufs', st' = set_buf bufs' st ∧ changed E bufs bufs' i v V).
Proof.
  intros Hs [Hi Hv] <- Hb. unfold put_buf. pose proof (sh_len _ _ Hs). rsteps. eexists. split; [done|]. split.
  - intros _. split; [lens|..]; intros j Hj; rewrite znth_zupd by lia; (case_decide; [subst j|by apply Hs]).
    + rewrite (bc_len _ _ _ _ Hb). by apply Hs.
    + apply Hb. by apply Hs.
    + rewrite (bc_size _ _ _ _ Hb). by apply Hs.
  - intros j u [Hj Hu]. unfold vcat. rewrite znth_zupd by lia. case_decide.
    + subst j. rewrite (bc_at _ _ _ _ Hb) by (rewrite (sh_vcs _ _ Hs) by done; lia). repeat case_decide; destruct_and?; try done. tauto.
    + by rewrite decide_False by (intros []; congruence).
Qed.

Lemma vget_buf bufs i v : shape E bufs → vin E i v →
  vget bufs i = Ok (bufs⟦i⟧) ∧ 0 ≤ v < zlen (b_vc (bufs⟦i⟧)) ∧ vget (b_vc (bufs⟦i⟧)) v = Ok (vcat bufs i v).
Proof.
  intros Hs [Hi Hv]. pose proof (sh_len _ _ Hs). pose proof (sh_vcs _ _ Hs i Hi).
  rewrite !vget_ok by lia. split_and!; done || lia.
Qed.

Lemma changed_same bufs bufs' i v V' j u : changed E bufs bufs' i v V' → vin E j u → (j, u) ≠ (i, v) → vcat bufs' j u = vcat bufs j u.
Proof. intros [_ H] Hj Hne. rewrite H by done. apply decide_False. intros [-> ->]. done. Qed.
Lemma changed_at bufs bufs' i v V' : changed E bufs bufs' i v V' → vin E i v → vcat bufs' i v = V'.
Proof. intros [_ H] Hj. rewrite H by done. by apply decide_True. Qed.

Lemma changed_trans bufs b1 b2 i v V1 V2 : changed E bufs b1 i v V1 → changed E b1 b2 i v V2 → changed E bufs b2 i v V2.
Proof. intros [S1 A1] [S2 A2]. split; [auto|]. intros j u Hj. rewrite A2, A1 by done. by case_decide. Qed.

(** ** Membership *)

(** [p'] is [p] but for [i], [v]. *)
Definition but (i v : Z) (p p' : Z → Z → place) : Prop := ∀ j u, vin E j u → (j, u) ≠ (i, v) → p' j u = p j u.

Lemma members_keep p p' X l i v :
  but i v p p' → (p i v = X ↔ p' i v = X) → members E p X l → members E p' X l.
Proof.
  intros Hb He [Hn Hm]. split; [done|]. intros j u. rewrite Hm. split; intros [Hv Hp]; (split; [done|]);
    destruct (decide ((j, u) = (i, v))) as [[= -> ->]|Hne]; try tauto; specialize (Hb _ _ Hv Hne); congruence.
Qed.

Lemma members_add p p' X l i v :
  but i v p p' → vin E i v → p i v ≠ X → p' i v = X → members E p X l → members E p' X (l ++ [(i, v)]).
Proof.
  intros Hb Hi Hne He [Hn Hm]. split.
  - apply NoDup_app. split; [done|]. split; [|by apply NoDup_singleton].
    intros x Hx Hx'%list_elem_of_singleton. subst. apply Hm in Hx as [_ ?]. done.
  - intros j u. rewrite elem_of_app, list_elem_of_singleton, Hm. split.
    + intros [[Hv Hp]|[= -> ->]]; [|done]. split; [done|]. rewrite Hb; [done|done|]. intros [= -> ->]. done.
    + intros [Hv Hp]. destruct (decide ((j, u) = (i, v))) as [Heq|Hn']; [by right|]. left. rewrite <- Hb; done.
Qed.

Lemma members_del p p' X l i v :
  but i v p p' → p' i v ≠ X → members E p X ((i, v) :: l) → members E p' X l.
Proof.
  intros Hb Hne [[Hnot Hn]%NoDup_cons Hm]. split; [done|]. intros j u. split.
  - intros Hin. assert ((j, u) ≠ (i, v)) as Hd by (intros [= -> ->]; done).
    destruct (proj1 (Hm j u)) as [Hv Hp]; [by right|]. split; [done|]. by rewrite Hb.
  - intros [Hv Hp]. assert ((j, u) ≠ (i, v)) as Hd by (intros [= -> ->]; done).
    rewrite Hb in Hp by done. pose proof (proj2 (Hm j u) (conj Hv Hp)) as [?|?]%elem_of_cons; done.
Qed.

Lemma members_cons p X l i v : members E p X ((i, v) :: l) → vin E i v ∧ p i v = X.
Proof. intros [_ Hm]. apply Hm. left. Qed.

(** The pushes of the code. *)
Definition push (X : place) (i v : Z) st : IQ :=
  match X with
  | Nowhere => st
  | InRoute => push_route i v st
  | InVC => push_vc_alloc i v st
  | InHold => push_sw_hold i v st
  | InSW => push_sw_alloc i v st
  end.

(** A VC that was in no queue joins that of its new place. *)
Lemma queues_push p p' st i v :
  but i v p p' → vin E i v → p i v = Nowhere →
  queues E p (iq_route_vcs st) (iq_vc_alloc_vcs st) (iq_sw_hold_vcs st) (iq_sw_alloc_vcs st) →
  let st' := push (p' i v) i v st in
  queues E p' (iq_route_vcs st') (iq_vc_alloc_vcs st') (iq_sw_hold_vcs st') (iq_sw_alloc_vcs st').
Proof.
  intros Hb Hi Hp [Q1 Q2 Q3 Q4].
  assert (∀ X l, p' i v ≠ X → X ≠ Nowhere → members E p X l → members E p' X l) as Hk.
  { intros X l Hne Hx. apply (members_keep p p' X l i v Hb). rewrite Hp. split; congruence. }
  destruct (p' i v) eqn:Ep; simpl; (split; simpl; first [by apply Hk|rewrite fmap_app; apply (members_add p); done || congruence]).
Qed.

(** ** The assertions of a stage *)

Lemma front_ok bufs ok head st i v f q :
  shape E bufs → iq_buf st = bufs → vin E i v → v_buffer (vcat bufs i v) = f :: q →
  ok (v_state (vcat bufs i v)) = true → f_vc f = v → implb head (f_head f) = true →
  front C ok head st i v = Ok (bufs⟦i⟧, vcat bufs i v, f).
Proof.
  intros Hs <- Hi Hq Hok Hf Hh. destruct (vget_buf _ _ _ Hs Hi) as (E1 & _ & E2). destruct Hi as [Hi Hv]. unfold front.
  rewrite valid_input_true, valid_vc_ok by done. cbn [cassert mbind res_bind]. rewrite E1. cbn [mbind res_bind]. rewrite E2.
  cbn [mbind res_bind]. unfold VCOps.Empty, VCOps.FrontFlit. rewrite Hq. cbn [negb hd_error]. rewrite Hok, Hf, Z.eqb_refl.
  simpl. by rewrite Hh.
Qed.
End lemmas.
