(* ===== verification/RouterStages.v ===== *)
(** * The input-queued router: input queuing, routing, VC allocation

    That the stages before the switch keep the invariant. *)

From S2P Require Import Prelude StdMap OutputSet Flit VCBuffer BufferState BufferStateInv Credits Link Arbiter Allocator AllocLaws Rng Route SwitchAlloc IQRouter IQSwitch Wormhole RouterInv RouterQueues.
Import CoreOps Credits Link IQRouterOps IQSwitchOps.

Section stages.
Context {VA SA PA : Type} (E : Setup VA SA PA).
Local Abbreviation C := (su_C E).
Local Abbreviation IQ := (IQRouter VA SA PA).
Implicit Types (st : IQ) (G : Ghost).

(** ** Taking a VC out and putting it back *)

(** A VC joins the queue of its new place. *)
Lemma Inv_join G st i v bufs' V' :
  Inv E (Some (i, v)) G st → vin E i v → changed E (iq_buf st) bufs' i v V' →
  vc_inv E (g_moves G) (g_received G) (iq_next_buf st) (iq_switch_hold st) i v V' →
  Inv E None G (push (place_of V' (held E (iq_switch_hold st) i v)) i v (set_buf bufs' st)).
Proof.
  intros [H1 H2 H3 H4 H5 H6 H7 H8] Hi Hc HV.
  assert (shape E bufs') as Hs by by apply Hc.
  assert (∀ j u, vin E j u → vc_inv E (g_moves G) (g_received G) (iq_next_buf st) (iq_switch_hold st) j u (vcat bufs' j u)) as Hvc.
  { intros j u Hj. destruct (decide ((j, u) = (i, v))) as [[= -> ->]|Hne].
    - by rewrite (changed_at E _ _ _ _ _ Hc Hi).
    - rewrite (changed_same E _ _ _ _ _ _ _ Hc Hj Hne). apply H2; [done|]. congruence. }
  assert (but E i v (λ j u, if decide (Some (i, v) = Some (j, u)) then Nowhere else place_at E (iq_buf st) (iq_switch_hold st) j u)
            (place_at E bufs' (iq_switch_hold st))) as Hb.
  { intros j u Hj Hne. rewrite decide_False by congruence. unfold place_at.
    by rewrite (changed_same E _ _ _ _ _ _ _ Hc Hj Hne). }
  pose proof (queues_push E _ _ (set_buf bufs' st) i v Hb Hi ltac:(simpl; by rewrite decide_True) H4) as Hq. simpl in Hq.
  replace (place_of V' _) with (place_at E bufs' (iq_switch_hold st) i v)
    by (unfold place_at; by rewrite (changed_at E _ _ _ _ _ Hc Hi)).
  split; try (destruct (place_at E bufs' (iq_switch_hold st) i v); done).
  destruct (place_at E bufs' (iq_switch_hold st) i v); intros j u Hj _; by apply Hvc.
Qed.

(** ... or goes back where it came from. *)
Lemma Inv_back G st i v :
  Inv E (Some (i, v)) G st → vin E i v →
  vc_inv E (g_moves G) (g_received G) (iq_next_buf st) (iq_switch_hold st) i v (vcat (iq_buf st) i v) →
  Inv E None G (push (place_at E (iq_buf st) (iq_switch_hold st) i v) i v st).
Proof.
  intros HI Hi HV. assert (changed E (iq_buf st) (iq_buf st) i v (vcat (iq_buf st) i v)) as Hc.
  { split; [done|]. intros j u _. case_decide as Eq; [|done]. by destruct Eq as [-> ->]. }
  pose proof (Inv_join G st i v (iq_buf st) _ HI Hi Hc HV) as HJ. by destruct st.
Qed.

(** The queues without [i], [v]. *)
Lemma queues_take p i v R V H A R' V' H' A' :
  queues E p R V H A → (p i v = InRoute → snd <$> R = (i, v) :: (snd <$> R')) → (p i v ≠ InRoute → R' = R) →
  (p i v = InVC → key <$> V = (i, v) :: (key <$> V')) → (p i v ≠ InVC → V' = V) →
  (p i v = InHold → key <$> H = (i, v) :: (key <$> H')) → (p i v ≠ InHold → H' = H) →
  (p i v = InSW → key <$> A = (i, v) :: (key <$> A')) → (p i v ≠ InSW → A' = A) →
  queues E (λ j u, if decide (Some (i, v) = Some (j, u)) then Nowhere else p j u) R' V' H' A'.
Proof.
  intros [Q1 Q2 Q3 Q4] HR HR' HV HV' HH HH' HA HA'.
  set (p' := λ j u, if decide (Some (i, v) = Some (j, u)) then Nowhere else p j u).
  assert (but E i v p p') as Hb by (intros j u _ Hne; unfold p'; by rewrite decide_False by congruence).
  assert (p' i v = Nowhere) as Hp' by (unfold p'; by rewrite decide_True).
  assert (∀ X l l', members E p X l → X ≠ Nowhere → (p i v = X → l = (i, v) :: l') → (p i v ≠ X → l' = l) → members E p' X l') as Hk.
  { intros X l l' Hm Hx H1 H2. destruct (decide (p i v = X)) as [Hp|Hp].
    - rewrite H1 in Hm by done. apply (members_del E p p' X l' i v); [done|congruence|done].
    - rewrite H2 by done. apply (members_keep E p p' X l i v); [done| |done]. split; congruence. }
  split; eapply Hk; eauto; intros; f_equal; auto.
Qed.

Lemma Inv_except G st st' i v :
  Inv E None G st → queues E (λ j u, if decide (Some (i, v) = Some (j, u)) then Nowhere else place_at E (iq_buf st) (iq_switch_hold st) j u)
    (iq_route_vcs st') (iq_vc_alloc_vcs st') (iq_sw_hold_vcs st') (iq_sw_alloc_vcs st') →
  st' = set_route_vcs (iq_route_vcs st') (set_vc_alloc_vcs (iq_vc_alloc_vcs st') (set_sw_hold_vcs (iq_sw_hold_vcs st')
          (set_sw_alloc_vcs (iq_sw_alloc_vcs st') st))) →
  Inv E (Some (i, v)) G st'.
Proof. intros [H1 H2 H3 H4 H5 H6 H7 H8] Hq ->. split; try done. intros j u Hj _. by apply H2. Qed.

Lemma Inv_out G st i v :
  Inv E None G st → place_at E (iq_buf st) (iq_switch_hold st) i v = Nowhere → Inv E (Some (i, v)) G st.
Proof.
  intros H Hp. apply (Inv_except G st st i v H); [|by destruct st].
  apply (queues_take _ i v _ _ _ _ _ _ _ _ (in_queues _ _ _ _ H)); try done; simpl; rewrite Hp; done.
Qed.

Lemma Inv_take_route G st t i v l : Inv E None G st → iq_route_vcs st = (t, (i, v)) :: l →
  Inv E (Some (i, v)) G (set_route_vcs l st) ∧ vin E i v ∧ place_at E (iq_buf st) (iq_switch_hold st) i v = InRoute.
Proof.
  intros H Hl. pose proof (qu_route _ _ _ _ _ _ (in_queues _ _ _ _ H)) as Hm. rewrite Hl in Hm.
  apply members_cons in Hm as [Hi Hp]. simpl in Hp. split; [|done]. apply (Inv_except G st _ i v H); [|by destruct st].
  apply (queues_take _ i v _ _ _ _ _ _ _ _ (in_queues _ _ _ _ H)); simpl; rewrite Hp, ?Hl; done.
Qed.

Lemma Inv_take_vc G st t i v r l : Inv E None G st → iq_vc_alloc_vcs st = (t, (i, v, r)) :: l →
  Inv E (Some (i, v)) G (set_vc_alloc_vcs l st) ∧ vin E i v ∧ place_at E (iq_buf st) (iq_switch_hold st) i v = InVC.
Proof.
  intros H Hl. pose proof (qu_vc _ _ _ _ _ _ (in_queues _ _ _ _ H)) as Hm. rewrite Hl in Hm.
  apply members_cons in Hm as [Hi Hp]. simpl in Hp. split; [|done]. apply (Inv_except G st _ i v H); [|by destruct st].
  apply (queues_take _ i v _ _ _ _ _ _ _ _ (in_queues _ _ _ _ H)); simpl; rewrite Hp, ?Hl; done.
Qed.

Lemma Inv_take_hold G st t i v r l : Inv E None G st → iq_sw_hold_vcs st = (t, (i, v, r)) :: l →
  Inv E (Some (i, v)) G (set_sw_hold_vcs l st) ∧ vin E i v ∧ place_at E (iq_buf st) (iq_switch_hold st) i v = InHold.
Proof.
  intros H Hl. pose proof (qu_hold _ _ _ _ _ _ (in_queues _ _ _ _ H)) as Hm. rewrite Hl in Hm.
  apply members_cons in Hm as [Hi Hp]. simpl in Hp. split; [|done]. apply (Inv_except G st _ i v H); [|by destruct st].
  apply (queues_take _ i v _ _ _ _ _ _ _ _ (in_queues _ _ _ _ H)); simpl; rewrite Hp, ?Hl; done.
Qed.

Lemma Inv_take_sw G st t i v r l : Inv E None G st → iq_sw_alloc_vcs st = (t, (i, v, r)) :: l →
  Inv E (Some (i, v)) G (set_sw_alloc_vcs l st) ∧ vin E i v ∧ place_at E (iq_buf st) (iq_switch_hold st) i v = InSW.
Proof.
  intros H Hl. pose proof (qu_sw _ _ _ _ _ _ (in_queues _ _ _ _ H)) as Hm. rewrite Hl in Hm.
  apply members_cons in Hm as [Hi Hp]. simpl in Hp. split; [|done]. apply (Inv_except G st _ i v H); [|by destruct st].
  apply (queues_take _ i v _ _ _ _ _ _ _ _ (in_queues _ _ _ _ H)); simpl; rewrite Hp, ?Hl; done.
Qed.

Definition receive (i : Z) (f : Flit) G : Ghost :=
  mkGhost (g_moves G) (fadd (g_received G) i f) (g_credited G) (g_sent G) (g_credits G).

Lemma on_vc_snoc v l f : on_vc v (l ++ [f]) = if decide (f_vc f = v) then on_vc v l ++ [f] else on_vc v l.
Proof. unfold on_vc. by rewrite filter_snoc. Qed.

(** What other VCs have received. *)
Lemma receive_other i f G j u : (j, u) ≠ (i, f_vc f) → on_vc u (g_received (receive i f G) j) = on_vc u (g_received G j).
Proof.
  intros Hne. simpl. unfold fadd. case_decide; [|done]. subst. rewrite on_vc_snoc, decide_False by congruence. done.
Qed.

Lemma vc_inv_receive G i f nbs h j u V : (j, u) ≠ (i, f_vc f) →
  vc_inv E (g_moves G) (g_received G) nbs h j u V → vc_inv E (g_moves G) (g_received (receive i f G)) nbs h j u V.
Proof. intros Hne [I1 I2 I3 I4]. split; try done. by rewrite receive_other. Qed.

Lemma Inv_receive G st i f : Inv E (Some (i, f_vc f)) G st → Inv E (Some (i, f_vc f)) (receive i f G) st.
Proof.
  intros [H1 H2 H3 H4 H5 H6 H7 H8]. split; try done. intros j u Hj Hne. apply (vc_inv_receive G i f); [congruence|]. by apply H2.
Qed.

(** A VC that receives a flit where it is. *)
Lemma Inv_stay G st i f bufs' V' :
  let v := f_vc f in
  Inv E None G st → vin E i v → changed E (iq_buf st) bufs' i v V' →
  place_of V' (held E (iq_switch_hold st) i v) = place_at E (iq_buf st) (iq_switch_hold st) i v →
  vc_inv E (g_moves G) (g_received (receive i f G)) (iq_next_buf st) (iq_switch_hold st) i v V' →
  Inv E None (receive i f G) (set_buf bufs' st).
Proof.
  intros v [H1 H2 H3 H4 H5 H6 H7 H8] Hi Hc Hp HV. split; try done; cbn [iq_buf set_buf].
  - by apply Hc.
  - intros j u Hj _. destruct (decide ((j, u) = (i, v))) as [[= -> ->]|Hne].
    + by rewrite (changed_at E _ _ _ _ _ Hc Hi).
    + rewrite (changed_same E _ _ _ _ _ _ _ Hc Hj Hne). apply (vc_inv_receive G i f); [done|]. by apply H2.
  - assert (but E i v (place_at E (iq_buf st) (iq_switch_hold st)) (place_at E bufs' (iq_switch_hold st))) as Hb.
    { intros j u Hj Hne. unfold place_at. by rewrite (changed_same E _ _ _ _ _ _ _ Hc Hj Hne). }
    assert (place_at E bufs' (iq_switch_hold st) i v = place_at E (iq_buf st) (iq_switch_hold st) i v) as Hp'.
    { rewrite <- Hp. unfold place_at. by rewrite (changed_at E _ _ _ _ _ Hc Hi). }
    destruct H4 as [Q1 Q2 Q3 Q4]; split; eapply members_keep; try done; cbn -[place_at]; by rewrite Hp'.
Qed.

Lemma place_state V h : match place_of V h with
  | Nowhere => v_state V = idle ∨ v_state V = active ∧ v_buffer V = []
  | InRoute => v_state V = routing
  | InVC => v_state V = vc_alloc
  | InHold => v_state V = active ∧ v_buffer V ≠ [] ∧ h = true
  | InSW => v_state V = active ∧ v_buffer V ≠ [] ∧ h = false
  end.
Proof.
  unfold place_of, VCOps.Empty. destruct (v_state V); auto. destruct (v_buffer V); [auto|]. by destruct h.
Qed.

(** ** A packet comes to the front *)

(** What is said of a VC in any state, if none of its flits has been routed. *)
Record vc_base (T : list Move) (i v : Z) (V : VC) : Prop := {
  vb_flits : Forall (λ f, f_vc f = v ∧ flit_ok f) (v_buffer V);
  vb_accepts : Forall (acceptable E) (v_buffer V);
  vb_route : q_routing_delay C ≠ 0 → is_Some (v_route_set V);
  vb_stream : streaming T i v V
}.

Lemma start_packet_ok sinks T st i v f g q :
  f_la_route_set g = f_la_route_set f →
  shape E (iq_buf st) → vin E i v → is_Some (iq_vc_allocator st) → v_buffer (vcat (iq_buf st) i v) = f :: q →
  mid i v T = None → vc_base T i v (vcat (iq_buf st) i v) →
  returns (start_packet C (su_rf E) sinks i v g st) (λ st', ∃ bufs' V',
    changed E (iq_buf st) bufs' i v V' ∧ vc_ok E T i v V' ∧ v_buffer V' = f :: q ∧ v_state V' ≠ active ∧
    ∀ h, st' = push (place_of V' h) i v (set_buf bufs' st)).
Proof.
  intros Hg Hs Hi [va Hva] Hq Hm [B1 B2 B3 B4]. destruct (vget_buf E _ _ _ Hs Hi) as (E1 & Hv & _).
  assert (f_head f = true) as Hh.
  { destruct B4 as (e & He & _). rewrite Hq in He. unfold open_pid in He. rewrite Hm in He. simpl in He. by destruct (f_head f). }
  rewrite Hq in B1, B2. pose proof B2 as [Hacc B2']%Forall_cons. specialize (Hacc Hh).
  unfold start_packet. rewrite E1, Hg. cbn [mbind res_bind].
  destruct (Z.eqb_spec (q_routing_delay C) 0) as [Hrd|Hrd]; cbn [negb].
  - eapply returns_bind; [by apply update_vc_ok|]. intros b Hb.
    eapply returns_bind; [by eapply (update_again _ _ _ _ _ Hv Hb)|]. intros b' Hb'.
    eapply returns_bind; [by apply (put_buf_ok E (iq_buf st) i v _ _ st Hs Hi eq_refl Hb')|]. intros st' (bufs' & -> & Hc).
    rewrite (sp_speculative _ (su_ok E)), (sp_noq _ (su_ok E)). simpl. rewrite Hva. apply returns_ok.
    destruct (su_carried _ _ _ E Hrd f Hacc Hh) as [Hro Hle].
    exists bufs', (VCOps.SetState vc_alloc (VCOps.SetRouteSet (Some (f_la_route_set f)) (vcat (iq_buf st) i v))).
    split_and!; try done. split; unfold unrouted; simpl; rewrite ?Hq; try done.
    split; [done|]. simpl. by exists f, q, (f_la_route_set f).
  - eapply returns_bind; [by apply update_vc_ok|]. intros b Hb.
    eapply returns_bind; [by apply (put_buf_ok E (iq_buf st) i v _ _ st Hs Hi eq_refl Hb)|]. intros st' (bufs' & -> & Hc).
    apply returns_ok. exists bufs', (VCOps.SetState routing (vcat (iq_buf st) i v)). split_and!; try done.
    split; unfold unrouted; simpl; rewrite ?Hq; try done. split_and!; simpl; rewrite ?Hq; done.
Qed.

(** ** A flit arrives *)

Lemma stamp_strip now t f : strip (VCOps.stamp now t f) = strip f ∧ f_vc (VCOps.stamp now t f) = f_vc f ∧ f_hops (VCOps.stamp now t f) = f_hops f.
Proof. by destruct t. Qed.

Lemma stamp_next e now t f : next_flit e (VCOps.stamp now t f) = next_flit e f.
Proof. by destruct t. Qed.

Lemma stamp_ok now t f v : f_vc f = v → flit_ok f → acceptable E f →
  f_vc (VCOps.stamp now t f) = v ∧ flit_ok (VCOps.stamp now t f) ∧ acceptable E (VCOps.stamp now t f).
Proof.
  intros Hv Hf Ha. destruct t; try done; (split; [done|split; [done|]]); intros Hh; apply (su_accepts _ _ _ E); by apply Ha.
Qed.

(** [V'] is [V] with [f] added. *)
Record appended (now : Z) (V V' : VC) (f : Flit) (e' : option Z) : Prop := {
  ap_buffer : v_buffer V' = v_buffer V ++ [VCOps.stamp now (v_pri_type V) f];
  ap_state : v_state V' = v_state V;
  ap_route : v_route_set V' = v_route_set V;
  ap_port : v_out_port V' = v_out_port V;
  ap_vc : v_out_vc V' = v_out_vc V;
  ap_expected : v_expected_pid V' = default (-1) e'
}.

Lemma UpdatePriority_only V : ∃ p, VCOps.UpdatePriority V = VCOps.with_pri p V.
Proof.
  unfold VCOps.UpdatePriority. repeat case_match; try (by eexists); exists (v_pri V); by destruct V.
Qed.

Lemma add_flit_ok now b v f e e' :
  let V := (b_vc b)⟦v⟧ in
  0 ≤ v < zlen (b_vc b) → b_occupancy b < b_size b → 0 ≤ now ≤ int_max → flit_ok f →
  v_expected_pid V = default (-1) e → (∀ p, e = Some p → 0 ≤ p ≤ int_max) → next_flit e f = Some e' →
  returns (BufferOps.AddFlit now b v f) (λ b', ∃ V', buffer_changed b b' v V' ∧ appended now V V' f e').
Proof.
  intros V Hv Hroom Hnow [Hpid Hhops] He Hp Hn. unfold BufferOps.AddFlit.
  destruct (Z.leb_spec (b_size b) (b_occupancy b)); [lia|]. rsteps. fold V.
  rewrite VCOps.AddFlit_accepts by done.
  assert (bool_decide (0 ≤ v_expected_pid V ∧ f_pid f ≠ v_expected_pid V) = false) as ->.
  { apply bool_decide_eq_false_2. rewrite He. destruct e as [p|]; simpl in *; [|lia].
    destruct (f_head f), (Z.eqb_spec (f_pid f) p); simpl in Hn; try done. lia. }
  cbn [mbind res_bind]. set (V1 := VCOps.with_expected _ _). destruct (UpdatePriority_only V1) as [p Ep]. rewrite Ep.
  rsteps. exists (VCOps.with_pri p V1). split.
  - split; simpl; [lens|done| |].
    + intros [I1 I2]. split; simpl; [|lia]. rewrite BufferOps.zsum_fill_zupd by done.
      unfold VCOps.GetOccupancy, zlen. subst V1. simpl. fold V. rewrite length_app. simpl. lia.
    + intros u Hu. rewrite znth_zupd by lia. by repeat case_decide.
  - split; try done. subst V1. simpl. rewrite He. unfold next_flit in Hn. rewrite ?to_int_id by (unfold int_min; lia).
    destruct e as [p0|]; simpl in *.
    + specialize (Hp p0 eq_refl). destruct (Z.leb_spec 0 p0); [|lia].
      destruct (f_head f), (Z.eqb_spec (f_pid f) p0); simpl in Hn; try done. injection Hn as <-. by destruct (f_tail f).
    + destruct (f_head f); [|done]. injection Hn as <-. by destruct (f_tail f).
Qed.

Lemma next_flit_pid e f e' : next_flit e f = Some e' → flit_ok f → (∀ p, e = Some p → 0 ≤ p ≤ int_max) → ∀ p, e' = Some p → 0 ≤ p ≤ int_max.
Proof.
  unfold next_flit. intros Hn [Hf _] Hp p ->. destruct e as [p0|].
  - destruct (_ && _); [|done]. destruct (f_tail f); [done|]. injection Hn as ->. auto.
  - destruct (f_head f); [|done]. destruct (f_tail f); [done|]. by injection Hn as <-.
Qed.

Lemma appended_base now T i v V V' f e e' :
  Forall (λ f, f_vc f = v ∧ flit_ok f) (v_buffer V) → (q_routing_delay C ≠ 0 → is_Some (v_route_set V)) →
  stream (open_pid i v T) (v_buffer V) = Some e → (∀ p, e = Some p → 0 ≤ p ≤ int_max) → next_flit e f = Some e' →
  f_vc f = v → flit_ok f → acceptable E f → appended now V V' f e' →
  Forall (λ f, f_vc f = v ∧ flit_ok f) (v_buffer V') ∧ (q_routing_delay C ≠ 0 → is_Some (v_route_set V')) ∧ streaming T i v V'.
Proof.
  intros H1 H2 H3 Hp Hn Hv Hf Ha [A1 A2 A3 A4 A5 A6]. destruct (stamp_ok now (v_pri_type V) f v Hv Hf Ha) as (S1 & S2 & S3).
  rewrite A1, A3. split_and!; [by apply Forall_app_2, Forall_singleton|done|]. exists e'. rewrite A1.
  split_and!; [by rewrite (stream_snoc _ _ _ _ H3), stamp_next|done|by apply (next_flit_pid e f)].
Qed.

Lemma received_append T received i v V V' now f e' :
  f_vc f = v → appended now V V' f e' →
  strip <$> (from i v T ++ v_buffer V) = strip <$> on_vc v (received i) →
  strip <$> (from i v T ++ v_buffer V') = strip <$> on_vc v (fadd received i f i).
Proof.
  intros Hv [A1 _ _ _ _ _] Hr. unfold fadd. rewrite decide_True, on_vc_snoc, decide_True by done.
  rewrite A1, app_assoc, !(fmap_app _ _ [_]), Hr. cbn [fmap list_fmap]. by rewrite (proj1 (stamp_strip now (v_pri_type V) f)).
Qed.

(** A VC that is not idle keeps its state when a flit is added. *)
Lemma vc_inv_append T received nbs h now i v V V' f e e' :
  vc_inv E T received nbs h i v V → v_state V ≠ idle →
  stream (open_pid i v T) (v_buffer V) = Some e → (∀ p, e = Some p → 0 ≤ p ≤ int_max) → next_flit e f = Some e' →
  f_vc f = v → flit_ok f → acceptable E f → appended now V V' f e' →
  vc_inv E T (fadd received i f) nbs h i v V'.
Proof.
  intros [[K1 K2 K3 K4 K5] I2 I3 I4] Hidle Hs Hp Hn Hv Hf Ha HA.
  destruct (appended_base now T i v V V' f e e' K1 K3 Hs Hp Hn Hv Hf Ha HA) as (B1 & B2 & B3).
  pose proof HA as [A1 A2 A3 A4 A5 A6]. destruct (stamp_ok now (v_pri_type V) f v Hv Hf Ha) as (_ & _ & S3).
  split; [split; try done| |by rewrite A2, A4, A5|].
  - assert (∀ l, Forall (acceptable E) l → Forall (acceptable E) (l ++ [VCOps.stamp now (v_pri_type V) f])) as Hsn
      by (intros l Hl; by apply Forall_app_2, Forall_singleton).
    unfold unrouted, vc_state_ok in *. rewrite A1, A2. destruct (v_state V); [by apply Hsn..| |];
      (destruct (v_buffer V) as [|g q]; [by constructor|by apply Hsn]).
  - unfold vc_state_ok in *. rewrite A1, A2, A3, A4, A5. destruct (v_state V); try done.
    + destruct K5 as (? & ? & ?). split_and!; try done. by destruct (v_buffer V).
    + destruct K5 as (? & g & q & rs & E1 & ?). split; [done|]. rewrite E1. by exists g, (q ++ [VCOps.stamp now (v_pri_type V) f]), rs.
    + destruct K5 as (? & K5). split; [done|]. destruct (mid i v T) as [[[o w] p]|]; [done|].
      destruct K5 as (g & q & E1 & ?). rewrite E1. by exists g, (q ++ [VCOps.stamp now (v_pri_type V) f]).
  - by apply (received_append T received i v V V' now f e').
  - intros Hh. destruct (I4 Hh) as (? & ? & ?). rewrite A1, A2, A4. split_and!; try done. by destruct (v_buffer V).
Qed.

Lemma held_false T received nbs h i v V : vc_inv E T received nbs h i v V → v_state V ≠ active ∨ v_buffer V = [] → held E h i v = false.
Proof.
  intros HV Hor. destruct (held E h i v) eqn:Eh; [|done]. destruct (vi_held _ _ _ _ _ _ _ _ HV Eh) as (? & ? & _). tauto.
Qed.

Lemma nflits_on_vc v fs : nflits v fs = zlen (on_vc v fs).
Proof.
  induction fs as [|f fs IH] using rev_ind; [done|]. rewrite nflits_snoc, on_vc_snoc, IH.
  case_decide; unfold zlen; rewrite ?length_app; simpl; lia.
Qed.

(** The flits in a buffer are those received and not credited. *)
Lemma occupancy_bound G st i : Inv E None G st → 0 ≤ i < q_inputs C →
  b_occupancy ((iq_buf st)⟦i⟧) ≤ zsumf (λ v, nflits v (g_received G i) - ncredits v (g_credits G i)) (q_vcs C).
Proof.
  intros HI Hi. pose proof (in_shape _ _ _ _ HI) as Hs. rewrite (BufferOps.inv_occupancy _ (sh_inv _ _ Hs i Hi)), zsum_zsumf, BufferOps.zlen_fill.
  rewrite (sh_vcs _ _ Hs i Hi). pose proof (sp_vcs _ (su_ok E)). apply zsumf_le; [lia|]. intros v Hv.
  rewrite BufferOps.fill_nth by (rewrite (sh_vcs _ _ Hs i Hi); lia). change ((b_vc ((iq_buf st)⟦i⟧))⟦v⟧) with (vcat (iq_buf st) i v).
  pose proof (vi_received _ _ _ _ _ _ _ _ (in_vc _ _ _ _ HI i v (conj Hi Hv) ltac:(done))) as Hr.
  apply (f_equal length) in Hr. rewrite !length_fmap, length_app in Hr.
  pose proof (cr_count _ _ _ _ _ (in_credits _ _ _ _ HI) i v Hi) as Hc.
  pose proof (ncredits_nonneg v ((iq_credit_buffer st)⟦i⟧)). pose proof (cnt_nonneg v (queued i (iq_out_queue_credits st))).
  rewrite nflits_on_vc. unfold VCOps.GetOccupancy, zlen in *. lia.
Qed.

(** What must hold of a flit [f] that comes to input [i]. *)
Record arrival (G : Ghost) (i : Z) (f : Flit) : Prop := {
  ar_input : 0 ≤ i < q_inputs C;
  ar_vc : 0 ≤ f_vc f < q_vcs C;
  ar_flit : flit_ok f;
  ar_accept : acceptable E f;
  ar_room : zsumf (λ v, nflits v (g_received G i) - ncredits v (g_credits G i)) (q_vcs C) < su_bsize E;
  ar_stream : is_Some (stream None (on_vc (f_vc f) (g_received G i ++ [f])))
}.

(** The stream of a VC goes on with the next flit. *)
Lemma arrival_next G nbs h i f V :
  wormhole (g_moves G) → arrival G i f → vc_inv E (g_moves G) (g_received G) nbs h i (f_vc f) V →
  ∃ e e', stream (open_pid i (f_vc f) (g_moves G)) (v_buffer V) = Some e ∧ v_expected_pid V = default (-1) e ∧
    (∀ p, e = Some p → 0 ≤ p ≤ int_max) ∧ next_flit e f = Some e'.
Proof.
  intros Hw [_ _ _ _ _ [e' He']] HV. destruct (vk_stream _ _ _ _ _ (vi_ok _ _ _ _ _ _ _ _ HV)) as (e & E1 & E2 & E3).
  exists e, e'. split_and!; try done. rewrite on_vc_snoc, decide_True in He' by done.
  rewrite <- He'. symmetry. apply stream_snoc. rewrite <- (stream_strip _ _ _ (vi_received _ _ _ _ _ _ _ _ HV)).
  by rewrite stream_app, (from_stream _ _ _ Hw).
Qed.

Section queue_flit.
Context (sinks : list (option Sink)) (now : Z) (G : Ghost) (st : IQ) (i : Z) (f : Flit) (bufs' : list Buffer) (V' : VC) (e e' : option Z).
Local Abbreviation v := (f_vc f).
Local Abbreviation V := (vcat (iq_buf st) i v).
Local Abbreviation h := (iq_switch_hold st).
Context (HI : Inv E None G st) (Har : arrival G i f).
Context (He : stream (open_pid i v (g_moves G)) (v_buffer V) = Some e) (Hp : ∀ p, e = Some p → 0 ≤ p ≤ int_max).
Context (Hn : next_flit e f = Some e') (Hc : changed E (iq_buf st) bufs' i v V') (HA : appended now V V' f e').

Definition queued_flit (st' : IQ) : Prop := Inv E None (receive i f G) st' ∧ ∃ X bufs'', st' = push X i v (set_buf bufs'' st).

Lemma queue_idle : v_state V = idle →
  returns (assert! (VCOps.GetOccupancy V' =? 1); assert! f_head f; assert! negb (held E h i v);
           start_packet C (su_rf E) sinks i v f (set_buf bufs' st)) queued_flit.
Proof.
  intros Hst. assert (vin E i v) as Hin by by destruct Har.
  pose proof (in_vc _ _ _ _ HI i v Hin ltac:(done)) as HV. pose proof (vi_ok _ _ _ _ _ _ _ _ HV) as [K1 K2 K3 K4 K5].
  unfold vc_state_ok in K5. rewrite Hst in K5. destruct K5 as [Kb Km].
  assert (e = None) as ->. { rewrite Kb in He. simpl in He. unfold open_pid in He. rewrite Km in He. simpl in He. congruence. }
  assert (f_head f = true) as Hh by (simpl in Hn; by destruct (f_head f)). rewrite Hh.
  rewrite (held_false _ _ _ _ _ _ _ HV) by (left; by rewrite Hst).
  destruct (appended_base now (g_moves G) i v V V' f _ e' K1 K3 He Hp Hn eq_refl (ar_flit _ _ _ Har) (ar_accept _ _ _ Har) HA) as (B1 & B2 & B3).
  pose proof (ap_buffer _ _ _ _ _ HA) as Eb. rewrite Kb in Eb. simpl in Eb.
  unfold VCOps.GetOccupancy. rewrite Eb. cbn [cassert mbind res_bind Z.eqb zlen length Pos.eqb Z.of_nat Pos.of_succ_nat negb].
  destruct (al_vc _ _ _ _ _ _ (in_allocs _ _ _ _ HI)) as (va & Hva & _).
  pose proof (changed_at E _ _ _ _ _ Hc Hin) as EV'.
  destruct (stamp_ok now (v_pri_type V) f v eq_refl (ar_flit _ _ _ Har) (ar_accept _ _ _ Har)) as (_ & _ & S3).
  eapply returns_mono; [apply (start_packet_ok sinks (g_moves G) (set_buf bufs' st) i v (VCOps.stamp now (v_pri_type V) f) f [])|];
    cbn [iq_buf set_buf]; rewrite ?EV'; try done.
  - by destruct (v_pri_type V).
  - apply Hc, HI.
  - split; try done. rewrite Eb. by apply Forall_singleton.
  - intros st' (bufs2 & V2 & Hc2 & HV2 & Eb2 & Ha2 & Hst'). specialize (Hst' (held E h i v)). split; [|by eexists _, _].
    rewrite Hst'. apply (Inv_join (receive i f G) st i v bufs2 V2); [|done|by eapply changed_trans|].
    + apply Inv_receive, Inv_out; [done|]. unfold place_at, place_of. by rewrite Hst.
    + split; [done| |done|].
      * rewrite Eb2, <- Eb. by eapply received_append; [|exact HA|apply HV].
      * rewrite (held_false _ _ _ _ _ _ _ HV) by (left; by rewrite Hst). done.
Qed.

Lemma queue_active : v_state V = active →
  queued_flit (if VCOps.GetOccupancy V' =? 1 then if held E h i v then push_sw_hold i v (set_buf bufs' st) else push_sw_alloc i v (set_buf bufs' st)
               else set_buf bufs' st).
Proof.
  intros Hst. assert (vin E i v) as Hin by by destruct Har.
  pose proof (in_vc _ _ _ _ HI i v Hin ltac:(done)) as HV.
  assert (vc_inv E (g_moves G) (g_received (receive i f G)) (iq_next_buf st) h i v V') as HV'.
  { apply (vc_inv_append _ _ _ _ now _ _ V V' f e e'); try done; try apply Har. by rewrite Hst. }
  pose proof (ap_buffer _ _ _ _ _ HA) as Eb. pose proof (ap_state _ _ _ _ _ HA) as Es. rewrite Hst in Es.
  unfold VCOps.GetOccupancy, zlen. rewrite Eb, length_app.
  destruct (v_buffer V) as [|g q] eqn:EV; cbn [length].
  - rewrite (held_false _ _ _ _ _ _ _ HV) by by right. simpl. split; [|by exists InSW, bufs'].
    assert (place_at E (iq_buf st) h i v = Nowhere) as Hpl by (unfold place_at, place_of, VCOps.Empty; by rewrite Hst, EV).
    pose proof (Inv_join (receive i f G) st i v bufs' V' (Inv_receive _ _ _ _ (Inv_out _ _ _ _ HI Hpl)) Hin Hc HV') as HJ.
    rewrite (held_false _ _ _ _ _ _ _ HV) in HJ by by right. unfold place_of, VCOps.Empty in HJ. by rewrite Es, Eb in HJ.
  - destruct (Z.eqb_spec (Z.of_nat (S (length q) + 1)) 1); [lia|]. split; [|by exists Nowhere, bufs'].
    apply (Inv_stay G st i f bufs' V'); try done. unfold place_at, place_of, VCOps.Empty. by rewrite Es, Hst, Eb, EV.
Qed.
End queue_flit.

Lemma queue_flit_ok sinks now G st i f :
  Inv E None G st → 0 ≤ now ≤ int_max → arrival G i f →
  returns (queue_flit C (su_rf E) sinks now i f st) (λ st', Inv E None (receive i f G) st' ∧
    ∃ X bufs', st' = push X i (f_vc f) (set_buf bufs' st)).
Proof.
  intros HI Hnow Har. pose proof Har as [Hi Hv Hf Ha Hroom _]. pose proof (occupancy_bound _ _ _ HI Hi) as Hocc. assert (vin E i (f_vc f)) as Hin by done.
  pose proof (in_shape _ _ _ _ HI) as Hs. destruct (vget_buf E _ _ _ Hs Hin) as (E1 & Hvl & _).
  pose proof (in_vc _ _ _ _ HI i (f_vc f) Hin ltac:(done)) as HV.
  destruct (arrival_next _ _ _ _ _ _ (ou_worm _ _ _ _ _ (in_outs _ _ _ _ HI)) Har HV) as (e & e' & S1 & S2 & S3 & S4).
  set (h := iq_switch_hold st) in *. set (V := vcat (iq_buf st) i (f_vc f)) in *.
  unfold queue_flit. rewrite (valid_input_true E), (valid_vc_ok E) by done. cbn [cassert mbind res_bind]. rewrite E1. cbn [mbind res_bind].
  eapply returns_bind; [apply (add_flit_ok _ _ _ _ e e'); try done; rewrite (sh_size _ _ Hs); done || lia|]. intros b (V' & Hb & HA). change (appended now V V' f e') in HA.
  eapply returns_bind; [by apply (put_buf_ok E (iq_buf st) i (f_vc f) _ _ st Hs Hin eq_refl Hb)|]. intros st1 (bufs' & -> & Hc).
  assert (vget (b_vc b) (f_vc f) = Ok V') as ->.
  { rewrite vget_ok by (rewrite (bc_len _ _ _ _ Hb); done). rewrite (bc_at _ _ _ _ Hb), decide_True by done. done. }
  cbn [mbind res_bind]. apply returns_vget.
  { cbn [iq_switch_hold set_buf]. rewrite (ho_vc_len _ _ (in_hold _ _ _ _ HI)). by apply expanded_input_range. }
  cbn [iq_switch_hold set_buf]. change ((h_vc (iq_switch_hold st))⟦expanded_input C i (f_vc f)⟧ =? f_vc f) with (held E h i (f_vc f)).
  destruct (v_state V) eqn:Est; rewrite (ap_state _ _ _ _ _ HA), Est.
  - by apply (queue_idle sinks now G st i f bufs' V' e e').
  - apply returns_ok. split; [|by exists Nowhere, bufs'].
    apply (Inv_stay G st i f bufs' V'); try done; [|by eapply vc_inv_append; try done; rewrite Est].
    unfold place_at, place_of. fold V. by rewrite (ap_state _ _ _ _ _ HA), Est.
  - apply returns_ok. split; [|by exists Nowhere, bufs'].
    apply (Inv_stay G st i f bufs' V'); try done; [|by eapply vc_inv_append; try done; rewrite Est].
    unfold place_at, place_of. fold V. by rewrite (ap_state _ _ _ _ _ HA), Est.
  - apply returns_ok. by apply (queue_active now G st i f bufs' V' e e').
Qed.

(** ** Credits arrive *)

(** What is owned stays owned. *)
Definition keeps_owners (nbs nbs' : list BufferState) : Prop := ∀ o w, vout E o w →
  is_open (core (nbs⟦o⟧)) w = true → is_open (core (nbs'⟦o⟧)) w = true ∧ (in_use_by (core (nbs'⟦o⟧)))⟦w⟧ = (in_use_by (core (nbs⟦o⟧)))⟦w⟧.

Lemma vc_inv_nexts T received nbs nbs' h i v V :
  keeps_owners nbs nbs' → vc_inv E T received nbs h i v V → vc_inv E T received nbs' h i v V.
Proof.
  intros Hk [I1 I2 I3 I4]. split; try done. intros Hst. destruct (I3 Hst) as [O1 O2].
  pose proof (vk_state _ _ _ _ _ I1) as K. unfold vc_state_ok in K. rewrite Hst in K. destruct K as [Hv _].
  destruct (Hk _ _ Hv O1) as [? Hu]. split; [done|]. by rewrite Hu.
Qed.

(** The environment returns a credit only for a flit it has received. *)
Definition credits_due G : Prop := ∀ o w, vout E o w → ncredits w (g_credited G o) ≤ nflits w (to_port o (g_moves G)).

Lemma ncredits_cons w c cs : ncredits w (c :: cs) = cnt w (c_vc c) + ncredits w cs.
Proof. done. Qed.

Lemma process_credit_nexts T credited t c o P nbs bs' :
  nexts E T credited ((t, (c, o)) :: P) nbs → inv bs' → vcs (core bs') = q_vcs C → size (core bs') = su_nsize E →
  (∀ w, 0 ≤ w < q_vcs C → occ (core bs') w = occ (core (nbs⟦o⟧)) w - cnt w (c_vc c)) →
  nexts E T credited P (nbs⟦o := bs'⟧).
Proof.
  intros [N1 N2 N3 [[Ho _] N4]%Forall_cons] Hi Hv Hs Hocc. simpl in Ho. split; [lens| | |done].
  - intros o' Ho'. rewrite znth_zupd by lia. case_decide; [by subst|]. by apply N2.
  - intros o' w [Ho' Hw]. specialize (N3 o' w (conj Ho' Hw)). unfold pending in N3. rewrite filter_cons in N3. simpl in N3.
    rewrite znth_zupd by lia. unfold pending. repeat case_decide; subst; try done.
    rewrite Hocc by done. cbn [fmap list_fmap] in N3. rewrite ncredits_cons in N3. simpl in N3. lia.
Qed.

Lemma process_credits_ok now G items : ∀ st,
  Inv E None G (set_proc_credits items st) → credits_due G →
  returns (process_credits C now items st) (λ st', Inv E None G st' ∧ ∃ P nbs, st' = set_proc_credits P (set_next_buf nbs st)).
Proof.
  induction items as [|[t [c o]] items IH]; intros st HI Hdue; simpl.
  { apply returns_ok. split; [done|]. eexists _, (iq_next_buf st). by destruct st. }
  destruct (now <? t). { apply returns_ok. split; [done|]. eexists _, (iq_next_buf st). by destruct st. }
  pose proof (in_nexts _ _ _ _ HI) as HN. pose proof HN as [N1 N2 N3 N4]. cbn [iq_next_buf iq_proc_credits set_proc_credits] in *.
  apply Forall_cons in N4 as [[Ho Hc] N4]. simpl in Ho, Hc. destruct (N2 o Ho) as (Hinv & Hvcs & Hsz).
  rewrite (valid_output_true E) by done. cbn [cassert mbind res_bind]. apply returns_vget; [lia|].
  eapply returns_bind; [apply ProcessCredit_safe; [done|by rewrite Hvcs|]|].
  { rewrite Hvcs. intros w Hw. specialize (N3 o w (conj Ho Hw)). specialize (Hdue o w (conj Ho Hw)).
    unfold pending in N3. rewrite filter_cons_True in N3 by done. cbn [fmap list_fmap] in N3. rewrite ncredits_cons in N3. simpl in N3.
    pose proof (ncredits_nonneg w ((λ x : Z * (Credit * Z), x.2.1) <$> filter (λ x, x.2.2 = o) items)). lia. }
  rewrite Hvcs, Hsz. intros bs' (Hi' & Hv' & Hs' & Hocc & Hown). unfold put_next_buf. rewrite vset_ok by lia. cbn [mbind res_bind].
  eapply returns_mono; [apply IH; [|done]|].
  - destruct HI as [H1 H2 H3 H4 H5 H6 H7 H8]. split; try done; cbn [iq_buf iq_next_buf set_next_buf set_proc_credits iq_switch_hold iq_proc_credits] in *.
    + intros i v Hi Hne. eapply vc_inv_nexts; [|by apply H2]. intros o' w [Ho' Hw] Hop. rewrite znth_zupd by lia.
      case_decide; [subst o'|done]. destruct (Hown w Hw) as [-> Hu]. split; [done|by apply Hu].
    + by apply (process_credit_nexts _ _ t c o).
  - intros st' (HI' & P & nbs & ->). split; [done|]. by eexists _, _.
Qed.

(** ** Input queuing *)

Lemma Forall_snoc {X : Type} (P : X → Prop) l x : Forall P l → P x → Forall P (l ++ [x]).
Proof. intros. by apply Forall_app_2, Forall_singleton. Qed.

Lemma staged_snoc {X : Type} now (l : list (Z * X)) x : staged now l → staged now (l ++ [(-1, x)]).
Proof. intros (t & l1 & l2 & -> & Ht & H1 & H2). exists t, l1, (l2 ++ [(-1, x)]). rewrite app_assoc. split_and!; try done. by apply Forall_snoc. Qed.

Lemma rest_push now X i v st : rest now st → rest now (push X i v st).
Proof. intros [R1 R2 R3 R4 R5 R6]. destruct X; split; try done; simpl; first [by apply Forall_snoc|by apply staged_snoc]. Qed.

Lemma rest_buf now bufs st : rest now st → rest now (set_buf bufs st).
Proof. intros []. by split. Qed.

Definition arrived (Q : list (Z * Flit)) G : Ghost := foldl (λ G x, receive x.1 x.2 G) G Q.

Lemma arrived_snoc Q x G : arrived (Q ++ [x]) G = receive x.1 x.2 (arrived Q G).
Proof. unfold arrived. by rewrite foldl_snoc. Qed.

Lemma arrived_other Q G i : i ∉ Q.*1 → g_received (arrived Q G) i = g_received G i ∧ g_credits (arrived Q G) i = g_credits G i.
Proof.
  induction Q as [|x Q IH] using rev_ind; [done|]. rewrite fmap_app, not_elem_of_app. intros [Hi Hx].
  rewrite arrived_snoc. simpl. destruct (IH Hi) as [<- <-]. unfold fadd. rewrite decide_False; [done|]. intros ->. by apply Hx; left.
Qed.

Lemma arrived_rest Q G : g_moves (arrived Q G) = g_moves G ∧ g_credited (arrived Q G) = g_credited G.
Proof. induction Q as [|x Q IH] using rev_ind; [done|]. by rewrite arrived_snoc. Qed.

Lemma arrival_later Q G i f : i ∉ Q.*1 → arrival G i f → arrival (arrived Q G) i f.
Proof. intros Hi [A1 A2 A3 A4 A5 A6]. destruct (arrived_other Q G i Hi) as [E1 E2]. split; try done; by rewrite E1, ?E2. Qed.

Lemma InputQueuing_ok sinks now G st :
  Inv E None G st → 0 ≤ now ≤ int_max → rest now st →
  Forall (λ x, arrival G x.1 x.2) (iq_in_queue_flits st) → NoDup (iq_in_queue_flits st).*1 → credits_due G →
  returns (InputQueuing C (su_rf E) sinks now st) (λ st',
    Inv E None (arrived (iq_in_queue_flits st) G) st' ∧ rest now st' ∧ iq_in_queue_flits st' = [] ∧
    iq_partial_internal_cycles st' = iq_partial_internal_cycles st).
Proof.
  intros HI Hnow Hre Har Hnd Hdue. unfold InputQueuing. set (Q := iq_in_queue_flits st) in *.
  eapply returns_bind.
  - apply (returns_foldl (λ l s, ∃ d, Q = d ++ l ∧ Inv E None (arrived d G) s ∧ rest now s ∧ iq_partial_internal_cycles s = iq_partial_internal_cycles st)).
    { by exists []. }
    intros [i f] l s (d & EQ & HI' & Hre' & Hpa). simpl. rewrite EQ in Har, Hnd.
    apply Forall_app in Har as [_ [Har _]%Forall_cons]. rewrite fmap_app in Hnd. apply NoDup_app in Hnd as (_ & Hnd & _).
    assert (i ∉ d.*1) as Hi by (intros Hd; apply (Hnd _ Hd); by left).
    eapply returns_mono; [apply (queue_flit_ok sinks now (arrived d G)); [done|done|by apply arrival_later]|].
    intros s' (HI2 & X & bufs' & ->). exists (d ++ [(i, f)]). rewrite arrived_snoc, <- app_assoc. split_and!; try done; [by apply rest_push, rest_buf|by destruct X].
  - intros s (d & EQ & HI' & Hre' & Hpa). rewrite app_nil_r in EQ. subst d.
    eapply returns_mono; [apply (process_credits_ok now (arrived Q G))|].
    + destruct HI'. by split.
    + unfold credits_due. by destruct (arrived_rest Q G) as [-> ->].
    + intros st' (HI2 & P & nbs & ->). split_and!; try done. destruct Hre'. by split.
Qed.
End stages.
