(* ===== verification/RouterRoute.v ===== *)
(** * The input-queued router: the routing stage

    The state in the middle of a step ([busy]), and that routing keeps the
    invariant. *)

From S2P Require Import Prelude StdMap OutputSet Flit VCBuffer BufferState BufferStateInv Credits Link Arbiter Allocator AllocLaws Rng Route SwitchAlloc IQRouter IQSwitch Wormhole RouterInv RouterQueues RouterStages.
Import CoreOps Credits Link IQRouterOps IQSwitchOps.

(** ** In the middle of a step *)

(** Items with an outcome of this cycle, then new ones. *)
Definition phased (now : Z) (l : list (Z * (Z * Z * Z))) : Prop :=
  ∃ l1 l2, l = l1 ++ l2 ∧ Forall (λ x, x.1 = now ∧ x.2.2 ≠ -1) l1 ∧ Forall fresh l2.

(** The outcomes that are grants. *)
Definition granted (x : Z * (Z * Z * Z)) : Prop := 0 ≤ x.2.2.
#[export] Instance granted_dec x : Decision (granted x).
Proof. unfold granted. apply _. Defined.
Definition grants (l : list (Z * (Z * Z * Z))) : list Z := (λ x, x.2.2) <$> filter granted l.

Section busy.
Context {VA SA PA : Type} (E : Setup VA SA PA).
Local Abbreviation C := (su_C E).
Local Abbreviation IQ := (IQRouter VA SA PA).
Implicit Types (st : IQ) (G : Ghost).

(** A grant of an output VC, of a held connection and of the switch. *)
Definition vgrant (bufs : list Buffer) (nbs : list BufferState) (x : Z * (Z * Z * Z)) : Prop :=
  let '(i, v, r) := x.2 in let o := r `quot` q_vcs C in let w := r `rem` q_vcs C in
  ∃ rs, v_route_set (vcat bufs i v) = Some rs ∧ vout E o w ∧ offers rs o w ∧ (in_use_by (core (nbs⟦o⟧)))⟦w⟧ < 0.
Definition hgrant (bufs : list Buffer) (nbs : list BufferState) (x : Z * (Z * Z * Z)) : Prop :=
  let '(i, v, r) := x.2 in let V := vcat bufs i v in r = v_out_port V ∧ has_slot (nbs⟦r⟧) (v_out_vc V).
Definition sgrant (bufs : list Buffer) (nbs : list BufferState) (h : Hold) (x : Z * (Z * Z * Z)) : Prop :=
  let '(i, v, r) := x.2 in hgrant bufs nbs x ∧
  (h_vc h)⟦expanded_input C i v⟧ < 0 ∧ (h_in h)⟦expanded_input C i v⟧ < 0 ∧ (h_out h)⟦r⟧ < 0.

Definition expanded (x : Z * (Z * Z * Z)) : Z := expanded_input C x.2.1.1 x.2.1.2.

Record busy (now : Z) st : Prop := {
  bu_route : staged now (iq_route_vcs st);
  bu_vc : phased now (iq_vc_alloc_vcs st);
  bu_hold : phased now (iq_sw_hold_vcs st);
  bu_sw : phased now (iq_sw_alloc_vcs st);
  bu_crossbar : staged now (iq_crossbar_flits st);
  bu_vgrants : Forall (λ x, granted x → vgrant (iq_buf st) (iq_next_buf st) x) (iq_vc_alloc_vcs st);
  bu_hgrants : Forall (λ x, granted x → hgrant (iq_buf st) (iq_next_buf st) x) (iq_sw_hold_vcs st);
  bu_sgrants : Forall (λ x, granted x → sgrant (iq_buf st) (iq_next_buf st) (iq_switch_hold st) x) (iq_sw_alloc_vcs st);
  bu_stalls : Forall (λ x, granted x ∨ x.2.2 = -1 ∨ x.2.2 = STALL_BUFFER_FULL ∨ x.2.2 = STALL_BUFFER_RESERVED) (iq_sw_hold_vcs st);
  bu_distinct_vcs : NoDup (grants (iq_vc_alloc_vcs st));
  bu_distinct_outputs : NoDup (grants (iq_sw_hold_vcs st) ++ grants (iq_sw_alloc_vcs st));
  bu_distinct_inputs : NoDup (expanded <$> filter granted (iq_sw_alloc_vcs st));
  bu_uncredited : Forall (λ x, 0 ≤ x.1 → x.2.1.2 ∉ queued x.2.1.1 (iq_out_queue_credits st)) (iq_sw_hold_vcs st ++ iq_sw_alloc_vcs st)
}.

Lemma fresh_granted l : Forall fresh l → filter granted l = [].
Proof. intros Hl. apply filter_none. eapply Forall_impl; [exact Hl|]. intros [t [[i v] r]] [_ Hr]. unfold granted. simpl in *. lia. Qed.

Lemma fresh_vacuous (P : Z * (Z * Z * Z) → Prop) l : Forall fresh l → Forall (λ x, granted x → P x) l.
Proof. intros Hl. eapply Forall_impl; [exact Hl|]. intros x [_ Hr] Hg. unfold granted in Hg. lia. Qed.

Lemma fresh_untimed (P : Z * (Z * Z * Z) → Prop) l : Forall fresh l → Forall (λ x, 0 ≤ x.1 → P x) l.
Proof. intros Hl. eapply Forall_impl; [exact Hl|]. intros x [Ht _] H0. lia. Qed.

Lemma fresh_phased now l : Forall fresh l → phased now l.
Proof. intros. by exists [], l. Qed.

Lemma rest_busy now st : rest now st → busy now st.
Proof.
  intros [R1 R2 R3 R4 R5 R6]. split; try done; try by apply fresh_phased.
  1, 2, 3: by apply fresh_vacuous.
  - eapply Forall_impl; [exact R3|]. intros x [_ ?]. auto.
  - unfold grants. rewrite fresh_granted by done. constructor.
  - unfold grants. rewrite !fresh_granted by done. constructor.
  - rewrite fresh_granted by done. constructor.
  - apply Forall_app_2; by apply fresh_untimed.
Qed.

(** What is said of an item depends on its own VC only. *)
Definition same_vcs (bufs bufs' : list Buffer) (l : list (Z * (Z * Z * Z))) : Prop :=
  Forall (λ x, vcat bufs' x.2.1.1 x.2.1.2 = vcat bufs x.2.1.1 x.2.1.2) l.

Lemma same_vcs_changed bufs bufs' i v V' p X l :
  changed E bufs bufs' i v V' → members E p X (key <$> l) → p i v ≠ X → same_vcs bufs bufs' l.
Proof.
  intros Hc [_ Hm] Hp. apply Forall_forall. intros [t [[j u] r]] Hx. simpl.
  destruct (proj1 (Hm j u)) as [Hj Hpj]. { apply list_elem_of_fmap. by exists (t, (j, u, r)). }
  apply (changed_same E _ _ _ _ _ _ _ Hc Hj). intros [= -> ->]. done.
Qed.

Lemma same_vcs_app bufs bufs' l l' : same_vcs bufs bufs' (l ++ l') → same_vcs bufs bufs' l.
Proof. intros H. by apply Forall_app in H as [H _]. Qed.

Lemma Forall_implies {X : Type} (P Q R : X → Prop) l : Forall P l → Forall Q l → (∀ x, P x → Q x → R x) → Forall R l.
Proof. intros HP HQ HR. induction HP; [constructor|]. apply Forall_cons in HQ as [? ?]. constructor; auto. Qed.

(** Changing a VC that is in none of these queues. *)
Lemma busy_buf now st bufs' :
  busy now st → same_vcs (iq_buf st) bufs' (iq_vc_alloc_vcs st) → same_vcs (iq_buf st) bufs' (iq_sw_hold_vcs st) →
  same_vcs (iq_buf st) bufs' (iq_sw_alloc_vcs st) → busy now (set_buf bufs' st).
Proof.
  intros [B1 B2 B3 B4 B5 B6 B7 B8 B9 B10 B11 B12 B13] S1 S2 S3. split; try done; cbn [iq_buf set_buf iq_next_buf iq_switch_hold].
  - eapply Forall_implies; [exact B6|exact S1|]. intros [t [[i v] r]] Hg Hs. unfold vgrant. simpl in *. by rewrite Hs.
  - eapply Forall_implies; [exact B7|exact S2|]. intros [t [[i v] r]] Hg Hs. unfold hgrant. simpl in *. by rewrite Hs.
  - eapply Forall_implies; [exact B8|exact S3|]. intros [t [[i v] r]] Hg Hs. unfold sgrant, hgrant in *. simpl in *. by rewrite Hs.
Qed.

Lemma grants_snoc l k : ¬ granted k → grants (l ++ [k]) = grants l ∧ filter granted (l ++ [k]) = filter granted l.
Proof. intros Hk. unfold grants. by rewrite filter_snoc, decide_False. Qed.

Lemma phased_snoc now l i v : phased now l → phased now (l ++ [(-1, (i, v, -1))]).
Proof.
  intros (l1 & l2 & -> & H1 & H2). exists l1, (l2 ++ [(-1, (i, v, -1))]). rewrite app_assoc. split_and!; try done.
  by apply Forall_snoc.
Qed.

Lemma busy_push now st X i v : busy now st → busy now (push X i v st).
Proof.
  intros [B1 B2 B3 B4 B5 B6 B7 B8 B9 B10 B11 B12 B13].
  assert (¬ granted (-1, (i, v, -1))) as Hng by (unfold granted; simpl; lia).
  assert (∀ P l, Forall (λ x, granted x → P x) l → Forall (λ x, granted x → P x) (l ++ [(-1, (i, v, -1))])) as Hf.
  { intros P l Hl. apply Forall_snoc; [done|]. by intros ?%Hng. }
  apply Forall_app in B13 as [B13 B13'].
  destruct X; split; try done; simpl; try (by apply staged_snoc); try (by apply phased_snoc); try (by apply Hf).
  all: rewrite ?(proj1 (grants_snoc _ _ Hng)), ?(proj2 (grants_snoc _ _ Hng)); try done.
  all: try (by apply Forall_app_2); try (apply Forall_app_2; try done; apply Forall_snoc; [done|simpl; lia]).
  apply Forall_snoc; [done|]. auto.
Qed.

Lemma busy_rng now st g : busy now st → busy now (set_rng g st).
Proof. intros []. by split. Qed.

(** ** Routing *)

Lemma rerouted_ok f f' v : rerouted f f' → f_vc f = v → flit_ok f → f_vc f' = v ∧ flit_ok f'.
Proof.
  intros (Hs & Hv & Hh) Hf [Hp Hhops]. destruct (strip_packet _ _ Hs) as (_ & _ & Hpid). unfold flit_ok. rewrite Hv, Hh, Hpid. done.
Qed.

(** The VC after routing: its front flit may carry data of the routing function. *)
Lemma routed_vc_ok T i v V f q f' rs :
  vc_ok E T i v V → v_state V = routing → v_buffer V = f :: q → rerouted f f' → routes_ok C rs →
  (∀ o w, offers rs o w → leaves E o (leaving w f')) →
  vc_ok E T i v (VCOps.SetState vc_alloc (VCOps.SetRouteSet (Some rs) (VCOps.with_buffer (f' :: q) V))).
Proof.
  intros [K1 K2 K3 K4 K5] Hst Hq Hr Hro Hle. unfold vc_state_ok, unrouted in K2, K5. rewrite Hst in K2, K5. destruct K5 as (_ & _ & Km).
  rewrite Hq in K1, K2. apply Forall_cons in K1 as [[Hv Hf] K1]. apply Forall_cons in K2 as [_ K2].
  split; try done; simpl.
  - constructor; [by apply (rerouted_ok f)|done].
  - destruct K4 as (e & E1 & E2 & E3). exists e. split_and!; try done. simpl. rewrite Hq in E1. rewrite <- E1.
    apply (stream_strip _ (f' :: q) (f :: q)). rewrite !fmap_cons. by rewrite (proj1 Hr).
  - split; [done|]. simpl. by exists f', q, rs.
Qed.

Lemma vc_ok_front T i v V f q : vc_ok E T i v V → v_buffer V = f :: q → mid i v T = None → f_head f = true.
Proof.
  intros HV Hq Hm. destruct (vk_stream _ _ _ _ _ HV) as (e & He & _). rewrite Hq in He. unfold open_pid in He. rewrite Hm in He.
  simpl in He. by destruct (f_head f).
Qed.

(** The VC of an item that waits for its route. *)
Lemma waiting_route G st i v :
  Inv E None G st → vin E i v → place_at E (iq_buf st) (iq_switch_hold st) i v = InRoute →
  let V := vcat (iq_buf st) i v in
  q_routing_delay C ≠ 0 ∧ v_state V = routing ∧ is_Some (v_route_set V) ∧
  ∃ f q, v_buffer V = f :: q ∧ f_vc f = v ∧ f_head f = true ∧ accepts E f.
Proof.
  intros HI Hin Hp V. pose proof (vi_ok _ _ _ _ _ _ _ _ (in_vc _ _ _ _ HI i v Hin ltac:(done))) as Hok. pose proof Hok as [K1 K2 K3 K4 K5].
  pose proof (place_state V (held E (iq_switch_hold st) i v)) as Hst. unfold place_at in Hp. fold V in Hp.
  rewrite Hp in Hst. fold V in K1, K2, K3, K5. unfold vc_state_ok, unrouted in K2, K5. rewrite Hst in K2, K5. destruct K5 as (Hrd & Hne & Hm).
  split_and!; [done..|by apply K3|]. destruct (v_buffer V) as [|f q] eqn:Hq; [done|].
  pose proof (vc_ok_front _ _ _ _ _ _ Hok Hq Hm) as Hh. apply Forall_cons in K1 as [[Hv _] _]. apply Forall_cons in K2 as [Ha _].
  exists f, q. split_and!; try done. by apply Ha.
Qed.

Lemma Inv_rng ex G st g : Inv E ex G st → RngInv.rng_ok g → Inv E ex G (set_rng g st).
Proof. intros [H1 H2 H3 H4 H5 H6 H7 H8] Hg. split; try done. simpl in *. destruct H8. by split. Qed.

Lemma route_done_ok G st t i v l :
  Inv E None G st → iq_route_vcs st = (t, (i, v)) :: l →
  returns (route_done C (su_rf E) (su_faults E) (i, v) st) (λ st', ∃ bufs' V' g,
    st' = push InVC i v (set_buf bufs' (set_rng g st)) ∧ changed E (iq_buf st) bufs' i v V' ∧ RngInv.rng_ok g ∧ Inv E None G (set_route_vcs l st')).
Proof.
  intros HI Hl. destruct (Inv_take_route E _ _ _ _ _ _ HI Hl) as (HI' & Hin & Hp).
  pose proof (in_shape _ _ _ _ HI) as Hs. destruct (vget_buf E _ _ _ Hs Hin) as (_ & Hvl & _).
  destruct (waiting_route _ _ _ _ HI Hin Hp) as (Hrd & Hst & [rs Hrs] & f & q & Hq & Hv & Hh & Ha).
  pose proof (in_vc _ _ _ _ HI i v Hin ltac:(done)) as HV.
  unfold route_done. rewrite (front_ok E (iq_buf st) _ _ st i v f q) by (done || by rewrite ?Hst, ?Hh). cbn [mbind res_bind].
  unfold Route. rewrite Hrs.
  destruct (su_route _ _ _ E Hrd ((λ bs, occupancy (core bs)) <$> iq_next_buf st) f i rs (iq_rng st))
    as ([[rs' f'] g] & Erf & Hg & Hrr & Hro & Hle); [|apply Hin|done|done|apply (in_allocs _ _ _ _ HI)|].
  { rewrite zlen_fmap. apply (in_nexts _ _ _ _ HI). }
  unfold view. rewrite Erf. cbn [mbind res_bind]. rewrite Hq. simpl.
  set (V' := VCOps.SetState vc_alloc (VCOps.SetRouteSet (Some rs') (VCOps.with_buffer (f' :: q) (vcat (iq_buf st) i v)))).
  eapply returns_bind; [apply (update_vc_ok (λ _, V')); [done|]|].
  { change ((b_vc ((iq_buf st)⟦i⟧))⟦v⟧) with (vcat (iq_buf st) i v). unfold VCOps.GetOccupancy. by rewrite Hq. }
  intros b Hb. eapply returns_bind; [by apply (put_buf_ok E (iq_buf st) i v _ _ (set_rng g st) Hs Hin eq_refl Hb)|]. intros st1 (bufs' & -> & Hc).
  rewrite (sp_speculative _ (su_ok E)). destruct (al_vc _ _ _ _ _ _ (in_allocs _ _ _ _ HI)) as (va & Hva & Hop).
  simpl. rewrite Hva. apply returns_ok. exists bufs', V', g. split_and!; [done..|].
  pose proof (Inv_rng _ _ _ _ HI' Hg) as HI2.
  apply (Inv_join E G (set_rng g (set_route_vcs l st)) i v bufs' V' HI2 Hin Hc).
  split; [apply (routed_vc_ok _ _ _ _ f); try done; apply HV| |done|].
  - rewrite <- (vi_received _ _ _ _ _ _ _ _ HV), !fmap_app, Hq. simpl. by rewrite (proj1 Hrr).
  - simpl. rewrite (held_false E _ _ _ _ _ _ _ HV); [done|]. left. by rewrite Hst.
Qed.

Lemma Inv_route_items G st items :
  Inv E None G st → snd <$> items = snd <$> iq_route_vcs st → Inv E None G (set_route_vcs items st).
Proof.
  intros [H1 H2 H3 [Q1 Q2 Q3 Q4] H5 H6 H7 H8] Hi. split; try done. split; try done. simpl. by rewrite Hi.
Qed.

Lemma staged_tail {X : Type} now (l : list (Z * X)) : staged now l → staged now (tail l).
Proof.
  intros (t & l1 & l2 & -> & Ht & H1 & H2). destruct l1 as [|x l1]; simpl.
  - exists t, [], (tail l2). split_and!; try done. by destruct H2.
  - apply Forall_cons in H1 as [_ H1]. by exists t, l1, l2.
Qed.

(** The head of a staged queue is done now, or later, or new. *)
Lemma staged_head {X : Type} now (l : list (Z * X)) t x k : staged now l → l = (t, x) :: k → 0 ≤ t → now ≤ t.
Proof.
  intros (t' & l1 & l2 & -> & Ht & H1 & H2) Hl Hp. destruct l1 as [|y l1]; simpl in Hl.
  - subst. apply Forall_cons in H2 as [H2 _]. simpl in H2. lia.
  - injection Hl as -> _. apply Forall_cons in H1 as [H1 _]. simpl in H1. lia.
Qed.

(** A stage that has taken out what is done leaves later items. *)
Lemma staged_later {X : Type} now (l : list (Z * X)) : 0 ≤ now → staged now l →
  match l with [] => True | y :: _ => y.1 < 0 ∨ true = true ∧ now < y.1 end → staged (now + 1) l.
Proof.
  intros Hnow (t & l1 & l2 & -> & Ht & H1 & H2) Hh. destruct l1 as [|y l1]; simpl in *.
  - exists (now + 1), [], l2. split_and!; done || lia.
  - pose proof H1 as [Hy _]%Forall_cons. exists t, (y :: l1), l2. split_and!; try done. destruct Hh as [|[_ ?]]; lia.
Qed.

Lemma RouteEvaluate_ok now G st :
  0 ≤ now → Inv E None G st → busy now st → iq_route_vcs st ≠ [] →
  returns (RouteEvaluate C now st) (λ st', Inv E None G st' ∧ busy now st' ∧ ∃ items, st' = set_route_vcs items st).
Proof.
  intros Hnow HI HB Hne. unfold RouteEvaluate. set (R := iq_route_vcs st) in *.
  pose proof (qu_route _ _ _ _ _ _ (in_queues _ _ _ _ HI)) as [_ Hm]. fold R in Hm.
  assert (∀ x, x ∈ R → vin E x.2.1 x.2.2 ∧ place_at E (iq_buf st) (iq_switch_hold st) x.2.1 x.2.2 = InRoute) as Hw.
  { intros [t [i v]] Hx. apply (Hm i v). apply list_elem_of_fmap. by exists (t, (i, v)). }
  assert (q_routing_delay C ≠ 0) as Hrd.
  { destruct R as [|x R']; [done|]. destruct (Hw x) as [Hx Hp]; [by left|]. apply (waiting_route _ _ _ _ HI Hx Hp). }
  pose proof (sp_routing _ (su_ok E)). rewrite (proj2 (Z.eqb_neq _ _) Hrd). cbn [negb cassert mbind res_bind].
  eapply returns_bind with (P := λ r, snd <$> r.1 = snd <$> R ∧ staged now r.1).
  - pose proof (bu_route _ _ HB) as HS. pose proof HS as (t & l1 & l2 & ER & Ht & H1 & H2). fold R in ER, HS. destruct l1 as [|[t' x] l1].
    + assert (Forall (λ x, x.1 < 0) R) as Hneg by (rewrite ER; eapply Forall_impl; [exact H2|]; simpl; lia).
      eapply returns_mono; [apply (returns_each_new (λ d l (_ : unit), (snd <$> d) ++ (snd <$> l) = snd <$> R ∧
        Forall (λ x, x.1 = now + q_routing_delay C - 1) d ∧ l ⊆ R) _ R [] tt Hneg); [done|]|].
      * intros d x l [] _ (Ek & Hd & Hl). destruct (Hw x) as [Hx Hp]; [apply Hl; by left|].
        destruct (waiting_route _ _ _ _ HI Hx Hp) as (_ & Hst & _ & f & q & Hq & Hv & Hh & _).
        rewrite (front_ok E (iq_buf st) _ _ st _ _ f q) by (done || apply HI || by rewrite ?Hst, ?Hh).
        apply returns_ok. split_and!; simpl; [by rewrite fmap_app, <- app_assoc|by apply Forall_snoc|]. intros y Hy. apply Hl. by right.
      * intros [items []] (Ek & Hd & _). simpl in *. rewrite app_nil_r in Ek. split; [done|].
        exists (now + q_routing_delay C - 1), items, []. rewrite app_nil_r. split_and!; done || lia.
    + apply Forall_cons in H1 as [H1 _]. simpl in H1. rewrite ER. cbn [app]. rewrite each_new_timed by lia. apply returns_ok. cbn [fst]. change ((t', x) :: l1 ++ l2) with (((t', x) :: l1) ++ l2). by rewrite <- ER.
  - intros [items []] [Ek HS]. apply returns_ok. simpl in *. split_and!; [by apply Inv_route_items| |by eexists]. destruct HB. by split.
Qed.

(** What the first [k] update stages have left. *)
Record past (k : nat) (now : Z) st : Prop := {
  pa_route : (1 ≤ k)%nat → staged (now + 1) (iq_route_vcs st);
  pa_vc : (2 ≤ k)%nat → Forall fresh (iq_vc_alloc_vcs st);
  pa_hold : (3 ≤ k)%nat → Forall fresh (iq_sw_hold_vcs st);
  pa_sw : (4 ≤ k)%nat → Forall fresh (iq_sw_alloc_vcs st);
  pa_crossbar : (5 ≤ k)%nat → staged (now + 1) (iq_crossbar_flits st)
}.

(** What the updates do not change. *)
Definition io st : list (Z * Flit) * list (Z * (Credit * Z)) * Z := (iq_in_queue_flits st, iq_proc_credits st, iq_partial_internal_cycles st).

(** A flit has crossed in this step. *)
Definition awake st : Prop := Exists (λ x, x.1 = -1) (iq_crossbar_flits st).

(** Nothing is left for the first [k] updates to do. *)
Record emptied (k : nat) st : Prop := {
  em_credits : iq_proc_credits st = [];
  em_route : (1 ≤ k)%nat → iq_route_vcs st = [];
  em_vc : (2 ≤ k)%nat → iq_vc_alloc_vcs st = [];
  em_hold : (3 ≤ k)%nat → iq_sw_hold_vcs st = [];
  em_sw : (4 ≤ k)%nat → iq_sw_alloc_vcs st = [];
  em_crossbar : (5 ≤ k)%nat → iq_crossbar_flits st = []
}.

(** If there is, the router stays active. *)
Definition alert (k : nat) (activity : bool) st : Prop := activity = true ∨ awake st ∨ emptied k st.

Lemma alert_more k act act' st : alert k act st → (act = true → act' = true) → (emptied k st → act' = true ∨ emptied (S k) st) → alert (S k) act' st.
Proof. intros [?|[?|He]] Ha Hn; [left; auto|by right; left|]. destruct (Hn He); [by left|by right; right]. Qed.

Lemma alert_hold act st : alert 2 act st → alert 3 (act || nonempty (iq_sw_hold_vcs st)) st.
Proof.
  intros H. apply (alert_more 2 act); [done|by intros ->|]. intros [M1 M2 M3 _ _ _]. destruct (iq_sw_hold_vcs st) eqn:Eq; [|left; apply orb_true_r].
  right. split; try done; try lia; intros; [apply M2|apply M3]; lia.
Qed.

Lemma alert_sw act st : alert 3 act st → alert 4 (act || nonempty (iq_sw_alloc_vcs st)) st.
Proof.
  intros H. apply (alert_more 3 act); [done|by intros ->|]. intros [M1 M2 M3 M4 _ _]. destruct (iq_sw_alloc_vcs st) eqn:Eq; [|left; apply orb_true_r].
  right. split; try done; try lia; intros; [apply M2|apply M3|apply M4]; lia.
Qed.

Lemma past_push k now st X i v : past k now st → past k now (push X i v st).
Proof.
  intros [P1 P2 P3 P4 P5]. destruct X; split; try done; simpl; intros Hk; first [apply staged_snoc|apply Forall_snoc]; auto; done.
Qed.

Lemma past_0 now st : past 0 now st.
Proof. split; lia. Qed.

(** A VC that has been taken out of its queue is in no other. *)
Lemma busy_taken now G st bufs' i v V' :
  Inv E (Some (i, v)) G st → busy now st → changed E (iq_buf st) bufs' i v V' → busy now (set_buf bufs' st).
Proof.
  intros HI HB Hc. destruct (in_queues _ _ _ _ HI) as [Q1 Q2 Q3 Q4].
  apply busy_buf; [done|..]; (eapply same_vcs_changed; [exact Hc|eassumption|]); simpl; by rewrite decide_True.
Qed.

Lemma busy_pop_route now st : busy now st → busy now (set_route_vcs (tail (iq_route_vcs st)) st).
Proof. intros []. split; try done. by apply staged_tail. Qed.

Lemma RouteUpdate_ok now G st :
  0 ≤ now → Inv E None G st → busy now st → iq_route_vcs st ≠ [] →
  returns (RouteUpdate C (su_rf E) (su_faults E) now st) (λ st', Inv E None G st' ∧ busy now st' ∧ past 1 now st' ∧ io st' = io st ∧ iq_crossbar_flits st' = iq_crossbar_flits st).
Proof.
  intros Hnow HI HB Hne. unfold RouteUpdate.
  assert (q_routing_delay C ≠ 0) as Hrd.
  { destruct (iq_route_vcs st) as [|[t [i v]] R] eqn:ER; [done|]. destruct (Inv_take_route E _ _ _ _ _ _ HI ER) as (_ & Hx & Hp).
    apply (waiting_route _ _ _ _ HI Hx Hp). }
  rewrite (proj2 (Z.eqb_neq _ _) Hrd). cbn [negb cassert mbind res_bind].
  eapply returns_mono.
  - apply (returns_drain (λ s, Inv E None G s ∧ busy now s ∧ io s = io st ∧ iq_crossbar_flits s = iq_crossbar_flits st) true (length (iq_route_vcs st)) now).
    + apply n_timed_length.
    + done.
    + done.
    + intros s t [i v] l (HI' & HB' & Hio & Hx') El Ht Hle. pose proof (staged_head _ _ _ _ _ (bu_route _ _ HB') El Ht). specialize (Hle eq_refl).
      split; [lia|]. destruct (Inv_take_route E _ _ _ _ _ _ HI' El) as (HIt & Hx & Hp).
      eapply returns_mono; [by apply (route_done_ok G s t i v l)|]. intros s' (bufs' & V' & g & Es & Hc & Hg & HI2).
      assert (iq_route_vcs s' = (t, (i, v)) :: l) as Er by by rewrite Es.
      rewrite Er. split; [|exists []; by rewrite app_nil_r, El]. split; [done|]. rewrite Es. split; [|done].
      apply (busy_push now (set_buf bufs' (set_rng g (set_route_vcs l s))) InVC i v).
      apply (busy_taken now G (set_rng g (set_route_vcs l s)) bufs' i v V'); [|apply busy_rng|done].
      * by apply Inv_rng.
      * pose proof (busy_pop_route now s HB') as HP. by rewrite El in HP.
  - intros s [(HI' & HB' & Hio & Hx) Hh]. split_and!; try done. split; try lia. intros _. apply staged_later; [done|apply HB'|]. by destruct (iq_route_vcs s).
Qed.
End busy.
