(* ===== verification/RouterVCAlloc.v ===== *)
(** * The input-queued router: VC allocation

    That VC allocation grants every output VC to at most one packet, one that was
    offered it and when it is free, and keeps the invariant. *)

From S2P Require Import Prelude StdMap OutputSet Flit VCBuffer BufferState BufferStateInv Credits Link Arbiter Allocator AllocLaws Rng Route SwitchAlloc IQRouter IQSwitch Wormhole RouterInv RouterQueues RouterStages RouterRoute.
Import CoreOps Credits Link IQRouterOps IQSwitchOps.

Section vc_alloc.
Context {VA SA PA : Type} (E : Setup VA SA PA).
Local Abbreviation C := (su_C E).
Local Abbreviation IQ := (IQRouter VA SA PA).
Implicit Types (st : IQ) (G : Ghost).

Lemma input_and_vc_range i v : vin E i v → 0 ≤ input_and_vc C i v < q_vcs C * q_inputs C.
Proof. intros [Hi Hv]. unfold input_and_vc. destruct (q_vc_shuffle_requests C); nia. Qed.

Lemma input_and_vc_inj i v j u : vin E i v → vin E j u → input_and_vc C i v = input_and_vc C j u → i = j ∧ v = u.
Proof.
  intros Hi Hj. unfold input_and_vc. destruct (q_vc_shuffle_requests C); [|by apply tag_inj].
  destruct Hi as [Hi Hv], Hj as [Hj Hu]. intros Ht. assert (v = u) by nia. subst. lia.
Qed.

Lemma output_and_vc_parts o w : vout E o w →
  0 ≤ o * q_vcs C + w < q_vcs C * q_outputs C ∧ (o * q_vcs C + w) `quot` q_vcs C = o ∧ (o * q_vcs C + w) `rem` q_vcs C = w.
Proof.
  intros [Ho Hw]. split; [nia|]. rewrite quot_div, rem_mod by nia. rewrite Z.add_comm, Z.div_add, Z.mod_add by lia.
  by rewrite Z.div_small, Z.mod_small by lia.
Qed.

Lemma output_and_vc_inj o w o' w' : vout E o w → vout E o' w' → o * q_vcs C + w = o' * q_vcs C + w' → o = o' ∧ w = w'.
Proof. intros [Ho Hw] [Ho' Hw'] Ht. assert (o = o') by nia. subst. lia. Qed.

(** The VC of an item that waits for an output VC. *)
Lemma waiting_vc G st i v :
  Inv E None G st → vin E i v → place_at E (iq_buf st) (iq_switch_hold st) i v = InVC →
  let V := vcat (iq_buf st) i v in
  v_state V = vc_alloc ∧ mid i v (g_moves G) = None ∧ ∃ f q rs, v_buffer V = f :: q ∧ f_vc f = v ∧ f_head f = true ∧
    v_route_set V = Some rs ∧ routes_ok C rs ∧ ∀ o w, offers rs o w → leaves E o (leaving w f).
Proof.
  intros HI Hin Hp V. pose proof (vi_ok _ _ _ _ _ _ _ _ (in_vc _ _ _ _ HI i v Hin ltac:(done))) as Hok. pose proof Hok as [K1 K2 K3 K4 K5].
  pose proof (place_state V (held E (iq_switch_hold st) i v)) as Hst. unfold place_at in Hp. fold V in Hp.
  rewrite Hp in Hst. fold V in K1, K2, K3, K5. unfold vc_state_ok in K5. rewrite Hst in K5. destruct K5 as (Hm & f & q & rs & Hq & Hrs & Hro & Hle).
  split_and!; try done. exists f, q, rs. pose proof (vc_ok_front _ _ _ _ _ _ _ Hok Hq Hm) as Hh. rewrite Hq in K1.
  apply Forall_cons in K1 as [[Hv _] _]. done.
Qed.

Definition is_free (nbs : list BufferState) (o w : Z) : Prop := (in_use_by (core (nbs⟦o⟧)))⟦w⟧ < 0.

(** An output VC the packet of [i], [v] may be given. *)
Definition wanted (bufs : list Buffer) (nbs : list BufferState) (i v b : Z) : Prop :=
  ∃ rs o w, v_route_set (vcat bufs i v) = Some rs ∧ b = o * q_vcs C + w ∧ vout E o w ∧ offers rs o w ∧ is_free nbs o w.

Section request.
Context (now : Z) (G : Ghost) (st : IQ) (HI : Inv E None G st) (i v : Z) (Hin : vin E i v) (rs : OutputSet) (R0 : requests).
Local Abbreviation a := (input_and_vc C i v).
Context (HR0 : ∀ b, R0 a b = None).

(** The requests made so far, none of them for what is still to be looked at. *)
Definition requested (todo : Z → Z → Prop) (s : Found VA) : Prop := ∃ R,
  rl_opened (su_LV E) (fd_alloc s) R ∧ (∀ a' b, a' ≠ a → R a' b = R0 a' b) ∧
  ∀ b x, R a b = Some x → ∃ o w, b = o * q_vcs C + w ∧ vout E o w ∧ offers rs o w ∧ is_free (iq_next_buf st) o w ∧ ¬ todo o w.

Lemma requested_mono todo todo' s : requested todo s → (∀ o w, todo' o w → todo o w) → requested todo' s.
Proof.
  intros (R & H1 & H2 & H3) Ht. exists R. split_and!; try done. intros b x Hx. destruct (H3 b x Hx) as (o & w & ? & ? & ? & ? & Hn).
  exists o, w. split_and!; try done. intros Ht'. by apply Hn, Ht.
Qed.

Lemma request_vc_ok out_priority se out_vc s (todo todo' : Z → Z → Prop) :
  element_ok C se → vc_start se ≤ out_vc ≤ vc_end se → offers rs (output_port se) out_vc → requested todo s →
  todo (output_port se) out_vc → ¬ todo' (output_port se) out_vc → (∀ o w, todo' o w → todo o w) →
  returns (request_vc C (su_IV E) now i v out_priority se ((iq_next_buf st)⟦output_port se⟧) out_vc s) (requested todo').
Proof.
  intros (Ho & Hvs & Hve & Hpri) Hw Hof Hreq Htodo Htodo' Hsub. unfold request_vc.
  destruct (ne_inv _ _ _ _ _ (in_nexts _ _ _ _ HI) _ Ho) as (Hinv & Hvcs & _). set (bs := (iq_next_buf st)⟦output_port se⟧) in *.
  rewrite (valid_vc_ok E) by lia. cbn [cassert mbind res_bind].
  eapply returns_bind with (P := λ _, True).
  { unfold vc_priority. destruct (q_vc_prioritize_empty C); [|by apply returns_ok]. rewrite IsEmptyFor_ok by (done || lia).
    cbn [mbind res_bind]. destruct (_ =? 0); cbn [negb]; by rsteps. }
  intros in_pri _. rewrite IsAvailableFor_ok by (done || lia). cbn [mbind res_bind].
  destruct (Z.ltb_spec ((in_use_by (core bs))⟦out_vc⟧) 0) as [Hfree|]; cbn [negb]; [|apply returns_ok; by eapply requested_mono].
  eapply returns_bind with (P := λ _, True).
  { destruct (q_vc_busy_when_full C); [|by apply returns_ok]. eapply returns_mono; [apply IsFullFor_slot; done || lia|done]. }
  intros [] _.
  { eapply returns_bind; [by apply IsFull_ok|]. intros all _. apply returns_ok. by eapply (requested_mono todo todo' s). }
  destruct Hreq as (R & H1 & H2 & H3). assert (vout E (output_port se) out_vc) as Hvo by (split; lia).
  destruct (output_and_vc_parts _ _ Hvo) as (Hb & _).
  eapply returns_bind; [apply (rl_AddRequest _ _ _ (su_LV E) _ R); [done|by apply input_and_vc_range|done|done|]|].
  { destruct (R a _) as [x|] eqn:Ex; [|done]. destruct (H3 _ _ Ex) as (o & w & Eb & Hvo' & _ & _ & Hn).
    destruct (output_and_vc_inj _ _ _ _ Hvo Hvo' Eb) as [<- <-]. done. }
  intros a' Ha'. apply returns_ok. eexists. split; [exact Ha'|]. unfold add_request. split.
  - intros a2 b Hne. rewrite decide_False by tauto. by apply H2.
  - intros b x. case_decide as Eb.
    + intros _. destruct Eb as [_ ->]. by exists (output_port se), out_vc.
    + intros Hx. destruct (H3 b x Hx) as (o & w & ? & ? & ? & ? & Hn). exists o, w. split_and!; try done. intros Ht. by apply Hn, Hsub.
Qed.

Lemma request_set_ok out_priority (Hro : routes_ok C rs) s :
  requested (offers rs) s →
  returns (foldl (λ m se, s ← m;
        assert! valid_output C (output_port se);
        dest_buf ← vget (iq_next_buf st) (output_port se);
        '(vs, ve) ← vc_range C st i v se;
        zfor vs (ve + 1) (request_vc C (su_IV E) now i v out_priority se dest_buf) s) (Ok s) rs) (requested (λ _ _, False)).
Proof.
  intros Hs. destruct Hro as [Hel Hno]. eapply returns_mono.
  - apply (returns_foldl (λ l s, Forall (element_ok C) l ∧ no_overlap l ∧ (∀ o w, offers l o w → offers rs o w) ∧ requested (offers l) s));
      [done|]. intros se l s' ([He Hel']%Forall_cons & [Hov Hno'] & Hsub & Hreq). pose proof He as (Ho & Hvs & Hve & _).
    rewrite (valid_output_true E) by done. cbn [cassert mbind res_bind].
    apply returns_vget; [by rewrite (ne_len _ _ _ _ _ (in_nexts _ _ _ _ HI))|].
    unfold vc_range. rewrite (sp_noq _ (su_ok E)). cbn [mbind res_bind]. rewrite !(valid_vc_ok E) by lia. cbn [cassert mbind res_bind].
    rewrite (proj2 (Z.leb_le _ _)) by lia. cbn [cassert mbind res_bind].
    eapply returns_mono.
    + apply (returns_for (λ k s, requested (λ o w, o = output_port se ∧ k ≤ w ≤ vc_end se ∨ offers l o w) s)); [lia| |].
      * eapply requested_mono; [exact Hreq|]. intros o w [[-> ?]|Hof]; [by apply Exists_cons_hd|by apply Exists_cons_tl].
      * intros k s2 Hk Hr2. eapply (request_vc_ok out_priority se k s2); try done; [lia|..].
        -- apply Hsub, Exists_cons_hd. lia.
        -- left. lia.
        -- intros [?|Hof]; [lia|]. by apply (Hov k); [lia|].
        -- intros o w [?|?]; [left; lia|by right].
    + intros s2 Hr2. split_and!; try done.
      * intros o w Hof. apply Hsub. by apply Exists_cons_tl.
      * eapply requested_mono; [exact Hr2|]. intros o w Hof. by right.
  - intros s' (_ & _ & _ & Hreq). eapply requested_mono; [exact Hreq|]. done.
Qed.
End request.

Lemma request_vcs_ok now G st t i v va R0 :
  Inv E None G st → vin E i v → place_at E (iq_buf st) (iq_switch_hold st) i v = InVC →
  rl_opened (su_LV E) va R0 → (∀ b, R0 (input_and_vc C i v) b = None) →
  returns (request_vcs C (su_IV E) now st (t, (i, v, -1)) va) (λ r, ∃ r' R, r.1 = (t, (i, v, r')) ∧ r' ≤ -1 ∧
    rl_opened (su_LV E) r.2 R ∧ (∀ a' b, a' ≠ input_and_vc C i v → R a' b = R0 a' b) ∧
    ∀ b x, R (input_and_vc C i v) b = Some x → wanted (iq_buf st) (iq_next_buf st) i v b).
Proof.
  intros HI Hin Hp Hop HR0. destruct (waiting_vc _ _ _ _ HI Hin Hp) as (Hst & _ & f & q & rs & Hq & Hv & Hh & Hrs & Hro & _).
  unfold request_vcs. cbn [Z.eqb Pos.eqb cassert mbind res_bind].
  rewrite (front_ok E (iq_buf st) _ _ st i v f q) by (done || apply HI || by rewrite ?Hst, ?Hh). cbn [mbind res_bind].
  unfold route_set_of. rewrite Hrs, (sp_noq _ (su_ok E)). cbn [negb orb cassert mbind res_bind].
  eapply returns_bind; [apply (request_set_ok now G st HI i v Hin rs R0); [done|]|].
  { exists R0. split_and!; try done. intros b x. by rewrite HR0. }
  intros s (R & H1 & H2 & H3). apply returns_ok. eexists _, R. split_and!; try done.
  - unfold STALL_BUFFER_BUSY, STALL_BUFFER_RESERVED, STALL_BUFFER_FULL. repeat case_match; lia.
  - intros b x Hx. destruct (H3 b x Hx) as (o & w & ? & ? & ? & ? & _). by exists rs, o, w.
Qed.

Lemma NoDup_key_inj {A B : Type} (f : A → B) (l : list A) x y : NoDup (f <$> l) → x ∈ l → y ∈ l → f x = f y → x = y.
Proof.
  intros Hn Hx Hy Hf. apply list_elem_of_lookup in Hx as [j Hj], Hy as [k Hk].
  assert (j = k) as ->; [|congruence]. eapply NoDup_lookup; [exact Hn|rewrite list_lookup_fmap, Hj; done|rewrite list_lookup_fmap, Hk; simpl; by rewrite Hf].
Qed.

(** What tells the granted items of a queue apart is distinct. *)
Lemma NoDup_granted (g : Z * (Z * Z * Z) → Z) l :
  NoDup (key <$> l) → (∀ x y, x ∈ l → y ∈ l → granted x → granted y → g x = g y → key x = key y) → NoDup (g <$> filter granted l).
Proof.
  intros Hn Hg. apply NoDup_fmap_2_strong; [|by apply NoDup_filter, (NoDup_fmap_1 key)].
  intros x y [Gx Hx]%list_elem_of_filter [Gy Hy]%list_elem_of_filter Exy. apply (NoDup_key_inj key l); auto.
Qed.

Lemma vc_items G st x : Inv E None G st → x ∈ iq_vc_alloc_vcs st →
  vin E x.2.1.1 x.2.1.2 ∧ place_at E (iq_buf st) (iq_switch_hold st) x.2.1.1 x.2.1.2 = InVC.
Proof.
  intros HI Hx. destruct (qu_vc _ _ _ _ _ _ (in_queues _ _ _ _ HI)) as [_ Hm]. apply (Hm x.2.1.1 x.2.1.2).
  apply list_elem_of_fmap. exists x. split; [|done]. by destruct x as [t [[i v] r]].
Qed.

Lemma vc_requests_ok now G st va :
  Inv E None G st → Forall fresh (iq_vc_alloc_vcs st) → rl_opened (su_LV E) va no_requests →
  returns (each_new (request_vcs C (su_IV E) now st) (iq_vc_alloc_vcs st) va) (λ r,
    key <$> r.1 = key <$> iq_vc_alloc_vcs st ∧ Forall (λ x, x.1 = -1 ∧ x.2.2 ≤ -1) r.1 ∧
    ∃ R, rl_opened (su_LV E) r.2 R ∧
      ∀ a b x, R a b = Some x → ∃ i v, vin E i v ∧ a = input_and_vc C i v ∧ wanted (iq_buf st) (iq_next_buf st) i v b).
Proof.
  intros HI Hfr Hop. set (W := iq_vc_alloc_vcs st) in *.
  pose proof (qu_vc _ _ _ _ _ _ (in_queues _ _ _ _ HI)) as [Hnd _]. fold W in Hnd.
  eapply returns_mono.
  - apply (returns_each_new (λ d l va, (key <$> d) ++ (key <$> l) = key <$> W ∧ Forall (λ x, x.1 = -1 ∧ x.2.2 ≤ -1) d ∧ (∀ x, x ∈ l → x ∈ W) ∧
      ∃ R, rl_opened (su_LV E) va R ∧ ∀ a b x, R a b = Some x → ∃ i v, vin E i v ∧ (i, v) ∈ key <$> d ∧ a = input_and_vc C i v ∧
        wanted (iq_buf st) (iq_next_buf st) i v b) _ W [] va).
    + eapply Forall_impl; [exact Hfr|]. intros x [-> _]. lia.
    + split_and!; try done. exists no_requests. done.
    + intros d [t [[i v] r]] l va' _ (Ek & Hd & Hl & R & HR1 & HR2).
      pose proof (Hl _ (list_elem_of_here _ _)) as Hx. destruct (vc_items _ _ _ HI Hx) as [Hi Hp]. simpl in Hi, Hp.
      rewrite Forall_forall in Hfr. destruct (Hfr _ Hx) as [Et Er]. simpl in Et, Er. subst t r.
      rewrite <- Ek in Hnd. apply NoDup_app in Hnd as (_ & Hnd & _).
      eapply returns_mono; [apply (request_vcs_ok now G st (-1) i v va' R HI Hi Hp HR1)|].
      * intros b. destruct (R _ b) as [x|] eqn:Ex; [|done]. destruct (HR2 _ _ _ Ex) as (i' & v' & Hi' & Hin & Ea & _).
        destruct (input_and_vc_inj _ _ _ _ Hi Hi' Ea) as [<- <-]. destruct (Hnd _ Hin). by left.
      * intros [x' va2] (r' & R' & Ex' & Hr' & HR1' & HR2' & HR3'). simpl in *. subst x'. split_and!.
        -- by rewrite fmap_app, <- app_assoc.
        -- by apply Forall_snoc.
        -- intros y Hy. apply Hl. by right.
        -- exists R'. split; [done|]. intros a b x Hxx. destruct (decide (a = input_and_vc C i v)) as [->|Hne].
           ++ exists i, v. split_and!; try done; [|by eapply HR3']. rewrite fmap_app, elem_of_app. right. by left.
           ++ rewrite HR2' in Hxx by done. destruct (HR2 _ _ _ Hxx) as (i' & v' & ? & Hin & ? & ?). exists i', v'. split_and!; try done.
              rewrite fmap_app, elem_of_app. by left.
  - intros [items va'] (Ek & Hd & _ & R & HR1 & HR2). simpl in *. rewrite app_nil_r in Ek. split_and!; try done.
    exists R. split; [done|]. intros a b x Hx. destruct (HR2 _ _ _ Hx) as (i & v & ? & _ & ? & ?). by exists i, v.
Qed.

Section assign.
Context (now : Z) (G : Ghost) (st : IQ) (HI : Inv E None G st) (va : VA) (R : requests).
Local Abbreviation W := (iq_vc_alloc_vcs st).
Local Abbreviation base := (i_base (ra_I (su_IV E)) va).
Context (Hbi : al_inputs base = q_vcs C * q_inputs C).
Context (HM : matching (q_vcs C * q_inputs C) (q_vcs C * q_outputs C) (wants R) (al_inmatch base) (al_outmatch base)).
Context (HR : ∀ a b x, R a b = Some x → ∃ i v, vin E i v ∧ a = input_and_vc C i v ∧ wanted (iq_buf st) (iq_next_buf st) i v b).

(** A grant is of an output VC the packet may be given. *)
Lemma vc_matched i v r : vin E i v → (al_inmatch base)⟦input_and_vc C i v⟧ = r → 0 ≤ r →
  wanted (iq_buf st) (iq_next_buf st) i v r ∧ (al_outmatch base)⟦r⟧ = input_and_vc C i v.
Proof.
  intros Hi <- Hr. pose proof (input_and_vc_range _ _ Hi) as Ha. destruct (mt_in _ _ _ _ _ HM _ Ha) as [?|(Hb & Hw & Ho)]; [lia|].
  split; [|done]. unfold wants in Hw. destruct (R _ _) as [x|] eqn:Ex; [|done]. destruct (HR _ _ _ Ex) as (i' & v' & Hi' & Ea & Hwd).
  by destruct (input_and_vc_inj _ _ _ _ Hi Hi' Ea) as [<- <-].
Qed.

Lemma assign_vc_ok t i v r :
  vin E i v → place_at E (iq_buf st) (iq_switch_hold st) i v = InVC → r ≤ -1 →
  returns (assign_vc C (su_IV E) now st va (t, (i, v, r)) tt) (λ y, ∃ r', y.1 = (now, (i, v, r')) ∧ r' ≠ -1 ∧
    (0 ≤ r' → (al_inmatch base)⟦input_and_vc C i v⟧ = r')).
Proof.
  intros Hi Hp Hr. destruct (waiting_vc _ _ _ _ HI Hi Hp) as (Hst & _ & f & q & rs & Hq & Hv & Hh & _).
  unfold assign_vc. rewrite (sp_vc_alloc _ (su_ok E)), Z.add_simpl_r. rewrite (valid_input_true E), (valid_vc_ok E) by apply Hi.
  cbn [cassert mbind res_bind]. destruct (Z.ltb_spec r (-1)).
  { apply returns_ok. exists r. split_and!; done || lia. }
  rewrite (proj2 (Z.eqb_eq r (-1))) by lia. cbn [cassert mbind res_bind].
  rewrite (front_ok E (iq_buf st) _ _ st i v f q) by (done || apply HI || by rewrite ?Hst, ?Hh). cbn [mbind res_bind].
  pose proof (input_and_vc_range _ _ Hi) as Ha. unfold AllocOps.OutputAssigned, AllocOps.valid_in. rewrite Hbi.
  rewrite (proj2 (Z.leb_le 0 (input_and_vc C i v))), (proj2 (Z.ltb_lt (input_and_vc C i v) _)) by lia. cbn [andb cassert mbind res_bind].
  rewrite vget_ok by (rewrite (mt_in_len _ _ _ _ _ HM); lia). cbn [mbind res_bind].
  set (r' := (al_inmatch base)⟦input_and_vc C i v⟧). destruct (Z.leb_spec 0 r') as [H0|H0].
  - destruct (vc_matched i v r' Hi eq_refl H0) as [(rs' & o & w & _ & Er & Hvo & _) _].
    destruct (output_and_vc_parts _ _ Hvo) as (_ & Eo & Ew). rewrite Er, Eo, Ew. destruct Hvo as [Ho Hw].
    rewrite (valid_output_true E), (valid_vc_ok E) by done. apply returns_ok. rewrite <- Er. exists r'. split_and!; done || lia.
  - apply returns_ok. exists STALL_BUFFER_CONFLICT. unfold STALL_BUFFER_CONFLICT. split_and!; done || lia.
Qed.

Lemma vc_assign_ok items :
  key <$> items = key <$> W → Forall (λ x, x.1 = -1 ∧ x.2.2 ≤ -1) items →
  returns (each_new (assign_vc C (su_IV E) now st va) items tt) (λ y, key <$> y.1 = key <$> W ∧
    Forall (λ x, x.1 = now ∧ x.2.2 ≠ -1) y.1 ∧
    Forall (λ x, granted x → (al_inmatch base)⟦input_and_vc C x.2.1.1 x.2.1.2⟧ = x.2.2) y.1).
Proof.
  intros Hk Hit. eapply returns_mono.
  - apply (returns_each_new (λ d l (_ : unit), (key <$> d) ++ (key <$> l) = key <$> W ∧ Forall (λ x, x.1 = now ∧ x.2.2 ≠ -1) d ∧
      Forall (λ x, granted x → (al_inmatch base)⟦input_and_vc C x.2.1.1 x.2.1.2⟧ = x.2.2) d ∧ Forall (λ x, x.1 = -1 ∧ x.2.2 ≤ -1) l) _ items [] tt).
    + eapply Forall_impl; [exact Hit|]. intros x [-> _]. lia.
    + done.
    + intros d [t [[i v] r]] l [] _ (Ek & Hd1 & Hd2 & [[_ Hr] Hl]%Forall_cons). simpl in Hr.
      assert ((i, v) ∈ key <$> W) as Hx. { rewrite <- Ek, elem_of_app. right. by left. }
      apply list_elem_of_fmap in Hx as (x & Ex & Hx). destruct (vc_items _ _ _ HI Hx) as [Hi Hp].
      unfold key in Ex. rewrite <- Ex in Hi, Hp. simpl in Hi, Hp.
      eapply returns_mono; [by apply (assign_vc_ok t i v r)|]. intros [y []] (r' & -> & Hr' & Hm). simpl in *. split_and!; try done.
      * by rewrite fmap_app, <- app_assoc.
      * by apply Forall_snoc.
      * by apply Forall_snoc.
  - intros [y []] (Ek & H1 & H2 & _). simpl in *. by rewrite app_nil_r in Ek.
Qed.
End assign.

Lemma Inv_vc_items G st items :
  Inv E None G st → key <$> items = key <$> iq_vc_alloc_vcs st → Inv E None G (set_vc_alloc_vcs items st).
Proof.
  intros [H1 H2 H3 [Q1 Q2 Q3 Q4] H5 H6 H7 H8] Hi. split; try done. split; try done. simpl. by rewrite Hi.
Qed.

Lemma VCAllocEvaluate_ok now G st va :
  Inv E None G st → busy E now st → Forall fresh (iq_vc_alloc_vcs st) →
  iq_vc_allocator st = Some va → rl_opened (su_LV E) va no_requests →
  returns (VCAllocEvaluate C (su_IV E) now st) (λ st', Inv E None G st' ∧ busy E now st' ∧
    ∃ g items va', st' = set_rng g (set_vc_alloc_vcs items (set_vc_allocator (Some va') st))).
Proof.
  intros HI HB Hfr Hva Hop. unfold VCAllocEvaluate. rewrite Hva.
  eapply returns_bind; [by apply (vc_requests_ok now G)|]. intros [items va1] (Ek1 & Hit & R & HR1 & HR2). simpl in *.
  eapply returns_bind; [apply (rl_Allocate _ _ _ (su_LV E) va1 R); [done|apply (in_allocs _ _ _ _ HI)]|].
  intros [va2 g] (Hg & Hop2 & Hbi & Hbo & HM & _).
  eapply returns_bind; [by apply (vc_assign_ok now G st HI va2 R Hbi HM HR2 items)|]. intros [items2 []] (Ek2 & Ht2 & Hg2). simpl in *.
  rewrite (sp_vc_alloc _ (su_ok E)). cbn [Z.leb Z.compare Pos.compare Pos.compare_cont mbind res_bind]. apply returns_ok. split_and!.
  - pose proof (Inv_vc_items _ _ _ HI Ek2) as HI2. destruct HI2 as [H1 H2 H3 H4 H5 H6 H7 H8]. split; try done. simpl in *. destruct H8. split; try done. by exists va2.
  - pose proof (qu_vc _ _ _ _ _ _ (in_queues _ _ _ _ HI)) as [Hnd Hmem]. rewrite <- Ek2 in Hnd, Hmem. rewrite Forall_forall in Hg2.
    assert (∀ x, x ∈ items2 → granted x → wanted (iq_buf st) (iq_next_buf st) x.2.1.1 x.2.1.2 x.2.2 ∧ vin E x.2.1.1 x.2.1.2 ∧
      (al_outmatch (i_base (ra_I (su_IV E)) va2))⟦x.2.2⟧ = input_and_vc C x.2.1.1 x.2.1.2) as Hw.
    { intros x Hx Hgr. destruct (proj1 (Hmem x.2.1.1 x.2.1.2)) as [Hi _].
      { apply list_elem_of_fmap. exists x. split; [|done]. by destruct x as [t [[i v] r]]. }
      destruct (vc_matched st va2 R HM HR2 _ _ _ Hi (Hg2 x Hx Hgr) Hgr). done. }
    destruct HB as [B1 B2 B3 B4 B5 B6 B7 B8 B9 B10 B11 B12 B13]. split; try done; simpl.
    + exists items2, []. by rewrite app_nil_r.
    + apply Forall_forall. intros x Hx Hgr. destruct (Hw x Hx Hgr) as [(rs & o & w & Hrs & Er & Hvo & Hof & Hfree) _].
      unfold vgrant. destruct x as [t [[i v] r]]. simpl in *. subst r. destruct (output_and_vc_parts _ _ Hvo) as (_ & -> & ->). by exists rs.
    + apply NoDup_granted; [done|]. intros x y Hx Hy Gx Gy Exy. destruct (Hw x Hx Gx) as (_ & Vx & Ox), (Hw y Hy Gy) as (_ & Vy & Oy).
      rewrite Exy, Oy in Ox. destruct (input_and_vc_inj _ _ _ _ Vy Vx Ox). destruct x as [? [[] ]], y as [? [[] ]]. unfold key. simpl in *. congruence.
  - by eexists _, _, _.
Qed.

(** ** Taking the output VCs *)

Lemma Inv_next_buf ex G st nbs' :
  Inv E ex G st → keeps_owners E (iq_next_buf st) nbs' → nexts E (g_moves G) (g_credited G) (iq_proc_credits st) nbs' →
  Inv E ex G (set_next_buf nbs' st).
Proof.
  intros [H1 H2 H3 H4 H5 H6 H7 H8] Hk Hn. split; try done. intros i v Hi Hne. eapply vc_inv_nexts; [exact Hk|]. by apply H2.
Qed.

Lemma busy_next_buf now st nbs' :
  busy E now st → (∀ o w, 0 ≤ o → has_slot ((iq_next_buf st)⟦o⟧) w → has_slot (nbs'⟦o⟧) w) →
  Forall (λ x, granted x → vgrant E (iq_buf st) nbs' x) (iq_vc_alloc_vcs st) → busy E now (set_next_buf nbs' st).
Proof.
  intros [B1 B2 B3 B4 B5 B6 B7 B8 B9 B10 B11 B12 B13] Hs Hv. split; try done; simpl.
  - eapply Forall_impl; [exact B7|]. intros [t [[i v] r]] Hg Hgr. destruct (Hg Hgr) as [E1 E2]. split; [done|]. by apply Hs.
  - eapply Forall_impl; [exact B8|]. intros [t [[i v] r]] Hg Hgr. destruct (Hg Hgr) as [[E1 E2] E3]. split; [|done]. split; [done|]. by apply Hs.
Qed.

Lemma filter_tail {X : Type} (P : X → Prop) `{∀ x, Decision (P x)} l : filter P (tail l) = filter P l ∨ filter P (tail l) = tail (filter P l).
Proof. destruct l as [|x l]; [by left|]. simpl. rewrite filter_cons. case_decide; [by right|by left]. Qed.

Lemma NoDup_tail {X Y : Type} (f : X → Y) (P : X → Prop) `{∀ x, Decision (P x)} l : NoDup (f <$> filter P l) → NoDup (f <$> filter P (tail l)).
Proof. destruct (filter_tail P l) as [->| ->]; [done|]. destruct (filter P l); [done|]. by intros [_ ?]%NoDup_cons. Qed.

Lemma phased_tail now l : phased now l → phased now (tail l).
Proof.
  intros (l1 & l2 & -> & H1 & H2). destruct l1 as [|x l1]; simpl.
  - exists [], (tail l2). split_and!; try done. by destruct H2.
  - apply Forall_cons in H1 as [_ H1]. by exists l1, l2.
Qed.

Lemma phased_head now l t x k : phased now l → l = (t, x) :: k → 0 ≤ t → t = now ∧ x.2 ≠ -1.
Proof.
  intros (l1 & l2 & -> & H1 & H2) Hl Ht. destruct l1 as [|y l1]; simpl in Hl.
  - subst. apply Forall_cons in H2 as [[H2 _] _]. simpl in H2. lia.
  - injection Hl as -> _. by apply Forall_cons in H1 as [H1 _].
Qed.

(** A stage that has taken out its outcomes leaves new items. *)
Lemma phased_done now l : 0 ≤ now → phased now l →
  match l with [] => True | y :: _ => y.1 < 0 ∨ true = true ∧ now < y.1 end → Forall fresh l.
Proof.
  intros Hnow (l1 & l2 & -> & H1 & H2) Hh. destruct l1 as [|y l1]; [done|]. apply Forall_cons in H1 as [[Hy _] _]. simpl in Hh. lia.
Qed.

Lemma Forall_tl {X : Type} (P : X → Prop) l : Forall P l → Forall P (tail l).
Proof. by destruct 1. Qed.

Lemma busy_pop_vc now st : busy E now st → busy E now (set_vc_alloc_vcs (tail (iq_vc_alloc_vcs st)) st).
Proof.
  intros [B1 B2 B3 B4 B5 B6 B7 B8 B9 B10 B11 B12 B13].
  split; try done; simpl; [by apply phased_tail|by apply Forall_tl|by apply NoDup_tail].
Qed.

Section take.
Context (G : Ghost) (st : IQ) (o w tag : Z) (Hvo : vout E o w).
Context (HN : nexts E (g_moves G) (g_credited G) (iq_proc_credits st) (iq_next_buf st)) (Hfree : is_free (iq_next_buf st) o w).

Lemma taken_at bs' o' w' : core bs' = taken (core ((iq_next_buf st)⟦o⟧)) w tag → vout E o' w' → (o', w') ≠ (o, w) →
  let c := core ((iq_next_buf st)⟦o := bs'⟧⟦o'⟧) in
  (in_use_by c)⟦w'⟧ = (in_use_by (core ((iq_next_buf st)⟦o'⟧)))⟦w'⟧ ∧ is_open c w' = is_open (core ((iq_next_buf st)⟦o'⟧)) w'.
Proof.
  intros Hb [Ho' Hw'] Hne. destruct Hvo as [Ho Hw]. rewrite znth_zupd by (rewrite ?(ne_len _ _ _ _ _ HN); lia). case_decide; [|done]. subst o'.
  rewrite Hb. unfold is_open. simpl. by rewrite !znth_zupd_ne by (lia || congruence).
Qed.

Lemma take_nexts bs' : inv bs' → core bs' = taken (core ((iq_next_buf st)⟦o⟧)) w tag →
  nexts E (g_moves G) (g_credited G) (iq_proc_credits st) ((iq_next_buf st)⟦o := bs'⟧) ∧
  keeps_owners E (iq_next_buf st) ((iq_next_buf st)⟦o := bs'⟧).
Proof.
  intros Hinv Hb. split.
  - destruct HN as [N1 N2 N3 N4]. destruct Hvo as [Ho Hw]. split; [lens| | |done].
    + intros o' Ho'. rewrite znth_zupd by lia. case_decide; [subst o'|by apply N2]. rewrite Hb. destruct (N2 o Ho) as (_ & ? & ?). done.
    + intros o' w' Hvo'. rewrite znth_zupd by (destruct Hvo'; lia). case_decide; [subst o'|by apply N3]. rewrite Hb. by apply N3.
  - intros o' w' Hvo' Hop. destruct (taken_at bs' o' w' Hb Hvo') as [-> ->]; [|done].
    intros [= -> ->]. unfold is_free in Hfree. apply is_open_spec in Hop as [? _]. lia.
Qed.
End take.

(** The VC that has been given an output VC. *)
Lemma given_vc_ok T i v V o w f q rs :
  vc_ok E T i v V → v_state V = vc_alloc → mid i v T = None → vout E o w → v_buffer V = f :: q → leaves E o (leaving w f) →
  v_route_set V = Some rs → vc_ok E T i v (VCOps.SetState active (VCOps.SetOutput o w V)).
Proof.
  intros [K1 K2 K3 K4 K5] Hst Hm Hvo Hq Hle Hrs. unfold unrouted in K2. rewrite Hst in K2. split; try done.
  split; [done|]. simpl. rewrite Hm. by exists f, q.
Qed.

Lemma vgrant_cons t i v r l bufs nbs :
  NoDup (grants ((t, (i, v, r)) :: l)) → Forall (λ x, granted x → vgrant E bufs nbs x) ((t, (i, v, r)) :: l) → 0 ≤ r →
  ∃ rs o w, r = o * q_vcs C + w ∧ vout E o w ∧ v_route_set (vcat bufs i v) = Some rs ∧ offers rs o w ∧ is_free nbs o w ∧
    ∀ nbs', (∀ o' w', vout E o' w' → (o', w') ≠ (o, w) → is_free nbs o' w' → is_free nbs' o' w') →
      Forall (λ x, granted x → vgrant E bufs nbs' x) l.
Proof.
  intros Hnd [Hg Hl]%Forall_cons Hr. unfold grants in Hnd. rewrite filter_cons_True in Hnd by done.
  apply NoDup_cons in Hnd as [Hnot _]. destruct (Hg Hr) as (rs & Hrs & Hvo & Hof & Hfree). simpl in *.
  pose proof (sp_vcs _ (su_ok E)).
  assert (∀ r', 0 ≤ r' → r' = (r' `quot` q_vcs C) * q_vcs C + r' `rem` q_vcs C) as Hdiv.
  { intros r' Hr'. pose proof (Z.quot_rem' r' (q_vcs C)). lia. }
  exists rs, (r `quot` q_vcs C), (r `rem` q_vcs C). split_and!; try done; [by apply Hdiv|]. intros nbs' Hkeep.
  rewrite Forall_forall in Hl. apply Forall_forall. intros [t' [[i' v'] r']] Hx Hgr. pose proof (Hl _ Hx Hgr) as (rs' & Hrs' & Hvo' & Hof' & Hfree').
  exists rs'. split_and!; try done. apply Hkeep; try done. intros [= E1 E2]. apply Hnot. apply list_elem_of_fmap.
  exists (t', (i', v', r')). split; [|by apply list_elem_of_filter]. simpl. unfold granted in Hgr. simpl in Hgr. rewrite (Hdiv r Hr), (Hdiv r' Hgr). congruence.
Qed.

Definition pop_vc st : IQ := set_vc_alloc_vcs (tail (iq_vc_alloc_vcs st)) st.

Definition vc_stage now G st : Prop := Inv E None G st ∧ busy E now st ∧ past 1 now st.

Definition vc_frame st st' : Prop :=
  io st' = io st ∧ iq_crossbar_flits st' = iq_crossbar_flits st ∧ iq_route_vcs st' = iq_route_vcs st.

Lemma vc_given now G st t i v r l f q rs o w bs' bufs' :
  let V := vcat (iq_buf st) i v in let V' := VCOps.SetState active (VCOps.SetOutput o w V) in
  vc_stage now G st → iq_vc_alloc_vcs st = (t, (i, v, r)) :: l → v_state V = vc_alloc → mid i v (g_moves G) = None →
  v_buffer V = f :: q → v_route_set V = Some rs → leaves E o (leaving w f) → vout E o w → is_free (iq_next_buf st) o w →
  (∀ nbs', (∀ o' w', vout E o' w' → (o', w') ≠ (o, w) → is_free (iq_next_buf st) o' w' → is_free nbs' o' w') →
      Forall (λ x, granted x → vgrant E (iq_buf st) nbs' x) l) →
  inv bs' → core bs' = taken (core ((iq_next_buf st)⟦o⟧)) w (i * q_vcs C + v) →
  (∀ w, has_slot ((iq_next_buf st)⟦o⟧) w → has_slot bs' w) → changed E (iq_buf st) bufs' i v V' →
  vc_stage now G (push InSW i v (set_buf bufs' (set_next_buf ((iq_next_buf st)⟦o := bs'⟧) (set_vc_alloc_vcs l st)))).
Proof.
  intros V V' (HI & HB & HP) Hl Hst Hm Hq Hrs Hle Hvo Hfree Hothers Hinv' Hcore Hslot Hc. pose proof Hvo as [Ho Hw].
  destruct (Inv_take_vc E _ _ _ _ _ _ _ HI Hl) as (HI' & Hin & Hp). pose proof (in_nexts _ _ _ _ HI) as HN. pose proof (ne_len _ _ _ _ _ HN) as Hlen.
  destruct (take_nexts G st o w _ Hvo HN Hfree bs' Hinv' Hcore) as [HN' Hko].
  pose proof (in_vc _ _ _ _ HI i v Hin ltac:(done)) as HV.
  pose proof (held_false E _ _ _ _ _ _ _ HV ltac:(left; by fold V; rewrite Hst)) as Hhf.
  set (nbs' := (iq_next_buf st)⟦o := bs'⟧) in *. set (st1 := set_next_buf nbs' (set_vc_alloc_vcs l st)).
  assert (Inv E (Some (i, v)) G st1) as HI1 by by apply Inv_next_buf.
  assert (busy E now st1) as HB1.
  { pose proof (busy_pop_vc now st HB) as HB0. rewrite Hl in HB0. apply busy_next_buf; [done|..].
    - intros o' w' Ho'. simpl. unfold nbs'. rewrite znth_zupd by lia. case_decide; [subst o'; apply Hslot|done].
    - apply Hothers. intros o' w' Hvo' Hne. unfold is_free, nbs'. by rewrite (proj1 (taken_at G st o w _ Hvo HN bs' o' w' Hcore Hvo' Hne)). }
  assert (vc_inv E (g_moves G) (g_received G) nbs' (iq_switch_hold st) i v V') as HV'.
  { split; [by apply (given_vc_ok _ _ _ _ _ _ f q rs); try apply HV|apply HV| |by rewrite Hhf].
    intros _. cbn [VCOps.SetState VCOps.SetOutput v_out_port v_out_vc V']. unfold nbs'. rewrite znth_zupd_eq by lia. rewrite Hcore.
    destruct (proj1 (ne_inv _ _ _ _ _ HN o Ho)) as [Hco _]. destruct (ne_inv _ _ _ _ _ HN o Ho) as (_ & Hvcs & _).
    pose proof (co_use_len _ Hco). pose proof (co_tail_len _ Hco). pose proof (sp_tags _ (su_ok E)). destruct Hin as [Hi Hvi].
    unfold is_open. simpl. rewrite !znth_zupd_eq by lia. rewrite to_int_id by (unfold int_min; nia). split; [|done]. rewrite andb_true_r. nia. }
  pose proof (Inv_join E G st1 i v bufs' V' HI1 Hin Hc HV') as HJ.
  assert (place_of V' (held E (iq_switch_hold st1) i v) = InSW) as EP.
  { simpl. rewrite Hhf. unfold place_of, VCOps.Empty. simpl. by rewrite Hq. }
  rewrite EP in HJ. split_and!; [exact HJ|apply busy_push; by apply (busy_taken E now G st1 _ i v V')|]. apply past_push. destruct HP. split; try done; lia.
Qed.

Lemma vc_granted_ok now G st t i v r l :
  vc_stage now G st → iq_vc_alloc_vcs st = (t, (i, v, r)) :: l → 0 ≤ r →
  returns (vc_done C (i, v, r) st) (λ st', vc_stage now G (pop_vc st') ∧ iq_vc_alloc_vcs st' = iq_vc_alloc_vcs st ∧ vc_frame st st').
Proof.
  intros (HI & HB & HP) Hl Hr. destruct (Inv_take_vc E _ _ _ _ _ _ _ HI Hl) as (HI' & Hin & Hp).
  destruct (waiting_vc _ _ _ _ HI Hin Hp) as (Hst & Hm & f & q & rs & Hq & Hv & Hh & Hrs & Hro & Hle).
  pose proof (in_shape _ _ _ _ HI) as Hs. destruct (vget_buf E _ _ _ Hs Hin) as (_ & Hvl & _).
  pose proof (bu_distinct_vcs _ _ _ HB) as Hnd. pose proof (bu_vgrants _ _ _ HB) as Hvg. rewrite Hl in Hnd, Hvg.
  destruct (vgrant_cons _ _ _ _ _ _ _ Hnd Hvg Hr) as (rs' & o & w & Er & Hvo & Hrs' & Hof & Hfree & Hothers).
  destruct (output_and_vc_parts _ _ Hvo) as (_ & Eo & Ew). rewrite <- Er in Eo, Ew. pose proof Hvo as [Ho Hw].
  pose proof (in_nexts _ _ _ _ HI) as HN. destruct (ne_inv _ _ _ _ _ HN o Ho) as (Hinv & Hvcs & _).
  unfold vc_done. destruct (Z.eqb_spec r (-1)); [lia|]. cbn [negb cassert mbind res_bind].
  rewrite (front_ok E (iq_buf st) _ _ st i v f q) by (done || by rewrite ?Hst, ?Hh). cbn [mbind res_bind].
  rewrite (proj2 (Z.leb_le 0 r) Hr), Eo, Ew. rewrite (valid_output_true E), (valid_vc_ok E) by done. cbn [cassert mbind res_bind].
  rewrite vget_ok by (rewrite (ne_len _ _ _ _ _ HN); lia). cbn [mbind res_bind].
  rewrite IsAvailableFor_ok by (done || lia). cbn [mbind res_bind]. rewrite (proj2 (Z.ltb_lt _ 0) Hfree). cbn [cassert mbind res_bind].
  assert (0 ≤ i * q_vcs C + v ≤ int_max) as Htag. { pose proof (sp_tags _ (su_ok E)). destruct Hin. nia. }
  destruct (TakeBuffer_safe ((iq_next_buf st)⟦o⟧) w (i * q_vcs C + v) Hinv ltac:(lia) Hfree Htag) as (bs' & Etake & Hinv' & Hcore).
  rewrite Etake. cbn [mbind res_bind]. unfold put_next_buf. rewrite vset_ok by (rewrite (ne_len _ _ _ _ _ HN); lia). cbn [mbind res_bind].
  eapply returns_bind; [by apply update_vc_ok|]. intros b Hb. eapply returns_bind; [by eapply (update_again _ _ _ _ _ Hvl Hb)|]. intros b' Hb'.
  set (nbs' := (iq_next_buf st)⟦o := bs'⟧).
  eapply returns_bind; [by apply (put_buf_ok E (iq_buf st) i v _ _ (set_next_buf nbs' st) Hs Hin eq_refl Hb')|]. intros st1 (bufs' & -> & Hc).
  rewrite (sp_speculative _ (su_ok E)). apply returns_ok. split; [|done]. unfold pop_vc. simpl. rewrite Hl. simpl.
  apply (vc_given now G st t i v r l f q rs o w bs' bufs'); try done; [by apply Hle; congruence|]. intros w'. by apply TakeBuffer_slot with w (i * q_vcs C + v).
Qed.

Lemma VCAllocUpdate_ok now G st :
  0 ≤ now → vc_stage now G st → returns (VCAllocUpdate C now st) (λ st', Inv E None G st' ∧ busy E now st' ∧ past 2 now st' ∧ vc_frame st st').
Proof.
  intros Hnow HS. pose proof HS as (HI & _ & _). unfold VCAllocUpdate. destruct (al_vc _ _ _ _ _ _ (in_allocs _ _ _ _ HI)) as (va & -> & _).
  eapply returns_mono.
  - apply (returns_drain (λ s, vc_stage now G s ∧ vc_frame st s) true (length (iq_vc_alloc_vcs st)) now); [apply n_timed_length|done|done|].
    intros s t [[i v] r] l [HS' HF] El Ht _. pose proof HS' as (HI' & HB' & HP'). destruct (phased_head _ _ _ _ _ (bu_vc _ _ _ HB') El Ht) as [-> Hr]. simpl in Hr.
    split; [done|]. destruct (Z.leb_spec 0 r) as [H0|H0].
    + eapply returns_mono; [by apply (vc_granted_ok now G s now i v r l)|]. intros s' (? & Es & F1 & F2 & F3). destruct HF as (? & ? & ?).
      split; [split; [done|]; unfold vc_frame; split_and!; etrans; done|]. exists []. by rewrite app_nil_r, Es.
    + destruct (Inv_take_vc E _ _ _ _ _ _ _ HI' El) as (HIt & Hin & Hp).
      destruct (waiting_vc _ _ _ _ HI' Hin Hp) as (Hst & _ & f & q & rs & Hq & Hv & Hh & _).
      unfold vc_done. rewrite (proj2 (Z.eqb_neq _ _) Hr). cbn [negb cassert mbind res_bind].
      rewrite (front_ok E (iq_buf s) _ _ s i v f q) by (done || apply HI' || by rewrite ?Hst, ?Hh). cbn [mbind res_bind].
      destruct (Z.leb_spec 0 r); [lia|]. apply returns_ok. split; [|eexists; split; [done|]; by repeat constructor].
      unfold pop_vc. simpl. rewrite El. simpl. pose proof (busy_pop_vc now s HB') as HB2. rewrite El in HB2. simpl in HB2.
      pose proof (Inv_back E G (set_vc_alloc_vcs l s) i v HIt Hin (in_vc _ _ _ _ HI' i v Hin ltac:(done))) as HJ.
      cbn [iq_buf set_vc_alloc_vcs iq_switch_hold] in HJ. rewrite Hp in HJ. split; [|done].
      split_and!; [exact HJ|by apply (busy_push E now (set_vc_alloc_vcs l s) InVC i v)|]. destruct HP'. split; try done; lia.
  - intros s (((HI' & HB' & HP') & HF) & Hh). split_and!; try done; try apply HF. split; try lia; [intros _; apply HP'; lia|]. intros _. apply (phased_done now); [done|apply HB'|].
    by destruct (iq_vc_alloc_vcs s).
Qed.
End vc_alloc.
