(* ===== verification/RouterSwitchAlloc.v ===== *)
(** * The input-queued router: requests for the switch

    Held connections are renewed, and the switch is allocated: what is granted has
    a slot at the next router, and no input or output of the switch is granted
    twice. *)

From S2P Require Import Prelude StdMap OutputSet Flit VCBuffer BufferState BufferStateInv Credits Link Arbiter Allocator AllocLaws Rng Route SwitchAlloc IQRouter IQSwitch Wormhole RouterInv RouterQueues RouterStages RouterRoute RouterVCAlloc.
Import CoreOps Credits Link IQRouterOps IQSwitchOps.

Section switch.
Context {VA SA PA : Type} (E : Setup VA SA PA).
Local Abbreviation C := (su_C E).
Local Abbreviation IQ := (IQRouter VA SA PA).
Implicit Types (st : IQ) (G : Ghost).

(** The VC of an item that has an output VC. *)
Lemma waiting_send G st i v :
  Inv E None G st → vin E i v →
  place_at E (iq_buf st) (iq_switch_hold st) i v = InHold ∨ place_at E (iq_buf st) (iq_switch_hold st) i v = InSW →
  let V := vcat (iq_buf st) i v in
  v_state V = active ∧ vout E (v_out_port V) (v_out_vc V) ∧ is_open (core ((iq_next_buf st)⟦v_out_port V⟧)) (v_out_vc V) = true ∧
  ∃ f q, v_buffer V = f :: q ∧ f_vc f = v ∧ flit_ok f.
Proof.
  intros HI Hin Hp V. pose proof (in_vc _ _ _ _ HI i v Hin ltac:(done)) as HV. pose proof (vi_ok _ _ _ _ _ _ _ _ HV) as [K1 K2 K3 K4 K5].
  pose proof (place_state V (held E (iq_switch_hold st) i v)) as Hst. unfold place_at in Hp. fold V in Hp.
  assert (v_state V = active ∧ v_buffer V ≠ []) as [Ha Hne] by (destruct Hp as [Hp|Hp]; rewrite Hp in Hst; tauto).
  fold V in K1, K5. unfold vc_state_ok in K5. rewrite Ha in K5. destruct (vi_owner _ _ _ _ _ _ _ _ HV Ha) as [Ho _]. split_and!; try done; [apply K5|].
  destruct (v_buffer V) as [|f q]; [done|]. apply Forall_cons in K1 as [K1 _]. by exists f, q.
Qed.

Lemma held_in G st i v : Inv E None G st → vin E i v → held E (iq_switch_hold st) i v = true →
  let h := iq_switch_hold st in let e := expanded_input C i v in
  (h_vc h)⟦e⟧ = v ∧ (h_in h)⟦e⟧ = v_out_port (vcat (iq_buf st) i v) ∧ (h_out h)⟦(h_in h)⟦e⟧⟧ = e.
Proof.
  intros HI Hin Hh h e. pose proof (in_vc _ _ _ _ HI i v Hin ltac:(done)) as HV. destruct (vi_held _ _ _ _ _ _ _ _ HV Hh) as (_ & _ & Hi).
  unfold held in Hh. bool_to_prop. split; [done|]. split; [done|].
  destruct (ho_in _ _ (in_hold _ _ _ _ HI) e (expanded_input_range E _ _ Hin)) as [[Hv _]|(_ & _ & ?)]; [|done].
  exfalso. subst h e. rewrite Hh in Hv. destruct Hin. lia.
Qed.

Lemma queue_items p X (l : list (Z * (Z * Z * Z))) x : members E p X (key <$> l) → x ∈ l → vin E x.2.1.1 x.2.1.2 ∧ p x.2.1.1 x.2.1.2 = X.
Proof.
  intros [_ Hm] Hx. apply (Hm x.2.1.1 x.2.1.2). apply list_elem_of_fmap. exists x. split; [|done]. by destruct x as [t [[i v] r]].
Qed.

Lemma key_eq (x y : Z * (Z * Z * Z)) : x.2.1.1 = y.2.1.1 → x.2.1.2 = y.2.1.2 → key x = key y.
Proof. destruct x as [? [[] ]], y as [? [[] ]]. unfold key. simpl. congruence. Qed.

Lemma held_item G st x : Inv E None G st → x ∈ iq_sw_hold_vcs st → vin E x.2.1.1 x.2.1.2 ∧ held E (iq_switch_hold st) x.2.1.1 x.2.1.2 = true.
Proof.
  intros HI Hx. destruct (queue_items _ _ _ _ (qu_hold _ _ _ _ _ _ (in_queues _ _ _ _ HI)) Hx) as [Vx Px]. simpl in Px. unfold place_at in Px.
  pose proof (place_state (vcat (iq_buf st) x.2.1.1 x.2.1.2) (held E (iq_switch_hold st) x.2.1.1 x.2.1.2)) as Hx'. rewrite Px in Hx'. tauto.
Qed.

(** ** Held connections *)

Lemma stall_full_ok bs : inv bs → returns (stall_full bs) (λ r, r = STALL_BUFFER_FULL ∨ r = STALL_BUFFER_RESERVED).
Proof. intros Hi. eapply returns_bind; [by apply IsFull_ok|]. intros [] _; apply returns_ok; auto. Qed.

Lemma hold_evaluate_ok now G st t i v :
  Inv E None G st → vin E i v → place_at E (iq_buf st) (iq_switch_hold st) i v = InHold →
  returns (hold_evaluate C now st (t, (i, v, -1)) tt) (λ y, ∃ r, y.1 = (now, (i, v, r)) ∧
    (granted y.1 ∨ r = STALL_BUFFER_FULL ∨ r = STALL_BUFFER_RESERVED) ∧ (granted y.1 → hgrant (iq_buf st) (iq_next_buf st) y.1)).
Proof.
  intros HI Hin Hp. destruct (waiting_send _ _ _ _ HI Hin (or_introl Hp)) as (Hst & Hvo & _ & f & q & Hq & Hv & _).
  pose proof (place_state (vcat (iq_buf st) i v) (held E (iq_switch_hold st) i v)) as Hps. unfold place_at in Hp. rewrite Hp in Hps.
  destruct (held_in _ _ _ _ HI Hin ltac:(tauto)) as (E1 & E2 & _). pose proof (in_hold _ _ _ _ HI) as HH. pose proof (expanded_input_range E _ _ Hin).
  unfold hold_evaluate. cbn [Z.eqb Pos.eqb cassert mbind res_bind].
  rewrite (front_ok E (iq_buf st) _ _ st i v f q) by (done || apply HI || by rewrite ?Hst). cbn [mbind res_bind].
  rewrite (vget_ok (h_vc _)) by (rewrite (ho_vc_len _ _ HH); done). cbn [mbind res_bind]. rewrite E1, Z.eqb_refl. cbn [cassert mbind res_bind].
  pose proof Hvo as [Ho Hw]. rewrite (valid_output_true E), (valid_vc_ok E) by done. cbn [cassert mbind res_bind].
  rewrite (vget_ok (h_in _)) by (rewrite (ho_in_len _ _ HH); done). cbn [mbind res_bind]. rewrite E2, expanded_output_eq, Z.eqb_refl. cbn [cassert mbind res_bind].
  pose proof (in_nexts _ _ _ _ HI) as HN. destruct (ne_inv _ _ _ _ _ HN _ Ho) as (Hinv & Hvcs & _).
  rewrite (vget_ok (iq_next_buf st)) by (rewrite (ne_len _ _ _ _ _ HN); lia). cbn [mbind res_bind].
  eapply returns_bind; [apply IsFullFor_slot; done || lia|]. intros [] Hfull.
  - eapply returns_bind; [by apply stall_full_ok|]. intros r Hr. apply returns_ok. exists r. split_and!; [done|by right|].
    unfold granted, STALL_BUFFER_FULL, STALL_BUFFER_RESERVED in *. simpl. lia.
  - apply returns_ok. eexists. split_and!; [done|left; unfold granted; simpl; lia|]. intros _. split; [done|]. by apply Hfull.
Qed.

Lemma Inv_hold_items G st items :
  Inv E None G st → key <$> items = key <$> iq_sw_hold_vcs st → Inv E None G (set_sw_hold_vcs items st).
Proof.
  intros [H1 H2 H3 [Q1 Q2 Q3 Q4] H5 H6 H7 H8] Hi. split; try done. split; try done. simpl. by rewrite Hi.
Qed.

Lemma hold_pass_ok now G st :
  Inv E None G st → Forall fresh (iq_sw_hold_vcs st) →
  returns (each_new (hold_evaluate C now st) (iq_sw_hold_vcs st) tt) (λ y, key <$> y.1 = key <$> iq_sw_hold_vcs st ∧
    Forall (λ x, x.1 = now ∧ (granted x ∨ x.2.2 = STALL_BUFFER_FULL ∨ x.2.2 = STALL_BUFFER_RESERVED) ∧
                 (granted x → hgrant (iq_buf st) (iq_next_buf st) x)) y.1).
Proof.
  intros HI Hfr. eapply returns_mono.
  - apply (returns_each_new (λ d l (_ : unit), (key <$> d) ++ (key <$> l) = key <$> iq_sw_hold_vcs st ∧ (∀ x, x ∈ l → x ∈ iq_sw_hold_vcs st) ∧
      Forall (λ x, x.1 = now ∧ (granted x ∨ x.2.2 = STALL_BUFFER_FULL ∨ x.2.2 = STALL_BUFFER_RESERVED) ∧
                 (granted x → hgrant (iq_buf st) (iq_next_buf st) x)) d) _ (iq_sw_hold_vcs st) [] tt).
    + eapply Forall_impl; [exact Hfr|]. intros x [-> _]. lia.
    + done.
    + intros d [t [[i v] r]] l [] _ (Ek & Hl & Hd). pose proof (Hl _ (list_elem_of_here _ _)) as Hx.
      destruct (queue_items _ _ _ _ (qu_hold _ _ _ _ _ _ (in_queues _ _ _ _ HI)) Hx) as [Hi Hp]. simpl in Hi, Hp.
      rewrite Forall_forall in Hfr. destruct (Hfr _ Hx) as [_ Er]. simpl in Er. subst r.
      eapply returns_mono; [by apply (hold_evaluate_ok now G)|]. intros [y []] (r & Ey & Hg1 & Hg2). simpl in *. subst y. split_and!.
      * by rewrite fmap_app, <- app_assoc.
      * intros y Hy. apply Hl. by right.
      * by apply Forall_snoc.
  - intros [y []] (Ek & _ & Hd). simpl in *. by rewrite app_nil_r in Ek.
Qed.

Lemma SWHoldEvaluate_ok now G st :
  Inv E None G st → busy E now st → q_hold_switch_for_packet C = true → Forall fresh (iq_sw_hold_vcs st) → Forall fresh (iq_sw_alloc_vcs st) →
  iq_out_queue_credits st = [] →
  returns (SWHoldEvaluate C now st) (λ st', Inv E None G st' ∧ busy E now st' ∧ ∃ items, st' = set_sw_hold_vcs items st).
Proof.
  intros HI HB Hopt Hfr Hfa Hoq. unfold SWHoldEvaluate. rewrite Hopt. cbn [cassert mbind res_bind].
  eapply returns_bind; [by apply (hold_pass_ok now G)|]. intros [items []] [Ek Hit]. simpl in *. apply returns_ok.
  pose proof (Inv_hold_items _ _ _ HI Ek) as HI2. split_and!; [done| |by eexists]. destruct HB as [B1 B2 B3 B4 B5 B6 B7 B8 B9 B10 B11 B12 B13].
  pose proof (qu_hold _ _ _ _ _ _ (in_queues _ _ _ _ HI)) as Hm. rewrite <- Ek in Hm. rewrite Forall_forall in Hit. split; try done; simpl.
  - exists items, []. rewrite app_nil_r. split_and!; try done. apply Forall_forall. intros x Hx. destruct (Hit x Hx) as (? & Hr & _). split; [done|].
    unfold granted, STALL_BUFFER_FULL, STALL_BUFFER_RESERVED in *. lia.
  - apply Forall_forall. intros x Hx. by destruct (Hit x Hx) as (_ & _ & ?).
  - apply Forall_forall. intros x Hx. destruct (Hit x Hx) as (_ & ? & _). tauto.
  - unfold grants at 2. rewrite (fresh_granted _ Hfa), app_nil_r. apply NoDup_granted; [apply Hm|]. intros x y Hx Hy Gx Gy Exy.
    destruct (held_item _ _ x HI2 Hx) as [Vx Hx'], (held_item _ _ y HI2 Hy) as [Vy Hy'].
    destruct (held_in _ _ _ _ HI Vx Hx') as (X1 & X2 & X3), (held_in _ _ _ _ HI Vy Hy') as (Y1 & Y2 & Y3).
    destruct (Hit x Hx) as (_ & _ & Gx'), (Hit y Hy) as (_ & _ & Gy'). specialize (Gx' Gx). specialize (Gy' Gy).
    destruct x as [tx [[ix vx] rx]], y as [ty [[iy vy] ry]]. simpl in *. destruct Gx' as [Gx' _], Gy' as [Gy' _].
    assert (expanded_input C ix vx = expanded_input C iy vy) as Ee by congruence.
    apply key_eq; simpl; [by apply (expanded_input_inj E _ _ _ _ Vx Vy Ee)|congruence].
  - apply Forall_app_2; [|by apply fresh_untimed]. apply Forall_forall. intros x Hx _. rewrite Hoq. apply not_elem_of_nil.
Qed.

(** ** Allocation of the switch *)

(** What is said of a request in the allocator. *)
Definition asks st (a b : Z) (x : Z * Z * Z) : Prop := ∃ i, let V := vcat (iq_buf st) i x.1.1 in
  vin E i x.1.1 ∧ a = expanded_input C i x.1.1 ∧ (h_in (iq_switch_hold st))⟦a⟧ < 0 ∧ (h_out (iq_switch_hold st))⟦b⟧ < 0 ∧
  b = v_out_port V ∧ has_slot ((iq_next_buf st)⟦b⟧) (v_out_vc V).

Lemma place_request_ok sa R a b vc prio offset :
  rl_opened (su_LS E) sa R → 0 ≤ a < q_inputs C * q_input_speedup C → 0 ≤ b < q_outputs C → 0 ≤ vc →
  returns (place_request C (su_IS E) sa a b vc prio offset) (λ y, ∃ R', rl_opened (su_LS E) y.2 R' ∧
    ∀ a' b' x, R' a' b' = Some x → R a' b' = Some x ∨ (a' = a ∧ b' = b ∧ x.1.1 = vc)).
Proof.
  intros Hop Ha Hb Hv. assert (0 ≤ b < q_outputs C * q_output_speedup C) as Hb' by (rewrite (sp_output_speedup _ (su_ok E)); lia).
  assert (∀ l a' b' x, l.1.1 = vc → add_request R a b l a' b' = Some x → R a' b' = Some x ∨ (a' = a ∧ b' = b ∧ x.1.1 = vc)) as Hadd.
  { intros l a' b' x El. unfold add_request. case_decide as Hd; [|auto]. intros [= <-]. right. tauto. }
  unfold place_request. rewrite (rl_ReadRequest _ _ _ _ _ R) by done. cbn [mbind res_bind].
  destruct (R a b) as [[[label ip] op]|] eqn:ER.
  - case_match; [|apply returns_ok; exists R; auto].
    pose proof (rl_Replace _ _ _ (su_LS E) sa R a b (label, ip, op) vc prio prio Hop Ha Hb' Hv ER) as Hrep. simpl in Hrep.
    destruct (ra_RemoveRequest _ _ _ _ _) as [sa1|]; [|by destruct Hrep as (? & ? & _)]. cbn [mbind res_bind] in *.
    eapply returns_bind; [exact Hrep|]. intros sa2 H2. apply returns_ok. eexists. split; [exact H2|]. intros a' b' x. by apply (Hadd (vc, prio, prio)).
  - eapply returns_bind; [by apply (rl_AddRequest _ _ _ (su_LS E))|]. intros sa2 H2. apply returns_ok. eexists. split; [exact H2|]. intros a' b' x. by apply (Hadd (vc, prio, prio)).
Qed.

Lemma SWAllocAddReq_ok G st sa R i v o :
  Inv E None G st → vin E i v → place_at E (iq_buf st) (iq_switch_hold st) i v = InSW → o = v_out_port (vcat (iq_buf st) i v) →
  has_slot ((iq_next_buf st)⟦o⟧) (v_out_vc (vcat (iq_buf st) i v)) →
  rl_opened (su_LS E) sa R → (∀ a b x, R a b = Some x → asks st a b x) →
  returns (SWAllocAddReq C (su_IS E) (su_IP E) i v o (set_sw_allocator sa st)) (λ y, ∃ sa' R', y.2 = set_sw_allocator sa' st ∧
    rl_opened (su_LS E) sa' R' ∧ ∀ a b x, R' a b = Some x → asks st a b x).
Proof.
  intros HI Hin Hp Eo Hsl Hop HR. destruct (waiting_send _ _ _ _ HI Hin (or_intror Hp)) as (Hst & Hvo & _ & f & q & Hq & Hv & _).
  pose proof (in_hold _ _ _ _ HI) as HH. pose proof (expanded_input_range E _ _ Hin) as Ha. rewrite <- Eo in Hvo. destruct Hvo as [Ho _].
  unfold SWAllocAddReq. rewrite (valid_output_true E) by done. cbn [cassert mbind res_bind]. rewrite expanded_output_eq.
  rewrite (front_ok E (iq_buf st) _ _ (set_sw_allocator sa st) i v f q) by (done || apply HI || by rewrite ?Hst). cbn [mbind res_bind].
  cbn [iq_switch_hold set_sw_allocator iq_sw_rr_offset iq_spec_sw_allocator iq_sw_allocator].
  rewrite (vget_ok (h_in _)) by (rewrite (ho_in_len _ _ HH); done). cbn [mbind res_bind].
  destruct (Z.ltb_spec ((h_in (iq_switch_hold st))⟦expanded_input C i v⟧) 0) as [Hi|]; [|apply returns_ok; by exists sa, R].
  rewrite (vget_ok (h_out _)) by (rewrite (ho_out_len _ _ HH); done). cbn [mbind res_bind andb].
  destruct (Z.ltb_spec ((h_out (iq_switch_hold st))⟦o⟧) 0) as [Hof|]; [|apply returns_ok; by exists sa, R].
  rewrite vget_ok by (rewrite (al_offsets _ _ _ _ _ _ (in_allocs _ _ _ _ HI)); lia). cbn [mbind res_bind].
  rewrite (sp_speculative _ (su_ok E)), (al_spec _ _ _ _ _ _ (in_allocs _ _ _ _ HI)). cbn [andb mbind res_bind].
  eapply returns_bind; [apply (place_request_ok sa R); done || destruct Hin; lia|]. intros [r sa'] (R' & HR1 & HR2). apply returns_ok.
  exists sa', R'. split_and!; try done. intros a b x Hx. destruct (HR2 _ _ _ Hx) as [?|(-> & -> & Ex)]; [by apply HR|].
  exists i. rewrite Ex. by subst o.
Qed.

Lemma sw_request_ok now G st sa R i v :
  Inv E None G st → vin E i v → place_at E (iq_buf st) (iq_switch_hold st) i v = InSW →
  rl_opened (su_LS E) sa R → (∀ a b x, R a b = Some x → asks st a b x) →
  returns (sw_request C (su_IS E) (su_IP E) now (-1, (i, v, -1)) (set_sw_allocator sa st)) (λ y, ∃ r sa' R', y.1 = (-1, (i, v, r)) ∧ r ≤ -1 ∧
    y.2 = set_sw_allocator sa' st ∧ rl_opened (su_LS E) sa' R' ∧ ∀ a b x, R' a b = Some x → asks st a b x).
Proof.
  intros HI Hin Hp Hop HR. destruct (waiting_send _ _ _ _ HI Hin (or_intror Hp)) as (Hst & [Ho Hw] & _ & f & q & Hq & Hv & _).
  pose proof (place_state (vcat (iq_buf st) i v) (held E (iq_switch_hold st) i v)) as Hps. pose proof Hp as Hp'. unfold place_at in Hp'. rewrite Hp' in Hps.
  destruct Hps as (_ & _ & Hh). pose proof (expanded_input_range E _ _ Hin) as Ha.
  unfold sw_request. rewrite (valid_input_true E), (valid_vc_ok E) by apply Hin. cbn [Z.eqb Pos.eqb cassert mbind res_bind iq_switch_hold set_sw_allocator].
  rewrite (vget_ok (h_vc _)) by (rewrite (ho_vc_len _ _ (in_hold _ _ _ _ HI)); done). cbn [mbind res_bind].
  change (negb (held E (iq_switch_hold st) i v)) with (negb ((h_vc (iq_switch_hold st))⟦expanded_input C i v⟧ =? v)) in *. unfold held in Hh. rewrite Hh. cbn [negb cassert mbind res_bind].
  rewrite (front_ok E (iq_buf st) _ _ (set_sw_allocator sa st) i v f q) by (done || apply HI || by rewrite ?Hst). cbn [mbind res_bind].
  rewrite Hst. cbn [is_active]. rewrite (valid_output_true E), (valid_vc_ok E) by done. cbn [cassert mbind res_bind iq_next_buf set_sw_allocator].
  pose proof (in_nexts _ _ _ _ HI) as HN. destruct (ne_inv _ _ _ _ _ HN _ Ho) as (Hinv & Hvcs & _).
  rewrite (vget_ok (iq_next_buf st)) by (rewrite (ne_len _ _ _ _ _ HN); lia). cbn [mbind res_bind].
  eapply returns_bind; [apply IsFullFor_slot; done || lia|]. intros [] Hfull.
  - cbn [mbind res_bind negb]. eapply returns_bind; [by apply stall_full_ok|]. intros r Hr. apply returns_ok. exists r, sa, R. split_and!; try done.
    unfold STALL_BUFFER_FULL, STALL_BUFFER_RESERVED in Hr. lia.
  - unfold has_room. rewrite (sp_output_buffer _ (su_ok E)). cbn [Z.eqb Pos.eqb mbind res_bind negb].
    eapply returns_bind; [apply (SWAllocAddReq_ok G st sa R); auto|]. intros [b st'] (sa' & R' & Es & HR1 & HR2). simpl in Es. subst st'.
    apply returns_ok. exists (-1), sa', R'. split_and!; done || lia.
Qed.

Lemma sw_requests_ok now G st sa :
  Inv E None G st → Forall fresh (iq_sw_alloc_vcs st) → rl_opened (su_LS E) sa no_requests → iq_sw_allocator st = sa →
  returns (each_new (sw_request C (su_IS E) (su_IP E) now) (iq_sw_alloc_vcs st) st) (λ r,
    key <$> r.1 = key <$> iq_sw_alloc_vcs st ∧ Forall (λ x, x.1 = -1 ∧ x.2.2 ≤ -1) r.1 ∧
    ∃ sa' R, r.2 = set_sw_allocator sa' st ∧ rl_opened (su_LS E) sa' R ∧ ∀ a b x, R a b = Some x → asks st a b x).
Proof.
  intros HI Hfr Hop Esa. set (W := iq_sw_alloc_vcs st) in *. eapply returns_mono.
  - apply (returns_each_new (λ d l s, (key <$> d) ++ (key <$> l) = key <$> W ∧ Forall (λ x, x.1 = -1 ∧ x.2.2 ≤ -1) d ∧ (∀ x, x ∈ l → x ∈ W) ∧
      ∃ sa' R, s = set_sw_allocator sa' st ∧ rl_opened (su_LS E) sa' R ∧ ∀ a b x, R a b = Some x → asks st a b x) _ W [] st).
    + eapply Forall_impl; [exact Hfr|]. intros x [-> _]. lia.
    + split_and!; try done. exists sa, no_requests. split_and!; try done. rewrite <- Esa. by destruct st.
    + intros d [t [[i v] r]] l s _ (Ek & Hd & Hl & sa' & R & -> & HR1 & HR2). pose proof (Hl _ (list_elem_of_here _ _)) as Hx.
      destruct (queue_items _ _ _ _ (qu_sw _ _ _ _ _ _ (in_queues _ _ _ _ HI)) Hx) as [Hi Hp]. simpl in Hi, Hp.
      rewrite Forall_forall in Hfr. destruct (Hfr _ Hx) as [Et Er]. simpl in Et, Er. subst t r.
      eapply returns_mono; [by apply (sw_request_ok now G st sa' R)|]. intros [x' s'] (r' & sa2 & R2 & Ex & Hr & Es & HR3 & HR4). simpl in *. subst x'. split_and!.
      * by rewrite fmap_app, <- app_assoc.
      * by apply Forall_snoc.
      * intros y Hy. apply Hl. by right.
      * by exists sa2, R2.
  - intros [items s'] (Ek & Hd & _ & HR). simpl in *. by rewrite app_nil_r in Ek.
Qed.

Section sw_assign.
Context (now : Z) (G : Ghost) (st : IQ) (HI : Inv E None G st) (sa : SA) (R : requests) (g : Rng).
Local Abbreviation W := (iq_sw_alloc_vcs st).
Local Abbreviation base := (i_base (ra_I (su_IS E)) sa).
Local Abbreviation n := (q_inputs C * q_input_speedup C).
Context (Hbi : al_inputs base = n).
Context (HM : matching n (q_outputs C * q_output_speedup C) (wants R) (al_inmatch base) (al_outmatch base)).
Context (HR : ∀ a b x, R a b = Some x → asks st a b x).
Context (Hread : ∀ i o, 0 ≤ i < n → 0 ≤ o < q_outputs C * q_output_speedup C → ra_ReadRequest (su_IS E) sa i o = Ok (R i o)).

(** A grant of the allocator that is the VC's own. *)
Definition won (x : Z * (Z * Z * Z)) : Prop :=
  (al_inmatch base)⟦expanded E x⟧ = x.2.2 ∧ ∃ p, R (expanded E x) x.2.2 = Some p ∧ p.1.1 = x.2.1.2.

Lemma sw_matched a : 0 ≤ a < n → let r := (al_inmatch base)⟦a⟧ in 0 ≤ r →
  0 ≤ r < q_outputs C * q_output_speedup C ∧ (al_outmatch base)⟦r⟧ = a ∧ ∃ x, R a r = Some x.
Proof.
  intros Ha r Hr. destruct (mt_in _ _ _ _ _ HM _ Ha) as [?|(Hb & Hw & Ho)]; [lia|]. split_and!; try done; try apply Hb.
  unfold wants in Hw. fold r in Hw. destruct (R a r) as [x|]; [by exists x|done].
Qed.

Lemma won_sgrant x : vin E x.2.1.1 x.2.1.2 → granted x → won x →
  sgrant E (iq_buf st) (iq_next_buf st) (iq_switch_hold st) x ∧ (al_outmatch base)⟦x.2.2⟧ = expanded E x.
Proof.
  destruct x as [t [[i v] r]]. unfold granted, won, expanded. simpl. intros Hin Hr [Em (p & Ep & El)].
  pose proof (expanded_input_range E _ _ Hin) as Ha.
  destruct (HR _ _ _ Ep) as (j & Hj & Ea & H1 & H2 & H3 & H4). rewrite El in *. pose proof (expanded_input_inj E _ _ _ _ Hin Hj Ea). subst j.
  destruct (sw_matched _ Ha) as (_ & Ho & _); [lia|]. rewrite Em in Ho. split; [|done]. split; [done|]. split_and!; try done.
  destruct (ho_in _ _ (in_hold _ _ _ _ HI) _ Ha) as [[-> _]|(_ & ? & _)]; lia.
Qed.

Lemma sw_assign_ok t i v r offsets :
  vin E i v → place_at E (iq_buf st) (iq_switch_hold st) i v = InSW → r ≤ -1 → zlen offsets = n →
  returns (sw_assign C (su_IS E) (su_IP E) now (set_rng g (set_sw_allocator sa st)) (t, (i, v, r)) offsets) (λ y, ∃ r', y.1 = (now, (i, v, r')) ∧ r' ≠ -1 ∧
    zlen y.2 = n ∧ (granted y.1 → won y.1)).
Proof.
  intros Hin Hp Hr Hoff. destruct (waiting_send _ _ _ _ HI Hin (or_intror Hp)) as (Hst & _ & _ & f & q & Hq & Hv & _).
  unfold sw_assign. rewrite (sp_sw_alloc _ (su_ok E)), Z.add_simpl_r. rewrite (valid_input_true E), (valid_vc_ok E) by apply Hin.
  cbn [cassert mbind res_bind]. destruct (Z.ltb_spec r (-1)).
  { apply returns_ok. exists r. unfold granted. simpl. split_and!; done || lia. }
  rewrite (proj2 (Z.eqb_eq r (-1))) by lia. cbn [cassert mbind res_bind].
  rewrite (front_ok E (iq_buf st) _ _ (set_rng g (set_sw_allocator sa st)) i v f q) by (done || apply HI || by rewrite ?Hst). cbn [mbind res_bind iq_sw_allocator iq_spec_sw_allocator set_rng set_sw_allocator].
  pose proof (expanded_input_range E _ _ Hin) as Ha. unfold AllocOps.OutputAssigned, AllocOps.valid_in. rewrite Hbi.
  rewrite (proj2 (Z.leb_le 0 (expanded_input C i v))), (proj2 (Z.ltb_lt (expanded_input C i v) _)) by lia. cbn [andb cassert mbind res_bind].
  rewrite vget_ok by (rewrite (mt_in_len _ _ _ _ _ HM); lia). cbn [mbind res_bind].
  assert (∀ z, ∃ r', (now, (i, v, STALL_CROSSBAR_CONFLICT)) = (now, (i, v, r')) ∧ r' ≠ -1 ∧ zlen offsets = n ∧ (granted (now, (i, v, STALL_CROSSBAR_CONFLICT)) → z)) as Hfail.
  { intros z. exists STALL_CROSSBAR_CONFLICT. unfold granted, STALL_CROSSBAR_CONFLICT. simpl. split_and!; done || lia. }
  set (r' := (al_inmatch base)⟦expanded_input C i v⟧). destruct (Z.leb_spec 0 r') as [H0|H0].
  - rewrite (sp_output_speedup _ (su_ok E)), !Z.rem_1_r. cbn [Z.eqb cassert mbind res_bind].
    destruct (sw_matched _ Ha H0) as (Hb & _ & p & Ep). fold r' in Hb, Ep. unfold ra_ReadLabel. rewrite Hread by done. rewrite Ep. cbn [mbind res_bind].
    destruct p as [[label ip] op]. destruct (Z.eqb_spec label v) as [->|]; [|apply returns_ok; apply Hfail].
    rewrite vset_ok by lia. cbn [mbind res_bind]. apply returns_ok. exists r'. split_and!; [done|lia|cbn [snd]; by rewrite zlen_zupd|]. intros _. split; [done|]. by eexists.
  - rewrite (al_spec _ _ _ _ _ _ (in_allocs _ _ _ _ HI)). apply returns_ok. apply Hfail.
Qed.

Lemma sw_assigns_ok items :
  key <$> items = key <$> W → Forall (λ x, x.1 = -1 ∧ x.2.2 ≤ -1) items →
  returns (each_new (sw_assign C (su_IS E) (su_IP E) now (set_rng g (set_sw_allocator sa st))) items (iq_sw_rr_offset st)) (λ y,
    key <$> y.1 = key <$> W ∧ zlen y.2 = n ∧ Forall (λ x, x.1 = now ∧ x.2.2 ≠ -1) y.1 ∧ Forall (λ x, granted x → won x) y.1).
Proof.
  intros Hk Hit. eapply returns_mono.
  - apply (returns_each_new (λ d l off, (key <$> d) ++ (key <$> l) = key <$> W ∧ zlen off = n ∧ Forall (λ x, x.1 = now ∧ x.2.2 ≠ -1) d ∧
      Forall (λ x, granted x → won x) d ∧ Forall (λ x, x.1 = -1 ∧ x.2.2 ≤ -1) l) _ items [] (iq_sw_rr_offset st)).
    + eapply Forall_impl; [exact Hit|]. intros x [-> _]. lia.
    + split_and!; try done. apply (in_allocs _ _ _ _ HI).
    + intros d [t [[i v] r]] l off _ (Ek & Hoff & Hd1 & Hd2 & [[_ Hr] Hl]%Forall_cons). simpl in Hr.
      assert ((i, v) ∈ key <$> W) as Hx. { rewrite <- Ek, elem_of_app. right. by left. }
      destruct (proj1 (proj2 (qu_sw _ _ _ _ _ _ (in_queues _ _ _ _ HI)) i v) Hx) as [Hi Hp].
      eapply returns_mono; [by apply (sw_assign_ok t i v r off)|]. intros [y off'] (r' & -> & Hr' & Ho' & Hm). simpl in *. split_and!; try done.
      * by rewrite fmap_app, <- app_assoc.
      * by apply Forall_snoc.
      * by apply Forall_snoc.
  - intros [y off] (Ek & H0 & H1 & H2 & _). simpl in *. by rewrite app_nil_r in Ek.
Qed.
End sw_assign.

Lemma Inv_sw_items G st items sa offsets g :
  Inv E None G st → key <$> items = key <$> iq_sw_alloc_vcs st → zlen offsets = q_inputs C * q_input_speedup C → RngInv.rng_ok g →
  rl_opened (su_LS E) (i_Clear (ra_I (su_IS E)) sa) no_requests →
  Inv E None G (set_sw_alloc_vcs items (set_sw_rr_offset offsets (set_rng g (set_sw_allocator sa st)))).
Proof.
  intros [H1 H2 H3 [Q1 Q2 Q3 Q4] H5 H6 H7 H8] Hi Ho Hg Hop. split; try done.
  - split; try done. simpl. by rewrite Hi.
  - destruct H8. split; done.
Qed.

Lemma SWAllocEvaluate_ok now G st sa :
  Inv E None G st → busy E now st → Forall fresh (iq_sw_alloc_vcs st) → iq_out_queue_credits st = [] →
  iq_sw_allocator st = sa → rl_opened (su_LS E) sa no_requests →
  returns (SWAllocEvaluate C (su_IV E) (su_IS E) (su_IP E) now st) (λ st', Inv E None G st' ∧ busy E now st' ∧
    ∃ g items offsets sa', st' = set_sw_alloc_vcs items (set_sw_rr_offset offsets (set_rng g (set_sw_allocator sa' st)))).
Proof.
  intros HI HB Hfr Hoq Esa Hop. unfold SWAllocEvaluate.
  eapply returns_bind; [by apply (sw_requests_ok now G st sa)|]. intros [items s'] (Ek1 & Hit & sa1 & R & Es & HR1 & HR2). simpl in *. subst s'.
  eapply returns_bind; [apply (rl_Allocate _ _ _ (su_LS E) sa1 R); [done|apply (in_allocs _ _ _ _ HI)]|].
  intros [sa2 g] (Hg & Hop2 & Hbi & Hbo & HM & Hread). change (iq_spec_sw_allocator _) with (iq_spec_sw_allocator st). rewrite (al_spec _ _ _ _ _ _ (in_allocs _ _ _ _ HI)). cbn [mbind res_bind].
  change (set_rng g (set_sw_allocator sa2 (set_sw_allocator sa1 st))) with (set_rng g (set_sw_allocator sa2 st)).
  eapply returns_bind; [by apply (sw_assigns_ok now G st HI sa2 R g Hbi HM Hread items)|]. intros [items2 off] (Ek2 & Hoff & Ht2 & Hg2). simpl in *.
  rewrite (sp_speculative _ (su_ok E)), (sp_sw_alloc _ (su_ok E)). cbn [negb andb Z.leb Z.compare Pos.compare Pos.compare_cont mbind res_bind]. apply returns_ok.
  split_and!; [by apply Inv_sw_items| |by eexists _, _, _, _].
  pose proof (qu_sw _ _ _ _ _ _ (in_queues _ _ _ _ HI)) as Hmem. rewrite <- Ek2 in Hmem. rewrite Forall_forall in Hg2.
  assert (∀ x, x ∈ items2 → granted x → vin E x.2.1.1 x.2.1.2 ∧ sgrant E (iq_buf st) (iq_next_buf st) (iq_switch_hold st) x ∧
    (al_outmatch (i_base (ra_I (su_IS E)) sa2))⟦x.2.2⟧ = expanded E x ∧ won sa2 R x) as Hw.
  { intros x Hx Hgr. destruct (queue_items _ _ _ _ Hmem Hx) as [Hi _]. destruct (won_sgrant G st HI sa2 R HM HR2 x Hi Hgr (Hg2 x Hx Hgr)). auto. }
  assert (∀ x y, x ∈ items2 → y ∈ items2 → granted x → granted y → expanded E x = expanded E y → key x = key y) as Hsame.
  { intros x y Hx Hy Gx Gy Exy. destruct (Hw x Hx Gx) as (Vx & _ & _ & Mx & p & Px & Lx), (Hw y Hy Gy) as (Vy & _ & _ & My & p' & Py & Ly).
    apply key_eq; [by apply (expanded_input_inj E _ _ _ _ Vx Vy)|]. rewrite Exy in Mx, Px. rewrite Mx in My. rewrite My in Px. congruence. }
  destruct HB as [B1 B2 B3 B4 B5 B6 B7 B8 B9 B10 B11 B12 B13]. split; try done; simpl.
  - exists items2, []. by rewrite app_nil_r.
  - apply Forall_forall. intros x Hx Hgr. by destruct (Hw x Hx Hgr) as (_ & ? & _).
  - apply NoDup_app. split_and!.
    + by apply NoDup_app in B11 as [? _].
    + intros o Ho1 Ho2. unfold grants in Ho1, Ho2. apply list_elem_of_fmap in Ho1 as (x & -> & [Gx Hx]%list_elem_of_filter), Ho2 as (y & Exy & [Gy Hy]%list_elem_of_filter).
      destruct (Hw y Hy Gy) as (_ & Hs & _). rewrite Forall_forall in B7. pose proof (B7 x Hx Gx) as Hh.
      destruct (held_item _ _ _ HI Hx) as [Vx Hx'].
      destruct (held_in _ _ _ _ HI Vx Hx') as (_ & X2 & X3). pose proof (expanded_input_range E _ _ Vx).
      destruct x as [tx [[ix vx] rx]], y as [ty [[iy vy] ry]]. simpl in *. destruct Hs as (_ & _ & _ & Hs), Hh as [Hh _]. subst. rewrite X2 in X3. lia.
    + apply NoDup_granted; [apply Hmem|]. intros x y Hx Hy Gx Gy Exy. apply Hsame; try done.
      destruct (Hw x Hx Gx) as (_ & _ & <- & _), (Hw y Hy Gy) as (_ & _ & <- & _). congruence.
  - by apply NoDup_granted; [apply Hmem|].
  - apply Forall_forall. intros x Hx _. rewrite Hoq. apply not_elem_of_nil.
Qed.
End switch.
