(* ===== verification/RouterSend.v ===== *)
(** * The input-queued router: a flit crosses the switch

    What [_SWHoldUpdate] and [_SWAllocUpdate] have in common: a flit leaves its VC
    for the crossbar, takes a slot of the next buffer, and a credit is queued. *)

From S2P Require Import Prelude StdMap OutputSet Flit VCBuffer BufferState BufferStateInv Credits Link Arbiter Allocator AllocLaws Rng Route SwitchAlloc IQRouter IQSwitch Wormhole RouterInv RouterQueues RouterStages RouterRoute RouterVCAlloc RouterSwitchAlloc.
Import CoreOps Credits Link IQRouterOps IQSwitchOps.

(** ** Queued credits *)

Lemma elem_vc_insert x l y : y ∈ vc_insert x l ↔ y = x ∨ y ∈ l.
Proof.
  induction l as [|z l IH]; simpl; [set_solver|]. destruct (Z.ltb_spec x z); [set_solver|].
  destruct (Z.ltb_spec z x); [set_solver|]. assert (x = z) as -> by lia. set_solver.
Qed.

Lemma cnt_vc_insert x l y : x ∉ l → cnt y (vc_insert x l) = cnt y l + (if decide (x = y) then 1 else 0).
Proof.
  induction l as [|z l IH]; intros Hx; simpl; [by repeat case_decide|].
  destruct (Z.ltb_spec x z); simpl; [repeat case_decide; lia|]. destruct (Z.ltb_spec z x); simpl; [rewrite IH by set_solver; lia|].
  assert (x = z) by lia. set_solver.
Qed.

Definition add_credit (i v : Z) (Q : imap Credit) : imap Credit :=
  mset i (mkCredit (vc_insert v (c_vc (default (mkCredit []) (mfind i Q))))) Q.

Lemma queued_add i v Q j : msorted Q → queued j (add_credit i v Q) = if decide (j = i) then vc_insert v (queued i Q) else queued j Q.
Proof.
  intros Hs. unfold queued, add_credit. rewrite mfind_mset by done. case_decide; [|done].
  simpl. by destruct (mfind i Q).
Qed.

(** ** The move *)

Definition add_move (m : Move) (G : Ghost) : Ghost :=
  mkGhost (g_moves G ++ [m]) (g_received G) (g_credited G) (g_sent G) (g_credits G).

Section send.
Context {VA SA PA : Type} (E : Setup VA SA PA).
Local Abbreviation C := (su_C E).
Local Abbreviation IQ := (IQRouter VA SA PA).
Implicit Types (st : IQ) (G : Ghost).

(** The state after [send_flit]. *)
Definition sent_state (i v o : Z) (f : Flit) (bufs : list Buffer) (bs : BufferState) (g : Rng) st : IQ :=
  set_out_queue_credits (add_credit i v (iq_out_queue_credits st))
    (set_crossbar_flits (iq_crossbar_flits st ++ [(-1, (f, (expanded_input C i v, o)))])
      (set_next_buf ((iq_next_buf st)⟦o := bs⟧) (set_rng g (set_buf bufs st)))).

(** A flit [f] in front of a VC leaves as [f']. *)
Record departs (o w : Z) (f f' : Flit) : Prop := {
  de_strip : strip f' = strip f;
  de_vc : f_vc f' = w;
  de_hops : f_hops f' = f_hops f + 1;
  de_passes : f_head f = true → passes E o f'
}.

Lemma lookahead_ok sinks i v o w f st :
  sinks_ok E sinks → vout E o w → f_head f = true → leaves E o (leaving w f) → RngInv.rng_ok (iq_rng st) → q_routing_delay C = 0 →
  returns (lookahead C (su_rf E) sinks i v o (leaving w f) st) (λ y, departs o w f y.1 ∧ ∃ g, y.2 = set_rng g st ∧ RngInv.rng_ok g).
Proof.
  intros [Hlen Hs] [Ho Hw] Hh Hle Hg Hrd. specialize (Hs Hrd o _ Ho Hle). unfold lookahead. rewrite vget_ok by lia. cbn [mbind res_bind].
  destruct (sinks⟦o⟧) as [s|].
  - rewrite (sp_noq _ (su_ok E)). eapply returns_bind; [by apply Hs|]. intros [[rs f'] g'] (Hg' & (R1 & R2 & R3) & Hp). apply returns_ok.
    split; [|by exists g']. by split.
  - apply returns_ok. split; [by split|]. exists (iq_rng st). by destruct st.
Qed.

(** [V'] is [V] without its first flit. *)
Record removed (V V' : VC) (q : list Flit) : Prop := {
  rm_buffer : v_buffer V' = q;
  rm_state : v_state V' = v_state V;
  rm_route : v_route_set V' = v_route_set V;
  rm_port : v_out_port V' = v_out_port V;
  rm_vc : v_out_vc V' = v_out_vc V;
  rm_expected : v_expected_pid V' = v_expected_pid V
}.

Lemma remove_flit_ok b v f q : 0 ≤ v < zlen (b_vc b) → v_buffer ((b_vc b)⟦v⟧) = f :: q →
  returns (BufferOps.RemoveFlit b v) (λ y, y.1 = f ∧ ∃ V', buffer_changed b y.2 v V' ∧ removed ((b_vc b)⟦v⟧) V' q).
Proof.
  intros Hv Hq. unfold BufferOps.RemoveFlit, VCOps.RemoveFlit. rewrite vget_ok by done. cbn [mbind res_bind]. rewrite Hq. cbn [mbind res_bind].
  set (V1 := VCOps.with_last _ _ _). destruct (UpdatePriority_only V1) as [p Ep]. rewrite Ep. rewrite vset_ok by done. cbn [mbind res_bind].
  apply returns_ok. split; [done|]. exists (VCOps.with_pri p V1). split; [|by split]. split; simpl; [lens|done| |].
  - intros [I1 I2]. split; simpl; [|lia]. rewrite BufferOps.zsum_fill_zupd by done. unfold VCOps.GetOccupancy, zlen. subst V1. simpl. rewrite Hq. simpl. lia.
  - intros u Hu. rewrite znth_zupd by lia. by repeat case_decide.
Qed.

Lemma send_flit_ok sinks now st i v o w f q :
  let V := vcat (iq_buf st) i v in let bs := (iq_next_buf st)⟦o⟧ in
  sinks_ok E sinks → shape E (iq_buf st) → vin E i v → vout E o w → RngInv.rng_ok (iq_rng st) → v_buffer V = f :: q →
  (f_head f = true → leaves E o (leaving w f)) → zlen (iq_next_buf st) = q_outputs C → inv bs → vcs (core bs) = q_vcs C →
  is_open (core bs) w = true → has_slot bs w →
  returns (send_flit C (su_rf E) sinks now i v o w (expanded_input C i v) o st) (λ y, ∃ bufs' V' bs' g,
    y.2 = sent_state i v o y.1 bufs' bs' g st ∧ departs o w f y.1 ∧ changed E (iq_buf st) bufs' i v V' ∧ removed V V' q ∧
    inv bs' ∧ core bs' = sent (core bs) y.1 ∧ RngInv.rng_ok g).
Proof.
  intros V bs Hsk Hs Hin Hvo Hg Hq Hle Hlen Hinv Hvcs Hop Hsl. destruct (vget_buf E _ _ _ Hs Hin) as (E1 & Hvl & _). pose proof Hvo as [Ho Hw].
  unfold send_flit. rewrite E1. cbn [mbind res_bind]. eapply returns_bind; [by apply (remove_flit_ok _ _ f q)|].
  intros [f0 b] (Ef & V' & Hb & Hrm). simpl in Ef, Hb. subst f0.
  eapply returns_bind; [by apply (put_buf_ok E (iq_buf st) i v _ _ st Hs Hin eq_refl Hb)|]. intros st1 (bufs' & -> & Hc).
  change (FlitOps.set_vc w (FlitOps.set_hops (f_hops f + 1) f)) with (leaving w f).
  eapply returns_bind.
  { assert (returns (if (q_routing_delay C =? 0) && f_head (leaving w f) then lookahead C (su_rf E) sinks i v o (leaving w f) (set_buf bufs' st)
      else Ok (leaving w f, set_buf bufs' st)) (λ y, departs o w f y.1 ∧ ∃ g, y.2 = set_rng g (set_buf bufs' st) ∧ RngInv.rng_ok g)) as HL; [|exact HL].
    destruct ((q_routing_delay C =? 0) && f_head (leaving w f)) eqn:Eb.
    - apply andb_true_iff in Eb as [Er Eh]. apply (lookahead_ok sinks i v o w f); auto. lia.
    - apply returns_ok. split; [split; try done|].
      + intros Hh. apply andb_false_iff in Eb as [Er|Er]; [|by rewrite (Hh : f_head (leaving w f) = true) in Er]. apply (su_passes _ _ _ E); [lia|auto].
      + exists (iq_rng st). by destruct st. }
  intros [f' st2] (Hd & g & Es & Hg'). simpl in Es, Hd. subst st2. cbn [iq_next_buf set_rng set_buf].
  rewrite (vget_ok (iq_next_buf st)) by lia. cbn [mbind res_bind]. fold bs.
  eapply returns_bind; [apply (SendingFlit_slot now bs f'); rewrite ?(de_vc _ _ _ _ Hd); done || lia|]. intros bs' [Hinv' Hcore].
  unfold put_next_buf. cbn [iq_next_buf set_rng set_buf]. rewrite vset_ok by lia. cbn [mbind res_bind]. apply returns_ok.
  by exists bufs', V', bs', g.
Qed.

(** ** The invariant after a move *)

Section move.
Context (G : Ghost) (st : IQ) (i v : Z) (f : Flit) (q : list Flit).
Local Abbreviation T := (g_moves G).
Local Abbreviation V := (vcat (iq_buf st) i v).
Local Abbreviation o := (v_out_port V).
Local Abbreviation w := (v_out_vc V).
Context (HI : Inv E (Some (i, v)) G st) (Hin : vin E i v).
Context (HV : vc_inv E T (g_received G) (iq_next_buf st) (iq_switch_hold st) i v V).
Context (Hst : v_state V = active) (Hq : v_buffer V = f :: q).

Lemma send_vout : vout E o w.
Proof. pose proof (vk_state _ _ _ _ _ (vi_ok _ _ _ _ _ _ _ _ HV)) as K. unfold vc_state_ok in K. rewrite Hst in K. apply K. Qed.

Lemma send_flit_facts : f_vc f = v ∧ flit_ok f.
Proof. pose proof (vk_flits _ _ _ _ _ (vi_ok _ _ _ _ _ _ _ _ HV)) as K. rewrite Hq in K. by apply Forall_cons in K as [? _]. Qed.

(** The flit starts a packet on the output VC, or continues the one it is in. *)
Lemma send_kind :
  (f_head f = true ∧ mid i v T = None ∧ leaves E o (leaving w f)) ∨
  (f_head f = false ∧ mid i v T = Some (o, w, f_pid f)).
Proof.
  destruct (vi_ok _ _ _ _ _ _ _ _ HV) as [_ _ _ K4 K5]. unfold vc_state_ok in K5. rewrite Hst in K5. destruct K5 as [_ K5].
  destruct K4 as (e & Hs & _ & _). rewrite Hq in Hs. unfold open_pid in Hs. destruct (mid i v T) as [[[o' w'] p]|]; simpl in Hs.
  - right. destruct K5 as [-> ->]. destruct (f_head f), (Z.eqb_spec (f_pid f) p); simpl in Hs; try done. by subst p.
  - left. destruct K5 as (f0 & q0 & E0 & Hl). rewrite Hq in E0. injection E0 as <- <-. by destruct (f_head f).
Qed.

Lemma send_leaves : f_head f = true → leaves E o (leaving w f).
Proof. destruct send_kind as [(_ & _ & ?)|[-> _]]; done. Qed.

(** No other VC uses the output VC. *)
Lemma send_alone j u : vin E j u → (j, u) ≠ (i, v) → v_state (vcat (iq_buf st) j u) = active →
  (v_out_port (vcat (iq_buf st) j u), v_out_vc (vcat (iq_buf st) j u)) ≠ (o, w).
Proof.
  intros Hj Hne Ha [= E1 E2]. destruct (vi_owner _ _ _ _ _ _ _ _ HV Hst) as [_ Ho].
  destruct (vi_owner _ _ _ _ _ _ _ _ (in_vc _ _ _ _ HI j u Hj ltac:(congruence)) Ha) as [_ Ho']. rewrite E1, E2, Ho in Ho'.
  destruct (tag_inj E _ _ _ _ Hin Hj Ho') as [-> ->]. done.
Qed.

Lemma mid_vin j u x : mid j u T = Some x → vin E j u.
Proof.
  intros Hm. unfold mid in Hm. destruct (last _) as [m|] eqn:El; [|done]. apply last_Some_elem_of, list_elem_of_filter in El as [[<- <-] Hx].
  pose proof (ou_moves _ _ _ _ _ (in_outs _ _ _ _ HI)) as Hmv. rewrite Forall_forall in Hmv. apply (Hmv m Hx).
Qed.

Context (f' : Flit) (Hd : departs o w f f').
Local Abbreviation m := (mkMove i v o f').
Local Abbreviation T' := (T ++ [m]).

Lemma departs_facts : f_head f' = f_head f ∧ f_tail f' = f_tail f ∧ f_pid f' = f_pid f.
Proof. apply strip_packet, Hd. Qed.

Lemma send_worm : wormhole T'.
Proof.
  destruct departs_facts as (Eh & _ & Ep). pose proof (ou_worm _ _ _ _ _ (in_outs _ _ _ _ HI)) as HW. destruct send_kind as [(Hh & Hm & _)|[Hh Hm]].
  - apply wormhole_first; [done|done|by rewrite Eh|]. rewrite (de_vc _ _ _ _ Hd). intros j u p Hj. pose proof (mid_vin _ _ _ Hj) as Hvj.
    destruct (decide ((j, u) = (i, v))) as [[= -> ->]|Hne]; [congruence|].
    pose proof (vk_state _ _ _ _ _ (vi_ok _ _ _ _ _ _ _ _ (in_vc _ _ _ _ HI j u Hvj ltac:(congruence)))) as K. unfold vc_state_ok in K.
    destruct (v_state (vcat (iq_buf st) j u)) eqn:Es.
    1, 2: destruct_and?; congruence.
    { destruct K as [K _]. congruence. }
    rewrite Hj in K. destruct K as (_ & K1 & K2). apply (send_alone j u Hvj Hne Es). by rewrite <- K1, <- K2.
  - apply wormhole_next; [done| |by rewrite Eh]. by rewrite (de_vc _ _ _ _ Hd), Ep.
Qed.

Lemma sent_mid : mid i v T' = if f_tail f then None else Some (o, w, f_pid f).
Proof. rewrite mid_snoc, decide_True by done. simpl. destruct departs_facts as (_ & -> & ->). by rewrite (de_vc _ _ _ _ Hd). Qed.

Lemma sent_received V' : removed V V' q → strip <$> (from i v T' ++ v_buffer V') = strip <$> on_vc v (g_received G i).
Proof.
  intros Hrm. rewrite <- (vi_received _ _ _ _ _ _ _ _ HV), from_snoc, decide_True by done. rewrite (rm_buffer _ _ _ Hrm), Hq, <- app_assoc.
  rewrite !fmap_app. simpl. by rewrite (de_strip _ _ _ _ Hd).
Qed.

Lemma sent_base V' : removed V V' q → vc_base E T' i v V'.
Proof.
  intros [R1 R2 R3 R4 R5 R6]. destruct (vi_ok _ _ _ _ _ _ _ _ HV) as [K1 K2 K3 K4 _]. rewrite Hq in K1. unfold unrouted in K2. rewrite Hst, Hq in K2.
  split; rewrite ?R1, ?R3; try done; [by apply Forall_cons in K1 as [_ ?]|]. destruct K4 as (e & Hs & He & Hp). exists e. rewrite R1, R6. split; [|done].
  unfold open_pid. rewrite sent_mid. rewrite Hq in Hs. unfold open_pid in Hs. destruct send_kind as [(Hh & Hm & _)|[Hh Hm]]; rewrite Hm in Hs; simpl in Hs; rewrite Hh in Hs; simpl in Hs.
  - by destruct (f_tail f).
  - rewrite Z.eqb_refl in Hs. simpl in Hs. by destruct (f_tail f).
Qed.

Section moved.
Context (bufs' : list Buffer) (V' : VC) (bs' : BufferState) (g : Rng).
Context (Hc : changed E (iq_buf st) bufs' i v V') (Hinv : inv bs') (Hcore : core bs' = sent (core ((iq_next_buf st)⟦o⟧)) f').
Local Abbreviation nbs' := ((iq_next_buf st)⟦o := bs'⟧).
Local Abbreviation st' := (sent_state i v o f' bufs' bs' g st).

(** The owners of the other output VCs. *)
Lemma sent_at o' w' : vout E o' w' → (o', w') ≠ (o, w) →
  let c := core (nbs'⟦o'⟧) in let c0 := core ((iq_next_buf st)⟦o'⟧) in
  is_open c w' = is_open c0 w' ∧ (in_use_by c)⟦w'⟧ = (in_use_by c0)⟦w'⟧.
Proof.
  intros [Ho' Hw'] Hne. destruct send_vout as [Ho Hw]. pose proof (ne_len _ _ _ _ _ (in_nexts _ _ _ _ HI)) as Hl. rewrite znth_zupd by lia.
  case_decide; [subst o'|done]. assert (w' ≠ w) by congruence. rewrite Hcore. unfold is_open, sent. rewrite (de_vc _ _ _ _ Hd). simpl.
  destruct (f_tail f'), (wait_for_tail_credit _); simpl; rewrite ?znth_zupd_ne by lia; done.
Qed.

(** ... and its own, before the tail. *)
Lemma sent_own : f_tail f = false → let c := core (nbs'⟦o⟧) in is_open c w = true ∧ (in_use_by c)⟦w⟧ = i * q_vcs C + v.
Proof.
  intros Ht. destruct send_vout as [Ho Hw]. pose proof (ne_len _ _ _ _ _ (in_nexts _ _ _ _ HI)) as Hl. rewrite znth_zupd_eq by lia. rewrite Hcore.
  unfold is_open, sent. destruct departs_facts as (_ & -> & _). rewrite Ht. apply (vi_owner _ _ _ _ _ _ _ _ HV Hst).
Qed.

Lemma sent_other j u : vin E j u → (j, u) ≠ (i, v) →
  vc_inv E T' (g_received G) nbs' (iq_switch_hold st) j u (vcat bufs' j u).
Proof.
  intros Hj Hne. rewrite (changed_same E _ _ _ _ _ _ _ Hc Hj Hne). destruct (in_vc _ _ _ _ HI j u Hj ltac:(congruence)) as [[K1 K2 K3 K4 K5] I2 I3 I4].
  assert (¬ is_from j u m) as Hnf by (intros [E1 E2]; simpl in *; congruence).
  assert (mid j u T' = mid j u T) as Em by (by rewrite mid_snoc, decide_False).
  split; [split; try done| |intros Ha|done].
  - unfold streaming, open_pid. by rewrite Em.
  - unfold vc_state_ok. by rewrite Em.
  - by rewrite from_snoc, decide_False.
  - unfold vc_state_ok in K5. rewrite Ha in K5. destruct (sent_at _ _ (proj1 K5) (send_alone j u Hj Hne Ha)) as [E1 E2]. destruct (I3 Ha) as [J1 J2].
    split; [by rewrite E1|by rewrite E2].
Qed.

Lemma sent_nexts : nexts E T' (g_credited G) (iq_proc_credits st) nbs'.
Proof.
  destruct send_vout as [Ho Hw]. destruct (in_nexts _ _ _ _ HI) as [N1 N2 N3 N4]. split; [lens| | |done].
  - intros o' Ho'. rewrite znth_zupd by lia. case_decide; [subst o'|by apply N2]. rewrite Hcore. destruct (N2 _ Ho) as (_ & ? & ?). done.
  - intros o' w' [Ho' Hw']. specialize (N3 o' w' (conj Ho' Hw')). rewrite to_port_snoc, znth_zupd by lia. simpl.
    destruct (decide (o = o')) as [<-|]; [|done]. rewrite nflits_snoc, Hcore, (de_vc _ _ _ _ Hd).
    destruct (N2 _ Ho) as ([Hco _] & Hvcs & _). pose proof (co_occ_len _ Hco). unfold occ in *. simpl. rewrite (de_vc _ _ _ _ Hd), znth_zupd by lia.
    unfold occ. case_decide; [subst w'|]; lia.
Qed.

Lemma sent_outs : outs E T' (g_sent G) (iq_crossbar_flits st ++ [(-1, (f', (expanded_input C i v, o)))]) (iq_output_buffer st).
Proof.
  destruct send_vout as [Ho Hw]. destruct (in_outs _ _ _ _ HI) as [O1 O2 O3 O4 O5]. split; [apply send_worm| |done| |].
  - apply Forall_snoc; [done|]. destruct send_flit_facts as [_ [Hp Hh]]. destruct departs_facts as (Eh & _ & Ep).
    unfold move_ok, flit_ok. simpl. rewrite (de_vc _ _ _ _ Hd), (de_hops _ _ _ _ Hd), Eh, Ep. split_and!; try done; try lia; try apply Hin. apply Hd.
  - intros o' Ho'. rewrite to_port_snoc, O4 by done. unfold in_crossbar. rewrite filter_snoc. simpl.
    destruct (decide (o = o')); [|done]. by rewrite fmap_app, <- !app_assoc.
  - apply Forall_snoc; [done|]. simpl. split; [by apply expanded_input_range|done].
Qed.

Lemma sent_credits : v ∉ queued i (iq_out_queue_credits st) →
  credit_book E T' (g_credits G) (add_credit i v (iq_out_queue_credits st)) (iq_credit_buffer st).
Proof.
  intros Hnew. destruct (in_credits _ _ _ _ HI) as [C1 C2 C3 C4]. split; [done| |by apply msorted_mset|].
  - intros j u Hj. rewrite from_snoc, queued_add by done. specialize (C2 j u Hj). destruct (decide (j = i)) as [->|Hne].
    + rewrite cnt_vc_insert by done. case_decide as Hd'.
      * destruct Hd' as [_ Ev]. simpl in Ev. subst u. rewrite decide_True by done. unfold zlen in *. rewrite length_app. simpl. lia.
      * rewrite decide_False by (intros ->; by destruct Hd'). lia.
    + rewrite decide_False by (intros [Ej _]; simpl in Ej; congruence). lia.
  - unfold add_credit. apply Forall_forall. intros [j c] Hx. apply elem_mfind in Hx; [|by apply msorted_mset].
    rewrite mfind_mset in Hx by done. case_decide as Hj.
    + injection Hx as <-. subst j. simpl. split; [apply Hin|]. intros Hnil. by apply (not_elem_of_nil v); rewrite <- Hnil; apply elem_vc_insert; left.
    + apply elem_mfind in Hx; [|done]. rewrite Forall_forall in C4. by apply (C4 _ Hx).
Qed.

Lemma Inv_send : v ∉ queued i (iq_out_queue_credits st) → RngInv.rng_ok g → Inv E (Some (i, v)) (add_move m G) st'.
Proof.
  intros Hnew Hg. pose proof HI as [H1 H2 H3 H4 H5 H6 H7 H8]. split; simpl; [by apply Hc| |done| |apply sent_nexts|apply sent_outs|by apply sent_credits|].
  - intros j u Hj Hne. apply sent_other; [done|congruence].
  - destruct H4 as [Q1 Q2 Q3 Q4]. assert (∀ X l, members E (λ j u, if decide (Some (i, v) = Some (j, u)) then Nowhere else place_at E (iq_buf st) (iq_switch_hold st) j u) X l →
      members E (λ j u, if decide (Some (i, v) = Some (j, u)) then Nowhere else place_at E bufs' (iq_switch_hold st) j u) X l) as Hk; [|split; by apply Hk].
    intros X l. apply (members_keep E _ _ X l i v); [|by rewrite !decide_True].
    intros j u Hj Hne. rewrite !decide_False by congruence. unfold place_at. by rewrite (changed_same E _ _ _ _ _ _ _ Hc Hj Hne).
  - destruct H8. split; done.
Qed.
End moved.
End move.
End send.
