(* ===== verification/RouterSwitch.v ===== *)
(** * The input-queued router: switch updates

    [_SWHoldUpdate] and [_SWAllocUpdate]: flits cross, and their VCs wait for their
    next flit, hold a connection, start the next packet, or fall idle. *)

From S2P Require Import Prelude StdMap OutputSet Flit VCBuffer BufferState BufferStateInv Credits Link Arbiter Allocator AllocLaws Rng Route SwitchAlloc IQRouter IQSwitch Wormhole RouterInv RouterQueues RouterStages RouterRoute RouterVCAlloc RouterSwitchAlloc RouterSend.
Import CoreOps Credits Link IQRouterOps IQSwitchOps.

Section switch.
Context {VA SA PA : Type} (E : Setup VA SA PA).
Local Abbreviation C := (su_C E).
Local Abbreviation IQ := (IQRouter VA SA PA).
Local Abbreviation n := (q_inputs C * q_input_speedup C).
Implicit Types (st : IQ) (G : Ghost) (h : Hold).

(** ** Connections *)

Definition hold_at (h : Hold) (e o hi ho hv : Z) : Hold := mkHold ((h_in h)⟦e := hi⟧) ((h_out h)⟦o := ho⟧) ((h_vc h)⟦e := hv⟧).

(** [h'] is a change of [h] for [i], [v] at output [o]. *)
Record reheld (h h' : Hold) (i v o : Z) : Prop := {
  rh_ok : hold_ok E h';
  rh_held : ∀ j u, vin E j u → (j, u) ≠ (i, v) → held E h' j u = held E h j u;
  rh_in : ∀ e, 0 ≤ e < n → e ≠ expanded_input C i v → (h_vc h')⟦e⟧ = (h_vc h)⟦e⟧ ∧ (h_in h')⟦e⟧ = (h_in h)⟦e⟧;
  rh_out : ∀ o', 0 ≤ o' < q_outputs C → o' ≠ o → (h_out h')⟦o'⟧ = (h_out h)⟦o'⟧;
  rh_here : ∀ u, 0 ≤ u < q_vcs C → u ≠ v → held E h i u = true → expanded_input C i u ≠ expanded_input C i v
}.

Lemma put_hold_ok h e o hi ho hv st : iq_switch_hold st = h → hold_ok E h → 0 ≤ e < n → 0 ≤ o < q_outputs C →
  put_hold e o hi ho hv st = Ok (set_switch_hold (hold_at h e o hi ho hv) st).
Proof.
  intros <- [H1 H2 H3 _ _ _] He Ho. unfold put_hold. rewrite vset_ok by lia. cbn [mbind res_bind]. rewrite vset_ok by lia. cbn [mbind res_bind].
  rewrite vset_ok by lia. done.
Qed.

Section at_output.
Context (h : Hold) (i v o : Z) (Hh : hold_ok E h) (Hin : vin E i v) (Ho : 0 ≤ o < q_outputs C).
Local Abbreviation e := (expanded_input C i v).

Lemma reheld_same : (h_vc h)⟦e⟧ = v ∨ (h_vc h)⟦e⟧ < 0 → reheld h h i v o.
Proof.
  intros Hv. split; try done. intros u Hu Hne Hhu Ee. unfold held in Hhu. rewrite Ee in Hhu. destruct Hin. bool_to_prop. lia.
Qed.

Lemma held_other hv hi ho j u : hv = v ∨ hv = -1 → (h_vc h)⟦e⟧ = v ∨ (h_vc h)⟦e⟧ < 0 → vin E j u → (j, u) ≠ (i, v) →
  held E (hold_at h e o hi ho hv) j u = held E h j u.
Proof.
  intros Hhv Hv Hj Hne. unfold held, hold_at. simpl. pose proof (expanded_input_range E _ _ Hin). pose proof (expanded_input_range E _ _ Hj).
  rewrite znth_zupd by (rewrite ?(ho_vc_len _ _ Hh); lia). case_decide as Ee; [|done]. rewrite <- Ee. pose proof (expanded_input_inj E _ _ _ _ Hin Hj Ee). subst j.
  assert (u ≠ v) by congruence. destruct Hin, Hj. destruct (Z.eqb_spec hv u) as [E1|E1], (Z.eqb_spec ((h_vc h)⟦e⟧) u) as [E2|E2]; try done; lia.
Qed.

Lemma reheld_at hi ho hv : hv = v ∨ hv = -1 → (h_vc h)⟦e⟧ = v ∨ (h_vc h)⟦e⟧ < 0 → hold_ok E (hold_at h e o hi ho hv) →
  reheld h (hold_at h e o hi ho hv) i v o.
Proof.
  intros Hhv Hv Hok. pose proof (expanded_input_range E _ _ Hin). destruct Hh as [L1 L2 L3 _ _ _]. split; [done| | | |by apply reheld_same].
  - intros j u Hj Hne. by apply held_other.
  - intros e' He' Hne. simpl. by rewrite !znth_zupd_ne by lia.
  - intros o' Ho' Hne. simpl. by rewrite znth_zupd_ne by lia.
Qed.

(** A connection is given up. *)
Lemma cancel_hold_ok : (h_vc h)⟦e⟧ = v → (h_in h)⟦e⟧ = o →
  let h' := hold_at h e o (-1) (-1) (-1) in reheld h h' i v o ∧ held E h' i v = false.
Proof.
  intros Hv Hi h'. pose proof (expanded_input_range E _ _ Hin) as He. pose proof Hh as [L1 L2 L3 L4 L5 L6].
  assert ((h_out h)⟦o⟧ = e) as Hoe. { destruct (L4 e He) as [[Hx _]|(_ & _ & Hx)]; [destruct Hin; lia|]. by rewrite Hi in Hx. }
  split.
  - apply reheld_at; auto. split; try (unfold hold_at; simpl; lens).
    + intros e' He'. simpl. rewrite !znth_zupd by lia. case_decide; [left; lia|]. destruct (L4 e' He') as [?|(? & ? & Ho')]; [auto|]. right.
      split_and!; try lia. rewrite znth_zupd by lia. case_decide as Eo; [|done]. rewrite <- Eo, Hoe in Ho'. done.
    + intros o' Ho'. simpl. rewrite znth_zupd by lia. case_decide; [auto|]. destruct (L5 o' Ho') as [?|[? Ho2]]; [auto|]. right. split; [done|].
      rewrite znth_zupd by lia. case_decide as Eo; [|done]. rewrite <- Eo in Ho2. congruence.
    + intros Hopt e' He'. simpl. rewrite znth_zupd by lia. case_decide; [done|by apply L6].
  - unfold held, h'. simpl. rewrite znth_zupd_eq by lia. destruct Hin. lia.
Qed.

(** ... or made. *)
Lemma make_hold_ok : q_hold_switch_for_packet C = true → (h_vc h)⟦e⟧ < 0 → (h_in h)⟦e⟧ < 0 → (h_out h)⟦o⟧ < 0 →
  let h' := hold_at h e o o e v in reheld h h' i v o ∧ held E h' i v = true ∧ (h_in h')⟦e⟧ = o.
Proof.
  intros Hopt Hv Hi Hoe h'. pose proof (expanded_input_range E _ _ Hin) as He. pose proof Hh as [L1 L2 L3 L4 L5 L6].
  split_and!.
  - apply reheld_at; auto. split; try (unfold hold_at; simpl; lens).
    + intros e' He'. simpl. rewrite !znth_zupd by lia. case_decide; [subst e'; right|].
      * destruct Hin. rewrite znth_zupd_eq by lia. lia.
      * destruct (L4 e' He') as [?|(? & ? & Ho')]; [auto|]. right. split_and!; try lia. rewrite znth_zupd by lia. case_decide as Eo; [|done].
        rewrite <- Eo in Ho'. lia.
    + intros o' Ho'. simpl. rewrite znth_zupd by lia. case_decide; [subst o'; right; rewrite znth_zupd_eq by lia; done|].
      destruct (L5 o' Ho') as [?|[? Ho2]]; [auto|]. right. split; [done|]. rewrite znth_zupd by lia. case_decide as Eo; [|done]. rewrite <- Eo in Ho2. lia.
    + by rewrite Hopt.
  - unfold held, h'. simpl. rewrite znth_zupd_eq by lia. lia.
  - simpl. by rewrite znth_zupd_eq by lia.
Qed.
End at_output.

(** ** A VC comes to rest *)

Lemma Inv_hold G st i v o h' : Inv E (Some (i, v)) G st → vin E i v → reheld (iq_switch_hold st) h' i v o → Inv E (Some (i, v)) G (set_switch_hold h' st).
Proof.
  intros [H1 H2 H3 H4 H5 H6 H7 H8] Hin [R1 R2 R3 R4 R5]. split; try done; simpl.
  - intros j u Hj Hne. destruct (H2 j u Hj Hne) as [I1 I2 I3 I4]. split; try done. intros Hh. rewrite R2 in Hh by (done || congruence).
    destruct (I4 Hh) as (? & ? & Hi). split_and!; try done. destruct (R3 _ (expanded_input_range E _ _ Hj)) as [_ ->]; [|done].
    intros Ee. pose proof (expanded_input_inj E _ _ _ _ Hj Hin Ee). subst j. apply (R5 u); try done; [apply Hj|congruence].
  - destruct H4 as [Q1 Q2 Q3 Q4].
    assert (∀ X l, members E (λ j u, if decide (Some (i, v) = Some (j, u)) then Nowhere else place_at E (iq_buf st) (iq_switch_hold st) j u) X l →
      members E (λ j u, if decide (Some (i, v) = Some (j, u)) then Nowhere else place_at E (iq_buf st) h' j u) X l) as Hk; [|split; by apply Hk].
    intros X l. apply (members_keep E _ _ X l i v); [|by rewrite !decide_True].
    intros j u Hj Hne. rewrite !decide_False by congruence. unfold place_at. by rewrite R2 by congruence.
Qed.

Lemma Inv_settle G st i v o bufs' V' h' :
  Inv E (Some (i, v)) G st → vin E i v → changed E (iq_buf st) bufs' i v V' → reheld (iq_switch_hold st) h' i v o →
  vc_inv E (g_moves G) (g_received G) (iq_next_buf st) h' i v V' →
  Inv E None G (push (place_of V' (held E h' i v)) i v (set_buf bufs' (set_switch_hold h' st))).
Proof. intros HI Hin Hc Hr HV. by apply (Inv_join E G (set_switch_hold h' st) i v bufs' V'); [eapply Inv_hold|..]. Qed.

(** The grants that are left are at other inputs and outputs of the switch. *)
Definition apart (i v o : Z) st : Prop :=
  Forall (λ x, granted x → x.2.2 ≠ o) (iq_sw_hold_vcs st) ∧
  Forall (λ x, granted x → x.2.2 ≠ o ∧ expanded E x ≠ expanded_input C i v ∧ vin E x.2.1.1 x.2.1.2 ∧ x.2.2 < q_outputs C) (iq_sw_alloc_vcs st).

Lemma busy_settle now G st i v o bufs' V' h' X :
  Inv E (Some (i, v)) G st → busy E now st → changed E (iq_buf st) bufs' i v V' → reheld (iq_switch_hold st) h' i v o → apart i v o st →
  busy E now (push X i v (set_buf bufs' (set_switch_hold h' st))).
Proof.
  intros HI HB Hc [R1 R2 R3 R4 R5] [_ Ha]. apply (busy_push E now (set_buf bufs' (set_switch_hold h' st)) X i v).
  pose proof (busy_taken E now G st bufs' i v V' HI HB Hc) as [B1 B2 B3 B4 B5 B6 B7 B8 B9 B10 B11 B12 B13]. split; try done. simpl in *.
  eapply Forall_implies; [exact B8|exact Ha|]. intros [t [[j u] r]] Hs Hx Hg. specialize (Hs Hg). destruct (Hx Hg) as (Hno & He & Hj & Hr).
  unfold expanded, granted in *. simpl in *. destruct Hs as (S1 & S2 & S3 & S4). split; [done|].
  destruct (R3 _ (expanded_input_range E _ _ Hj) He) as [-> ->]. by rewrite R4 by lia.
Qed.

(** ** After a flit has left *)

Definition settles G st i v o st' : Prop := ∃ bufs' V' h',
  st' = push (place_of V' (held E h' i v)) i v (set_buf bufs' (set_switch_hold h' st)) ∧ changed E (iq_buf st) bufs' i v V' ∧
  reheld (iq_switch_hold st) h' i v o ∧ vc_inv E (g_moves G) (g_received G) (iq_next_buf st) h' i v V'.

(** A flit, which is a tail or not, has left the VC over output [o]. *)
Record left_by G st i v o (tl : bool) : Prop := {
  lb_shape : shape E (iq_buf st);
  lb_in : vin E i v;
  lb_state : v_state (vcat (iq_buf st) i v) = active;
  lb_port : v_out_port (vcat (iq_buf st) i v) = o;
  lb_vout : vout E o (v_out_vc (vcat (iq_buf st) i v));
  lb_base : vc_base E (g_moves G) i v (vcat (iq_buf st) i v);
  lb_mid : match mid i v (g_moves G) with None => tl = true | Some (o', w', _) => tl = false ∧ o' = o ∧ w' = v_out_vc (vcat (iq_buf st) i v) end;
  lb_received : strip <$> (from i v (g_moves G) ++ v_buffer (vcat (iq_buf st) i v)) = strip <$> on_vc v (g_received G i);
  lb_owner : tl = false → let c := core ((iq_next_buf st)⟦o⟧) in let w := v_out_vc (vcat (iq_buf st) i v) in
    is_open c w = true ∧ (in_use_by c)⟦w⟧ = i * q_vcs C + v;
  lb_alloc : is_Some (iq_vc_allocator st);
  lb_hold : hold_ok E (iq_switch_hold st)
}.

Section left_by.
Context (G : Ghost) (st : IQ) (i v o : Z).
Local Abbreviation V := (vcat (iq_buf st) i v).
Local Abbreviation e := (expanded_input C i v).

Lemma lb_stay : left_by G st i v o false → ∀ h', reheld (iq_switch_hold st) h' i v o →
  (held E h' i v = true → v_buffer V ≠ [] ∧ (h_in h')⟦e⟧ = o) → settles G st i v o (push (place_of V (held E h' i v)) i v (set_switch_hold h' st)).
Proof.
  intros [L1 L2 L3 L4 L5 [B1 B2 B3 B4] L7 L8 L9 L10 L11] h' Hr Hh. exists (iq_buf st), V, h'. split_and!; try done.
  - split; [done|]. intros j u _. case_decide as Eq; [|done]. by destruct Eq as [-> ->].
  - split; [split; try done|done| |].
    + unfold unrouted. rewrite L3. by destruct (v_buffer V); [|apply Forall_cons in B2 as [_ ?]].
    + unfold vc_state_ok. rewrite L3, L4. split; [done|]. destruct (mid i v (g_moves G)) as [[[o' w'] p]|]; [|done]. tauto.
    + intros _. rewrite L4. by apply L9.
    + intros Hx. rewrite L3, L4. destruct (Hh Hx). done.
Qed.

Lemma lb_mid_tail : left_by G st i v o true → mid i v (g_moves G) = None.
Proof. intros HL. pose proof (lb_mid _ _ _ _ _ _ HL). destruct (mid i v (g_moves G)) as [[[? ?] ?]|]; [|done]. by destruct_and?. Qed.

Lemma lb_idle h' : left_by G st i v o true → v_buffer V = [] → reheld (iq_switch_hold st) h' i v o → held E h' i v = false →
  returns (set_state i v idle (set_switch_hold h' st)) (settles G st i v o).
Proof.
  intros HL Hq Hr Hh. pose proof (lb_mid_tail HL) as Hm. destruct HL as [L1 L2 L3 L4 L5 [B1 B2 B3 B4] _ L8 L9 L10 L11].
  destruct (vget_buf E _ _ _ L1 L2) as (E1 & Hvl & _). unfold set_state. cbn [iq_buf set_switch_hold]. rewrite E1. cbn [mbind res_bind].
  eapply returns_bind; [by apply update_vc_ok|]. intros b Hb.
  eapply returns_mono; [by apply (put_buf_ok E (iq_buf st) i v _ _ (set_switch_hold h' st) L1 L2 eq_refl Hb)|]. intros st' (bufs' & -> & Hc).
  exists bufs', (VCOps.SetState idle V), h'. split_and!; try done. split; [split; try done|done|done|by rewrite Hh].
Qed.

Lemma lb_next sinks f g q h' : left_by G st i v o true → v_buffer V = f :: q → f_la_route_set g = f_la_route_set f →
  reheld (iq_switch_hold st) h' i v o → held E h' i v = false →
  returns (start_packet C (su_rf E) sinks i v g (set_switch_hold h' st)) (settles G st i v o).
Proof.
  intros HL Hq Hg Hr Hh. pose proof (lb_mid_tail HL) as Hm. destruct HL as [L1 L2 L3 L4 L5 L6 _ L8 L9 L10 L11].
  eapply returns_mono; [by apply (start_packet_ok E sinks (g_moves G) (set_switch_hold h' st) i v f g q)|].
  intros st' (bufs' & V' & Hc & Hok & Hq' & Hna & Es). exists bufs', V', h'. split_and!; try done. split; try done.
  - rewrite Hq', <- Hq. done.
  - by rewrite Hh.
Qed.

Lemma lb_head f q : left_by G st i v o true → v_buffer V = f :: q → f_head f = true.
Proof.
  intros HL Hq. pose proof (lb_mid_tail HL) as Hm. destruct (vb_stream _ _ _ _ _ (lb_base _ _ _ _ _ _ HL)) as (e0 & Hs & _).
  rewrite Hq in Hs. unfold open_pid in Hs. rewrite Hm in Hs. simpl in Hs. by destruct (f_head f).
Qed.

Lemma next_front_ok tl : left_by G st i v o tl → next_front i v st = Ok (head (v_buffer V)).
Proof.
  intros [L1 L2 L3 L4 L5 [B1 B2 B3 B4] _ L8 L9 L10 L11]. destruct (vget_buf E _ _ _ L1 L2) as (E1 & Hvl & E2). unfold next_front.
  rewrite E1. cbn [mbind res_bind]. unfold BufferOps.FrontFlit. rewrite E2. cbn [mbind res_bind]. unfold VCOps.FrontFlit.
  destruct (v_buffer V) as [|f q]; [done|]. apply Forall_cons in B1 as [[Hv _] _]. simpl. by rewrite Hv, Z.eqb_refl.
Qed.

Lemma set_hold_same : set_switch_hold (iq_switch_hold st) st = st.
Proof. by destruct st. Qed.

Lemma hold_next_ok sinks f : left_by G st i v o (f_tail f) → let h := iq_switch_hold st in (h_vc h)⟦e⟧ = v → (h_in h)⟦e⟧ = o →
  returns (hold_next C (su_rf E) sinks i v e o f st) (settles G st i v o).
Proof.
  intros HL h Hv Hi. unfold hold_next. rewrite (next_front_ok _ HL). cbn [mbind res_bind].
  destruct (lb_vout _ _ _ _ _ _ HL) as [Ho _]. pose proof (lb_in _ _ _ _ _ _ HL) as Hin. pose proof (lb_hold _ _ _ _ _ _ HL) as Hok.
  destruct (cancel_hold_ok h i v o Hok Hin Ho Hv Hi) as [Hr Hnh]. unfold cancel_hold.
  rewrite (put_hold_ok h) by (done || by apply expanded_input_range). destruct (v_buffer V) as [|nf q] eqn:Hq; cbn [head mbind res_bind].
  - destruct (f_tail f); [by apply lb_idle|]. apply returns_ok. pose proof (lb_stay HL _ Hr) as Hs. rewrite Hnh in Hs.
    unfold place_of, VCOps.Empty in Hs. rewrite (lb_state _ _ _ _ _ _ HL), Hq in Hs. by apply Hs.
  - destruct (f_tail f); [rewrite (lb_head nf q HL Hq); by apply (lb_next sinks nf nf q)|]. apply returns_ok.
    pose proof (lb_stay HL h (reheld_same h i v o Hok Hin ltac:(by left))) as Hs. assert (held E h i v = true) as Eh by (unfold held; lia). rewrite Eh in Hs.
    unfold place_of, VCOps.Empty in Hs. rewrite (lb_state _ _ _ _ _ _ HL), Hq in Hs. unfold h in Hs. rewrite set_hold_same in Hs. by apply Hs.
Qed.

Lemma sw_next_ok sinks f : left_by G st i v o (f_tail f) → let h := iq_switch_hold st in (h_vc h)⟦e⟧ < 0 → (h_in h)⟦e⟧ < 0 → (h_out h)⟦o⟧ < 0 →
  returns (sw_next C (su_rf E) sinks i v e o f st) (settles G st i v o).
Proof.
  intros HL h Hv Hi Hoe. unfold sw_next. rewrite (next_front_ok _ HL). cbn [mbind res_bind].
  destruct (lb_vout _ _ _ _ _ _ HL) as [Ho _]. pose proof (lb_in _ _ _ _ _ _ HL) as Hin. pose proof (lb_hold _ _ _ _ _ _ HL) as Hok.
  pose proof (reheld_same h i v o Hok Hin ltac:(by right)) as Hsame. assert (held E h i v = false) as Hnh by (unfold held; destruct Hin; lia).
  rewrite (put_hold_ok h) by (done || by apply expanded_input_range).
  assert (f_tail f = false → settles G st i v o (push (place_of V false) i v st)) as Hstay.
  { intros Ht. rewrite Ht in HL. pose proof (lb_stay HL h Hsame) as Hs. rewrite Hnh in Hs. unfold h in Hs. rewrite set_hold_same in Hs. by apply Hs. }
  unfold place_of, VCOps.Empty in Hstay. rewrite (lb_state _ _ _ _ _ _ HL) in Hstay.
  destruct (v_buffer V) as [|nf q] eqn:Hq; cbn [head mbind res_bind].
  - destruct (f_tail f); [|by apply returns_ok, Hstay]. rewrite <- set_hold_same. by apply lb_idle.
  - destruct (f_tail f) eqn:Ht; [rewrite (lb_head nf q HL Hq); rewrite <- set_hold_same at 1; by apply (lb_next sinks nf nf q)|].
    destruct (q_hold_switch_for_packet C) eqn:Hopt; apply returns_ok; [|by apply Hstay].
    destruct (make_hold_ok h i v o Hok Hin Ho Hopt Hv Hi Hoe) as (Hr & Hnew & Hin'). pose proof (lb_stay HL _ Hr) as Hs. rewrite Hnew in Hs. unfold place_of, VCOps.Empty in Hs. rewrite (lb_state _ _ _ _ _ _ HL), Hq in Hs. by apply Hs.
Qed.
End left_by.

(** ** Sending *)

Lemma busy_send now G st i v f q f' bufs' V' bs' g :
  let V := vcat (iq_buf st) i v in let o := v_out_port V in
  Inv E (Some (i, v)) G st → busy E now st → past 2 now st → apart i v o st → vout E o (v_out_vc V) → v_buffer V = f :: q →
  changed E (iq_buf st) bufs' i v V' →
  busy E now (sent_state E i v o f' bufs' bs' g st).
Proof.
  intros V o HI HB HP [Ha1 Ha2] [Ho _] Hq Hc. pose proof (busy_taken E now G st bufs' i v V' HI HB Hc) as [B1 B2 B3 B4 B5 B6 B7 B8 B9 B10 B11 B12 B13].
  pose proof (in_queues _ _ _ _ HI) as [_ _ [_ Q3] [_ Q4]]. split; try done; simpl in *.
  - by apply staged_snoc.
  - apply fresh_vacuous. by apply (pa_vc _ _ _ HP).
  - eapply Forall_implies; [exact B7|exact Ha1|]. intros [t [[j u] r]] Hs Hx Hg. destruct (Hs Hg) as [S1 S2]. unfold granted in Hg. simpl in *.
    split; [done|]. by rewrite znth_zupd_ne by (specialize (Hx Hg); lia).
  - eapply Forall_implies; [exact B8|exact Ha2|]. intros [t [[j u] r]] Hs Hx Hg. destruct (Hs Hg) as [[S1 S2] S3]. unfold granted in Hg. simpl in *.
    split; [|done]. split; [done|]. by rewrite znth_zupd_ne by (destruct (Hx Hg); lia).
  - apply Forall_forall. intros x Hx Ht. rewrite Forall_forall in B13. specialize (B13 x Hx Ht). rewrite queued_add by apply (in_credits _ _ _ _ HI).
    case_decide as Ei; [|done]. rewrite elem_vc_insert. rewrite <- Ei. intros [Ev|?]; [|done].
    assert ((i, v) ∈ key <$> iq_sw_hold_vcs st ∨ (i, v) ∈ key <$> iq_sw_alloc_vcs st) as [Hk|Hk].
    { apply elem_of_app in Hx. rewrite <- Ei, <- Ev. destruct x as [t [[j u] r]]. simpl. by destruct Hx; [left|right]; apply list_elem_of_fmap; exists (t, (j, u, r)). }
    + apply Q3 in Hk as [_ Hk]. by rewrite decide_True in Hk.
    + apply Q4 in Hk as [_ Hk]. by rewrite decide_True in Hk.
Qed.

Lemma past_send k now i v o f bufs bs g st : (k ≤ 4)%nat → past k now st → past k now (sent_state E i v o f bufs bs g st).
Proof. intros Hk [P1 P2 P3 P4 P5]. split; try done. lia. Qed.

Lemma past_settle k now st i v bufs h X : past k now st → past k now (push X i v (set_buf bufs (set_switch_hold h st))).
Proof. intros [P1 P2 P3 P4 P5]. by apply past_push. Qed.

Lemma sent_left_by G st i v f q f' bufs' V' bs' g :
  let V := vcat (iq_buf st) i v in let o := v_out_port V in
  Inv E (Some (i, v)) G st → vin E i v → vc_inv E (g_moves G) (g_received G) (iq_next_buf st) (iq_switch_hold st) i v V →
  v_state V = active → v_buffer V = f :: q → departs E o (v_out_vc V) f f' → changed E (iq_buf st) bufs' i v V' → removed V V' q →
  core bs' = sent (core ((iq_next_buf st)⟦o⟧)) f' →
  left_by (add_move (mkMove i v o f') G) (sent_state E i v o f' bufs' bs' g st) i v o (f_tail f).
Proof.
  intros V o HI Hin HV Hst Hq Hd Hc Hrm Hcore. pose proof (send_vout E G st i v HV Hst) as Hvo.
  split; cbn [iq_buf sent_state set_out_queue_credits set_crossbar_flits set_next_buf set_rng set_buf iq_next_buf iq_vc_allocator iq_switch_hold g_moves g_received add_move];
    rewrite ?(changed_at E _ _ _ _ _ Hc Hin), ?(rm_port _ _ _ Hrm), ?(rm_vc _ _ _ Hrm); try done.
  - by apply Hc, HI.
  - by rewrite (rm_state _ _ _ Hrm).
  - by apply (sent_base E G st i v f q).
  - pose proof (sent_mid E G st i v f f' Hd) as Em. fold V in Em. fold o in Em. rewrite Em. by destruct (f_tail f).
  - by apply (sent_received E G st i v f q).
  - intros Ht. by apply (sent_own E G st i v f HI HV Hst f' Hd bs' Hcore).
  - destruct (al_vc _ _ _ _ _ _ (in_allocs _ _ _ _ HI)) as (va & -> & _). by eexists.
  - apply HI.
Qed.

(** ** The updates *)

(** Only moves have been added. *)
Definition advances G G' : Prop :=
  (∃ k, g_moves G' = g_moves G ++ k) ∧ g_received G' = g_received G ∧ g_credited G' = g_credited G ∧ g_sent G' = g_sent G ∧ g_credits G' = g_credits G.

Lemma advances_refl G : advances G G.
Proof. split; [|done]. exists []. by rewrite app_nil_r. Qed.

Lemma advances_trans G1 G2 G3 : advances G1 G2 → advances G2 G3 → advances G1 G3.
Proof.
  intros ([k1 E1] & ? & ? & ? & ?) ([k2 E2] & ? & ? & ? & ?). split_and!; try congruence. exists (k1 ++ k2). by rewrite E2, E1, app_assoc.
Qed.

Lemma advances_move m G G' : advances G G' → advances G (add_move m G').
Proof. intros ([k Ek] & H1 & H2 & H3 & H4). split; [|done]. exists (k ++ [m]). simpl. by rewrite Ek, app_assoc. Qed.

(** A flit leaves, and its VC comes to rest. *)
Lemma cross_ok sinks now k G st i v :
  let V := vcat (iq_buf st) i v in let o := v_out_port V in
  sinks_ok E sinks → Inv E (Some (i, v)) G st → busy E now st → past k now st → (2 ≤ k ≤ 4)%nat → vin E i v →
  vc_inv E (g_moves G) (g_received G) (iq_next_buf st) (iq_switch_hold st) i v V → v_state V = active → v_buffer V ≠ [] →
  apart i v o st → has_slot ((iq_next_buf st)⟦o⟧) (v_out_vc V) → v ∉ queued i (iq_out_queue_credits st) →
  ∀ st1, iq_buf st1 = iq_buf st → iq_next_buf st1 = iq_next_buf st → iq_rng st1 = iq_rng st →
  returns (send_flit C (su_rf E) sinks now i v o (v_out_vc V) (expanded_input C i v) o st1) (λ y, ∃ bufs' bs' g m,
    let S := sent_state E i v o y.1 bufs' bs' g st in
    y.2 = sent_state E i v o y.1 bufs' bs' g st1 ∧ left_by (add_move m G) S i v o (f_tail y.1) ∧
    ∀ st', settles (add_move m G) S i v o st' → Inv E None (add_move m G) st' ∧ busy E now st' ∧ past k now st' ∧ io st' = io st ∧ awake st').
Proof.
  intros V o Hsk HI HB HP Hk Hin HV Hst Hne Hap Hsl Hnew st1 E1 E2 E3. destruct (v_buffer V) as [|f q] eqn:Hq; [done|].
  pose proof (send_vout E G st i v HV Hst) as Hvo. pose proof (in_nexts _ _ _ _ HI) as HN. destruct (ne_inv _ _ _ _ _ HN _ (proj1 Hvo)) as (Hinv & Hvcs & _).
  destruct (vi_owner _ _ _ _ _ _ _ _ HV Hst) as [Hop _].
  eapply returns_mono.
  - apply (send_flit_ok E sinks now st1 i v o (v_out_vc V) f q); rewrite ?E1, ?E2, ?E3; try done; try apply HI; try apply HN; try apply (in_allocs _ _ _ _ HI).
    by apply (send_leaves E G st i v f q).
  - intros [f' S1] (bufs' & V' & bs' & g & ES & Hd & Hc & Hrm & Hinv' & Hcore & Hg). rewrite E1 in Hc, Hrm. rewrite E2 in Hcore. simpl in *.
    exists bufs', bs', g, (mkMove i v o f'). split; [done|]. destruct (departs_facts E st i v f f' Hd) as (_ & Et & _). rewrite Et.
    split; [by apply (sent_left_by G st i v f q f' bufs' V')|]. intros st' (bufs2 & V2 & h2 & -> & Hc2 & Hr2 & HV2).
    pose proof (Inv_send E G st i v f q HI Hin HV Hst Hq f' Hd bufs' V' bs' g Hc Hinv' Hcore Hnew Hg) as HI2.
    assert (past 2 now st) as HP2 by (destruct HP as [P1 P2 _ _ _]; split; intros ?; [apply P1; lia|apply P2; lia|lia..]).
    pose proof (busy_send now G st i v f q f' bufs' V' bs' g HI HB HP2 Hap Hvo Hq Hc) as HB2. split_and!.
    + by apply (Inv_settle _ (sent_state E i v o f' bufs' bs' g st) i v o).
    + by apply (busy_settle now _ (sent_state E i v o f' bufs' bs' g st) i v o bufs2 V2 h2 _ HI2 HB2 Hc2 Hr2).
    + apply (past_settle k now (sent_state E i v o f' bufs' bs' g st)). apply past_send; [lia|done].
    + by destruct (place_of V2 _).
    + assert (awake (sent_state E i v o f' bufs' bs' g st)) as Haw by (apply Exists_app; right; by constructor). by destruct (place_of V2 _).
Qed.

Definition pop_hold st : IQ := set_sw_hold_vcs (tail (iq_sw_hold_vcs st)) st.
Definition pop_sw st : IQ := set_sw_alloc_vcs (tail (iq_sw_alloc_vcs st)) st.

Lemma settles_pop_hold G st i v o st' x l : iq_sw_hold_vcs st = x :: l → settles G st i v o st' →
  settles G (pop_hold st) i v o (pop_hold st') ∧ ∃ k, iq_sw_hold_vcs st' = iq_sw_hold_vcs st ++ k ∧ Forall (λ y, y.1 < 0) k.
Proof.
  intros Hl (bufs' & V' & h' & -> & Hc & Hr & HV). split.
  - exists bufs', V', h'. split_and!; try done. destruct (place_of V' _); try done. unfold pop_hold. simpl. by rewrite Hl.
  - destruct (place_of V' _); simpl; [exists []; by rewrite app_nil_r..| |exists []; by rewrite app_nil_r]. eexists. split; [done|]. by repeat constructor.
Qed.

Lemma settles_pop_sw G st i v o st' x l : iq_sw_alloc_vcs st = x :: l → settles G st i v o st' →
  settles G (pop_sw st) i v o (pop_sw st') ∧ ∃ k, iq_sw_alloc_vcs st' = iq_sw_alloc_vcs st ++ k ∧ Forall (λ y, y.1 < 0) k.
Proof.
  intros Hl (bufs' & V' & h' & -> & Hc & Hr & HV). split.
  - exists bufs', V', h'. split_and!; try done. destruct (place_of V' _); try done. unfold pop_sw. simpl. by rewrite Hl.
  - destruct (place_of V' _); simpl; [exists []; by rewrite app_nil_r..|]. eexists. split; [done|]. by repeat constructor.
Qed.

Lemma left_by_eq G st st' i v o tl : left_by G st i v o tl → iq_buf st' = iq_buf st → iq_next_buf st' = iq_next_buf st →
  iq_vc_allocator st' = iq_vc_allocator st → iq_switch_hold st' = iq_switch_hold st → left_by G st' i v o tl.
Proof. intros [L1 L2 L3 L4 L5 L6 L7 L8 L9 L10 L11] E1 E2 E3 E4. split; rewrite ?E1, ?E2, ?E3, ?E4; done. Qed.

Lemma busy_pop_hold now st : busy E now st → busy E now (pop_hold st).
Proof.
  intros [B1 B2 B3 B4 B5 B6 B7 B8 B9 B10 B11 B12 B13]. apply Forall_app in B13 as [B13 B13'].
  split; try done; simpl; [by apply phased_tail|by apply Forall_tl|by apply Forall_tl| |by apply Forall_app_2; [apply Forall_tl|]].
  apply NoDup_app in B11 as (N1 & N2 & N3). apply NoDup_app. split_and!; [by apply NoDup_tail| |done]. intros o Ho. apply N2.
  unfold grants in *. destruct (filter_tail granted (iq_sw_hold_vcs st)) as [<-|Ef]; [done|]. rewrite Ef in Ho. destruct (filter granted (iq_sw_hold_vcs st)); [done|by right].
Qed.

Lemma busy_pop_sw now st : busy E now st → busy E now (pop_sw st).
Proof.
  intros [B1 B2 B3 B4 B5 B6 B7 B8 B9 B10 B11 B12 B13]. apply Forall_app in B13 as [B13 B13'].
  split; try done; simpl; [by apply phased_tail|by apply Forall_tl| |by apply NoDup_tail|by apply Forall_app_2; [|apply Forall_tl]].
  apply NoDup_app in B11 as (N1 & N2 & N3). apply NoDup_app. split_and!; [done| |by apply NoDup_tail]. intros o Ho Ho'. apply (N2 o Ho).
  unfold grants in *. destruct (filter_tail granted (iq_sw_alloc_vcs st)) as [<-|Ef]; [done|]. rewrite Ef in Ho'. destruct (filter granted (iq_sw_alloc_vcs st)); [done|by right].
Qed.

(** The grants of the switch are of outputs of waiting VCs. *)
Lemma sgrant_vc now G st x : Inv E None G st → busy E now st → x ∈ iq_sw_alloc_vcs st → granted x →
  vin E x.2.1.1 x.2.1.2 ∧ x.2.2 < q_outputs C ∧ sgrant E (iq_buf st) (iq_next_buf st) (iq_switch_hold st) x.
Proof.
  intros HI HB Hx Hg. pose proof (bu_sgrants _ _ _ HB) as Hs. rewrite Forall_forall in Hs. specialize (Hs x Hx Hg).
  destruct (queue_items E _ _ _ _ (qu_sw _ _ _ _ _ _ (in_queues _ _ _ _ HI)) Hx) as [Hj Hp]. simpl in Hp. split; [done|]. split; [|done].
  destruct (waiting_send E _ _ _ _ HI Hj (or_intror Hp)) as (_ & [Ho _] & _). destruct x as [t [[j u] r]]. simpl in *. destruct Hs as ((-> & _) & _). apply Ho.
Qed.

Definition stage (k : nat) now act i0 G st : Prop := ∃ G', advances G G' ∧ Inv E None G' st ∧ busy E now st ∧ past k now st ∧ io st = i0 ∧ alert k act st.

(** What is left apart from a held connection. *)
Lemma held_apart now G st t i v r l : Inv E None G st → busy E now st → iq_sw_hold_vcs st = (t, (i, v, r)) :: l →
  apart i v (v_out_port (vcat (iq_buf st) i v)) (set_sw_hold_vcs l st).
Proof.
  intros HI HB Hl. destruct (held_item E _ _ (t, (i, v, r)) HI ltac:(rewrite Hl; left)) as [Hin Hh]. simpl in Hin, Hh.
  destruct (held_in E _ _ _ _ HI Hin Hh) as (H1 & H2 & H3). pose proof (expanded_input_range E _ _ Hin) as He. split; simpl.
  - pose proof (bu_hgrants _ _ _ HB) as Hg. rewrite Hl in Hg. apply Forall_cons in Hg as [_ Hg]. rewrite Forall_forall in Hg.
    apply Forall_forall. intros x Hx Hgx Ex. specialize (Hg x Hx Hgx). destruct (held_item E _ _ x HI ltac:(rewrite Hl; by right)) as [Vx Hhx].
    destruct (held_in E _ _ _ _ HI Vx Hhx) as (X1 & X2 & X3). destruct x as [t' [[j u] r']]. simpl in *. destruct Hg as [Hg _]. subst r'.
    assert (expanded_input C j u = expanded_input C i v) as Ee by congruence. pose proof (expanded_input_inj E _ _ _ _ Vx Hin Ee). subst j.
    assert (u = v) by congruence. subst u. pose proof (qu_hold _ _ _ _ _ _ (in_queues _ _ _ _ HI)) as [Hnd _]. rewrite Hl in Hnd.
    apply NoDup_cons in Hnd as [Hnot _]. apply Hnot. apply list_elem_of_fmap. by exists (t', (i, v, v_out_port (vcat (iq_buf st) i v))).
  - apply Forall_forall. intros x Hx Hgx. destruct (sgrant_vc now G st x HI HB Hx Hgx) as (Hj & Hr & Hs). destruct x as [t' [[j u] r']].
    unfold expanded. simpl in *. destruct Hs as (_ & S1 & S2 & S3). split_and!; try done.
    + intros ->. rewrite <- H2 in S3. lia.
    + intros Ee. rewrite Ee, H1 in S1. destruct Hin. lia.
Qed.

(** A held connection that has no slot is given up. *)
Lemma hold_lost now G st t i v r l : Inv E None G st → busy E now st → past 2 now st → iq_sw_hold_vcs st = (t, (i, v, r)) :: l →
  let o := v_out_port (vcat (iq_buf st) i v) in let e := expanded_input C i v in
  let st' := push_sw_alloc i v (set_switch_hold (hold_at (iq_switch_hold st) e o (-1) (-1) (-1)) (set_sw_hold_vcs l st)) in
  Inv E None G st' ∧ busy E now st' ∧ past 2 now st'.
Proof.
  intros HI HB HP Hl o e st'. destruct (Inv_take_hold E _ _ _ _ _ _ _ HI Hl) as (HI' & Hin & Hp).
  pose proof (in_vc _ _ _ _ HI i v Hin ltac:(done)) as HV. destruct (waiting_send E _ _ _ _ HI Hin (or_introl Hp)) as (Hst & [Ho _] & _ & f & q & Hq & _).
  destruct (held_item E _ _ (t, (i, v, r)) HI ltac:(rewrite Hl; left)) as [_ Hh]. destruct (held_in E _ _ _ _ HI Hin Hh) as (H1 & H2 & _).
  destruct (cancel_hold_ok (iq_switch_hold st) i v o (in_hold _ _ _ _ HI) Hin Ho H1 H2) as [Hr Hnh].
  set (st0 := set_sw_hold_vcs l st) in *. set (h' := hold_at _ _ _ _ _ _) in *.
  assert (changed E (iq_buf st0) (iq_buf st0) i v (vcat (iq_buf st) i v)) as Hc.
  { split; [done|]. intros j u _. case_decide as Eq; [|done]. by destruct Eq as [-> ->]. }
  assert (place_of (vcat (iq_buf st) i v) (held E h' i v) = InSW) as EP by (unfold place_of, VCOps.Empty; by rewrite Hst, Hq, Hnh).
  assert (vc_inv E (g_moves G) (g_received G) (iq_next_buf st0) h' i v (vcat (iq_buf st) i v)) as HV'.
  { destruct HV as [I1 I2 I3 I4]. split; try done. by rewrite Hnh. }
  pose proof (Inv_settle G st0 i v o (iq_buf st0) _ h' HI' Hin Hc Hr HV') as HJ. rewrite EP in HJ. split_and!.
  - exact HJ.
  - pose proof (busy_pop_hold now st HB) as HB0. unfold pop_hold in HB0. rewrite Hl in HB0. simpl in HB0.
    by apply (busy_settle now G st0 i v o (iq_buf st0) _ h' InSW HI' HB0 Hc Hr), (held_apart now G st t i v r l).
  - apply (past_settle 2 now st0 i v (iq_buf st0) h' InSW). destruct HP. split; try done. lia.
Qed.

Lemma hold_done_ok sinks now act G st t i v r l :
  sinks_ok E sinks → Inv E None G st → busy E now st → past 2 now st → iq_sw_hold_vcs st = (t, (i, v, r)) :: l → r ≠ -1 → 0 ≤ t →
  alert 2 act st →
  returns (hold_done C (su_rf E) sinks now (i, v, r) st) (λ st', stage 2 now act (io st) G (pop_hold st') ∧
    ∃ k, iq_sw_hold_vcs st' = iq_sw_hold_vcs st ++ k ∧ Forall (λ y, y.1 < 0) k).
Proof.
  intros Hsk HI HB HP Hl Hr Ht Hal. destruct (Inv_take_hold E _ _ _ _ _ _ _ HI Hl) as (HI' & Hin & Hp).
  destruct (waiting_send E _ _ _ _ HI Hin (or_introl Hp)) as (Hst & Hvo & Hop & f & q & Hq & Hv & _). pose proof Hvo as [Ho Hw].
  destruct (held_item E _ _ (t, (i, v, r)) HI ltac:(rewrite Hl; left)) as [_ Hh]. destruct (held_in E _ _ _ _ HI Hin Hh) as (H1 & H2 & H3). simpl in H1, H2, H3.
  pose proof (expanded_input_range E _ _ Hin) as He. pose proof (in_hold _ _ _ _ HI) as HH.
  unfold hold_done. rewrite (proj2 (Z.eqb_neq _ _) Hr). cbn [negb cassert mbind res_bind].
  rewrite (front_ok E (iq_buf st) _ _ st i v f q) by (done || apply HI || by rewrite ?Hst). cbn [mbind res_bind].
  rewrite (vget_ok (h_vc _)) by (rewrite (ho_vc_len _ _ HH); done). cbn [mbind res_bind]. rewrite H1, Z.eqb_refl. cbn [cassert mbind res_bind].
  rewrite (vget_ok (h_in _)) by (rewrite (ho_in_len _ _ HH); done). cbn [mbind res_bind]. rewrite H2 in *.
  destruct (Z.leb_spec 0 r) as [H0|H0]; cbn [mbind res_bind].
  - unfold has_room. rewrite (sp_output_buffer _ (su_ok E)). cbn [Z.eqb Pos.eqb mbind res_bind].
    pose proof (bu_hgrants _ _ _ HB) as Hg. rewrite Hl in Hg. apply Forall_cons in Hg as [Hg _]. destruct (Hg H0) as [-> Hsl]. simpl in Hsl.
    rewrite Z.eqb_refl. cbn [cassert mbind res_bind]. rewrite (vget_ok (h_out _)) by (rewrite (ho_out_len _ _ HH); done). cbn [mbind res_bind].
    rewrite H3, Z.eqb_refl. cbn [cassert mbind res_bind]. rewrite output_of_expanded, (valid_output_true E), (valid_vc_ok E), Z.eqb_refl by done. cbn [cassert mbind res_bind].
    pose proof (busy_pop_hold now st HB) as HB0. unfold pop_hold in HB0. rewrite Hl in HB0. simpl in HB0.
    pose proof (bu_uncredited _ _ _ HB) as Hun. rewrite Hl in Hun. apply Forall_cons in Hun as [Hun _]. specialize (Hun Ht). simpl in Hun.
    assert (past 2 now (set_sw_hold_vcs l st)) as HP0 by (destruct HP; split; try done; lia).
    eapply returns_bind.
    { apply (cross_ok sinks now 2 G (set_sw_hold_vcs l st) i v); try done; try lia; [by apply (in_vc _ _ _ _ HI)|simpl; by rewrite Hq|by apply (held_apart now G st t i v (v_out_port (vcat (iq_buf st) i v)) l)]. }
    intros [f' S] (bufs' & bs' & g & m & ES & HL & Hfin). simpl in ES, HL, Hfin. subst S.
    eapply returns_mono; [apply (hold_next_ok (add_move m G)); [by apply (left_by_eq _ _ _ _ _ _ _ HL)|done|done]|].
    intros st' Hset. destruct (settles_pop_hold (add_move m G) (sent_state E i v _ f' bufs' bs' g st) i v _ st' _ l Hl Hset) as [Hset' Hk]. split; [|exact Hk].
    exists (add_move m G). split; [apply advances_move, advances_refl|]. unfold pop_hold at 1 in Hset'. simpl in Hset'. rewrite Hl in Hset'.
    destruct (Hfin _ Hset') as (F1 & F2 & F3 & F4 & F5). split_and!; try done. right. by left.
  - pose proof (bu_stalls _ _ _ HB) as Hsl. rewrite Hl in Hsl. apply Forall_cons in Hsl as [Hsl _]. unfold granted in Hsl. simpl in Hsl.
    assert ((r =? STALL_BUFFER_FULL) || (r =? STALL_BUFFER_RESERVED) || false = true) as -> by lia. cbn [cassert mbind res_bind].
    rewrite (proj2 (Z.leb_le _ _)) by apply Ho. cbn [cassert mbind res_bind]. unfold cancel_hold.
    rewrite (put_hold_ok (iq_switch_hold st)) by done. cbn [mbind res_bind]. apply returns_ok. split; [|exists []; by rewrite app_nil_r].
    exists G. split; [apply advances_refl|]. pose proof (hold_lost now G st t i v r l HI HB HP Hl) as (J1 & J2 & J3). unfold pop_hold. simpl. rewrite Hl.
    split_and!; try done. destruct Hal as [?|[?|[M1 M2 M3 _ _ _]]]; [by left|by right; left|right; right]. split; done || lia.
Qed.

Lemma SWHoldUpdate_ok sinks now act i0 G st :
  sinks_ok E sinks → 0 ≤ now → q_hold_switch_for_packet C = true → stage 2 now act i0 G st →
  returns (SWHoldUpdate C (su_rf E) sinks now st) (λ st', stage 3 now (act || nonempty (iq_sw_hold_vcs st')) i0 G st').
Proof.
  intros Hsk Hnow Hopt HS. unfold SWHoldUpdate. rewrite Hopt. cbn [cassert mbind res_bind]. eapply returns_mono.
  - apply (returns_drain (stage 2 now act i0 G) false (length (iq_sw_hold_vcs st)) now); [apply n_timed_length|done|done|].
    intros s t [[i v] r] l (G' & Had & HI & HB & HP & <- & Hal) El Ht _. destruct (phased_head _ _ _ _ _ (bu_hold _ _ _ HB) El Ht) as [-> Hr]. simpl in Hr. split; [done|].
    eapply returns_mono; [by apply (hold_done_ok sinks now act G' s now i v r l)|]. intros s' [(G2 & Had2 & HS2) Hk]. split; [|exact Hk].
    exists G2. split; [by eapply advances_trans|done].
  - intros s ((G' & Had & HI & HB & HP & Hio & Hal) & Hh). exists G'. split_and!; try done; [|by apply alert_hold]. destruct HP as [P1 P2 _ _ _]. split; intros ?; [apply P1; lia|apply P2; lia| |lia..].
    apply (phased_done now); [done|apply HB|]. destruct (iq_sw_hold_vcs s); [done|]. left. destruct Hh as [?|[? _]]; [done|done].
Qed.
(** What is left apart from a granted connection. *)
Lemma granted_apart now G st t i v r l : Inv E None G st → busy E now st → past 3 now st → iq_sw_alloc_vcs st = (t, (i, v, r)) :: l → 0 ≤ r →
  apart i v r (set_sw_alloc_vcs l st).
Proof.
  intros HI HB HP Hl Hr. split; simpl.
  - apply (fresh_vacuous (λ x, x.2.2 ≠ r)). by apply (pa_hold _ _ _ HP).
  - apply Forall_forall. intros x Hx Hg. destruct (sgrant_vc now G st x HI HB ltac:(rewrite Hl; by right) Hg) as (Hj & Hlt & _).
    assert (x ∈ filter granted l) as Hxf by by apply list_elem_of_filter. split_and!; try done; try apply Hj.
    + pose proof (bu_distinct_outputs _ _ _ HB) as Hnd. rewrite Hl in Hnd. apply NoDup_app in Hnd as (_ & _ & Hnd).
      unfold grants in Hnd. rewrite filter_cons_True in Hnd by done. apply NoDup_cons in Hnd as [Hnot _]. intros Ex. apply Hnot. simpl. rewrite <- Ex. by apply (list_elem_of_fmap_2 (λ x, x.2.2)).
    + pose proof (bu_distinct_inputs _ _ _ HB) as Hnd. rewrite Hl, filter_cons_True in Hnd by done. apply NoDup_cons in Hnd as [Hnot _].
      intros Ex. apply Hnot. change (expanded E (t, (i, v, r))) with (expanded_input C i v). rewrite <- Ex. by apply (list_elem_of_fmap_2 (expanded E)).
Qed.

Lemma sw_done_ok sinks now act G st t i v r l :
  sinks_ok E sinks → Inv E None G st → busy E now st → past 3 now st → iq_sw_alloc_vcs st = (t, (i, v, r)) :: l → 0 ≤ t →
  alert 3 act st →
  returns (sw_done C (su_rf E) sinks now (i, v, r) st) (λ st', stage 3 now act (io st) G (pop_sw st') ∧
    ∃ k, iq_sw_alloc_vcs st' = iq_sw_alloc_vcs st ++ k ∧ Forall (λ y, y.1 < 0) k).
Proof.
  intros Hsk HI HB HP Hl Ht Hal. destruct (Inv_take_sw E _ _ _ _ _ _ _ HI Hl) as (HI' & Hin & Hp).
  destruct (waiting_send E _ _ _ _ HI Hin (or_intror Hp)) as (Hst & Hvo & Hop & f & q & Hq & Hv & _). pose proof Hvo as [Ho Hw].
  pose proof (expanded_input_range E _ _ Hin) as He. pose proof (in_hold _ _ _ _ HI) as HH.
  pose proof (busy_pop_sw now st HB) as HB0. unfold pop_sw in HB0. rewrite Hl in HB0. simpl in HB0.
  assert (past 3 now (set_sw_alloc_vcs l st)) as HP0 by (destruct HP; split; try done; lia).
  unfold sw_done. rewrite (front_ok E (iq_buf st) _ _ st i v f q) by (done || apply HI || by rewrite ?Hst). cbn [mbind res_bind].
  destruct (Z.leb_spec 0 r) as [H0|H0]; cbn [mbind res_bind].
  - destruct (sgrant_vc now G st (t, (i, v, r)) HI HB ltac:(rewrite Hl; left) H0) as (_ & _ & [Er Hsl] & S1 & S2 & S3). simpl in Er, Hsl, S1, S2, S3.
    rewrite (vget_ok (h_vc _)) by (rewrite (ho_vc_len _ _ HH); done). cbn [mbind res_bind]. rewrite (proj2 (Z.ltb_lt _ 0) S1). cbn [cassert mbind res_bind].
    rewrite (vget_ok (h_in _)) by (rewrite (ho_in_len _ _ HH); done). cbn [mbind res_bind]. rewrite (proj2 (Z.ltb_lt _ 0) S2). cbn [cassert mbind res_bind].
    rewrite (vget_ok (h_out _)) by (rewrite (ho_out_len _ _ HH); lia). cbn [mbind res_bind]. rewrite (proj2 (Z.ltb_lt _ 0) S3). cbn [cassert mbind res_bind].
    pose proof (granted_apart now G st t i v r l HI HB HP Hl H0) as Hap.
    subst r. rewrite output_of_expanded, (valid_output_true E) by done. cbn [cassert mbind res_bind].
    destruct (al_vc _ _ _ _ _ _ (in_allocs _ _ _ _ HI)) as (va & Eva & _). rewrite Eva, Z.eqb_refl. cbn [cassert mbind res_bind].
    rewrite (valid_vc_ok E) by done. cbn [cassert mbind res_bind].
    pose proof (bu_uncredited _ _ _ HB) as Hun. rewrite Hl in Hun. apply Forall_app in Hun as [_ Hun]. apply Forall_cons in Hun as [Hun _]. specialize (Hun Ht). simpl in Hun.
    eapply returns_bind.
    { apply (cross_ok sinks now 3 G (set_sw_alloc_vcs l st) i v); try done; try lia; [by apply (in_vc _ _ _ _ HI)|simpl; by rewrite Hq]. }
    intros [f' S] (bufs' & bs' & g & m & ES & HL & Hfin). simpl in ES, HL, Hfin. subst S.
    eapply returns_mono; [apply (sw_next_ok (add_move m G)); [by apply (left_by_eq _ _ _ _ _ _ _ HL)|done|done|done]|].
    intros st' Hset. destruct (settles_pop_sw (add_move m G) (sent_state E i v _ f' bufs' bs' g st) i v _ st' _ l Hl Hset) as [Hset' Hk]. split; [|exact Hk].
    exists (add_move m G). split; [apply advances_move, advances_refl|]. unfold pop_sw at 1 in Hset'. simpl in Hset'. rewrite Hl in Hset'.
    destruct (Hfin _ Hset') as (F1 & F2 & F3 & F4 & F5). split_and!; try done. right. by left.
  - apply returns_ok. split; [|eexists; split; [done|]; by repeat constructor]. exists G. split; [apply advances_refl|]. unfold pop_sw. simpl. rewrite Hl. simpl.
    pose proof (Inv_back E G (set_sw_alloc_vcs l st) i v HI' Hin (in_vc _ _ _ _ HI i v Hin ltac:(done))) as HJ.
    cbn [iq_buf set_sw_alloc_vcs iq_switch_hold] in HJ. rewrite Hp in HJ.
    split_and!; [exact HJ|by apply (busy_push E now (set_sw_alloc_vcs l st) InSW i v)|by apply (past_push 3 now (set_sw_alloc_vcs l st) InSW i v)|done|].
    destruct Hal as [?|[?|[M1 M2 M3 M4 _ _]]]; [by left|by right; left|right; right]. split; done || lia.
Qed.

Lemma SWAllocUpdate_ok sinks now act i0 G st :
  sinks_ok E sinks → 0 ≤ now → stage 3 now act i0 G st →
  returns (SWAllocUpdate C (su_rf E) sinks now st) (λ st', stage 4 now (act || nonempty (iq_sw_alloc_vcs st')) i0 G st').
Proof.
  intros Hsk Hnow HS. unfold SWAllocUpdate. eapply returns_mono.
  - apply (returns_drain (stage 3 now act i0 G) true (length (iq_sw_alloc_vcs st)) now); [apply n_timed_length|done|done|].
    intros s t [[i v] r] l (G' & Had & HI & HB & HP & <- & Hal) El Ht _. destruct (phased_head _ _ _ _ _ (bu_sw _ _ _ HB) El Ht) as [-> _]. split; [done|].
    eapply returns_mono; [by apply (sw_done_ok sinks now act G' s now i v r l)|]. intros s' [(G2 & Had2 & HS2) Hk]. split; [|exact Hk].
    exists G2. split; [by eapply advances_trans|done].
  - intros s ((G' & Had & HI & HB & HP & Hio & Hal) & Hh). exists G'. split_and!; try done; [|by apply alert_sw]. destruct HP as [P1 P2 P3 _ _].
    split; intros ?; [apply P1; lia|apply P2; lia|apply P3; lia| |lia..]. apply (phased_done now); [done|apply HB|]. by destruct (iq_sw_alloc_vcs s).
Qed.
End switch.
