(* ===== verification/RouterStep.v ===== *)
(** * The input-queued router: crossbar, outputs, and a step

    [_SwitchEvaluate], [_SwitchUpdate] and [_OutputQueuing], and that
    [_InternalStep] keeps the invariant and never puts a router with work to
    sleep. *)

From S2P Require Import Prelude StdMap OutputSet Flit VCBuffer BufferState BufferStateInv Credits Link Arbiter Allocator AllocLaws Rng Route SwitchAlloc IQRouter IQSwitch Wormhole RouterInv RouterQueues RouterStages RouterRoute RouterVCAlloc RouterSwitchAlloc RouterSend RouterSwitch.
Import CoreOps Credits Link IQRouterOps IQSwitchOps.

Section step.
Context {VA SA PA : Type} (E : Setup VA SA PA).
Local Abbreviation C := (su_C E).
Local Abbreviation IQ := (IQRouter VA SA PA).
Implicit Types (st : IQ) (G : Ghost).

(** ** The crossbar *)

Lemma in_crossbar_items o (l l' : list (Z * (Flit * (Z * Z)))) : snd <$> l' = snd <$> l → in_crossbar o l' = in_crossbar o l.
Proof.
  revert l'. induction l as [|[t x] l IH]; intros [|[t' x'] l'] El; try done. simpl in El. injection El as -> El. specialize (IH l' El).
  unfold in_crossbar in *. rewrite !filter_cons. cbn [snd]. case_decide; [by rewrite !fmap_cons, IH|done].
Qed.

Lemma Inv_crossbar_items G st items : Inv E None G st → snd <$> items = snd <$> iq_crossbar_flits st → Inv E None G (set_crossbar_flits items st).
Proof.
  intros [H1 H2 H3 H4 H5 [O1 O2 O3 O4 O5] H7 H8] Hk. split; try done. split; try done; simpl.
  - intros o Ho. rewrite (in_crossbar_items o _ _ Hk). by apply O4.
  - clear -O5 Hk. revert items Hk. induction O5 as [|[t x] l Hx _ IH]; intros [|[t' x'] items] Hk; try done. simpl in Hk. injection Hk as -> Hk. constructor; [done|by apply IH].
Qed.

Lemma SwitchEvaluate_ok now G st :
  0 ≤ now → Inv E None G st → busy E now st →
  returns (SwitchEvaluate C now st) (λ st', Inv E None G st' ∧ busy E now st' ∧ ∃ items, st' = set_crossbar_flits items st).
Proof.
  intros Hnow HI HB. unfold SwitchEvaluate. set (X := iq_crossbar_flits st) in *. pose proof (sp_crossbar _ (su_ok E)).
  eapply returns_bind with (P := λ r, snd <$> r.1 = snd <$> X ∧ staged now r.1).
  - pose proof (bu_crossbar _ _ _ HB) as HS. pose proof HS as (t & l1 & l2 & EX & Ht & H1 & H2). fold X in EX, HS. destruct l1 as [|[t' x] l1].
    + assert (Forall (λ x, x.1 < 0) X) as Hneg by (rewrite EX; eapply Forall_impl; [exact H2|]; simpl; lia).
      eapply returns_mono; [apply (returns_each_new (λ d l (_ : unit), (snd <$> d) ++ (snd <$> l) = snd <$> X ∧
        Forall (λ x, x.1 = now + q_crossbar_delay C - 1) d) _ X [] tt Hneg); [done|]|].
      * intros d x l [] _ (Ek & Hd). apply returns_ok. split; simpl; [by rewrite fmap_app, <- app_assoc|by apply Forall_snoc].
      * intros [items []] (Ek & Hd). simpl in *. rewrite app_nil_r in Ek. split; [done|].
        exists (now + q_crossbar_delay C - 1), items, []. rewrite app_nil_r. split_and!; done || lia.
    + apply Forall_cons in H1 as [H1 _]. simpl in H1. rewrite EX. cbn [app]. rewrite each_new_timed by lia. apply returns_ok. cbn [fst].
      change ((t', x) :: l1 ++ l2) with (((t', x) :: l1) ++ l2). by rewrite <- EX.
  - intros [items []] [Ek HS]. apply returns_ok. simpl in *. split_and!; [by apply Inv_crossbar_items| |by eexists]. destruct HB. by split.
Qed.

Lemma switch_done_ok G st t f e o l :
  Inv E None G st → iq_crossbar_flits st = (t, (f, (e, o))) :: l →
  returns (switch_done C (f, (e, o)) st) (λ st', ∃ obs, st' = set_output_buffer obs st ∧ Inv E None G (set_crossbar_flits l st')).
Proof.
  intros HI Hl. pose proof HI as [H1 H2 H3 H4 H5 [O1 O2 O3 O4 O5] H7 H8]. rewrite Hl in O5. apply Forall_cons in O5 as [[He Ho] O5]. simpl in He, Ho.
  pose proof (sp_input_speedup _ (su_ok E)). unfold switch_done. rewrite output_of_expanded.
  rewrite (valid_input_true E) by (rewrite Z.quot_div_nonneg by lia; split; [apply Z.div_pos; lia|apply Z.div_lt_upper_bound; lia]).
  rewrite (valid_output_true E) by done. cbn [cassert mbind res_bind]. rewrite vget_ok by lia. cbn [mbind res_bind]. rewrite vset_ok by lia. cbn [mbind res_bind].
  rewrite (sp_output_buffer _ (su_ok E)), orb_true_r. cbn [cassert mbind res_bind]. apply returns_ok. eexists. split; [done|]. split; try done. simpl. split; try done; [lens|].
  intros o' Ho'. rewrite O4 by done. rewrite Hl, znth_zupd by lia. unfold in_crossbar. rewrite filter_cons. simpl.
  destruct (decide (o = o')) as [->|]; simpl; [by rewrite <- app_assoc|done].
Qed.

Lemma SwitchUpdate_ok now act i0 G st :
  0 ≤ now → stage E 4 now act i0 G st →
  returns (SwitchUpdate C now st) (λ st', stage E 5 now (act || nonempty (iq_crossbar_flits st')) i0 G st').
Proof.
  intros Hnow HS. unfold SwitchUpdate. eapply returns_mono.
  - apply (returns_drain (stage E 4 now act i0 G) true (length (iq_crossbar_flits st)) now); [apply n_timed_length|done|done|].
    intros s t [f [e o]] l (G' & Had & HI & HB & HP & <- & Hal) El Ht Hle. pose proof (staged_head _ _ _ _ _ (bu_crossbar _ _ _ HB) El Ht).
    specialize (Hle eq_refl). split; [lia|]. eapply returns_mono; [by apply (switch_done_ok G' s t f e o l)|]. intros s' (obs & -> & HI').
    split; [|exists []; by rewrite app_nil_r]. exists G'. cbn [iq_crossbar_flits set_output_buffer]. rewrite El in *. simpl in HI' |- *. split_and!; try done.
    + destruct HB as [B1 B2 B3 B4 B5 B6 B7 B8 B9 B10 B11 B12 B13]. split; try done. simpl. rewrite El in B5. by apply staged_tail in B5.
    + destruct HP as [P1 P2 P3 P4 P5]. split; try done. lia.
    + destruct Hal as [?|[Ha|[M1 M2 M3 M4 M5 _]]]; [by left|right; left|right; right; split; try done; lia].
      unfold awake in Ha. rewrite El in Ha. apply Exists_cons in Ha as [Ha|Ha]; [simpl in Ha; lia|done].
  - intros s ((G' & Had & HI & HB & HP & Hio & Hal) & Hh). exists G'. split_and!; try done.
    + destruct HP as [P1 P2 P3 P4 _]. split; intros ?; [apply P1; lia|apply P2; lia|apply P3; lia|apply P4; lia|].
      apply staged_later; [done|apply HB|]. by destruct (iq_crossbar_flits s).
    + apply (alert_more 4 act); [done|by intros ->|]. intros [M1 M2 M3 M4 M5 _]. destruct (iq_crossbar_flits s) eqn:Eq; [|left; apply orb_true_r].
      right. split; try done; try lia; intros; [apply M2|apply M3|apply M4|apply M5]; lia.
Qed.

(** ** Output queues *)

Lemma queue_credits_ok G : ∀ Q st,
  credit_book E (g_moves G) (g_credits G) Q (iq_credit_buffer st) →
  returns (foldl (queue_credit C) (Ok st) Q) (λ st', ∃ cbs, st' = set_credit_buffer cbs st ∧ credit_book E (g_moves G) (g_credits G) [] cbs).
Proof.
  induction Q as [|[i c] Q IH]; intros st HC; simpl.
  { apply returns_ok. exists (iq_credit_buffer st). split; [by destruct st|done]. }
  destruct HC as [C1 C2 C3 C4]. apply Forall_cons in C4 as [[Hi Hc] C4]. simpl in Hi, Hc. apply StronglySorted_inv in C3 as [C3 Hlow].
  rewrite (valid_input_true E) by done. cbn [cassert mbind res_bind]. rewrite bool_decide_eq_false_2 by done. cbn [negb cassert mbind res_bind].
  rewrite vget_ok by lia. cbn [mbind res_bind]. rewrite vset_ok by lia. cbn [mbind res_bind].
  eapply returns_mono; [apply IH|].
  - simpl. split; [lens| |done|done]. intros j v Hj. rewrite C2 by done. rewrite znth_zupd by lia. unfold queued. simpl.
    destruct (decide (i = j)) as [->|Hne].
    + rewrite Z.eqb_refl. rewrite (mfind_below j Q) by (eapply Forall_impl; [exact Hlow|]; simpl; lia). simpl. unfold ncredits. rewrite fmap_app, zsum_app. simpl. lia.
    + by rewrite (proj2 (Z.eqb_neq i j) Hne).
  - intros st' (cbs & -> & HC). by exists cbs.
Qed.

Lemma OutputQueuing_ok G st : Inv E None G st →
  returns (OutputQueuing C st) (λ st', ∃ cbs, st' = set_out_queue_credits [] (set_credit_buffer cbs st) ∧ Inv E None G st').
Proof.
  intros HI. unfold OutputQueuing. eapply returns_bind; [apply (queue_credits_ok G); apply HI|]. intros st' (cbs & -> & HC). apply returns_ok. exists cbs. split; [done|].
  by destruct HI.
Qed.

(** ** Evaluation *)

(** [k] of VC allocation, held connections and the switch have been evaluated. *)
Record evaluated (k : nat) now (i0 : list (Z * Flit) * list (Z * (Credit * Z)) * Z) G st : Prop := {
  ev_inv : Inv E None G st;
  ev_busy : busy E now st;
  ev_io : io st = i0;
  ev_credits : iq_out_queue_credits st = [];
  ev_vc : (k < 1)%nat → Forall fresh (iq_vc_alloc_vcs st);
  ev_hold : (k < 2)%nat → Forall fresh (iq_sw_hold_vcs st);
  ev_sw : (k < 3)%nat → Forall fresh (iq_sw_alloc_vcs st)
}.

Lemma returns_when (b : bool) (f : IQ → res IQ) st (Q : IQ → Prop) : (b = true → returns (f st) Q) → (b = false → Q st) → returns (when b f st) Q.
Proof. intros H1 H2. unfold when. destruct b; [by apply H1|by apply returns_ok, H2]. Qed.

Lemma nonempty_true {X : Type} (l : list X) : nonempty l = true → l ≠ [].
Proof. by destruct l. Qed.

Lemma evaluate_route_ok now i0 G st : 0 ≤ now → evaluated 0 now i0 G st →
  returns (when (nonempty (iq_route_vcs st)) (RouteEvaluate C now) st) (evaluated 0 now i0 G).
Proof.
  intros Hnow [V1 V2 V3 V4 V5 V6 V7]. apply returns_when; [|done]. intros Hne%nonempty_true.
  eapply returns_mono; [by apply (RouteEvaluate_ok E now G)|]. intros st' (HI & HB & items & ->). by split.
Qed.

Lemma evaluate_vc_ok now i0 G st : evaluated 0 now i0 G st →
  returns (match iq_vc_allocator st with
           | None => Ok st
           | Some va => let st := set_vc_allocator (Some (i_Clear (ra_I (su_IV E)) va)) st in
               when (nonempty (iq_vc_alloc_vcs st)) (VCAllocEvaluate C (su_IV E) now) st
           end) (evaluated 1 now i0 G).
Proof.
  intros [V1 V2 V3 V4 V5 V6 V7]. pose proof (in_allocs _ _ _ _ V1) as [(va & Eva & Hop) A2 A3 A4 A5]. rewrite Eva.
  set (st1 := set_vc_allocator _ st).
  assert (Inv E None G st1) as HI1.
  { destruct V1 as [H1 H2 H3 H4 H5 H6 H7 _]. split; try done. split; try done. eexists. split; [done|]. by apply (rl_Clear _ _ _ (su_LV E)). }
  assert (busy E now st1) as HB1 by by destruct V2.
  apply returns_when; intros Hne.
  - eapply returns_mono; [by apply (VCAllocEvaluate_ok E now G st1 (i_Clear (ra_I (su_IV E)) va)); [..|apply V5; lia| |]|].
    intros st' (HI & HB & g & items & va' & ->). split; try done; simpl; intros; [lia|apply V6; lia|apply V7; lia].
  - split; try done; intros; [lia|apply V6; lia|apply V7; lia].
Qed.

Lemma evaluate_hold_ok now i0 G st : evaluated 1 now i0 G st →
  returns (when (q_hold_switch_for_packet C && nonempty (iq_sw_hold_vcs st)) (SWHoldEvaluate C now) st) (evaluated 2 now i0 G).
Proof.
  intros [V1 V2 V3 V4 V5 V6 V7]. apply returns_when; intros Hne.
  - apply andb_true_iff in Hne as [Hopt _]. eapply returns_mono; [apply (SWHoldEvaluate_ok E now G st); try done; [apply V6; lia|apply V7; lia]|].
    intros st' (HI & HB & items & ->). split; try done; simpl; intros; [lia|lia|apply V7; lia].
  - split; try done; intros; [lia|lia|apply V7; lia].
Qed.

Lemma evaluate_sw_ok now i0 G st : evaluated 2 now i0 G st →
  let st1 := set_spec_sw_allocator (i_Clear (ra_I (su_IP E)) <$> iq_spec_sw_allocator st) (set_sw_allocator (i_Clear (ra_I (su_IS E)) (iq_sw_allocator st)) st) in
  returns (when (nonempty (iq_sw_alloc_vcs st1)) (SWAllocEvaluate C (su_IV E) (su_IS E) (su_IP E) now) st1) (evaluated 3 now i0 G).
Proof.
  intros [V1 V2 V3 V4 V5 V6 V7] st1. pose proof (in_allocs _ _ _ _ V1) as [A1 A2 A3 A4 A5].
  assert (Inv E None G st1) as HI1.
  { destruct V1 as [H1 H2 H3 H4 H5 H6 H7 _]. split; try done. split; try done; simpl; [by apply (rl_Clear _ _ _ (su_LS E))|by rewrite A3]. }
  assert (busy E now st1) as HB1 by by destruct V2.
  apply returns_when; intros Hne.
  - eapply returns_mono; [apply (SWAllocEvaluate_ok E now G st1 (i_Clear (ra_I (su_IS E)) (iq_sw_allocator st))); try done; apply V7; lia|].
    intros st' (HI & HB & g & items & off & sa & ->). split; try done; simpl; lia.
  - split; try done; lia.
Qed.

Lemma evaluate_stages_ok now G st : 0 ≤ now → Inv E None G st → rest now st →
  returns (evaluate_stages C (su_IV E) (su_IS E) (su_IP E) now st) (λ st', Inv E None G st' ∧ busy E now st' ∧ io st' = io st).
Proof.
  intros Hnow HI HR. assert (evaluated 0 now (io st) G st) as HE by (pose proof (rest_busy E now st HR); destruct HR; by split). unfold evaluate_stages.
  eapply returns_bind; [by apply (evaluate_route_ok now (io st) G)|]. intros st1 H1.
  eapply returns_bind; [by apply (evaluate_vc_ok now (io st) G)|]. intros st2 H2.
  eapply returns_bind; [by apply (evaluate_hold_ok now (io st) G)|]. intros st3 H3.
  eapply returns_bind; [exact (evaluate_sw_ok now (io st) G st3 H3)|]. intros st4 [V1 V2 V3 V4 V5 V6 V7].
  apply returns_when; [intros _|done]. eapply returns_mono; [by apply (SwitchEvaluate_ok now G)|]. intros st' (HI' & HB & items & ->). done.
Qed.

(** ** Updates *)

Lemma no_held G st : Inv E None G st → q_hold_switch_for_packet C = false → iq_sw_hold_vcs st = [].
Proof.
  intros HI Hopt. destruct (iq_sw_hold_vcs st) as [|x l] eqn:El; [done|]. destruct (held_item E _ _ x HI ltac:(rewrite El; left)) as [Hin Hh].
  destruct (held_in E _ _ _ _ HI Hin Hh) as (Hv & _). rewrite (ho_used _ _ (in_hold _ _ _ _ HI) Hopt) in Hv by by apply expanded_input_range. destruct Hin. lia.
Qed.

Lemma staged_nil {X : Type} now : staged now (@nil (Z * X)).
Proof. by exists now, [], []. Qed.

Lemma update_route_ok now act i0 G st : 0 ≤ now → stage E 0 now act i0 G st →
  returns (update (λ st, nonempty (iq_route_vcs st)) (RouteUpdate C (su_rf E) (su_faults E) now) (act, st)) (λ s, stage E 1 now s.1 i0 G s.2).
Proof.
  intros Hnow (G' & Had & HI & HB & _ & <- & Hal). unfold update. simpl. destruct (iq_route_vcs st) as [|x l] eqn:Er; cbn [nonempty].
  - apply returns_ok. exists G'. simpl. split_and!; try done; [split; try lia; intros _; rewrite Er; apply staged_nil|].
    apply (alert_more 0 act); [done|done|]. intros [M1 _ _ _ _ _]. right. split; done || lia.
  - eapply returns_bind; [apply (RouteUpdate_ok E now G' st); try done; by rewrite Er|]. intros st' (H1 & H2 & H3 & H4 & H5). apply returns_ok. exists G'. simpl.
    split_and!; try done. apply (alert_more 0 act); [|by intros ->|].
    + unfold io in H4. injection H4 as E1 E2 E3. destruct Hal as [?|[Ha|[M1 _ _ _ _ _]]]; [by left|right; left; unfold awake; by rewrite H5|right; right; split; try lia; congruence].
    + intros [M1 _ _ _ _ _]. destruct (iq_route_vcs st') eqn:Eq; [right; split; done || lia|left; apply orb_true_r].
Qed.

Lemma update_vc_ok' now act i0 G st : 0 ≤ now → stage E 1 now act i0 G st →
  returns (update (λ st, nonempty (iq_vc_alloc_vcs st)) (VCAllocUpdate C now) (act, st)) (λ s, stage E 2 now s.1 i0 G s.2).
Proof.
  intros Hnow (G' & Had & HI & HB & HP & <- & Hal). unfold update. simpl. destruct (iq_vc_alloc_vcs st) as [|x l] eqn:Er; cbn [nonempty].
  - apply returns_ok. exists G'. simpl. split_and!; try done; [split; try lia; intros _; [by apply HP|by rewrite Er]|].
    apply (alert_more 1 act); [done|done|]. intros [M1 M2 _ _ _ _]. right. split; try done; try lia. intros _. apply M2. lia.
  - eapply returns_bind; [by apply (VCAllocUpdate_ok E now G' st)|]. intros st' (H1 & H2 & H3 & H4 & H5 & H6). apply returns_ok. exists G'. simpl.
    split_and!; try done. apply (alert_more 1 act); [|by intros ->|].
    + unfold io in H4. injection H4 as E1 E2 E3. destruct Hal as [?|[Ha|[M1 M2 _ _ _ _]]]; [by left|right; left; unfold awake; by rewrite H5|right; right].
      split; try lia; [congruence|]. intros Hk. rewrite H6. by apply M2.
    + intros [M1 M2 _ _ _ _]. destruct (iq_vc_alloc_vcs st') eqn:Eq; [right|left; apply orb_true_r]. split; try done; try lia. intros _. apply M2. lia.
Qed.

Lemma update_hold_ok sinks now act i0 G st : sinks_ok E sinks → 0 ≤ now → stage E 2 now act i0 G st →
  returns (update (λ st, q_hold_switch_for_packet C && nonempty (iq_sw_hold_vcs st)) (SWHoldUpdate C (su_rf E) sinks now) (act, st))
    (λ s, stage E 3 now s.1 i0 G s.2).
Proof.
  intros Hsk Hnow HS. unfold update. simpl. destruct (q_hold_switch_for_packet C && nonempty (iq_sw_hold_vcs st)) eqn:Er.
  - pose proof Er as [Hopt _]%andb_true_iff. rewrite Hopt. eapply returns_bind; [by apply (SWHoldUpdate_ok E sinks now act i0 G st)|].
    intros st' H1. by apply returns_ok.
  - apply returns_ok. destruct HS as (G' & H1 & H2 & H3 & [Q1 Q2 _ _ _] & H5 & H6). exists G'. simpl.
    assert (iq_sw_hold_vcs st = []) as Eh. { destruct (q_hold_switch_for_packet C) eqn:Hopt; [by destruct (iq_sw_hold_vcs st)|by apply (no_held G')]. }
    split_and!; try done; [split; try lia; intros; [apply Q1; lia|apply Q2; lia|by rewrite Eh]|].
    pose proof (alert_hold _ _ H6) as H7. rewrite Eh in H7. simpl in H7. by rewrite orb_false_r in H7.
Qed.

Lemma update_sw_ok sinks now act i0 G st : sinks_ok E sinks → 0 ≤ now → stage E 3 now act i0 G st →
  returns (update (λ st, nonempty (iq_sw_alloc_vcs st)) (SWAllocUpdate C (su_rf E) sinks now) (act, st)) (λ s, stage E 4 now s.1 i0 G s.2).
Proof.
  intros Hsk Hnow HS. unfold update. simpl. destruct (iq_sw_alloc_vcs st) as [|x l] eqn:Er; cbn [nonempty].
  - apply returns_ok. destruct HS as (G' & H1 & H2 & H3 & [Q1 Q2 Q3 _ _] & H5 & H6). exists G'. simpl.
    split_and!; try done; [split; try lia; intros; [apply Q1; lia|apply Q2; lia|apply Q3; lia|by rewrite Er]|].
    pose proof (alert_sw _ _ H6) as H7. rewrite Er in H7. simpl in H7. by rewrite orb_false_r in H7.
  - eapply returns_bind; [by apply (SWAllocUpdate_ok E sinks now act i0 G st)|]. intros st' H1. by apply returns_ok.
Qed.

Lemma update_crossbar_ok now act i0 G st : 0 ≤ now → stage E 4 now act i0 G st →
  returns (update (λ st, nonempty (iq_crossbar_flits st)) (SwitchUpdate C now) (act, st))
    (λ s, stage E 5 now s.1 i0 G s.2 ∧ (s.1 = false → iq_crossbar_flits s.2 = [])).
Proof.
  intros Hnow HS. unfold update. simpl. destruct (iq_crossbar_flits st) as [|x l] eqn:Er; cbn [nonempty].
  - apply returns_ok. split; [|done]. destruct HS as (G' & H1 & H2 & H3 & [Q1 Q2 Q3 Q4 _] & H5 & H6). exists G'. simpl.
    split_and!; try done; [split; intros; [apply Q1; lia|apply Q2; lia|apply Q3; lia|apply Q4; lia|rewrite Er; apply staged_nil]|].
    apply (alert_more 4 act); [done|done|]. intros [M1 M2 M3 M4 M5 _]. right. split; try done; intros; [apply M2|apply M3|apply M4|apply M5]; lia.
  - eapply returns_bind; [by apply (SwitchUpdate_ok now act i0 G st)|]. intros st' H1. apply returns_ok. split; [done|]. simpl.
    by destruct act, (iq_crossbar_flits st').
Qed.

Lemma update_stages_ok sinks now act i0 G st : sinks_ok E sinks → 0 ≤ now → stage E 0 now act i0 G st →
  returns (update_stages C (su_rf E) (su_faults E) sinks now (act, st)) (λ s, stage E 5 now s.1 i0 G s.2 ∧ (s.1 = false → iq_crossbar_flits s.2 = [])).
Proof.
  intros Hsk Hnow H0. unfold update_stages.
  eapply returns_bind; [by apply (update_route_ok now act i0 G)|]. intros [a1 s1] H1.
  eapply returns_bind; [by apply (update_vc_ok' now a1 i0 G)|]. intros [a2 s2] H2.
  eapply returns_bind; [by apply (update_hold_ok sinks now a2 i0 G)|]. intros [a3 s3] H3.
  eapply returns_bind; [by apply (update_sw_ok sinks now a3 i0 G)|]. intros [a4 s4] H4. by apply (update_crossbar_ok now a4 i0 G).
Qed.

(** ** A step *)

(** A router that is not active has nothing to do. *)
Definition sleeps st : Prop := iq_active st = false → emptied 5 st ∧ iq_in_queue_flits st = [].

Lemma staged_earlier {X : Type} now (l : list (Z * X)) : staged (now + 1) l → staged now l.
Proof. intros (t & l1 & l2 & -> & Ht & H1 & H2). exists t, l1, l2. split_and!; done || lia. Qed.

Lemma InternalStep_ok sinks now G st :
  let Q := iq_in_queue_flits st in
  sinks_ok E sinks → 0 ≤ now ≤ int_max → Inv E None G st → rest now st → sleeps st →
  Forall (λ x, arrival E G x.1 x.2) Q → NoDup Q.*1 → credits_due E G →
  returns (InternalStep C (su_IV E) (su_IS E) (su_IP E) (su_rf E) (su_faults E) sinks now st) (λ st',
    (∃ G', advances (arrived Q G) G' ∧ Inv E None G' st') ∧ rest (now + 1) st' ∧ sleeps st' ∧ iq_in_queue_flits st' = [] ∧
    iq_partial_internal_cycles st' = iq_partial_internal_cycles st).
Proof.
  intros Q Hsk Hnow HI HR Hsl Har Hnd Hdue. unfold InternalStep. destruct (iq_active st) eqn:Ea; cbn [negb].
  - eapply returns_bind; [by apply (InputQueuing_ok E sinks now G)|]. fold Q. intros st1 (HI1 & HR1 & Hq1 & Hp1).
    eapply returns_bind; [by apply (evaluate_stages_ok now (arrived Q G)); [lia|..]|]. intros st2 (HI2 & HB2 & Hio).
    assert (stage E 0 now (nonempty (iq_proc_credits st1)) (io st2) (arrived Q G) st2) as HS.
    { exists (arrived Q G). split_and!; try done; [apply advances_refl|apply past_0|]. unfold io in Hio. injection Hio as E1 E2 E3. rewrite <- E2.
      destruct (iq_proc_credits st2) eqn:Ep; [right; right; split; done || lia|by left]. }
    eapply returns_bind; [by apply (update_stages_ok sinks now _ (io st2) (arrived Q G)); [|lia|]|]. intros [act st3] [(G' & Had & HI3 & HB3 & HP3 & Hio3 & Hal) Hcr]. simpl in *.
    assert (Inv E None G' (set_active act st3)) as HI4 by by destruct HI3.
    eapply returns_mono; [by apply (OutputQueuing_ok G')|]. intros st' (cbs & Es & HI').
    rewrite Hio in Hio3. unfold io in Hio3. injection Hio3 as E1 E2 E3. split_and!.
    + by exists G'.
    + destruct HP3 as [P1 P2 P3 P4 P5]. rewrite Es. split; try done; simpl; [apply P1|apply P2|apply P3|apply P4|apply P5]; lia.
    + rewrite Es. intros Hact. simpl in Hact. subst act. destruct Hal as [?|[Ha|[M1 M2 M3 M4 M5 M6]]]; [done| |].
      * unfold awake in Ha. rewrite (Hcr eq_refl) in Ha. by apply Exists_nil in Ha.
      * simpl. split; [by split|congruence].
    + rewrite Es. simpl. congruence.
    + rewrite Es. simpl. congruence.
  - apply returns_ok. destruct (Hsl Ea) as [[M1 M2 M3 M4 M5 M6] Hin]. rewrite Hin in *. split_and!; try done; [|destruct HR; split; try done; rewrite ?M2, ?M6 by lia; apply staged_nil].
    exists G. unfold Q. rewrite Hin. split; [apply advances_refl|done].
Qed.
End step.
