(* ===== verification/RouterRun.v ===== *)
(** * The input-queued router: cycles and runs

    [ReadInputs], [Evaluate] and [WriteOutputs], and runs of a router from its
    construction: that it never fails, and that it implements wormhole switching
    with credit-based flow control. *)

From S2P Require Import Prelude StdMap OutputSet Flit VCBuffer BufferState BufferStateInv Credits Link Arbiter Allocator AllocLaws Rng Route SwitchAlloc IQRouter IQSwitch Wormhole RouterInv RouterQueues RouterStages RouterRoute RouterVCAlloc RouterSwitchAlloc RouterSend RouterSwitch RouterStep.
Import CoreOps Credits Link IQRouterOps IQSwitchOps.

Section cycle.
Context {VA SA PA : Type} (E : Setup VA SA PA).
Local Abbreviation C := (su_C E).
Local Abbreviation IQ := (IQRouter VA SA PA).
Implicit Types (st : IQ) (G : Ghost).

(** ** Steps of a cycle *)

Definition ready now G st : Prop := Inv E None G st ∧ rest now st ∧ sleeps st ∧ iq_in_queue_flits st = [].

Lemma ready_earlier now G st : ready (now + 1) G st → ready now G st.
Proof. intros (HI & [R1 R2 R3 R4 R5 R6] & Hs & Hq). split_and!; try done. split; try done; by apply staged_earlier. Qed.

Lemma credits_due_advances G G' : advances G G' → credits_due E G → credits_due E G'.
Proof.
  intros ([k Ek] & _ & Ec & _) Hd o w Hvo. rewrite Ek, Ec. specialize (Hd o w Hvo). unfold to_port. rewrite filter_app, fmap_app. unfold nflits.
  rewrite fmap_app, cnt_app. unfold nflits, to_port in Hd. pose proof (cnt_nonneg w (f_vc <$> (mv_flit <$> filter (λ m, mv_out m = o) k))). lia.
Qed.

Definition with_partial (p : Z) st : IQ := set_partial_internal_cycles p st.

Lemma partial_same now G p st : Inv E None G st ∧ rest now st ∧ sleeps st →
  Inv E None G (with_partial p st) ∧ rest now (with_partial p st) ∧ sleeps (with_partial p st).
Proof. intros ([] & [] & Hs). split_and!; [by split|by split|]. intros Ha. destruct (Hs Ha) as [[] ?]. split; [by split|done]. Qed.

Lemma ready_partial now G p st : ready now G st → ready now G (with_partial p st).
Proof. intros (H1 & H2 & H3 & H4). destruct (partial_same now G p st) as (? & ? & ?); done. Qed.

Local Abbreviation Step sinks now := (internal_steps C (su_IV E) (su_IS E) (su_IP E) (su_rf E) (su_faults E) sinks now).

(** More steps in the cycle. *)
Lemma more_steps_ok sinks now : sinks_ok E sinks → 0 ≤ now ≤ int_max → ∀ k G st,
  ready (now + 1) G st → credits_due E G →
  returns (Step sinks now k st) (λ st', (∃ G', advances G G' ∧ ready (now + 1) G' st') ∧
    iq_partial_internal_cycles st' = iq_partial_internal_cycles st - 1024 * Z.of_nat k).
Proof.
  intros Hsk Hnow. induction k as [|k IH]; intros G st HR Hdue; cbn [internal_steps].
  { apply returns_ok. split; [exists G; split; [apply advances_refl|done]|lia]. }
  destruct (ready_earlier _ _ _ HR) as (HI & HRe & Hs & Hq).
  eapply returns_bind; [apply (InternalStep_ok E sinks now G st); rewrite ?Hq; try done; constructor|].
  rewrite Hq. intros st1 ((G1 & Had1 & HI1) & HR1 & Hs1 & Hq1 & Hp1).
  eapply returns_mono; [apply (IH G1); [by apply ready_partial|by apply (credits_due_advances G)]|].
  intros st' ((G' & Had' & HR') & Hp'). split; [exists G'; split; [by eapply advances_trans|done]|]. rewrite Hp'. simpl. rewrite Hp1. lia.
Qed.

Lemma Evaluate_ok sinks now G st :
  let Q := iq_in_queue_flits st in
  sinks_ok E sinks → 0 ≤ now ≤ int_max → Inv E None G st → rest now st → sleeps st → 0 ≤ iq_partial_internal_cycles st →
  Forall (λ x, arrival E G x.1 x.2) Q → NoDup Q.*1 → credits_due E G →
  returns (Evaluate C (su_IV E) (su_IS E) (su_IP E) (su_rf E) (su_faults E) sinks now st) (λ st',
    (∃ G', advances (arrived Q G) G' ∧ ready (now + 1) G' st') ∧ 0 ≤ iq_partial_internal_cycles st').
Proof.
  intros Q Hsk Hnow HI HR Hs Hp Har Hnd Hdue. unfold Evaluate. set (p := iq_partial_internal_cycles st + q_internal_speedup C).
  pose proof (sp_internal_speedup _ (su_ok E)). assert (1 ≤ p / 1024) as H1 by (apply Z.div_le_lower_bound; lia).
  destruct (Z.to_nat (p / 1024)) as [|k] eqn:Ek; [lia|]. cbn [internal_steps].
  destruct (partial_same now G p st) as (HI0 & HR0 & Hs0); [done|].
  eapply returns_bind; [by apply (InternalStep_ok E sinks now G (with_partial p st))|].
  intros st1 ((G1 & Had1 & HI1) & HR1 & Hs1 & Hq1 & Hp1).
  eapply returns_mono; [apply (more_steps_ok sinks now Hsk Hnow k G1); [by apply ready_partial|]|].
  - apply (credits_due_advances (arrived Q G)); [done|]. unfold credits_due. by destruct (arrived_rest Q G) as [-> ->].
  - intros st' ((G' & Had' & HR') & Hp'). split; [exists G'; split; [by eapply advances_trans|done]|]. rewrite Hp'. simpl. rewrite Hp1. simpl.
    pose proof (Z.mul_div_le p 1024). lia.
Qed.

(** ** Reading inputs *)

(** What is at [0], ..., [k - 1] of [xs]; and [g] with it added. *)
Definition upto {X : Type} (xs : list (option X)) (k i : Z) : option X := if decide (0 ≤ i < k) then xs⟦i⟧ else None.
Definition fapp {X : Type} (g : Z → list X) (xs : list (option X)) (k i : Z) : list X := g i ++ option_list (upto xs k i).

Lemma upto_next {X : Type} (xs : list (option X)) k i : 0 ≤ k → upto xs (k + 1) i = if decide (i = k) then xs⟦k⟧ else upto xs k i.
Proof. intros Hk. unfold upto. destruct (decide (i = k)) as [->|]; repeat case_decide; done || lia. Qed.

Lemma upto_0 {X : Type} (xs : list (option X)) i : upto xs 0 i = None.
Proof. unfold upto. by rewrite decide_False by lia. Qed.

Lemma upto_in {X : Type} (xs : list (option X)) k i : 0 ≤ i < k → upto xs k i = xs⟦i⟧.
Proof. intros Hi. unfold upto. by rewrite decide_True. Qed.

Lemma upto_past {X : Type} (xs : list (option X)) k : upto xs k k = None.
Proof. unfold upto. by rewrite decide_False by lia. Qed.

Lemma ReceiveFlits_ok flits st : zlen flits = q_inputs C → iq_in_queue_flits st = [] →
  returns (ReceiveFlits C flits st) (λ y, ∃ Q, y.2 = set_in_queue_flits Q st ∧ msorted Q ∧
    (∀ i, mfind i Q = upto flits (q_inputs C) i) ∧ (y.1 = false → Q = [])).
Proof.
  intros Hlen Hq. pose proof (sp_inputs _ (su_ok E)). unfold ReceiveFlits.
  apply (returns_for (λ (k : Z) (y : bool * IQ), ∃ Q, y.2 = set_in_queue_flits Q st ∧ msorted Q ∧
    (∀ i, mfind i Q = upto flits k i) ∧ (y.1 = false → Q = []))); [lia| |].
  { exists []. split_and!; try done; [rewrite <- Hq; by destruct st|constructor|]. intros i. by rewrite upto_0. }
  intros i [act s] Hi (Q & Es & Hs & Hf & Ha). simpl in Es. subst s. rewrite vget_ok by lia. cbn [mbind res_bind].
  assert (mfind i Q = None) as Hnew by by rewrite Hf, upto_past.
  destruct (flits⟦i⟧) as [f|] eqn:Ef; apply returns_ok.
  - exists (mset i f Q). unfold mcount. simpl. rewrite Hnew. simpl. split_and!; try done; [by apply msorted_mset|]. intros j. rewrite mfind_mset, upto_next by (done || lia).
    rewrite Ef. case_decide; [done|apply Hf].
  - exists Q. split_and!; try done. intros j. rewrite upto_next by lia. case_decide; [subst j; by rewrite Hnew, Ef|apply Hf].
Qed.

Lemma pending_snoc o P t c o' : pending o (P ++ [(t, (c, o'))]) = pending o P ++ (if decide (o' = o) then [c] else []).
Proof. unfold pending. rewrite filter_snoc. cbn [snd]. case_decide; [by rewrite fmap_app|by rewrite app_nil_r]. Qed.

Lemma fapp_next {X : Type} (g : Z → list X) xs k i : 0 ≤ k → fapp g xs (k + 1) i = fapp g xs k i ++ (if decide (i = k) then option_list (xs⟦k⟧) else []).
Proof.
  intros Hk. unfold fapp. rewrite upto_next, <- app_assoc by done. case_decide; [subst i; by rewrite upto_past|by rewrite app_nil_r].
Qed.

Lemma ncredits_app w a b : ncredits w (a ++ b) = ncredits w a + ncredits w b.
Proof. unfold ncredits. by rewrite fmap_app, zsum_app. Qed.

Lemma ReceiveCredits_ok now T credited credits st : zlen credits = q_outputs C →
  nexts E T credited (iq_proc_credits st) (iq_next_buf st) → (∀ o c, 0 ≤ o < q_outputs C → credits⟦o⟧ = Some c → credit_ok E c) →
  returns (ReceiveCredits C now credits st) (λ y, ∃ P, y.2 = set_proc_credits P st ∧
    nexts E T (fapp credited credits (q_outputs C)) P (iq_next_buf st) ∧ (y.1 = false → P = iq_proc_credits st)).
Proof.
  intros Hlen HN Hok. pose proof (sp_outputs _ (su_ok E)). unfold ReceiveCredits.
  apply (returns_for (λ (k : Z) (y : bool * IQ), ∃ P, y.2 = set_proc_credits P st ∧ nexts E T (fapp credited credits k) P (iq_next_buf st) ∧ (y.1 = false → P = iq_proc_credits st))); [lia| |].
  { exists (iq_proc_credits st). split_and!; [by destruct st| |done]. destruct HN as [N1 N2 N3 N4]. split; try done. intros o w Hvo. unfold fapp.
    rewrite upto_0, app_nil_r. by apply N3. }
  intros o [act s] Ho (P & Es & [N1 N2 N3 N4] & Ha). simpl in Es. subst s. rewrite vget_ok by lia. cbn [mbind res_bind].
  destruct (credits⟦o⟧) as [c|] eqn:Ec; apply returns_ok; simpl.
  - exists (P ++ [(now + q_credit_delay C, (c, o))]). split_and!; try done. split; try done.
    + intros o' w Hvo. specialize (N3 o' w Hvo). rewrite fapp_next, pending_snoc, Ec by lia. rewrite !ncredits_app.
      destruct (decide (o' = o)) as [->|Hne]; [rewrite decide_True by done; simpl; lia|rewrite decide_False by done; simpl; lia].
    + apply Forall_snoc; [done|]. simpl. split; [done|by apply (Hok o)].
  - exists P. split_and!; try done. split; try done. intros o' w Hvo. rewrite fapp_next, Ec by lia. case_decide; rewrite app_nil_r; by apply N3.
Qed.

(** ** Writing outputs *)

Lemma zlen_snoc {X : Type} (l : list X) x : zlen (l ++ [x]) = zlen l + 1.
Proof. unfold zlen. rewrite length_app. simpl. lia. Qed.

Lemma znth_snoc `{Inhabited X} (l : list X) x j : 0 ≤ j ≤ zlen l → (l ++ [x])⟦j⟧ = if decide (j = zlen l) then x else l⟦j⟧.
Proof.
  intros Hj. unfold znth, zlen in *. case_decide as Hd.
  - rewrite lookup_total_app_r by lia. by replace (Z.to_nat j - length l)%nat with 0%nat by lia.
  - by rewrite lookup_total_app_l by lia.
Qed.

Lemma pop_each_ok {X : Type} m (queues : list (list X)) : 0 ≤ m → zlen queues = m →
  returns (pop_each m queues) (λ y, zlen y.1 = m ∧ zlen y.2 = m ∧ ∀ i, 0 ≤ i < m → queues⟦i⟧ = option_list (y.1⟦i⟧) ++ y.2⟦i⟧).
Proof.
  intros Hm Hlen. unfold pop_each. eapply returns_mono.
  - apply (returns_for (λ (k : Z) (y : list (option X) * list (list X)), zlen y.1 = k ∧ zlen y.2 = m ∧ (∀ i, 0 ≤ i < k → queues⟦i⟧ = option_list (y.1⟦i⟧) ++ y.2⟦i⟧) ∧
      ∀ i, k ≤ i < m → queues⟦i⟧ = y.2⟦i⟧)); [lia|split_and!; try done; lia|].
    intros i [sent qs] Hi (L1 & L2 & H1 & H2). simpl in *. rewrite vget_ok by lia. cbn [mbind res_bind].
    destruct (qs⟦i⟧) as [|x q] eqn:Eq.
    + apply returns_ok. simpl. rewrite zlen_snoc. split_and!; [lia|done| |intros j Hj; apply H2; lia].
      intros j Hj. rewrite znth_snoc by lia. case_decide; [|apply H1; lia]. rewrite H2 by lia. subst j. by rewrite L1, Eq.
    + rewrite vset_ok by lia. cbn [mbind res_bind]. apply returns_ok. simpl. rewrite zlen_snoc. split_and!; [lia|lens| |].
      * intros j Hj. rewrite znth_snoc, znth_zupd by lia. rewrite L1. destruct (decide (j = i)) as [->|]; [rewrite decide_True by done; rewrite H2 by lia; by rewrite Eq|].
        rewrite decide_False by congruence. apply H1. lia.
      * intros j Hj. rewrite znth_zupd_ne by lia. apply H2. lia.
  - intros [sent qs] (L1 & L2 & H1 & _). done.
Qed.

(** ** Histories *)

(** What is seen of a router from outside: the flits and credits that have gone in
    and out, by input and by output. *)
Record Hist : Type := mkHist {
  h_received : Z → list Flit;
  h_credited : Z → list Credit;
  h_sent : Z → list Flit;
  h_credits : Z → list Credit
}.

Definition no_history : Hist := mkHist (λ _, []) (λ _, []) (λ _, []) (λ _, []).
Definition observe (flits : list (option Flit)) (credits : list (option Credit)) (sent : list (option Flit)) (returned : list (option Credit)) (H : Hist) : Hist :=
  mkHist (fapp (h_received H) flits (q_inputs C)) (fapp (h_credited H) credits (q_outputs C))
         (fapp (h_sent H) sent (q_outputs C)) (fapp (h_credits H) returned (q_inputs C)).

(** What a router relies on: its neighbours send flits of packets one after the
    other on a VC, while the buffer has room by the credits they have got, with
    heads it has routes for; and return a credit for a flit once. *)
Record env (H : Hist) (flits : list (option Flit)) (credits : list (option Credit)) : Prop := {
  en_flits : zlen flits = q_inputs C;
  en_credits : zlen credits = q_outputs C;
  en_flit : ∀ i f, 0 ≤ i < q_inputs C → flits⟦i⟧ = Some f →
    0 ≤ f_vc f < q_vcs C ∧ flit_ok f ∧ acceptable E f ∧
    zsumf (λ v, nflits v (h_received H i) - ncredits v (h_credits H i)) (q_vcs C) < su_bsize E ∧
    is_Some (stream None (on_vc (f_vc f) (h_received H i ++ [f])));
  en_credit : ∀ o c, 0 ≤ o < q_outputs C → credits⟦o⟧ = Some c →
    credit_ok E c ∧ ∀ w, 0 ≤ w < q_vcs C → ncredits w (h_credited H o ++ [c]) ≤ nflits w (h_sent H o)
}.

(** The invariant, with the history for the ghost state. *)
Record tracks (now : Z) (H : Hist) (T : list Move) st : Prop := {
  tr_ready : ready now (mkGhost T (h_received H) (h_credited H) (h_sent H) (h_credits H)) st;
  tr_partial : 0 ≤ iq_partial_internal_cycles st;
  tr_credited : ∀ o w, vout E o w → ncredits w (h_credited H o) ≤ nflits w (h_sent H o)
}.

Definition same_history G G' : Prop := g_moves G' = g_moves G ∧ (∀ i, g_received G' i = g_received G i) ∧ (∀ i, g_credited G' i = g_credited G i) ∧
  (∀ i, g_sent G' i = g_sent G i) ∧ (∀ i, g_credits G' i = g_credits G i).

Lemma Inv_same G G' st : same_history G G' → Inv E None G st → Inv E None G' st.
Proof.
  intros (S1 & S2 & S3 & S4 & S5) [H1 H2 H3 H4 [N1 N2 N3 N4] [O1 O2 O3 O4 O5] [C1 C2 C3 C4] H8]. split; try done; rewrite ?S1.
  - intros i v Hi Hne. destruct (H2 i v Hi Hne) as [I1 I2 I3 I4]. split; try done. by rewrite S2.
  - split; try done. intros o w Hvo. rewrite S3. by apply N3.
  - split; try done. intros o Ho. rewrite S4. by apply O4.
  - split; try done. intros i v Hi. rewrite S5. by apply C2.
Qed.

Lemma arrived_received Q G : NoDup Q.*1 → msorted Q → ∀ i, g_received (arrived Q G) i = g_received G i ++ option_list (mfind i Q).
Proof.
  intros Hnd Hs i. destruct (mfind i Q) as [f|] eqn:Ef.
  - apply elem_mfind in Ef; [|done]. apply list_elem_of_split in Ef as (Q1 & Q2 & ->). unfold arrived. rewrite foldl_app. simpl. fold (arrived Q1 G).
    rewrite fmap_app in Hnd. simpl in Hnd. apply NoDup_app in Hnd as (_ & Hn1 & [Hn2 _]%NoDup_cons).
    assert (i ∉ Q1.*1) as Hi1 by (intros Hx; apply (Hn1 i Hx); by left).
    fold (arrived Q2 (receive i f (arrived Q1 G))). rewrite (proj1 (arrived_other Q2 _ i Hn2)). simpl. unfold fadd. rewrite decide_True by done.
    by rewrite (proj1 (arrived_other Q1 G i Hi1)).
  - simpl. rewrite app_nil_r. apply (arrived_other Q G i). intros ([j f] & -> & Hx)%list_elem_of_fmap. apply elem_mfind in Hx; [|done]. simpl in Ef. congruence.
Qed.

Lemma arrived_same Q G : g_sent (arrived Q G) = g_sent G ∧ g_credits (arrived Q G) = g_credits G.
Proof. induction Q as [|x Q IH] using rev_ind; [done|]. by rewrite arrived_snoc. Qed.

Lemma msorted_NoDup {X : Type} (Q : imap X) : msorted Q → NoDup Q.*1.
Proof.
  induction 1 as [|[k x] Q Hs IH Hx]; [constructor|]. simpl. apply NoDup_cons. split; [|done]. intros ([j y] & -> & Hj)%list_elem_of_fmap.
  rewrite Forall_forall in Hx. specialize (Hx _ Hj). simpl in Hx. lia.
Qed.

(** ** A cycle *)

Lemma ReadInputs_ok now H T st flits credits :
  tracks now H T st → env H flits credits →
  let G1 := mkGhost T (h_received H) (fapp (h_credited H) credits (q_outputs C)) (h_sent H) (h_credits H) in
  returns (ReadInputs C now flits credits st) (λ st', Inv E None G1 st' ∧ rest now st' ∧ sleeps st' ∧ 0 ≤ iq_partial_internal_cycles st' ∧
    msorted (iq_in_queue_flits st') ∧ ∀ i, mfind i (iq_in_queue_flits st') = upto flits (q_inputs C) i).
Proof.
  intros [(HI & HR & Hs & Hq) Hp Hcr] [L1 L2 N1 N2] G1. unfold ReadInputs.
  eapply returns_bind; [by apply ReceiveFlits_ok|]. intros [a1 st1] (Q & Es & HQ1 & HQ2 & HQ3). simpl in *. subst st1.
  eapply returns_bind; [apply (ReceiveCredits_ok now T (h_credited H) credits (set_in_queue_flits Q st)); [done|apply HI|by intros; eapply N2]|].
  intros [a2 st2] (P & Es & HN & HP). simpl in *. subst st2. apply returns_ok. split_and!; try done.
  - destruct HI. by split.
  - destruct HR. by split.
  - unfold sleeps. simpl. intros [[Ha H1]%orb_false_iff H2]%orb_false_iff. destruct (Hs Ha) as [[M1 M2 M3 M4 M5 M6] _]. split; [|by apply HQ3].
    split; try done. simpl. by rewrite HP.
Qed.

Lemma WriteOutputs_ok now G st : ready now G st →
  returns (WriteOutputs C st) (λ '(sent, returned, st'),
    ready now (mkGhost (g_moves G) (g_received G) (g_credited G) (fapp (g_sent G) sent (q_outputs C)) (fapp (g_credits G) returned (q_inputs C))) st' ∧
    zlen sent = q_outputs C ∧ zlen returned = q_inputs C ∧ iq_partial_internal_cycles st' = iq_partial_internal_cycles st).
Proof.
  intros (HI & HR & Hs & Hq). pose proof (sp_inputs _ (su_ok E)). pose proof (sp_outputs _ (su_ok E)).
  pose proof HI as [H1 H2 H3 H4 H5 [O1 O2 O3 O4 O5] [C1 C2 C3 C4] H8]. unfold WriteOutputs, SendFlits, SendCredits.
  eapply returns_bind.
  { eapply returns_bind; [apply (pop_each_ok (q_outputs C) (iq_output_buffer st)); [lia|done]|]. intros [sent qs] P1. apply returns_ok.
    instantiate (1 := λ y, ∃ qs, y.2 = set_output_buffer qs st ∧ zlen y.1 = q_outputs C ∧ zlen qs = q_outputs C ∧
      ∀ i, 0 ≤ i < q_outputs C → (iq_output_buffer st)⟦i⟧ = option_list (y.1⟦i⟧) ++ qs⟦i⟧). by exists qs. }
  intros [sent st1] (qs & Es & L1 & L2 & P1). simpl in *. subst st1. simpl.
  eapply returns_bind.
  { eapply returns_bind; [apply (pop_each_ok (q_inputs C) (iq_credit_buffer st)); [lia|done]|]. intros [rt cs] P2. apply returns_ok.
    instantiate (1 := λ y, ∃ cs, y.2 = set_credit_buffer cs (set_output_buffer qs st) ∧ zlen y.1 = q_inputs C ∧ zlen cs = q_inputs C ∧
      ∀ i, 0 ≤ i < q_inputs C → (iq_credit_buffer st)⟦i⟧ = option_list (y.1⟦i⟧) ++ cs⟦i⟧). by exists cs. }
  intros [rt st2] (cs & Es & L3 & L4 & P2). simpl in *. subst st2. apply returns_ok. unfold ready. split_and!; try done.
  - split; try done; simpl.
    + split; try done. intros o Ho. rewrite O4, P1 by done. unfold fapp. rewrite upto_in by done. by rewrite <- !app_assoc.
    + split; try done. intros i v Hi. rewrite C2, P2 by done. unfold fapp. rewrite upto_in by done. rewrite !ncredits_app. lia.
  - destruct HR. by split.
  - intros Ha. destruct (Hs Ha) as [[] ?]. split; [by split|done].
Qed.

(** After [ReadInputs], with the history before it. *)
Record has_read (now : Z) (H : Hist) (T : list Move) (flits : list (option Flit)) (credits : list (option Credit)) st : Prop := {
  hr_env : env H flits credits;
  hr_inv : Inv E None (mkGhost T (h_received H) (fapp (h_credited H) credits (q_outputs C)) (h_sent H) (h_credits H)) st;
  hr_rest : rest now st;
  hr_sleeps : sleeps st;
  hr_partial : 0 ≤ iq_partial_internal_cycles st;
  hr_sorted : msorted (iq_in_queue_flits st);
  hr_flits : ∀ i, mfind i (iq_in_queue_flits st) = upto flits (q_inputs C) i;
  hr_credited : ∀ o w, vout E o w → ncredits w (h_credited H o) ≤ nflits w (h_sent H o)
}.

Definition inputs_read (flits : list (option Flit)) (credits : list (option Credit)) (H : Hist) : Hist :=
  mkHist (fapp (h_received H) flits (q_inputs C)) (fapp (h_credited H) credits (q_outputs C)) (h_sent H) (h_credits H).
Definition outputs_written (sent : list (option Flit)) (returned : list (option Credit)) (H : Hist) : Hist :=
  mkHist (h_received H) (h_credited H) (fapp (h_sent H) sent (q_outputs C)) (fapp (h_credits H) returned (q_inputs C)).

Lemma read_phase now H T st flits credits : tracks now H T st → env H flits credits →
  returns (ReadInputs C now flits credits st) (has_read now H T flits credits).
Proof.
  intros HT Hen. eapply returns_mono; [by apply (ReadInputs_ok now H T)|]. intros st1 (HI & HR & Hs & Hp & HQ1 & HQ2).
  split; try done. apply HT.
Qed.

Lemma credited_after H flits credits o w : env H flits credits → vout E o w → ncredits w (h_credited H o) ≤ nflits w (h_sent H o) →
  ncredits w (fapp (h_credited H) credits (q_outputs C) o) ≤ nflits w (h_sent H o).
Proof.
  intros Hen [Ho Hw] Hcr. unfold fapp. rewrite upto_in by done.
  destruct (credits⟦o⟧) as [c|] eqn:Ec; [by apply (en_credit _ _ _ Hen o c)|]. simpl. by rewrite app_nil_r.
Qed.

Lemma read_due now H T flits credits st : has_read now H T flits credits st →
  credits_due E (mkGhost T (h_received H) (fapp (h_credited H) credits (q_outputs C)) (h_sent H) (h_credits H)).
Proof.
  intros HR o w Hvo. simpl. pose proof (in_outs _ _ _ _ (hr_inv _ _ _ _ _ _ HR)) as [_ _ _ O4 _]. pose proof Hvo as [Ho Hw]. simpl in O4. rewrite O4 by done.
  pose proof (credited_after H flits credits o w (hr_env _ _ _ _ _ _ HR) Hvo (hr_credited _ _ _ _ _ _ HR o w Hvo)).
  unfold nflits in *. rewrite fmap_app, cnt_app. pose proof (cnt_nonneg w (f_vc <$> (iq_output_buffer st)⟦o⟧ ++ in_crossbar o (iq_crossbar_flits st))). lia.
Qed.

Lemma evaluate_phase sinks now H T flits credits st :
  sinks_ok E sinks → 0 ≤ now ≤ int_max → has_read now H T flits credits st →
  returns (Evaluate C (su_IV E) (su_IS E) (su_IP E) (su_rf E) (su_faults E) sinks now st) (λ st',
    ∃ k, tracks (now + 1) (inputs_read flits credits H) (T ++ k) st').
Proof.
  intros Hsk Hnow HR0. pose proof (read_due _ _ _ _ _ _ HR0) as Hdue. destruct HR0 as [Hen HI HR Hs Hp HQ1 HQ2 Hcr]. set (G1 := mkGhost T _ _ _ _) in *.
  eapply returns_mono.
  { apply (Evaluate_ok sinks now G1); try done; [|by apply msorted_NoDup]. apply Forall_forall. intros [i f] Hx. apply elem_mfind in Hx; [|done].
    rewrite HQ2 in Hx. unfold upto in Hx. case_decide as Hi; [|done]. destruct (en_flit _ _ _ Hen i f Hi Hx) as (F1 & F2 & F3 & F4 & F5). by split. }
  intros st2 ((G2 & Had & (HI3 & HR3 & Hs3 & Hq3)) & Hp2).
  pose proof (arrived_received _ G1 (msorted_NoDup _ HQ1) HQ1) as Hrc. destruct (arrived_rest (iq_in_queue_flits st) G1) as [Em Ec].
  destruct (arrived_same (iq_in_queue_flits st) G1) as [Esn Ecr]. destruct Had as ([k Ek] & A1 & A2 & A3 & A4). exists k. rewrite Em in Ek. simpl in Ek. split.
  - split_and!; try done. eapply Inv_same; [|exact HI3]. split_and!; try done; intros i; simpl.
    + by rewrite A1, Hrc, HQ2.
    + by rewrite A2, Ec.
    + by rewrite A3, Esn.
    + by rewrite A4, Ecr.
  - done.
  - intros o w Hvo. exact (credited_after H flits credits o w Hen Hvo (Hcr o w Hvo)).
Qed.

Lemma write_phase now H T st : tracks now H T st →
  returns (WriteOutputs C st) (λ '(sent, returned, st'), zlen sent = q_outputs C ∧ zlen returned = q_inputs C ∧
    tracks now (outputs_written sent returned H) T st').
Proof.
  intros [HR Hp Hcr]. eapply returns_mono; [by apply WriteOutputs_ok|]. intros [[sent rt] st3] (HR3 & L1 & L2 & Hp3). split_and!; [done..|]. split.
  - done.
  - by rewrite Hp3.
  - intros o w Hvo. specialize (Hcr o w Hvo). pose proof Hvo as [Ho Hw]. simpl. unfold fapp. rewrite !upto_in by done. unfold nflits in *.
    rewrite fmap_app, cnt_app. pose proof (cnt_nonneg w (f_vc <$> option_list (sent⟦o⟧))). lia.
Qed.

Local Abbreviation Cycle sinks now := (cycle C (su_IV E) (su_IS E) (su_IP E) (su_rf E) (su_faults E) sinks now).

Lemma router_cycle_ok sinks now H T st flits credits :
  sinks_ok E sinks → 0 ≤ now ≤ int_max → tracks now H T st → env H flits credits →
  returns (Cycle sinks now flits credits st) (λ '(sent, returned, st'), zlen sent = q_outputs C ∧ zlen returned = q_inputs C ∧
    ∃ k, tracks (now + 1) (observe flits credits sent returned H) (T ++ k) st').
Proof.
  intros Hsk Hnow HT Hen. unfold cycle. eapply returns_bind; [by apply (read_phase now H T)|]. intros st1 HR.
  eapply returns_bind; [by apply (evaluate_phase sinks now H T flits credits)|]. intros st2 (k & HT2).
  eapply returns_mono; [by apply (write_phase (now + 1) (inputs_read flits credits H) (T ++ k))|]. intros [[sent rt] st3] (L1 & L2 & HT3).
  split_and!; [done..|]. by exists k.
Qed.

(** ** Construction *)

(** A router, with its output channels of latencies [lats]. *)
Definition built (cfg : Config) (pri_type : ePrioType) (donation : bool) (va : VA) (sa : SA) (g : Rng) (lats : list (Z * Z)) : res IQ :=
  st ← New C cfg pri_type donation (Some va) sa (None : option PA) g;
  zfor 0 (q_outputs C) (λ o st, l ← vget lats o; AddOutputChannel C o l.1 l.2 st) st.

Lemma built_nexts cfg st0 bs (lats : list (Z * Z)) : zlen lats = q_outputs C → Forall (λ l, 0 ≤ l.1 ∧ 0 ≤ l.2) lats →
  iq_next_buf st0 = replicate (Z.to_nat (q_outputs C)) bs → BufferStateOps.New cfg = Ok bs → even_split cfg → policy_fits cfg →
  returns (zfor 0 (q_outputs C) (λ o st, l ← vget lats o; AddOutputChannel C o l.1 l.2 st) st0) (λ st, ∃ nbs, st = set_next_buf nbs st0 ∧
    zlen nbs = q_outputs C ∧ ∀ o, 0 ≤ o < q_outputs C → ∃ m, 0 ≤ m ∧ nbs⟦o⟧ = BufferStateOps.SetMinLatency bs m).
Proof.
  intros Hlen Hpos Hnb Hbs Hes Hfit. pose proof (sp_outputs _ (su_ok E)). eapply returns_mono.
  - apply (returns_for (λ k st, ∃ nbs, st = set_next_buf nbs st0 ∧ zlen nbs = q_outputs C ∧
      (∀ o, 0 ≤ o < k → ∃ m, 0 ≤ m ∧ nbs⟦o⟧ = BufferStateOps.SetMinLatency bs m) ∧ ∀ o, k ≤ o < q_outputs C → nbs⟦o⟧ = bs)); [lia| |].
    { exists (iq_next_buf st0). rewrite Hnb. split_and!; [rewrite <- Hnb; by destruct st0|by apply zlen_replicate; lia|lia|]. intros o Ho. apply znth_replicate. lia. }
    intros o s Ho (nbs & -> & Hl & Hd & Hr). rewrite vget_ok by lia. cbn [mbind res_bind]. match goal with |- context [znth lats o] => set (l := znth lats o) end. unfold AddOutputChannel. simpl. rewrite vget_ok by lia. cbn [mbind res_bind].
    unfold put_next_buf. simpl. rewrite vset_ok by lia. cbn [mbind res_bind]. apply returns_ok. eexists. split; [done|]. split; [lens|]. split.
    + intros o' Ho'. rewrite znth_zupd by lia. case_decide; [subst o'|apply Hd; lia]. rewrite Hr by lia. eexists. split; [|done].
      assert (0 ≤ l.1 ∧ 0 ≤ l.2) as [? ?]. { rewrite Forall_forall in Hpos. apply Hpos. unfold l, znth. apply list_elem_of_lookup_total_2. unfold zlen in *. lia. }
      pose proof (sp_crossbar _ (su_ok E)). pose proof (sp_credit _ (su_ok E)). pose proof (sp_routing _ (su_ok E)).
      rewrite (sp_speculative _ (su_ok E)), (sp_vc_alloc _ (su_ok E)), (sp_sw_alloc _ (su_ok E)). cbn -[Z.add znth]. lia.
    + intros o' Ho'. rewrite znth_zupd_ne by lia. apply Hr. lia.
  - intros st (nbs & -> & Hl & Hd & _). by exists nbs.
Qed.

(** What a router is built from. *)
Record parts (cfg : Config) (va : VA) (sa : SA) (g : Rng) (lats : list (Z * Z)) : Prop := {
  pt_vcs : cfg_num_vcs cfg = q_vcs C;
  pt_split : even_split cfg;
  pt_fits : policy_fits cfg;
  pt_bsize : cfg_size cfg = su_bsize E;
  pt_nsize : cfg_size cfg = su_nsize E;
  pt_va : rl_opened (su_LV E) (i_Clear (ra_I (su_IV E)) va) no_requests;
  pt_sa : rl_opened (su_LS E) (i_Clear (ra_I (su_IS E)) sa) no_requests;
  pt_rng : RngInv.rng_ok g;
  pt_lats : zlen lats = q_outputs C;
  pt_latencies : Forall (λ l, 0 ≤ l.1 ∧ 0 ≤ l.2) lats
}.

Definition new_ghost : Ghost := mkGhost [] (λ _, []) (λ _, []) (λ _, []) (λ _, []).

Lemma new_shape cfg t d : cfg_num_vcs cfg = q_vcs C → cfg_size cfg = su_bsize E → 0 < cfg_size cfg →
  let bufs := replicate (Z.to_nat (q_inputs C)) (BufferOps.New (q_vcs C) (cfg_buf_size cfg) (cfg_vc_buf_size cfg) (q_routing_delay C) t d) in
  shape E bufs ∧ ∀ i v, vin E i v → vcat bufs i v = VCOps.New (q_routing_delay C) t d.
Proof.
  intros Hv Hs Hpos bufs. pose proof (sp_inputs _ (su_ok E)). pose proof (sp_vcs _ (su_ok E)). unfold cfg_size in Hs. rewrite Hv in Hs. split.
  - split; unfold bufs; [apply zlen_replicate; lia|..]; intros i Hi; rewrite znth_replicate by lia; [apply zlen_replicate; lia| |done].
    apply BufferOps.inv_New; unfold cfg_size in Hpos; rewrite Hv in Hpos; lia.
  - intros i v [Hi Hvv]. unfold vcat, bufs. rewrite znth_replicate by lia. simpl. by rewrite znth_replicate by lia.
Qed.

Lemma new_vc t d i v nbs h : held E h i v = false → vc_inv E [] (λ _, []) nbs h i v (VCOps.New (q_routing_delay C) t d).
Proof.
  intros Hh. split; [split; simpl| | |by rewrite Hh]; try done.
  - intros Hrd. rewrite (proj2 (Z.eqb_neq _ _) Hrd). by eexists.
  - by exists None.
Qed.

Lemma new_hold : hold_ok E (mkHold (replicate (Z.to_nat (q_inputs C * q_input_speedup C)) (-1)) (replicate (Z.to_nat (q_outputs C * q_output_speedup C)) (-1))
  (replicate (Z.to_nat (q_inputs C * q_input_speedup C)) (-1))).
Proof.
  pose proof (sp_inputs _ (su_ok E)). pose proof (sp_outputs _ (su_ok E)). pose proof (sp_input_speedup _ (su_ok E)). rewrite (sp_output_speedup _ (su_ok E)), Z.mul_1_r.
  split; simpl; try (apply zlen_replicate; nia).
  - intros e He. left. by rewrite !znth_replicate.
  - intros o Ho. left. by rewrite znth_replicate.
  - intros _ e He. by rewrite znth_replicate.
Qed.

Lemma built_ok cfg t d va sa g lats : parts cfg va sa g lats → returns (built cfg t d va sa g lats) (tracks 0 no_history []).
Proof.
  intros [P1 P2 P3 P4 P5 P6 P7 P8 P9 P10]. unfold built, New.
  rewrite (sp_vc_alloc _ (su_ok E)), (sp_sw_alloc _ (su_ok E)), (sp_noq _ (su_ok E)). cbn [Z.eqb Pos.eqb andb].
  destruct (New_safe cfg 0 P2 P3 ltac:(lia)) as (bs & Ebs & _). rewrite Ebs. cbn [mbind res_bind]. set (st0 := mkIQRouter _ _ _ _ _ _ _ _ _ _ _ _ _ _ _ _ _ _ _ _ _ _).
  eapply returns_mono; [by apply (built_nexts cfg st0 bs)|]. intros st (nbs & -> & Hlen & Hn).
  destruct (new_shape cfg t d P1 P4 (es_size _ P2)) as [Hs Hvc]. pose proof new_hold as Hh.
  pose proof (sp_inputs _ (su_ok E)). pose proof (sp_outputs _ (su_ok E)). pose proof (sp_input_speedup _ (su_ok E)).
  assert (∀ i v, vin E i v → held E (iq_switch_hold st0) i v = false) as Hnh.
  { intros i v Hi. unfold held. simpl. rewrite znth_replicate by by apply expanded_input_range. destruct Hi. lia. }
  assert (∀ X, X ≠ Nowhere → members E (place_at E (iq_buf st0) (iq_switch_hold st0)) X []) as Hm.
  { intros X HX. split; [constructor|]. intros i v. split; [by intros ?%not_elem_of_nil|]. intros [Hi Hp]. unfold place_at, place_of in Hp. simpl in Hp. rewrite (Hvc i v Hi) in Hp. simpl in Hp. congruence. }
  split; [split_and!|simpl; lia|done].
  - split; try done; simpl.
    + intros i v Hi _. rewrite (Hvc i v Hi). apply new_vc. by apply Hnh.
    + split; by apply Hm.
    + split; try done; [|intros o w [Ho Hw]].
      * intros o Ho. destruct (Hn o Ho) as (m & Hm0 & ->). destruct (New_safe cfg m P2 P3 Hm0) as (bs' & Ebs' & I1 & I2 & I3 & _). rewrite Ebs in Ebs'. injection Ebs' as <-.
        split_and!; [done|by rewrite I2|by rewrite I3].
      * destruct (Hn o Ho) as (m & Hm0 & ->). destruct (New_safe cfg m P2 P3 Hm0) as (bs' & Ebs' & _ & I2 & _ & I4). rewrite Ebs in Ebs'. injection Ebs' as <-.
        destruct (I4 w ltac:(lia)) as [-> _]. done.
    + split; try done; [constructor|apply zlen_replicate; lia|]. intros o Ho. by rewrite znth_replicate.
    + split; try done; [apply zlen_replicate; lia| |constructor]. intros i v [Hi Hv]. by rewrite znth_replicate.
    + rewrite (sp_speculative _ (su_ok E)). split; try done; [by exists va|]. rewrite zlen_fmap. unfold zlen. rewrite length_seqZ. nia.
  - split; simpl; try done; apply staged_nil.
  - intros _. split; [by split|done].
  - done.
Qed.
End cycle.
