(* ===== verification/RouterSpec.v ===== *)
(** * The input-queued router: what it promises

    Theorems on the runs of [IQRouter] from its construction, for any allocators
    with the laws of [SwitchAlloc.v] and any routing function that gives routes. *)

From S2P Require Import Prelude StdMap OutputSet Flit VCBuffer BufferState BufferStateInv Credits Link Arbiter Allocator AllocLaws AllocStore Rng Islip Route SwitchAlloc IQRouter IQSwitch Wormhole RouterInv RouterQueues RouterStages RouterRoute RouterVCAlloc RouterSwitchAlloc RouterSend RouterSwitch RouterStep RouterRun.
Import CoreOps Credits Link IQRouterOps IQSwitchOps.

Section spec.
Context {VA SA PA : Type} (E : Setup VA SA PA).
Local Abbreviation C := (su_C E).
Local Abbreviation IQ := (IQRouter VA SA PA).

(** The states a router reaches, with what has been seen of it. *)
Inductive runs : Z → Hist → IQ → Prop :=
  | runs_start cfg t d va sa g lats st :
      parts E cfg va sa g lats → built E cfg t d va sa g lats = Ok st → runs 0 no_history st
  | runs_cycle now H st sinks flits credits sent returned st' :
      runs now H st → now ≤ int_max → sinks_ok E sinks → env E H flits credits →
      cycle C (su_IV E) (su_IS E) (su_IP E) (su_rf E) (su_faults E) sinks now flits credits st = Ok (sent, returned, st') →
      runs (now + 1) (observe E flits credits sent returned H) st'.

Lemma runs_tracks now H st : runs now H st → 0 ≤ now ∧ ∃ T, tracks E now H T st.
Proof.
  induction 1 as [cfg t d va sa g lats st Hp Hb|now H st sinks flits credits sent returned st' Hr [Hnow [T HT]] Hmax Hsk Hen Hc].
  - destruct (built_ok E cfg t d va sa g lats Hp) as (st' & Hb' & HT). assert (st' = st) as -> by congruence. split; [done|]. by exists [].
  - split; [lia|]. destruct (router_cycle_ok E sinks now H T st flits credits Hsk ltac:(lia) HT Hen) as ([[s r] st2] & Hc' & _ & _ & k & HT').
    rewrite Hc in Hc'. injection Hc' as <- <- <-. by exists (T ++ k).
Qed.

(** ** Consequences of the invariant *)

Lemma tracks_received now H T st i v : tracks E now H T st → vin E i v →
  strip <$> (from i v T ++ v_buffer (vcat (iq_buf st) i v)) = strip <$> on_vc v (h_received H i).
Proof. intros [(HI & _) _ _] Hi. apply (in_vc _ _ _ _ HI i v Hi ltac:(done)). Qed.

Lemma tracks_sent now H T st o : tracks E now H T st → 0 ≤ o < q_outputs C →
  to_port o T = h_sent H o ++ (iq_output_buffer st)⟦o⟧ ++ in_crossbar o (iq_crossbar_flits st).
Proof. intros [(HI & _) _ _] Ho. by apply (in_outs _ _ _ _ HI). Qed.

Lemma strip_zlen (l l' : list Flit) : strip <$> l = strip <$> l' → zlen l = zlen l'.
Proof. intros El. apply (f_equal length) in El. rewrite !length_fmap in El. unfold zlen. lia. Qed.

Lemma stream_prefix e l1 l2 e' : stream e (l1 ++ l2) = Some e' → is_Some (stream e l1).
Proof. rewrite stream_app. destruct (stream e l1); [by eexists|done]. Qed.

(** The packets sent on an output VC. *)
Lemma tracks_streams now H T st o w : tracks E now H T st → 0 ≤ o < q_outputs C → is_Some (stream None (on_vc w (h_sent H o))).
Proof.
  intros HT Ho. pose proof HT as [(HI & _) _ _]. pose proof (ou_worm _ _ _ _ _ (in_outs _ _ _ _ HI)) as HW. destruct (wormhole_streams _ HW) as [_ Hs].
  destruct (Hs o w) as (e & He & _). rewrite to_to_port in He. simpl in He. rewrite (tracks_sent now H T st o HT Ho) in He. rewrite filter_app in He. by eapply stream_prefix.
Qed.

Lemma nflits_app w a b : nflits w (a ++ b) = nflits w a + nflits w b.
Proof. unfold nflits. by rewrite fmap_app, cnt_app. Qed.

Lemma occupancy_fits bs : inv bs → occupancy (core bs) ≤ size (core bs).
Proof.
  intros [Hc Hp]. pose proof (co_vcs _ Hc). destruct (PolicyInv.PolicyFull_ok _ _ _ _ 0 _ _ 0 Hp (core_view _ Hc) ltac:(lia)) as (a & _ & _ & Hle).
  rewrite (co_occupancy _ Hc). lia.
Qed.

(** The slots in use at the next router. *)
Lemma tracks_outstanding now H T st o : tracks E now H T st → 0 ≤ o < q_outputs C →
  zsumf (λ w, nflits w (h_sent H o) - ncredits w (h_credited H o)) (q_vcs C) ≤ su_nsize E.
Proof.
  intros HT Ho. pose proof HT as [(HI & _) _ _]. pose proof (in_nexts _ _ _ _ HI) as [N1 N2 N3 N4]. destruct (N2 o Ho) as (Hinv & Hv & Hs). pose proof Hinv as [Hc _].
  pose proof (sp_vcs _ (su_ok E)). rewrite <- Hs. etrans; [|by apply occupancy_fits]. rewrite (co_occupancy _ Hc), Hv. apply zsumf_le; [lia|].
  intros w Hw. specialize (N3 o w (conj Ho Hw)). simpl in N3. pose proof (ncredits_nonneg w (pending o (iq_proc_credits st))).
  rewrite (tracks_sent now H T st o HT Ho) in N3. rewrite nflits_app in N3. pose proof (nflits_nonneg w ((iq_output_buffer st)⟦o⟧ ++ in_crossbar o (iq_crossbar_flits st))). lia.
Qed.

(** The credits returned. *)
Lemma tracks_returned now H T st i v : tracks E now H T st → vin E i v →
  ncredits v (h_credits H i) ≤ zlen (from i v T) ∧ zlen (from i v T) ≤ nflits v (h_received H i).
Proof.
  intros HT Hi. pose proof (tracks_received _ _ _ _ i v HT Hi) as Hr. apply strip_zlen in Hr. rewrite nflits_on_vc.
  pose proof HT as [(HI & _) _ _]. pose proof (cr_count _ _ _ _ _ (in_credits _ _ _ _ HI) i v (proj1 Hi)) as Hcr. simpl in Hcr.
  pose proof (ncredits_nonneg v ((iq_credit_buffer st)⟦i⟧)). pose proof (cnt_nonneg v (queued i (iq_out_queue_credits st))).
  unfold zlen in *. rewrite length_app in Hr. lia.
Qed.

(** A router at rest holds no flit. *)
Lemma tracks_asleep now H T st i v : tracks E now H T st → iq_active st = false → vin E i v → v_buffer (vcat (iq_buf st) i v) = [].
Proof.
  intros [(HI & _ & Hs & _) _ _] Ha Hi. destruct (Hs Ha) as [[M1 M2 M3 M4 M5 M6] _]. pose proof (in_queues _ _ _ _ HI) as [[_ Q1] [_ Q2] [_ Q3] [_ Q4]].
  rewrite M2 in Q1 by lia. rewrite M3 in Q2 by lia. rewrite M4 in Q3 by lia. rewrite M5 in Q4 by lia. simpl in *.
  pose proof (place_state (vcat (iq_buf st) i v) (held E (iq_switch_hold st) i v)) as Hp. fold (place_at E (iq_buf st) (iq_switch_hold st) i v) in Hp.
  destruct (place_at E (iq_buf st) (iq_switch_hold st) i v) eqn:Ep.
  - destruct Hp as [Hp|[_ ?]]; [|done]. pose proof (vk_state _ _ _ _ _ (vi_ok _ _ _ _ _ _ _ _ (in_vc _ _ _ _ HI i v Hi ltac:(done)))) as K.
    unfold vc_state_ok in K. rewrite Hp in K. apply K.
  - by destruct (not_elem_of_nil (i, v)); apply Q1.
  - by destruct (not_elem_of_nil (i, v)); apply Q2.
  - by destruct (not_elem_of_nil (i, v)); apply Q3.
  - by destruct (not_elem_of_nil (i, v)); apply Q4.
Qed.
End spec.

(** ** A router for the witnesses *)

Module Sample.

(** Two inputs, two outputs and two VCs; packets go to the output of their
    destination. *)
Definition config : IQConfig :=
  mkIQConfig 0 2 2 1 2 1 1 1024 1 1 1 1 1 (-1) false false false false false false false true false.

Definition route (r : Router) (f : Flit) (in_channel : Z) (rs : OutputSet) (inject : bool) (g : Rng) : res (OutputSet * Flit * Rng) :=
  Ok ([SetElement 0 1 0 (f_dest f)], f, g).

Lemma config_ok : supported config.
Proof. by split. Qed.

Definition setup : Setup ISLIP ISLIP ISLIP.
Proof.
  refine {| su_C := config; su_IV := ISLIPRA; su_IS := ISLIPRA; su_IP := ISLIPRA; su_rf := route; su_faults := []; su_bsize := 4; su_nsize := 4;
    accepts := λ f, 0 ≤ f_dest f < 2; leaves := λ o f, f_dest f = o; passes := λ o f, f_dest f = o; su_ok := config_ok;
    su_LV := ISLIPRALaws 4 4 1 ltac:(lia) ltac:(lia) ltac:(lia); su_LS := ISLIPRALaws 2 2 1 ltac:(lia) ltac:(lia) ltac:(lia) |}.
  - done.
  - intros _ occ f i rs g _ _ Hf _ Hg. apply returns_ok. split_and!; try done.
    + split; [by repeat constructor; simpl; lia|]. split; [|done]. intros w _ Hx. by apply Exists_nil in Hx.
    + intros o w Ho. apply Exists_cons in Ho as [[Ho _]|Ho]; [done|by apply Exists_nil in Ho].
  - done.
  - done.
Defined.

Definition cfg : Config := Link.sample_config "private".

Lemma parts_ok : parts setup cfg (ISLIPOps.New 4 4 1) (ISLIPOps.New 2 2 1) RngOps.initial [(1, 1); (1, 1)].
Proof.
  assert (∀ k, 0 < k → ISLIPInv.islip_opened k k 1 (i_Clear ISLIPI (ISLIPOps.New k k 1)) no_requests) as Ho.
  { intros k Hk. split_and!; try (apply zlen_replicate; lia); [|done]. apply (SparseLaws.sparse_close_idle k k _ no_requests), SparseLaws.sparse_New_opened; lia. }
  split; [done|apply Link.sample_even|left; split; [done|right; by vm_compute]|done|done|by apply Ho|by apply Ho|apply RngInv.rng_ok_initial|done|by repeat constructor].
Qed.

Definition flit (vc pid dest : Z) (head tail : bool) (id : Z) : Flit :=
  mkFlit ANY_TYPE vc 0 head tail 0 0 0 id pid false 0 dest 0 0 false 0 2 0 0 [].

(** Two packets arrive together on different VCs, for one output. *)
Definition inputs : list (list (option Flit) * list (option Credit)) :=
  [([Some (flit 0 7 1 true false 0); Some (flit 1 8 1 true false 2)], [None; None]);
   ([Some (flit 0 7 1 false true 1); None], [None; None]);
   ([None; Some (flit 1 8 1 false true 3)], [None; None])] ++ replicate 8 ([None; None], [None; None]).

Definition envb (H : Hist) (flits : list (option Flit)) (credits : list (option Credit)) : bool :=
  (zlen flits =? 2) && (zlen credits =? 2) &&
  forallb (λ i, match flits⟦i⟧ with
    | None => true
    | Some f => (0 <=? f_vc f) && (f_vc f <? 2) && (0 <=? f_pid f) && (f_pid f <=? int_max) && (0 <=? f_hops f) &&
        (0 <=? f_dest f) && (f_dest f <? 2) && (zsumf (λ v, nflits v (h_received H i) - ncredits v (h_credits H i)) 2 <? 4) &&
        bool_decide (is_Some (stream None (on_vc (f_vc f) (h_received H i ++ [f]))))
    end) [0; 1] &&
  forallb (λ o, match credits⟦o⟧ with None => true | Some _ => false end) [0; 1].

Lemma envb_ok H flits credits : envb H flits credits = true → env setup H flits credits.
Proof.
  unfold envb. intros [[[L1 L2]%andb_true_iff HF]%andb_true_iff HC]%andb_true_iff. pose proof (proj1 (forallb_forall _ _) HF) as HF1. pose proof (proj1 (forallb_forall _ _) HC) as HC1. split; try (simpl; lia).
  - intros i f Hi Hf. simpl in Hi. specialize (HF1 i ltac:(simpl; lia)). cbn beta in HF1. rewrite Hf in HF1. bool_to_prop. split_and!; try done; try (simpl; lia). by eapply bool_decide_eq_true_1.
  - intros o c Ho Hc. simpl in Ho. specialize (HC1 o ltac:(simpl; lia)). cbn beta in HC1. by rewrite Hc in HC1.
Qed.

Local Abbreviation Cycle now := (cycle config ISLIPRA ISLIPRA ISLIPRA route [] [None; None] now).

Fixpoint simulate (ins : list (list (option Flit) * list (option Credit))) now H st : res (Z * Hist * IQRouter ISLIP ISLIP ISLIP) :=
  match ins with
  | [] => Ok (now, H, st)
  | (flits, credits) :: ins =>
      assert! envb H flits credits;
      '(sent, returned, st) ← Cycle now flits credits st;
      simulate ins (now + 1) (observe setup flits credits sent returned H) st
  end.

Lemma simulate_runs ins : ∀ now H st, runs setup now H st → now + zlen ins ≤ int_max →
  ∀ now' H' st', simulate ins now H st = Ok (now', H', st') → runs setup now' H' st'.
Proof.
  induction ins as [|[fl cr] ins IH]; intros now H st Hr Hmax now' H' st' Hs; simpl in Hs; [by injection Hs as <- <- <-|].
  apply assert_ok_inv in Hs as [He Hs]. apply bind_ok_inv in Hs as ([[sent rt] st1] & Hc & Hs). unfold zlen in Hmax. cbn [length] in Hmax.
  eapply (IH (now + 1)); [|unfold zlen; lia|exact Hs]. eapply (runs_cycle setup now H st [None; None]); try done; [lia|..|by apply envb_ok].
Qed.

Definition start : res (IQRouter ISLIP ISLIP ISLIP) :=
  built setup cfg none false (ISLIPOps.New 4 4 1) (ISLIPOps.New 2 2 1) RngOps.initial [(1, 1); (1, 1)].
Definition final : res (Z * Hist * IQRouter ISLIP ISLIP ISLIP) := st ← start; simulate inputs 0 no_history st.
End Sample.

(** ** Theorems *)

Section theorems.
Context {VA SA PA : Type} (E : Setup VA SA PA).
Local Abbreviation C := (su_C E).
Local Abbreviation Cycle sinks now := (cycle C (su_IV E) (su_IS E) (su_IP E) (su_rf E) (su_faults E) sinks now).

(** C4. An input-queued router never fails: it is constructed, and in every cycle
    of every run [ReadInputs], [Evaluate] and [WriteOutputs] return, with none of
    their assertions violated, no error reported and no access out of range, as
    long as its neighbours keep to the flow control and heads have routes. *)
Theorem router_never_fails :
  (∀ cfg t d va sa g lats, parts E cfg va sa g lats → ∃ st, built E cfg t d va sa g lats = Ok st) ∧
  (∀ now H st sinks flits credits, runs E now H st → now ≤ int_max → sinks_ok E sinks → env E H flits credits →
     ∃ sent returned st', Cycle sinks now flits credits st = Ok (sent, returned, st') ∧
       zlen sent = q_outputs C ∧ zlen returned = q_inputs C).
Proof.
  split.
  - intros cfg t d va sa g lats Hp. destruct (built_ok E cfg t d va sa g lats Hp) as (st & Hb & _). by exists st.
  - intros now H st sinks flits credits Hr Hmax Hsk Hen. destruct (runs_tracks E now H st Hr) as (Hnow & T & HT).
    destruct (router_cycle_ok E sinks now H T st flits credits Hsk ltac:(lia) HT Hen) as ([[sent rt] st'] & Hc & L1 & L2 & _). by exists sent, rt, st'.
Qed.

(** C5. An input-queued router implements wormhole switching.  The flits it has
    received and sent are those of a sequence of moves from input VCs to output
    VCs in which a packet keeps its output VC from head to tail and no other uses
    it meanwhile.  Every flit received has moved or is buffered, in order, and
    every flit moved is sent or waits for it, in order; heads go to an output
    their route allows, with what they need at the next router. *)
Theorem router_wormhole now H st :
  runs E now H st →
  ∃ T, wormhole T ∧
    (∀ i v, 0 ≤ i < q_inputs C → 0 ≤ v < q_vcs C →
       strip <$> on_vc v (h_received H i) = strip <$> (from i v T ++ v_buffer (vcat (iq_buf st) i v))) ∧
    (∀ o, 0 ≤ o < q_outputs C → ∃ waiting, to_port o T = h_sent H o ++ waiting) ∧
    Forall (λ m, 0 ≤ mv_out m < q_outputs C ∧ 0 ≤ f_vc (mv_flit m) < q_vcs C ∧
                 (f_head (mv_flit m) = true → passes E (mv_out m) (mv_flit m))) T.
Proof.
  intros Hr. destruct (runs_tracks E now H st Hr) as (_ & T & HT). pose proof HT as [(HI & _) _ _]. exists T. split_and!.
  - apply (in_outs _ _ _ _ HI).
  - intros i v Hi Hv. symmetry. by apply (tracks_received E now H T st).
  - intros o Ho. eexists. by apply (tracks_sent E now H T st).
  - eapply Forall_impl; [apply (in_outs _ _ _ _ HI)|]. intros m (_ & [Ho Hw] & _ & Hp). done.
Qed.

(** C13. What a router sends on an output VC are whole packets, one after the
    other, the last one perhaps unfinished, as what it receives on an input VC. *)
Theorem router_output_packets now H st o w :
  runs E now H st → 0 ≤ o < q_outputs C → is_Some (stream None (on_vc w (h_sent H o))).
Proof. intros Hr Ho. destruct (runs_tracks E now H st Hr) as (_ & T & HT). by apply (tracks_streams E now H T st). Qed.

(** C12. Flow control.  The flits sent on an output and not credited fit in the
    buffer of the next router, under every buffer policy; and an input returns no
    more credits for a VC than flits of it have left. *)
Theorem router_flow_control now H st :
  runs E now H st →
  (∀ o, 0 ≤ o < q_outputs C → zsumf (λ w, nflits w (h_sent H o) - ncredits w (h_credited H o)) (q_vcs C) ≤ su_nsize E) ∧
  (∀ i v, 0 ≤ i < q_inputs C → 0 ≤ v < q_vcs C →
     ncredits v (h_credits H i) + zlen (v_buffer (vcat (iq_buf st) i v)) ≤ nflits v (h_received H i)).
Proof.
  intros Hr. destruct (runs_tracks E now H st Hr) as (_ & T & HT). split.
  - intros o Ho. by apply (tracks_outstanding E now H T st).
  - intros i v Hi Hv. destruct (tracks_returned E now H T st i v HT (conj Hi Hv)) as [Hc _].
    pose proof (tracks_received E _ _ _ _ i v HT (conj Hi Hv)) as Hs. apply strip_zlen in Hs. rewrite nflits_on_vc. unfold zlen in *. rewrite length_app in Hs. lia.
Qed.

(** C20. A router with work to do stays active: when [_active] is cleared every
    flit received has crossed the switch, nothing is in the crossbar and all
    credits have been processed. *)
Theorem router_stays_active now H st :
  runs E now H st → iq_active st = false →
  iq_crossbar_flits st = [] ∧ iq_proc_credits st = [] ∧
  ∀ i v, 0 ≤ i < q_inputs C → 0 ≤ v < q_vcs C → v_buffer (vcat (iq_buf st) i v) = [].
Proof.
  intros Hr Ha. destruct (runs_tracks E now H st Hr) as (_ & T & HT). pose proof HT as [(_ & _ & Hs & _) _ _]. destruct (Hs Ha) as [[M1 _ _ _ _ M6] _].
  split_and!; [apply M6; lia|done|]. intros i v Hi Hv. by apply (tracks_asleep E now H T st).
Qed.
End theorems.

(** ** Witnesses *)

(** Where the router of [Sample] is after its run: both packets have left on
    different VCs of output 1, and it sleeps. *)
Lemma sample_run : ∃ H st, runs Sample.setup 11 H st ∧ iq_active st = false ∧ f_id <$> h_sent H 1 = [0; 1; 2; 3] ∧ f_vc <$> h_sent H 1 = [0; 0; 1; 1].
Proof.
  destruct Sample.start as [st0|] eqn:E0; [|vm_compute in E0; done].
  destruct (Sample.simulate Sample.inputs 0 no_history st0) as [[[n H] st]|] eqn:E1.
  - assert (match Sample.final with Ok (n, H, st) => (n =? 11) && negb (iq_active st) && bool_decide (f_id <$> h_sent H 1 = [0; 1; 2; 3])
      && bool_decide (f_vc <$> h_sent H 1 = [0; 0; 1; 1]) | Fail _ => false end = true) as Hf by (vm_compute; reflexivity).
    unfold Sample.final in Hf. rewrite E0 in Hf. cbn [mbind res_bind] in Hf. rewrite E1 in Hf. repeat (apply andb_true_iff in Hf as [Hf ?]).
    apply Z.eqb_eq in Hf. subst n. exists H, st. split_and!; try (by eapply bool_decide_eq_true_1); [|by destruct (iq_active st)].
    eapply (Sample.simulate_runs Sample.inputs 0); [|by vm_compute|exact E1]. by eapply runs_start, E0; apply Sample.parts_ok.
  - assert (match Sample.final with Ok _ => true | Fail _ => false end = true) as Hf by (vm_compute; reflexivity).
    unfold Sample.final in Hf. rewrite E0 in Hf. cbn [mbind res_bind] in Hf. by rewrite E1 in Hf.
Qed.

Lemma sample_quiet H : Sample.envb H [None; None] [None; None] = true.
Proof. done. Qed.

Lemma router_never_fails_witness : ∃ H st sent returned st', runs Sample.setup 11 H st ∧
  cycle Sample.config ISLIPRA ISLIPRA ISLIPRA Sample.route [] [None; None] 11 [None; None] [None; None] st = Ok (sent, returned, st').
Proof.
  destruct sample_run as (H & st & Hr & _).
  destruct (proj2 (router_never_fails Sample.setup) 11 H st [None; None] [None; None] [None; None] Hr ltac:(by vm_compute) ltac:(done)
    (Sample.envb_ok H _ _ (sample_quiet H))) as (sent & returned & st' & Hc & _).
  by exists H, st, sent, returned, st'.
Defined.

Lemma router_wormhole_witness : ∃ H st T, runs Sample.setup 11 H st ∧ wormhole T ∧ ∃ waiting, to_port 1 T = h_sent H 1 ++ waiting.
Proof.
  destruct sample_run as (H & st & Hr & _). destruct (router_wormhole Sample.setup 11 H st Hr) as (T & HW & _ & Ho & _). exists H, st, T.
  split; [exact Hr|split; [exact HW|apply (Ho 1); simpl; lia]].
Defined.

Lemma router_output_packets_witness : ∃ H st, runs Sample.setup 11 H st ∧ is_Some (stream None (on_vc 1 (h_sent H 1))).
Proof.
  destruct sample_run as (H & st & Hr & _). exists H, st. split; [exact Hr|].
  apply (router_output_packets Sample.setup 11 H st 1 1 Hr). simpl. lia.
Defined.

Lemma router_flow_control_witness : ∃ H st, runs Sample.setup 11 H st ∧ f_id <$> h_sent H 1 = [0; 1; 2; 3] ∧
  zsumf (λ w, nflits w (h_sent H 1) - ncredits w (h_credited H 1)) 2 ≤ 4.
Proof.
  destruct sample_run as (H & st & Hr & _ & Hs & _). exists H, st. split; [exact Hr|split; [exact Hs|]].
  apply (proj1 (router_flow_control Sample.setup 11 H st Hr) 1). simpl. lia.
Defined.

Lemma router_stays_active_witness : ∃ H st, runs Sample.setup 11 H st ∧ iq_active st = false ∧ v_buffer (vcat (iq_buf st) 0 0) = [].
Proof.
  destruct sample_run as (H & st & Hr & Ha & _). exists H, st. split; [exact Hr|split; [exact Ha|]].
  apply (router_stays_active Sample.setup 11 H st Hr Ha); simpl; lia.
Defined.

(** ** Configurations that do not work *)

(** Runs of the router of [Sample] under options outside [supported]. *)
Module Limits.

Local Abbreviation IQ := (IQRouter ISLIP ISLIP ISLIP).

(** The router of [Sample] with other delays and speedups. *)
Definition other (internal_speedup crossbar_delay routing_delay vc_alloc_delay sw_alloc_delay : Z) (speculative : bool) : IQConfig :=
  mkIQConfig 0 2 2 1 2 1 1 internal_speedup crossbar_delay 1 routing_delay vc_alloc_delay sw_alloc_delay (-1)
    false false false speculative true true false true false.

(** The ids of the flits sent on each output. *)
Fixpoint run_cycles (C : IQConfig) (now : Z) (ins : list (list (option Flit) * list (option Credit))) (st : IQ) : res (list (list (option Z))) :=
  match ins with
  | [] => Ok []
  | (flits, credits) :: ins =>
      '(sent, _, st) ← cycle C ISLIPRA ISLIPRA ISLIPRA Sample.route [] [None; None] now flits credits st;
      r ← run_cycles C (now + 1) ins st;
      Ok (map (option_map f_id) sent :: r)
  end.

Definition run_other (C : IQConfig) (ins : list (list (option Flit) * list (option Credit))) : res (list (list (option Z))) :=
  st ← New C Sample.cfg none false (Some (ISLIPOps.New 4 4 1)) (ISLIPOps.New 2 2 1) (Some (ISLIPOps.New 2 2 1)) RngOps.initial;
  run_cycles C 0 ins st.

(** Two packets of one flit that arrive in consecutive cycles, for different
    outputs. *)
Definition staggered : list (list (option Flit) * list (option Credit)) :=
  [([Some (Sample.flit 0 7 0 true true 0); None], [None; None]); ([None; Some (Sample.flit 0 8 1 true true 1)], [None; None])]
  ++ replicate 8 ([None; None], [None; None]).

(** One cycle apart, as they came. *)
Example staggered_supported : run_other (other 1024 1 1 1 1 false) staggered =
  Ok ([[None; None]; [None; None]; [None; None]; [Some 0; None]; [None; Some 1]] ++ replicate 5 [None; None]).
Proof. vm_compute. reflexivity. Qed.

(** With an allocation that takes two cycles, the last loop of
    [_VCAllocEvaluate] (or [_SWAllocEvaluate]) asserts that every waiting VC has
    been looked at, but the loops before it stop at the first VC that was looked
    at in an earlier cycle. *)
Example vc_alloc_two_cycles : run_other (other 1024 1 1 2 1 false) staggered = Fail AssertFailed.
Proof. vm_compute. reflexivity. Qed.
Example sw_alloc_two_cycles : run_other (other 1024 1 1 1 2 false) staggered = Fail AssertFailed.
Proof. vm_compute. reflexivity. Qed.

(** A crossbar without delay misses its time: [_SwitchEvaluate] sets it to the
    cycle before, which [_SwitchUpdate] asserts to be now. *)
Example crossbar_no_delay : run_other (other 1024 0 1 1 1 false) staggered = Fail AssertFailed.
Proof. vm_compute. reflexivity. Qed.

(** With an internal speedup of 0.5, inputs are queued every second cycle, and a
    flit that arrives meanwhile is dropped: flit 1 is lost and the packet of
    flits 2 and 3 goes on behind its head. *)
Example half_speed_drops_flits :
  (r ← run_other (other 512 1 1 1 1 false) (Sample.inputs ++ replicate 11 ([None; None], [None; None])); Ok (omap id (concat r))) = Ok [0; 2; 3].
Proof. vm_compute. reflexivity. Qed.
End Limits.
