(* ===== verification/RouterFlow.v ===== *)
(** * The input-queued router: what goes through it

    What a network of routers needs to know of one: the flits and credits it sends
    are in order for its neighbours, no flit is lost or made up, and the flits of a
    packet leave next to each other, as they came. *)

From S2P Require Import Prelude StdMap OutputSet Flit VCBuffer BufferState BufferStateInv Credits Link Arbiter Allocator AllocLaws Rng Route SwitchAlloc IQRouter IQSwitch Wormhole RouterInv RouterQueues RouterStages RouterRoute RouterVCAlloc RouterSwitchAlloc RouterSend RouterSwitch RouterStep RouterRun RouterSpec.
Import CoreOps Credits Link IQRouterOps IQSwitchOps.

(** ** Counting flits *)

(** The flits of [l] that [p] holds of, on their way. *)
Definition tally (p : Flit → bool) (l : list Flit) : Z := zsum ((λ f, if p (strip f) then 1 else 0) <$> l).

Section tally.
Context (p : Flit → bool).
Local Abbreviation tally := (tally p).

Lemma tally_app a b : tally (a ++ b) = tally a + tally b.
Proof. unfold tally. by rewrite fmap_app, zsum_app. Qed.

Lemma tally_single f : tally [f] = if p (strip f) then 1 else 0.
Proof. unfold tally. simpl. lia. Qed.

Lemma tally_nonneg l : 0 ≤ tally l.
Proof. apply zsum_nonneg, Forall_fmap, Forall_true. intros f. simpl. by destruct (p (strip f)). Qed.

Lemma tally_strip l l' : strip <$> l = strip <$> l' → tally l = tally l'.
Proof.
  unfold tally. intros El. assert (∀ m : list Flit, (λ f, if p (strip f) then 1 else 0) <$> m = (λ f, if p f then 1 else 0) <$> (strip <$> m)) as Hm
    by (intros m; by rewrite <- list_fmap_compose). by rewrite !Hm, El.
Qed.

Lemma zsumf_at (x : Z → Z) n k d : 0 ≤ k < n → zsumf (λ v, x v + (if decide (v = k) then d else 0)) n = zsumf x n + d.
Proof.
  intros Hk. rewrite zsumf_plus. rewrite (zsumf_change (λ _, 0) (λ v, if decide (v = k) then d else 0) n k); [|done|].
  - rewrite zsumf_const_0, decide_True by done. lia.
  - intros w Hw Hne. by rewrite decide_False.
Qed.

(** By VC. *)
Lemma tally_vcs n l : Forall (λ f, 0 ≤ f_vc f < n) l → zsumf (λ v, tally (on_vc v l)) n = tally l.
Proof.
  induction l as [|f l IH] using rev_ind; intros Hl.
  { unfold on_vc, tally. simpl. apply zsumf_const_0. }
  apply Forall_app in Hl as [Hl [Hf _]%Forall_cons]. rewrite tally_app, <- IH by done.
  rewrite <- (zsumf_at (λ v, tally (on_vc v l)) n (f_vc f) (tally [f])) by exact Hf. apply zsumf_ext. intros v Hv. unfold on_vc. rewrite filter_snoc.
  repeat case_decide; subst; try done; [by rewrite tally_app|by rewrite Z.add_0_r].
Qed.

(** By where they are moved from and to. *)
Lemma tally_from n m (T : list Move) : Forall (λ x, 0 ≤ mv_in x < n ∧ 0 ≤ mv_vc x < m) T →
  zsumf (λ i, zsumf (λ v, tally (from i v T)) m) n = tally (mv_flit <$> T).
Proof.
  induction T as [|x T IH] using rev_ind; intros HT.
  { unfold from, tally. simpl. rewrite (zsumf_ext _ (λ _, 0)); [apply zsumf_const_0|]. intros. apply zsumf_const_0. }
  apply Forall_app in HT as [HT [[Hi Hv] _]%Forall_cons]. rewrite fmap_app, tally_app, <- IH by done. cbn [fmap list_fmap].
  rewrite <- (zsumf_at _ n (mv_in x) (tally [mv_flit x])) by done. apply zsumf_ext. intros i Hii. case_decide as Ei.
  - subst i. rewrite <- (zsumf_at _ m (mv_vc x) (tally [mv_flit x])) by done. apply zsumf_ext. intros v Hvv. rewrite from_snoc. unfold is_from.
    repeat case_decide; destruct_and?; subst; try done; [by rewrite tally_app|tauto|lia].
  - rewrite Z.add_0_r. apply zsumf_ext. intros v Hvv. rewrite from_snoc. unfold is_from. by rewrite decide_False by (intros [? ?]; congruence).
Qed.

Lemma tally_to n (T : list Move) : Forall (λ x, 0 ≤ mv_out x < n) T → zsumf (λ o, tally (to_port o T)) n = tally (mv_flit <$> T).
Proof.
  induction T as [|x T IH] using rev_ind; intros HT.
  { unfold to_port, tally. simpl. apply zsumf_const_0. }
  apply Forall_app in HT as [HT [Ho _]%Forall_cons]. rewrite fmap_app, tally_app, <- IH by done. cbn [fmap list_fmap].
  rewrite <- (zsumf_at _ n (mv_out x) (tally [mv_flit x])) by exact Ho. apply zsumf_ext. intros o Hoo. rewrite to_port_snoc.
  repeat case_decide; subst; try done; [by rewrite tally_app|lia].
Qed.
End tally.

(** ** Neighbours *)

(** A flit that is not a head and the one before it. *)
Fixpoint adjacent (R : Flit → Flit → Prop) (l : list Flit) : Prop :=
  match l with
  | g :: l' => match l' with f :: _ => (f_head f = false → R (strip g) (strip f)) | [] => True end ∧ adjacent R l'
  | [] => True
  end.

Section adjacent.
Context (R : Flit → Flit → Prop).
Local Abbreviation adjacent := (adjacent R).

Lemma adjacent_snoc l f : adjacent (l ++ [f]) ↔ adjacent l ∧ ∀ g, last l = Some g → f_head f = false → R (strip g) (strip f).
Proof.
  induction l as [|x [|y l] IH]; simpl in *.
  - split; [done|]. intros _. split; [done|done].
  - split.
    + intros [H1 _]. split; [done|]. intros g [= <-]. done.
    + intros [_ H1]. split; [by apply H1|done].
  - rewrite IH. tauto.
Qed.

Lemma adjacent_prefix l1 l2 : adjacent (l1 ++ l2) → adjacent l1.
Proof. induction l2 as [|f l2 IH] using rev_ind; [by rewrite app_nil_r|]. rewrite app_assoc. intros [H _]%adjacent_snoc. by apply IH. Qed.

Lemma adjacent_strip l l' : strip <$> l = strip <$> l' → adjacent l → adjacent l'.
Proof.
  revert l'. induction l as [|g l IH]; intros [|g' l'] E; try done. rewrite !fmap_cons in E. apply cons_eq_inj in E as [Eg E].
  intros [H1 H2]. split; [|by apply IH]. destruct l as [|f l], l' as [|f' l']; try done. rewrite !fmap_cons in E. apply cons_eq_inj in E as [Ef _].
  rewrite <- Eg, <- Ef. destruct (strip_packet f f' Ef) as (Eh & _ & _). by rewrite <- Eh.
Qed.

Lemma mid_last T i v o w p : wormhole T → mid i v T = Some (o, w, p) → last (to o w T) = last (from i v T).
Proof.
  intros HT. revert i v o w p. induction HT as [|T i' v' o' f HT IH Hm Hh Hfree|T i' v' o' f HT IH Hm Hh]; intros i v o w p Hmid; [done|..];
    rewrite mid_snoc in Hmid; rewrite to_snoc, from_snoc; case_decide as Hf; simpl in *; unfold is_to; simpl.
  - destruct (f_tail f); [done|]. injection Hmid as <- <- _. rewrite decide_True by done. by rewrite !last_snoc.
  - rewrite decide_False; [by eapply IH|]. intros [<- <-]. by apply Hfree in Hmid.
  - destruct (f_tail f); [done|]. injection Hmid as <- <- _. rewrite decide_True by done. by rewrite !last_snoc.
  - rewrite decide_False; [by eapply IH|]. intros [<- <-]. destruct (proj1 (wormhole_streams T HT) _ _ _ _ _ _ _ _ Hmid Hm) as [-> ->]. by destruct Hf.
Qed.

Lemma wormhole_adjacent T : wormhole T → (∀ i v, adjacent (from i v T)) → ∀ o w, adjacent (to o w T).
Proof.
  induction 1 as [|T i v o f HT IH Hm Hh Hfree|T i v o f HT IH Hm Hh]; intros Ha o' w; [done|..];
    (assert (∀ i v, adjacent (from i v T)) as HaT by
      (intros i0 v0; specialize (Ha i0 v0); rewrite from_snoc in Ha; case_decide; [by apply adjacent_snoc in Ha as [Ha _]|done]));
    rewrite to_snoc; (case_decide as Ht; [|by apply IH]); simpl; apply adjacent_snoc; (split; [by apply IH|]); intros g Hg Hhd; [congruence|].
  destruct Ht as [<- <-]. specialize (Ha i v). rewrite from_snoc, decide_True in Ha by done. apply adjacent_snoc in Ha as [_ Ha]. apply Ha; [|done].
  simpl in Hg. by rewrite <- (mid_last T i v _ _ _ HT Hm).
Qed.
End adjacent.

Section flow.
Context {VA SA PA : Type} (E : Setup VA SA PA).
Local Abbreviation C := (su_C E).
Local Abbreviation IQ := (IQRouter VA SA PA).
Implicit Types st : IQ.

(** ** What a router sends *)

Lemma tracks_moves now H T st : tracks E now H T st → Forall (move_ok E) T.
Proof. intros [(HI & _) _ _]. apply (in_outs _ _ _ _ HI). Qed.

Lemma tracks_flits now H T st o : tracks E now H T st → 0 ≤ o < q_outputs C →
  Forall (λ f, 0 ≤ f_vc f < q_vcs C ∧ flit_ok f ∧ (f_head f = true → passes E o f)) (h_sent H o).
Proof.
  intros HT Ho. pose proof (tracks_sent E now H T st o HT Ho) as Hs. apply Forall_forall. intros f Hf.
  assert (f ∈ to_port o T) as Hx by (rewrite Hs; apply elem_of_app; by left). apply list_elem_of_fmap in Hx as (m & -> & Hm).
  apply list_elem_of_filter in Hm as [<- Hm]. pose proof (tracks_moves _ _ _ _ HT) as HM. rewrite Forall_forall in HM. destruct (HM m Hm) as (_ & [_ Hw] & Hok & Hp). done.
Qed.

Lemma from_outside T i v : Forall (move_ok E) T → ¬ 0 ≤ v < q_vcs C → from i v T = [].
Proof.
  intros HM Hv. unfold from. rewrite filter_none; [done|]. eapply Forall_impl; [exact HM|]. intros m ([_ Hm] & _) [_ <-]. done.
Qed.

Lemma ncredits_in v cs c : c ∈ cs → v ∈ c_vc c → 0 < ncredits v cs.
Proof.
  intros Hc Hv. apply list_elem_of_split in Hc as (l1 & l2 & ->). unfold ncredits. rewrite fmap_app, zsum_app, fmap_cons. cbn [zsum].
  pose proof (ncredits_nonneg v l1). pose proof (ncredits_nonneg v l2). unfold ncredits in *.
  enough (0 < cnt v (c_vc c)) by lia. apply list_elem_of_split in Hv as (k1 & k2 & ->). rewrite cnt_app. simpl. rewrite decide_True by done.
  pose proof (cnt_nonneg v k1). pose proof (cnt_nonneg v k2). lia.
Qed.

Lemma tracks_credits now H T st i : tracks E now H T st → 0 ≤ i < q_inputs C → Forall (credit_ok E) (h_credits H i).
Proof.
  intros HT Hi. pose proof HT as [(HI & _) _ _]. apply Forall_forall. intros c Hc. apply Forall_forall. intros v Hv.
  destruct (decide (0 ≤ v < q_vcs C)) as [|Hn]; [done|exfalso]. pose proof (cr_count _ _ _ _ _ (in_credits _ _ _ _ HI) i v Hi) as Hcr. simpl in Hcr.
  rewrite (from_outside T i v (tracks_moves _ _ _ _ HT) Hn) in Hcr. pose proof (ncredits_in v _ c Hc Hv).
  pose proof (ncredits_nonneg v ((iq_credit_buffer st)⟦i⟧)). pose proof (cnt_nonneg v (queued i (iq_out_queue_credits st))). unfold zlen in Hcr. simpl in Hcr. lia.
Qed.

Lemma tracks_adjacent R now H T st : tracks E now H T st →
  (∀ i v, 0 ≤ i < q_inputs C → 0 ≤ v < q_vcs C → adjacent R (on_vc v (h_received H i))) →
  ∀ o w, 0 ≤ o < q_outputs C → adjacent R (on_vc w (h_sent H o)).
Proof.
  intros HT Ha o w Ho. pose proof HT as [(HI & _) _ _]. pose proof (ou_worm _ _ _ _ _ (in_outs _ _ _ _ HI)) as HW. simpl in HW.
  assert (adjacent R (on_vc w (to_port o T))) as Hto.
  - unfold on_vc. rewrite <- to_to_port. apply wormhole_adjacent; [done|]. intros i v. destruct (decide (vin E i v)) as [Hi|Hi].
    + pose proof (tracks_received E now H T st i v HT Hi) as Hr. eapply adjacent_prefix, adjacent_strip; [symmetry; exact Hr|]. apply Ha; apply Hi.
    + assert (from i v T = []) as ->; [|done]. unfold from. rewrite filter_none; [done|]. eapply Forall_impl; [by apply (tracks_moves now H T st)|].
      intros m (Hm & _) [<- <-]. done.
  - rewrite (tracks_sent E now H T st o HT Ho) in Hto. unfold on_vc in Hto. rewrite filter_app in Hto. by eapply adjacent_prefix.
Qed.

(** ** Conservation *)

(** The flits in a router. *)
Definition inside (p : Flit → bool) st : Z :=
  zsumf (λ i, zsumf (λ v, tally p (v_buffer (vcat (iq_buf st) i v))) (q_vcs C)) (q_inputs C) +
  zsumf (λ o, tally p ((iq_output_buffer st)⟦o⟧ ++ in_crossbar o (iq_crossbar_flits st))) (q_outputs C).

Lemma inside_nonneg p st : 0 ≤ inside p st.
Proof.
  pose proof (sp_inputs _ (su_ok E)). pose proof (sp_outputs _ (su_ok E)). pose proof (sp_vcs _ (su_ok E)). unfold inside.
  apply Z.add_nonneg_nonneg; apply zsumf_nonneg; try lia; intros; [apply zsumf_nonneg; [lia|intros]|]; apply tally_nonneg.
Qed.

Lemma tracks_conserves p now H T st : tracks E now H T st →
  (∀ i, 0 ≤ i < q_inputs C → Forall (λ f, 0 ≤ f_vc f < q_vcs C) (h_received H i)) →
  zsumf (λ i, tally p (h_received H i)) (q_inputs C) = zsumf (λ o, tally p (h_sent H o)) (q_outputs C) + inside p st.
Proof.
  intros HT Hvc. pose proof (tracks_moves _ _ _ _ HT) as HM.
  assert (zsumf (λ i, tally p (h_received H i)) (q_inputs C) =
    zsumf (λ i, zsumf (λ v, tally p (from i v T)) (q_vcs C)) (q_inputs C) +
    zsumf (λ i, zsumf (λ v, tally p (v_buffer (vcat (iq_buf st) i v))) (q_vcs C)) (q_inputs C)) as ->.
  { rewrite <- zsumf_plus. apply zsumf_ext. intros i Hi. rewrite <- (tally_vcs p (q_vcs C)) by by apply Hvc. rewrite <- zsumf_plus. apply zsumf_ext. intros v Hv.
    rewrite <- tally_app. apply tally_strip. symmetry. by apply (tracks_received E now H T st). }
  rewrite tally_from by (eapply Forall_impl; [exact HM|]; intros m (Hm & _); exact Hm).
  rewrite <- (tally_to p (q_outputs C)) by (eapply Forall_impl; [exact HM|]; intros m (_ & [Ho _] & _); exact Ho).
  unfold inside. enough (zsumf (λ o, tally p (to_port o T)) (q_outputs C) = zsumf (λ o, tally p (h_sent H o)) (q_outputs C) +
    zsumf (λ o, tally p ((iq_output_buffer st)⟦o⟧ ++ in_crossbar o (iq_crossbar_flits st))) (q_outputs C)) by lia.
  rewrite <- zsumf_plus. apply zsumf_ext. intros o Ho. by rewrite (tracks_sent E now H T st o HT Ho), tally_app.
Qed.

(** ** The shared random state *)

Lemma has_read_rng now H T flits credits g st : RngInv.rng_ok g → has_read E now H T flits credits st → has_read E now H T flits credits (set_rng g st).
Proof. intros Hg [H1 H2 HR H4 H5 H6 H7 H8]. split; try done; [by apply Inv_rng|by destruct HR; split|].
  intros Ha. destruct (H4 Ha) as [[] ?]. split; [by split|done].
Qed.

Lemma tracks_rng now H T st : tracks E now H T st → RngInv.rng_ok (iq_rng st).
Proof. intros [(HI & _) _ _]. apply (in_allocs _ _ _ _ HI). Qed.
End flow.

(** What holds of the flits received holds of those sent. *)
Lemma tracks_same {VA SA PA : Type} (E : Setup VA SA PA) (P : Flit → Prop) now H T st : tracks E now H T st →
  (∀ i, 0 ≤ i < q_inputs (su_C E) → Forall (λ f, P (strip f)) (h_received H i)) →
  ∀ o, 0 ≤ o < q_outputs (su_C E) → Forall (λ f, P (strip f)) (h_sent H o).
Proof.
  intros HT HP o Ho. pose proof (tracks_sent E now H T st o HT Ho) as Hs. apply Forall_forall. intros f Hf.
  assert (f ∈ to_port o T) as Hx by (rewrite Hs; apply elem_of_app; by left). apply list_elem_of_fmap in Hx as (m & -> & Hm).
  apply list_elem_of_filter in Hm as [_ Hm]. pose proof (tracks_moves E _ _ _ _ HT) as HM. rewrite Forall_forall in HM. destruct (HM m Hm) as (Hi & _).
  pose proof (tracks_received E now H T st _ _ HT Hi) as Hr. assert (strip (mv_flit m) ∈ strip <$> on_vc (mv_vc m) (h_received H (mv_in m))) as Hin.
  { rewrite <- Hr. apply list_elem_of_fmap. exists (mv_flit m). split; [done|]. apply elem_of_app. left. apply list_elem_of_fmap. exists m. split; [done|].
    by apply list_elem_of_filter. }
  apply list_elem_of_fmap in Hin as (g & -> & Hg). apply list_elem_of_filter in Hg as [_ Hg]. specialize (HP (mv_in m) (proj1 Hi)).
  rewrite Forall_forall in HP. by apply HP.
Qed.
