(* ===== verification/Network.v ===== *)
(** * Networks

    [Network] (networks/network.cpp): the routers, the flit channels between
    them and from and to the nodes, and a credit channel beside every flit
    channel.  The three phases of a cycle go over [_timed_modules], which holds
    the channels [_Alloc] makes, then the routers [_BuildNet] adds.

    The topology says which channels are the ports of each router, in the order
    of [AddInputChannel] and [AddOutputChannel].  The random state is shared by
    all routers and passed from one to the next. *)

From S2P Require Import Prelude StdMap OutputSet Flit VCBuffer BufferState Arbiter Allocator AllocLaws Rng KNCube Route SwitchAlloc IQRouter IQSwitch Channel.
Import IQRouterOps.

(** What is fixed when the network is built: the options, the faults of the output
    channels and the ports of each router. *)
Record NetConfig : Set := mkNetConfig {
  nc_nodes : Z;
  nc_channels : Z;
  nc_classes : Z;
  nc_routers : list IQConfig;
  nc_faults : list (list bool);
  nc_inputs : list (list chan_id);
  nc_outputs : list (list chan_id)
}.

(** [_inject], [_eject] and [_chan], or the credit channels beside them. *)
Record Channels (X : Type) : Type := mkChannels {
  cs_inject : list X;
  cs_eject : list X;
  cs_chan : list X
}.
Arguments mkChannels {X} _ _ _.
Arguments cs_inject {X} _.
Arguments cs_eject {X} _.
Arguments cs_chan {X} _.

Definition get_chan {X : Type} (cs : Channels X) (c : chan_id) : res X :=
  match c with
  | Inject s => vget (cs_inject cs) s
  | Eject d => vget (cs_eject cs) d
  | Chan k => vget (cs_chan cs) k
  end.

Definition put_chan {X : Type} (cs : Channels X) (c : chan_id) (x : X) : res (Channels X) :=
  match c with
  | Inject s => v ← vset (cs_inject cs) s x; Ok (mkChannels v (cs_eject cs) (cs_chan cs))
  | Eject d => v ← vset (cs_eject cs) d x; Ok (mkChannels (cs_inject cs) v (cs_chan cs))
  | Chan k => v ← vset (cs_chan cs) k x; Ok (mkChannels (cs_inject cs) (cs_eject cs) v)
  end.

(** [f] of every element, in order. *)
Fixpoint each {X Y : Type} (f : X → res Y) (l : list X) : res (list Y) :=
  match l with [] => Ok [] | x :: l => y ← f x; l ← each f l; Ok (y :: l) end.

Definition each_chan {X : Type} (f : X → res X) (cs : Channels X) : res (Channels X) :=
  i ← each f (cs_inject cs);
  e ← each f (cs_eject cs);
  c ← each f (cs_chan cs);
  Ok (mkChannels i e c).

Record Network (VA SA PA : Type) : Type := mkNetwork {
  nw_flits : Channels FlitChannel;
  nw_credits : Channels (Channel Credit);
  nw_routers : list (IQRouter VA SA PA)
}.
Arguments mkNetwork {VA SA PA} _ _ _.
Arguments nw_flits {VA SA PA} _.
Arguments nw_credits {VA SA PA} _.
Arguments nw_routers {VA SA PA} _.

Module NetworkOps.

(** The positions of a list. *)
Definition indexed {X : Type} (l : list X) : list (Z * X) := zip (seqZ 0 (zlen l)) l.

Section network.
Context {VA SA PA : Type}.
Context (IV : RouterAllocator VA) (IS : RouterAllocator SA) (IP : RouterAllocator PA).
Context (rf : Router → Flit → Z → OutputSet → bool → Rng → res (OutputSet * Flit * Rng)).
Context (N : NetConfig).
Local Abbreviation Net := (Network VA SA PA).
Implicit Types nw : Net.

(** [_Alloc], and the routers of [_BuildNet]. *)
Definition Alloc (routers : list (IQRouter VA SA PA)) : Net :=
  let per {X : Type} (k : Z) (x : X) := replicate (Z.to_nat k) x in
  let all {X : Type} (x : X) := mkChannels (per (nc_nodes N) x) (per (nc_nodes N) x) (per (nc_channels N) x) in
  mkNetwork (all (FlitChannelOps.New (nc_classes N))) (all ChannelOps.New) routers.

(** [SetLatency] of a channel and of the credit channel beside it. *)
Definition set_latencies (c : chan_id) (latency cred_latency : Z) nw : res Net :=
  fc ← get_chan (nw_flits nw) c;
  ch ← ChannelOps.SetLatency (fc_channel fc) latency;
  fs ← put_chan (nw_flits nw) c (mkFlitChannel ch (fc_active fc) (fc_idle fc));
  cc ← get_chan (nw_credits nw) c;
  cc ← ChannelOps.SetLatency cc cred_latency;
  cs ← put_chan (nw_credits nw) c cc;
  Ok (mkNetwork fs cs (nw_routers nw)).

(** The router and the port a channel is connected to. *)
Definition ports_of (ports : list (list chan_id)) : list (chan_id * (Z * Z)) :=
  '(r, row) ← indexed ports; '(i, c) ← indexed row; [(c, (r, i))].
Definition same_chan (c c' : chan_id) : bool :=
  match c, c' with
  | Chan k, Chan k' | Inject k, Inject k' | Eject k, Eject k' => k =? k'
  | _, _ => false
  end.
Definition port_of (ports : list (list chan_id)) (c : chan_id) : option (Z * Z) :=
  snd <$> head (List.filter (λ x, same_chan c x.1) (ports_of ports)).

(** [GetSink] and [GetSinkPort], [GetSource] and [GetSourcePort]. *)
Definition GetSink (c : chan_id) : option (Z * Z) := port_of (nc_inputs N) c.
Definition GetSource (c : chan_id) : option (Z * Z) := port_of (nc_outputs N) c.

(** ** Reading inputs *)

Definition router_reads (now r : Z) nw : res Net :=
  C ← vget (nc_routers N) r;
  ins ← vget (nc_inputs N) r;
  outs ← vget (nc_outputs N) r;
  flits ← each (λ c, fc ← get_chan (nw_flits nw) c; Ok (ChannelOps.Receive (fc_channel fc))) ins;
  credits ← each (λ c, cc ← get_chan (nw_credits nw) c; Ok (ChannelOps.Receive cc)) outs;
  st ← vget (nw_routers nw) r;
  st ← ReadInputs C now flits credits st;
  routers ← vset (nw_routers nw) r st;
  Ok (mkNetwork (nw_flits nw) (nw_credits nw) routers).

Definition ReadInputs (now : Z) nw : res Net :=
  fs ← each_chan (λ fc, Ok (FlitChannelOps.ReadInputs fc now)) (nw_flits nw);
  cs ← each_chan (λ cc, Ok (ChannelOps.ReadInputs cc now)) (nw_credits nw);
  zfor 0 (zlen (nc_routers N)) (router_reads now) (mkNetwork fs cs (nw_routers nw)).

(** ** Evaluation *)

(** The router behind a channel, as a routing function sees it. *)
Definition sink_at nw (c : chan_id) : res (option Sink) :=
  match GetSink c with
  | None => Ok None
  | Some (r, i) =>
      C ← vget (nc_routers N) r;
      faults ← vget (nc_faults N) r;
      st ← vget (nw_routers nw) r;
      Ok (Some (mkSink (view C faults st) i (q_outputs C)))
  end.

Definition router_evaluates (now r : Z) (s : Net * Rng) : res (Net * Rng) :=
  let '(nw, g) := s in
  C ← vget (nc_routers N) r;
  faults ← vget (nc_faults N) r;
  outs ← vget (nc_outputs N) r;
  sinks ← each (sink_at nw) outs;
  st ← vget (nw_routers nw) r;
  st ← IQSwitchOps.Evaluate C IV IS IP rf faults sinks now (set_rng g st);
  routers ← vset (nw_routers nw) r st;
  Ok (mkNetwork (nw_flits nw) (nw_credits nw) routers, iq_rng st).

(** [Evaluate] of a channel does nothing. *)
Definition Evaluate (now : Z) (s : Net * Rng) : res (Net * Rng) :=
  zfor 0 (zlen (nc_routers N)) (router_evaluates now) s.

(** ** Writing outputs *)

Definition send_flit (fs : Channels FlitChannel) (c : chan_id) (f : Flit) : res (Channels FlitChannel) :=
  fc ← get_chan fs c;
  fc ← FlitChannelOps.Send fc (Some f);
  put_chan fs c fc.
Definition send_credit (cs : Channels (Channel Credit)) (c : chan_id) (x : Credit) : res (Channels (Channel Credit)) :=
  cc ← get_chan cs c;
  put_chan cs c (ChannelOps.Send cc (Some x)).

(** What there is to send, each on its channel. *)
Definition send_all {X Y : Type} (send : Channels Y → chan_id → X → res (Channels Y)) (ports : list chan_id)
    (xs : list (option X)) (cs : Channels Y) : res (Channels Y) :=
  zfor 0 (zlen ports) (λ p cs,
    c ← vget ports p;
    x ← vget xs p;
    match x with Some x => send cs c x | None => Ok cs end) cs.

Definition router_writes (r : Z) nw : res Net :=
  C ← vget (nc_routers N) r;
  ins ← vget (nc_inputs N) r;
  outs ← vget (nc_outputs N) r;
  st ← vget (nw_routers nw) r;
  '(sent, returned, st) ← IQSwitchOps.WriteOutputs C st;
  fs ← send_all send_flit outs sent (nw_flits nw);
  cs ← send_all send_credit ins returned (nw_credits nw);
  routers ← vset (nw_routers nw) r st;
  Ok (mkNetwork fs cs routers).

Definition WriteOutputs (now : Z) nw : res Net :=
  fs ← each_chan (λ fc, FlitChannelOps.WriteOutputs fc now) (nw_flits nw);
  cs ← each_chan (λ cc, ChannelOps.WriteOutputs cc now) (nw_credits nw);
  zfor 0 (zlen (nc_routers N)) router_writes (mkNetwork fs cs (nw_routers nw)).

(** ** The nodes *)

Definition valid_node (n : Z) : bool := (0 <=? n) && (n <? nc_nodes N).

Definition WriteFlit (f : Flit) (source : Z) nw : res Net :=
  assert! valid_node source;
  fs ← send_flit (nw_flits nw) (Inject source) f;
  Ok (mkNetwork fs (nw_credits nw) (nw_routers nw)).

Definition ReadFlit (dest : Z) nw : res (option Flit) :=
  assert! valid_node dest;
  fc ← get_chan (nw_flits nw) (Eject dest);
  Ok (ChannelOps.Receive (fc_channel fc)).

Definition WriteCredit (c : Credit) (dest : Z) nw : res Net :=
  assert! valid_node dest;
  cs ← send_credit (nw_credits nw) (Eject dest) c;
  Ok (mkNetwork (nw_flits nw) cs (nw_routers nw)).

Definition ReadCredit (source : Z) nw : res (option Credit) :=
  assert! valid_node source;
  cc ← get_chan (nw_credits nw) (Inject source);
  Ok (ChannelOps.Receive cc).
End network.
End NetworkOps.
