(* ===== verification/TrafficManager.v ===== *)
(** * The traffic manager

    [TrafficManager] (trafficmanager.cpp): the nodes of the network.  Packets wait
    in one queue per node and class; in a cycle every node sends at most one flit
    into each subnetwork, under the credits it has, and retires the flit that has
    arrived.  [TrafficManagerWrapper] (trafficmanager_wrapper.cpp) and
    [BooksimWrapper] (booksim_wrapper.cpp) are the interface packets come and
    leave through.

    The counts of flits and packets sent and accepted are kept; the latency
    statistics, which only reports read, and the messages are left out.  A flit is
    in one queue, channel or buffer at a time and is a value; the maps of the
    flits in flight are read for their keys only.  The network is one whose nodes
    have their own numbers ([GetVirtualNode] and [GetActualNode] of [Network]). *)

From S2P Require Import Prelude StdMap OutputSet Flit VCBuffer BufferState Arbiter Allocator AllocLaws Rng KNCube Route SwitchAlloc IQRouter IQSwitch Channel Network.

Inductive ePriority : Set :=
  | class_based
  | age_based
  | network_age_based
  | local_age_based
  | queue_length_based
  | hop_count_based
  | sequence_based
  | pri_none.

Inductive eSimState : Set := warming_up | running | draining | sim_done.

(** Options.  [tc_subnet] and the other lists have one entry per class. *)
Record TMConfig : Set := mkTMConfig {
  tc_nodes : Z;
  tc_subnets : Z;
  tc_classes : Z;
  tc_inj_size : Z;
  tc_subnet : list Z;
  tc_class_priority : list Z;
  tc_measure_stats : list Z;
  tc_pri_type : ePriority;
  tc_lookahead_routing : bool;
  tc_noq : bool;
  tc_hold_switch_for_packet : bool;
  tc_deadlock_warn_timeout : Z
}.

(** [_sent_flits], [_sent_packets], [_accepted_flits] and [_accepted_packets], by
    class and node. *)
Record Counts : Set := mkCounts {
  cn_sent_flits : list (list Z);
  cn_sent_packets : list (list Z);
  cn_accepted_flits : list (list Z);
  cn_accepted_packets : list (list Z)
}.

(** Queues and states by node, then by class or subnetwork; what is in flight by
    class; [tm_ejection_queue] by class and node. *)
Record TM (VA SA PA : Type) : Type := mkTM {
  tm_net : list (Network VA SA PA);
  tm_buf_states : list (list BufferState);
  tm_last_vc : list (list (list Z));
  tm_last_class : list (list Z);
  tm_partial_packets : list (list (list Flit));
  tm_total_in_flight_flits : list iset;
  tm_measured_in_flight_flits : list iset;
  tm_retired_packets : list (imap Flit);
  tm_packet_seq_no : list Z;
  tm_requestsOutstanding : list Z;
  tm_ejection_queue : list (list (list (Flit * Flit)));
  tm_counts : Counts;
  tm_deadlock_timer : Z;
  tm_sim_state : eSimState;
  tm_drain_time : Z;
  tm_cur_id : Z;
  tm_cur_pid : Z;
  tm_time : Z;
  tm_rng : Rng
}.
Arguments mkTM {VA SA PA} _ _ _ _ _ _ _ _ _ _ _ _ _ _ _ _ _ _ _.
Arguments tm_net {VA SA PA} _.
Arguments tm_buf_states {VA SA PA} _.
Arguments tm_last_vc {VA SA PA} _.
Arguments tm_last_class {VA SA PA} _.
Arguments tm_partial_packets {VA SA PA} _.
Arguments tm_total_in_flight_flits {VA SA PA} _.
Arguments tm_measured_in_flight_flits {VA SA PA} _.
Arguments tm_retired_packets {VA SA PA} _.
Arguments tm_packet_seq_no {VA SA PA} _.
Arguments tm_requestsOutstanding {VA SA PA} _.
Arguments tm_ejection_queue {VA SA PA} _.
Arguments tm_counts {VA SA PA} _.
Arguments tm_deadlock_timer {VA SA PA} _.
Arguments tm_sim_state {VA SA PA} _.
Arguments tm_drain_time {VA SA PA} _.
Arguments tm_cur_id {VA SA PA} _.
Arguments tm_cur_pid {VA SA PA} _.
Arguments tm_time {VA SA PA} _.
Arguments tm_rng {VA SA PA} _.

Section setters.
Context {VA SA PA : Type}.
Implicit Types tm : TM VA SA PA.
Definition with_net (x : list (Network VA SA PA)) tm : TM VA SA PA :=
  mkTM x (tm_buf_states tm) (tm_last_vc tm) (tm_last_class tm) (tm_partial_packets tm) (tm_total_in_flight_flits tm)
    (tm_measured_in_flight_flits tm) (tm_retired_packets tm) (tm_packet_seq_no tm) (tm_requestsOutstanding tm)
    (tm_ejection_queue tm) (tm_counts tm) (tm_deadlock_timer tm) (tm_sim_state tm) (tm_drain_time tm) (tm_cur_id tm)
    (tm_cur_pid tm) (tm_time tm) (tm_rng tm).
Definition with_buf_states (x : list (list BufferState)) tm : TM VA SA PA :=
  mkTM (tm_net tm) x (tm_last_vc tm) (tm_last_class tm) (tm_partial_packets tm) (tm_total_in_flight_flits tm)
    (tm_measured_in_flight_flits tm) (tm_retired_packets tm) (tm_packet_seq_no tm) (tm_requestsOutstanding tm)
    (tm_ejection_queue tm) (tm_counts tm) (tm_deadlock_timer tm) (tm_sim_state tm) (tm_drain_time tm) (tm_cur_id tm)
    (tm_cur_pid tm) (tm_time tm) (tm_rng tm).
Definition with_last_vc (x : list (list (list Z))) tm : TM VA SA PA :=
  mkTM (tm_net tm) (tm_buf_states tm) x (tm_last_class tm) (tm_partial_packets tm) (tm_total_in_flight_flits tm)
    (tm_measured_in_flight_flits tm) (tm_retired_packets tm) (tm_packet_seq_no tm) (tm_requestsOutstanding tm)
    (tm_ejection_queue tm) (tm_counts tm) (tm_deadlock_timer tm) (tm_sim_state tm) (tm_drain_time tm) (tm_cur_id tm)
    (tm_cur_pid tm) (tm_time tm) (tm_rng tm).
Definition with_last_class (x : list (list Z)) tm : TM VA SA PA :=
  mkTM (tm_net tm) (tm_buf_states tm) (tm_last_vc tm) x (tm_partial_packets tm) (tm_total_in_flight_flits tm)
    (tm_measured_in_flight_flits tm) (tm_retired_packets tm) (tm_packet_seq_no tm) (tm_requestsOutstanding tm)
    (tm_ejection_queue tm) (tm_counts tm) (tm_deadlock_timer tm) (tm_sim_state tm) (tm_drain_time tm) (tm_cur_id tm)
    (tm_cur_pid tm) (tm_time tm) (tm_rng tm).
Definition with_partial_packets (x : list (list (list Flit))) tm : TM VA SA PA :=
  mkTM (tm_net tm) (tm_buf_states tm) (tm_last_vc tm) (tm_last_class tm) x (tm_total_in_flight_flits tm)
    (tm_measured_in_flight_flits tm) (tm_retired_packets tm) (tm_packet_seq_no tm) (tm_requestsOutstanding tm)
    (tm_ejection_queue tm) (tm_counts tm) (tm_deadlock_timer tm) (tm_sim_state tm) (tm_drain_time tm) (tm_cur_id tm)
    (tm_cur_pid tm) (tm_time tm) (tm_rng tm).
Definition with_total_in_flight_flits (x : list iset) tm : TM VA SA PA :=
  mkTM (tm_net tm) (tm_buf_states tm) (tm_last_vc tm) (tm_last_class tm) (tm_partial_packets tm) x
    (tm_measured_in_flight_flits tm) (tm_retired_packets tm) (tm_packet_seq_no tm) (tm_requestsOutstanding tm)
    (tm_ejection_queue tm) (tm_counts tm) (tm_deadlock_timer tm) (tm_sim_state tm) (tm_drain_time tm) (tm_cur_id tm)
    (tm_cur_pid tm) (tm_time tm) (tm_rng tm).
Definition with_measured_in_flight_flits (x : list iset) tm : TM VA SA PA :=
  mkTM (tm_net tm) (tm_buf_states tm) (tm_last_vc tm) (tm_last_class tm) (tm_partial_packets tm)
    (tm_total_in_flight_flits tm) x (tm_retired_packets tm) (tm_packet_seq_no tm) (tm_requestsOutstanding tm)
    (tm_ejection_queue tm) (tm_counts tm) (tm_deadlock_timer tm) (tm_sim_state tm) (tm_drain_time tm) (tm_cur_id tm)
    (tm_cur_pid tm) (tm_time tm) (tm_rng tm).
Definition with_retired_packets (x : list (imap Flit)) tm : TM VA SA PA :=
  mkTM (tm_net tm) (tm_buf_states tm) (tm_last_vc tm) (tm_last_class tm) (tm_partial_packets tm)
    (tm_total_in_flight_flits tm) (tm_measured_in_flight_flits tm) x (tm_packet_seq_no tm) (tm_requestsOutstanding tm)
    (tm_ejection_queue tm) (tm_counts tm) (tm_deadlock_timer tm) (tm_sim_state tm) (tm_drain_time tm) (tm_cur_id tm)
    (tm_cur_pid tm) (tm_time tm) (tm_rng tm).
Definition with_requestsOutstanding (x : list Z) tm : TM VA SA PA :=
  mkTM (tm_net tm) (tm_buf_states tm) (tm_last_vc tm) (tm_last_class tm) (tm_partial_packets tm)
    (tm_total_in_flight_flits tm) (tm_measured_in_flight_flits tm) (tm_retired_packets tm) (tm_packet_seq_no tm) x
    (tm_ejection_queue tm) (tm_counts tm) (tm_deadlock_timer tm) (tm_sim_state tm) (tm_drain_time tm) (tm_cur_id tm)
    (tm_cur_pid tm) (tm_time tm) (tm_rng tm).
Definition with_ejection_queue (x : list (list (list (Flit * Flit)))) tm : TM VA SA PA :=
  mkTM (tm_net tm) (tm_buf_states tm) (tm_last_vc tm) (tm_last_class tm) (tm_partial_packets tm)
    (tm_total_in_flight_flits tm) (tm_measured_in_flight_flits tm) (tm_retired_packets tm) (tm_packet_seq_no tm)
    (tm_requestsOutstanding tm) x (tm_counts tm) (tm_deadlock_timer tm) (tm_sim_state tm) (tm_drain_time tm)
    (tm_cur_id tm) (tm_cur_pid tm) (tm_time tm) (tm_rng tm).
Definition with_counts (x : Counts) tm : TM VA SA PA :=
  mkTM (tm_net tm) (tm_buf_states tm) (tm_last_vc tm) (tm_last_class tm) (tm_partial_packets tm)
    (tm_total_in_flight_flits tm) (tm_measured_in_flight_flits tm) (tm_retired_packets tm) (tm_packet_seq_no tm)
    (tm_requestsOutstanding tm) (tm_ejection_queue tm) x (tm_deadlock_timer tm) (tm_sim_state tm) (tm_drain_time tm)
    (tm_cur_id tm) (tm_cur_pid tm) (tm_time tm) (tm_rng tm).
Definition with_deadlock_timer (x : Z) tm : TM VA SA PA :=
  mkTM (tm_net tm) (tm_buf_states tm) (tm_last_vc tm) (tm_last_class tm) (tm_partial_packets tm)
    (tm_total_in_flight_flits tm) (tm_measured_in_flight_flits tm) (tm_retired_packets tm) (tm_packet_seq_no tm)
    (tm_requestsOutstanding tm) (tm_ejection_queue tm) (tm_counts tm) x (tm_sim_state tm) (tm_drain_time tm)
    (tm_cur_id tm) (tm_cur_pid tm) (tm_time tm) (tm_rng tm).
Definition with_cur_id (x : Z) tm : TM VA SA PA :=
  mkTM (tm_net tm) (tm_buf_states tm) (tm_last_vc tm) (tm_last_class tm) (tm_partial_packets tm)
    (tm_total_in_flight_flits tm) (tm_measured_in_flight_flits tm) (tm_retired_packets tm) (tm_packet_seq_no tm)
    (tm_requestsOutstanding tm) (tm_ejection_queue tm) (tm_counts tm) (tm_deadlock_timer tm) (tm_sim_state tm)
    (tm_drain_time tm) x (tm_cur_pid tm) (tm_time tm) (tm_rng tm).
Definition with_cur_pid (x : Z) tm : TM VA SA PA :=
  mkTM (tm_net tm) (tm_buf_states tm) (tm_last_vc tm) (tm_last_class tm) (tm_partial_packets tm)
    (tm_total_in_flight_flits tm) (tm_measured_in_flight_flits tm) (tm_retired_packets tm) (tm_packet_seq_no tm)
    (tm_requestsOutstanding tm) (tm_ejection_queue tm) (tm_counts tm) (tm_deadlock_timer tm) (tm_sim_state tm)
    (tm_drain_time tm) (tm_cur_id tm) x (tm_time tm) (tm_rng tm).
Definition with_time (x : Z) tm : TM VA SA PA :=
  mkTM (tm_net tm) (tm_buf_states tm) (tm_last_vc tm) (tm_last_class tm) (tm_partial_packets tm)
    (tm_total_in_flight_flits tm) (tm_measured_in_flight_flits tm) (tm_retired_packets tm) (tm_packet_seq_no tm)
    (tm_requestsOutstanding tm) (tm_ejection_queue tm) (tm_counts tm) (tm_deadlock_timer tm) (tm_sim_state tm)
    (tm_drain_time tm) (tm_cur_id tm) (tm_cur_pid tm) x (tm_rng tm).
Definition with_rng (x : Rng) tm : TM VA SA PA :=
  mkTM (tm_net tm) (tm_buf_states tm) (tm_last_vc tm) (tm_last_class tm) (tm_partial_packets tm)
    (tm_total_in_flight_flits tm) (tm_measured_in_flight_flits tm) (tm_retired_packets tm) (tm_packet_seq_no tm)
    (tm_requestsOutstanding tm) (tm_ejection_queue tm) (tm_counts tm) (tm_deadlock_timer tm) (tm_sim_state tm)
    (tm_drain_time tm) (tm_cur_id tm) (tm_cur_pid tm) (tm_time tm) x.
End setters.

Definition set_itime (x : Z) (f : Flit) : Flit :=
  mkFlit (f_type f) (f_vc f) (f_cl f) (f_head f) (f_tail f) (f_ctime f) x (f_atime f) (f_id f) (f_pid f) (f_record f)
    (f_src f) (f_dest f) (f_pri f) (f_hops f) (f_watch f) (f_subnetwork f) (f_packet_size f) (f_intm f) (f_ph f)
    (f_la_route_set f).
Definition set_atime (x : Z) (f : Flit) : Flit :=
  mkFlit (f_type f) (f_vc f) (f_cl f) (f_head f) (f_tail f) (f_ctime f) (f_itime f) x (f_id f) (f_pid f) (f_record f)
    (f_src f) (f_dest f) (f_pri f) (f_hops f) (f_watch f) (f_subnetwork f) (f_packet_size f) (f_intm f) (f_ph f)
    (f_la_route_set f).
Definition set_dest (x : Z) (f : Flit) : Flit :=
  mkFlit (f_type f) (f_vc f) (f_cl f) (f_head f) (f_tail f) (f_ctime f) (f_itime f) (f_atime f) (f_id f) (f_pid f)
    (f_record f) (f_src f) x (f_pri f) (f_hops f) (f_watch f) (f_subnetwork f) (f_packet_size f) (f_intm f) (f_ph f)
    (f_la_route_set f).
Definition set_src (x : Z) (f : Flit) : Flit :=
  mkFlit (f_type f) (f_vc f) (f_cl f) (f_head f) (f_tail f) (f_ctime f) (f_itime f) (f_atime f) (f_id f) (f_pid f)
    (f_record f) x (f_dest f) (f_pri f) (f_hops f) (f_watch f) (f_subnetwork f) (f_packet_size f) (f_intm f) (f_ph f)
    (f_la_route_set f).

(** [v[i][j]] and its update. *)
Definition vget2 {X : Type} (v : list (list X)) (i j : Z) : res X := row ← vget v i; vget row j.
Definition vset2 {X : Type} (v : list (list X)) (i j : Z) (x : X) : res (list (list X)) :=
  row ← vget v i; row ← vset row j x; vset v i row.

Module TMOps.
Import CoreOps NetworkOps.

(** [++v[i][j]]. *)
Definition incr (v : list (list Z)) (i j : Z) : res (list (list Z)) := x ← vget2 v i j; vset2 v i j (x + 1).

Definition set_vc := FlitOps.set_vc.
Definition set_pri := FlitOps.set_pri.
Definition set_la_route_set := FlitOps.set_la_route_set.

(** [GetVirtualNode] and [GetActualNode] of [Network]. *)
Definition GetVirtualNode (node : Z) : Z := node.
Definition GetActualNode (node : Z) : Z := node.

(** The null router of a routing call at injection. *)
Definition no_router : Router := mkRouter (-1) [] [].

Section tm.
Context {VA SA PA : Type}.
Context (IV : RouterAllocator VA) (IS : RouterAllocator SA) (IP : RouterAllocator PA).
Context (rf : Router → Flit → Z → OutputSet → bool → Rng → res (OutputSet * Flit * Rng)).
Context (N : NetConfig) (T : TMConfig).
Local Abbreviation TM := (TM VA SA PA).
Local Abbreviation Net := (Network VA SA PA).
Implicit Types tm : TM.

(** ** Construction *)

(** The credits of node [source] in a subnetwork, with the round trip the feedback
    policies need. *)
Definition terminal_buf (cfg : Config) (router_latency : Z) (nets : list Net) (source subnet : Z) : res BufferState :=
  bs ← BufferStateOps.New cfg;
  nw ← vget nets subnet;
  fc ← get_chan (nw_flits nw) (Inject source);
  cc ← get_chan (nw_credits nw) (Inject source);
  Ok (BufferStateOps.SetMinLatency bs (1 + ch_delay (fc_channel fc) + router_latency + ch_delay cc)).

(** The constructors of [TrafficManager] and of the wrapper, after the options are
    read and the random numbers seeded; [end_vcs] is [gEndVCs]. *)
Definition New (cfg : Config) (routing_delay vc_alloc_delay sw_alloc_delay : Z) (speculative : bool) (end_vcs : list Z)
    (nets : list Net) (g : Rng) : res TM :=
  assert! (0 <? tc_inj_size T);
  if tc_noq T && negb (tc_lookahead_routing T) then Fail ErrorExit
  else
    let per {X : Type} (k : Z) (x : X) := replicate (Z.to_nat k) x in
    let alloc_delay := if speculative then Z.max vc_alloc_delay sw_alloc_delay else vc_alloc_delay + sw_alloc_delay in
    bufs ← each (λ source, each (terminal_buf cfg (routing_delay + alloc_delay) nets source) (seqZ 0 (tc_subnets T)))
             (seqZ 0 (tc_nodes T));
    let zeros := per (tc_classes T) (per (tc_nodes T) 0) in
    Ok {| tm_net := nets; tm_buf_states := bufs;
          tm_last_vc := per (tc_nodes T) (per (tc_subnets T) end_vcs);
          tm_last_class := per (tc_nodes T) (per (tc_subnets T) 0);
          tm_partial_packets := per (tc_nodes T) (per (tc_classes T) []);
          tm_total_in_flight_flits := per (tc_classes T) []; tm_measured_in_flight_flits := per (tc_classes T) [];
          tm_retired_packets := per (tc_classes T) []; tm_packet_seq_no := per (tc_nodes T) 0;
          tm_requestsOutstanding := per (tc_nodes T) 0;
          tm_ejection_queue := per (tc_classes T) (per (tc_nodes T) []);
          tm_counts := mkCounts zeros zeros zeros zeros; tm_deadlock_timer := 0; tm_sim_state := running;
          tm_drain_time := -1; tm_cur_id := 0; tm_cur_pid := 0; tm_time := 0; tm_rng := g |}.

(** ** Generating packets *)

(** [Flit::New]: a new object, whose constructor resets it; [subnetwork] is not
    set and not read. *)
Definition new_flit : Flit := FlitOps.Reset (FlitOps.sample 0 0 0 false false).

(** The priority of a new flit; the assertions are on the [int] stored. *)
Definition new_priority (source cl time : Z) tm : res Z :=
  match tc_pri_type T with
  | class_based => p ← vget (tc_class_priority T) cl; assert! (0 <=? p); Ok p
  | age_based => let p := to_int (int_max - time) in assert! (0 <=? p); Ok p
  | sequence_based =>
      s ← vget (tm_packet_seq_no tm) source;
      let p := to_int (int_max - s) in assert! (0 <=? p); Ok p
  | _ => Ok 0
  end.

(** One round of the loop over the flits of the packet. *)
Definition generate_flit (source dest size cl time pid : Z) (record : bool) (i : Z) tm : res TM :=
  let id := tm_cur_id tm in
  let tm := with_cur_id (id + 1) tm in
  assert! negb (id + 1 =? 0);
  let f := new_flit in
  pri ← new_priority source cl time tm;
  let f := mkFlit (f_type f) (-1) cl (i =? 0) (i =? size - 1) time (f_itime f) (f_atime f) id pid record source dest pri
             (f_hops f) false (f_subnetwork f) size (f_intm f) (f_ph f) (f_la_route_set f) in
  total ← vget (tm_total_in_flight_flits tm) cl;
  v ← vset (tm_total_in_flight_flits tm) cl (mset id tt total);
  let tm := with_total_in_flight_flits v tm in
  tm ← (if record then
          measured ← vget (tm_measured_in_flight_flits tm) cl;
          v ← vset (tm_measured_in_flight_flits tm) cl (mset id tt measured);
          Ok (with_measured_in_flight_flits v tm)
        else Ok tm);
  pp ← vget2 (tm_partial_packets tm) source cl;
  v ← vset2 (tm_partial_packets tm) source cl (pp ++ [f]);
  Ok (with_partial_packets v tm).

Definition GeneratePacket_at (source dest size cl time : Z) tm : res (Z * TM) :=
  let source := GetVirtualNode source in
  pp ← vget2 (tm_partial_packets tm) source cl;
  if tc_inj_size T <=? zlen pp then Ok (-1, tm)
  else if dest =? -1 then Ok (-1, tm)
  else
    let pid := tm_cur_pid tm in
    let tm := with_cur_pid (pid + 1) tm in
    assert! negb (pid + 1 =? 0);
    record ← (match tm_sim_state tm with
      | running => m ← vget (tc_measure_stats T) cl; Ok (negb (m =? 0))
      | draining => if time <? tm_drain_time tm then m ← vget (tc_measure_stats T) cl; Ok (negb (m =? 0)) else Ok false
      | _ => Ok false
      end);
    tm ← zfor 0 size (generate_flit source dest size cl time pid record) tm;
    Ok (pid, tm).

(** ** Retiring flits *)

(** [TrafficManagerWrapper::_RetirePacket], which calls that of the base class. *)
Definition RetirePacket_pair (head tail : Flit) tm : res TM :=
  assert! (f_pid head =? f_pid tail);
  assert! (f_cl head =? f_cl tail);
  r ← vget (tm_requestsOutstanding tm) (f_src head);
  rs ← vset (tm_requestsOutstanding tm) (f_src head) (r - 1);
  let tm := with_requestsOutstanding rs tm in
  q ← vget2 (tm_ejection_queue tm) (f_cl head) (f_dest head);
  v ← vset2 (tm_ejection_queue tm) (f_cl head) (f_dest head) (q ++ [(head, tail)]);
  Ok (with_ejection_queue v tm).

(** [map.erase(key)] after the assertion that the key is present. *)
Definition erase_key (v : list iset) (cl id : Z) : res (list iset) :=
  m ← vget v cl;
  assert! (0 <? mcount id m);
  vset v cl (merase id m).

Definition RetireFlit (f : Flit) (dest : Z) tm : res TM :=
  let tm := with_deadlock_timer 0 tm in
  v ← erase_key (tm_total_in_flight_flits tm) (f_cl f) (f_id f);
  let tm := with_total_in_flight_flits v tm in
  tm ← (if f_record f then
          v ← erase_key (tm_measured_in_flight_flits tm) (f_cl f) (f_id f);
          Ok (with_measured_in_flight_flits v tm)
        else Ok tm);
  if f_head f && negb (f_dest f =? GetActualNode dest) then Fail ErrorExit
  else
    let f := set_dest dest f in
    tm ← (if f_tail f then
            '(head, tm) ← (if f_head f then Ok (f, tm)
              else
                m ← vget (tm_retired_packets tm) (f_cl f);
                match mfind (f_pid f) m with
                | None => Fail AssertFailed
                | Some head =>
                    v ← vset (tm_retired_packets tm) (f_cl f) (merase (f_pid f) m);
                    assert! f_head head;
                    assert! (f_pid f =? f_pid head);
                    Ok (head, with_retired_packets v tm)
                end);
            RetirePacket_pair head f tm
          else Ok tm);
    if f_head f && negb (f_tail f) then
      m ← vget (tm_retired_packets tm) (f_cl f);
      v ← vset (tm_retired_packets tm) (f_cl f) (if mcount (f_pid f) m =? 0 then mset (f_pid f) f m else m);
      Ok (with_retired_packets v tm)
    else Ok tm.

(** ** Injecting flits *)

(** The loop that looks for a VC; [lvc] is the one used last. *)
Definition search_vc (now : Z) (dest_buf : BufferState) (lvc vc_start vc_end vc_count : Z) : res (option Z) :=
  r ← zforb 1 (vc_count + 1) (λ i (_ : option Z),
    let vc := if (lvc <? vc_start) || (vc_end <? lvc) then vc_start
              else vc_start + (lvc - vc_start + i) `rem` vc_count in
    assert! (vc_start <=? vc) && (vc <=? vc_end);
    available ← IsAvailableFor (core dest_buf) vc;
    if negb available then Ok (Next None)
    else
      full ← BufferStateOps.IsFullFor now dest_buf vc;
      Ok (if (full : bool) then Next None else Break (Some vc))) None;
  Ok (ctl_val r).

(** [GetInject(n)->GetSink()], which must not be null. *)
Definition first_router (subnet n : Z) tm : res Sink :=
  nw ← vget (tm_net tm) subnet;
  s ← sink_at N nw (Inject n);
  match s with Some s => Ok s | None => Fail AssertFailed end.

(** The part of the VC range that next-hop-output queuing leaves, for which the
    route at the first router is computed. *)
Definition noq_range (subnet n : Z) (se : sSetElement) (cf : Flit) (g : Rng) tm : res (Z * Z * Z * Flit * Rng) :=
  assert! tc_lookahead_routing T;
  s ← first_router subnet n tm;
  '(la, cf, g) ← rf (sk_router s) (set_vc (vc_start se) cf) (sk_port s) (f_la_route_set cf) false g;
  let cf := set_la_route_set la (set_vc (-1) cf) in
  match la with
  | [sl] =>
      let vc_count := (vc_end se - vc_start se + 1) `quot` sk_outputs s in
      let start := vc_start se + output_port sl * vc_count in
      let last := start + vc_count - 1 in
      assert! (vc_start se <=? start) && (start <=? vc_end se);
      assert! (vc_start se <=? last) && (last <=? vc_end se);
      assert! (start <=? last);
      Ok (start, last, vc_count, cf, g)
  | _ => Fail AssertFailed
  end.

(** The choice of a VC for a head [cf] of class [c]. *)
Definition find_vc (subnet n c : Z) (dest_buf : BufferState) (cf : Flit) tm : res (Flit * TM) :=
  '(route_set, cf, g) ← rf no_router cf (-1) [] true (tm_rng tm);
  match route_set with
  | [se] =>
      assert! (output_port se =? -1);
      '(start, last, count, cf, g) ← (if tc_noq T then noq_range subnet n se cf g tm
        else Ok (vc_start se, vc_end se, vc_end se - vc_start se + 1, cf, g));
      lvcs ← vget2 (tm_last_vc tm) n subnet;
      lvc ← (if 0 <? count then vget lvcs c else Ok 0);
      found ← search_vc (tm_time tm) dest_buf lvc start last count;
      let cf := match found with Some vc => set_vc vc cf | None => cf end in
      pp ← vget2 (tm_partial_packets tm) n c;
      v ← vset2 (tm_partial_packets tm) n c (cf :: tail pp);
      Ok (cf, with_rng g (with_partial_packets v tm))
  | _ => Fail AssertFailed
  end.

(** The flit that would be sent is the first of its class; the loop body over the
    classes. *)
Definition front_of (n c : Z) tm : res (option Flit) :=
  pp ← vget2 (tm_partial_packets tm) n c; Ok (head pp).

Definition consider (subnet n last_class i : Z) (s : option Z * TM) : res (option Z * TM) :=
  let '(f, tm) := s in
  let c := (last_class + i) `rem` tc_classes T in
  sub ← vget (tc_subnet T) c;
  if negb (sub =? subnet) then Ok s
  else
    front ← front_of n c tm;
    match front with
    | None => Ok s
    | Some cf =>
        assert! (f_cl cf =? c);
        outranked ← (match f with
          | None => Ok false
          | Some c' =>
              front ← front_of n c' tm;
              match front with Some f' => Ok (f_pri cf <=? f_pri f') | None => Fail BadIterator end
          end);
        if (outranked : bool) then Ok s
        else
          dest_buf ← vget2 (tm_buf_states tm) n subnet;
          '(cf, tm) ← (if f_head cf && (f_vc cf =? -1) then find_vc subnet n c dest_buf cf tm else Ok (cf, tm));
          if f_vc cf =? -1 then Ok (f, tm)
          else
            full ← BufferStateOps.IsFullFor (tm_time tm) dest_buf (f_vc cf);
            Ok (if (full : bool) then f else Some c, tm)
    end.

(** With held connections, the packet the node is in the middle of goes first. *)
Definition held_class (subnet n last_class : Z) tm : res (option Z) :=
  if tc_hold_switch_for_packet T then
    front ← front_of n last_class tm;
    match front with
    | Some f =>
        if f_head f then Ok None
        else
          dest_buf ← vget2 (tm_buf_states tm) n subnet;
          full ← BufferStateOps.IsFullFor (tm_time tm) dest_buf (f_vc f);
          if (full : bool) then Ok None
          else
            lvcs ← vget2 (tm_last_vc tm) n subnet;
            lvc ← vget lvcs last_class;
            assert! (f_vc f =? lvc);
            Ok (Some last_class)
    | None => Ok None
    end
  else Ok None.

(** The route and the VC of a head that is about to be sent. *)
Definition start_packet (subnet n c : Z) (f : Flit) tm : res (Flit * TM) :=
  '(f, g) ← (if tc_lookahead_routing T then
      if negb (tc_noq T) then
        s ← first_router subnet n tm;
        '(la, f, g) ← rf (sk_router s) f (sk_port s) (f_la_route_set f) false (tm_rng tm);
        Ok (set_la_route_set la f, g)
      else Ok (f, tm_rng tm)
    else Ok (set_la_route_set (OutputSetOps.Clear (f_la_route_set f)) f, tm_rng tm));
  dest_buf ← vget2 (tm_buf_states tm) n subnet;
  dest_buf ← BufferStateOps.TakeBuffer dest_buf (f_vc f) (f_pid f);
  bufs ← vset2 (tm_buf_states tm) n subnet dest_buf;
  lvcs ← vget2 (tm_last_vc tm) n subnet;
  lvcs ← vset lvcs c (f_vc f);
  v ← vset2 (tm_last_vc tm) n subnet lvcs;
  Ok (f, with_rng g (with_last_vc v (with_buf_states bufs tm))).

(** [_pri_type == network_age_based]: the priority is an [int]. *)
Definition network_age (f : Flit) tm : res Flit :=
  match tc_pri_type T with
  | network_age_based =>
      let p := to_int (2 ^ 63 - 1 - tm_time tm) in
      assert! (0 <=? p);
      Ok (set_pri p f)
  | _ => Ok f
  end.

(** The VC of a packet is passed to its next flit. *)
Definition pass_vc (f : Flit) (pp : list Flit) : list Flit :=
  match pp with nf :: rest => if f_tail f then pp else set_vc (f_vc f) nf :: rest | [] => [] end.

Definition counting tm : bool := match tm_sim_state tm with warming_up | running => true | _ => false end.

Definition count_sent (f : Flit) (c n : Z) tm : res TM :=
  if counting tm then
    let k := tm_counts tm in
    flits ← incr (cn_sent_flits k) c n;
    packets ← (if f_head f then incr (cn_sent_packets k) c n else Ok (cn_sent_packets k));
    Ok (with_counts (mkCounts flits packets (cn_accepted_flits k) (cn_accepted_packets k)) tm)
  else Ok tm.

Definition inject_flit (subnet n : Z) (f : Flit) tm : res TM :=
  let c := f_cl f in
  '(f, tm) ← (if f_head f then start_packet subnet n c f tm else Ok (f, tm));
  v ← vset2 (tm_last_class tm) n subnet c;
  let tm := with_last_class v tm in
  pp ← vget2 (tm_partial_packets tm) n c;
  let pp := tail pp in
  dest_buf ← vget2 (tm_buf_states tm) n subnet;
  dest_buf ← BufferStateOps.SendingFlit (tm_time tm) dest_buf f;
  bufs ← vset2 (tm_buf_states tm) n subnet dest_buf;
  let tm := with_buf_states bufs tm in
  f ← network_age f tm;
  let f := set_itime (tm_time tm) f in
  v ← vset2 (tm_partial_packets tm) n c (pass_vc f pp);
  let tm := with_partial_packets v tm in
  tm ← count_sent f c n tm;
  nw ← vget (tm_net tm) subnet;
  nw ← WriteFlit N f n nw;
  nets ← vset (tm_net tm) subnet nw;
  Ok (with_net nets tm).

Definition inject_node (subnet n : Z) tm : res TM :=
  last_class ← vget2 (tm_last_class tm) n subnet;
  held ← held_class subnet n last_class tm;
  let class_limit := match held with Some _ => tc_classes T - 1 | None => tc_classes T end in
  '(f, tm) ← zfor 1 (class_limit + 1) (consider subnet n last_class) (held, tm);
  match f with
  | None => Ok tm
  | Some c =>
      front ← front_of n c tm;
      match front with Some f => inject_flit subnet n f tm | None => Fail BadIterator end
  end.

(** ** A cycle *)

Definition some_flits (v : list iset) : bool := existsb (λ m, match m with [] => false | _ => true end) v.

(** [_deadlock_timer++], reset after a warning. *)
Definition watch_deadlock tm : TM :=
  if some_flits (tm_total_in_flight_flits tm) then
    if tc_deadlock_warn_timeout T <=? tm_deadlock_timer tm then with_deadlock_timer 0 tm
    else with_deadlock_timer (tm_deadlock_timer tm + 1) tm
  else tm.

Definition count_accepted (f : Flit) (n : Z) tm : res TM :=
  if counting tm then
    let k := tm_counts tm in
    flits ← incr (cn_accepted_flits k) (f_cl f) n;
    packets ← (if f_tail f then incr (cn_accepted_packets k) (f_cl f) n else Ok (cn_accepted_packets k));
    Ok (with_counts (mkCounts (cn_sent_flits k) (cn_sent_packets k) flits packets) tm)
  else Ok tm.

(** The flit and the credit a node receives; [flits] are those received in the
    subnetwork. *)
Definition read_node (subnet n : Z) (s : imap Flit * TM) : res (imap Flit * TM) :=
  let '(flits, tm) := s in
  nw ← vget (tm_net tm) subnet;
  f ← ReadFlit N n nw;
  '(flits, tm) ← (match f with
    | Some f => tm ← count_accepted f n tm; Ok (mset n f flits, tm)
    | None => Ok (flits, tm)
    end);
  c ← ReadCredit N n nw;
  match c with
  | Some c =>
      dest_buf ← vget2 (tm_buf_states tm) n subnet;
      dest_buf ← BufferStateOps.ProcessCredit (tm_time tm) dest_buf c;
      bufs ← vset2 (tm_buf_states tm) n subnet dest_buf;
      Ok (flits, with_buf_states bufs tm)
  | None => Ok (flits, tm)
  end.

Definition read_subnet (subnet : Z) (s : list (imap Flit) * TM) : res (list (imap Flit) * TM) :=
  let '(flits, tm) := s in
  '(fs, tm) ← zfor 0 (tc_nodes T) (read_node subnet) ([], tm);
  nw ← vget (tm_net tm) subnet;
  nw ← ReadInputs N (tm_time tm) nw;
  nets ← vset (tm_net tm) subnet nw;
  Ok (flits ++ [fs], with_net nets tm).

Definition inject_subnet (subnet : Z) tm : res TM := zfor 0 (tc_nodes T) (inject_node subnet) tm.

(** The credit for a flit that has arrived, and its retirement. *)
Definition retire_node (subnet : Z) (flits : imap Flit) (n : Z) tm : res TM :=
  match mfind n flits with
  | None => Ok tm
  | Some f =>
      let f := set_atime (tm_time tm) f in
      nw ← vget (tm_net tm) subnet;
      nw ← WriteCredit N (mkCredit [f_vc f]) n nw;
      nets ← vset (tm_net tm) subnet nw;
      RetireFlit f n (with_net nets tm)
  end.

Definition finish_subnet (flits : list (imap Flit)) (subnet : Z) tm : res TM :=
  fs ← vget flits subnet;
  tm ← zfor 0 (tc_nodes T) (retire_node subnet fs) tm;
  nw ← vget (tm_net tm) subnet;
  '(nw, g) ← Evaluate IV IS IP rf N (tm_time tm) (nw, tm_rng tm);
  nw ← WriteOutputs N (tm_time tm) nw;
  nets ← vset (tm_net tm) subnet nw;
  Ok (with_rng g (with_net nets tm)).

Definition Step tm : res TM :=
  let tm := watch_deadlock tm in
  '(flits, tm) ← zfor 0 (tc_subnets T) read_subnet ([], tm);
  tm ← zfor 0 (tc_subnets T) inject_subnet tm;
  tm ← zfor 0 (tc_subnets T) (finish_subnet flits) tm;
  assert! negb (tm_time tm + 1 =? 0);
  Ok (with_time (tm_time tm + 1) tm).

(** ** The interface *)

(** [TrafficManagerWrapper::GeneratePacket]. *)
Definition GeneratePacket (source dest size cl time : Z) tm : res (Z * TM) :=
  GeneratePacket_at source dest size cl (tm_time tm - time) tm.

(** [RunCycles], without its reports. *)
Definition RunCycles (cycles : Z) tm : res TM := zfor 0 cycles (λ _, Step) tm.

Definition CheckInFlightPackets tm : res bool :=
  r ← zforb 0 (tc_classes T) (λ cl (in_flight : bool),
    m ← vget (tm_total_in_flight_flits tm) cl;
    if in_flight || (match m with [] => false | _ => true end) then Ok (Break true)
    else
      r ← zforb 0 (tc_nodes T) (λ n (_ : bool),
        q ← vget2 (tm_ejection_queue tm) cl n;
        Ok (match q with [] => Next false | _ => Break true end)) false;
      Ok (Next (ctl_val r))) false;
  Ok (ctl_val r).

(** [TrafficManagerWrapper::RetirePacket]: the first packet of the ejection queues,
    or one with the number -1. *)
Definition no_packet : Flit :=
  let f := new_flit in
  mkFlit (f_type f) (f_vc f) (f_cl f) (f_head f) (f_tail f) (f_ctime f) (f_itime f) (f_atime f) (f_id f) (-1)
    (f_record f) (f_src f) (f_dest f) (f_pri f) (f_hops f) (f_watch f) (f_subnetwork f) (f_packet_size f) (f_intm f)
    (f_ph f) (f_la_route_set f).

Definition first_ejected tm : res (option (Flit * Flit) * TM) :=
  r ← zforb 0 (tc_classes T) (λ cl (s : option (Flit * Flit) * TM),
    r ← zforb 0 (tc_nodes T) (λ n (s : option (Flit * Flit) * TM),
      q ← vget2 (tm_ejection_queue tm) cl n;
      match q with
      | [] => Ok (Next s)
      | (hd, tl) :: q =>
          v ← vset2 (tm_ejection_queue tm) cl n q;
          Ok (Break (Some (set_dest (GetActualNode (f_dest hd)) (set_src (GetActualNode (f_src hd)) hd), tl),
                     with_ejection_queue v tm))
      end) s;
    Ok (match r with Break s => Break s | Next s => Next s end)) (None, tm);
  Ok (ctl_val r).

Definition RetirePacket tm : res (Flit * Flit * TM) :=
  '(p, tm) ← first_ejected tm;
  Ok (match p with Some p => p | None => (no_packet, no_packet) end, tm).

(** [BooksimWrapper::UpdateSimTime]. *)
Definition UpdateSimTime (cycles : Z) tm : res TM :=
  busy ← CheckInFlightPackets tm;
  assert! negb busy;
  let time := tm_time tm + cycles in
  assert! negb (time =? 0);
  Ok (with_time time tm).

(** [_inj_size - cur_occupancy] is computed without sign and returned as an [int]. *)
Definition CheckInjectionQueue (source cl : Z) tm : res Z :=
  pp ← vget2 (tm_partial_packets tm) source cl;
  Ok (to_int (tc_inj_size T - zlen pp)).

Definition PacketsOutstanding tm : bool :=
  existsb (λ m, match m with [] => true | _ => false end) (tm_measured_in_flight_flits tm).

(** [_ClearStats], as far as the counts go. *)
Definition ClearStats tm : TM :=
  let zeros := replicate (Z.to_nat (tc_classes T)) (replicate (Z.to_nat (tc_nodes T)) 0) in
  with_counts (mkCounts zeros zeros zeros zeros) tm.
End tm.

(** ** [BooksimWrapper] *)

Record RetiredPacket : Set := mkRetiredPacket {
  rp_pid : Z;
  rp_src : Z;
  rp_dest : Z;
  rp_cl : Z;
  rp_psize : Z;
  rp_plat : Z;
  rp_nlat : Z;
  rp_hops : Z
}.

Definition retired_packet (p : Flit * Flit) : RetiredPacket :=
  let '(head, tail) := p in
  mkRetiredPacket (f_pid head) (f_src head) (f_dest head) (f_cl head) (f_packet_size head)
    (to_int (f_atime tail - f_ctime head)) (to_int (f_atime tail - f_itime head)) (f_hops head).

(** [RetirePackets]: until the packet with the number -1.  Every round takes a
    packet off a queue, so that their number bounds the rounds. *)
Fixpoint retire_packets {VA SA PA : Type} (T : TMConfig) (fuel : nat) (tm : TM VA SA PA) : res (list RetiredPacket * TM VA SA PA) :=
  match fuel with
  | O => Fail OutOfFuel
  | S fuel =>
      '(head, tail, tm) ← RetirePacket T tm;
      let p := retired_packet (head, tail) in
      if f_pid head =? -1 then Ok ([], tm)
      else
        '(ps, tm) ← retire_packets T fuel tm;
        Ok (if -1 <? f_pid head then (p :: ps, tm) else (ps, tm))
  end.

Definition ejected_packets {VA SA PA : Type} (tm : TM VA SA PA) : nat :=
  length (concat (concat (tm_ejection_queue tm))).

Definition RetirePackets {VA SA PA : Type} (T : TMConfig) (tm : TM VA SA PA) : res (list RetiredPacket * TM VA SA PA) :=
  retire_packets T (S (ejected_packets tm)) tm.
End TMOps.
