(* ===== verification/NetChannels.v ===== *)
(** * The channels of a network

    A channel with what has been sent into it and what has been received from it,
    through the phases of a cycle; and the operations on all channels of a
    network. *)

From S2P Require Import Prelude Flit KNCube Channel Network.
Import ChannelOps ChannelInv.

(** ** One channel *)

Section line.
Context {X : Type}.
Implicit Types (c : Channel X) (s g : list X).

(** Between cycles: what is on the way is in the output register, in the queue and
    in the input register. *)
Definition resting (now : Z) c s g : Prop := ∃ init, zlen init + 1 = ch_delay c ∧ ch_wait_queue c = entries now init ∧
  s = g ++ option_list (ch_output c) ++ (ch_wait_queue c).*2 ++ option_list (ch_input c).

(** After [ReadInputs]: the output register has been received. *)
Definition moving (now : Z) c s g : Prop := ∃ init, zlen init = ch_delay c ∧ ch_wait_queue c = entries now init ∧
  s = g ++ (ch_wait_queue c).*2 ++ option_list (ch_input c).

Lemma resting_read now c s g : resting now c s g → 0 ≤ now → now + ch_delay c ≤ int_max →
  let c' := ReadInputs c now in
  moving now c' s (g ++ option_list (ch_output c)) ∧ ch_input c' = None ∧ ch_delay c' = ch_delay c ∧ ch_output c' = ch_output c.
Proof.
  intros (init & Hd & Hq & Hs) Hnow Hmax. unfold ReadInputs. pose proof (zlen_nonneg init).
  destruct (ch_input c) as [x|] eqn:Ei; simpl; (split; [|done]); exists (init ++ [ch_input c]); rewrite Ei; simpl;
    (split; [unfold zlen in *; rewrite length_app; simpl; lia|]); rewrite entries_app; simpl.
  - rewrite to_int_id by (unfold int_min; lia). split; [rewrite Hq; do 3 f_equal; lia|].
    rewrite Hs, fmap_app, app_nil_r, <- !app_assoc. done.
  - rewrite app_nil_r. split; [done|]. by rewrite Hs, <- !app_assoc.
Qed.

Lemma moving_send now c s g x : moving now c s g → ch_input c = None → moving now (Send c (Some x)) (s ++ [x]) g.
Proof. intros (init & Hd & Hq & Hs) Hi. exists init. split_and!; [done..|]. simpl. rewrite Hs, Hi. simpl. by rewrite app_nil_r, <- app_assoc. Qed.

Lemma resting_send now c s g x : resting now c s g → ch_input c = None → resting now (Send c (Some x)) (s ++ [x]) g.
Proof. intros (init & Hd & Hq & Hs) Hi. exists init. split_and!; [done..|]. simpl. rewrite Hs, Hi. simpl. by rewrite app_nil_r, <- !app_assoc. Qed.

Lemma moving_write now c s g : moving now c s g → 0 < ch_delay c →
  returns (WriteOutputs c now) (λ c', resting (now + 1) c' s g ∧ ch_input c' = ch_input c ∧ ch_delay c' = ch_delay c).
Proof.
  intros (init & Hd & Hq & Hs) Hpos. destruct init as [|y init]; [unfold zlen in Hd; simpl in Hd; lia|].
  assert (zlen init + 1 = ch_delay c) as Hd' by (rewrite <- Hd; unfold zlen; simpl; lia). unfold WriteOutputs. destruct y as [y|]; simpl in Hq.
  - rewrite Hq. destruct (Z.ltb_spec now now); [lia|]. rewrite Z.eqb_refl. cbn [cassert mbind res_bind]. apply returns_ok.
    split; [|done]. exists init. split_and!; [done..|]. simpl. by rewrite Hs, Hq.
  - rewrite Hq. destruct (entries (now + 1) init) as [|[t x] q] eqn:Eq.
    + apply returns_ok. split; [|done]. exists init. split_and!; [done|by rewrite Eq|]. simpl. by rewrite Hs, Hq.
    + pose proof (entries_later _ _ _ _ _ Eq). destruct (Z.ltb_spec now t); [|lia]. apply returns_ok. split; [|done].
      exists init. split_and!; [done|by rewrite Eq|]. simpl. by rewrite Hs, Hq.
Qed.

Lemma resting_New now delay : 0 < delay → resting now (mkChannel delay None None []) [] [].
Proof.
  intros Hd. exists (replicate (Z.to_nat (delay - 1)) None). simpl. split_and!; [|by rewrite entries_idle|done].
  rewrite zlen_replicate; lia.
Qed.

(** With nothing on the way, at any time. *)
Lemma resting_later now now' c s : resting now c s s → resting now' c s s.
Proof.
  intros (init & Hd & Hq & Hs). assert (option_list (ch_output c) ++ (ch_wait_queue c).*2 ++ option_list (ch_input c) = []) as H0.
  { apply (app_inv_head s). by rewrite <- Hs, app_nil_r. }
  apply app_nil in H0 as [H1 [H2 H3]%app_nil]. apply fmap_nil_inv in H2. exists (replicate (Z.to_nat (ch_delay c - 1)) None).
  pose proof (zlen_nonneg init). split_and!; [rewrite zlen_replicate; lia|by rewrite entries_idle|]. by rewrite H1, H2, H3, !app_nil_r.
Qed.

(** The latency of a channel with nothing on the way can be changed. *)
Lemma resting_SetLatency now c s d : resting now c s s → 0 < d → resting now (mkChannel d (ch_input c) (ch_output c) (ch_wait_queue c)) s s.
Proof.
  intros (init & _ & Hq & Hs) Hd. assert (option_list (ch_output c) ++ (ch_wait_queue c).*2 ++ option_list (ch_input c) = []) as H0.
  { apply (app_inv_head s). by rewrite <- Hs, app_nil_r. }
  apply app_nil in H0 as [H1 [H2 H3]%app_nil]. apply fmap_nil_inv in H2. exists (replicate (Z.to_nat (d - 1)) None). simpl.
  split_and!; [rewrite zlen_replicate; lia|by rewrite entries_idle|]. by rewrite H1, H2, H3, !app_nil_r.
Qed.
End line.

(** ** All channels *)

Import NetworkOps.

Definition valid_chan (N : NetConfig) (c : chan_id) : Prop :=
  match c with Inject n | Eject n => 0 ≤ n < nc_nodes N | Chan k => 0 ≤ k < nc_channels N end.

#[export] Instance chan_eq_dec : EqDecision chan_id.
Proof. solve_decision. Defined.

Section channels.
Context (N : NetConfig) {X : Type} `{Inhabited X}.
Implicit Types cs : Channels X.

Definition chan_at cs (c : chan_id) : X :=
  match c with Inject n => (cs_inject cs)⟦n⟧ | Eject n => (cs_eject cs)⟦n⟧ | Chan k => (cs_chan cs)⟦k⟧ end.

Definition fits cs : Prop := zlen (cs_inject cs) = nc_nodes N ∧ zlen (cs_eject cs) = nc_nodes N ∧ zlen (cs_chan cs) = nc_channels N.

Lemma get_chan_ok cs c : fits cs → valid_chan N c → get_chan cs c = Ok (chan_at cs c).
Proof. intros (L1 & L2 & L3) Hc. destruct c as [k|n|n]; simpl in *; apply vget_ok; lia. Qed.

Lemma put_chan_ok cs c x : fits cs → valid_chan N c → returns (put_chan cs c x) (λ cs', fits cs' ∧
  ∀ c', valid_chan N c' → chan_at cs' c' = if decide (c' = c) then x else chan_at cs c').
Proof.
  intros (L1 & L2 & L3) Hc. destruct c as [k|n|n]; simpl in *; (rewrite vset_ok by lia); apply returns_ok; (split; [split_and!; simpl; lens|]);
    intros [k'|n'|n'] Hc'; unfold chan_at; cbn [cs_inject cs_eject cs_chan valid_chan] in *; try (rewrite decide_False by congruence; done); rewrite znth_zupd by lia;
    repeat case_decide; congruence.
Qed.

Lemma each_ok {A B : Type} (f : A → res B) (P : A → B → Prop) l : (∀ x, x ∈ l → returns (f x) (P x)) → returns (each f l) (Forall2 P l).
Proof.
  induction l as [|x l IH]; intros Hf; simpl; [by apply returns_ok|]. eapply returns_bind; [apply Hf; by left|]. intros y Hy.
  eapply returns_bind; [apply IH; intros; apply Hf; by right|]. intros l' Hl. apply returns_ok. by constructor.
Qed.

Lemma each_at `{Inhabited A} {B : Type} `{Inhabited B} (f : A → res B) (P : Z → B → Prop) l :
  (∀ i, 0 ≤ i < zlen l → returns (f (l⟦i⟧)) (P i)) → returns (each f l) (λ l', zlen l' = zlen l ∧ ∀ i, 0 ≤ i < zlen l → P i (l'⟦i⟧)).
Proof.
  revert P. induction l as [|x l IH]; intros P Hf; simpl; [apply returns_ok; split; [done|]; unfold zlen; simpl; lia|].
  eapply returns_bind; [apply (Hf 0); unfold zlen; simpl; lia|]. intros y Hy.
  eapply returns_bind; [apply (IH (λ i, P (i + 1)))|].
  - intros i Hi. specialize (Hf (i + 1)). unfold zlen, znth in *. replace (Z.to_nat (i + 1)) with (S (Z.to_nat i)) in Hf by lia. apply Hf. simpl. lia.
  - intros l' [Hl Hp]. apply returns_ok. split; [unfold zlen in *; simpl; lia|]. intros i Hi. unfold zlen, znth in *. simpl in Hi.
    destruct (decide (i = 0)) as [->|]; [done|]. specialize (Hp (i - 1)). replace (Z.to_nat i) with (S (Z.to_nat (i - 1))) by lia. simpl.
    replace (i - 1 + 1) with i in Hp by lia. apply Hp. lia.
Qed.

Lemma each_chan_ok (f : X → res X) (Q : chan_id → X → Prop) cs : fits cs →
  (∀ c, valid_chan N c → returns (f (chan_at cs c)) (Q c)) →
  returns (each_chan f cs) (λ cs', fits cs' ∧ ∀ c, valid_chan N c → Q c (chan_at cs' c)).
Proof.
  intros (L1 & L2 & L3) Hf. unfold each_chan.
  eapply returns_bind; [apply (each_at f (λ n, Q (Inject n))); intros n Hn; apply (Hf (Inject n)); simpl; lia|]. intros l1 [E1 H1].
  eapply returns_bind; [apply (each_at f (λ n, Q (Eject n))); intros n Hn; apply (Hf (Eject n)); simpl; lia|]. intros l2 [E2 H2].
  eapply returns_bind; [apply (each_at f (λ n, Q (Chan n))); intros n Hn; apply (Hf (Chan n)); simpl; lia|]. intros l3 [E3 H3].
  apply returns_ok. split; [split_and!; simpl; lia|]. intros [k|n|n] Hc; simpl in *; [apply H3|apply H1|apply H2]; lia.
Qed.

(** Sending on the channels of a router. *)
Lemma send_all_ok {Y : Type} (send : Channels X → chan_id → Y → res (Channels X)) (put : Y → X → X → Prop) ports (ys : list (option Y)) cs :
  fits cs → zlen ys = zlen ports → (∀ p, 0 ≤ p < zlen ports → valid_chan N (ports⟦p⟧)) →
  (∀ p q, 0 ≤ p < zlen ports → 0 ≤ q < zlen ports → ports⟦p⟧ = ports⟦q⟧ → p = q) →
  (∀ cs' p y, 0 ≤ p < zlen ports → ys⟦p⟧ = Some y → fits cs' → chan_at cs' (ports⟦p⟧) = chan_at cs (ports⟦p⟧) →
     returns (send cs' (ports⟦p⟧) y) (λ cs2, fits cs2 ∧ ∀ c, valid_chan N c →
       if decide (c = ports⟦p⟧) then put y (chan_at cs c) (chan_at cs2 c) else chan_at cs2 c = chan_at cs' c)) →
  returns (send_all send ports ys cs) (λ cs2, fits cs2 ∧
    (∀ p, 0 ≤ p < zlen ports → match ys⟦p⟧ with Some y => put y (chan_at cs (ports⟦p⟧)) (chan_at cs2 (ports⟦p⟧)) | None => chan_at cs2 (ports⟦p⟧) = chan_at cs (ports⟦p⟧) end) ∧
    (∀ c, valid_chan N c → c ∉ ports → chan_at cs2 c = chan_at cs c)).
Proof.
  intros Hfit Hlen Hval Hinj Hsend. unfold send_all. eapply returns_mono.
  - apply (returns_for (λ (k : Z) cs2, fits cs2 ∧
      (∀ p, 0 ≤ p < k → match ys⟦p⟧ with Some y => put y (chan_at cs (ports⟦p⟧)) (chan_at cs2 (ports⟦p⟧)) | None => chan_at cs2 (ports⟦p⟧) = chan_at cs (ports⟦p⟧) end) ∧
      (∀ p, k ≤ p < zlen ports → chan_at cs2 (ports⟦p⟧) = chan_at cs (ports⟦p⟧)) ∧
      (∀ c, valid_chan N c → c ∉ ports → chan_at cs2 c = chan_at cs c))); [apply zlen_nonneg|split_and!; try done; lia|].
    intros p cs1 Hp (F1 & F2 & F3 & F4). vgets. destruct (ys⟦p⟧) as [y|] eqn:Ey.
    + eapply returns_mono; [by apply (Hsend cs1 p y); [..|apply F3; lia]|]. intros cs2 [G1 G2]. split_and!; [done|..].
      * intros q Hq. pose proof (G2 (ports⟦q⟧) (Hval q ltac:(lia))) as G. case_decide as Hd.
        -- assert (q = p) as -> by (apply Hinj; [lia..|done]). by rewrite Ey.
        -- rewrite G. apply F2. enough (q ≠ p) by lia. by intros ->.
      * intros q Hq. pose proof (G2 (ports⟦q⟧) (Hval q ltac:(lia))) as G. rewrite decide_False in G; [rewrite G; apply F3; lia|].
        intros Hd. apply Hinj in Hd; lia.
      * intros c Hc Hn. pose proof (G2 c Hc) as G. rewrite decide_False in G; [rewrite G; by apply F4|]. intros ->. apply Hn.
        unfold znth. apply list_elem_of_lookup_total_2. unfold zlen in *. lia.
    + apply returns_ok. split_and!; try done; [|intros; apply F3; lia]. intros q Hq. destruct (decide (q = p)) as [->|]; [|apply F2; lia].
      rewrite Ey. apply F3. lia.
  - intros cs2 (F1 & F2 & _ & F4). done.
Qed.
End channels.
