(* ===== verification/NetworkInv.v ===== *)
(** * Networks: invariant

    What is assumed of a network ([NetSetup]: how it is wired, what its routers
    are, that routes lead to routers which accept them) and the invariant of its
    state.  The histories of the routers and of the nodes are linked by the
    channels: what has been received from a channel is the beginning of what has
    been sent on it.  From this every router and node gets what it relies on. *)

From S2P Require Import Prelude StdMap OutputSet Flit VCBuffer BufferState BufferStateInv Credits Link Arbiter Allocator AllocLaws Rng KNCube Route SwitchAlloc IQRouter IQSwitch Wormhole RouterInv RouterQueues RouterStages RouterRoute RouterVCAlloc RouterSwitchAlloc RouterSend RouterSwitch RouterStep RouterRun RouterSpec RouterFlow Channel Network NetChannels.
Import CoreOps Credits Link NetworkOps.

#[export] Instance IQConfig_inhabited : Inhabited IQConfig :=
  populate (mkIQConfig 0 0 0 0 0 0 0 0 0 0 0 0 0 0 false false false false false false false false false).
#[export] Instance Channel_inhabited {X : Type} : Inhabited (Channel X) := populate ChannelOps.New.
#[export] Instance FlitChannel_inhabited : Inhabited FlitChannel := populate (FlitChannelOps.New 0).
#[export] Instance IQRouter_inhabited {VA SA PA : Type} `{Inhabited SA} : Inhabited (IQRouter VA SA PA) :=
  populate (mkIQRouter [] [] None inhabitant None [] [] [] [] [] [] [] [] [] [] (mkHold [] [] []) [] [] (mkNoq [] [] []) false 0 RngOps.initial).

(** ** Wiring *)

Section wiring.
Context (N : NetConfig).

Definition nrouters : Z := zlen (nc_routers N).
Definition in_chan (r i : Z) : chan_id := ((nc_inputs N)⟦r⟧)⟦i⟧.
Definition out_chan (r o : Z) : chan_id := ((nc_outputs N)⟦r⟧)⟦o⟧.
Definition input_at (r i : Z) : Prop := 0 ≤ r < nrouters ∧ 0 ≤ i < zlen ((nc_inputs N)⟦r⟧).
Definition output_at (r o : Z) : Prop := 0 ≤ r < nrouters ∧ 0 ≤ o < zlen ((nc_outputs N)⟦r⟧).

(** Every channel leads from an output of a router, or a node, to an input of a
    router, or a node. *)
Definition from_router (c : chan_id) : bool := match c with Inject _ => false | _ => true end.
Definition to_router (c : chan_id) : bool := match c with Eject _ => false | _ => true end.

Record wired : Prop := {
  wd_faults : zlen (nc_faults N) = nrouters;
  wd_inputs : zlen (nc_inputs N) = nrouters;
  wd_outputs : zlen (nc_outputs N) = nrouters;
  wd_input : ∀ r i, input_at r i → valid_chan N (in_chan r i) ∧ to_router (in_chan r i) ∧ GetSink N (in_chan r i) = Some (r, i);
  wd_output : ∀ r o, output_at r o → valid_chan N (out_chan r o) ∧ from_router (out_chan r o) ∧ GetSource N (out_chan r o) = Some (r, o);
  wd_sink : ∀ c, valid_chan N c → to_router c → ∃ r i, input_at r i ∧ in_chan r i = c;
  wd_source : ∀ c, valid_chan N c → from_router c → ∃ r o, output_at r o ∧ out_chan r o = c;
  wd_eject : ∀ d, GetSink N (Eject d) = None
}.
End wiring.

(** ** Setup *)

(** [ns_E r] is the setup of router [r]; what it passes on is accepted by the next
    router, and by a node if it is the destination.  [ns_latency] bounds the
    latencies of the channels. *)
Record NetSetup (VA SA PA : Type) : Type := {
  ns_N : NetConfig;
  ns_E : Z → Setup VA SA PA;
  ns_IV : RouterAllocator VA;
  ns_IS : RouterAllocator SA;
  ns_IP : RouterAllocator PA;
  ns_rf : Router → Flit → Z → OutputSet → bool → Rng → res (OutputSet * Flit * Rng);
  ns_vcs : Z;
  ns_bsize : Z;
  ns_latency : Z;
  ns_wired : wired ns_N;
  ns_nodes : 0 ≤ nc_nodes ns_N;
  ns_classes : 0 ≤ nc_classes ns_N;
  ns_vcs_pos : 0 < ns_vcs;
  ns_code : ∀ r, 0 ≤ r < nrouters ns_N → let E := ns_E r in
    su_C E = (nc_routers ns_N)⟦r⟧ ∧ su_faults E = (nc_faults ns_N)⟦r⟧ ∧
    su_IV E = ns_IV ∧ su_IS E = ns_IS ∧ su_IP E = ns_IP ∧ su_rf E = ns_rf;
  ns_sizes : ∀ r, 0 ≤ r < nrouters ns_N → let E := ns_E r in
    q_vcs (su_C E) = ns_vcs ∧ su_bsize E = ns_bsize ∧ su_nsize E = ns_bsize ∧
    zlen ((nc_inputs ns_N)⟦r⟧) = q_inputs (su_C E) ∧ zlen ((nc_outputs ns_N)⟦r⟧) = q_outputs (su_C E);
  ns_next : ∀ r o r' i f, output_at ns_N r o → input_at ns_N r' i → out_chan ns_N r o = in_chan ns_N r' i →
    passes (ns_E r) o f → accepts (ns_E r') f;
  ns_eject : ∀ r o d f, output_at ns_N r o → out_chan ns_N r o = Eject d → passes (ns_E r) o f → f_dest f = d;
  ns_lookahead : ∀ r o f, output_at ns_N r o → q_routing_delay (su_C (ns_E r)) = 0 → leaves (ns_E r) o f →
    match GetSink ns_N (out_chan ns_N r o) with
    | None => passes (ns_E r) o (FlitOps.set_la_route_set [] f)
    | Some (r', i) => let E' := ns_E r' in ∀ occ g, zlen occ = q_outputs (su_C E') → RngInv.rng_ok g →
        returns (ns_rf (mkRouter (q_id (su_C E')) occ (su_faults E')) f i (f_la_route_set f) false g) (λ '(rs, f', g'),
          RngInv.rng_ok g' ∧ rerouted f f' ∧ passes (ns_E r) o (FlitOps.set_la_route_set rs f'))
    end
}.
Arguments ns_N {VA SA PA} _.
Arguments ns_E {VA SA PA} _.
Arguments ns_IV {VA SA PA} _.
Arguments ns_IS {VA SA PA} _.
Arguments ns_IP {VA SA PA} _.
Arguments ns_rf {VA SA PA} _.
Arguments ns_vcs {VA SA PA} _.
Arguments ns_bsize {VA SA PA} _.
Arguments ns_latency {VA SA PA} _.
Arguments ns_wired {VA SA PA} _.
Arguments ns_nodes {VA SA PA} _.
Arguments ns_classes {VA SA PA} _.
Arguments ns_vcs_pos {VA SA PA} _.
Arguments ns_code {VA SA PA} _.
Arguments ns_sizes {VA SA PA} _.
Arguments ns_next {VA SA PA} _.
Arguments ns_eject {VA SA PA} _.
Arguments ns_lookahead {VA SA PA} _.

(** ** Histories *)

(** What is seen of the routers, and by node the flits it has sent and received and
    the credits it has received and sent for them. *)
Record NetHist : Type := mkNetHist {
  x_router : Z → Hist;
  x_injected : Z → list Flit;
  x_credited : Z → list Credit;
  x_ejected : Z → list Flit;
  x_credits : Z → list Credit
}.

Definition nothing : NetHist := mkNetHist (λ _, no_history) (λ _, []) (λ _, []) (λ _, []) (λ _, []).

Section histories.
Context (N : NetConfig).
Implicit Types (X : NetHist) (c : chan_id).

(** By channel: the flits sent and received, and the credits that go back. *)
Definition sent_on X c : list Flit :=
  match c with
  | Inject n => x_injected X n
  | _ => match GetSource N c with Some (r, o) => h_sent (x_router X r) o | None => [] end
  end.
Definition got_on X c : list Flit :=
  match c with
  | Eject d => x_ejected X d
  | _ => match GetSink N c with Some (r, i) => h_received (x_router X r) i | None => [] end
  end.
Definition credits_sent_on X c : list Credit :=
  match c with
  | Eject d => x_credits X d
  | _ => match GetSink N c with Some (r, i) => h_credits (x_router X r) i | None => [] end
  end.
Definition credits_got_on X c : list Credit :=
  match c with
  | Inject n => x_credited X n
  | _ => match GetSource N c with Some (r, o) => h_credited (x_router X r) o | None => [] end
  end.

Lemma at_source X r o : wired N → output_at N r o →
  sent_on X (out_chan N r o) = h_sent (x_router X r) o ∧ credits_got_on X (out_chan N r o) = h_credited (x_router X r) o.
Proof.
  intros HW Ho. destruct (wd_output _ HW r o Ho) as (_ & Hf & Hs). unfold sent_on, credits_got_on. rewrite Hs. by destruct (out_chan N r o).
Qed.

Lemma at_sink X r i : wired N → input_at N r i →
  got_on X (in_chan N r i) = h_received (x_router X r) i ∧ credits_sent_on X (in_chan N r i) = h_credits (x_router X r) i.
Proof.
  intros HW Hi. destruct (wd_input _ HW r i Hi) as (_ & Hf & Hs). unfold got_on, credits_sent_on. rewrite Hs. by destruct (in_chan N r i).
Qed.
End histories.

(** ** The invariant *)

Section inv.
Context {VA SA PA : Type} `{Inhabited SA} (S : NetSetup VA SA PA).
Local Abbreviation N := (ns_N S).
Local Abbreviation E := (ns_E S).
Local Abbreviation V := (ns_vcs S).
Local Abbreviation Net := (Network VA SA PA).
Implicit Types (nw : Net) (X : NetHist) (c : chan_id).

Definition in_class (f : Flit) : Prop := 0 ≤ f_cl f < nc_classes N.

(** The flits of a packet follow each other on a VC. *)
Definition next_id (g f : Flit) : Prop := f_id f = f_id g + 1.
Definition orderly (l : list Flit) : Prop := Forall in_class l ∧ ∀ w, adjacent next_id (on_vc w l).

Lemma orderly_prefix a b : orderly (a ++ b) → orderly a.
Proof.
  intros [[H1 _]%Forall_app H2]. split; [done|]. intros w. specialize (H2 w). unfold on_vc in H2. rewrite filter_app in H2. by eapply adjacent_prefix.
Qed.

(** What the receiver of a channel expects of a head. *)
Definition expected c (f : Flit) : Prop :=
  match c with Eject d => f_dest f = d | _ => ∀ r i, input_at N r i → in_chan N r i = c → accepts (E r) f end.

(** What a node keeps to: it sends packets one after the other on a VC, while the
    router has room; and returns a credit for a flit once. *)
Record node_ok X (n : Z) : Prop := {
  no_flits : Forall (λ f, 0 ≤ f_vc f < V ∧ flit_ok f ∧ (f_head f = true → expected (Inject n) f)) (x_injected X n);
  no_stream : ∀ w, is_Some (stream None (on_vc w (x_injected X n)));
  no_room : zsumf (λ w, nflits w (x_injected X n) - ncredits w (x_credited X n)) V ≤ ns_bsize S;
  no_credits : Forall (λ x, Forall (λ v, 0 ≤ v < V) (c_vc x)) (x_credits X n);
  no_returned : ∀ w, 0 ≤ w < V → ncredits w (x_credits X n) ≤ nflits w (x_ejected X n)
}.

Definition flit_chan nw c : FlitChannel := chan_at (nw_flits nw) c.
Definition credit_chan nw c : Channel Credit := chan_at (nw_credits nw) c.

(** A flit channel and the credit channel beside it, when flits and credits are on
    the way as [line] says. *)
Record chan_ok (line : ∀ {T : Type}, Z → Channel T → list T → list T → Prop) (now : Z) X nw c : Prop := {
  ck_flits : line now (fc_channel (flit_chan nw c)) (sent_on N X c) (got_on N X c);
  ck_credits : line now (credit_chan nw c) (credits_sent_on N X c) (credits_got_on N X c);
  ck_delay : 0 < ch_delay (fc_channel (flit_chan nw c)) ≤ ns_latency S;
  ck_credit_delay : 0 < ch_delay (credit_chan nw c) ≤ ns_latency S;
  ck_active : zlen (fc_active (flit_chan nw c)) = nc_classes N;
  ck_order : orderly (sent_on N X c)
}.

Definition well_shaped nw : Prop := fits N (nw_flits nw) ∧ fits N (nw_credits nw) ∧ zlen (nw_routers nw) = nrouters N.

(** Between cycles; [T r] are the moves of router [r]. *)
Record net_ok (now : Z) X (T : Z → list Move) nw : Prop := {
  nt_shape : well_shaped nw;
  nt_router : ∀ r, 0 ≤ r < nrouters N → tracks (E r) now (x_router X r) (T r) ((nw_routers nw)⟦r⟧);
  nt_chan : ∀ c, valid_chan N c → chan_ok (@resting) now X nw c;
  nt_node : ∀ n, 0 ≤ n < nc_nodes N → node_ok X n
}.

(** ** What a sender and a receiver promise *)

Record sender_ok (accept : Flit → Prop) (sent : list Flit) (credited : list Credit) : Prop := {
  sd_flits : Forall (λ f, 0 ≤ f_vc f < V ∧ flit_ok f ∧ (f_head f = true → accept f)) sent;
  sd_stream : ∀ w, is_Some (stream None (on_vc w sent));
  sd_room : zsumf (λ w, nflits w sent - ncredits w credited) V ≤ ns_bsize S
}.

Record receiver_ok (got : list Flit) (credits : list Credit) : Prop := {
  rc_credits : Forall (λ x, Forall (λ v, 0 ≤ v < V) (c_vc x)) credits;
  rc_returned : ∀ w, 0 ≤ w < V → ncredits w credits ≤ nflits w got
}.

Lemma input_range r i : input_at N r i ↔ 0 ≤ r < nrouters N ∧ 0 ≤ i < q_inputs (su_C (E r)).
Proof. unfold input_at. split; intros [Hr Hi]; destruct (ns_sizes S r Hr) as (_ & _ & _ & L & _); rewrite L in *; done. Qed.
Lemma output_range r o : output_at N r o ↔ 0 ≤ r < nrouters N ∧ 0 ≤ o < q_outputs (su_C (E r)).
Proof. unfold output_at. split; intros [Hr Ho]; destruct (ns_sizes S r Hr) as (_ & _ & _ & _ & L); rewrite L in *; done. Qed.

Lemma expected_at r i f : input_at N r i → expected (in_chan N r i) f → accepts (E r) f.
Proof.
  intros Hi. destruct (wd_input _ (ns_wired S) r i Hi) as (_ & Ht & _). unfold expected. destruct (in_chan N r i) eqn:Ec; try (by destruct Ht); intros Hx; by apply (Hx r i).
Qed.

Lemma net_sender now X T nw c : net_ok now X T nw → valid_chan N c → sender_ok (expected c) (sent_on N X c) (credits_got_on N X c).
Proof.
  intros HN Hv. destruct (decide (from_router c)) as [Hf|Hf].
  - destruct (wd_source _ (ns_wired S) c Hv Hf) as (r' & o & Ho & Ec). rewrite <- Ec. destruct (at_source N X r' o (ns_wired S) Ho) as [-> ->].
    pose proof Ho as [Hr Hoo]%output_range. pose proof (nt_router _ _ _ _ HN r' Hr) as HT. destruct (ns_sizes S r' Hr) as (Ev & _ & Es & _). split.
    + eapply Forall_impl; [by apply (tracks_flits (E r') now _ (T r') _ o HT)|]. intros f (Hw & Hok & Hp). rewrite <- Ev. split_and!; [apply Hw..|done|].
      intros Hh. specialize (Hp Hh). unfold expected. destruct (out_chan N r' o) eqn:Eo.
      * intros r i Hi Hc. eapply (ns_next S r' o r i); try done. congruence.
      * intros r i Hi Hc. eapply (ns_next S r' o r i); try done. congruence.
      * by eapply (ns_eject S r' o).
    + intros w. by eapply tracks_streams.
    + rewrite <- Ev, <- Es. by eapply tracks_outstanding.
  - destruct c as [k|n|d]; try (by destruct Hf). simpl in Hv. destruct (nt_node _ _ _ _ HN n Hv) as [H1 H2 H3 _ _]. by split.
Qed.

Lemma net_receiver now X T nw c : net_ok now X T nw → valid_chan N c → receiver_ok (got_on N X c) (credits_sent_on N X c).
Proof.
  intros HN Hv. destruct (decide (to_router c)) as [Ht|Ht].
  - destruct (wd_sink _ (ns_wired S) c Hv Ht) as (r' & i & Hi & Ec). rewrite <- Ec. destruct (at_sink N X r' i (ns_wired S) Hi) as [-> ->].
    pose proof Hi as [Hr Hii]%input_range. pose proof (nt_router _ _ _ _ HN r' Hr) as HT. destruct (ns_sizes S r' Hr) as (Ev & _). split.
    + rewrite <- Ev. by apply (tracks_credits (E r') now _ (T r') _ i HT).
    + intros w Hw. rewrite <- Ev in Hw. destruct (tracks_returned (E r') now _ (T r') _ i w HT (conj Hii Hw)). lia.
  - destruct c as [k|n|d]; try (by destruct Ht). simpl in Hv. destruct (nt_node _ _ _ _ HN d Hv) as [_ _ _ H4 H5]. by split.
Qed.
End inv.
