(* ===== verification/NetworkRun.v ===== *)
(** * Networks: a cycle

    [ReadInputs], [Evaluate] and [WriteOutputs] of a network, and what the nodes
    do in between, keep the invariant of [NetworkInv] and never fail. *)

From S2P Require Import Prelude StdMap OutputSet Flit VCBuffer BufferState BufferStateInv Credits Link Arbiter Allocator AllocLaws Rng KNCube Route SwitchAlloc IQRouter IQSwitch Wormhole RouterInv RouterQueues RouterStages RouterRoute RouterVCAlloc RouterSwitchAlloc RouterSend RouterSwitch RouterStep RouterRun RouterSpec RouterFlow Channel Network NetChannels NetworkInv.
Import CoreOps Credits Link NetworkOps.

Section run.
Context {VA SA PA : Type} `{Inhabited SA} (S : NetSetup VA SA PA).
Local Abbreviation N := (ns_N S).
Local Abbreviation E := (ns_E S).
Local Abbreviation V := (ns_vcs S).
Local Abbreviation Net := (Network VA SA PA).
Implicit Types (nw : Net) (X : NetHist) (c : chan_id).

(** ** What arrives *)

Definition arriving nw c : option Flit := ch_output (fc_channel (flit_chan nw c)).
Definition arriving_credit nw c : option Credit := ch_output (credit_chan nw c).
Definition flits_of nw (r : Z) : list (option Flit) := arriving nw <$> (nc_inputs N)⟦r⟧.
Definition credits_of nw (r : Z) : list (option Credit) := arriving_credit nw <$> (nc_outputs N)⟦r⟧.

Lemma flits_of_at nw r i : input_at N r i → (flits_of nw r)⟦i⟧ = arriving nw (in_chan N r i).
Proof. intros [_ Hi]. by apply znth_fmap. Qed.
Lemma credits_of_at nw r o : output_at N r o → (credits_of nw r)⟦o⟧ = arriving_credit nw (out_chan N r o).
Proof. intros [_ Ho]. by apply znth_fmap. Qed.

(** A sender's promise holds of a part of what it has sent. *)
Lemma sender_next accept s cg g cs f rest :
  sender_ok S accept s cg → s = g ++ f :: rest → (∃ k, cs = cg ++ k) →
  0 ≤ f_vc f < V ∧ flit_ok f ∧ (f_head f = true → accept f) ∧ zsumf (λ v, nflits v g - ncredits v cs) V < ns_bsize S ∧
  is_Some (stream None (on_vc (f_vc f) (g ++ [f]))).
Proof.
  intros [H1 H2 H3] -> [k ->]. rewrite Forall_forall in H1. destruct (H1 f) as (Hv & Hok & Ha); [apply elem_of_app; right; by left|]. split_and!; try done; try apply Hv.
  - eapply Z.lt_le_trans; [|exact H3]. apply (zsumf_lt _ _ _ (f_vc f)); [|done|].
    + intros w Hw. rewrite nflits_app, ncredits_app. pose proof (nflits_nonneg w (f :: rest)). pose proof (ncredits_nonneg w k). lia.
    + rewrite nflits_app, ncredits_app, nflits_cons, decide_True by done. pose proof (nflits_nonneg (f_vc f) rest). pose proof (ncredits_nonneg (f_vc f) k). lia.
  - destruct (H2 (f_vc f)) as [e He]. apply (stream_prefix None (on_vc (f_vc f) (g ++ [f])) (on_vc (f_vc f) rest) e).
    rewrite <- He. unfold on_vc. rewrite <- filter_app, <- app_assoc. done.
Qed.

Lemma receiver_next g cs s cg x rest :
  receiver_ok S g cs → cs = cg ++ x :: rest → (∃ k, s = g ++ k) →
  Forall (λ v, 0 ≤ v < V) (c_vc x) ∧ ∀ w, 0 ≤ w < V → ncredits w (cg ++ [x]) ≤ nflits w s.
Proof.
  intros [H1 H2] -> [k ->]. rewrite Forall_forall in H1. split; [apply H1; apply elem_of_app; right; by left|]. intros w Hw. specialize (H2 w Hw).
  rewrite nflits_app. pose proof (nflits_nonneg w k). rewrite !ncredits_app in *. unfold ncredits in *. rewrite fmap_cons in H2. cbn [zsum fmap list_fmap] in *.
  pose proof (ncredits_nonneg w rest). unfold ncredits in *. lia.
Qed.

Lemma resting_prefix {T : Type} now (ch : Channel T) s g : resting now ch s g → ∃ k, s = g ++ k.
Proof. intros (init & _ & _ & ->). by eexists. Qed.
Lemma resting_next {T : Type} now (ch : Channel T) s g x : resting now ch s g → ch_output ch = Some x → ∃ k, s = g ++ x :: k.
Proof. intros (init & _ & _ & ->) ->. by eexists. Qed.

Lemma net_env now X T nw r : net_ok S now X T nw → 0 ≤ r < nrouters N → env (E r) (x_router X r) (flits_of nw r) (credits_of nw r).
Proof.
  intros HN Hr. destruct (ns_sizes S r Hr) as (Ev & Eb & _ & Ei & Eo). split.
  - unfold flits_of. by rewrite zlen_fmap.
  - unfold credits_of. by rewrite zlen_fmap.
  - intros i f Hi Hf. assert (input_at N r i) as Hin by by apply input_range. rewrite flits_of_at in Hf by done.
    destruct (wd_input _ (ns_wired S) r i Hin) as (Hv & _). destruct (nt_chan _ _ _ _ _ HN _ Hv) as [C1 C2 _ _ _ _].
    destruct (at_sink N X r i (ns_wired S) Hin) as [Eg Ec]. destruct (resting_next _ _ _ _ _ C1 Hf) as [k Hk]. rewrite Eg in Hk.
    rewrite Ev, Eb. destruct (sender_next _ _ _ _ (h_credits (x_router X r) i) _ _ (net_sender S now X T nw _ HN Hv) Hk) as (K1 & K2 & K3 & K4 & K5);
      [rewrite <- Ec; by eapply resting_prefix|]. split_and!; try done; try apply K1. intros Hh. by apply (expected_at S r i), K3.
  - intros o x Ho Hx. assert (output_at N r o) as Hout by by apply output_range. rewrite credits_of_at in Hx by done.
    destruct (wd_output _ (ns_wired S) r o Hout) as (Hv & _). destruct (nt_chan _ _ _ _ _ HN _ Hv) as [C1 C2 _ _ _ _].
    destruct (at_source N X r o (ns_wired S) Hout) as [Es Ec]. destruct (resting_next _ _ _ _ _ C2 Hx) as [k Hk]. rewrite Ec in Hk.
    unfold credit_ok. rewrite Ev. eapply receiver_next; [by apply (net_receiver S now X T nw)|exact Hk|]. rewrite <- Es. by eapply resting_prefix.
Qed.

(** ** Reading inputs *)

(** The history with what arrives. *)
Definition read_hist nw X : NetHist :=
  mkNetHist (λ r, inputs_read (E r) (flits_of nw r) (credits_of nw r) (x_router X r)) (x_injected X)
    (λ n, x_credited X n ++ option_list (arriving_credit nw (Inject n)))
    (λ d, x_ejected X d ++ option_list (arriving nw (Eject d))) (x_credits X).

Lemma read_got nw X c : valid_chan N c → got_on N (read_hist nw X) c = got_on N X c ++ option_list (arriving nw c).
Proof.
  intros Hv. destruct (decide (to_router c)) as [Ht|Ht]; [|by destruct c].
  destruct (wd_sink _ (ns_wired S) c Hv Ht) as (r & i & Hi & <-). destruct (at_sink N X r i (ns_wired S) Hi) as [-> _].
  destruct (at_sink N (read_hist nw X) r i (ns_wired S) Hi) as [-> _]. simpl. unfold fapp. pose proof Hi as [Hr Hii]%input_range.
  by rewrite upto_in, flits_of_at by done.
Qed.

Lemma read_credits_got nw X c : valid_chan N c →
  credits_got_on N (read_hist nw X) c = credits_got_on N X c ++ option_list (arriving_credit nw c).
Proof.
  intros Hv. destruct (decide (from_router c)) as [Ht|Ht]; [|by destruct c].
  destruct (wd_source _ (ns_wired S) c Hv Ht) as (r & o & Ho & <-). destruct (at_source N X r o (ns_wired S) Ho) as [_ ->].
  destruct (at_source N (read_hist nw X) r o (ns_wired S) Ho) as [_ ->]. simpl. unfold fapp. pose proof Ho as [Hr Hoo]%output_range.
  by rewrite upto_in, credits_of_at by done.
Qed.

Lemma sent_same X X' c : (∀ r, h_sent (x_router X' r) = h_sent (x_router X r)) → x_injected X' = x_injected X → sent_on N X' c = sent_on N X c.
Proof. intros H1 H2. unfold sent_on. rewrite H2. destruct c; try done; destruct (GetSource N _) as [[r o]|]; try done; by rewrite H1. Qed.
Lemma credits_sent_same X X' c : (∀ r, h_credits (x_router X' r) = h_credits (x_router X r)) → x_credits X' = x_credits X →
  credits_sent_on N X' c = credits_sent_on N X c.
Proof. intros H1 H2. unfold credits_sent_on. rewrite H2. destruct c; try done; destruct (GetSink N _) as [[r o]|]; try done; by rewrite H1. Qed.
Lemma got_same X X' c : (∀ r, h_received (x_router X' r) = h_received (x_router X r)) → x_ejected X' = x_ejected X → got_on N X' c = got_on N X c.
Proof. intros H1 H2. unfold got_on. rewrite H2. destruct c; try done; destruct (GetSink N _) as [[r o]|]; try done; by rewrite H1. Qed.
Lemma credits_got_same X X' c : (∀ r, h_credited (x_router X' r) = h_credited (x_router X r)) → x_credited X' = x_credited X →
  credits_got_on N X' c = credits_got_on N X c.
Proof. intros H1 H2. unfold credits_got_on. rewrite H2. destruct c; try done; destruct (GetSource N _) as [[r o]|]; try done; by rewrite H1. Qed.

(** A router after [ReadInputs]. *)
Definition router_read (now : Z) (H1 : Hist) (r : Z) (T : list Move) (st : IQRouter VA SA PA) : Prop :=
  ∃ H0 flits credits, has_read (E r) now H0 T flits credits st ∧ H1 = inputs_read (E r) flits credits H0.

(** What has not been sent yet in this cycle. *)
Definition silent nw c : Prop := ch_input (fc_channel (flit_chan nw c)) = None.
Definition silent_credit nw c : Prop := ch_input (credit_chan nw c) = None.

Record net_read (now : Z) X (T : Z → list Move) nw : Prop := {
  nr_shape : well_shaped S nw;
  nr_router : ∀ r, 0 ≤ r < nrouters N → router_read now (x_router X r) r (T r) ((nw_routers nw)⟦r⟧);
  nr_chan : ∀ c, valid_chan N c → chan_ok S (@moving) now X nw c;
  nr_silent : ∀ c, valid_chan N c → (from_router c → silent nw c) ∧ (to_router c → silent_credit nw c)
}.

Lemma router_ports r : 0 ≤ r < nrouters N → vget (nc_inputs N) r = Ok ((nc_inputs N)⟦r⟧) ∧ vget (nc_outputs N) r = Ok ((nc_outputs N)⟦r⟧) ∧
  vget (nc_routers N) r = Ok (su_C (E r)) ∧ vget (nc_faults N) r = Ok (su_faults (E r)).
Proof.
  intros Hr. destruct (ns_code S r Hr) as (-> & -> & _). pose proof (wd_inputs _ (ns_wired S)). pose proof (wd_outputs _ (ns_wired S)).
  pose proof (wd_faults _ (ns_wired S)). unfold nrouters in *. split_and!; apply vget_ok; lia.
Qed.

Lemma each_eq {A B : Type} (f : A → res B) (h : A → B) l : (∀ x, x ∈ l → f x = Ok (h x)) → each f l = Ok (h <$> l).
Proof.
  induction l as [|x l IH]; intros Hf; [done|]. simpl. rewrite (Hf x) by by left. cbn [mbind res_bind].
  rewrite IH by (intros; apply Hf; by right). done.
Qed.

Lemma port_reads r c : 0 ≤ r < nrouters N → c ∈ (nc_inputs N)⟦r⟧ → ∃ i, input_at N r i ∧ in_chan N r i = c.
Proof.
  intros Hr Hc. apply list_elem_of_lookup in Hc as [i Hi]. pose proof (lookup_lt_Some _ _ _ Hi). exists (Z.of_nat i). split.
  - split; [done|]. unfold zlen. lia.
  - unfold in_chan, znth. rewrite Nat2Z.id. by apply list_lookup_total_correct.
Qed.
Lemma port_writes r c : 0 ≤ r < nrouters N → c ∈ (nc_outputs N)⟦r⟧ → ∃ o, output_at N r o ∧ out_chan N r o = c.
Proof.
  intros Hr Hc. apply list_elem_of_lookup in Hc as [i Hi]. pose proof (lookup_lt_Some _ _ _ Hi). exists (Z.of_nat i). split.
  - split; [done|]. unfold zlen. lia.
  - unfold out_chan, znth. rewrite Nat2Z.id. by apply list_lookup_total_correct.
Qed.

Lemma router_reads_ok now r (nw nw0 : Net) st T H0 : well_shaped S nw → 0 ≤ r < nrouters N → (nw_routers nw)⟦r⟧ = st →
  (∀ c, valid_chan N c → arriving nw c = arriving nw0 c ∧ arriving_credit nw c = arriving_credit nw0 c) →
  tracks (E r) now H0 T st → env (E r) H0 (flits_of nw0 r) (credits_of nw0 r) →
  returns (router_reads N now r nw) (λ nw', ∃ st', nw' = mkNetwork (nw_flits nw) (nw_credits nw) ((nw_routers nw)⟦r := st'⟧) ∧
    has_read (E r) now H0 T (flits_of nw0 r) (credits_of nw0 r) st').
Proof.
  intros (F1 & F2 & F3) Hr <- Harr HT Hen. unfold router_reads. destruct (router_ports r Hr) as (-> & -> & -> & _). cbn [mbind res_bind].
  rewrite (each_eq _ (arriving nw0)).
  2: { intros c (i & Hi & <-)%port_reads; [|done]. destruct (wd_input _ (ns_wired S) r i Hi) as (Hv & _).
    rewrite (get_chan_ok N) by done. cbn [mbind res_bind]. by rewrite <- (proj1 (Harr _ Hv)). }
  cbn [mbind res_bind]. rewrite (each_eq _ (arriving_credit nw0)).
  2: { intros c (o & Ho & <-)%port_writes; [|done]. destruct (wd_output _ (ns_wired S) r o Ho) as (Hv & _).
    rewrite (get_chan_ok N) by done. cbn [mbind res_bind]. by rewrite <- (proj2 (Harr _ Hv)). }
  cbn [mbind res_bind]. rewrite vget_ok by lia. cbn [mbind res_bind].
  eapply returns_bind; [by apply (read_phase (E r) now H0 T)|]. intros st' Hst. rewrite vset_ok by lia. cbn [mbind res_bind].
  apply returns_ok. by exists st'.
Qed.

(** All channels after [ReadInputs]. *)
Lemma channels_read now X T nw : net_ok S now X T nw → 0 ≤ now → now + ns_latency S ≤ int_max →
  returns (each_chan (λ fc, Ok (FlitChannelOps.ReadInputs fc now)) (nw_flits nw)) (λ fs,
  returns (each_chan (λ cc, Ok (ChannelOps.ReadInputs cc now)) (nw_credits nw)) (λ cs,
    let nw' := mkNetwork fs cs (nw_routers nw) in
    well_shaped S nw' ∧ ∀ c, valid_chan N c → chan_ok S (@moving) now (read_hist nw X) nw' c ∧ silent nw' c ∧ silent_credit nw' c ∧
      arriving nw' c = arriving nw c ∧ arriving_credit nw' c = arriving_credit nw c)).
Proof.
  intros [(F1 & F2 & F3) HR HC HN] Hnow Hmax.
  eapply returns_mono; [apply (each_chan_ok N (λ fc, Ok (FlitChannelOps.ReadInputs fc now)) (λ c fc, fc = FlitChannelOps.ReadInputs (flit_chan nw c) now)); [done|];
    intros c Hc; by apply returns_ok|].
  intros fs [G1 G2]. eapply returns_mono; [apply (each_chan_ok N (λ cc, Ok (ChannelOps.ReadInputs cc now)) (λ c cc, cc = ChannelOps.ReadInputs (credit_chan nw c) now)); [done|];
    intros c Hc; by apply returns_ok|].
  intros cs [K1 K2] nw'. split; [done|]. intros c Hc. destruct (HC c Hc) as [C1 C2 C3 C4 C5 C6].
  destruct (resting_read now _ _ _ C1 Hnow ltac:(lia)) as (M1 & M2 & M3 & M4). destruct (resting_read now _ _ _ C2 Hnow ltac:(lia)) as (L1 & L2 & L3 & L4).
  assert (flit_chan nw' c = FlitChannelOps.ReadInputs (flit_chan nw c) now) as E1 by by apply G2.
  assert (credit_chan nw' c = ChannelOps.ReadInputs (credit_chan nw c) now) as E2 by by apply K2.
  unfold silent, silent_credit, arriving, arriving_credit. rewrite E1, E2. simpl. split_and!; try done. split; rewrite ?E1, ?E2; simpl; try lia.
  - rewrite read_got by done. rewrite (sent_same X) by done. done.
  - rewrite read_credits_got by done. rewrite (credits_sent_same X) by done. done.
  - rewrite (sent_same X) by done. done.
Qed.


Lemma ReadInputs_net now X T nw : net_ok S now X T nw → 0 ≤ now → now + ns_latency S ≤ int_max →
  returns (ReadInputs N now nw) (λ nw', net_read now (read_hist nw X) T nw' ∧ ∀ c, valid_chan N c → silent nw' c ∧ silent_credit nw' c).
Proof.
  intros HN Hnow Hmax. unfold ReadInputs. eapply returns_bind; [by apply (channels_read now X T)|]. intros fs Hcs. eapply returns_bind; [exact Hcs|].
  intros cs [Hsh Hc]. set (nw1 := mkNetwork fs cs (nw_routers nw)) in *. pose proof HN as [_ HR _ _]. eapply returns_mono.
  - apply (returns_for (λ (k : Z) nw', well_shaped S nw' ∧ nw_flits nw' = fs ∧ nw_credits nw' = cs ∧
      (∀ r, 0 ≤ r < k → router_read now (x_router (read_hist nw X) r) r (T r) ((nw_routers nw')⟦r⟧)) ∧
      (∀ r, k ≤ r < nrouters N → (nw_routers nw')⟦r⟧ = (nw_routers nw)⟦r⟧))); [apply zlen_nonneg|split_and!; try done; lia|].
    intros r nw' Hr (S1 & Ef & Ec & D1 & D2). fold (nrouters N) in Hr. eapply returns_mono.
    + apply (router_reads_ok now r nw' nw ((nw_routers nw)⟦r⟧) (T r) (x_router X r)); try done; [apply D2; lia| |by apply HR|by apply (net_env now X T)].
      intros c Hv. destruct (Hc c Hv) as (_ & _ & _ & A1 & A2). unfold arriving, arriving_credit, flit_chan, credit_chan in *. rewrite Ef, Ec. done.
    + intros nw2 (st' & -> & Hst). destruct S1 as (S1 & S2 & S3). split_and!; simpl; try done.
      * split_and!; simpl; [done..|lens].
      * intros r' Hr'. rewrite znth_zupd by (fold (nrouters N); lia). case_decide; [subst r'|apply D1; lia]. by eexists _, _, _.
      * intros r' Hr'. rewrite znth_zupd_ne by lia. apply D2. lia.
  - fold (nrouters N). intros nw' (S1 & Ef & Ec & D1 & _). assert (∀ c, flit_chan nw' c = flit_chan nw1 c ∧ credit_chan nw' c = credit_chan nw1 c) as Hsame
      by (intros c; unfold flit_chan, credit_chan; by rewrite Ef, Ec).
    split.
    + split; try done.
      * intros c Hv. destruct (Hc c Hv) as ([C1 C2 C3 C4 C5 C6] & _). destruct (Hsame c) as [E1 E2]. split; rewrite ?E1, ?E2; done.
      * intros c Hv. destruct (Hc c Hv) as (_ & Q1 & Q2 & _). destruct (Hsame c) as [E1 E2]. unfold silent, silent_credit. by rewrite E1, E2.
    + intros c Hv. destruct (Hc c Hv) as (_ & Q1 & Q2 & _). destruct (Hsame c) as [E1 E2]. unfold silent, silent_credit. by rewrite E1, E2.
Qed.

(** ** Evaluation *)

Lemma sink_of c r i : valid_chan N c → GetSink N c = Some (r, i) → input_at N r i ∧ in_chan N r i = c.
Proof.
  intros Hv Hs. destruct (decide (to_router c)) as [Ht|Ht].
  - destruct (wd_sink _ (ns_wired S) c Hv Ht) as (r' & i' & Hi & <-). destruct (wd_input _ (ns_wired S) r' i' Hi) as (_ & _ & Hs').
    rewrite Hs in Hs'. by injection Hs' as <- <-.
  - destruct c as [k|n|d]; try (by destruct Ht). by rewrite (wd_eject _ (ns_wired S)) in Hs.
Qed.

Definition sized nw : Prop := ∀ r, 0 ≤ r < nrouters N → zlen (iq_next_buf ((nw_routers nw)⟦r⟧)) = q_outputs (su_C (E r)).

(** The router a channel leads to, as a routing function sees it. *)
Definition sink_view nw c : option Sink :=
  match GetSink N c with
  | None => None
  | Some (r, i) => Some (mkSink (IQRouterOps.view (su_C (E r)) (su_faults (E r)) ((nw_routers nw)⟦r⟧)) i (q_outputs (su_C (E r))))
  end.

Lemma sink_at_ok nw c : well_shaped S nw → valid_chan N c → sink_at N nw c = Ok (sink_view nw c).
Proof.
  intros (_ & _ & F3) Hv. unfold sink_at, sink_view. destruct (GetSink N c) as [[r i]|] eqn:Es; [|done]. destruct (sink_of _ _ _ Hv Es) as [[Hr _] _].
  destruct (router_ports r Hr) as (_ & _ & -> & ->). cbn [mbind res_bind]. by rewrite vget_ok by (rewrite F3; done).
Qed.

Lemma sinks_net nw r : well_shaped S nw → sized nw → 0 ≤ r < nrouters N → returns (each (sink_at N nw) ((nc_outputs N)⟦r⟧)) (sinks_ok (E r)).
Proof.
  intros HW Hz Hr. destruct (ns_sizes S r Hr) as (_ & _ & _ & _ & Eo). eapply returns_mono.
  - apply (each_at (sink_at N nw) (λ o s, s = sink_view nw (out_chan N r o))).
    intros o Ho. fold (out_chan N r o). destruct (wd_output _ (ns_wired S) r o (conj Hr Ho)) as (Hv & _). rewrite sink_at_ok by done. by apply returns_ok.
  - intros sinks [Hl Hs]. rewrite Eo in Hl, Hs. split; [done|]. intros Hrd o f Ho Hlv. rewrite Hs by done. pose proof (proj2 (output_range S r o) (conj Hr Ho)) as Hout.
    pose proof (ns_lookahead S r o f Hout Hrd Hlv) as Hla. unfold sink_view. destruct (GetSink N (out_chan N r o)) as [[r' i]|] eqn:Es; [|done]. intros g Hg. simpl.
    destruct (ns_code S r Hr) as (_ & _ & _ & _ & _ & ->). unfold IQRouterOps.view. apply Hla; [|done]. rewrite zlen_fmap. apply Hz.
    destruct (wd_output _ (ns_wired S) r o Hout) as (Hv & _). by destruct (sink_of _ _ _ Hv Es) as [[? _] _].
Qed.

Record net_done (now : Z) X (T : Z → list Move) nw : Prop := {
  nd_shape : well_shaped S nw;
  nd_router : ∀ r, 0 ≤ r < nrouters N → tracks (E r) (now + 1) (x_router X r) (T r) ((nw_routers nw)⟦r⟧);
  nd_chan : ∀ c, valid_chan N c → chan_ok S (@moving) now X nw c;
  nd_silent : ∀ c, valid_chan N c → (from_router c → silent nw c) ∧ (to_router c → silent_credit nw c)
}.

Lemma read_sized now H1 r T st : router_read now H1 r T st → zlen (iq_next_buf st) = q_outputs (su_C (E r)).
Proof. intros (H0 & fl & cr & HR & _). apply (in_nexts _ _ _ _ (hr_inv _ _ _ _ _ _ _ HR)). Qed.
Lemma tracks_sized now H1 r T st : tracks (E r) now H1 T st → zlen (iq_next_buf st) = q_outputs (su_C (E r)).
Proof. intros [(HI & _) _ _]. apply (in_nexts _ _ _ _ HI). Qed.

Lemma Evaluate_net now X T nw g : net_read now X T nw → 0 ≤ now ≤ int_max → RngInv.rng_ok g →
  returns (Evaluate (ns_IV S) (ns_IS S) (ns_IP S) (ns_rf S) N now (nw, g)) (λ '(nw', g'), RngInv.rng_ok g' ∧
    nw_flits nw' = nw_flits nw ∧ nw_credits nw' = nw_credits nw ∧ ∃ T', net_done now X T' nw').
Proof.
  intros [Hsh HR HC HS] Hnow Hg. unfold Evaluate. eapply returns_mono.
  - apply (returns_for (λ (k : Z) (s : Net * Rng), RngInv.rng_ok s.2 ∧ well_shaped S s.1 ∧ nw_flits s.1 = nw_flits nw ∧ nw_credits s.1 = nw_credits nw ∧
      (∃ T', ∀ r, 0 ≤ r < k → tracks (E r) (now + 1) (x_router X r) (T' r) ((nw_routers s.1)⟦r⟧)) ∧
      (∀ r, k ≤ r < nrouters N → (nw_routers s.1)⟦r⟧ = (nw_routers nw)⟦r⟧))); [apply zlen_nonneg|split_and!; try done; exists T; lia|].
    intros r [nw1 g1] Hr (Hg1 & Hsh1 & Ef & Ec & [T' D1] & D2). simpl in *. fold (nrouters N) in Hr.
    destruct (router_ports r Hr) as (_ & -> & -> & ->). cbn [mbind res_bind].
    eapply returns_bind; [apply (sinks_net nw1 r Hsh1); [|done]|].
    { intros r' Hr'. destruct (decide (r' < r)) as [Hlt|Hge]; [by eapply tracks_sized, D1; lia|]. rewrite D2 by lia. by eapply read_sized, HR. }
    intros sinks Hsk. pose proof Hsh1 as (F1 & F2 & F3). rewrite vget_ok by lia. cbn [mbind res_bind]. rewrite D2 by lia.
    destruct (HR r Hr) as (H0 & fl & cr & Hrd & EX). destruct (ns_code S r Hr) as (_ & _ & <- & <- & <- & <-).
    eapply returns_bind; [apply (evaluate_phase (E r) sinks now H0 (T r) fl cr); [done..|by apply has_read_rng]|].
    intros st' (k & HT'). rewrite vset_ok by lia. cbn [mbind res_bind]. apply returns_ok. simpl. split_and!; try done.
    + by eapply tracks_rng.
    + split_and!; simpl; [done..|lens].
    + exists (λ r', if decide (r' = r) then T r ++ k else T' r'). intros r' Hr'. rewrite znth_zupd by lia. destruct (decide (r' = r)) as [->|].
      * by rewrite EX, decide_True.
      * rewrite decide_False by done. apply D1. lia.
    + intros r' Hr'. rewrite znth_zupd_ne by lia. apply D2. lia.
  - fold (nrouters N). intros [nw' g'] (Hg' & Hsh' & Ef & Ec & [T' D1] & _). simpl in *. split_and!; try done. exists T'.
    assert (∀ c, flit_chan nw' c = flit_chan nw c ∧ credit_chan nw' c = credit_chan nw c) as Hsame by (intros c; unfold flit_chan, credit_chan; by rewrite Ef, Ec).
    split; try done.
    + intros c Hv. destruct (HC c Hv) as [C1 C2 C3 C4 C5 C6]. destruct (Hsame c) as [E1 E2]. split; rewrite ?E1, ?E2; done.
    + intros c Hv. destruct (Hsame c) as [E1 E2]. unfold silent, silent_credit. rewrite E1, E2. by apply HS.
Qed.

(** ** Writing outputs *)

Lemma channels_write now X T nw : net_done now X T nw →
  returns (each_chan (λ fc, FlitChannelOps.WriteOutputs fc now) (nw_flits nw)) (λ fs,
  returns (each_chan (λ cc, ChannelOps.WriteOutputs cc now) (nw_credits nw)) (λ cs,
    let nw' := mkNetwork fs cs (nw_routers nw) in
    well_shaped S nw' ∧ ∀ c, valid_chan N c → chan_ok S (@resting) (now + 1) X nw' c ∧ (silent nw c → silent nw' c) ∧ (silent_credit nw c → silent_credit nw' c))).
Proof.
  intros [(F1 & F2 & F3) HR HC HS].
  eapply returns_mono; [apply (each_chan_ok N (λ fc, FlitChannelOps.WriteOutputs fc now) (λ c fc,
    resting (now + 1) (fc_channel fc) (sent_on N X c) (got_on N X c) ∧ ch_input (fc_channel fc) = ch_input (fc_channel (flit_chan nw c)) ∧
    ch_delay (fc_channel fc) = ch_delay (fc_channel (flit_chan nw c)) ∧ fc_active fc = fc_active (flit_chan nw c))); [done|]|].
  { intros c Hc. destruct (HC c Hc) as [C1 C2 C3 C4 C5 C6]. unfold FlitChannelOps.WriteOutputs. eapply returns_bind; [apply (moving_write now _ _ _ C1), C3|].
    intros ch (Q1 & Q2 & Q3). by apply returns_ok. }
  intros fs [G1 G2]. eapply returns_mono; [apply (each_chan_ok N (λ cc, ChannelOps.WriteOutputs cc now) (λ c cc,
    resting (now + 1) cc (credits_sent_on N X c) (credits_got_on N X c) ∧ ch_input cc = ch_input (credit_chan nw c) ∧ ch_delay cc = ch_delay (credit_chan nw c))); [done|]|].
  { intros c Hc. destruct (HC c Hc) as [C1 C2 C3 C4 C5 C6]. apply (moving_write now _ _ _ C2), C4. }
  intros cs [K1 K2] nw'. split; [done|]. intros c Hc. destruct (HC c Hc) as [C1 C2 C3 C4 C5 C6].
  destruct (G2 c Hc) as (A1 & A2 & A3 & A4). destruct (K2 c Hc) as (B1 & B2 & B3). unfold silent, silent_credit, flit_chan, credit_chan in *. simpl.
  rewrite A2, B2. split_and!; try done. split; simpl; try done; unfold flit_chan, credit_chan; simpl; [by rewrite A3|by rewrite B3|by rewrite A4].
Qed.

(** The history with what router [r] sends. *)
Definition written (r : Z) (H' : Hist) X : NetHist :=
  mkNetHist (λ r', if decide (r' = r) then H' else x_router X r') (x_injected X) (x_credited X) (x_ejected X) (x_credits X).

Lemma written_router r H' X r' : x_router (written r H' X) r' = if decide (r' = r) then H' else x_router X r'.
Proof. done. Qed.

Lemma source_of c r o : valid_chan N c → GetSource N c = Some (r, o) → from_router c → output_at N r o ∧ out_chan N r o = c.
Proof.
  intros Hv Hs Hf. destruct (wd_source _ (ns_wired S) c Hv Hf) as (r' & o' & Ho & <-). destruct (wd_output _ (ns_wired S) r' o' Ho) as (_ & _ & Hs').
  rewrite Hs in Hs'. by injection Hs' as <- <-.
Qed.

(** Channels of other routers. *)
Lemma written_sent_other r H' X c : valid_chan N c → c ∉ (nc_outputs N)⟦r⟧ → sent_on N (written r H' X) c = sent_on N X c.
Proof.
  intros Hv Hn. destruct (decide (from_router c)) as [Hf|Hf]; [|by destruct c]. destruct (wd_source _ (ns_wired S) c Hv Hf) as (r' & o & Ho & <-).
  destruct (at_source N X r' o (ns_wired S) Ho) as [-> _]. destruct (at_source N (written r H' X) r' o (ns_wired S) Ho) as [-> _]. rewrite written_router, decide_False; [done|].
  intros ->. apply Hn. unfold out_chan, znth at 1. apply list_elem_of_lookup_total_2. destruct Ho as [_ Ho]. unfold zlen in Ho. lia.
Qed.
Lemma written_credits_other r H' X c : valid_chan N c → c ∉ (nc_inputs N)⟦r⟧ → credits_sent_on N (written r H' X) c = credits_sent_on N X c.
Proof.
  intros Hv Hn. destruct (decide (to_router c)) as [Hf|Hf]; [|by destruct c]. destruct (wd_sink _ (ns_wired S) c Hv Hf) as (r' & i & Hi & <-).
  destruct (at_sink N X r' i (ns_wired S) Hi) as [_ ->]. destruct (at_sink N (written r H' X) r' i (ns_wired S) Hi) as [_ ->]. rewrite written_router, decide_False; [done|].
  intros ->. apply Hn. unfold in_chan, znth at 1. apply list_elem_of_lookup_total_2. destruct Hi as [_ Hi]. unfold zlen in Hi. lia.
Qed.

(** While the routers write: those from [k] on have not. *)
Record writing (k now : Z) X (T : Z → list Move) nw : Prop := {
  wr_shape : well_shaped S nw;
  wr_router : ∀ r, 0 ≤ r < nrouters N → tracks (E r) now (x_router X r) (T r) ((nw_routers nw)⟦r⟧);
  wr_chan : ∀ c, valid_chan N c → chan_ok S (@resting) now X nw c;
  wr_silent : ∀ r o, k ≤ r → output_at N r o → silent nw (out_chan N r o);
  wr_silent_credit : ∀ r i, k ≤ r → input_at N r i → silent_credit nw (in_chan N r i)
}.

Lemma outputs_inj r o r' o' : output_at N r o → output_at N r' o' → out_chan N r o = out_chan N r' o' → r = r' ∧ o = o'.
Proof.
  intros H1 H2 Hc. destruct (wd_output _ (ns_wired S) r o H1) as (_ & _ & S1). destruct (wd_output _ (ns_wired S) r' o' H2) as (_ & _ & S2).
  rewrite Hc, S2 in S1. by injection S1.
Qed.
Lemma inputs_inj r i r' i' : input_at N r i → input_at N r' i' → in_chan N r i = in_chan N r' i' → r = r' ∧ i = i'.
Proof.
  intros H1 H2 Hc. destruct (wd_input _ (ns_wired S) r i H1) as (_ & _ & S1). destruct (wd_input _ (ns_wired S) r' i' H2) as (_ & _ & S2).
  rewrite Hc, S2 in S1. by injection S1.
Qed.

Lemma channel_flit_ok fs c f : fits N fs → valid_chan N c → zlen (fc_active (chan_at fs c)) = nc_classes N → in_class S f →
  returns (send_flit fs c f) (λ fs', fits N fs' ∧ ∀ c', valid_chan N c' → if decide (c' = c)
    then fc_channel (chan_at fs' c') = ChannelOps.Send (fc_channel (chan_at fs c)) (Some f) ∧ zlen (fc_active (chan_at fs' c')) = nc_classes N
    else chan_at fs' c' = chan_at fs c').
Proof.
  intros Hf Hv Ha Hcl. unfold send_flit, FlitChannelOps.Send, in_class in *. rewrite (get_chan_ok N) by done. cbn [mbind res_bind].
  rewrite vget_ok by lia. cbn [mbind res_bind]. rewrite vset_ok by lia. cbn [mbind res_bind].
  eapply returns_mono; [by apply (put_chan_ok N)|]. intros fs' [F1 F2]. split; [done|]. intros c' Hc'. rewrite F2 by done.
  destruct (decide (c' = c)) as [->|]; [|done]. simpl. split; [done|lens].
Qed.

Lemma channel_credit_ok cs c x : fits N cs → valid_chan N c →
  returns (send_credit cs c x) (λ cs', fits N cs' ∧ ∀ c', valid_chan N c' → if decide (c' = c)
    then chan_at cs' c' = ChannelOps.Send (chan_at cs c) (Some x) else chan_at cs' c' = chan_at cs c').
Proof.
  intros Hf Hv. unfold send_credit. rewrite (get_chan_ok N) by done. cbn [mbind res_bind].
  eapply returns_mono; [by apply (put_chan_ok N)|]. intros fs' [F1 F2]. split; [done|]. intros c' Hc'. rewrite F2 by done.
  by destruct (decide (c' = c)) as [->|].
Qed.

(** The flits of a router's outputs, on their channels. *)
Lemma send_flits_ok now X T nw r sent : writing r now X T nw → 0 ≤ r < nrouters N → zlen sent = zlen ((nc_outputs N)⟦r⟧) →
  (∀ o f, output_at N r o → sent⟦o⟧ = Some f → in_class S f) →
  returns (send_all send_flit ((nc_outputs N)⟦r⟧) sent (nw_flits nw)) (λ fs, fits N fs ∧
    (∀ o, output_at N r o → let c := out_chan N r o in zlen (fc_active (chan_at fs c)) = nc_classes N ∧
       fc_channel (chan_at fs c) = match sent⟦o⟧ with Some f => ChannelOps.Send (fc_channel (flit_chan nw c)) (Some f) | None => fc_channel (flit_chan nw c) end) ∧
    (∀ c, valid_chan N c → c ∉ (nc_outputs N)⟦r⟧ → chan_at fs c = flit_chan nw c)).
Proof.
  intros HW Hr Hlen Hcl. pose proof (wr_shape _ _ _ _ _ HW) as (F1 & _).
  eapply returns_mono; [apply (send_all_ok N send_flit (λ f fc fc', zlen (fc_active fc') = nc_classes N ∧ fc_channel fc' = ChannelOps.Send (fc_channel fc) (Some f))); try done|].
  - intros o Ho. by apply (wd_output _ (ns_wired S) r o).
  - intros o o' Ho Ho' Hc. by apply (outputs_inj r o r o').
  - intros fs' o f Ho Hf Hfit Hsame. pose proof (wd_output _ (ns_wired S) r o (conj Hr Ho)) as (Hv & _). fold (out_chan N r o) in *.
    eapply returns_mono; [apply channel_flit_ok; [done|done|rewrite Hsame; apply (wr_chan _ _ _ _ _ HW _ Hv)|by apply (Hcl o)]|].
    intros fs2 [G1 G2]. split; [done|]. intros c Hc. specialize (G2 c Hc). destruct (decide (c = out_chan N r o)) as [->|]; [|done]. rewrite Hsame in G2. by destruct G2.
  - intros fs (G1 & G2 & G3). split_and!; try done. intros o Ho. specialize (G2 o (proj2 Ho)). fold (out_chan N r o) in G2. simpl.
    destruct (sent⟦o⟧) as [f|]; [done|]. unfold flit_chan. rewrite G2. split; [|done]. pose proof (wd_output _ (ns_wired S) r o Ho) as (Hv & _).
    apply (wr_chan _ _ _ _ _ HW _ Hv).
Qed.

Lemma send_credits_ok now X T nw r ret : writing r now X T nw → 0 ≤ r < nrouters N → zlen ret = zlen ((nc_inputs N)⟦r⟧) →
  returns (send_all send_credit ((nc_inputs N)⟦r⟧) ret (nw_credits nw)) (λ cs, fits N cs ∧
    (∀ i, input_at N r i → let c := in_chan N r i in
       chan_at cs c = match ret⟦i⟧ with Some x => ChannelOps.Send (credit_chan nw c) (Some x) | None => credit_chan nw c end) ∧
    (∀ c, valid_chan N c → c ∉ (nc_inputs N)⟦r⟧ → chan_at cs c = credit_chan nw c)).
Proof.
  intros HW Hr Hlen. pose proof (wr_shape _ _ _ _ _ HW) as (_ & F2 & _).
  eapply returns_mono; [apply (send_all_ok N send_credit (λ x cc cc', cc' = ChannelOps.Send cc (Some x))); try done|].
  - intros i Hi. by apply (wd_input _ (ns_wired S) r i).
  - intros i i' Hi Hi' Hc. by apply (inputs_inj r i r i').
  - intros cs' i x Hi Hx Hfit Hsame. pose proof (wd_input _ (ns_wired S) r i (conj Hr Hi)) as (Hv & _). fold (in_chan N r i) in *.
    eapply returns_mono; [by apply channel_credit_ok|].
    intros fs2 [G1 G2]. split; [done|]. intros c Hc. specialize (G2 c Hc). destruct (decide (c = in_chan N r i)) as [->|]; [|done]. by rewrite G2, Hsame.
  - intros cs (G1 & G2 & G3). split_and!; try done. intros i Hi. specialize (G2 i (proj2 Hi)). fold (in_chan N r i) in G2. simpl. by destruct (ret⟦i⟧).
Qed.

(** What a router sends is in order. *)
Lemma router_orderly k now X T nw r H' : writing k now X T nw → 0 ≤ r < nrouters N → ∀ st, tracks (E r) now H' (T r) st →
  h_received H' = h_received (x_router X r) → ∀ o, output_at N r o → orderly S (h_sent H' o).
Proof.
  intros HW Hr st HT Hrec o [_ Ho]%output_range.
  assert (∀ i, 0 ≤ i < q_inputs (su_C (E r)) → orderly S (h_received H' i)) as Hin.
  { intros i Hi. rewrite Hrec. assert (input_at N r i) as Hin by by apply input_range. destruct (at_sink N X r i (ns_wired S) Hin) as [<- _].
    destruct (wd_input _ (ns_wired S) r i Hin) as (Hv & _). destruct (wr_chan _ _ _ _ _ HW _ Hv) as [C1 _ _ _ _ C6].
    destruct (resting_prefix _ _ _ _ C1) as [j Hj]. rewrite Hj in C6. by eapply orderly_prefix. }
  split.
  - apply (tracks_same (E r) (λ f, 0 ≤ f_cl f < nc_classes N) now H' (T r) st HT); [|done]. intros i Hi. apply (Hin i Hi).
  - intros w. apply (tracks_adjacent (E r) next_id now H' (T r) st HT); [|done]. intros i v Hi _. apply (Hin i Hi).
Qed.

Section write.
Context (now r : Z) (X : NetHist) (T : Z → list Move) (nw : Net) (sent : list (option Flit)) (ret : list (option Credit)).
Context (fs : Channels FlitChannel) (cs : Channels (Channel Credit)) (st' : IQRouter VA SA PA).
Context (HW : writing r now X T nw) (Hr : 0 ≤ r < nrouters N).
Local Abbreviation H' := (outputs_written (E r) sent ret (x_router X r)).
Local Abbreviation X' := (written r H' X).
Local Abbreviation nw' := (mkNetwork fs cs ((nw_routers nw)⟦r := st'⟧)).
Context (HT : tracks (E r) now H' (T r) st').
Context (Hfs : ∀ o, output_at N r o → let c := out_chan N r o in zlen (fc_active (chan_at fs c)) = nc_classes N ∧
  fc_channel (chan_at fs c) = match sent⟦o⟧ with Some f => ChannelOps.Send (fc_channel (flit_chan nw c)) (Some f) | None => fc_channel (flit_chan nw c) end).
Context (Hfs' : ∀ c, valid_chan N c → c ∉ (nc_outputs N)⟦r⟧ → chan_at fs c = flit_chan nw c).
Context (Hcs : ∀ i, input_at N r i → let c := in_chan N r i in
  chan_at cs c = match ret⟦i⟧ with Some x => ChannelOps.Send (credit_chan nw c) (Some x) | None => credit_chan nw c end).
Context (Hcs' : ∀ c, valid_chan N c → c ∉ (nc_inputs N)⟦r⟧ → chan_at cs c = credit_chan nw c).

Lemma written_sent o : output_at N r o → sent_on N X' (out_chan N r o) = sent_on N X (out_chan N r o) ++ option_list (sent⟦o⟧).
Proof.
  intros Ho. destruct (at_source N X r o (ns_wired S) Ho) as [-> _]. destruct (at_source N X' r o (ns_wired S) Ho) as [-> _].
  rewrite written_router, decide_True by done. simpl. unfold fapp. pose proof Ho as [_ Hoo]%output_range. by rewrite upto_in.
Qed.
Lemma written_credits i : input_at N r i → credits_sent_on N X' (in_chan N r i) = credits_sent_on N X (in_chan N r i) ++ option_list (ret⟦i⟧).
Proof.
  intros Hi. destruct (at_sink N X r i (ns_wired S) Hi) as [_ ->]. destruct (at_sink N X' r i (ns_wired S) Hi) as [_ ->].
  rewrite written_router, decide_True by done. simpl. unfold fapp. pose proof Hi as [_ Hii]%input_range. by rewrite upto_in.
Qed.

Lemma written_got c : got_on N X' c = got_on N X c ∧ credits_got_on N X' c = credits_got_on N X c.
Proof. split; [apply got_same|apply credits_got_same]; try done; intros r'; rewrite written_router; by case_decide as Hd; [rewrite Hd|]. Qed.

Lemma written_flits c : valid_chan N c → let fc := flit_chan nw' c in
  resting now (fc_channel fc) (sent_on N X' c) (got_on N X' c) ∧ ch_delay (fc_channel fc) = ch_delay (fc_channel (flit_chan nw c)) ∧
  zlen (fc_active fc) = nc_classes N ∧ orderly S (sent_on N X' c).
Proof.
  intros Hv fc. destruct (written_got c) as [-> _]. destruct (wr_chan _ _ _ _ _ HW c Hv) as [C1 C2 C3 C4 C5 C6].
  destruct (decide (c ∈ (nc_outputs N)⟦r⟧)) as [Hc|Hc].
  - apply port_writes in Hc as (o & Ho & <-); [|done]. destruct (Hfs o Ho) as [L1 L2]. unfold fc, flit_chan at 1 2 4. simpl.
    assert (orderly S (sent_on N X' (out_chan N r o))) as Hcl.
    { destruct (at_source N X' r o (ns_wired S) Ho) as [-> _]. rewrite written_router, decide_True by done. by apply (router_orderly r now X T nw r H' HW Hr st'). }
    rewrite L2. split_and!; try done; [|by destruct (sent⟦o⟧)]. rewrite written_sent by done.
    pose proof (wr_silent _ _ _ _ _ HW r o ltac:(lia) Ho) as Hsil. destruct (sent⟦o⟧) as [f|]; simpl; [by apply resting_send|by rewrite app_nil_r].
  - unfold fc, flit_chan at 1 2 4. simpl. rewrite Hfs' by done. rewrite written_sent_other by done. done.
Qed.

Lemma written_credit_chan c : valid_chan N c → let cc := credit_chan nw' c in
  resting now cc (credits_sent_on N X' c) (credits_got_on N X' c) ∧ ch_delay cc = ch_delay (credit_chan nw c).
Proof.
  intros Hv cc. destruct (written_got c) as [_ ->]. destruct (wr_chan _ _ _ _ _ HW c Hv) as [C1 C2 C3 C4 C5 C6].
  destruct (decide (c ∈ (nc_inputs N)⟦r⟧)) as [Hc|Hc].
  - apply port_reads in Hc as (i & Hi & <-); [|done]. unfold cc, credit_chan at 1 2. simpl. rewrite (Hcs i Hi). split; [|by destruct (ret⟦i⟧)].
    rewrite written_credits by done. pose proof (wr_silent_credit _ _ _ _ _ HW r i ltac:(lia) Hi) as Hsil.
    destruct (ret⟦i⟧) as [x|]; simpl; [by apply resting_send|by rewrite app_nil_r].
  - unfold cc, credit_chan at 1 2. simpl. rewrite Hcs' by done. rewrite written_credits_other by done. done.
Qed.

Lemma write_one : fits N fs → fits N cs → writing (r + 1) now X' T nw'.
Proof.
  intros F1 F2. pose proof (wr_shape _ _ _ _ _ HW) as (_ & _ & F3). split.
  - split_and!; simpl; [done..|lens].
  - intros r' Hr'. rewrite written_router. simpl. rewrite znth_zupd by lia. destruct (decide (r' = r)) as [->|Hne]; [by rewrite decide_True|].
    rewrite decide_False by done. by apply HW.
  - intros c Hv. destruct (written_flits c Hv) as (A1 & A2 & A3 & A4). destruct (written_credit_chan c Hv) as (B1 & B2).
    destruct (wr_chan _ _ _ _ _ HW c Hv) as [C1 C2 C3 C4 C5 C6]. split; try done; [by rewrite A2|by rewrite B2].
  - intros r' o Hr' Ho. destruct (wd_output _ (ns_wired S) r' o Ho) as (Hv & _). unfold silent, flit_chan. simpl. rewrite Hfs'; [apply (wr_silent _ _ _ _ _ HW r' o ltac:(lia) Ho)|done|].
    intros (o' & Ho' & Hc)%port_writes; [|done]. apply outputs_inj in Hc as [? _]; [lia|done..].
  - intros r' i Hr' Hi. destruct (wd_input _ (ns_wired S) r' i Hi) as (Hv & _). unfold silent_credit, credit_chan. simpl.
    rewrite Hcs'; [apply (wr_silent_credit _ _ _ _ _ HW r' i ltac:(lia) Hi)|done|].
    intros (i' & Hi' & Hc)%port_reads; [|done]. apply inputs_inj in Hc as [? _]; [lia|done..].
Qed.
End write.

Definition same_nodes X X' : Prop := x_injected X' = x_injected X ∧ x_credited X' = x_credited X ∧ x_ejected X' = x_ejected X ∧ x_credits X' = x_credits X.

Lemma router_writes_ok now r X T nw : writing r now X T nw → 0 ≤ r < nrouters N →
  returns (router_writes N r nw) (λ nw', ∃ X', writing (r + 1) now X' T nw' ∧ same_nodes X X').
Proof.
  intros HW Hr. unfold router_writes. destruct (router_ports r Hr) as (-> & -> & -> & _). cbn [mbind res_bind]. pose proof (wr_shape _ _ _ _ _ HW) as (_ & _ & F3).
  rewrite vget_ok by lia. cbn [mbind res_bind]. destruct (ns_sizes S r Hr) as (_ & _ & _ & Ei & Eo).
  eapply returns_bind; [apply (write_phase (E r) now (x_router X r) (T r)); by apply HW|]. intros [[sent ret] st'] (L1 & L2 & HT).
  eapply returns_bind; [apply (send_flits_ok now X T nw r sent HW Hr); [congruence|]|].
  { intros o f Ho Hf. pose proof (router_orderly r now X T nw r _ HW Hr st' HT eq_refl o Ho) as [Hcl _]. simpl in Hcl. unfold fapp in Hcl.
    pose proof Ho as [_ Hoo]%output_range. rewrite upto_in, Hf in Hcl by done. by apply Forall_app in Hcl as [_ [Hcl _]%Forall_cons]. }
  intros fs (G1 & G2 & G3). eapply returns_bind; [apply (send_credits_ok now X T nw r ret HW Hr); congruence|]. intros cs (K1 & K2 & K3).
  rewrite vset_ok by lia. cbn [mbind res_bind]. apply returns_ok. eexists. split; [by apply (write_one now r X T nw sent ret)|done].
Qed.

Lemma WriteOutputs_net now X T nw : net_done now X T nw → (∀ n, 0 ≤ n < nc_nodes N → node_ok S X n) →
  returns (WriteOutputs N now nw) (λ nw', ∃ X', net_ok S (now + 1) X' T nw' ∧ same_nodes X X').
Proof.
  intros HD Hnd. unfold WriteOutputs. eapply returns_bind; [by apply (channels_write now X T)|]. intros fs Hcs. eapply returns_bind; [exact Hcs|].
  intros cs [Hsh Hc]. destruct HD as [_ HR HC HS]. eapply returns_mono.
  - apply (returns_for (λ (k : Z) nw', ∃ X', writing k (now + 1) X' T nw' ∧ same_nodes X X')); [apply zlen_nonneg| |].
    + exists X. split; [|done]. split; try done.
      * intros c Hv. by apply Hc.
      * intros r o _ Ho. destruct (wd_output _ (ns_wired S) r o Ho) as (Hv & Hf & _). by apply (Hc _ Hv), HS.
      * intros r i _ Hi. destruct (wd_input _ (ns_wired S) r i Hi) as (Hv & Hf & _). by apply (Hc _ Hv), HS.
    + fold (nrouters N). intros r nw' Hr (X1 & HW & E1 & E2 & E3 & E4). eapply returns_mono; [by apply (router_writes_ok (now + 1) r X1 T)|].
      intros nw2 (X2 & HW2 & D1 & D2 & D3 & D4). exists X2. split; [done|]. split_and!; congruence.
  - intros nw' (X' & [W1 W2 W3 _ _] & Hsame). exists X'. split; [|done]. split; try done. intros n Hn. destruct (Hnd n Hn) as [N1 N2 N3 N4 N5].
    destruct Hsame as (E1 & E2 & E3 & E4). split; by rewrite ?E1, ?E2, ?E3, ?E4.
Qed.

(** ** The nodes *)

Lemma valid_node_true n : 0 ≤ n < nc_nodes N → valid_node N n = true.
Proof. intros Hn. unfold valid_node. apply andb_true_iff. split; [apply Z.leb_le|apply Z.ltb_lt]; lia. Qed.

Lemma ReadFlit_eq nw d : well_shaped S nw → 0 ≤ d < nc_nodes N → ReadFlit N d nw = Ok (arriving nw (Eject d)).
Proof. intros (F1 & _) Hd. unfold ReadFlit. rewrite valid_node_true by done. cbn [cassert mbind res_bind]. by rewrite (get_chan_ok N). Qed.
Lemma ReadCredit_eq nw n : well_shaped S nw → 0 ≤ n < nc_nodes N → ReadCredit N n nw = Ok (arriving_credit nw (Inject n)).
Proof. intros (_ & F2 & _) Hn. unfold ReadCredit. rewrite valid_node_true by done. cbn [cassert mbind res_bind]. by rewrite (get_chan_ok N). Qed.

Definition injects (n : Z) (f : Flit) X : NetHist :=
  mkNetHist (x_router X) (fadd (x_injected X) n f) (x_credited X) (x_ejected X) (x_credits X).
Definition returns_credit (d : Z) (x : Credit) X : NetHist :=
  mkNetHist (x_router X) (x_injected X) (x_credited X) (x_ejected X) (fadd (x_credits X) d x).

Lemma WriteFlit_net now X T nw f n : net_read now X T nw → 0 ≤ n < nc_nodes N → silent nw (Inject n) → orderly S (x_injected X n ++ [f]) →
  returns (WriteFlit N f n nw) (λ nw', net_read now (injects n f X) T nw' ∧ nw_credits nw' = nw_credits nw ∧
    ∀ c, valid_chan N c → c ≠ Inject n → flit_chan nw' c = flit_chan nw c).
Proof.
  intros [(F1 & F2 & F3) HR HC HS] Hn Hsil Hor. unfold WriteFlit. rewrite valid_node_true by done. cbn [cassert mbind res_bind].
  pose proof (HC (Inject n) Hn) as [C1 C2 C3 C4 C5 C6].
  eapply returns_bind; [apply (channel_flit_ok (nw_flits nw) (Inject n) f); [done|done|done|]|].
  { destruct Hor as [Hcl _]. by apply Forall_app in Hcl as [_ [Hcl _]%Forall_cons]. }
  intros fs [G1 G2]. apply returns_ok. split_and!; [|done|].
  - split; try done.
    + intros c Hv. destruct (HC c Hv) as [D1 D2 D3 D4 D5 D6]. specialize (G2 c Hv). destruct (decide (c = Inject n)) as [->|Hne].
      * destruct G2 as [G2 G3]. assert (sent_on N (injects n f X) (Inject n) = x_injected X n ++ [f]) as Es by (simpl; unfold fadd; by rewrite decide_True).
        split; try done; unfold flit_chan; cbn [nw_flits]; rewrite ?G2; try done.
        -- rewrite Es. by apply moving_send.
        -- by rewrite Es.
      * assert (sent_on N (injects n f X) c = sent_on N X c) as Es.
        { unfold sent_on. destruct c as [k|m|m]; try done. simpl. unfold fadd. by rewrite decide_False by congruence. }
        split; try done; unfold flit_chan; cbn [nw_flits]; rewrite ?G2, ?Es; done.
    + intros c Hv. specialize (G2 c Hv). split; [|by apply HS]. intros Hf. rewrite decide_False in G2 by (intros ->; by destruct Hf).
      unfold silent, flit_chan. simpl. rewrite G2. by apply HS.
  - intros c Hv Hne. specialize (G2 c Hv). by rewrite decide_False in G2.
Qed.

Lemma WriteCredit_net now X T nw x d : net_read now X T nw → 0 ≤ d < nc_nodes N → silent_credit nw (Eject d) →
  returns (WriteCredit N x d nw) (λ nw', net_read now (returns_credit d x X) T nw' ∧ nw_flits nw' = nw_flits nw ∧
    ∀ c, valid_chan N c → c ≠ Eject d → credit_chan nw' c = credit_chan nw c).
Proof.
  intros [(F1 & F2 & F3) HR HC HS] Hd Hsil. unfold WriteCredit. rewrite valid_node_true by done. cbn [cassert mbind res_bind].
  eapply returns_bind; [by apply (channel_credit_ok (nw_credits nw) (Eject d) x)|]. intros cs [G1 G2]. apply returns_ok. split_and!; [|done|].
  - split; try done.
    + intros c Hv. destruct (HC c Hv) as [D1 D2 D3 D4 D5 D6]. specialize (G2 c Hv). destruct (decide (c = Eject d)) as [->|Hne].
      * assert (credits_sent_on N (returns_credit d x X) (Eject d) = x_credits X d ++ [x]) as Es by (simpl; unfold fadd; by rewrite decide_True).
        split; try done; unfold credit_chan; cbn [nw_credits]; rewrite ?G2; try done. rewrite Es. by apply moving_send.
      * assert (credits_sent_on N (returns_credit d x X) c = credits_sent_on N X c) as Es.
        { unfold credits_sent_on. destruct c as [k|m|m]; try done. simpl. unfold fadd. by rewrite decide_False by congruence. }
        split; try done; unfold credit_chan; cbn [nw_credits]; rewrite ?G2, ?Es; done.
    + intros c Hv. specialize (G2 c Hv). split; [by apply HS|]. intros Ht. rewrite decide_False in G2 by (intros ->; by destruct Ht).
      unfold silent_credit, credit_chan. simpl. rewrite G2. by apply HS.
  - intros c Hv Hne. specialize (G2 c Hv). by rewrite decide_False in G2.
Qed.
End run.
