(* ===== verification/NetworkSpec.v ===== *)
(** * Networks: what they promise

    No flit is lost, made up or doubled between the nodes; flits arrive at the
    node their packet is for, and the flits of a packet arrive next to each other
    in their order. *)

From S2P Require Import Prelude StdMap OutputSet Flit VCBuffer BufferState BufferStateInv Credits Link Arbiter Allocator AllocLaws Rng KNCube Route SwitchAlloc IQRouter IQSwitch Wormhole RouterInv RouterQueues RouterStages RouterRoute RouterVCAlloc RouterSwitchAlloc RouterSend RouterSwitch RouterStep RouterRun RouterSpec RouterFlow Channel Network NetChannels NetworkInv NetworkRun.
Import CoreOps Credits Link NetworkOps.

(** ** Sums over channels *)

Lemma zsum_perm (l l' : list Z) : l ≡ₚ l' → zsum l = zsum l'.
Proof. induction 1; simpl; lia. Qed.

Lemma zsumf_succ f n : 0 ≤ n → zsumf f (n + 1) = f 0 + zsumf (λ i, f (i + 1)) n.
Proof.
  intros Hn. pattern n. apply zsumf_ind; [|clear n Hn; intros n Hn IH|done].
  - rewrite zsumf_0, (zsumf_snoc f 0), zsumf_0 by lia. lia.
  - rewrite zsumf_snoc, IH by lia. rewrite (zsumf_snoc (λ i, f (i + 1))) by done. lia.
Qed.

Lemma zsumf_rows {A : Type} `{Inhabited A} (F : A → Z) (rows : list (list A)) :
  zsumf (λ r, zsumf (λ i, F ((rows⟦r⟧)⟦i⟧)) (zlen (rows⟦r⟧))) (zlen rows) = zsum (F <$> mjoin rows).
Proof.
  induction rows as [|row rows IH]; [done|]. simpl. rewrite fmap_app, zsum_app, <- IH. replace (zlen (row :: rows)) with (zlen rows + 1) by (unfold zlen; simpl; lia).
  rewrite zsumf_succ by apply zlen_nonneg. f_equal.
  - change ((row :: rows)⟦0⟧) with row. rewrite zsum_zsumf, zlen_fmap. apply zsumf_ext. intros i Hi. symmetry. by apply znth_fmap.
  - apply zsumf_ext. intros r Hr. assert ((row :: rows)⟦r + 1⟧ = rows⟦r⟧) as ->; [|done]. unfold znth. by replace (Z.to_nat (r + 1)) with (S (Z.to_nat r)) by lia.
Qed.

Lemma NoDup_rows {A : Type} `{Inhabited A} (rows : list (list A)) :
  (∀ r i r' i', 0 ≤ r < zlen rows → 0 ≤ i < zlen (rows⟦r⟧) → 0 ≤ r' < zlen rows → 0 ≤ i' < zlen (rows⟦r'⟧) →
     (rows⟦r⟧)⟦i⟧ = (rows⟦r'⟧)⟦i'⟧ → r = r' ∧ i = i') → NoDup (mjoin rows).
Proof.
  induction rows as [|row rows IH]; intros Hinj; [constructor|]. simpl.
  assert (∀ r, 0 ≤ r → (row :: rows)⟦r + 1⟧ = rows⟦r⟧) as Hs by (intros r Hr; unfold znth; by replace (Z.to_nat (r + 1)) with (S (Z.to_nat r)) by lia).
  assert (zlen (row :: rows) = zlen rows + 1) as Hl by (unfold zlen; simpl; lia). apply NoDup_app. split_and!.
  - apply NoDup_alt. intros i j x Hi Hj. pose proof (lookup_lt_Some _ _ _ Hi). pose proof (lookup_lt_Some _ _ _ Hj).
    destruct (Hinj 0 (Z.of_nat i) 0 (Z.of_nat j)) as [_ ?]; try (change ((row :: rows)⟦0⟧) with row; unfold zlen; simpl; lia).
    change ((row :: rows)⟦0⟧) with row. unfold znth. rewrite !Nat2Z.id. apply list_lookup_total_correct in Hi, Hj. congruence.
  - intros x Hx Hx'. apply list_elem_of_lookup in Hx as [i Hi]. apply list_elem_of_join in Hx' as (row' & Hx' & Hrow). apply list_elem_of_lookup in Hx' as [j Hj].
    apply list_elem_of_lookup in Hrow as [k Hk]. pose proof (lookup_lt_Some _ _ _ Hi). pose proof (lookup_lt_Some _ _ _ Hj). pose proof (lookup_lt_Some _ _ _ Hk).
    assert (rows⟦Z.of_nat k⟧ = row') as Ek by (unfold znth; rewrite Nat2Z.id; by apply list_lookup_total_correct).
    destruct (Hinj 0 (Z.of_nat i) (Z.of_nat k + 1) (Z.of_nat j)) as [? _]; try (rewrite ?Hs, ?Ek by lia; change ((row :: rows)⟦0⟧) with row; unfold zlen; simpl; lia).
    rewrite Hs, Ek by lia. change ((row :: rows)⟦0⟧) with row. unfold znth. rewrite !Nat2Z.id. apply list_lookup_total_correct in Hi, Hj. congruence.
  - apply IH. intros r i r' i' Hr Hi Hr' Hi' E. destruct (Hinj (r + 1) i (r' + 1) i'); rewrite ?Hs by lia; try done; lia.
Qed.

(** ** Counting *)

Lemma tally_pos p l f : f ∈ l → p (strip f) = true → 0 < tally p l.
Proof.
  intros [l1 [l2 ->]]%list_elem_of_split Hp. rewrite tally_app. change (f :: l2) with ([f] ++ l2). rewrite tally_app, tally_single, Hp.
  pose proof (tally_nonneg p l1). pose proof (tally_nonneg p l2). lia.
Qed.

Lemma tally_pos_inv p l : 0 < tally p l → ∃ f, f ∈ l ∧ p (strip f) = true.
Proof.
  induction l as [|f l IH]; [done|]. change (f :: l) with ([f] ++ l). rewrite tally_app, tally_single. destruct (p (strip f)) eqn:Ep.
  - intros _. exists f. split; [left|done].
  - intros Hl. destruct IH as (g & Hg & Hp); [lia|]. exists g. split; [by right|done].
Qed.

(** What is counted at most once is there once. *)
Lemma tally_unique p l f g : tally p l ≤ 1 → f ∈ l → g ∈ l → p (strip f) = true → p (strip g) = true → f = g.
Proof.
  intros H1 [l1 [l2 ->]]%list_elem_of_split Hg Pf Pg. change (f :: l2) with ([f] ++ l2) in *. rewrite !tally_app, tally_single, Pf in H1.
  pose proof (tally_nonneg p l1). pose proof (tally_nonneg p l2). apply elem_of_app in Hg as [Hg|[Hg|Hg]%elem_of_app].
  - pose proof (tally_pos p l1 g Hg Pg). lia.
  - by apply list_elem_of_singleton in Hg.
  - pose proof (tally_pos p l2 g Hg Pg). lia.
Qed.

Lemma zsumf_pos f n : 0 ≤ n → 0 < zsumf f n → ∃ i, 0 ≤ i < n ∧ 0 < f i.
Proof.
  intros Hn. pattern n. apply zsumf_ind; [done|clear n Hn; intros n Hn IH|done]. rewrite zsumf_snoc by done. intros Hp.
  destruct (decide (0 < f n)) as [Hf|Hf]; [exists n; split; [lia|done]|]. destruct IH as (i & Hi & Hfi); [lia|]. exists i. split; [lia|done].
Qed.

Lemma zsumf2_pos (F : Z → Z → list Flit) p n m : 0 ≤ n → 0 ≤ m → 0 < zsumf (λ i, zsumf (λ j, tally p (F i j)) m) n →
  ∃ f, p (strip f) = true ∧ ∀ q, q (strip f) = true → 0 < zsumf (λ i, zsumf (λ j, tally q (F i j)) m) n.
Proof.
  intros Hn Hm Hs. apply zsumf_pos in Hs as (i & Hi & Hs); [|done]. apply zsumf_pos in Hs as (j & Hj & Ht); [|done]. apply tally_pos_inv in Ht as (f & Hf & Ef).
  exists f. split; [done|]. intros q Hq. pose proof (tally_pos q _ f Hf Hq). pose proof (zsumf_ge (λ j, tally q (F i j)) m j Hj ltac:(intros; apply tally_nonneg)).
  pose proof (zsumf_ge (λ i, zsumf (λ j, tally q (F i j)) m) n i Hi ltac:(intros; apply zsumf_nonneg; [done|intros; apply tally_nonneg])). cbn beta in *. lia.
Qed.

Lemma inside_pos {VA SA PA : Type} (E : Setup VA SA PA) p (st : IQRouter VA SA PA) : 0 < inside E p st →
  ∃ f, p (strip f) = true ∧ ∀ q, q (strip f) = true → 0 < inside E q st.
Proof.
  unfold inside. intros Hp. pose proof (su_ok E) as HC. pose proof (sp_inputs _ HC). pose proof (sp_outputs _ HC). pose proof (sp_vcs _ HC).
  assert (∀ q, 0 ≤ zsumf (λ i, zsumf (λ v, tally q (v_buffer (vcat (iq_buf st) i v))) (q_vcs (su_C E))) (q_inputs (su_C E)) ∧
    0 ≤ zsumf (λ o, tally q ((iq_output_buffer st)⟦o⟧ ++ in_crossbar o (iq_crossbar_flits st))) (q_outputs (su_C E))) as Hpos.
  { intros q. split; apply zsumf_nonneg; try lia; intros; [|apply tally_nonneg]. apply zsumf_nonneg; [lia|]. intros. apply tally_nonneg. }
  destruct (decide (0 < zsumf (λ i, zsumf (λ v, tally p (v_buffer (vcat (iq_buf st) i v))) (q_vcs (su_C E))) (q_inputs (su_C E)))) as [Hb|Hb].
  - apply (zsumf2_pos (λ i v, v_buffer (vcat (iq_buf st) i v))) in Hb as (f & Hf & Hq); [|lia..]. exists f. split; [done|]. intros q Hq'. specialize (Hq q Hq'). specialize (Hpos q). lia.
  - assert (0 < zsumf (λ o, tally p ((iq_output_buffer st)⟦o⟧ ++ in_crossbar o (iq_crossbar_flits st))) (q_outputs (su_C E))) as Ho2 by lia.
    apply zsumf_pos in Ho2 as (o & Ho & Ht); [|lia]. apply tally_pos_inv in Ht as (f & Hf & Ef). exists f. split; [done|]. intros q Hq. pose proof (tally_pos q _ f Hf Hq).
    pose proof (zsumf_ge (λ o, tally q ((iq_output_buffer st)⟦o⟧ ++ in_crossbar o (iq_crossbar_flits st))) (q_outputs (su_C E)) o Ho ltac:(intros; apply tally_nonneg)).
    specialize (Hpos q). cbn beta in *. lia.
Qed.

Section sums.
Context {VA SA PA : Type} `{Inhabited SA} (S : NetSetup VA SA PA).
Local Abbreviation N := (ns_N S).

(** The channels into routers, and those out of routers. *)
Lemma input_chans : mjoin (nc_inputs N) ≡ₚ (Chan <$> seqZ 0 (nc_channels N)) ++ (Inject <$> seqZ 0 (nc_nodes N)).
Proof.
  pose proof (wd_inputs _ (ns_wired S)) as Hl. apply NoDup_Permutation.
  - apply NoDup_rows. intros r i r' i' Hr Hi Hr' Hi' Ec. rewrite Hl in *. by apply (inputs_inj S r i r' i').
  - apply NoDup_app. split_and!; [apply NoDup_fmap_2; [congruence|apply NoDup_seqZ]| |apply NoDup_fmap_2; [congruence|apply NoDup_seqZ]].
    intros c (k & -> & _)%list_elem_of_fmap (n & ? & _)%list_elem_of_fmap. done.
  - intros c. split.
    + intros (row & Hc & Hrow)%list_elem_of_join. apply list_elem_of_lookup in Hrow as [r Hr]. pose proof (lookup_lt_Some _ _ _ Hr) as Hlt.
      assert ((nc_inputs N)⟦Z.of_nat r⟧ = row) as Er by (unfold znth; rewrite Nat2Z.id; by apply list_lookup_total_correct). rewrite <- Er in Hc.
      apply (port_reads S) in Hc as (i & Hi & <-); [|unfold zlen in Hl; lia]. destruct (wd_input _ (ns_wired S) _ i Hi) as (Hv & Ht & _).
      apply elem_of_app. destruct (in_chan N _ i) as [k|n|d]; try (by destruct Ht); [left|right]; apply list_elem_of_fmap; eexists; (split; [done|]); apply elem_of_seqZ; simpl in Hv; lia.
    + intros Hc. assert (valid_chan N c ∧ to_router c) as [Hv Ht].
      { apply elem_of_app in Hc as [(k & -> & Hk%elem_of_seqZ)%list_elem_of_fmap|(k & -> & Hk%elem_of_seqZ)%list_elem_of_fmap]; simpl; lia || (split; [lia|done]). }
      destruct (wd_sink _ (ns_wired S) c Hv Ht) as (r & i & [Hr Hi] & <-). apply list_elem_of_join. exists ((nc_inputs N)⟦r⟧).
      split; unfold in_chan, znth at 1; apply list_elem_of_lookup_total_2; unfold zlen in *; lia.
Qed.

Lemma output_chans : mjoin (nc_outputs N) ≡ₚ (Chan <$> seqZ 0 (nc_channels N)) ++ (Eject <$> seqZ 0 (nc_nodes N)).
Proof.
  pose proof (wd_outputs _ (ns_wired S)) as Hl. apply NoDup_Permutation.
  - apply NoDup_rows. intros r i r' i' Hr Hi Hr' Hi' Ec. rewrite Hl in *. by apply (outputs_inj S r i r' i').
  - apply NoDup_app. split_and!; [apply NoDup_fmap_2; [congruence|apply NoDup_seqZ]| |apply NoDup_fmap_2; [congruence|apply NoDup_seqZ]].
    intros c (k & -> & _)%list_elem_of_fmap (n & ? & _)%list_elem_of_fmap. done.
  - intros c. split.
    + intros (row & Hc & Hrow)%list_elem_of_join. apply list_elem_of_lookup in Hrow as [r Hr]. pose proof (lookup_lt_Some _ _ _ Hr) as Hlt.
      assert ((nc_outputs N)⟦Z.of_nat r⟧ = row) as Er by (unfold znth; rewrite Nat2Z.id; by apply list_lookup_total_correct). rewrite <- Er in Hc.
      apply (port_writes S) in Hc as (i & Hi & <-); [|unfold zlen in Hl; lia]. destruct (wd_output _ (ns_wired S) _ i Hi) as (Hv & Ht & _).
      apply elem_of_app. destruct (out_chan N _ i) as [k|n|d]; try (by destruct Ht); [left|right]; apply list_elem_of_fmap; eexists; (split; [done|]); apply elem_of_seqZ; simpl in Hv; lia.
    + intros Hc. assert (valid_chan N c ∧ from_router c) as [Hv Ht].
      { apply elem_of_app in Hc as [(k & -> & Hk%elem_of_seqZ)%list_elem_of_fmap|(k & -> & Hk%elem_of_seqZ)%list_elem_of_fmap]; simpl; lia || (split; [lia|done]). }
      destruct (wd_source _ (ns_wired S) c Hv Ht) as (r & i & [Hr Hi] & <-). apply list_elem_of_join. exists ((nc_outputs N)⟦r⟧).
      split; unfold out_chan, znth at 1; apply list_elem_of_lookup_total_2; unfold zlen in *; lia.
Qed.

(** ** Conservation *)

Local Abbreviation Net := (Network VA SA PA).
Implicit Types (nw : Net) (X : NetHist).

(** The flits on a channel. *)
Definition on_way nw (c : chan_id) : list Flit :=
  let ch := fc_channel (flit_chan nw c) in option_list (ch_output ch) ++ (ch_wait_queue ch).*2 ++ option_list (ch_input ch).

Definition over_channels (F : chan_id → Z) : Z := zsumf (λ k, F (Chan k)) (nc_channels N).
Definition over_injects (F : chan_id → Z) : Z := zsumf (λ n, F (Inject n)) (nc_nodes N).
Definition over_ejects (F : chan_id → Z) : Z := zsumf (λ n, F (Eject n)) (nc_nodes N).

(** The flits in the network: in routers and on channels. *)
Definition held p nw : Z :=
  zsumf (λ r, inside (ns_E S r) p ((nw_routers nw)⟦r⟧)) (nrouters N) +
  over_channels (λ c, tally p (on_way nw c)) + over_injects (λ c, tally p (on_way nw c)) + over_ejects (λ c, tally p (on_way nw c)).

Lemma net_on_way now X T nw c : net_ok S now X T nw → valid_chan N c → sent_on N X c = got_on N X c ++ on_way nw c.
Proof. intros HN Hv. by destruct (nt_chan _ _ _ _ _ HN c Hv) as [(init & _ & _ & ->) _ _ _ _ _]. Qed.

Lemma zsum_seqZ (f : Z → Z) n : zsum (f <$> seqZ 0 n) = zsumf f n.
Proof. done. Qed.

Lemma inputs_sum F : zsumf (λ r, zsumf (λ i, F (in_chan N r i)) (zlen ((nc_inputs N)⟦r⟧))) (nrouters N) = over_channels F + over_injects F.
Proof.
  rewrite <- (wd_inputs _ (ns_wired S)). unfold in_chan. rewrite (zsumf_rows F (nc_inputs N)), (zsum_perm _ _ (fmap_Permutation F _ _ input_chans)).
  rewrite fmap_app, zsum_app, <- !list_fmap_compose. by rewrite !zsum_seqZ.
Qed.
Lemma outputs_sum F : zsumf (λ r, zsumf (λ o, F (out_chan N r o)) (zlen ((nc_outputs N)⟦r⟧))) (nrouters N) = over_channels F + over_ejects F.
Proof.
  rewrite <- (wd_outputs _ (ns_wired S)). unfold out_chan. rewrite (zsumf_rows F (nc_outputs N)), (zsum_perm _ _ (fmap_Permutation F _ _ output_chans)).
  rewrite fmap_app, zsum_app, <- !list_fmap_compose. by rewrite !zsum_seqZ.
Qed.

Lemma received_vcs now X T nw r i : net_ok S now X T nw → input_at N r i → Forall (λ f, 0 ≤ f_vc f < ns_vcs S) (h_received (x_router X r) i).
Proof.
  intros HN Hi. destruct (wd_input _ (ns_wired S) r i Hi) as (Hv & _). destruct (at_sink N X r i (ns_wired S) Hi) as [<- _].
  pose proof (sd_flits _ _ _ _ (net_sender S now X T nw _ HN Hv)) as Hs. rewrite (net_on_way now X T nw) in Hs by done. apply Forall_app in Hs as [Hs _].
  eapply Forall_impl; [exact Hs|]. by intros f (? & _).
Qed.

Lemma routers_conserve p now X T nw : net_ok S now X T nw →
  over_channels (λ c, tally p (got_on N X c)) + over_injects (λ c, tally p (got_on N X c)) =
  over_channels (λ c, tally p (sent_on N X c)) + over_ejects (λ c, tally p (sent_on N X c)) +
  zsumf (λ r, inside (ns_E S r) p ((nw_routers nw)⟦r⟧)) (nrouters N).
Proof.
  intros HN. rewrite <- inputs_sum, <- outputs_sum, <- zsumf_plus. apply zsumf_ext. intros r Hr. destruct (ns_sizes S r Hr) as (Ev & _ & _ & Ei & Eo).
  rewrite Ei, Eo. rewrite (zsumf_ext (λ i, tally p (got_on N X (in_chan N r i))) (λ i, tally p (h_received (x_router X r) i))).
  2: { intros i Hi. by rewrite (proj1 (at_sink N X r i (ns_wired S) (proj2 (input_range S r i) (conj Hr Hi)))). }
  rewrite (zsumf_ext (λ o, tally p (sent_on N X (out_chan N r o))) (λ o, tally p (h_sent (x_router X r) o))).
  2: { intros o Ho. by rewrite (proj1 (at_source N X r o (ns_wired S) (proj2 (output_range S r o) (conj Hr Ho)))). }
  apply (tracks_conserves _ p now _ (T r)); [by apply (nt_router _ _ _ _ _ HN)|]. intros i Hi. rewrite Ev. eapply received_vcs; [done|]. by apply input_range.
Qed.

Lemma net_conserves p now X T nw : net_ok S now X T nw →
  zsumf (λ n, tally p (x_injected X n)) (nc_nodes N) = zsumf (λ d, tally p (x_ejected X d)) (nc_nodes N) + held p nw.
Proof.
  intros HN. pose proof (routers_conserve p now X T nw HN) as HR. unfold held.
  assert (∀ c, valid_chan N c → tally p (sent_on N X c) = tally p (got_on N X c) + tally p (on_way nw c)) as Hc
    by (intros c Hv; by rewrite (net_on_way now X T nw c HN Hv), tally_app).
  assert (over_channels (λ c, tally p (sent_on N X c)) = over_channels (λ c, tally p (got_on N X c)) + over_channels (λ c, tally p (on_way nw c))) as E1
    by (unfold over_channels; rewrite <- zsumf_plus; apply zsumf_ext; intros k Hk; by apply Hc).
  assert (over_injects (λ c, tally p (sent_on N X c)) = over_injects (λ c, tally p (got_on N X c)) + over_injects (λ c, tally p (on_way nw c))) as E2
    by (unfold over_injects; rewrite <- zsumf_plus; apply zsumf_ext; intros k Hk; by apply Hc).
  assert (over_ejects (λ c, tally p (sent_on N X c)) = over_ejects (λ c, tally p (got_on N X c)) + over_ejects (λ c, tally p (on_way nw c))) as E3
    by (unfold over_ejects; rewrite <- zsumf_plus; apply zsumf_ext; intros k Hk; by apply Hc).
  unfold over_injects at 1 in E2. unfold over_ejects at 2 in E3. cbn [sent_on got_on] in E2, E3. lia.
Qed.

Lemma held_nonneg p nw : 0 ≤ nc_channels N → 0 ≤ held p nw.
Proof.
  intros Hch. pose proof (ns_nodes S). unfold held, over_channels, over_injects, over_ejects.
  repeat apply Z.add_nonneg_nonneg; apply zsumf_nonneg; try done; try apply zlen_nonneg; intros; try apply tally_nonneg. apply inside_nonneg.
Qed.

(** A flit that is counted is there. *)
Lemma held_pos p nw : 0 ≤ nc_channels N → 0 < held p nw → ∃ f, p (strip f) = true ∧ ∀ q, q (strip f) = true → 0 < held q nw.
Proof.
  intros Hch Hp. pose proof (ns_nodes S) as Hn. assert (0 ≤ nrouters N) as Hr by apply zlen_nonneg.
  assert (∀ q, 0 ≤ zsumf (λ r, inside (ns_E S r) q ((nw_routers nw)⟦r⟧)) (nrouters N) ∧ 0 ≤ over_channels (λ c, tally q (on_way nw c)) ∧
    0 ≤ over_injects (λ c, tally q (on_way nw c)) ∧ 0 ≤ over_ejects (λ c, tally q (on_way nw c))) as Hpos.
  { intros q. split_and!; apply zsumf_nonneg; try done; intros; try apply tally_nonneg. apply inside_nonneg. }
  assert (∀ (F : Z → list Flit) n, 0 ≤ n → 0 < zsumf (λ i, tally p (F i)) n → ∃ f, p (strip f) = true ∧ ∀ q, q (strip f) = true → 0 < zsumf (λ i, tally q (F i)) n) as Hsum.
  { intros F n Hn' Hs. apply zsumf_pos in Hs as (i & Hi & Ht); [|done]. apply tally_pos_inv in Ht as (f & Hf & Ef). exists f. split; [done|]. intros q Hq.
    pose proof (tally_pos q _ f Hf Hq). pose proof (zsumf_ge (λ i, tally q (F i)) n i Hi ltac:(intros; apply tally_nonneg)). cbn beta in *. lia. }
  unfold held in Hp. destruct (decide (0 < over_channels (λ c, tally p (on_way nw c)))) as [H1|H1].
  { apply (Hsum (λ k, on_way nw (Chan k))) in H1 as (f & Hf & Hq); [|done]. exists f. split; [done|]. intros q Hq'. specialize (Hq q Hq'). specialize (Hpos q). unfold held, over_channels in *. lia. }
  destruct (decide (0 < over_injects (λ c, tally p (on_way nw c)))) as [H2|H2].
  { apply (Hsum (λ k, on_way nw (Inject k))) in H2 as (f & Hf & Hq); [|done]. exists f. split; [done|]. intros q Hq'. specialize (Hq q Hq'). specialize (Hpos q). unfold held, over_injects in *. lia. }
  destruct (decide (0 < over_ejects (λ c, tally p (on_way nw c)))) as [H3|H3].
  { apply (Hsum (λ k, on_way nw (Eject k))) in H3 as (f & Hf & Hq); [|done]. exists f. split; [done|]. intros q Hq'. specialize (Hq q Hq'). specialize (Hpos q). unfold held, over_ejects in *. lia. }
  assert (0 < zsumf (λ r, inside (ns_E S r) p ((nw_routers nw)⟦r⟧)) (nrouters N)) as H4 by lia. apply zsumf_pos in H4 as (r & Hr' & H4); [|done].
  destruct (inside_pos (ns_E S r) p _ H4) as (f & Hf & Hq). exists f. split; [done|]. intros q Hq'. specialize (Hq q Hq').
  pose proof (zsumf_ge (λ r, inside (ns_E S r) q ((nw_routers nw)⟦r⟧)) (nrouters N) r Hr' ltac:(intros; apply inside_nonneg)) as Hge. cbn beta in Hge. specialize (Hpos q). unfold held. lia.
Qed.

(** ** What arrives *)

(** The flits node [d] has received, with the one that arrives now. *)
Definition received nw X (d : Z) : list Flit := x_ejected X d ++ option_list (arriving nw (Eject d)).

Lemma received_sent now X T nw d : net_ok S now X T nw → 0 ≤ d < nc_nodes N → ∃ k, sent_on N X (Eject d) = received nw X d ++ k.
Proof.
  intros HN Hd. rewrite (net_on_way now X T nw (Eject d) HN Hd). unfold received, on_way, arriving. cbn [got_on]. eexists. by rewrite <- app_assoc.
Qed.

Lemma received_conserved p now X T nw : 0 ≤ nc_channels N → net_ok S now X T nw →
  zsumf (λ d, tally p (received nw X d)) (nc_nodes N) ≤ zsumf (λ n, tally p (x_injected X n)) (nc_nodes N).
Proof.
  intros Hch HN. pose proof (ns_nodes S) as Hn. rewrite (net_conserves p now X T nw HN). unfold received, held, over_channels, over_injects, over_ejects.
  rewrite (zsumf_ext _ (λ d, tally p (x_ejected X d) + tally p (option_list (arriving nw (Eject d))))) by (intros; apply tally_app). rewrite zsumf_plus.
  assert (zsumf (λ d, tally p (option_list (arriving nw (Eject d)))) (nc_nodes N) ≤ zsumf (λ d, tally p (on_way nw (Eject d))) (nc_nodes N)) as Hle.
  { apply zsumf_le; [done|]. intros d Hd. unfold on_way. rewrite !tally_app. unfold arriving.
    pose proof (tally_nonneg p (ch_wait_queue (fc_channel (flit_chan nw (Eject d)))).*2). pose proof (tally_nonneg p (option_list (ch_input (fc_channel (flit_chan nw (Eject d)))))). lia. }
  assert (0 ≤ zsumf (λ r, inside (ns_E S r) p ((nw_routers nw)⟦r⟧)) (nrouters N)) by (apply zsumf_nonneg; [apply zlen_nonneg|intros; apply inside_nonneg]).
  assert (0 ≤ zsumf (λ k, tally p (on_way nw (Chan k))) (nc_channels N)) by (apply zsumf_nonneg; [done|intros; apply tally_nonneg]).
  assert (0 ≤ zsumf (λ k, tally p (on_way nw (Inject k))) (nc_nodes N)) by (apply zsumf_nonneg; [done|intros; apply tally_nonneg]). lia.
Qed.

(** Every flit received has been sent by a node. *)
Lemma received_origin now X T nw d f : 0 ≤ nc_channels N → net_ok S now X T nw → 0 ≤ d < nc_nodes N → f ∈ received nw X d →
  ∃ n g, 0 ≤ n < nc_nodes N ∧ g ∈ x_injected X n ∧ strip g = strip f.
Proof.
  intros Hch HN Hd Hf. set (p := λ x, bool_decide (x = strip f)). assert (p (strip f) = true) as Hp by (by apply bool_decide_eq_true).
  pose proof (received_conserved p now X T nw Hch HN) as Hc. pose proof (tally_pos p _ f Hf Hp).
  pose proof (zsumf_ge (λ d, tally p (received nw X d)) (nc_nodes N) d Hd ltac:(intros; apply tally_nonneg)).
  destruct (zsumf_pos (λ n, tally p (x_injected X n)) (nc_nodes N)) as (n & Hn & Ht); [lia|cbn beta in *; lia|].
  apply tally_pos_inv in Ht as (g & Hg & Eg%bool_decide_eq_true). by exists n, g.
Qed.

Record arrived (P : Flit → Prop) (d : Z) (l : list Flit) : Prop := {
  ar_flits : Forall (λ f, 0 ≤ f_vc f < ns_vcs S ∧ P f ∧ (f_head f = true → f_dest f = d)) l;
  ar_stream : ∀ w, is_Some (stream None (on_vc w l));
  ar_order : ∀ w, adjacent next_id (on_vc w l)
}.

Lemma stream_part e a b : is_Some (stream e (a ++ b)) → is_Some (stream e a).
Proof. rewrite stream_app. destruct (stream e a); [done|]. by intros [? ?]. Qed.

(** Packets arrive where they are for, in order. *)
Lemma net_arrived P now X T nw d : 0 ≤ nc_channels N → net_ok S now X T nw → 0 ≤ d < nc_nodes N →
  (∀ f g, strip f = strip g → P f → P g) → (∀ n, 0 ≤ n < nc_nodes N → Forall P (x_injected X n)) → arrived P d (received nw X d).
Proof.
  intros Hch HN Hd HP Hin. destruct (received_sent now X T nw d HN Hd) as [k Hk]. pose proof (net_sender S now X T nw (Eject d) HN Hd) as [S1 S2 _].
  pose proof (ck_order _ _ _ _ _ _ (nt_chan _ _ _ _ _ HN (Eject d) Hd)) as [_ Hor]. rewrite Hk in *. apply Forall_app in S1 as [S1 _]. split.
  - apply Forall_forall. intros f Hf. pose proof (proj1 (Forall_forall _ _) S1 f Hf) as (Hv & _ & Hh). split_and!; [apply Hv..| |done].
    destruct (received_origin now X T nw d f Hch HN Hd Hf) as (n & g & Hn & Hg & Eg). apply (HP g f Eg). by apply (proj1 (Forall_forall _ _) (Hin n Hn)).
  - intros w. specialize (S2 w). unfold on_vc in *. rewrite filter_app in S2. by eapply stream_part.
  - intros w. specialize (Hor w). unfold on_vc in *. rewrite filter_app in Hor. by eapply adjacent_prefix.
Qed.
End sums.
