(* ===== verification/Packets.v ===== *)
(** * Packets

    The packets that have been generated, by number, and the flits that are theirs.
    Flit numbers are given in the order of the packets, so that a flit's number
    tells its packet and its place in it.  Also vectors of vectors. *)

From S2P Require Import Prelude OutputSet Flit Wormhole RouterInv RouterFlow TrafficManager.

Record Packet : Set := mkPacket {
  pk_src : Z;
  pk_dest : Z;
  pk_size : Z;
  pk_cl : Z;
  pk_time : Z;
  pk_record : bool;
  pk_first : Z
}.

Implicit Types (L : list Packet) (pk : Packet) (f g : Flit).

Definition packet_at L (p : Z) pk : Prop := 0 ≤ p ∧ L !! Z.to_nat p = Some pk.

(** [f] is flit [i] of packet [pk]. *)
Record is_flit pk (i : Z) f : Prop := {
  fl_range : 0 ≤ i < pk_size pk;
  fl_id : f_id f = pk_first pk + i;
  fl_cl : f_cl f = pk_cl pk;
  fl_src : f_src f = pk_src pk;
  fl_dest : f_dest f = pk_dest pk;
  fl_size : f_packet_size f = pk_size pk;
  fl_record : f_record f = pk_record pk;
  fl_time : f_ctime f = pk_time pk;
  fl_head : f_head f = (i =? 0);
  fl_tail : f_tail f = (i =? pk_size pk - 1)
}.

Definition flit_of L f : Prop := ∃ pk i, packet_at L (f_pid f) pk ∧ is_flit pk i f.

(** The number of flits in the packets. *)
Definition flits_in L : Z := zsum (pk_size <$> L).

Record log_ok L : Prop := {
  lg_size : Forall (λ pk, 0 < pk_size pk) L;
  lg_first : ∀ p pk, L !! p = Some pk → pk_first pk = flits_in (take p L)
}.

Section log.
Context (L : list Packet) (HL : log_ok L).

Lemma flits_in_nonneg : 0 ≤ flits_in L.
Proof. apply zsum_nonneg, Forall_fmap. eapply Forall_impl; [apply HL|]. simpl. lia. Qed.

Lemma flits_in_take p pk : L !! p = Some pk → flits_in (take (S p) L) = flits_in (take p L) + pk_size pk.
Proof. intros Hp. unfold flits_in. rewrite (take_S_r _ _ _ Hp), fmap_app, zsum_app. simpl. lia. Qed.

Lemma flits_in_mono p q : (p ≤ q)%nat → flits_in (take p L) ≤ flits_in (take q L).
Proof.
  intros Hpq. replace (take q L) with (take p L ++ take (q - p) (drop p L)) by (rewrite take_take_drop; f_equal; lia).
  unfold flits_in. rewrite fmap_app, zsum_app. enough (0 ≤ zsum (pk_size <$> take (q - p) (drop p L))) by lia.
  apply zsum_nonneg, Forall_fmap, Forall_take, Forall_drop. eapply Forall_impl; [apply HL|]. simpl. lia.
Qed.

Lemma packet_size p pk : packet_at L p pk → 0 < pk_size pk.
Proof. intros [_ Hp]. eapply (Forall_lookup_1 (λ pk, 0 < pk_size pk)); [apply HL|exact Hp]. Qed.

Lemma packet_ids p pk : packet_at L p pk → 0 ≤ pk_first pk ∧ pk_first pk + pk_size pk ≤ flits_in L.
Proof.
  intros [Hp0 Hp]. rewrite (lg_first _ HL _ _ Hp). split.
  - pose proof (flits_in_mono 0 (Z.to_nat p) ltac:(lia)). unfold flits_in in *. simpl in *. lia.
  - pose proof (lookup_lt_Some _ _ _ Hp). pose proof (flits_in_take _ _ Hp). pose proof (flits_in_mono (S (Z.to_nat p)) (length L) ltac:(lia)) as Hm.
    rewrite (take_ge L (length L)) in Hm by done. lia.
Qed.

(** A flit number belongs to one packet. *)
Lemma packet_unique p pk q qk k : packet_at L p pk → packet_at L q qk →
  pk_first pk ≤ k < pk_first pk + pk_size pk → pk_first qk ≤ k < pk_first qk + pk_size qk → p = q ∧ pk = qk.
Proof.
  intros [Hp0 Hp] [Hq0 Hq] H1 H2. assert (p = q) as ->; [|split; [done|congruence]].
  rewrite (lg_first _ HL _ _ Hp) in H1. rewrite (lg_first _ HL _ _ Hq) in H2. pose proof (flits_in_take _ _ Hp). pose proof (flits_in_take _ _ Hq).
  destruct (Z.lt_trichotomy p q) as [?|[?|?]]; [|done|].
  - pose proof (flits_in_mono (S (Z.to_nat p)) (Z.to_nat q) ltac:(lia)). lia.
  - pose proof (flits_in_mono (S (Z.to_nat q)) (Z.to_nat p) ltac:(lia)). lia.
Qed.

Lemma flit_id_range f : flit_of L f → 0 ≤ f_id f < flits_in L.
Proof. intros (pk & i & Hp & [Hi -> _ _ _ _ _ _ _ _]). pose proof (packet_ids _ _ Hp). lia. Qed.

Lemma flit_unique f g : flit_of L f → flit_of L g → f_id f = f_id g →
  f_pid f = f_pid g ∧ f_cl f = f_cl g ∧ f_head f = f_head g ∧ f_tail f = f_tail g.
Proof.
  intros (pk & i & Hp & [Hi Eid Ecl _ _ _ _ _ Eh Et]) (qk & j & Hq & [Hj Eid' Ecl' _ _ _ _ _ Eh' Et']) E.
  destruct (packet_unique _ _ _ _ (f_id f) Hp Hq) as [Epid <-]; [lia..|]. assert (i = j) as <- by lia. split_and!; congruence.
Qed.
End log.

Lemma flit_of_strip L f g : strip f = strip g → flit_of L f → flit_of L g.
Proof.
  intros E (pk & i & Hp & Hf). exists pk, i. destruct f, g. cbv [strip] in E. simpl in *. injection E as -> -> -> -> -> -> -> -> -> -> -> -> -> -> ->.
  split; [done|]. by destruct Hf; split.
Qed.

(** A log that grows. *)
Lemma packet_at_app L k p pk : packet_at L p pk → packet_at (L ++ k) p pk.
Proof. intros [Hp0 Hp]. split; [done|]. by apply lookup_app_l_Some. Qed.

Lemma flit_of_app L k f : flit_of L f → flit_of (L ++ k) f.
Proof. intros (pk & i & Hp & Hf). exists pk, i. split; [by apply packet_at_app|done]. Qed.

Lemma packet_at_snoc L pk p qk : packet_at (L ++ [pk]) p qk → packet_at L p qk ∨ p = zlen L ∧ qk = pk.
Proof.
  intros [Hp0 Hp]. apply lookup_app_Some in Hp as [Hp|[Hl Hp]]; [by left|right]. unfold zlen.
  destruct (Z.to_nat p - length L)%nat as [|k] eqn:Ek; [|done]. simpl in Hp. injection Hp as ->. split; [lia|done].
Qed.

Lemma packet_at_last L pk : packet_at (L ++ [pk]) (zlen L) pk.
Proof. split; [apply zlen_nonneg|]. unfold zlen. by rewrite Nat2Z.id, lookup_app_r, Nat.sub_diag. Qed.

Lemma flits_in_snoc L pk : flits_in (L ++ [pk]) = flits_in L + pk_size pk.
Proof. unfold flits_in. rewrite fmap_app, zsum_app. simpl. lia. Qed.

Lemma log_snoc L pk : log_ok L → 0 < pk_size pk → pk_first pk = flits_in L → log_ok (L ++ [pk]).
Proof.
  intros [H1 H2] Hs Hf. split; [apply Forall_app_2; [done|by apply Forall_singleton]|].
  intros p qk Hp. apply lookup_app_Some in Hp as [Hp|[Hl Hp]].
  - rewrite take_app_le by (apply lookup_lt_Some in Hp; lia). by apply H2.
  - destruct (p - length L)%nat as [|k] eqn:Ek; [|done]. simpl in Hp. injection Hp as <-. rewrite take_app_ge, Ek by lia. simpl. by rewrite app_nil_r.
Qed.

(** ** Vectors of vectors *)

Section grid.
Context {A : Type} `{Inhabited A}.
Implicit Types v : list (list A).

Definition grid (a b : Z) v : Prop := zlen v = a ∧ ∀ i, 0 ≤ i < a → zlen (v⟦i⟧) = b.
Definition at2 v (i j : Z) : A := (v⟦i⟧)⟦j⟧.

Lemma vget2_ok a b v i j : grid a b v → 0 ≤ i < a → 0 ≤ j < b → vget2 v i j = Ok (at2 v i j).
Proof. intros [H1 H2] Hi Hj. unfold vget2. rewrite vget_ok by lia. cbn [mbind res_bind]. apply vget_ok. rewrite H2; lia. Qed.

Lemma vset2_ok a b v i j x : grid a b v → 0 ≤ i < a → 0 ≤ j < b → returns (vset2 v i j x) (λ v', grid a b v' ∧
  ∀ i' j', 0 ≤ i' < a → 0 ≤ j' < b → at2 v' i' j' = if decide (i' = i ∧ j' = j) then x else at2 v i' j').
Proof.
  intros [H1 H2] Hi Hj. unfold vset2. rewrite vget_ok by lia. cbn [mbind res_bind]. rewrite vset_ok by (rewrite H2; lia). cbn [mbind res_bind].
  rewrite vset_ok by lia. apply returns_ok. split.
  - split; [lens|]. intros i' Hi'. rewrite znth_zupd by lia. case_decide; [|by apply H2]. rewrite zlen_zupd. by apply H2.
  - intros i' j' Hi' Hj'. unfold at2. rewrite znth_zupd by lia. destruct (decide (i = i')) as [->|].
    + rewrite znth_zupd by (rewrite ?H2; lia). repeat case_decide; destruct_and?; subst; try done. tauto.
    + rewrite decide_False by (intros [? ?]; congruence). done.
Qed.

Lemma grid_replicate a b (x : A) : 0 ≤ a → 0 ≤ b → grid a b (replicate (Z.to_nat a) (replicate (Z.to_nat b) x)) ∧
  ∀ i j, 0 ≤ i < a → 0 ≤ j < b → at2 (replicate (Z.to_nat a) (replicate (Z.to_nat b) x)) i j = x.
Proof.
  intros Ha Hb. split.
  - split; [by apply zlen_replicate|]. intros i Hi. rewrite znth_replicate by done. by apply zlen_replicate.
  - intros i j Hi Hj. unfold at2. rewrite znth_replicate by done. by apply znth_replicate.
Qed.
End grid.
