(* ===== verification/Terminal.v ===== *)
(** * The nodes: queues and credits

    A queue [_partial_packets[n][c]]: whole packets, one after the other, but for
    the first, which may be on its way; what is left of that packet keeps the VC
    its head was sent on.  And a node's side of the channel into the network: the
    [BufferState] that counts its credits against what it has sent. *)

From S2P Require Import Prelude StdMap OutputSet Flit VCBuffer BufferState BufferStateInv Credits Link Channel Arbiter Allocator AllocLaws Rng KNCube Route SwitchAlloc IQRouter IQSwitch Wormhole RouterInv RouterQueues RouterStages RouterRoute RouterVCAlloc RouterSwitchAlloc RouterSend RouterSwitch RouterStep RouterRun RouterSpec RouterFlow Network TrafficManager NetChannels NetworkInv NetworkRun Packets.
Import CoreOps Credits Link TMOps.

(** ** The flits of a new packet *)

(** As [GeneratePacket] makes them, with priority 0. *)
Definition packet_flit (pid : Z) (pk : Packet) (i : Z) : Flit :=
  mkFlit (f_type new_flit) (-1) (pk_cl pk) (i =? 0) (i =? pk_size pk - 1) (pk_time pk) (f_itime new_flit) (f_atime new_flit)
    (pk_first pk + i) pid (pk_record pk) (pk_src pk) (pk_dest pk) 0 (f_hops new_flit) false (f_subnetwork new_flit) (pk_size pk)
    (f_intm new_flit) (f_ph new_flit) (f_la_route_set new_flit).

Definition packet_flits (pid : Z) (pk : Packet) (k : Z) : list Flit := packet_flit pid pk <$> seqZ 0 k.

Section packet.
Context (pid : Z) (pk : Packet).

Lemma packet_is_flit i : 0 ≤ i < pk_size pk → is_flit pk i (packet_flit pid pk i).
Proof. by split. Qed.

Lemma packet_flits_snoc k : 0 ≤ k → packet_flits pid pk (k + 1) = packet_flits pid pk k ++ [packet_flit pid pk k].
Proof. intros Hk. unfold packet_flits. rewrite seqZ_app, fmap_app by lia. done. Qed.

Lemma packet_flits_last k : 0 < k → last (packet_flits pid pk k) = Some (packet_flit pid pk (k - 1)).
Proof. intros Hk. replace k with (k - 1 + 1) at 1 by lia. rewrite packet_flits_snoc by lia. apply last_snoc. Qed.

Lemma packet_stream k : 0 < k ≤ pk_size pk → stream None (packet_flits pid pk k) = Some (if k =? pk_size pk then None else Some pid).
Proof.
  intros Hk. assert (0 ≤ k - 1) as H0 by lia. replace k with (k - 1 + 1) by lia. revert H0. assert (k - 1 < pk_size pk) as H1 by lia. revert H1.
  generalize (k - 1). clear k Hk. intros j Hj H0. revert Hj. pattern j. apply zsumf_ind; [| |done].
  - intros Hj. rewrite packet_flits_snoc by lia. change (packet_flits pid pk 0) with (@nil Flit). cbn [app stream next_flit f_head f_tail packet_flit f_pid]. change (0 =? 0) with true. cbv beta iota zeta. destruct (Z.eqb_spec 0 (pk_size pk - 1)), (Z.eqb_spec (0 + 1) (pk_size pk)); done || lia.
  - clear j H0. intros j Hj IH Hs. rewrite packet_flits_snoc by lia. rewrite (stream_snoc _ _ _ _ (IH ltac:(lia))).
    rewrite (proj2 (Z.eqb_neq _ _)) by lia. unfold next_flit. simpl. rewrite (proj2 (Z.eqb_neq (j + 1) 0)) by lia. simpl. rewrite Z.eqb_refl.
    destruct (Z.eqb_spec (j + 1) (pk_size pk - 1)), (Z.eqb_spec (j + 1 + 1) (pk_size pk)); done || lia.
Qed.
End packet.

(** ** Queues *)

(** The packet the front of the queue belongs to, if it is on its way. *)
Definition opened (q : list Flit) : option Z :=
  match q with f :: _ => if f_head f then None else Some (f_pid f) | [] => None end.

(** A flit that waits. *)
Record waits (L : list Packet) (n c : Z) (f : Flit) : Prop := {
  wt_flit : flit_of L f;
  wt_cl : f_cl f = c;
  wt_src : f_src f = n;
  wt_pri : f_pri f = 0;
  wt_hops : f_hops f = 0
}.

Record queue_ok (L : list Packet) (n c : Z) (q : list Flit) : Prop := {
  qu_stream : stream (opened q) q = Some None;
  qu_flits : Forall (waits L n c) q;
  qu_rest : Forall (λ f, f_vc f = -1) (tail q);
  qu_front : ∀ f, head q = Some f → f_head f = true → f_vc f = -1;
  qu_order : adjacent next_id q
}.

(** The VC [v] of the router with credits [bs] is the one of [f], after what has
    been sent. *)
Record goes_on (V : Z) (bs : BufferState) (lvc : Z) (inj : list Flit) (f : Flit) : Prop := {
  go_vc : 0 ≤ f_vc f < V;
  go_open : is_open (core bs) (f_vc f) = true;
  go_pid : (in_use_by (core bs))⟦f_vc f⟧ = f_pid f;
  go_lvc : lvc = f_vc f;
  go_next : ∃ g, last (on_vc (f_vc f) inj) = Some g ∧ f_id f = f_id g + 1
}.

Definition front_ok (V : Z) (bs : BufferState) (lvc : Z) (inj q : list Flit) : Prop :=
  ∀ f, head q = Some f → f_head f = false → goes_on V bs lvc inj f.

Lemma waits_log L k n c f : waits L n c f → waits (L ++ k) n c f.
Proof. intros []. split; try done. by apply flit_of_app. Qed.

Lemma queue_push L n c q pk : queue_ok L n c q → 0 < pk_size pk → pk_cl pk = c → pk_src pk = n → let fs := packet_flits (zlen L) pk (pk_size pk) in
  queue_ok (L ++ [pk]) n c (q ++ fs) ∧ (q = [] → opened fs = None).
Proof.
  intros [Q1 Q2 Q3 Q4 Q5] Hs Hc Hn fs. assert (∃ fs', fs = packet_flit (zlen L) pk 0 :: fs' ∧ ∀ f, f ∈ fs' → f_vc f = -1) as (fs' & Ef & Hf).
  { subst fs. unfold packet_flits. rewrite seqZ_cons by lia. eexists. split; [done|]. by intros f (i & -> & _)%list_elem_of_fmap. }
  pose proof (packet_stream (zlen L) pk (pk_size pk) ltac:(lia)) as Hst. rewrite Z.eqb_refl in Hst. fold fs in Hst.
  assert (opened (q ++ fs) = opened q) as Eo by (destruct q; [by rewrite Ef|done]). split; [split|by rewrite Ef].
  - rewrite Eo, stream_app, Q1. done.
  - apply Forall_app_2; [eapply Forall_impl; [exact Q2|]; intros; by apply waits_log|]. apply Forall_fmap, Forall_forall. intros i Hi%elem_of_seqZ. split; try done.
    exists pk, i. split; [apply packet_at_last|apply packet_is_flit; lia].
  - destruct q as [|f q]; simpl in *; [rewrite Ef; simpl; by apply Forall_forall|]. apply Forall_app_2; [done|]. rewrite Ef. constructor; [done|by apply Forall_forall].
  - destruct q as [|f q]; simpl in *; [|by apply Q4]. rewrite Ef. by intros f [= <-].
  - subst fs. assert (∀ k, 0 ≤ k → adjacent next_id (q ++ packet_flits (zlen L) pk k)) as Ha; [|apply Ha; lia]. clear Ef Hst Eo. intros k Hk. pattern k.
    apply zsumf_ind; [by rewrite app_nil_r|clear k Hk; intros k Hk IH|done]. rewrite packet_flits_snoc, app_assoc by done. apply adjacent_snoc. split; [done|].
    intros g Hg Hh. simpl in Hh. assert (0 < k) as Hk0 by (destruct (Z.eqb_spec k 0); [done|lia]). rewrite last_app, packet_flits_last in Hg by done.
    injection Hg as <-. unfold next_id. simpl. lia.
Qed.

(** The front as a routing function leaves it. *)
Definition refreshed (f f' : Flit) : Prop := strip f' = strip f ∧ f_vc f' = f_vc f ∧ f_hops f' = f_hops f ∧ f_pri f' = f_pri f.

Lemma waits_strip L n c f f' : strip f' = strip f → f_hops f' = f_hops f → f_pri f' = f_pri f → waits L n c f → waits L n c f'.
Proof.
  intros E1 E2 E3 [H1 H2 H3 H4 H5]. split; [by apply (flit_of_strip L f)|..]; try congruence.
  - rewrite <- H2. exact (f_equal f_cl E1).
  - rewrite <- H3. exact (f_equal f_src E1).
Qed.

Lemma queue_front L n c f f' q : refreshed f f' → queue_ok L n c (f :: q) → queue_ok L n c (f' :: q).
Proof.
  intros (E1 & E2 & E3 & E4) [Q1 Q2 Q3 Q4 Q5]. destruct (strip_packet _ _ E1) as (Eh & Et & Ep).
  assert (strip <$> (f :: q) = strip <$> (f' :: q)) as Es by (simpl; by rewrite E1).
  split.
  - rewrite <- (stream_strip _ _ _ Es). unfold opened in *. by rewrite Eh, Ep.
  - apply Forall_cons in Q2 as [Hf Hq]. constructor; [|done]. by eapply waits_strip.
  - done.
  - intros g [= <-] Hh. rewrite E2. apply Q4; [done|congruence].
  - by eapply adjacent_strip.
Qed.

(** The front is sent, and the next flit gets its VC. *)
Lemma queue_pop L n c f f' q : queue_ok L n c (f :: q) → f_tail f' = f_tail f →
  queue_ok L n c (pass_vc f' q) ∧ strip <$> pass_vc f' q = strip <$> q ∧
  ∀ g, head (pass_vc f' q) = Some g → f_head g = false → f_tail f = false ∧ f_vc g = f_vc f' ∧ f_pid g = f_pid f ∧ f_id g = f_id f + 1.
Proof.
  intros [Q1 Q2 Q3 Q4 Q5] Et. simpl in *. apply Forall_cons in Q2 as [Hf Hq]. destruct Q5 as [Qa Qb].
  assert (stream (if f_tail f then None else Some (f_pid f)) q = Some None) as Hs.
  { revert Q1. unfold next_flit. destruct (f_head f); simpl; [done|]. by rewrite Z.eqb_refl. }
  destruct q as [|g q]; simpl; [split_and!; try done; by split|]. rewrite Et. simpl in Q3. apply Forall_cons in Q3 as [Vg Vq]. apply Forall_cons in Hq as [Hg Hq].
  simpl in Hs. destruct (f_tail f).
  - assert (f_head g = true) as Hh by (revert Hs; unfold next_flit; by destruct (f_head g)). split_and!; [|done|intros g' [= <-]; congruence].
    split; simpl; try done; [by rewrite Hh|by constructor|by intros g' [= <-] _].
  - assert (f_head g = false ∧ f_pid g = f_pid f) as [Hh Hp].
    { revert Hs. unfold next_flit. destruct (f_head g); [done|]. simpl. destruct (Z.eqb_spec (f_pid g) (f_pid f)); done. }
    split_and!; [|done|].
    + split; simpl; try done; [|constructor; [|done]|by intros g' [= <-] ?; simpl in *; congruence].
      * rewrite Hh. unfold next_flit in *. simpl in *. rewrite Hp in *. exact Hs.
      * eapply waits_strip; [..|exact Hg]; done.
    + intros g' [= <-] _. simpl. split_and!; try done. by apply Qa.
Qed.

Section terminal.
Context {VA SA PA : Type} (S : NetSetup VA SA PA).
Local Abbreviation N := (ns_N S).
Local Abbreviation V := (ns_vcs S).
Implicit Types (bs : BufferState) (inj : list Flit) (crd : list Credit).

(** ** Credits *)

(** Node [n] has sent [inj] and got the credits [crd]. *)
Record terminal_ok (n : Z) inj crd bs : Prop := {
  te_inv : inv bs;
  te_vcs : vcs (core bs) = V;
  te_size : size (core bs) = ns_bsize S;
  te_occ : ∀ w, 0 ≤ w < V → occ (core bs) w + ncredits w crd = nflits w inj;
  te_stream : ∀ w, 0 ≤ w < V → stream None (on_vc w inj) = Some (if is_open (core bs) w then Some ((in_use_by (core bs))⟦w⟧) else None);
  te_flits : Forall (λ f, 0 ≤ f_vc f < V ∧ flit_ok f ∧ (f_head f = true → expected S (Inject n) f)) inj;
  te_order : orderly S inj
}.

Lemma terminal_node n inj crd bs : terminal_ok n inj crd bs →
  (∀ w, is_Some (stream None (on_vc w inj))) ∧ zsumf (λ w, nflits w inj - ncredits w crd) V ≤ ns_bsize S.
Proof.
  intros [H1 H2 H3 H4 H5 H6 _]. split.
  - intros w. destruct (decide (0 ≤ w < V)) as [Hw|Hw]; [rewrite H5 by done; by eexists|]. unfold on_vc. rewrite filter_none; [by eexists|].
    eapply Forall_impl; [exact H6|]. intros f (Hf & _) <-. done.
  - rewrite <- H3. etrans; [|by apply occupancy_fits]. pose proof H1 as [Hc _]. rewrite (co_occupancy _ Hc), H2.
    apply zsumf_le; [pose proof (ns_vcs_pos S); lia|]. intros w Hw. specialize (H4 w Hw). lia.
Qed.

(** The VCs a node may go on with. *)
Definition same_open (c c' : Core) : Prop := ∀ w, 0 ≤ w < V → is_open c' w = is_open c w ∧ (is_open c w = true → (in_use_by c')⟦w⟧ = (in_use_by c)⟦w⟧).

Lemma terminal_credit now n inj crd bs x : terminal_ok n inj crd bs →
  Forall (λ v, 0 ≤ v < V) (c_vc x) → (∀ w, 0 ≤ w < V → ncredits w (crd ++ [x]) ≤ nflits w inj) →
  returns (BufferStateOps.ProcessCredit now bs x) (λ bs', terminal_ok n inj (crd ++ [x]) bs' ∧ same_open (core bs) (core bs')).
Proof.
  intros [H1 H2 H3 H4 H5 H6 H7] Hx Hc. assert (∀ w, ncredits w (crd ++ [x]) = ncredits w crd + cnt w (c_vc x)) as En
    by (intros w; rewrite ncredits_app; unfold ncredits; simpl; lia).
  eapply returns_mono; [apply ProcessCredit_safe; [done|by rewrite H2|]|].
  - intros v Hv. rewrite H2 in Hv. specialize (Hc v Hv). specialize (H4 v Hv). rewrite En in Hc. lia.
  - intros bs' (I1 & I2 & I3 & I4 & I5). rewrite H2 in *. split; [|exact I5]. split; try done; [by rewrite I3|..].
    + intros w Hw. rewrite I4, En by done. specialize (H4 w Hw). lia.
    + intros w Hw. rewrite H5 by done. destruct (I5 w Hw) as [-> Hu]. destruct (is_open (core bs) w) eqn:Eo; [|done]. by rewrite Hu.
Qed.

(** ** Sending *)

(** The VC of [f] is taken by its packet, already or just now. *)
Definition may_go bs0 bs (f : Flit) : Prop :=
  inv bs ∧ has_slot bs (f_vc f) ∧ 0 ≤ f_vc f < V ∧
  if f_head f then (in_use_by (core bs0))⟦f_vc f⟧ < 0 ∧ core bs = taken (core bs0) (f_vc f) (f_pid f)
  else bs = bs0 ∧ is_open (core bs0) (f_vc f) = true ∧ (in_use_by (core bs0))⟦f_vc f⟧ = f_pid f.

Lemma terminal_take n inj crd bs f : terminal_ok n inj crd bs → 0 ≤ f_vc f < V → flit_ok f → f_head f = true →
  (in_use_by (core bs))⟦f_vc f⟧ < 0 → has_slot bs (f_vc f) →
  returns (BufferStateOps.TakeBuffer bs (f_vc f) (f_pid f)) (λ bs', may_go bs bs' f).
Proof.
  intros [H1 H2 H3 H4 H5 H6 H7] Hv [Hp _] Hh Hu Hs. pose proof (TakeBuffer_safe bs (f_vc f) (f_pid f) H1 ltac:(lia) Hu Hp) as (bs' & Et & Hi & Hc).
  exists bs'. split; [done|]. unfold may_go. rewrite Hh. split_and!; try done; try apply Hv. by eapply TakeBuffer_slot.
Qed.

Lemma may_go_core n inj crd bs0 bs f : terminal_ok n inj crd bs0 → flit_ok f → may_go bs0 bs f →
  vcs (core bs) = V ∧ size (core bs) = ns_bsize S ∧ is_open (core bs) (f_vc f) = true ∧ (in_use_by (core bs))⟦f_vc f⟧ = f_pid f ∧
  (∀ w, occ (core bs) w = occ (core bs0) w) ∧
  (∀ w, 0 ≤ w < V → w ≠ f_vc f → is_open (core bs) w = is_open (core bs0) w ∧ (in_use_by (core bs))⟦w⟧ = (in_use_by (core bs0))⟦w⟧) ∧
  stream None (on_vc (f_vc f) inj) = Some (if f_head f then None else Some (f_pid f)).
Proof.
  intros [[H1 _] H2 H3 H4 H5 H6 H7] [Hp _] (Hi & Hs & Hv & Hm). pose proof (co_use_len _ H1) as L1. pose proof (co_tail_len _ H1) as L2. rewrite H5 by done.
  destruct (f_head f).
  - destruct Hm as [Hu ->]. assert (is_open (core bs0) (f_vc f) = false) as -> by (unfold is_open; by rewrite (proj2 (Z.leb_gt _ _) Hu)).
    assert (to_int (f_pid f) = f_pid f) as Et by (apply to_int_id; unfold int_min; lia).
    assert ((in_use_by (taken (core bs0) (f_vc f) (f_pid f)))⟦f_vc f⟧ = f_pid f) as Eu by (simpl; rewrite znth_zupd_eq by lia; done).
    split_and!; try done.
    + apply is_open_spec. rewrite Eu. split; [lia|]. simpl. by rewrite znth_zupd_eq by lia.
    + intros w Hw Hne. unfold is_open. simpl. by rewrite !znth_zupd_ne by lia.
  - destruct Hm as (-> & Ho & Hu). rewrite Ho, Hu. split_and!; done.
Qed.

Definition same_packet (f f' : Flit) : Prop :=
  f_vc f' = f_vc f ∧ f_head f' = f_head f ∧ f_tail f' = f_tail f ∧ f_pid f' = f_pid f ∧ f_hops f' = f_hops f.

Lemma terminal_send now n inj crd bs0 bs f f' : terminal_ok n inj crd bs0 → flit_ok f → may_go bs0 bs f → same_packet f f' →
  (f_head f' = true → expected S (Inject n) f') → orderly S (inj ++ [f']) →
  returns (BufferStateOps.SendingFlit now bs f) (λ bs', terminal_ok n (inj ++ [f']) crd bs' ∧
    (∀ w, 0 ≤ w < V → w ≠ f_vc f → is_open (core bs') w = is_open (core bs0) w ∧ (in_use_by (core bs'))⟦w⟧ = (in_use_by (core bs0))⟦w⟧) ∧
    (f_tail f = false → is_open (core bs') (f_vc f) = true ∧ (in_use_by (core bs'))⟦f_vc f⟧ = f_pid f)).
Proof.
  intros HT Hok Hgo (E1 & E2 & E3 & E4 & E5) Hex Hor. destruct (may_go_core n inj crd bs0 bs f HT Hok Hgo) as (C1 & C2 & C3 & C4 & C5 & C6 & C7).
  destruct HT as [H1 H2 H3 H4 H5 H6 H7]. destruct Hgo as (Hi & Hs & Hv & _). pose proof Hi as [Hc _].
  assert (0 ≤ f_vc f < vcs (core bs)) as Hvb by lia.
  eapply returns_mono; [apply SendingFlit_slot; [done|lia|done|done]|]. intros bs' [I1 Ec].
  pose proof (sent_touched (core bs) f Hc Hvb) as Hto. pose proof (touched_moved _ _ _ _ Hc Hvb Hto) as [_ _ _ Hocc].
  pose proof (sent_open (core bs) f Hc Hvb C3) as Hop. rewrite C1 in Hocc. pose proof (co_use_len _ Hc) as L1.
  assert (∀ w, 0 ≤ w < V → w ≠ f_vc f → is_open (core bs') w = is_open (core bs0) w ∧ (in_use_by (core bs'))⟦w⟧ = (in_use_by (core bs0))⟦w⟧) as Hother.
  { intros w Hw Hne. destruct (C6 w Hw Hne) as [<- <-]. rewrite Ec. destruct (to_other _ _ _ _ Hto w ltac:(lia) Hne) as [U1 U2]. unfold is_open. by rewrite U1, U2. }
  assert (f_tail f = false → (in_use_by (core bs'))⟦f_vc f⟧ = f_pid f) as Hkeep by (intros Ht; rewrite Ec; simpl; by rewrite Ht).
  split_and!; [|done|intros Ht; split; [by rewrite Ec, Hop, Ht|by apply Hkeep]]. split; try done.
  - by rewrite Ec.
  - by rewrite Ec.
  - intros w Hw. rewrite Ec, Hocc, nflits_snoc, E1 by done. unfold bump. rewrite C5. specialize (H4 w Hw). repeat case_decide; simplify_eq; lia.
  - intros w Hw. rewrite on_vc_snoc, E1. destruct (decide (f_vc f = w)) as [<-|Hne].
    + rewrite (stream_snoc _ _ _ _ C7), Ec, Hop. unfold next_flit. rewrite E2, E3, E4. rewrite <- Ec.
      destruct (f_head f); simpl; rewrite ?Z.eqb_refl; simpl; destruct (f_tail f) eqn:Et; simpl; try done; by rewrite Hkeep.
    + destruct (Hother w Hw ltac:(done)) as [-> ->]. by apply H5.
  - apply Forall_app_2; [done|]. apply Forall_singleton. rewrite E1. split_and!; [apply Hv..| |done]. unfold flit_ok in *. by rewrite E4, E5.
Qed.
End terminal.
