(* ===== verification/SimInv.v ===== *)
(** * The simulator: what is assumed, and what the nodes keep

    [SimSetup]: a network that satisfies [NetSetup], the options of the traffic
    manager, and what the routing function gives for a new packet.  [nodes_ok] is
    the invariant of the part of the traffic manager that sends flits. *)

From S2P Require Import Prelude StdMap OutputSet Flit VCBuffer BufferState BufferStateInv Credits Link Arbiter Allocator AllocLaws Rng KNCube Route SwitchAlloc IQRouter IQSwitch Wormhole RouterInv RouterQueues RouterStages RouterRoute RouterVCAlloc RouterSwitchAlloc RouterSend RouterSwitch RouterStep RouterRun RouterSpec RouterFlow Channel Network NetChannels NetworkInv NetworkRun TrafficManager Terminal Packets.
Import CoreOps Credits Link NetworkOps TMOps.

#[export] Instance Network_inhabited {VA SA PA : Type} : Inhabited (Network VA SA PA) :=
  populate (mkNetwork (mkChannels [] [] []) (mkChannels [] [] []) []).

(** ** Setup *)

(** The head of a new packet of node [n]. *)
Record newborn (N : NetConfig) (n : Z) (f : Flit) : Prop := {
  nb_head : f_head f = true;
  nb_src : f_src f = n;
  nb_dest : 0 ≤ f_dest f < nc_nodes N;
  nb_cl : 0 ≤ f_cl f < nc_classes N;
  nb_vc : f_vc f = -1;
  nb_hops : f_hops f = 0
}.

(** [ss_enters n f]: [f] has the VC it may be sent into the network on from node
    [n].  Packets have no priorities, or ones that only routers set, and connections
    are only held with one subnetwork. *)
Record SimSetup (VA SA PA : Type) : Type := {
  ss_S : NetSetup VA SA PA;
  ss_T : TMConfig;
  ss_enters : Z → Flit → Prop;
  ss_nodes : tc_nodes ss_T = nc_nodes (ns_N ss_S);
  ss_classes : tc_classes ss_T = nc_classes (ns_N ss_S);
  ss_classes_pos : 0 < tc_classes ss_T;
  ss_subnets_pos : 0 < tc_subnets ss_T;
  ss_subnet_len : zlen (tc_subnet ss_T) = tc_classes ss_T;
  ss_measure_len : zlen (tc_measure_stats ss_T) = tc_classes ss_T;
  ss_subnet : ∀ c, 0 ≤ c < tc_classes ss_T → 0 ≤ (tc_subnet ss_T)⟦c⟧ < tc_subnets ss_T;
  ss_noq : tc_noq ss_T = false;
  ss_pri : tc_pri_type ss_T ∈ [local_age_based; queue_length_based; hop_count_based; pri_none];
  ss_hold : tc_hold_switch_for_packet ss_T = true → tc_subnets ss_T = 1;
  ss_route : ∀ n f g, 0 ≤ n < tc_nodes ss_T → newborn (ns_N ss_S) n f → RngInv.rng_ok g →
    returns (ns_rf ss_S no_router f (-1) [] true g) (λ '(rs, f', g'), RngInv.rng_ok g' ∧ rerouted f f' ∧ f_pri f' = f_pri f ∧
      ∃ se, rs = [se] ∧ output_port se = -1 ∧ 0 ≤ vc_start se ≤ vc_end se ∧ vc_end se < ns_vcs ss_S ∧
      ∀ w, vc_start se ≤ w ≤ vc_end se → ss_enters n (FlitOps.set_vc w f'));
  ss_first : tc_lookahead_routing ss_T = false → ∀ n f t, 0 ≤ n < tc_nodes ss_T → ss_enters n f →
    expected ss_S (Inject n) (set_itime t (FlitOps.set_la_route_set [] f));
  ss_lookahead : tc_lookahead_routing ss_T = true → ∀ n f r i occ g, 0 ≤ n < tc_nodes ss_T → ss_enters n f →
    input_at (ns_N ss_S) r i → in_chan (ns_N ss_S) r i = Inject n → zlen occ = q_outputs (su_C (ns_E ss_S r)) → RngInv.rng_ok g →
    returns (ns_rf ss_S (mkRouter (q_id (su_C (ns_E ss_S r))) occ (su_faults (ns_E ss_S r))) f i (f_la_route_set f) false g)
      (λ '(rs, f', g'), RngInv.rng_ok g' ∧ rerouted f f' ∧ ∀ t, expected ss_S (Inject n) (set_itime t (FlitOps.set_la_route_set rs f')))
}.
Arguments ss_S {VA SA PA} _.
Arguments ss_T {VA SA PA} _.
Arguments ss_enters {VA SA PA} _.
Arguments ss_nodes {VA SA PA} _.
Arguments ss_classes {VA SA PA} _.
Arguments ss_classes_pos {VA SA PA} _.
Arguments ss_subnets_pos {VA SA PA} _.
Arguments ss_subnet_len {VA SA PA} _.
Arguments ss_measure_len {VA SA PA} _.
Arguments ss_subnet {VA SA PA} _.
Arguments ss_noq {VA SA PA} _.
Arguments ss_pri {VA SA PA} _.
Arguments ss_hold {VA SA PA} _.
Arguments ss_route {VA SA PA} _.
Arguments ss_first {VA SA PA} _.
Arguments ss_lookahead {VA SA PA} _.

(** ** Sums by node *)

Definition zsum2 (n m : Z) (F : Z → Z → Z) : Z := zsumf (λ i, zsumf (F i) m) n.

Lemma zsum2_change n m F G i j : 0 ≤ i < n → 0 ≤ j < m →
  (∀ i' j', 0 ≤ i' < n → 0 ≤ j' < m → ¬ (i' = i ∧ j' = j) → G i' j' = F i' j') → zsum2 n m G = zsum2 n m F + (G i j - F i j).
Proof.
  intros Hi Hj Hs. unfold zsum2. rewrite (zsumf_change (λ i, zsumf (F i) m) (λ i, zsumf (G i) m) n i Hi).
  - rewrite (zsumf_change (F i) (G i) m j Hj); [lia|]. intros w Hw Hne. apply Hs; [done..|]. by intros [_ ?].
  - intros w Hw Hne. apply zsumf_ext. intros v Hv. apply Hs; [done..|]. by intros [? _].
Qed.

Lemma zsum2_ext n m F G : (∀ i j, 0 ≤ i < n → 0 ≤ j < m → G i j = F i j) → zsum2 n m G = zsum2 n m F.
Proof. intros He. apply zsumf_ext. intros i Hi. apply zsumf_ext. intros j Hj. by apply He. Qed.

Lemma zsum2_ge n m F i j : 0 ≤ i < n → 0 ≤ j < m → (∀ i j, 0 ≤ F i j) → F i j ≤ zsum2 n m F.
Proof.
  intros Hi Hj Hp. etrans; [apply (zsumf_ge (F i) m j Hj); auto|]. apply (zsumf_ge (λ i, zsumf (F i) m) n i Hi). intros w Hw. apply zsumf_nonneg; [lia|auto].
Qed.

Lemma zsum2_nonneg n m F : 0 ≤ n → 0 ≤ m → (∀ i j, 0 ≤ F i j) → 0 ≤ zsum2 n m F.
Proof. intros Hn Hm Hp. apply zsumf_nonneg; [done|]. intros i Hi. by apply zsumf_nonneg. Qed.

Definition is_id (k : Z) (f : Flit) : bool := f_id f =? k.

(** ** The invariant of the nodes *)

Section sim.
Context {VA SA PA : Type} `{Inhabited SA} (M : SimSetup VA SA PA).
Local Abbreviation S := (ss_S M).
Local Abbreviation N := (ns_N (ss_S M)).
Local Abbreviation T := (ss_T M).
Local Abbreviation V := (ns_vcs (ss_S M)).
Local Abbreviation nodes := (tc_nodes (ss_T M)).
Local Abbreviation subnets := (tc_subnets (ss_T M)).
Local Abbreviation classes := (tc_classes (ss_T M)).
Local Abbreviation TM := (TM VA SA PA).
Implicit Types (tm : TM) (X : Z → NetHist) (L : list Packet).

(** The subnetwork of a class, the queue of node [n] and class [c], and the credits
    of node [n] in subnetwork [s]. *)
Definition subnet_of (c : Z) : Z := (tc_subnet T)⟦c⟧.
Definition queue_of tm (n c : Z) : list Flit := at2 (tm_partial_packets tm) n c.
Definition buf_of tm (n s : Z) : BufferState := at2 (tm_buf_states tm) n s.
Definition last_vc_of tm (n s c : Z) : Z := (at2 (tm_last_vc tm) n s)⟦c⟧.

Definition node_at (n : Z) : Prop := 0 ≤ n < nodes.
Definition class_at (c : Z) : Prop := 0 ≤ c < classes.
Definition subnet_at (s : Z) : Prop := 0 ≤ s < subnets.

(** The packets have been numbered. *)
Definition packet_ok (pk : Packet) : Prop := node_at (pk_src pk) ∧ node_at (pk_dest pk) ∧ class_at (pk_cl pk).

Record logged L tm : Prop := {
  lo_log : log_ok L;
  lo_pids : tm_cur_pid tm = zlen L;
  lo_ids : tm_cur_id tm = flits_in L;
  lo_max : zlen L ≤ int_max + 1;
  lo_packets : Forall packet_ok L
}.

Definition queued_ids tm (k : Z) : Z := zsum2 nodes classes (λ n c, tally (is_id k) (queue_of tm n c)).
Definition injected_ids X (k : Z) : Z := zsum2 subnets nodes (λ s n, tally (is_id k) (x_injected (X s) n)).

Record nodes_ok X L tm : Prop := {
  sn_bufs : grid nodes subnets (tm_buf_states tm);
  sn_last_vcs : grid nodes subnets (tm_last_vc tm);
  sn_vcs : ∀ n s, node_at n → subnet_at s → zlen (at2 (tm_last_vc tm) n s) = classes;
  sn_last_classes : grid nodes subnets (tm_last_class tm);
  sn_classes : ∀ n s, node_at n → subnet_at s → class_at (at2 (tm_last_class tm) n s);
  sn_queues : grid nodes classes (tm_partial_packets tm);
  sn_terminal : ∀ n s, node_at n → subnet_at s → terminal_ok S n (x_injected (X s) n) (x_credited (X s) n) (buf_of tm n s);
  sn_queue : ∀ n c, node_at n → class_at c → queue_ok L n c (queue_of tm n c);
  sn_front : ∀ n c, node_at n → class_at c → let s := subnet_of c in
    front_ok V (buf_of tm n s) (last_vc_of tm n s c) (x_injected (X s) n) (queue_of tm n c);
  sn_injected : ∀ n s, node_at n → subnet_at s → Forall (flit_of L) (x_injected (X s) n);
  sn_ids : ∀ k, 0 ≤ k < flits_in L → queued_ids tm k + injected_ids X k = 1
}.

(** ** Facts *)

Lemma subnet_of_at c : class_at c → subnet_at (subnet_of c).
Proof. apply (ss_subnet M). Qed.

Lemma logged_packet L tm p pk : logged L tm → packet_at L p pk → 0 ≤ p ≤ int_max ∧ packet_ok pk.
Proof.
  intros [_ _ _ Hm Hp] [Hp0 Hl]. pose proof (lookup_lt_Some _ _ _ Hl). split; [unfold zlen in Hm; lia|]. by eapply Forall_lookup_1 in Hp.
Qed.

Lemma logged_flit L tm f : logged L tm → flit_of L f → 0 ≤ f_pid f ≤ int_max ∧ in_class S f ∧ node_at (f_src f) ∧ node_at (f_dest f).
Proof.
  intros HL (pk & i & Hp & Hf). destruct (logged_packet L tm _ _ HL Hp) as (Hm & P1 & P2 & P3). unfold in_class. rewrite <- (ss_classes M).
  rewrite (fl_cl _ _ _ Hf), (fl_src _ _ _ Hf), (fl_dest _ _ _ Hf). done.
Qed.

Lemma waits_ok L tm n c f : logged L tm → waits L n c f → flit_ok f ∧ in_class S f.
Proof. intros HL [H1 _ _ _ H5]. destruct (logged_flit L tm f HL H1) as (Hp & Hc & _). unfold flit_ok. rewrite H5. done. Qed.
(** ** The rest *)

(** What sending does not touch. *)
Definition rest_of (tm : TM) := (tm_total_in_flight_flits tm, tm_measured_in_flight_flits tm, tm_retired_packets tm, tm_packet_seq_no tm,
  tm_requestsOutstanding tm, tm_ejection_queue tm, tm_deadlock_timer tm, tm_sim_state tm, tm_drain_time tm, tm_cur_id tm, tm_cur_pid tm, tm_time tm).

Definition counts_ok (k : Counts) : Prop :=
  grid classes nodes (cn_sent_flits k) ∧ grid classes nodes (cn_sent_packets k) ∧
  grid classes nodes (cn_accepted_flits k) ∧ grid classes nodes (cn_accepted_packets k).

Lemma incr_ok v i j : grid classes nodes v → class_at i → node_at j → returns (incr v i j) (grid classes nodes).
Proof.
  intros Hv Hi Hj. unfold incr. rewrite (vget2_ok classes nodes) by done. cbn [mbind res_bind]. eapply returns_mono; [by apply (vset2_ok classes nodes)|]. by intros v' [? _].
Qed.
End sim.
