(* ===== verification/SimNodes.v ===== *)
(** * The simulator: what nodes send and receive

    In a cycle every node takes the flit and the credit that arrive, and sends at
    most one flit into a subnetwork: the choice of the class and the VC, and what
    is sent, keep the invariant and never fail. *)

From S2P Require Import Prelude StdMap OutputSet Flit VCBuffer BufferState BufferStateInv Credits Link Channel Arbiter Allocator AllocLaws Rng KNCube Route SwitchAlloc IQRouter IQSwitch Wormhole RouterInv RouterQueues RouterStages RouterRoute RouterVCAlloc RouterSwitchAlloc RouterSend RouterSwitch RouterStep RouterRun RouterSpec RouterFlow Network TrafficManager NetChannels NetworkInv NetworkRun NetworkSpec Packets Terminal SimInv.
Import CoreOps Credits Link NetworkOps TMOps.

(** ** Looking for a VC *)

Lemma search_vc_ok now bs lvc start last count : inv bs → 0 ≤ start ≤ last → last < vcs (core bs) → count = last - start + 1 →
  returns (search_vc now bs lvc start last count) (λ found, match found with
    | Some vc => start ≤ vc ≤ last ∧ (in_use_by (core bs))⟦vc⟧ < 0 ∧ BufferStateOps.IsFullFor now bs vc = Ok false
    | None => True end).
Proof.
  intros Hi Hr Hl ->. unfold search_vc. eapply returns_bind.
  - apply (returns_forb (λ _ (o : option Z), o = None) (λ found, ∃ vc, found = Some vc ∧ start ≤ vc ≤ last ∧ (in_use_by (core bs))⟦vc⟧ < 0 ∧ BufferStateOps.IsFullFor now bs vc = Ok false)); [lia|done|].
    intros i o Hii _. set (vc := if (lvc <? start) || (last <? lvc) then start else start + (lvc - start + i) `rem` (last - start + 1)).
    assert (start ≤ vc ≤ last) as Hvc.
    { subst vc. destruct (Z.ltb_spec lvc start), (Z.ltb_spec last lvc); simpl; try lia. pose proof (Z.rem_bound_pos (lvc - start + i) (last - start + 1) ltac:(lia) ltac:(lia)). lia. }
    apply returns_assert; [lia|]. rewrite IsAvailableFor_ok by (done || lia). cbn [mbind res_bind]. destruct (Z.ltb_spec ((in_use_by (core bs))⟦vc⟧) 0); cbn [negb]; [|by apply returns_ok].
    destruct (IsFullFor_slot now bs vc Hi ltac:(lia)) as (full & Ef & _). rewrite Ef. apply returns_ok. destruct full; [done|]. exists vc. split_and!; done || lia.
  - intros r Hr'. apply returns_ok. destruct r as [o|o]; simpl in *; [by subst|by destruct Hr' as (vc & -> & ?)].
Qed.

Section node.
Context {VA SA PA : Type} `{Inhabited SA} (M : SimSetup VA SA PA).
Local Abbreviation S := (ss_S M).
Local Abbreviation N := (ns_N (ss_S M)).
Local Abbreviation T := (ss_T M).
Local Abbreviation V := (ns_vcs (ss_S M)).
Local Abbreviation nodes := (tc_nodes (ss_T M)).
Local Abbreviation subnets := (tc_subnets (ss_T M)).
Local Abbreviation classes := (tc_classes (ss_T M)).
Local Abbreviation TM := (TM VA SA PA).
Local Abbreviation rf := (ns_rf (ss_S M)).

(** Node [n] and subnetwork [s], before the classes are considered. *)
Context (X : Z → NetHist) (L : list Packet) (tm : TM) (n s : Z).
Context (HL : logged M L tm) (HS : nodes_ok M X L tm) (Hn : node_at M n) (Hs : subnet_at M s) (Hrng : RngInv.rng_ok (tm_rng tm)).
Local Abbreviation bs := (buf_of tm n s).

Lemma buf_inv : inv bs ∧ vcs (core bs) = V.
Proof. by destruct (sn_terminal _ _ _ _ HS n s Hn Hs). Qed.

(** ** The classes *)

(** A queue whose front the routing function may have changed, and one whose front
    has a VC and a slot. *)
Definition fresh (c : Z) (q' : list Flit) : Prop :=
  match queue_of tm n c, q' with
  | [], [] => True
  | f :: r, f' :: r' => r' = r ∧ refreshed f f'
  | _, _ => False
  end.

Definition chosen (c : Z) (q' : list Flit) : Prop := subnet_of M c = s ∧ ∃ f f' r,
  queue_of tm n c = f :: r ∧ q' = f' :: r ∧ strip f' = strip f ∧ f_hops f' = f_hops f ∧ f_pri f' = f_pri f ∧
  0 ≤ f_vc f' < V ∧ has_slot bs (f_vc f') ∧
  if f_head f' then (in_use_by (core bs))⟦f_vc f'⟧ < 0 ∧ ss_enters M n f' else f_vc f' = f_vc f.

(** While the classes are considered; [o] is the class chosen. *)
Record considering (o : option Z) (tm' : TM) : Prop := {
  cs_tm : ∃ g v, RngInv.rng_ok g ∧ tm' = with_rng g (with_partial_packets v tm);
  cs_grid : grid nodes classes (tm_partial_packets tm');
  cs_other : ∀ n' c, node_at M n' → class_at M c → n' ≠ n → queue_of tm' n' c = queue_of tm n' c;
  cs_class : ∀ c, o = Some c → class_at M c ∧ chosen c (queue_of tm' n c);
  cs_fresh : ∀ c, class_at M c → o ≠ Some c → fresh c (queue_of tm' n c)
}.

Lemma fresh_self c : fresh c (queue_of tm n c).
Proof. unfold fresh. by destruct (queue_of tm n c). Qed.

Lemma front_of_ok o tm' c : considering o tm' → class_at M c → front_of n c tm' = Ok (head (queue_of tm' n c)).
Proof. intros HC Hc. unfold front_of. by rewrite (vget2_ok nodes classes) by (done || apply HC). Qed.

(** The queue of class [c] has a new front. *)
Lemma considering_front tm' c f r f' v g (o := if decide (f_vc f' = -1) then None else Some c) : considering None tm' → class_at M c → queue_of tm' n c = f :: r →
  RngInv.rng_ok g → (∀ f0, queue_of tm n c = f0 :: r → refreshed f0 f → if decide (f_vc f' = -1) then refreshed f0 f' else chosen c (f' :: r)) →
  vset2 (tm_partial_packets tm') n c (f' :: r) = Ok v → considering o (with_rng g (with_partial_packets v tm')).
Proof.
  intros HC Hc Hq Hg Hf Hv. destruct HC as [(g0 & v0 & _ & ->) C2 C3 _ C5]. destruct (vset2_ok nodes classes _ n c (f' :: r) C2 Hn Hc) as (v' & Hv' & Hgr & Hat).
  rewrite Hv in Hv'. injection Hv' as <-. specialize (C5 c Hc ltac:(done)) as Hfr. rewrite Hq in Hfr. unfold fresh in Hfr.
  destruct (queue_of tm n c) as [|f0 r0] eqn:Eq; [done|]. destruct Hfr as [<- Hrf]. specialize (Hf f0 eq_refl Hrf).
  assert (queue_of (with_rng g (with_partial_packets v (with_rng g0 (with_partial_packets v0 tm)))) n c = f' :: r) as E1
    by (unfold queue_of; simpl; rewrite Hat by done; by rewrite decide_True).
  split.
  - exists g, v. done.
  - done.
  - intros n' c' Hn' Hc' Hne. rewrite <- C3 by done. unfold queue_of. simpl. rewrite Hat by done. by rewrite decide_False by (intros [? _]; congruence).
  - intros c' Ec. subst o. case_decide; [done|]. injection Ec as <-. by rewrite E1.
  - intros c' Hc' Hne. destruct (decide (c' = c)) as [->|Hcc].
    + rewrite E1. unfold fresh. rewrite Eq. subst o. by case_decide.
    + specialize (C5 c' Hc' ltac:(done)). unfold queue_of in *. simpl in *. rewrite Hat by done. by rewrite decide_False by (intros [_ ?]; congruence).
Qed.

Lemma considering_waits o tm' c f r : considering o tm' → class_at M c → queue_of tm' n c = f :: r → waits L n c f.
Proof.
  intros HC Hc Hq. pose proof (qu_flits _ _ _ _ (sn_queue _ _ _ _ HS n c Hn Hc)) as HQ. destruct (decide (o = Some c)) as [->|Hne].
  - destruct (cs_class _ _ HC c eq_refl) as (_ & _ & f0 & f' & r' & E0 & E1 & Es & Eh & Ep & _). rewrite E0 in HQ. apply Forall_cons in HQ as [HQ _].
    rewrite Hq in E1. injection E1 as -> _. by eapply waits_strip.
  - pose proof (cs_fresh _ _ HC c Hc Hne) as Hfr. rewrite Hq in Hfr. unfold fresh in Hfr. destruct (queue_of tm n c) as [|f0 r0]; [done|].
    destruct Hfr as [-> (E1 & E2 & E3 & E4)]. apply Forall_cons in HQ as [HQ _]. by eapply waits_strip.
Qed.

Lemma find_vc_ok tm' c f r : considering None tm' → class_at M c → subnet_of M c = s → queue_of tm' n c = f :: r → f_head f = true → f_vc f = -1 →
  returns (find_vc rf N T s n c bs f tm') (λ '(f', tm2), considering (if decide (f_vc f' = -1) then None else Some c) tm2 ∧
    (f_vc f' ≠ -1 → BufferStateOps.IsFullFor (tm_time tm) bs (f_vc f') = Ok false)).
Proof.
  intros HC Hc Hsub Hq Hh Hv. destruct (cs_tm _ _ HC) as (g0 & v0 & Hg0 & Etm). unfold find_vc.
  destruct (considering_waits _ _ _ _ _ HC Hc Hq) as [W1 W2 W3 W4 W5].
  destruct (logged_flit M L tm f HL W1) as (Hp & Hcl & Hsrc & Hdest). unfold in_class in Hcl.
  eapply returns_bind; [apply (ss_route M n f (tm_rng tm') Hn)|].
  { unfold node_at in *. rewrite (ss_nodes M) in *. split; try done; rewrite W2; done. }
  { subst tm'. done. }
  intros [[rs f1] g1] (Hg & (R1 & R2 & R3) & Hpri & se & -> & Ho & Hr1 & Hr2 & Hent). cbn [mbind res_bind]. apply returns_assert; [lia|].
  rewrite (ss_noq M). cbn [mbind res_bind]. destruct buf_inv as [Hi Hvs].
  rewrite (vget2_ok nodes subnets (tm_last_vc tm')) by (subst tm'; done || apply HS). cbn [mbind res_bind].
  rewrite (proj2 (Z.ltb_lt _ _)) by lia. rewrite vget_ok by (subst tm'; cbn; rewrite (sn_vcs _ _ _ _ HS n s Hn Hs); done). cbn [mbind res_bind].
  eapply returns_bind; [apply search_vc_ok; try done; lia|]. intros found Hfound. cbn [mbind res_bind].
  rewrite (vget2_ok nodes classes) by (done || apply HC). cbn [mbind res_bind]. fold (queue_of tm' n c). rewrite Hq. cbn [tail].
  set (f' := match found with Some vc => set_vc vc f1 | None => f1 end).
  destruct (vset2_ok nodes classes (tm_partial_packets tm') n c (f' :: r) (cs_grid _ _ HC) Hn Hc) as (v & Hvs' & _). rewrite Hvs'. cbn [mbind res_bind]. apply returns_ok.
  assert (tm_time tm' = tm_time tm) as Et by (by subst tm'). rewrite Et in Hfound. split.
  - eapply considering_front; try done. intros f0 E0 (F1 & F2 & F3 & F4). subst f'. destruct found as [vc|]; simpl.
    + destruct Hfound as (Hvc & Hu & Hfull). rewrite decide_False by lia. split; [done|]. exists f0, (set_vc vc f1), r. split_and!; try done; try (simpl; congruence || lia).
      * change (strip (set_vc vc f1)) with (strip f1). congruence.
      * simpl. destruct (IsFullFor_slot (tm_time tm) bs vc Hi ltac:(lia)) as (b & Eb & Hb). rewrite Hfull in Eb. injection Eb as <-. by apply Hb.
      * destruct (strip_packet _ _ R1) as (Eh & _). simpl. rewrite Eh, Hh. split; [done|]. by apply Hent.
    + rewrite decide_True by congruence. split_and!; congruence.
  - intros Hne. subst f'. destruct found as [vc|]; simpl in *; [apply Hfound|congruence].
Qed.

(** One class. *)
Lemma consider_ok o tm' i c' : considering o tm' → class_at M c' → 0 < i →
  returns (consider rf N T s n c' i (o, tm')) (λ '(o', tm2), considering o' tm2).
Proof.
  intros HC Hc' Hi. unfold consider. set (c := (c' + i) `rem` classes). unfold class_at in Hc'.
  assert (class_at M c) as Hc by (apply Z.rem_bound_pos; lia). pose proof (ss_subnet_len M) as Hsl. unfold class_at in Hc.
  rewrite vget_ok by lia. cbn [mbind res_bind]. destruct (Z.eqb_spec ((tc_subnet T)⟦c⟧) s) as [Esub|]; cbn [negb]; [|by apply returns_ok].
  rewrite (front_of_ok o) by done. cbn [mbind res_bind].
  destruct (queue_of tm' n c) as [|f r] eqn:Eq; [by apply returns_ok|]. cbn [head]. destruct (considering_waits _ _ _ _ _ HC Hc Eq) as [W1 W2 W3 W4 W5].
  apply returns_assert; [lia|]. destruct o as [c0|].
  - destruct (cs_class _ _ HC c0 eq_refl) as (Hc0 & _ & f0 & f' & r' & _ & E1 & _). rewrite (front_of_ok (Some c0)) by done. cbn [mbind res_bind].
    destruct (considering_waits _ _ _ _ _ HC Hc0 E1) as [_ _ _ W4' _]. rewrite E1. cbn [head mbind res_bind]. rewrite W4, W4'. by apply returns_ok.
  - cbn [mbind res_bind]. destruct (cs_tm _ _ HC) as (g0 & v0 & Hg0 & Etm). assert (tm_buf_states tm' = tm_buf_states tm ∧ tm_time tm' = tm_time tm) as [Eb Et] by (by subst tm').
    rewrite Eb. rewrite (vget2_ok nodes subnets) by (done || apply HS). cbn [mbind res_bind]. fold bs. destruct buf_inv as [Hinv Hvs].
    pose proof (cs_fresh _ _ HC c Hc ltac:(done)) as Hfr. rewrite Eq in Hfr. unfold fresh in Hfr. destruct (queue_of tm n c) as [|f0 r0] eqn:Eq0; [done|].
    destruct Hfr as [-> Hrf]. pose proof Hrf as (F1 & F2 & F3 & F4). destruct (strip_packet _ _ F1) as (Fh & _). pose proof (sn_queue _ _ _ _ HS n c Hn Hc) as HQ. rewrite Eq0 in HQ.
    destruct (f_head f) eqn:Eh; cbn [andb].
    + assert (f_vc f = -1) as Ev by (rewrite F2; apply (qu_front _ _ _ _ HQ); done || congruence). rewrite (proj2 (Z.eqb_eq _ _) Ev).
      eapply returns_bind; [by eapply find_vc_ok|]. intros [f' tm2] [HC2 Hfull]. destruct (cs_tm _ _ HC2) as (g2 & v2 & _ & Etm2).
      assert (tm_time tm2 = tm_time tm) as Et2 by (by subst tm2). revert HC2. case_decide as Hd; intros HC2; [rewrite (proj2 (Z.eqb_eq _ _) Hd); by apply returns_ok|].
      rewrite (proj2 (Z.eqb_neq _ _) Hd), Et2, Hfull by done. by apply returns_ok.
    + cbn [mbind res_bind]. assert (goes_on V (buf_of tm n (subnet_of M c)) (last_vc_of tm n (subnet_of M c) c) (x_injected (X (subnet_of M c)) n) f0) as [G1 _ _ _ _].
      { apply (sn_front _ _ _ _ HS n c Hn Hc); [by rewrite Eq0|congruence]. }
      rewrite (proj2 (Z.eqb_neq _ _)) by lia. rewrite Et. eapply returns_bind; [apply IsFullFor_slot; [done|lia]|]. intros full Hfull. apply returns_ok.
      destruct full; [done|]. destruct HC as [C1 C2 C3 C4 C5]. split; try done.
      * intros c2 [= <-]. split; [done|]. rewrite Eq. split; [done|]. exists f0, f, r0. rewrite Eh. split_and!; try done; [lia..|by apply Hfull].
      * intros c2 Hc2 _. by apply C5.
Qed.

(** Held connections: the class the node is in the middle of a packet of. *)
Lemma held_class_ok c' : class_at M c' → returns (held_class T s n c' tm) (λ o, considering o tm).
Proof.
  intros Hc'. assert (considering None tm) as HC.
  { split; try done; [|apply HS|intros; apply fresh_self]. exists (tm_rng tm), (tm_partial_packets tm). split; [done|]. by destruct tm. }
  unfold held_class. destruct (tc_hold_switch_for_packet T) eqn:Eh; [|by apply returns_ok].
  rewrite (front_of_ok None) by done. cbn [mbind res_bind]. destruct (queue_of tm n c') as [|f r] eqn:Eq; [by apply returns_ok|]. cbn [head].
  destruct (f_head f) eqn:Ehd; [by apply returns_ok|]. rewrite (vget2_ok nodes subnets (tm_buf_states tm)) by (done || apply HS). cbn [mbind res_bind]. fold bs.
  pose proof (subnet_of_at M c' Hc') as Hsub. pose proof (ss_hold M Eh) as H1. unfold subnet_at in Hsub, Hs. assert (subnet_of M c' = s) as Esub by lia.
  destruct (sn_front _ _ _ _ HS n c' Hn Hc' f) as [G1 G2 G3 G4 G5]; [by rewrite Eq|done|]. rewrite Esub in *. destruct buf_inv as [Hinv Hvs].
  eapply returns_bind; [apply IsFullFor_slot; [done|lia]|]. intros full Hfull. destruct full; [by apply returns_ok|].
  rewrite (vget2_ok nodes subnets) by (done || apply HS). cbn [mbind res_bind]. rewrite vget_ok by (rewrite (sn_vcs _ _ _ _ HS n s Hn Hs); done). cbn [mbind res_bind].
  apply returns_assert; [unfold last_vc_of in G4; lia|]. apply returns_ok. destruct HC as [C1 C2 C3 C4 C5]. split; try done.
  - intros c2 [= <-]. split; [done|]. split; [done|]. exists f, f, r. rewrite Ehd. split_and!; try done; [lia..|by apply Hfull].
  - intros c2 Hc2 _. by apply C5.
Qed.
(** Nothing is sent. *)
Lemma fresh_nodes tm' : considering None tm' → nodes_ok M X L tm'.
Proof.
  intros HC. assert (∀ n' c, node_at M n' → class_at M c → match queue_of tm n' c, queue_of tm' n' c with
    | [], [] => True | f :: r, f' :: r' => r' = r ∧ refreshed f f' | _, _ => False end) as Hf.
  { intros n' c Hn' Hc. destruct (decide (n' = n)) as [->|]; [by apply (cs_fresh _ _ HC)|]. rewrite (cs_other _ _ HC) by done. by destruct (queue_of tm n' c). }
  destruct (cs_tm _ _ HC) as (g & v & Hg & ->). pose proof HS as [S1 S2 S3 S4 S5 S6 S7 S8 S9 S10 S11]. split; try done.
  - apply HC.
  - intros n' c Hn' Hc. specialize (S8 n' c Hn' Hc). specialize (Hf n' c Hn' Hc). destruct (queue_of tm n' c), (queue_of _ n' c); try done. destruct Hf as [-> Hf]. by eapply queue_front.
  - intros n' c Hn' Hc s' f Hq Hh. specialize (S9 n' c Hn' Hc). specialize (Hf n' c Hn' Hc). destruct (queue_of tm n' c) as [|f0 q], (queue_of _ n' c) as [|f1 q1]; try done.
    injection Hq as ->. destruct Hf as [-> (F1 & F2 & _)]. destruct (strip_packet _ _ F1) as (Fh & _ & Fp). destruct (S9 f0 eq_refl ltac:(congruence)) as [G1 G2 G3 G4 (h & Hh' & Hid)].
    split; rewrite ?F2, ?Fp; try done. exists h. split; [done|]. rewrite <- Hid. exact (f_equal f_id F1).
  - intros k Hk. rewrite <- (S11 k Hk). f_equal. apply zsum2_ext. intros n' c Hn' Hc. specialize (Hf n' c Hn' Hc). apply tally_strip.
    destruct (queue_of tm n' c) as [|f0 q], (queue_of _ n' c) as [|f1 q1]; try done. destruct Hf as [-> (F1 & _)]. simpl. by rewrite F1.
Qed.

(** ** The flit *)

Section send.
Context (moves : Z → list Move) (Hlen : zlen (tm_net tm) = subnets).
Local Abbreviation nw := ((tm_net tm)⟦s⟧).
Context (Hnet : net_read S (tm_time tm) (X s) moves nw).

(** [f], first in the queue of class [c], is ready to be sent as [f2]. *)
Record prepared (c : Z) (f : Flit) (r : list Flit) (f2 : Flit) (tm2 : TM) : Prop := {
  pr_tm : ∃ g v bufs lvcs, RngInv.rng_ok g ∧ tm2 = with_rng g (with_last_vc lvcs (with_buf_states bufs (with_partial_packets v tm)));
  pr_queues : grid nodes classes (tm_partial_packets tm2);
  pr_other : ∀ n' c', node_at M n' → class_at M c' → n' ≠ n → queue_of tm2 n' c' = queue_of tm n' c';
  pr_fresh : ∀ c', class_at M c' → c' ≠ c → fresh c' (queue_of tm2 n c');
  pr_queue : tail (queue_of tm2 n c) = r;
  pr_strip : strip f2 = strip f ∧ f_hops f2 = f_hops f;
  pr_bufs : grid nodes subnets (tm_buf_states tm2);
  pr_go : may_go S bs (buf_of tm2 n s) f2;
  pr_buf : ∀ n' s', node_at M n' → subnet_at M s' → ¬ (n' = n ∧ s' = s) → buf_of tm2 n' s' = buf_of tm n' s';
  pr_last_vcs : grid nodes subnets (tm_last_vc tm2);
  pr_last_vc : at2 (tm_last_vc tm2) n s = (at2 (tm_last_vc tm) n s)⟦c := f_vc f2⟧;
  pr_vcs : ∀ n' s', node_at M n' → subnet_at M s' → ¬ (n' = n ∧ s' = s) → at2 (tm_last_vc tm2) n' s' = at2 (tm_last_vc tm) n' s';
  pr_same : f_head f2 = false → f_vc f2 = f_vc f;
  pr_expected : f_head f2 = true → ∀ t, expected S (Inject n) (set_itime t f2)
}.

(** The route of a head, at its first router if routes are looked up ahead. *)
Lemma first_route tm' f : considering (Some (f_cl f)) tm' → f_head f = true → ss_enters M n f →
  returns (if tc_lookahead_routing T then
      if negb (tc_noq T) then
        sk ← first_router N s n tm';
        '(la, f, g) ← rf (sk_router sk) f (sk_port sk) (f_la_route_set f) false (tm_rng tm');
        Ok (set_la_route_set la f, g)
      else Ok (f, tm_rng tm')
    else Ok (set_la_route_set (OutputSetOps.Clear (f_la_route_set f)) f, tm_rng tm'))
    (λ '(f2, g), RngInv.rng_ok g ∧ rerouted f f2 ∧ ∀ t, expected S (Inject n) (set_itime t f2)).
Proof.
  intros HC Hh Hen. destruct (cs_tm _ _ HC) as (g0 & v0 & Hg0 & ->). rewrite (ss_noq M). cbn [negb]. unfold node_at in Hn.
  destruct (tc_lookahead_routing T) eqn:El.
  - unfold first_router. cbn [tm_net with_rng with_partial_packets]. rewrite vget_ok by (rewrite Hlen; done). cbn [mbind res_bind].
    assert (valid_chan N (Inject n)) as Hv by (simpl; by rewrite <- (ss_nodes M)). rewrite (sink_at_ok S) by (done || apply Hnet). cbn [mbind res_bind].
    destruct (wd_sink _ (ns_wired S) (Inject n) Hv I) as (r & i & Hi & Ec). destruct (wd_input _ (ns_wired S) r i Hi) as (_ & _ & Hsk). rewrite Ec in Hsk.
    unfold sink_view. rewrite Hsk. cbn [mbind res_bind sk_router sk_port].
    eapply returns_bind; [apply (ss_lookahead M El n f r i); try done|].
    + unfold IQRouterOps.view. rewrite zlen_fmap. eapply (read_sized S). apply (nr_router _ _ _ _ _ Hnet). apply Hi.
    + intros [[rs f2] g2] (Hg2 & (R1 & R2 & R3) & Hex). apply returns_ok. split_and!; done.
  - apply returns_ok. split_and!; [done|done|]. intros t. by apply (ss_first M El).
Qed.
Lemma head_starts tm' c f f0 r : considering (Some c) tm' → queue_of tm' n c = f :: r → queue_of tm n c = f0 :: r → strip f = strip f0 → f_hops f = f_hops f0 →
  f_head f = true → 0 ≤ f_vc f < V → has_slot bs (f_vc f) → (in_use_by (core bs))⟦f_vc f⟧ < 0 → ss_enters M n f →
  returns (start_packet rf N T s n c f tm') (λ '(f2, tm2), prepared c f0 r f2 tm2).
Proof.
  intros HC Hq Hq0 Es Eh Hh Hv Hsl Hu Hen. destruct (cs_class _ _ HC c eq_refl) as [Hc _]. pose proof (considering_waits _ _ _ _ _ HC Hc Hq) as HW.
  unfold start_packet. eapply returns_bind; [apply first_route; try done; by rewrite (wt_cl _ _ _ _ HW)|]. intros [f2 g2] (Hg2 & (R1 & R2 & R3) & Hex).
  destruct (cs_tm _ _ HC) as (g0 & v0 & _ & Etm). destruct (strip_packet _ _ R1) as (Rh & _ & Rp).
  assert (tm_buf_states tm' = tm_buf_states tm ∧ tm_last_vc tm' = tm_last_vc tm) as [-> ->] by (by subst tm').
  rewrite (vget2_ok nodes subnets (tm_buf_states tm)) by (done || apply HS). cbn [mbind res_bind]. fold bs.
  assert (flit_ok f2) as Hok by (unfold flit_ok; rewrite R3, Rp; exact (proj1 (waits_ok M L tm n c f HL HW))).
  eapply returns_bind; [apply (terminal_take S n _ _ bs f2 (sn_terminal _ _ _ _ HS n s Hn Hs)); rewrite ?R2; try done; congruence|]. intros b1 Hgo.
  destruct (vset2_ok nodes subnets (tm_buf_states tm) n s b1 (sn_bufs _ _ _ _ HS) Hn Hs) as (bufs & -> & Hg1 & Hat1). cbn [mbind res_bind].
  rewrite (vget2_ok nodes subnets (tm_last_vc tm)) by (done || apply HS). cbn [mbind res_bind].
  rewrite vset_ok by (rewrite (sn_vcs _ _ _ _ HS n s Hn Hs); done). cbn [mbind res_bind].
  destruct (vset2_ok nodes subnets (tm_last_vc tm) n s ((at2 (tm_last_vc tm) n s)⟦c := f_vc f2⟧) (sn_last_vcs _ _ _ _ HS) Hn Hs) as (lvcs & -> & Hg3 & Hat3). cbn [mbind res_bind].
  apply returns_ok. subst tm'. destruct HC as [_ C2 C3 _ C5]. split; try done.
  - exists g2, v0, bufs, lvcs. done.
  - intros c' Hc' Hne. apply C5; [done|congruence].
  - change (queue_of _ n c) with (queue_of (with_rng g0 (with_partial_packets v0 tm)) n c). by rewrite Hq.
  - split; congruence.
  - unfold buf_of. simpl. rewrite Hat1 by done. by rewrite decide_True.
  - intros n' s' Hn' Hs' Hne. unfold buf_of. simpl. rewrite Hat1 by done. by rewrite decide_False.
  - simpl. rewrite Hat3 by done. by rewrite decide_True.
  - intros n' s' Hn' Hs' Hne. simpl. rewrite Hat3 by done. by rewrite decide_False.
  - congruence.
Qed.

Lemma flit_prepared tm' c f r : considering (Some c) tm' → queue_of tm' n c = f :: r →
  returns (if f_head f then start_packet rf N T s n (f_cl f) f tm' else Ok (f, tm')) (λ '(f2, tm2), ∃ f0, queue_of tm n c = f0 :: r ∧ prepared c f0 r f2 tm2).
Proof.
  intros HC Hq. destruct (cs_class _ _ HC c eq_refl) as (Hc & Hsub & f0 & f1 & r1 & Eq0 & Eq1 & Es & Eh & Ep & Hv & Hsl & Hgo).
  rewrite Hq in Eq1. injection Eq1 as <- <-. pose proof (considering_waits _ _ _ _ _ HC Hc Hq) as HW. rewrite (wt_cl _ _ _ _ HW). destruct (f_head f) eqn:Hh.
  - destruct Hgo as [Hu Hen]. eapply returns_mono; [by eapply head_starts|]. intros [f2 tm2] HP. by exists f0.
  - apply returns_ok. exists f0. split; [done|]. destruct (cs_tm _ _ HC) as (g0 & v0 & Hg0 & Etm). destruct (strip_packet _ _ Es) as (Sh & _ & Sp).
    destruct (sn_front _ _ _ _ HS n c Hn Hc f0) as [G1 G2 G3 G4 G5]; [by rewrite Eq0|congruence|]. rewrite Hsub in *. subst tm'. pose proof HC as [_ C2 C3 _ C5]. split; try done.
    + exists g0, v0, (tm_buf_states tm), (tm_last_vc tm). done.
    + intros c' Hc' Hne. apply C5; [done|congruence].
    + by rewrite Hq.
    + apply HS.
    + unfold may_go. change (buf_of _ n s) with bs. rewrite Hh, Hgo, Sp. split_and!; try done; try lia; [apply buf_inv|by rewrite <- Hgo].
    + apply HS.
    + simpl. rewrite Hgo, <- G4. unfold last_vc_of, zupd, znth. symmetry. apply list_insert_id, list_lookup_lookup_total_lt. pose proof (sn_vcs _ _ _ _ HS n s Hn Hs) as Hz. unfold zlen in Hz. unfold class_at in Hc. lia.
    + congruence.
Qed.
(** ** Sending it *)

Definition sends (f : Flit) (s' : Z) : NetHist := if decide (s' = s) then injects n f (X s) else X s'.

Lemma sends_injected f s' n' : x_injected (sends f s') n' = if decide (s' = s ∧ n' = n) then x_injected (X s) n ++ [f] else x_injected (X s') n'.
Proof. unfold sends. destruct (decide (s' = s)) as [->|]; simpl; unfold fadd; repeat case_decide; destruct_and?; subst; try done; naive_solver. Qed.

Lemma sends_credited f s' : x_credited (sends f s') = x_credited (X s').
Proof. unfold sends. by case_decide; subst. Qed.

Section sent.
Context (c : Z) (f : Flit) (r : list Flit) (f2 : Flit) (tm2 : TM) (t : Z).
Context (Hc : class_at M c) (Hsub : subnet_of M c = s) (Hq : queue_of tm n c = f :: r) (HP : prepared c f r f2 tm2).
Local Abbreviation f3 := (set_itime t f2).
Local Abbreviation inj := (x_injected (X s) n).

Lemma sent_waits : waits L n c f ∧ flit_of L f3 ∧ f_id f3 = f_id f ∧ f_head f3 = f_head f ∧ f_tail f3 = f_tail f ∧ f_pid f3 = f_pid f ∧ flit_ok f2 ∧ in_class S f3.
Proof.
  pose proof (sn_queue _ _ _ _ HS n c Hn Hc) as HQ. rewrite Hq in HQ. apply qu_flits, Forall_cons in HQ as [HW _]. destruct (pr_strip _ _ _ _ _ HP) as [Es Eh].
  destruct (strip_packet _ _ Es) as (E1 & E2 & E3). destruct (waits_ok M L tm n c f HL HW) as [[Hok _] Hcl]. split_and!; try done.
  - pose proof (flit_of_strip L f f2 (eq_sym Es) (wt_flit _ _ _ _ HW)) as (pk & i & Hp & Hf). exists pk, i. split; [done|]. by destruct Hf; split.
  - exact (f_equal f_id Es).
  - unfold flit_ok. rewrite Eh, (wt_hops _ _ _ _ HW), E3. done.
  - unfold in_class in *. change (f_cl f3) with (f_cl (strip f2)). by rewrite Es.
Qed.

Lemma sent_orderly : orderly S (inj ++ [f3]).
Proof.
  destruct sent_waits as (HW & Hof & Eid & Eh & Et & Ep & Hok & Hcl). destruct (te_order _ _ _ _ _ (sn_terminal _ _ _ _ HS n s Hn Hs)) as [O1 O2].
  split; [apply Forall_app_2; [done|by apply Forall_singleton]|]. intros w. rewrite on_vc_snoc. case_decide as Hw; [|done]. apply adjacent_snoc. split; [done|].
  intros g Hg Hh. rewrite Eh in Hh. destruct (sn_front _ _ _ _ HS n c Hn Hc f) as [_ _ _ _ (g' & Hg' & Hid)]; [by rewrite Hq|done|]. rewrite Hsub in Hg'.
  assert (f_vc f = w) as Ew by (rewrite <- (pr_same _ _ _ _ _ HP); [done|]; simpl in Eh; congruence). rewrite Ew, Hg in Hg'. injection Hg' as <-.
  unfold next_id. simpl in *. lia.
Qed.
(** The VC of [f2] is not the one of another packet. *)
Lemma sent_vc_own c' g : class_at M c' → c' ≠ c → subnet_of M c' = s → head (queue_of tm n c') = Some g → f_head g = false → f_vc g ≠ f_vc f2.
Proof.
  intros Hc' Hne Hsub' Hg Hh Ev. destruct (sn_front _ _ _ _ HS n c' Hn Hc' g Hg Hh) as [G1 G2 G3 _ _]. rewrite Hsub' in *.
  destruct sent_waits as (HW & Hof & Eid & Eh & Et & Ep & Hok & Hcl). destruct (pr_go _ _ _ _ _ HP) as (_ & _ & _ & Hm). rewrite Ev in *.
  pose proof (qu_flits _ _ _ _ (sn_queue _ _ _ _ HS n c' Hn Hc')) as HQ. destruct (queue_of tm n c') as [|g' q]; [done|]. injection Hg as ->. apply Forall_cons in HQ as [HG _].
  destruct (logged_flit M L tm g HL (wt_flit _ _ _ _ HG)) as (Hpg & _). destruct (f_head f2); [lia|]. destruct Hm as (_ & _ & Hm).
  apply Hne. rewrite <- (wt_cl _ _ _ _ HG), <- (wt_cl _ _ _ _ HW). destruct (wt_flit _ _ _ _ HG) as (pk & i & [Hp0 Hp] & Hf). destruct (wt_flit _ _ _ _ HW) as (pk' & j & [Hp0' Hp'] & Hf').
  assert (f_pid g = f_pid f) as E by (simpl in Ep; congruence). rewrite E in Hp. rewrite (fl_cl _ _ _ Hf), (fl_cl _ _ _ Hf'). congruence.
Qed.

(** The state after: only the queue, the credits and the VC of the flit change. *)
Record has_sent (b3 : BufferState) (tm3 : TM) : Prop := {
  hs_bufs : grid nodes subnets (tm_buf_states tm3);
  hs_buf : ∀ n' s', node_at M n' → subnet_at M s' → buf_of tm3 n' s' = if decide (n' = n ∧ s' = s) then b3 else buf_of tm2 n' s';
  hs_last_vc : tm_last_vc tm3 = tm_last_vc tm2;
  hs_classes : grid nodes subnets (tm_last_class tm3);
  hs_class : ∀ n' s', node_at M n' → subnet_at M s' → at2 (tm_last_class tm3) n' s' = if decide (n' = n ∧ s' = s) then c else at2 (tm_last_class tm) n' s';
  hs_queues : grid nodes classes (tm_partial_packets tm3);
  hs_queue : ∀ n' c', node_at M n' → class_at M c' → queue_of tm3 n' c' = if decide (n' = n ∧ c' = c) then pass_vc f3 r else queue_of tm2 n' c'
}.

Context (b3 : BufferState) (tm3 : TM) (HB : has_sent b3 tm3).
Context (HT : terminal_ok S n (inj ++ [f3]) (x_credited (X s) n) b3).
Context (Hother : ∀ w, 0 ≤ w < V → w ≠ f_vc f2 → is_open (core b3) w = is_open (core bs) w ∧ (in_use_by (core b3))⟦w⟧ = (in_use_by (core bs))⟦w⟧).
Context (Hopen : f_tail f2 = false → is_open (core b3) (f_vc f2) = true ∧ (in_use_by (core b3))⟦f_vc f2⟧ = f_pid f2).

Lemma sent_queue n' c' : node_at M n' → class_at M c' → queue_ok L n' c' (queue_of tm3 n' c').
Proof.
  intros Hn' Hc'. rewrite (hs_queue _ _ HB) by done. pose proof (sn_queue _ _ _ _ HS n' c' Hn' Hc') as HQ. case_decide as Hd; [destruct Hd as [-> ->]|].
  - rewrite Hq in HQ. apply (queue_pop L n c f f3 r HQ). apply sent_waits.
  - destruct (decide (n' = n)) as [->|]; [|by rewrite (pr_other _ _ _ _ _ HP)]. pose proof (pr_fresh _ _ _ _ _ HP c' Hc' ltac:(naive_solver)) as Hf. unfold fresh in Hf.
    destruct (queue_of tm n c') as [|g q], (queue_of tm2 n c') as [|g' q']; try done. destruct Hf as [-> Hf]. by apply (queue_front L n c' g).
Qed.

Lemma goes_on_other lvc inj' g g' : goes_on V bs lvc inj g → f_vc g ≠ f_vc f2 → refreshed g g' → inj' = inj ++ [f3] → goes_on V b3 lvc inj' g'.
Proof.
  intros [G1 G2 G3 G4 (h & Hh & Hid)] Hne (E1 & E2 & _) ->. destruct (Hother (f_vc g) G1 Hne) as [O1 O2]. destruct (strip_packet _ _ E1) as (_ & _ & Ep).
  split; rewrite E2; try done; try congruence. exists h. rewrite on_vc_snoc, decide_False by (simpl; congruence). split; [done|]. rewrite <- Hid. exact (f_equal f_id E1).
Qed.

Lemma sent_front n' c' : node_at M n' → class_at M c' → let s' := subnet_of M c' in
  front_ok V (buf_of tm3 n' s') (last_vc_of tm3 n' s' c') (x_injected (sends f3 s') n') (queue_of tm3 n' c').
Proof.
  intros Hn' Hc' s' g Hg Hh. pose proof (subnet_of_at M c' Hc') as Hs'. fold s' in Hs'. pose proof (sn_front _ _ _ _ HS n' c' Hn' Hc') as HF. fold s' in HF.
  destruct (sent_waits) as (HW & Hof & Eid & Eh & Et & Ep & Hok & Hcl). pose proof (sn_vcs _ _ _ _ HS n s Hn Hs) as Hvl.
  assert (last_vc_of tm3 n' s' c' = if decide (n' = n ∧ c' = c) then f_vc f2 else last_vc_of tm n' s' c') as El.
  { unfold last_vc_of. rewrite (hs_last_vc _ _ HB). destruct (decide (n' = n ∧ s' = s)) as [[-> E]|Hd]; [rewrite E, (pr_last_vc _ _ _ _ _ HP)|].
    - unfold class_at in *. rewrite znth_zupd by lia. repeat case_decide; naive_solver.
    - rewrite (pr_vcs _ _ _ _ _ HP) by done. rewrite decide_False; [done|]. intros [-> ->]. by apply Hd. }
  rewrite El, sends_injected. rewrite (hs_buf _ _ HB) by done. rewrite (hs_queue _ _ HB) in Hg by done.
  destruct (decide (n' = n ∧ c' = c)) as [[-> ->]|Hd].
  - subst s'. rewrite Hsub in *. rewrite !decide_True by done. pose proof (sn_queue _ _ _ _ HS n c Hn Hc) as HQ. rewrite Hq in HQ.
    destruct (queue_pop L n c f f3 r HQ Et) as (_ & _ & Hp). destruct (Hp g Hg Hh) as (P1 & P2 & P3 & P4). change (f_vc f3) with (f_vc f2) in P2. pose proof (pr_go _ _ _ _ _ HP) as (_ & _ & Hv & _).
    destruct Hopen as [O1 O2]; [simpl in Et; congruence|]. split; rewrite P2; try done; [simpl in Ep; congruence|]. exists f3. rewrite on_vc_snoc, decide_True, last_snoc by done. split; [done|lia].
  - destruct (decide (n' = n)) as [->|Hnn].
    + pose proof (pr_fresh _ _ _ _ _ HP c' Hc' ltac:(naive_solver)) as Hf. unfold fresh in Hf. destruct (queue_of tm n c') as [|g0 q] eqn:Eq, (queue_of tm2 n c') as [|g' q']; try done.
      destruct Hf as [-> Hf]. injection Hg as ->. pose proof Hf as (F1 & F2 & _). destruct (strip_packet _ _ F1) as (Fh & _ & Fp). specialize (HF g0 eq_refl ltac:(congruence)).
      destruct (decide (s' = s)) as [E|Hss].
      * rewrite !decide_True by done. rewrite E in *. eapply goes_on_other; try done. apply (sent_vc_own c'); try done; [naive_solver|by rewrite Eq|congruence].
      * rewrite !decide_False by naive_solver. rewrite (pr_buf _ _ _ _ _ HP) by naive_solver. destruct HF as [G1 G2 G3 G4 (h & Hh' & Hid)].
        split; rewrite ?F2, ?Fp; try done. exists h. split; [done|]. rewrite <- Hid. exact (f_equal f_id F1).
    + rewrite !decide_False by naive_solver. rewrite (pr_buf _ _ _ _ _ HP) by naive_solver. rewrite (pr_other _ _ _ _ _ HP) in Hg by done. by apply HF.
Qed.
Lemma sent_ids k : queued_ids M tm3 k + injected_ids M (sends f3) k = queued_ids M tm k + injected_ids M X k.
Proof.
  destruct (sent_waits) as (HW & Hof & Eid & Eh & Et & Ep & Hok & Hcl). unfold queued_ids, injected_ids.
  rewrite (zsum2_change nodes classes (λ n' c', tally (is_id k) (queue_of tm n' c')) (λ n' c', tally (is_id k) (queue_of tm3 n' c')) n c Hn Hc).
  - rewrite (zsum2_change subnets nodes (λ s' n', tally (is_id k) (x_injected (X s') n')) (λ s' n', tally (is_id k) (x_injected (sends f3 s') n')) s n Hs Hn).
    + rewrite (hs_queue _ _ HB) by done. rewrite sends_injected, !decide_True by done. rewrite tally_app, Hq. change (f :: r) with ([f] ++ r). rewrite tally_app, !tally_single.
      pose proof (sn_queue _ _ _ _ HS n c Hn Hc) as HQ. rewrite Hq in HQ. destruct (queue_pop L n c f f3 r HQ Et) as (_ & Es & _). rewrite (tally_strip _ _ _ Es).
      change (is_id k (strip f3)) with (f_id f3 =? k). change (is_id k (strip f)) with (f_id f =? k). rewrite Eid. lia.
    + intros s' n' Hs' Hn' Hne. rewrite sends_injected, decide_False by done. done.
  - intros n' c' Hn' Hc' Hne. rewrite (hs_queue _ _ HB), decide_False by done. destruct (decide (n' = n)) as [->|]; [|by rewrite (pr_other _ _ _ _ _ HP)].
    pose proof (pr_fresh _ _ _ _ _ HP c' Hc' ltac:(naive_solver)) as Hf. unfold fresh in Hf. apply tally_strip.
    destruct (queue_of tm n c') as [|g0 q] eqn:Eq, (queue_of tm2 n c') as [|g' q']; try done. destruct Hf as [-> (F1 & _)]. simpl. by rewrite F1.
Qed.

Lemma sent_nodes : nodes_ok M (sends f3) L tm3.
Proof.
  pose proof HB as [B1 B2 B3 B4 B5 B6 B7]. pose proof HS as [S1 S2 S3 S4 S5 S6 S7 S8 S9 S10 S11]. split; try done.
  - rewrite B3. apply HP.
  - intros n' s' Hn' Hs'. rewrite B3. destruct (decide (n' = n ∧ s' = s)) as [[-> ->]|Hd].
    + rewrite (pr_last_vc _ _ _ _ _ HP), zlen_zupd. by apply S3.
    + rewrite (pr_vcs _ _ _ _ _ HP) by done. by apply S3.
  - intros n' s' Hn' Hs'. rewrite B5 by done. case_decide; [done|by apply S5].
  - intros n' s' Hn' Hs'. rewrite sends_injected, sends_credited, B2 by done. destruct (decide (n' = n ∧ s' = s)) as [[-> ->]|Hd].
    + by rewrite decide_True.
    + rewrite decide_False by naive_solver. rewrite (pr_buf _ _ _ _ _ HP) by done. by apply S7.
  - intros n' c' Hn' Hc'. by apply sent_queue.
  - intros n' c' Hn' Hc'. by apply sent_front.
  - intros n' s' Hn' Hs'. rewrite sends_injected. case_decide as Hd; [|by apply S10]. apply Forall_app_2; [by apply S10|]. apply Forall_singleton, sent_waits.
  - intros k Hk. rewrite sent_ids. by apply S11.
Qed.
End sent.

(** ** The flit is sent *)

Lemma count_sent_ok f c (tm' : TM) : counts_ok M (tm_counts tm') → class_at M c →
  returns (count_sent f c n tm') (λ tm2, ∃ k, counts_ok M k ∧ tm2 = with_counts k tm').
Proof.
  intros HK Hc. unfold count_sent. destruct (counting tm'); [|apply returns_ok; exists (tm_counts tm'); split; [done|by destruct tm']].
  pose proof HK as (K1 & K2 & K3 & K4). eapply returns_bind; [by apply (incr_ok M)|]. intros v1 H1.
  eapply (returns_bind _ _ (grid classes nodes)); [destruct (f_head f); [by apply (incr_ok M)|by apply returns_ok]|]. intros v2 H2. apply returns_ok. eexists. split; [|done]. done.
Qed.

Lemma network_age_ok f (tm' : TM) : network_age T f tm' = Ok f.
Proof.
  unfold network_age. pose proof (ss_pri M) as Hp. rewrite !elem_of_cons in Hp. destruct Hp as [->|[->|[->|[->|Hp]]]]; try done. by apply elem_of_nil in Hp.
Qed.
(** The state after node [n] has sent [fs], nothing or one flit. *)
Record injected (fs : list Flit) (tm' : TM) : Prop := {
  ij_nodes : ∃ X', nodes_ok M X' L tm' ∧ (∀ s', s' ≠ s → X' s' = X s') ∧ X' s = match fs with f :: _ => injects n f (X s) | [] => X s end;
  ij_net : ∃ nw', tm_net tm' = (tm_net tm)⟦s := nw'⟧ ∧ nw_credits nw' = nw_credits nw ∧
    net_read S (tm_time tm) (match fs with f :: _ => injects n f (X s) | [] => X s end) moves nw' ∧
    ∀ c, valid_chan N c → c ≠ Inject n → flit_chan nw' c = flit_chan nw c;
  ij_counts : counts_ok M (tm_counts tm');
  ij_rng : RngInv.rng_ok (tm_rng tm');
  ij_rest : rest_of tm' = rest_of tm
}.

Context (HK : counts_ok M (tm_counts tm)) (Hsil : silent nw (Inject n)).

Lemma inject_flit_ok tm' c f r : considering (Some c) tm' → queue_of tm' n c = f :: r →
  returns (inject_flit rf N T s n f tm') (λ tm3, ∃ f3, injected [f3] tm3).
Proof.
  intros HC Hq. destruct (cs_class _ _ HC c eq_refl) as (Hc & Hsub & _). pose proof (considering_waits _ _ _ _ _ HC Hc Hq) as HW. unfold inject_flit.
  eapply returns_bind; [by eapply flit_prepared|]. intros [f2 tm2] (f0 & Hq0 & HP). rewrite (wt_cl _ _ _ _ HW).
  pose proof (sent_waits c f0 r f2 tm2 (tm_time tm) Hc Hq0 HP) as (HW0 & Hof & Eid & Eh & Et & Ep & Hok & Hcl).
  pose proof (sent_orderly c f0 r f2 tm2 (tm_time tm) Hc Hsub Hq0 HP) as Hor.
  destruct (pr_tm _ _ _ _ _ HP) as (g & v & bufs & lvcs & Hg & Etm2).
  assert (tm_last_class tm2 = tm_last_class tm ∧ tm_time tm2 = tm_time tm ∧ tm_net tm2 = tm_net tm ∧ tm_counts tm2 = tm_counts tm) as (E1 & E2 & E3 & E4) by (by subst tm2).
  rewrite E1. destruct (vset2_ok nodes subnets (tm_last_class tm) n s c (sn_last_classes _ _ _ _ HS) Hn Hs) as (lc & -> & Hlc1 & Hlc2). cbn [mbind res_bind].
  change (tm_partial_packets (with_last_class lc tm2)) with (tm_partial_packets tm2). rewrite (vget2_ok nodes classes (tm_partial_packets tm2)) by (done || apply HP). cbn [mbind res_bind].
  change (at2 (tm_partial_packets tm2) n c) with (queue_of tm2 n c). rewrite (pr_queue _ _ _ _ _ HP).
  change (tm_buf_states (with_last_class lc tm2)) with (tm_buf_states tm2). rewrite (vget2_ok nodes subnets (tm_buf_states tm2)) by (done || apply HP). cbn [mbind res_bind].
  change (tm_time (with_last_class lc tm2)) with (tm_time tm2). rewrite E2.
  eapply returns_bind; [apply (terminal_send S (tm_time tm) n (x_injected (X s) n) (x_credited (X s) n) bs _ f2 (set_itime (tm_time tm) f2)); try done|].
  { by apply HS. } { apply HP. } { intros Hh. by apply HP. }
  intros b3 (HT & Hother & Hopen). destruct (vset2_ok nodes subnets (tm_buf_states tm2) n s b3 (pr_bufs _ _ _ _ _ HP) Hn Hs) as (bufs3 & -> & Hb1 & Hb2). cbn [mbind res_bind].
  rewrite network_age_ok. cbn [mbind res_bind]. set (f3 := set_itime _ f2). assert (f3 = set_itime (tm_time tm) f2) as Ef3 by (subst f3; simpl; by rewrite E2).
  destruct (vset2_ok nodes classes (tm_partial_packets tm2) n c (pass_vc f3 r) (pr_queues _ _ _ _ _ HP) Hn Hc) as (pp3 & Epp & Hp1 & Hp2).
  change (tm_partial_packets (with_buf_states bufs3 (with_last_class lc tm2))) with (tm_partial_packets tm2). rewrite Epp. cbn [mbind res_bind].
  eapply returns_bind; [apply (count_sent_ok f3 c); [simpl; by rewrite E4|done]|]. intros tm4 (k & Hk & ->). cbn [tm_net with_counts with_partial_packets with_buf_states with_last_class]. rewrite E3.
  rewrite vget_ok by (rewrite Hlen; done). cbn [mbind res_bind]. rewrite Ef3 in *. clear Ef3 f3.
  eapply returns_bind; [apply (WriteFlit_net S (tm_time tm) (X s) moves nw); done || by rewrite <- (ss_nodes M)|]. intros nw' (N1 & N2 & N3).
  rewrite vset_ok by (rewrite Hlen; done). cbn [mbind res_bind]. apply returns_ok. exists (set_itime (tm_time tm) f2). split.
  - exists (sends (set_itime (tm_time tm) f2)). split_and!.
    + apply (sent_nodes c f0 r f2 tm2 (tm_time tm) Hc Hsub Hq0 HP b3); done.
    + intros s' Hne. unfold sends. by rewrite decide_False.
    + unfold sends. by rewrite decide_True.
  - exists nw'. done.
  - done.
  - simpl. by subst tm2.
  - by subst tm2.
Qed.

Lemma inject_node_ok : returns (inject_node rf N T s n tm) (λ tm3, ∃ fs, injected fs tm3).
Proof.
  unfold inject_node. rewrite (vget2_ok nodes subnets) by (done || apply HS). cbn [mbind res_bind]. pose proof (sn_classes _ _ _ _ HS n s Hn Hs) as Hc.
  set (c0 := at2 (tm_last_class tm) n s) in *. eapply returns_bind; [by apply held_class_ok|]. intros o HC. pose proof (ss_classes_pos M).
  eapply returns_bind; [apply (returns_for (λ _ '(o, tm'), considering o tm')); [destruct o; lia|done|]|].
  - intros i [o' tm'] Hi HC'. apply consider_ok; [done|done|lia].
  - intros [[c|] tm'] HC'; cbn [mbind res_bind].
    + destruct (cs_class _ _ HC' c eq_refl) as (Hcc & Hsub & f0 & f' & r & _ & Eq & _). rewrite (front_of_ok (Some c)) by done. rewrite Eq. cbn [head mbind res_bind].
      eapply returns_mono; [by eapply inject_flit_ok|]. intros tm3 (f3 & H3). by exists [f3].
    + apply returns_ok. exists []. destruct (cs_tm _ _ HC') as (g & v & Hg & ->). split; try done.
      * exists X. split_and!; try done. by apply fresh_nodes.
      * exists nw. split_and!; try done. simpl. unfold zupd, znth. symmetry. apply list_insert_id, list_lookup_lookup_total_lt. unfold subnet_at, zlen in *. lia.
Qed.
End send.
End node.


Section read.
Context {VA SA PA : Type} `{Inhabited SA} (M : SimSetup VA SA PA).
Local Abbreviation S := (ss_S M).
Local Abbreviation N := (ns_N (ss_S M)).
Local Abbreviation T := (ss_T M).
Local Abbreviation V := (ns_vcs (ss_S M)).
Local Abbreviation nodes := (tc_nodes (ss_T M)).
Local Abbreviation subnets := (tc_subnets (ss_T M)).
Local Abbreviation classes := (tc_classes (ss_T M)).
Local Abbreviation TM := (TM VA SA PA).

(** Subnetwork [s] between cycles. *)
Context (X : Z → NetHist) (L : list Packet) (tm : TM) (s : Z) (moves : Z → list Move).
Context (HL : logged M L tm) (HS : nodes_ok M X L tm) (Hs : subnet_at M s) (Hlen : zlen (tm_net tm) = subnets) (Hch : 0 ≤ nc_channels N).
Local Abbreviation nw := ((tm_net tm)⟦s⟧).
Context (Hnet : net_ok S (tm_time tm) (X s) moves nw) (HK : counts_ok M (tm_counts tm)).

Lemma node_at_range n : node_at M n ↔ 0 ≤ n < nc_nodes N.
Proof. unfold node_at. by rewrite (ss_nodes M). Qed.

(** Every flit received is one of a packet that was generated. *)
Lemma subnet_arrived d : node_at M d → arrived S (flit_of L) d (received nw (X s) d).
Proof.
  intros Hd%node_at_range. eapply net_arrived; try done; [intros f g; apply flit_of_strip|]. intros n Hn%node_at_range. by apply (sn_injected _ _ _ _ HS).
Qed.

(** Credits that arrive are for flits sent. *)
Lemma credit_arrives n x : node_at M n → arriving_credit nw (Inject n) = Some x →
  Forall (λ v, 0 ≤ v < V) (c_vc x) ∧ ∀ w, 0 ≤ w < V → ncredits w (x_credited (X s) n ++ [x]) ≤ nflits w (x_injected (X s) n).
Proof.
  intros Hn%node_at_range Hx. destruct (nt_chan _ _ _ _ _ Hnet (Inject n) Hn) as [C1 C2 _ _ _ _].
  destruct (resting_next _ _ _ _ x C2 Hx) as [k Hk]. eapply (receiver_next S); [by apply (net_receiver S _ _ _ _ (Inject n) Hnet)|exact Hk|].
  exact (resting_prefix _ _ _ _ C1).
Qed.

Definition credited_now (n : Z) : list Credit := x_credited (X s) n ++ option_list (arriving_credit nw (Inject n)).

(** The nodes before [k] have read. *)
Record reading (k : Z) (flits : imap Flit) (tm' : TM) : Prop := {
  rd_sorted : msorted flits;
  rd_flits : ∀ n, mfind n flits = if decide (0 ≤ n < k) then arriving nw (Eject n) else None;
  rd_tm : ∃ bufs c, counts_ok M c ∧ tm' = with_buf_states bufs (with_counts c tm);
  rd_bufs : grid nodes subnets (tm_buf_states tm');
  rd_other : ∀ n s', node_at M n → subnet_at M s' → ¬ (n < k ∧ s' = s) → buf_of tm' n s' = buf_of tm n s';
  rd_buf : ∀ n, node_at M n → n < k → terminal_ok S n (x_injected (X s) n) (credited_now n) (buf_of tm' n s) ∧
    same_open S (core (buf_of tm n s)) (core (buf_of tm' n s))
}.

Lemma count_accepted_ok f n (tm' : TM) : counts_ok M (tm_counts tm') → in_class S f → node_at M n →
  returns (count_accepted f n tm') (λ tm2, ∃ c, counts_ok M c ∧ tm2 = with_counts c tm').
Proof.
  intros HK' Hc Hn. unfold count_accepted. destruct (counting tm'); [|apply returns_ok; exists (tm_counts tm'); split; [done|by destruct tm']].
  pose proof HK' as (K1 & K2 & K3 & K4). unfold in_class in Hc. rewrite <- (ss_classes M) in Hc.
  eapply returns_bind; [by apply (incr_ok M)|]. intros v1 H1.
  eapply (returns_bind _ _ (grid classes nodes)); [destruct (f_tail f); [by apply (incr_ok M)|by apply returns_ok]|]. intros v2 H2. apply returns_ok. eexists. split; [|done]. done.
Qed.

Lemma read_node_ok k flits tm' : reading k flits tm' → node_at M k → returns (read_node N s k (flits, tm')) (λ '(flits', tm2), reading (k + 1) flits' tm2).
Proof.
  intros HR Hk. unfold read_node. destruct (rd_tm _ _ _ HR) as (bufs & c & Hc & Etm). unfold node_at in Hk.
  assert (tm_net tm' = tm_net tm ∧ tm_time tm' = tm_time tm) as [En Et] by (by subst tm'). rewrite En. rewrite vget_ok by (rewrite Hlen; done). cbn [mbind res_bind].
  pose proof (proj1 (node_at_range k) Hk) as Hk'. rewrite (ReadFlit_eq S) by (done || apply Hnet). cbn [mbind res_bind].
  eapply (returns_bind _ _ (λ '(flits', tm2), msorted flits' ∧ (∀ n, mfind n flits' = if decide (0 ≤ n < k + 1) then arriving nw (Eject n) else None) ∧
    ∃ c', counts_ok M c' ∧ tm2 = with_buf_states bufs (with_counts c' tm))).
  { assert (∀ n, (if decide (0 ≤ n < k + 1) then arriving nw (Eject n) else None) = if decide (n = k) then arriving nw (Eject k) else mfind n flits) as Hf.
    { intros n. rewrite (rd_flits _ _ _ HR). repeat case_decide; subst; try done; lia. }
    destruct (arriving nw (Eject k)) as [f|] eqn:Ef.
    - pose proof (ar_flits _ _ _ _ (subnet_arrived k Hk)) as Ha. unfold received in Ha. rewrite Ef in Ha. apply Forall_app in Ha as [_ Ha]. apply Forall_cons in Ha as [(_ & Ha & _) _].
      destruct (logged_flit M L tm f HL Ha) as (_ & Hcl & _).
      eapply returns_bind; [apply (count_accepted_ok f k tm'); [by subst tm'|done|done]|]. intros tm2 (c' & Hc' & ->). apply returns_ok.
      split_and!; [apply msorted_mset, HR| |exists c'; split; [done|by subst tm']]. intros n. rewrite Hf, mfind_mset by apply HR. case_decide; [congruence|done].
    - apply returns_ok. split_and!; [apply HR| |by exists c]. intros n. rewrite Hf. case_decide; [|done]. subst n. rewrite (rd_flits _ _ _ HR), decide_False by lia. done. }
  intros [flits' tm2] (Hs2 & Hf2 & c2 & Hc2 & ->). rewrite (ReadCredit_eq S) by (done || apply Hnet). cbn [mbind res_bind].
  assert (bufs = tm_buf_states tm') as Eb by (by subst tm').
  destruct (arriving_credit nw (Inject k)) as [x|] eqn:Ex.
  - cbn [tm_buf_states with_buf_states]. rewrite (vget2_ok nodes subnets) by (done || rewrite Eb; apply HR). cbn [mbind res_bind].
    assert (at2 bufs k s = buf_of tm k s) as -> by (rewrite Eb; apply (rd_other _ _ _ HR k s Hk Hs); lia).
    destruct (credit_arrives k x Hk Ex) as [X1 X2].
    eapply returns_bind; [by apply (terminal_credit S _ k _ _ _ x (sn_terminal _ _ _ _ HS k s Hk Hs))|]. intros b [HT Ho].
    destruct (vset2_ok nodes subnets bufs k s b) as (bufs2 & -> & Hg & Hat); [rewrite Eb; apply HR|done|done|]. cbn [mbind res_bind]. apply returns_ok.
    split; try done.
    + exists bufs2, c2. done.
    + intros n s' Hn Hs' Hne. unfold buf_of at 1. simpl. rewrite Hat by done. rewrite decide_False by (intros [-> ->]; lia). rewrite Eb. apply (rd_other _ _ _ HR); [done|done|]. intros [? ->]. lia.
    + intros n Hn Hlt. unfold buf_of at 1 3. simpl. rewrite Hat by done. unfold credited_now. destruct (decide (n = k)) as [->|Hne].
      * rewrite decide_True by done. rewrite Ex. done.
      * rewrite decide_False by naive_solver. rewrite Eb. apply (rd_buf _ _ _ HR); [done|lia].
  - apply returns_ok. split; try done.
    + exists bufs, c2. done.
    + rewrite Eb. apply HR.
    + intros n s' Hn Hs' Hne. unfold buf_of at 1. simpl. rewrite Eb. apply (rd_other _ _ _ HR); [done|done|]. intros [? ->]. lia.
    + intros n Hn Hlt. unfold buf_of at 1 3. simpl. rewrite Eb. destruct (decide (n = k)) as [->|Hne].
      * unfold credited_now. rewrite Ex. cbn [option_list]. rewrite app_nil_r. pose proof (rd_other _ _ _ HR k s Hk Hs ltac:(lia)) as E. unfold buf_of in E. rewrite E. split; [by apply HS|]. intros w Hw. done.
      * apply (rd_buf _ _ _ HR); [done|lia].
Qed.

(** ** The subnetwork *)

Definition reads (s' : Z) : NetHist := if decide (s' = s) then read_hist S nw (X s) else X s'.

Lemma reads_same s' : x_injected (reads s') = x_injected (X s') ∧ x_credits (reads s') = x_credits (X s') ∧
  (s' ≠ s → x_credited (reads s') = x_credited (X s') ∧ x_ejected (reads s') = x_ejected (X s')).
Proof. unfold reads. by destruct (decide (s' = s)) as [->|]. Qed.

Lemma reading_nodes flits tm' : reading nodes flits tm' → nodes_ok M reads L tm'.
Proof.
  intros HR. destruct (rd_tm _ _ _ HR) as (bufs & c & Hc & Etm). pose proof HS as [S1 S2 S3 S4 S5 S6 S7 S8 S9 S10 S11].
  assert (∀ n s', node_at M n → subnet_at M s' → terminal_ok S n (x_injected (reads s') n) (x_credited (reads s') n) (buf_of tm' n s') ∧
    same_open S (core (buf_of tm n s')) (core (buf_of tm' n s'))) as Hb.
  { intros n s' Hn Hs'. destruct (reads_same s') as (-> & _ & Hr). destruct (decide (s' = s)) as [->|Hne].
    - unfold reads. rewrite decide_True by done. apply (rd_buf _ _ _ HR); [done|]. unfold node_at in Hn. lia.
    - rewrite (proj1 (Hr Hne)). rewrite (rd_other _ _ _ HR) by (done || naive_solver). split; [by apply S7|]. by intros w Hw. }
  subst tm'. split; try done.
  - apply HR.
  - intros n s' Hn Hs'. by apply Hb.
  - intros n c' Hn Hc' s' f Hq Hh. destruct (reads_same s') as (-> & _). destruct (S9 n c' Hn Hc' f Hq Hh) as [G1 G2 G3 G4 G5].
    destruct (Hb n s' Hn (subnet_of_at M c' Hc')) as [_ Ho]. destruct (Ho (f_vc f) G1) as [O1 O2]. split; try done; [by rewrite O1|]. by rewrite O2.
  - intros n s' Hn Hs'. destruct (reads_same s') as (-> & _). by apply S10.
  - intros k Hk. rewrite <- (S11 k Hk). f_equal. apply zsum2_ext. intros s' n Hs' Hn. by destruct (reads_same s') as (-> & _).
Qed.

(** After the subnetwork has read. *)
Record has_read_subnet (flits : imap Flit) (tm' : TM) : Prop := {
  rs_flits : ∀ n, node_at M n → mfind n flits = arriving nw (Eject n);
  rs_nodes : nodes_ok M reads L tm';
  rs_net : ∃ nw', tm_net tm' = (tm_net tm)⟦s := nw'⟧ ∧ net_read S (tm_time tm) (reads s) moves nw' ∧
    ∀ c, valid_chan N c → silent nw' c ∧ silent_credit nw' c;
  rs_counts : counts_ok M (tm_counts tm');
  rs_rng : tm_rng tm' = tm_rng tm;
  rs_rest : rest_of tm' = rest_of tm
}.

Lemma read_subnet_ok fl : 0 ≤ tm_time tm → tm_time tm + ns_latency S ≤ int_max →
  returns (read_subnet N T s (fl, tm)) (λ '(fl', tm'), ∃ flits, fl' = fl ++ [flits] ∧ has_read_subnet flits tm').
Proof.
  intros Ht0 Ht. unfold read_subnet. pose proof (ns_nodes S) as Hnn. rewrite <- (ss_nodes M) in Hnn.
  eapply returns_bind; [apply (returns_for (λ k '(flits, tm'), reading k flits tm')); [done|..]|].
  - split; try done; [constructor|intros n; by rewrite decide_False by lia|exists (tm_buf_states tm), (tm_counts tm); split; [done|by destruct tm]|apply HS|].
    intros n Hn Hlt. unfold node_at in Hn. lia.
  - intros k [flits tm'] Hk HR. by apply read_node_ok.
  - intros [flits tm'] HR. pose proof (reading_nodes flits tm' HR) as HN. destruct (rd_tm _ _ _ HR) as (bufs & c & Hc & Etm).
    assert (tm_net tm' = tm_net tm ∧ tm_time tm' = tm_time tm) as [En Et] by (by subst tm'). rewrite En, Et. rewrite vget_ok by (rewrite Hlen; done). cbn [mbind res_bind].
    eapply returns_bind; [by apply (ReadInputs_net S _ (X s) moves nw Hnet)|]. intros nw' [Hr Hsil]. rewrite vset_ok by (rewrite Hlen; done). cbn [mbind res_bind].
    apply returns_ok. exists flits. split; [done|]. split; try (by subst tm').
    + intros n Hn. rewrite (rd_flits _ _ _ HR). by rewrite decide_True.
    + destruct HN. by split.
    + exists nw'. split_and!; [done| |done]. unfold reads. by rewrite decide_True.
Qed.
End read.
