(* ===== verification/Retire.v ===== *)
(** * The simulator: retiring flits

    What has been retired, by subnetwork and node, against the packets that were
    generated: the flits in flight are those not retired, the heads of the packets
    that are arriving are kept, and the packets in the ejection queues and those
    handed out are the ones that have arrived completely, each once. *)

From S2P Require Import Prelude StdMap OutputSet Flit VCBuffer BufferState BufferStateInv Credits Link Arbiter Allocator AllocLaws Rng KNCube Route SwitchAlloc IQRouter IQSwitch Wormhole RouterInv RouterQueues RouterStages RouterRoute RouterVCAlloc RouterSwitchAlloc RouterSend RouterSwitch RouterStep RouterRun RouterSpec RouterFlow Channel Network NetChannels NetworkInv NetworkRun NetworkSpec TrafficManager Terminal Packets SimInv.
Import CoreOps Credits Link NetworkOps TMOps.

(** ** The packet a stream is in *)

Lemma stream_open l : ∀ p, stream None l = Some (Some p) → ∃ l1 h fs, l = l1 ++ h :: fs ∧ f_head h = true ∧
  Forall (λ f, f_pid f = p) (h :: fs) ∧ Forall (λ f, f_head f = false) fs.
Proof.
  induction l as [|f l IH] using rev_ind; intros p; [done|]. rewrite stream_app. destruct (stream None l) as [[q|]|] eqn:Es; simpl; [| |done].
  - intros Hn. destruct (IH q eq_refl) as (l1 & h & fs & -> & Hh & Hp & Hf). revert Hn. unfold next_flit. destruct (f_head f) eqn:Ef; [done|]. simpl.
    destruct (Z.eqb_spec (f_pid f) q) as [Eq|]; [|done]. destruct (f_tail f); simpl; [done|]. intros [= ->]. exists l1, h, (fs ++ [f]). split_and!; try done; [by rewrite <- app_assoc| |].
    + change (h :: fs ++ [f]) with ((h :: fs) ++ [f]). apply Forall_app_2; [done|by apply Forall_singleton].
    + apply Forall_app_2; [done|by apply Forall_singleton].
  - unfold next_flit. destruct (f_head f) eqn:Ef; [|done]. destruct (f_tail f); simpl; [done|]. intros [= <-]. exists l, f, []. split_and!; try done. by apply Forall_singleton.
Qed.

Lemma adjacent_ids l1 h fs : adjacent next_id (l1 ++ h :: fs) → Forall (λ f, f_head f = false) fs → f_id <$> (h :: fs) = seqZ (f_id h) (zlen (h :: fs)).
Proof.
  induction fs as [|f fs IH] using rev_ind; [done|]. intros Ha [Hf1 Hf2]%Forall_app. apply Forall_cons in Hf2 as [Hf2 _].
  replace (l1 ++ h :: fs ++ [f]) with ((l1 ++ h :: fs) ++ [f]) in Ha by (by rewrite <- app_assoc). apply adjacent_snoc in Ha as [Ha Hl].
  specialize (IH Ha Hf1). change (h :: fs ++ [f]) with ((h :: fs) ++ [f]). rewrite fmap_app, IH. replace (zlen ((h :: fs) ++ [f])) with (zlen (h :: fs) + 1) by (unfold zlen; rewrite length_app; simpl; lia).
  rewrite seqZ_app by (done || apply zlen_nonneg). f_equal. simpl. f_equal. rewrite last_app in Hl. destruct (last (h :: fs)) as [g|] eqn:El; [|by apply last_None in El].
  specialize (Hl g eq_refl Hf2). unfold next_id in Hl. simpl in Hl. rewrite Hl. apply last_Some in El as [l' El].
  assert (zlen (h :: fs) = zlen l' + 1) as Ez by (rewrite El; unfold zlen; rewrite length_app; simpl; lia). rewrite Ez in *. rewrite El, fmap_app in IH.
  rewrite seqZ_app in IH by (done || apply zlen_nonneg). apply app_inj_2 in IH as [_ IH]; [|done].
  rewrite seqZ_cons in IH |- * by done. cbn [fmap list_fmap] in IH. injection IH as IH. change (seqZ _ (Z.pred 1)) with (@nil Z). f_equal. lia.
Qed.

Section retire.
Context {VA SA PA : Type} `{Inhabited SA} (M : SimSetup VA SA PA).
Local Abbreviation S := (ss_S M).
Local Abbreviation nodes := (tc_nodes (ss_T M)).
Local Abbreviation subnets := (tc_subnets (ss_T M)).
Local Abbreviation classes := (tc_classes (ss_T M)).
Local Abbreviation TM := (TM VA SA PA).
Implicit Types (tm : TM) (L : list Packet) (R : Z → Z → list Flit).

(** ** The invariant *)

Definition retired_ids R (k : Z) : Z := zsum2 subnets nodes (λ s d, tally (is_id k) (R s d)).

(** The flits in flight of the packets selected. *)
Definition flying L R (sel : Packet → Prop) (c k : Z) : Prop :=
  retired_ids R k = 0 ∧ ∃ p pk, packet_at L p pk ∧ pk_first pk ≤ k < pk_first pk + pk_size pk ∧ pk_cl pk = c ∧ sel pk.

Definition in_flight L R (sel : Packet → Prop) (v : list iset) : Prop := zlen v = classes ∧
  ∀ c, class_at M c → msorted (v⟦c⟧) ∧ ∀ k, mfind k (v⟦c⟧) = Some tt ↔ flying L R sel c k.

(** A head that has arrived as [h] at node [d], as it is kept. *)
Definition retired_as (d : Z) (h hd : Flit) : Prop := ∃ t, hd = set_dest d (set_atime t h).

Definition kept_head R (c p : Z) (hd : Flit) : Prop := ∃ s d h,
  subnet_at M s ∧ node_at M d ∧ h ∈ R s d ∧ f_head h = true ∧ retired_as d h hd ∧ f_pid h = p ∧ f_cl h = c.

Record heads_ok L R (v : list (imap Flit)) : Prop := {
  hd_len : zlen v = classes;
  hd_sorted : ∀ c, class_at M c → msorted (v⟦c⟧);
  hd_kept : ∀ c p hd, class_at M c → mfind p (v⟦c⟧) = Some hd → kept_head R c p hd;
  hd_open : ∀ s d w p, subnet_at M s → node_at M d → stream None (on_vc w (R s d)) = Some (Some p) →
    ∃ pk, packet_at L p pk ∧ is_Some (mfind p (v⟦pk_cl pk⟧))
}.

(** All flits of a packet have arrived at node [d], one after the other. *)
Record complete L R (c d : Z) (hd tl : Flit) (s w : Z) (l1 fs l2 : list Flit) (pk : Packet) : Prop := {
  cm_subnet : subnet_at M s;
  cm_packet : packet_at L (f_pid hd) pk;
  cm_cl : pk_cl pk = c;
  cm_dest : pk_dest pk = d;
  cm_flits : on_vc w (R s d) = l1 ++ fs ++ l2;
  cm_of : Forall (λ f, flit_of L f ∧ f_pid f = f_pid hd) fs;
  cm_ids : f_id <$> fs = seqZ (pk_first pk) (pk_size pk);
  cm_head : ∃ h, head fs = Some h ∧ retired_as d h hd;
  cm_tail : ∃ l, last fs = Some l ∧ retired_as d l tl
}.

Definition arrived_packet L R (c d : Z) (x : Flit * Flit) : Prop := ∃ s w l1 fs l2 pk, complete L R c d x.1 x.2 s w l1 fs l2 pk.

(** The packets delivered: in the ejection queues, or handed out ([D]). *)
Definition delivered (D : list Z) (ejq : list (list (list (Flit * Flit)))) (p : Z) : Z :=
  zsum2 classes nodes (λ c d, cnt p ((λ x, f_pid x.1) <$> at2 ejq c d)) + cnt p D.

Record retire_ok L R (D : list Z) tm : Prop := {
  rt_total : in_flight L R (λ _, True) (tm_total_in_flight_flits tm);
  rt_measured : in_flight L R (λ pk, pk_record pk = true) (tm_measured_in_flight_flits tm);
  rt_heads : heads_ok L R (tm_retired_packets tm);
  rt_requests : zlen (tm_requestsOutstanding tm) = nodes;
  rt_queues : grid classes nodes (tm_ejection_queue tm);
  rt_queue : ∀ c d, class_at M c → node_at M d → Forall (arrived_packet L R c d) (at2 (tm_ejection_queue tm) c d);
  rt_delivered : ∀ p pk, packet_at L p pk → delivered D (tm_ejection_queue tm) p = retired_ids R (pk_first pk + pk_size pk - 1);
  rt_handed : Forall (λ p, ∃ pk, packet_at L p pk) D
}.

Lemma retire_ext L R R' D tm : (∀ s d, subnet_at M s → node_at M d → R' s d = R s d) → retire_ok L R D tm → retire_ok L R' D tm.
Proof.
  intros E [R1 R2 R3 R4 R5 R6 R7 R8]. assert (∀ k, retired_ids R' k = retired_ids R k) as Ei by (intros k; apply zsum2_ext; intros s d Hs Hd; by rewrite E).
  assert (∀ sel v, in_flight L R sel v → in_flight L R' sel v) as Ef.
  { intros sel v [V1 V2]. split; [done|]. intros c Hc. destruct (V2 c Hc) as [V3 V4]. split; [done|]. intros k. rewrite V4. unfold flying. by rewrite Ei. }
  split; auto.
  - destruct R3 as [V1 V2 V3 V4]. split; try done.
    + intros c p hd Hc Hm. destruct (V3 c p hd Hc Hm) as (s & d & h & A1 & A2 & A3 & A4). exists s, d, h. split_and!; try done; [by rewrite E|apply A4..].
    + intros s d w p Hs Hd. rewrite E by done. by apply V4.
  - intros c d Hc Hd. eapply Forall_impl; [by apply R6|]. intros x (s & w & l1 & fs & l2 & pk & [C1 C2 C3 C4 C5 C6 C7 C8 C9]). exists s, w, l1, fs, l2, pk. split; try done. by rewrite E.
  - intros p pk Hp. rewrite Ei. by apply R7.
Qed.

(** What retiring does not touch. *)
Definition others_of tm := (tm_net tm, tm_buf_states tm, tm_last_vc tm, tm_last_class tm, tm_partial_packets tm, tm_packet_seq_no tm, tm_counts tm,
  tm_sim_state tm, tm_drain_time tm, tm_cur_id tm, tm_cur_pid tm, tm_time tm, tm_rng tm).

(** ** One more flit *)

Definition with_flit R (s d : Z) (f : Flit) (s' d' : Z) : list Flit := if decide (s' = s ∧ d' = d) then R s d ++ [f] else R s' d'.

Lemma retired_with R s d f k : subnet_at M s → node_at M d → retired_ids (with_flit R s d f) k = retired_ids R k + (if f_id f =? k then 1 else 0).
Proof.
  intros Hs Hd. unfold retired_ids. rewrite (zsum2_change subnets nodes (λ s d, tally (is_id k) (R s d)) (λ s' d', tally (is_id k) (with_flit R s d f s' d')) s d Hs Hd).
  - unfold with_flit. rewrite decide_True, tally_app, tally_single by done. change (is_id k (strip f)) with (f_id f =? k). lia.
  - intros s' d' _ _ Hne. unfold with_flit. by rewrite decide_False.
Qed.

Lemma retired_nonneg R k : 0 ≤ retired_ids R k.
Proof.
  pose proof (ns_nodes S) as Hn. rewrite <- (ss_nodes M) in Hn. pose proof (ss_subnets_pos M). apply zsum2_nonneg; [lia|done|]. intros. apply tally_nonneg.
Qed.

Lemma retired_in R s d f : subnet_at M s → node_at M d → f ∈ R s d → 0 < retired_ids R (f_id f).
Proof.
  intros Hs Hd Hf. pose proof (zsum2_ge subnets nodes (λ s d, tally (is_id (f_id f)) (R s d)) s d Hs Hd ltac:(intros; apply tally_nonneg)) as Hg.
  pose proof (tally_pos (is_id (f_id f)) (R s d) f Hf ltac:(apply Z.eqb_refl)). unfold retired_ids. cbn beta in Hg. lia.
Qed.

(** A flit number is retired in one place. *)
Lemma retired_unique R s d f s' d' g : subnet_at M s → node_at M d → subnet_at M s' → node_at M d' → (∀ k, retired_ids R k ≤ 1) →
  f ∈ R s d → g ∈ R s' d' → f_id f = f_id g → s = s' ∧ d = d' ∧ f = g.
Proof.
  intros Hs Hd Hs' Hd' H1 Hf Hg E. specialize (H1 (f_id f)). set (p := is_id (f_id f)). pose proof (tally_pos p (R s d) f Hf ltac:(apply Z.eqb_refl)) as P1.
  assert (p (strip g) = true) as Pg by (apply Z.eqb_eq; simpl; congruence). pose proof (tally_pos p (R s' d') g Hg Pg) as P2.
  destruct (decide (s = s' ∧ d = d')) as [[<- <-]|Hne].
  - split_and!; try done. apply (tally_unique p (R s d)); try done; [|apply Z.eqb_refl]. etrans; [|exact H1].
    apply (zsum2_ge subnets nodes (λ s d, tally p (R s d)) s d Hs Hd). intros. apply tally_nonneg.
  - set (R' := λ s0 d0, if decide (s0 = s ∧ d0 = d) then [] else R s0 d0).
    pose proof (zsum2_change subnets nodes (λ s d, tally p (R' s d)) (λ s d, tally p (R s d)) s d Hs Hd) as Hc.
    specialize (Hc ltac:(intros i j _ _ Hij; unfold R'; by rewrite decide_False)). cbn beta in Hc.
    pose proof (zsum2_ge subnets nodes (λ s d, tally p (R' s d)) s' d' Hs' Hd' ltac:(intros; apply tally_nonneg)) as Hg'. cbn beta in Hg'.
    assert (R' s d = []) as E1 by (unfold R'; by rewrite decide_True). assert (R' s' d' = R s' d') as E2 by (unfold R'; rewrite decide_False by naive_solver; done).
    rewrite E1 in Hc. rewrite E2 in Hg'. change (tally p []) with 0 in Hc. unfold retired_ids in H1. fold p in H1. lia.
Qed.

Section flit.
Context (L : list Packet) (HL : log_ok L) (Hpk : Forall (packet_ok M) L).
Context (R : Z → Z → list Flit) (s d : Z) (f : Flit) (Hs : subnet_at M s) (Hd : node_at M d).
Context (Hall : ∀ s d, subnet_at M s → node_at M d → arrived S (flit_of L) d (R s d)).
Context (Harr : arrived S (flit_of L) d (R s d ++ [f])) (Hnew : retired_ids R (f_id f) = 0) (H1 : ∀ k, retired_ids R k ≤ 1).
Local Abbreviation R' := (with_flit R s d f).
Local Abbreviation w := (f_vc f).

Lemma new_flit_ok : flit_of L f ∧ (f_head f = true → f_dest f = d) ∧ class_at M (f_cl f) ∧ node_at M (f_src f).
Proof.
  pose proof (ar_flits _ _ _ _ Harr) as [_ [(_ & Hf & Hh) _]%Forall_cons]%Forall_app. split_and!; try done; destruct Hf as (pk & i & [_ Hp] & Hf);
    pose proof (Forall_lookup_1 _ _ _ _ Hpk Hp) as (? & ? & ?); [by rewrite (fl_cl _ _ _ Hf)|by rewrite (fl_src _ _ _ Hf)].
Qed.

Lemma retired_with_f k : retired_ids R' k = retired_ids R k + (if f_id f =? k then 1 else 0).
Proof. by apply retired_with. Qed.

(** The packet of [f]. *)
Lemma flying_with sel c k : flying L R' sel c k ↔ flying L R sel c k ∧ k ≠ f_id f.
Proof.
  unfold flying. rewrite retired_with_f. pose proof (retired_nonneg R k). destruct (Z.eqb_spec (f_id f) k) as [E|E]; split.
  - intros [? _]. lia.
  - intros [_ ?]. congruence.
  - intros [? Hp]. split_and!; [lia|done|congruence].
  - intros [[? Hp] _]. split; [lia|done].
Qed.

Lemma erase_ok sel v : in_flight L R sel v → (∀ pk, packet_at L (f_pid f) pk → sel pk) → returns (erase_key v (f_cl f) (f_id f)) (in_flight L R' sel).
Proof.
  intros [Hlen Hv] Hsel. destruct new_flit_ok as (Hof & _ & Hc & _). unfold erase_key. unfold class_at in Hc. rewrite vget_ok by lia. cbn [mbind res_bind].
  destruct (Hv _ Hc) as [Hso Hf]. assert (mfind (f_id f) (v⟦f_cl f⟧) = Some tt) as E.
  { apply Hf. split; [done|]. destruct Hof as (pk & i & Hp & Hfl). exists (f_pid f), pk. split_and!; [done|..|by apply Hsel].
    - destruct Hfl. lia. - destruct Hfl. lia. - by rewrite (fl_cl _ _ _ Hfl). }
  apply returns_assert; [unfold mcount; by rewrite E|]. rewrite vset_ok by lia. apply returns_ok. split; [lens|]. intros c Hcc. rewrite znth_zupd by (unfold class_at in Hcc; lia).
  destruct (decide (f_cl f = c)) as [<-|Hne].
  - split; [by apply msorted_merase|]. intros k. rewrite mfind_merase by done. rewrite flying_with, <- Hf. case_decide; naive_solver.
  - destruct (Hv c Hcc) as [Hs1 Hf1]. split; [done|]. intros k. rewrite flying_with, Hf1. split; [|by intros [? _]]. intros Hk. split; [done|]. intros ->.
    destruct Hk as [_ (p & pk & Hp & Hr & Hcl & _)]. destruct Hof as (qk & j & Hq & Hfl). destruct (packet_unique L HL p pk (f_pid f) qk (f_id f) Hp Hq Hr) as [_ ->]; [destruct Hfl; lia|].
    apply Hne. by rewrite (fl_cl _ _ _ Hfl).
Qed.

(** A flit whose packet is not selected. *)
Lemma flight_other sel v : in_flight L R sel v → (∀ pk, packet_at L (f_pid f) pk → ¬ sel pk) → in_flight L R' sel v.
Proof.
  intros [Hlen Hv] Hsel. split; [done|]. intros c Hc. destruct (Hv c Hc) as [Hso Hf]. split; [done|]. intros k. rewrite flying_with, Hf. split; [|by intros [? _]].
  intros Hk. split; [done|]. intros ->. destruct Hk as [_ (p & pk & Hp & Hr & Hcl & Hse)]. destruct new_flit_ok as ((qk & j & Hq & Hfl) & _).
  destruct (packet_unique L HL p pk (f_pid f) qk (f_id f) Hp Hq Hr) as [-> ->]; [destruct Hfl; lia|]. by apply (Hsel qk).
Qed.

(** ** Heads *)

(** Heads of the same packet are the same flit. *)
Lemma head_unique g h : flit_of L g → flit_of L h → f_head g = true → f_head h = true → f_pid g = f_pid h → f_id g = f_id h.
Proof.
  intros (pk & i & [_ Hp] & Hg) (qk & j & [_ Hq] & Hh) Eg Eh E. rewrite E in Hp. rewrite Hq in Hp. injection Hp as ->.
  pose proof (fl_head _ _ _ Hg) as Ig. pose proof (fl_head _ _ _ Hh) as Ih. rewrite (fl_id _ _ _ Hg), (fl_id _ _ _ Hh). rewrite Eg in Ig. rewrite Eh in Ih. lia.
Qed.

(** The head of a packet that is arriving has arrived. *)
Lemma open_arrived s' d' w' p : subnet_at M s' → node_at M d' → stream None (on_vc w' (R s' d')) = Some (Some p) →
  ∃ h, h ∈ R s' d' ∧ f_vc h = w' ∧ f_head h = true ∧ f_pid h = p ∧ flit_of L h.
Proof.
  intros Hs' Hd' Ho. destruct (stream_open _ _ Ho) as (l1 & h & fs & E & Hh & Hp & _). apply Forall_cons in Hp as [Hp _].
  assert (h ∈ on_vc w' (R s' d')) as Hin by (rewrite E; apply elem_of_app; right; left). unfold on_vc in Hin. apply list_elem_of_filter in Hin as [Ev Hin].
  exists h. split_and!; try done. pose proof (ar_flits _ _ _ _ (Hall s' d' Hs' Hd')) as Hf. rewrite Forall_forall in Hf. by apply (Hf h Hin).
Qed.

(** A packet arrives in one place. *)
Lemma open_unique s1 d1 w1 s2 d2 w2 p : subnet_at M s1 → node_at M d1 → subnet_at M s2 → node_at M d2 →
  stream None (on_vc w1 (R s1 d1)) = Some (Some p) → stream None (on_vc w2 (R s2 d2)) = Some (Some p) → s1 = s2 ∧ d1 = d2 ∧ w1 = w2.
Proof.
  intros A1 A2 A3 A4 O1 O2. destruct (open_arrived _ _ _ _ A1 A2 O1) as (h1 & I1 & V1 & B1 & P1 & F1). destruct (open_arrived _ _ _ _ A3 A4 O2) as (h2 & I2 & V2 & B2 & P2 & F2).
  destruct (retired_unique R s1 d1 h1 s2 d2 h2) as (-> & -> & ->); try done; [apply head_unique; congruence|]. by subst.
Qed.

(** The stream [f] arrives on. *)
Lemma stream_before : stream None (on_vc w (R s d)) = Some (if f_head f then None else Some (f_pid f)).
Proof.
  destruct (ar_stream _ _ _ _ Harr w) as [e' He]. rewrite on_vc_snoc, decide_True, stream_app in He by done. destruct (stream None (on_vc w (R s d))) as [e|]; [|done].
  simpl in He. unfold next_flit in He. destruct e as [p|].
  - destruct (f_head f); [done|]. simpl in He. by destruct (Z.eqb_spec (f_pid f) p) as [->|].
  - by destruct (f_head f).
Qed.

Lemma stream_with s' d' w' p : stream None (on_vc w' (R' s' d')) = Some (Some p) →
  s' = s ∧ d' = d ∧ w' = w ∧ p = f_pid f ∧ f_tail f = false ∨ ¬ (s' = s ∧ d' = d ∧ w' = w) ∧ stream None (on_vc w' (R s' d')) = Some (Some p).
Proof.
  unfold with_flit. destruct (decide (s' = s ∧ d' = d)) as [[-> ->]|Hne]; [|intros Hp; right; split; [naive_solver|done]].
  rewrite on_vc_snoc. destruct (decide (w = w')) as [<-|Hw]; [|intros Hp; right; split; [naive_solver|done]].
  rewrite (stream_snoc _ _ _ _ stream_before). unfold next_flit. intros Hp. left. destruct (f_head f); simpl in Hp; rewrite ?Z.eqb_refl in Hp; simpl in Hp; destruct (f_tail f); naive_solver.
Qed.

Lemma with_flit_in s' d' g : g ∈ R s' d' → g ∈ R' s' d'.
Proof. unfold with_flit. destruct (decide (s' = s ∧ d' = d)) as [[-> ->]|]; [|done]. intros ?. apply elem_of_app. by left. Qed.

Lemma with_flit_new : f ∈ R' s d.
Proof. unfold with_flit. rewrite decide_True by done. apply elem_of_app. right. left. Qed.

Lemma kept_with c p hd : kept_head R c p hd → kept_head R' c p hd.
Proof. intros (s' & d' & h & A1 & A2 & A3 & A4 & A5 & A6 & A7). exists s', d', h. split_and!; try done. by apply with_flit_in. Qed.

(** The packet of [f]. *)
Lemma flit_packet : ∃ pk, packet_at L (f_pid f) pk ∧ pk_cl pk = f_cl f ∧ (f_head f = true → f_id f = pk_first pk) ∧
  (f_tail f = true ↔ f_id f = pk_first pk + pk_size pk - 1) ∧ pk_record pk = f_record f ∧ (f_head f = true → pk_dest pk = d).
Proof.
  destruct new_flit_ok as ((pk & i & Hp & Hf) & Hh & _). exists pk. destruct Hf as [I1 I2 I3 _ I5 _ I7 _ I9 I10]. split_and!; try done.
  - intros E. rewrite E in I9. lia.
  - rewrite I10. lia.
  - intros E. rewrite <- (Hh E). done.
Qed.

Lemma heads_same v : heads_ok L R v → (f_head f = true → f_tail f = true) → (f_tail f = true → f_head f = true) → heads_ok L R' v.
Proof.
  intros [V1 V2 V3 V4] Hht Hth. split; try done; [intros; apply kept_with; auto|]. intros s' d' w' p Hs' Hd' [(-> & -> & -> & -> & Et)|[_ Ho]]%stream_with; [|by eapply V4].
  pose proof stream_before as Hb. destruct (f_head f); [specialize (Hht eq_refl); congruence|]. by apply (V4 s d w).
Qed.

(** A new head. *)
Lemma heads_insert v f' : heads_ok L R v → f_head f = true → f_tail f = false → retired_as d f f' →
  mfind (f_pid f) (v⟦f_cl f⟧) = None ∧ heads_ok L R' (v⟦f_cl f := mset (f_pid f) f' (v⟦f_cl f⟧)⟧).
Proof.
  intros [V1 V2 V3 V4] Hh Ht Has. destruct new_flit_ok as (Hof & _ & Hc & _). unfold class_at in Hc.
  assert (mfind (f_pid f) (v⟦f_cl f⟧) = None) as Hn.
  { destruct (mfind (f_pid f) (v⟦f_cl f⟧)) as [hd|] eqn:E; [|done]. destruct (V3 _ _ _ Hc E) as (s' & d' & h & A1 & A2 & A3 & A4 & _ & A6 & _).
    pose proof (ar_flits _ _ _ _ (Hall s' d' A1 A2)) as Hf. rewrite Forall_forall in Hf. destruct (Hf h A3) as (_ & Hfh & _).
    pose proof (retired_in R s' d' h A1 A2 A3) as Hr. rewrite (head_unique h f) in Hr by done. lia. }
  split; [done|]. split; [lens|..].
  - intros c Hcc. unfold class_at in Hcc. rewrite znth_zupd by lia. case_decide; [subst c; by apply msorted_mset, V2|by apply V2].
  - intros c p hd Hcc. pose proof Hcc as Hcc'. unfold class_at in Hcc'. rewrite znth_zupd by lia. case_decide as Ec; [|intros; apply kept_with; auto]. rewrite mfind_mset by (by apply V2).
    case_decide as Ep; [|intros; subst c; apply kept_with; auto]. intros [= <-]. subst c p. exists s, d, f. split_and!; try done. apply with_flit_new.
  - intros s' d' w' p Hs' Hd' Ho. assert (∀ pk, packet_at L p pk → pk_cl pk = f_cl f → is_Some (mfind p (v⟦pk_cl pk⟧)) ∨ p = f_pid f → is_Some (mfind p ((v⟦f_cl f := mset (f_pid f) f' (v⟦f_cl f⟧)⟧)⟦pk_cl pk⟧))) as Hm.
    { intros pk Hp Ecl Hx. rewrite Ecl in *. rewrite znth_zupd_eq by lia. rewrite mfind_mset by (by apply V2). case_decide; [done|]. naive_solver. }
    apply stream_with in Ho as [(-> & -> & -> & -> & _)|[_ Ho]].
    + destruct flit_packet as (pk & Hp & Ecl & _). exists pk. split; [done|]. apply Hm; auto.
    + destruct (V4 _ _ _ _ Hs' Hd' Ho) as (pk & Hp & Hx). exists pk. split; [done|]. destruct (decide (pk_cl pk = f_cl f)) as [Ecl|Hne]; [apply Hm; auto|].
      rewrite znth_zupd_ne; [done|lia| |done]. destruct Hp as [_ Hp]. pose proof (Forall_lookup_1 _ _ _ _ Hpk Hp) as (_ & _ & ? & _). lia.
Qed.

(** The head of a packet that is complete. *)
Lemma heads_erase v : heads_ok L R v → f_head f = false → f_tail f = true →
  ∃ hd l1 h fs, mfind (f_pid f) (v⟦f_cl f⟧) = Some hd ∧ heads_ok L R' (v⟦f_cl f := merase (f_pid f) (v⟦f_cl f⟧)⟧) ∧ retired_as d h hd ∧
    on_vc w (R s d) = l1 ++ h :: fs ∧ f_head h = true ∧ Forall (λ g, f_pid g = f_pid f) (h :: fs) ∧ Forall (λ g, f_head g = false) fs.
Proof.
  intros [V1 V2 V3 V4] Hh Ht. destruct new_flit_ok as (Hof & _ & Hc & _). pose proof Hc as Hc'. unfold class_at in Hc'. pose proof stream_before as Hb. rewrite Hh in Hb.
  destruct flit_packet as (pk & Hp & Ecl & _). destruct (V4 s d w _ Hs Hd Hb) as (pk' & Hp' & [hd Hf]). assert (pk' = pk) as -> by (destruct Hp as [_ Hp], Hp' as [_ Hp']; congruence).
  rewrite Ecl in Hf. destruct (stream_open _ _ Hb) as (l1 & h & fs & E & Hhh & Hpp & Hnh). exists hd, l1, h, fs.
  destruct (V3 _ _ _ Hc Hf) as (s2 & d2 & h2 & A1 & A2 & A3 & A4 & A5 & A6 & A7).
  assert (h ∈ R s d) as Hin.
  { assert (h ∈ on_vc w (R s d)) as Hin by (rewrite E; apply elem_of_app; right; left). unfold on_vc in Hin. by apply list_elem_of_filter in Hin as [_ Hin]. }
  pose proof (ar_flits _ _ _ _ (Hall s2 d2 A1 A2)) as Hf2. rewrite Forall_forall in Hf2. destruct (Hf2 h2 A3) as (_ & Hfh2 & _).
  pose proof (ar_flits _ _ _ _ (Hall s d Hs Hd)) as Hf1. rewrite Forall_forall in Hf1. destruct (Hf1 h Hin) as (_ & Hfh & _). pose proof Hpp as [Hph _]%Forall_cons.
  destruct (retired_unique R s2 d2 h2 s d h) as (-> & -> & ->); try done; [apply head_unique; congruence|]. split_and!; try done. split; [lens|..].
  - intros c Hcc. pose proof Hcc as Hcc'. unfold class_at in Hcc'. rewrite znth_zupd by lia. case_decide; [subst c; by apply msorted_merase, V2|by apply V2].
  - intros c p hd' Hcc. pose proof Hcc as Hcc'. unfold class_at in Hcc'. rewrite znth_zupd by lia. case_decide as Ec; [|intros; apply kept_with; auto]. rewrite mfind_merase by (by apply V2).
    case_decide; [done|]. subst c. intros. apply kept_with. auto.
  - intros s' d' w' p Hs' Hd' [(_ & _ & _ & _ & ?)|[Hne Ho]]%stream_with; [congruence|]. destruct (V4 _ _ _ _ Hs' Hd' Ho) as (qk & Hq & Hx). exists qk. split; [done|].
    rewrite znth_zupd; [|lia|destruct Hq as [_ Hq]; pose proof (Forall_lookup_1 _ _ _ _ Hpk Hq) as (_ & _ & ? & _); lia]. case_decide as Ec; [|done]. rewrite <- Ec in Hx.
    rewrite mfind_merase by (by apply V2). case_decide as Ep; [|done]. subst p. exfalso. apply Hne. by apply (open_unique s' d' w' s d w (f_pid f)).
Qed.

(** ** Packets *)

Lemma arrived_with c d' x : arrived_packet L R c d' x → arrived_packet L R' c d' x.
Proof.
  intros (s1 & w1 & l1 & fs & l2 & pk & [C1 C2 C3 C4 C5 C6 C7 C8 C9]). unfold with_flit.
  assert (∃ k, on_vc w1 (R' s1 d') = on_vc w1 (R s1 d') ++ k) as [k Ek].
  { unfold with_flit. destruct (decide (s1 = s ∧ d' = d)) as [[-> ->]|]; [|exists []; by rewrite app_nil_r]. rewrite on_vc_snoc. case_decide; [by eexists|exists []; by rewrite app_nil_r]. }
  exists s1, w1, l1, fs, (l2 ++ k), pk. split; try done. unfold with_flit in Ek. by rewrite Ek, C5, <- !app_assoc.
Qed.

Lemma complete_new l1 h fs hd tl : f_tail f = true → on_vc w (R s d) ++ [f] = l1 ++ h :: fs → last (h :: fs) = Some f → f_head h = true →
  Forall (λ g, f_pid g = f_pid f) (h :: fs) → Forall (λ g, f_head g = false) fs → retired_as d h hd → retired_as d f tl → arrived_packet L R' (f_cl f) d (hd, tl).
Proof.
  intros Ht E Hlast Hh Hp Hnh Hhd Htl. destruct flit_packet as (pk & Hpa & Ecl & _ & Htail & _ & _). exists s, w, l1, (h :: fs), [], pk.
  assert (on_vc w (R' s d) = l1 ++ h :: fs) as E' by (unfold with_flit; rewrite decide_True by done; by rewrite on_vc_snoc, decide_True).
  assert (Forall (λ g, flit_of L g ∧ f_pid g = f_pid f ∧ (f_head g = true → f_dest g = d)) (h :: fs)) as Hof.
  { apply Forall_forall. intros g Hg. assert (g ∈ on_vc w (R s d ++ [f])) as Hin by (rewrite on_vc_snoc, decide_True, E by done; apply elem_of_app; by right).
    unfold on_vc in Hin. apply list_elem_of_filter in Hin as [_ Hin]. pose proof (ar_flits _ _ _ _ Harr) as Hf. rewrite Forall_forall in Hf. destruct (Hf g Hin) as (_ & Hgo & Hdst).
    rewrite Forall_forall in Hp. auto. }
  pose proof Hof as [(Hfh & Hph & Hdh) _]%Forall_cons. specialize (Hdh Hh). destruct Hfh as (pk' & i & Hpa' & Hfl). rewrite Hph in Hpa'.
  assert (pk' = pk) as -> by (destruct Hpa as [_ Hpa], Hpa' as [_ Hpa']; congruence). assert (i = 0) as -> by (pose proof (fl_head _ _ _ Hfl) as Eh; rewrite Hh in Eh; lia).
  assert (f_pid hd = f_pid f) as Ehd by (destruct Hhd as [t ->]; exact Hph).
  pose proof (ar_order _ _ _ _ Harr w) as Had. rewrite on_vc_snoc, decide_True, E in Had by done. pose proof (adjacent_ids l1 h fs Had Hnh) as Hids.
  assert (zlen (h :: fs) = pk_size pk) as Ez.
  { assert (last (f_id <$> (h :: fs)) = Some (f_id f)) as El by (by rewrite fmap_last, Hlast). rewrite Hids in El. assert (0 < zlen (h :: fs)) as Hz by (unfold zlen; simpl; lia).
    replace (zlen (h :: fs)) with (zlen (h :: fs) - 1 + 1) in El by lia. rewrite seqZ_app, last_app in El by lia. rewrite seqZ_cons in El by lia. cbn in El. injection El as El.
    apply Htail in Ht. pose proof (fl_id _ _ _ Hfl). lia. }
  split; try done; cbn [fst snd].
  - by rewrite Ehd.
  - rewrite <- (fl_dest _ _ _ Hfl). done.
  - by rewrite app_nil_r.
  - rewrite Ehd. eapply Forall_impl; [exact Hof|]. naive_solver.
  - rewrite Hids, Ez. f_equal. rewrite (fl_id _ _ _ Hfl). lia.
  - exists h. done.
  - exists f. done.
Qed.

(** Which packets are delivered now. *)
Lemma delivered_with p pk : packet_at L p pk → retired_ids R' (pk_first pk + pk_size pk - 1) = retired_ids R (pk_first pk + pk_size pk - 1) + (if f_tail f && (f_pid f =? p) then 1 else 0).
Proof.
  intros Hp. rewrite retired_with_f. f_equal. destruct flit_packet as (qk & Hq & _ & _ & Htail & _ & _). destruct new_flit_ok as ((qk' & j & Hq' & Hfl) & _).
  assert (qk' = qk) as -> by (destruct Hq as [_ Hq], Hq' as [_ Hq']; congruence). pose proof (packet_size L HL p pk Hp) as Hsz.
  destruct (Z.eqb_spec (f_id f) (pk_first pk + pk_size pk - 1)) as [E|E].
  - destruct (packet_unique L HL p pk (f_pid f) qk (f_id f) Hp Hq) as [<- <-]; [lia|destruct Hfl; lia|]. rewrite (proj2 Htail E), Z.eqb_refl. done.
  - destruct (Z.eqb_spec (f_pid f) p) as [Ep|]; [|by rewrite andb_false_r]. destruct (f_tail f) eqn:Et; [|done]. exfalso. apply E. subst p.
    assert (qk = pk) as -> by (destruct Hq as [_ Hq], Hp as [_ Hp]; congruence). by apply Htail.
Qed.

Lemma delivered_push D ejq c hd tl v p : grid classes nodes ejq → class_at M c → vset2 ejq c d (at2 ejq c d ++ [(hd, tl)]) = Ok v →
  delivered D v p = delivered D ejq p + (if f_pid hd =? p then 1 else 0).
Proof.
  intros Hg Hc Hv. destruct (vset2_ok classes nodes ejq c d (at2 ejq c d ++ [(hd, tl)]) Hg Hc Hd) as (v' & Hv' & Hg' & Hat). rewrite Hv in Hv'. injection Hv' as <-.
  unfold delivered. rewrite (zsum2_change classes nodes (λ c d, cnt p ((λ x, f_pid x.1) <$> at2 ejq c d)) (λ c d, cnt p ((λ x, f_pid x.1) <$> at2 v c d)) c d Hc Hd).
  - cbn beta. rewrite Hat, decide_True by done. rewrite fmap_app, cnt_app. simpl. destruct (Z.eqb_spec (f_pid hd) p), (decide (f_pid hd = p)); try done; lia.
  - intros c' d' Hc' Hd' Hne. by rewrite Hat, decide_False.
Qed.

(** ** Retiring *)

Context (D : list Z) (t : Z).
Local Abbreviation f1 := (set_atime t f).
Local Abbreviation f2 := (set_dest d (set_atime t f)).

(** The flit is no longer in flight. *)
Lemma flight_total tm : retire_ok L R D tm → returns (erase_key (tm_total_in_flight_flits tm) (f_cl f) (f_id f)) (in_flight L R' (λ _, True)).
Proof. intros HR. by apply (erase_ok _ _ (rt_total _ _ _ _ HR)). Qed.

Lemma flight_measured tm (tm0 : TM) : retire_ok L R D tm → tm_measured_in_flight_flits tm0 = tm_measured_in_flight_flits tm →
  returns (if f_record f then v ← erase_key (tm_measured_in_flight_flits tm0) (f_cl f) (f_id f); Ok (with_measured_in_flight_flits v tm0) else Ok tm0)
    (λ tm', ∃ b, tm' = with_measured_in_flight_flits b tm0 ∧ in_flight L R' (λ pk, pk_record pk = true) b).
Proof.
  intros HR E. destruct flit_packet as (pk & Hp & _ & _ & _ & Hrec & _).
  assert (∀ qk, packet_at L (f_pid f) qk → qk = pk) as Hu by (intros qk [_ Hq]; destruct Hp as [_ Hp]; congruence). rewrite E. destruct (f_record f).
  - eapply returns_bind; [apply (erase_ok _ _ (rt_measured _ _ _ _ HR)); intros qk ->%Hu; done|]. intros b Hb. apply returns_ok. by exists b.
  - apply returns_ok. exists (tm_measured_in_flight_flits tm). split; [rewrite <- E; by destruct tm0|]. apply flight_other; [apply HR|]. intros qk ->%Hu. congruence.
Qed.

(** The packet is complete. *)
Lemma retire_pair tm hd : zlen (tm_requestsOutstanding tm) = nodes → grid classes nodes (tm_ejection_queue tm) → f_dest hd = d → f_pid hd = f_pid f → f_cl hd = f_cl f → node_at M (f_src hd) →
  returns (RetirePacket_pair hd f2 tm) (λ tm', ∃ r v, tm' = with_ejection_queue v (with_requestsOutstanding r tm) ∧ zlen r = nodes ∧
    vset2 (tm_ejection_queue tm) (f_cl f) d (at2 (tm_ejection_queue tm) (f_cl f) d ++ [(hd, f2)]) = Ok v).
Proof.
  intros Hr Hg Edd Ep Ec Hsrc. unfold RetirePacket_pair. destruct new_flit_ok as (_ & _ & Hc & _).
  apply returns_assert; [simpl; lia|]. apply returns_assert; [simpl; lia|]. unfold node_at in Hsrc. rewrite vget_ok by lia. cbn [mbind res_bind]. rewrite vset_ok by lia. cbn [mbind res_bind].
  cbn [tm_ejection_queue with_requestsOutstanding]. rewrite Ec, Edd. rewrite (vget2_ok classes nodes) by done. cbn [mbind res_bind].
  destruct (vset2_ok classes nodes (tm_ejection_queue tm) (f_cl f) d (at2 (tm_ejection_queue tm) (f_cl f) d ++ [(hd, f2)]) Hg Hc Hd) as (v & Hv & _). rewrite Hv. cbn [mbind res_bind].
  apply returns_ok. eexists _, v. split_and!; [done|lens|done].
Qed.

(** The state after: [a] and [b] are the flits in flight, [h] the heads kept, [r]
    the requests and [q] the ejection queues. *)
Definition retired_state tm a b h r q : TM :=
  with_ejection_queue q (with_requestsOutstanding r (with_retired_packets h (with_measured_in_flight_flits b (with_total_in_flight_flits a (with_deadlock_timer 0 tm))))).

(** No packet is complete. *)
Lemma retire_partly tm a b h : retire_ok L R D tm → in_flight L R' (λ _, True) a → in_flight L R' (λ pk, pk_record pk = true) b → heads_ok L R' h → f_tail f = false →
  retire_ok L R' D (retired_state tm a b h (tm_requestsOutstanding tm) (tm_ejection_queue tm)).
Proof.
  intros [R1 R2 R3 R4 R5 R6 R7 R8] Ha Hb Hh Ht. split; try done.
  - intros c' d' Hc' Hd'. eapply Forall_impl; [by apply R6|]. intros x. apply arrived_with.
  - intros p pk Hp. simpl. rewrite (R7 p pk Hp), (delivered_with p pk Hp), Ht. simpl. lia.
Qed.

(** A packet is complete. *)
Lemma retire_fully tm a b h r q hd : retire_ok L R D tm → in_flight L R' (λ _, True) a → in_flight L R' (λ pk, pk_record pk = true) b → heads_ok L R' h → f_tail f = true →
  zlen r = nodes → vset2 (tm_ejection_queue tm) (f_cl f) d (at2 (tm_ejection_queue tm) (f_cl f) d ++ [(hd, f2)]) = Ok q → f_pid hd = f_pid f →
  arrived_packet L R' (f_cl f) d (hd, f2) → retire_ok L R' D (retired_state tm a b h r q).
Proof.
  intros [R1 R2 R3 R4 R5 R6 R7 R8] Ha Hb Hh Ht Hr Hq Ep Hx. destruct new_flit_ok as (_ & _ & Hc & _).
  destruct (vset2_ok classes nodes (tm_ejection_queue tm) (f_cl f) d (at2 (tm_ejection_queue tm) (f_cl f) d ++ [(hd, f2)]) R5 Hc Hd) as (q' & Hq' & Hg & Hat).
  rewrite Hq in Hq'. injection Hq' as <-. split; try done.
  - intros c' d' Hc' Hd'. simpl. rewrite Hat by done. assert (Forall (arrived_packet L R' c' d') (at2 (tm_ejection_queue tm) c' d')) as Ho
      by (eapply Forall_impl; [by apply R6|]; intros x; apply arrived_with).
    case_decide as Hdc; [|done]. destruct Hdc as [-> ->]. apply Forall_app_2; [done|by apply Forall_singleton].
  - intros p pk Hp. simpl. rewrite (delivered_push D (tm_ejection_queue tm) (f_cl f) hd f2 q p R5 Hc Hq), Ep, (R7 p pk Hp), (delivered_with p pk Hp), Ht. done.
Qed.

Lemma f2_retired : retired_as d f f2.
Proof. by exists t. Qed.

(** The tail of a packet. *)
Lemma retire_tail tm a b : retire_ok L R D tm → in_flight L R' (λ _, True) a → in_flight L R' (λ pk, pk_record pk = true) b → f_tail f = true →
  let tm0 := with_measured_in_flight_flits b (with_total_in_flight_flits a (with_deadlock_timer 0 tm)) in
  returns ('(hd, tm) ← (if f_head f then Ok (f2, tm0)
      else
        m ← vget (tm_retired_packets tm0) (f_cl f);
        match mfind (f_pid f) m with
        | None => Fail AssertFailed
        | Some hd =>
            v ← vset (tm_retired_packets tm0) (f_cl f) (merase (f_pid f) m);
            assert! f_head hd;
            assert! (f_pid f =? f_pid hd);
            Ok (hd, with_retired_packets v tm0)
        end);
    RetirePacket_pair hd f2 tm) (λ tm', retire_ok L R' D tm' ∧ others_of tm' = others_of tm).
Proof.
  intros HR Ha Hb Ht tm0. pose proof HR as [R1 R2 R3 R4 R5 R6 R7 R8]. destruct new_flit_ok as (Hof & _ & Hc & Hsrc).
  destruct (f_head f) eqn:Hh.
  - cbn [mbind res_bind]. eapply returns_mono; [by apply retire_pair|]. intros tm' (r & q & -> & Hr & Hq).
    split; [|done]. apply (retire_fully tm a b (tm_retired_packets tm) r q f2); try done; [by apply heads_same|].
    apply (complete_new (on_vc w (R s d)) f []); try done; [by apply Forall_singleton|apply f2_retired..].
  - destruct (heads_erase _ R3 Hh Ht) as (hd & l1 & h & fs & Hm & Hv & Has & E & Hhh & Hp & Hnh). unfold class_at in Hc. pose proof (hd_len _ _ _ R3) as Hl.
    cbn [tm_retired_packets with_measured_in_flight_flits with_total_in_flight_flits with_deadlock_timer tm0]. rewrite vget_ok by lia. cbn [mbind res_bind]. rewrite Hm. rewrite vset_ok by lia. cbn [mbind res_bind].
    assert (f_head hd = true ∧ f_pid hd = f_pid h ∧ f_cl hd = f_cl h ∧ f_src hd = f_src h ∧ f_dest hd = d) as (D1 & D2 & D3 & D4 & D5) by (destruct Has as [t' ->]; done).
    pose proof Hp as [Hph _]%Forall_cons. rewrite D1. cbn [cassert mbind res_bind]. rewrite D2, Hph, Z.eqb_refl. cbn [cassert mbind res_bind].
    assert (h ∈ R s d) as Hin.
    { assert (h ∈ on_vc w (R s d)) as Hin by (rewrite E; apply elem_of_app; right; left). unfold on_vc in Hin. by apply list_elem_of_filter in Hin as [_ Hin]. }
    pose proof (ar_flits _ _ _ _ (Hall s d Hs Hd)) as Hf1. rewrite Forall_forall in Hf1. destruct (Hf1 h Hin) as (_ & Hfh & _).
    assert (f_cl h = f_cl f ∧ f_src h = f_src f) as [Ecl Esrc].
    { destruct Hfh as (pk & i & [_ P1] & F1), Hof as (qk & j & [_ P2] & F2). rewrite Hph, P2 in P1. injection P1 as ->. destruct F1, F2. split; congruence. }
    eapply returns_mono; [apply retire_pair; try done; [congruence|congruence|by rewrite D4, Esrc]|]. intros tm' (r & q & -> & Hr & Hq).
    split; [|done]. apply (retire_fully tm a b _ r q hd); try done; [congruence|].
    apply (complete_new l1 h (fs ++ [f])); try done.
    + by rewrite E, <- app_assoc.
    + change (h :: fs ++ [f]) with ((h :: fs) ++ [f]). apply last_snoc.
    + change (h :: fs ++ [f]) with ((h :: fs) ++ [f]). apply Forall_app_2; [done|by apply Forall_singleton].
    + apply Forall_app_2; [done|by apply Forall_singleton].
    + apply f2_retired.
Qed.

Lemma RetireFlit_ok tm : retire_ok L R D tm → returns (RetireFlit f1 d tm) (λ tm', retire_ok L R' D tm' ∧ others_of tm' = others_of tm).
Proof.
  intros HR. unfold RetireFlit. cbn [f_cl f_id f_record f_head f_tail f_dest f_pid set_atime].
  eapply returns_bind; [by apply (flight_total tm)|]. intros a Ha. eapply returns_bind; [by apply (flight_measured tm)|]. intros tm0 (b & -> & Hb).
  destruct new_flit_ok as (_ & Hdst & Hc & _). replace (f_head f && negb (f_dest f =? GetActualNode d)) with false
    by (unfold GetActualNode; destruct (f_head f); [rewrite Hdst, Z.eqb_refl by done|]; done).
  change (f_tail (set_dest d f1)) with (f_tail f). change (f_head (set_dest d f1)) with (f_head f). change (f_pid (set_dest d f1)) with (f_pid f). change (f_cl (set_dest d f1)) with (f_cl f).
  destruct (f_tail f) eqn:Ht.
  - eapply returns_bind; [by apply retire_tail|]. intros tm' Htm'. rewrite andb_false_r. by apply returns_ok.
  - cbn [mbind res_bind]. rewrite andb_true_r. pose proof (rt_heads _ _ _ _ HR) as R3. destruct (f_head f) eqn:Hh.
    + unfold class_at in Hc. pose proof (hd_len _ _ _ R3) as Hl. cbn [tm_retired_packets with_measured_in_flight_flits with_total_in_flight_flits with_deadlock_timer].
      rewrite vget_ok by lia. cbn [mbind res_bind]. rewrite vset_ok by lia. cbn [mbind res_bind]. apply returns_ok.
      destruct (heads_insert _ f2 R3 Hh Ht f2_retired) as [Hn Hi]. unfold mcount. rewrite Hn. cbn [Z.eqb]. split; [|done].
      exact (retire_partly tm a b _ HR Ha Hb Hi Ht).
    + apply returns_ok. split; [|done]. apply (retire_partly tm a b (tm_retired_packets tm)); try done. apply heads_same; [done|congruence..].
Qed.
End flit.
End retire.
