(* ===== verification/SimStep.v ===== *)
(** * The simulator: a cycle

    [Step]: the nodes receive, send, and retire what they have received; the
    networks advance.  It keeps the invariant of the whole simulator and never
    fails. *)

From S2P Require Import Prelude StdMap OutputSet Flit VCBuffer BufferState BufferStateInv Credits Link Arbiter Allocator AllocLaws Rng KNCube Route SwitchAlloc IQRouter IQSwitch Wormhole RouterInv RouterQueues RouterStages RouterRoute RouterVCAlloc RouterSwitchAlloc RouterSend RouterSwitch RouterStep RouterRun RouterSpec RouterFlow Channel Network NetChannels NetworkInv NetworkRun NetworkSpec TrafficManager Terminal Packets SimInv SimNodes Retire.
Import CoreOps Credits Link NetworkOps TMOps.

Section step.
Context {VA SA PA : Type} `{Inhabited SA} (M : SimSetup VA SA PA) (Hch : 0 ≤ nc_channels (ns_N (ss_S M))).
Local Abbreviation S := (ss_S M).
Local Abbreviation N := (ns_N (ss_S M)).
Local Abbreviation T := (ss_T M).
Local Abbreviation V := (ns_vcs (ss_S M)).
Local Abbreviation nodes := (tc_nodes (ss_T M)).
Local Abbreviation subnets := (tc_subnets (ss_T M)).
Local Abbreviation classes := (tc_classes (ss_T M)).
Local Abbreviation TM := (TM VA SA PA).
Local Abbreviation Net := (Network VA SA PA).
Implicit Types (tm : TM) (X : Z → NetHist) (L : list Packet) (R : Z → Z → list Flit) (D : list Z) (nw : Net).

(** ** The invariant *)

Definition credit_for (f : Flit) : Credit := mkCredit [f_vc f].

(** Subnetwork [s] is as [P s] says; [R] has been retired and [D] handed out. *)
Record phase_ok (P : Z → NetHist → (Z → list Move) → Net → Prop) X L R D tm : Prop := {
  ph_log : logged M L tm;
  ph_nodes : nodes_ok M X L tm;
  ph_len : zlen (tm_net tm) = subnets;
  ph_nets : ∀ s, subnet_at M s → ∃ moves, P s (X s) moves ((tm_net tm)⟦s⟧);
  ph_retire : retire_ok M L R D tm;
  ph_credits : ∀ s d, subnet_at M s → node_at M d → x_credits (X s) d = credit_for <$> R s d;
  ph_counts : counts_ok M (tm_counts tm);
  ph_rng : RngInv.rng_ok (tm_rng tm)
}.

Definition ejected X (s d : Z) : list Flit := x_ejected (X s) d.

Definition resting_nets (now : Z) (s : Z) : NetHist → (Z → list Move) → Net → Prop := net_ok S now.

(** Between cycles. *)
Record sim_ok X L D tm : Prop := {
  sm_phase : phase_ok (resting_nets (tm_time tm)) X L (ejected X) D tm;
  sm_time : 0 ≤ tm_time tm
}.

(** ** What does not change *)

Lemma retire_rest L R D tm tm' : rest_of tm' = rest_of tm → retire_ok M L R D tm → retire_ok M L R D tm'.
Proof. intros E [R1 R2 R3 R4 R5 R6 R7 R8]. destruct tm, tm'. unfold rest_of in E. simpl in *. simplify_eq. by split. Qed.

Lemma logged_rest L tm tm' : rest_of tm' = rest_of tm → logged M L tm → logged M L tm'.
Proof. intros E [R1 R2 R3 R4 R5]. destruct tm, tm'. unfold rest_of in E. simpl in *. simplify_eq. by split. Qed.

Lemma time_rest tm tm' : rest_of tm' = rest_of tm → tm_time tm' = tm_time tm.
Proof. intros E. destruct tm, tm'. unfold rest_of in E. simpl in *. congruence. Qed.

Lemma nodes_ext X X' L tm tm' : (∀ s, subnet_at M s → x_injected (X' s) = x_injected (X s) ∧ x_credited (X' s) = x_credited (X s)) →
  others_of tm' = others_of tm → nodes_ok M X L tm → nodes_ok M X' L tm'.
Proof.
  intros Hx E [S1 S2 S3 S4 S5 S6 S7 S8 S9 S10 S11]. destruct tm, tm'. unfold others_of in E. simpl in *. simplify_eq. split; try done.
  - intros n s Hn Hs. destruct (Hx s Hs) as [-> ->]. by apply S7.
  - intros n c Hn Hc. simpl. destruct (Hx _ (subnet_of_at M c Hc)) as [-> _]. by apply S9.
  - intros n s Hn Hs. destruct (Hx s Hs) as [-> _]. by apply S10.
  - intros k Hk. rewrite <- (S11 k Hk). f_equal. apply zsum2_ext. intros s n Hs Hn. by destruct (Hx s Hs) as [-> _].
Qed.

Lemma logged_others L tm tm' : others_of tm' = others_of tm → logged M L tm → logged M L tm'.
Proof. intros E [R1 R2 R3 R4 R5]. destruct tm, tm'. unfold others_of in E. simpl in *. simplify_eq. by split. Qed.

(** One subnetwork changes. *)
Lemma nets_put (P P' : Z → NetHist → (Z → list Move) → Net → Prop) X X' (nets : list Net) s nw' : zlen nets = subnets →
  (∀ s', subnet_at M s' → ∃ m, P s' (X s') m (nets⟦s'⟧)) → subnet_at M s → (∃ m, P' s (X' s) m nw') →
  (∀ s' H m nw, s' ≠ s → P s' H m nw → P' s' H m nw) → (∀ s', s' ≠ s → X' s' = X s') →
  zlen (nets⟦s := nw'⟧) = subnets ∧ ∀ s', subnet_at M s' → ∃ m, P' s' (X' s') m ((nets⟦s := nw'⟧)⟦s'⟧).
Proof.
  intros Hl HP Hs Hn Ho Hx. split; [lens|]. intros s' Hs'. unfold subnet_at in *. rewrite znth_zupd by lia. case_decide as E; [by subst s'|].
  destruct (HP s' Hs') as [m Hm]. exists m. rewrite Hx by done. by apply Ho.
Qed.

(** ** Receiving *)

Section cycle.
Context (X0 : Z → NetHist) (L : list Packet) (D : list Z) (tm0 : TM) (H0 : sim_ok X0 L D tm0).
Context (Htime : tm_time tm0 + Z.max 0 (ns_latency S) ≤ int_max).
Local Abbreviation now := (tm_time tm0).

Definition pending (s d : Z) : option Flit := arriving ((tm_net tm0)⟦s⟧) (Eject d).
Definition arrivals (s d : Z) : list Flit := ejected X0 s d ++ option_list (pending s d).

Lemma arrivals_ok s d : subnet_at M s → node_at M d → arrived S (flit_of L) d (arrivals s d).
Proof.
  intros Hs Hd. destruct H0 as [HP _]. destruct (ph_nets _ _ _ _ _ _ HP s Hs) as [moves Hn]. by apply (subnet_arrived M X0 L tm0 s moves (ph_nodes _ _ _ _ _ _ HP) Hs Hch Hn d).
Qed.

(** Every flit arrives once. *)
Lemma arrivals_once k : retired_ids M arrivals k ≤ 1.
Proof.
  destruct H0 as [HP _]. pose proof (ph_nodes _ _ _ _ _ _ HP) as HN. pose proof (ns_nodes S) as Hnn. rewrite <- (ss_nodes M) in Hnn. pose proof (ss_subnets_pos M).
  destruct (decide (0 ≤ k < flits_in L)) as [Hk|Hk].
  - rewrite <- (sn_ids _ _ _ _ HN k Hk). assert (0 ≤ queued_ids M tm0 k) by (apply zsum2_nonneg; [done|pose proof (ss_classes_pos M); lia|intros; apply tally_nonneg]).
    enough (retired_ids M arrivals k ≤ injected_ids M X0 k) by lia. unfold retired_ids, injected_ids, zsum2. apply zsumf_le; [lia|]. intros s Hs.
    destruct (ph_nets _ _ _ _ _ _ HP s Hs) as [moves Hn]. pose proof (received_conserved S (is_id k) _ _ _ _ Hch Hn) as Hc. rewrite <- (ss_nodes M) in Hc. exact Hc.
  - assert (retired_ids M arrivals k = 0) as ->; [|lia]. unfold retired_ids. rewrite (zsum2_ext _ _ (λ _ _, 0)).
    + unfold zsum2. rewrite (zsumf_ext _ (λ _, 0)); [apply zsumf_const_0|]. intros. apply zsumf_const_0.
    + intros s d Hs Hd. destruct (decide (0 < tally (is_id k) (arrivals s d))) as [Hp|Hp]; [|pose proof (tally_nonneg (is_id k) (arrivals s d)); lia].
      apply tally_pos_inv in Hp as (f & Hf & Ef). apply Z.eqb_eq in Ef. simpl in Ef. exfalso. apply Hk. rewrite <- Ef. apply flit_id_range; [apply (ph_log _ _ _ _ _ _ HP)|].
      pose proof (ar_flits _ _ _ _ (arrivals_ok s d Hs Hd)) as Ha. rewrite Forall_forall in Ha. by apply Ha.
Qed.

Definition has_read_net (s : Z) (H : NetHist) (m : Z → list Move) nw : Prop :=
  net_read S now H m nw ∧ ∀ c, valid_chan N c → silent nw c ∧ silent_credit nw c.

(** The subnetworks before [k] have read. *)
Record read_upto (k : Z) (fl : list (imap Flit)) X tm : Prop := {
  ru_phase : phase_ok (λ s, if decide (s < k) then has_read_net s else net_ok S now) X L (ejected X0) D tm;
  ru_len : zlen fl = k;
  ru_time : tm_time tm = now;
  ru_rest : ∀ s, k ≤ s → X s = X0 s ∧ (tm_net tm)⟦s⟧ = (tm_net tm0)⟦s⟧;
  ru_ejected : ∀ s d, subnet_at M s → node_at M d → s < k → ejected X s d = arrivals s d;
  ru_flits : ∀ s d, subnet_at M s → node_at M d → s < k → mfind d (fl⟦s⟧) = pending s d
}.

Lemma read_step k fl X tm : subnet_at M k → read_upto k fl X tm → returns (read_subnet N T k (fl, tm)) (λ '(fl', tm'), ∃ X', read_upto (k + 1) fl' X' tm').
Proof.
  intros Hk [HP Hl Ht Hr He Hf]. destruct (ph_nets _ _ _ _ _ _ HP k Hk) as [moves Hn]. rewrite decide_False in Hn by lia. destruct (Hr k ltac:(lia)) as [Ex En].
  rewrite <- Ht in Hn. destruct H0 as [_ H00]. unfold subnet_at in Hk.
  eapply returns_mono; [apply (read_subnet_ok M X L tm k moves (ph_log _ _ _ _ _ _ HP) (ph_nodes _ _ _ _ _ _ HP) Hk (ph_len _ _ _ _ _ _ HP) Hch Hn (ph_counts _ _ _ _ _ _ HP) fl); lia|].
  intros [fl' tm'] (flits & -> & [B1 B2 (nw' & B3 & B4 & B5) B6 B7 B8]). exists (reads M X tm k).
  assert (∀ s, s ≠ k → reads M X tm k s = X s) as Hne by (intros s Hs; unfold reads; by rewrite decide_False).
  assert (∀ d, ejected (reads M X tm k) k d = arrivals k d) as Hek by (intros d; unfold ejected, reads; rewrite decide_True by done; simpl; unfold arrivals, ejected, pending; by rewrite Ex, En).
  pose proof (time_rest _ _ B8) as Ht'. split.
  - destruct (nets_put _ (λ s, if decide (s < k + 1) then has_read_net s else net_ok S now) X (reads M X tm k) (tm_net tm) k nw' (ph_len _ _ _ _ _ _ HP) (ph_nets _ _ _ _ _ _ HP) Hk) as [N1 N2]; [| |done|].
    { exists moves. rewrite decide_True by lia. split; [by rewrite <- Ht|done]. }
    { intros s H' m nw Hs. destruct (decide (s < k)), (decide (s < k + 1)); done || lia. }
    rewrite <- B3 in N1, N2. split; try done; [eapply logged_rest; [done|apply HP]|eapply retire_rest; [done|apply HP]| |by rewrite B7; apply HP].
    intros s d Hs Hd. rewrite <- (ph_credits _ _ _ _ _ _ HP s d Hs Hd). by destruct (reads_same M X tm k s) as (_ & -> & _).
  - rewrite zlen_snoc. lia.
  - by rewrite Ht', Ht.
  - intros s Hs. rewrite Hne by lia. destruct (Hr s ltac:(lia)) as [-> <-]. split; [done|]. rewrite B3. apply znth_zupd_ne; lia.
  - intros s d Hs Hd Hlt. destruct (decide (s = k)) as [->|Hsk]; [done|]. unfold ejected. rewrite Hne by done. apply He; [done|done|lia].
  - intros s d Hs Hd Hlt. destruct (decide (s = k)) as [->|Hsk].
    + rewrite znth_snoc, decide_True by lia. rewrite B1 by done. unfold pending. by rewrite En.
    + unfold subnet_at in Hs. rewrite znth_snoc, decide_False by lia. apply Hf; [done|done|lia].
Qed.

Lemma read_phase_ok : returns (zfor 0 subnets (read_subnet N T) ([], tm0)) (λ '(fl, tm), ∃ X, read_upto subnets fl X tm).
Proof.
  pose proof (ss_subnets_pos M). eapply returns_mono; [apply (returns_for (λ k '(fl, tm), ∃ X, read_upto k fl X tm)); [lia|..]|by intros [fl tm]].
  - exists X0. destruct H0 as [HP Ht0]. split; try done; try (intros; unfold subnet_at in *; lia). destruct HP as [P1 P2 P3 P4 P5 P6 P7 P8]. split; try done.
    intros s Hs. destruct (P4 s Hs) as [m Hm]. exists m. rewrite decide_False by (unfold subnet_at in Hs; lia). done.
  - intros k [fl tm] Hk (X & HR). by apply (read_step k fl X tm).
Qed.

(** ** Sending *)

(** Nodes from [k] on in subnetwork [s0], and all nodes in later ones, have not sent. *)
Definition sending_net (s0 k s : Z) (H : NetHist) (m : Z → list Move) nw : Prop :=
  net_read S now H m nw ∧ (∀ d, node_at M d → silent_credit nw (Eject d)) ∧
  ∀ n, node_at M n → s0 < s ∨ s = s0 ∧ k ≤ n → silent nw (Inject n).

Record sent_upto (s0 k : Z) X tm : Prop := {
  su_phase : phase_ok (sending_net s0 k) X L (ejected X0) D tm;
  su_time : tm_time tm = now;
  su_ejected : ∀ s d, subnet_at M s → node_at M d → ejected X s d = arrivals s d
}.

Lemma send_step s n X tm : subnet_at M s → node_at M n → sent_upto s n X tm → returns (inject_node (ns_rf S) N T s n tm) (λ tm', ∃ X', sent_upto s (n + 1) X' tm').
Proof.
  intros Hs Hn [HP Ht He]. destruct (ph_nets _ _ _ _ _ _ HP s Hs) as (moves & Hnet & Hsc & Hsi). rewrite <- Ht in Hnet. pose proof (proj1 (node_at_range M n) Hn) as Hv.
  eapply returns_mono; [apply (inject_node_ok M X L tm n s (ph_log _ _ _ _ _ _ HP) (ph_nodes _ _ _ _ _ _ HP) Hn Hs (ph_rng _ _ _ _ _ _ HP) moves (ph_len _ _ _ _ _ _ HP) Hnet (ph_counts _ _ _ _ _ _ HP)); apply Hsi; [done|right; lia]|].
  intros tm' (fs & [(X' & I1 & I2 & I3) (nw' & I4 & I5 & I6 & I7) I8 I9 I10]). exists X'. pose proof (time_rest _ _ I10) as Ht'.
  assert (∀ s', x_ejected (X' s') = x_ejected (X s') ∧ x_credits (X' s') = x_credits (X s')) as Hx.
  { intros s'. destruct (decide (s' = s)) as [->|Hne]; [rewrite I3; by destruct fs|by rewrite I2]. }
  split.
  - destruct (nets_put _ (sending_net s (n + 1)) X X' (tm_net tm) s nw' (ph_len _ _ _ _ _ _ HP) (ph_nets _ _ _ _ _ _ HP) Hs) as [N1 N2].
    { exists moves. split_and!.
      - rewrite I3, <- Ht. exact I6.
      - intros d Hd. unfold silent_credit, credit_chan. rewrite I5. by apply Hsc.
      - intros n' Hn' Hlt. unfold silent. rewrite I7; [apply Hsi; [done|lia]|by apply (node_at_range M)|intros [= ->]; lia]. }
    { intros s' H' m nw Hne (Q1 & Q2 & Q3). split_and!; [done|done|]. intros n' Hn' Hlt. apply Q3; [done|lia]. }
    { done. }
    rewrite <- I4 in N1, N2. split; try done; [eapply logged_rest; [done|apply HP]|eapply retire_rest; [done|apply HP]|].
    intros s' d Hs' Hd. destruct (Hx s') as [_ ->]. by apply HP.
  - congruence.
  - intros s' d Hs' Hd. unfold ejected. destruct (Hx s') as [-> _]. by apply He.
Qed.

Lemma send_phase_ok X tm : sent_upto 0 0 X tm → returns (zfor 0 subnets (inject_subnet (ns_rf S) N T) tm) (λ tm', ∃ X', sent_upto subnets 0 X' tm').
Proof.
  intros HS. pose proof (ss_subnets_pos M). pose proof (ns_nodes S) as Hnn. rewrite <- (ss_nodes M) in Hnn.
  apply (returns_for (λ s tm, ∃ X, sent_upto s 0 X tm)); [lia|by exists X|]. intros s tm1 Hs HX1. unfold inject_subnet.
  eapply returns_mono; [apply (returns_for (λ n tm, ∃ X, sent_upto s n X tm)); [lia|done|]|].
  - intros n tm2 Hn (X2 & HS2). by apply (send_step s n X2).
  - intros tm2 (X2 & [HP Ht He]). exists X2. split; try done. destruct HP as [P1 P2 P3 P4 P5 P6 P7 P8]. split; try done.
    intros s' Hs'. destruct (P4 s' Hs') as (m & Q1 & Q2 & Q3). exists m. split_and!; [done|done|]. intros n Hn Hlt. apply Q3; [done|lia].
Qed.

Lemma read_sent fl X tm : read_upto subnets fl X tm → sent_upto 0 0 X tm.
Proof.
  intros [HP Hl Ht Hr He Hf]. split; try done; [|intros s d Hs Hd; apply He; [done|done|apply Hs]]. destruct HP as [P1 P2 P3 P4 P5 P6 P7 P8]. split; try done.
  intros s Hs. destruct (P4 s Hs) as [m Hm]. rewrite decide_True in Hm by apply Hs. destruct Hm as [Hm1 Hm2]. exists m. split_and!; [done|..].
  - intros d Hd. by apply Hm2, (node_at_range M).
  - intros n Hn _. by apply Hm2, (node_at_range M).
Qed.

(** ** Retiring *)

(** Subnetworks before [s0] are done; in it the nodes before [k] have retired. *)
Definition finishing_net (s0 k s : Z) (H : NetHist) (m : Z → list Move) nw : Prop :=
  if decide (s < s0) then net_ok S (now + 1) H m nw
  else net_read S now H m nw ∧ ∀ d, node_at M d → s0 < s ∨ k ≤ d → silent_credit nw (Eject d).

Definition retired_before (s0 k s d : Z) : Prop := s < s0 ∨ s = s0 ∧ d < k.

Record done_upto (s0 k : Z) X R tm : Prop := {
  du_phase : phase_ok (finishing_net s0 k) X L R D tm;
  du_time : tm_time tm = now;
  du_ejected : ∀ s d, subnet_at M s → node_at M d → ejected X s d = arrivals s d;
  du_retired : ∀ s d, subnet_at M s → node_at M d → retired_before s0 k s d → R s d = arrivals s d;
  du_waiting : ∀ s d, subnet_at M s → node_at M d → ¬ retired_before s0 k s d → R s d = ejected X0 s d
}.

Lemma arrived_prefix P d a b : arrived S P d (a ++ b) → arrived S P d a.
Proof.
  intros [A1 A2 A3]. apply Forall_app in A1 as [A1 _]. split; [done|..]; intros w; [specialize (A2 w)|specialize (A3 w)]; unfold on_vc in *.
  - rewrite filter_app in A2. by eapply stream_part.
  - rewrite filter_app in A3. by eapply adjacent_prefix.
Qed.

Lemma done_prefix s0 k X R tm s d : done_upto s0 k X R tm → subnet_at M s → node_at M d → ∃ l, arrivals s d = R s d ++ l.
Proof.
  intros HD Hs Hd. assert (Decision (retired_before s0 k s d)) as Hdec by (unfold retired_before; apply _).
  destruct (decide (retired_before s0 k s d)) as [Hb|Hb].
  - rewrite (du_retired _ _ _ _ _ HD) by done. exists []. by rewrite app_nil_r.
  - rewrite (du_waiting _ _ _ _ _ HD) by done. by eexists.
Qed.

(** What is retired is part of what has arrived. *)
Lemma retired_le R : (∀ s d, subnet_at M s → node_at M d → ∃ l, arrivals s d = R s d ++ l) → ∀ k, retired_ids M R k ≤ 1.
Proof.
  intros HR k. etrans; [|apply (arrivals_once k)]. pose proof (ns_nodes S) as Hnn. rewrite <- (ss_nodes M) in Hnn. pose proof (ss_subnets_pos M).
  apply zsumf_le; [lia|]. intros s Hs. apply zsumf_le; [lia|]. intros d Hd. destruct (HR s d Hs Hd) as [l ->]. rewrite tally_app. pose proof (tally_nonneg (is_id k) l). lia.
Qed.

Section subnet.
Context (fl : list (imap Flit)) (Hfl : ∀ s d, subnet_at M s → node_at M d → mfind d (fl⟦s⟧) = pending s d) (Hfll : zlen fl = subnets).

Lemma with_before R s n f s' d' : R s n = ejected X0 s n → pending s n = Some f → (∀ s1 d1, subnet_at M s1 → node_at M d1 → retired_before s n s1 d1 → R s1 d1 = arrivals s1 d1) →
  subnet_at M s' → node_at M d' → retired_before s (n + 1) s' d' → with_flit R s n f s' d' = arrivals s' d'.
Proof.
  intros E Ef Hb Hs' Hd' Hr. unfold with_flit. destruct (decide (s' = s ∧ d' = n)) as [[-> ->]|Hne]; [rewrite E; unfold arrivals; by rewrite Ef|].
  apply Hb; [done|done|]. unfold retired_before in *. lia.
Qed.

Lemma retire_step s n X R tm : subnet_at M s → node_at M n → done_upto s n X R tm →
  returns (retire_node N s (fl⟦s⟧) n tm) (λ tm', ∃ X' R', done_upto s (n + 1) X' R' tm').
Proof.
  intros Hs Hn HD. pose proof HD as [HP Ht He Hr Hw]. unfold retire_node. rewrite Hfl by done. assert (¬ retired_before s n s n) as Hnb by (unfold retired_before; lia).
  pose proof (Hw s n Hs Hn Hnb) as ER. destruct (pending s n) as [f|] eqn:Ef.
  - destruct (ph_nets _ _ _ _ _ _ HP s Hs) as (moves & Hnet). unfold finishing_net in Hnet. rewrite decide_False in Hnet by lia. destruct Hnet as [Hnet Hsil].
    rewrite vget_ok by (rewrite (ph_len _ _ _ _ _ _ HP); done). cbn [mbind res_bind]. change (mkCredit [f_vc (set_atime (tm_time tm) f)]) with (credit_for f).
    eapply returns_bind; [apply (WriteCredit_net S now (X s) moves _ (credit_for f) n Hnet); [by apply (node_at_range M)|apply Hsil; [done|lia]]|]. intros nw' (W1 & W2 & W3).
    rewrite vset_ok by (rewrite (ph_len _ _ _ _ _ _ HP); done). cbn [mbind res_bind].
    set (X' := λ s', if decide (s' = s) then returns_credit n (credit_for f) (X s) else X s').
    pose proof (ph_log _ _ _ _ _ _ HP) as [L1 L2 L3 L4 L5]. pose proof (done_prefix s n X R tm) as Hpre.
    assert (arrivals s n = R s n ++ [f]) as Ea by (rewrite ER; unfold arrivals; by rewrite Ef).
    assert (∀ s' d', subnet_at M s' → node_at M d' → ∃ l, arrivals s' d' = with_flit R s n f s' d' ++ l) as Hpre'.
    { intros s' d' Hs' Hd'. unfold with_flit. destruct (decide (s' = s ∧ d' = n)) as [[-> ->]|]; [exists []; by rewrite Ea, app_nil_r|by apply Hpre]. }
    pose proof (retired_le _ Hpre' (f_id f)) as H1. rewrite retired_with, Z.eqb_refl in H1 by done. pose proof (retired_nonneg M R (f_id f)) as H2.
    eapply returns_mono; [apply (RetireFlit_ok M L L1 L5 R s n f Hs Hn) with (D := D)|].
    + intros s' d' Hs' Hd'. destruct (Hpre s' d' HD Hs' Hd') as [l El]. apply (arrived_prefix _ _ _ l). rewrite <- El. by apply arrivals_ok.
    + rewrite <- Ea. by apply arrivals_ok.
    + lia.
    + apply retired_le. intros s' d' Hs' Hd'. by apply Hpre.
    + destruct (ph_retire _ _ _ _ _ _ HP). by split.
    + intros tm' [Q1 Q2]. exists X', (with_flit R s n f).
      assert (∀ s', x_injected (X' s') = x_injected (X s') ∧ x_credited (X' s') = x_credited (X s') ∧ x_ejected (X' s') = x_ejected (X s')) as Hx
        by (intros s'; unfold X'; by destruct (decide (s' = s)) as [->|]).
      assert (tm_net tm' = (tm_net tm)⟦s := nw'⟧ ∧ tm_time tm' = now ∧ tm_counts tm' = tm_counts tm ∧ tm_rng tm' = tm_rng tm) as (E1 & E2 & E3 & E4).
      { destruct tm, tm'. unfold others_of in Q2. simpl in *. simplify_eq. split_and!; done. }
      split; try done.
      * destruct (nets_put _ (finishing_net s (n + 1)) X X' (tm_net tm) s nw' (ph_len _ _ _ _ _ _ HP) (ph_nets _ _ _ _ _ _ HP) Hs) as [N1 N2].
        { exists moves. unfold finishing_net. rewrite decide_False by lia. split; [unfold X'; by rewrite decide_True|]. intros d Hd Hlt. unfold silent_credit.
          rewrite W3; [apply Hsil; [done|lia]|by apply (node_at_range M)|intros [= ->]; lia]. }
        { intros s' H' m nw Hne. unfold finishing_net. case_decide; [done|]. intros [Q3 Q4]. split; [done|]. intros d Hd Hlt. apply Q4; [done|lia]. }
        { intros s' Hne. unfold X'. by rewrite decide_False. }
        rewrite <- E1 in N1, N2. split; try done.
        -- eapply logged_others; [exact Q2|]. by split.
        -- eapply nodes_ext; [|exact Q2|]; [intros s' Hs'; by destruct (Hx s') as (-> & -> & _)|]. destruct (ph_nodes _ _ _ _ _ _ HP). by split.
        -- intros s' d Hs' Hd. pose proof (ph_credits _ _ _ _ _ _ HP s' d Hs' Hd) as Hc. unfold X', with_flit. destruct (decide (s' = s)) as [->|]; [|by rewrite decide_False by naive_solver].
           simpl. unfold fadd. destruct (decide (d = n)) as [->|]; [|by rewrite decide_False by naive_solver]. rewrite decide_True by done. by rewrite Hc, fmap_app.
        -- rewrite E3. apply HP.
        -- rewrite E4. apply HP.
      * intros s' d Hs' Hd. unfold ejected. destruct (Hx s') as (_ & _ & ->). by apply He.
      * intros s' d' Hs' Hd' Hb. by apply with_before.
      * intros s' d' Hs' Hd' Hb. unfold with_flit. rewrite decide_False; [apply Hw; [done|done|]; unfold retired_before in *; lia|]. intros [-> ->]. apply Hb. unfold retired_before. lia.
  - apply returns_ok. exists X, R. split; try done.
    + destruct HP as [P1 P2 P3 P4 P5 P6 P7 P8]. split; try done. intros s' Hs'. destruct (P4 s' Hs') as [m Hm]. exists m. unfold finishing_net in *. case_decide; [done|].
      destruct Hm as [Q3 Q4]. split; [done|]. intros d Hd Hlt. apply Q4; [done|lia].
    + intros s' d' Hs' Hd' Hb. destruct (decide (s' = s ∧ d' = n)) as [[-> ->]|Hne].
      * rewrite ER. unfold arrivals. rewrite Ef. cbn [option_list]. by rewrite app_nil_r.
      * apply Hr; [done|done|]. unfold retired_before in *. lia.
    + intros s' d' Hs' Hd' Hb. apply Hw; [done|done|]. unfold retired_before in *. lia.
Qed.

(** ** The network advances *)

(** What the nodes have done is what the network relies on. *)
Lemma nodes_keep s X R tm n : subnet_at M s → node_at M n → done_upto s nodes X R tm → node_ok S (X s) n.
Proof.
  intros Hs Hn [HP Ht He Hr Hw]. destruct (terminal_node S n _ _ _ (sn_terminal _ _ _ _ (ph_nodes _ _ _ _ _ _ HP) n s Hn Hs)) as [T1 T2].
  assert (x_credits (X s) n = credit_for <$> x_ejected (X s) n ∧ x_ejected (X s) n = arrivals s n) as [Ec Ee].
  { specialize (He s n Hs Hn). unfold ejected in He. rewrite He. rewrite (ph_credits _ _ _ _ _ _ HP s n Hs Hn). split; [|done]. f_equal. apply Hr; [done|done|]. unfold retired_before, node_at in *. lia. }
  pose proof (ar_flits _ _ _ _ (arrivals_ok s n Hs Hn)) as Ha. rewrite <- Ee in Ha. split; try done.
  - apply (te_flits _ _ _ _ _ (sn_terminal _ _ _ _ (ph_nodes _ _ _ _ _ _ HP) n s Hn Hs)).
  - rewrite Ec. apply Forall_fmap. eapply Forall_impl; [exact Ha|]. intros f (Hv & _). simpl. by apply Forall_singleton.
  - intros w Hw'. rewrite Ec. clear. generalize (x_ejected (X s) n). intros l. induction l as [|f l IH]; [done|]. rewrite fmap_cons, ncredits_cons, nflits_cons. cbn [c_vc credit_for cnt]. repeat case_decide; lia.
Qed.

Lemma finish_step s X R tm : subnet_at M s → done_upto s 0 X R tm →
  returns (finish_subnet (ns_IV S) (ns_IS S) (ns_IP S) (ns_rf S) N T fl s tm) (λ tm', ∃ X' R', done_upto (s + 1) 0 X' R' tm').
Proof.
  intros Hs HD. unfold finish_subnet. pose proof (ns_nodes S) as Hnn. rewrite <- (ss_nodes M) in Hnn. rewrite vget_ok by (rewrite Hfll; done). cbn [mbind res_bind].
  eapply returns_bind; [apply (returns_for (λ n tm, ∃ X R, done_upto s n X R tm)); [lia|by exists X, R|]|].
  { intros n tm1 Hn (X1 & R1 & HD1). by apply (retire_step s n X1 R1). }
  intros tm1 (X1 & R1 & HD1). pose proof HD1 as [HP Ht He Hr Hw]. pose proof (ph_len _ _ _ _ _ _ HP) as Hl. rewrite vget_ok by (rewrite Hl; done). cbn [mbind res_bind].
  destruct (ph_nets _ _ _ _ _ _ HP s Hs) as (moves & Hnet). unfold finishing_net in Hnet. rewrite decide_False in Hnet by lia. destruct Hnet as [Hnet _].
  destruct H0 as [_ H00]. assert (0 ≤ now ≤ int_max) as Hnow by lia.
  rewrite Ht. eapply returns_bind; [apply (Evaluate_net S now (X1 s) moves _ (tm_rng tm1) Hnet Hnow), HP|]. intros [nw1 g] (Hg & _ & _ & moves' & Hdone).
  eapply returns_bind; [apply (WriteOutputs_net S now (X1 s) moves' nw1 Hdone); intros n Hn; apply (nodes_keep s X1 R1 tm1); [done|by apply (node_at_range M)|done]|].
  intros nw2 (H2 & Hok & (S1 & S2 & S3 & S4)). rewrite vset_ok by (rewrite Hl; done). cbn [mbind res_bind]. apply returns_ok.
  set (X2 := λ s', if decide (s' = s) then H2 else X1 s'). exists X2, R1.
  assert (∀ s', x_injected (X2 s') = x_injected (X1 s') ∧ x_credited (X2 s') = x_credited (X1 s') ∧ x_ejected (X2 s') = x_ejected (X1 s') ∧ x_credits (X2 s') = x_credits (X1 s')) as Hx
    by (intros s'; unfold X2; by destruct (decide (s' = s)) as [->|]).
  split; try done.
  - destruct (nets_put _ (finishing_net (s + 1) 0) X1 X2 (tm_net tm1) s nw2 Hl (ph_nets _ _ _ _ _ _ HP) Hs) as [N1 N2].
    { exists moves'. unfold finishing_net, X2. rewrite decide_True by lia. by rewrite decide_True. }
    { intros s' H' m nw Hne. unfold finishing_net. destruct (decide (s' < s)), (decide (s' < s + 1)); try done; try lia. intros [Q1 Q2]. split; [done|]. intros d Hd Hlt. apply Q2; [done|lia]. }
    { intros s' Hne. unfold X2. by rewrite decide_False. }
    destruct HP as [P1 P2 P3 P4 P5 P6 P7 P8]. split; try done.
    + destruct P1. by split.
    + assert (nodes_ok M X2 L tm1) as HN by (eapply nodes_ext; [|done|exact P2]; intros s' _; by destruct (Hx s') as (-> & -> & _)). destruct HN. by split.
    + destruct P5. by split.
    + intros s' d Hs' Hd. destruct (Hx s') as (_ & _ & _ & ->). by apply P6.
  - intros s' d Hs' Hd. unfold ejected. destruct (Hx s') as (_ & _ & -> & _). by apply He.
  - intros s' d Hs' Hd Hb. apply Hr; [done|done|]. unfold retired_before, node_at in *. lia.
  - intros s' d Hs' Hd Hb. apply Hw; [done|done|]. unfold retired_before, node_at in *. lia.
Qed.

Lemma finish_phase_ok X tm : sent_upto subnets 0 X tm →
  returns (zfor 0 subnets (finish_subnet (ns_IV S) (ns_IS S) (ns_IP S) (ns_rf S) N T fl) tm) (λ tm', ∃ X' R', done_upto subnets 0 X' R' tm').
Proof.
  intros [HP Ht He]. pose proof (ss_subnets_pos M). apply (returns_for (λ s tm, ∃ X R, done_upto s 0 X R tm)); [lia|..].
  - exists X, (ejected X0). split; try done; try (intros s d Hs Hd Hb; exfalso; unfold retired_before, subnet_at, node_at in *; lia). destruct HP as [P1 P2 P3 P4 P5 P6 P7 P8]. split; try done.
    intros s Hs. destruct (P4 s Hs) as (m & Q1 & Q2 & _). exists m. unfold finishing_net. rewrite decide_False by (unfold subnet_at in Hs; lia). split; [done|]. intros d Hd _. by apply Q2.
  - intros s tm1 Hs (X1 & R1 & HD). by apply (finish_step s X1 R1).
Qed.
End subnet.

Lemma done_sim X R tm : done_upto subnets 0 X R tm → sim_ok X L D (with_time (tm_time tm + 1) tm).
Proof.
  intros [HP Ht He Hr _]. destruct H0 as [_ H00]. split; [|simpl; lia]. destruct HP as [P1 P2 P3 P4 P5 P6 P7 P8].
  assert (∀ s d, subnet_at M s → node_at M d → R s d = ejected X s d) as Er.
  { intros s d Hs Hd. rewrite He by done. apply Hr; [done|done|]. left. apply Hs. }
  split; try done.
  - destruct P1. by split.
  - destruct P2. by split.
  - intros s Hs. destruct (P4 s Hs) as [m Hm]. exists m. unfold finishing_net in Hm. rewrite decide_True in Hm by apply Hs. simpl. by rewrite Ht.
  - assert (retire_ok M L R D (with_time (tm_time tm + 1) tm)) as HR by (destruct P5; by split). eapply retire_ext; [|exact HR]. intros s d Hs Hd. by rewrite Er.
  - intros s d Hs Hd. by rewrite <- Er, P6.
Qed.
End cycle.

(** ** A cycle *)

Lemma watch_sim X L D tm : sim_ok X L D tm → sim_ok X L D (watch_deadlock T tm) ∧ tm_time (watch_deadlock T tm) = tm_time tm.
Proof.
  intros [HP Ht]. unfold watch_deadlock. assert (∀ x, sim_ok X L D (with_deadlock_timer x tm)) as Hs.
  { intros x. split; [|done]. destruct HP as [P1 P2 P3 P4 P5 P6 P7 P8]. split; try done; [destruct P1|destruct P2|destruct P5]; by split. }
  destruct (some_flits _); [|by split]. by destruct (_ <=? _).
Qed.

(** A cycle keeps the invariant. *)
Lemma Step_ok X L D tm : sim_ok X L D tm → tm_time tm + Z.max 0 (ns_latency S) ≤ int_max →
  returns (Step (ns_IV S) (ns_IS S) (ns_IP S) (ns_rf S) N T tm) (λ tm', tm_time tm' = tm_time tm + 1 ∧ ∃ X', sim_ok X' L D tm').
Proof.
  intros H0 Htime. unfold Step. destruct (watch_sim X L D tm H0) as [H1 Et]. rewrite <- Et in Htime. set (tm0 := watch_deadlock T tm) in *.
  eapply returns_bind; [by apply (read_phase_ok X L D tm0)|]. intros [fl tm1] (X1 & HR). pose proof HR as [_ Hl _ _ _ Hf].
  eapply returns_bind; [eapply (send_phase_ok X L D tm0); by eapply read_sent|]. intros tm2 (X2 & HS).
  eapply returns_bind; [eapply (finish_phase_ok X L D tm0 H1 Htime fl); [|done|exact HS]|].
  { intros s d Hs Hd. apply Hf; [done|done|apply Hs]. }
  intros tm3 (X3 & R3 & HD). pose proof (du_time _ _ _ _ _ _ _ _ _ HD) as Et3. pose proof (sm_time _ _ _ _ H1) as H10. apply returns_assert; [rewrite Et3; lia|]. apply returns_ok.
  split; [cbn [tm_time with_time]; lia|]. exists X3. by eapply done_sim.
Qed.
End step.
