(* ===== verification/SimInterface.v ===== *)
(** * The simulator: packets come in and go out

    [GeneratePacket]: a packet is refused when the queue of its node and class is
    full; otherwise it gets the next number and its flits wait in the queue.
    [RetirePacket] and [RetirePackets] hand out the packets that have arrived, each
    once; [CheckInFlightPackets] tells whether there is anything left. *)

From S2P Require Import Prelude StdMap OutputSet Flit VCBuffer BufferState BufferStateInv Credits Link Channel Arbiter Allocator AllocLaws Rng KNCube Route SwitchAlloc IQRouter IQSwitch Wormhole RouterInv RouterQueues RouterStages RouterRoute RouterVCAlloc RouterSwitchAlloc RouterSend RouterSwitch RouterStep RouterRun RouterSpec RouterFlow Network TrafficManager NetChannels NetworkInv NetworkRun NetworkSpec Packets Terminal SimInv SimNodes Retire SimStep.
Import CoreOps Credits Link NetworkOps TMOps.

Section generate.
Context {VA SA PA : Type} `{Inhabited SA} (M : SimSetup VA SA PA) (Hch : 0 ≤ nc_channels (ns_N (ss_S M))).
Local Abbreviation S := (ss_S M).
Local Abbreviation N := (ns_N (ss_S M)).
Local Abbreviation T := (ss_T M).
Local Abbreviation V := (ns_vcs (ss_S M)).
Local Abbreviation nodes := (tc_nodes (ss_T M)).
Local Abbreviation subnets := (tc_subnets (ss_T M)).
Local Abbreviation classes := (tc_classes (ss_T M)).
Local Abbreviation TM := (TM VA SA PA).

Context (X : Z → NetHist) (L : list Packet) (D : list Z) (tm : TM) (H0 : sim_ok M X L D tm).
Context (pk : Packet) (Hsize : 0 < pk_size pk) (Hok : packet_ok M pk) (Hfirst : pk_first pk = flits_in L) (Hmax : zlen L ≤ int_max).
Local Abbreviation n := (pk_src pk).
Local Abbreviation c := (pk_cl pk).
Local Abbreviation pid := (zlen L).
Local Abbreviation L' := (L ++ [pk]).

(** ** The flits *)

(** The ids [lo .. hi - 1] have been added. *)
Definition added (lo hi : Z) (v v' : list iset) : Prop := zlen v' = classes ∧
  ∀ c', class_at M c' → msorted (v'⟦c'⟧) ∧ ∀ k, mfind k (v'⟦c'⟧) = if decide (c' = c ∧ lo ≤ k < hi) then Some tt else mfind k (v⟦c'⟧).

Record generating (i : Z) (tm' : TM) : Prop := {
  gn_tm : ∃ a b q, tm' = with_partial_packets q (with_measured_in_flight_flits b (with_total_in_flight_flits a (with_cur_id (flits_in L + i) (with_cur_pid (pid + 1) tm))));
  gn_queues : grid nodes classes (tm_partial_packets tm');
  gn_queue : ∀ n' c', node_at M n' → class_at M c' → queue_of tm' n' c' = if decide (n' = n ∧ c' = c) then queue_of tm n c ++ packet_flits pid pk i else queue_of tm n' c';
  gn_total : added (flits_in L) (flits_in L + i) (tm_total_in_flight_flits tm) (tm_total_in_flight_flits tm');
  gn_measured : if pk_record pk then added (flits_in L) (flits_in L + i) (tm_measured_in_flight_flits tm) (tm_measured_in_flight_flits tm')
    else tm_measured_in_flight_flits tm' = tm_measured_in_flight_flits tm
}.

Lemma new_priority_ok (tm' : TM) time : new_priority T n c time tm' = Ok 0.
Proof.
  unfold new_priority. pose proof (ss_pri M) as Hp. rewrite !elem_of_cons in Hp. destruct Hp as [->|[->|[->|[->|Hp]]]]; try done. by apply elem_of_nil in Hp.
Qed.

Lemma added_one i v v' : 0 ≤ i → added (flits_in L) (flits_in L + i) v v' → added (flits_in L) (flits_in L + (i + 1)) v (v'⟦c := mset (flits_in L + i) tt (v'⟦c⟧)⟧).
Proof.
  intros Hi [Hl Hv]. destruct Hok as (_ & _ & Hc). unfold added, class_at in *. split; [lens|]. intros c' Hc'. rewrite znth_zupd by lia. destruct (Hv c' Hc') as [Hs Hf]. destruct (decide (c = c')) as [<-|E].
  - split; [by apply msorted_mset|]. intros k. rewrite mfind_mset, Hf by done. repeat case_decide; try done; lia.
  - split; [done|]. intros k. rewrite Hf. repeat case_decide; try done; naive_solver.
Qed.

Lemma generate_flit_ok i tm' : 0 ≤ i < pk_size pk → generating i tm' →
  returns (generate_flit T n (pk_dest pk) (pk_size pk) c (pk_time pk) pid (pk_record pk) i tm') (generating (i + 1)).
Proof.
  intros Hi [(a & b & q & Etm) G2 G3 G4 G5]. destruct Hok as (Hn & Hd & Hc). unfold generate_flit. destruct H0 as [HP _]. pose proof (ph_log _ _ _ _ _ _ _ HP) as [L1 L2 L3 L4 L5].
  assert (tm_cur_id tm' = flits_in L + i) as Ei by (by subst tm'). pose proof (flits_in_nonneg L L1) as Hf0. rewrite Ei. apply returns_assert; [lia|].
  rewrite new_priority_ok. cbn [mbind res_bind]. pose proof G4 as [G41 G42]. unfold class_at in Hc.
  cbn [tm_total_in_flight_flits with_cur_id]. rewrite vget_ok by lia. cbn [mbind res_bind]. rewrite vset_ok by lia. cbn [mbind res_bind].
  set (tm1 := with_total_in_flight_flits _ _).
  eapply (returns_bind _ _ (λ tm2, ∃ b', tm2 = with_measured_in_flight_flits b' tm1 ∧ if pk_record pk then added (flits_in L) (flits_in L + (i + 1)) (tm_measured_in_flight_flits tm) b' else b' = tm_measured_in_flight_flits tm)).
  { destruct (pk_record pk).
    - cbn [tm_measured_in_flight_flits with_total_in_flight_flits with_cur_id tm1]. pose proof G5 as [G51 G52]. rewrite vget_ok by lia. cbn [mbind res_bind]. rewrite vset_ok by lia. cbn [mbind res_bind].
      apply returns_ok. eexists. split; [done|]. apply added_one; [lia|done].
    - apply returns_ok. exists (tm_measured_in_flight_flits tm'). split; [by destruct tm'|done]. }
  intros tm2 (b' & -> & Hb'). cbn [tm_partial_packets with_measured_in_flight_flits with_total_in_flight_flits with_cur_id tm1].
  rewrite (vget2_ok nodes classes) by done. cbn [mbind res_bind]. change (at2 (tm_partial_packets tm') n c) with (queue_of tm' n c). rewrite G3, decide_True by done.
  match goal with |- returns (vset2 _ _ _ (_ ++ [?f]) ≫= _) _ => replace f with (packet_flit pid pk i) by (unfold packet_flit; by rewrite Hfirst) end.
  rewrite <- app_assoc, <- packet_flits_snoc by lia.
  destruct (vset2_ok nodes classes (tm_partial_packets tm') n c (queue_of tm n c ++ packet_flits pid pk (i + 1)) G2 Hn Hc) as (q' & -> & Hg & Hat). cbn [mbind res_bind]. apply returns_ok.
  split; try done.
  - subst tm'. eexists _, b', q'. unfold tm1. replace (flits_in L + (i + 1)) with (flits_in L + i + 1) by lia. done.
  - intros n' c' Hn' Hc'. unfold queue_of at 1. simpl. rewrite Hat by done. destruct (decide (n' = n ∧ c' = c)) as [?|Hne]; [done|].
    change (at2 (tm_partial_packets tm') n' c') with (queue_of tm' n' c'). by rewrite G3, decide_False.
  - simpl. apply added_one; [lia|done].
Qed.

(** ** The packet is in the queue *)

Lemma old_id f : flit_of L f → 0 ≤ f_id f < flits_in L.
Proof. apply flit_id_range. destruct H0 as [HP _]. apply (ph_log _ _ _ _ _ _ _ HP). Qed.

Lemma packet_ids_tally k j : 0 ≤ j → tally (is_id k) (packet_flits pid pk j) = if decide (flits_in L ≤ k < flits_in L + j) then 1 else 0.
Proof.
  intros Hj. pattern j. apply zsumf_ind; [| |done].
  - rewrite decide_False by lia. done.
  - clear j Hj. intros j Hj IH. rewrite packet_flits_snoc, tally_app, IH, tally_single by done. change (is_id k (strip (packet_flit pid pk j))) with (pk_first pk + j =? k).
    rewrite Hfirst. destruct (Z.eqb_spec (flits_in L + j) k); repeat case_decide; lia.
Qed.

Section generated.
Context (tm' : TM) (HG : generating (pk_size pk) tm').

Lemma generated_nodes : nodes_ok M X L' tm'.
Proof.
  destruct H0 as [HP _]. pose proof (ph_nodes _ _ _ _ _ _ _ HP) as [S1 S2 S3 S4 S5 S6 S7 S8 S9 S10 S11]. destruct (gn_tm _ _ HG) as (a & b & q & Etm). destruct Hok as (Hn & Hd & Hc).
  pose proof (gn_queue _ _ HG) as Hq. pose proof (S8 n c Hn Hc) as HQ. destruct (queue_push L n c (queue_of tm n c) pk HQ Hsize eq_refl eq_refl) as [Q1 Q2]. split.
  - by subst tm'. - by subst tm'. - by subst tm'. - by subst tm'. - by subst tm'.
  - apply HG.
  - by subst tm'.
  - intros n' c' Hn' Hc'. rewrite Hq by done. destruct (decide (n' = n ∧ c' = c)) as [[-> ->]|]; [done|]. destruct (S8 n' c' Hn' Hc') as [U1 U2 U3 U4 U5]. split; try done.
    eapply Forall_impl; [exact U2|]. intros f. apply waits_log.
  - intros n' c' Hn' Hc'. assert (front_ok V (buf_of tm n' (subnet_of M c')) (last_vc_of tm n' (subnet_of M c') c') (x_injected (X (subnet_of M c')) n') (queue_of tm' n' c')) as Hf; [|by subst tm'].
    rewrite Hq by done. destruct (decide (n' = n ∧ c' = c)) as [[-> ->]|]; [|by apply S9]. intros f Hf Hh. destruct (queue_of tm n c) as [|g r] eqn:E; [|apply S9; [done|done|by rewrite E|done]].
    specialize (Q2 eq_refl). simpl in Hf. destruct (packet_flits pid pk (pk_size pk)) as [|g r]; [done|]. injection Hf as ->. simpl in Q2. by rewrite Hh in Q2.
  - intros n' s Hn' Hs. eapply Forall_impl; [by apply S10|]. intros f. apply flit_of_app.
  - intros k. rewrite flits_in_snoc. intros Hk. unfold queued_ids.
    rewrite (zsum2_change nodes classes (λ n' c', tally (is_id k) (queue_of tm n' c')) (λ n' c', tally (is_id k) (queue_of tm' n' c')) n c Hn Hc).
    + rewrite Hq, decide_True, tally_app, packet_ids_tally by (done || lia). case_decide as Hk'.
      * assert (zsum2 nodes classes (λ n' c', tally (is_id k) (queue_of tm n' c')) + injected_ids M X k = 0) as E0; [|lia].
        assert (∀ l, Forall (flit_of L) l → tally (is_id k) l = 0) as Hz.
        { intros l Hl. destruct (decide (0 < tally (is_id k) l)) as [Hp|Hp]; [|pose proof (tally_nonneg (is_id k) l); lia].
          apply tally_pos_inv in Hp as (f & Hf & Ef). apply Z.eqb_eq in Ef. simpl in Ef. rewrite Forall_forall in Hl. pose proof (old_id f (Hl f Hf)). lia. }
        assert (∀ a b : Z, zsum2 a b (λ _ _, 0) = 0) as Hz0 by (intros a' b'; unfold zsum2; rewrite (zsumf_ext _ (λ _, 0)); [apply zsumf_const_0|]; intros; apply zsumf_const_0).
        unfold injected_ids. rewrite (zsum2_ext _ _ (λ _ _, 0) (λ s n, tally (is_id k) (x_injected (X s) n))), (zsum2_ext _ _ (λ _ _, 0)), !Hz0; [done|..].
        -- intros n' c' Hn' Hc'. apply Hz. eapply Forall_impl; [apply (S8 n' c' Hn' Hc')|]. intros f. apply wt_flit.
        -- intros s n' Hs Hn'. apply Hz. by apply S10.
      * rewrite <- (S11 k ltac:(lia)). unfold queued_ids. lia.
    + intros n' c' Hn' Hc' Hne. by rewrite Hq, decide_False.
Qed.

Lemma ejected_old s d : subnet_at M s → node_at M d → Forall (flit_of L) (ejected X s d).
Proof.
  intros Hs Hd. pose proof (ar_flits _ _ _ _ (arrivals_ok M Hch X L D tm H0 s d Hs Hd)) as [Ha _]%Forall_app. eapply Forall_impl; [exact Ha|]. naive_solver.
Qed.

Lemma new_not_retired k : flits_in L ≤ k → retired_ids M (ejected X) k = 0.
Proof.
  intros Hk. unfold retired_ids. rewrite (zsum2_ext _ _ (λ _ _, 0)); [unfold zsum2; rewrite (zsumf_ext _ (λ _, 0)); [apply zsumf_const_0|]; intros; apply zsumf_const_0|].
  intros s d Hs Hd. destruct (decide (0 < tally (is_id k) (ejected X s d))) as [Hp|Hp]; [|pose proof (tally_nonneg (is_id k) (ejected X s d)); lia].
  apply tally_pos_inv in Hp as (f & Hf & Ef). apply Z.eqb_eq in Ef. simpl in Ef. pose proof (ejected_old s d Hs Hd) as Hl. rewrite Forall_forall in Hl. pose proof (old_id f (Hl f Hf)). lia.
Qed.

Lemma flying_new (sel : Packet → Prop) c' k : flying M L' (ejected X) sel c' k ↔
  flying M L (ejected X) sel c' k ∨ c' = c ∧ flits_in L ≤ k < flits_in L + pk_size pk ∧ sel pk.
Proof.
  unfold flying. split.
  - intros [Hr (p & qk & Hp & Hk & Hcl & Hse)]. apply packet_at_snoc in Hp as [Hp|[-> ->]]; [left; split; [done|by exists p, qk]|right]. rewrite Hfirst in Hk. done.
  - intros [[Hr (p & qk & Hp & Hk)]|(-> & Hk & Hse)].
    + split; [done|]. exists p, qk. split; [by apply packet_at_app|done].
    + split; [apply new_not_retired; lia|]. exists pid, pk. rewrite Hfirst. split_and!; try done; try lia. apply packet_at_last.
Qed.

Lemma added_flight (sel : Packet → Prop) v v' : sel pk → added (flits_in L) (flits_in L + pk_size pk) v v' → in_flight M L (ejected X) sel v → in_flight M L' (ejected X) sel v'.
Proof.
  intros Hse [A1 A2] [V1 V2]. split; [done|]. intros c' Hc'. destruct (A2 c' Hc') as [A3 A4]. destruct (V2 c' Hc') as [V3 V4]. split; [done|].
  intros k. rewrite A4, flying_new, <- V4. destruct (decide (c' = c ∧ flits_in L ≤ k < flits_in L + pk_size pk)) as [[-> Hk]|Hd]; [split; [intros _; by right|done]|]. split; [by left|]. intros [?|(? & ? & ?)]; [done|]. by destruct Hd.
Qed.

Lemma same_flight (sel : Packet → Prop) v : ¬ sel pk → in_flight M L (ejected X) sel v → in_flight M L' (ejected X) sel v.
Proof.
  intros Hse [V1 V2]. split; [done|]. intros c' Hc'. destruct (V2 c' Hc') as [V3 V4]. split; [done|]. intros k. rewrite flying_new, <- V4. split; [by left|]. by intros [?|(_ & _ & ?)].
Qed.

Lemma old_packet p qk : packet_at L p qk → 0 ≤ p < pid.
Proof. intros [Hp Hl]. apply lookup_lt_Some in Hl. unfold zlen. lia. Qed.

(** The new packet has not been delivered. *)
Lemma new_not_delivered : delivered M D (tm_ejection_queue tm) pid = 0.
Proof.
  destruct H0 as [HP _]. pose proof (ph_retire _ _ _ _ _ _ _ HP) as [R1 R2 R3 R4 R5 R6 R7 R8]. assert (∀ l : list Z, Forall (λ p, 0 ≤ p < pid) l → cnt pid l = 0) as Hz.
  { intros l Hl. induction Hl as [|x l Hx _ IH]; [done|]. simpl. rewrite decide_False by lia. lia. }
  unfold delivered. rewrite (zsum2_ext _ _ (λ _ _, 0)).
  - unfold zsum2. rewrite (zsumf_ext _ (λ _, 0)), zsumf_const_0 by (intros; apply zsumf_const_0). rewrite Hz; [done|]. eapply Forall_impl; [exact R8|]. intros p [qk Hp]. by eapply old_packet.
  - intros c' d Hc' Hd. apply Hz, Forall_fmap. eapply Forall_impl; [by apply R6|]. intros x (s & w & l1 & fs & l2 & qk & HC). simpl. eapply old_packet, (cm_packet _ _ _ _ _ _ _ _ _ _ _ _ _ HC).
Qed.

Lemma generated_retire : retire_ok M L' (ejected X) D tm'.
Proof.
  destruct H0 as [HP _]. pose proof (ph_retire _ _ _ _ _ _ _ HP) as [R1 R2 R3 R4 R5 R6 R7 R8]. destruct (gn_tm _ _ HG) as (a & b & q & Etm). pose proof (gn_measured _ _ HG) as Hm. split.
  - by apply (added_flight _ _ _ I (gn_total _ _ HG)).
  - destruct (pk_record pk) eqn:E; [by apply (added_flight _ _ _ E Hm)|]. rewrite Hm. apply same_flight; [congruence|done].
  - assert (heads_ok M L' (ejected X) (tm_retired_packets tm)) as Hh; [|by subst tm']. destruct R3 as [V1 V2 V3 V4]. split; try done.
    intros s d w p Hs Hd Ho. destruct (V4 s d w p Hs Hd Ho) as (qk & Hq & Hx). exists qk. split; [by apply packet_at_app|done].
  - by subst tm'.
  - by subst tm'.
  - intros c' d Hc' Hd. assert (Forall (arrived_packet M L' (ejected X) c' d) (at2 (tm_ejection_queue tm) c' d)) as Hf; [|by subst tm']. eapply Forall_impl; [by apply R6|].
    intros x (s & w & l1 & fs & l2 & qk & [C1 C2 C3 C4 C5 C6 C7 C8 C9]). exists s, w, l1, fs, l2, qk. split; try done; [by apply packet_at_app|]. eapply Forall_impl; [exact C6|].
    intros f [? ?]. split; [by apply flit_of_app|done].
  - intros p qk Hp. assert (delivered M D (tm_ejection_queue tm) p = retired_ids M (ejected X) (pk_first qk + pk_size qk - 1)) as E; [|by subst tm'].
    apply packet_at_snoc in Hp as [Hp|[-> ->]]; [by apply R7|]. rewrite new_not_delivered, new_not_retired; [done|lia].
  - eapply Forall_impl; [exact R8|]. intros p [qk Hq]. exists qk. by apply packet_at_app.
Qed.

Lemma generated_sim : sim_ok M X L' D tm'.
Proof.
  pose proof generated_nodes as HN. pose proof generated_retire as HR. destruct H0 as [HP Ht]. destruct (gn_tm _ _ HG) as (a & b & q & Etm). split; [|by subst tm'].
  destruct HP as [[L1 L2 L3 L4 L5] P2 P3 P4 P5 P6 P7 P8]. split; try (by subst tm').
  split; [by apply log_snoc|..].
  - subst tm'. simpl. unfold zlen. rewrite length_app. simpl. lia.
  - subst tm'. simpl. by rewrite flits_in_snoc.
  - unfold zlen in *. rewrite length_app. simpl. lia.
  - apply Forall_app_2; [done|by apply Forall_singleton].
Qed.
End generated.
End generate.

(** ** [GeneratePacket] *)

Section interface.
Context {VA SA PA : Type} `{Inhabited SA} (M : SimSetup VA SA PA) (Hch : 0 ≤ nc_channels (ns_N (ss_S M))).
Local Abbreviation T := (ss_T M).
Local Abbreviation TM := (TM VA SA PA).
Implicit Types (tm : TM) (X : Z → NetHist) (L : list Packet) (D : list Z).

(** Whether a packet is measured. *)
Lemma record_ok tm cl time : class_at M cl →
  returns (match tm_sim_state tm with
      | running => m ← vget (tc_measure_stats T) cl; Ok (negb (m =? 0))
      | draining => if time <? tm_drain_time tm then m ← vget (tc_measure_stats T) cl; Ok (negb (m =? 0)) else Ok false
      | _ => Ok false
      end) (λ _, True).
Proof.
  intros Hc. unfold class_at in Hc. pose proof (ss_measure_len M) as Hm. destruct (tm_sim_state tm); try (by apply returns_ok).
  - rewrite vget_ok by lia. by apply returns_ok.
  - destruct (_ <? _); [|by apply returns_ok]. rewrite vget_ok by lia. by apply returns_ok.
Qed.

Lemma GeneratePacket_ok X L D tm source dest size cl time :
  sim_ok M X L D tm → node_at M source → node_at M dest → class_at M cl → 0 < size → zlen L ≤ int_max →
  returns (GeneratePacket T source dest size cl time tm) (λ '(pid, tm'),
    if tc_inj_size T <=? zlen (queue_of tm source cl) then pid = -1 ∧ tm' = tm
    else pid = zlen L ∧ tm_time tm' = tm_time tm ∧ tm_ejection_queue tm' = tm_ejection_queue tm ∧
      ∃ record, let pk := mkPacket source dest size cl (tm_time tm - time) record (flits_in L) in
        sim_ok M X (L ++ [pk]) D tm' ∧ queue_of tm' source cl = queue_of tm source cl ++ packet_flits (zlen L) pk size).
Proof.
  intros H0 Hs Hd Hc Hsz Hmax. pose proof H0 as [HP Ht]. pose proof (ph_nodes _ _ _ _ _ _ _ HP) as HN. pose proof (ph_log _ _ _ _ _ _ _ HP) as [L1 L2 L3 L4 L5].
  unfold GeneratePacket, GeneratePacket_at, GetVirtualNode. rewrite (vget2_ok (tc_nodes T) (tc_classes T)) by (done || apply HN). cbn [mbind res_bind].
  change (at2 (tm_partial_packets tm) source cl) with (queue_of tm source cl). destruct (_ <=? _); [by apply returns_ok|].
  unfold node_at in Hd. rewrite (proj2 (Z.eqb_neq _ _)) by lia. rewrite L2. apply returns_assert; [pose proof (zlen_nonneg L); lia|].
  eapply returns_bind; [by apply (record_ok (with_cur_pid (zlen L + 1) tm))|]. intros record _.
  set (pk := mkPacket source dest size cl (tm_time tm - time) record (flits_in L)).
  eapply returns_bind; [apply (returns_for (generating M L tm pk)); [lia|..]|].
  - split.
    + exists (tm_total_in_flight_flits tm), (tm_measured_in_flight_flits tm), (tm_partial_packets tm). rewrite Z.add_0_r, <- L3. by destruct tm.
    + apply HN.
    + intros n' c' Hn' Hc'. unfold packet_flits. simpl. rewrite app_nil_r. case_decide as E; [destruct E as [-> ->]|]; done.
    + destruct (rt_total _ _ _ _ _ (ph_retire _ _ _ _ _ _ _ HP)) as [V1 V2]. split; [done|]. intros c' Hc'. split; [by apply V2|]. intros k. rewrite decide_False; [done|lia].
    + simpl. destruct record; [|done]. destruct (rt_measured _ _ _ _ _ (ph_retire _ _ _ _ _ _ _ HP)) as [V1 V2]. split; [done|]. intros c' Hc'. split; [by apply V2|]. intros k.
      rewrite decide_False; [done|lia].
  - intros i tm' Hi HG. apply (generate_flit_ok M X L D tm H0 pk); done.
  - intros tm' HG. apply returns_ok. split; [done|]. destruct (gn_tm _ _ _ _ _ _ HG) as (a & b & q & E). split_and!; [by rewrite E|by rewrite E|]. exists record.
    split; [by apply (generated_sim M Hch X L D tm H0 pk)|]. pose proof (gn_queue _ _ _ _ _ _ HG source cl Hs Hc) as Hq. rewrite decide_True in Hq by done. exact Hq.
Qed.
End interface.


Section retire.
Context {VA SA PA : Type} `{Inhabited SA} (M : SimSetup VA SA PA).
Local Abbreviation T := (ss_T M).
Local Abbreviation nodes := (tc_nodes (ss_T M)).
Local Abbreviation classes := (tc_classes (ss_T M)).
Local Abbreviation TM := (TM VA SA PA).
Implicit Types (tm : TM) (X : Z → NetHist) (L : list Packet) (D : list Z) (R : Z → Z → list Flit).

Lemma sizes_nonneg : 0 ≤ nodes ∧ 0 ≤ classes.
Proof. pose proof (ss_nodes M). pose proof (ns_nodes (ss_S M)). pose proof (ss_classes_pos M). lia. Qed.

(** ** One packet *)

(** Nothing has arrived. *)
Definition none_ejected tm : Prop := ∀ c d, class_at M c → node_at M d → at2 (tm_ejection_queue tm) c d = [].

(** The first entry of the first queue that has one is taken. *)
Lemma first_ejected_ok tm : grid classes nodes (tm_ejection_queue tm) →
  returns (first_ejected T tm) (λ '(x, tm'), match x with
    | None => tm' = tm ∧ none_ejected tm
    | Some (hd', tl) => ∃ c d hd q v, class_at M c ∧ node_at M d ∧ at2 (tm_ejection_queue tm) c d = (hd, tl) :: q ∧
        hd' = set_dest (f_dest hd) (set_src (f_src hd) hd) ∧ vset2 (tm_ejection_queue tm) c d q = Ok v ∧ tm' = with_ejection_queue v tm
    end).
Proof.
  intros Hg. destruct sizes_nonneg as [Hn Hc]. unfold first_ejected.
  set (B := λ (s : option (Flit * Flit) * TM), ∃ hd' tl c d hd q v, s = (Some (hd', tl), with_ejection_queue v tm) ∧ class_at M c ∧ node_at M d ∧
    at2 (tm_ejection_queue tm) c d = (hd, tl) :: q ∧ hd' = set_dest (f_dest hd) (set_src (f_src hd) hd) ∧ vset2 (tm_ejection_queue tm) c d q = Ok v).
  eapply returns_bind.
  - apply (returns_forb (λ c s, s = (None, tm) ∧ ∀ c' d, 0 ≤ c' < c → node_at M d → at2 (tm_ejection_queue tm) c' d = []) B); [done|split; [done|lia]|].
    intros c s Hcc [-> Hbefore]. eapply returns_bind.
    + apply (returns_forb (λ d s, s = (None, tm) ∧ ∀ d', 0 ≤ d' < d → at2 (tm_ejection_queue tm) c d' = []) B); [done|split; [done|lia]|].
      intros d s Hd [-> Hb]. rewrite (vget2_ok classes nodes) by done. cbn [mbind res_bind]. destruct (at2 (tm_ejection_queue tm) c d) as [|[hd tl] q] eqn:E.
      * apply returns_ok. split; [done|]. intros d' Hd'. destruct (decide (d' = d)) as [->|]; [done|apply Hb; lia].
      * destruct (vset2_ok classes nodes (tm_ejection_queue tm) c d q Hg Hcc Hd) as (v & Hv & _). rewrite Hv. cbn [mbind res_bind]. apply returns_ok.
        eexists _, tl, c, d, hd, q, v. done.
    + intros [s|s] Hs; apply returns_ok; [|done]. destruct Hs as [-> Hb]. split; [done|]. intros c' d Hc' Hd. destruct (decide (c' = c)) as [->|]; [by apply Hb|apply Hbefore; [lia|done]].
  - intros [s|s] Hs; apply returns_ok; simpl.
    + destruct Hs as [-> Hb]. split; [done|]. intros c d Hcc Hd. by apply Hb.
    + destruct Hs as (hd' & tl & c & d & hd & q & v & -> & B1 & B2 & B3 & B4 & B5). exists c, d, hd, q, v. split_and!; done.
Qed.

Lemma delivered_pop D ejq c d hd tl q v p : grid classes nodes ejq → class_at M c → node_at M d → at2 ejq c d = (hd, tl) :: q →
  vset2 ejq c d q = Ok v → delivered M (D ++ [f_pid hd]) v p = delivered M D ejq p.
Proof.
  intros Hg Hc Hd Hq Hv. destruct (vset2_ok classes nodes ejq c d q Hg Hc Hd) as (v' & Hv' & Hg' & Hat). rewrite Hv in Hv'. injection Hv' as <-.
  unfold delivered. rewrite cnt_app, (zsum2_change classes nodes (λ c d, cnt p ((λ x, f_pid x.1) <$> at2 ejq c d)) (λ c d, cnt p ((λ x, f_pid x.1) <$> at2 v c d)) c d Hc Hd).
  - cbn beta. rewrite Hat, decide_True, Hq by done. rewrite fmap_cons. cbn [cnt fst]. lia.
  - intros c' d' Hc' Hd' Hne. by rewrite Hat, decide_False.
Qed.

(** The packet handed out is as it was generated. *)
Definition describes L (x : RetiredPacket) : Prop := ∃ pk, packet_at L (rp_pid x) pk ∧
  rp_src x = pk_src pk ∧ rp_dest x = pk_dest pk ∧ rp_cl x = pk_cl pk ∧ rp_psize x = pk_size pk.

Lemma arrived_describes L R c d hd tl : arrived_packet M L R c d (hd, tl) →
  describes L (retired_packet (set_dest (f_dest hd) (set_src (f_src hd) hd), tl)).
Proof.
  intros (s & w & l1 & fs & l2 & pk & [C1 C2 C3 C4 C5 C6 C7 (h & Hh & t & Ehd) C9]). simpl in *. exists pk. split; [done|].
  destruct fs as [|h' fs]; [done|]. injection Hh as ->. apply Forall_cons in C6 as [[(qk & i & [_ Hq] & Hf) Hp] _]. rewrite Hp in Hq. destruct C2 as [_ C2]. rewrite C2 in Hq. injection Hq as <-.
  destruct Hf as [I1 I2 I3 I4 I5 I6 I7 I8 I9 I10]. rewrite Ehd. simpl. split_and!; congruence.
Qed.

Lemma RetirePacket_ok L R D tm : retire_ok M L R D tm →
  returns (RetirePacket T tm) (λ '(hd, tl, tm'), others_of tm' = others_of tm ∧
    if f_pid hd =? -1 then tm' = tm ∧ none_ejected tm
    else describes L (retired_packet (hd, tl)) ∧ 0 ≤ f_pid hd ∧ retire_ok M L R (D ++ [f_pid hd]) tm' ∧
      ∃ c d x q, class_at M c ∧ node_at M d ∧ at2 (tm_ejection_queue tm) c d = x :: q ∧ vset2 (tm_ejection_queue tm) c d q = Ok (tm_ejection_queue tm')).
Proof.
  intros [R1 R2 R3 R4 R5 R6 R7 R8]. unfold RetirePacket. eapply returns_bind; [by apply first_ejected_ok|]. intros [[[hd' tl]|] tm'] Hx; apply returns_ok; [|by destruct Hx as [-> ?]].
  destruct Hx as (c & d & hd & q & v & Hc & Hd & Hq & Ehd & Hv & ->). split; [done|]. assert (f_pid hd' = f_pid hd) as Ep by (by rewrite Ehd).
  pose proof (R6 c d Hc Hd) as Hx. rewrite Hq in Hx. apply Forall_cons in Hx as [Hx Hxs]. pose proof (arrived_describes _ _ _ _ _ _ Hx) as Hde. rewrite <- Ehd in Hde.
  pose proof Hde as (pk & Hp & _). change (rp_pid (retired_packet (hd', tl))) with (f_pid hd') in Hp. pose proof Hp as [Hp0 _]. rewrite (proj2 (Z.eqb_neq _ _)) by lia. split_and!; try done.
  - split; try done.
    + destruct (vset2_ok classes nodes _ c d q R5 Hc Hd) as (v' & Hv' & Hg' & _). rewrite Hv in Hv'. by injection Hv' as <-.
    + intros c' d' Hc' Hd'. destruct (vset2_ok classes nodes _ c d q R5 Hc Hd) as (v' & Hv' & _ & Hat). rewrite Hv in Hv'. injection Hv' as <-. simpl. rewrite Hat by done.
      case_decide as E; [destruct E as [-> ->]; done|by apply R6].
    + intros p qk Hqk. simpl. rewrite Ep, (delivered_pop D _ c d hd tl q v p R5 Hc Hd Hq Hv). by apply R7.
    + apply Forall_app_2; [done|]. apply Forall_singleton. by exists pk.
  - exists c, d, (hd, tl), q. done.
Qed.

(** ** All packets *)

Definition waiting (ejq : list (list (list (Flit * Flit)))) : Z := zsum2 classes nodes (λ c d, zlen (at2 ejq c d)).

Lemma zlen_concat {A : Type} (l : list (list A)) : zlen (concat l) = zsum (zlen <$> l).
Proof. induction l as [|x l IH]; [done|]. rewrite fmap_cons. cbn [concat]. change (zsum (?a :: ?b)) with (a + zsum b). rewrite <- IH. unfold zlen. rewrite length_app. lia. Qed.

Lemma concat_mjoin {A : Type} (l : list (list A)) : concat l = mjoin l.
Proof. induction l as [|x l IH]; [done|]. simpl. by rewrite IH. Qed.

Lemma ejected_waiting tm : grid classes nodes (tm_ejection_queue tm) → Z.of_nat (ejected_packets tm) = waiting (tm_ejection_queue tm).
Proof.
  intros [G1 G2]. unfold ejected_packets, waiting. change (Z.of_nat (length ?l)) with (zlen l). rewrite zlen_concat, concat_mjoin, <- (zsumf_rows zlen), G1.
  apply zsumf_ext. intros c Hc. by rewrite (G2 c Hc).
Qed.

Lemma waiting_pop ejq c d x q v : grid classes nodes ejq → class_at M c → node_at M d → at2 ejq c d = x :: q → vset2 ejq c d q = Ok v → waiting v = waiting ejq - 1.
Proof.
  intros Hg Hc Hd Hq Hv. destruct (vset2_ok classes nodes ejq c d q Hg Hc Hd) as (v' & Hv' & Hg' & Hat). rewrite Hv in Hv'. injection Hv' as <-.
  unfold waiting. rewrite (zsum2_change classes nodes (λ c d, zlen (at2 ejq c d)) (λ c d, zlen (at2 v c d)) c d Hc Hd).
  - cbn beta. rewrite Hat, decide_True, Hq by done. unfold zlen. simpl. lia.
  - intros c' d' Hc' Hd' Hne. by rewrite Hat, decide_False.
Qed.

Lemma retire_packets_ok L R fuel : ∀ D tm, retire_ok M L R D tm → waiting (tm_ejection_queue tm) < Z.of_nat fuel →
  returns (retire_packets T fuel tm) (λ '(ps, tm'), Forall (describes L) ps ∧ retire_ok M L R (D ++ (rp_pid <$> ps)) tm' ∧ none_ejected tm' ∧ others_of tm' = others_of tm).
Proof.
  destruct sizes_nonneg as [Hn Hc].
  induction fuel as [|fuel IH]; intros D tm HR Hf; [exfalso; pose proof (zsum2_nonneg classes nodes (λ c d, zlen (at2 (tm_ejection_queue tm) c d)) Hc Hn ltac:(intros; apply zlen_nonneg)) as Hw; unfold waiting in Hf; lia|].
  simpl. eapply returns_bind; [by apply (RetirePacket_ok L R D)|]. intros [[hd tl] tm'] [Ho Hx]. destruct (f_pid hd =? -1) eqn:E.
  - destruct Hx as [-> Hx]. apply returns_ok. rewrite fmap_nil, app_nil_r. done.
  - destruct Hx as (Hde & Hp & HR' & c & d & x & q & Hcc & Hd & Hq & Hv). pose proof (waiting_pop _ _ _ _ _ _ (rt_queues _ _ _ _ _ HR) Hcc Hd Hq Hv) as Hw.
    eapply returns_bind; [apply (IH (D ++ [f_pid hd]) tm' HR'); lia|]. intros [ps tm2] (P1 & P2 & P3 & P4). apply returns_ok. rewrite (proj2 (Z.ltb_lt _ _)) by lia. split_and!.
    + by constructor.
    + rewrite <- app_assoc in P2. exact P2.
    + done.
    + congruence.
Qed.

Lemma RetirePackets_ok L R D tm : retire_ok M L R D tm →
  returns (RetirePackets T tm) (λ '(ps, tm'), Forall (describes L) ps ∧ retire_ok M L R (D ++ (rp_pid <$> ps)) tm' ∧ none_ejected tm' ∧ others_of tm' = others_of tm).
Proof. intros HR. apply retire_packets_ok; [done|]. rewrite <- ejected_waiting by apply HR. lia. Qed.

(** ** Whether anything is left *)

Definition quiet tm : Prop := (∀ c, class_at M c → (tm_total_in_flight_flits tm)⟦c⟧ = []) ∧ none_ejected tm.

Lemma CheckInFlightPackets_ok tm : zlen (tm_total_in_flight_flits tm) = classes → grid classes nodes (tm_ejection_queue tm) →
  returns (CheckInFlightPackets T tm) (λ b, b = false ↔ quiet tm).
Proof.
  intros Hl Hg. destruct sizes_nonneg as [Hn Hc]. unfold CheckInFlightPackets.
  set (left := λ c, (tm_total_in_flight_flits tm)⟦c⟧ ≠ [] ∨ ∃ d, node_at M d ∧ at2 (tm_ejection_queue tm) c d ≠ []).
  set (clear := λ c, (tm_total_in_flight_flits tm)⟦c⟧ = [] ∧ ∀ d, node_at M d → at2 (tm_ejection_queue tm) c d = []).
  eapply returns_bind.
  - apply (returns_forb (λ c (b : bool), if b then ∃ c', class_at M c' ∧ left c' else ∀ c', 0 ≤ c' < c → clear c') (λ b, b = true ∧ ∃ c', class_at M c' ∧ left c')); [done|intros; lia|].
    intros c b Hcc Hb. rewrite vget_ok by lia. cbn [mbind res_bind]. destruct b; [cbn [orb]; by apply returns_ok|]. cbn [orb].
    destruct ((tm_total_in_flight_flits tm)⟦c⟧) as [|x m] eqn:E; [|apply returns_ok; split; [done|]; exists c; split; [done|]; left; by rewrite E].
    eapply returns_bind.
    + apply (returns_forb (λ d (b : bool), b = false ∧ ∀ d', 0 ≤ d' < d → at2 (tm_ejection_queue tm) c d' = []) (λ b, b = true ∧ left c)); [done|split; [done|lia]|].
      intros d b Hd [-> Hd']. rewrite (vget2_ok classes nodes) by done. cbn [mbind res_bind]. apply returns_ok. destruct (at2 (tm_ejection_queue tm) c d) eqn:Eq.
      * split; [done|]. intros d' Hdd. destruct (decide (d' = d)) as [->|]; [done|apply Hd'; lia].
      * split; [done|]. right. exists d. split; [done|]. by rewrite Eq.
    + intros [b|b] Hb'; apply returns_ok; simpl.
      * destruct Hb' as [-> Hd]. intros c' Hc'. destruct (decide (c' = c)) as [->|]; [by split|apply Hb; lia].
      * destruct Hb' as [-> Hleft]. by exists c.
  - assert (∀ c', class_at M c' → left c' → ¬ quiet tm) as Hno.
    { intros c' Hc' [Hx|(d & Hd & Hx)] [Q1 Q2]; [by apply Hx, Q1|by apply Hx, Q2]. }
    intros [b|b] Hb; apply returns_ok; simpl.
    + destruct b; [destruct Hb as (c' & Hc' & Hx); split; [done|]; intros Hq; by destruct (Hno c' Hc' Hx)|]. split; [intros _|done]. split; [intros c' Hc'; by apply Hb|]. intros c' d Hc' Hd. by apply Hb.
    + destruct Hb as (-> & c' & Hc' & Hx). split; [done|]. intros Hq. by destruct (Hno c' Hc' Hx).
Qed.
End retire.
