(* ===== verification/SimSpec.v ===== *)
(** * The simulator as a packet service

    What a program that drives the simulator sees: packets are numbered in the
    order in which they are accepted, every packet handed out is one that was
    accepted, as it was described, and no packet is handed out twice; when nothing
    is in flight every packet has been handed out.  [serve] runs a call on the model
    of the traffic manager; [serves] is the service. *)

From S2P Require Import Prelude StdMap OutputSet Flit VCBuffer BufferState BufferStateInv Credits Link Channel Arbiter Allocator AllocLaws Rng KNCube Route SwitchAlloc IQRouter IQSwitch Wormhole RouterInv RouterQueues RouterStages RouterRoute RouterVCAlloc RouterSwitchAlloc RouterSend RouterSwitch RouterStep RouterRun RouterSpec RouterFlow Network TrafficManager NetChannels NetworkInv NetworkRun NetworkSpec Packets Terminal SimInv SimNodes Retire SimStep SimInterface.
Import CoreOps Credits Link NetworkOps TMOps.

(** ** Nothing is left *)

(** Every flit number belongs to a packet. *)
Lemma packet_of_id L k : log_ok L → 0 ≤ k < flits_in L → ∃ p pk, packet_at L p pk ∧ pk_first pk ≤ k < pk_first pk + pk_size pk.
Proof.
  intros HL Hk. assert (∀ j, (j ≤ length L)%nat → k < flits_in (take j L) → ∃ p pk, packet_at L p pk ∧ pk_first pk ≤ k < pk_first pk + pk_size pk) as Hj; [|apply (Hj (length L)); [done|rewrite take_ge by done; lia]].
  induction j as [|j IH]; intros Hj Hlt; [change (flits_in (take 0 L)) with 0 in Hlt; lia|]. destruct (decide (k < flits_in (take j L))) as [Hl|Hl]; [apply IH; [lia|done]|].
  destruct (lookup_lt_is_Some_2 L j ltac:(lia)) as [pk Hp]. rewrite (flits_in_take L _ _ Hp) in Hlt. exists (Z.of_nat j), pk. split; [split; [lia|by rewrite Nat2Z.id]|]. rewrite (lg_first _ HL _ _ Hp). lia.
Qed.

Lemma zsumf_zero (f : Z → Z) n i : 0 ≤ i < n → (∀ j, 0 ≤ j < n → 0 ≤ f j) → zsumf f n = 0 → f i = 0.
Proof. intros Hi Hf Hs. pose proof (zsumf_ge f n i Hi Hf). specialize (Hf i Hi). lia. Qed.

Lemma cnt_pos v l : 0 < cnt v l ↔ v ∈ l.
Proof.
  induction l as [|x l IH]; simpl; [split; [lia|by intros ?%elem_of_nil]|]. rewrite elem_of_cons, <- IH. pose proof (cnt_nonneg v l). case_decide as E; split.
  - by left.
  - lia.
  - intros. right. lia.
  - intros [->|?]; [done|lia].
Qed.

Lemma NoDup_cnt l : (∀ v, cnt v l ≤ 1) → NoDup l.
Proof.
  induction l as [|x l IH]; intros Hc; [constructor|]. constructor.
  - specialize (Hc x). simpl in Hc. rewrite decide_True in Hc by done. rewrite <- cnt_pos. lia.
  - apply IH. intros v. specialize (Hc v). simpl in Hc. case_decide; lia.
Qed.

Section drained.
Context {VA SA PA : Type} `{Inhabited SA} (M : SimSetup VA SA PA) (Hch : 0 ≤ nc_channels (ns_N (ss_S M))).
Local Abbreviation S := (ss_S M).
Local Abbreviation N := (ns_N (ss_S M)).
Local Abbreviation T := (ss_T M).
Local Abbreviation nodes := (tc_nodes (ss_T M)).
Local Abbreviation subnets := (tc_subnets (ss_T M)).
Local Abbreviation classes := (tc_classes (ss_T M)).
Local Abbreviation TM := (TM VA SA PA).
Context (X : Z → NetHist) (L : list Packet) (D : list Z) (tm : TM) (H0 : sim_ok M X L D tm).

Lemma retired_once k : retired_ids M (ejected X) k ≤ 1.
Proof. apply (retired_le M Hch X L D tm H0). intros s d Hs Hd. unfold arrivals. by eexists. Qed.

(** A packet whose last flit has arrived has arrived completely. *)
Lemma tail_complete s d f pk : subnet_at M s → node_at M d → f ∈ ejected X s d → f_tail f = true → packet_at L (f_pid f) pk →
  ∀ k, pk_first pk ≤ k < pk_first pk + pk_size pk → retired_ids M (ejected X) k = 1.
Proof.
  intros Hs Hd Hf Ht Hp k Hk. pose proof (retired_once k) as H1. enough (0 < retired_ids M (ejected X) k) by lia.
  destruct (arrived_prefix M _ _ _ _ (arrivals_ok M Hch X L D tm H0 s d Hs Hd)) as [A1 A2 A3]. rewrite Forall_forall in A1.
  assert (∀ g, flit_of L g → f_pid g = f_pid f → ∃ i, is_flit pk i g) as Hfl.
  { intros g (qk & i & [_ Hq] & Hg) E. rewrite E in Hq. destruct Hp as [_ Hp]. rewrite Hp in Hq. injection Hq as <-. by exists i. }
  assert (∀ g, g ∈ on_vc (f_vc f) (ejected X s d) → g ∈ ejected X s d) as Hvc by (intros g [_ ?]%list_elem_of_filter; done).
  assert (∀ g, g ∈ ejected X s d → f_id g = k → 0 < retired_ids M (ejected X) k) as Hend by (intros g Hg <-; by apply (retired_in M _ s d)).
  destruct (A1 f Hf) as (_ & Hof & _). destruct (Hfl f Hof eq_refl) as [i Hi]. pose proof (fl_tail _ _ _ Hi) as Et. pose proof (fl_range _ _ _ Hi) as Hr. pose proof (fl_id _ _ _ Hi) as Eid.
  rewrite Ht in Et. destruct (f_head f) eqn:Hh; [pose proof (fl_head _ _ _ Hi) as Eh; rewrite Hh in Eh; apply (Hend f Hf); lia|].
  assert (f ∈ on_vc (f_vc f) (ejected X s d)) as Hin by (by apply list_elem_of_filter).
  apply list_elem_of_split in Hin as (l1 & l2 & E). specialize (A2 (f_vc f)). specialize (A3 (f_vc f)). rewrite E in A2, A3, Hvc.
  replace (l1 ++ f :: l2) with ((l1 ++ [f]) ++ l2) in A2, A3 by (by rewrite <- app_assoc). apply stream_part in A2. apply adjacent_prefix in A3.
  rewrite stream_app in A2. destruct (stream None l1) as [[p|]|] eqn:Es; [|destruct A2 as [? A2]; simpl in A2; unfold next_flit in A2; by rewrite Hh in A2|by destruct A2].
  assert (p = f_pid f) as -> by (destruct A2 as [? A2]; simpl in A2; unfold next_flit in A2; rewrite Hh in A2; simpl in A2; by destruct (Z.eqb_spec (f_pid f) p)).
  destruct (stream_open _ _ Es) as (l0 & h & fs & -> & Hhh & Hpp & Hnh). rewrite <- app_assoc in A3. cbn [app] in A3.
  pose proof (adjacent_ids l0 h (fs ++ [f]) A3) as Hids. rewrite Forall_app, Forall_singleton in Hids. specialize (Hids (conj Hnh Hh)).
  assert (h ∈ ejected X s d) as Hhin by (apply Hvc; apply elem_of_app; left; apply elem_of_app; right; left). destruct (A1 h Hhin) as (_ & Hofh & _). apply Forall_cons in Hpp as [Hph _].
  destruct (Hfl h Hofh Hph) as [j Hj]. pose proof (fl_head _ _ _ Hj) as Eh. rewrite Hhh in Eh. pose proof (fl_id _ _ _ Hj) as Eidh.
  assert (last (f_id <$> (h :: fs ++ [f])) = Some (f_id f)) as El by (change (h :: fs ++ [f]) with ((h :: fs) ++ [f]); by rewrite fmap_last, last_snoc).
  assert (k ∈ f_id <$> (h :: fs ++ [f])) as Hkin.
  { rewrite Hids in El |- *. apply elem_of_seqZ. set (z := zlen (h :: fs ++ [f])) in *. assert (0 < z) as Hz by (unfold z, zlen; simpl; lia).
    replace z with (z - 1 + 1) in El by lia. rewrite seqZ_app, last_app in El by lia. rewrite seqZ_cons in El by lia. cbn in El. injection El as El. lia. }
  apply list_elem_of_fmap in Hkin as (g & -> & Hg). apply (Hend g); [|done]. apply Hvc. rewrite <- app_assoc. apply elem_of_app. right. cbn [app].
  apply elem_of_cons in Hg as [->|Hg]; [left|right]. apply elem_of_app in Hg as [Hg| ->%list_elem_of_singleton]; apply elem_of_app; [by left|right; left].
Qed.

(** A flit that has arrived. *)
Lemma retired_inv k : 0 < retired_ids M (ejected X) k → ∃ s d f, subnet_at M s ∧ node_at M d ∧ f ∈ ejected X s d ∧ flit_of L f ∧ f_id f = k.
Proof.
  intros Hr. pose proof (ns_nodes S) as Hnn. rewrite <- (ss_nodes M) in Hnn. pose proof (ss_subnets_pos M).
  apply zsumf_pos in Hr as (s & Hs & Hr); [|lia]. apply zsumf_pos in Hr as (d & Hd & Hr); [|done]. apply tally_pos_inv in Hr as (f & Hf & E). apply Z.eqb_eq in E. simpl in E.
  exists s, d, f. split_and!; try done. pose proof (ejected_old M Hch X L D tm H0 s d Hs Hd) as Ho. rewrite Forall_forall in Ho. by apply Ho.
Qed.

(** No packet is handed out twice. *)
Lemma handed_once p : cnt p D ≤ 1.
Proof.
  destruct H0 as [HP _]. destruct (ph_retire _ _ _ _ _ _ _ HP) as [_ _ _ _ _ _ R7 R8]. destruct (decide (0 < cnt p D)) as [Hp|]; [|lia]. apply cnt_pos in Hp.
  rewrite Forall_forall in R8. destruct (R8 p Hp) as [pk Hpk]. pose proof (R7 p pk Hpk) as E. pose proof (retired_once (pk_first pk + pk_size pk - 1)).
  destruct (sizes_nonneg M) as [Hn Hc]. pose proof (zsum2_nonneg classes nodes (λ c d, cnt p ((λ x, f_pid x.1) <$> at2 (tm_ejection_queue tm) c d)) Hc Hn ltac:(intros; apply cnt_nonneg)).
  unfold delivered in E. lia.
Qed.

Lemma handed_packets p : p ∈ D → 0 ≤ p < zlen L.
Proof.
  intros Hp. destruct H0 as [HP _]. pose proof (rt_handed _ _ _ _ _ (ph_retire _ _ _ _ _ _ _ HP)) as R8. rewrite Forall_forall in R8. destruct (R8 p Hp) as [pk Hpk]. by eapply old_packet.
Qed.

Lemma net_lost s k : subnet_at M s → 0 ≤ zsumf (λ n, tally (is_id k) (x_injected (X s) n)) nodes - zsumf (λ d, tally (is_id k) (ejected X s d)) nodes.
Proof.
  intros Hs. destruct H0 as [HP _]. destruct (ph_nets _ _ _ _ _ _ _ HP s Hs) as [moves Hn]. pose proof (net_conserves S (is_id k) _ _ _ _ Hn) as E. rewrite <- (ss_nodes M) in E.
  pose proof (held_nonneg S (is_id k) ((tm_net tm)⟦s⟧) Hch). unfold ejected. lia.
Qed.

Lemma retired_injected k : retired_ids M (ejected X) k ≤ injected_ids M X k.
Proof. pose proof (ss_subnets_pos M). apply zsumf_le; [lia|]. intros s Hs. pose proof (net_lost s k Hs). lia. Qed.

(** A packet that has been handed out has arrived completely. *)
Lemma handed_complete p pk k : packet_at L p pk → p ∈ D → pk_first pk ≤ k < pk_first pk + pk_size pk → retired_ids M (ejected X) k = 1.
Proof.
  intros Hpk HD Hk. pose proof H0 as [HP _]. pose proof (ph_log _ _ _ _ _ _ _ HP) as [L1 _ _ _ _]. pose proof (rt_delivered _ _ _ _ _ (ph_retire _ _ _ _ _ _ _ HP) p pk Hpk) as Hd. unfold delivered in Hd.
  destruct (sizes_nonneg M) as [Hn Hc]. pose proof (zsum2_nonneg classes nodes (λ c d, cnt p ((λ x, f_pid x.1) <$> at2 (tm_ejection_queue tm) c d)) Hc Hn ltac:(intros; apply cnt_nonneg)).
  apply cnt_pos in HD. destruct (retired_inv (pk_first pk + pk_size pk - 1)) as (s & d & f & Hs & Hdd & Hf & (qk & i & Hq & Hfl) & Eid); [lia|]. pose proof (packet_size L L1 p pk Hpk).
  destruct (packet_unique L L1 p pk (f_pid f) qk (f_id f) Hpk Hq) as [-> <-]; [lia|destruct Hfl; lia|].
  apply (tail_complete s d f pk); try done. pose proof (fl_tail _ _ _ Hfl) as ->. pose proof (fl_id _ _ _ Hfl). lia.
Qed.

(** ** What waits at a node *)

Lemma cnt_ids k (q : list Flit) : cnt k (f_id <$> q) = tally (is_id k) q.
Proof.
  induction q as [|f q IH]; [done|]. rewrite fmap_cons. change (f :: q) with ([f] ++ q). rewrite tally_app, tally_single, <- IH. cbn [cnt]. unfold is_id. simpl.
  destruct (Z.eqb_spec (f_id f) k), (decide (f_id f = k)); done.
Qed.

Lemma queued_once n c f : node_at M n → class_at M c → f ∈ queue_of tm n c →
  0 ≤ f_id f < flits_in L ∧ injected_ids M X (f_id f) = 0 ∧ tally (is_id (f_id f)) (queue_of tm n c) = 1.
Proof.
  intros Hn Hc Hf. destruct H0 as [HP _]. pose proof (ph_nodes _ _ _ _ _ _ _ HP) as HN. pose proof (sn_queue _ _ _ _ HN n c Hn Hc) as [_ Hw _ _ _]. rewrite Forall_forall in Hw.
  pose proof (flit_id_range L (lo_log _ _ _ (ph_log _ _ _ _ _ _ _ HP)) f (wt_flit _ _ _ _ (Hw f Hf))) as Hid. pose proof (sn_ids _ _ _ _ HN _ Hid) as Hs.
  pose proof (zsum2_ge nodes classes (λ n c, tally (is_id (f_id f)) (queue_of tm n c)) n c Hn Hc ltac:(intros; apply tally_nonneg)) as Hge. cbn beta in Hge. fold (queued_ids M tm (f_id f)) in Hge.
  pose proof (tally_pos (is_id (f_id f)) (queue_of tm n c) f Hf ltac:(apply Z.eqb_refl)).
  assert (0 ≤ injected_ids M X (f_id f)); [|lia]. apply zsum2_nonneg; [pose proof (ss_subnets_pos M); lia|apply (sizes_nonneg M)|intros; apply tally_nonneg].
Qed.

(** The flits of packets of node [n] and class [c] that have not been handed out. *)
Definition unhanded (n c : Z) (x : Z * Packet) : list Z :=
  if decide (pk_src x.2 = n ∧ pk_cl x.2 = c ∧ x.1 ∉ D) then seqZ (pk_first x.2) (pk_size x.2) else [].

Lemma elem_indexed {A : Type} (l : list A) i x : (i, x) ∈ indexed l ↔ 0 ≤ i ∧ l !! Z.to_nat i = Some x.
Proof.
  unfold indexed. rewrite list_elem_of_lookup. split.
  - intros [j Hj]. apply lookup_zip_Some in Hj as [Hi Hx]. apply lookup_seqZ in Hi as [-> Hj]. split; [lia|]. by rewrite Z.add_0_l, Nat2Z.id.
  - intros [Hi Hx]. exists (Z.to_nat i). apply lookup_zip_Some. split; [|done]. apply lookup_seqZ. apply lookup_lt_Some in Hx. unfold zlen. lia.
Qed.

Lemma queue_unhanded n c : node_at M n → class_at M c → zlen (queue_of tm n c) ≤ zlen (mjoin (unhanded n c <$> indexed L)).
Proof.
  intros Hn Hc. pose proof H0 as [HP _]. pose proof (sn_queue _ _ _ _ (ph_nodes _ _ _ _ _ _ _ HP) n c Hn Hc) as [_ Hw _ _ _]. rewrite Forall_forall in Hw.
  unfold zlen. rewrite <- (length_fmap f_id). apply inj_le, submseteq_length, NoDup_submseteq.
  - apply NoDup_cnt. intros k. rewrite cnt_ids. destruct (decide (0 < tally (is_id k) (queue_of tm n c))) as [Hp|]; [|lia].
    apply tally_pos_inv in Hp as (f & Hf & Ef). apply Z.eqb_eq in Ef. simpl in Ef. subst k. by destruct (queued_once n c f Hn Hc Hf) as (_ & _ & ->).
  - intros k (f & -> & Hf)%list_elem_of_fmap. destruct (queued_once n c f Hn Hc Hf) as (_ & Hi & _). destruct (wt_flit _ _ _ _ (Hw f Hf)) as (pk & i & Hpk & Hfl).
    apply list_elem_of_join. exists (unhanded n c (f_pid f, pk)). split.
    + unfold unhanded. cbn [fst snd]. rewrite decide_True; [apply elem_of_seqZ; destruct Hfl; lia|]. pose proof (wt_src _ _ _ _ (Hw f Hf)). pose proof (wt_cl _ _ _ _ (Hw f Hf)).
      split_and!; [by rewrite <- (fl_src _ _ _ Hfl)|by rewrite <- (fl_cl _ _ _ Hfl)|]. intros HD. pose proof (handed_complete _ _ (f_id f) Hpk HD ltac:(destruct Hfl; lia)). pose proof (retired_injected (f_id f)). lia.
    + apply list_elem_of_fmap. exists (f_pid f, pk). split; [done|]. by apply elem_indexed.
Qed.

Section quiet.
Context (HQ : quiet M tm).

Lemma all_retired k : 0 ≤ k < flits_in L → retired_ids M (ejected X) k = 1.
Proof.
  intros Hk. destruct H0 as [HP _]. pose proof (ph_log _ _ _ _ _ _ _ HP) as [L1 _ _ _ L5]. destruct (packet_of_id L k L1 Hk) as (p & pk & Hp & Hkp).
  assert (class_at M (pk_cl pk)) as Hc by (destruct Hp as [_ Hp]; by apply (Forall_lookup_1 _ _ _ _ L5 Hp)).
  destruct (rt_total _ _ _ _ _ (ph_retire _ _ _ _ _ _ _ HP)) as [_ Hv]. destruct (Hv _ Hc) as [_ Hm]. rewrite (proj1 HQ _ Hc) in Hm. pose proof (retired_once k). pose proof (retired_nonneg M (ejected X) k).
  destruct (decide (retired_ids M (ejected X) k = 0)) as [E|]; [|lia]. specialize (Hm k). destruct Hm as [_ Hm]. exfalso. enough (mfind k (@nil (Z * unit)) = Some tt) by done. apply Hm. split; [done|].
  exists p, pk. done.
Qed.

(** Every flit has been sent, and none is left in the networks. *)
Lemma all_injected k : 0 ≤ k < flits_in L → queued_ids M tm k = 0 ∧ injected_ids M X k = 1.
Proof.
  intros Hk. pose proof (all_retired k Hk) as Hr. destruct H0 as [HP _]. pose proof (sn_ids _ _ _ _ (ph_nodes _ _ _ _ _ _ _ HP) k Hk) as Hs. destruct (sizes_nonneg M) as [Hn Hc].
  pose proof (zsum2_nonneg nodes classes (λ n c, tally (is_id k) (queue_of tm n c)) Hn Hc ltac:(intros; apply tally_nonneg)) as Hq. fold (queued_ids M tm k) in Hq.
  pose proof (retired_injected k). lia.
Qed.

Lemma drained_queue n c : node_at M n → class_at M c → queue_of tm n c = [].
Proof.
  intros Hn Hc. destruct (queue_of tm n c) as [|f q] eqn:E; [done|]. exfalso. destruct H0 as [HP _]. pose proof (sn_queue _ _ _ _ (ph_nodes _ _ _ _ _ _ _ HP) n c Hn Hc) as Hqo. rewrite E in Hqo.
  assert (flit_of L f) as Hf by (destruct Hqo as [_ Hw _ _ _]; apply Forall_cons in Hw as [Hw _]; apply Hw). pose proof (flit_id_range L (lo_log _ _ _ (ph_log _ _ _ _ _ _ _ HP)) f Hf) as Hid.
  destruct (all_injected _ Hid) as [Hq _].
  pose proof (zsum2_ge nodes classes (λ n c, tally (is_id (f_id f)) (queue_of tm n c)) n c Hn Hc ltac:(intros; apply tally_nonneg)) as Hge. cbn beta in Hge. fold (queued_ids M tm (f_id f)) in Hge.
  pose proof (tally_pos (is_id (f_id f)) (queue_of tm n c) f ltac:(rewrite E; left) ltac:(apply Z.eqb_refl)). lia.
Qed.

Lemma drained_id s k : subnet_at M s → held S (is_id k) ((tm_net tm)⟦s⟧) = 0.
Proof.
  intros Hs. pose proof (held_nonneg S (is_id k) ((tm_net tm)⟦s⟧) Hch) as Hh. pose proof H0 as [HP _]. destruct (ph_nets _ _ _ _ _ _ _ HP s Hs) as [moves Hn].
  pose proof (net_conserves S (is_id k) _ _ _ _ Hn) as E. rewrite <- (ss_nodes M) in E. destruct (decide (0 ≤ k < flits_in L)) as [Hk|Hk].
  - assert (zsumf (λ s, zsumf (λ n, tally (is_id k) (x_injected (X s) n)) nodes - zsumf (λ d, tally (is_id k) (ejected X s d)) nodes) subnets = 0) as Hz.
    { assert (∀ f g : Z → Z, zsumf (λ s, f s - g s) subnets = zsumf f subnets - zsumf g subnets) as Hsub by (intros f g; rewrite (zsumf_ext f (λ s, (f s - g s) + g s)) by (intros; lia); rewrite zsumf_plus; lia).
      rewrite Hsub. pose proof (all_retired k Hk). destruct (all_injected k Hk) as [_ ?]. unfold retired_ids, injected_ids, zsum2 in *. lia. }
    pose proof (zsumf_zero _ subnets s Hs (λ s' Hs', net_lost s' k Hs') Hz) as Ez. cbn beta in Ez. unfold ejected in Ez. lia.
  - rewrite (zsumf_ext _ (λ _, 0)), zsumf_const_0 in E; [pose proof (zsumf_nonneg (λ d, tally (is_id k) (x_ejected (X s) d)) nodes (proj1 (sizes_nonneg M)) ltac:(intros; apply tally_nonneg)); lia|].
    intros n Hnn. destruct (decide (0 < tally (is_id k) (x_injected (X s) n))) as [Hp|Hp]; [|pose proof (tally_nonneg (is_id k) (x_injected (X s) n)); lia].
    apply tally_pos_inv in Hp as (f & Hf & Ef). apply Z.eqb_eq in Ef. simpl in Ef. exfalso. apply Hk. rewrite <- Ef. apply flit_id_range; [apply (ph_log _ _ _ _ _ _ _ HP)|].
    pose proof (sn_injected _ _ _ _ (ph_nodes _ _ _ _ _ _ _ HP) n s Hnn Hs) as Ho. rewrite Forall_forall in Ho. by apply Ho.
Qed.

Lemma drained_net s p : subnet_at M s → held S p ((tm_net tm)⟦s⟧) = 0.
Proof.
  intros Hs. pose proof (held_nonneg S p ((tm_net tm)⟦s⟧) Hch). destruct (decide (0 < held S p ((tm_net tm)⟦s⟧))) as [Hp|]; [|lia].
  destruct (held_pos S p _ Hch Hp) as (f & _ & Hq). specialize (Hq (is_id (f_id f)) ltac:(apply Z.eqb_refl)). rewrite drained_id in Hq by done. lia.
Qed.

Lemma drained_handed p : 0 ≤ p < zlen L → p ∈ D.
Proof.
  intros Hp. apply cnt_pos. destruct (lookup_lt_is_Some_2 L (Z.to_nat p) ltac:(unfold zlen in Hp; lia)) as [pk Hl]. assert (packet_at L p pk) as Hpk by (split; [lia|done]).
  pose proof H0 as [HP _]. pose proof (ph_log _ _ _ _ _ _ _ HP) as [L1 _ _ _ _]. pose proof (rt_delivered _ _ _ _ _ (ph_retire _ _ _ _ _ _ _ HP) p pk Hpk) as E.
  pose proof (packet_ids L L1 p pk Hpk). pose proof (packet_size L L1 p pk Hpk). rewrite all_retired in E by lia. unfold delivered in E.
  rewrite (zsum2_ext _ _ (λ _ _, 0)) in E; [|intros c d Hc Hd; by rewrite (proj2 HQ c d Hc Hd)].
  replace (zsum2 classes nodes (λ _ _, 0)) with 0 in E; [lia|]. unfold zsum2. rewrite (zsumf_ext _ (λ _, 0)), zsumf_const_0; [done|intros; apply zsumf_const_0].
Qed.
End quiet.

(** Nothing is left once every packet has been handed out. *)
Lemma handed_quiet : (∀ p, 0 ≤ p < zlen L → p ∈ D) → quiet M tm.
Proof.
  intros HD. pose proof H0 as [HP _]. pose proof (ph_log _ _ _ _ _ _ _ HP) as [L1 _ _ _ _]. destruct (ph_retire _ _ _ _ _ _ _ HP) as [R1 _ _ _ _ R6 R7 _].
  assert (∀ p pk, packet_at L p pk → 0 ≤ zsum2 classes nodes (λ c d, cnt p ((λ x, f_pid x.1) <$> at2 (tm_ejection_queue tm) c d)) ∧ 0 < cnt p D) as Hpos.
  { intros p pk Hpk. destruct (sizes_nonneg M) as [Hn Hc]. split; [apply zsum2_nonneg; [done|done|intros; apply cnt_nonneg]|]. apply cnt_pos, HD. by eapply old_packet. }
  split.
  - intros c Hc. destruct R1 as [_ Hv]. destruct (Hv c Hc) as [_ Hm]. destruct ((tm_total_in_flight_flits tm)⟦c⟧) as [|[k []] m] eqn:E; [done|]. exfalso.
    destruct (proj1 (Hm k)) as [Hk (p & pk & Hpk & Hkp & _)]; [simpl; by rewrite Z.eqb_refl|]. rewrite (handed_complete p pk k) in Hk; try done. by apply HD, (old_packet L p pk).
  - intros c d Hc Hd. destruct (at2 (tm_ejection_queue tm) c d) as [|x q] eqn:E; [done|]. exfalso. pose proof (R6 c d Hc Hd) as Hx. rewrite E in Hx. apply Forall_cons in Hx as [(s & w & l1 & fs & l2 & pk & HC) _].
    pose proof (cm_packet _ _ _ _ _ _ _ _ _ _ _ _ _ HC) as Hpk. pose proof (R7 _ _ Hpk) as Hd'. destruct (Hpos _ _ Hpk) as [_ Hp2]. unfold delivered in Hd'. pose proof (retired_once (pk_first pk + pk_size pk - 1)).
    pose proof (zsum2_ge classes nodes (λ c d, cnt (f_pid x.1) ((λ x, f_pid x.1) <$> at2 (tm_ejection_queue tm) c d)) c d Hc Hd ltac:(intros; apply cnt_nonneg)) as Hge. cbn beta in Hge.
    rewrite E in Hge. rewrite fmap_cons in Hge. cbn [cnt] in Hge. rewrite decide_True in Hge by done. pose proof (cnt_nonneg (f_pid x.1) ((λ x, f_pid x.1) <$> q)). lia.
Qed.

(** Nothing is in flight exactly when every packet has been handed out. *)
Lemma quiet_handed : quiet M tm ↔ D ≡ₚ seqZ 0 (zlen L).
Proof.
  split.
  - intros HQ. apply NoDup_Permutation; [apply NoDup_cnt, handed_once|apply NoDup_seqZ|]. intros p. rewrite elem_of_seqZ, Z.add_0_l. split; [apply handed_packets|by apply drained_handed].
  - intros HD. apply handed_quiet. intros p Hp. rewrite HD. by apply elem_of_seqZ.
Qed.
End drained.

(** ** The service *)

(** The calls of a driving program to [BooksimWrapper]: [GeneratePacket], [RunCycles],
    [RetirePackets], [RetirePacket], [CheckInFlightPackets], [CheckInjectionQueue] and
    [ResetStats].  The others are [UpdateSimTime], after which runs can fail
    ([update_sim_time_fails] of Simulators.v), [CheckInFlightCredits], which counts the
    credits that have been allocated and not freed, [GetSimTime], and the two that
    print. *)
Inductive Call : Set :=
  | Generate (source dest size cl time : Z)
  | Run (cycles : Z)
  | Collect
  | CollectOne
  | InFlight
  | QueueRoom (source cl : Z)
  | ResetStats.

Inductive Answer : Set :=
  | Pid (pid : Z)
  | Ran
  | Packets (ps : list RetiredPacket)
  | OnePacket (p : RetiredPacket)
  | Room (flits : Z)
  | Busy (in_flight : bool).

(** What the service remembers: the packets accepted, by number, and the numbers of
    those handed out. *)
Record Order : Set := mkOrder { or_src : Z; or_dest : Z; or_size : Z; or_cl : Z }.
Record Service : Set := mkService { sv_accepted : list Order; sv_handed : list Z }.

(** A packet handed out is as it was ordered. *)
Definition fulfils (os : list Order) (x : RetiredPacket) : Prop :=
  0 ≤ rp_pid x ∧ os !! Z.to_nat (rp_pid x) = Some (mkOrder (rp_src x) (rp_dest x) (rp_psize x) (rp_cl x)).

(** The flits of node [source] and class [cl] in packets not handed out. *)
Definition unfulfilled (s : Service) (source cl : Z) : Z :=
  zsum ((λ x : Z * Order, if decide (or_src x.2 = source ∧ or_cl x.2 = cl ∧ x.1 ∉ sv_handed s) then or_size x.2 else 0) <$> indexed (sv_accepted s)).

(** An order is refused only when [room] flits of its node and class are under way. *)
Section serves.
Context (room : Z).

Inductive serves (s : Service) : Call → Answer → Service → Prop :=
  | serves_accept source dest size cl time :
      serves s (Generate source dest size cl time) (Pid (zlen (sv_accepted s)))
        (mkService (sv_accepted s ++ [mkOrder source dest size cl]) (sv_handed s))
  | serves_refuse source dest size cl time : room ≤ unfulfilled s source cl → serves s (Generate source dest size cl time) (Pid (-1)) s
  | serves_run cycles : serves s (Run cycles) Ran s
  | serves_collect ps :
      Forall (fulfils (sv_accepted s)) ps → NoDup (rp_pid <$> ps) → (∀ x, x ∈ ps → rp_pid x ∉ sv_handed s) →
      serves s Collect (Packets ps) (mkService (sv_accepted s) (sv_handed s ++ (rp_pid <$> ps)))
  | serves_one x :
      fulfils (sv_accepted s) x → rp_pid x ∉ sv_handed s →
      serves s CollectOne (OnePacket x) (mkService (sv_accepted s) (sv_handed s ++ [rp_pid x]))
  | serves_no_packet x : rp_pid x = -1 → serves s CollectOne (OnePacket x) s
  | serves_room source cl flits : room - unfulfilled s source cl ≤ flits ≤ room → serves s (QueueRoom source cl) (Room (to_int flits)) s
  | serves_in_flight b :
      (b = false ↔ sv_handed s ≡ₚ seqZ 0 (zlen (sv_accepted s))) → serves s InFlight (Busy b) s
  | serves_reset : serves s ResetStats Ran s.

Inductive serves_all : Service → list Call → list Answer → Service → Prop :=
  | serves_none s : serves_all s [] [] s
  | serves_more s c a s' cs as_ s'' : serves s c a s' → serves_all s' cs as_ s'' → serves_all s (c :: cs) (a :: as_) s''.
End serves.

(** Cycles to run and packets to generate. *)
Definition cycles_in (c : Call) : Z := match c with Run cycles => cycles | _ => 0 end.
Definition packets_in (c : Call) : Z := match c with Generate _ _ _ _ _ => 1 | _ => 0 end.

Section service.
Context {VA SA PA : Type} `{Inhabited SA} (M : SimSetup VA SA PA) (Hch : 0 ≤ nc_channels (ns_N (ss_S M))).
Local Abbreviation S := (ss_S M).
Local Abbreviation N := (ns_N (ss_S M)).
Local Abbreviation T := (ss_T M).
Local Abbreviation TM := (TM VA SA PA).
Implicit Types (tm : TM) (X : Z → NetHist) (L : list Packet) (D : list Z).

Definition serve (c : Call) tm : res (Answer * TM) :=
  match c with
  | Generate source dest size cl time => '(pid, tm) ← GeneratePacket T source dest size cl time tm; Ok (Pid pid, tm)
  | Run cycles => tm ← RunCycles (ns_IV S) (ns_IS S) (ns_IP S) (ns_rf S) N T cycles tm; Ok (Ran, tm)
  | Collect => '(ps, tm) ← RetirePackets T tm; Ok (Packets ps, tm)
  | CollectOne => '(head, tail, tm) ← RetirePacket T tm; Ok (OnePacket (retired_packet (head, tail)), tm)
  | InFlight => b ← CheckInFlightPackets T tm; Ok (Busy b, tm)
  | QueueRoom source cl => flits ← CheckInjectionQueue T source cl tm; Ok (Room flits, tm)
  | ResetStats => Ok (Ran, ClearStats T tm)
  end.

Fixpoint serve_all (cs : list Call) tm : res (list Answer * TM) :=
  match cs with
  | [] => Ok ([], tm)
  | c :: cs => '(a, tm) ← serve c tm; '(as_, tm) ← serve_all cs tm; Ok (a :: as_, tm)
  end.

(** The calls that may be made. *)
Definition permitted (c : Call) : Prop :=
  match c with
  | Generate source dest size cl time => node_at M source ∧ node_at M dest ∧ class_at M cl ∧ 0 < size
  | Run cycles => 0 ≤ cycles
  | QueueRoom source cl => node_at M source ∧ class_at M cl
  | _ => True
  end.

(** The packets as orders. *)
Definition order_of (pk : Packet) : Order := mkOrder (pk_src pk) (pk_dest pk) (pk_size pk) (pk_cl pk).
Definition service_of L D : Service := mkService (order_of <$> L) D.

Lemma zlen_orders L : zlen (order_of <$> L) = zlen L.
Proof. unfold zlen. by rewrite length_fmap. Qed.

Lemma describes_fulfils L x : describes L x → fulfils (order_of <$> L) x.
Proof. intros (pk & [Hp Hl] & E1 & E2 & E3 & E4). split; [done|]. rewrite list_lookup_fmap, Hl. simpl. unfold order_of. by rewrite E1, E2, E3, E4. Qed.

(** ** The simulator implements the service *)

Definition served (now packets : Z) (c : Call) (s : Service) (y : Answer * TM) : Prop :=
  ∃ X L D, sim_ok M X L D y.2 ∧ serves (tc_inj_size T) s c y.1 (service_of L D) ∧ tm_time y.2 = now + cycles_in c ∧ zlen L ≤ packets + packets_in c.

Lemma run_cycles X L D tm cycles : sim_ok M X L D tm → 0 ≤ cycles → tm_time tm + cycles + Z.max 0 (ns_latency S) ≤ int_max →
  returns (RunCycles (ns_IV S) (ns_IS S) (ns_IP S) (ns_rf S) N T cycles tm) (λ tm', tm_time tm' = tm_time tm + cycles ∧ ∃ X', sim_ok M X' L D tm').
Proof.
  intros H0 Hc Ht. apply (returns_for (λ k tm', tm_time tm' = tm_time tm + k ∧ ∃ X', sim_ok M X' L D tm')); [lia|split; [lia|by exists X]|].
  intros k tm' Hk (Et & X' & H'). eapply returns_mono; [apply (Step_ok M Hch X' L D tm' H'); lia|]. intros tm2 (Et2 & HX). split; [lia|done].
Qed.

Lemma collect_ok X L D tm : sim_ok M X L D tm →
  returns (RetirePackets T tm) (λ '(ps, tm'), tm_time tm' = tm_time tm ∧ sim_ok M X L (D ++ (rp_pid <$> ps)) tm' ∧ Forall (describes L) ps).
Proof.
  intros [HP Ht]. eapply returns_mono; [apply (RetirePackets_ok M L (ejected X) D tm), HP|]. intros [ps tm'] (Hd & HR & _ & Ho).
  assert (tm_net tm' = tm_net tm ∧ tm_time tm' = tm_time tm ∧ tm_counts tm' = tm_counts tm ∧ tm_rng tm' = tm_rng tm) as (E1 & E2 & E3 & E4).
  { destruct tm, tm'. unfold others_of in Ho. simpl in *. simplify_eq. done. }
  split_and!; [done| |done]. split; [|by rewrite E2]. destruct HP as [P1 P2 P3 P4 P5 P6 P7 P8]. rewrite E2. split; try done.
  - by eapply logged_others.
  - by eapply nodes_ext.
  - by rewrite E1.
  - by rewrite E1.
  - by rewrite E3.
  - by rewrite E4.
Qed.

(** One packet is taken off the ejection queues, or they are empty. *)
Lemma retire_one X L D tm : sim_ok M X L D tm → returns (RetirePacket T tm) (λ '(hd, tl, tm'),
  tm_time tm' = tm_time tm ∧ if f_pid hd =? -1 then tm' = tm else describes L (retired_packet (hd, tl)) ∧ sim_ok M X L (D ++ [f_pid hd]) tm' ∧ (ejected_packets tm' < ejected_packets tm)%nat).
Proof.
  intros [HP Ht]. pose proof (ph_retire _ _ _ _ _ _ _ HP) as HR. eapply returns_mono; [by apply (RetirePacket_ok M L (ejected X) D)|]. intros [[hd tl] tm'] [Ho Hx].
  assert (tm_net tm' = tm_net tm ∧ tm_time tm' = tm_time tm ∧ tm_counts tm' = tm_counts tm ∧ tm_rng tm' = tm_rng tm) as (E1 & E2 & E3 & E4).
  { destruct tm, tm'. unfold others_of in Ho. simpl in *. simplify_eq. done. }
  split; [done|]. destruct (f_pid hd =? -1); [by destruct Hx|]. destruct Hx as (Hd & Hp & HR' & c & d & x & q & Hc & Hdd & Hq & Hv). split; [done|]. split.
  - split; [|by rewrite E2]. destruct HP as [P1 P2 P3 P4 P5 P6 P7 P8]. rewrite E2. split; try done; [by eapply logged_others|by eapply nodes_ext|by rewrite E1|by rewrite E1|by rewrite E3|by rewrite E4].
  - pose proof (waiting_pop M _ _ _ _ _ _ (rt_queues _ _ _ _ _ HR) Hc Hdd Hq Hv) as Hw. rewrite <- (ejected_waiting M tm) in Hw by apply HR. rewrite <- (ejected_waiting M tm') in Hw by apply HR'. lia.
Qed.

Lemma collected X L D ps tm : sim_ok M X L (D ++ (rp_pid <$> ps)) tm → NoDup (rp_pid <$> ps) ∧ ∀ x, x ∈ ps → rp_pid x ∉ D.
Proof.
  intros H0. pose proof (NoDup_cnt _ (handed_once M Hch X L _ tm H0)) as Hn. apply NoDup_app in Hn as (_ & H1 & H2). split; [done|]. intros x Hx HD.
  apply (H1 _ HD). by apply list_elem_of_fmap_2.
Qed.

Lemma ClearStats_ok X L D tm : sim_ok M X L D tm → sim_ok M X L D (ClearStats T tm).
Proof.
  intros [[P1 P2 P3 P4 P5 P6 P7 P8] Ht]. assert (0 ≤ tc_nodes T ∧ 0 ≤ tc_classes T) as [Hn Hc] by apply (sizes_nonneg M). split; [|done]. split; try done.
  - by destruct P1, tm.
  - by destruct P2, tm.
  - by destruct P5, tm.
  - split_and!; by apply grid_replicate.
Qed.

Lemma queued_unfulfilled X L D tm n c : sim_ok M X L D tm → node_at M n → class_at M c → zlen (queue_of tm n c) ≤ unfulfilled (service_of L D) n c.
Proof.
  intros H0 Hn Hc. etrans; [by apply (queue_unhanded M Hch X L D tm H0)|]. unfold unfulfilled, service_of, indexed. cbn [sv_accepted sv_handed]. rewrite zlen_orders.
  rewrite <- concat_mjoin, zlen_concat, <- list_fmap_compose. pose proof (lg_size _ (lo_log _ _ _ (ph_log _ _ _ _ _ _ _ (sm_phase _ _ _ _ _ H0)))) as Hs. revert Hs. generalize (seqZ 0 (zlen L)) as ks. clear H0.
  induction L as [|pk L' IH]; intros [|k ks] Hs; [done..|]. apply Forall_cons in Hs as [Hk Hs]. rewrite fmap_cons. cbn [zip zip_with]. rewrite !fmap_cons. cbn [zsum fst snd or_src or_cl or_size order_of compose].
  specialize (IH ks Hs). unfold unhanded at 1. cbn [fst snd]. unfold zlen at 1. case_decide; [rewrite length_seqZ; lia|simpl; lia].
Qed.

Lemma serve_ok X L D tm c : sim_ok M X L D tm → permitted c → tm_time tm + cycles_in c + Z.max 0 (ns_latency S) ≤ int_max → zlen L + packets_in c ≤ int_max + 1 →
  returns (serve c tm) (served (tm_time tm) (zlen L) c (service_of L D)).
Proof.
  intros H0 Hc Ht Hp. pose proof H0 as [HP Ht0]. destruct c as [source dest size cl time|cycles| | | |source cl|]; simpl in Hc, Ht, Hp |- *.
  - destruct Hc as (Hs & Hd & Hcl & Hsz). eapply returns_bind; [by apply (GeneratePacket_ok M Hch X L D); [..|lia]|]. intros [pid tm'] Hg. apply returns_ok. destruct (Z.leb_spec (tc_inj_size T) (zlen (queue_of tm source cl))).
    + destruct Hg as [-> ->]. exists X, L, D. split_and!; [done| |simpl; lia|simpl; lia]. constructor. pose proof (queued_unfulfilled X L D tm source cl H0 Hs Hcl). lia.
    + destruct Hg as (-> & Et & _ & record & H' & _). eexists X, _, D. split_and!; [exact H'| |simpl; lia|rewrite zlen_snoc; simpl; lia].
      unfold service_of. rewrite fmap_app. rewrite <- (zlen_orders L). apply (serves_accept _ (service_of L D)).
  - eapply returns_bind; [by apply (run_cycles X L D)|]. intros tm' (Et & X' & H'). apply returns_ok. exists X', L, D. split_and!; [done|constructor|done|simpl; lia].
  - eapply returns_bind; [by apply (collect_ok X L D)|]. intros [ps tm'] (Et & H' & Hd). apply returns_ok. exists X, L, (D ++ (rp_pid <$> ps)). destruct (collected X L D ps tm' H') as [Hn Hx].
    split_and!; [done| |simpl; lia|simpl; lia]. apply (serves_collect _ (service_of L D)); try done. eapply Forall_impl; [exact Hd|]. apply describes_fulfils.
  - eapply returns_bind; [by apply (retire_one X L D)|]. intros [[hd tl] tm'] [Et Hx]. apply returns_ok. destruct (Z.eqb_spec (f_pid hd) (-1)) as [E|E].
    + subst tm'. exists X, L, D. split_and!; [done|by apply serves_no_packet|simpl; lia|simpl; lia].
    + destruct Hx as (Hd & H' & _). exists X, L, (D ++ [f_pid hd]). split_and!; [done| |simpl; lia|simpl; lia]. apply (serves_one _ (service_of L D) (retired_packet (hd, tl))); [by apply describes_fulfils|].
      destruct (collected X L D [retired_packet (hd, tl)] tm') as [_ Hnot]; [done|]. apply Hnot. by apply list_elem_of_singleton.
  - eapply returns_bind; [apply (CheckInFlightPackets_ok M tm); [apply (rt_total _ _ _ _ _ (ph_retire _ _ _ _ _ _ _ HP))|apply (rt_queues _ _ _ _ _ (ph_retire _ _ _ _ _ _ _ HP))]|].
    intros b Hb. apply returns_ok. exists X, L, D. split_and!; [done| |simpl; lia|simpl; lia]. constructor. simpl. rewrite zlen_orders, Hb. by apply (quiet_handed M Hch X).
  - destruct Hc as [Hs Hcl]. pose proof (queued_unfulfilled X L D tm source cl H0 Hs Hcl) as Hq. pose proof (zlen_nonneg (queue_of tm source cl)). unfold CheckInjectionQueue. rewrite (vget2_ok (tc_nodes T) (tc_classes T)) by (done || apply (sn_queues _ _ _ _ (ph_nodes _ _ _ _ _ _ _ HP))). cbn [mbind res_bind]. change (at2 (tm_partial_packets tm) source cl) with (queue_of tm source cl).
    apply returns_ok. exists X, L, D. split_and!; [done|apply (serves_room _ (service_of L D)); lia|simpl; lia|simpl; lia].
  - apply returns_ok. exists X, L, D. split_and!; [by apply ClearStats_ok|constructor|simpl; lia|simpl; lia].
Qed.

Lemma serve_all_ok cs : ∀ X L D tm, sim_ok M X L D tm → Forall permitted cs →
  tm_time tm + zsum (cycles_in <$> cs) + Z.max 0 (ns_latency S) ≤ int_max → zlen L + zsum (packets_in <$> cs) ≤ int_max + 1 →
  returns (serve_all cs tm) (λ '(as_, tm'), ∃ X' L' D', sim_ok M X' L' D' tm' ∧ serves_all (tc_inj_size T) (service_of L D) cs as_ (service_of L' D') ∧
    zlen L' ≤ zlen L + zsum (packets_in <$> cs)).
Proof.
  induction cs as [|c cs IH]; intros X L D tm H0 Hc Ht Hp; [apply returns_ok; exists X, L, D; split_and!; [done|constructor|simpl; lia]|].
  apply Forall_cons in Hc as [Hc Hcs]. rewrite fmap_cons in Ht, Hp. simpl in Ht, Hp.
  assert (0 ≤ zsum (cycles_in <$> cs)) as H1. { apply zsum_nonneg, Forall_fmap. eapply Forall_impl; [exact Hcs|]. intros []; simpl; lia. }
  assert (0 ≤ zsum (packets_in <$> cs)) as H2. { apply zsum_nonneg, Forall_fmap. eapply Forall_impl; [exact Hcs|]. intros []; simpl; lia. }
  cbn [serve_all]. eapply returns_bind; [apply (serve_ok X L D tm c H0 Hc); lia|]. intros [a tm'] (X' & L' & D' & H' & Hs & Et & El). simpl in Et, H', Hs.
  eapply returns_bind; [apply (IH X' L' D' tm' H' Hcs); lia|]. intros [as_ tm2] (X2 & L2 & D2 & H2' & Hs2 & Hl2). apply returns_ok. exists X2, L2, D2. split_and!; [done|by econstructor|]. rewrite fmap_cons. cbn [zsum]. lia.
Qed.
End service.
