(* ===== verification/Steered.v ===== *)
(** * Construction, and networks with one route

    A network whose channels are new and whose routers have been built, and a
    traffic manager that has been constructed on such networks, satisfy the
    invariants with nothing sent and no packet generated.

    Routing functions that offer a packet one output, which its router and its
    destination determine, with all VCs of its class: dimension order in a mesh, and
    the tables of [AnyNet].  Any network with such a function, built of routers that
    are built as [IQRouter] builds them, satisfies what the network and the
    simulator are proved under ([SimSetup]). *)

From S2P Require Import Prelude StdMap OutputSet Flit VCBuffer BufferState BufferStateInv Credits Link Channel Arbiter Allocator AllocLaws Rng KNCube Route SwitchAlloc IQRouter IQSwitch Wormhole RouterInv RouterQueues RouterStages RouterRoute RouterVCAlloc RouterSwitchAlloc RouterSend RouterSwitch RouterStep RouterRun RouterSpec RouterFlow Network TrafficManager NetChannels NetworkInv NetworkRun NetworkSpec Packets Terminal SimInv SimNodes Retire SimStep SimInterface SimSpec.
Import CoreOps Credits Link NetworkOps TMOps.

(** ** A network *)

Section network.
Context {VA SA PA : Type} `{Inhabited SA} (S : NetSetup VA SA PA) (Hch : 0 ≤ nc_channels (ns_N S)).
Local Abbreviation N := (ns_N S).
Local Abbreviation Net := (Network VA SA PA).
Implicit Types nw : Net.

(** Nothing has happened. *)
Definition fresh nw : Prop := net_ok S 0 nothing (λ _, []) nw.

Lemma nothing_on c : sent_on N nothing c = [] ∧ got_on N nothing c = [] ∧ credits_sent_on N nothing c = [] ∧ credits_got_on N nothing c = [].
Proof. unfold sent_on, got_on, credits_sent_on, credits_got_on. destruct c; simpl; repeat case_match; done. Qed.

Lemma nothing_ok n : 0 ≤ ns_bsize S → node_ok S nothing n.
Proof. intros Hb. split; try done; simpl. change (zsumf (λ _, 0) (ns_vcs S) ≤ ns_bsize S). by rewrite zsumf_const_0. Qed.

Lemma orderly_nil : orderly S [].
Proof. split; [constructor|done]. Qed.

Lemma Alloc_fresh (routers : list (IQRouter VA SA PA)) : 1 ≤ ns_latency S → 0 ≤ ns_bsize S → zlen routers = nrouters N →
  (∀ r, 0 ≤ r < nrouters N → tracks (ns_E S r) 0 no_history [] (routers⟦r⟧)) → fresh (Alloc N routers).
Proof.
  intros Hlat Hb Hl Hr. pose proof (ns_nodes S) as Hn. assert (∀ {Y : Type} `{Inhabited Y} (x : Y) c, valid_chan N c →
    chan_at (mkChannels (replicate (Z.to_nat (nc_nodes N)) x) (replicate (Z.to_nat (nc_nodes N)) x) (replicate (Z.to_nat (nc_channels N)) x)) c = x) as Hat.
  { intros Y HY x [k|n|n] Hc; simpl in *; by apply znth_replicate. }
  split; [|done| |intros n _; by apply nothing_ok].
  - unfold well_shaped, fits. simpl. rewrite !zlen_replicate by done. done.
  - intros c Hc. destruct (nothing_on c) as (E1 & E2 & E3 & E4). unfold Alloc. split; rewrite ?E1, ?E2, ?E3, ?E4; unfold flit_chan, credit_chan; cbn [nw_flits nw_credits]; rewrite ?(Hat _ _ _ c Hc).
    + by apply (resting_New 0 1).
    + by apply (resting_New 0 1).
    + simpl. lia.
    + simpl. lia.
    + simpl. apply zlen_replicate, (ns_classes S).
    + apply orderly_nil.
Qed.

(** Latencies are set while nothing is on the way. *)
Lemma set_latencies_fresh nw c lat cred : fresh nw → valid_chan N c → 0 < lat ≤ ns_latency S → 0 < cred ≤ ns_latency S →
  returns (set_latencies c lat cred nw) (λ nw', fresh nw' ∧ nw_routers nw' = nw_routers nw).
Proof.
  intros [(F1 & F2 & F3) HR HC HN] Hc Hlat Hcred. unfold set_latencies. rewrite (get_chan_ok N (nw_flits nw)) by done. cbn [mbind res_bind]. unfold ChannelOps.SetLatency.
  destruct (Z.leb_spec lat 0); [lia|]. cbn [mbind res_bind]. eapply returns_bind; [by apply (put_chan_ok N)|]. intros fs [G1 G2].
  rewrite (get_chan_ok N (nw_credits nw)) by done. cbn [mbind res_bind]. destruct (Z.leb_spec cred 0); [lia|]. cbn [mbind res_bind].
  eapply returns_bind; [by apply (put_chan_ok N)|]. intros cs [G3 G4]. apply returns_ok. split; [|done]. split; try done.
  intros c' Hc'. pose proof (HC c' Hc') as [C1 C2 C3 C4 C5 C6]. destruct (nothing_on c') as (E1 & E2 & E3 & E4). rewrite E1, E2 in C1. rewrite E3, E4 in C2.
  split; rewrite ?E1, ?E2, ?E3, ?E4; unfold flit_chan, credit_chan in *; cbn [nw_flits nw_credits]; rewrite ?(G2 c' Hc'), ?(G4 c' Hc').
  - case_decide; [subst c'; cbn [fc_channel]; apply resting_SetLatency; [done|lia]|done].
  - case_decide; [subst c'; apply resting_SetLatency; [done|lia]|done].
  - by case_decide.
  - by case_decide.
  - by case_decide; [subst c'|].
  - apply orderly_nil.
Qed.

(** The latencies of several channels. *)
Fixpoint set_all_latencies (ls : list (chan_id * (Z * Z))) nw : res Net :=
  match ls with
  | [] => Ok nw
  | (c, (lat, cred)) :: ls => nw ← set_latencies c lat cred nw; set_all_latencies ls nw
  end.

Lemma latencies_fresh ls : ∀ nw, fresh nw → Forall (λ x, valid_chan N x.1 ∧ 0 < x.2.1 ≤ ns_latency S ∧ 0 < x.2.2 ≤ ns_latency S) ls → returns (set_all_latencies ls nw) fresh.
Proof.
  induction ls as [|[c [lat cred]] ls IH]; intros nw Hf Hl; [by apply returns_ok|]. apply Forall_cons in Hl as [(Hc & Hlat & Hcred) Hl]. simpl in *.
  eapply returns_bind; [by apply set_latencies_fresh|]. intros nw' [Hf' _]. by apply IH.
Qed.
End network.

(** ** The traffic manager *)

Section tm.
Context {VA SA PA : Type} `{Inhabited SA} (M : SimSetup VA SA PA).
Local Abbreviation S := (ss_S M).
Local Abbreviation N := (ns_N (ss_S M)).
Local Abbreviation T := (ss_T M).
Local Abbreviation V := (ns_vcs (ss_S M)).
Local Abbreviation nodes := (tc_nodes (ss_T M)).
Local Abbreviation subnets := (tc_subnets (ss_T M)).
Local Abbreviation classes := (tc_classes (ss_T M)).
Local Abbreviation TM := (TM VA SA PA).
Implicit Types (tm : TM) (nets : list (Network VA SA PA)).

Context (cfg : Config) (nets : list (Network VA SA PA)) (end_vcs : list Z) (g : Rng) (rd va sa : Z) (spec : bool).
Context (Hinj : 0 < tc_inj_size T) (Hvcs : cfg_num_vcs cfg = V) (Hsplit : even_split cfg) (Hfits : policy_fits cfg) (Hsize : cfg_size cfg = ns_bsize S).
Context (Hlen : zlen nets = subnets) (Hnets : ∀ s, subnet_at M s → fresh S (nets⟦s⟧)) (Hend : zlen end_vcs = classes) (Hg : RngInv.rng_ok g).
Context (Hrd : 0 ≤ rd) (Hva : 0 ≤ va) (Hsa : 0 ≤ sa).
Local Abbreviation latency := (rd + (if spec then Z.max va sa else va + sa)).

(** A node that has not sent anything. *)
Lemma terminal_buf_ok n s : node_at M n → subnet_at M s → returns (terminal_buf cfg latency nets n s) (terminal_ok S n [] []).
Proof.
  intros Hn Hs. unfold terminal_buf. destruct (Hnets s Hs) as [(F1 & F2 & _) _ HC _]. pose proof (proj1 (node_at_range M n) Hn) as Hv. destruct (HC (Inject n) Hv) as [_ _ D1 D2 _ _].
  unfold flit_chan in D1. unfold credit_chan in D2.
  destruct (New_safe cfg (1 + ch_delay (fc_channel (chan_at (nw_flits (nets⟦s⟧)) (Inject n))) + latency + ch_delay (chan_at (nw_credits (nets⟦s⟧)) (Inject n))) Hsplit Hfits) as (bs & -> & I1 & I2 & I3 & I4); [destruct spec; lia|].
  cbn [mbind res_bind]. unfold subnet_at in Hs. rewrite vget_ok by lia. cbn [mbind res_bind]. rewrite !(get_chan_ok N) by done. cbn [mbind res_bind]. apply returns_ok. split; try done.
  - by rewrite I2.
  - by rewrite I3.
  - intros w Hw. destruct (I4 w ltac:(lia)) as [-> _]. done.
  - intros w Hw. destruct (I4 w ltac:(lia)) as [_ E]. unfold is_open. by rewrite E.
Qed.

Lemma bufs_ok : returns (each (λ source, each (terminal_buf cfg latency nets source) (seqZ 0 subnets)) (seqZ 0 nodes)) (λ bufs,
  grid nodes subnets bufs ∧ ∀ n s, node_at M n → subnet_at M s → terminal_ok S n [] [] (at2 bufs n s)).
Proof.
  destruct (sizes_nonneg M) as [Hn _]. pose proof (ss_subnets_pos M) as Hs. assert (∀ m, 0 ≤ m → zlen (seqZ 0 m) = m) as Hz by (intros m Hm; unfold zlen; rewrite length_seqZ; lia).
  assert (∀ m i, 0 ≤ i < m → (seqZ 0 m)⟦i⟧ = i) as Hnth by (intros m i Hi; unfold znth; apply list_lookup_total_correct, lookup_seqZ; lia).
  eapply returns_mono.
  - apply (each_at _ (λ n row, zlen row = subnets ∧ ∀ s, subnet_at M s → terminal_ok S n [] [] (row⟦s⟧))). rewrite Hz by done. intros n Hnn. rewrite Hnth by done.
    eapply returns_mono; [apply (each_at _ (λ s, terminal_ok S n [] []))|]; rewrite Hz by lia; [|done]. intros s Hss. rewrite Hnth by done. by apply terminal_buf_ok.
  - rewrite Hz by done. intros bufs [Hl Hb]. split; [split; [done|]; intros n Hnn; by apply Hb|]. intros n s Hnn Hss. by apply Hb.
Qed.

Lemma New_sim : returns (New T cfg rd va sa spec end_vcs nets g) (λ tm, sim_ok M (λ _, nothing) [] [] tm ∧ tm_time tm = 0).
Proof.
  unfold New. apply returns_assert; [lia|]. rewrite (ss_noq M). cbn [andb]. eapply returns_bind; [apply bufs_ok|]. intros bufs [Hg1 Hb]. apply returns_ok. split; [|done].
  destruct (sizes_nonneg M) as [Hn Hc]. pose proof (ss_subnets_pos M) as Hs. pose proof (ss_classes_pos M) as Hcp.
  assert (∀ k, retired_ids M (λ _ _, []) k = 0) as Hr0 by (intros k; unfold retired_ids, zsum2; rewrite (zsumf_ext _ (λ _, 0)); [apply zsumf_const_0|intros; apply zsumf_const_0]).
  assert (∀ sel, in_flight M [] (λ _ _, []) sel (replicate (Z.to_nat classes) [])) as Hfl.
  { intros sel. split; [apply zlen_replicate; lia|]. intros c Hcc. rewrite znth_replicate by done. split; [constructor|]. intros k. split; [done|]. intros [_ (p & pk & [_ Hp] & _)]. done. }
  pose proof (ss_subnet_len M). split; [|simpl; lia]. split.
  - split; simpl; [split; [constructor|done]|done|done|by compute|constructor].
  - split; simpl.
    + done.
    + apply grid_replicate; lia.
    + intros n s Hnn Hss. by rewrite (proj2 (grid_replicate nodes subnets end_vcs Hn ltac:(lia))).
    + apply grid_replicate; lia.
    + intros n s Hnn Hss. rewrite (proj2 (grid_replicate nodes subnets 0 Hn ltac:(lia))) by done. unfold class_at. lia.
    + apply grid_replicate; lia.
    + intros n s Hnn Hss. by apply Hb.
    + intros n c Hnn Hcc. unfold queue_of. simpl. rewrite (proj2 (grid_replicate nodes classes [] Hn Hc)) by done. split; try done; constructor.
    + intros n c Hnn Hcc f. unfold queue_of. simpl. by rewrite (proj2 (grid_replicate nodes classes [] Hn Hc)).
    + intros n s Hnn Hss. constructor.
    + intros k Hk. change (flits_in []) with 0 in Hk. lia.
  - done.
  - intros s Hss. exists (λ _, []). by apply Hnets.
  - split; simpl; try done.
    + split; [apply zlen_replicate; lia| | |done].
      * intros c Hcc. rewrite znth_replicate by done. constructor.
      * intros c p hd Hcc. by rewrite znth_replicate by done.
    + apply zlen_replicate. lia.
    + apply grid_replicate; lia.
    + intros c d Hcc Hd. rewrite (proj2 (grid_replicate classes nodes [] Hc Hn)) by done. constructor.
    + intros p pk [_ Hp]. done.
  - done.
  - split_and!; simpl; apply grid_replicate; lia.
  - done.
Qed.
End tm.

(** ** Networks with one route *)

(** The options of the traffic manager that are covered. *)
Record tm_options (T : TMConfig) (nodes classes rd : Z) : Prop := {
  to_nodes : tc_nodes T = nodes;
  to_classes : tc_classes T = classes;
  to_classes_pos : 0 < tc_classes T;
  to_subnets_pos : 0 < tc_subnets T;
  to_subnet_len : zlen (tc_subnet T) = tc_classes T;
  to_measure_len : zlen (tc_measure_stats T) = tc_classes T;
  to_subnet : ∀ c, 0 ≤ c < tc_classes T → 0 ≤ (tc_subnet T)⟦c⟧ < tc_subnets T;
  to_noq : tc_noq T = false;
  to_pri : tc_pri_type T ∈ [local_age_based; queue_length_based; hop_count_based; pri_none];
  to_hold : tc_hold_switch_for_packet T = true → tc_subnets T = 1;
  to_lookahead : tc_lookahead_routing T = (rd =? 0)
}.

(** [sg_port r d] is the output of router [r] towards node [d]; [sg_first] and
    [sg_last] are the VCs of a class. *)
Record Steered (VA SA PA : Type) : Type := {
  sg_N : NetConfig;
  sg_T : TMConfig;
  sg_C : Z → IQConfig;
  sg_IV : RouterAllocator VA;
  sg_IS : RouterAllocator SA;
  sg_IP : RouterAllocator PA;
  sg_rf : Router → Flit → Z → OutputSet → bool → Rng → res (OutputSet * Flit * Rng);
  sg_vcs : Z;
  sg_bsize : Z;
  sg_latency : Z;
  sg_rd : Z;
  sg_first : Z → Z;
  sg_last : Z → Z;
  sg_port : Z → Z → Z;
  sg_supported : ∀ r, supported (sg_C r) ∧ q_vcs (sg_C r) = sg_vcs ∧ q_routing_delay (sg_C r) = sg_rd ∧ q_id (sg_C r) = r;
  sg_LV : ∀ r, RouterAllocLaws sg_IV (q_vcs (sg_C r) * q_inputs (sg_C r)) (q_vcs (sg_C r) * q_outputs (sg_C r));
  sg_LS : ∀ r, RouterAllocLaws sg_IS (q_inputs (sg_C r) * q_input_speedup (sg_C r)) (q_outputs (sg_C r) * q_output_speedup (sg_C r));
  sg_wired : wired sg_N;
  sg_nodes : 0 ≤ nc_nodes sg_N;
  sg_routers : ∀ r, 0 ≤ r < nrouters sg_N → (nc_routers sg_N)⟦r⟧ = sg_C r ∧
    zlen ((nc_inputs sg_N)⟦r⟧) = q_inputs (sg_C r) ∧ zlen ((nc_outputs sg_N)⟦r⟧) = q_outputs (sg_C r);
  sg_ranges : ∀ cl, 0 ≤ cl < nc_classes sg_N → 0 ≤ sg_first cl ≤ sg_last cl ∧ sg_last cl < sg_vcs;
  sg_ports : ∀ r d, 0 ≤ r < nrouters sg_N → 0 ≤ d < nc_nodes sg_N → 0 ≤ sg_port r d < q_outputs (sg_C r);
  sg_eject : ∀ r d d', 0 ≤ r < nrouters sg_N → 0 ≤ d < nc_nodes sg_N → out_chan sg_N r (sg_port r d) = Eject d' → d = d';
  sg_route : ∀ r occ f i outs g, 0 ≤ r < nrouters sg_N → 0 ≤ f_dest f < nc_nodes sg_N → 0 ≤ f_cl f < nc_classes sg_N → sg_first (f_cl f) ≤ f_vc f ≤ sg_last (f_cl f) →
    sg_rf (mkRouter r occ ((nc_faults sg_N)⟦r⟧)) f i outs false g = Ok ([SetElement (sg_first (f_cl f)) (sg_last (f_cl f)) 0 (sg_port r (f_dest f))], f, g);
  sg_inject : ∀ f g, f_vc f = -1 → 0 ≤ f_dest f < nc_nodes sg_N → 0 ≤ f_cl f < nc_classes sg_N →
    sg_rf no_router f (-1) [] true g = Ok ([SetElement (sg_first (f_cl f)) (sg_last (f_cl f)) 0 (-1)], f, g);
  sg_tm : tm_options sg_T (nc_nodes sg_N) (nc_classes sg_N) sg_rd
}.
Arguments sg_N {VA SA PA} _.
Arguments sg_T {VA SA PA} _.
Arguments sg_C {VA SA PA} _.
Arguments sg_IV {VA SA PA} _.
Arguments sg_IS {VA SA PA} _.
Arguments sg_IP {VA SA PA} _.
Arguments sg_rf {VA SA PA} _.
Arguments sg_vcs {VA SA PA} _.
Arguments sg_bsize {VA SA PA} _.
Arguments sg_latency {VA SA PA} _.
Arguments sg_rd {VA SA PA} _.
Arguments sg_first {VA SA PA} _.
Arguments sg_last {VA SA PA} _.
Arguments sg_port {VA SA PA} _.
Arguments sg_supported {VA SA PA} _.
Arguments sg_LV {VA SA PA} _.
Arguments sg_LS {VA SA PA} _.
Arguments sg_wired {VA SA PA} _.
Arguments sg_nodes {VA SA PA} _.
Arguments sg_routers {VA SA PA} _.
Arguments sg_ranges {VA SA PA} _.
Arguments sg_ports {VA SA PA} _.
Arguments sg_eject {VA SA PA} _.
Arguments sg_route {VA SA PA} _.
Arguments sg_inject {VA SA PA} _.
Arguments sg_tm {VA SA PA} _.

Section steered.
Context {VA SA PA : Type} (Q : Steered VA SA PA).
Local Abbreviation N := (sg_N Q).
Implicit Types f : Flit.

(** The route of a packet at router [r], and what a head in the network satisfies. *)
Definition route_of (r : Z) f : OutputSet := [SetElement (sg_first Q (f_cl f)) (sg_last Q (f_cl f)) 0 (sg_port Q r (f_dest f))].
Definition lawful f : Prop := 0 ≤ f_dest f < nc_nodes N ∧ 0 ≤ f_cl f < nc_classes N ∧ sg_first Q (f_cl f) ≤ f_vc f ≤ sg_last Q (f_cl f).

Definition steered_accepts (r : Z) f : Prop := 0 ≤ r < nrouters N ∧ lawful f ∧ (sg_rd Q = 0 → f_la_route_set f = route_of r f).
Definition steered_leaves (r o : Z) f : Prop := 0 ≤ r < nrouters N ∧ lawful f ∧ o = sg_port Q r (f_dest f).
Definition steered_passes (r o : Z) f : Prop := steered_leaves r o f ∧
  (sg_rd Q = 0 → ∀ r' i, input_at N r' i → in_chan N r' i = out_chan N r o → f_la_route_set f = route_of r' f).

Lemma route_of_ok r f : 0 ≤ r < nrouters N → lawful f →
  routes_ok (sg_C Q r) (route_of r f) ∧ ∀ o w, offers (route_of r f) o w → steered_leaves r o (leaving w f).
Proof.
  intros Hr (Hd & Hc & Hv). destruct (sg_supported Q r) as (_ & Ev & _). destruct (sg_ranges Q _ Hc). pose proof (sg_ports Q r _ Hr Hd). split.
  - split; [repeat constructor; simpl; lia|]. split; [|done]. intros w _ Hx. by apply Exists_nil in Hx.
  - intros o w Ho. apply Exists_cons in Ho as [[Ho Hw]|Ho]; [|by apply Exists_nil in Ho]. simpl in Ho, Hw. split_and!; try done; simpl; lia.
Qed.

Definition steered_router (r : Z) : Setup VA SA PA.
Proof.
  refine {| su_C := sg_C Q r; su_IV := sg_IV Q; su_IS := sg_IS Q; su_IP := sg_IP Q; su_rf := sg_rf Q; su_faults := (nc_faults N)⟦r⟧;
    su_bsize := sg_bsize Q; su_nsize := sg_bsize Q; accepts := steered_accepts r; leaves := steered_leaves r; passes := steered_passes r;
    su_ok := proj1 (sg_supported Q r); su_LV := sg_LV Q r; su_LS := sg_LS Q r |}.
  - intros f p (Hr & Hl & Hla). done.
  - intros Hrd occ f i rs g _ _ (Hr & Hl & _) _ Hg. pose proof Hl as (Hd & Hc & Hv). destruct (sg_supported Q r) as (_ & _ & _ & ->).
    rewrite (sg_route Q) by done. apply returns_ok. split_and!; try done; by apply route_of_ok.
  - intros Hrd f (Hr & Hl & Hla) _. destruct (sg_supported Q r) as (_ & _ & Erd & _). rewrite Hla by congruence. by apply route_of_ok.
  - intros Hrd o f Hl. split; [done|]. destruct (sg_supported Q r) as (_ & _ & Erd & _). congruence.
Defined.

Definition steered_net : NetSetup VA SA PA.
Proof.
  refine {| ns_N := N; ns_E := steered_router; ns_IV := sg_IV Q; ns_IS := sg_IS Q; ns_IP := sg_IP Q; ns_rf := sg_rf Q; ns_vcs := sg_vcs Q;
    ns_bsize := sg_bsize Q; ns_latency := sg_latency Q; ns_wired := sg_wired Q; ns_nodes := sg_nodes Q |}.
  - rewrite <- (to_classes _ _ _ _ (sg_tm Q)). pose proof (to_classes_pos _ _ _ _ (sg_tm Q)). lia.
  - destruct (sg_supported Q 0) as (Hs & <- & _). apply (sp_vcs _ Hs).
  - intros r Hr. destruct (sg_routers Q r Hr) as (E & _). simpl. by rewrite E.
  - intros r Hr. destruct (sg_routers Q r Hr) as (_ & L1 & L2). destruct (sg_supported Q r) as (_ & Ev & _). done.
  - intros r o r' i f Ho Hi Ec [(Hr & Hl & _) Hla]. split; [apply Hi|]. split; [done|]. intros Hrd. by apply (Hla Hrd r' i).
  - intros r o d f Ho Ec [(Hr & Hl & ->) _]. destruct Hl as (Hd & _). by apply (sg_eject Q r).
  - intros r o f Ho Hrd (Hr & Hl & Eo). destruct (GetSink N (out_chan N r o)) as [[r' i]|] eqn:Es.
    + intros E' occ g _ Hg. pose proof Hl as (Hd & Hc & Hv). destruct (sg_supported Q r') as (_ & _ & _ & Eid). unfold E'. simpl. rewrite Eid.
      destruct (wd_output _ (sg_wired Q) r o Ho) as (Hval & _).
      assert (to_router (out_chan N r o)) as Ht by (destruct (out_chan N r o) eqn:E; try done; by rewrite (wd_eject _ (sg_wired Q)) in Es).
      destruct (wd_sink _ (sg_wired Q) _ Hval Ht) as (r2 & i2 & Hi2 & E2). destruct (wd_input _ (sg_wired Q) r2 i2 Hi2) as (_ & _ & Es2). rewrite E2, Es in Es2. injection Es2 as -> ->.
      rewrite (sg_route Q) by (done || apply Hi2). apply returns_ok. split_and!; try done. split; [done|]. intros _ r3 i3 Hi3 E3.
      destruct (wd_input _ (sg_wired Q) r3 i3 Hi3) as (_ & _ & Es3). rewrite E3, Es in Es3. by injection Es3 as <- <-.
    + split; [done|]. intros _ r' i Hi E. destruct (wd_input _ (sg_wired Q) r' i Hi) as (_ & _ & Es'). congruence.
Defined.

Definition steered_sim : SimSetup VA SA PA.
Proof.
  refine {| ss_S := steered_net; ss_T := sg_T Q; ss_enters := λ _ f, lawful f; ss_nodes := to_nodes _ _ _ _ (sg_tm Q); ss_classes := to_classes _ _ _ _ (sg_tm Q); ss_classes_pos := to_classes_pos _ _ _ _ (sg_tm Q);
    ss_subnets_pos := to_subnets_pos _ _ _ _ (sg_tm Q); ss_subnet_len := to_subnet_len _ _ _ _ (sg_tm Q); ss_measure_len := to_measure_len _ _ _ _ (sg_tm Q); ss_subnet := to_subnet _ _ _ _ (sg_tm Q); ss_noq := to_noq _ _ _ _ (sg_tm Q); ss_pri := to_pri _ _ _ _ (sg_tm Q); ss_hold := to_hold _ _ _ _ (sg_tm Q) |}.
  - intros n f g Hn [B1 B2 B3 B4 B5 B6] Hg. simpl in *. rewrite (sg_inject Q) by done. destruct (sg_ranges Q _ B4). apply returns_ok. split_and!; try done. eexists. split; [done|]. simpl. split_and!; try done; try lia.
  - intros Hla n f t Hn Hl r i Hi Ec. simpl. rewrite (to_lookahead _ _ _ _ (sg_tm Q)) in Hla. split; [apply Hi|]. split; [done|]. lia.
  - intros Hla n f r i occ g Hn Hl Hi Ec _ Hg. simpl in *. pose proof Hl as (Hd & Hc & Hv). destruct (sg_supported Q r) as (_ & _ & _ & ->).
    rewrite (sg_route Q) by (done || apply Hi). apply returns_ok. split_and!; try done. intros t r' i' Hi' Ec'. simpl. split; [apply Hi'|]. split; [done|]. intros _. simpl.
    destruct (wd_input _ (sg_wired Q) r i Hi) as (_ & _ & E1). destruct (wd_input _ (sg_wired Q) r' i' Hi') as (_ & _ & E2). rewrite Ec in E1. rewrite Ec' in E2. rewrite E1 in E2. by injection E2 as <- <-.
Defined.
End steered.

(** ** Construction *)

(** What the routers, the channels and the nodes are built from.  [as_out_latencies]
    are the latencies of a router's outputs when they are connected. *)
Record Assembly (VA SA : Type) : Type := mkAssembly {
  as_cfg : Config;
  as_pri : ePrioType;
  as_donation : bool;
  as_va : Z → VA;
  as_sa : Z → SA;
  as_rng : Rng;
  as_latencies : list (chan_id * (Z * Z));
  as_out_latencies : Z → list (Z * Z);
  as_end_vcs : list Z
}.
Arguments as_cfg {VA SA} _.
Arguments as_pri {VA SA} _.
Arguments as_donation {VA SA} _.
Arguments as_va {VA SA} _.
Arguments as_sa {VA SA} _.
Arguments as_rng {VA SA} _.
Arguments as_latencies {VA SA} _.
Arguments as_out_latencies {VA SA} _.
Arguments as_end_vcs {VA SA} _.

Section start.
Context {VA SA PA : Type} `{Inhabited SA} (Q : Steered VA SA PA) (A : Assembly VA SA).
Local Abbreviation N := (sg_N Q).
Local Abbreviation T := (sg_T Q).
Local Abbreviation M := (steered_sim Q).

Record assembly_ok : Prop := {
  ao_inj : 0 < tc_inj_size T;
  ao_channels : 0 ≤ nc_channels N;
  ao_latency : 1 ≤ sg_latency Q;
  ao_rd : 0 ≤ sg_rd Q;
  ao_vcs : cfg_num_vcs (as_cfg A) = sg_vcs Q;
  ao_split : even_split (as_cfg A);
  ao_fits : policy_fits (as_cfg A);
  ao_size : cfg_size (as_cfg A) = sg_bsize Q;
  ao_va : ∀ r, 0 ≤ r < nrouters N → rl_opened (sg_LV Q r) (i_Clear (ra_I (sg_IV Q)) (as_va A r)) no_requests;
  ao_sa : ∀ r, 0 ≤ r < nrouters N → rl_opened (sg_LS Q r) (i_Clear (ra_I (sg_IS Q)) (as_sa A r)) no_requests;
  ao_rng : RngInv.rng_ok (as_rng A);
  ao_latencies : Forall (λ x, valid_chan N x.1 ∧ 0 < x.2.1 ≤ sg_latency Q ∧ 0 < x.2.2 ≤ sg_latency Q) (as_latencies A);
  ao_outs : ∀ r, 0 ≤ r < nrouters N → zlen (as_out_latencies A r) = q_outputs (sg_C Q r) ∧ Forall (λ l, 0 ≤ l.1 ∧ 0 ≤ l.2) (as_out_latencies A r);
  ao_end_vcs : zlen (as_end_vcs A) = tc_classes T
}.

(** A subnetwork, and the traffic manager on its subnetworks. *)
Definition assemble_net : res (Network VA SA PA) :=
  routers ← each (λ r, built (steered_router Q r) (as_cfg A) (as_pri A) (as_donation A) (as_va A r) (as_sa A r) (as_rng A) (as_out_latencies A r)) (seqZ 0 (nrouters N));
  set_all_latencies (as_latencies A) (Alloc N routers).

Definition assemble : res (TM VA SA PA) :=
  nets ← each (λ _, assemble_net) (seqZ 0 (tc_subnets T));
  New T (as_cfg A) (sg_rd Q) 1 1 false (as_end_vcs A) nets (as_rng A).

(** A run from construction. *)
Definition simulate (cs : list Call) : res (list Answer * TM VA SA PA) := tm ← assemble; serve_all M cs tm.

Context (HA : assembly_ok).

Lemma assemble_net_ok : returns assemble_net (fresh (steered_net Q)).
Proof.
  destruct HA as [A1 A2 A3 A4 A5 A6 A7 A8 A9 A10 A11 A12 A13 A14]. assert (0 ≤ nrouters N) as Hn by apply zlen_nonneg. pose proof (es_size _ A6).
  eapply returns_bind; [apply (each_at _ (λ r, tracks (steered_router Q r) 0 no_history []))|].
  - intros r Hr. unfold zlen in Hr. rewrite length_seqZ in Hr. replace ((seqZ 0 (nrouters N))⟦r⟧) with r by (symmetry; unfold znth; apply list_lookup_total_correct, lookup_seqZ; lia).
    destruct (A13 r ltac:(lia)). destruct (sg_supported Q r) as (_ & Ev & _). apply built_ok. split; try done; [simpl; congruence|apply A9; lia|apply A10; lia].
  - intros routers [Hl Hr]. unfold zlen in Hl at 2, Hr. rewrite length_seqZ in Hl, Hr. apply latencies_fresh; [|done]. apply Alloc_fresh; try done; [simpl; lia|simpl; lia|].
    intros r Hrr. apply Hr. simpl in Hrr. lia.
Qed.

Lemma assemble_ok : returns assemble (λ tm, sim_ok M (λ _, nothing) [] [] tm ∧ tm_time tm = 0).
Proof.
  pose proof (to_subnets_pos _ _ _ _ (sg_tm Q)). eapply returns_bind; [apply (each_at _ (λ _, fresh (steered_net Q))); intros; apply assemble_net_ok|]. intros nets [Hl Hn]. unfold zlen in Hl at 2, Hn. rewrite length_seqZ in Hl, Hn.
  destruct HA as [A1 A2 A3 A4 A5 A6 A7 A8 A9 A10 A11 A12 A13 A14]. apply (New_sim M); try done; [simpl; lia|]. intros s Hs. unfold subnet_at in Hs. simpl in Hs. apply Hn. lia.
Qed.

Lemma simulate_ok cs : Forall (permitted M) cs → zsum (cycles_in <$> cs) + sg_latency Q ≤ int_max → zsum (packets_in <$> cs) ≤ int_max + 1 →
  returns (simulate cs) (λ '(as_, tm), ∃ X L D, sim_ok M X L D tm ∧ serves_all (tc_inj_size T) (mkService [] []) cs as_ (service_of L D) ∧ zlen L ≤ zsum (packets_in <$> cs)).
Proof.
  intros Hc Ht Hp. eapply returns_bind; [apply assemble_ok|]. intros tm [H0 Et]. pose proof (ao_latency HA). apply (serve_all_ok M (ao_channels HA) cs (λ _, nothing) [] []); try done. rewrite Et. simpl. lia.
Qed.
End start.
