(* ===== verification/Simulators.v ===== *)
(** * Simulators

    The meshes with dimension-order routing and the networks that [AnyNet] reads
    from a file are covered by [Steered]: a simulation of one, from construction, is
    a packet service. *)

From S2P Require Import Prelude StdMap OutputSet Flit VCBuffer BufferState BufferStateInv Credits Link Channel Arbiter Allocator AllocLaws AllocStore Rng Islip KNCube Route Mesh MeshRouting Dijkstra AnyNet AnyNetWiring AnyNetFile AnyNetRouting AnyNetTheorems SwitchAlloc IQRouter IQSwitch Wormhole RouterInv RouterQueues RouterStages RouterRoute RouterVCAlloc RouterSwitchAlloc RouterSend RouterSwitch RouterStep RouterRun RouterSpec RouterFlow Network TrafficManager NetChannels NetworkInv NetworkRun NetworkSpec Packets Terminal SimInv SimNodes Retire SimStep SimInterface SimSpec Steered.
Import CoreOps Credits Link NetworkOps TMOps.

(** ** Where a channel leads *)

Section ports.
Context (rows : list (list chan_id)).
Definition port (r i : Z) : Prop := 0 ≤ r < zlen rows ∧ 0 ≤ i < zlen (rows⟦r⟧).

Lemma elem_indexed_at {A : Type} `{Inhabited A} (l : list A) i x : (i, x) ∈ indexed l ↔ 0 ≤ i < zlen l ∧ l⟦i⟧ = x.
Proof.
  rewrite elem_indexed. unfold znth, zlen. split.
  - intros [Hi Hx]. pose proof (lookup_lt_Some _ _ _ Hx). split; [lia|]. by apply list_lookup_total_correct.
  - intros [Hi <-]. split; [lia|]. apply list_lookup_lookup_total_lt. lia.
Qed.

Lemma elem_ports c r i : (c, (r, i)) ∈ ports_of rows ↔ port r i ∧ rows⟦r⟧⟦i⟧ = c.
Proof.
  unfold ports_of. rewrite list_elem_of_bind. split.
  - intros ([r' row] & Hx & Hr%elem_indexed_at). destruct Hr as [Hr <-]. apply list_elem_of_bind in Hx as ([i' c'] & Hx & Hi%elem_indexed_at). destruct Hi as [Hi <-].
    apply list_elem_of_singleton in Hx as [= -> -> ->]. done.
  - intros [[Hr Hi] <-]. exists (r, rows⟦r⟧). split; [|by apply elem_indexed_at]. apply list_elem_of_bind. exists (i, rows⟦r⟧⟦i⟧). split; [by apply list_elem_of_singleton|by apply elem_indexed_at].
Qed.

Lemma same_chan_eq c c' : same_chan c c' = true ↔ c = c'.
Proof. destruct c, c'; simpl; rewrite ?Z.eqb_eq; split; congruence. Qed.

Lemma port_of_Some c r i : port_of rows c = Some (r, i) → port r i ∧ rows⟦r⟧⟦i⟧ = c.
Proof.
  unfold port_of. intros E. destruct (List.filter _ _) as [|[c' [r' i']] l] eqn:El; [done|]. injection E as -> ->.
  assert (List.In (c', (r, i)) (List.filter (λ x : chan_id * (Z * Z), same_chan c x.1) (ports_of rows))) as Hin by (rewrite El; by left).
  apply filter_In in Hin as [Hin Hs]. apply same_chan_eq in Hs. simpl in Hs. subst c'. by apply elem_ports, list_elem_of_In.
Qed.

Lemma port_of_found r i : port r i → is_Some (port_of rows (rows⟦r⟧⟦i⟧)).
Proof.
  intros Hp. unfold port_of. destruct (List.filter _ _) as [|x l] eqn:El; [|done]. exfalso.
  assert (List.In (rows⟦r⟧⟦i⟧, (r, i)) (List.filter (λ x : chan_id * (Z * Z), same_chan (rows⟦r⟧⟦i⟧) x.1) (ports_of rows))) as Hin; [|by rewrite El in Hin].
  apply filter_In. split; [apply list_elem_of_In; by apply elem_ports|by apply same_chan_eq].
Qed.

(** When a channel is one port only, that is the one found. *)
Context (Hinj : ∀ r i r' i', port r i → port r' i' → rows⟦r⟧⟦i⟧ = rows⟦r'⟧⟦i'⟧ → r = r' ∧ i = i').

Lemma port_of_at r i : port r i → port_of rows (rows⟦r⟧⟦i⟧) = Some (r, i).
Proof.
  intros Hp. destruct (port_of_found r i Hp) as [[r' i'] E]. destruct (port_of_Some _ _ _ E) as [Hp' Ec]. destruct (Hinj r' i' r i Hp' Hp Ec) as [-> ->]. done.
Qed.
End ports.

Lemma wired_ports (N : NetConfig) :
  zlen (nc_faults N) = nrouters N → zlen (nc_inputs N) = nrouters N → zlen (nc_outputs N) = nrouters N →
  (∀ r i, input_at N r i → valid_chan N (in_chan N r i) ∧ to_router (in_chan N r i)) →
  (∀ r o, output_at N r o → valid_chan N (out_chan N r o) ∧ from_router (out_chan N r o)) →
  (∀ r i r' i', input_at N r i → input_at N r' i' → in_chan N r i = in_chan N r' i' → r = r' ∧ i = i') →
  (∀ r i r' i', output_at N r i → output_at N r' i' → out_chan N r i = out_chan N r' i' → r = r' ∧ i = i') →
  (∀ c, valid_chan N c → to_router c → ∃ r i, input_at N r i ∧ in_chan N r i = c) →
  (∀ c, valid_chan N c → from_router c → ∃ r o, output_at N r o ∧ out_chan N r o = c) → wired N.
Proof.
  intros L1 L2 L3 Hi Ho Ii Io Hs Hd.
  assert (∀ r i, input_at N r i ↔ port (nc_inputs N) r i) as Pi by (intros; unfold input_at, port; by rewrite L2).
  assert (∀ r i, output_at N r i ↔ port (nc_outputs N) r i) as Po by (intros; unfold output_at, port; by rewrite L3).
  split; try done.
  - intros r i Hp. destruct (Hi r i Hp). split_and!; [done..|]. apply port_of_at; [|by apply Pi]. intros r1 i1 r2 i2 H1%Pi H2%Pi. by apply Ii.
  - intros r o Hp. destruct (Ho r o Hp). split_and!; [done..|]. apply port_of_at; [|by apply Po]. intros r1 i1 r2 i2 H1%Po H2%Po. by apply Io.
  - intros d. unfold GetSink. destruct (port_of (nc_inputs N) (Eject d)) as [[r i]|] eqn:E; [|done]. destruct (port_of_Some _ _ _ _ E) as [Hp Ec]. apply Pi in Hp. destruct (Hi r i Hp) as [_ Ht].
    unfold in_chan in Ht. rewrite Ec in Ht. by destruct Ht.
Qed.

(** ** Routers of a network *)

(** The router options, for router [r] with its numbers of ports. *)
Definition with_ports (C : IQConfig) (r inputs outputs : Z) : IQConfig :=
  mkIQConfig r inputs outputs (q_classes C) (q_vcs C) (q_input_speedup C) (q_output_speedup C) (q_internal_speedup C) (q_crossbar_delay C) (q_credit_delay C)
    (q_routing_delay C) (q_vc_alloc_delay C) (q_sw_alloc_delay C) (q_output_buffer_size C) (q_vc_busy_when_full C) (q_vc_prioritize_empty C)
    (q_vc_shuffle_requests C) (q_speculative C) (q_spec_check_elig C) (q_spec_check_cred C) (q_spec_mask_by_reqs C) (q_hold_switch_for_packet C) (q_noq C).

Lemma supported_ports C r ins outs : supported C → 0 < ins → 0 < outs → ins * q_vcs C ≤ int_max → supported (with_ports C r ins outs).
Proof. intros [] **. by split. Qed.

Lemma znth_map_seq {A : Type} `{Inhabited A} (F : Z → A) m i : 0 ≤ i < m → (F <$> seqZ 0 m)⟦i⟧ = F i.
Proof. intros Hi. unfold znth. apply list_lookup_total_correct. rewrite list_lookup_fmap, (proj2 (lookup_seqZ 0 m (Z.to_nat i) i)) by lia. done. Qed.

Lemma zlen_map_seq {A : Type} (F : Z → A) m : 0 ≤ m → zlen (F <$> seqZ 0 m) = m.
Proof. intros Hm. unfold zlen. rewrite length_fmap, length_seqZ. lia. Qed.

(** ** Meshes *)

(** A k-ary n-mesh with [dim_order_mesh]; the wiring is what [KNCube] builds. *)
Record MeshOptions (VA SA PA : Type) : Type := {
  me_k : Z;
  me_n : Z;
  me_begin_vcs : list Z;
  me_end_vcs : list Z;
  me_C : IQConfig;
  me_T : TMConfig;
  me_IV : RouterAllocator VA;
  me_IS : RouterAllocator SA;
  me_IP : RouterAllocator PA;
  me_bsize : Z;
  me_noc_latency : bool;
  me_wiring : Wiring;
  me_k_pos : 0 < me_k;
  me_n_nonneg : 0 ≤ me_n;
  me_built : (net ← KNCubeOps.ComputeSize me_k me_n true; KNCubeOps.BuildNet net me_noc_latency) = Ok me_wiring;
  me_supported : supported me_C;
  me_ports : (2 * me_n + 1) * q_vcs me_C ≤ int_max;
  me_LV : RouterAllocLaws me_IV (q_vcs me_C * (2 * me_n + 1)) (q_vcs me_C * (2 * me_n + 1));
  me_LS : RouterAllocLaws me_IS ((2 * me_n + 1) * q_input_speedup me_C) ((2 * me_n + 1) * q_output_speedup me_C);
  me_begin_len : zlen me_begin_vcs = tc_classes me_T;
  me_end_len : zlen me_end_vcs = tc_classes me_T;
  me_ranges : ∀ cl, 0 ≤ cl < tc_classes me_T → 0 ≤ me_begin_vcs⟦cl⟧ ≤ me_end_vcs⟦cl⟧ ∧ me_end_vcs⟦cl⟧ < q_vcs me_C;
  me_tm : tm_options me_T (me_k ^ me_n) (tc_classes me_T) (q_routing_delay me_C)
}.
Arguments me_k {VA SA PA} _.
Arguments me_n {VA SA PA} _.
Arguments me_begin_vcs {VA SA PA} _.
Arguments me_end_vcs {VA SA PA} _.
Arguments me_C {VA SA PA} _.
Arguments me_T {VA SA PA} _.
Arguments me_IV {VA SA PA} _.
Arguments me_IS {VA SA PA} _.
Arguments me_IP {VA SA PA} _.
Arguments me_bsize {VA SA PA} _.
Arguments me_noc_latency {VA SA PA} _.
Arguments me_wiring {VA SA PA} _.
Arguments me_k_pos {VA SA PA} _.
Arguments me_n_nonneg {VA SA PA} _.
Arguments me_built {VA SA PA} _.
Arguments me_supported {VA SA PA} _.
Arguments me_ports {VA SA PA} _.
Arguments me_LV {VA SA PA} _.
Arguments me_LS {VA SA PA} _.
Arguments me_begin_len {VA SA PA} _.
Arguments me_end_len {VA SA PA} _.
Arguments me_ranges {VA SA PA} _.
Arguments me_tm {VA SA PA} _.

Section mesh.
Context {VA SA PA : Type} (O : MeshOptions VA SA PA).
Local Abbreviation k := (me_k O).
Local Abbreviation n := (me_n O).
Local Abbreviation size := (k ^ n).

Definition mesh_globals : Globals := mkGlobals k n size (me_begin_vcs O) (me_end_vcs O).
Definition mesh_cube : KNCube := mkKNCube k n true size (2 * n * size).
Local Abbreviation G := mesh_globals.
Local Abbreviation cube := mesh_cube.

Definition mesh_router (r : Z) : IQConfig := with_ports (me_C O) r (2 * n + 1) (2 * n + 1).
Definition mesh_net : NetConfig :=
  mkNetConfig size (2 * n * size) (tc_classes (me_T O)) (mesh_router <$> seqZ 0 size) (replicate (Z.to_nat size) (replicate (Z.to_nat (2 * n + 1)) false))
    (wi_inputs (me_wiring O)) (wi_outputs (me_wiring O)).
Local Abbreviation N := mesh_net.

(** The dimension-order output. *)
Definition mesh_port (r d : Z) : Z := match RouteOps.dor_next_mesh G r d false with Ok p => p | _ => 0 end.

Lemma mesh_globals_ok : mesh_ok G.
Proof. split_and!; [apply (me_k_pos O)|apply (me_n_nonneg O)|done]. Qed.

Lemma mesh_cube_ok : KNCubeInv.net_ok cube.
Proof. split_and!; [apply (me_k_pos O)|apply (me_n_nonneg O)|done|done]. Qed.

Lemma mesh_size_pos : 0 < size.
Proof. apply pow_pos; [apply (me_k_pos O)|apply (me_n_nonneg O)]. Qed.

Lemma mesh_wiring_ok : zlen (wi_inputs (me_wiring O)) = size ∧ zlen (wi_outputs (me_wiring O)) = size ∧
  (∀ x, 0 ≤ x < size → (wi_inputs (me_wiring O))⟦x⟧ = KNCubeInv.in_ports cube x n ++ [Inject x] ∧ (wi_outputs (me_wiring O))⟦x⟧ = KNCubeInv.out_ports cube x n ++ [Eject x]) ∧
  ∀ c, 0 ≤ c < 2 * n * size → (wi_latency (me_wiring O))⟦c⟧ = 1 ∧ (wi_cred_latency (me_wiring O))⟦c⟧ = 1.
Proof.
  pose proof (me_built O) as Hb. unfold KNCubeOps.ComputeSize in Hb. rewrite KNCubeInv.powi_ok in Hb by apply (me_n_nonneg O). cbn [mbind res_bind] in Hb.
  destruct (KNCubeInv.BuildNet_ok cube mesh_cube_ok (me_noc_latency O)) as (w & Ew & L1 & L2 & Hw & Hl). unfold mesh_cube in Ew. rewrite Ew in Hb. injection Hb as <-.
  split_and!; [done..|]. intros c Hc. destruct (Hl c Hc) as [-> ->]. by destruct (me_noc_latency O).
Qed.

Lemma mesh_rows x : 0 ≤ x < size → zlen ((wi_inputs (me_wiring O))⟦x⟧) = 2 * n + 1 ∧ zlen ((wi_outputs (me_wiring O))⟦x⟧) = 2 * n + 1.
Proof.
  intros Hx. destruct mesh_wiring_ok as (_ & _ & Hw & _). destruct (Hw x Hx) as [-> ->]. destruct (KNCubeInv.port_lists cube x (me_n_nonneg O)) as (H1 & H2 & _). done.
Qed.

Lemma mesh_nrouters : nrouters N = size.
Proof. pose proof mesh_size_pos. unfold nrouters. simpl. apply zlen_map_seq. lia. Qed.

(** The channels at the ports of router [x]. *)
Lemma mesh_chans x : 0 ≤ x < size → in_chan N x (2 * n) = Inject x ∧ out_chan N x (2 * n) = Eject x ∧ ∀ d, 0 ≤ d < n →
  out_chan N x (2 * d) = Chan (2 * n * x + 2 * d) ∧ out_chan N x (2 * d + 1) = Chan (2 * n * x + (2 * d + 1)) ∧
  in_chan N x (2 * d) = Chan (2 * n * KNCubeInv.right_of cube x d + (2 * d + 1)) ∧ in_chan N x (2 * d + 1) = Chan (2 * n * KNCubeInv.left_of cube x d + 2 * d).
Proof.
  intros Hx. destruct mesh_wiring_ok as (_ & _ & Hw & _). unfold in_chan, out_chan. simpl. destruct (Hw x Hx) as [-> ->].
  destruct (KNCubeInv.port_lists cube x (me_n_nonneg O)) as (_ & _ & H3 & H4 & H5). done.
Qed.

Lemma port_cases p : 0 ≤ p < 2 * n + 1 → (∃ d, 0 ≤ d < n ∧ p = 2 * d) ∨ (∃ d, 0 ≤ d < n ∧ p = 2 * d + 1) ∨ p = 2 * n.
Proof.
  intros Hp. pose proof (Z.div_mod p 2 ltac:(lia)). pose proof (Z.mod_pos_bound p 2 ltac:(lia)). destruct (decide (p = 2 * n)); [by right; right|].
  destruct (decide (p mod 2 = 0)); [left|right; left]; exists (p / 2); lia.
Qed.

Lemma chan_digits x p x' p' : 0 ≤ p < 2 * n → 0 ≤ p' < 2 * n → 2 * n * x + p = 2 * n * x' + p' → x = x' ∧ p = p'.
Proof. intros Hp Hp' E. assert (x = x') as -> by nia. split; [done|lia]. Qed.

Lemma mesh_input x i : input_at N x i ↔ 0 ≤ x < size ∧ 0 ≤ i < 2 * n + 1.
Proof. unfold input_at. rewrite mesh_nrouters. split; intros [Hx Hi]; destruct (mesh_rows x Hx) as [E _]; simpl in *; rewrite E in *; done. Qed.

Lemma mesh_output x o : output_at N x o ↔ 0 ≤ x < size ∧ 0 ≤ o < 2 * n + 1.
Proof. unfold output_at. rewrite mesh_nrouters. split; intros [Hx Hi]; destruct (mesh_rows x Hx) as [_ E]; simpl in *; rewrite E in *; done. Qed.

Lemma mesh_out x o : 0 ≤ x < size → 0 ≤ o < 2 * n + 1 → out_chan N x o = if decide (o = 2 * n) then Eject x else Chan (2 * n * x + o).
Proof.
  intros Hx Ho. destruct (mesh_chans x Hx) as (_ & He & Hd). destruct (port_cases o Ho) as [(d & Hdn & ->)|[(d & Hdn & ->)| ->]].
  - rewrite decide_False by lia. apply (Hd d Hdn).
  - rewrite decide_False by lia. apply (Hd d Hdn).
  - by rewrite decide_True.
Qed.

(** An input is the output of the neighbour on the other side. *)
Lemma mesh_in x i : 0 ≤ x < size → 0 ≤ i < 2 * n + 1 →
  if decide (i = 2 * n) then in_chan N x i = Inject x
  else ∃ d y p, 0 ≤ d < n ∧ 0 ≤ y < size ∧ 0 ≤ p < 2 * n ∧ in_chan N x i = Chan (2 * n * y + p) ∧
    (i = 2 * d ∧ p = 2 * d + 1 ∧ x = KNCubeInv.left_of cube y d ∨ i = 2 * d + 1 ∧ p = 2 * d ∧ x = KNCubeInv.right_of cube y d).
Proof.
  intros Hx Hi. destruct (mesh_chans x Hx) as (He & _ & Hc). pose proof mesh_cube_ok as HC. destruct (port_cases i Hi) as [(d & Hd & ->)|[(d & Hd & ->)| ->]].
  - rewrite decide_False by lia. exists d, (KNCubeInv.right_of cube x d), (2 * d + 1). destruct (Hc d Hd) as (_ & _ & E & _).
    pose proof (KNCubeInv.right_of_range cube HC x d Hx Hd) as Hr. simpl in Hr. pose proof (KNCubeInv.left_right cube HC x d Hx Hd). split_and!; done || lia.
  - rewrite decide_False by lia. exists d, (KNCubeInv.left_of cube x d), (2 * d). destruct (Hc d Hd) as (_ & _ & _ & E).
    pose proof (KNCubeInv.left_of_range cube HC x d Hx Hd) as Hr. simpl in Hr. pose proof (KNCubeInv.right_left cube HC x d Hx Hd). split_and!; done || lia.
  - by rewrite decide_True.
Qed.

Lemma mesh_inputs_inj x i x' i' : 0 ≤ x < size → 0 ≤ i < 2 * n + 1 → 0 ≤ x' < size → 0 ≤ i' < 2 * n + 1 → in_chan N x i = in_chan N x' i' → x = x' ∧ i = i'.
Proof.
  intros Hx Hi Hx' Hi' E. pose proof (mesh_in x i Hx Hi) as H1. pose proof (mesh_in x' i' Hx' Hi') as H2. destruct (decide (i = 2 * n)) as [->|Hne], (decide (i' = 2 * n)) as [->|Hne'].
  - rewrite H1, H2 in E. by injection E as ->.
  - destruct H2 as (d & y & p & _ & _ & _ & H2 & _). congruence.
  - destruct H1 as (d & y & p & _ & _ & _ & H1 & _). congruence.
  - destruct H1 as (d & y & p & Hd & _ & Hp & E1 & C1), H2 as (d' & y' & p' & Hd' & _ & Hp' & E2 & C2). rewrite E1, E2 in E. injection E as E. destruct (chan_digits y p y' p' Hp Hp' E) as [<- <-].
    destruct C1 as [(-> & -> & ->)|(-> & -> & ->)], C2 as [(-> & ? & ->)|(-> & ? & ->)]; try lia; assert (d' = d) as -> by lia; done.
Qed.

Lemma mesh_chan_onto c : 0 ≤ c < 2 * n * size → ∃ x p, 0 ≤ x < size ∧ 0 ≤ p < 2 * n ∧ c = 2 * n * x + p.
Proof.
  intros Hc. destruct (KNCubeInv.channel_onto cube mesh_cube_ok c Hc) as (x & d & Hx & Hd & [->| ->]); unfold KNCubeOps.RightChannel, KNCubeOps.LeftChannel; simpl in *;
    [exists x, (2 * d)|exists x, (2 * d + 1)]; split_and!; lia.
Qed.

Lemma mesh_wired : wired N.
Proof.
  pose proof mesh_size_pos as Hs. pose proof (me_n_nonneg O) as Hn. pose proof mesh_cube_ok as HC. destruct mesh_wiring_ok as (L1 & L2 & _).
  assert (∀ x p, 0 ≤ x < size → 0 ≤ p < 2 * n → 0 ≤ 2 * n * x + p < 2 * n * size) as Hr by (intros x p Hx Hp; nia).
  apply wired_ports; rewrite ?mesh_nrouters; try done.
  - apply zlen_replicate. lia.
  - intros x i [Hx Hi]%mesh_input. pose proof (mesh_in x i Hx Hi) as H1. case_decide; [by rewrite H1|]. destruct H1 as (d & y & p & _ & Hy & Hp & -> & _). split; [by apply Hr|done].
  - intros x o [Hx Ho]%mesh_output. rewrite (mesh_out x o Hx Ho). case_decide; [done|]. split; [apply Hr; [done|lia]|done].
  - intros x i x' i' [Hx Hi]%mesh_input [Hx' Hi']%mesh_input. by apply mesh_inputs_inj.
  - intros x o x' o' [Hx Ho]%mesh_output [Hx' Ho']%mesh_output. rewrite !mesh_out by done. repeat case_decide; try done; intros [= E]; [by subst|]. apply chan_digits; [lia..|done].
  - intros [c|m|m] Hc Ht; [|exists m, (2 * n)|by destruct Ht].
    + destruct (mesh_chan_onto c Hc) as (x & p & Hx & Hp & ->). destruct (port_cases p ltac:(lia)) as [(d & Hd & ->)|[(d & Hd & ->)|?]]; [| |lia].
      * exists (KNCubeInv.right_of cube x d), (2 * d + 1). pose proof (KNCubeInv.right_of_range cube HC x d Hx Hd) as Hy. split; [apply mesh_input; split; [done|lia]|].
        destruct (mesh_chans _ Hy) as (_ & _ & H5). destruct (H5 d Hd) as (_ & _ & _ & ->). by rewrite (KNCubeInv.left_right cube HC x d Hx Hd).
      * exists (KNCubeInv.left_of cube x d), (2 * d). pose proof (KNCubeInv.left_of_range cube HC x d Hx Hd) as Hy. split; [apply mesh_input; split; [done|lia]|].
        destruct (mesh_chans _ Hy) as (_ & _ & H5). destruct (H5 d Hd) as (_ & _ & -> & _). by rewrite (KNCubeInv.right_left cube HC x d Hx Hd).
    + split; [apply mesh_input; split; [done|lia]|]. by destruct (mesh_chans m Hc) as (-> & _).
  - intros [c|m|m] Hc Ht; [|by destruct Ht|exists m, (2 * n)].
    + destruct (mesh_chan_onto c Hc) as (x & p & Hx & Hp & ->). exists x, p. split; [apply mesh_output; split; [done|lia]|]. rewrite mesh_out, decide_False by lia. done.
    + split; [apply mesh_output; split; [done|lia]|]. by destruct (mesh_chans m Hc) as (_ & -> & _).
Qed.

Lemma mesh_port_ok r d : 0 ≤ r < size → 0 ≤ d < size →
  RouteOps.dor_next_mesh G r d false = Ok (mesh_port r d) ∧ 0 ≤ mesh_port r d < 2 * n + 1 ∧ (mesh_port r d = 2 * n → r = d).
Proof.
  intros Hr Hd. pose proof (me_n_nonneg O). destruct (dor_next_mesh_ok G mesh_globals_ok r d false Hr Hd) as (p & E & Hp). unfold mesh_port. rewrite E. split; [done|].
  destruct (decide (r = d)) as [->|Hne]; [subst p; simpl; split; [lia|done]|]. destruct Hp as (j & (Hj & _) & ->). pose proof (port_to_range G r d j Hj). simpl in *. lia.
Qed.

Lemma mesh_class cl : 0 ≤ cl < tc_classes (me_T O) → class_ok G cl.
Proof. intros Hc. destruct (me_ranges O cl Hc). unfold class_ok, first_vc, last_vc. simpl. rewrite (me_begin_len O), (me_end_len O). split_and!; lia. Qed.

Definition mesh_steered : Steered VA SA PA.
Proof.
  refine {| sg_N := N; sg_T := me_T O; sg_C := mesh_router; sg_IV := me_IV O; sg_IS := me_IS O; sg_IP := me_IP O; sg_rf := RouteOps.dim_order_mesh G; sg_vcs := q_vcs (me_C O);
    sg_bsize := me_bsize O; sg_latency := 1; sg_rd := q_routing_delay (me_C O); sg_first := λ cl, (me_begin_vcs O)⟦cl⟧; sg_last := λ cl, (me_end_vcs O)⟦cl⟧; sg_port := mesh_port;
    sg_LV := λ _, me_LV O; sg_LS := λ _, me_LS O; sg_wired := mesh_wired; sg_tm := me_tm O |}.
  - intros r. pose proof (me_n_nonneg O). split_and!; try done. apply supported_ports; [apply (me_supported O)|lia|lia|apply (me_ports O)].
  - simpl. pose proof mesh_size_pos. lia.
  - intros r Hr. rewrite mesh_nrouters in Hr. destruct (mesh_rows r Hr) as [E1 E2]. split_and!; [by apply znth_map_seq|exact E1|exact E2].
  - apply (me_ranges O).
  - intros r d Hr Hd. rewrite mesh_nrouters in Hr. by apply mesh_port_ok.
  - intros r d d' Hr Hd. rewrite mesh_nrouters in Hr. destruct (mesh_port_ok r d Hr Hd) as (_ & Hp & He). rewrite mesh_out by done. case_decide as E; [|done]. intros [= <-]. by rewrite He.
  - intros r occ f i outs g Hr Hd Hc Hv. rewrite mesh_nrouters in Hr. destruct (mesh_port_ok r (f_dest f) Hr Hd) as (E & _). unfold RouteOps.dim_order_mesh. cbn [r_id]. rewrite E. cbn [mbind res_bind].
    rewrite (class_vcs_link G f); [done|by apply mesh_class|done].
  - intros f g Hv Hd Hc. unfold RouteOps.dim_order_mesh. cbn [mbind res_bind]. rewrite (class_vcs_inject G f); [done|by apply mesh_class|lia].
Defined.
End mesh.

(** ** Assembling a mesh *)

Section mesh_start.
Context {VA SA PA : Type} `{Inhabited SA} (O : MeshOptions VA SA PA).
Context (cfg : Config) (t : ePrioType) (d : bool) (va : VA) (sa : SA) (g : Rng).
Local Abbreviation ports := (2 * me_n O + 1).

(** [KNCube] connects an output when its channel still has latency 1. *)
Definition mesh_assembly : Assembly VA SA :=
  mkAssembly _ _ cfg t d (λ _, va) (λ _, sa) g
    ((λ c, (Chan c, ((wi_latency (me_wiring O))⟦c⟧, (wi_cred_latency (me_wiring O))⟦c⟧))) <$> seqZ 0 (2 * me_n O * me_k O ^ me_n O))
    (λ _, replicate (Z.to_nat ports) (1, 1)) (me_end_vcs O).

(** What the buffers, the allocators and the random numbers satisfy. *)
Record mesh_parts : Prop := {
  mp_inj : 0 < tc_inj_size (me_T O);
  mp_vcs : cfg_num_vcs cfg = q_vcs (me_C O);
  mp_split : even_split cfg;
  mp_fits : policy_fits cfg;
  mp_size : cfg_size cfg = me_bsize O;
  mp_va : rl_opened (me_LV O) (i_Clear (ra_I (me_IV O)) va) no_requests;
  mp_sa : rl_opened (me_LS O) (i_Clear (ra_I (me_IS O)) sa) no_requests;
  mp_rng : RngInv.rng_ok g
}.

Lemma mesh_assembly_ok : mesh_parts → assembly_ok (mesh_steered O) mesh_assembly.
Proof.
  intros [P1 P2 P3 P4 P5 P6 P7 P8]. pose proof (me_n_nonneg O). pose proof (mesh_size_pos O). split; try done; simpl.
  - nia.
  - apply (sp_routing _ (me_supported O)).
  - apply Forall_fmap, Forall_forall. intros c Hc%elem_of_seqZ. destruct (mesh_wiring_ok O) as (_ & _ & _ & Hl). destruct (Hl c ltac:(lia)) as [E1 E2]. simpl. rewrite E1, E2. lia.
  - intros r _. split; [apply zlen_replicate; lia|]. apply Forall_replicate. simpl. lia.
  - apply (me_end_len O).
Qed.

Definition simulate_mesh (cs : list Call) : res (list Answer * TM VA SA PA) := simulate (mesh_steered O) mesh_assembly cs.
End mesh_start.

(** ** Networks from a file *)

(** Rows of channels in which a channel occurs once. *)
Lemma rows_inj (rows : list (list chan_id)) r i r' i' : (∀ r r' c, 0 ≤ r < zlen rows → 0 ≤ r' < zlen rows → c ∈ rows⟦r⟧ → c ∈ rows⟦r'⟧ → r = r') →
  (∀ r, 0 ≤ r < zlen rows → NoDup (rows⟦r⟧)) → port rows r i → port rows r' i' → rows⟦r⟧⟦i⟧ = rows⟦r'⟧⟦i'⟧ → r = r' ∧ i = i'.
Proof.
  intros Hrow Hnd [Hr Hi] [Hr' Hi'] E. assert (∀ (l : list chan_id) j, 0 ≤ j < zlen l → l !! Z.to_nat j = Some (l⟦j⟧)) as Hl.
  { intros l j Hj. unfold znth. apply list_lookup_lookup_total_lt. unfold zlen in Hj. lia. }
  assert (r = r') as ->.
  { apply (Hrow r r' (rows⟦r⟧⟦i⟧)); [done..| |rewrite E]; (eapply list_elem_of_lookup_2; by apply Hl). }
  split; [done|]. pose proof (Hl _ i Hi) as H1. rewrite E in H1. pose proof (NoDup_lookup _ _ _ _ (Hnd r' Hr') H1 (Hl _ i' Hi')). lia.
Qed.


(** A network that [AnyNet] has read from a file and built, with [min_anynet]: the
    routers are all linked. *)
Record AnyNetOptions (VA SA PA : Type) : Type := {
  ay_n : Z;
  ay_m : Z;
  ay_W : Z;
  ay_lines : list AnyNetFile.line;
  ay_fuel : nat;
  ay_name : string;
  ay_built : Built;
  ay_table : list (imap Z);
  ay_begin_vcs : list Z;
  ay_end_vcs : list Z;
  ay_C : IQConfig;
  ay_T : TMConfig;
  ay_IV : RouterAllocator VA;
  ay_IS : RouterAllocator SA;
  ay_IP : RouterAllocator PA;
  ay_bsize : Z;
  ay_file : AnyNetFile.file_ok ay_n ay_m ay_W ay_lines;
  ay_fits : ay_n * ay_W < int_max;
  ay_linked : ∀ v, 0 ≤ v < ay_n → AnyNetTheorems.reaches ay_lines 0 v;
  ay_steps : ay_n ≤ Z.of_nat ay_fuel;
  ay_named : ay_name ≠ "";
  ay_read : AnyNetOps.New ay_fuel ay_name (Some (AnyNetFile.print_file ay_lines)) = Ok (ay_built, ay_table);
  ay_supported : supported ay_C;
  ay_ports : ∀ r p, 0 ≤ r < ay_n → (bu_routers ay_built)⟦r⟧ = Some p → 0 < po_radix p ∧ po_radix p * q_vcs ay_C ≤ int_max;
  ay_vcs : q_vcs ay_C ≤ int_max;
  ay_LV : ∀ p, 0 < p → RouterAllocLaws ay_IV (q_vcs ay_C * p) (q_vcs ay_C * p);
  ay_LS : ∀ p, 0 < p → RouterAllocLaws ay_IS (p * q_input_speedup ay_C) (p * q_output_speedup ay_C);
  ay_begin_len : zlen ay_begin_vcs = tc_classes ay_T;
  ay_end_len : zlen ay_end_vcs = tc_classes ay_T;
  ay_ranges : ∀ cl, 0 ≤ cl < tc_classes ay_T → 0 ≤ ay_begin_vcs⟦cl⟧ ≤ ay_end_vcs⟦cl⟧ ∧ ay_end_vcs⟦cl⟧ < q_vcs ay_C;
  ay_tm : tm_options ay_T ay_m (tc_classes ay_T) (q_routing_delay ay_C)
}.
Arguments ay_n {VA SA PA} _.
Arguments ay_m {VA SA PA} _.
Arguments ay_W {VA SA PA} _.
Arguments ay_lines {VA SA PA} _.
Arguments ay_fuel {VA SA PA} _.
Arguments ay_name {VA SA PA} _.
Arguments ay_built {VA SA PA} _.
Arguments ay_table {VA SA PA} _.
Arguments ay_begin_vcs {VA SA PA} _.
Arguments ay_end_vcs {VA SA PA} _.
Arguments ay_C {VA SA PA} _.
Arguments ay_T {VA SA PA} _.
Arguments ay_IV {VA SA PA} _.
Arguments ay_IS {VA SA PA} _.
Arguments ay_IP {VA SA PA} _.
Arguments ay_bsize {VA SA PA} _.
Arguments ay_file {VA SA PA} _.
Arguments ay_fits {VA SA PA} _.
Arguments ay_linked {VA SA PA} _.
Arguments ay_steps {VA SA PA} _.
Arguments ay_named {VA SA PA} _.
Arguments ay_read {VA SA PA} _.
Arguments ay_supported {VA SA PA} _.
Arguments ay_ports {VA SA PA} _.
Arguments ay_vcs {VA SA PA} _.
Arguments ay_LV {VA SA PA} _.
Arguments ay_LS {VA SA PA} _.
Arguments ay_begin_len {VA SA PA} _.
Arguments ay_end_len {VA SA PA} _.
Arguments ay_ranges {VA SA PA} _.
Arguments ay_tm {VA SA PA} _.

Section any.
Context {VA SA PA : Type} (O : AnyNetOptions VA SA PA).
Local Abbreviation n := (ay_n O).
Local Abbreviation m := (ay_m O).
Local Abbreviation b := (ay_built O).

Definition any_globals : Globals := mkGlobals 0 0 m (ay_begin_vcs O) (ay_end_vcs O).
Definition any_ports (r : Z) : Ports := match (if decide (0 ≤ r < n) then (bu_routers b)⟦r⟧ else None) with Some p => p | None => mkPorts 0 [] [] end.
Definition any_router (r : Z) : IQConfig := let p := Z.max 1 (po_radix (any_ports r)) in with_ports (ay_C O) r p p.

Definition any_net : NetConfig :=
  mkNetConfig m (zlen (bu_chan_lat b)) (tc_classes (ay_T O)) (any_router <$> seqZ 0 n)
    ((λ r, replicate (Z.to_nat (po_radix (any_ports r))) false) <$> seqZ 0 n)
    ((λ r, po_inputs (any_ports r)) <$> seqZ 0 n) ((λ r, po_outputs (any_ports r)) <$> seqZ 0 n).
Local Abbreviation N := any_net.

(** The output of the routing table. *)
Definition any_port (r d : Z) : Z := default 0 (mfind d ((ay_table O)⟦r⟧)).

(** What the file describes, and what has been built of it. *)
Record describes_net (net : AnyNet) : Prop := {
  dn_ok : AnyNetWiring.net_ok n m (ay_W O) net;
  dn_read : AnyNetFile.read_inv (AnyNetFile.events (ay_lines O)) net;
  dn_laid : laid_out net n b;
  dn_len : zlen (ay_table O) = n;
  dn_rows : ∀ r, 0 ≤ r < n → row_ok id (an_router (bu_net b)) n (an_node (bu_net b)) r (ay_table O)
}.

Lemma any_described : ∃ net, describes_net net.
Proof.
  destruct (AnyNetTheorems.New_built _ _ _ _ (ay_fuel O) (ay_name O) (ay_file O) (ay_fits O) (ay_linked O) (ay_steps O) (ay_named O)) as ([b' t'] & E & net & _ & H1 & H2 & H3 & H4 & _ & H5).
  rewrite (ay_read O) in E. injection E as <- <-. exists net. by split.
Qed.

Lemma any_n_nonneg : 0 ≤ n ∧ 0 ≤ m ∧ 1 ≤ ay_W O.
Proof. destruct (ay_file O). done. Qed.

Lemma any_nrouters : nrouters N = n.
Proof. pose proof any_n_nonneg. unfold nrouters. simpl. apply zlen_map_seq. lia. Qed.

Section described.
Context (net : AnyNet) (HD : describes_net net).
Local Abbreviation Hnet := (dn_ok _ HD).

Lemma any_ports_at r : 0 ≤ r < n → any_ports r = mkPorts (radix_of net r) (any_inputs net n r) (any_outputs net r) ∧
  zlen (any_inputs net n r) = radix_of net r ∧ zlen (any_outputs net r) = radix_of net r ∧ 0 < radix_of net r.
Proof.
  intros Hr. pose proof (lo_ports _ _ _ (dn_laid _ HD) r Hr) as E. destruct (wo_radix _ _ _ (lo_wiring _ _ _ (dn_laid _ HD)) r Hr) as (p & Ep & L1 & L2).
  destruct (ay_ports O r p Hr Ep) as [Hp _]. unfold any_ports. rewrite decide_True by done. rewrite E in *. injection Ep as <-. done.
Qed.

Lemma any_rows r : 0 ≤ r < n → (nc_inputs N)⟦r⟧ = any_inputs net n r ∧ (nc_outputs N)⟦r⟧ = any_outputs net r ∧ q_inputs (any_router r) = radix_of net r ∧ q_outputs (any_router r) = radix_of net r.
Proof.
  intros Hr. destruct (any_ports_at r Hr) as (E & _ & _ & Hp). simpl. rewrite !znth_map_seq by done. rewrite E. simpl. split_and!; try done; lia.
Qed.

Lemma any_elem_in r i : input_at N r i → 0 ≤ r < n ∧ in_chan N r i ∈ any_inputs net n r.
Proof.
  unfold input_at, in_chan. rewrite any_nrouters. intros [Hr Hi]. split; [done|]. destruct (any_rows r Hr) as (E & _). rewrite E in *. unfold znth. apply list_elem_of_lookup_total_2. unfold zlen in Hi. lia.
Qed.

Lemma any_elem_out r o : output_at N r o → 0 ≤ r < n ∧ out_chan N r o ∈ any_outputs net r.
Proof.
  unfold output_at, out_chan. rewrite any_nrouters. intros [Hr Hi]. split; [done|]. destruct (any_rows r Hr) as (_ & E & _). rewrite E in *. unfold znth. apply list_elem_of_lookup_total_2. unfold zlen in Hi. lia.
Qed.

Lemma any_at_in r c : 0 ≤ r < n → c ∈ any_inputs net n r → ∃ i, input_at N r i ∧ in_chan N r i = c.
Proof.
  intros Hr [i Hi]%list_elem_of_lookup. exists (Z.of_nat i). unfold input_at, in_chan. rewrite any_nrouters. destruct (any_rows r Hr) as (-> & _). pose proof (lookup_lt_Some _ _ _ Hi). unfold zlen, znth.
  split; [split; [done|lia]|]. rewrite Nat2Z.id. by apply list_lookup_total_correct.
Qed.

Lemma any_at_out r c : 0 ≤ r < n → c ∈ any_outputs net r → ∃ o, output_at N r o ∧ out_chan N r o = c.
Proof.
  intros Hr [i Hi]%list_elem_of_lookup. exists (Z.of_nat i). unfold output_at, out_chan. rewrite any_nrouters. destruct (any_rows r Hr) as (_ & -> & _). pose proof (lookup_lt_Some _ _ _ Hi). unfold zlen, znth.
  split; [split; [done|lia]|]. rewrite Nat2Z.id. by apply list_lookup_total_correct.
Qed.

Lemma any_node_range x r : mfind x (an_node_list net) = Some r → 0 ≤ x < m ∧ 0 ≤ r < n.
Proof.
  intros Hx. pose proof (keys_range _ m 0 x r (no_nodes _ _ _ _ Hnet) Hx). split; [lia|]. destruct (node_router net n m _ Hnet x ltac:(lia)) as (r' & Hr & E). congruence.
Qed.

Lemma any_chan_once k r r' : Chan k ∈ any_inputs net n r → Chan k ∈ any_inputs net n r' → r = r'.
Proof.
  rewrite !(elem_any_inputs net n m _ Hnet). intros (u & j & x & Hu & Hj & ->) (u' & j' & x' & Hu' & Hj' & E). pose proof (lookup_lt_Some _ _ _ Hj). pose proof (lookup_lt_Some _ _ _ Hj').
  destruct (channel_source net n u u' (Z.of_nat j) (Z.of_nat j')) as [<- Ej]; unfold zlen; [done|done|lia|lia|done|]. assert (j' = j) as -> by lia. congruence.
Qed.

Lemma any_inputs_inj r i r' i' : input_at N r i → input_at N r' i' → in_chan N r i = in_chan N r' i' → r = r' ∧ i = i'.
Proof.
  pose proof any_n_nonneg as (Hn & _). assert (zlen (nc_inputs N) = n) as Hl by (by apply zlen_map_seq). unfold input_at, in_chan. rewrite any_nrouters, <- Hl. apply rows_inj; rewrite Hl.
  - intros r1 r2 c H1 H2. destruct (any_rows r1 H1) as (-> & _), (any_rows r2 H2) as (-> & _). destruct c as [k|x|x]; [by apply any_chan_once| |]; rewrite !(elem_any_inputs net n m _ Hnet); [congruence|done].
  - intros r1 H1. destruct (any_rows r1 H1) as (-> & _). exact (any_inputs_once net n m _ Hnet r1).
Qed.

Lemma any_outputs_inj r i r' i' : output_at N r i → output_at N r' i' → out_chan N r i = out_chan N r' i' → r = r' ∧ i = i'.
Proof.
  pose proof any_n_nonneg as (Hn & _). assert (zlen (nc_outputs N) = n) as Hl by (by apply zlen_map_seq). unfold output_at, out_chan. rewrite any_nrouters, <- Hl. apply rows_inj; rewrite Hl.
  - intros r1 r2 c H1 H2. destruct (any_rows r1 H1) as (_ & -> & _), (any_rows r2 H2) as (_ & -> & _). rewrite !(elem_any_outputs net n m _ Hnet). destruct c as [k|x|x]; [|done|congruence].
    intros K1 K2. destruct (channel_source net n r1 r2 (k - base net r1) (k - base net r2)); lia.
  - intros r1 H1. destruct (any_rows r1 H1) as (_ & -> & _). exact (any_outputs_once net n m _ Hnet r1).
Qed.

Lemma any_wired : wired N.
Proof.
  pose proof any_n_nonneg as (Hn & Hm & _). pose proof (lo_channels _ _ _ (dn_laid _ HD)) as Hch.
  apply wired_ports; rewrite ?any_nrouters; try (by apply zlen_map_seq).
  - intros r i Hi. destruct (any_elem_in r i Hi) as [Hr Hc]. apply (elem_any_inputs net n m _ Hnet) in Hc. destruct (in_chan N r i) as [k|x|x]; [|split; [by apply any_node_range in Hc as []|done]|done].
    destruct Hc as (u & j & x & Hu & Hj & ->). split; [|done]. simpl. rewrite Hch. pose proof (base_mono net 0 u ltac:(lia)). change (base net 0) with 0 in *.
    pose proof (base_lt net u n (Z.of_nat j) ltac:(lia) ltac:(apply lookup_lt_Some in Hj; unfold zlen; lia)). lia.
  - intros r o Ho. destruct (any_elem_out r o Ho) as [Hr Hc]. apply (elem_any_outputs net n m _ Hnet) in Hc. destruct (out_chan N r o) as [k|x|x]; [|done|split; [by apply any_node_range in Hc as []|done]].
    split; [|done]. simpl. rewrite Hch. pose proof (base_mono net 0 r ltac:(lia)). change (base net 0) with 0 in *. pose proof (base_lt net r n (k - base net r) ltac:(lia) ltac:(lia)). lia.
  - apply any_inputs_inj.
  - apply any_outputs_inj.
  - intros [k|x|x] Hc Ht; [| |by destruct Ht].
    + simpl in Hc. rewrite Hch in Hc. destruct (base_onto net n m _ Hnet k Hc) as (u & j & Hu & Hj & ->). destruct (lookup_lt_is_Some_2 (row (an_router net) u) (Z.to_nat j) ltac:(unfold zlen in Hj; lia)) as [[v y] Hv].
      assert (0 ≤ v < n) as Hvn. { apply (link_range net n m _ Hnet u v y). apply mfind_at with (Z.to_nat j); [apply Hnet|done]. }
      exists v. apply any_at_in; [done|]. apply (elem_any_inputs net n m _ Hnet). exists u, (Z.to_nat j), y. split_and!; [lia|lia|done|lia].
    + destruct (node_router net n m _ Hnet x Hc) as (r & Hr & Hx). exists r. apply any_at_in; [done|]. by apply (elem_any_inputs net n m _ Hnet).
  - intros [k|x|x] Hc Ht; [|by destruct Ht|].
    + simpl in Hc. rewrite Hch in Hc. destruct (base_onto net n m _ Hnet k Hc) as (u & j & Hu & Hj & ->). exists u. apply any_at_out; [done|]. apply (elem_any_outputs net n m _ Hnet). lia.
    + destruct (node_router net n m _ Hnet x Hc) as (r & Hr & Hx). exists r. apply any_at_out; [done|]. by apply (elem_any_outputs net n m _ Hnet).
Qed.

(** The table leads to the destination's port, or to a link. *)
Lemma any_port_ok r d : 0 ≤ r < n → 0 ≤ d < m → mfind d ((ay_table O)⟦r⟧) = Some (any_port r d) ∧ 0 ≤ any_port r d < radix_of net r ∧
  ∀ d', out_chan N r (any_port r d) = Eject d' → d = d'.
Proof.
  intros Hr Hd. destruct (node_router net n m _ Hnet d Hd) as (i & Hi & Hx). pose proof (lo_wiring _ _ _ (dn_laid _ HD)) as HW. destruct (any_ports_at r Hr) as (Ep & _ & Lo & _).
  destruct (proj2 (no_attached _ _ _ _ Hnet i d) Hx) as [y Hy]. destruct (wo_node _ _ _ HW i d y Hi Hy) as (port & p & E1 & _).
  destruct (dn_rows _ HD r Hr i d Hi ltac:(congruence)) as (q & Hq & Hnext). unfold any_port. rewrite Hq. change (default 0 (Some q)) with q. split; [done|].
  assert (∀ c p', (bu_routers b)⟦r⟧ = Some p' → 0 ≤ q → po_outputs p' !! Z.to_nat q = Some c → 0 ≤ q < radix_of net r ∧ out_chan N r q = c) as Hat.
  { intros c p' Ep' Hq0 Hc. unfold any_ports in Ep. rewrite decide_True, Ep' in Ep by done. subst p'. simpl in Hc. pose proof (lookup_lt_Some _ _ _ Hc). split; [unfold zlen in Lo; lia|].
    unfold out_chan. destruct (any_rows r Hr) as (_ & -> & _). unfold znth. by apply list_lookup_total_correct. }
  destruct Hnext as [[-> [l Hl]]|[Hne (nb & l & e & Hnb & _)]].
  - destruct (wo_node _ _ _ HW r d y Hr Hy) as (port' & p' & E1' & Ep' & Hp0 & Hout & _). rewrite E1' in Hl. injection Hl as -> _. destruct (Hat _ p' Ep' Hp0 Hout) as [H1 H2]. split; [done|]. intros d' E. congruence.
  - destruct (mfind nb (row (an_router net) r)) as [z|] eqn:E; [|by rewrite (wo_no_link _ _ _ HW r nb Hr E) in Hnb].
    destruct (wo_link _ _ _ HW r nb z E) as (port' & c & pu & pv & E1' & Epu & _ & Hp0 & Hout & _). rewrite E1' in Hnb. injection Hnb as -> _. destruct (Hat _ pu Epu Hp0 Hout) as [H1 H2]. split; [done|]. intros d' E2. congruence.
Qed.
End described.

Lemma any_class f : 0 ≤ f_cl f < tc_classes (ay_T O) →
  vget (ay_begin_vcs O) (f_cl f) = Ok ((ay_begin_vcs O)⟦f_cl f⟧) ∧ vget (ay_end_vcs O) (f_cl f) = Ok ((ay_end_vcs O)⟦f_cl f⟧).
Proof. intros Hc. split; apply vget_ok; [rewrite (ay_begin_len O)|rewrite (ay_end_len O)]; done. Qed.

Lemma any_radix_pos r : 0 < Z.max 1 (po_radix (any_ports r)).
Proof. lia. Qed.

Definition any_steered : Steered VA SA PA.
Proof.
  refine {| sg_N := N; sg_T := ay_T O; sg_C := any_router; sg_IV := ay_IV O; sg_IS := ay_IS O; sg_IP := ay_IP O; sg_rf := AnyNetOps.min_anynet (ay_table O) any_globals; sg_vcs := q_vcs (ay_C O);
    sg_bsize := ay_bsize O; sg_latency := ay_W O; sg_rd := q_routing_delay (ay_C O); sg_first := λ cl, (ay_begin_vcs O)⟦cl⟧; sg_last := λ cl, (ay_end_vcs O)⟦cl⟧; sg_port := any_port;
    sg_LV := λ r, ay_LV O _ (any_radix_pos r); sg_LS := λ r, ay_LS O _ (any_radix_pos r); sg_tm := ay_tm O |}.
  - intros r. split_and!; try done. apply supported_ports; [apply (ay_supported O)|lia|lia|]. unfold any_ports. destruct (decide (0 ≤ r < n)) as [Hr|]; [|simpl; pose proof (ay_vcs O); lia].
    destruct ((bu_routers b)⟦r⟧) as [p|] eqn:E; [destruct (ay_ports O r p Hr E); by rewrite Z.max_r by lia|simpl; pose proof (ay_vcs O); lia].
  - destruct any_described as [net HD]. by apply (any_wired net).
  - simpl. pose proof any_n_nonneg. lia.
  - intros r Hr. rewrite any_nrouters in Hr. destruct any_described as [net HD]. destruct (any_rows net HD r Hr) as (-> & -> & -> & ->). destruct (any_ports_at net HD r Hr) as (_ & -> & -> & _). split_and!; try done. by apply znth_map_seq.
  - apply (ay_ranges O).
  - intros r d Hr Hd. rewrite any_nrouters in Hr. destruct any_described as [net HD]. destruct (any_rows net HD r Hr) as (_ & _ & _ & ->). by apply (any_port_ok net HD).
  - intros r d d' Hr Hd. rewrite any_nrouters in Hr. destruct any_described as [net HD]. by apply (any_port_ok net HD).
  - intros r occ f i outs g Hr Hd Hc Hv. rewrite any_nrouters in Hr. destruct any_described as [net HD]. destruct (any_port_ok net HD r (f_dest f) Hr Hd) as (E & _). unfold AnyNetOps.min_anynet. cbn [r_id].
    rewrite (vget_ok (ay_table O) r) by (rewrite (dn_len _ HD); done). cbn [mbind res_bind]. rewrite E. cbn [mbind res_bind gBeginVCs gEndVCs any_globals]. destruct (any_class f Hc) as [-> ->]. done.
  - intros f g Hv Hd Hc. unfold AnyNetOps.min_anynet. cbn [mbind res_bind gBeginVCs gEndVCs any_globals]. destruct (any_class f Hc) as [-> ->]. done.
Defined.
End any.

(** ** Assembling a network from a file *)

Section any_start.
Context {VA SA PA : Type} `{Inhabited SA} (O : AnyNetOptions VA SA PA).
Context (cfg : Config) (t : ePrioType) (d : bool) (va : Z → VA) (sa : Z → SA) (g : Rng).
Local Abbreviation b := (ay_built O).

Definition any_latency (c : chan_id) : Z := match c with Chan k => (bu_chan_lat b)⟦k⟧ | Inject x | Eject x => (bu_node_lat b)⟦x⟧ end.

(** [AnyNet] sets the latency of a channel before it connects it. *)
Definition any_assembly : Assembly VA SA :=
  mkAssembly _ _ cfg t d va sa g
    ((λ c, (c, (any_latency c, any_latency c))) <$>
       (Inject <$> seqZ 0 (ay_m O)) ++ (Eject <$> seqZ 0 (ay_m O)) ++ (Chan <$> seqZ 0 (zlen (bu_chan_lat b))))
    (λ r, (λ c, (any_latency c, any_latency c)) <$> po_outputs (any_ports O r)) (ay_end_vcs O).

Record any_parts : Prop := {
  yp_inj : 0 < tc_inj_size (ay_T O);
  yp_vcs : cfg_num_vcs cfg = q_vcs (ay_C O);
  yp_split : even_split cfg;
  yp_fits : policy_fits cfg;
  yp_size : cfg_size cfg = ay_bsize O;
  yp_va : ∀ r, 0 ≤ r < ay_n O → rl_opened (ay_LV O _ (any_radix_pos O r)) (i_Clear (ra_I (ay_IV O)) (va r)) no_requests;
  yp_sa : ∀ r, 0 ≤ r < ay_n O → rl_opened (ay_LS O _ (any_radix_pos O r)) (i_Clear (ra_I (ay_IS O)) (sa r)) no_requests;
  yp_rng : RngInv.rng_ok g
}.

Lemma any_latency_ok net c : describes_net O net → valid_chan (any_net O) c → 0 < any_latency c ≤ ay_W O.
Proof.
  intros HD Hc. pose proof (dn_ok _ _ HD) as Hnet. pose proof (any_n_nonneg O) as (Hn & Hm & HW). pose proof (lo_wiring _ _ _ (dn_laid _ _ HD)) as Hwi.
  assert (∀ x, 0 ≤ x < ay_m O → (bu_node_lat b)⟦x⟧ = 1) as Hnode.
  { intros x Hx. destruct (node_router net _ _ _ Hnet x Hx) as (r & Hr & Ex). pose proof (AnyNetFile.ri_home _ _ (dn_read _ _ HD) x r) as Hh. rewrite <- (AnyNetFile.ri_list _ _ (dn_read _ _ HD)), Ex, decide_True in Hh by done.
    destruct (wo_node _ _ _ Hwi r x _ Hr Hh) as (_ & _ & _ & _ & _ & _ & _ & E). done. }
  destruct c as [k|x|x]; simpl in *; [|rewrite Hnode by done; lia..]. rewrite (lo_channels _ _ _ (dn_laid _ _ HD)) in Hc.
  destruct (base_onto net _ _ _ Hnet k Hc) as (u & j & Hu & Hj & ->). destruct (lookup_lt_is_Some_2 (row (an_router net) u) (Z.to_nat j) ltac:(unfold zlen in Hj; lia)) as [[v [p lat]] Hv].
  pose proof (lo_chan_lat _ _ _ (dn_laid _ _ HD) u (Z.to_nat j) v p lat Hu Hv) as E. rewrite Z2Nat.id in E by lia. rewrite E.
  apply (no_lat _ _ _ _ Hnet u v (p, lat)). apply mfind_at with (Z.to_nat j); [apply Hnet|done].
Qed.

Lemma any_assembly_ok : any_parts → assembly_ok (any_steered O) any_assembly.
Proof.
  intros [P1 P2 P3 P4 P5 P6 P7 P8]. pose proof (any_n_nonneg O) as (Hn & Hm & HW). destruct (any_described O) as [net HD].
  split; try done; simpl.
  - apply zlen_nonneg.
  - apply (sp_routing _ (ay_supported O)).
  - intros r Hr. rewrite any_nrouters in Hr. by apply P6.
  - intros r Hr. rewrite any_nrouters in Hr. by apply P7.
  - apply Forall_fmap, Forall_forall. intros c Hc. assert (valid_chan (any_net O) c) as Hv.
    { rewrite !elem_of_app, !list_elem_of_fmap in Hc. destruct Hc as [(x & -> & Hx%elem_of_seqZ)|[(x & -> & Hx%elem_of_seqZ)|(x & -> & Hx%elem_of_seqZ)]]; simpl; lia. }
    pose proof (any_latency_ok net c HD Hv). simpl. split_and!; try done; lia.
  - intros r Hr. rewrite any_nrouters in Hr. destruct (any_rows O net HD r Hr) as (_ & _ & _ & Eo). simpl in Eo. rewrite Eo. destruct (any_ports_at O net HD r Hr) as (E & _ & Lo & _). rewrite E. simpl. split; [rewrite zlen_fmap; done|].
    apply Forall_fmap, Forall_forall. intros c Hc. destruct (any_at_out O net HD r c Hr Hc) as (o & Ho & <-). destruct (wd_output _ (any_wired O net HD) r o Ho) as [Hv _]. pose proof (any_latency_ok net _ HD Hv). simpl. lia.
  - apply (ay_end_len O).
Qed.

Definition simulate_any (cs : list Call) : res (list Answer * TM VA SA PA) := simulate (any_steered O) any_assembly cs.
End any_start.

(** ** Examples *)

#[export] Instance ISLIP_inhabited : Inhabited ISLIP := populate (ISLIPOps.New 1 1 1).

Module Sample.

(** A mesh of four routers with two VCs, with buffers for four flits. *)
Definition config : IQConfig := mkIQConfig 0 5 5 1 2 1 1 1024 1 1 1 1 1 (-1) false false false false false false false true false.
Definition options (nodes : Z) : TMConfig := mkTMConfig nodes 1 1 4 [0] [0] [1] pri_none false false true 64.

Lemma options_ok nodes : tm_options (options nodes) nodes 1 1.
Proof.
  split; try done; [|rewrite !elem_of_cons; by right; right; right; left]. intros c Hc. simpl in Hc. assert (c = 0) as -> by lia. vm_compute. split_and!; done.
Qed.

Definition wiring : Wiring :=
  match (net ← KNCubeOps.ComputeSize 2 2 true; KNCubeOps.BuildNet net true) with Ok w => w | _ => mkWiring [] [] [] [] end.

Lemma ranges_ok cl : 0 ≤ cl < 1 → 0 ≤ [0]⟦cl⟧ ≤ [1]⟦cl⟧ ∧ [1]⟦cl⟧ < 2.
Proof. intros Hc. assert (cl = 0) as -> by lia. vm_compute. split_and!; done. Qed.

Definition mesh : MeshOptions ISLIP ISLIP ISLIP.
Proof.
  refine {| me_k := 2; me_n := 2; me_begin_vcs := [0]; me_end_vcs := [1]; me_C := config; me_T := options 4; me_IV := ISLIPRA; me_IS := ISLIPRA; me_IP := ISLIPRA; me_bsize := 4;
    me_noc_latency := true; me_wiring := wiring; me_LV := ISLIPRALaws 10 10 1 ltac:(lia) ltac:(lia) ltac:(lia); me_LS := ISLIPRALaws 5 5 1 ltac:(lia) ltac:(lia) ltac:(lia);
    me_ranges := ranges_ok; me_tm := options_ok 4 |}; done.
Defined.

Definition cfg : Config := Link.sample_config "private".
Definition va : ISLIP := ISLIPOps.New 10 10 1.
Definition sa : ISLIP := ISLIPOps.New 5 5 1.

Lemma islip_ok k : 0 < k → ISLIPInv.islip_opened k k 1 (i_Clear ISLIPI (ISLIPOps.New k k 1)) no_requests.
Proof.
  intros Hk. split_and!; try (apply zlen_replicate; lia); [|done]. apply (SparseLaws.sparse_close_idle k k _ no_requests), SparseLaws.sparse_New_opened; lia.
Qed.

Lemma cfg_fits : policy_fits cfg.
Proof. left. split; [done|right; by vm_compute]. Qed.

Lemma mesh_parts_ok : mesh_parts mesh cfg va sa RngOps.initial.
Proof. split; [done|done|apply Link.sample_even|apply cfg_fits|done|by apply islip_ok|by apply islip_ok|apply RngInv.rng_ok_initial]. Qed.

(** Packets to two nodes; a third one finds the queue full. *)
Definition calls : list Call := [Generate 0 3 3 0 0; QueueRoom 0 0; Generate 0 2 3 0 0; Generate 0 1 2 0 0; Run 60; CollectOne; Collect; ResetStats; InFlight].

Lemma calls_permitted : Forall (permitted (steered_sim (mesh_steered mesh))) calls.
Proof. repeat (apply Forall_cons_2; [simpl; unfold node_at, class_at; simpl; lia|]). apply Forall_nil_2. Qed.

(** Two routers with a node each and a link of latency 6. *)
Definition lines : list AnyNetFile.line := [(0, [AnyNetFile.INode 0; AnyNetFile.ILink 1 (Some 6)]); (1, [AnyNetFile.INode 1])].
Definition any_build : Built * list (imap Z) := Eval vm_compute in
  match AnyNetOps.New 2 "file" (Some (AnyNetFile.print_file lines)) with Ok x => x | _ => (mkBuilt (mkAnyNet [] [] []) [] [] [] [], []) end.

Lemma any_read : AnyNetOps.New 2 "file" (Some (AnyNetFile.print_file lines)) = Ok (any_build.1, any_build.2).
Proof. by vm_compute. Qed.

Lemma any_file : AnyNetFile.file_ok 2 2 6 lines.
Proof. apply AnyNetTheorems.file_okb_ok. by vm_compute. Qed.

Lemma any_linked v : 0 ≤ v < 2 → AnyNetTheorems.reaches lines 0 v.
Proof. intros Hv. assert (v = 0 ∨ v = 1) as [->| ->] by lia; [constructor|apply rtc_once; by eexists]. Qed.

Lemma any_radix r p : 0 ≤ r < 2 → (bu_routers any_build.1)⟦r⟧ = Some p → 0 < po_radix p ∧ po_radix p * q_vcs config ≤ int_max.
Proof. intros Hr. assert (r = 0 ∨ r = 1) as [->| ->] by lia; intros E; vm_compute in E; injection E as <-; done. Qed.

Definition any : AnyNetOptions ISLIP ISLIP ISLIP.
Proof.
  refine {| ay_n := 2; ay_m := 2; ay_W := 6; ay_lines := lines; ay_fuel := 2; ay_name := "file"; ay_built := any_build.1; ay_table := any_build.2; ay_begin_vcs := [0]; ay_end_vcs := [1];
    ay_C := config; ay_T := options 2; ay_IV := ISLIPRA; ay_IS := ISLIPRA; ay_IP := ISLIPRA; ay_bsize := 4;
    ay_LV := λ p Hp, ISLIPRALaws (2 * p) (2 * p) 1 ltac:(lia) ltac:(lia) ltac:(lia); ay_LS := λ p Hp, ISLIPRALaws (p * 1) (p * 1) 1 ltac:(lia) ltac:(lia) ltac:(lia);
    ay_file := any_file; ay_linked := any_linked; ay_read := any_read; ay_ports := any_radix; ay_ranges := ranges_ok; ay_tm := options_ok 2 |}; done.
Defined.

Definition any_va (r : Z) : ISLIP := ISLIPOps.New 4 4 1.
Definition any_sa (r : Z) : ISLIP := ISLIPOps.New 2 2 1.

Lemma any_parts_ok : any_parts any cfg any_va any_sa RngOps.initial.
Proof.
  split; [done|done|apply Link.sample_even|apply cfg_fits|done|..|apply RngInv.rng_ok_initial]; intros r Hr; (assert (r = 0 ∨ r = 1) as [->| ->] by (simpl in Hr; lia)); by apply islip_ok.
Qed.

Definition any_calls : list Call := [Generate 0 1 2 0 0; Run 30; Collect; InFlight].
Lemma any_calls_permitted : Forall (permitted (steered_sim (any_steered any))) any_calls.
Proof. repeat (apply Forall_cons_2; [simpl; unfold node_at, class_at; simpl; lia|]). apply Forall_nil_2. Qed.
End Sample.

(** ** The theorems *)

(** C1. A k-ary n-mesh with dimension-order routing, simulated from construction by
    any sequence of the calls of [Call]: no assertion fails and no vector is
    left, and the answers are those of a packet service.  Packets are numbered in
    the order in which they are accepted; one is refused only when as many flits of
    its node and class as the queue holds are under way; every packet handed out
    was accepted, with that source, destination, class and size, and is handed out
    once; and nothing is reported to be in flight exactly when every packet accepted
    has been handed out. *)
Theorem mesh_simulator {VA SA PA : Type} `{Inhabited SA} (O : MeshOptions VA SA PA) cfg t d va sa g cs :
  mesh_parts O cfg va sa g → Forall (permitted (steered_sim (mesh_steered O))) cs →
  zsum (cycles_in <$> cs) < int_max → zsum (packets_in <$> cs) ≤ int_max + 1 →
  returns (simulate_mesh O cfg t d va sa g cs) (λ '(answers, _), ∃ s, serves_all (tc_inj_size (me_T O)) (mkService [] []) cs answers s).
Proof.
  intros HP Hc Ht Hp. eapply returns_mono; [apply simulate_ok; [by apply mesh_assembly_ok|done|simpl; lia|done]|]. intros [answers tm] (X & L & D & _ & Hs & _). by eexists.
Qed.

Lemma mesh_simulator_witness :
  returns (simulate_mesh Sample.mesh Sample.cfg none false Sample.va Sample.sa RngOps.initial Sample.calls)
    (λ '(answers, _), ∃ s, serves_all 4 (mkService [] []) Sample.calls answers s).
Proof. apply (mesh_simulator Sample.mesh); [apply Sample.mesh_parts_ok|apply Sample.calls_permitted|by compute|by compute]. Defined.

(** C2. The same for a network that [AnyNet] reads from a file in which all routers
    are linked, with the routing tables it computes. *)
Theorem anynet_simulator {VA SA PA : Type} `{Inhabited SA} (O : AnyNetOptions VA SA PA) cfg t d va sa g cs :
  any_parts O cfg va sa g → Forall (permitted (steered_sim (any_steered O))) cs →
  zsum (cycles_in <$> cs) + ay_W O ≤ int_max → zsum (packets_in <$> cs) ≤ int_max + 1 →
  returns (simulate_any O cfg t d va sa g cs) (λ '(answers, _), ∃ s, serves_all (tc_inj_size (ay_T O)) (mkService [] []) cs answers s).
Proof.
  intros HP Hc Ht Hp. eapply returns_mono; [apply simulate_ok; [by apply any_assembly_ok|done|simpl; lia|done]|]. intros [answers tm] (X & L & D & _ & Hs & _). by eexists.
Qed.

Lemma anynet_simulator_witness :
  returns (simulate_any Sample.any Sample.cfg none false Sample.any_va Sample.any_sa RngOps.initial Sample.any_calls)
    (λ '(answers, _), ∃ s, serves_all 4 (mkService [] []) Sample.any_calls answers s).
Proof. apply (anynet_simulator Sample.any); [apply Sample.any_parts_ok|apply Sample.any_calls_permitted|by compute|by compute]. Defined.

(** C6. When the interface says that nothing is in flight, nothing is left: every
    injection queue is empty, and there is no flit in any buffer of any router or
    on any channel of any subnetwork. *)
Theorem simulator_drained {VA SA PA : Type} `{Inhabited SA} (Q : Steered VA SA PA) (A : Assembly VA SA) cs answers tm :
  assembly_ok Q A → Forall (permitted (steered_sim Q)) cs → zsum (cycles_in <$> cs) + sg_latency Q ≤ int_max → zsum (packets_in <$> cs) ≤ int_max + 1 →
  simulate Q A cs = Ok (answers, tm) → CheckInFlightPackets (sg_T Q) tm = Ok false →
  (∀ n c, 0 ≤ n < tc_nodes (sg_T Q) → 0 ≤ c < tc_classes (sg_T Q) → queue_of tm n c = []) ∧
  ∀ s, 0 ≤ s < tc_subnets (sg_T Q) → ∀ p, held (steered_net Q) p ((tm_net tm)⟦s⟧) = 0.
Proof.
  intros HA Hc Ht Hp Hs Hq. destruct (simulate_ok Q A HA cs Hc Ht Hp) as ([a tm'] & E & X & L & D & H0 & _). rewrite Hs in E. injection E as <- <-.
  pose proof H0 as [HP _]. pose proof (ph_retire _ _ _ _ _ _ _ HP) as HR.
  destruct (CheckInFlightPackets_ok (steered_sim Q) tm (proj1 (rt_total _ _ _ _ _ HR)) (rt_queues _ _ _ _ _ HR)) as (b & Eb & Hb). simpl in Eb. rewrite Hq in Eb. injection Eb as <-. apply proj1 in Hb. specialize (Hb eq_refl).
  pose proof (ao_channels _ _ HA) as Hch. split.
  - intros n c Hn Hcl. by apply (drained_queue (steered_sim Q) Hch X L D tm H0 Hb).
  - intros s Hs' p. by apply (drained_net (steered_sim Q) Hch X L D tm H0 Hb).
Qed.

Lemma simulator_drained_witness :
  let T := Sample.options 4 in
  match simulate_mesh Sample.mesh Sample.cfg none false Sample.va Sample.sa RngOps.initial Sample.calls with
  | Ok (_, tm) => (∀ n c, 0 ≤ n < 4 → 0 ≤ c < 1 → queue_of tm n c = []) ∧ ∀ s, 0 ≤ s < 1 → ∀ p, held (steered_net (mesh_steered Sample.mesh)) p ((tm_net tm)⟦s⟧) = 0
  | Fail _ => False
  end.
Proof.
  pose proof (simulator_drained (mesh_steered Sample.mesh) (mesh_assembly Sample.mesh Sample.cfg none false Sample.va Sample.sa RngOps.initial) Sample.calls) as HT.
  unfold simulate_mesh. destruct (simulate _ _ Sample.calls) as [[answers tm]|e] eqn:E.
  - apply (HT answers tm); [apply mesh_assembly_ok, Sample.mesh_parts_ok|apply Sample.calls_permitted|by compute|by compute|done|].
    assert ((match simulate (mesh_steered Sample.mesh) (mesh_assembly Sample.mesh Sample.cfg none false Sample.va Sample.sa RngOps.initial) Sample.calls with Ok (_, tm) => CheckInFlightPackets (Sample.options 4) tm | Fail e => Fail e end) = Ok false) as Hq by (by vm_compute).
    rewrite E in Hq. exact Hq.
  - assert ((match simulate (mesh_steered Sample.mesh) (mesh_assembly Sample.mesh Sample.cfg none false Sample.va Sample.sa RngOps.initial) Sample.calls with Ok _ => true | Fail _ => false end) = true) as Hok by (by vm_compute).
    by rewrite E in Hok.
Defined.

(** C10. A packet that finds the queue of its node and class full is refused: the
    interface answers -1 and nothing has changed.  Otherwise it gets a number, and
    the queue has been extended by its flits. *)
Theorem packet_refused {VA SA PA : Type} `{Inhabited SA} (Q : Steered VA SA PA) (A : Assembly VA SA) cs answers tm source dest size cl time :
  assembly_ok Q A → Forall (permitted (steered_sim Q)) cs → zsum (cycles_in <$> cs) + sg_latency Q ≤ int_max → zsum (packets_in <$> cs) ≤ int_max →
  simulate Q A cs = Ok (answers, tm) → permitted (steered_sim Q) (Generate source dest size cl time) →
  returns (GeneratePacket (sg_T Q) source dest size cl time tm) (λ '(pid, tm'),
    (pid = -1 ↔ tc_inj_size (sg_T Q) ≤ zlen (queue_of tm source cl)) ∧ (pid = -1 → tm' = tm) ∧
    (pid ≠ -1 → 0 ≤ pid ∧ zlen (queue_of tm' source cl) = zlen (queue_of tm source cl) + size)).
Proof.
  intros HA Hc Ht Hp Hs (Hso & Hd & Hcl & Hsz). destruct (simulate_ok Q A HA cs Hc Ht ltac:(lia)) as ([a tm'] & E & X & L & D & H0 & _ & Hl). rewrite Hs in E. injection E as <- <-.
  eapply returns_mono; [apply (GeneratePacket_ok (steered_sim Q) (ao_channels _ _ HA) X L D tm source dest size cl time H0 Hso Hd Hcl Hsz); lia|].
  intros [pid tm'] Hg. simpl in Hg. pose proof (zlen_nonneg L). destruct (Z.leb_spec (tc_inj_size (sg_T Q)) (zlen (queue_of tm source cl))).
  - destruct Hg as [-> ->]. done.
  - destruct Hg as (-> & _ & _ & record & _ & ->). split_and!; [split; lia|lia|]. intros _. split; [done|]. unfold zlen, packet_flits. rewrite length_app, length_fmap, length_seqZ. lia.
Qed.

Lemma packet_refused_witness :
  match simulate_mesh Sample.mesh Sample.cfg none false Sample.va Sample.sa RngOps.initial [Generate 0 3 3 0 0; Generate 0 2 3 0 0] with
  | Ok (_, tm) => returns (GeneratePacket (Sample.options 4) 0 1 2 0 0 tm) (λ '(pid, tm'),
      (pid = -1 ↔ 4 ≤ zlen (queue_of tm 0 0)) ∧ (pid = -1 → tm' = tm) ∧ (pid ≠ -1 → 0 ≤ pid ∧ zlen (queue_of tm' 0 0) = zlen (queue_of tm 0 0) + 2))
  | Fail _ => False
  end.
Proof.
  pose proof (packet_refused (mesh_steered Sample.mesh) (mesh_assembly Sample.mesh Sample.cfg none false Sample.va Sample.sa RngOps.initial) [Generate 0 3 3 0 0; Generate 0 2 3 0 0]) as HT.
  unfold simulate_mesh. destruct (simulate _ _ _) as [[answers tm]|e] eqn:E.
  - apply (HT answers tm); [apply mesh_assembly_ok, Sample.mesh_parts_ok| |by compute|by compute|done|simpl; unfold node_at, class_at; simpl; lia].
    repeat (apply Forall_cons_2; [simpl; unfold node_at, class_at; simpl; lia|]). apply Forall_nil_2.
  - assert ((match simulate (mesh_steered Sample.mesh) (mesh_assembly Sample.mesh Sample.cfg none false Sample.va Sample.sa RngOps.initial) [Generate 0 3 3 0 0; Generate 0 2 3 0 0] with Ok _ => true | Fail _ => false end) = true) as Hok by (by vm_compute).
    by rewrite E in Hok.
Defined.

(** [UpdateSimTime] is allowed when no packet is in flight, but not safe then:
    credits may still be on the way.  The only packet has been handed out and
    nothing is in flight; the time is moved forward by 10 cycles; then an assertion
    of a channel fails within six cycles, which without the change of time return. *)
Example update_sim_time_fails :
  let T := Sample.options 2 in
  let N := any_net Sample.any in
  let rf := AnyNetOps.min_anynet (ay_table Sample.any) (any_globals Sample.any) in
  let failure := λ tm, match RunCycles ISLIPRA ISLIPRA ISLIPRA rf N T 6 tm with Ok _ => None | Fail e => Some e end in
  ('(answers, tm) ← simulate_any Sample.any Sample.cfg none false Sample.any_va Sample.any_sa RngOps.initial [Generate 0 1 1 0 0; Run 18; Collect; InFlight];
   tm' ← UpdateSimTime T 10 tm;
   Ok (last answers, failure tm, failure tm')) = Ok (Some (Busy false), None, Some AssertFailed).
Proof. by vm_compute. Qed.
