(* ===== verification/GemBuffer.v ===== *)
(** * Messages and message buffers of gem5

    gem5 runs the network simulator as the network of its memory system.  Its
    controllers exchange messages through message buffers
    (gem5/src/mem/ruby/network/MessageBuffer.cc): a message is put into a buffer with
    the tick at which it can be taken out, and the consumer of the buffer is woken
    up then (gem5/src/mem/ruby/common/Consumer.cc).  A message has a set of
    destinations ([NetDest], gem5/src/mem/ruby/common/NetDest.cc).

    Ticks are times; everything happens at the edges of one clock with the period
    [period].  The heap of a buffer is the list of its messages in the order in which
    it gives them out: the counters of the messages make this order total.  Random
    delays and the replay of cache traces are off, as they are by default.  What a
    protocol puts in its messages is the parameter [B]. *)

From S2P Require Import Prelude StdMap.

(** The numbers of controllers of each type, as the protocol has them. *)
Definition MachineTypes : Set := list Z.

Module NetDestOps.
Section net_dest.
Context (types : MachineTypes).

(** [MachineType_base_count] and [MachineType_base_number], as
    gem5/src/mem/slicc/symbols/Type.py generates them: the controllers are numbered
    type by type. *)
Definition base_count (m : Z) : res Z := if (0 <=? m) && (m <? zlen types) then vget types m else Fail ErrorExit.
Definition base_number (m : Z) : Z := zsum (take (Z.to_nat m) types).

(** [NetDest]: for each type, the controllers in the set. *)
Definition New : list iset := replicate (length types) [].

Definition add (m num : Z) (d : list iset) : res (list iset) :=
  count ← base_count m;
  assert! (num <? count);
  s ← vget d m;
  vset d m (mset num tt s).

(** [removeSet] of two sets of controllers. *)
Definition removeSet (s s' : iset) : iset := foldr merase s s'.*1.
Definition removeNetDest (d d' : list iset) : res (list iset) :=
  assert! (zlen d =? zlen d');
  Ok (zip_with removeSet d d').

Definition getAllDest (d : list iset) : list Z :=
  concat ((λ '(i, s), (λ j, base_number i + j) <$> (s : iset).*1) <$> zip (seqZ 0 (zlen d)) d).
End net_dest.
End NetDestOps.

Inductive MessageSizeType : Set :=
  | Control | Data | Request_Control | Reissue_Control | Response_Data | ResponseL2hit_Data | ResponseLocal_Data
  | Response_Control | Writeback_Data | Writeback_Control | Broadcast_Control | Multicast_Control | Forwarded_Control
  | Invalidate_Control | Unblock_Control | Persistent_Control | Completion_Control.

Record Message (B : Type) : Type := mkMessage {
  ms_time : Z;
  ms_LastEnqueueTime : Z;
  ms_DelayedTicks : Z;
  ms_counter : Z;
  ms_size : MessageSizeType;
  ms_dest : list iset;
  ms_body : B
}.
Arguments mkMessage {B} _ _ _ _ _ _ _.
Arguments ms_time {B} _.
Arguments ms_LastEnqueueTime {B} _.
Arguments ms_DelayedTicks {B} _.
Arguments ms_counter {B} _.
Arguments ms_size {B} _.
Arguments ms_dest {B} _.
Arguments ms_body {B} _.

Record MessageBuffer (B : Type) : Type := mkMessageBuffer {
  mb_max_size : Z;
  mb_max_dequeue_rate : Z;
  mb_strict_fifo : bool;
  mb_allow_zero_latency : bool;
  mb_prio_heap : list (Message B);
  mb_stall_map_size : Z;
  mb_dequeues_this_cy : Z;
  mb_time_last_time_enqueue : Z;
  mb_time_last_time_pop : Z;
  mb_last_arrival_time : Z;
  mb_size_at_cycle_start : Z;
  mb_stalled_at_cycle_start : Z;
  mb_msgs_this_cycle : Z;
  mb_msg_counter : Z
}.
Arguments mkMessageBuffer {B} _ _ _ _ _ _ _ _ _ _ _ _ _ _.
Arguments mb_max_size {B} _.
Arguments mb_max_dequeue_rate {B} _.
Arguments mb_strict_fifo {B} _.
Arguments mb_allow_zero_latency {B} _.
Arguments mb_prio_heap {B} _.
Arguments mb_stall_map_size {B} _.
Arguments mb_dequeues_this_cy {B} _.
Arguments mb_time_last_time_enqueue {B} _.
Arguments mb_time_last_time_pop {B} _.
Arguments mb_last_arrival_time {B} _.
Arguments mb_size_at_cycle_start {B} _.
Arguments mb_stalled_at_cycle_start {B} _.
Arguments mb_msgs_this_cycle {B} _.
Arguments mb_msg_counter {B} _.

Module MessageOps.
Section message.
Context {B : Type}.
Implicit Types m : Message B.

Definition updateDelayedTicks (now : Z) m : res (Message B) :=
  assert! (ms_LastEnqueueTime m <=? now);
  Ok (mkMessage (ms_time m) (ms_LastEnqueueTime m) (ms_DelayedTicks m + (now - ms_LastEnqueueTime m)) (ms_counter m) (ms_size m) (ms_dest m) (ms_body m)).

(** [setLastEnqueueTime] and [setMsgCounter]. *)
Definition enqueued (arrival counter : Z) m : Message B :=
  mkMessage (ms_time m) arrival (ms_DelayedTicks m) counter (ms_size m) (ms_dest m) (ms_body m).

(** [getDestination() = d]. *)
Definition set_dest (d : list iset) m : Message B :=
  mkMessage (ms_time m) (ms_LastEnqueueTime m) (ms_DelayedTicks m) (ms_counter m) (ms_size m) d (ms_body m).

(** The order of [operator>]: [m] is given out after [m']. *)
Definition after m m' : bool :=
  if ms_LastEnqueueTime m =? ms_LastEnqueueTime m' then ms_counter m' <? ms_counter m
  else ms_LastEnqueueTime m' <? ms_LastEnqueueTime m.
End message.
End MessageOps.

Module MessageBufferOps.
Import MessageOps.
Section buffer.
Context {B : Type}.
Implicit Types (m : Message B) (b : MessageBuffer B).

(** A new buffer with its options. *)
Definition New (max_size max_dequeue_rate : Z) (ordered allow_zero_latency : bool) : MessageBuffer B :=
  mkMessageBuffer max_size max_dequeue_rate ordered allow_zero_latency [] 0 0 0 0 0 0 0 0 0.

Definition set_heap (h : list (Message B)) b : MessageBuffer B :=
  mkMessageBuffer (mb_max_size b) (mb_max_dequeue_rate b) (mb_strict_fifo b) (mb_allow_zero_latency b) h (mb_stall_map_size b) (mb_dequeues_this_cy b)
    (mb_time_last_time_enqueue b) (mb_time_last_time_pop b) (mb_last_arrival_time b) (mb_size_at_cycle_start b) (mb_stalled_at_cycle_start b)
    (mb_msgs_this_cycle b) (mb_msg_counter b).

(** [push_heap]. *)
Fixpoint push_heap (m : Message B) (h : list (Message B)) : list (Message B) :=
  match h with
  | [] => [m]
  | m' :: h' => if after m' m then m :: h else m' :: push_heap m h'
  end.

(** Whether a message can be taken out, and whether the consumer is to run in the
    next cycle because it has taken out too many. *)
Definition isReady (now : Z) b : res (bool * bool) :=
  assert! (mb_time_last_time_pop b <=? now);
  let can_dequeue := (mb_max_dequeue_rate b =? 0) || (mb_time_last_time_pop b <? now) || (mb_dequeues_this_cy b <? mb_max_dequeue_rate b) in
  let is_ready := match mb_prio_heap b with m :: _ => ms_LastEnqueueTime m <=? now | [] => false end in
  Ok (can_dequeue && is_ready, negb can_dequeue && is_ready).

Definition peekMsgPtr b : res (Message B) :=
  match mb_prio_heap b with m :: _ => Ok m | [] => Fail OutOfRange end.

(** The front message is shared with its reader, which may change it. *)
Definition update_front (f : Message B → res (Message B)) b : res (MessageBuffer B) :=
  match mb_prio_heap b with m :: h => m ← f m; Ok (set_heap (m :: h) b) | [] => Fail OutOfRange end.

Definition areNSlotsAvailable (n now : Z) b : bool :=
  (mb_max_size b =? 0) ||
  (let '(size, stalled) :=
     if mb_time_last_time_pop b <? now then (zlen (mb_prio_heap b), mb_stall_map_size b)
     else (if mb_time_last_time_enqueue b <? now then mb_size_at_cycle_start b
           else mb_size_at_cycle_start b + mb_msgs_this_cycle b, mb_stalled_at_cycle_start b) in
   size + stalled + n <=? mb_max_size b).

(** The buffer, and the tick at which its consumer is to be woken up. *)
Definition enqueue m (now delta : Z) b : res (Z * MessageBuffer B) :=
  let first := mb_time_last_time_enqueue b <? now in
  let counter := mb_msg_counter b + 1 in
  let msgs := (if first then 0 else mb_msgs_this_cycle b) + 1 in
  if (delta =? 0) && negb (mb_allow_zero_latency b) then Fail ErrorExit
  else
  let arrival := now + delta in
  assert! (now <=? arrival);
  if mb_strict_fifo b && (arrival <? mb_last_arrival_time b) then Fail ErrorExit
  else
  assert! (ms_LastEnqueueTime m <=? now);
  m ← updateDelayedTicks now m;
  let heap := push_heap (enqueued arrival counter m) (mb_prio_heap b) in
  assert! (mb_max_size b =? 0) || (zlen heap + mb_stall_map_size b <=? mb_max_size b);
  Ok (arrival, mkMessageBuffer (mb_max_size b) (mb_max_dequeue_rate b) (mb_strict_fifo b) (mb_allow_zero_latency b) heap (mb_stall_map_size b)
    (mb_dequeues_this_cy b) (if first then now else mb_time_last_time_enqueue b) (mb_time_last_time_pop b) arrival (mb_size_at_cycle_start b)
    (mb_stalled_at_cycle_start b) msgs counter).

(** The message taken out, the ticks it was delayed, and the buffer. *)
Definition dequeue (now : Z) b : res (Message B * Z * MessageBuffer B) :=
  '(ready, _) ← isReady now b;
  assert! ready;
  m ← peekMsgPtr b;
  m ← updateDelayedTicks now m;
  let first := mb_time_last_time_pop b <? now in
  Ok (m, ms_DelayedTicks m,
      mkMessageBuffer (mb_max_size b) (mb_max_dequeue_rate b) (mb_strict_fifo b) (mb_allow_zero_latency b) (tail (mb_prio_heap b)) (mb_stall_map_size b)
        ((if first then 0 else mb_dequeues_this_cy b) + 1) (mb_time_last_time_enqueue b) (if first then now else mb_time_last_time_pop b)
        (mb_last_arrival_time b) (if first then zlen (mb_prio_heap b) else mb_size_at_cycle_start b)
        (if first then mb_stall_map_size b else mb_stalled_at_cycle_start b) (mb_msgs_this_cycle b) (mb_msg_counter b)).

Definition clear b : MessageBuffer B :=
  mkMessageBuffer (mb_max_size b) (mb_max_dequeue_rate b) (mb_strict_fifo b) (mb_allow_zero_latency b) [] (mb_stall_map_size b) (mb_dequeues_this_cy b)
    0 0 (mb_last_arrival_time b) 0 0 0 0.
End buffer.
End MessageBufferOps.

(** ** Consumers *)

Module ConsumerOps.
Section consumer.
Context (period : Z).

(** A consumer is the set of ticks at which it is to be woken up. *)
Definition scheduleEvent (now cycles : Z) (ticks : iset) : iset := mset (now + period * cycles) tt ticks.
Definition scheduleEventAbsolute (t : Z) (ticks : iset) : iset := mset ((t + period - 1) / period * period) tt ticks.

(** [processCurrentEvent] takes the first tick off, which must be the current one. *)
Definition take_event (now : Z) (ticks : iset) : res iset :=
  match ticks with
  | (t, _) :: ticks => assert! (now =? t); Ok ticks
  | [] => Fail AssertFailed
  end.
End consumer.
End ConsumerOps.
