(* ===== verification/GemNetwork.v ===== *)
(** * The network of gem5's memory system

    gem5/src/mem/ruby/network/booksim: [BooksimNetwork] makes the network simulator the
    network of gem5's memory system.  The controllers are the nodes; each is linked
    to one [NetworkSwitch], which stands for one node of the simulated network.  When
    the [NetworkInterface] of a switch is woken up, the messages that have arrived in
    the queues towards the network become packets, the simulator runs, and the
    messages of the packets that have arrived are put in the queues of their
    destinations.

    The queues are shared by the controllers and the switches and are kept by node
    and virtual network; a port of a switch is the number of the node whose queues
    it has.  The simulator is known by its interface only ([BooksimWrapper]). *)

From S2P Require Import Prelude StdMap OutputSet Flit VCBuffer BufferState Arbiter Allocator AllocLaws Rng KNCube Route SwitchAlloc IQRouter IQSwitch Channel Network TrafficManager GemBuffer.
Import TMOps MessageBufferOps ConsumerOps NetDestOps.

(** The calls of the simulator, and the number of packets in its ejection queues. *)
Class BooksimWrapper (W : Type) : Type := {
  bw_GeneratePacket : Z → Z → Z → Z → Z → W → res (Z * W);
  bw_RunCycles : Z → W → res W;
  bw_RetirePacket : W → res (RetiredPacket * W);
  bw_CheckInFlightPackets : W → res bool;
  bw_ResetStats : W → W;
  bw_ejected : W → nat
}.

(** Options: the clock, the speed of the network, the controllers of the protocol
    and the sizes of messages in bytes. *)
Record GemConfig : Set := mkGemConfig {
  gc_period : Z;
  gc_speedup : Z;
  gc_types : MachineTypes;
  gc_control_msg_size : Z;
  gc_data_msg_size : Z
}.

Record NetworkSwitch : Set := mkNetworkSwitch {
  sw_id : Z;
  sw_in : list Z;
  sw_out : list Z;
  sw_dest_port : imap Z;
  sw_last_port : Z
}.

(** The message of a packet, with the switch and the queue it goes to. *)
Record BooksimMessage (B : Type) : Type := mkBooksimMessage {
  bm_switch : Z;
  bm_dest : Z;
  bm_subnet : Z;
  bm_msg : Message B
}.
Arguments mkBooksimMessage {B} _ _ _ _.
Arguments bm_switch {B} _.
Arguments bm_dest {B} _.
Arguments bm_subnet {B} _.
Arguments bm_msg {B} _.

(** The totals of the statistics. *)
Record GemStats : Set := mkGemStats {
  gs_packet_lat : Z;
  gs_network_lat : Z;
  gs_hops : Z;
  gs_cycles : Z;
  gs_inject_flits : Z;
  gs_accept_flits : Z;
  gs_inject_packets : Z;
  gs_accept_packets : Z;
  gs_node_latency : list (list Z);
  gs_node_packets : list (list Z)
}.

(** [bn_to] and [bn_from] are [m_toNetQueues] and [m_fromNetQueues]; [bn_owner] is the
    interface that consumes the queues of a node; [bn_interfaces] and
    [bn_controllers] are the ticks at which interfaces and controllers wake up. *)
Record BooksimNetwork (B W : Type) : Type := mkBooksimNetwork {
  bn_internal_cycles : Z;
  bn_switches : list NetworkSwitch;
  bn_switchID : list Z;
  bn_wakeup_cycles : Z;
  bn_packet_map : imap (BooksimMessage B);
  bn_to : list (list (option (MessageBuffer B)));
  bn_from : list (list (option (MessageBuffer B)));
  bn_owner : list (option Z);
  bn_interfaces : list iset;
  bn_controllers : list iset;
  bn_stats : GemStats;
  bn_wrapper : W
}.
Arguments mkBooksimNetwork {B W} _ _ _ _ _ _ _ _ _ _ _ _.
Arguments bn_internal_cycles {B W} _.
Arguments bn_switches {B W} _.
Arguments bn_switchID {B W} _.
Arguments bn_wakeup_cycles {B W} _.
Arguments bn_packet_map {B W} _.
Arguments bn_to {B W} _.
Arguments bn_from {B W} _.
Arguments bn_owner {B W} _.
Arguments bn_interfaces {B W} _.
Arguments bn_controllers {B W} _.
Arguments bn_stats {B W} _.
Arguments bn_wrapper {B W} _.

Section setters.
Context {B W : Type}.
Implicit Types n : BooksimNetwork B W.
Definition with_internal_cycles (x : Z) n : BooksimNetwork B W :=
  mkBooksimNetwork x (bn_switches n) (bn_switchID n) (bn_wakeup_cycles n) (bn_packet_map n) (bn_to n) (bn_from n) (bn_owner n) (bn_interfaces n) (bn_controllers n) (bn_stats n) (bn_wrapper n).
Definition with_switches (x : list NetworkSwitch) n : BooksimNetwork B W :=
  mkBooksimNetwork (bn_internal_cycles n) x (bn_switchID n) (bn_wakeup_cycles n) (bn_packet_map n) (bn_to n) (bn_from n) (bn_owner n) (bn_interfaces n) (bn_controllers n) (bn_stats n) (bn_wrapper n).
Definition with_switchID (x : list Z) n : BooksimNetwork B W :=
  mkBooksimNetwork (bn_internal_cycles n) (bn_switches n) x (bn_wakeup_cycles n) (bn_packet_map n) (bn_to n) (bn_from n) (bn_owner n) (bn_interfaces n) (bn_controllers n) (bn_stats n) (bn_wrapper n).
Definition with_wakeup_cycles (x : Z) n : BooksimNetwork B W :=
  mkBooksimNetwork (bn_internal_cycles n) (bn_switches n) (bn_switchID n) x (bn_packet_map n) (bn_to n) (bn_from n) (bn_owner n) (bn_interfaces n) (bn_controllers n) (bn_stats n) (bn_wrapper n).
Definition with_packet_map (x : imap (BooksimMessage B)) n : BooksimNetwork B W :=
  mkBooksimNetwork (bn_internal_cycles n) (bn_switches n) (bn_switchID n) (bn_wakeup_cycles n) x (bn_to n) (bn_from n) (bn_owner n) (bn_interfaces n) (bn_controllers n) (bn_stats n) (bn_wrapper n).
Definition with_to (x : list (list (option (MessageBuffer B)))) n : BooksimNetwork B W :=
  mkBooksimNetwork (bn_internal_cycles n) (bn_switches n) (bn_switchID n) (bn_wakeup_cycles n) (bn_packet_map n) x (bn_from n) (bn_owner n) (bn_interfaces n) (bn_controllers n) (bn_stats n) (bn_wrapper n).
Definition with_from (x : list (list (option (MessageBuffer B)))) n : BooksimNetwork B W :=
  mkBooksimNetwork (bn_internal_cycles n) (bn_switches n) (bn_switchID n) (bn_wakeup_cycles n) (bn_packet_map n) (bn_to n) x (bn_owner n) (bn_interfaces n) (bn_controllers n) (bn_stats n) (bn_wrapper n).
Definition with_owner (x : list (option Z)) n : BooksimNetwork B W :=
  mkBooksimNetwork (bn_internal_cycles n) (bn_switches n) (bn_switchID n) (bn_wakeup_cycles n) (bn_packet_map n) (bn_to n) (bn_from n) x (bn_interfaces n) (bn_controllers n) (bn_stats n) (bn_wrapper n).
Definition with_interfaces (x : list iset) n : BooksimNetwork B W :=
  mkBooksimNetwork (bn_internal_cycles n) (bn_switches n) (bn_switchID n) (bn_wakeup_cycles n) (bn_packet_map n) (bn_to n) (bn_from n) (bn_owner n) x (bn_controllers n) (bn_stats n) (bn_wrapper n).
Definition with_controllers (x : list iset) n : BooksimNetwork B W :=
  mkBooksimNetwork (bn_internal_cycles n) (bn_switches n) (bn_switchID n) (bn_wakeup_cycles n) (bn_packet_map n) (bn_to n) (bn_from n) (bn_owner n) (bn_interfaces n) x (bn_stats n) (bn_wrapper n).
Definition with_stats (x : GemStats) n : BooksimNetwork B W :=
  mkBooksimNetwork (bn_internal_cycles n) (bn_switches n) (bn_switchID n) (bn_wakeup_cycles n) (bn_packet_map n) (bn_to n) (bn_from n) (bn_owner n) (bn_interfaces n) (bn_controllers n) x (bn_wrapper n).
Definition with_wrapper (x : W) n : BooksimNetwork B W :=
  mkBooksimNetwork (bn_internal_cycles n) (bn_switches n) (bn_switchID n) (bn_wakeup_cycles n) (bn_packet_map n) (bn_to n) (bn_from n) (bn_owner n) (bn_interfaces n) (bn_controllers n) (bn_stats n) x.
End setters.

(** The links that [Topology::createLinks] makes, in its order, with the routing
    entries of links to controllers. *)
Inductive Link : Set :=
  | ExtIn (src dest : Z)
  | ExtOut (src dest : Z) (entries : list (list iset))
  | Internal (src dest : Z).

Module BooksimNetworkOps.
Section network.
Context {B W : Type} `{BooksimWrapper W} (G : GemConfig).
Local Abbreviation Net := (BooksimNetwork B W).
Local Abbreviation types := (gc_types G).
Local Abbreviation period := (gc_period G).
Implicit Types (st : Net) (msg : Message B).

(** ** Construction *)

(** [BooksimNetwork::BooksimNetwork]: the switches [ids], the queues of the
    controllers, and a new simulator. *)
Definition New (ids : list Z) (to from : list (list (option (MessageBuffer B)))) (wrapper : W) : Net :=
  let k := length ids in
  let zeros := replicate k (replicate k 0) in
  {| bn_internal_cycles := 0;
     bn_switches := (λ id, mkNetworkSwitch id [] [] [] 0) <$> ids;
     bn_switchID := replicate (length to) 0; bn_wakeup_cycles := 0; bn_packet_map := []; bn_to := to; bn_from := from;
     bn_owner := replicate (length to) None; bn_interfaces := replicate k []; bn_controllers := replicate (length to) [];
     bn_stats := mkGemStats 0 0 0 0 0 0 0 0 zeros zeros; bn_wrapper := wrapper |}.

(** [NetworkSwitch::addInPort] and [NetworkInterface::addInPort]: a queue that has a
    consumer must not get another. *)
Definition addInPort (i src : Z) st : res Net :=
  row ← vget (bn_to st) src;
  owner ← vget (bn_owner st) src;
  let queues := existsb (λ b, match b with Some _ => true | None => false end) row in
  match owner with
  | Some _ => if queues then Fail ErrorExit else Ok st
  | None => v ← vset (bn_owner st) src (if queues then Some i else None); Ok (with_owner v st)
  end.

Definition makeExtInLink (src dest : Z) st : res Net :=
  assert! (src <? zlen (bn_to st));
  ids ← vset (bn_switchID st) src dest;
  sw ← vget (bn_switches st) dest;
  st ← addInPort dest src (with_switchID ids st);
  sws ← vset (bn_switches st) dest (mkNetworkSwitch (sw_id sw) (sw_in sw ++ [src]) (sw_out sw) (sw_dest_port sw) (sw_last_port sw));
  Ok (with_switches sws st).

(** [NetworkSwitch::addOutPort]: all destinations of the routing entries go to the new
    port; switch 3 prints its first destination. *)
Definition addOutPort (sw : NetworkSwitch) (dest : Z) (entries : list (list iset)) : res NetworkSwitch :=
  let out := sw_out sw ++ [dest] in
  let all := entries ≫= getAllDest types in
  let ports := foldl (λ m d, mset d (zlen out - 1) m) (sw_dest_port sw) all in
  _ ← (if sw_id sw =? 3 then vget all 0 else Ok 0);
  Ok (mkNetworkSwitch (sw_id sw) (sw_in sw) out ports (sw_last_port sw)).

Definition makeExtOutLink (src dest : Z) (entries : list (list iset)) st : res Net :=
  assert! (dest <? zlen (bn_from st));
  assert! (src <? zlen (bn_switches st));
  sw ← vget (bn_switches st) src;
  sw ← addOutPort sw dest entries;
  sws ← vset (bn_switches st) src sw;
  Ok (with_switches sws st).

Definition makeLink st (l : Link) : res Net :=
  match l with
  | ExtIn src dest => makeExtInLink src dest st
  | ExtOut src dest entries => makeExtOutLink src dest entries st
  | Internal _ _ => Ok st
  end.

Fixpoint init (links : list Link) st : res Net :=
  match links with [] => Ok st | l :: links => st ← makeLink st l; init links st end.

(** ** Queues *)

Definition get_queue (qs : list (list (option (MessageBuffer B)))) (node vn : Z) : res (option (MessageBuffer B)) :=
  row ← vget qs node; vget row vn.
Definition set_queue (qs : list (list (option (MessageBuffer B)))) (node vn : Z) (b : MessageBuffer B) : res (list (list (option (MessageBuffer B)))) :=
  row ← vget qs node; row ← vset row vn (Some b); vset qs node row.

(** The queue behind a pointer, which must not be null. *)
Definition queue_at (qs : list (list (option (MessageBuffer B)))) (node vn : Z) : res (MessageBuffer B) :=
  b ← get_queue qs node vn; match b with Some b => Ok b | None => Fail OutOfRange end.

(** [NetworkSwitch::EnqueueMessage] of switch [i]; [m_dest_port[dest]] of a destination
    without an entry makes one for port 0. *)
Definition EnqueueMessage (now i dest subnet : Z) msg st : res Net :=
  sw ← vget (bn_switches st) i;
  let '(port, ports) := match mfind dest (sw_dest_port sw) with Some p => (p, sw_dest_port sw) | None => (0, mset dest 0 (sw_dest_port sw)) end in
  sws ← vset (bn_switches st) i (mkNetworkSwitch (sw_id sw) (sw_in sw) (sw_out sw) ports (sw_last_port sw));
  node ← vget (sw_out sw) port;
  b ← queue_at (bn_from st) node subnet;
  '(arrival, b) ← enqueue msg now period b;
  qs ← set_queue (bn_from st) node subnet b;
  ticks ← vget (bn_controllers st) node;
  cs ← vset (bn_controllers st) node (scheduleEventAbsolute period arrival ticks);
  Ok (with_controllers cs (with_from qs (with_switches sws st))).

(** ** Messages become packets *)

Definition MessageSizeType_to_int (s : MessageSizeType) : Z :=
  match s with
  | Data | Response_Data | ResponseLocal_Data | ResponseL2hit_Data | Writeback_Data => gc_data_msg_size G
  | _ => gc_control_msg_size G
  end.

(** [ceil(bytes * 8 / 128)]. *)
Definition flits_of (s : MessageSizeType) : Z := (MessageSizeType_to_int s * 8 + 127) / 128.

(** The controller with number [d], by its type and its number there. *)
Definition machine_of (d : Z) : option (Z * Z) :=
  (λ m, (m, d - base_number types m)) <$>
    head (List.filter (λ m, (base_number types m <=? d) && (d <? base_number types (m + 1))) (seqZ 0 (zlen types))).

(** [BooksimNetwork::getSwitchID], which takes the controllers of the types off one
    after the other. *)
Fixpoint split_node (ts : list Z) (m node : Z) : Z * Z :=
  match ts with
  | [] => (0, node)
  | count :: ts => if node <? count then (m, node) else split_node ts (m + 1) (node - count)
  end.
Definition getSwitchID (node : Z) : Z * Z := split_node types 0 node.

(** The copy of a message for destination [d] alone, and that destination. *)
Definition personal (all : list Z) (d : Z) msg : res (Message B * list iset) :=
  if 1 <? zlen all then
    match machine_of d with
    | Some (m, num) => dest ← add types m num (NetDestOps.New types); Ok (MessageOps.set_dest dest msg, dest)
    | None => Ok (msg, NetDestOps.New types)
    end
  else Ok (msg, NetDestOps.New types).

(** [updateInjectStats]. *)
Definition count_inject (size : Z) (s : GemStats) : GemStats :=
  mkGemStats (gs_packet_lat s) (gs_network_lat s) (gs_hops s) (gs_cycles s) (gs_inject_flits s + size) (gs_accept_flits s) (gs_inject_packets s + 1)
    (gs_accept_packets s) (gs_node_latency s) (gs_node_packets s).

(** [putBooksimMessage]. *)
Definition putBooksimMessage (pid dest subnet : Z) msg (packet_dest : Z) st : res Net :=
  _ ← vget (bn_switches st) packet_dest;
  Ok (with_packet_map (mset pid (mkBooksimMessage packet_dest dest subnet msg) (bn_packet_map st)) st).

(** The cycles since the message was made, as the difference of two [Cycles]. *)
Definition inject_cycle (now : Z) msg : res Z :=
  let sent := (ms_time msg + period - 1) / period in
  if now / period <? sent then Fail ErrorExit else Ok (now / period - sent).

(** One destination of the message at the front of queue [vn] of node [node]. *)
Definition read_dest (now i node vn size : Z) (all : list Z) (index : Z) (s : bool * Net) : res (bool * Net) :=
  let '(dequeue_msg, st) := s in
  sw ← vget (bn_switches st) i;
  b ← queue_at (bn_to st) node vn;
  msg ← peekMsgPtr b;
  d ← vget all index;
  '(new_msg, personal_dest) ← personal all d msg;
  packet_dest ← vget (bn_switchID st) d;
  cycles ← inject_cycle now msg;
  '(pid, st) ← (if negb (sw_id sw =? packet_dest) then
      '(pid, w) ← bw_GeneratePacket (sw_id sw) packet_dest size vn (cycles * gc_speedup G) (bn_wrapper st);
      Ok (pid, with_wrapper w st)
    else Ok (1, st));
  if -1 <? pid then
    b ← queue_at (bn_to st) node vn;
    b ← update_front (λ msg, dest ← removeNetDest (ms_dest msg) personal_dest; Ok (MessageOps.set_dest dest msg)) b;
    qs ← set_queue (bn_to st) node vn b;
    let st := with_to qs st in
    st ← (if negb (sw_id sw =? packet_dest) then
        putBooksimMessage pid d vn new_msg packet_dest (with_stats (count_inject size (bn_stats st)) st)
      else EnqueueMessage now i d vn new_msg st);
    Ok (true, st)
  else Ok (dequeue_msg, st).

(** The consumer of the queues of [node] is to run in the next cycle. *)
Definition wake_owner (now node : Z) st : res Net :=
  owner ← vget (bn_owner st) node;
  match owner with
  | Some i =>
      ticks ← vget (bn_interfaces st) i;
      v ← vset (bn_interfaces st) i (scheduleEvent period now 1 ticks);
      Ok (with_interfaces v st)
  | None => Fail OutOfRange
  end.

Definition set_last_port (i port : Z) st : res Net :=
  sw ← vget (bn_switches st) i;
  sws ← vset (bn_switches st) i (mkNetworkSwitch (sw_id sw) (sw_in sw) (sw_out sw) (sw_dest_port sw) port);
  Ok (with_switches sws st).

(** The message at the front of a queue, if it has arrived. *)
Definition read_queue (now i port node vn : Z) st : res Net :=
  q ← get_queue (bn_to st) node vn;
  match q with
  | None => Ok st
  | Some b =>
      '(ready, again) ← isReady now b;
      st ← (if (again : bool) then wake_owner now node st else Ok st);
      if (ready : bool) then
        msg ← peekMsgPtr b;
        let all := getAllDest types (ms_dest msg) in
        let size := flits_of (ms_size msg) in
        '(dequeue_msg, st) ← zfor 0 (zlen all) (read_dest now i node vn size all) (zlen all =? 0, st);
        if (dequeue_msg : bool) then
          b ← queue_at (bn_to st) node vn;
          '(_, _, b) ← dequeue now b;
          qs ← set_queue (bn_to st) node vn b;
          set_last_port i port (with_to qs st)
        else Ok st
      else Ok st
  end.

(** [NetworkSwitch::ReadMessage]: the ports from the one after the last. *)
Definition ReadMessage (now i : Z) st : res Net :=
  sw ← vget (bn_switches st) i;
  let ports := zlen (sw_in sw) in
  if 0 <? ports then
    '(_, st) ← zfor 0 ports (λ _ (s : Z * Net),
      let '(port, st) := s in
      node ← vget (sw_in sw) port;
      row ← vget (bn_to st) node;
      st ← zfor 0 (zlen row) (read_queue now i port node) st;
      Ok ((port + 1) `rem` ports, st)) ((sw_last_port sw + 1) `rem` ports, st);
    Ok st
  else Ok st.

(** ** Packets become messages *)

Definition count_cycle (s : GemStats) : GemStats :=
  mkGemStats (gs_packet_lat s) (gs_network_lat s) (gs_hops s) (gs_cycles s + 1) (gs_inject_flits s) (gs_accept_flits s) (gs_inject_packets s)
    (gs_accept_packets s) (gs_node_latency s) (gs_node_packets s).

(** [updatePacketStats]: latencies in cycles of gem5, rounded up. *)
Definition updatePacketStats (rp : RetiredPacket) (s : GemStats) : res GemStats :=
  let cycles lat := (lat + gc_speedup G - 1) `quot` gc_speedup G in
  lat ← vget2 (gs_node_latency s) (rp_src rp) (rp_dest rp);
  lats ← vset2 (gs_node_latency s) (rp_src rp) (rp_dest rp) (lat + cycles (rp_plat rp));
  count ← vget2 (gs_node_packets s) (rp_src rp) (rp_dest rp);
  counts ← vset2 (gs_node_packets s) (rp_src rp) (rp_dest rp) (count + 1);
  Ok (mkGemStats (gs_packet_lat s + cycles (rp_plat rp)) (gs_network_lat s + cycles (rp_nlat rp)) (gs_hops s + rp_hops rp) (gs_cycles s) (gs_inject_flits s)
    (gs_accept_flits s + rp_psize rp) (gs_inject_packets s) (gs_accept_packets s + 1) lats counts).

(** [enqueueBooksimMessage], whose argument is an [int]. *)
Definition enqueueBooksimMessage (now pid : Z) st : res Net :=
  let pid := to_int pid in
  st ← (match mfind pid (bn_packet_map st) with
        | Some m => EnqueueMessage now (bm_switch m) (bm_dest m) (bm_subnet m) (bm_msg m) st
        | None => Ok st
        end);
  Ok (with_packet_map (merase pid (bn_packet_map st)) st).

(** [RetirePackets]: every round takes a packet off the ejection queues. *)
Fixpoint retire_all (now : Z) (fuel : nat) st : res Net :=
  match fuel with
  | O => Fail OutOfFuel
  | S fuel =>
      '(rp, w) ← bw_RetirePacket (bn_wrapper st);
      let st := with_wrapper w st in
      st ← (if -1 <? rp_pid rp then
              s ← updatePacketStats rp (bn_stats st);
              enqueueBooksimMessage now (rp_pid rp) (with_stats s st)
            else Ok st);
      if rp_pid rp =? -1 then Ok st else retire_all now fuel st
  end.

Definition RetirePackets (now : Z) st : res Net := retire_all now (S (bw_ejected (bn_wrapper st))) st.

(** ** A wakeup *)

Definition network_cycle (now : Z) st : res Net :=
  let st := with_stats (count_cycle (bn_stats st)) st in
  st ← zfor 0 (zlen (bn_switches st)) (ReadMessage now) st;
  w ← bw_RunCycles 1 (bn_wrapper st);
  st ← RetirePackets now (with_wrapper w st);
  Ok (with_internal_cycles (bn_internal_cycles st - 1) st).

Definition RunNetwork (now : Z) st : res Net :=
  let cycles := bn_internal_cycles st + gc_speedup G in
  zfor 0 cycles (λ _, network_cycle now) (with_internal_cycles cycles st).

(** [NetworkInterface::wakeup] of switch [i]. *)
Definition wakeup (now i : Z) st : res Net :=
  if bn_wakeup_cycles st <=? now then
    st ← RunNetwork now st;
    busy ← bw_CheckInFlightPackets (bn_wrapper st);
    st ← (if (busy : bool) then
            ticks ← vget (bn_interfaces st) i;
            v ← vset (bn_interfaces st) i (scheduleEvent period now 1 ticks);
            Ok (with_interfaces v st)
          else Ok st);
    Ok (with_wakeup_cycles (now + 1) st)
  else Ok st.

(** [Consumer::processCurrentEvent] of the interface of switch [i]. *)
Definition processCurrentEvent (now i : Z) st : res Net :=
  ticks ← vget (bn_interfaces st) i;
  ticks ← take_event now ticks;
  v ← vset (bn_interfaces st) i ticks;
  wakeup now i (with_interfaces v st).

(** [BooksimNetwork::reset]: every queue of the [vnets] virtual networks is emptied. *)
Definition clear_queue (node vn : Z) (qs : list (list (option (MessageBuffer B)))) : res (list (list (option (MessageBuffer B)))) :=
  b ← queue_at qs node vn; set_queue qs node vn (clear b).
Definition reset (vnets : Z) st : res Net :=
  zfor 0 (zlen (bn_to st)) (λ node, zfor 0 vnets (λ j st,
    to ← clear_queue node j (bn_to st);
    from ← clear_queue node j (bn_from st);
    Ok (with_from from (with_to to st)))) st.

Definition clearStats st : Net := with_wrapper (bw_ResetStats (bn_wrapper st)) st.

(** ** The controllers *)

(** A controller puts a message in its queue towards the network, and takes one off
    its queue from the network. *)
Definition send (now node vn delta : Z) msg st : res Net :=
  b ← queue_at (bn_to st) node vn;
  '(arrival, b) ← enqueue msg now delta b;
  qs ← set_queue (bn_to st) node vn b;
  owner ← vget (bn_owner st) node;
  match owner with
  | Some i =>
      ticks ← vget (bn_interfaces st) i;
      v ← vset (bn_interfaces st) i (scheduleEventAbsolute period arrival ticks);
      Ok (with_interfaces v (with_to qs st))
  | None => Fail AssertFailed
  end.

Definition receive (now node vn : Z) st : res (Message B * Net) :=
  b ← queue_at (bn_from st) node vn;
  '(msg, _, b) ← dequeue now b;
  qs ← set_queue (bn_from st) node vn b;
  Ok (msg, with_from qs st).
End network.
End BooksimNetworkOps.
