(* ===== verification/GemInv.v ===== *)
(** * The network of gem5's memory system: invariants

    What the simulator promises ([WrapperLaws]), the messages on their way, and the
    invariant of [BooksimNetwork] for messages with one destination. *)

From S2P Require Import Prelude StdMap OutputSet Flit VCBuffer BufferState Arbiter Allocator AllocLaws Rng KNCube Route SwitchAlloc IQRouter IQSwitch Channel Network TrafficManager RouterRun Packets SimInv SimSpec GemBuffer GemNetwork.
Import TMOps MessageBufferOps ConsumerOps NetDestOps BooksimNetworkOps.

(** ** What the simulator promises *)

(** It behaves as the packet service with [nodes] nodes, up to the time [limit]. *)
Class WrapperLaws {W : Type} (I : BooksimWrapper W) (nodes classes room limit : Z) : Type := {
  wl_ok : Service → Z → W → Prop;
  wl_room : 0 < room;
  wl_generate s t w source dest size cl time : wl_ok s t w → 0 ≤ source < nodes → 0 ≤ dest < nodes → 0 ≤ cl < classes → 0 < size → zlen (sv_accepted s) ≤ int_max →
    returns (bw_GeneratePacket source dest size cl time w) (λ '(pid, w'), ∃ s', serves room s (Generate source dest size cl time) (Pid pid) s' ∧ wl_ok s' t w');
  wl_run s t w cycles : wl_ok s t w → 0 ≤ cycles → t + cycles ≤ limit → returns (bw_RunCycles cycles w) (wl_ok s (t + cycles));
  wl_retire s t w : wl_ok s t w → returns (bw_RetirePacket w) (λ '(p, w'),
    if rp_pid p =? -1 then wl_ok s t w'
    else fulfils (sv_accepted s) p ∧ rp_pid p ∉ sv_handed s ∧ wl_ok (mkService (sv_accepted s) (sv_handed s ++ [rp_pid p])) t w' ∧ (bw_ejected w' < bw_ejected w)%nat);
  wl_in_flight s t w : wl_ok s t w → returns (bw_CheckInFlightPackets w) (λ b, b = false ↔ sv_handed s ≡ₚ seqZ 0 (zlen (sv_accepted s)));
  wl_reset s t w : wl_ok s t w → wl_ok s t (bw_ResetStats w)
}.

(** ** Gathering *)

(** What [g] finds at each position, from position [k] on. *)
Fixpoint gather {X Y : Type} (g : Z → X → list Y) (k : Z) (l : list X) : list Y :=
  match l with [] => [] | x :: l => g k x ++ gather g (k + 1) l end.

Lemma gather_upd {X Y : Type} `{Inhabited X} (g : Z → X → list Y) l x : ∀ k i, 0 ≤ i < zlen l →
  gather g k (l⟦i := x⟧) ++ g (k + i) (l⟦i⟧) ≡ₚ gather g k l ++ g (k + i) x.
Proof.
  induction l as [|y l IH]; intros k i Hi; [unfold zlen in Hi; simpl in Hi; lia|]. destruct (decide (i = 0)) as [->|Hne].
  - unfold zupd, znth. simpl. rewrite Z.add_0_r. rewrite <- !app_assoc. rewrite (Permutation_app_comm (gather g (k + 1) l) (g k y)), (Permutation_app_comm (gather g (k + 1) l) (g k x)).
    rewrite !app_assoc. by rewrite (Permutation_app_comm (g k x) (g k y)).
  - assert (zlen (y :: l) = zlen l + 1) as El by (unfold zlen; simpl; lia). rewrite El in Hi. assert (Z.to_nat i = S (Z.to_nat (i - 1))) as Ei by lia.
    unfold zupd, znth. rewrite Ei. cbn [list_insert insert list_lookup_total lookup_total gather]. rewrite <- !app_assoc. apply Permutation_app_head.
    specialize (IH (k + 1) (i - 1) ltac:(lia)). replace (k + 1 + (i - 1)) with (k + i) in IH by lia. exact IH.
Qed.

(** ** Queues *)

Section queues.
Context {B : Type}.
Local Abbreviation Queues := (list (list (option (MessageBuffer B)))).
Implicit Types (qs : Queues) (b : MessageBuffer B).

Definition has qs (n v : Z) b : Prop := 0 ≤ n < zlen qs ∧ 0 ≤ v < zlen (qs⟦n⟧) ∧ (qs⟦n⟧)⟦v⟧ = Some b.

(** Everything in the queues, as [f] sees it. *)
Definition queued {Y : Type} (f : Z → Z → Message B → Y) qs : list Y :=
  gather (λ n row, gather (λ v q, match q with Some b => f n v <$> mb_prio_heap b | None => [] end) 0 row) 0 qs.

Lemma has_get qs n v b : has qs n v b → get_queue qs n v = Ok (Some b).
Proof. intros (H1 & H2 & H3). unfold get_queue. rewrite vget_ok by done. cbn [mbind res_bind]. rewrite vget_ok by done. by rewrite H3. Qed.

Lemma has_queue qs n v b : has qs n v b → queue_at qs n v = Ok b.
Proof. intros Hb. unfold queue_at. by rewrite (has_get _ _ _ _ Hb). Qed.

Lemma has_fun qs n v b b' : has qs n v b → has qs n v b' → b = b'.
Proof. intros (_ & _ & H1) (_ & _ & H2). congruence. Qed.

(** Queue [n], [v] has become [b]. *)
Record replaced qs (n v : Z) b b' qs' : Prop := {
  rq_len : zlen qs' = zlen qs;
  rq_rows : ∀ i, 0 ≤ i < zlen qs → zlen (qs'⟦i⟧) = zlen (qs⟦i⟧);
  rq_has : ∀ n' v' x, has qs' n' v' x ↔ if decide (n' = n ∧ v' = v) then x = b' else has qs n' v' x;
  rq_queued : ∀ {Y : Type} (f : Z → Z → Message B → Y), queued f qs' ++ (f n v <$> mb_prio_heap b) ≡ₚ queued f qs ++ (f n v <$> mb_prio_heap b')
}.

Lemma set_queue_ok qs n v b b' : has qs n v b → returns (set_queue qs n v b') (replaced qs n v b b').
Proof.
  intros (H1 & H2 & H3). unfold set_queue. rewrite (vget_ok qs) by done. cbn [mbind res_bind]. rewrite vset_ok by done. cbn [mbind res_bind]. rewrite vset_ok by done. apply returns_ok. split.
  - apply zlen_zupd.
  - intros i Hi. rewrite znth_zupd by lia. case_decide; [subst; apply zlen_zupd|done].
  - intros n' v' x. unfold has. rewrite zlen_zupd. destruct (decide (0 ≤ n' < zlen qs)) as [Hn|Hn]; [|rewrite decide_False by (intros [-> ->]; lia); tauto]. rewrite znth_zupd by lia.
    destruct (decide (n = n')) as [<-|Hne]; [|by rewrite decide_False by naive_solver]. rewrite zlen_zupd. destruct (decide (0 ≤ v' < zlen (qs⟦n⟧))) as [Hv|Hv]; [|rewrite decide_False by naive_solver; tauto].
    rewrite znth_zupd by lia. destruct (decide (v = v')) as [<-|Hne]; [rewrite decide_True by done; naive_solver|rewrite decide_False by naive_solver; done].
  - intros Y f. unfold queued. set (g := λ n v q, match q with Some b => f n v <$> mb_prio_heap b | None => [] end).
    pose proof (gather_upd (g n) (qs⟦n⟧) (Some b') 0 v H2) as Hrow. rewrite H3, Z.add_0_l in Hrow.
    pose proof (gather_upd (λ n row, gather (g n) 0 row) qs ((qs⟦n⟧)⟦v := Some b'⟧) 0 n H1) as Hqs. rewrite Z.add_0_l in Hqs.
    change (gather (λ n row, gather (g n) 0 row) 0 (qs⟦n := (qs⟦n⟧)⟦v := Some b'⟧⟧) ++ g n v (Some b) ≡ₚ gather (λ n row, gather (g n) 0 row) 0 qs ++ g n v (Some b')).
    apply (Permutation_app_inv_r (gather (g n) 0 (qs⟦n⟧))). rewrite <- !app_assoc, (Permutation_app_comm (g n v (Some b))), (Permutation_app_comm (g n v (Some b'))), !app_assoc.
    rewrite Hqs, <- !app_assoc. apply Permutation_app_head. exact Hrow.
Qed.
End queues.

(** A queue set to what it was. *)
Lemma set_queue_same {B : Type} (qs : list (list (option (MessageBuffer B)))) n v b : has qs n v b → set_queue qs n v b = Ok qs.
Proof.
  intros (H1 & H2 & H3). unfold set_queue. rewrite (vget_ok qs) by done. cbn [mbind res_bind]. rewrite vset_ok by done. cbn [mbind res_bind]. rewrite vset_ok by done.
  assert (∀ {X : Type} `{Inhabited X} (l : list X) i, 0 ≤ i < zlen l → l⟦i := l⟦i⟧⟧ = l) as Hid.
  { intros X HX l i Hi. unfold zupd. apply list_insert_id. by apply znth_lookup. }
  rewrite <- H3, !Hid by done. done.
Qed.

(** ** Buffers *)

Section buffers.
Context {B : Type}.
Implicit Types (m : Message B) (b : MessageBuffer B).

(** What a buffer does not change of a message, and its options. *)
Definition content m : Z * MessageSizeType * list iset * B := (ms_time m, ms_size m, ms_dest m, ms_body m).
Definition options_of b := (mb_max_size b, mb_max_dequeue_rate b, mb_strict_fifo b, mb_allow_zero_latency b, mb_stall_map_size b).

Lemma push_heap_perm m h : push_heap m h ≡ₚ m :: h.
Proof. induction h as [|m' h IH]; [done|]. simpl. destruct (MessageOps.after m' m); [done|]. rewrite IH. apply perm_swap. Qed.

(** There is room for one message more. *)
Definition room_for b : Prop := mb_max_size b = 0 ∨ zlen (mb_prio_heap b) + 1 + mb_stall_map_size b ≤ mb_max_size b.

Lemma enqueue_ok m now delta b : 0 < delta → (mb_strict_fifo b = true → mb_last_arrival_time b ≤ now + delta) → ms_LastEnqueueTime m ≤ now → room_for b →
  returns (enqueue m now delta b) (λ '(arrival, b'), arrival = now + delta ∧ options_of b' = options_of b ∧ mb_time_last_time_pop b' = mb_time_last_time_pop b ∧
    mb_last_arrival_time b' = now + delta ∧ ∃ m', content m' = content m ∧ mb_prio_heap b' ≡ₚ m' :: mb_prio_heap b).
Proof.
  intros Hd Hf Hl Hr. unfold enqueue. rewrite (proj2 (Z.eqb_neq delta 0)) by lia. cbn [andb]. apply returns_assert; [lia|].
  destruct (mb_strict_fifo b && _) eqn:E; [apply andb_prop in E as [E1 E2]; specialize (Hf E1); apply Z.ltb_lt in E2; lia|]. apply returns_assert; [lia|].
  unfold MessageOps.updateDelayedTicks. rewrite (proj2 (Z.leb_le _ _)) by done. cbn [cassert mbind res_bind]. apply returns_assert.
  - apply orb_true_iff. rewrite Z.eqb_eq, Z.leb_le. destruct Hr as [Hr|Hr]; [by left|right]. unfold zlen in *. rewrite (Permutation_length (push_heap_perm _ _)). cbn [length]. lia.
  - apply returns_ok. split_and!; try done. eexists. split; [|apply push_heap_perm]. done.
Qed.

Lemma dequeue_ok now b m h x : mb_prio_heap b = m :: h → isReady now b = Ok (true, x) →
  returns (dequeue now b) (λ '(m', _, b'), content m' = content m ∧ mb_prio_heap b' = h ∧ options_of b' = options_of b ∧ mb_time_last_time_pop b' ≤ now ∧
    mb_last_arrival_time b' = mb_last_arrival_time b).
Proof.
  intros Eh Er. unfold dequeue. rewrite Er. cbn [mbind res_bind cassert]. unfold peekMsgPtr. rewrite Eh. cbn [mbind res_bind tail].
  unfold isReady in Er. destruct (mb_time_last_time_pop b <=? now) eqn:Ep; [|done]. cbn [cassert mbind res_bind] in Er. rewrite Eh in Er. injection Er as Er _. apply andb_prop in Er as [_ Er].
  unfold MessageOps.updateDelayedTicks. rewrite Er. cbn [cassert mbind res_bind]. apply returns_ok. split_and!; try done. simpl. case_match; [lia|bool_to_prop; lia].
Qed.

(** A buffer with a message that can be taken out. *)
Lemma isReady_ok now b : mb_time_last_time_pop b ≤ now →
  returns (isReady now b) (λ '(ready, _), ready = true → ∃ m h, mb_prio_heap b = m :: h ∧ ms_LastEnqueueTime m ≤ now).
Proof.
  intros Hp. unfold isReady. apply returns_assert; [lia|]. apply returns_ok. intros E. apply andb_prop in E as [_ E]. destruct (mb_prio_heap b) as [|m h]; [done|]. exists m, h. split; [done|lia].
Qed.
End buffers.

(** ** Maps *)

Lemma mset_perm {A : Type} k (x : A) m : mfind k m = None → (mset k x m).*2 ≡ₚ x :: m.*2.
Proof.
  induction m as [|[k' x'] m IH]; [done|]. simpl. intros Hf. destruct (Z.eqb_spec k' k) as [|Hne]; [done|]. destruct (k <? k') eqn:E2; [done|]. rewrite (proj2 (Z.eqb_neq k k')) by lia.
  rewrite !fmap_cons. cbn [snd]. rewrite (IH Hf). apply perm_swap.
Qed.

Lemma merase_perm {A : Type} k (x : A) m : mfind k m = Some x → m.*2 ≡ₚ x :: (merase k m).*2.
Proof.
  induction m as [|[k' x'] m IH]; [done|]. simpl. destruct (k' =? k); intros Hf; [by injection Hf as ->|]. rewrite !fmap_cons. cbn [snd]. rewrite (IH Hf) at 1. apply perm_swap.
Qed.

(** ** Messages on their way *)

#[export] Instance NetworkSwitch_inhabited : Inhabited NetworkSwitch := populate (mkNetworkSwitch 0 [] [] [] 0).

(** A message for a queue of a controller. *)
Record Item (B : Type) : Type := mkItem {
  it_node : Z;
  it_vnet : Z;
  it_content : Z * MessageSizeType * list iset * B
}.
Arguments mkItem {B} _ _ _.

Definition item {B : Type} (n v : Z) (m : Message B) : Item B := mkItem n v (content m).

Section network.
Context {B W : Type} {I : BooksimWrapper W} (G : GemConfig) (switches controllers classes room limit : Z).
Context (HL : WrapperLaws I switches classes room limit).
Local Abbreviation Net := (BooksimNetwork B W).
Implicit Types (st : Net) (m : Message B) (s : Service) (now t : Z) (sent consumed : list (Item B)).

(** The destination of a message that has one. *)
Definition dest_of m : Z := match getAllDest (gc_types G) (ms_dest m) with d :: _ => d | [] => 0 end.

(** Where messages are: in the queues towards the network, in packets, and in the
    queues from the network. *)
Definition pending st : list (Item B) := queued (λ _ v m, item (dest_of m) v m) (bn_to st).
Definition flying st : list (Item B) := (λ x, item (bm_dest x) (bm_subnet x) (bm_msg x)) <$> (bn_packet_map st).*2.
Definition arrived st : list (Item B) := queued item (bn_from st).

(** The switches and their links. *)
Record linked (sws : list NetworkSwitch) (ids : list Z) : Prop := {
  lk_switches : zlen sws = switches;
  lk_id : ∀ i, 0 ≤ i < switches → sw_id (sws⟦i⟧) = i ∧ 0 ≤ sw_last_port (sws⟦i⟧);
  lk_in : ∀ i, 0 ≤ i < switches → Forall (λ n, 0 ≤ n < controllers) (sw_in (sws⟦i⟧));
  lk_ids : zlen ids = controllers ∧ ∀ d, 0 ≤ d < controllers → 0 ≤ ids⟦d⟧ < switches;
  lk_out : ∀ d, 0 ≤ d < controllers → ∃ p, mfind d (sw_dest_port (sws⟦ids⟦d⟧⟧)) = Some p ∧ 0 ≤ p < zlen (sw_out (sws⟦ids⟦d⟧⟧)) ∧ (sw_out (sws⟦ids⟦d⟧⟧))⟦p⟧ = d
}.

(** A message with one destination, which has a queue for it. *)
Definition unicast (from : list (list (option (MessageBuffer B)))) (v : Z) m : Prop :=
  zlen (ms_dest m) = zlen (gc_types G) ∧ ∃ d b, getAllDest (gc_types G) (ms_dest m) = [d] ∧ 0 ≤ d < controllers ∧ has from d v b.

(** The queues on both sides; those from the network are not bounded. *)
Definition to_ok now (from : list (list (option (MessageBuffer B)))) (v : Z) (b : MessageBuffer B) : Prop :=
  0 ≤ v < classes ∧ mb_time_last_time_pop b ≤ now ∧ Forall (λ m, unicast from v m ∧ ms_time m ≤ now) (mb_prio_heap b).
Definition from_ok now (b : MessageBuffer B) : Prop :=
  mb_max_size b = 0 ∧ mb_time_last_time_pop b ≤ now ∧ mb_last_arrival_time b ≤ now + gc_period G.

(** A message in a packet. *)
Definition carried now (ids : list Z) (from : list (list (option (MessageBuffer B)))) (x : BooksimMessage B) : Prop :=
  0 ≤ bm_dest x < controllers ∧ bm_switch x = ids⟦bm_dest x⟧ ∧ (∃ b, has from (bm_dest x) (bm_subnet x) b) ∧ ms_LastEnqueueTime (bm_msg x) ≤ now.

Record parts_ok now st : Prop := {
  pt_linked : linked (bn_switches st) (bn_switchID st);
  pt_to_len : zlen (bn_to st) = controllers;
  pt_from_len : zlen (bn_from st) = controllers;
  pt_owner_len : zlen (bn_owner st) = controllers;
  pt_owner : ∀ n v b, has (bn_to st) n v b → ∃ i, (bn_owner st)⟦n⟧ = Some i ∧ 0 ≤ i < switches;
  pt_interfaces : zlen (bn_interfaces st) = switches;
  pt_controllers : zlen (bn_controllers st) = controllers;
  pt_latency : grid switches switches (gs_node_latency (bn_stats st));
  pt_packets : grid switches switches (gs_node_packets (bn_stats st));
  pt_to : ∀ n v b, has (bn_to st) n v b → to_ok now (bn_from st) v b;
  pt_from : ∀ n v b, has (bn_from st) n v b → from_ok now b;
  pt_sorted : msorted (bn_packet_map st);
  pt_map : ∀ pid x, mfind pid (bn_packet_map st) = Some x → carried now (bn_switchID st) (bn_from st) x;
  pt_ticks : ∀ i, 0 ≤ i < switches → msorted ((bn_interfaces st)⟦i⟧)
}.

Definition order_ok (o : Order) : Prop := 0 ≤ or_src o < switches ∧ 0 ≤ or_dest o < switches.

(** [sent] has been put in the queues towards the network, [consumed] been taken off
    those from it; the simulator has accepted and handed out as [s] says. *)
Record inv sent consumed s t now st : Prop := {
  iv_parts : parts_ok now st;
  iv_wrapper : wl_ok s t (bn_wrapper st);
  iv_orders : Forall order_ok (sv_accepted s);
  iv_handed : Forall (λ p, 0 ≤ p < zlen (sv_accepted s)) (sv_handed s);
  iv_map : ∀ pid, (∃ x, mfind pid (bn_packet_map st) = Some x) ↔ 0 ≤ pid < zlen (sv_accepted s) ∧ pid ∉ sv_handed s;
  iv_count : zlen (sv_accepted s) + zlen (pending st) ≤ zlen sent ≤ int_max + 1;
  iv_conserve : sent ≡ₚ pending st ++ flying st ++ arrived st ++ consumed
}.

(** The options that matter. *)
Record options_ok : Prop := {
  op_period : 0 < gc_period G;
  op_speedup : 0 < gc_speedup G;
  op_control : 0 < gc_control_msg_size G;
  op_data : 0 < gc_data_msg_size G
}.
Context (HO : options_ok).

Lemma flits_pos z : 0 < flits_of G z.
Proof. unfold flits_of. destruct HO as [_ _ H1 H2]. apply Z.div_str_pos. destruct z; simpl; lia. Qed.

Lemma to_ok_mono now from from' v b : (∀ n v b, has from n v b → ∃ b', has from' n v b') → to_ok now from v b → to_ok now from' v b.
Proof.
  intros Hf (H1 & H2 & H3). split; [done|]. split; [done|]. eapply Forall_impl; [exact H3|]. intros m ((E & d & x & Ed & Hd & Hx) & Ht). split; [|done]. split; [done|].
  destruct (Hf _ _ _ Hx) as [y Hy]. by exists d, y.
Qed.

(** ** Delivery *)

Lemma EnqueueMessage_ok now d v m st b : linked (bn_switches st) (bn_switchID st) → zlen (bn_controllers st) = controllers → 0 ≤ d < controllers → has (bn_from st) d v b →
  from_ok now b → ms_LastEnqueueTime m ≤ now →
  returns (EnqueueMessage G now ((bn_switchID st)⟦d⟧) d v m st) (λ st', ∃ qs cs b' m', st' = with_controllers cs (with_from qs st) ∧ zlen cs = controllers ∧
    replaced (bn_from st) d v b b' qs ∧ from_ok now b' ∧ content m' = content m ∧ mb_prio_heap b' ≡ₚ m' :: mb_prio_heap b).
Proof.
  intros [L1 L2 L3 [L4 L5] L6] Hct Hd Hb (F1 & F2 & F3) Hm. destruct (L6 d Hd) as (p & Hp & Hr & Eo). specialize (L5 d Hd). unfold EnqueueMessage. rewrite vget_ok by lia. cbn [mbind res_bind]. rewrite Hp.
  apply returns_vset; [lia|]. apply returns_vget; [lia|]. rewrite Eo, (has_queue _ _ _ _ Hb). cbn [mbind res_bind].
  eapply returns_bind; [apply enqueue_ok; [apply HO|intros _; lia|done|by left]|]. intros [arrival b'] (-> & Eopt & Epop & Earr & m' & Em & Hh).
  eapply returns_bind; [by apply (set_queue_ok _ _ _ b)|]. intros qs Hqs. apply returns_vget; [lia|]. apply returns_vset; [lia|]. apply returns_ok.
  assert ((bn_switches st)⟦(bn_switchID st)⟦d⟧ := mkNetworkSwitch (sw_id ((bn_switches st)⟦(bn_switchID st)⟦d⟧⟧)) (sw_in ((bn_switches st)⟦(bn_switchID st)⟦d⟧⟧))
    (sw_out ((bn_switches st)⟦(bn_switchID st)⟦d⟧⟧)) (sw_dest_port ((bn_switches st)⟦(bn_switchID st)⟦d⟧⟧)) (sw_last_port ((bn_switches st)⟦(bn_switchID st)⟦d⟧⟧))⟧ = bn_switches st) as ->.
  { unfold zupd. apply list_insert_id. rewrite znth_lookup by lia. by destruct ((bn_switches st)⟦_⟧). }
  eexists qs, _, b', m'. split; [by destruct st|]. split; [by rewrite zlen_zupd|]. split; [done|]. split; [|done]. unfold options_of in Eopt. injection Eopt as E1 _ _ _ _. split_and!; [by rewrite E1|by rewrite Epop|lia].
Qed.
(** ** What a change keeps *)

Lemma has_replaced qs (n v : Z) (b b' : MessageBuffer B) qs' : replaced qs n v b b' qs' → has qs n v b → ∀ n' v' x, has qs n' v' x → ∃ y, has qs' n' v' y.
Proof. intros [_ _ Hh _] Hb n' v' x Hx. destruct (decide (n' = n ∧ v' = v)) as [E|E]; [exists b'; rewrite Hh; by rewrite decide_True|exists x; rewrite Hh; by rewrite decide_False]. Qed.

Lemma has_back qs (n v : Z) (b b' : MessageBuffer B) qs' : replaced qs n v b b' qs' → has qs n v b → ∀ n' v' x, has qs' n' v' x → ∃ y, has qs n' v' y ∧ ((n' = n ∧ v' = v) ∧ x = b' ∨ x = y).
Proof.
  intros [_ _ Hh _] Hb n' v' x Hx. rewrite Hh in Hx. destruct (decide (n' = n ∧ v' = v)) as [[-> ->]|E]; [exists b; split; [done|left; done]|exists x; auto].
Qed.

Lemma parts_to now st n v b b' qs : parts_ok now st → has (bn_to st) n v b → replaced (bn_to st) n v b b' qs → to_ok now (bn_from st) v b' → parts_ok now (with_to qs st).
Proof.
  intros [P1 P2 P3 P4 P5 P6 P7 P8 P9 P10 P11 P12 P13 P14] Hb Hr Hok. split; try done; simpl.
  - by rewrite (rq_len _ _ _ _ _ _ Hr).
  - intros n' v' x Hx. destruct (has_back _ _ _ _ _ _ Hr Hb _ _ _ Hx) as (y & Hy & _). by eapply P5.
  - intros n' v' x Hx. destruct (has_back _ _ _ _ _ _ Hr Hb _ _ _ Hx) as (y & Hy & [([-> ->] & ->)| ->]); [done|by eapply P10].
Qed.

Lemma parts_from now st n v b b' qs cs : parts_ok now st → has (bn_from st) n v b → replaced (bn_from st) n v b b' qs → from_ok now b' → zlen cs = controllers →
  parts_ok now (with_controllers cs (with_from qs st)).
Proof.
  intros [P1 P2 P3 P4 P5 P6 P7 P8 P9 P10 P11 P12 P13 P14] Hb Hr Hok Hcs. pose proof (has_replaced _ _ _ _ _ _ Hr Hb) as Hf. split; try done; simpl.
  - by rewrite (rq_len _ _ _ _ _ _ Hr).
  - intros n' v' x Hx. eapply to_ok_mono; [exact Hf|by eapply P10].
  - intros n' v' x Hx. destruct (has_back _ _ _ _ _ _ Hr Hb _ _ _ Hx) as (y & Hy & [([-> ->] & ->)| ->]); [done|by eapply P11].
  - intros pid x Hx. destruct (P13 pid x Hx) as (C1 & C2 & (y & Hy) & C4). split; [done|]. split; [done|]. split; [by eapply Hf|done].
Qed.

Lemma parts_map now st pid x : parts_ok now st → carried now (bn_switchID st) (bn_from st) x → parts_ok now (with_packet_map (mset pid x (bn_packet_map st)) st).
Proof.
  intros [P1 P2 P3 P4 P5 P6 P7 P8 P9 P10 P11 P12 P13 P14] Hx. split; try done; simpl; [by apply msorted_mset|]. intros p y. rewrite mfind_mset by done. case_match; [intros E; by injection E as <-|apply P13].
Qed.

Lemma parts_erase now st pid : parts_ok now st → parts_ok now (with_packet_map (merase pid (bn_packet_map st)) st).
Proof.
  intros [P1 P2 P3 P4 P5 P6 P7 P8 P9 P10 P11 P12 P13 P14]. split; try done; simpl; [by apply msorted_merase|]. intros p y. rewrite mfind_merase by done. case_match; [done|apply P13].
Qed.

Lemma parts_stats now st x : parts_ok now st → grid switches switches (gs_node_latency x) → grid switches switches (gs_node_packets x) → parts_ok now (with_stats x st).
Proof. intros [] H1 H2. by split. Qed.

Lemma parts_wrapper now st w : parts_ok now st → parts_ok now (with_wrapper w st).
Proof. intros []. by split. Qed.

(** A tick more for an interface. *)
Lemma parts_tick now st i x : parts_ok now st → 0 ≤ i < switches → parts_ok now (with_interfaces ((bn_interfaces st)⟦i := mset x tt ((bn_interfaces st)⟦i⟧)⟧) st).
Proof.
  intros [P1 P2 P3 P4 P5 P6 P7 P8 P9 P10 P11 P12 P13 P14] Hi. split; try done; simpl; [by rewrite zlen_zupd|]. intros j Hj. rewrite znth_zupd by lia. case_decide; [apply msorted_mset; by apply P14|by apply P14].
Qed.

(** A switch remembers another port. *)
Lemma set_last_port_ok now st i port : parts_ok now st → 0 ≤ i < switches → 0 ≤ port →
  returns (set_last_port i port st) (λ st', ∃ sws, st' = with_switches sws st ∧ (∀ j, 0 ≤ j < switches → sw_in (sws⟦j⟧) = sw_in ((bn_switches st)⟦j⟧)) ∧ parts_ok now st').
Proof.
  intros [P1 P2 P3 P4 P5 P6 P7 P8 P9 P10 P11 P12 P13 P14] Hi Hp. pose proof P1 as [L1 L2 L3 L4 L5]. unfold set_last_port. apply returns_vget; [lia|]. apply returns_vset; [lia|]. apply returns_ok. eexists. split; [done|].
  set (sw' := mkNetworkSwitch _ _ _ _ _).
  assert (∀ j, 0 ≤ j < switches → ∃ q, 0 ≤ q ∧ (bn_switches st)⟦i := sw'⟧⟦j⟧ = mkNetworkSwitch (sw_id ((bn_switches st)⟦j⟧)) (sw_in ((bn_switches st)⟦j⟧)) (sw_out ((bn_switches st)⟦j⟧)) (sw_dest_port ((bn_switches st)⟦j⟧)) q) as Hsw.
  { intros j Hj. rewrite znth_zupd by lia. case_decide; [subst j; exists port; done|]. exists (sw_last_port ((bn_switches st)⟦j⟧)). split; [by apply L2|by destruct ((bn_switches st)⟦j⟧)]. }
  split; [intros j Hj; by destruct (Hsw j Hj) as (q & _ & ->)|]. split; try done. simpl. split; [by rewrite zlen_zupd| | |done|].
  - intros j Hj. destruct (Hsw j Hj) as (q & Hq & ->). simpl. split; [by apply L2|done].
  - intros j Hj. destruct (Hsw j Hj) as (q & Hq & ->). simpl. by apply L3.
  - intros d Hd. destruct (Hsw ((bn_switchID st)⟦d⟧)) as (q & Hq & ->); [by apply L4|]. simpl. by apply L5.
Qed.

(** ** Reading *)

Lemma inject_cycle_ok now m : ms_time m ≤ now → now mod gc_period G = 0 → returns (inject_cycle G now m) (λ _, True).
Proof.
  intros Ht Hn. destruct HO as [Hp _ _ _]. unfold inject_cycle. assert ((ms_time m + gc_period G - 1) / gc_period G ≤ now / gc_period G) as Hle.
  { pose proof (Z.div_mod now (gc_period G) ltac:(lia)) as E. rewrite Hn in E. assert ((ms_time m + gc_period G - 1) / gc_period G < now / gc_period G + 1); [|lia]. apply Z.div_lt_upper_bound; lia. }
  rewrite (proj2 (Z.ltb_ge _ _)) by done. by apply returns_ok.
Qed.

(** A message with one destination is not changed. *)
Lemma personal_one d m : personal G [d] d m = Ok (m, NetDestOps.New (gc_types G)).
Proof. done. Qed.

Lemma remove_nothing m : zlen (ms_dest m) = zlen (gc_types G) → removeNetDest (ms_dest m) (NetDestOps.New (gc_types G)) = Ok (ms_dest m).
Proof.
  intros E. unfold removeNetDest, NetDestOps.New. unfold zlen in *. rewrite length_replicate, (proj2 (Z.eqb_eq _ _)) by done. cbn [cassert mbind res_bind]. f_equal.
  assert (length (ms_dest m) = length (gc_types G)) as El by lia. clear E. revert El. generalize (length (gc_types G)). induction (ms_dest m) as [|s l IH]; intros [|n] E; try done. simpl. f_equal. by apply IH; injection E.
Qed.

(** What becomes of a message with one destination [d]: the simulator has no room for
    it, it is in a packet, or it has been put in the queue of [d]. *)
Inductive read_as now (v d : Z) m s t st : bool → Service → Net → Prop :=
  | read_refused w : wl_ok s t w → read_as now v d m s t st false s (with_wrapper w st)
  | read_packet w order x : wl_ok (mkService (sv_accepted s ++ [order]) (sv_handed s)) t w → order_ok order →
      gs_node_latency x = gs_node_latency (bn_stats st) → gs_node_packets x = gs_node_packets (bn_stats st) → gs_cycles x = gs_cycles (bn_stats st) →
      read_as now v d m s t st true (mkService (sv_accepted s ++ [order]) (sv_handed s))
        (with_packet_map (mset (zlen (sv_accepted s)) (mkBooksimMessage ((bn_switchID st)⟦d⟧) d v m) (bn_packet_map st)) (with_stats x (with_wrapper w st)))
  | read_local qs cs b b' m' : has (bn_from st) d v b → zlen cs = controllers → replaced (bn_from st) d v b b' qs → from_ok now b' → content m' = content m →
      mb_prio_heap b' ≡ₚ m' :: mb_prio_heap b → read_as now v d m s t st true s (with_controllers cs (with_from qs st)).

Lemma read_dest_ok sent consumed s t now st i n v b m h d : inv sent consumed s t now st → 0 ≤ i < switches → has (bn_to st) n v b → mb_prio_heap b = m :: h →
  ms_LastEnqueueTime m ≤ now → now mod gc_period G = 0 → getAllDest (gc_types G) (ms_dest m) = [d] → zlen (sv_accepted s) ≤ int_max →
  returns (read_dest G now i n v (flits_of G (ms_size m)) [d] 0 (false, st)) (λ '(dq, st'), ∃ s', read_as now v d m s t st dq s' st').
Proof.
  intros [HP HW _ _ _ _ _] Hi Hb Eh Hl Hn Ed Ha. pose proof HP as [P1 P2 P3 P4 P5 P6 P7 P8 P9 P10 P11 P12 P13 P14]. pose proof P1 as [L1 L2 L3 [L4 L5] L6].
  destruct (P10 _ _ _ Hb) as (Hv & Hpop & Hms). rewrite Eh in Hms. apply Forall_cons in Hms as [((Hz & d' & bd & Ed' & Hd & Hbd) & Ht) _]. rewrite Ed in Ed'. injection Ed' as <-. specialize (L5 d Hd).
  unfold read_dest. apply returns_vget; [lia|]. rewrite (has_queue _ _ _ _ Hb). cbn [mbind res_bind]. unfold peekMsgPtr. rewrite Eh. cbn [mbind res_bind].
  change (vget [d] 0) with (Ok d). cbn [mbind res_bind]. rewrite personal_one. cbn [mbind res_bind]. apply returns_vget; [lia|].
  eapply returns_bind; [by apply inject_cycle_ok|]. intros c _. destruct (L2 i Hi) as [-> _].
  assert (update_front (λ msg, dest ← removeNetDest (ms_dest msg) (NetDestOps.New (gc_types G)); Ok (MessageOps.set_dest dest msg)) b = Ok b) as Hfront.
  { unfold update_front. rewrite Eh, remove_nothing by done. cbn [mbind res_bind]. destruct b, m. simpl in Eh. by subst. }
  destruct (Z.eqb_spec i ((bn_switchID st)⟦d⟧)) as [->|Hne]; cbn [negb].
  - cbn [mbind res_bind]. change (-1 <? 1) with true. cbn match. rewrite (has_queue _ _ _ _ Hb). cbn [mbind res_bind]. rewrite Hfront. cbn [mbind res_bind]. rewrite (set_queue_same _ _ _ _ Hb). cbn [mbind res_bind].
    replace (with_to (bn_to st) st) with st by (by destruct st).
    eapply returns_bind; [by apply (EnqueueMessage_ok now d v m st bd); [..|by eapply P11|]|]. intros st' (qs & cs & b' & m' & -> & H1 & H2 & H3 & H4 & H5). apply returns_ok. exists s. by eapply read_local.
  - apply (returns_bind _ _ (λ '(pid, st'), ∃ w s', st' = with_wrapper w st ∧ serves room s (Generate i ((bn_switchID st)⟦d⟧) (flits_of G (ms_size m)) v (c * gc_speedup G)) (Pid pid) s' ∧ wl_ok s' t w)).
    { eapply returns_bind; [by apply (wl_generate s t _ i ((bn_switchID st)⟦d⟧) (flits_of G (ms_size m)) v (c * gc_speedup G)); [..|apply flits_pos|]|]. intros [pid w] (s' & Hs & Hw). apply returns_ok. by exists w, s'. }
    intros [pid st'] (w & s' & -> & Hs & Hw). inversion Hs; subst.
    + pose proof (zlen_nonneg (sv_accepted s)). rewrite (proj2 (Z.ltb_lt _ _)) by lia. cbn [bn_to with_wrapper]. rewrite (has_queue _ _ _ _ Hb). cbn [mbind res_bind]. rewrite Hfront. cbn [mbind res_bind]. rewrite (set_queue_same _ _ _ _ Hb). cbn [mbind res_bind].
      replace (with_to (bn_to st) (with_wrapper w st)) with (with_wrapper w st) by (by destruct st). unfold putBooksimMessage. cbn [bn_switches with_stats with_wrapper]. apply returns_bind with (P := λ st', st' = with_packet_map (mset (zlen (sv_accepted s)) (mkBooksimMessage ((bn_switchID st)⟦d⟧) d v m) (bn_packet_map st)) (with_stats (count_inject (flits_of G (ms_size m)) (bn_stats st)) (with_wrapper w st))).
      { apply returns_vget; [lia|]. by apply returns_ok. }
      intros st' ->. apply returns_ok. eexists. by eapply read_packet.
    + change (-1 <? -1) with false. apply returns_ok. exists s'. by apply read_refused.
Qed.

(** What reading does not change of the rest. *)
Definition kept st st' : Prop :=
  (∀ i, 0 ≤ i < switches → sw_in ((bn_switches st')⟦i⟧) = sw_in ((bn_switches st)⟦i⟧)) ∧ (∀ n, 0 ≤ n < controllers → zlen ((bn_to st')⟦n⟧) = zlen ((bn_to st)⟦n⟧)) ∧
  gs_cycles (bn_stats st') = gs_cycles (bn_stats st) ∧ bn_internal_cycles st' = bn_internal_cycles st ∧ bn_wakeup_cycles st' = bn_wakeup_cycles st.

Lemma kept_refl st : kept st st.
Proof. done. Qed.

Lemma kept_trans st st' st2 : kept st st' → kept st' st2 → kept st st2.
Proof. intros (A1 & A2 & A3 & A4 & A5) (B1 & B2 & B3 & B4 & B5). split_and!; [intros i Hi; by rewrite B1, A1|intros n Hn; by rewrite B2, A2|congruence..]. Qed.

(** A message taken off a queue, and one put in. *)
Lemma queued_drop {Y : Type} (f : Z → Z → Message B → Y) qs n v (b b' : MessageBuffer B) m h qs' : replaced qs n v b b' qs' → mb_prio_heap b = m :: h → mb_prio_heap b' = h →
  queued f qs ≡ₚ f n v m :: queued f qs'.
Proof.
  intros [_ _ _ Hq] E E'. specialize (Hq Y f). rewrite E, E', fmap_cons in Hq. apply (Permutation_app_inv_r (f n v <$> h)). rewrite <- Hq. by rewrite <- Permutation_middle.
Qed.

Lemma queued_put {Y : Type} (f : Z → Z → Message B → Y) qs n v (b b' : MessageBuffer B) m qs' : replaced qs n v b b' qs' → mb_prio_heap b' ≡ₚ m :: mb_prio_heap b →
  queued f qs' ≡ₚ f n v m :: queued f qs.
Proof.
  intros [_ _ _ Hq] E. specialize (Hq Y f). rewrite E, fmap_cons in Hq. apply (Permutation_app_inv_r (f n v <$> mb_prio_heap b)). rewrite Hq. by rewrite <- Permutation_middle.
Qed.

Lemma zfor_one {S : Type} (body : Z → S → res S) x : zfor 0 1 body x = body 0 x.
Proof. unfold zfor. simpl. by destruct (body 0 x). Qed.

Lemma wake_owner_ok sent consumed s t now st n v b : inv sent consumed s t now st → has (bn_to st) n v b →
  returns (wake_owner G now n st) (λ st', inv sent consumed s t now st' ∧ kept st st' ∧ bn_to st' = bn_to st).
Proof.
  intros [HP HW HO' HH HM HC HS] Hb. pose proof HP as [P1 P2 P3 P4 P5 P6 P7 P8 P9 P10 P11 P12 P13 P14]. destruct (P5 _ _ _ Hb) as (i & Ei & Hi). unfold wake_owner. destruct Hb as (Hn & _).
  apply returns_vget; [lia|]. rewrite Ei. apply returns_vget; [lia|]. apply returns_vset; [lia|]. apply returns_ok. split_and!; [|done..]. split; try done. by apply parts_tick.
Qed.

(** The simulator has no room: only its state has changed. *)
Lemma inv_wrapper sent consumed s t now st w : inv sent consumed s t now st → wl_ok s t w → inv sent consumed s t now (with_wrapper w st).
Proof. intros [HP HW HO' HH HM HC HS] Hw. split; try done. by apply parts_wrapper. Qed.

(** The message is in a packet, and off its queue. *)
Lemma inv_packet sent consumed s t now st w order x n v b b' m h d qs : inv sent consumed s t now st → has (bn_to st) n v b → mb_prio_heap b = m :: h → ms_LastEnqueueTime m ≤ now →
  getAllDest (gc_types G) (ms_dest m) = [d] → wl_ok (mkService (sv_accepted s ++ [order]) (sv_handed s)) t w → order_ok order →
  gs_node_latency x = gs_node_latency (bn_stats st) → gs_node_packets x = gs_node_packets (bn_stats st) →
  replaced (bn_to st) n v b b' qs → mb_prio_heap b' = h → mb_time_last_time_pop b' ≤ now →
  inv sent consumed (mkService (sv_accepted s ++ [order]) (sv_handed s)) t now
    (with_to qs (with_packet_map (mset (zlen (sv_accepted s)) (mkBooksimMessage ((bn_switchID st)⟦d⟧) d v m) (bn_packet_map st)) (with_stats x (with_wrapper w st)))).
Proof.
  intros [HP HW HO' HH HM HC HS] Hb Eh Hl Ed Hw Ho E1 E2 Hr Eh' Hpop. pose proof HP as [P1 P2 P3 P4 P5 P6 P7 P8 P9 P10 P11 P12 P13 P14].
  destruct (P10 _ _ _ Hb) as (Hv & _ & Hms). rewrite Eh in Hms. apply Forall_cons in Hms as [((_ & d' & bd & Ed' & Hd & Hbd) & _) Hms]. rewrite Ed in Ed'. injection Ed' as <-.
  pose proof (queued_drop (λ _ v m, item (dest_of m) v m) _ _ _ _ _ _ _ _ Hr Eh Eh') as Hdrop. cbn beta in Hdrop. unfold dest_of in Hdrop at 2. rewrite Ed in Hdrop. fold (pending st) in Hdrop.
  assert (mfind (zlen (sv_accepted s)) (bn_packet_map st) = None) as Hnone.
  { destruct (mfind (zlen (sv_accepted s)) (bn_packet_map st)) eqn:E; [|done]. destruct (proj1 (HM _) (ex_intro _ _ E)) as [[]]. lia. }
  split.
  - eapply parts_to; [apply (parts_map now (with_stats x (with_wrapper w st))); [apply parts_stats; [by apply parts_wrapper|by rewrite E1|by rewrite E2]|]|exact Hb|exact Hr|by unfold to_ok; rewrite Eh'].
    split; [done|]. split; [done|]. split; [by exists bd|done].
  - done.
  - by apply Forall_app_2; [|apply Forall_singleton].
  - simpl. rewrite zlen_snoc. eapply Forall_impl; [exact HH|]. simpl. lia.
  - intros pid. simpl. rewrite mfind_mset, zlen_snoc by done. destruct (decide (pid = zlen (sv_accepted s))) as [->|Hne].
    + split; [intros _|by eexists]. pose proof (zlen_nonneg (sv_accepted s)). split; [lia|]. intros Hx. rewrite Forall_forall in HH. specialize (HH _ Hx). lia.
    + rewrite HM. simpl. split; intros [? ?]; (split; [lia|done]).
  - simpl. rewrite zlen_snoc. unfold pending at 1. simpl. assert (zlen (pending st) = 1 + zlen (queued (λ _ v m, item (dest_of m) v m) qs)) as El by (unfold zlen; rewrite Hdrop; simpl; lia). lia.
  - rewrite HS, Hdrop. unfold pending, flying, arrived. simpl. rewrite mset_perm by done. rewrite fmap_cons. simpl. by rewrite <- Permutation_middle.
Qed.

(** The message is in the queue of its destination, and off its queue. *)
Lemma inv_local sent consumed s t now st n v b b' m h d qs bd bd' m' from cs : inv sent consumed s t now st → has (bn_to st) n v b → mb_prio_heap b = m :: h →
  getAllDest (gc_types G) (ms_dest m) = [d] → has (bn_from st) d v bd → zlen cs = controllers → replaced (bn_from st) d v bd bd' from → from_ok now bd' → content m' = content m →
  mb_prio_heap bd' ≡ₚ m' :: mb_prio_heap bd → replaced (bn_to st) n v b b' qs → mb_prio_heap b' = h → mb_time_last_time_pop b' ≤ now →
  inv sent consumed s t now (with_to qs (with_controllers cs (with_from from st))).
Proof.
  intros [HP HW HO' HH HM HC HS] Hb Eh Ed Hbd Hcs Hf Hok Em Hput Hr Eh' Hpop. pose proof HP as [P1 P2 P3 P4 P5 P6 P7 P8 P9 P10 P11 P12 P13 P14].
  destruct (P10 _ _ _ Hb) as (Hv & _ & Hms). rewrite Eh in Hms. apply Forall_cons in Hms as [_ Hms].
  pose proof (queued_drop (λ _ v m, item (dest_of m) v m) _ _ _ _ _ _ _ _ Hr Eh Eh') as Hdrop. cbn beta in Hdrop. unfold dest_of in Hdrop at 2. rewrite Ed in Hdrop. fold (pending st) in Hdrop.
  pose proof (queued_put item _ _ _ _ _ _ _ Hf Hput) as Hnew. fold (arrived st) in Hnew. assert (item d v m' = item d v m) as Ei by (unfold item; by rewrite Em). rewrite Ei in Hnew.
  split; try done.
  - eapply parts_to; [by eapply parts_from|exact Hb|exact Hr|]. eapply to_ok_mono; [by apply (has_replaced _ _ _ _ _ _ Hf Hbd)|]. unfold to_ok. by rewrite Eh'.
  - unfold pending at 1. simpl. assert (zlen (pending st) = 1 + zlen (queued (λ _ v m, item (dest_of m) v m) qs)) as El by (unfold zlen; rewrite Hdrop; simpl; lia). lia.
  - rewrite HS, Hdrop. change (pending (with_to qs _)) with (queued (λ _ v m, item (dest_of m) v m) qs). change (flying (with_to qs _)) with (flying st). change (arrived (with_to qs _)) with (queued item from).
    rewrite Hnew. simpl. by rewrite <- !Permutation_middle.
Qed.

Lemma inv_last_port sent consumed s t now st i port : inv sent consumed s t now st → 0 ≤ i < switches → 0 ≤ port →
  returns (set_last_port i port st) (λ st', inv sent consumed s t now st' ∧ kept st st').
Proof.
  intros [HP HW HO' HH HM HC HS] Hi Hp. eapply returns_mono; [by apply (set_last_port_ok now)|]. intros st' (sws & -> & Esw & HP'). split; [by split|]. split; [by apply Esw|]. done.
Qed.

Lemma pending_pos st n v b m h : has (bn_to st) n v b → mb_prio_heap b = m :: h → 1 ≤ zlen (pending st).
Proof.
  intros Hb Eh. destruct (set_queue_ok _ _ _ _ (set_heap h b) Hb) as (qs & _ & Hr). pose proof (queued_drop (λ _ v m, item (dest_of m) v m) _ _ _ _ _ _ _ _ Hr Eh eq_refl) as Hd.
  fold (pending st) in Hd. unfold zlen. rewrite Hd. simpl. lia.
Qed.

Lemma read_queue_ok sent consumed s t now st i port n v : inv sent consumed s t now st → 0 ≤ i < switches → 0 ≤ port → 0 ≤ n < controllers → 0 ≤ v < zlen ((bn_to st)⟦n⟧) → now mod gc_period G = 0 →
  returns (read_queue G now i port n v st) (λ st', (∃ s', inv sent consumed s' t now st') ∧ kept st st').
Proof.
  intros HI Hi Hp Hn Hv Hnow. unfold read_queue, get_queue. rewrite vget_ok by (rewrite (pt_to_len _ _ (iv_parts _ _ _ _ _ _ HI)); lia). cbn [mbind res_bind]. rewrite vget_ok by done. cbn [mbind res_bind].
  destruct (((bn_to st)⟦n⟧)⟦v⟧) as [b|] eqn:Eb; [|apply returns_ok; split; [by exists s|apply kept_refl]].
  assert (has (bn_to st) n v b) as Hb. { split; [|done]. rewrite (pt_to_len _ _ (iv_parts _ _ _ _ _ _ HI)). lia. }
  destruct (pt_to _ _ (iv_parts _ _ _ _ _ _ HI) _ _ _ Hb) as (Hvc & Hpop & _). destruct (isReady_ok now b Hpop) as ([ready again] & Er & Hready). rewrite Er. cbn [mbind res_bind].
  apply (returns_bind _ _ (λ st', inv sent consumed s t now st' ∧ kept st st' ∧ bn_to st' = bn_to st)).
  { destruct again; [by eapply wake_owner_ok|]. apply returns_ok. done. }
  intros st1 (HI1 & Hk1 & E1). destruct ready; [|apply returns_ok; split; [by exists s|done]]. destruct (Hready eq_refl) as (m & h & Eh & Hl). unfold peekMsgPtr. rewrite Eh. cbn [mbind res_bind].
  rewrite <- E1 in Hb. destruct (pt_to _ _ (iv_parts _ _ _ _ _ _ HI1) _ _ _ Hb) as (_ & _ & Hms). rewrite Eh in Hms. apply Forall_cons in Hms as [((_ & d & bd & Ed & _) & _) _]. rewrite Ed.
  change (zlen [d]) with 1. change (1 =? 0) with false. rewrite zfor_one. pose proof (iv_count _ _ _ _ _ _ HI1) as Hc. pose proof (pending_pos _ _ _ _ _ _ Hb Eh).
  eapply returns_bind; [apply (read_dest_ok sent consumed s t now st1 i n v b m h d); [done..|lia]|]. intros [dq st2] (s' & Hread).
  assert (∀ st', bn_to st' = bn_to st1 → (∀ qs b', replaced (bn_to st1) n v b b' qs → mb_prio_heap b' = h → mb_time_last_time_pop b' ≤ now → inv sent consumed s' t now (with_to qs st')) → kept st1 st' →
    returns (b ← queue_at (bn_to st') n v; '(_, _, b) ← dequeue now b; qs ← set_queue (bn_to st') n v b; set_last_port i port (with_to qs st')) (λ st', (∃ s', inv sent consumed s' t now st') ∧ kept st st')) as Hoff.
  { intros st' E' Hinv Hk'. rewrite E', (has_queue _ _ _ _ Hb). cbn [mbind res_bind]. eapply returns_bind; [by eapply dequeue_ok|]. intros [[m' dl] b'] (_ & Eh' & _ & Hpop' & _).
    eapply returns_bind; [by eapply set_queue_ok|]. intros qs Hqs. eapply returns_mono; [by apply (inv_last_port sent consumed s' t now); [eapply Hinv|..]|]. intros st3 [HI3 Hk3]. split; [by exists s'|].
    eapply kept_trans; [exact Hk1|]. eapply kept_trans; [exact Hk'|]. eapply kept_trans; [|exact Hk3]. destruct Hk' as (K1 & K2 & K3 & K4 & K5). split_and!; try done. intros n' Hn'. simpl. rewrite E'.
    apply (rq_rows _ _ _ _ _ _ Hqs). rewrite (pt_to_len _ _ (iv_parts _ _ _ _ _ _ HI1)). done. }
  inversion Hread as [w Hw E2|w order x Hw Ho Ex1 Ex2 Ex3 E2|qs cs bd2 bd' m' Hbd2 Hcs Hrep Hok Em Hput E2]; subst.
  - apply returns_ok. split; [exists s'; by apply inv_wrapper|]. eapply kept_trans; [exact Hk1|]. done.
  - apply Hoff; [done| |by split_and!]. intros qs b' Hqs Eh' Hpop'. by eapply inv_packet.
  - apply Hoff; [done| |by split_and!]. intros qs' b' Hqs Eh' Hpop'. by eapply inv_local.
Qed.

Lemma ReadMessage_ok sent consumed s t now st i : inv sent consumed s t now st → 0 ≤ i < switches → now mod gc_period G = 0 →
  returns (ReadMessage G now i st) (λ st', (∃ s', inv sent consumed s' t now st') ∧ kept st st').
Proof.
  intros HI Hi Hnow. pose proof (pt_linked _ _ (iv_parts _ _ _ _ _ _ HI)) as [L1 L2 L3 _ _]. unfold ReadMessage. apply returns_vget; [lia|]. set (ins := sw_in ((bn_switches st)⟦i⟧)).
  destruct (Z.ltb_spec 0 (zlen ins)) as [Hpos|]; [|apply returns_ok; split; [by exists s|apply kept_refl]]. destruct (L2 i Hi) as [_ Hlast].
  apply (returns_bind _ _ (λ '(port, st'), 0 ≤ port < zlen ins ∧ (∃ s', inv sent consumed s' t now st') ∧ kept st st')).
  - apply (returns_for (λ _ '(port, st'), 0 ≤ port < zlen ins ∧ (∃ s', inv sent consumed s' t now st') ∧ kept st st')); [lia| |].
    + split; [apply Z.rem_bound_pos; lia|]. split; [by exists s|apply kept_refl].
    + intros j [port st1] _ (Hp & (s1 & HI1) & Hk1). apply returns_vget; [done|].
      assert (0 ≤ ins⟦port⟧ < controllers) as Hn. { specialize (L3 i Hi). rewrite Forall_forall in L3. apply L3. eapply list_elem_of_lookup_2. by apply znth_lookup. }
      apply returns_vget; [rewrite (pt_to_len _ _ (iv_parts _ _ _ _ _ _ HI1)); lia|]. eapply returns_bind.
      * apply (returns_for (λ _ st', (∃ s', inv sent consumed s' t now st') ∧ kept st1 st')); [pose proof (zlen_nonneg ((bn_to st1)⟦ins⟦port⟧⟧)); lia|split; [by exists s1|apply kept_refl]|].
        intros v st2 Hv ((s2 & HI2) & Hk2). eapply returns_mono; [apply (read_queue_ok sent consumed s2 t now st2 i port (ins⟦port⟧) v HI2 Hi); [lia|done|rewrite (proj1 (proj2 Hk2)) by done; lia|done]|].
        intros st3 [HI3 Hk3]. split; [done|]. by eapply kept_trans.
      * intros st2 [HI2 Hk2]. apply returns_ok. split; [apply Z.rem_bound_pos; lia|]. split; [done|]. by eapply kept_trans.
  - intros [port st'] (_ & H2). by apply returns_ok.
Qed.

(** ** Packets that have arrived *)

Lemma updatePacketStats_ok now st rp : parts_ok now st → 0 ≤ rp_src rp < switches → 0 ≤ rp_dest rp < switches →
  returns (updatePacketStats G rp (bn_stats st)) (λ x, grid switches switches (gs_node_latency x) ∧ grid switches switches (gs_node_packets x) ∧ gs_cycles x = gs_cycles (bn_stats st)).
Proof.
  intros HP Hs Hd. pose proof (pt_latency _ _ HP) as G1. pose proof (pt_packets _ _ HP) as G2. unfold updatePacketStats. rewrite (vget2_ok switches switches (gs_node_latency (bn_stats st))) by done. cbn [mbind res_bind].
  eapply returns_bind; [by apply (vset2_ok switches switches)|]. intros lats [H1 _]. rewrite (vget2_ok switches switches) by done. cbn [mbind res_bind].
  eapply returns_bind; [by apply (vset2_ok switches switches)|]. intros counts [H2 _]. by apply returns_ok.
Qed.

Lemma fulfils_order s p : Forall order_ok (sv_accepted s) → fulfils (sv_accepted s) p → 0 ≤ rp_pid p < zlen (sv_accepted s) ∧ 0 ≤ rp_src p < switches ∧ 0 ≤ rp_dest p < switches.
Proof.
  intros HF [Hp Hl]. pose proof (lookup_lt_Some _ _ _ Hl). rewrite Forall_forall in HF. destruct (HF _ (list_elem_of_lookup_2 _ _ _ Hl)) as [H1 H2]. split; [unfold zlen; lia|done].
Qed.

(** The message of a packet that has arrived goes to the queue of its destination. *)
Lemma enqueueBooksimMessage_ok sent consumed s t now st w p x : inv sent consumed s t now st → fulfils (sv_accepted s) p → rp_pid p ∉ sv_handed s →
  wl_ok (mkService (sv_accepted s) (sv_handed s ++ [rp_pid p])) t w → grid switches switches (gs_node_latency x) → grid switches switches (gs_node_packets x) →
  returns (enqueueBooksimMessage G now (rp_pid p) (with_stats x (with_wrapper w st))) (λ st', inv sent consumed (mkService (sv_accepted s) (sv_handed s ++ [rp_pid p])) t now st' ∧
    bn_to st' = bn_to st ∧ bn_switches st' = bn_switches st ∧ bn_stats st' = x ∧ bn_internal_cycles st' = bn_internal_cycles st ∧ bn_wakeup_cycles st' = bn_wakeup_cycles st ∧ bn_wrapper st' = w).
Proof.
  intros HI Hf Hh Hw G1 G2. pose proof HI as [HP HW HO' HH HM HC HS]. destruct (fulfils_order s p HO' Hf) as (Hp & _). unfold enqueueBooksimMessage. pose proof (zlen_nonneg (pending st)).
  rewrite to_int_id by (unfold int_min, int_max in *; lia). cbn [bn_packet_map with_stats with_wrapper]. destruct (proj2 (HM (rp_pid p)) (conj Hp Hh)) as [y Hy]. rewrite Hy.
  destruct (pt_map _ _ HP _ _ Hy) as (Hd & Es & (b & Hb) & Hl). rewrite Es.
  eapply returns_bind; [apply (EnqueueMessage_ok now (bm_dest y) (bm_subnet y) (bm_msg y) (with_stats x (with_wrapper w st)) b (pt_linked _ _ HP) (pt_controllers _ _ HP) Hd Hb (pt_from _ _ HP _ _ _ Hb) Hl)|].
  intros st' (qs & cs & b' & m' & -> & Hcs & Hr & Hok & Em & Hput). apply returns_ok. split; [|done]. set (st1 := with_controllers cs (with_from qs (with_stats x (with_wrapper w st)))).
  pose proof (queued_put item _ _ _ _ _ _ _ Hr Hput) as Hnew. change (bn_from (with_stats x (with_wrapper w st))) with (bn_from st) in Hnew. fold (arrived st) in Hnew.
  assert (item (bm_dest y) (bm_subnet y) m' = item (bm_dest y) (bm_subnet y) (bm_msg y)) as Ei by (unfold item; by rewrite Em). rewrite Ei in Hnew.
  split; try done.
  - apply parts_erase. eapply (parts_from now (with_stats x (with_wrapper w st))); [|exact Hb|exact Hr|done|done]. apply parts_stats; [by apply parts_wrapper|done|done].
  - apply Forall_app_2; [done|]. by apply Forall_singleton.
  - intros pid. simpl. rewrite mfind_merase by apply (pt_sorted _ _ HP). rewrite not_elem_of_app, list_elem_of_singleton. case_decide as E; [split; [by intros [? ?]|naive_solver]|rewrite HM; naive_solver].
  - rewrite HS. change (pending (with_packet_map _ _)) with (pending st). change (arrived (with_packet_map _ _)) with (queued item qs). rewrite Hnew. unfold flying at 1. rewrite (merase_perm _ _ _ Hy).
    change (flying (with_packet_map (merase (rp_pid p) (bn_packet_map st1)) st1)) with ((λ x, item (bm_dest x) (bm_subnet x) (bm_msg x)) <$> (merase (rp_pid p) (bn_packet_map st)).*2).
    rewrite fmap_cons. simpl. by rewrite <- !Permutation_middle.
Qed.

Lemma retire_all_ok sent consumed t now fuel : ∀ s st, inv sent consumed s t now st → (bw_ejected (bn_wrapper st) < fuel)%nat →
  returns (retire_all G now fuel st) (λ st', (∃ s', inv sent consumed s' t now st') ∧ kept st st').
Proof.
  induction fuel as [|fuel IH]; intros s st HI Hf; [lia|]. cbn [retire_all]. eapply returns_bind; [apply (wl_retire _ _ _ (iv_wrapper _ _ _ _ _ _ HI))|]. intros [p w] Hx. destruct (Z.eqb_spec (rp_pid p) (-1)) as [E|E].
  - rewrite (proj2 (Z.ltb_ge _ _)) by lia. cbn [mbind res_bind]. apply returns_ok. split; [exists s; by apply inv_wrapper|]. done.
  - destruct Hx as (Hfu & Hh & Hw & Hej). destruct (fulfils_order s p (iv_orders _ _ _ _ _ _ HI) Hfu) as (Hp & Hs & Hd). rewrite (proj2 (Z.ltb_lt _ _)) by lia.
    apply (returns_bind _ _ (λ st', inv sent consumed (mkService (sv_accepted s) (sv_handed s ++ [rp_pid p])) t now st' ∧ kept st st' ∧ bn_wrapper st' = w)).
    + eapply returns_bind; [apply (updatePacketStats_ok now st p (iv_parts _ _ _ _ _ _ HI) Hs Hd)|]. intros x (G1 & G2 & Ec). eapply returns_mono; [by apply (enqueueBooksimMessage_ok sent consumed s t now st w p x)|].
      intros st' (HI' & E1 & E2 & E3 & E4 & E5 & E6). split; [done|]. split; [|done]. split_and!; try done; [by rewrite E2|by rewrite E1|by rewrite E3].
    + intros st' (HI' & Hk' & Ew). eapply returns_mono; [apply (IH _ _ HI'); rewrite Ew; lia|]. intros st2 [H2 Hk]. split; [done|]. by eapply kept_trans.
Qed.

(** ** A wakeup *)

Lemma network_cycle_ok sent consumed s t now st : inv sent consumed s t now st → now mod gc_period G = 0 → t + 1 ≤ limit →
  returns (network_cycle G now st) (λ st', (∃ s', inv sent consumed s' (t + 1) now st') ∧ bn_internal_cycles st' = bn_internal_cycles st - 1 ∧ bn_wakeup_cycles st' = bn_wakeup_cycles st ∧
    gs_cycles (bn_stats st') = gs_cycles (bn_stats st) + 1).
Proof.
  intros HI Hnow Ht. unfold network_cycle. set (st1 := with_stats (count_cycle (bn_stats st)) st).
  assert (inv sent consumed s t now st1) as HI1. { destruct HI as [HP HW HO' HH HM HC HS]. split; try done. apply parts_stats; [done|apply HP|apply HP]. }
  eapply returns_bind.
  - apply (returns_for (λ _ st', (∃ s', inv sent consumed s' t now st') ∧ kept st1 st')); [pose proof (zlen_nonneg (bn_switches st1)); lia|split; [by exists s|apply kept_refl]|].
    intros i st2 Hi ((s2 & HI2) & Hk2). eapply returns_mono; [apply (ReadMessage_ok sent consumed s2 t now st2 i HI2); [rewrite (lk_switches _ _ (pt_linked _ _ (iv_parts _ _ _ _ _ _ HI1))) in Hi; lia|done]|].
    intros st3 [HI3 Hk3]. split; [done|]. by eapply kept_trans.
  - intros st2 ((s2 & HI2) & (_ & _ & K3 & K4 & K5)). eapply returns_bind; [apply (wl_run s2 t _ 1 (iv_wrapper _ _ _ _ _ _ HI2)); lia|]. intros w Hw. eapply returns_bind.
    + unfold RetirePackets. apply (retire_all_ok sent consumed (t + 1) now _ s2); [|lia]. destruct HI2 as [HP HW HO' HH HM HC HS]. split; try done. by apply parts_wrapper.
    + intros st3 ((s3 & HI3) & (_ & _ & M3 & M4 & M5)). apply returns_ok. simpl. split; [|split_and!; [by rewrite M4; simpl; rewrite K4|by rewrite M5; simpl; rewrite K5|by rewrite M3; simpl; rewrite K3]].
      exists s3. destruct HI3 as [HP HW HO' HH HM HC HS]. split; try done. by destruct HP.
Qed.

(** Between wakeups: when a packet is in flight, an interface will wake up and run the
    network. *)
Definition all_handed s : Prop := sv_handed s ≡ₚ seqZ 0 (zlen (sv_accepted s)).
Definition awake s now st : Prop := ¬ all_handed s →
  ∃ i x, 0 ≤ i < switches ∧ mfind x ((bn_interfaces st)⟦i⟧) = Some tt ∧ now ≤ x ∧ bn_wakeup_cycles st ≤ x.

Record resting sent consumed s now st : Prop := {
  rs_inv : inv sent consumed s (gs_cycles (bn_stats st)) now st;
  rs_now : now mod gc_period G = 0;
  rs_internal : bn_internal_cycles st = 0;
  rs_awake : awake s now st
}.

Lemma RunNetwork_ok sent consumed s now st : inv sent consumed s (gs_cycles (bn_stats st)) now st → now mod gc_period G = 0 → bn_internal_cycles st = 0 → gs_cycles (bn_stats st) + gc_speedup G ≤ limit →
  returns (RunNetwork G now st) (λ st', (∃ s', inv sent consumed s' (gs_cycles (bn_stats st')) now st') ∧ bn_internal_cycles st' = 0).
Proof.
  intros HI Hnow E0 Ht. destruct HO as [_ Hs _ _]. unfold RunNetwork. rewrite E0, Z.add_0_l. set (c := gs_cycles (bn_stats st)) in *.
  eapply returns_mono.
  - apply (returns_for (λ k st', (∃ s', inv sent consumed s' (c + k) now st') ∧ bn_internal_cycles st' = gc_speedup G - k ∧ gs_cycles (bn_stats st') = c + k)); [lia| |].
    + split_and!; [|simpl; lia|simpl; lia]. exists s. rewrite Z.add_0_r. destruct HI as [HP HW HO' HH HM HC HS]. split; try done. by destruct HP.
    + intros k st1 Hk ((s1 & HI1) & E1 & E2). eapply returns_mono; [apply (network_cycle_ok sent consumed s1 (c + k) now st1 HI1 Hnow); lia|]. intros st2 (H2 & E3 & _ & E4).
      split_and!; [|lia|lia]. by rewrite Z.add_assoc.
  - intros st' (H' & E1 & E2). rewrite E2. split; [done|lia].
Qed.

Lemma inv_tick sent consumed s t now st i x : inv sent consumed s t now st → 0 ≤ i < switches →
  inv sent consumed s t now (with_interfaces ((bn_interfaces st)⟦i := mset x tt ((bn_interfaces st)⟦i⟧)⟧) st).
Proof. intros [HP HW HO' HH HM HC HS] Hi. split; try done. by apply parts_tick. Qed.

(** A tick that is set is found, and so are the others. *)
Lemma tick_set now st i x j y : parts_ok now st → 0 ≤ i < switches → 0 ≤ j < switches →
  mfind y ((bn_interfaces st)⟦i := mset x tt ((bn_interfaces st)⟦i⟧)⟧⟦j⟧) = if decide (i = j ∧ y = x) then Some tt else mfind y ((bn_interfaces st)⟦j⟧).
Proof.
  intros HP Hi Hj. pose proof (pt_interfaces _ _ HP). rewrite znth_zupd by lia. destruct (decide (i = j)) as [<-|Hne]; [|by rewrite decide_False by naive_solver].
  rewrite mfind_mset by by apply (pt_ticks _ _ HP). destruct (decide (y = x)) as [->|Hne]; [by rewrite decide_True|by rewrite decide_False by naive_solver].
Qed.

Lemma wakeup_ok sent consumed s now st i : inv sent consumed s (gs_cycles (bn_stats st)) now st → now mod gc_period G = 0 → bn_internal_cycles st = 0 → 0 ≤ i < switches → bn_wakeup_cycles st ≤ now →
  gs_cycles (bn_stats st) + gc_speedup G ≤ limit → returns (wakeup G now i st) (λ st', ∃ s', resting sent consumed s' now st').
Proof.
  intros HI Hnow E0 Hi Hw Ht. unfold wakeup. rewrite (proj2 (Z.leb_le _ _)) by done. eapply returns_bind; [by apply (RunNetwork_ok sent consumed s)|]. intros st1 ((s1 & HI1) & E1).
  eapply returns_bind; [apply (wl_in_flight _ _ _ (iv_wrapper _ _ _ _ _ _ HI1))|]. intros b Hb. destruct HO as [Hper _ _ _]. pose proof (pt_interfaces _ _ (iv_parts _ _ _ _ _ _ HI1)) as Hlen. destruct b.
  - cbn [mbind res_bind]. rewrite vget_ok by lia. cbn [mbind res_bind]. rewrite vset_ok by lia. cbn [mbind res_bind]. apply returns_ok. exists s1. pose proof (inv_tick _ _ _ _ _ _ i (now + gc_period G * 1) HI1 Hi) as HI2.
    split; [by destruct HI2 as [[] ? ? ? ? ? ?]; split|done|done|]. intros _. exists i, (now + gc_period G * 1). split; [done|]. split; [|simpl; lia].
    simpl. unfold scheduleEvent. rewrite (tick_set now) by first [done|apply HI1]. by rewrite decide_True.
  - apply returns_ok. exists s1. split; [by destruct HI1 as [[] ? ? ? ? ? ?]; split|done|done|]. intros Hn. exfalso. apply Hn. by apply Hb.
Qed.

(** The first tick of an interface is now: it is taken off. *)
Lemma processCurrentEvent_ok sent consumed s now st i ticks : resting sent consumed s now st → 0 ≤ i < switches → (bn_interfaces st)⟦i⟧ = (now, tt) :: ticks → gs_cycles (bn_stats st) + gc_speedup G ≤ limit →
  returns (processCurrentEvent G now i st) (λ st', ∃ s', resting sent consumed s' now st').
Proof.
  intros [HI Hnow E0 Hawake] Hi Et Ht. pose proof HI as [HP HW HO' HH HM HC HS]. pose proof HP as [P1 P2 P3 P4 P5 P6 P7 P8 P9 P10 P11 P12 P13 P14]. pose proof (P14 i Hi) as Hs. rewrite Et in Hs. apply StronglySorted_inv in Hs as [Hs Hk].
  unfold processCurrentEvent. rewrite vget_ok by lia. cbn [mbind res_bind]. rewrite Et. unfold take_event. rewrite Z.eqb_refl. cbn [cassert mbind res_bind]. rewrite vset_ok by lia. cbn [mbind res_bind].
  set (st1 := with_interfaces ((bn_interfaces st)⟦i := ticks⟧) st).
  assert (inv sent consumed s (gs_cycles (bn_stats st1)) now st1) as HI1.
  { split; try done. split; try done; simpl; [by rewrite zlen_zupd|]. intros j Hj. rewrite znth_zupd by lia. case_decide; [done|by apply P14]. }
  destruct (Z.leb_spec (bn_wakeup_cycles st) now) as [Hle|Hgt]; [by apply (wakeup_ok sent consumed s)|]. unfold wakeup. rewrite (proj2 (Z.leb_gt _ _)) by done. apply returns_ok. exists s. split; try done.
  intros Hn. destruct (Hawake Hn) as (j & x & Hj & Hx & Hnx & Hwx). exists j, x. split; [done|]. split; [|done]. simpl. rewrite znth_zupd by lia. destruct (decide (i = j)) as [<-|Hne]; [|done].
  rewrite Et in Hx. simpl in Hx. by rewrite (proj2 (Z.eqb_neq now x)) in Hx by lia.
Qed.

(** ** The controllers *)

Lemma send_ok sent consumed s now st n v delta m b : resting sent consumed s now st → has (bn_to st) n v b → 0 < delta → unicast (bn_from st) v m → ms_time m ≤ now → ms_LastEnqueueTime m ≤ now →
  (mb_strict_fifo b = true → mb_last_arrival_time b ≤ now + delta) → room_for b → zlen sent ≤ int_max →
  returns (send G now n v delta m st) (resting (item (dest_of m) v m :: sent) consumed s now).
Proof.
  intros [HI Hnow E0 Hawake] Hb Hd Hu Ht Hl Hf Hr Hlen. pose proof HI as [HP HW HO' HH HM HC HS]. pose proof HP as [P1 P2 P3 P4 P5 P6 P7 P8 P9 P10 P11 P12 P13 P14]. destruct (P10 _ _ _ Hb) as (Hv & Hpop & Hms).
  unfold send. rewrite (has_queue _ _ _ _ Hb). cbn [mbind res_bind]. eapply returns_bind; [by apply enqueue_ok|]. intros [arrival b'] (-> & _ & Epop & _ & m' & Em & Hput).
  eapply returns_bind; [by eapply set_queue_ok|]. intros qs Hqs. destruct (P5 _ _ _ Hb) as (i & Ei & Hi). pose proof Hb as (Hn & _). apply returns_vget; [lia|]. rewrite Ei. apply returns_vget; [lia|]. apply returns_vset; [lia|]. apply returns_ok.
  pose proof (queued_put (λ _ v m, item (dest_of m) v m) _ _ _ _ _ _ _ Hqs Hput) as Hnew. cbn beta in Hnew. fold (pending st) in Hnew.
  assert (item (dest_of m') v m' = item (dest_of m) v m) as Eit. { unfold item, dest_of. rewrite Em. unfold content in Em. by injection Em as _ _ -> _. }
  rewrite Eit in Hnew. split; [|done|done|].
  - split; try done.
    + apply (parts_tick now (with_to qs st)); [|done]. eapply parts_to; [done|exact Hb|exact Hqs|]. split; [done|]. split; [by rewrite Epop|]. rewrite Hput. constructor; [|done]. unfold content in Em. injection Em as E1 _ E2 _. unfold unicast. by rewrite E1, E2.
    + change (pending (with_interfaces _ (with_to qs st))) with (queued (λ _ v m, item (dest_of m) v m) qs). assert (zlen (queued (λ _ v m, item (dest_of m) v m) qs) = 1 + zlen (pending st)) as El by (unfold zlen; rewrite Hnew; simpl; lia).
      rewrite El. unfold zlen in *. simpl. lia.
    + change (pending (with_interfaces _ (with_to qs st))) with (queued (λ _ v m, item (dest_of m) v m) qs). rewrite Hnew. simpl. by rewrite HS.
  - intros Hx. destruct (Hawake Hx) as (j & x & Hj & Hm & Hrest). exists j, x. split; [done|]. split; [|done]. simpl. unfold scheduleEventAbsolute. rewrite (tick_set now) by done. by case_decide.
Qed.

Lemma receive_ok sent consumed s now st n v b x : resting sent consumed s now st → has (bn_from st) n v b → isReady now b = Ok (true, x) →
  returns (receive now n v st) (λ '(m, st'), resting sent (item n v m :: consumed) s now st').
Proof.
  intros [HI Hnow E0 Hawake] Hb Hr. pose proof HI as [HP HW HO' HH HM HC HS]. destruct (pt_from _ _ HP _ _ _ Hb) as (F1 & F2 & F3). destruct (isReady_ok now b F2) as ([ready again] & Er & Hready).
  rewrite Hr in Er. injection Er as <- <-. destruct (Hready eq_refl) as (m & h & Eh & Hl). unfold receive. rewrite (has_queue _ _ _ _ Hb). cbn [mbind res_bind].
  eapply returns_bind; [by eapply dequeue_ok|]. intros [[m' dl] b'] (Em & Eh' & Eopt & Hpop & Earr). eapply returns_bind; [by eapply set_queue_ok|]. intros qs Hqs. apply returns_ok.
  pose proof (queued_drop item _ _ _ _ _ _ _ _ Hqs Eh Eh') as Hdrop. fold (arrived st) in Hdrop. assert (item n v m' = item n v m) as Ei by (unfold item; by rewrite Em). rewrite Ei.
  split; [|done|done|done]. split; try done.
  - pose proof (parts_from now st n v b b' qs (bn_controllers st) HP Hb Hqs) as HP'. destruct HP' as [Q1 Q2 Q3 Q4 Q5 Q6 Q7 Q8 Q9 Q10 Q11 Q12 Q13 Q14]; [|apply HP|by split]. unfold options_of in Eopt. injection Eopt as E1 _ _ _ _. split; [congruence|]. split; [done|lia].
  - rewrite HS. change (pending (with_from qs st)) with (pending st). change (flying (with_from qs st)) with (flying st). change (arrived (with_from qs st)) with (queued item qs). rewrite Hdrop. simpl. by rewrite <- !Permutation_middle.
Qed.

(** Time passes, no further than the next wakeup. *)
Lemma advance_ok sent consumed s now now' st : resting sent consumed s now st → now ≤ now' → now' mod gc_period G = 0 → (∀ i x, 0 ≤ i < switches → mfind x ((bn_interfaces st)⟦i⟧) = Some tt → now' ≤ x) →
  resting sent consumed s now' st.
Proof.
  intros [HI Hnow E0 Hawake] Hle Hnow' Hnext. pose proof HI as [HP HW HO' HH HM HC HS]. pose proof HP as [P1 P2 P3 P4 P5 P6 P7 P8 P9 P10 P11 P12 P13 P14]. split; [|done|done|].
  - split; try done. split; try done.
    + intros n v b Hb. destruct (P10 _ _ _ Hb) as (H1 & H2 & H3). split; [done|]. split; [lia|]. eapply Forall_impl; [exact H3|]. intros m [Hu Ht]. split; [done|lia].
    + intros n v b Hb. destruct (P11 _ _ _ Hb) as (H1 & H2 & H3). split; [done|]. split; lia.
    + intros pid x Hx. destruct (P13 _ _ Hx) as (H1 & H2 & H3 & H4). split; [done|]. split; [done|]. split; [done|lia].
  - intros Hx. destruct (Hawake Hx) as (i & x & Hi & Hm & H1 & H2). exists i, x. split; [done|]. split; [done|]. split; [by eapply Hnext|done].
Qed.
End network.
