(* ===== verification/GemSpec.v ===== *)
(** * The network of gem5's memory system: delivery

    The simulator of a mesh keeps the promises gem5's network relies on.  From its
    construction on, in every sequence of events - controllers send and receive,
    interfaces wake up, time passes - the network works and every message with one
    destination is delivered there once.  Messages with several destinations, queues
    of bounded size and messages to the own switch are cases in which it fails. *)

From S2P Require Import Prelude StdMap OutputSet Flit VCBuffer BufferState BufferStateInv Credits Link Arbiter Allocator AllocLaws Rng Islip KNCube Route SwitchAlloc IQRouter IQSwitch RouterInv RouterRun Channel Network NetworkInv TrafficManager Packets SimInv Retire SimStep SimInterface SimSpec Steered Simulators GemBuffer GemNetwork GemInv.
Import TMOps MessageBufferOps ConsumerOps NetDestOps BooksimNetworkOps.

(** ** The simulator behind its interface *)

Section simulator.
Context {VA SA PA : Type} `{Inhabited SA} (M : SimSetup VA SA PA) (Hch : 0 ≤ nc_channels (ns_N (ss_S M))) (Hinj : 0 < tc_inj_size (ss_T M)).
Local Abbreviation T := (ss_T M).
Local Abbreviation TM := (TM VA SA PA).
Implicit Types (tm : TM) (X : Z → NetHist) (L : list Packet) (D : list Z).

(** [BooksimWrapper::RetirePacket] gives one packet, or one with the number -1. *)
Definition sim_wrapper : BooksimWrapper TM := {|
  bw_GeneratePacket := GeneratePacket T;
  bw_RunCycles := RunCycles (ns_IV (ss_S M)) (ns_IS (ss_S M)) (ns_IP (ss_S M)) (ns_rf (ss_S M)) (ns_N (ss_S M)) T;
  bw_RetirePacket := λ tm, '(head, tail, tm) ← RetirePacket T tm; Ok (retired_packet (head, tail), tm);
  bw_CheckInFlightPackets := CheckInFlightPackets T;
  bw_ResetStats := ClearStats T;
  bw_ejected := ejected_packets
|}.

Definition time_limit : Z := int_max - Z.max 0 (ns_latency (ss_S M)).

Definition service_ok (s : Service) (t : Z) tm : Prop := ∃ X L D, sim_ok M X L D tm ∧ s = service_of L D ∧ t = tm_time tm ∧ t ≤ time_limit.

Lemma returns_of_bind {A A' : Type} (m : res A) (g : A → A') (Q : A' → Prop) : returns (x ← m; Ok (g x)) Q → returns m (λ x, Q (g x)).
Proof. intros (a & E & HQ). destruct m as [x|]; [|done]. injection E as <-. by exists x. Qed.

#[export] Instance sim_laws : WrapperLaws sim_wrapper (tc_nodes T) (tc_classes T) (tc_inj_size T) time_limit.
Proof.
  refine {| wl_ok := service_ok |}; simpl; unfold service_ok.
  - done.
  - intros s t tm source dest size cl time (X & L & D & H0 & -> & -> & Ht) Hs Hd Hc Hz Ha. simpl in Ha. rewrite zlen_orders in Ha.
    pose proof (serve_ok M Hch X L D tm (Generate source dest size cl time) H0 ltac:(done)) as Hg. unfold time_limit in Ht. specialize (Hg ltac:(simpl; lia) ltac:(simpl; lia)). simpl in Hg.
    assert (returns (GeneratePacket T source dest size cl time tm) (λ p, served M (tm_time tm) (zlen L) (Generate source dest size cl time) (service_of L D) (Pid p.1, p.2))) as Hr.
    { apply (returns_of_bind _ (λ p, (Pid p.1, p.2))). destruct Hg as (y & E & Hy). exists y. split; [|done]. rewrite <- E. by destruct (GeneratePacket T source dest size cl time tm) as [[pid tm']|]. }
    eapply returns_mono; [exact Hr|]. intros [pid tm'] (X' & L' & D' & H' & Hsv & Et & _). simpl in Et, H', Hsv. exists (service_of L' D'). split; [done|]. exists X', L', D'. split_and!; [done|done|lia|unfold time_limit; lia].
  - intros s t tm cycles (X & L & D & H0 & -> & -> & Ht) Hc Hl. unfold time_limit in Hl, Ht. eapply returns_mono; [apply (run_cycles M Hch X L D tm cycles H0 Hc); lia|]. intros tm' (Et & X' & H').
    exists X', L, D. split_and!; [done|done|lia|unfold time_limit; lia].
  - intros s t tm (X & L & D & H0 & -> & -> & Ht). eapply returns_bind; [by apply (retire_one M X L D)|]. intros [[hd tl] tm'] [Et Hx]. apply returns_ok. cbn [rp_pid].
    destruct (f_pid hd =? -1); [subst tm'; by exists X, L, D|]. destruct Hx as (Hd & H' & Hej). split; [by apply describes_fulfils|].
    destruct (collected M Hch X L D [retired_packet (hd, tl)] tm') as [_ Hnot]; [done|]. split; [apply (Hnot (retired_packet (hd, tl))); by apply list_elem_of_singleton|]. split; [|done].
    exists X, L, (D ++ [f_pid hd]). split_and!; [done|done|lia|lia].
  - intros s t tm (X & L & D & H0 & -> & -> & Ht). pose proof (ph_retire _ _ _ _ _ _ _ (sm_phase _ _ _ _ _ H0)) as HR.
    eapply returns_mono; [apply (CheckInFlightPackets_ok M tm); apply HR|]. intros b Hb. rewrite Hb. simpl. rewrite zlen_orders. by apply (quiet_handed M Hch X).
  - intros s t tm (X & L & D & H0 & -> & -> & Ht). exists X, L, D. split_and!; [by apply ClearStats_ok|done|done|done].
Defined.
End simulator.

(** ** Construction *)

Section construction.
Context {B W : Type} {I : BooksimWrapper W} (G : GemConfig) (switches controllers classes room limit : Z).
Context (HL : WrapperLaws I switches classes room limit).
Local Abbreviation Net := (BooksimNetwork B W).
Implicit Types (st : Net) (links : list Link).

(** The switches are numbered in order. *)
Definition start links (to from : list (list (option (MessageBuffer B)))) (w : W) : res Net :=
  BooksimNetworkOps.init G links (BooksimNetworkOps.New (seqZ 0 switches) to from w).

Definition sources links : list Z := omap (λ l, match l with ExtIn n _ => Some n | _ => None end) links.

(** Every controller is linked to one switch, in both directions, and the routing
    entry of the link to it has no other destination. *)
Record links_ok links : Prop := {
  ln_in : ∀ n i, ExtIn n i ∈ links → 0 ≤ n < controllers ∧ 0 ≤ i < switches;
  ln_once : NoDup (sources links);
  ln_out : ∀ i n es, ExtOut i n es ∈ links → 0 ≤ i < switches ∧ 0 ≤ n < controllers ∧ (es ≫= getAllDest (gc_types G)) ≠ [] ∧ Forall (λ d, d = n) (es ≫= getAllDest (gc_types G));
  ln_all : ∀ n, 0 ≤ n < controllers → ∃ i es, ExtIn n i ∈ links ∧ ExtOut i n es ∈ links
}.

(** New queues, those from the network without a bound. *)
Record queues_ok (to from : list (list (option (MessageBuffer B)))) : Prop := {
  qo_to : zlen to = controllers;
  qo_from : zlen from = controllers;
  qo_new : ∀ n v b, has to n v b → 0 ≤ v < classes ∧ ∃ size rate ordered zero, b = MessageBufferOps.New size rate ordered zero;
  qo_unbounded : ∀ n v b, has from n v b → ∃ rate ordered zero, b = MessageBufferOps.New 0 rate ordered zero
}.

(** What links do not change. *)
Definition others st := (bn_internal_cycles st, bn_wakeup_cycles st, bn_packet_map st, bn_to st, bn_from st, bn_interfaces st, bn_controllers st, bn_stats st, bn_wrapper st).

(** The links [made] so far. *)
Record joined st0 (made : list Link) st : Prop := {
  jn_others : others st = others st0;
  jn_switches : zlen (bn_switches st) = switches;
  jn_ids : zlen (bn_switchID st) = controllers;
  jn_owner : zlen (bn_owner st) = controllers;
  jn_switch : ∀ i, 0 ≤ i < switches → sw_id ((bn_switches st)⟦i⟧) = i ∧ sw_last_port ((bn_switches st)⟦i⟧) = 0 ∧ Forall (λ n, 0 ≤ n < controllers) (sw_in ((bn_switches st)⟦i⟧)) ∧
    msorted (sw_dest_port ((bn_switches st)⟦i⟧));
  jn_made : (∀ n i, ExtIn n i ∈ made → 0 ≤ n < controllers) ∧ ∀ i n es, ExtOut i n es ∈ made → 0 ≤ i < switches;
  jn_in : ∀ n i, ExtIn n i ∈ made → (bn_switchID st)⟦n⟧ = i ∧ ((∃ v b, has (bn_to st) n v b) → (bn_owner st)⟦n⟧ = Some i);
  jn_free : ∀ n, 0 ≤ n < controllers → n ∉ sources made → (bn_owner st)⟦n⟧ = None;
  jn_out : ∀ i n es, ExtOut i n es ∈ made → ∃ p, mfind n (sw_dest_port ((bn_switches st)⟦i⟧)) = Some p ∧ 0 ≤ p < zlen (sw_out ((bn_switches st)⟦i⟧)) ∧ (sw_out ((bn_switches st)⟦i⟧))⟦p⟧ = n
}.

Lemma elem_sources n links : n ∈ sources links ↔ ∃ i, ExtIn n i ∈ links.
Proof.
  unfold sources. rewrite list_elem_of_omap. split; [intros (l & Hl & E); destruct l; [|done..]; injection E as ->; by exists dest|intros [i Hi]; by exists (ExtIn n i)].
Qed.

Lemma add_in st0 made st n i : joined st0 made st → zlen (bn_to st) = controllers → 0 ≤ n < controllers → 0 ≤ i < switches → n ∉ sources made →
  returns (makeExtInLink n i st) (joined st0 (made ++ [ExtIn n i])).
Proof.
  intros [J1 J2 J3 J4 J5 [J9 J10] J6 J7 J8] Hto Hn Hi Hnew. unfold makeExtInLink. apply returns_assert; [lia|]. apply returns_vset; [lia|]. apply returns_vget; [lia|]. unfold addInPort. cbn [bn_to bn_owner with_switchID].
  rewrite vget_ok by lia. cbn [mbind res_bind]. rewrite vget_ok by lia. cbn [mbind res_bind]. rewrite J7 by done. rewrite vset_ok by lia. cbn [mbind res_bind bn_switches with_owner with_switchID]. apply returns_vset; [lia|]. apply returns_ok.
  set (queues := existsb _ _). destruct (J5 i Hi) as (S1 & S2 & S3 & S4). split; simpl; try done; try (by rewrite zlen_zupd).
  - intros j Hj. rewrite znth_zupd by lia. case_decide; [subst j|by apply J5]. simpl. split; [done|]. split; [done|]. split; [|done]. apply Forall_app_2; [done|]. by apply Forall_singleton.
  - split; intros *; rewrite elem_of_app, list_elem_of_singleton; (intros [Hold|E]; [by first [eapply J9|eapply J10]|]); [by injection E as -> ->|done].
  - intros n' i'. rewrite elem_of_app, list_elem_of_singleton. intros [Hold|E].
    + assert (n' ≠ n) as Hne by (intros ->; apply Hnew, elem_sources; by exists i'). pose proof (J9 _ _ Hold). rewrite !znth_zupd by lia. rewrite !decide_False by done. by apply J6.
    + injection E as -> ->. rewrite !znth_zupd by lia. rewrite !decide_True by done. split; [done|]. intros (v & b & Hv & Hv2 & Hb). unfold queues. rewrite (proj2 (existsb_exists _ _)); [done|]. exists (Some b). split; [|done].
      apply list_elem_of_In. rewrite <- Hb. eapply list_elem_of_lookup_2. by apply znth_lookup.
  - intros n' Hn' Hs. rewrite znth_zupd by lia. case_decide as E.
    + exfalso. subst n'. apply Hs, elem_sources. exists i. rewrite elem_of_app, list_elem_of_singleton. by right.
    + apply J7; [done|]. intros Hx. apply Hs. rewrite elem_sources in Hx |- *. destruct Hx as [i' Hx]. exists i'. rewrite elem_of_app. by left.
  - intros i' n' es. rewrite elem_of_app, list_elem_of_singleton. intros [Hold|E]; [|done]. destruct (J8 i' n' es Hold) as (p & Hp). pose proof (J10 _ _ _ Hold).
    rewrite znth_zupd by lia. case_decide; [subst i'|]; by exists p.
Qed.

(** The ports of a switch after the entries of a link. *)
Lemma ports_after (all : list Z) n q (ports : imap Z) : msorted ports → Forall (λ d, d = n) all →
  msorted (foldl (λ m d, mset d q m) ports all) ∧ ∀ d, mfind d (foldl (λ m d, mset d q m) ports all) = if decide (d = n ∧ all ≠ []) then Some q else mfind d ports.
Proof.
  revert ports. induction all as [|x all IH]; intros ports Hs Ha; [split; [done|]; intros d; by rewrite decide_False by naive_solver|]. apply Forall_cons in Ha as [-> Ha]. simpl.
  destruct (IH (mset n q ports) (msorted_mset _ _ _ Hs) Ha) as [H1 H2]. split; [done|]. intros d. rewrite H2, mfind_mset by done. destruct (decide (d = n)) as [->|Hne]; [by rewrite (decide_True (P := n = n ∧ n :: all ≠ [])) by done; case_decide|].
  by rewrite !decide_False by naive_solver.
Qed.

Lemma add_out st0 made st i n es : joined st0 made st → zlen (bn_from st) = controllers → 0 ≤ i < switches → 0 ≤ n < controllers → (es ≫= getAllDest (gc_types G)) ≠ [] →
  Forall (λ d, d = n) (es ≫= getAllDest (gc_types G)) → returns (makeExtOutLink G i n es st) (joined st0 (made ++ [ExtOut i n es])).
Proof.
  intros [J1 J2 J3 J4 J5 [J9 J10] J6 J7 J8] Hfrom Hi Hn Hne Hall. unfold makeExtOutLink. apply returns_assert; [lia|]. apply returns_assert; [lia|]. apply returns_vget; [lia|].
  set (all := es ≫= getAllDest (gc_types G)) in *. destruct (J5 i Hi) as (S1 & S2 & S3 & S4).
  apply (returns_bind _ _ (λ sw, sw = mkNetworkSwitch (sw_id ((bn_switches st)⟦i⟧)) (sw_in ((bn_switches st)⟦i⟧)) (sw_out ((bn_switches st)⟦i⟧) ++ [n])
    (foldl (λ m d, mset d (zlen (sw_out ((bn_switches st)⟦i⟧) ++ [n]) - 1) m) (sw_dest_port ((bn_switches st)⟦i⟧)) all) (sw_last_port ((bn_switches st)⟦i⟧)))).
  { unfold addOutPort. fold all. case_match; [|by apply returns_ok]. destruct all as [|x all]; [done|]. by apply returns_ok. }
  intros sw ->. apply returns_vset; [lia|]. apply returns_ok. set (out := sw_out ((bn_switches st)⟦i⟧) ++ [n]). destruct (ports_after all n (zlen out - 1) _ S4 Hall) as [Hs Hf].
  assert (zlen out = zlen (sw_out ((bn_switches st)⟦i⟧)) + 1) as El by apply zlen_snoc. pose proof (zlen_nonneg (sw_out ((bn_switches st)⟦i⟧))).
  assert (out⟦zlen out - 1⟧ = n) as Elast. { unfold out at 1. rewrite znth_snoc by lia. by rewrite decide_True by lia. }
  split; simpl; try done; try (by rewrite zlen_zupd).
  - intros j Hj. rewrite znth_zupd by lia. case_decide; [subst j|by apply J5]. done.
  - split; intros *; rewrite elem_of_app, list_elem_of_singleton; (intros [Hold|E]; [by first [eapply J9|eapply J10]|]); [done|by injection E as -> -> ->].
  - intros n' i'. rewrite elem_of_app, list_elem_of_singleton. intros [Hold|E]; [by apply J6|done].
  - intros n' Hn' Hx. apply J7; [done|]. intros Hy. apply Hx. rewrite elem_sources in Hy |- *. destruct Hy as [i' Hy]. exists i'. rewrite elem_of_app. by left.
  - intros i' n' es'. rewrite elem_of_app, list_elem_of_singleton. intros Hm. destruct (decide (i = i')) as [<-|Hnei].
    + rewrite znth_zupd_eq by lia. simpl. rewrite Hf. case_decide as E; [destruct E as [-> _]; exists (zlen out - 1); split; [done|]; split; [lia|done]|].
      destruct Hm as [Hold|Em]; [|injection Em as -> ->; naive_solver]. destruct (J8 i n' es' Hold) as (p & H1 & H2 & H3). exists p. split; [done|]. split; [lia|]. unfold out. rewrite znth_snoc by lia. by rewrite decide_False by lia.
    + destruct Hm as [Hold|Em]; [|by injection Em as ->]. pose proof (J10 _ _ _ Hold). rewrite znth_zupd_ne by lia. by eapply J8.
Qed.

Lemma add_internal st0 made st i j : joined st0 made st → joined st0 (made ++ [Internal i j]) st.
Proof.
  intros [J1 J2 J3 J4 J5 [J9 J10] J6 J7 J8]. assert (∀ l, l ∈ made ++ [Internal i j] → (∀ a b, l ≠ Internal a b) → l ∈ made) as Hold. { intros l. rewrite elem_of_app, list_elem_of_singleton. intros [Hl|Hl] Hn; [done|]. by destruct (Hn i j). }
  split; try done.
  - split; intros * Hl; apply Hold in Hl; [by eapply J9|done|by eapply J10|done].
  - intros n k Hl. apply Hold in Hl; [by apply J6|done].
  - intros n Hn Hx. apply J7; [done|]. intros Hy. apply Hx. rewrite elem_sources in Hy |- *. destruct Hy as [k Hy]. exists k. rewrite elem_of_app. by left.
  - intros k n es Hl. apply Hold in Hl; [by eapply J8|done].
Qed.

Lemma init_joined st0 links : zlen (bn_to st0) = controllers → zlen (bn_from st0) = controllers → (∀ n i, ExtIn n i ∈ links → 0 ≤ n < controllers ∧ 0 ≤ i < switches) →
  (∀ i n es, ExtOut i n es ∈ links → 0 ≤ i < switches ∧ 0 ≤ n < controllers ∧ (es ≫= getAllDest (gc_types G)) ≠ [] ∧ Forall (λ d, d = n) (es ≫= getAllDest (gc_types G))) →
  ∀ made st, joined st0 made st → NoDup (sources (made ++ links)) → returns (BooksimNetworkOps.init G links st) (joined st0 (made ++ links)).
Proof.
  intros Ht Hf Hin Hout. induction links as [|l links IH]; intros made st HJ Hn; [rewrite app_nil_r; by apply returns_ok|]. simpl. replace (made ++ l :: links) with ((made ++ [l]) ++ links) in * by (by rewrite <- app_assoc).
  assert (zlen (bn_to st) = controllers ∧ zlen (bn_from st) = controllers) as [Et Ef]. { pose proof (jn_others _ _ _ HJ) as E. unfold others in E. injection E as _ _ _ -> -> _ _ _ _. done. }
  eapply returns_bind; [|intros st' HJ'; apply IH; [..|exact HJ'|done]; [intros n i Hx; apply Hin; by right|intros i n es Hx; apply Hout; by right]]. destruct l as [n i|i n es|i j]; simpl.
  - destruct (Hin n i ltac:(by left)) as [H1 H2]. apply add_in; try done. unfold sources in Hn. rewrite !omap_app in Hn. apply NoDup_app in Hn as (Hn & _ & _). apply NoDup_app in Hn as (_ & Hn & _). intros Hx. apply (Hn n Hx). by left.
  - destruct (Hout i n es ltac:(by left)) as (H1 & H2 & H3 & H4). by apply add_out.
  - apply returns_ok. by apply add_internal.
Qed.

Lemma joined_new (to from : list (list (option (MessageBuffer B)))) w : 0 ≤ switches → zlen to = controllers → joined (BooksimNetworkOps.New (seqZ 0 switches) to from w) [] (BooksimNetworkOps.New (seqZ 0 switches) to from w).
Proof.
  intros Hs Ht. assert (∀ i, 0 ≤ i < switches → (bn_switches (BooksimNetworkOps.New (seqZ 0 switches) to from w))⟦i⟧ = mkNetworkSwitch i [] [] [] 0) as Hsw.
  { intros i Hi. simpl. rewrite znth_fmap by (unfold zlen; rewrite length_seqZ; lia). f_equal. unfold znth. rewrite list_lookup_total_alt. erewrite lookup_seqZ_lt by lia. simpl. lia. }
  split; try done.
  - simpl. rewrite zlen_fmap. unfold zlen. rewrite length_seqZ. lia.
  - simpl. unfold zlen in *. by rewrite length_replicate.
  - simpl. unfold zlen in *. by rewrite length_replicate.
  - intros i Hi. rewrite Hsw by done. simpl. split_and!; [done|done|constructor|constructor].
  - split; intros *; by rewrite elem_of_nil.
  - intros *. by rewrite elem_of_nil.
  - intros n Hn _. simpl. unfold zlen in Ht. replace (length to) with (Z.to_nat controllers) by lia. by apply znth_replicate.
  - intros *. by rewrite elem_of_nil.
Qed.

Lemma queued_empty {Y : Type} (f : Z → Z → Message B → Y) qs : (∀ n v b, has qs n v b → mb_prio_heap b = []) → queued f qs = [].
Proof.
  intros Hq. unfold queued. assert (∀ {X : Type} `{Inhabited X} (g : Z → X → list Y) l k, (∀ i, 0 ≤ i < zlen l → g (k + i) (l⟦i⟧) = []) → gather g k l = []) as Hg.
  { intros X HX g l. induction l as [|x l IH]; intros k Hl; [done|]. simpl. assert (zlen (x :: l) = zlen l + 1) as El by (unfold zlen; simpl; lia). pose proof (zlen_nonneg l).
    pose proof (Hl 0 ltac:(lia)) as H0. rewrite Z.add_0_r in H0. unfold znth in H0. simpl in H0. rewrite H0. simpl. apply IH. intros i Hi. specialize (Hl (i + 1) ltac:(lia)). replace (k + 1 + i) with (k + (i + 1)) by lia.
    unfold znth in *. replace (Z.to_nat (i + 1)) with (S (Z.to_nat i)) in Hl by lia. exact Hl. }
  apply (Hg _ _). intros n Hn. apply (Hg _ _). intros v Hv. simpl. destruct ((qs⟦n⟧)⟦v⟧) as [b|] eqn:Eb; [|done]. by rewrite (Hq n v b).
Qed.

(** A new network with its links. *)
Lemma gem_links_start links (to from : list (list (option (MessageBuffer B)))) w : 0 ≤ switches → options_ok G → links_ok links → queues_ok to from → wl_ok (mkService [] []) 0 w →
  returns (start links to from w) (resting G switches controllers classes room limit HL [] [] (mkService [] []) 0).
Proof.
  intros Hs HO [N1 N2 N3 N4] [Q1 Q2 Q3 Q4] Hw. destruct HO as [Hper _ _ _]. eapply returns_mono; [apply (init_joined (BooksimNetworkOps.New (seqZ 0 switches) to from w) links Q1 Q2 N1 N3 []); [by apply joined_new|done]|]. intros st [J1 J2 J3 J4 J5 _ J6 _ J8]. simpl in J6, J8.
  unfold others in J1. simpl in J1. injection J1 as E1 E2 E3 E4 E5 E6 E7 E8 E9. unfold zlen in *.
  assert (∀ (k : nat) (x : iset) i, 0 ≤ i < Z.of_nat k → (replicate k x)⟦i⟧ = x) as Hrep. { intros k x i Hi. rewrite <- (Nat2Z.id k). by apply znth_replicate. }
  assert (∀ n v b, has to n v b → mb_prio_heap b = []) as Hto by (intros n v b Hb; destruct (Q3 _ _ _ Hb) as (_ & ? & ? & ? & ? & ->); done).
  assert (∀ n v b, has from n v b → mb_prio_heap b = []) as Hfrom by (intros n v b Hb; destruct (Q4 _ _ _ Hb) as (? & ? & ? & ->); done).
  split; [|by apply Z.mod_0_l; lia|done|].
  - split.
    + split; rewrite ?E3, ?E4, ?E5, ?E6, ?E7, ?E8; unfold zlen; simpl; rewrite ?length_replicate, ?length_seqZ; try done; try lia.
      * split; [done| | |split; [done|]|].
        -- intros i Hi. destruct (J5 i Hi) as (-> & -> & _). done.
        -- intros i Hi. apply J5. done.
        -- intros d Hd. destruct (N4 d Hd) as (i & es & H1 & _). destruct (J6 _ _ H1) as [-> _]. by eapply N1.
        -- intros d Hd. destruct (N4 d Hd) as (i & es & H1 & H2). destruct (J6 _ _ H1) as [-> _]. by eapply J8.
      * intros n v b Hb. assert (0 ≤ n < controllers) as Hn. { destruct Hb as [Hb _]. unfold zlen in Hb. lia. } destruct (N4 n Hn) as (i & es & H1 & _). exists i. split; [|by eapply N1]. apply (J6 _ _ H1). rewrite E4. by exists v, b.
      * by apply grid_replicate.
      * by apply grid_replicate.
      * intros n v b Hb. destruct (Q3 _ _ _ Hb) as (Hv & ? & ? & ? & ? & ->). split; [done|]. split; [simpl; lia|constructor].
      * intros n v b Hb. destruct (Q4 _ _ _ Hb) as (? & ? & ? & ->). split; [done|]. simpl. lia.
      * constructor.
      * intros i Hi. rewrite Hrep by lia. constructor.
    + rewrite E8, E9. done.
    + constructor.
    + constructor.
    + intros pid. rewrite E3. simpl. split; [by intros [? ?]|]. unfold zlen; simpl. lia.
    + unfold pending. rewrite E4, queued_empty by done. unfold zlen; simpl. unfold int_max. lia.
    + unfold pending, flying, arrived. rewrite E3, E4, E5, !queued_empty by done. done.
  - intros Hx. exfalso. apply Hx. unfold all_handed, zlen. done.
Qed.
End construction.

(** ** Events *)

Section events.
Context {B W : Type} {I : BooksimWrapper W} (G : GemConfig) (switches controllers classes room limit : Z).
Context (HL : WrapperLaws I switches classes room limit).
Local Abbreviation Net := (BooksimNetwork B W).

(** A controller sends or receives a message, an interface wakes up, time passes, or
    the statistics are reset. *)
Inductive Event : Type :=
  | Send (node vn delta : Z) (m : Message B)
  | Receive (node vn : Z)
  | Wake (i : Z)
  | Advance (t : Z)
  | ClearStatistics.

(** The network, with the messages sent and received so far. *)
Record Gem : Type := mkGem {
  gm_now : Z;
  gm_net : Net;
  gm_sent : list (Item B);
  gm_received : list (Item B)
}.
Implicit Types (g : Gem) (e : Event).

Definition do_event e g : res Gem :=
  match e with
  | Send node vn delta m => st ← send G (gm_now g) node vn delta m (gm_net g); Ok (mkGem (gm_now g) st (item (dest_of G m) vn m :: gm_sent g) (gm_received g))
  | Receive node vn => '(m, st) ← receive (gm_now g) node vn (gm_net g); Ok (mkGem (gm_now g) st (gm_sent g) (item node vn m :: gm_received g))
  | Wake i => st ← processCurrentEvent G (gm_now g) i (gm_net g); Ok (mkGem (gm_now g) st (gm_sent g) (gm_received g))
  | Advance t => Ok (mkGem t (gm_net g) (gm_sent g) (gm_received g))
  | ClearStatistics => Ok (mkGem (gm_now g) (clearStats (gm_net g)) (gm_sent g) (gm_received g))
  end.

(** When an event may happen.  A controller sends a message with one destination,
    after a delay, into a queue with room for it, and receives a message that is
    ready; an interface wakes up at a tick it has asked for; time passes by whole
    cycles and no further than the next such tick. *)
Definition enabled e g : Prop :=
  match e with
  | Send node vn delta m => ∃ b, has (bn_to (gm_net g)) node vn b ∧ 0 < delta ∧ unicast G controllers (bn_from (gm_net g)) vn m ∧ ms_time m ≤ gm_now g ∧ ms_LastEnqueueTime m ≤ gm_now g ∧
      (mb_strict_fifo b = true → mb_last_arrival_time b ≤ gm_now g + delta) ∧ room_for b ∧ zlen (gm_sent g) ≤ int_max
  | Receive node vn => ∃ b again, has (bn_from (gm_net g)) node vn b ∧ isReady (gm_now g) b = Ok (true, again)
  | Wake i => 0 ≤ i < switches ∧ (∃ ticks, (bn_interfaces (gm_net g))⟦i⟧ = (gm_now g, tt) :: ticks) ∧ gs_cycles (bn_stats (gm_net g)) + gc_speedup G ≤ limit
  | Advance t => gm_now g ≤ t ∧ t mod gc_period G = 0 ∧ ∀ i x, 0 ≤ i < switches → mfind x ((bn_interfaces (gm_net g))⟦i⟧) = Some tt → t ≤ x
  | ClearStatistics => True
  end.

(** The states of a network that starts as [st0]. *)
Inductive reach (st0 : Net) : Gem → Prop :=
  | reach_start : reach st0 (mkGem 0 st0 [] [])
  | reach_event g e g' : reach st0 g → enabled e g → do_event e g = Ok g' → reach st0 g'.

Definition sound g : Prop := ∃ s, resting G switches controllers classes room limit HL (gm_sent g) (gm_received g) s (gm_now g) (gm_net g).

Context (HO : options_ok G).

Lemma do_event_ok e g : sound g → enabled e g → returns (do_event e g) sound.
Proof.
  intros [s HR] He. destruct e as [node vn delta m|node vn|i|t|]; simpl in He |- *.
  - destruct He as (b & H1 & H2 & H3 & H4 & H5 & H6 & H7 & H8). eapply returns_bind; [by eapply send_ok|]. intros st Hst. apply returns_ok. by exists s.
  - destruct He as (b & again & H1 & H2). eapply returns_bind; [by eapply receive_ok|]. intros [m st] Hst. apply returns_ok. by exists s.
  - destruct He as (H1 & (ticks & H2) & H3). eapply returns_bind; [by eapply processCurrentEvent_ok|]. intros st [s' Hst]. apply returns_ok. by exists s'.
  - destruct He as (H1 & H2 & H3). apply returns_ok. exists s. by apply (advance_ok G switches controllers classes room limit HL _ _ _ (gm_now g)).
  - apply returns_ok. exists s. destruct HR as [[[] HW HO' HH HM HC HS] Hnow E0 Hawake]. split; try done. split; try done. by apply wl_reset.
Qed.

Lemma reach_sound st0 g : resting G switches controllers classes room limit HL [] [] (mkService [] []) 0 st0 → reach st0 g → sound g.
Proof.
  intros H0. induction 1 as [|g e g' _ IH He Hg]; [by exists (mkService [] [])|]. destruct (do_event_ok e g IH He) as (g2 & E & Hs). congruence.
Qed.

(** A message in a packet means that not all packets have been handed out. *)
Lemma flying_awake sent received s now (st : Net) : resting G switches controllers classes room limit HL sent received s now st → flying st ≠ [] →
  ∃ i x, 0 ≤ i < switches ∧ mfind x ((bn_interfaces st)⟦i⟧) = Some tt ∧ now ≤ x ∧ bn_wakeup_cycles st ≤ x.
Proof.
  intros [HI _ _ Hawake] Hf. apply Hawake. intros Hall. unfold all_handed in Hall. apply Hf. unfold flying. pose proof (iv_map _ _ _ _ _ _ _ _ _ _ _ _ _ HI) as HM. destruct (bn_packet_map st) as [|[pid x] m]; [done|].
  destruct (proj1 (HM pid)) as [Hp Hn]; [exists x; simpl; by rewrite Z.eqb_refl|]. destruct Hn. rewrite Hall. apply elem_of_seqZ. lia.
Qed.

(** What the network guarantees: no event fails; every message sent is in a queue, in
    a packet, or received, by its destination; and when one is in a packet, some
    interface will wake up and run the network. *)
Definition delivers g : Prop :=
  (∀ e, enabled e g → ∃ g', do_event e g = Ok g') ∧
  gm_sent g ≡ₚ pending G (gm_net g) ++ flying (gm_net g) ++ arrived (gm_net g) ++ gm_received g ∧
  (flying (gm_net g) ≠ [] → ∃ i x, 0 ≤ i < switches ∧ mfind x ((bn_interfaces (gm_net g))⟦i⟧) = Some tt ∧ gm_now g ≤ x ∧ bn_wakeup_cycles (gm_net g) ≤ x).

Lemma sound_delivers g : sound g → delivers g.
Proof.
  intros Hs. pose proof Hs as [s HR]. split; [|split].
  - intros e He. destruct (do_event_ok e g Hs He) as (g' & E & _). by exists g'.
  - apply (rs_inv _ _ _ _ _ _ _ _ _ _ _ _ HR).
  - by eapply flying_awake.
Qed.
End events.

(** ** Destinations *)

Section destinations.
Context (types : MachineTypes).

Lemma base_number_S m : 0 ≤ m < zlen types → base_number types (m + 1) = base_number types m + types⟦m⟧.
Proof.
  intros Hm. unfold base_number. replace (Z.to_nat (m + 1)) with (S (Z.to_nat m)) by lia. rewrite (take_S_r _ _ (types⟦m⟧)) by by apply znth_lookup. rewrite zsum_app. simpl. lia.
Qed.

Lemma split_node_ok ts : Forall (λ c, 0 ≤ c) ts → ∀ m node, 0 ≤ node < zsum ts →
  ∃ k, split_node ts m node = (m + Z.of_nat k, node - zsum (take k ts)) ∧ (k < length ts)%nat ∧ 0 ≤ node - zsum (take k ts) < ts⟦Z.of_nat k⟧.
Proof.
  intros HF. induction HF as [|c ts Hc HF IH]; intros m node Hn; [simpl in Hn; lia|]. simpl in Hn |- *. destruct (Z.ltb_spec node c) as [Hlt|Hge].
  - exists 0%nat. simpl. split; [f_equal; lia|]. split; [lia|]. unfold znth. simpl. lia.
  - destruct (IH (m + 1) (node - c) ltac:(lia)) as (k & E & Hk & Hr). exists (S k). simpl. rewrite E. split; [f_equal; lia|]. split; [lia|]. unfold znth in *. rewrite Nat2Z.id in Hr |- *. simpl. lia.
Qed.

Lemma base_number_mono i j : Forall (λ c, 0 ≤ c) types → 0 ≤ i ≤ j → base_number types i ≤ base_number types j.
Proof.
  intros HF Hij. unfold base_number. replace (Z.to_nat j) with (Z.to_nat i + (Z.to_nat j - Z.to_nat i))%nat by lia. rewrite <- take_take_drop, zsum_app. pose proof (zsum_nonneg (take (Z.to_nat j - Z.to_nat i) (drop (Z.to_nat i) types)) ltac:(by apply Forall_take, Forall_drop)). lia.
Qed.

Lemma head_filter (P : Z → bool) n k : 0 ≤ k < n → P k = true → (∀ j, 0 ≤ j < k → P j = false) → head (List.filter P (seqZ 0 n)) = Some k.
Proof.
  intros Hk Pk Hj. replace n with (k + (n - k)) by lia. rewrite seqZ_app, List.filter_app by lia. replace (List.filter P (seqZ 0 k)) with (@nil Z).
  - rewrite Z.add_0_l, seqZ_cons by lia. simpl. by rewrite Pk.
  - symmetry. assert (∀ l, Forall (λ j, P j = false) l → List.filter P l = []) as Hf by (intros l; induction 1 as [|x l Hx _ IH]; [done|]; simpl; by rewrite Hx). apply Hf, Forall_forall. intros j Hin. apply elem_of_seqZ in Hin. apply Hj. lia.
Qed.

(** The numbers of a set with one element. *)
Lemma single_dest s : ∀ n i k, (i < n)%nat → concat ((λ '(j, s), (λ x, base_number types j + x) <$> (s : iset).*1) <$> zip (seqZ k (Z.of_nat n)) (<[i := s]> (replicate n []))) = (λ x, base_number types (k + Z.of_nat i) + x) <$> s.*1.
Proof.
  assert (∀ n k, concat ((λ '(j, s), (λ x, base_number types j + x) <$> (s : iset).*1) <$> zip (seqZ k (Z.of_nat n)) (replicate n [])) = []) as H0.
  { induction n as [|n IH]; intros k; [done|]. rewrite seqZ_cons by lia. replace (Z.pred (Z.of_nat (S n))) with (Z.of_nat n) by lia. simpl. apply IH. }
  induction n as [|n IH]; intros i k Hi; [lia|]. rewrite seqZ_cons by lia. replace (Z.pred (Z.of_nat (S n))) with (Z.of_nat n) by lia. destruct i as [|i]; simpl.
  - rewrite H0, app_nil_r, Z.add_0_r. done.
  - rewrite IH by lia. replace (Z.succ k + Z.of_nat i) with (k + Z.of_nat (S i)) by lia. done.
Qed.

Lemma add_single m num : 0 ≤ m < zlen types → num < types⟦m⟧ → returns (add types m num (NetDestOps.New types)) (λ d, getAllDest types d = [base_number types m + num] ∧ zlen d = zlen types).
Proof.
  intros Hm Hn. unfold add, base_count. rewrite (proj2 (Z.leb_le 0 m)), (proj2 (Z.ltb_lt m _)) by lia. cbn [andb]. apply returns_vget; [done|]. apply returns_assert; [lia|]. assert (zlen (NetDestOps.New types) = zlen types) as El by (unfold NetDestOps.New, zlen; by rewrite length_replicate).
  apply returns_vget; [lia|]. rewrite vset_ok by lia. apply returns_ok. split; [|by rewrite zlen_zupd]. unfold getAllDest. rewrite zlen_zupd, El. unfold NetDestOps.New, zupd, zlen in *. rewrite single_dest by lia.
  rewrite Z.add_0_l, Z2Nat.id by lia. replace ((replicate (length types) [])⟦m⟧ : iset) with ([] : iset); [done|]. unfold znth. symmetry. apply list_lookup_total_correct, lookup_replicate. split; [done|lia].
Qed.
End destinations.

Section personal.
Context {B : Type} (G : GemConfig) (HF : Forall (λ c, 0 ≤ c) (gc_types G)).

(** The search over the types finds what [getSwitchID] computes. *)
Lemma machine_of_ok d : 0 ≤ d < zsum (gc_types G) → ∃ m num, getSwitchID G d = (m, num) ∧ machine_of G d = Some (m, num) ∧ 0 ≤ m < zlen (gc_types G) ∧ 0 ≤ num < (gc_types G)⟦m⟧ ∧ base_number (gc_types G) m + num = d.
Proof.
  intros Hd. destruct (split_node_ok _ HF 0 d Hd) as (k & E & Hk & Hr). set (m := Z.of_nat k). assert (base_number (gc_types G) m = zsum (take k (gc_types G))) as Eb by (unfold base_number, m; by rewrite Nat2Z.id).
  assert (0 ≤ m < zlen (gc_types G)) as Hm by (unfold zlen, m; lia). pose proof (base_number_S _ m Hm) as Es.
  exists m, (d - base_number (gc_types G) m). split; [unfold getSwitchID; rewrite E, Eb; by rewrite Z.add_0_l|]. split; [|split; [done|]; split; [by rewrite Eb|lia]]. unfold machine_of. rewrite <- Eb in Hr. fold m in Hr. rewrite (head_filter _ _ m); [done|done|apply andb_true_intro; rewrite Z.leb_le, Z.ltb_lt; lia|].
  intros j Hj. apply andb_false_intro2, Z.ltb_ge. pose proof (base_number_mono (gc_types G) (j + 1) m HF ltac:(lia)). lia.
Qed.

(** In a message with several destinations, the copy for each has it as its only
    destination, wherever the controllers' types put its number. *)
Theorem personal_copy all d (msg : Message B) : 1 < zlen all → 0 ≤ d < zsum (gc_types G) →
  returns (personal G all d msg) (λ '(copy, dest), ms_dest copy = dest ∧ getAllDest (gc_types G) dest = [d] ∧ ms_body copy = ms_body msg ∧ ms_size copy = ms_size msg).
Proof.
  intros Ha Hd. destruct (machine_of_ok d Hd) as (m & num & _ & E & Hm & Hn & Eb). unfold personal. rewrite (proj2 (Z.ltb_lt _ _)) by done. rewrite E.
  eapply returns_bind; [apply add_single; [done|lia]|]. intros dest [Hx _]. apply returns_ok. split; [done|]. by rewrite Hx, Eb.
Qed.
End personal.

Lemma personal_copy_witness : returns (personal (mkGemConfig 500 1 [4; 1] 8 72) [2; 4] 4 (mkMessage 0 0 0 0 Data [[(2, tt)]; [(0, tt)]] 7))
  (λ '(copy, dest), ms_dest copy = dest ∧ getAllDest [4; 1] dest = [4] ∧ ms_body copy = 7 ∧ ms_size copy = Data).
Proof. apply (personal_copy (mkGemConfig 500 1 [4; 1] 8 72)); [repeat constructor; done|by compute|by compute]. Defined.

(** ** Reset *)

Section reset.
Context {B W : Type} (vnets : Z) (Hv : 0 ≤ vnets).
Implicit Types qs : list (list (option (MessageBuffer B))).

(** Every node has [vnets] queues, of which those up to queue [j] of [node] are empty. *)
Record cleared (nodes node j : Z) qs : Prop := {
  cl_len : zlen qs = nodes;
  cl_all : ∀ n v, 0 ≤ n < nodes → (∃ b, has qs n v b) ↔ 0 ≤ v < vnets;
  cl_empty : ∀ n v b, has qs n v b → n < node ∨ n = node ∧ v < j → mb_prio_heap b = []
}.

Lemma clear_queue_ok nodes node j qs : cleared nodes node j qs → 0 ≤ node < nodes → 0 ≤ j < vnets → returns (clear_queue node j qs) (cleared nodes node (j + 1)).
Proof.
  intros [C1 C2 C3] Hn Hj. destruct (proj2 (C2 node j Hn) Hj) as [b Hb]. unfold clear_queue. rewrite (has_queue _ _ _ _ Hb). cbn [mbind res_bind]. eapply returns_mono; [by eapply set_queue_ok|]. intros qs' [R1 _ R2 _]. split; [lia| |].
  - intros n v Hn'. rewrite <- (C2 n v Hn'). destruct (decide (n = node ∧ v = j)) as [[-> ->]|Hne].
    + split; intros _; [by exists b|]. exists (clear b). apply R2. by rewrite decide_True.
    + split; intros [x Hx]; exists x; [by rewrite R2, decide_False in Hx by done|by rewrite R2, decide_False by done].
  - intros n v x Hx Hd. rewrite R2 in Hx. destruct (decide (n = node ∧ v = j)) as [|Hne]; [by subst x|]. apply (C3 n v x Hx). destruct (decide (n = node)) as [->|]; [right; split; [done|]; assert (v ≠ j) by naive_solver|]; lia.
Qed.

Lemma next_node nodes node qs : cleared nodes node vnets qs → cleared nodes (node + 1) 0 qs.
Proof.
  intros [C1 C2 C3]. split; [done|done|]. intros n v b Hb Hd. apply (C3 n v b Hb). pose proof Hb as (Hn & _ & _). rewrite C1 in Hn. pose proof (proj1 (C2 n v Hn) ltac:(by exists b)). lia.
Qed.

(** All queues are empty afterwards.  The packets stay. *)
Lemma reset_ok (st : BooksimNetwork B W) : zlen (bn_from st) = zlen (bn_to st) → (∀ n v, 0 ≤ n < zlen (bn_to st) → ((∃ b, has (bn_to st) n v b) ↔ 0 ≤ v < vnets) ∧ ((∃ b, has (bn_from st) n v b) ↔ 0 ≤ v < vnets)) →
  returns (reset vnets st) (λ st', (∀ n v b, has (bn_to st') n v b → mb_prio_heap b = []) ∧ (∀ n v b, has (bn_from st') n v b → mb_prio_heap b = []) ∧ bn_packet_map st' = bn_packet_map st).
Proof.
  intros El Hall. set (nodes := zlen (bn_to st)) in *. set (C node j (s : BooksimNetwork B W) := cleared nodes node j (bn_to s) ∧ cleared nodes node j (bn_from s) ∧ bn_packet_map s = bn_packet_map st).
  eapply returns_mono; [apply (returns_for (λ node s, C node 0 s)); [apply zlen_nonneg| |]|].
  - split; [|split; [|done]]; (split; [done|intros n v Hn; by apply Hall|intros n v b ((Hn & _) & (Hn2 & _) & _) Hd; lia]).
  - intros node s Hn Hs. eapply returns_mono; [apply (returns_for (λ j s, C node j s)); [done|done|]|].
    + intros j s' Hj (H1 & H2 & H3). eapply returns_bind; [by apply (clear_queue_ok nodes)|]. intros to Ht. eapply returns_bind; [by apply (clear_queue_ok nodes)|]. intros from Hf. by apply returns_ok.
    + intros s' (H1 & H2 & H3). split; [by apply next_node|]. split; [by apply next_node|done].
  - intros s ([A1 _ A3] & [B1 _ B3] & H3). split; [|split; [|done]]; intros n v b Hb; [apply (A3 n v b Hb)|apply (B3 n v b Hb)]; destruct Hb as ((? & ?) & _); lia.
Qed.
End reset.

(** ** The network of gem5 on a simulator *)

Section delivery.
Context {VA SA PA B : Type} `{Inhabited SA} (Q : Steered VA SA PA) (A : Assembly VA SA) (G : GemConfig).

(** The network is made with a simulator for its topology and then linked. *)
Definition gem_start (links : list Link) (to from : list (list (option (MessageBuffer B)))) : res (BooksimNetwork B (TM VA SA PA)) :=
  tm ← assemble Q A;
  start G (tc_nodes (sg_T Q)) links to from tm.

(** The events one after the other. *)
Definition run_events (es : list (Event (B := B))) (g : Gem (W := TM VA SA PA)) : res (Gem (W := TM VA SA PA)) :=
  foldl (λ r e, g ← r; do_event (I := sim_wrapper (steered_sim Q)) G e g) (Ok g) es.

Lemma gem_start_ok (HA : assembly_ok Q A) controllers links (to from : list (list (option (MessageBuffer B)))) : sg_latency Q ≤ int_max → options_ok G →
  links_ok G (tc_nodes (sg_T Q)) controllers links → queues_ok controllers (tc_classes (sg_T Q)) to from →
  returns (gem_start links to from)
    (resting G (tc_nodes (sg_T Q)) controllers (tc_classes (sg_T Q)) (tc_inj_size (sg_T Q)) (time_limit (steered_sim Q)) (sim_laws (steered_sim Q) (ao_channels _ _ HA) (ao_inj _ _ HA)) [] [] (mkService [] []) 0).
Proof.
  intros Hl HO Hlinks Hq. eapply returns_bind; [by apply assemble_ok|]. intros tm [H0 Et]. pose proof (sg_nodes Q). pose proof (to_nodes _ _ _ _ (sg_tm Q)). apply gem_links_start; try done; [lia|].
  exists (λ _, nothing), [], []. split; [done|]. split; [done|]. split; [done|]. unfold time_limit. change (ns_latency _) with (sg_latency Q). pose proof (ao_latency _ _ HA). lia.
Qed.
End delivery.

Module GemSample.

(** Four controllers of one type and one of another on the 2x2 mesh: controllers 0
    and 4 share a switch. *)
Definition config : GemConfig := mkGemConfig 500 1 [4; 1] 8 72.
Definition dest (m num : Z) : list iset := match add (gc_types config) m num (NetDestOps.New (gc_types config)) with Ok d => d | Fail _ => [] end.
Definition links : list Link :=
  [ExtIn 0 0; ExtIn 1 1; ExtIn 2 2; ExtIn 3 3; ExtIn 4 0;
   ExtOut 0 0 [dest 0 0]; ExtOut 1 1 [dest 0 1]; ExtOut 2 2 [dest 0 2]; ExtOut 3 3 [dest 0 3]; ExtOut 0 4 [dest 1 0]; Internal 0 1; Internal 1 0].
Definition queues : list (list (option (MessageBuffer Z))) := replicate 5 [Some (MessageBufferOps.New 0 0 false false)].
Definition bounded : list (list (option (MessageBuffer Z))) := replicate 5 [Some (MessageBufferOps.New 1 0 false false)].
Definition assembly := mesh_assembly Sample.mesh Sample.cfg none false Sample.va Sample.sa RngOps.initial.

Definition message (size : MessageSizeType) (d : list iset) (body : Z) : Message Z := mkMessage 0 0 0 0 size d body.

(** The interface that has asked for the earliest tick. *)
Definition next (ts : list iset) : option (Z * Z) :=
  foldr (λ '(i, t) best, match (t : iset), best with
    | (x, _) :: _, Some (j, y) => if x <=? y then Some (i, x) else best
    | (x, _) :: _, None => Some (i, x)
    | [], _ => best
    end) None (zip (seqZ 0 (zlen ts)) ts).

Local Abbreviation State := (Gem (B := Z) (W := TM ISLIP ISLIP ISLIP)).

(** Interfaces wake up when they have asked for it, at most [k] times. *)
Fixpoint drive (k : nat) (g : State) : res State :=
  match k, next (bn_interfaces (gm_net g)) with
  | S k, Some (i, x) => g ← run_events (mesh_steered Sample.mesh) config [Advance x; Wake i] g; drive k g
  | _, _ => Ok g
  end.

(** After the events [es], and no more wakeups: what is in the queues towards the
    network, in packets and in the queues from it, and whether an interface will
    wake up. *)
Definition result (from : list (list (option (MessageBuffer Z)))) (es : list Event) : res (list (Item Z) * list (Item Z) * list (Item Z) * bool) :=
  st ← gem_start (mesh_steered Sample.mesh) assembly config links queues from;
  g ← run_events (mesh_steered Sample.mesh) config es (mkGem 0 st [] []);
  g ← drive 100 g;
  Ok (pending config (gm_net g), flying (gm_net g), arrived (gm_net g), match next (bn_interfaces (gm_net g)) with Some _ => true | None => false end).

Definition quiet (from : list (list (option (MessageBuffer Z)))) (es : list Event) : option (list (Item Z) * list (Item Z) * list (Item Z)) :=
  match result from es with Ok (p, f, a, false) => Some (p, f, a) | _ => None end.

Lemma options_hold : options_ok config.
Proof. by split. Qed.

(** Each fact about the links holds of the links one by one. *)
Lemma links_hold : links_ok config 4 5 links.
Proof.
  split.
  - intros n i Hl. unfold links in Hl. rewrite !elem_of_cons, elem_of_nil in Hl. naive_solver lia.
  - apply (bool_decide_unpack _). by vm_compute.
  - intros i n es Hl. assert (Forall (λ l, match l with ExtOut i n es => 0 ≤ i < 4 ∧ 0 ≤ n < 5 ∧ (es ≫= getAllDest (gc_types config)) = [n] | _ => True end) links) as HF by (repeat constructor; vm_compute; done || (split_and!; done)).
    rewrite Forall_forall in HF. destruct (HF _ Hl) as (H1 & H2 & ->). split; [done|]. split; [done|]. split; [done|]. by constructor.
  - intros n Hn. assert (n = 0 ∨ n = 1 ∨ n = 2 ∨ n = 3 ∨ n = 4) as [->|[->|[->|[->| ->]]]] by lia; do 2 eexists; (split; [|]); unfold links; rewrite !elem_of_cons; naive_solver.
Qed.

Lemma queues_hold : queues_ok 5 1 queues queues.
Proof.
  assert (∀ n v b, has queues n v b → v = 0 ∧ b = MessageBufferOps.New 0 0 false false) as Hq.
  { intros n v b (Hn & Hv & Hb). change (zlen queues) with 5 in Hn. assert (queues⟦n⟧ = [Some (MessageBufferOps.New 0 0 false false)]) as E by (by apply (znth_replicate 5)). rewrite E in Hv, Hb. unfold zlen in Hv. simpl in Hv. assert (v = 0) as -> by lia. by injection Hb as <-. }
  split; [done|done| |]; intros n v b Hb; destruct (Hq n v b Hb) as [-> ->]; [split; [lia|by exists 0, 0, false, false]|by exists 0, false, false].
Qed.
End GemSample.

(** ** The theorems *)

(** C3. gem5's memory system on a simulator, such as that of a mesh or of a network read
    from a file, from construction on and through any sequence of events in which
    the controllers send messages with one destination: no event fails; every message
    sent is, once, in a queue towards the network, in a packet, in a queue of its
    destination or received there, with its contents; and as long as one is in a
    packet, some interface will wake up and run the network. *)
Theorem gem5_delivers {VA SA PA B : Type} `{Inhabited SA} (Q : Steered VA SA PA) (A : Assembly VA SA) (G : GemConfig) controllers links (to from : list (list (option (MessageBuffer B)))) :
  assembly_ok Q A → sg_latency Q ≤ int_max → options_ok G → links_ok G (tc_nodes (sg_T Q)) controllers links → queues_ok controllers (tc_classes (sg_T Q)) to from →
  returns (gem_start Q A G links to from) (λ st0, ∀ g,
    reach (I := sim_wrapper (steered_sim Q)) G (tc_nodes (sg_T Q)) controllers (time_limit (steered_sim Q)) st0 g →
    delivers (I := sim_wrapper (steered_sim Q)) G (tc_nodes (sg_T Q)) controllers (time_limit (steered_sim Q)) g).
Proof.
  intros HA Hl HO Hlinks Hq. eapply returns_mono; [by apply (gem_start_ok Q A G HA controllers)|]. intros st0 H0 g Hg. eapply sound_delivers; [done|]. by eapply reach_sound.
Qed.

Lemma gem5_delivers_witness : returns (gem_start (mesh_steered Sample.mesh) GemSample.assembly GemSample.config GemSample.links GemSample.queues GemSample.queues) (λ st0, ∀ g,
    reach (I := sim_wrapper (steered_sim (mesh_steered Sample.mesh))) GemSample.config 4 5 (int_max - 1) st0 g →
    delivers (I := sim_wrapper (steered_sim (mesh_steered Sample.mesh))) GemSample.config 4 5 (int_max - 1) g).
Proof.
  apply (gem5_delivers (mesh_steered Sample.mesh) GemSample.assembly GemSample.config 5); [apply mesh_assembly_ok, Sample.mesh_parts_ok|done|apply GemSample.options_hold|apply GemSample.links_hold|apply GemSample.queues_hold].
Defined.

(** A message to another switch arrives, and the interfaces sleep. *)
Example message_arrives :
  GemSample.quiet GemSample.queues [Send 0 0 500 (GemSample.message Control (GemSample.dest 0 3) 7)] = Some ([], [], [mkItem 3 0 (0, Control, GemSample.dest 0 3, 7)]).
Proof. by vm_compute. Qed.

(** A message of five flits to the controllers 2 and 3 reaches controller 2 only: the
    packet for controller 3 is refused because the injection queue is full, but the
    message is taken off its queue because the other packet was accepted. *)
Theorem multicast_lost :
  GemSample.quiet GemSample.queues [Send 0 0 500 (GemSample.message Data [[(2, tt); (3, tt)]; []] 7)] = Some ([], [], [mkItem 2 0 (0, Data, GemSample.dest 0 2, 7)]).
Proof. by vm_compute. Qed.

(** Of two messages to a controller on the own switch that arrive in the same cycle,
    the second is left in its queue and no interface will wake up: a wakeup reads one
    message of a queue, and another wakeup follows only while packets are in flight. *)
Theorem message_left_behind :
  GemSample.quiet GemSample.queues [Send 0 0 500 (GemSample.message Data (GemSample.dest 1 0) 7); Send 0 0 500 (GemSample.message Data (GemSample.dest 1 0) 8)] =
    Some ([mkItem 4 0 (0, Data, GemSample.dest 1 0, 8)], [], [mkItem 4 0 (0, Data, GemSample.dest 1 0, 7)]).
Proof. by vm_compute. Qed.

(** With queues from the network for one message each, two messages to a controller
    fail the assertion of [MessageBuffer::enqueue]: the network does not ask whether
    there is room. *)
Example bounded_queue_fails :
  GemSample.result GemSample.bounded [Send 1 0 500 (GemSample.message Data (GemSample.dest 1 0) 7); Send 2 0 500 (GemSample.message Data (GemSample.dest 1 0) 8)] = Fail AssertFailed.
Proof. by vm_compute. Qed.
